(* ===== verification/_CoqProject ===== *)
-Q . S2P
Prelude.v
WireSpec.v
CMem.v
CLayout.v
PbH.v
PbStream.v
PbCommon.v
PbEncode.v
PbEmission.v
PbEncodeRef.v
PbDecodePrim.v
PbPrimSpec.v
PbDecode.v
PbDecodeTotal.v
PbDecodeSpec.v
SepMem.v
PbOwn.v
PbDefects.v
CctProto.v
CoreDiagProto.v
Transport.v
FBase64.v
LdbCoding.v
LdbCrc32c.v
LdbBloom.v
LdbStatus.v
LdbEnvPosix.v
LdbLogWriter.v
LdbLogReader.v
LdbLog.v
LdbOrder.v
LdbKeys.v
LdbRandom.v
LdbArena.v
LdbSkipList.v
LdbSkipListSpec.v
LdbSkipListConc.v
LdbMemTable.v
LdbWriteBatch.v
Witnesses.v
LdbWitnesses.v
LdbMemWitnesses.v
LdbDbWrite.v
LdbRecovery.v
LdbIterator.v
LdbBlock.v
LdbBlockSpec.v
LdbFormat.v
LdbFilterBlock.v
LdbTwoLevel.v
LdbMerger.v
LdbTableBuilder.v
LdbTableLayout.v
LdbTableBuilderSpec.v
LdbTable.v
LdbTableSpec.v
LdbTableFile.v
LdbCache.v
LdbCacheLinks.v
LdbCacheSpec.v
LdbCacheLife.v
LdbTableWitnesses.v
LdbDefects.v
LdbDbIter.v
LdbDbIterSpec.v
LdbNewIterator.v
LdbDbWitnesses.v
LdbVersionEdit.v
LdbVersion.v
LdbVersionGet.v
LdbVersionWitnesses.v
LdbFilename.v
LdbVersionBuilder.v
LdbVersionSet.v
LdbManifest.v
LdbSnapshot.v
LdbDbFiles.v
LdbManifestWitnesses.v
