(* ===== verification/Prelude.v ===== *)
(** * Verification of the C and C++ core of Logoguess

    The application is a Flutter program; what it runs in C and C++ are the
    libraries of its iOS side under src/ios/Pods.  This development models the ones
    with a logic of their own and proves what makes them correct: nanopb, the
    protocol-buffer runtime with which Firebase's log transport and core diagnostics
    write their messages (nanopb/, GoogleDataTransport/.../nanopb,
    FirebaseCoreDiagnostics/.../nanopb); the base64 coder of the realtime database's
    web socket (FirebaseDatabase/.../fbase64.c); and LevelDB, its key-value store
    (leveldb-library/).

    ** Conventions

    A C function is a Rocq function of its arguments and of the state it changes.
    [res] (in this file) is the outcome of running code: [Ret] with a value, [UB] for
    undefined behaviour and failed assertions, [OutOfFuel] when a loop was given too
    little fuel; so a theorem that says [f x = Ret y] says that [f] ends, reads and
    writes only what it may, and fails no assertion.  Errors that the code reports
    are values: a false result, a [Status], an option.  Machine integers are [Z] with
    [wrap], [u8], [u32], [u64] and the signed [swrap] written where the code
    wraps; bytes are [Z] below 256; a [Slice] or a string is its list of bytes, a
    pointer into one is an offset.  [loop] is a C loop with fuel; the theorems
    show that the fuel the definitions give is enough, or name the fuel they need.  Names are those of the code where Rocq
    allows it.  What is not in the repository (system calls, [operator new[]], user
    comparators and handlers, files) is a parameter, with what the code relies on as
    the laws of a type class; the witness files instantiate all of them.

    ** nanopb (nanopb/pb.h, pb_common.c, pb_encode.c, pb_decode.c)

    - [WireSpec] is the wire format; [CMem] and [CLayout] the memory, the heap and
      the layout of structs; [PbH] the descriptors and the macros that make them
      (pb.h); [PbStream] and [PbCommon] the streams and the field iterator.
    - [PbEncode] is pb_encode.c.  [PbEmission] and [PbEncodeRef] show that it
      refines a reference encoder that knows neither streams nor sizes; that
      measuring and then writing, as the transport does, gives just the encoding.
      The fuel of [pb_encode] bounds the nesting of messages.
    - [PbDecodePrim] and [PbDecode] are pb_decode.c.  [PbPrimSpec] has its
      primitives, [PbDecodeTotal] that it ends on every input with a fuel of the
      nesting depth plus two and stays in it, [PbDecodeSpec] its
      allocations and its bookkeeping of required fields.  [SepMem] is a separation
      logic over the memory, with Iris's proof mode, and [PbOwn] the invariant of
      what a decoded message owns.
    - [CctProto], [CoreDiagProto] and [Transport] are the generated messages and
      their use: the descriptors fit the structs, messages round trip.
    - [PbDefects] is what the code does against its intentions.

    ** Base64 (fbase64.c)

    [FBase64]: the encoder gives the RFC's text, the decoder its inverse, and
    neither leaves its buffers.

    ** LevelDB (leveldb-library/)

    From the bottom up; each layer is used by those below it in this list through
    the classes named.

    - [LdbCoding] (util/coding; class [Coder]), [LdbCrc32c] (util/crc32c;
      [Checksum]), [LdbBloom] (util/hash, util/bloom), [LdbRandom] (util/random.h),
      [LdbStatus] and [LdbEnvPosix] (status, env.h, util/env_posix.cc; [FailStop],
      [HarmlessSync], [LawfulSequential]).
    - [LdbLogWriter], [LdbLogReader], [LdbLog] (db/log_writer, log_reader): what is
      written is a fragmentation of the records; after a crash the reader finds
      just the records that are complete, and reports damage; a trailer that could
      not be written goes unnoticed.
    - [LdbOrder], [LdbKeys] (util/comparator, db/dbformat; [KeyOrder],
      [ComparatorLaws], [FilterLaws]): internal keys, their order and filters.
    - [LdbArena], [LdbSkipList], [LdbSkipListSpec], [LdbSkipListConc] (util/arena,
      db/skiplist.h): regions that do not overlap; a sorted list of keys; a reader
      that runs beside a writer in any interleaving of their loads and stores.
    - [LdbMemTable], [LdbWriteBatch] (db/memtable, db/write_batch): a sorted list of
      entries that answers with the newest one a snapshot sees.
    - [LdbDbWrite], [LdbRecovery] (db/db_impl.cc): group commit, reads of the
      memtables, recovery of a log; what was acknowledged survives a crash.
    - [LdbIterator] (table/iterator, iterator_wrapper; [LawfulIterator]: an iterator
      is a position in a sorted list of pairs), and what keeps this contract:
      [LdbBlock], [LdbBlockSpec] (table/block_builder, block), [LdbTwoLevel]
      (two_level_iterator), [LdbMerger] (merger).
    - [LdbFormat] (format), [LdbFilterBlock] (filter_block), [LdbTableBuilder],
      [LdbTableLayout], [LdbTableBuilderSpec] (table_builder), [LdbTable],
      [LdbTableSpec], [LdbTableFile] (table; [Cache], [LawfulCache]): a table that
      was finished without an error is read back with just its pairs.
    - [LdbCache], [LdbCacheLinks], [LdbCacheSpec], [LdbCacheLife]
      (util/cache.cc): the linked lists and hash table of a shard keep the contract
      of caches; entries are evicted oldest first; every value is deleted once.  A
      freed entry loses its links with its other fields, so that the theorems also say
      that the code touches no entry after freeing it.
    - [LdbDbIter], [LdbDbIterSpec] (db/db_iter): [DBIter] over any iterator of internal
      keys is a lawful iterator over what its snapshot sees, whatever the sequence of
      movements and changes of direction; [LdbNewIterator] (db/memtable.cc,
      db/db_impl.cc): the iterator of a memtable, the merge of all of a database and
      [DBImpl::NewIterator]; [Get] and the iterator of the same snapshot agree.
    - [LdbVersionEdit] (db/version_edit): the records of a manifest with their coding;
      [LdbVersion], [LdbVersionGet] (db/version_set.cc): the files of
      a version, those that overlap a range, the level a memtable is written to,
      [Version::Get] over a table cache that is an interface ([LawfulTables]), with
      [DBImpl::Get] through memtables and files, and the sampling of reads.
    - [LdbFilename] (db/filename.cc, util/logging.cc, util/env.cc): the
      names of files, numbers as text, whole files and CURRENT over an interface for the
      file system ([LawfulEnv]).
    - [LdbVersionBuilder], [LdbVersionSet], [LdbManifest], [LdbSnapshot]
      (db/version_set.cc): the version that a sequence of edits makes, the set of
      versions, its manifest, and recovering it after a crash, whether the manifest was
      being appended to or started; [LdbDbFiles] (db/db_impl.cc): a new database and
      the files that are deleted because nothing needs them.
    - [LdbDefects]: damaged tables with which the behaviour of the reader is undefined,
      and of which kind it is.

    The files named Witnesses apply every property that has hypotheses to concrete
    data, which satisfies them.

    ** What is not modelled

    - LevelDB: the rest of opening a database ([DBImpl::Recover] around [RecoverLogFile]), the
      scores and the choice of compactions and compaction itself, repair and the C interface (the rest of db/version_set and db_impl.cc,
      table_cache, builder, repair, c.cc).
      Locks and condition variables: the operations modelled hold their mutex from
      beginning to end, except the readers of the skip list, which hold none and
      are modelled with their interleavings.  [mmap], file locks, and background
      threads of env_posix.cc.  Snappy, which the port does not link here.
      Errors of reads: the code that handles them is modelled, but the laws of files
      that the theorems about the log reader and about recovery assume
      ([LawfulSequential], and [LawfulEnv] for what can be opened) take reads of an
      open file to succeed.
    - nanopb: callback fields are modelled as calls of parameters; the theorems
      about whole messages exclude them, as the generated files have none.
    - The Dart program, and the Objective-C and Objective-C++ SDKs (Firebase,
      GoogleDataTransport, FMDB, GTMSessionFetcher and others), which are glue around
      system frameworks whose sources are not in the repository. *)
From Stdlib Require Import ZArith Lia Btauto.
From stdpp Require Import base tactics numbers list gmap strings.
#[local] Open Scope Z_scope.

(** ** Outcomes of C code *)

(** What running a piece of C code yields: a value, undefined behaviour
    (an access outside mapped memory, a read of an indeterminate byte, a call
    through a null function pointer, a bad [free]), or the fuel of a loop or
    recursion running out.  A C function that returns [false] is a [Ret]. *)
Inductive res (A : Type) : Type :=
| Ret (a : A)
| UB
| OutOfFuel.
Arguments Ret {A} a.
Arguments UB {A}.
Arguments OutOfFuel {A}.

#[export] Instance res_eq_dec {A : Type} `{EqDecision A} : EqDecision (res A).
Proof. solve_decision. Defined.

Definition rbind {A B : Type} (m : res A) (k : A -> res B) : res B :=
  match m with
  | Ret a => k a
  | UB => UB
  | OutOfFuel => OutOfFuel
  end.

(** [if (!f(...)) return false;]: go on with the state the callee left when it
    returned true, return false with that state otherwise. *)
Definition bind_ok {S : Type} (m : res (bool * S)) (k : S -> res (bool * S)) : res (bool * S) :=
  match m with
  | Ret (true, s) => k s
  | Ret (false, s) => Ret (false, s)
  | UB => UB
  | OutOfFuel => OutOfFuel
  end.

Declare Scope c_scope.
Delimit Scope c_scope with c.
Notation "'let!' x := m 'in' k" := (rbind m (fun x => k))
  (at level 10, x pattern, m at level 100, k at level 200) : c_scope.
Notation "'let?' x := m 'in' k" := (bind_ok m (fun x => k))
  (at level 10, x pattern, m at level 100, k at level 200) : c_scope.
#[global] Open Scope c_scope.

(** [assert(b)]: a failed assertion stops the program, which no caller expects. *)
Definition assert_ (b : bool) : res unit := if b then Ret tt else UB.

Definition is_ret {A : Type} (m : res A) : Prop := exists a, m = Ret a.

(** ** Loops *)

(** A C loop with fuel: the body either goes on with a new state ([inl]) or
    leaves the loop with a result ([inr]). *)
Fixpoint loop {S R : Type} (fuel : nat) (body : S -> res (S + R)) (s : S) : res R :=
  match fuel with
  | O => OutOfFuel
  | Datatypes.S n =>
      let! x := body s in
      match x with
      | inl s' => loop n body s'
      | inr r => Ret r
      end
  end.

(** [for (i = 0; i < n; i++) if (!body) return false;] *)
Fixpoint for_ok {S : Type} (n : nat) (body : S -> res (bool * S)) (s : S) : res (bool * S) :=
  match n with
  | O => Ret (true, s)
  | Datatypes.S m => let? s' := body s in for_ok m body s'
  end.

(** ** Machine integers: values in Z, wrap-around written out *)

Definition wrap (w z : Z) : Z := z mod 2 ^ w.
Definition swrap (w z : Z) : Z := (z + 2 ^ (w - 1)) mod 2 ^ w - 2 ^ (w - 1).

Definition u8 (z : Z) : Z := wrap 8 z.
Definition u32 (z : Z) : Z := wrap 32 z.
Definition u64 (z : Z) : Z := wrap 64 z.

Definition is_byte (b : Z) : Prop := 0 <= b < 256.

Definition zlen {A : Type} (l : list A) : Z := Z.of_nat (length l).

(** Little-endian representation of integers as byte lists. *)
Fixpoint le_split (n : nat) (z : Z) : list Z :=
  match n with
  | O => []
  | S n => z mod 256 :: le_split n (z / 256)
  end.

Fixpoint le_combine (bs : list Z) : Z :=
  match bs with
  | [] => 0
  | b :: bs => b + 256 * le_combine bs
  end.

(** ** Lemmas: outcomes and loops *)

(** Case analysis on every computation a hypothesis [... = Ret _] went through. *)
Ltac res_step H :=
  lazymatch type of H with
  | rbind ?m _ = Ret _ =>
      let E := fresh "E" in destruct m eqn:E; cbn [rbind] in H; [ | discriminate H | discriminate H]
  | bind_ok ?m _ = Ret _ =>
      let E := fresh "E" in
      destruct m as [[[] ?]| |] eqn:E; cbn [bind_ok] in H; [ | | discriminate H | discriminate H]
  | Ret _ = Ret _ => injection H as H
  end.

Lemma rbind_ret_inv {A B} (m : res A) (k : A -> res B) b :
  rbind m k = Ret b -> exists a, m = Ret a /\ k a = Ret b.
Proof. destruct m; cbn; [by eauto | done | done]. Qed.

Lemma rbind_assoc {A B C} (m : res A) (k : A -> res B) (h : B -> res C) :
  rbind (rbind m k) h = rbind m (fun a => rbind (k a) h).
Proof. by destruct m. Qed.

Lemma bind_ok_ret {S} (s : S) (k : S -> res (bool * S)) : bind_ok (Ret (true, s)) k = k s.
Proof. done. Qed.

Lemma loop_unfold {S R} n (body : S -> res (S + R)) s :
  loop (Datatypes.S n) body s =
  let! x := body s in match x with inl s' => loop n body s' | inr r => Ret r end.
Proof. done. Qed.

(** More fuel does not change a result. *)
Lemma loop_fuel_mono {S R} (body : S -> res (S + R)) n n' s r :
  loop n body s = Ret r -> (n <= n')%nat -> loop n' body s = Ret r.
Proof.
  revert n' s; induction n as [|n IH]; intros [|n'] s H Hn; try (cbn in H; discriminate || lia).
  cbn in H |- *. destruct (body s) as [[s'|r']| |]; cbn in *; try done.
  apply IH; [done | lia].
Qed.

(** Partial correctness by an invariant. *)
Lemma loop_inv {S R} (I : S -> Prop) (Q : R -> Prop) (body : S -> res (S + R)) n s r :
  (forall s x, I s -> body s = Ret x -> match x with inl s' => I s' | inr r => Q r end) ->
  I s -> loop n body s = Ret r -> Q r.
Proof.
  intros Hb; revert s; induction n as [|n IH]; intros s Hs H; [done|].
  cbn in H. destruct (body s) as [x| |] eqn:E; try done. cbn in H.
  specialize (Hb s x Hs E). destruct x as [s'|r']; [by apply (IH s') | by injection H as <-].
Qed.

(** Total correctness by an invariant and a measure. *)
Lemma loop_total {S R} (I : S -> Prop) (mu : S -> nat) (Q : R -> Prop)
    (body : S -> res (S + R)) n s :
  (forall s, I s -> exists x, body s = Ret x /\
     match x with inl s' => I s' /\ (mu s' < mu s)%nat | inr r => Q r end) ->
  I s -> (mu s < n)%nat -> exists r, loop n body s = Ret r /\ Q r.
Proof.
  intros Hb; revert s; induction n as [|n IH]; intros s Hs Hn; [lia|].
  destruct (Hb s Hs) as (x & E & Hx). cbn. rewrite E. cbn.
  destruct x as [s'|r]; [|by exists r].
  destruct Hx as [Hs' Hlt]. apply IH; [done | lia].
Qed.

Lemma for_ok_total {S} (I : nat -> S -> Prop) (Q : S -> Prop) (body : S -> res (bool * S)) n s :
  (forall i s, I (Datatypes.S i) s ->
     exists b s', body s = Ret (b, s') /\ if b then I i s' else Q s') ->
  I n s -> exists b s', for_ok n body s = Ret (b, s') /\ if b then I O s' else Q s'.
Proof.
  intros Hb; revert s; induction n as [|n IH]; intros s Hs; [by exists true, s|].
  destruct (Hb n s Hs) as (b & s' & E & H'). cbn. rewrite E. cbn.
  destruct b; [by apply IH | by exists false, s'].
Qed.

(** ** Postconditions: no fuel runs out *)

(** [post m P]: [m] is undefined behaviour, or returns a value that satisfies
    [P]; it does not run out of fuel. *)
Definition post {A : Type} (m : res A) (P : A -> Prop) : Prop :=
  match m with
  | Ret a => P a
  | UB => True
  | OutOfFuel => False
  end.

Definition terminates {A : Type} (m : res A) : Prop := post m (fun _ => True).

Lemma post_ret {A} (a : A) (P : A -> Prop) : P a -> post (Ret a) P.
Proof. done. Qed.

Lemma post_ub {A} (P : A -> Prop) : post UB P.
Proof. done. Qed.

Lemma post_mono {A} (m : res A) (P Q : A -> Prop) :
  post m P -> (forall a, P a -> Q a) -> post m Q.
Proof. destruct m; cbn; auto. Qed.

Lemma post_bind {A B} (m : res A) (k : A -> res B) (P : A -> Prop) (Q : B -> Prop) :
  post m P -> (forall a, P a -> post (k a) Q) -> post (rbind m k) Q.
Proof. destruct m; cbn; auto. Qed.

Lemma post_let {A B} (m : res A) (k : A -> res B) (Q : B -> Prop) :
  terminates m -> (forall a, post (k a) Q) -> post (rbind m k) Q.
Proof. intros Hm Hk. by apply (post_bind m k (fun _ => True)). Qed.

Lemma post_ok {S} (m : res (bool * S)) (k : S -> res (bool * S)) (P : bool * S -> Prop)
    (Q : bool * S -> Prop) :
  post m P -> (forall s, P (true, s) -> post (k s) Q) -> (forall s, P (false, s) -> Q (false, s)) ->
  post (bind_ok m k) Q.
Proof. destruct m as [[[] s]| |]; cbn; auto. Qed.

Lemma post_eq {A} (m : res A) a (P : A -> Prop) : m = Ret a -> P a -> post m P.
Proof. by intros ->. Qed.

(** A loop ends when a measure goes down in every round. *)
Lemma post_loop {S R} (I : S -> Prop) (mu : S -> nat) (Q : R -> Prop)
    (body : S -> res (S + R)) n s :
  (forall s, I s ->
     post (body s) (fun x => match x with inl s' => I s' /\ (mu s' < mu s)%nat | inr r => Q r end)) ->
  I s -> (mu s < n)%nat -> post (loop n body s) Q.
Proof.
  intros Hb; revert s; induction n as [|n IH]; intros s Hs Hn; [lia|].
  cbn [loop]. apply (post_bind _ _ _ _ (Hb s Hs)). intros [s'|r]; [|done].
  intros [Hs' Hlt]. apply IH; [done|lia].
Qed.

Create HintDb post.
#[export] Hint Resolve post_ret post_ub : post.
#[export] Hint Extern 1 (post ?m (fun _ => True)) => change (terminates m) : post.

(** ** Lemmas: integers *)

Lemma wrap_small w z : 0 <= z < 2 ^ w -> wrap w z = z.
Proof. intros. by apply Z.mod_small. Qed.

Lemma wrap_range w z : 0 <= w -> 0 <= wrap w z < 2 ^ w.
Proof. intros. apply Z.mod_pos_bound. lia. Qed.

Lemma wrap_wrap w z : wrap w (wrap w z) = wrap w z.
Proof. apply Zmod_mod. Qed.

Lemma swrap_small w z : 0 < w -> - 2 ^ (w - 1) <= z < 2 ^ (w - 1) -> swrap w z = z.
Proof.
  intros Hw Hz. unfold swrap.
  assert (2 ^ w = 2 * 2 ^ (w - 1)) by (rewrite <- Z.pow_succ_r by lia; f_equal; lia).
  rewrite Z.mod_small; lia.
Qed.

Lemma swrap_range w z : 0 < w -> - 2 ^ (w - 1) <= swrap w z < 2 ^ (w - 1).
Proof.
  intros Hw. unfold swrap.
  assert (2 ^ w = 2 * 2 ^ (w - 1)) by (rewrite <- Z.pow_succ_r by lia; f_equal; lia).
  pose proof (Z.mod_pos_bound (z + 2 ^ (w - 1)) (2 ^ w)). lia.
Qed.

(** Reading back as signed what was stored modulo the width. *)
Lemma swrap_wrap w z : 0 < w -> - 2 ^ (w - 1) <= z < 2 ^ (w - 1) -> swrap w (wrap w z) = z.
Proof.
  intros Hw Hz. unfold swrap, wrap. rewrite Zplus_mod_idemp_l.
  by apply (swrap_small w z).
Qed.

Lemma wrap_swrap w z : 0 < w -> wrap w (swrap w z) = wrap w z.
Proof.
  intros Hw. unfold swrap, wrap.
  rewrite Zminus_mod_idemp_l. f_equal. lia.
Qed.

Lemma land_127 z : Z.land z 0x7F = z mod 128.
Proof. change 0x7F with (Z.ones 7). by rewrite Z.land_ones. Qed.

Lemma land_255 z : Z.land z 0xFF = z mod 256.
Proof. change 0xFF with (Z.ones 8). by rewrite Z.land_ones. Qed.

Lemma land_shiftl_0 a b n : 0 <= n -> 0 <= a < 2 ^ n -> Z.land a (Z.shiftl b n) = 0.
Proof.
  intros Hn Ha. apply Z.bits_inj'. intros i Hi.
  rewrite Z.land_spec, Z.bits_0, Z.shiftl_spec by done.
  destruct (decide (i < n)) as [?|?].
  - rewrite (Z.testbit_neg_r b) by lia. by rewrite andb_false_r.
  - rewrite <- (Z.mod_small a (2 ^ n)), Z.mod_pow2_bits_high by lia. done.
Qed.

(** Bit-or of disjoint parts is addition. *)
Lemma lor_shiftl a b n : 0 <= n -> 0 <= a < 2 ^ n -> Z.lor a (Z.shiftl b n) = a + b * 2 ^ n.
Proof.
  intros Hn Ha. pose proof (land_shiftl_0 a b n Hn Ha) as H0.
  rewrite <- Z.lxor_lor, <- Z.add_nocarry_lxor by done.
  by rewrite Z.shiftl_mul_pow2.
Qed.

Lemma lor_range n a b : 0 <= n -> 0 <= a < 2 ^ n -> 0 <= b < 2 ^ n -> 0 <= Z.lor a b < 2 ^ n.
Proof.
  intros Hn Ha Hb. assert (0 <= Z.lor a b) as H0 by (apply Z.lor_nonneg; lia). split; [done|].
  destruct (decide (Z.lor a b = 0)) as [E|Hne]; [rewrite E; apply Z.pow_pos_nonneg; lia|].
  apply Z.log2_lt_pow2; [lia|]. rewrite Z.log2_lor by lia.
  assert (forall z, 0 <= z < 2 ^ n -> z = 0 \/ Z.log2 z < n) as Hl.
  { intros z Hz. destruct (decide (z = 0)); [by left|right]. apply Z.log2_lt_pow2; lia. }
  destruct (decide (n = 0)) as [->|Hn0].
  { change (2 ^ 0) with 1 in *. assert (a = 0) by lia. assert (b = 0) by lia. subst. done. }
  change 0 with (Z.log2 0) in *.
  destruct (Hl a Ha) as [->|?], (Hl b Hb) as [->|?]; cbn in *; lia.
Qed.

Lemma lor_128 a : 0 <= a < 128 -> Z.lor a 0x80 = a + 128.
Proof. intros. apply (lor_shiftl a 1 7); lia. Qed.

Lemma land_128_add a : 0 <= a < 128 -> Z.land (a + 128) 0x80 = 128.
Proof.
  intros. rewrite <- lor_128 by done. rewrite Z.land_lor_distr_l.
  by rewrite (land_shiftl_0 a 1 7 ltac:(lia) ltac:(lia) : Z.land a 0x80 = 0).
Qed.

Lemma land_128_small a : 0 <= a < 128 -> Z.land a 0x80 = 0.
Proof. intros. by apply (land_shiftl_0 a 1 7). Qed.

Lemma shiftr_7 z : Z.shiftr z 7 = z / 128.
Proof. by rewrite Z.shiftr_div_pow2. Qed.

(** ** Lemmas: lists and little-endian integers *)

Lemma zlen_nil {A} : zlen (@nil A) = 0.
Proof. done. Qed.

Lemma zlen_cons {A} (x : A) l : zlen (x :: l) = 1 + zlen l.
Proof. unfold zlen. cbn [length]. lia. Qed.

Lemma zlen_app {A} (l1 l2 : list A) : zlen (l1 ++ l2) = zlen l1 + zlen l2.
Proof. unfold zlen. rewrite length_app. lia. Qed.

Lemma zlen_nonneg {A} (l : list A) : 0 <= zlen l.
Proof. unfold zlen. lia. Qed.

Lemma zlen_0 {A} (l : list A) : zlen l = 0 -> l = [].
Proof. destruct l; [done|]. rewrite zlen_cons. pose proof (zlen_nonneg l). lia. Qed.

Lemma concat_snoc {A} (ls : list (list A)) l : concat (ls ++ [l]) = concat ls ++ l.
Proof. rewrite concat_app. cbn [concat]. by rewrite app_nil_r. Qed.

Lemma length_le_split n z : length (le_split n z) = n.
Proof. revert z; induction n; intros; cbn; auto. Qed.

Lemma zlen_le_split n z : zlen (le_split n z) = Z.of_nat n.
Proof. unfold zlen. by rewrite length_le_split. Qed.

Lemma le_split_bytes n z : Forall is_byte (le_split n z).
Proof.
  revert z; induction n; intros; cbn; constructor; [|done].
  apply Z.mod_pos_bound. lia.
Qed.

Lemma le_combine_split n z : le_combine (le_split n z) = z mod 2 ^ (8 * Z.of_nat n).
Proof.
  revert z; induction n as [|n IH]; intros z; [by rewrite Z.mod_1_r|].
  cbn [le_split le_combine]. rewrite IH.
  replace (8 * Z.of_nat (S n)) with (8 + 8 * Z.of_nat n) by lia.
  rewrite Z.pow_add_r by lia. change (2 ^ 8) with 256.
  assert (0 < 2 ^ (8 * Z.of_nat n)) by (apply Z.pow_pos_nonneg; lia).
  rewrite Z.rem_mul_r by lia. lia.
Qed.

Lemma le_combine_range bs :
  Forall is_byte bs -> 0 <= le_combine bs < 2 ^ (8 * zlen bs).
Proof.
  induction 1 as [|b bs Hb _ IH]; [by split|].
  rewrite zlen_cons, Z.mul_add_distr_l, Z.pow_add_r by (pose proof (zlen_nonneg bs); lia).
  cbn [le_combine]. unfold is_byte in Hb. change (2 ^ (8 * 1)) with 256.
  set (P := 2 ^ (8 * zlen bs)) in *. lia.
Qed.

Lemma le_split_combine bs : Forall is_byte bs -> le_split (length bs) (le_combine bs) = bs.
Proof.
  induction 1 as [|b bs Hb _ IH]; [done|]. cbn. unfold is_byte in Hb.
  rewrite (Z.mul_comm 256).
  rewrite Z.mod_add, Z.div_add, (Z.mod_small b), (Z.div_small b), Z.add_0_l by lia.
  by rewrite IH.
Qed.
