(* ===== verification/WireSpec.v ===== *)
(** * The protocol-buffer wire format

    What the encoder must produce and the decoder must accept for the primitive
    values, independently of streams and memory: base-128 varints, zig-zag
    integers, little-endian fixed-width values, keys and length-delimited
    payloads.  This is the specification the code's definitions are shown to
    refine. *)
From S2P Require Import Prelude.
From Stdlib Require Import ZArith Lia.
From stdpp Require Import base tactics numbers list.
#[local] Open Scope Z_scope.

(** ** Specification *)

(** Little-endian base-128 digits, the high bit set on all but the last. *)
Fixpoint varint_enc (n : nat) (v : Z) : list Z :=
  match n with
  | O => []
  | S n => if v <? 128 then [v] else v mod 128 + 128 :: varint_enc n (v / 128)
  end.

(** Ten digits hold any 64-bit value. *)
Definition varint (v : Z) : list Z := varint_enc 10 v.

#[global] Arguments varint : simpl never.

(** Parse a varint of at most [n] bytes: its value and the bytes after it. *)
Fixpoint varint_dec (n : nat) (bs : list Z) : option (Z * list Z) :=
  match n, bs with
  | S n, b :: bs =>
      if b <? 128 then Some (b, bs)
      else
        match varint_dec n bs with
        | Some (v, rest) => Some (b - 128 + 128 * v, rest)
        | None => None
        end
  | _, _ => None
  end.

Definition zigzag (v : Z) : Z := if v <? 0 then - 2 * v - 1 else 2 * v.

Definition unzigzag (u : Z) : Z := if Z.odd u then - (u / 2) - 1 else u / 2.

(** A field key: the field number and the wire type. *)
Definition key (wire_type tag : Z) : list Z := varint (8 * tag + wire_type).

Definition delimited_bytes (bs : list Z) : list Z := varint (zlen bs) ++ bs.

(** ** Properties of the format *)

Lemma varint_dec_cons n b bs :
  varint_dec (S n) (b :: bs) =
  if b <? 128 then Some (b, bs)
  else
    match varint_dec n bs with
    | Some (v, rest) => Some (b - 128 + 128 * v, rest)
    | None => None
    end.
Proof. done. Qed.

Lemma varint_enc_bytes n v : 0 <= v -> Forall is_byte (varint_enc n v).
Proof.
  revert v; induction n as [|n IH]; intros v Hv; cbn; [done|].
  destruct (Z.ltb_spec v 128) as [Hlt|Hge]; constructor; unfold is_byte.
  - lia.
  - done.
  - pose proof (Z.mod_pos_bound v 128). lia.
  - apply IH. apply Z.div_pos; lia.
Qed.

Lemma varint_enc_length n v : (length (varint_enc n v) <= n)%nat.
Proof.
  revert v; induction n as [|n IH]; intros v; cbn; [done|].
  specialize (IH (v / 128)). destruct (v <? 128); cbn; lia.
Qed.

Lemma varint_enc_nonempty n v : varint_enc (S n) v <> [].
Proof. cbn. by destruct (v <? 128). Qed.

Lemma pow_7_succ n : 2 ^ (7 * Z.of_nat (S n)) = 128 * 2 ^ (7 * Z.of_nat n).
Proof. replace (7 * Z.of_nat (S n)) with (7 + 7 * Z.of_nat n) by lia. rewrite Z.pow_add_r by lia. done. Qed.

Lemma varint_dec_enc n v rest :
  0 <= v < 2 ^ (7 * Z.of_nat (S n)) ->
  varint_dec (S n) (varint_enc (S n) v ++ rest) = Some (v, rest).
Proof.
  revert v; induction n as [|n IH]; intros v Hv; rewrite pow_7_succ in Hv;
    cbn [varint_enc]; destruct (Z.ltb_spec v 128) as [Hlt|Hge]; cbn [app varint_dec].
  1, 3: by destruct (Z.ltb_spec v 128); [|lia].
  - change (2 ^ (7 * Z.of_nat 0)) with 1 in Hv. lia.
  - pose proof (Z.mod_pos_bound v 128 ltac:(lia)).
    destruct (Z.ltb_spec (v mod 128 + 128) 128); [lia|].
    change (if (v / 128) <? 128 then [v / 128] else _) with (varint_enc (S n) (v / 128)).
    change (match varint_enc (S n) (v / 128) ++ rest with [] => _ | _ => _ end)
      with (varint_dec (S n) (varint_enc (S n) (v / 128) ++ rest)).
    rewrite IH by (split; [apply Z.div_pos; lia | apply Z.div_lt_upper_bound; lia]).
    f_equal. f_equal. pose proof (Z.div_mod v 128). lia.
Qed.

Lemma pow_64_lt_70 v : v < 2 ^ 64 -> v < 2 ^ (7 * Z.of_nat 10).
Proof. intros. change (2 ^ (7 * Z.of_nat 10)) with (64 * 2 ^ 64). lia. Qed.

Lemma varint_dec_varint v rest :
  0 <= v < 2 ^ 64 -> varint_dec 10 (varint v ++ rest) = Some (v, rest).
Proof. intros [??]. apply varint_dec_enc. split; [done|by apply pow_64_lt_70]. Qed.

Lemma varint_length v : 1 <= zlen (varint v) <= 10.
Proof.
  unfold varint, zlen. pose proof (varint_enc_length 10 v) as H.
  pose proof (varint_enc_nonempty 9 v) as H0.
  destruct (varint_enc 10 v); [done|]. cbn [length] in *. lia.
Qed.

Lemma varint_bytes_ok v : 0 <= v -> Forall is_byte (varint v).
Proof. apply varint_enc_bytes. Qed.

(** The value of a parsed varint is below 128 to the number of its bytes. *)
Lemma varint_dec_suffix n bs v rest :
  varint_dec n bs = Some (v, rest) -> exists pre, bs = pre ++ rest /\ (0 < length pre <= n)%nat.
Proof.
  revert bs v; induction n as [|n IH]; intros [|b bs] v H; try done. cbn in H.
  destruct (Z.ltb_spec b 128).
  - injection H as <- <-. exists [b]. cbn. split; [done|lia].
  - destruct (varint_dec n bs) as [[w r]|] eqn:E; [|done]. injection H as <- <-.
    destruct (IH _ _ E) as (pre & -> & ?). exists (b :: pre). cbn. split; [done|lia].
Qed.

Lemma varint_dec_nonneg n bs v rest :
  Forall is_byte bs -> varint_dec n bs = Some (v, rest) -> 0 <= v.
Proof.
  intros Hb; revert v; revert bs Hb; induction n as [|n IH]; intros [|b bs] Hb v H; try done.
  cbn in H. inversion Hb as [|?? Hb0 Hb1]; subst. unfold is_byte in Hb0.
  destruct (Z.ltb_spec b 128); [injection H; lia|].
  destruct (varint_dec n bs) as [[w r]|] eqn:E; [|done]. injection H as <- <-.
  specialize (IH bs Hb1 w E). lia.
Qed.

Lemma unzigzag_zigzag v : unzigzag (zigzag v) = v.
Proof.
  unfold zigzag, unzigzag. destruct (Z.ltb_spec v 0).
  - replace (- 2 * v - 1) with (1 + 2 * (- v - 1)) by lia.
    rewrite Z.odd_add_mul_2. cbn [Z.odd xorb].
    rewrite Z.mul_comm, Z.div_add by lia. change (1 / 2) with 0. lia.
  - rewrite Z.odd_mul. cbn [Z.odd andb]. rewrite Z.mul_comm, Z.div_mul; lia.
Qed.

Lemma zigzag_range v : - 2 ^ 63 <= v < 2 ^ 63 -> 0 <= zigzag v < 2 ^ 64.
Proof. unfold zigzag. destruct (Z.ltb_spec v 0); lia. Qed.

(** No parse of [v] is shorter than its encoding. *)
Lemma varint_enc_shortest n v bs :
  0 <= v < 2 ^ (7 * Z.of_nat n) -> Forall is_byte bs -> varint_dec n bs = Some (v, []) ->
  (length (varint_enc n v) <= length bs)%nat.
Proof.
  revert v bs; induction n as [|n IH]; intros v [|b bs] Hv Hb Hd; try done.
  rewrite varint_dec_cons in Hd. rewrite pow_7_succ in Hv.
  inversion Hb as [|? ? Hb0 Hb1]; subst. unfold is_byte in Hb0. cbn [varint_enc].
  destruct (Z.ltb_spec v 128); [cbn; lia|].
  destruct (Z.ltb_spec b 128); [injection Hd; lia|].
  destruct (varint_dec n bs) as [[w r]|] eqn:E; [|done]. injection Hd as Hw ->.
  assert (v / 128 = w) as Ew.
  { rewrite <- Hw. rewrite (Z.mul_comm 128), Z.div_add, Z.div_small by lia. lia. }
  rewrite Ew. cbn [length].
  assert (0 <= w < 2 ^ (7 * Z.of_nat n)) as Hw' by (rewrite <- Ew; split;
    [apply Z.div_pos; lia|apply Z.div_lt_upper_bound; lia]).
  specialize (IH w bs Hw' Hb1 E). lia.
Qed.

(** ** The digits as the code computes them *)

(** Adding a digit to a partial value of [k] bits, in [w]-bit arithmetic. *)
Lemma add_digit w k r d :
  0 <= k < w -> 0 <= r < 2 ^ k -> 0 <= d ->
  Z.lor r (wrap w (Z.shiftl d k)) = (r + 2 ^ k * d) mod 2 ^ w.
Proof.
  intros Hk Hr Hd. unfold wrap. rewrite Z.shiftl_mul_pow2 by lia.
  assert (2 ^ w = 2 ^ (w - k) * 2 ^ k) as Ew by (rewrite <- Z.pow_add_r by lia; f_equal; lia).
  assert (0 < 2 ^ (w - k)) by (apply Z.pow_pos_nonneg; lia).
  assert (0 < 2 ^ k) by (apply Z.pow_pos_nonneg; lia).
  rewrite Ew, Zmult_mod_distr_r, <- Z.shiftl_mul_pow2, lor_shiftl by lia.
  rewrite (Z.mul_comm (2 ^ (w - k))), Z.rem_mul_r by lia.
  rewrite (Z.mul_comm (2 ^ k) d), Z.mod_add, (Z.mod_small r), Z.div_add, (Z.div_small r) by lia.
  rewrite Z.add_0_l. lia.
Qed.

Lemma land_127_range b : is_byte b -> 0 <= Z.land b 0x7F < 128.
Proof. intros. rewrite land_127. by apply Z.mod_pos_bound. Qed.

(** The continuation bit. *)
Lemma continues b : is_byte b -> (Z.land b 0x80 =? 0) = (b <? 128).
Proof.
  unfold is_byte. intros Hb. destruct (Z.ltb_spec b 128).
  - by rewrite land_128_small by lia.
  - replace b with ((b - 128) + 128) by lia. by rewrite land_128_add by lia.
Qed.

Lemma digit_low b : 0 <= b < 128 -> Z.land b 0x7F = b.
Proof. intros. rewrite land_127. by apply Z.mod_small. Qed.

Lemma digit_high b : 128 <= b < 256 -> Z.land b 0x7F = b - 128.
Proof.
  intros. rewrite land_127. replace b with (b - 128 + 1 * 128) at 1 by lia.
  rewrite Z.mod_add by lia. apply Z.mod_small. lia.
Qed.

Lemma pow2_split j : 2 ^ (7 * Z.of_nat (S j)) = 2 ^ (7 * Z.of_nat j) * 128.
Proof. rewrite pow_7_succ. lia. Qed.

Lemma bytes_lt b : is_byte b -> 0 <= b < 2 ^ 8.
Proof. done. Qed.

Lemma lor_byte a b n k : 0 <= a < 2 ^ n -> k = n -> 0 <= n -> Z.lor a (Z.shiftl b k) = a + 2 ^ n * b.
Proof. intros Ha -> Hn. rewrite lor_shiftl by done. lia. Qed.
