(* ===== verification/CMem.v ===== *)
(** * The C memory the runtime works on

    A flat, byte-addressed 64-bit little-endian memory with explicit
    indeterminate bytes, and the [malloc] family over it.  The target is the
    one the pods are built for (LP64: [size_t] and pointers are 8 bytes, [int]
    is 4 bytes). *)
From S2P Require Import Prelude.
From Stdlib Require Import ZArith Lia.
From stdpp Require Import base tactics numbers list gmap strings.
#[local] Open Scope Z_scope.

(** ** Bytes in memory *)

(** A mapped address holds a byte or is indeterminate (allocated, never
    written); an address that is not in the map is not allocated. *)
Inductive mbyte : Type :=
| Undef
| Byte (b : Z).

#[export] Instance mbyte_eq_dec : EqDecision mbyte.
Proof. solve_decision. Defined.

(** Memory, the live heap blocks (base address to size), and the next fresh
    address. *)
Record mstate : Type := MkState {
  mem : gmap Z mbyte;
  heap : gmap Z Z;
  next : Z
}.

Definition with_mem (st : mstate) (m : gmap Z mbyte) : mstate :=
  {| mem := m; heap := heap st; next := next st |}.

(** ** Loads *)

Definition load_byte (m : gmap Z mbyte) (a : Z) : res Z :=
  match m !! a with
  | Some (Byte b) => Ret b
  | _ => UB
  end.

Fixpoint load_bytes (m : gmap Z mbyte) (a : Z) (n : nat) : res (list Z) :=
  match n with
  | O => Ret []
  | S n =>
      let! b := load_byte m a in
      let! bs := load_bytes m (a + 1) n in
      Ret (b :: bs)
  end.

(** [*(const uintN_t* )a] and [*(const intN_t* )a] for an [n]-byte type. *)
Definition load_uint (m : gmap Z mbyte) (a : Z) (n : nat) : res Z :=
  let! bs := load_bytes m a n in Ret (le_combine bs).

Definition load_sint (m : gmap Z mbyte) (a : Z) (n : nat) : res Z :=
  let! v := load_uint m a n in Ret (swrap (8 * Z.of_nat n) v).

Definition load_ptr (m : gmap Z mbyte) (a : Z) : res Z := load_uint m a 8.

(** ** Stores *)

(** Write a run of memory cells, mapping them if they are not. *)
Fixpoint set_range (m : gmap Z mbyte) (a : Z) (l : list mbyte) : gmap Z mbyte :=
  match l with
  | [] => m
  | c :: l => set_range (<[a := c]> m) (a + 1) l
  end.

Fixpoint clear_range (m : gmap Z mbyte) (a : Z) (n : nat) : gmap Z mbyte :=
  match n with
  | O => m
  | S n => clear_range (delete a m) (a + 1) n
  end.

Fixpoint mapped (m : gmap Z mbyte) (a : Z) (n : nat) : bool :=
  match n with
  | O => true
  | S n => bool_decide (is_Some (m !! a)) && mapped m (a + 1) n
  end.

(** A store is defined when every address it touches is allocated. *)
Definition store_bytes (st : mstate) (a : Z) (bs : list Z) : res mstate :=
  if mapped (mem st) a (length bs)
  then Ret (with_mem st (set_range (mem st) a (Byte <$> bs)))
  else UB.

(** [*(uintN_t* )a = z] for an [n]-byte type: the value wraps to its width. *)
Definition store_uint (st : mstate) (a : Z) (n : nat) (z : Z) : res mstate :=
  store_bytes st a (le_split n z).

Definition store_ptr (st : mstate) (a : Z) (p : Z) : res mstate := store_uint st a 8 p.

(** [memset(a, 0, n)] and [memcpy(a, src, n)]. *)
Definition memset0 (st : mstate) (a : Z) (n : Z) : res mstate :=
  store_bytes st a (replicate (Z.to_nat n) 0).

Definition memcpy (st : mstate) (a src : Z) (n : Z) : res mstate :=
  let! bs := load_bytes (mem st) src (Z.to_nat n) in
  store_bytes st a bs.

(** ** Allocation *)

(** Whether the C library refuses a request in a given state; any policy is
    allowed. *)
Class Allocator : Type := alloc_fails : mstate -> Z -> bool.

(** Fresh addresses are handed out upwards, 16-byte aligned as [malloc] does,
    and never reused. *)
Definition align_up (z al : Z) : Z := (z + (al - 1)) / al * al.

Definition take_fresh (st : mstate) (cells : list mbyte) : Z * mstate :=
  (next st,
   {| mem := set_range (mem st) (next st) cells;
      heap := heap st;
      next := next st + align_up (zlen cells) 16 |}).

Definition heap_add (st : mstate) (p size : Z) : mstate :=
  {| mem := mem st; heap := <[p := size]> (heap st); next := next st |}.

Definition heap_drop (st : mstate) (p size : Z) : mstate :=
  {| mem := clear_range (mem st) p (Z.to_nat size);
     heap := delete p (heap st);
     next := next st |}.

(** [free(p)]: NULL is ignored; anything but the base of a live block is
    undefined behaviour, which is what a double free is. *)
Definition pb_free (p : Z) (st : mstate) : res mstate :=
  if p =? 0 then Ret st
  else match heap st !! p with
       | None => UB
       | Some size => Ret (heap_drop st p size)
       end.

(** The cells of a block of [size] bytes that starts with the old contents. *)
Definition grown (old : list mbyte) (size : nat) : list mbyte :=
  take size old ++ replicate (size - length old) Undef.

Fixpoint cells (m : gmap Z mbyte) (a : Z) (n : nat) : list mbyte :=
  match n with
  | O => []
  | S n => default Undef (m !! a) :: cells m (a + 1) n
  end.

(** [realloc(p, size)] with [size] > 0: NULL when the request is refused (the
    old block stays); otherwise a new block that starts with the old contents,
    and the old block is gone. *)
Definition pb_realloc `{Allocator} (p size : Z) (st : mstate) : res (Z * mstate) :=
  let old := if p =? 0 then Some 0 else heap st !! p in
  match old with
  | None => UB
  | Some osize =>
      if alloc_fails st size || (2 ^ 63 <=? next st + align_up size 16) then Ret (0, st)
      else
        let kept := cells (mem st) p (Z.to_nat osize) in
        let '(q, st1) := take_fresh st (grown kept (Z.to_nat size)) in
        let! st2 := pb_free p (heap_add st1 q size) in
        Ret (q, st2)
  end.

(** A local variable whose address is taken lives at a fresh address and is
    gone when its function returns. *)
Definition local_alloc (st : mstate) (bs : list Z) : Z * mstate := take_fresh st (Byte <$> bs).

Definition local_free (st : mstate) (a n : Z) : mstate :=
  with_mem st (clear_range (mem st) a (Z.to_nat n)).

(** ** Lemmas *)

(** Every cell that holds something holds a byte. *)
Definition mem_ok (m : gmap Z mbyte) : Prop :=
  map_Forall (fun _ c => match c with Byte b => is_byte b | Undef => True end) m.

Lemma load_byte_ok m a b : mem_ok m -> load_byte m a = Ret b -> is_byte b.
Proof.
  unfold load_byte. intros Hm H. destruct (m !! a) as [[|c]|] eqn:E; try done.
  injection H as <-. by apply (map_Forall_lookup_1 _ _ _ _ Hm) in E.
Qed.

Lemma load_bytes_ok m a n bs :
  mem_ok m -> load_bytes m a n = Ret bs -> Forall is_byte bs /\ length bs = n.
Proof.
  intros Hm; revert a bs; induction n as [|n IH]; intros a bs H; cbn in H.
  - injection H as <-. by split.
  - res_step H. res_step H. injection H as <-. apply IH in E0 as [? ?].
    cbn. split; [constructor; [by eapply load_byte_ok|done]|by f_equal].
Qed.

Lemma load_uint_range m a n v :
  mem_ok m -> load_uint m a n = Ret v -> 0 <= v < 2 ^ (8 * Z.of_nat n).
Proof.
  intros Hm H. unfold load_uint in H. res_step H. injection H as <-.
  destruct (load_bytes_ok _ _ _ _ Hm E) as [Hb <-]. by apply le_combine_range.
Qed.

Lemma load_sint_range m a n v :
  (0 < n)%nat -> mem_ok m -> load_sint m a n = Ret v ->
  - 2 ^ (8 * Z.of_nat n - 1) <= v < 2 ^ (8 * Z.of_nat n - 1).
Proof.
  intros Hn Hm H. unfold load_sint in H. res_step H. injection H as <-.
  apply swrap_range. lia.
Qed.

(** Memory accesses take no fuel. *)
Lemma load_byte_post m a : terminates (load_byte m a).
Proof. unfold load_byte. by destruct (m !! a) as [[]|]. Qed.

Lemma load_bytes_post m a n : terminates (load_bytes m a n).
Proof.
  revert a; induction n as [|n IH]; intros a; [done|]. cbn [load_bytes].
  apply post_let; [apply load_byte_post|]. intros b. apply post_let; [apply IH|done].
Qed.

Lemma load_uint_post m a n : terminates (load_uint m a n).
Proof. apply post_let; [apply load_bytes_post|done]. Qed.

Lemma load_ptr_post m a : terminates (load_ptr m a).
Proof. apply load_uint_post. Qed.

Lemma store_bytes_post st a bs : terminates (store_bytes st a bs).
Proof. unfold store_bytes. by destruct (mapped _ _ _). Qed.

Lemma store_uint_post st a n z : terminates (store_uint st a n z).
Proof. apply store_bytes_post. Qed.

Lemma store_ptr_post st a p : terminates (store_ptr st a p).
Proof. apply store_bytes_post. Qed.

Lemma memset0_post st a n : terminates (memset0 st a n).
Proof. apply store_bytes_post. Qed.

Lemma memcpy_post st a src n : terminates (memcpy st a src n).
Proof. apply post_let; [apply load_bytes_post|]. intros bs. apply store_bytes_post. Qed.

Lemma pb_free_post p st : terminates (pb_free p st).
Proof. unfold pb_free. destruct (p =? 0); [done|]. by destruct (heap st !! p). Qed.

Lemma pb_realloc_post `{Allocator} p size st : terminates (pb_realloc p size st).
Proof.
  unfold pb_realloc. destruct (if p =? 0 then _ else _); [|done]. destruct (_ || _); [done|].
  destruct (take_fresh _ _). apply post_let; [apply pb_free_post|done].
Qed.

#[export] Hint Resolve load_byte_post load_bytes_post load_uint_post load_ptr_post store_bytes_post
  store_uint_post store_ptr_post memset0_post memcpy_post pb_free_post pb_realloc_post : post.

(** ** What memory holds after a store, an allocation, a release *)

Lemma lookup_set_range m a l x :
  set_range m a l !! x
  = if decide (a <= x < a + zlen l) then l !! Z.to_nat (x - a) else m !! x.
Proof.
  revert m a; induction l as [|c l IH]; intros m a; cbn [set_range].
  - rewrite decide_False by (unfold zlen; cbn; lia). done.
  - rewrite IH, zlen_cons. pose proof (zlen_nonneg l).
    destruct (decide (a + 1 <= x < a + 1 + zlen l)).
    + rewrite decide_True by lia. replace (Z.to_nat (x - a)) with (S (Z.to_nat (x - (a + 1)))) by lia. done.
    + destruct (decide (x = a)) as [->|].
      * rewrite lookup_insert_eq, decide_True by lia. by rewrite Z.sub_diag.
      * rewrite lookup_insert_ne by done. by rewrite decide_False by lia.
Qed.

Lemma lookup_clear_range m a n x :
  clear_range m a n !! x = if decide (a <= x < a + Z.of_nat n) then None else m !! x.
Proof.
  revert m a; induction n as [|n IH]; intros m a; cbn [clear_range].
  - by rewrite decide_False by lia.
  - rewrite IH. destruct (decide (a + 1 <= x < a + 1 + Z.of_nat n)); [by rewrite decide_True by lia|].
    destruct (decide (x = a)) as [->|].
    + rewrite lookup_delete_eq. by rewrite decide_True by lia.
    + rewrite lookup_delete_ne by done. by rewrite decide_False by lia.
Qed.

Lemma mapped_spec m a n :
  mapped m a n = true <-> forall i, 0 <= i < Z.of_nat n -> is_Some (m !! (a + i)).
Proof.
  revert a; induction n as [|n IH]; intros a; cbn [mapped]; [split; [lia|done]|].
  rewrite andb_true_iff, bool_decide_eq_true, IH. split.
  - intros [H0 Hs] i Hi. destruct (decide (i = 0)) as [->|]; [by rewrite Z.add_0_r|].
    replace (a + i) with (a + 1 + (i - 1)) by lia. apply Hs. lia.
  - intros Hs. split; [rewrite <- (Z.add_0_r a); apply Hs; lia|].
    intros i Hi. replace (a + 1 + i) with (a + (i + 1)) by lia. apply Hs. lia.
Qed.

Lemma load_bytes_spec m a n bs :
  load_bytes m a n = Ret bs <->
  length bs = n /\ forall i, (i < n)%nat -> exists b, bs !! i = Some b /\ m !! (a + Z.of_nat i) = Some (Byte b).
Proof.
  revert a bs; induction n as [|n IH]; intros a bs; cbn [load_bytes].
  - split; [intros [= <-]; by split; [|lia]|]. intros [Hl _]. by destruct bs.
  - split.
    + intros Hl. res_step Hl. res_step Hl. injection Hl as <-. apply IH in E0 as [<- Hs].
      split; [done|]. intros [|i] Hi.
      * unfold load_byte in E. destruct (m !! a) as [[|c]|] eqn:Ea; try done. injection E as ->.
        exists a0. rewrite Z.add_0_r. done.
      * destruct (Hs i ltac:(lia)) as (b & Hb & Hm). exists b. split; [done|].
        by replace (a + Z.of_nat (S i)) with (a + 1 + Z.of_nat i) by lia.
    + intros [Hl Hs]. destruct bs as [|b bs]; [done|]. injection Hl as Hl.
      destruct (Hs 0%nat ltac:(lia)) as (b' & [= <-] & Hm). rewrite Z.add_0_r in Hm.
      unfold load_byte. rewrite Hm. cbn [rbind].
      assert (load_bytes m (a + 1) n = Ret bs) as ->; [|done].
      apply IH. split; [done|]. intros i Hi. destruct (Hs (S i) ltac:(lia)) as (c & Hc & Hmc).
      exists c. split; [done|]. by replace (a + 1 + Z.of_nat i) with (a + Z.of_nat (S i)) by lia.
Qed.

(** A store changes the bytes it writes and nothing else. *)
Lemma store_bytes_inv st a bs st' :
  store_bytes st a bs = Ret st' ->
  mapped (mem st) a (length bs) = true /\ heap st' = heap st /\ next st' = next st
  /\ (forall x, mem st' !! x = if decide (a <= x < a + zlen bs) then Byte <$> bs !! Z.to_nat (x - a)
                               else mem st !! x).
Proof.
  unfold store_bytes. destruct (mapped _ _ _) eqn:Em; [|done]. intros [= <-]. split_and!; try done.
  intros x. cbn. rewrite lookup_set_range. unfold zlen. rewrite length_fmap. by rewrite list_lookup_fmap.
Qed.

Lemma load_store st a bs st' :
  store_bytes st a bs = Ret st' -> load_bytes (mem st') a (length bs) = Ret bs.
Proof.
  intros (_ & _ & _ & Hm)%store_bytes_inv. apply load_bytes_spec. split; [done|]. intros i Hi.
  destruct (lookup_lt_is_Some_2 bs i Hi) as [b Hb]. exists b. split; [done|].
  rewrite Hm, decide_True by (unfold zlen; lia).
  replace (Z.to_nat (a + Z.of_nat i - a)) with i by lia. by rewrite Hb.
Qed.

Lemma load_store_uint st a n z st' :
  store_uint st a n z = Ret st' -> load_uint (mem st') a n = Ret (wrap (8 * Z.of_nat n) z).
Proof.
  intros Hs. apply load_store in Hs. rewrite length_le_split in Hs. unfold load_uint. rewrite Hs.
  cbn [rbind]. by rewrite le_combine_split.
Qed.

(** Loads only look at the bytes they load. *)
Lemma load_bytes_ext m m' a n :
  (forall x, a <= x < a + Z.of_nat n -> m !! x = m' !! x) -> load_bytes m a n = load_bytes m' a n.
Proof.
  revert a; induction n as [|n IH]; intros a He; [done|]. cbn [load_bytes]. unfold load_byte.
  rewrite He by lia. by rewrite IH by (intros; apply He; lia).
Qed.

(** A store does not change what is loaded elsewhere. *)
Lemma load_uint_store_other st a n z st' b k :
  store_uint st a n z = Ret st' -> b + Z.of_nat k <= a \/ a + Z.of_nat n <= b ->
  load_uint (mem st') b k = load_uint (mem st) b k.
Proof.
  intros (_ & _ & _ & Hm)%store_bytes_inv Hd. rewrite zlen_le_split in Hm. unfold load_uint.
  rewrite (load_bytes_ext (mem st') (mem st)); [done|]. intros x Hx. by rewrite Hm, decide_False by lia.
Qed.

(** States whose memory and heap lie below the next fresh address, in disjoint
    live blocks. *)
Record st_ok (st : mstate) : Prop := {
  ok_mem : mem_ok (mem st);
  ok_mapped : forall x, is_Some (mem st !! x) -> 0 < x < next st;
  ok_heap : forall p size, heap st !! p = Some size ->
    0 < p /\ 0 < size /\ p + size <= next st;
  ok_disjoint : forall p size q size', heap st !! p = Some size -> heap st !! q = Some size' ->
    p <> q -> p + size <= q \/ q + size' <= p;
  ok_next : 0 < next st
}.

Lemma mem_ok_store st a bs st' :
  mem_ok (mem st) -> Forall is_byte bs -> store_bytes st a bs = Ret st' -> mem_ok (mem st').
Proof.
  intros Hm Hb (_ & _ & _ & Hs)%store_bytes_inv x c Hx. rewrite Hs in Hx.
  destruct (decide _); [|by eapply Hm].
  destruct (bs !! _) as [b|] eqn:Eb; [|done]. injection Hx as <-. by eapply Forall_lookup_1.
Qed.

Lemma st_ok_store st a bs st' :
  st_ok st -> Forall is_byte bs -> store_bytes st a bs = Ret st' -> st_ok st'.
Proof.
  intros [Hm Hx Hh Hd Hn] Hb Hs. pose proof (mem_ok_store _ _ _ _ Hm Hb Hs) as Hm'.
  destruct (store_bytes_inv _ _ _ _ Hs) as (Hmap & Eh & En & El).
  rewrite mapped_spec in Hmap. split; rewrite ?Eh, ?En; try done.
  intros x Hi. rewrite El in Hi. destruct (decide _) as [Hr|]; [|by apply Hx].
  apply Hx. replace x with (a + (x - a)) by lia. apply Hmap. unfold zlen in Hr. lia.
Qed.

Lemma length_cells m a n : length (cells m a n) = n.
Proof. revert a; induction n; intros; cbn; auto. Qed.

Lemma lookup_cells m a n i :
  (i < n)%nat -> cells m a n !! i = Some (default Undef (m !! (a + Z.of_nat i))).
Proof.
  revert a i; induction n as [|n IH]; intros a [|i] Hi; try lia; cbn [cells].
  - by rewrite Z.add_0_r.
  - cbn [lookup list_lookup]. rewrite IH by lia. by replace (a + Z.of_nat (S i)) with (a + 1 + Z.of_nat i) by lia.
Qed.

Lemma length_grown old size : length (grown old size) = size.
Proof. unfold grown. rewrite length_app, length_take, length_replicate. lia. Qed.

Lemma lookup_grown old size i :
  (i < size)%nat -> grown old size !! i = Some (default Undef (old !! i)).
Proof.
  intros Hi. unfold grown. destruct (decide (i < length old)%nat).
  - rewrite lookup_app_l by (rewrite length_take; lia). rewrite lookup_take_lt by lia.
    by destruct (lookup_lt_is_Some_2 old i) as [c ->].
  - rewrite lookup_app_r, lookup_replicate_2 by (rewrite length_take; lia).
    by rewrite lookup_ge_None_2 by lia.
Qed.

Lemma align_up_ge z al : 0 < al -> z <= align_up z al.
Proof.
  intros Hal. unfold align_up. pose proof (Z.div_mod (z + (al - 1)) al) as Hd.
  pose proof (Z.mod_pos_bound (z + (al - 1)) al). lia.
Qed.

(** The size of the block [realloc] is given: NULL counts as empty. *)
Definition block_size (st : mstate) (p : Z) : option Z :=
  if p =? 0 then Some 0 else heap st !! p.

(** A successful [realloc]: a new block with the old contents, and the old block
    gone. *)
Lemma pb_realloc_spec `{Allocator} p size st q st' :
  st_ok st -> 0 < size -> pb_realloc p size st = Ret (q, st') -> q <> 0 ->
  exists osize, block_size st p = Some osize
    /\ q = next st /\ st_ok st' /\ next st < next st' < 2 ^ 63
    /\ heap st' = <[q := size]> (if p =? 0 then heap st else delete p (heap st))
    /\ forall x, mem st' !! x =
         if decide (q <= x < q + size) then
           Some (if decide (x - q < osize) then default Undef (mem st !! (p + (x - q))) else Undef)
         else if decide (p <> 0 /\ p <= x < p + osize) then None else mem st !! x.
Proof.
  intros [Hmem Hmap Hheap Hdis Hnext] Hsize Hr Hq. unfold pb_realloc in Hr. fold (block_size st p) in Hr.
  destruct (block_size st p) as [osize|] eqn:Eb; [|done]. exists osize. split; [done|].
  destruct (_ || _) eqn:Ef; [by injection Hr as <- <-|]. apply orb_false_iff in Ef as [_ Ef%Z.leb_gt].
  pose proof (align_up_ge size 16 ltac:(lia)) as Ha.
  cbn [take_fresh] in Hr. unfold take_fresh in Hr.
  assert (0 <= osize /\ (p <> 0 -> heap st !! p = Some osize)) as [Ho Hp].
  { unfold block_size in Eb. destruct (Z.eqb_spec p 0); [injection Eb as <-; by split|].
    split; [destruct (Hheap p osize Eb); lia|done]. }
  set (c := grown (cells (mem st) p (Z.to_nat osize)) (Z.to_nat size)) in *.
  assert (zlen c = size) as Hc by (unfold zlen, c; rewrite length_grown; lia).
  rewrite Hc in Hr. unfold heap_add in Hr. cbn [mem heap next] in Hr.
  set (st1 := {| mem := _; heap := _; next := _ |}) in Hr.
  assert (forall x, mem st1 !! x =
    if decide (next st <= x < next st + size) then
      Some (if decide (x - next st < osize) then default Undef (mem st !! (p + (x - next st))) else Undef)
    else mem st !! x) as Hm1.
  { intros x. subst st1. cbn. rewrite lookup_set_range, Hc. destruct (decide _) as [Hx|]; [|done].
    unfold c. rewrite lookup_grown by lia. f_equal. destruct (decide (x - next st < osize)).
    - rewrite lookup_cells by lia. by replace (Z.of_nat (Z.to_nat (x - next st))) with (x - next st) by lia.
    - rewrite lookup_ge_None_2; [done|]. rewrite length_cells. lia. }
  assert (exists st2, pb_free p st1 = Ret st2 /\ next st2 = next st + align_up size 16
    /\ heap st2 = <[next st := size]> (if p =? 0 then heap st else delete p (heap st))
    /\ forall x, mem st2 !! x = if decide (p <> 0 /\ p <= x < p + osize) then None else mem st1 !! x)
    as (st2 & E2 & En & Eh & Em).
  { unfold pb_free. destruct (Z.eqb_spec p 0) as [->|Hp0].
    - exists st1. split; [done|]. split; [done|]. split; [by unfold st1|].
      intros x. by rewrite decide_False by tauto.
    - destruct (Hheap p osize (Hp Hp0)) as (? & ? & Hlt).
      assert (heap st1 !! p = Some osize) as ->.
      { subst st1. cbn. rewrite lookup_insert_ne by lia. by apply Hp. }
      eexists. split; [done|]. unfold heap_drop. cbn [mem heap next]. split_and!; [done| |].
      + subst st1. cbn. rewrite delete_insert_ne by lia. done.
      + intros x. rewrite lookup_clear_range, Z2Nat.id by lia.
        destruct (decide (p <= x < p + osize)); [by rewrite decide_True by tauto|].
        by rewrite decide_False by tauto. }
  rewrite E2 in Hr. cbn [rbind] in Hr. injection Hr as <- <-.
  assert (forall x, mem st2 !! x =
    if decide (next st <= x < next st + size) then
      Some (if decide (x - next st < osize) then default Undef (mem st !! (p + (x - next st))) else Undef)
    else if decide (p <> 0 /\ p <= x < p + osize) then None else mem st !! x) as Hfinal.
  { intros x. rewrite Em, Hm1. destruct (decide (p <> 0 /\ p <= x < p + osize)) as [[Hp0 Hx]|]; [|done].
    destruct (Hheap p osize (Hp Hp0)) as (? & _ & Hlt). by rewrite decide_False by lia. }
  split_and!; [done| |lia|lia|done|done].
  split.
  - intros x c' Hx. rewrite Hfinal in Hx. destruct (decide _).
    + injection Hx as <-. destruct (decide _); [|done].
      destruct (mem st !! (p + (x - next st))) eqn:E; [|done]. by eapply Hmem.
    + destruct (decide _); [done|]. by eapply Hmem.
  - intros x Hx. rewrite Hfinal in Hx. rewrite En. destruct (decide _); [lia|].
    destruct (decide _); [by destruct Hx|]. specialize (Hmap x Hx). lia.
  - intros b sz Hb. rewrite Eh in Hb. rewrite En. destruct (decide (b = next st)) as [->|Hne].
    + rewrite lookup_insert_eq in Hb. injection Hb as <-. lia.
    + rewrite lookup_insert_ne in Hb by done.
      destruct (p =? 0); [|apply lookup_delete_Some in Hb as [_ Hb]]; specialize (Hheap b sz Hb); lia.
  - intros b sz b' sz' Hb Hb' Hne. rewrite Eh in Hb, Hb'.
    assert (forall b sz, (if p =? 0 then heap st else delete p (heap st)) !! b = Some sz ->
      heap st !! b = Some sz) as Hold
      by (intros b1 sz1; destruct (p =? 0); [done|]; by intros [_ ?]%lookup_delete_Some).
    destruct (decide (b = next st)) as [->|], (decide (b' = next st)) as [->|]; [done| | |].
    + rewrite lookup_insert_ne in Hb' by done. apply Hold, Hheap in Hb'. lia.
    + rewrite lookup_insert_ne in Hb by done. apply Hold, Hheap in Hb. lia.
    + rewrite lookup_insert_ne in Hb, Hb' by done. by apply (Hdis b sz b' sz'); [apply Hold|apply Hold|].
  - rewrite En. lia.
Qed.
