(* ===== verification/CLayout.v ===== *)
(** * C struct layout

    Size, alignment and member offsets of the C types the generated message
    structs are made of, computed by the platform's rule (each member at the
    next multiple of its alignment, the struct padded to its own alignment). *)
From S2P Require Import Prelude CMem.
From Stdlib Require Import ZArith Lia.
From stdpp Require Import base tactics numbers list strings.
#[local] Open Scope Z_scope.

(** ** C types: size, alignment, members *)

Inductive ctype : Type :=
| CScalar (size : Z)
| CPtr (pointee_size : Z)
| CArr (elem : ctype) (n : Z)
| CStruct (ms : list (string * ctype))
| CUnion (ms : list (string * ctype)).

Fixpoint alignof (t : ctype) : Z :=
  match t with
  | CScalar n => n
  | CPtr _ => 8
  | CArr t _ => alignof t
  | CStruct ms | CUnion ms => fold_right (fun '(_, t) acc => Z.max (alignof t) acc) 1 ms
  end.

Fixpoint sizeof (t : ctype) : Z :=
  match t with
  | CScalar n => n
  | CPtr _ => 8
  | CArr t n => sizeof t * n
  | CStruct ms =>
      align_up (fold_left (fun off '(_, t) => align_up off (alignof t) + sizeof t) ms 0)
               (alignof (CStruct ms))
  | CUnion ms =>
      align_up (fold_right (fun '(_, t) acc => Z.max (sizeof t) acc) 0 ms)
               (alignof (CUnion ms))
  end.

(** [sizeof(x[0])] for a member of type [t]. *)
Definition elem_size (t : ctype) : Z :=
  match t with
  | CPtr n => n
  | CArr t _ => sizeof t
  | _ => 0
  end.

Definition members (t : ctype) : list (string * ctype) :=
  match t with
  | CStruct ms | CUnion ms => ms
  | _ => []
  end.

(** A member designator: [m], or [u.m] inside a union member. *)
Inductive designator : Type :=
| Mem (m : string)
| Sub (u m : string).

Fixpoint find_union (ms : list (string * ctype)) (m : string) : option (Z * ctype) :=
  match ms with
  | [] => None
  | (n, t) :: ms => if String.eqb n m then Some (0, t) else find_union ms m
  end.

(** The members of an anonymous union (named by the empty string) are found as
    members of the struct. *)
Definition find_anonymous (n : string) (t : ctype) (m : string) : option (Z * ctype) :=
  match n with
  | EmptyString => find_union (members t) m
  | _ => None
  end.

Fixpoint find_struct (off : Z) (ms : list (string * ctype)) (m : string) : option (Z * ctype) :=
  match ms with
  | [] => None
  | (n, t) :: ms =>
      let off := align_up off (alignof t) in
      match find_anonymous n t m with
      | Some (o, t') => Some (off + o, t')
      | None => if String.eqb n m then Some (off, t) else find_struct (off + sizeof t) ms m
      end
  end.

Definition find_member (t : ctype) (m : string) : option (Z * ctype) :=
  match t with
  | CStruct ms => find_struct 0 ms m
  | CUnion ms => find_union ms m
  | _ => None
  end.

Definition find (t : ctype) (d : designator) : option (Z * ctype) :=
  match d with
  | Mem m => find_member t m
  | Sub u m =>
      match find_member t u with
      | None => None
      | Some (o1, tu) =>
          match find_member tu m with
          | None => None
          | Some (o2, tm) => Some (o1 + o2, tm)
          end
      end
  end.

(** [offsetof(st, d)], [sizeof(((st* )0)->d)] and [sizeof(((st* )0)->d[0])]; a
    member that does not exist does not compile in C, and is given -1 here. *)
Definition offsetof (t : ctype) (d : designator) : Z :=
  match find t d with Some (o, _) => o | None => -1 end.

Definition membersize (t : ctype) (d : designator) : Z :=
  match find t d with Some (_, u) => sizeof u | None => -1 end.

Definition elemsize (t : ctype) (d : designator) : Z :=
  match find t d with Some (_, u) => elem_size u | None => -1 end.
