(* ===== verification/PbH.v ===== *)
(** * pb.h: field descriptors

    The constants and types of nanopb's pb.h, and the macros the generated
    files use to fill in [pb_field_t] tables.  The build the pods use defines
    PB_FIELD_32BIT, PB_NO_PACKED_STRUCTS and PB_ENABLE_MALLOC, so [pb_size_t]
    is [uint32_t] and [pb_ssize_t] is [int32_t]. *)
From S2P Require Import Prelude CMem CLayout.
From Stdlib Require Import ZArith Lia.
From stdpp Require Import base tactics numbers list strings.
#[local] Open Scope Z_scope.

(** ** Constants *)

Definition PB_MAX_REQUIRED_FIELDS : Z := 64.

(** Field data types (low four bits of the type byte). *)
Definition PB_LTYPE_BOOL : Z := 0x00.
Definition PB_LTYPE_VARINT : Z := 0x01.
Definition PB_LTYPE_UVARINT : Z := 0x02.
Definition PB_LTYPE_SVARINT : Z := 0x03.
Definition PB_LTYPE_FIXED32 : Z := 0x04.
Definition PB_LTYPE_FIXED64 : Z := 0x05.
Definition PB_LTYPE_LAST_PACKABLE : Z := 0x05.
Definition PB_LTYPE_BYTES : Z := 0x06.
Definition PB_LTYPE_STRING : Z := 0x07.
Definition PB_LTYPE_SUBMESSAGE : Z := 0x08.
Definition PB_LTYPE_EXTENSION : Z := 0x09.
Definition PB_LTYPE_FIXED_LENGTH_BYTES : Z := 0x0A.
Definition PB_LTYPES_COUNT : Z := 0x0B.
Definition PB_LTYPE_MASK : Z := 0x0F.

(** Field repetition rules. *)
Definition PB_HTYPE_REQUIRED : Z := 0x00.
Definition PB_HTYPE_OPTIONAL : Z := 0x10.
Definition PB_HTYPE_REPEATED : Z := 0x20.
Definition PB_HTYPE_ONEOF : Z := 0x30.
Definition PB_HTYPE_MASK : Z := 0x30.

(** Field allocation types. *)
Definition PB_ATYPE_STATIC : Z := 0x00.
Definition PB_ATYPE_POINTER : Z := 0x80.
Definition PB_ATYPE_CALLBACK : Z := 0x40.
Definition PB_ATYPE_MASK : Z := 0xC0.

Definition PB_ATYPE (x : Z) : Z := Z.land x PB_ATYPE_MASK.
Definition PB_HTYPE (x : Z) : Z := Z.land x PB_HTYPE_MASK.
Definition PB_LTYPE (x : Z) : Z := Z.land x PB_LTYPE_MASK.

(** [pb_size_t] is [uint32_t], [pb_ssize_t] is [int32_t]. *)
Definition pb_size_t (z : Z) : Z := wrap 32 z.
Definition pb_ssize_t (z : Z) : Z := swrap 32 z.
Definition PB_SIZE_MAX : Z := pb_size_t (-1).

(** Wire types. *)
Definition PB_WT_VARINT : Z := 0.
Definition PB_WT_64BIT : Z := 1.
Definition PB_WT_STRING : Z := 2.
Definition PB_WT_32BIT : Z := 5.

(** ** Field descriptors *)

(** One entry of a descriptor array.  [pf_ptr] is the address of the
    submessage's descriptor array or of the default value, 0 for NULL. *)
Record pb_field_t : Type := PbField {
  pf_tag : Z;
  pf_type : Z;
  pf_data_offset : Z;
  pf_size_offset : Z;
  pf_data_size : Z;
  pf_array_size : Z;
  pf_ptr : Z
}.

(** The initializer converts each value to its member's type. *)
Definition mk_field (tag type data_offset size_offset data_size array_size ptr : Z) : pb_field_t :=
  {| pf_tag := pb_size_t tag;
     pf_type := u8 type;
     pf_data_offset := pb_size_t data_offset;
     pf_size_offset := pb_ssize_t size_offset;
     pf_data_size := pb_size_t data_size;
     pf_array_size := pb_size_t array_size;
     pf_ptr := ptr |}.

Definition PB_LAST_FIELD : pb_field_t := mk_field 0 0 0 0 0 0 0.

(** A [pb_bytes_array_t] is the size followed by the bytes. *)
Definition pb_bytes_array_t : ctype :=
  CStruct [("size"%string, CScalar 4); ("bytes"%string, CArr (CScalar 1) 1)].

Definition PB_BYTES_ARRAY_T_ALLOCSIZE (n : Z) : Z :=
  u64 (n + offsetof pb_bytes_array_t (Mem "bytes")).

(** Offsets inside [pb_callback_t], [pb_extension_type_t], [pb_extension_t]. *)
Definition pb_callback_t : ctype :=
  CStruct [("funcs"%string,
            CUnion [("decode"%string, CPtr 1); ("encode"%string, CPtr 1)]);
           ("arg"%string, CPtr 1)].

Definition pb_extension_type_t : ctype :=
  CStruct [("decode"%string, CPtr 1); ("encode"%string, CPtr 1); ("arg"%string, CPtr 1)].

Definition pb_extension_t : ctype :=
  CStruct [("type"%string, CPtr 24); ("dest"%string, CPtr 1); ("next"%string, CPtr 32);
           ("found"%string, CScalar 1)].

(** ** Macros that fill in descriptors *)

Definition pb_membersize (st : ctype) (m : designator) : Z := membersize st m.

(** [pb_membersize(st, m[0])]. *)
Definition pb_elemsize (st : ctype) (m : designator) : Z := elemsize st m.

Definition pb_arraysize (st : ctype) (m : designator) : Z := pb_membersize st m / pb_elemsize st m.

Definition pb_delta (st : ctype) (m1 m2 : designator) : Z := offsetof st m1 - offsetof st m2.

Definition PB_DATAOFFSET_FIRST (st : ctype) (m1 m2 : designator) : Z := offsetof st m1.

Definition PB_DATAOFFSET_OTHER (st : ctype) (m1 m2 : designator) : Z :=
  u64 (offsetof st m1 - offsetof st m2 - pb_membersize st m2).

Definition PB_DATAOFFSET_UNION (st : ctype) (m1 m2 : designator) : Z := PB_SIZE_MAX.

Definition PB_DATAOFFSET_CHOOSE (st : ctype) (m1 m2 : designator) : Z :=
  if offsetof st m1 =? offsetof st m2 then PB_DATAOFFSET_FIRST st m1 m2
  else PB_DATAOFFSET_OTHER st m1 m2.

(** [prefix ## m] and [m ## suffix] on a designator's last component. *)
Definition has_ (m : designator) : designator :=
  match m with
  | Mem n => Mem ("has_" +:+ n)
  | Sub u n => Sub u ("has_" +:+ n)
  end.

Definition _count (m : designator) : designator :=
  match m with
  | Mem n => Mem (n +:+ "_count")
  | Sub u n => Sub u (n +:+ "_count")
  end.

Definition which_ (u : string) : designator := Mem ("which_" +:+ u).

Section Descriptors.
Context (tag : Z) (st : ctype) (m : designator) (fd ltype ptr : Z).

Let static (htype size_offset array_size data_size : Z) : pb_field_t :=
  mk_field tag (Z.lor (Z.lor PB_ATYPE_STATIC htype) ltype) fd size_offset data_size array_size ptr.
Let pointer (htype size_offset : Z) : pb_field_t :=
  mk_field tag (Z.lor (Z.lor PB_ATYPE_POINTER htype) ltype) fd size_offset (pb_elemsize st m) 0 ptr.
Let callback (htype : Z) : pb_field_t :=
  mk_field tag (Z.lor (Z.lor PB_ATYPE_CALLBACK htype) ltype) fd 0 (pb_membersize st m) 0 ptr.

Definition PB_REQUIRED_STATIC : pb_field_t := static PB_HTYPE_REQUIRED 0 0 (pb_membersize st m).
Definition PB_OPTIONAL_STATIC : pb_field_t :=
  static PB_HTYPE_OPTIONAL (pb_delta st (has_ m) m) 0 (pb_membersize st m).
Definition PB_SINGULAR_STATIC : pb_field_t := static PB_HTYPE_OPTIONAL 0 0 (pb_membersize st m).
Definition PB_REPEATED_STATIC : pb_field_t :=
  static PB_HTYPE_REPEATED (pb_delta st (_count m) m) (pb_arraysize st m) (pb_elemsize st m).

Definition PB_REQUIRED_POINTER : pb_field_t := pointer PB_HTYPE_REQUIRED 0.
Definition PB_OPTIONAL_POINTER : pb_field_t := pointer PB_HTYPE_OPTIONAL 0.
Definition PB_SINGULAR_POINTER : pb_field_t := pointer PB_HTYPE_OPTIONAL 0.
Definition PB_REPEATED_POINTER : pb_field_t :=
  pointer PB_HTYPE_REPEATED (pb_delta st (_count m) m).

Definition PB_REQUIRED_CALLBACK : pb_field_t := callback PB_HTYPE_REQUIRED.
Definition PB_OPTIONAL_CALLBACK : pb_field_t := callback PB_HTYPE_OPTIONAL.
Definition PB_SINGULAR_CALLBACK : pb_field_t := callback PB_HTYPE_OPTIONAL.
Definition PB_REPEATED_CALLBACK : pb_field_t := callback PB_HTYPE_REPEATED.

(** Extensions: the data offset is 0, and optional ones are REQUIRED. *)
Definition PB_OPTEXT_STATIC : pb_field_t :=
  mk_field tag (Z.lor (Z.lor PB_ATYPE_STATIC PB_HTYPE_REQUIRED) ltype) 0 0 (pb_membersize st m) 0 ptr.
Definition PB_OPTEXT_POINTER : pb_field_t := PB_OPTIONAL_POINTER.
Definition PB_OPTEXT_CALLBACK : pb_field_t := PB_OPTIONAL_CALLBACK.
End Descriptors.

(** The parameters of the [PB_FIELD] macro. *)
Inductive pb_datatype : Type :=
| BOOL | BYTES | DOUBLE | ENUM | UENUM | FIXED32 | FIXED64 | FLOAT | INT32 | INT64 | MESSAGE
| SFIXED32 | SFIXED64 | SINT32 | SINT64 | STRING | UINT32 | UINT64 | EXTENSION
| FIXED_LENGTH_BYTES.

Inductive pb_rules : Type := REQUIRED | OPTIONAL | SINGULAR | REPEATED | OPTEXT.
Inductive pb_allocation : Type := STATIC | POINTER | CALLBACK.
Inductive pb_placement : Type := FIRST | OTHER | UNION.

Definition PB_LTYPE_MAP (t : pb_datatype) : Z :=
  match t with
  | BOOL => PB_LTYPE_BOOL
  | BYTES => PB_LTYPE_BYTES
  | DOUBLE => PB_LTYPE_FIXED64
  | ENUM => PB_LTYPE_VARINT
  | UENUM => PB_LTYPE_UVARINT
  | FIXED32 => PB_LTYPE_FIXED32
  | FIXED64 => PB_LTYPE_FIXED64
  | FLOAT => PB_LTYPE_FIXED32
  | INT32 => PB_LTYPE_VARINT
  | INT64 => PB_LTYPE_VARINT
  | MESSAGE => PB_LTYPE_SUBMESSAGE
  | SFIXED32 => PB_LTYPE_FIXED32
  | SFIXED64 => PB_LTYPE_FIXED64
  | SINT32 => PB_LTYPE_SVARINT
  | SINT64 => PB_LTYPE_SVARINT
  | STRING => PB_LTYPE_STRING
  | UINT32 => PB_LTYPE_UVARINT
  | UINT64 => PB_LTYPE_UVARINT
  | EXTENSION => PB_LTYPE_EXTENSION
  | FIXED_LENGTH_BYTES => PB_LTYPE_FIXED_LENGTH_BYTES
  end.

(** [PB_DATAOFFSET_ ## placement]. *)
Definition PB_DATAOFFSET (p : pb_placement) (st : ctype) (m1 m2 : designator) : Z :=
  match p with
  | FIRST => PB_DATAOFFSET_FIRST st m1 m2
  | OTHER => PB_DATAOFFSET_OTHER st m1 m2
  | UNION => PB_DATAOFFSET_UNION st m1 m2
  end.

Definition PB_FIELD (tag : Z) (type : pb_datatype) (rules : pb_rules) (allocation : pb_allocation)
    (placement : pb_placement) (message : ctype) (field prevfield : string) (ptr : Z) : pb_field_t :=
  let m := Mem field in
  let fd := PB_DATAOFFSET placement message m (Mem prevfield) in
  let ltype := PB_LTYPE_MAP type in
  match rules, allocation with
  | REQUIRED, STATIC => PB_REQUIRED_STATIC tag message m fd ltype ptr
  | OPTIONAL, STATIC => PB_OPTIONAL_STATIC tag message m fd ltype ptr
  | SINGULAR, STATIC => PB_SINGULAR_STATIC tag message m fd ltype ptr
  | REPEATED, STATIC => PB_REPEATED_STATIC tag message m fd ltype ptr
  | OPTEXT, STATIC => PB_OPTEXT_STATIC tag message m ltype ptr
  | REQUIRED, POINTER => PB_REQUIRED_POINTER tag message m fd ltype ptr
  | OPTIONAL, POINTER => PB_OPTIONAL_POINTER tag message m fd ltype ptr
  | SINGULAR, POINTER => PB_SINGULAR_POINTER tag message m fd ltype ptr
  | REPEATED, POINTER => PB_REPEATED_POINTER tag message m fd ltype ptr
  | OPTEXT, POINTER => PB_OPTEXT_POINTER tag message m fd ltype ptr
  | REQUIRED, CALLBACK => PB_REQUIRED_CALLBACK tag message m fd ltype ptr
  | OPTIONAL, CALLBACK => PB_OPTIONAL_CALLBACK tag message m fd ltype ptr
  | SINGULAR, CALLBACK => PB_SINGULAR_CALLBACK tag message m fd ltype ptr
  | REPEATED, CALLBACK => PB_REPEATED_CALLBACK tag message m fd ltype ptr
  | OPTEXT, CALLBACK => PB_OPTEXT_CALLBACK tag message m fd ltype ptr
  end.

(** Repeated fields of fixed count have no count member. *)
Definition PB_REPEATED_FIXED_COUNT (tag : Z) (type : pb_datatype) (placement : pb_placement)
    (message : ctype) (field prevfield : string) (ptr : Z) : pb_field_t :=
  mk_field tag (Z.lor (Z.lor PB_ATYPE_STATIC PB_HTYPE_REPEATED) (PB_LTYPE_MAP type))
    (PB_DATAOFFSET placement message (Mem field) (Mem prevfield)) 0
    (pb_elemsize message (Mem field)) (pb_arraysize message (Mem field)) ptr.

Definition PB_ONEOF_STATIC (u : string) (tag : Z) (st : ctype) (m : string) (fd ltype ptr : Z) :
    pb_field_t :=
  mk_field tag (Z.lor (Z.lor PB_ATYPE_STATIC PB_HTYPE_ONEOF) ltype) fd
    (pb_delta st (which_ u) (Sub u m)) (pb_membersize st (Sub u m)) 0 ptr.

Definition PB_ONEOF_POINTER (u : string) (tag : Z) (st : ctype) (m : string) (fd ltype ptr : Z) :
    pb_field_t :=
  mk_field tag (Z.lor (Z.lor PB_ATYPE_POINTER PB_HTYPE_ONEOF) ltype) fd
    (pb_delta st (which_ u) (Sub u m)) (pb_elemsize st (Sub u m)) 0 ptr.

(** Only static and pointer allocation exist for oneof members. *)
Definition PB_ONEOF_FIELD (union_name : string) (tag : Z) (type : pb_datatype) (is_pointer : bool)
    (placement : pb_placement) (message : ctype) (field : string) (prevfield : designator)
    (ptr : Z) : pb_field_t :=
  let fd := PB_DATAOFFSET placement message (Sub union_name field) prevfield in
  if is_pointer
  then PB_ONEOF_POINTER union_name tag message field fd (PB_LTYPE_MAP type) ptr
  else PB_ONEOF_STATIC union_name tag message field fd (PB_LTYPE_MAP type) ptr.

(** Members of an anonymous union are named directly. *)
Definition PB_ANONYMOUS_ONEOF_STATIC (u : string) (tag : Z) (st : ctype) (m : string)
    (fd ltype ptr : Z) : pb_field_t :=
  mk_field tag (Z.lor (Z.lor PB_ATYPE_STATIC PB_HTYPE_ONEOF) ltype) fd
    (pb_delta st (which_ u) (Mem m)) (pb_membersize st (Mem m)) 0 ptr.

Definition PB_ANONYMOUS_ONEOF_POINTER (u : string) (tag : Z) (st : ctype) (m : string)
    (fd ltype ptr : Z) : pb_field_t :=
  mk_field tag (Z.lor (Z.lor PB_ATYPE_POINTER PB_HTYPE_ONEOF) ltype) fd
    (pb_delta st (which_ u) (Mem m)) (pb_elemsize st (Mem m)) 0 ptr.

Definition PB_ANONYMOUS_ONEOF_FIELD (union_name : string) (tag : Z) (type : pb_datatype)
    (is_pointer : bool) (placement : pb_placement) (message : ctype) (field prevfield : string)
    (ptr : Z) : pb_field_t :=
  let fd := PB_DATAOFFSET placement message (Mem field) (Mem prevfield) in
  if is_pointer
  then PB_ANONYMOUS_ONEOF_POINTER union_name tag message field fd (PB_LTYPE_MAP type) ptr
  else PB_ANONYMOUS_ONEOF_STATIC union_name tag message field fd (PB_LTYPE_MAP type) ptr.

(** Error messages: the first one set is kept. *)
Definition PB_SET_ERROR (errmsg : option string) (msg : string) : option string :=
  match errmsg with
  | Some e => Some e
  | None => Some msg
  end.

Definition PB_GET_ERROR (errmsg : option string) : string :=
  match errmsg with
  | Some e => e
  | None => "(none)"
  end.
