(* ===== verification/PbStream.v ===== *)
(** * Streams

    [pb_ostream_t] and [pb_istream_t], their memory-buffer implementations and
    the operations every other function goes through.  A stream is a value:
    copying a stream struct ([substream = *stream]) copies the value.  A memory
    buffer is part of the stream that points into it: an output buffer is its
    contents and the index of the write pointer, an input buffer the bytes from
    the read pointer to its end (the code never writes an input buffer). *)
From S2P Require Import Prelude PbH.
From Stdlib Require Import ZArith Lia.
From stdpp Require Import base tactics numbers list strings.
#[local] Open Scope Z_scope.

(** Custom streams: the callback gets the stream's state pointer and what to
    write, or whether the destination is non-NULL and how much to read. *)
Class UserStreams : Type := {
  ustate : Type;
  user_write : ustate -> list Z -> bool * ustate;
  user_read : ustate -> bool -> Z -> bool * list Z * ustate
}.

Section Streams.
Context `{UserStreams}.

(** ** Output streams *)

Inductive ocallback : Type :=
| ONull
| OBufWrite
| OUserWrite.

Inductive ostate : Type :=
| OSNull
| OSBuf (buf : list Z) (pos : Z)
| OSUser (u : ustate).

Record pb_ostream_t : Type := OStream {
  os_callback : ocallback;
  os_state : ostate;
  os_max_size : Z;
  os_bytes_written : Z;
  os_errmsg : option string
}.

Definition PB_OSTREAM_SIZING : pb_ostream_t :=
  {| os_callback := ONull; os_state := OSNull; os_max_size := 0; os_bytes_written := 0;
     os_errmsg := None |}.

Definition os_set_state (s : pb_ostream_t) (x : ostate) : pb_ostream_t :=
  {| os_callback := os_callback s; os_state := x; os_max_size := os_max_size s;
     os_bytes_written := os_bytes_written s; os_errmsg := os_errmsg s |}.

Definition os_set_written (s : pb_ostream_t) (n : Z) : pb_ostream_t :=
  {| os_callback := os_callback s; os_state := os_state s; os_max_size := os_max_size s;
     os_bytes_written := n; os_errmsg := os_errmsg s |}.

Definition os_set_errmsg (s : pb_ostream_t) (e : option string) : pb_ostream_t :=
  {| os_callback := os_callback s; os_state := os_state s; os_max_size := os_max_size s;
     os_bytes_written := os_bytes_written s; os_errmsg := e |}.

(** [PB_RETURN_ERROR(stream, msg)]. *)
Definition os_error (s : pb_ostream_t) (msg : string) : res (bool * pb_ostream_t) :=
  Ret (false, os_set_errmsg s (PB_SET_ERROR (os_errmsg s) msg)).

(** The write pointer moves first, then the bytes are copied; a copy past
    the end of the buffer object is undefined. *)
Definition buf_write (s : pb_ostream_t) (buf : list Z) (count : Z) : res (bool * pb_ostream_t) :=
  match os_state s with
  | OSBuf dest pos =>
      if (zlen buf =? count) && (0 <=? pos) && (pos + count <=? zlen dest)
      then Ret (true, os_set_state s (OSBuf (list_inserts (Z.to_nat pos) buf dest) (pos + count)))
      else UB
  | _ => UB
  end.

Definition call_owrite (s : pb_ostream_t) (buf : list Z) (count : Z) : res (bool * pb_ostream_t) :=
  match os_callback s with
  | ONull => UB
  | OBufWrite => buf_write s buf count
  | OUserWrite =>
      match os_state s with
      | OSUser u =>
          let '(ok, u') := user_write u buf in Ret (ok, os_set_state s (OSUser u'))
      | _ => UB
      end
  end.

Definition pb_ostream_from_buffer (buf : list Z) (bufsize : Z) : pb_ostream_t :=
  {| os_callback := OBufWrite; os_state := OSBuf buf 0; os_max_size := bufsize;
     os_bytes_written := 0; os_errmsg := None |}.

Definition has_callback (s : pb_ostream_t) : bool :=
  match os_callback s with
  | ONull => false
  | _ => true
  end.

(** [buf] is the read of the source bytes: it is only forced when the stream
    has a callback. *)
Definition pb_write (s : pb_ostream_t) (buf : res (list Z)) (count : Z) : res (bool * pb_ostream_t) :=
  if (0 <? count) && has_callback s
  then
    let sum := u64 (os_bytes_written s + count) in
    if (sum <? os_bytes_written s) || (os_max_size s <? sum)
    then os_error s "stream full"
    else
      let! bytes := buf in
      let! (ok, s1) := call_owrite s bytes count in
      if ok then Ret (true, os_set_written s1 (u64 (os_bytes_written s1 + count)))
      else os_error s1 "io error"
  else Ret (true, os_set_written s (u64 (os_bytes_written s + count))).

(** ** Input streams *)

Inductive icallback : Type :=
| IBufRead
| IUserRead.

Inductive istate : Type :=
| ISBuf (rest : list Z)
| ISUser (u : ustate).

Record pb_istream_t : Type := IStream {
  is_callback : icallback;
  is_state : istate;
  is_bytes_left : Z;
  is_errmsg : option string
}.

Definition is_set_state (s : pb_istream_t) (x : istate) : pb_istream_t :=
  {| is_callback := is_callback s; is_state := x; is_bytes_left := is_bytes_left s;
     is_errmsg := is_errmsg s |}.

Definition is_set_left (s : pb_istream_t) (n : Z) : pb_istream_t :=
  {| is_callback := is_callback s; is_state := is_state s; is_bytes_left := n;
     is_errmsg := is_errmsg s |}.

Definition is_set_errmsg (s : pb_istream_t) (e : option string) : pb_istream_t :=
  {| is_callback := is_callback s; is_state := is_state s; is_bytes_left := is_bytes_left s;
     is_errmsg := e |}.

Definition is_err (s : pb_istream_t) (msg : string) : pb_istream_t :=
  is_set_errmsg s (PB_SET_ERROR (is_errmsg s) msg).

(** [buf_read(stream, buf, count)]: the bytes copied (none for a NULL
    destination), the read pointer moved past them. *)
Definition buf_read (s : pb_istream_t) (to_buf : bool) (count : Z) :
    res (bool * list Z * pb_istream_t) :=
  match is_state s with
  | ISBuf rest =>
      if count <=? zlen rest
      then Ret (true, if to_buf then take (Z.to_nat count) rest else [],
                is_set_state s (ISBuf (drop (Z.to_nat count) rest)))
      else UB
  | _ => UB
  end.

Definition call_iread (s : pb_istream_t) (to_buf : bool) (count : Z) :
    res (bool * list Z * pb_istream_t) :=
  match is_callback s with
  | IBufRead => buf_read s to_buf count
  | IUserRead =>
      match is_state s with
      | ISUser u =>
          let '(ok, bytes, u') := user_read u to_buf count in
          Ret (ok, bytes, is_set_state s (ISUser u'))
      | _ => UB
      end
  end.

(** The part of [pb_read] after the skip loop. *)
Definition pb_read_direct (s : pb_istream_t) (to_buf : bool) (count : Z) :
    res (bool * list Z * pb_istream_t) :=
  if is_bytes_left s <? count then Ret (false, [], is_err s "end-of-stream")
  else
    let! (ok, bytes, s1) := call_iread s to_buf count in
    if ok then Ret (true, bytes, is_set_left s1 (is_bytes_left s1 - count))
    else Ret (false, bytes, is_err s1 "io error").

(** Reading into NULL from a stream that is not a memory buffer goes through
    a 16-byte scratch buffer. *)
Definition skip_chunks (s : pb_istream_t) (count : Z) : res (bool * list Z * pb_istream_t) :=
  loop (S (Z.to_nat (count / 16)))
    (fun '(s, count) =>
       if 16 <? count
       then
         let! (ok, bytes, s1) := pb_read_direct s true 16 in
         if ok then Ret (inl (s1, count - 16)) else Ret (inr (false, [], s1))
       else
         let! (ok, bytes, s1) := pb_read_direct s true count in
         Ret (inr (ok, [], s1)))
    (s, count).

(** [pb_read(stream, buf, count)]; [to_buf] is [buf != NULL], and the bytes
    are returned for the caller to put where [buf] points. *)
Definition pb_read (s : pb_istream_t) (to_buf : bool) (count : Z) :
    res (bool * list Z * pb_istream_t) :=
  if count =? 0 then Ret (true, [], s)
  else
    match to_buf, is_callback s with
    | false, IUserRead => skip_chunks s count
    | _, _ => pb_read_direct s to_buf count
    end.

Definition pb_readbyte (s : pb_istream_t) : res (option Z * pb_istream_t) :=
  if is_bytes_left s =? 0 then Ret (None, is_err s "end-of-stream")
  else
    let! (ok, bytes, s1) := call_iread s true 1 in
    if ok
    then match bytes with
         | b :: _ => Ret (Some b, is_set_left s1 (is_bytes_left s1 - 1))
         | [] => UB
         end
    else Ret (None, is_err s1 "io error").

Definition pb_istream_from_buffer (buf : list Z) (bufsize : Z) : pb_istream_t :=
  {| is_callback := IBufRead; is_state := ISBuf buf; is_bytes_left := bufsize;
     is_errmsg := None |}.
End Streams.
