(* ===== verification/PbCommon.v ===== *)
(** * pb_common.c: the field iterator

    [pb_field_iter_t] walks a descriptor array and keeps the addresses of the
    current field's data and of its count/has/which member.  A descriptor array
    is a list that ends with [PB_LAST_FIELD]; [it_pos] is the index of
    [iter->pos] in it, and dereferencing past the end is undefined. *)
From S2P Require Import Prelude CMem CLayout PbH.
From Stdlib Require Import ZArith Lia.
From stdpp Require Import base tactics numbers list strings.
#[local] Open Scope Z_scope.

(** The descriptor array at an address ([(const pb_field_t* )field->ptr]). *)
Class Descriptors : Type := descriptor_at : Z -> option (list pb_field_t).

Definition submsg_fields `{Descriptors} (ptr : Z) : res (list pb_field_t) :=
  match descriptor_at ptr with
  | Some fields => Ret fields
  | None => UB
  end.

Record pb_field_iter_t : Type := FieldIter {
  it_start : list pb_field_t;
  it_pos : nat;
  it_required_field_index : Z;
  it_dest_struct : Z;
  it_pData : Z;
  it_pSize : Z
}.

Definition it_set_pSize (it : pb_field_iter_t) (a : Z) : pb_field_iter_t :=
  {| it_start := it_start it; it_pos := it_pos it;
     it_required_field_index := it_required_field_index it;
     it_dest_struct := it_dest_struct it; it_pData := it_pData it; it_pSize := a |}.

Definition it_set_pData (it : pb_field_iter_t) (a : Z) : pb_field_iter_t :=
  {| it_start := it_start it; it_pos := it_pos it;
     it_required_field_index := it_required_field_index it;
     it_dest_struct := it_dest_struct it; it_pData := a; it_pSize := it_pSize it |}.

(** [*iter->pos]. *)
Definition field_at (fields : list pb_field_t) (pos : nat) : res pb_field_t :=
  match fields !! pos with
  | Some f => Ret f
  | None => UB
  end.

Definition it_field (it : pb_field_iter_t) : res pb_field_t := field_at (it_start it) (it_pos it).

Definition pb_field_iter_begin (fields : list pb_field_t) (dest_struct : Z) :
    res (bool * pb_field_iter_t) :=
  let! f := field_at fields 0 in
  let pData := dest_struct + pf_data_offset f in
  Ret (negb (pf_tag f =? 0),
       {| it_start := fields; it_pos := 0; it_required_field_index := 0;
          it_dest_struct := dest_struct; it_pData := pData;
          it_pSize := pData + pf_size_offset f |}).

(** Bytes the previous field takes in the struct. *)
Definition field_extent (f : pb_field_t) : Z :=
  if (PB_ATYPE (pf_type f) =? PB_ATYPE_STATIC) && (PB_HTYPE (pf_type f) =? PB_HTYPE_REPEATED)
  then u64 (pf_data_size f * pf_array_size f)
  else if PB_ATYPE (pf_type f) =? PB_ATYPE_POINTER then 8
  else pf_data_size f.

(** The next field is another member of the union the previous one is in. *)
Definition same_union (prev f : pb_field_t) : bool :=
  (PB_HTYPE (pf_type prev) =? PB_HTYPE_ONEOF) && (PB_HTYPE (pf_type f) =? PB_HTYPE_ONEOF)
  && (pf_data_offset f =? PB_SIZE_MAX).

Definition pb_field_iter_next (it : pb_field_iter_t) : res (bool * pb_field_iter_t) :=
  let! prev_field := it_field it in
  if pf_tag prev_field =? 0 then Ret (false, it)
  else
    let! f := field_at (it_start it) (S (it_pos it)) in
    if pf_tag f =? 0
    then
      let! (_, it0) := pb_field_iter_begin (it_start it) (it_dest_struct it) in
      Ret (false, it0)
    else if same_union prev_field f
    then
      Ret (true,
           {| it_start := it_start it; it_pos := S (it_pos it);
              it_required_field_index := it_required_field_index it;
              it_dest_struct := it_dest_struct it; it_pData := it_pData it;
              it_pSize := it_pSize it |})
    else
      let prev_size := field_extent prev_field in
      let req :=
        if PB_HTYPE (pf_type prev_field) =? PB_HTYPE_REQUIRED
        then u32 (it_required_field_index it + 1)
        else it_required_field_index it in
      let pData := it_pData it + prev_size + pf_data_offset f in
      Ret (true,
           {| it_start := it_start it; it_pos := S (it_pos it);
              it_required_field_index := req;
              it_dest_struct := it_dest_struct it; it_pData := pData;
              it_pSize := pData + pf_size_offset f |}).

(** The search goes round the array once; one more pass than there are entries
    is enough. *)
Definition pb_field_iter_find (it : pb_field_iter_t) (tag : Z) : res (bool * pb_field_iter_t) :=
  let start := it_pos it in
  loop (S (length (it_start it)))
    (fun it =>
       let! f := it_field it in
       if (pf_tag f =? tag) && negb (PB_LTYPE (pf_type f) =? PB_LTYPE_EXTENSION)
       then Ret (inr (true, it))
       else
         let! (_, it) := pb_field_iter_next it in
         if (it_pos it =? start)%nat then Ret (inr (false, it)) else Ret (inl it))
    it.

(** ** The iterator as a function of the position *)

(** A descriptor array as the generator writes it: its only entry with tag 0 is
    the last one. *)
Definition wf_table (fields : list pb_field_t) : Prop :=
  exists fs l, fields = fs ++ [l] /\ pf_tag l = 0 /\ Forall (fun f => pf_tag f <> 0) fs.

(** Every member of an entry is in the range of its C type. *)
Definition field_ok (f : pb_field_t) : Prop :=
  0 <= pf_tag f < 2 ^ 32 /\ 0 <= pf_type f < 2 ^ 8 /\ 0 <= pf_data_size f < 2 ^ 32
  /\ 0 <= pf_array_size f < 2 ^ 32.

Definition field_okb (f : pb_field_t) : bool :=
  (0 <=? pf_tag f) && (pf_tag f <? 2 ^ 32) && (0 <=? pf_type f) && (pf_type f <? 2 ^ 8)
  && (0 <=? pf_data_size f) && (pf_data_size f <? 2 ^ 32)
  && (0 <=? pf_array_size f) && (pf_array_size f <? 2 ^ 32).

Definition wf_fields (fields : list pb_field_t) : Prop := wf_table fields /\ Forall field_ok fields.

(** What the generated files promise to the library: every descriptor array
    that can be reached is well formed. *)
Class WfDescriptors `{Descriptors} : Prop :=
  wf_descriptors : forall a fields, descriptor_at a = Some fields -> wf_fields fields.

(** Its number of fields. *)
Definition field_count (fields : list pb_field_t) : nat := (length fields - 1)%nat.

Definition nth_field (fields : list pb_field_t) (i : nat) : pb_field_t :=
  default PB_LAST_FIELD (fields !! i).

(** The state of an iterator at position [i] of the array. *)
Fixpoint iter_at (fields : list pb_field_t) (dest : Z) (i : nat) : pb_field_iter_t :=
  let f := nth_field fields i in
  match i with
  | O =>
      let pData := dest + pf_data_offset f in
      {| it_start := fields; it_pos := 0; it_required_field_index := 0; it_dest_struct := dest;
         it_pData := pData; it_pSize := pData + pf_size_offset f |}
  | S j =>
      let it := iter_at fields dest j in
      let prev := nth_field fields j in
      if same_union prev f
      then
        {| it_start := fields; it_pos := i;
           it_required_field_index := it_required_field_index it; it_dest_struct := dest;
           it_pData := it_pData it; it_pSize := it_pSize it |}
      else
        let pData := it_pData it + field_extent prev + pf_data_offset f in
        {| it_start := fields; it_pos := i;
           it_required_field_index :=
             if PB_HTYPE (pf_type prev) =? PB_HTYPE_REQUIRED
             then u32 (it_required_field_index it + 1) else it_required_field_index it;
           it_dest_struct := dest; it_pData := pData; it_pSize := pData + pf_size_offset f |}
  end.

(** The position after [i], back to the start at the end. *)
Definition next_pos (fields : list pb_field_t) (i : nat) : nat :=
  if (S i <? field_count fields)%nat then S i else 0%nat.

(** [wf_table] as a computation. *)
Fixpoint wf_tableb (fields : list pb_field_t) : bool :=
  match fields with
  | [] => false
  | [l] => pf_tag l =? 0
  | f :: fs => negb (pf_tag f =? 0) && wf_tableb fs
  end.

Definition is_field (fields : list pb_field_t) (tag : Z) (i : nat) : bool :=
  (pf_tag (nth_field fields i) =? tag)
  && negb (PB_LTYPE (pf_type (nth_field fields i)) =? PB_LTYPE_EXTENSION).

Lemma wf_tableb_spec fields : wf_tableb fields = true -> wf_table fields.
Proof.
  induction fields as [|f fs IH]; [done|]. cbn [wf_tableb]. destruct fs as [|g fs].
  - intros H%Z.eqb_eq. by exists [], f.
  - intros [Hf%negb_true_iff%Z.eqb_neq H]%andb_true_iff.
    destruct (IH H) as (fs' & l & -> & Hl & Hfs). exists (f :: fs'), l. split_and!; [done|done|].
    by constructor.
Qed.

Lemma field_okb_spec f : field_okb f = true -> field_ok f.
Proof. unfold field_okb, field_ok. rewrite !andb_true_iff, !Z.leb_le, !Z.ltb_lt. lia. Qed.

Lemma mk_field_ok tag type doff soff dsize asize ptr :
  field_ok (mk_field tag type doff soff dsize asize ptr).
Proof. unfold field_ok. cbn. split_and!; apply wrap_range; lia. Qed.

Lemma ltype_range f : 0 <= PB_LTYPE (pf_type f) < 16.
Proof.
  unfold PB_LTYPE. change PB_LTYPE_MASK with (Z.ones 4). rewrite Z.land_ones by lia.
  by apply Z.mod_pos_bound.
Qed.

Lemma ltype_cases f (P : Z -> Prop) :
  (forall n, (n < 16)%nat -> P (Z.of_nat n)) -> P (PB_LTYPE (pf_type f)).
Proof.
  intros HP. pose proof (ltype_range f). rewrite <- (Z2Nat.id (PB_LTYPE _)) by lia. apply HP. lia.
Qed.

Lemma iter_at_start fields dest i : it_start (iter_at fields dest i) = fields.
Proof. destruct i; cbn; [done|]. by destruct (same_union _ _). Qed.

Lemma iter_at_pos fields dest i : it_pos (iter_at fields dest i) = i.
Proof. destruct i; cbn; [done|]. by destruct (same_union _ _). Qed.

Lemma iter_at_dest fields dest i : it_dest_struct (iter_at fields dest i) = dest.
Proof. destruct i; cbn; [done|]. by destruct (same_union _ _). Qed.

Section Iterator.
Context (fields : list pb_field_t) (dest : Z) (Hwf : wf_table fields).

Lemma nth_field_lookup i : (i <= field_count fields)%nat -> fields !! i = Some (nth_field fields i).
Proof.
  intros Hi. unfold nth_field. destruct (fields !! i) eqn:E; [done|].
  apply lookup_ge_None in E. unfold field_count in Hi.
  destruct Hwf as (fs & l & -> & _). rewrite length_app in *. cbn in *. lia.
Qed.

Lemma nth_field_tag i :
  (i < field_count fields)%nat -> pf_tag (nth_field fields i) <> 0.
Proof.
  intros Hi. pose proof (nth_field_lookup i ltac:(lia)) as E. unfold field_count in Hi.
  destruct Hwf as (fs & l & H & _ & Hfs). rewrite H in *. rewrite length_app in Hi. cbn in Hi.
  rewrite lookup_app_l in E by lia. rewrite Forall_forall in Hfs. apply Hfs.
  by eapply list_elem_of_lookup_2.
Qed.

Lemma nth_field_last : pf_tag (nth_field fields (field_count fields)) = 0.
Proof.
  unfold nth_field, field_count. destruct Hwf as (fs & l & -> & Hl & _).
  rewrite length_app. cbn. rewrite Nat.add_sub. by rewrite list_lookup_middle.
Qed.

Lemma it_field_at i :
  (i <= field_count fields)%nat -> it_field (iter_at fields dest i) = Ret (nth_field fields i).
Proof.
  intros Hi. unfold it_field, field_at. rewrite iter_at_start, iter_at_pos.
  by rewrite nth_field_lookup.
Qed.

Lemma iter_begin_at :
  pb_field_iter_begin fields dest = Ret ((0 <? field_count fields)%nat, iter_at fields dest 0).
Proof.
  unfold pb_field_iter_begin, field_at. rewrite nth_field_lookup by lia. cbn [rbind].
  f_equal. f_equal. destruct (Nat.ltb_spec 0 (field_count fields)) as [H|H].
  - pose proof (nth_field_tag 0 H). by destruct (Z.eqb_spec (pf_tag (nth_field fields 0)) 0).
  - pose proof nth_field_last as E. replace (field_count fields) with 0%nat in E by lia.
    by rewrite E.
Qed.

Lemma iter_next_at i :
  (i < field_count fields)%nat ->
  pb_field_iter_next (iter_at fields dest i)
  = Ret ((S i <? field_count fields)%nat, iter_at fields dest (next_pos fields i)).
Proof.
  intros Hi. unfold pb_field_iter_next. rewrite it_field_at by lia. cbn [rbind].
  destruct (Z.eqb_spec (pf_tag (nth_field fields i)) 0) as [E|_]; [by apply nth_field_tag in E|].
  unfold field_at. rewrite iter_at_start, iter_at_pos, iter_at_dest, nth_field_lookup by lia.
  cbn [rbind]. unfold next_pos. destruct (Nat.ltb_spec (S i) (field_count fields)) as [H|H].
  - destruct (Z.eqb_spec (pf_tag (nth_field fields (S i))) 0) as [E|_]; [by apply nth_field_tag in E|].
    cbn [iter_at]. by destruct (same_union _ _).
  - replace (S i) with (field_count fields) by lia. rewrite nth_field_last. cbn [Z.eqb].
    rewrite iter_begin_at. done.
Qed.
(** The positions in the order the search visits them from [i]. *)
Lemma next_pos_mod i m :
  (0 < field_count fields)%nat ->
  next_pos fields ((i + m) mod field_count fields) = ((i + S m) mod field_count fields)%nat.
Proof.
  intros Hn. unfold next_pos. set (n := field_count fields) in *.
  pose proof (Nat.mod_upper_bound (i + m) n ltac:(lia)) as Hu.
  pose proof (Nat.div_mod_eq (i + m) n) as Hd.
  destruct (Nat.ltb_spec (S ((i + m) mod n)) n) as [Hlt|Hge].
  - apply (Nat.mod_unique _ _ ((i + m) / n)); lia.
  - apply (Nat.mod_unique _ _ (S ((i + m) / n))); lia.
Qed.

Lemma cyclic_return i m :
  (i < field_count fields)%nat -> (0 < m < field_count fields)%nat ->
  ((i + m) mod field_count fields)%nat <> i.
Proof.
  intros Hi Hm He. set (n := field_count fields) in *.
  pose proof (Nat.div_mod_eq (i + m) n) as Hd. rewrite He in Hd.
  assert (m = n * ((i + m) / n))%nat by lia.
  destruct ((i + m) / n)%nat; nia.
Qed.

(** The loop of [pb_field_iter_find], [m] steps after it started at [i]. *)
Lemma iter_find_from tag i r m k :
  (i < field_count fields)%nat -> (m + r = field_count fields)%nat -> (0 < r <= k)%nat ->
  loop k
    (fun it =>
       let! f := it_field it in
       if (pf_tag f =? tag) && negb (PB_LTYPE (pf_type f) =? PB_LTYPE_EXTENSION)
       then Ret (inr (true, it))
       else
         let! (_, it) := pb_field_iter_next it in
         if (it_pos it =? i)%nat then Ret (inr (false, it)) else Ret (inl it))
    (iter_at fields dest ((i + m) mod field_count fields))
  = Ret (match list_find (is_field fields tag)
                 ((fun m => (i + m) mod field_count fields)%nat <$> seq m r) with
         | Some (_, j) => (true, iter_at fields dest j)
         | None => (false, iter_at fields dest i)
         end).
Proof.
  intros Hi. revert m k; induction r as [|r IH]; intros m [|k] Hm Hk; try lia.
  pose proof (Nat.mod_upper_bound (i + m) (field_count fields) ltac:(lia)) as Hp.
  cbn [loop seq fmap list_fmap list_find]. rewrite it_field_at by (done || lia). cbn [rbind].
  fold (is_field fields tag ((i + m) mod field_count fields)).
  destruct (is_field fields tag _) eqn:Ef.
  { by rewrite decide_True by done. }
  rewrite decide_False by tauto. cbn [rbind]. rewrite iter_next_at by done. cbn [rbind].
  rewrite iter_at_pos, next_pos_mod by lia.
  destruct (decide (r = 0%nat)) as [->|Hr].
  - assert (m + 1 = field_count fields)%nat as Hm1 by lia.
    assert ((i + S m) mod field_count fields = i)%nat as ->.
    { replace (i + S m)%nat with (i + 1 * field_count fields)%nat by lia.
      rewrite Nat.Div0.mod_add. by apply Nat.mod_small. }
    by rewrite Nat.eqb_refl.
  - destruct (Nat.eqb_spec ((i + S m) mod field_count fields) i) as [He|_].
    { by apply cyclic_return in He; [|done|lia]. }
    cbn [rbind]. rewrite IH by lia.
    by destruct (list_find _ (_ <$> seq (S m) r)) as [[? ?]|].
Qed.

Lemma iter_find_at tag i :
  (i < field_count fields)%nat ->
  pb_field_iter_find (iter_at fields dest i) tag
  = Ret (match list_find (is_field fields tag)
                 ((fun m => (i + m) mod field_count fields)%nat <$> seq 0 (field_count fields)) with
         | Some (_, j) => (true, iter_at fields dest j)
         | None => (false, iter_at fields dest i)
         end).
Proof.
  intros Hi. unfold pb_field_iter_find. rewrite iter_at_start, iter_at_pos.
  pose proof (iter_find_from tag i (field_count fields) 0 (S (length fields)) Hi) as Hf.
  rewrite Nat.add_0_r, Nat.mod_small in Hf by done. apply Hf; [done|].
  unfold field_count in *. lia.
Qed.

(** Addresses move with the struct. *)
Lemma iter_at_shift i :
  it_pData (iter_at fields dest i) = dest + it_pData (iter_at fields 0 i)
  /\ it_pSize (iter_at fields dest i) = dest + it_pSize (iter_at fields 0 i).
Proof.
  induction i as [|i [IHd IHs]]; cbn [iter_at]; [cbn; lia|].
  destruct (same_union _ _); cbn; [by split|]. rewrite IHd. lia.
Qed.
End Iterator.

(** The search of [pb_field_iter_find] visits every field once, starting at the
    current one and going round the array: it stops at the first whose tag is
    asked for and that is not an extension range, and otherwise comes back to
    where it started. *)
Theorem pb_field_iter_find_correct fields dest tag i :
  wf_table fields -> (i < field_count fields)%nat ->
  let order := (fun m => (i + m) mod field_count fields)%nat <$> seq 0 (field_count fields) in
  pb_field_iter_find (iter_at fields dest i) tag
  = Ret (match list_find (is_field fields tag) order with
         | Some (_, j) => (true, iter_at fields dest j)
         | None => (false, iter_at fields dest i)
         end).
Proof. intros Hwf Hi. by apply iter_find_at. Qed.

(** Begin and next enumerate the fields of a table in order and report the end
    exactly after the last one, back at the start. *)
Theorem pb_field_iter_enumerates fields dest :
  wf_table fields ->
  pb_field_iter_begin fields dest
  = Ret ((0 <? field_count fields)%nat, iter_at fields dest 0)
  /\ forall i, (i < field_count fields)%nat ->
       it_field (iter_at fields dest i) = Ret (nth_field fields i)
       /\ pb_field_iter_next (iter_at fields dest i)
          = Ret (if (S i <? field_count fields)%nat then (true, iter_at fields dest (S i))
                 else (false, iter_at fields dest 0)).
Proof.
  intros Hwf. split; [by apply iter_begin_at|]. intros i Hi. split; [apply it_field_at; [done|lia]|].
  rewrite iter_next_at by done. unfold next_pos. by destruct (_ <? _)%nat.
Qed.
