(* ===== verification/PbEncode.v ===== *)
(** * pb_encode.c: the encoder

    Every function of pb_encode.c, over the memory that holds the message
    struct (the encoder only reads it).  Functions that reach [pb_encode] again
    through submessages take it as an argument in a section, and [pb_encode]
    closes the recursion with fuel; the same fuel bounds the walks over C
    strings and extension lists, which have no bound of their own. *)
From S2P Require Import Prelude CMem CLayout PbH PbStream PbCommon.
From Stdlib Require Import ZArith Lia.
From stdpp Require Import base tactics numbers list gmap strings.
#[local] Open Scope Z_scope.

(** What the encoder finds through pointers to code: the functions behind the
    function pointers of callback fields and extension types. *)
Class EncoderEnv `{UserStreams} `{Descriptors} : Type := {
  enc_field_callback :
    Z -> option (pb_ostream_t -> pb_field_t -> Z -> res (bool * pb_ostream_t));
  enc_extension_callback : Z -> option (pb_ostream_t -> Z -> res (bool * pb_ostream_t))
}.

Section Primitives.
Context `{UserStreams}.

(** [buffer[i] = (value & 0x7F) | 0x80; value >>= 7; i++] while value is not
    zero, into a 10-byte array. *)
Definition varint_bytes (value : Z) : res (list Z) :=
  loop 12
    (fun '(value, buffer) =>
       if value =? 0 then Ret (inr buffer)
       else if 10 <=? zlen buffer then UB
       else Ret (inl (Z.shiftr value 7, buffer ++ [Z.lor (Z.land value 0x7F) 0x80])))
    (value, []).

Definition pb_encode_varint (s : pb_ostream_t) (value : Z) : res (bool * pb_ostream_t) :=
  if value <=? 0x7F then pb_write s (Ret [u8 value]) 1
  else
    let! buffer := varint_bytes value in
    let buffer := alter (fun b => Z.land b 0x7F) (length buffer - 1)%nat buffer in
    pb_write s (Ret buffer) (zlen buffer).

Definition pb_encode_svarint (s : pb_ostream_t) (value : Z) : res (bool * pb_ostream_t) :=
  let zigzagged :=
    if value <? 0 then u64 (Z.lnot (u64 (Z.shiftl (u64 value) 1)))
    else u64 (Z.shiftl (u64 value) 1) in
  pb_encode_varint s zigzagged.

(** [*(const uint32_t* )value] is [val]. *)
Definition pb_encode_fixed32 (s : pb_ostream_t) (val : Z) : res (bool * pb_ostream_t) :=
  pb_write s
    (Ret [Z.land val 0xFF;
          Z.land (Z.shiftr val 8) 0xFF;
          Z.land (Z.shiftr val 16) 0xFF;
          Z.land (Z.shiftr val 24) 0xFF]) 4.

Definition pb_encode_fixed64 (s : pb_ostream_t) (val : Z) : res (bool * pb_ostream_t) :=
  pb_write s
    (Ret [Z.land val 0xFF;
          Z.land (Z.shiftr val 8) 0xFF;
          Z.land (Z.shiftr val 16) 0xFF;
          Z.land (Z.shiftr val 24) 0xFF;
          Z.land (Z.shiftr val 32) 0xFF;
          Z.land (Z.shiftr val 40) 0xFF;
          Z.land (Z.shiftr val 48) 0xFF;
          Z.land (Z.shiftr val 56) 0xFF]) 8.

Definition pb_encode_tag (s : pb_ostream_t) (wiretype field_number : Z) :
    res (bool * pb_ostream_t) :=
  pb_encode_varint s (Z.lor (u64 (Z.shiftl field_number 3)) wiretype).

Definition pb_encode_tag_for_field (s : pb_ostream_t) (field : pb_field_t) :
    res (bool * pb_ostream_t) :=
  let ltype := PB_LTYPE (pf_type field) in
  let wiretype :=
    if (ltype =? PB_LTYPE_BOOL) || (ltype =? PB_LTYPE_VARINT) || (ltype =? PB_LTYPE_UVARINT)
       || (ltype =? PB_LTYPE_SVARINT) then Some PB_WT_VARINT
    else if ltype =? PB_LTYPE_FIXED32 then Some PB_WT_32BIT
    else if ltype =? PB_LTYPE_FIXED64 then Some PB_WT_64BIT
    else if (ltype =? PB_LTYPE_BYTES) || (ltype =? PB_LTYPE_STRING)
            || (ltype =? PB_LTYPE_SUBMESSAGE) || (ltype =? PB_LTYPE_FIXED_LENGTH_BYTES)
    then Some PB_WT_STRING
    else None in
  match wiretype with
  | Some wt => pb_encode_tag s wt (pf_tag field)
  | None => os_error s "invalid field type"
  end.

Definition pb_encode_string (s : pb_ostream_t) (buffer : res (list Z)) (size : Z) :
    res (bool * pb_ostream_t) :=
  let? s := pb_encode_varint s (u64 size) in
  pb_write s buffer size.
End Primitives.

(** [sizeof(bool)] is 1. *)
Definition safe_read_bool (m : gmap Z mbyte) (a : Z) : res bool :=
  let! b := load_byte m a in Ret (negb (b =? 0)).

(** The count/has/which member of a field: in the struct, or the encoder's
    local [implicit_has]. *)
Inductive psize : Type :=
| ImplicitHas (b : bool)
| InStruct (a : Z).

Definition read_has (m : gmap Z mbyte) (p : psize) : res bool :=
  match p with
  | ImplicitHas b => Ret b
  | InStruct a => safe_read_bool m a
  end.

(** Reading a 4-byte [pb_size_t] through a pointer to the 1-byte local is out
    of bounds. *)
Definition read_size (m : gmap Z mbyte) (p : psize) : res Z :=
  match p with
  | ImplicitHas _ => UB
  | InStruct a => load_uint m a 4
  end.

(** [for (i = 0; i < n; i++) if (p[i] != 0) return false; return true;] *)
Fixpoint bytes_are_zero (m : gmap Z mbyte) (p : Z) (n : nat) : res bool :=
  match n with
  | O => Ret true
  | S n =>
      let! b := load_byte m p in
      if b =? 0 then bytes_are_zero m (p + 1) n else Ret false
  end.

(** [do { if (!check(iter.pos, iter.pData)) return false; } while (next(&iter))] *)
Definition all_fields_check (check : pb_field_t -> Z -> res bool) (fields : list pb_field_t)
    (pData : Z) : res bool :=
  let! (more, it) := pb_field_iter_begin fields pData in
  if negb more then Ret true
  else
    loop (S (length fields))
      (fun it =>
         let! f := it_field it in
         let! ok := check f (it_pData it) in
         if negb ok then Ret (inr false)
         else
           let! (more, it) := pb_field_iter_next it in
           Ret (if more then inl it else inr true))
      it.

(** The proto3 rule: is the field's value the zero of its type? *)
Fixpoint pb_check_proto3_default_value `{EncoderEnv} (m : gmap Z mbyte) (fuel : nat)
    (field : pb_field_t) (pData : Z) : res bool :=
  match fuel with
  | O => OutOfFuel
  | S fuel =>
      let type := pf_type field in
      let pSize := pData + pf_size_offset field in
      let byte_per_byte := bytes_are_zero m pData (Z.to_nat (pf_data_size field)) in
      let pointer_or_bytes :=
        if (PB_ATYPE type =? PB_ATYPE_POINTER) && (PB_LTYPE_LAST_PACKABLE <? PB_LTYPE type)
        then let! p := load_ptr m pData in Ret (p =? 0)
        else byte_per_byte in
      let singular :=
        if PB_ATYPE type =? PB_ATYPE_STATIC then
          if PB_LTYPE type =? PB_LTYPE_BYTES
          then let! size := load_uint m pData 4 in Ret (size =? 0)
          else if PB_LTYPE type =? PB_LTYPE_STRING
          then let! c := load_byte m pData in Ret (c =? 0)
          else if PB_LTYPE type =? PB_LTYPE_FIXED_LENGTH_BYTES
          then Ret (pf_data_size field =? 0)
          else if PB_LTYPE type =? PB_LTYPE_SUBMESSAGE
          then
            let! fields := submsg_fields (pf_ptr field) in
            all_fields_check (pb_check_proto3_default_value m fuel) fields pData
          else pointer_or_bytes
        else pointer_or_bytes in
      if PB_HTYPE type =? PB_HTYPE_REQUIRED then Ret false
      else if PB_HTYPE type =? PB_HTYPE_REPEATED then
        if negb (pf_size_offset field =? 0)
        then let! n := load_uint m pSize 4 in Ret (n =? 0)
        else if PB_ATYPE type =? PB_ATYPE_STATIC then Ret false
        else singular
      else if PB_HTYPE type =? PB_HTYPE_ONEOF
      then let! n := load_uint m pSize 4 in Ret (n =? 0)
      else if (PB_HTYPE type =? PB_HTYPE_OPTIONAL) && negb (pf_size_offset field =? 0)
      then let! b := safe_read_bool m pSize in Ret (negb b)
      else singular
  end.

Section FieldEncoders.
Context `{E : EncoderEnv} (m : gmap Z mbyte) (fuel : nat).
Context (pb_encode : pb_ostream_t -> list pb_field_t -> Z -> res (bool * pb_ostream_t)).

Definition pb_encode_submessage (s : pb_ostream_t) (fields : list pb_field_t) (src : Z) :
    res (bool * pb_ostream_t) :=
  let! (ok, substream) := pb_encode PB_OSTREAM_SIZING fields src in
  if negb ok then Ret (false, os_set_errmsg s (os_errmsg substream))
  else
    let size := os_bytes_written substream in
    let? s := pb_encode_varint s (u64 size) in
    if negb (has_callback s) then pb_write s UB size
    else if os_max_size s <? u64 (os_bytes_written s + size) then os_error s "stream full"
    else
      let sub0 :=
        {| os_callback := os_callback s; os_state := os_state s; os_max_size := size;
           os_bytes_written := 0; os_errmsg := None |} in
      let! (status, substream) := pb_encode sub0 fields src in
      let s :=
        {| os_callback := os_callback s; os_state := os_state substream;
           os_max_size := os_max_size s;
           os_bytes_written := u64 (os_bytes_written s + os_bytes_written substream);
           os_errmsg := os_errmsg substream |} in
      if negb (os_bytes_written substream =? size) then os_error s "submsg size changed"
      else Ret (status, s).

Definition pb_enc_bool (s : pb_ostream_t) (field : pb_field_t) (src : Z) :
    res (bool * pb_ostream_t) :=
  let! b := safe_read_bool m src in
  pb_encode_varint s (if b then 1 else 0).

Definition pb_enc_varint (s : pb_ostream_t) (field : pb_field_t) (src : Z) :
    res (bool * pb_ostream_t) :=
  if pf_data_size field =? 1 then let! v := load_sint m src 1 in pb_encode_varint s (u64 v)
  else if pf_data_size field =? 2 then let! v := load_sint m src 2 in pb_encode_varint s (u64 v)
  else if pf_data_size field =? 4 then let! v := load_sint m src 4 in pb_encode_varint s (u64 v)
  else if pf_data_size field =? 8 then let! v := load_sint m src 8 in pb_encode_varint s (u64 v)
  else os_error s "invalid data_size".

Definition pb_enc_uvarint (s : pb_ostream_t) (field : pb_field_t) (src : Z) :
    res (bool * pb_ostream_t) :=
  if pf_data_size field =? 1 then let! v := load_uint m src 1 in pb_encode_varint s v
  else if pf_data_size field =? 2 then let! v := load_uint m src 2 in pb_encode_varint s v
  else if pf_data_size field =? 4 then let! v := load_uint m src 4 in pb_encode_varint s v
  else if pf_data_size field =? 8 then let! v := load_uint m src 8 in pb_encode_varint s v
  else os_error s "invalid data_size".

Definition pb_enc_svarint (s : pb_ostream_t) (field : pb_field_t) (src : Z) :
    res (bool * pb_ostream_t) :=
  if pf_data_size field =? 1 then let! v := load_sint m src 1 in pb_encode_svarint s v
  else if pf_data_size field =? 2 then let! v := load_sint m src 2 in pb_encode_svarint s v
  else if pf_data_size field =? 4 then let! v := load_sint m src 4 in pb_encode_svarint s v
  else if pf_data_size field =? 8 then let! v := load_sint m src 8 in pb_encode_svarint s v
  else os_error s "invalid data_size".

Definition pb_enc_fixed64 (s : pb_ostream_t) (field : pb_field_t) (src : Z) :
    res (bool * pb_ostream_t) :=
  let! v := load_uint m src 8 in pb_encode_fixed64 s v.

Definition pb_enc_fixed32 (s : pb_ostream_t) (field : pb_field_t) (src : Z) :
    res (bool * pb_ostream_t) :=
  let! v := load_uint m src 4 in pb_encode_fixed32 s v.

Definition pb_enc_bytes (s : pb_ostream_t) (field : pb_field_t) (src : Z) :
    res (bool * pb_ostream_t) :=
  if src =? 0 then pb_encode_string s UB 0
  else
    let! size := load_uint m src 4 in
    let allocsize := PB_BYTES_ARRAY_T_ALLOCSIZE size in
    if (allocsize <? size)
       || ((PB_ATYPE (pf_type field) =? PB_ATYPE_STATIC) && (pf_data_size field <? allocsize))
    then os_error s "bytes size exceeded"
    else
      pb_encode_string s
        (load_bytes m (src + offsetof pb_bytes_array_t (Mem "bytes")) (Z.to_nat size)) size.

(** [while (size < max_size && *p != 0) { size++; p++; }] *)
Definition string_size (src max_size : Z) : res Z :=
  loop fuel
    (fun '(size, p) =>
       if size <? max_size
       then
         let! c := load_byte m p in
         if c =? 0 then Ret (inr size) else Ret (inl (size + 1, p + 1))
       else Ret (inr size))
    (0, src).

Definition pb_enc_string (s : pb_ostream_t) (field : pb_field_t) (src : Z) :
    res (bool * pb_ostream_t) :=
  let max_size :=
    if PB_ATYPE (pf_type field) =? PB_ATYPE_POINTER then u64 (-1) else pf_data_size field in
  let! size := (if src =? 0 then Ret 0 else string_size src max_size) in
  pb_encode_string s (load_bytes m src (Z.to_nat size)) size.

Definition pb_enc_submessage (s : pb_ostream_t) (field : pb_field_t) (src : Z) :
    res (bool * pb_ostream_t) :=
  if pf_ptr field =? 0 then os_error s "invalid field descriptor"
  else
    let! fields := submsg_fields (pf_ptr field) in
    pb_encode_submessage s fields src.

Definition pb_enc_fixed_length_bytes (s : pb_ostream_t) (field : pb_field_t) (src : Z) :
    res (bool * pb_ostream_t) :=
  pb_encode_string s (load_bytes m src (Z.to_nat (pf_data_size field))) (pf_data_size field).

(** [PB_ENCODERS]: the entry for extensions is NULL. *)
Definition pb_encoder_t : Type := pb_ostream_t -> pb_field_t -> Z -> res (bool * pb_ostream_t).

Definition PB_ENCODERS : list (option pb_encoder_t) :=
  [Some pb_enc_bool;
   Some pb_enc_varint;
   Some pb_enc_uvarint;
   Some pb_enc_svarint;
   Some pb_enc_fixed32;
   Some pb_enc_fixed64;
   Some pb_enc_bytes;
   Some pb_enc_string;
   Some pb_enc_submessage;
   None;
   Some pb_enc_fixed_length_bytes].

(** Indexing past the table is undefined; so is calling a null function. *)
Definition encoder_for (ltype : Z) : res (option pb_encoder_t) :=
  match PB_ENCODERS !! Z.to_nat ltype with
  | Some func => Ret func
  | None => UB
  end.

Definition call_encoder (func : option pb_encoder_t) : pb_encoder_t :=
  fun s field src =>
    match func with
    | Some f => f s field src
    | None => UB
    end.

(** [for (i = 0; i < count; i++) { body(p); p += data_size; }] *)
Definition for_items (count data_size pData : Z)
    (body : pb_ostream_t -> Z -> res (bool * pb_ostream_t)) (s : pb_ostream_t) :
    res (bool * pb_ostream_t) :=
  let! (ok, (s, _)) :=
    for_ok (Z.to_nat count)
      (fun '(s, p) => let! (ok, s) := body s p in Ret (ok, (s, p + data_size)))
      (s, pData) in
  Ret (ok, s).

(** Whether array entries are pointers to the data themselves. *)
Definition entries_are_pointers (field : pb_field_t) : bool :=
  (PB_ATYPE (pf_type field) =? PB_ATYPE_POINTER)
  && ((PB_LTYPE (pf_type field) =? PB_LTYPE_STRING)
      || (PB_LTYPE (pf_type field) =? PB_LTYPE_BYTES)).

Definition packed_size (field : pb_field_t) (pData count : Z) (func : option pb_encoder_t) :
    res (option Z) :=
  if PB_LTYPE (pf_type field) =? PB_LTYPE_FIXED32 then Ret (Some (u64 (4 * count)))
  else if PB_LTYPE (pf_type field) =? PB_LTYPE_FIXED64 then Ret (Some (u64 (8 * count)))
  else
    let! (ok, sizestream) :=
      for_items count (pf_data_size field) pData
        (fun s p => call_encoder func s field p) PB_OSTREAM_SIZING in
    Ret (if ok then Some (os_bytes_written sizestream) else None).

Definition encode_array (s : pb_ostream_t) (field : pb_field_t) (pData count : Z)
    (func : option pb_encoder_t) : res (bool * pb_ostream_t) :=
  if count =? 0 then Ret (true, s)
  else if negb (PB_ATYPE (pf_type field) =? PB_ATYPE_POINTER) && (pf_array_size field <? count)
  then os_error s "array max size exceeded"
  else if PB_LTYPE (pf_type field) <=? PB_LTYPE_LAST_PACKABLE
  then
    let? s := pb_encode_tag s PB_WT_STRING (pf_tag field) in
    let! size := packed_size field pData count func in
    match size with
    | None => Ret (false, s)
    | Some size =>
        let? s := pb_encode_varint s size in
        if negb (has_callback s) then pb_write s UB size
        else for_items count (pf_data_size field) pData
               (fun s p => call_encoder func s field p) s
    end
  else
    for_items count (pf_data_size field) pData
      (fun s p =>
         let? s := pb_encode_tag_for_field s field in
         if entries_are_pointers field
         then let! q := load_ptr m p in call_encoder func s field q
         else call_encoder func s field p) s.

(** The address the data is read from, and the count/has/which member. *)
Definition basic_field_psize (field : pb_field_t) (pData : Z) : res psize :=
  if negb (pf_size_offset field =? 0) then Ret (InStruct (pData + pf_size_offset field))
  else if PB_HTYPE (pf_type field) =? PB_HTYPE_OPTIONAL
  then
    let! dflt := pb_check_proto3_default_value m fuel field pData in
    Ret (ImplicitHas (negb dflt))
  else Ret (ImplicitHas true).

(** For a pointer field the data is behind the pointer, and [implicit_has]
    says whether it is non-NULL. *)
Definition deref_pointer_field (field : pb_field_t) (pData : Z) (pSize : psize) : res (Z * psize) :=
  if PB_ATYPE (pf_type field) =? PB_ATYPE_POINTER
  then
    let! p := load_ptr m pData in
    Ret (p, match pSize with
            | ImplicitHas _ => ImplicitHas (negb (p =? 0))
            | InStruct a => InStruct a
            end)
  else Ret (pData, pSize).

Definition encode_basic_field (s : pb_ostream_t) (field : pb_field_t) (pData : Z) :
    res (bool * pb_ostream_t) :=
  let! func := encoder_for (PB_LTYPE (pf_type field)) in
  let! pSize := basic_field_psize field pData in
  let! (pData, pSize) := deref_pointer_field field pData pSize in
  let tag_and_value (s : pb_ostream_t) :=
    let? s := pb_encode_tag_for_field s field in
    call_encoder func s field pData in
  if PB_HTYPE (pf_type field) =? PB_HTYPE_REQUIRED then
    if pData =? 0 then os_error s "missing required field" else tag_and_value s
  else if PB_HTYPE (pf_type field) =? PB_HTYPE_OPTIONAL then
    let! has := read_has m pSize in
    if has then tag_and_value s else Ret (true, s)
  else if PB_HTYPE (pf_type field) =? PB_HTYPE_REPEATED then
    let! count :=
      (if negb (pf_size_offset field =? 0) then read_size m pSize
       else Ret (pf_array_size field)) in
    encode_array s field pData count func
  else if PB_HTYPE (pf_type field) =? PB_HTYPE_ONEOF then
    let! which := read_size m pSize in
    if which =? pf_tag field then tag_and_value s else Ret (true, s)
  else os_error s "invalid field type".

(** A callback field holds a function pointer and an argument. *)
Definition encode_callback_field (s : pb_ostream_t) (field : pb_field_t) (pData : Z) :
    res (bool * pb_ostream_t) :=
  let arg := pData + offsetof pb_callback_t (Mem "arg") in
  let! encode := load_ptr m (pData + offsetof pb_callback_t (Sub "funcs" "encode")) in
  if encode =? 0 then Ret (true, s)
  else
    match enc_field_callback encode with
    | None => UB
    | Some f =>
        let! (ok, s) := f s field arg in
        if ok then Ret (true, s) else os_error s "callback error"
    end.

Definition encode_field (s : pb_ostream_t) (field : pb_field_t) (pData : Z) :
    res (bool * pb_ostream_t) :=
  if (PB_ATYPE (pf_type field) =? PB_ATYPE_STATIC) || (PB_ATYPE (pf_type field) =? PB_ATYPE_POINTER)
  then encode_basic_field s field pData
  else if PB_ATYPE (pf_type field) =? PB_ATYPE_CALLBACK then encode_callback_field s field pData
  else os_error s "invalid field type".

(** [(const pb_field_t* )extension->type->arg]: the first entry of the array. *)
Definition enc_extension_field (ext : Z) : res pb_field_t :=
  let! type := load_ptr m (ext + offsetof pb_extension_t (Mem "type")) in
  let! arg := load_ptr m (type + offsetof pb_extension_type_t (Mem "arg")) in
  let! fields := submsg_fields arg in
  field_at fields 0.

Definition default_extension_encoder (s : pb_ostream_t) (ext : Z) : res (bool * pb_ostream_t) :=
  let! field := enc_extension_field ext in
  let dest := ext + offsetof pb_extension_t (Mem "dest") in
  if PB_ATYPE (pf_type field) =? PB_ATYPE_POINTER
  then encode_field s field dest
  else let! p := load_ptr m dest in encode_field s field p.

(** One extension: its own encoder, or the default one when that is NULL. *)
Definition encode_one_extension (s : pb_ostream_t) (ext : Z) : res (bool * pb_ostream_t) :=
  let! type := load_ptr m (ext + offsetof pb_extension_t (Mem "type")) in
  let! encode := load_ptr m (type + offsetof pb_extension_type_t (Mem "encode")) in
  if encode =? 0 then default_extension_encoder s ext
  else
    match enc_extension_callback encode with
    | None => UB
    | Some f => f s ext
    end.

Definition encode_extension_field (s : pb_ostream_t) (field : pb_field_t) (pData : Z) :
    res (bool * pb_ostream_t) :=
  let! extension := load_ptr m pData in
  loop fuel
    (fun '(s, ext) =>
       if ext =? 0 then Ret (inr (true, s))
       else
         let! (ok, s) := encode_one_extension s ext in
         if negb ok then Ret (inr (false, s))
         else
           let! ext := load_ptr m (ext + offsetof pb_extension_t (Mem "next")) in
           Ret (inl (s, ext)))
    (s, extension).

Definition encode_iter_field (s : pb_ostream_t) (field : pb_field_t) (pData : Z) :
    res (bool * pb_ostream_t) :=
  if PB_LTYPE (pf_type field) =? PB_LTYPE_EXTENSION
  then encode_extension_field s field pData
  else encode_field s field pData.

(** The body of [pb_encode]. *)
Definition encode_fields (s : pb_ostream_t) (fields : list pb_field_t) (src_struct : Z) :
    res (bool * pb_ostream_t) :=
  let! (more, it) := pb_field_iter_begin fields src_struct in
  if negb more then Ret (true, s)
  else
    loop (S (length fields))
      (fun '(s, it) =>
         let! f := it_field it in
         let! (ok, s) := encode_iter_field s f (it_pData it) in
         if negb ok then Ret (inr (false, s))
         else
           let! (more, it) := pb_field_iter_next it in
           Ret (if more then inl (s, it) else inr (true, s)))
      (s, it).
End FieldEncoders.

Fixpoint pb_encode `{EncoderEnv} (m : gmap Z mbyte) (fuel : nat) (s : pb_ostream_t)
    (fields : list pb_field_t) (src_struct : Z) : res (bool * pb_ostream_t) :=
  match fuel with
  | O => OutOfFuel
  | S fuel => encode_fields m fuel (pb_encode m fuel) s fields src_struct
  end.

Section EncodeApi.
Context `{EncoderEnv} (m : gmap Z mbyte) (fuel : nat).

Definition pb_encode_delimited (s : pb_ostream_t) (fields : list pb_field_t) (src_struct : Z) :
    res (bool * pb_ostream_t) :=
  pb_encode_submessage (pb_encode m fuel) s fields src_struct.

Definition pb_encode_nullterminated (s : pb_ostream_t) (fields : list pb_field_t)
    (src_struct : Z) : res (bool * pb_ostream_t) :=
  let? s := pb_encode m fuel s fields src_struct in
  pb_write s (Ret [0]) 1.

(** The size, when the encoding succeeds. *)
Definition pb_get_encoded_size (fields : list pb_field_t) (src_struct : Z) : res (option Z) :=
  let! (ok, stream) := pb_encode m fuel PB_OSTREAM_SIZING fields src_struct in
  Ret (if ok then Some (os_bytes_written stream) else None).
End EncodeApi.
