(* ===== verification/PbEmission.v ===== *)
(** * What an encoder function writes

    The primitive encoders of pb_encode.c write exactly the bytes of the wire
    format ([Primitives]), and a relation [emits f e] that says what an encoder
    function writes on every kind of stream the library is used with: a sizing
    stream counts the bytes, a memory stream receives them, or reports that it
    is full without touching memory past its limit. *)
From S2P Require Import Prelude WireSpec CMem CLayout PbH PbStream PbCommon PbEncode.
From Stdlib Require Import ZArith Lia.
From stdpp Require Import base tactics numbers list gmap strings.
#[local] Open Scope Z_scope.

(** The digits with the continuation bit set on every one of them. *)
Fixpoint varint_cont (n : nat) (v : Z) : list Z :=
  match n with
  | O => []
  | S n => if v =? 0 then [] else v mod 128 + 128 :: varint_cont n (v / 128)
  end.

Lemma varint_loop_spec n k v buf :
  0 <= v < 2 ^ (7 * Z.of_nat n) -> (length buf + n <= 10)%nat -> (n < k)%nat ->
  loop k
    (fun '(value, buffer) =>
       if value =? 0 then Ret (inr buffer)
       else if 10 <=? zlen buffer then UB
       else Ret (inl (Z.shiftr value 7, buffer ++ [Z.lor (Z.land value 0x7F) 0x80])))
    (v, buf) = Ret (buf ++ varint_cont n v).
Proof.
  revert k v buf; induction n as [|n IH]; intros [|k] v buf Hv Hb Hk; try lia.
  - change (2 ^ (7 * Z.of_nat 0)) with 1 in Hv. assert (v = 0) as -> by lia.
    cbn. by rewrite app_nil_r.
  - rewrite pow_7_succ in Hv. cbn [loop varint_cont].
    destruct (Z.eqb_spec v 0) as [->|Hn]; [cbn; by rewrite app_nil_r|].
    destruct (Z.leb_spec 10 (zlen buf)); [unfold zlen in *; lia|]. cbn [rbind].
    rewrite shiftr_7, land_127, lor_128 by (apply Z.mod_pos_bound; lia).
    rewrite IH.
    + by rewrite <- app_assoc.
    + split; [apply Z.div_pos; lia | apply Z.div_lt_upper_bound; lia].
    + rewrite length_app. cbn. lia.
    + lia.
Qed.

Lemma varint_bytes_spec v : 0 <= v < 2 ^ 64 -> varint_bytes v = Ret (varint_cont 10 v).
Proof. intros [??]. apply (varint_loop_spec 10 12 v []); [|cbn; lia|lia]. split; [done|by apply pow_64_lt_70]. Qed.

(** Clearing the continuation bit of the last digit gives the varint. *)
Lemma clear_last_varint n v :
  0 < v < 2 ^ (7 * Z.of_nat n) ->
  alter (fun b => Z.land b 0x7F) (length (varint_cont n v) - 1)%nat (varint_cont n v) = varint_enc n v.
Proof.
  revert v; induction n as [|n IH]; intros v Hv; [change (2 ^ (7 * Z.of_nat 0)) with 1 in Hv; lia|].
  rewrite pow_7_succ in Hv. cbn [varint_cont varint_enc].
  destruct (Z.eqb_spec v 0); [lia|].
  destruct (Z.ltb_spec v 128) as [Hlt|Hge].
  - rewrite Z.div_small, Z.mod_small by lia. destruct n; cbn; f_equal;
      change (Z.land (v + 128) 127) with (Z.land (v + 128) 0x7F);
      rewrite land_127; rewrite <- (Z.mul_1_l 128) at 1; rewrite Z.mod_add, Z.mod_small by lia; lia.
  - assert (1 <= v / 128) by (apply Z.div_le_lower_bound; lia).
    assert (v / 128 < 2 ^ (7 * Z.of_nat n)) by (apply Z.div_lt_upper_bound; lia).
    specialize (IH (v / 128) ltac:(lia)).
    destruct (varint_cont n (v / 128)) as [|c cs] eqn:E.
    + cbn in IH. destruct n; [change (2 ^ (7 * Z.of_nat 0)) with 1 in *; lia|].
      by pose proof (varint_enc_nonempty n (v / 128)).
    + cbn [length Nat.sub] in IH |- *. rewrite Nat.sub_0_r in IH. cbn [alter list_alter]. by rewrite <- IH.
Qed.

Lemma length_varint_cont n v :
  0 < v < 2 ^ (7 * Z.of_nat n) -> length (varint_cont n v) = length (varint_enc n v).
Proof. intros Hv. rewrite <- (clear_last_varint n v Hv). by rewrite length_alter. Qed.

Section Primitives.
Context `{UserStreams}.

(** [pb_encode_varint] writes the varint, whichever of its two paths it takes. *)
Lemma pb_encode_varint_spec s v :
  0 <= v < 2 ^ 64 -> pb_encode_varint s v = pb_write s (Ret (varint v)) (zlen (varint v)).
Proof.
  intros Hv. unfold pb_encode_varint. destruct (Z.leb_spec v 0x7F) as [Hle|Hgt].
  - assert (varint v = [v]) as ->.
    { unfold varint. cbn. by destruct (Z.ltb_spec v 128); [|lia]. }
    unfold u8. by rewrite wrap_small by lia.
  - assert (0 < v < 2 ^ (7 * Z.of_nat 10)) as Hv' by (pose proof (pow_64_lt_70 v); lia).
    rewrite varint_bytes_spec by done. cbn [rbind].
    rewrite (clear_last_varint 10 v Hv'). done.
Qed.

Lemma zigzag_spec v :
  - 2 ^ 63 <= v < 2 ^ 63 ->
  (if v <? 0 then u64 (Z.lnot (u64 (Z.shiftl (u64 v) 1))) else u64 (Z.shiftl (u64 v) 1))
  = zigzag v.
Proof.
  intros Hv. unfold zigzag, u64, wrap. rewrite Z.shiftl_mul_pow2 by lia.
  destruct (Z.ltb_spec v 0).
  - replace (v mod 2 ^ 64) with (v + 2 ^ 64)
      by (rewrite <- (Z.mod_add v 1) by lia; rewrite Z.mod_small; lia).
    replace ((v + 2 ^ 64) * 2 ^ 1) with (2 * v + 2 ^ 64 + 1 * 2 ^ 64) by lia.
    rewrite Z.mod_add, (Z.mod_small (2 * v + 2 ^ 64)) by lia.
    unfold Z.lnot. rewrite <- (Z.mod_add _ 1) by lia. rewrite Z.mod_small; lia.
  - rewrite (Z.mod_small v), Z.mod_small by lia. lia.
Qed.

Lemma pb_encode_svarint_spec s v :
  - 2 ^ 63 <= v < 2 ^ 63 ->
  pb_encode_svarint s v = pb_write s (Ret (varint (zigzag v))) (zlen (varint (zigzag v))).
Proof.
  intros Hv. unfold pb_encode_svarint. rewrite zigzag_spec by done.
  apply pb_encode_varint_spec. by apply zigzag_range.
Qed.

Lemma pb_encode_fixed32_spec s v : pb_encode_fixed32 s v = pb_write s (Ret (le_split 4 v)) 4.
Proof.
  unfold pb_encode_fixed32. rewrite !land_255, !Z.shiftr_div_pow2 by lia.
  cbn [le_split]. by rewrite !Z.div_div by lia.
Qed.

Lemma pb_encode_fixed64_spec s v : pb_encode_fixed64 s v = pb_write s (Ret (le_split 8 v)) 8.
Proof.
  unfold pb_encode_fixed64. rewrite !land_255, !Z.shiftr_div_pow2 by lia.
  cbn [le_split]. by rewrite !Z.div_div by lia.
Qed.

Lemma pb_encode_tag_spec s wt n :
  0 <= wt < 8 -> 0 <= n < 2 ^ 32 ->
  pb_encode_tag s wt n = pb_write s (Ret (key wt n)) (zlen (key wt n)).
Proof.
  intros Hwt Hn. unfold pb_encode_tag, u64, key.
  rewrite Z.shiftl_mul_pow2, wrap_small by lia.
  rewrite Z.lor_comm, <- Z.shiftl_mul_pow2, lor_shiftl by lia.
  replace (wt + n * 2 ^ 3) with (8 * n + wt) by lia.
  apply pb_encode_varint_spec. lia.
Qed.
End Primitives.

(** ** Emission: what a function writes, whatever the stream *)

Section Emission.
Context `{UserStreams}.

(** The two kinds of stream the encoder is used with. *)
Definition sizing_stream (s : pb_ostream_t) : Prop :=
  os_callback s = ONull /\ os_state s = OSNull /\ os_errmsg s = None
  /\ 0 <= os_bytes_written s < 2 ^ 64.

(** A memory stream whose limit lies inside its buffer. *)
Definition buffer_stream (s : pb_ostream_t) : Prop :=
  os_callback s = OBufWrite /\ os_errmsg s = None
  /\ 0 <= os_bytes_written s <= os_max_size s /\ os_max_size s < 2 ^ 63
  /\ exists buf pos, os_state s = OSBuf buf pos /\ 0 <= pos
       /\ pos + (os_max_size s - os_bytes_written s) <= zlen buf.

Definition wf_stream (s : pb_ostream_t) : Prop := sizing_stream s \/ buffer_stream s.

(** Whether [n] more bytes are within the limit; a sizing stream has none. *)
Definition fits (s : pb_ostream_t) (n : Z) : Prop :=
  os_callback s = OBufWrite -> os_bytes_written s + n <= os_max_size s.

(** The stream after [bs] was written to it. *)
Definition push (s : pb_ostream_t) (bs : list Z) : pb_ostream_t :=
  {| os_callback := os_callback s;
     os_state :=
       match os_state s with
       | OSBuf buf pos => OSBuf (list_inserts (Z.to_nat pos) bs buf) (pos + zlen bs)
       | x => x
       end;
     os_max_size := os_max_size s;
     os_bytes_written := u64 (os_bytes_written s + zlen bs);
     os_errmsg := os_errmsg s |}.

Definition encoder : Type := pb_ostream_t -> res (bool * pb_ostream_t).

Definition fails (f : encoder) (s : pb_ostream_t) : Prop := exists s', f s = Ret (false, s').

(** [emits_on f o s]: on stream [s], [f] writes [o] and succeeds when it fits,
    and reports failure when it does not fit or [o] is an error. *)
Definition emits_on (f : encoder) (o : option (list Z)) (s : pb_ostream_t) : Prop :=
  match o with
  | Some bs => (fits s (zlen bs) -> f s = Ret (true, push s bs))
               /\ (~ fits s (zlen bs) -> fails f s)
  | None => fails f s
  end.

(** A reference emission: bytes, an encoding error, or out of scope. *)
Definition emission : Type := res (option (list Z)).

Definition emits (f : encoder) (e : emission) : Prop :=
  match e with
  | Ret o => forall s, wf_stream s -> emits_on f o s
  | _ => True
  end.

Definition e_app (a b : emission) : emission :=
  let! x := a in
  match x with
  | None => Ret None
  | Some x => let! y := b in Ret (match y with Some y => Some (x ++ y) | None => None end)
  end.

Lemma fits_dec s n : {fits s n} + {~ fits s n}.
Proof.
  unfold fits. destruct (os_callback s); try (left; done).
  destruct (decide (os_bytes_written s + n <= os_max_size s)); [left; done | right; auto].
Qed.

Lemma push_nil s : wf_stream s -> push s [] = s.
Proof.
  intros Hs. destruct s as [cb st mx w e]. unfold push. cbn.
  f_equal.
  - destruct st; try done. cbn. f_equal. unfold zlen. cbn. lia.
  - rewrite zlen_nil, Z.add_0_r. apply wrap_small.
    destruct Hs as [Hs|Hs]; unfold sizing_stream, buffer_stream in Hs; cbn in Hs; lia.
Qed.

Lemma push_app s a b : wf_stream s -> fits s (zlen a) -> push (push s a) b = push s (a ++ b).
Proof.
  intros Hs Ha. destruct s as [cb st mx w e]. unfold push. cbn. f_equal.
  - destruct st as [|buf pos|u]; try done.
    assert (0 <= pos) as Hpos.
    { destruct Hs as [(_ & Hs & _)|(_ & _ & _ & _ & b' & p & Hs & Hp & _)]; cbn in Hs; congruence. }
    rewrite list_inserts_app_l, zlen_app. f_equal; [|lia].
    replace (Z.to_nat (pos + zlen a)) with (length a + Z.to_nat pos)%nat by (unfold zlen; lia).
    done.
  - unfold u64, wrap. rewrite Zplus_mod_idemp_l, zlen_app. f_equal. lia.
Qed.

Lemma wf_push s bs : wf_stream s -> fits s (zlen bs) -> wf_stream (push s bs).
Proof.
  intros [(Hcb & Hst & He & Hw)|(Hcb & He & Hw & Hm & buf & pos & Hst & Hp & Hr)] Hf.
  - left. unfold sizing_stream, push. cbn. rewrite Hst. split_and!; try done; apply wrap_range; lia.
  - right. specialize (Hf Hcb). pose proof (zlen_nonneg bs).
    unfold buffer_stream, push. cbn. rewrite Hst. unfold u64. rewrite wrap_small by lia.
    split_and!; try done; try lia.
    eexists _, _. split; [done|]. split; [lia|]. unfold zlen at 3. rewrite length_inserts.
    fold (zlen buf). lia.
Qed.

Lemma fits_push s a b :
  wf_stream s -> fits s (zlen a) -> fits (push s a) (zlen b) <-> fits s (zlen (a ++ b)).
Proof.
  intros Hs Ha. unfold fits, push in *. cbn. rewrite zlen_app.
  destruct Hs as [(Hcb & _)|(Hcb & _ & Hw & Hm & _)]; [rewrite Hcb; split; intros; done|].
  specialize (Ha Hcb). pose proof (zlen_nonneg a).
  unfold u64. rewrite wrap_small by lia. split; intros Hf Hc; specialize (Hf Hc); lia.
Qed.

Lemma fits_mono s (a b : list Z) : fits s (zlen (a ++ b)) -> fits s (zlen a).
Proof. unfold fits. rewrite zlen_app. pose proof (zlen_nonneg b). intros Hf Hc. specialize (Hf Hc). lia. Qed.

Lemma set_written_0 s : wf_stream s -> os_set_written s (u64 (os_bytes_written s + zlen (@nil Z))) = s.
Proof.
  intros Hs. rewrite <- (push_nil s Hs) at 3. unfold push, os_set_written.
  destruct s as [cb [|buf pos|u] mx w e]; try done. cbn. do 2 f_equal. unfold zlen. cbn. lia.
Qed.

Lemma emits_ext f g e : (forall s, f s = g s) -> emits g e -> emits f e.
Proof.
  intros Hfg. destruct e as [[x|]| |]; [| |done|done]; intros Hg s Hs; specialize (Hg s Hs);
    cbn in *; unfold fails in *; rewrite (Hfg s); exact Hg.
Qed.

Lemma emits_nothing : emits (fun s => Ret (true, s)) (Ret (Some [])).
Proof.
  intros s Hs. split; [by rewrite push_nil|]. intros Hn. exfalso. apply Hn.
  intros Hc. rewrite zlen_nil. destruct Hs as [(Hs & _)|(_ & _ & Hw & _)]; [congruence|lia].
Qed.

Lemma emits_error msg : emits (fun s => os_error s msg) (Ret None).
Proof. intros s Hs. by eexists. Qed.

Lemma emits_seq f g a b :
  emits f a -> emits g b -> emits (fun s => let? s := f s in g s) (e_app a b).
Proof.
  destruct a as [[x|]| |]; cbn; try done.
  - destruct b as [y| |]; cbn; try done. intros Hf Hg s Hs. destruct (Hf s Hs) as [Hf1 Hf2].
    unfold emits_on, fails. destruct (fits_dec s (zlen x)) as [Hx|Hx].
    + rewrite (Hf1 Hx). cbn. specialize (Hg (push s x) (wf_push s x Hs Hx)).
      destruct y as [y|]; [|exact Hg]. destruct Hg as [Hg1 Hg2]. rewrite <- fits_push by done.
      rewrite <- push_app by done. split; auto.
    + destruct (Hf2 Hx) as [s' ->]. cbn. destruct y as [y|]; [|by eexists].
      split; [|by eexists]. intros Hc. by apply fits_mono in Hc.
  - intros Hf _ s Hs. destruct (Hf s Hs) as [s' E]. exists s'. by rewrite E.
Qed.

Lemma emits_let {A} (c : res A) (k : A -> encoder) (e : A -> emission) :
  (forall x, c = Ret x -> emits (k x) (e x)) ->
  emits (fun s => let! x := c in k x s) (let! x := c in e x).
Proof. intros Hk. destruct c as [x| |]; cbn; try done. by apply Hk. Qed.

(** The one place bytes reach a stream. *)
Lemma emits_write bs :
  zlen bs < 2 ^ 63 -> emits (fun s => pb_write s (Ret bs) (zlen bs)) (Ret (Some bs)).
Proof.
  intros Hb s Hs. unfold emits_on, fails, pb_write. pose proof (zlen_nonneg bs) as H0.
  destruct (Z.ltb_spec 0 (zlen bs)) as [Hp|Hz].
  2: { assert (bs = []) as -> by (destruct bs; [done|unfold zlen in *; cbn in *; lia]).
       cbn [Z.ltb andb]. rewrite set_written_0 by done. by apply emits_nothing. }
  destruct Hs as [(Hcb & Hst & He & Hw)|(Hcb & He & Hw & Hm & buf & pos & Hst & Hpos & Hr)].
  - unfold has_callback, fits. rewrite Hcb. cbn.
    split; [|intros Hn; exfalso; by apply Hn]. intros _. unfold push, os_set_written. by rewrite Hst, Hcb.
  - unfold has_callback, fits, call_owrite, buf_write. rewrite Hcb, Hst. cbn [andb].
    unfold u64. destruct (decide (os_bytes_written s + zlen bs <= os_max_size s)) as [Hf|Hf].
    + rewrite wrap_small by lia.
      destruct (Z.ltb_spec (os_bytes_written s + zlen bs) (os_bytes_written s)); [lia|].
      destruct (Z.ltb_spec (os_max_size s) (os_bytes_written s + zlen bs)); [lia|]. cbn.
      rewrite Z.eqb_refl. destruct (Z.leb_spec 0 pos); [|lia].
      destruct (Z.leb_spec (pos + zlen bs) (zlen buf)); [|lia]. cbn.
      split; [|intros Hn; exfalso; by apply Hn]. intros _.
      unfold push, os_set_written, os_set_state. cbn. by rewrite Hst.
    + split; [intros Hc; specialize (Hc eq_refl); lia|]. intros _.
      rewrite wrap_small by lia.
      destruct (Z.ltb_spec (os_max_size s) (os_bytes_written s + zlen bs)); [|lia].
      rewrite orb_true_r. by eexists.
Qed.
End Emission.

(** ** Emission of length-delimited data *)

Section Delimited.
Context `{UserStreams}.

Lemma sizing_wf : wf_stream PB_OSTREAM_SIZING.
Proof. left. by split_and!. Qed.

(** A sizing pass counts the bytes. *)
Lemma emits_sizing f bs :
  emits f (Ret (Some bs)) -> f PB_OSTREAM_SIZING = Ret (true, push PB_OSTREAM_SIZING bs).
Proof. intros Hf. apply (Hf _ sizing_wf). done. Qed.

Lemma sizing_written (bs : list Z) :
  zlen bs < 2 ^ 64 -> os_bytes_written (push PB_OSTREAM_SIZING bs) = zlen bs.
Proof. intros. cbn. apply wrap_small. pose proof (zlen_nonneg bs). lia. Qed.

Lemma has_callback_sizing s : wf_stream s -> has_callback s = false -> sizing_stream s.
Proof. intros [Hs|(Hs & _)] Hc; [done|]. unfold has_callback in Hc. by rewrite Hs in Hc. Qed.

Lemma has_callback_buffer s : wf_stream s -> has_callback s = true -> buffer_stream s.
Proof. intros [(Hs & _)|Hs] Hc; [|done]. unfold has_callback in Hc. by rewrite Hs in Hc. Qed.

(** Counting [bs] without looking at it. *)
Lemma emits_on_skip s bs :
  sizing_stream s -> emits_on (fun s => pb_write s UB (zlen bs)) (Some bs) s.
Proof.
  intros (Hcb & Hst & _). unfold emits_on, pb_write, has_callback, fits. rewrite Hcb, andb_false_r.
  split; [|intros Hn; exfalso; by apply Hn]. intros _. unfold push, os_set_written. by rewrite Hst, Hcb.
Qed.

(** Packed arrays: the data is skipped on a sizing stream. *)
Lemma emits_or_skip g bs :
  emits g (Ret (Some bs)) ->
  emits (fun s => if negb (has_callback s) then pb_write s UB (zlen bs) else g s) (Ret (Some bs)).
Proof.
  intros Hg s Hs. specialize (Hg s Hs). unfold emits_on, fails in *.
  destruct (has_callback s) eqn:Hc; cbn [negb]; [exact Hg|].
  by apply (emits_on_skip s bs), has_callback_sizing.
Qed.

(** The stream a submessage is written to. *)
Definition substream_of (s : pb_ostream_t) (size : Z) : pb_ostream_t :=
  {| os_callback := os_callback s; os_state := os_state s; os_max_size := size;
     os_bytes_written := 0; os_errmsg := None |}.

Lemma substream_wf s size :
  buffer_stream s -> 0 <= size -> os_bytes_written s + size <= os_max_size s ->
  wf_stream (substream_of s size).
Proof.
  intros (Hcb & He & Hw & Hm & buf & pos & Hst & Hp & Hr) Hn Hsz. right.
  unfold buffer_stream. cbn. split_and!; try done; try lia. exists buf, pos. split_and!; [done|lia|lia].
Qed.

(** Submessages: the parent takes over what the substream wrote; its size
    cannot have changed. *)
Lemma emits_substream g bs :
  zlen bs < 2 ^ 63 -> emits g (Ret (Some bs)) ->
  emits (fun s =>
    let size := zlen bs in
    if negb (has_callback s) then pb_write s UB size
    else if os_max_size s <? u64 (os_bytes_written s + size) then os_error s "stream full"
    else
      let! (status, substream) := g (substream_of s size) in
      let s :=
        {| os_callback := os_callback s; os_state := os_state substream;
           os_max_size := os_max_size s;
           os_bytes_written := u64 (os_bytes_written s + os_bytes_written substream);
           os_errmsg := os_errmsg substream |} in
      if negb (os_bytes_written substream =? size) then os_error s "submsg size changed"
      else Ret (status, s)) (Ret (Some bs)).
Proof.
  intros Hb Hg s Hs. pose proof (zlen_nonneg bs) as H0. cbn zeta. unfold emits_on, fails.
  destruct (has_callback s) eqn:Hc; cbn [negb];
    [|by apply (emits_on_skip s bs), has_callback_sizing].
  pose proof (has_callback_buffer s Hs Hc) as (Hcb & He & Hw & Hm & _).
  unfold fits. assert (u64 (os_bytes_written s + zlen bs) = os_bytes_written s + zlen bs) as Eu
    by (apply wrap_small; lia).
  rewrite Eu. destruct (Z.ltb_spec (os_max_size s) (os_bytes_written s + zlen bs)) as [Hf|Hf].
  { split; [intros Hx; specialize (Hx Hcb); lia|intros _]. by eexists. }
  split; [intros _|intros Hx; exfalso; by apply Hx].
  pose proof (substream_wf s (zlen bs) (has_callback_buffer s Hs Hc) H0 Hf) as Hsub.
  destruct (Hg _ Hsub) as [Hg1 _]. rewrite Hg1 by (intros _; cbn; lia). cbn [rbind push substream_of os_callback os_state os_max_size os_bytes_written os_errmsg].
  rewrite Z.add_0_l.
  assert (u64 (zlen bs) = zlen bs) as Ez by (apply wrap_small; lia).
  rewrite Ez, Z.eqb_refl, Eu. cbn. unfold push. by rewrite Eu, He.
Qed.
End Delimited.
