(* ===== verification/PbEncodeRef.v ===== *)
(** * A reference encoder, and the refinement of pb_encode.c

    [ref_message] maps a message in memory to the bytes of the wire format by
    recursion on the descriptor array, with no streams, no iterator, no sizing
    pass and no substreams.  [pb_encode_emits] shows that [pb_encode] writes
    exactly these bytes, on a sizing stream and on a memory stream, and fails
    exactly when the reference reports an error or the bytes do not fit. *)
From S2P Require Import Prelude WireSpec CMem CLayout PbH PbStream PbCommon PbEncode PbEmission.
From Stdlib Require Import ZArith Lia.
From stdpp Require Import base tactics numbers list gmap strings.
#[local] Open Scope Z_scope.

(** What user callbacks must do: write the same bytes on any kind of stream, as
    pb_encode.h asks of callbacks that are called once for the size and once for
    the data. *)
Class EncCallbackSpec `{EncoderEnv} : Type := {
  field_emission : Z -> pb_field_t -> Z -> emission;
  field_emission_ok : forall e f field arg,
    enc_field_callback e = Some f -> emits (fun s => f s field arg) (field_emission e field arg);
  extension_emission : Z -> Z -> emission;
  extension_emission_ok : forall e f ext,
    enc_extension_callback e = Some f -> emits (fun s => f s ext) (extension_emission e ext)
}.

(** ** The reference *)

(** A length prefix; payloads no memory can hold are out of scope. *)
Definition e_delimited (e : emission) : emission :=
  let! o := e in
  match o with
  | None => Ret None
  | Some bs => if 2 ^ 63 <=? zlen bs then UB else Ret (Some (delimited_bytes bs))
  end.

(** [n] items [size] bytes apart. *)
Fixpoint ref_items (item : Z -> emission) (size : Z) (n : nat) (p : Z) : emission :=
  match n with
  | O => Ret (Some [])
  | S n => e_app (item p) (ref_items item size n (p + size))
  end.

(** The bytes of a C string, at most [room] of them. *)
Fixpoint c_string (m : gmap Z mbyte) (fuel : nat) (p room : Z) : res (list Z) :=
  match fuel with
  | O => OutOfFuel
  | S fuel =>
      if 0 <? room then
        let! c := load_byte m p in
        if c =? 0 then Ret []
        else let! cs := c_string m fuel (p + 1) (room - 1) in Ret (c :: cs)
      else Ret []
  end.

(** The wire type of a field's data type. *)
Definition wire_type_of (ltype : Z) : option Z :=
  if ltype <=? PB_LTYPE_SVARINT then Some PB_WT_VARINT
  else if ltype =? PB_LTYPE_FIXED32 then Some PB_WT_32BIT
  else if ltype =? PB_LTYPE_FIXED64 then Some PB_WT_64BIT
  else if (ltype <=? PB_LTYPE_SUBMESSAGE) || (ltype =? PB_LTYPE_FIXED_LENGTH_BYTES)
  then Some PB_WT_STRING
  else None.

Definition ref_key (field : pb_field_t) : emission :=
  Ret (match wire_type_of (PB_LTYPE (pf_type field)) with
       | Some wt => Some (key wt (pf_tag field))
       | None => None
       end).

Section Reference.
Context `{E : EncoderEnv} `{!EncCallbackSpec} (m : gmap Z mbyte) (fuel : nat).
Context (ref_message : list pb_field_t -> Z -> emission).

(** An integer member of 1, 2, 4 or 8 bytes. *)
Definition ref_integer (load : nat -> res Z) (enc : Z -> list Z) (size : Z) : emission :=
  if existsb (Z.eqb size) [1; 2; 4; 8]
  then let! v := load (Z.to_nat size) in Ret (Some (enc v))
  else Ret None.

Definition ref_raw (src : Z) (n : nat) : emission :=
  let! bs := load_bytes m src n in Ret (Some bs).

Definition ref_bytes (field : pb_field_t) (src : Z) : emission :=
  if src =? 0 then Ret (Some (delimited_bytes []))
  else
    let! size := load_uint m src 4 in
    if (PB_ATYPE (pf_type field) =? PB_ATYPE_STATIC) && (pf_data_size field <? size + 4)
    then Ret None
    else e_delimited (ref_raw (src + 4) (Z.to_nat size)).

Definition ref_string (field : pb_field_t) (src : Z) : emission :=
  let room :=
    if PB_ATYPE (pf_type field) =? PB_ATYPE_POINTER then 2 ^ 64 - 1 else pf_data_size field in
  if src =? 0 then Ret (Some (delimited_bytes []))
  else let! cs := c_string m fuel src room in e_delimited (Ret (Some cs)).

Definition ref_submessage (field : pb_field_t) (src : Z) : emission :=
  if pf_ptr field =? 0 then Ret None
  else let! fields := submsg_fields (pf_ptr field) in e_delimited (ref_message fields src).

(** The value at [src], without its key. *)
Definition ref_value (field : pb_field_t) (src : Z) : emission :=
  let ltype := PB_LTYPE (pf_type field) in
  let size := pf_data_size field in
  if ltype =? PB_LTYPE_BOOL then
    let! b := load_byte m src in Ret (Some (varint (if b =? 0 then 0 else 1)))
  else if ltype =? PB_LTYPE_VARINT then ref_integer (load_sint m src) (fun v => varint (u64 v)) size
  else if ltype =? PB_LTYPE_UVARINT then ref_integer (load_uint m src) varint size
  else if ltype =? PB_LTYPE_SVARINT then
    ref_integer (load_sint m src) (fun v => varint (zigzag v)) size
  else if ltype =? PB_LTYPE_FIXED32 then ref_raw src 4
  else if ltype =? PB_LTYPE_FIXED64 then ref_raw src 8
  else if ltype =? PB_LTYPE_BYTES then ref_bytes field src
  else if ltype =? PB_LTYPE_STRING then ref_string field src
  else if ltype =? PB_LTYPE_SUBMESSAGE then ref_submessage field src
  else if ltype =? PB_LTYPE_FIXED_LENGTH_BYTES then
    e_delimited (ref_raw src (Z.to_nat size))
  else UB.

Definition ref_keyed_value (field : pb_field_t) (src : Z) : emission :=
  e_app (ref_key field) (ref_value field src).

(** A repeated field: packed when its type allows it. *)
Definition ref_array (field : pb_field_t) (pData count : Z) : emission :=
  let size := pf_data_size field in
  if count =? 0 then Ret (Some [])
  else if negb (PB_ATYPE (pf_type field) =? PB_ATYPE_POINTER) && (pf_array_size field <? count)
  then Ret None
  else if PB_LTYPE (pf_type field) <=? PB_LTYPE_LAST_PACKABLE
  then
    e_app (Ret (Some (key PB_WT_STRING (pf_tag field))))
      (e_delimited (ref_items (ref_value field) size (Z.to_nat count) pData))
  else
    ref_items
      (fun p =>
         e_app (ref_key field)
           (let! q := (if entries_are_pointers field then load_ptr m p else Ret p) in
            ref_value field q))
      size (Z.to_nat count) pData.

Definition ref_basic (field : pb_field_t) (pData : Z) : emission :=
  let htype := PB_HTYPE (pf_type field) in
  if PB_LTYPE_FIXED_LENGTH_BYTES <? PB_LTYPE (pf_type field) then UB
  else
    let! pSize := basic_field_psize m fuel field pData in
    let! (pData, pSize) := deref_pointer_field m field pData pSize in
    if htype =? PB_HTYPE_REQUIRED then
      if pData =? 0 then Ret None else ref_keyed_value field pData
    else if htype =? PB_HTYPE_OPTIONAL then
      let! has := read_has m pSize in
      if has then ref_keyed_value field pData else Ret (Some [])
    else if htype =? PB_HTYPE_REPEATED then
      let! count :=
        (if negb (pf_size_offset field =? 0) then read_size m pSize
         else Ret (pf_array_size field)) in
      ref_array field pData count
    else if htype =? PB_HTYPE_ONEOF then
      let! which := read_size m pSize in
      if which =? pf_tag field then ref_keyed_value field pData else Ret (Some [])
    else Ret None.

Definition ref_callback (field : pb_field_t) (pData : Z) : emission :=
  let! encode := load_ptr m (pData + offsetof pb_callback_t (Sub "funcs" "encode")) in
  if encode =? 0 then Ret (Some [])
  else
    match enc_field_callback encode with
    | None => UB
    | Some _ => field_emission encode field (pData + offsetof pb_callback_t (Mem "arg"))
    end.

Definition ref_field (field : pb_field_t) (pData : Z) : emission :=
  let atype := PB_ATYPE (pf_type field) in
  if (atype =? PB_ATYPE_STATIC) || (atype =? PB_ATYPE_POINTER) then ref_basic field pData
  else if atype =? PB_ATYPE_CALLBACK then ref_callback field pData
  else Ret None.

Definition ref_default_extension (ext : Z) : emission :=
  let! field := enc_extension_field m ext in
  let dest := ext + offsetof pb_extension_t (Mem "dest") in
  let! p := (if PB_ATYPE (pf_type field) =? PB_ATYPE_POINTER then Ret dest else load_ptr m dest) in
  ref_field field p.

Definition ref_one_extension (ext : Z) : emission :=
  let! type := load_ptr m (ext + offsetof pb_extension_t (Mem "type")) in
  let! encode := load_ptr m (type + offsetof pb_extension_type_t (Mem "encode")) in
  if encode =? 0 then ref_default_extension ext
  else
    match enc_extension_callback encode with
    | None => UB
    | Some _ => extension_emission encode ext
    end.

Fixpoint ref_extensions (n : nat) (ext : Z) : emission :=
  match n with
  | O => OutOfFuel
  | S n =>
      if ext =? 0 then Ret (Some [])
      else
        e_app (ref_one_extension ext)
          (let! next := load_ptr m (ext + offsetof pb_extension_t (Mem "next")) in
           ref_extensions n next)
  end.

Definition ref_iter_field (field : pb_field_t) (pData : Z) : emission :=
  if PB_LTYPE (pf_type field) =? PB_LTYPE_EXTENSION
  then let! ext := load_ptr m pData in ref_extensions fuel ext
  else ref_field field pData.

(** The fields from position [i] on, [n] of them. *)
Fixpoint ref_from (fields : list pb_field_t) (src : Z) (i n : nat) : emission :=
  match n with
  | O => Ret (Some [])
  | S n =>
      e_app (ref_iter_field (nth_field fields i) (it_pData (iter_at fields src i)))
        (ref_from fields src (S i) n)
  end.
End Reference.

Fixpoint ref_message `{E : EncoderEnv} `{!EncCallbackSpec} (m : gmap Z mbyte) (fuel : nat)
    (fields : list pb_field_t) (src : Z) : emission :=
  match fuel with
  | O => OutOfFuel
  | S fuel => ref_from m fuel (ref_message m fuel) fields src 0 (field_count fields)
  end.

(** ** The encoder's pieces emit the reference's pieces *)

Section Pieces.
Context `{UserStreams}.

Lemma emits_bytes (c : res (list Z)) f :
  (forall bs, c = Ret bs -> zlen bs < 2 ^ 63 /\ forall s, f s = pb_write s (Ret bs) (zlen bs)) ->
  emits f (let! bs := c in Ret (Some bs)).
Proof.
  destruct c as [bs| |]; [|done|done]. intros Hf. destruct (Hf bs eq_refl) as [Hb E].
  eapply emits_ext; [exact E|]. by apply emits_write.
Qed.

Lemma varint_short v : zlen (varint v) < 2 ^ 63.
Proof. pose proof (varint_length v). lia. Qed.

Lemma emits_varint v :
  0 <= v < 2 ^ 64 -> emits (fun s => pb_encode_varint s v) (Ret (Some (varint v))).
Proof.
  intros Hv. eapply emits_ext; [intros s; by apply pb_encode_varint_spec|].
  apply emits_write, varint_short.
Qed.

Lemma emits_tag wt n :
  0 <= wt < 8 -> 0 <= n < 2 ^ 32 -> emits (fun s => pb_encode_tag s wt n) (Ret (Some (key wt n))).
Proof.
  intros Hwt Hn. eapply emits_ext; [intros s; by apply pb_encode_tag_spec|].
  apply emits_write, varint_short.
Qed.

(** The bytes are only read when the stream wants them. *)
Lemma emits_buffer (buf : res (list Z)) size :
  0 <= size < 2 ^ 63 -> (forall bs, buf = Ret bs -> zlen bs = size) ->
  emits (fun s => pb_write s buf size) (let! bs := buf in Ret (Some bs)).
Proof.
  intros Hsz Hb. destruct buf as [bs| |]; [|done|done]. rewrite <- (Hb bs eq_refl).
  apply emits_write. rewrite (Hb bs eq_refl). lia.
Qed.

Lemma emits_string buf size :
  0 <= size < 2 ^ 63 -> (forall bs, buf = Ret bs -> zlen bs = size) ->
  emits (fun s => pb_encode_string s buf size) (e_delimited (let! bs := buf in Ret (Some bs))).
Proof.
  intros Hsz Hb. pose proof (emits_buffer buf size Hsz Hb) as Hbuf.
  destruct buf as [bs| |]; [|done|done]. specialize (Hb bs eq_refl). subst size. cbn.
  destruct (Z.leb_spec (2 ^ 63) (zlen bs)); [lia|].
  change (Ret (Some (delimited_bytes bs)))
    with (e_app (Ret (Some (varint (zlen bs)))) (Ret (Some bs))).
  unfold pb_encode_string, u64. rewrite wrap_small by lia.
  refine (emits_seq _ _ _ _ (emits_varint _ _) Hbuf). lia.
Qed.

Lemma emits_key field :
  field_ok field -> emits (fun s => pb_encode_tag_for_field s field) (ref_key field).
Proof.
  intros (Ht & _). unfold ref_key, pb_encode_tag_for_field, wire_type_of.
  apply (ltype_cases field). intros n Hn.
  do 16 (destruct n as [|n]; [cbn; first [apply emits_error | by apply emits_tag]|]). lia.
Qed.
End Pieces.

Section Values.
Context `{E : EncoderEnv} `{!EncCallbackSpec} `{!WfDescriptors}.
Context (m : gmap Z mbyte) (fuel : nat) (Hm : mem_ok m).
Context (pb_encode : pb_ostream_t -> list pb_field_t -> Z -> res (bool * pb_ostream_t)).
Context (ref_msg : list pb_field_t -> Z -> emission).
Hypothesis Hrec : forall fields src,
  wf_fields fields -> emits (fun s => pb_encode s fields src) (ref_msg fields src).

(** A value that is loaded and then written as a varint. *)
Lemma emits_load {A} (c : res A) (k : A -> encoder) (e : A -> list Z) :
  (forall x, c = Ret x -> emits (k x) (Ret (Some (e x)))) ->
  emits (fun s => let! x := c in k x s) (let! x := c in Ret (Some (e x))).
Proof. intros Hk. by apply (emits_let c k (fun x => Ret (Some (e x)))). Qed.

Lemma emits_integer (load : nat -> res Z) (enc : Z -> list Z) (w : Z -> encoder) size :
  (forall n v, (0 < n <= 8)%nat -> load n = Ret v -> emits (w v) (Ret (Some (enc v)))) ->
  emits (fun s =>
    if size =? 1 then let! v := load 1%nat in w v s
    else if size =? 2 then let! v := load 2%nat in w v s
    else if size =? 4 then let! v := load 4%nat in w v s
    else if size =? 8 then let! v := load 8%nat in w v s
    else os_error s "invalid data_size") (ref_integer load enc size).
Proof.
  intros Hw. unfold ref_integer. cbn [existsb].
  destruct (Z.eqb_spec size 1) as [->|]; [apply emits_load; intros x Hx; apply (Hw 1%nat); [lia|done]|].
  destruct (Z.eqb_spec size 2) as [->|]; [apply emits_load; intros x Hx; apply (Hw 2%nat); [lia|done]|].
  destruct (Z.eqb_spec size 4) as [->|]; [apply emits_load; intros x Hx; apply (Hw 4%nat); [lia|done]|].
  destruct (Z.eqb_spec size 8) as [->|]; [apply emits_load; intros x Hx; apply (Hw 8%nat); [lia|done]|].
  apply emits_error.
Qed.

Lemma load_uint_64 a n v : (0 < n <= 8)%nat -> load_uint m a n = Ret v -> 0 <= v < 2 ^ 64.
Proof.
  intros Hn Hv. pose proof (load_uint_range _ _ _ _ Hm Hv).
  pose proof (Z.pow_le_mono_r 2 (8 * Z.of_nat n) 64). lia.
Qed.

Lemma load_sint_64 a n v : (0 < n <= 8)%nat -> load_sint m a n = Ret v -> - 2 ^ 63 <= v < 2 ^ 63.
Proof.
  intros Hn Hv. pose proof (load_sint_range m a n v ltac:(lia) Hm Hv).
  pose proof (Z.pow_le_mono_r 2 (8 * Z.of_nat n - 1) 63). lia.
Qed.

Lemma emits_raw src n w :
  (n < 10)%nat ->
  (forall s bs, load_bytes m src n = Ret bs ->
     w (le_combine bs) s = pb_write s (Ret (le_split n (le_combine bs))) (Z.of_nat n)) ->
  emits (fun s => let! v := load_uint m src n in w v s) (ref_raw m src n).
Proof.
  intros Hn Hw. unfold ref_raw, load_uint. specialize (fun s bs => Hw s bs).
  destruct (load_bytes m src n) as [bs| |] eqn:El; [|done|done]. cbn [rbind].
  destruct (load_bytes_ok _ _ _ _ Hm El) as [Hb Hl].
  eapply emits_ext; [intros s; by apply Hw|].
  rewrite <- Hl, le_split_combine by done. rewrite Hl.
  replace (Z.of_nat n) with (zlen bs) by (unfold zlen; lia). apply emits_write. unfold zlen. lia.
Qed.

Lemma load_bytes_zlen a n bs : load_bytes m a n = Ret bs -> zlen bs = Z.of_nat n.
Proof. intros Hl. apply load_bytes_ok in Hl as [_ <-]; done. Qed.

Lemma emits_bytes_field field src :
  emits (fun s => pb_enc_bytes m s field src) (ref_bytes m field src).
Proof.
  unfold pb_enc_bytes, ref_bytes. destruct (src =? 0).
  { apply (emits_string (Ret []) 0); [lia|]. by intros bs [= <-]. }
  apply emits_let. intros size Hs. pose proof (load_uint_range _ _ _ _ Hm Hs) as Hr.
  change (2 ^ (8 * Z.of_nat 4)) with (2 ^ 32) in Hr.
  unfold PB_BYTES_ARRAY_T_ALLOCSIZE, u64. change (offsetof pb_bytes_array_t (Mem "bytes")) with 4.
  rewrite wrap_small by lia. destruct (Z.ltb_spec (size + 4) size); [lia|]. cbn [orb].
  destruct (_ && _); [apply emits_error|].
  apply emits_string; [lia|]. intros bs Hb. rewrite (load_bytes_zlen _ _ _ Hb). lia.
Qed.

(** The scan for the terminator finds the C string. *)
Lemma string_size_loop n max_size size p cs :
  c_string m n p (max_size - size) = Ret cs ->
  loop n
    (fun '(size, p) =>
       if size <? max_size
       then
         let! c := load_byte m p in
         if c =? 0 then Ret (inr size) else Ret (inl (size + 1, p + 1))
       else Ret (inr size)) (size, p) = Ret (size + zlen cs)
  /\ load_bytes m p (length cs) = Ret cs.
Proof.
  revert size p cs; induction n as [|n IH]; intros size p cs Hc; [done|]. cbn in Hc |- *.
  destruct (Z.ltb_spec 0 (max_size - size)), (Z.ltb_spec size max_size); try lia.
  - destruct (load_byte m p) as [c| |] eqn:Ec; cbn [rbind] in Hc |- *; [|done|done].
    destruct (c =? 0); cbn [rbind]; [injection Hc as <-; split; [f_equal; unfold zlen; cbn; lia|done]|].
    res_step Hc. injection Hc as <-. replace (max_size - size - 1) with (max_size - (size + 1)) in E0 by lia.
    destruct (IH _ _ _ E0) as [-> Hl]. split; [f_equal; rewrite zlen_cons; lia|].
    cbn. by rewrite Ec, Hl.
  - cbn [rbind]. injection Hc as <-. split; [f_equal; unfold zlen; cbn; lia|done].
Qed.

Lemma c_string_fuel n p room cs : c_string m n p room = Ret cs -> (length cs < n)%nat.
Proof.
  revert p room cs; induction n as [|n IH]; intros p room cs Hc; [done|]. cbn in Hc.
  destruct (0 <? room); [|injection Hc as <-; cbn; lia].
  res_step Hc. destruct (_ =? 0); [injection Hc as <-; cbn; lia|].
  res_step Hc. injection Hc as <-. apply IH in E1. cbn. lia.
Qed.

Lemma emits_string_field field src :
  emits (fun s => pb_enc_string m fuel s field src) (ref_string m fuel field src).
Proof.
  unfold pb_enc_string, ref_string. destruct (src =? 0).
  { apply (emits_string (Ret []) 0); [lia|]. by intros bs [= <-]. }
  assert (u64 (-1) = 2 ^ 64 - 1) as -> by done.
  set (room := if _ =? PB_ATYPE_POINTER then _ else _).
  destruct (c_string m fuel src room) as [cs| |] eqn:Ec; [|done|done]. cbn [rbind].
  pose proof (string_size_loop fuel room 0 src cs) as Hs. rewrite Z.sub_0_r in Hs.
  destruct (Hs Ec) as [Hsz Hl]. unfold string_size. rewrite Hsz. cbn [rbind].
  rewrite Z.add_0_l. unfold e_delimited. cbn [rbind].
  destruct (Z.leb_spec (2 ^ 63) (zlen cs)) as [|Hlt]; [done|].
  replace (load_bytes m src (Z.to_nat (zlen cs))) with (Ret cs) by (unfold zlen; by rewrite Nat2Z.id, Hl).
  pose proof (emits_string (Ret cs) (zlen cs)) as He. unfold e_delimited in He. cbn [rbind] in He.
  destruct (Z.leb_spec (2 ^ 63) (zlen cs)); [lia|]. apply He; [pose proof (zlen_nonneg cs); lia|].
  by intros bs [= <-].
Qed.

Lemma emits_encoded_submessage (enc : pb_ostream_t -> list pb_field_t -> Z -> res (bool * pb_ostream_t))
    fields src bs :
  zlen bs < 2 ^ 63 -> emits (fun s => enc s fields src) (Ret (Some bs)) ->
  emits (fun s => pb_encode_submessage enc s fields src) (Ret (Some (delimited_bytes bs))).
Proof.
  intros Hlt He. pose proof (zlen_nonneg bs). unfold pb_encode_submessage.
  rewrite (emits_sizing _ _ He). cbn [rbind negb]. rewrite sizing_written by lia.
  unfold u64 at 1. rewrite wrap_small by lia.
  refine (emits_seq _ _ _ (Ret (Some bs)) (emits_varint _ _) (emits_substream _ _ Hlt He)). lia.
Qed.

Lemma emits_submessage field src :
  emits (fun s => pb_enc_submessage pb_encode s field src) (ref_submessage ref_msg field src).
Proof.
  unfold pb_enc_submessage, ref_submessage. destruct (pf_ptr field =? 0); [apply emits_error|].
  apply emits_let. intros fields Hf.
  assert (wf_fields fields) as Hwf.
  { unfold submsg_fields in Hf. destruct (descriptor_at _) eqn:Ed; [|done].
    injection Hf as <-. by eapply wf_descriptors. }
  specialize (Hrec fields src Hwf).
  destruct (ref_msg fields src) as [[bs|]| |]; cbn [e_delimited rbind]; [| |done|done].
  - destruct (Z.leb_spec (2 ^ 63) (zlen bs)) as [|Hlt]; [done|].
    by apply emits_encoded_submessage.
  - unfold pb_encode_submessage. destruct (Hrec _ sizing_wf) as [s' ->]. intros s Hs. by eexists.
Qed.
Lemma emits_fixed_bytes field src :
  field_ok field ->
  emits (fun s => pb_enc_fixed_length_bytes m s field src)
    (e_delimited (ref_raw m src (Z.to_nat (pf_data_size field)))).
Proof.
  intros (_ & _ & Hd & _). apply emits_string; [lia|].
  intros bs Hb. rewrite (load_bytes_zlen _ _ _ Hb). lia.
Qed.

Lemma emits_bool field src :
  emits (fun s => pb_enc_bool m s field src)
    (let! b := load_byte m src in Ret (Some (varint (if b =? 0 then 0 else 1)))).
Proof.
  unfold pb_enc_bool, safe_read_bool. destruct (load_byte m src) as [b| |]; [|done|done].
  cbn [rbind]. destruct (b =? 0); apply emits_varint; lia.
Qed.

Lemma emits_varint_field field src :
  emits (fun s => pb_enc_varint m s field src)
    (ref_integer (load_sint m src) (fun v => varint (u64 v)) (pf_data_size field)).
Proof. apply emits_integer. intros n v _ _. apply emits_varint, wrap_range. lia. Qed.

Lemma emits_uvarint_field field src :
  emits (fun s => pb_enc_uvarint m s field src)
    (ref_integer (load_uint m src) varint (pf_data_size field)).
Proof. apply emits_integer. intros n v Hn Hv. apply emits_varint. by eapply load_uint_64. Qed.

Lemma emits_svarint_field field src :
  emits (fun s => pb_enc_svarint m s field src)
    (ref_integer (load_sint m src) (fun v => varint (zigzag v)) (pf_data_size field)).
Proof.
  apply emits_integer. intros n v Hn Hv. apply load_sint_64 in Hv; [|done].
  eapply emits_ext; [intros s; by apply pb_encode_svarint_spec|]. apply emits_write, varint_short.
Qed.

Lemma emits_fixed32_field field src :
  emits (fun s => pb_enc_fixed32 m s field src) (ref_raw m src 4).
Proof. apply (emits_raw src 4); [lia|]. intros. apply pb_encode_fixed32_spec. Qed.

Lemma emits_fixed64_field field src :
  emits (fun s => pb_enc_fixed64 m s field src) (ref_raw m src 8).
Proof. apply (emits_raw src 8); [lia|]. intros. apply pb_encode_fixed64_spec. Qed.

(** Each entry of [PB_ENCODERS] writes the value of its type. *)
Lemma emits_value field func src :
  field_ok field -> encoder_for m fuel pb_encode (PB_LTYPE (pf_type field)) = Ret func ->
  emits (fun s => call_encoder func s field src) (ref_value m fuel ref_msg field src).
Proof.
  intros Hf. unfold ref_value.
  pose proof (emits_fixed_bytes field src Hf) as Hfixed.
  apply (ltype_cases field). intros n Hn.
  do 16 (destruct n as [|n]; [intros [= <-]; cbn [call_encoder]; first
    [ apply emits_bool | apply emits_varint_field | apply emits_uvarint_field
    | apply emits_svarint_field | apply emits_fixed32_field | apply emits_fixed64_field
    | apply emits_bytes_field | apply emits_string_field | apply emits_submessage
    | exact Hfixed | done ]|]). lia.
Qed.

Lemma emits_keyed_value field func src :
  field_ok field -> encoder_for m fuel pb_encode (PB_LTYPE (pf_type field)) = Ret func ->
  emits (fun s => let? s := pb_encode_tag_for_field s field in call_encoder func s field src)
    (ref_keyed_value m fuel ref_msg field src).
Proof. intros Hf Hfunc. apply emits_seq; [by apply emits_key|by apply emits_value]. Qed.

(** Arrays: the loop over the items writes them one after the other. *)
Lemma emits_items n size p (body : pb_ostream_t -> Z -> res (bool * pb_ostream_t)) item :
  (forall p, emits (fun s => body s p) (item p)) ->
  emits (fun s =>
    let! (ok, (s, _)) :=
      for_ok n (fun '(s, p) => let! (ok, s) := body s p in Ret (ok, (s, p + size))) (s, p) in
    Ret (ok, s)) (ref_items item size n p).
Proof.
  intros Hb. revert p; induction n as [|n IH]; intros p; cbn [ref_items]; [apply emits_nothing|].
  eapply emits_ext; [|apply emits_seq; [apply Hb|apply IH]].
  intros s. cbn. destruct (body s p) as [[[] s']| |]; done.
Qed.

Lemma emits_for_items count size p body item :
  (forall p, emits (fun s => body s p) (item p)) ->
  emits (for_items count size p body) (ref_items item size (Z.to_nat count) p).
Proof. apply emits_items. Qed.
Lemma ref_items_raw n p len size :
  match ref_items (fun p => ref_raw m p len) size n p with
  | Ret (Some bs) => zlen bs = Z.of_nat len * Z.of_nat n
  | Ret None => False
  | _ => True
  end.
Proof.
  revert p; induction n as [|n IH]; intros p; cbn [ref_items]; [by rewrite zlen_nil, Z.mul_0_r|].
  unfold ref_raw at 1. destruct (load_bytes m p len) as [bs| |] eqn:El; cbn; [|done|done].
  specialize (IH (p + size)). revert IH.
  destruct (ref_items _ _ _ _) as [[cs|]| |]; cbn; try done. intros IH.
  rewrite zlen_app, IH, (load_bytes_zlen _ _ _ El). lia.
Qed.

Lemma packed_size_spec field pData count func :
  field_ok field -> encoder_for m fuel pb_encode (PB_LTYPE (pf_type field)) = Ret func ->
  0 <= count < 2 ^ 32 ->
  match ref_items (ref_value m fuel ref_msg field) (pf_data_size field) (Z.to_nat count) pData with
  | Ret (Some bs) =>
      zlen bs < 2 ^ 63 -> packed_size field pData count func = Ret (Some (zlen bs))
  | Ret None => packed_size field pData count func = Ret None
  | _ => True
  end.
Proof.
  intros Hf Hfunc Hc. unfold packed_size.
  pose proof (emits_for_items count (pf_data_size field) pData
    (fun s p => call_encoder func s field p) (ref_value m fuel ref_msg field)
    (fun p => emits_value field func p Hf Hfunc)) as He.
  pose proof (ref_items_raw (Z.to_nat count) pData) as Hraw.
  assert (PB_LTYPE (pf_type field) = PB_LTYPE_FIXED32 ->
          ref_value m fuel ref_msg field = fun p => ref_raw m p 4) as H32
    by (intros E4; unfold ref_value; by rewrite E4).
  assert (PB_LTYPE (pf_type field) = PB_LTYPE_FIXED64 ->
          ref_value m fuel ref_msg field = fun p => ref_raw m p 8) as H64
    by (intros E8; unfold ref_value; by rewrite E8).
  destruct (Z.eqb_spec (PB_LTYPE (pf_type field)) PB_LTYPE_FIXED32) as [E4|_].
  { rewrite H32 by done. specialize (Hraw 4%nat (pf_data_size field)). revert Hraw. clear He.
    destruct (ref_items _ _ _ _) as [[bs|]| |]; [|by intros []|done|done]. intros Hraw _. unfold u64.
    rewrite wrap_small by lia. do 2 f_equal. lia. }
  destruct (Z.eqb_spec (PB_LTYPE (pf_type field)) PB_LTYPE_FIXED64) as [E8|_].
  { rewrite H64 by done. specialize (Hraw 8%nat (pf_data_size field)). revert Hraw. clear He.
    destruct (ref_items _ _ _ _) as [[bs|]| |]; [|by intros []|done|done]. intros Hraw _. unfold u64.
    rewrite wrap_small by lia. do 2 f_equal. lia. }
  revert He. destruct (ref_items _ _ _ _) as [[bs|]| |]; try done; intros He.
  - intros Hb. rewrite (emits_sizing _ _ He). cbn [rbind]. by rewrite sizing_written by lia.
  - by destruct (He _ sizing_wf) as [s' ->].
Qed.

Lemma emits_packed field pData count func :
  field_ok field -> encoder_for m fuel pb_encode (PB_LTYPE (pf_type field)) = Ret func ->
  0 <= count < 2 ^ 32 ->
  emits (fun s =>
    let! size := packed_size field pData count func in
    match size with
    | None => Ret (false, s)
    | Some size =>
        let? s := pb_encode_varint s size in
        if negb (has_callback s) then pb_write s UB size
        else for_items count (pf_data_size field) pData (fun s p => call_encoder func s field p) s
    end)
    (e_delimited
       (ref_items (ref_value m fuel ref_msg field) (pf_data_size field) (Z.to_nat count) pData)).
Proof.
  intros Hf Hfunc Hc. pose proof (packed_size_spec field pData count func Hf Hfunc Hc) as Hsz.
  pose proof (emits_for_items count (pf_data_size field) pData
    (fun s p => call_encoder func s field p) (ref_value m fuel ref_msg field)
    (fun p => emits_value field func p Hf Hfunc)) as He.
  revert He Hsz.
  destruct (ref_items _ _ _ _) as [[bs|]| |]; cbn [e_delimited rbind]; intros He Hsz; [| |done|done].
  - destruct (Z.leb_spec (2 ^ 63) (zlen bs)) as [|Hlt]; [done|]. pose proof (zlen_nonneg bs).
    rewrite (Hsz Hlt). cbn [rbind].
    refine (emits_seq _ _ _ (Ret (Some bs)) (emits_varint _ _) (emits_or_skip _ _ He)). lia.
  - rewrite Hsz. intros s Hs. by eexists.
Qed.

Lemma emits_array field pData count func :
  field_ok field -> encoder_for m fuel pb_encode (PB_LTYPE (pf_type field)) = Ret func ->
  0 <= count < 2 ^ 32 ->
  emits (fun s => encode_array m s field pData count func)
    (ref_array m fuel ref_msg field pData count).
Proof.
  intros Hf Hfunc Hc. unfold encode_array, ref_array.
  destruct (count =? 0); [apply emits_nothing|].
  destruct (_ && _); [apply emits_error|].
  destruct (_ <=? _).
  - apply emits_seq; [apply emits_tag; [done|apply Hf]|by apply emits_packed].
  - apply emits_for_items. intros p. apply emits_seq; [by apply emits_key|].
    destruct (entries_are_pointers field); [|by apply emits_value].
    apply (emits_let (load_ptr m p)). intros q _. by apply emits_value.
Qed.
Lemma read_size_range p v : read_size m p = Ret v -> 0 <= v < 2 ^ 32.
Proof. destruct p; [done|]. intros Hv. by apply (load_uint_range m a 4). Qed.

Lemma emits_basic field pData :
  field_ok field ->
  emits (fun s => encode_basic_field m fuel pb_encode s field pData)
    (ref_basic m fuel ref_msg field pData).
Proof.
  intros Hf. unfold encode_basic_field, ref_basic.
  destruct (Z.ltb_spec PB_LTYPE_FIXED_LENGTH_BYTES (PB_LTYPE (pf_type field))) as [|Hl]; [done|].
  assert (exists func, encoder_for m fuel pb_encode (PB_LTYPE (pf_type field)) = Ret func)
    as [func Hfunc].
  { revert Hl. apply (ltype_cases field). intros n Hn Hl.
    do 11 (destruct n as [|n]; [by eexists|]). unfold PB_LTYPE_FIXED_LENGTH_BYTES in Hl. lia. }
  rewrite Hfunc. cbn [rbind]. apply emits_let. intros pSize _.
  destruct (deref_pointer_field m field pData pSize) as [[q pSize']| |]; [|done|done].
  cbn [rbind].
  pose proof (emits_keyed_value field func q Hf Hfunc) as Hkv.
  destruct (_ =? PB_HTYPE_REQUIRED); [by destruct (q =? 0); [apply emits_error|]|].
  destruct (_ =? PB_HTYPE_OPTIONAL).
  { apply emits_let. intros [] _; [done|apply emits_nothing]. }
  destruct (_ =? PB_HTYPE_REPEATED).
  { apply emits_let. intros count Hc. apply emits_array; [done|done|].
    destruct (negb _); [by eapply read_size_range|]. injection Hc as <-. apply Hf. }
  destruct (_ =? PB_HTYPE_ONEOF); [|apply emits_error].
  apply emits_let. intros which _. destruct (which =? _); [done|apply emits_nothing].
Qed.

Lemma emits_then_error f e msg :
  emits f e ->
  emits (fun s => let! (ok, s) := f s in if ok then Ret (true, s) else os_error s msg) e.
Proof.
  destruct e as [[bs|]| |]; [| |done|done].
  - intros Hf s Hs. destruct (Hf s Hs) as [Hfit1 Hfit2]. split.
    + intros Hfit. by rewrite (Hfit1 Hfit).
    + intros Hfit. destruct (Hfit2 Hfit) as [s' Hs']. unfold fails. rewrite Hs'. by eexists.
  - intros Hf s Hs. destruct (Hf s Hs) as [s' Hs']. cbn. unfold fails. rewrite Hs'. by eexists.
Qed.

Lemma emits_callback field pData :
  emits (fun s => encode_callback_field m s field pData) (ref_callback m field pData).
Proof.
  unfold encode_callback_field, ref_callback. apply emits_let. intros encode _.
  destruct (encode =? 0); [apply emits_nothing|].
  destruct (enc_field_callback encode) as [f|] eqn:Ef; [|done].
  by apply (emits_then_error (fun s => f s field _)), field_emission_ok.
Qed.

Lemma emits_field field pData :
  field_ok field ->
  emits (fun s => encode_field m fuel pb_encode s field pData)
    (ref_field m fuel ref_msg field pData).
Proof.
  intros Hf. unfold encode_field, ref_field. destruct (_ || _); [by apply emits_basic|].
  destruct (_ =? _); [apply emits_callback|apply emits_error].
Qed.

Lemma enc_extension_field_ok ext field : enc_extension_field m ext = Ret field -> field_ok field.
Proof.
  unfold enc_extension_field. intros Hf. do 3 res_step Hf.
  unfold submsg_fields in E2. destruct (descriptor_at _) eqn:Ed; [|done]. injection E2 as <-.
  unfold field_at in Hf. destruct (l !! 0%nat) eqn:El; [|done]. injection Hf as <-.
  destruct (wf_descriptors _ _ Ed) as [_ Hok]. by apply (Forall_lookup_1 _ _ _ _ Hok El).
Qed.

Lemma emits_one_extension ext :
  emits (fun s => encode_one_extension m fuel pb_encode s ext)
    (ref_one_extension m fuel ref_msg ext).
Proof.
  unfold encode_one_extension, ref_one_extension.
  apply emits_let. intros type _. apply emits_let. intros encode _.
  destruct (encode =? 0).
  - unfold default_extension_encoder, ref_default_extension. apply emits_let. intros field Hf.
    apply enc_extension_field_ok in Hf.
    destruct (_ =? _); [by apply emits_field|]. apply emits_let. intros p _. by apply emits_field.
  - destruct (enc_extension_callback encode) as [f|] eqn:Ef; [|done].
    by apply extension_emission_ok.
Qed.

(** The loop over the extension list, one round at a time. *)
Lemma emits_extensions n ext :
  emits (fun s =>
    loop n
      (fun '(s, ext) =>
         if ext =? 0 then Ret (inr (true, s))
         else
           let! (ok, s) := encode_one_extension m fuel pb_encode s ext in
           if negb ok then Ret (inr (false, s))
           else
             let! ext := load_ptr m (ext + offsetof pb_extension_t (Mem "next")) in
             Ret (inl (s, ext))) (s, ext)) (ref_extensions m fuel ref_msg n ext).
Proof.
  revert ext; induction n as [|n IH]; intros ext; [done|]. cbn [ref_extensions loop].
  destruct (ext =? 0); [apply emits_nothing|].
  eapply emits_ext; [|apply emits_seq; [apply emits_one_extension|apply emits_let; intros next _; apply IH]].
  intros s. cbn. destruct (encode_one_extension _ _ _ _ _) as [[[] s']| |]; cbn; try done.
  by destruct (load_ptr _ _).
Qed.

Lemma emits_iter_field field pData :
  field_ok field ->
  emits (fun s => encode_iter_field m fuel pb_encode s field pData)
    (ref_iter_field m fuel ref_msg field pData).
Proof.
  intros Hf. unfold encode_iter_field, ref_iter_field. destruct (_ =? _); [|by apply emits_field].
  unfold encode_extension_field. apply emits_let. intros ext _. apply emits_extensions.
Qed.

(** The walk of the iterator over the fields from position [i] on. *)
Lemma emits_walk fields src i n k :
  wf_fields fields -> (i + S n = field_count fields)%nat -> (n < k)%nat ->
  emits (fun s =>
    loop k
      (fun '(s, it) =>
         let! f := it_field it in
         let! (ok, s) := encode_iter_field m fuel pb_encode s f (it_pData it) in
         if negb ok then Ret (inr (false, s))
         else
           let! (more, it) := pb_field_iter_next it in
           Ret (if more then inl (s, it) else inr (true, s)))
      (s, iter_at fields src i)) (ref_from m fuel ref_msg fields src i (S n)).
Proof.
  intros [Hwf Hok]. revert i k; induction n as [|n IH]; intros i [|k] Hi Hk; try lia.
  - eapply emits_ext; [|apply emits_seq; [apply emits_iter_field|apply emits_nothing]].
    + intros s. cbn [loop]. rewrite it_field_at by (done || lia). cbn [rbind].
      destruct (encode_iter_field _ _ _ _ _ _) as [[[] s']| |]; try done. cbn [rbind negb bind_ok].
      rewrite iter_next_at by (done || lia). cbn [rbind].
      by destruct (Nat.ltb_spec (S i) (field_count fields)); [lia|].
    + eapply Forall_lookup_1; [exact Hok|]. apply nth_field_lookup; [done|lia].
  - eapply emits_ext; [|apply emits_seq; [apply emits_iter_field|apply (IH (S i) k); lia]].
    + intros s. cbn [loop]. rewrite it_field_at by (done || lia). cbn [rbind].
      destruct (encode_iter_field _ _ _ _ _ _) as [[[] s']| |]; try done. cbn [rbind negb bind_ok].
      rewrite iter_next_at by (done || lia). cbn [rbind]. unfold next_pos.
      by destruct (Nat.ltb_spec (S i) (field_count fields)); [|lia].
    + eapply Forall_lookup_1; [exact Hok|]. apply nth_field_lookup; [done|lia].
Qed.

Lemma emits_fields fields src :
  wf_fields fields ->
  emits (fun s => encode_fields m fuel pb_encode s fields src)
    (ref_from m fuel ref_msg fields src 0 (field_count fields)).
Proof.
  intros Hwf. unfold encode_fields. rewrite iter_begin_at by apply Hwf. cbn [rbind].
  destruct (field_count fields) as [|n] eqn:En; cbn [negb Nat.ltb Nat.leb]; [apply emits_nothing|].
  apply emits_walk; [done|lia|]. unfold field_count in En. lia.
Qed.
End Values.

(** ** The refinement *)

Section Refinement.
Context `{E : EncoderEnv} `{!EncCallbackSpec} `{!WfDescriptors} (m : gmap Z mbyte) (Hm : mem_ok m).

Lemma pb_encode_refines fuel fields src :
  wf_fields fields ->
  emits (fun s => pb_encode m fuel s fields src) (ref_message m fuel fields src).
Proof.
  revert fields src; induction fuel as [|fuel IH]; intros fields src Hwf; [done|].
  by apply emits_fields.
Qed.
(** What is left in a buffer of which a prefix was overwritten. *)
Lemma push_from_buffer buf size bs :
  zlen bs <= size -> size <= zlen buf -> size < 2 ^ 63 ->
  push (pb_ostream_from_buffer buf size) bs
  = {| os_callback := OBufWrite; os_state := OSBuf (bs ++ drop (length bs) buf) (zlen bs);
       os_max_size := size; os_bytes_written := zlen bs; os_errmsg := None |}.
Proof.
  intros Hb Hs Hl. pose proof (zlen_nonneg bs). unfold push. cbn. f_equal.
  - f_equal. change (Z.to_nat 0) with 0%nat. unfold zlen in *.
    rewrite <- (take_drop (length bs) buf) at 1.
    rewrite <- (app_nil_r bs) at 1. rewrite list_inserts_app_l. cbn [list_inserts].
    apply list_inserts_0_r. rewrite length_take. lia.
  - unfold u64. rewrite wrap_small; lia.
Qed.

Lemma buffer_wf buf size :
  0 <= size <= zlen buf -> size < 2 ^ 63 -> wf_stream (pb_ostream_from_buffer buf size).
Proof.
  intros Hs Hl. right. split_and!; try done; cbn; try lia. exists buf, 0. split_and!; [done|lia|lia].
Qed.

Lemma fits_buffer buf size n : fits (pb_ostream_from_buffer buf size) n <-> n <= size.
Proof. unfold fits. cbn. split; [intros Hf; by specialize (Hf eq_refl)|by intros]. Qed.

(** C1. [pb_encode] writes exactly the bytes of the reference encoding: on every
    sizing or memory stream it succeeds with those bytes appended when they fit
    within the stream's limit, and returns false when they do not fit or the
    message is invalid. *)
Theorem pb_encode_emits fuel fields src s o :
  wf_fields fields -> wf_stream s -> ref_message m fuel fields src = Ret o ->
  match o with
  | Some bs =>
      (fits s (zlen bs) -> pb_encode m fuel s fields src = Ret (true, push s bs))
      /\ (~ fits s (zlen bs) -> exists s', pb_encode m fuel s fields src = Ret (false, s'))
  | None => exists s', pb_encode m fuel s fields src = Ret (false, s')
  end.
Proof.
  intros Hf Hs Ho. pose proof (pb_encode_refines fuel fields src Hf) as He. rewrite Ho in He.
  specialize (He s Hs). by destruct o.
Qed.

(** [pb_get_encoded_size] returns the exact length of the encoding, and false
    for a message that cannot be encoded. *)
Theorem pb_get_encoded_size_exact fuel fields src o :
  wf_fields fields -> ref_message m fuel fields src = Ret o ->
  (forall bs, o = Some bs -> zlen bs < 2 ^ 64) ->
  pb_get_encoded_size m fuel fields src = Ret (zlen <$> o).
Proof.
  intros Hf Ho Hlen. pose proof (pb_encode_refines fuel fields src Hf) as He. rewrite Ho in He.
  unfold pb_get_encoded_size. destruct o as [bs|].
  - rewrite (emits_sizing _ _ He). cbn [rbind]. rewrite sizing_written by by apply Hlen. done.
  - by destruct (He _ sizing_wf) as [s' ->].
Qed.

(** Encoding into a buffer of [size] bytes: the encoding is its prefix and the
    bytes after it are untouched when it fits, false is returned when it does
    not; the buffer is never overrun. *)
Theorem pb_encode_to_buffer fuel fields src buf size bs :
  wf_fields fields -> ref_message m fuel fields src = Ret (Some bs) ->
  0 <= size <= zlen buf -> size < 2 ^ 63 ->
  let r := pb_encode m fuel (pb_ostream_from_buffer buf size) fields src in
  if zlen bs <=? size
  then exists s, r = Ret (true, s) /\ os_state s = OSBuf (bs ++ drop (length bs) buf) (zlen bs)
                 /\ os_bytes_written s = zlen bs
  else exists s, r = Ret (false, s).
Proof.
  intros Hf Ho Hs Hl. pose proof (pb_encode_refines fuel fields src Hf) as He. rewrite Ho in He.
  destruct (He _ (buffer_wf buf size Hs Hl)) as [H1' H2']. cbn zeta.
  destruct (Z.leb_spec (zlen bs) size) as [Hle|Hgt].
  - rewrite H1', push_from_buffer by (try apply fits_buffer; lia). by eexists.
  - apply H2'. rewrite fits_buffer. lia.
Qed.

(** The two-pass protocol of the log transport: a buffer of exactly the size
    the first pass reports always suffices, and the second pass fills it
    completely with the encoding. *)
Theorem two_pass_encoding fuel fields src o n buf :
  wf_fields fields -> ref_message m fuel fields src = Ret o -> n < 2 ^ 63 ->
  (forall bs, o = Some bs -> zlen bs < 2 ^ 64) ->
  pb_get_encoded_size m fuel fields src = Ret (Some n) -> zlen buf = n ->
  exists bs s, o = Some bs /\ zlen bs = n
    /\ pb_encode m fuel (pb_ostream_from_buffer buf n) fields src = Ret (true, s)
    /\ os_state s = OSBuf bs n /\ os_bytes_written s = n.
Proof.
  intros Hf Ho Hn Hlen Hsz Hb. pose proof (pb_encode_refines fuel fields src Hf) as He.
  rewrite Ho in He. unfold pb_get_encoded_size in Hsz. destruct o as [bs|].
  - rewrite (emits_sizing _ _ He) in Hsz. cbn [rbind] in Hsz.
    rewrite sizing_written in Hsz by by apply Hlen. injection Hsz as <-.
    pose proof (zlen_nonneg bs).
    destruct (He _ (buffer_wf buf (zlen bs) ltac:(lia) Hn)) as [H1' _].
    rewrite push_from_buffer in H1' by lia. eexists bs, _. split_and!; try done.
    + apply H1', fits_buffer. lia.
    + cbn. rewrite drop_ge by (unfold zlen in *; lia). by rewrite app_nil_r.
    + done.
  - destruct (He _ sizing_wf) as [s' E']. by rewrite E' in Hsz.
Qed.

(** A delimited message is the varint of the encoding's length followed by the
    encoding, whatever the stream. *)
Theorem pb_encode_delimited_emits fuel fields src s bs :
  wf_fields fields -> wf_stream s -> ref_message m fuel fields src = Ret (Some bs) ->
  zlen bs < 2 ^ 63 -> fits s (zlen (delimited_bytes bs)) ->
  pb_encode_delimited m fuel s fields src = Ret (true, push s (delimited_bytes bs)).
Proof.
  intros Hf Hs Ho Hlen Hfit. pose proof (pb_encode_refines fuel fields src Hf) as He.
  rewrite Ho in He. pose proof (emits_encoded_submessage _ _ _ _ Hlen He) as Hd.
  by apply (Hd s Hs).
Qed.

(** A null-terminated message is the encoding followed by a zero byte. *)
Theorem pb_encode_nullterminated_emits fuel fields src s bs :
  wf_fields fields -> wf_stream s -> ref_message m fuel fields src = Ret (Some bs) ->
  fits s (zlen (bs ++ [0])) ->
  pb_encode_nullterminated m fuel s fields src = Ret (true, push s (bs ++ [0])).
Proof.
  intros Hf Hs Ho Hfit. pose proof (pb_encode_refines fuel fields src Hf) as He. rewrite Ho in He.
  pose proof (emits_seq _ _ _ _ He (emits_write [0] ltac:(done))) as Hn.
  by apply (Hn s Hs).
Qed.
End Refinement.
