(* ===== verification/PbDecodePrim.v ===== *)
(** * pb_decode.c: reading primitive values

    The functions of pb_decode.c that only consume a stream: varints, tags,
    fixed-width values, skipping, and length-limited substreams.  An output
    parameter that is only written on success is returned as an option. *)
From S2P Require Import Prelude PbH PbStream.
From Stdlib Require Import ZArith Lia.
From stdpp Require Import base tactics numbers list strings.
#[local] Open Scope Z_scope.

Section Primitives.
Context `{UserStreams}.

(** One round of the multibyte loop of [pb_decode_varint32_eof]; [bitpos] is a
    [uint_fast8_t]. *)
Definition varint32_step '((s, result, bitpos) : pb_istream_t * Z * Z) :
    res (pb_istream_t * Z * Z + option Z * pb_istream_t) :=
  let! (byte, s) := pb_readbyte s in
  match byte with
  | None => Ret (inr (None, s))
  | Some byte =>
      let sign_extension := if bitpos <? 63 then 0xFF else 0x01 in
      if (32 <=? bitpos)
         && (negb (Z.land byte 0x7F =? 0)
             && ((Z.shiftr result 31 =? 0) || negb (byte =? sign_extension)))
      then Ret (inr (None, is_err s "varint overflow"))
      else
        let result :=
          if 32 <=? bitpos then result
          else Z.lor result (u32 (Z.shiftl (Z.land byte 0x7F) bitpos)) in
        let bitpos := u8 (bitpos + 7) in
        if negb (Z.land byte 0x80 =? 0) then Ret (inl (s, result, bitpos))
        else if (bitpos =? 35) && negb (Z.land byte 0x70 =? 0)
        then Ret (inr (None, is_err s "varint overflow"))
        else Ret (inr (Some result, s))
  end.

(** Every round reads a byte. *)
Definition varint32_loop (s : pb_istream_t) (result bitpos : Z) : res (option Z * pb_istream_t) :=
  loop (S (Z.to_nat (is_bytes_left s))) varint32_step (s, result, bitpos).

(** The value, whether [*eof] was set to true, and the stream. *)
Definition pb_decode_varint32_eof (s : pb_istream_t) : res (option Z * bool * pb_istream_t) :=
  let! (byte, s) := pb_readbyte s in
  match byte with
  | None => Ret (None, is_bytes_left s =? 0, s)
  | Some byte =>
      if Z.land byte 0x80 =? 0 then Ret (Some byte, false, s)
      else
        let! (r, s) := varint32_loop s (Z.land byte 0x7F) 7 in
        Ret (r, false, s)
  end.

Definition pb_decode_varint32 (s : pb_istream_t) : res (option Z * pb_istream_t) :=
  let! (r, _, s) := pb_decode_varint32_eof s in
  Ret (r, s).

Definition varint_step '((s, result, bitpos) : pb_istream_t * Z * Z) :
    res (pb_istream_t * Z * Z + option Z * pb_istream_t) :=
  if 64 <=? bitpos then Ret (inr (None, is_err s "varint overflow"))
  else
    let! (byte, s) := pb_readbyte s in
    match byte with
    | None => Ret (inr (None, s))
    | Some byte =>
        let result := Z.lor result (u64 (Z.shiftl (Z.land byte 0x7F) bitpos)) in
        let bitpos := u8 (bitpos + 7) in
        if negb (Z.land byte 0x80 =? 0) then Ret (inl (s, result, bitpos))
        else Ret (inr (Some result, s))
    end.

(** [bitpos] passes 64 after ten bytes. *)
Definition pb_decode_varint (s : pb_istream_t) : res (option Z * pb_istream_t) :=
  loop 11 varint_step (s, 0, 0).

Definition pb_skip_varint (s : pb_istream_t) : res (bool * pb_istream_t) :=
  loop (S (Z.to_nat (is_bytes_left s)))
    (fun s =>
       let! (ok, bytes, s) := pb_read s true 1 in
       if negb ok then Ret (inr (false, s))
       else
         match bytes with
         | [] => UB
         | byte :: _ => if negb (Z.land byte 0x80 =? 0) then Ret (inl s) else Ret (inr (true, s))
         end)
    s.

Definition pb_skip (s : pb_istream_t) (count : Z) : res (bool * pb_istream_t) :=
  let! (ok, _, s) := pb_read s false count in Ret (ok, s).

Definition pb_skip_string (s : pb_istream_t) : res (bool * pb_istream_t) :=
  let! (length, s) := pb_decode_varint32 s in
  match length with
  | None => Ret (false, s)
  | Some length => pb_skip s length
  end.

(** The wire type and tag on success; [*eof] otherwise. *)
Definition pb_decode_tag (s : pb_istream_t) : res (option (Z * Z) * bool * pb_istream_t) :=
  let! (temp, eof, s) := pb_decode_varint32_eof s in
  match temp with
  | None => Ret (None, eof, s)
  | Some temp =>
      if temp =? 0 then Ret (None, true, s)
      else Ret (Some (Z.land temp 7, Z.shiftr temp 3), false, s)
  end.

Definition pb_skip_field (s : pb_istream_t) (wire_type : Z) : res (bool * pb_istream_t) :=
  if wire_type =? PB_WT_VARINT then pb_skip_varint s
  else if wire_type =? PB_WT_64BIT then pb_skip s 8
  else if wire_type =? PB_WT_STRING then pb_skip_string s
  else if wire_type =? PB_WT_32BIT then pb_skip s 4
  else Ret (false, is_err s "invalid wire_type").

(** The raw bytes of a scalar value, at most [max_size] of them. *)
Definition read_raw_value (s : pb_istream_t) (wire_type max_size : Z) :
    res (option (list Z) * pb_istream_t) :=
  let fixed (n : Z) :=
    let! (ok, bytes, s) := pb_read s true n in
    Ret (if ok then Some bytes else None, s) in
  if wire_type =? PB_WT_VARINT then
    loop (S (Z.to_nat max_size))
      (fun '(s, buf) =>
         if max_size <? zlen buf + 1 then Ret (inr (None, s))
         else
           let! (ok, bytes, s) := pb_read s true 1 in
           if negb ok then Ret (inr (None, s))
           else
             match bytes with
             | [] => UB
             | byte :: _ =>
                 if negb (Z.land byte 0x80 =? 0) then Ret (inl (s, buf ++ [byte]))
                 else Ret (inr (Some (buf ++ [byte]), s))
             end)
      (s, [])
  else if wire_type =? PB_WT_64BIT then fixed 8
  else if wire_type =? PB_WT_32BIT then fixed 4
  else Ret (None, is_err s "invalid wire_type").

(** The length-limited substream, and the parent without those bytes. *)
Definition pb_make_string_substream (s : pb_istream_t) :
    res (option pb_istream_t * pb_istream_t) :=
  let! (size, s) := pb_decode_varint32 s in
  match size with
  | None => Ret (None, s)
  | Some size =>
      if is_bytes_left s <? size then Ret (None, is_err s "parent stream too short")
      else Ret (Some (is_set_left s size), is_set_left s (is_bytes_left s - size))
  end.

Definition pb_close_string_substream (s substream : pb_istream_t) : res (bool * pb_istream_t) :=
  let! (ok, substream) :=
    (if negb (is_bytes_left substream =? 0) then pb_skip substream (is_bytes_left substream)
     else Ret (true, substream)) in
  if negb ok then Ret (false, s)
  else Ret (true, is_set_errmsg (is_set_state s (is_state substream)) (is_errmsg substream)).

(** ** Values *)

Definition pb_decode_bool (s : pb_istream_t) : res (option Z * pb_istream_t) :=
  let! (value, s) := pb_decode_varint32 s in
  match value with
  | None => Ret (None, s)
  | Some value => Ret (Some (if value =? 0 then 0 else 1), s)
  end.

Definition pb_decode_svarint (s : pb_istream_t) : res (option Z * pb_istream_t) :=
  let! (value, s) := pb_decode_varint s in
  match value with
  | None => Ret (None, s)
  | Some value =>
      if negb (Z.land value 1 =? 0) then Ret (Some (swrap 64 (u64 (Z.lnot (Z.shiftr value 1)))), s)
      else Ret (Some (swrap 64 (Z.shiftr value 1)), s)
  end.

Definition pb_decode_fixed32 (s : pb_istream_t) : res (option Z * pb_istream_t) :=
  let! (ok, bytes, s) := pb_read s true 4 in
  if negb ok then Ret (None, s)
  else
    match bytes with
    | [b0; b1; b2; b3] =>
        Ret (Some (Z.lor (Z.lor (Z.lor (Z.shiftl b0 0) (Z.shiftl b1 8)) (Z.shiftl b2 16))
                     (Z.shiftl b3 24)), s)
    | _ => UB
    end.

Definition pb_decode_fixed64 (s : pb_istream_t) : res (option Z * pb_istream_t) :=
  let! (ok, bytes, s) := pb_read s true 8 in
  if negb ok then Ret (None, s)
  else
    match bytes with
    | [b0; b1; b2; b3; b4; b5; b6; b7] =>
        Ret (Some (Z.lor (Z.lor (Z.lor (Z.lor (Z.lor (Z.lor (Z.lor
               (Z.shiftl b0 0) (Z.shiftl b1 8)) (Z.shiftl b2 16)) (Z.shiftl b3 24))
               (Z.shiftl b4 32)) (Z.shiftl b5 40)) (Z.shiftl b6 48)) (Z.shiftl b7 56)), s)
    | _ => UB
    end.
End Primitives.
