(* ===== verification/PbPrimSpec.v ===== *)
(** * The primitive decoders on memory streams

    [reader avail beyond e] is a memory stream whose limit covers [avail], with
    [beyond] after it in the buffer.  Each function of PbDecodePrim is
    characterised on it: what it returns, and that it leaves a reader of the
    unread rest of [avail], so nothing past the limit is ever read.  With the
    encoders of PbEmission this gives the round trips of the primitive values. *)
From S2P Require Import Prelude WireSpec PbH PbStream PbEncode PbEmission PbDecodePrim.
From Stdlib Require Import ZArith Lia.
From stdpp Require Import base tactics numbers list strings.
#[local] Open Scope Z_scope.

Section Readers.
Context `{UserStreams}.

Definition reader (avail beyond : list Z) (e : option string) : pb_istream_t :=
  {| is_callback := IBufRead; is_state := ISBuf (avail ++ beyond); is_bytes_left := zlen avail;
     is_errmsg := e |}.

Lemma reader_of_buffer buf n :
  0 <= n <= zlen buf ->
  pb_istream_from_buffer buf n = reader (take (Z.to_nat n) buf) (drop (Z.to_nat n) buf) None.
Proof.
  intros Hn. unfold reader, pb_istream_from_buffer. rewrite take_drop. f_equal.
  unfold zlen in *. rewrite length_take. lia.
Qed.

Lemma readbyte_cons b avail beyond e :
  pb_readbyte (reader (b :: avail) beyond e) = Ret (Some b, reader avail beyond e).
Proof.
  unfold pb_readbyte, reader. cbn [is_bytes_left]. rewrite zlen_cons. pose proof (zlen_nonneg avail).
  destruct (Z.eqb_spec (1 + zlen avail) 0); [lia|]. unfold call_iread, buf_read. cbn.
  rewrite zlen_cons. pose proof (zlen_nonneg (avail ++ beyond)).
  destruct (Z.leb_spec 1 (1 + zlen (avail ++ beyond))); [|lia].
  change (Z.to_nat 1) with 1%nat. cbn. unfold is_set_left, is_set_state. cbn. do 3 f_equal. lia.
Qed.

Lemma readbyte_nil beyond e :
  pb_readbyte (reader [] beyond e) = Ret (None, is_err (reader [] beyond e) "end-of-stream").
Proof. done. Qed.

(** [pb_read]: the bytes, or an error when fewer than [n] are left. *)
Lemma read_reader (to_buf : bool) n avail beyond e :
  0 <= n <= zlen avail ->
  pb_read (reader avail beyond e) to_buf n
  = Ret (true, if to_buf then take (Z.to_nat n) avail else [],
         reader (drop (Z.to_nat n) avail) beyond e).
Proof.
  intros Hn. unfold pb_read. destruct (Z.eqb_spec n 0) as [->|Hne]; [by destruct to_buf|].
  assert (pb_read_direct (reader avail beyond e) to_buf n
    = Ret (true, if to_buf then take (Z.to_nat n) avail else [],
           reader (drop (Z.to_nat n) avail) beyond e)) as E.
  { unfold pb_read_direct, reader. cbn [is_bytes_left].
    destruct (Z.ltb_spec (zlen avail) n); [lia|]. unfold call_iread, buf_read. cbn.
    rewrite zlen_app. pose proof (zlen_nonneg beyond).
    destruct (Z.leb_spec n (zlen avail + zlen beyond)); [|lia]. cbn.
    unfold zlen in *. rewrite take_app_le, drop_app_le by lia.
    unfold is_set_left, is_set_state. cbn. rewrite length_drop. do 3 f_equal. lia. }
  by destruct to_buf.
Qed.

Lemma read_short to_buf n avail beyond e :
  0 < n -> zlen avail < n ->
  pb_read (reader avail beyond e) to_buf n
  = Ret (false, [], is_err (reader avail beyond e) "end-of-stream").
Proof.
  intros Hn Hl. unfold pb_read. destruct (Z.eqb_spec n 0); [lia|].
  assert (pb_read_direct (reader avail beyond e) to_buf n
    = Ret (false, [], is_err (reader avail beyond e) "end-of-stream")) as E.
  { unfold pb_read_direct, reader. cbn [is_bytes_left]. by destruct (Z.ltb_spec (zlen avail) n); [|lia]. }
  by destruct to_buf.
Qed.

Lemma read_app n bs rest beyond e :
  n = zlen bs ->
  pb_read (reader (bs ++ rest) beyond e) true n = Ret (true, bs, reader rest beyond e).
Proof.
  intros ->. rewrite read_reader by (rewrite zlen_app; pose proof (zlen_nonneg bs);
    pose proof (zlen_nonneg rest); lia).
  unfold zlen. rewrite Nat2Z.id. by rewrite take_app_length, drop_app_length.
Qed.

Lemma skip_app n bs rest beyond e :
  n = zlen bs -> pb_skip (reader (bs ++ rest) beyond e) n = Ret (true, reader rest beyond e).
Proof.
  intros ->. unfold pb_skip. rewrite read_reader by (rewrite zlen_app; pose proof (zlen_nonneg bs);
    pose proof (zlen_nonneg rest); lia). cbn [rbind].
  unfold zlen. by rewrite Nat2Z.id, drop_app_length.
Qed.

(** ** Varints *)

(** The 64-bit decoder from its [j]-th byte on, [r] the value so far. *)
Lemma varint_loop_from n j r avail beyond e :
  (n + j = 10)%nat -> Forall is_byte avail -> 0 <= r < 2 ^ (7 * Z.of_nat j) ->
  exists s,
    loop (S n) varint_step (reader avail beyond e, r, 7 * Z.of_nat j)
    = Ret (match varint_dec n avail with
           | Some (v, rest) =>
               (Some ((r + 2 ^ (7 * Z.of_nat j) * v) mod 2 ^ 64), reader rest beyond e)
           | None => (None, s)
           end).
Proof.
  revert j r avail; induction n as [|n IH]; intros j r avail Hj Hb Hr.
  { assert (j = 10%nat) as -> by lia. by eexists. }
  rewrite loop_unfold. unfold varint_step at 1.
  destruct (Z.leb_spec 64 (7 * Z.of_nat j)); [lia|].
  destruct avail as [|b avail]; [by eexists|]. rewrite readbyte_cons. cbn [rbind varint_dec].
  inversion Hb as [|? ? Hb0 Hb1]; subst. pose proof (land_127_range b Hb0) as Hd.
  rewrite continues by done. unfold u64.
  rewrite add_digit by lia.
  destruct (Z.ltb_spec b 128) as [Hlt|Hge]; cbn [negb].
  { exists (reader [] beyond e). rewrite digit_low by (unfold is_byte in *; lia). done. }
  rewrite digit_high in * by (unfold is_byte in *; lia). cbn [rbind].
  assert (u8 (7 * Z.of_nat j + 7) = 7 * Z.of_nat (S j)) as -> by (unfold u8; rewrite wrap_small; lia).
  set (P := 2 ^ (7 * Z.of_nat j)) in *.
  destruct (IH (S j) ((r + P * (b - 128)) mod 2 ^ 64) avail) as [s Hs]; [lia|done| |].
  { pose proof (Z.mod_pos_bound (r + P * (b - 128)) (2 ^ 64)). rewrite pow2_split. fold P.
    assert (0 <= P * (b - 128) <= P * 127) by (unfold is_byte in Hb0; nia).
    destruct (decide (j < 9)%nat).
    - assert (2 ^ (7 * Z.of_nat (S j)) <= 2 ^ 63) as Hp by (apply Z.pow_le_mono_r; lia).
      rewrite pow2_split in Hp. fold P in Hp. clearbody P.
      rewrite (Z.mod_small (r + P * (b - 128))) by lia. lia.
    - assert (P = 2 ^ 63) as EP by (subst P; f_equal; lia). rewrite EP in *. lia. }
  rewrite Hs. exists s. destruct (varint_dec n avail) as [[v rest]|]; [|done].
  rewrite Zplus_mod_idemp_l, pow2_split. fold P. do 4 f_equal. lia.
Qed.

(** [pb_decode_varint] parses a varint of at most ten bytes, and keeps the low
    64 bits of its value. *)
Lemma pb_decode_varint_reader avail beyond e :
  Forall is_byte avail ->
  exists s,
    pb_decode_varint (reader avail beyond e)
    = Ret (match varint_dec 10 avail with
           | Some (v, rest) => (Some (v mod 2 ^ 64), reader rest beyond e)
           | None => (None, s)
           end).
Proof.
  intros Hb. destruct (varint_loop_from 10 0 0 avail beyond e) as [s Hs]; [done|done|by cbn|].
  exists s. unfold pb_decode_varint. etransitivity; [exact Hs|].
  destruct (varint_dec 10 avail) as [[v rest]|]; [|done]. by rewrite Z.add_0_l, Z.mul_1_l.
Qed.

Lemma pb_decode_varint_encoded v rest beyond e :
  0 <= v < 2 ^ 64 -> Forall is_byte rest ->
  pb_decode_varint (reader (varint v ++ rest) beyond e) = Ret (Some v, reader rest beyond e).
Proof.
  intros Hv Hr.
  destruct (pb_decode_varint_reader (varint v ++ rest) beyond e) as [s ->].
  { apply Forall_app. split; [apply varint_bytes_ok; lia|done]. }
  rewrite varint_dec_varint by done. by rewrite Z.mod_small by lia.
Qed.
Lemma high_digit_bits b : 0 <= b -> (Z.land b 0x70 =? 0) = false -> 16 <= b.
Proof.
  intros Hb. destruct (decide (b < 16)) as [Hlt|]; [|lia].
  by rewrite (land_shiftl_0 b 7 4 ltac:(lia) ltac:(lia) : Z.land b 0x70 = 0).
Qed.

(** The low 32 bits after one more digit, whether or not it is beyond them. *)
Lemma add_digit_32 j p d :
  0 <= p < 2 ^ (7 * Z.of_nat j) -> 0 <= d < 128 ->
  (if 32 <=? 7 * Z.of_nat j then p mod 2 ^ 32
   else Z.lor (p mod 2 ^ 32) (u32 (Z.shiftl d (7 * Z.of_nat j))))
  = (p + 2 ^ (7 * Z.of_nat j) * d) mod 2 ^ 32.
Proof.
  intros Hp Hd. destruct (Z.leb_spec 32 (7 * Z.of_nat j)) as [Hj|Hj].
  - replace (7 * Z.of_nat j) with (32 + (7 * Z.of_nat j - 32)) by lia.
    rewrite Z.pow_add_r by lia. set (Q := 2 ^ (_ - 32)).
    replace (p + 2 ^ 32 * Q * d) with (p + Q * d * 2 ^ 32) by lia. by rewrite Z.mod_add.
  - assert (2 ^ (7 * Z.of_nat j) <= 2 ^ 32) by (apply Z.pow_le_mono_r; lia).
    rewrite (Z.mod_small p) by lia. unfold u32. by rewrite add_digit by lia.
Qed.

(** From the [j]-th byte on, [p] the value so far: the low 32 bits of the value,
    or an error, and that only when it does not fit 32 bits. *)
Lemma varint32_loop_from n j p avail beyond e v rest k :
  (n + j = 10)%nat -> Forall is_byte avail -> 0 <= p < 2 ^ (7 * Z.of_nat j) ->
  varint_dec n avail = Some (v, rest) -> (length avail < k)%nat ->
  let total := p + 2 ^ (7 * Z.of_nat j) * v in
  let r := loop k varint32_step (reader avail beyond e, p mod 2 ^ 32, 7 * Z.of_nat j) in
  r = Ret (Some (total mod 2 ^ 32), reader rest beyond e)
  \/ (2 ^ 32 <= total /\ exists s, r = Ret (None, s)).
Proof.
  revert j p avail v k; induction n as [|n IH]; intros j p avail v [|k] Hj Hb Hp Hv Hk; try lia; [done|].
  destruct avail as [|b avail]; [done|]. cbn zeta. rewrite loop_unfold. unfold varint32_step at 1 3.
  rewrite readbyte_cons. cbn [rbind]. cbn [varint_dec] in Hv. cbn [length] in Hk.
  inversion Hb as [|? ? Hb0 Hb1]; subst. unfold is_byte in Hb0.
  pose proof (land_127_range b Hb0) as Hd. rewrite add_digit_32 by done.
  assert (u8 (7 * Z.of_nat j + 7) = 7 * Z.of_nat (S j)) as -> by (unfold u8; rewrite wrap_small; lia).
  assert (0 < 2 ^ (7 * Z.of_nat j)) as HP by (apply Z.pow_pos_nonneg; lia).
  pose proof (continues b Hb0) as Hcont. rewrite Hcont.
  assert (exists w, 0 <= w /\ v = Z.land b 0x7F + 128 * w) as (w & Hw & Ev).
  { destruct (Z.ltb_spec b 128).
    - injection Hv as <- <-. exists 0. rewrite digit_low by lia. lia.
    - destruct (varint_dec n avail) as [[w r]|] eqn:E; [|done]. injection Hv as <- <-.
      exists w. rewrite digit_high by lia. split; [by eapply varint_dec_nonneg|lia]. }
  destruct (_ && _) eqn:Hg.
  { right. split; [|by eexists]. apply andb_prop in Hg as [Hj5%Z.leb_le Hg].
    apply andb_prop in Hg as [Hd0%negb_true_iff%Z.eqb_neq _].
    assert (2 ^ 32 <= 2 ^ (7 * Z.of_nat j)) by (apply Z.pow_le_mono_r; lia). nia. }
  clear Hg. set (P := 2 ^ (7 * Z.of_nat j)) in *. destruct (Z.ltb_spec b 128) as [Hlt|Hge]; cbn [negb].
  - injection Hv as <- <-. rewrite digit_low in * by lia.
    destruct (_ && _) eqn:Hg; [right|by left]. split; [|by eexists].
    apply andb_prop in Hg as [Hj4%Z.eqb_eq Hg%negb_true_iff]. apply high_digit_bits in Hg; [|lia].
    assert (P = 2 ^ 28) by (subst P; f_equal; lia). lia.
  - destruct (varint_dec n avail) as [[w' r]|] eqn:E; [|done]. injection Hv as Hv <-.
    rewrite digit_high in * by lia. cbn [rbind].
    destruct (IH (S j) (p + P * (b - 128)) avail w' k) as [Hr|[Ht [s Hr]]];
      [lia|done| |done|lia| |].
    + rewrite pow2_split. fold P. nia.
    + left. rewrite Hr, pow2_split. fold P. do 4 f_equal. lia.
    + right. rewrite pow2_split in Ht. fold P in Ht. split; [lia|]. by exists s.
Qed.

(** [pb_decode_varint32] on a varint of at most ten bytes. *)
Lemma pb_decode_varint32_reader avail beyond e v rest :
  Forall is_byte avail -> varint_dec 10 avail = Some (v, rest) ->
  pb_decode_varint32_eof (reader avail beyond e) = Ret (Some (v mod 2 ^ 32), false, reader rest beyond e)
  \/ (2 ^ 32 <= v /\ exists s, pb_decode_varint32_eof (reader avail beyond e) = Ret (None, false, s)).
Proof.
  intros Hb Hv. destruct avail as [|b avail]; [done|]. unfold pb_decode_varint32_eof.
  rewrite readbyte_cons. cbn [rbind]. inversion Hb as [|? ? Hb0 Hb1]; subst. unfold is_byte in Hb0.
  rewrite continues by done. rewrite varint_dec_cons in Hv. destruct (Z.ltb_spec b 128).
  { injection Hv as <- <-. left. by rewrite Z.mod_small by lia. }
  destruct (varint_dec 9 avail) as [[w r]|] eqn:E; [|done]. injection Hv as <- <-.
  rewrite digit_high by lia. unfold varint32_loop. cbn [is_bytes_left reader].
  destruct (varint32_loop_from 9 1 (b - 128) avail beyond e w r
    (S (Z.to_nat (zlen avail)))) as [Hr|[Ht [s Hr]]]; [done|done|cbn; lia|done|unfold zlen; lia| |].
  - left. change (7 * Z.of_nat 1) with 7 in Hr. rewrite (Z.mod_small (b - 128)) in Hr by lia.
    cbn zeta in Hr. rewrite Hr. done.
  - right. split; [exact Ht|]. exists s. change (7 * Z.of_nat 1) with 7 in Hr.
    rewrite (Z.mod_small (b - 128)) in Hr by lia. by rewrite Hr.
Qed.

Lemma pb_decode_varint32_encoded v rest beyond e :
  0 <= v < 2 ^ 32 -> Forall is_byte rest ->
  pb_decode_varint32_eof (reader (varint v ++ rest) beyond e) = Ret (Some v, false, reader rest beyond e).
Proof.
  intros Hv Hr. destruct (pb_decode_varint32_reader (varint v ++ rest) beyond e v rest) as [->|[? _]].
  - apply Forall_app. split; [apply varint_bytes_ok; lia|done].
  - apply varint_dec_varint. lia.
  - by rewrite Z.mod_small by lia.
  - lia.
Qed.
(** ** Zig-zag, fixed-width values and keys *)

Lemma unzigzag_code u :
  0 <= u < 2 ^ 64 ->
  (if negb (Z.land u 1 =? 0) then swrap 64 (u64 (Z.lnot (Z.shiftr u 1))) else swrap 64 (Z.shiftr u 1))
  = unzigzag u.
Proof.
  intros Hu. unfold unzigzag. change 1 with (Z.ones 1) at 1. rewrite Z.land_ones by lia.
  rewrite Zmod_odd, Z.shiftr_div_pow2 by lia. change (2 ^ 1) with 2.
  assert (0 <= u / 2 < 2 ^ 63) by (split; [apply Z.div_pos; lia|apply Z.div_lt_upper_bound; lia]).
  destruct (Z.odd u); cbn [Z.eqb negb].
  - unfold Z.lnot, u64. rewrite swrap_wrap by lia. lia.
  - apply swrap_small; lia.
Qed.

Lemma pb_decode_svarint_encoded v rest beyond e :
  - 2 ^ 63 <= v < 2 ^ 63 -> Forall is_byte rest ->
  pb_decode_svarint (reader (varint (zigzag v) ++ rest) beyond e) = Ret (Some v, reader rest beyond e).
Proof.
  intros Hv Hr. pose proof (zigzag_range v Hv). unfold pb_decode_svarint.
  rewrite pb_decode_varint_encoded by done. cbn [rbind].
  pose proof (unzigzag_code (zigzag v) ltac:(done)) as Hz. rewrite unzigzag_zigzag in Hz.
  destruct (negb _); by rewrite Hz.
Qed.

Lemma pb_decode_fixed32_bytes bs rest beyond e :
  Forall is_byte bs -> length bs = 4%nat ->
  pb_decode_fixed32 (reader (bs ++ rest) beyond e) = Ret (Some (le_combine bs), reader rest beyond e).
Proof.
  intros Hb Hl. unfold pb_decode_fixed32. rewrite read_app by (unfold zlen; lia). cbn [rbind negb].
  destruct bs as [|b0 [|b1 [|b2 [|b3 [|]]]]]; try done.
  repeat (apply Forall_cons in Hb as [? Hb]). unfold is_byte in *. do 4 f_equal.
  rewrite Z.shiftl_0_r.
  rewrite (lor_byte b0 b1 8), (lor_byte _ b2 16), (lor_byte _ b3 24) by lia.
  cbn [le_combine]. lia.
Qed.

Lemma pb_decode_fixed64_bytes bs rest beyond e :
  Forall is_byte bs -> length bs = 8%nat ->
  pb_decode_fixed64 (reader (bs ++ rest) beyond e) = Ret (Some (le_combine bs), reader rest beyond e).
Proof.
  intros Hb Hl. unfold pb_decode_fixed64. rewrite read_app by (unfold zlen; lia). cbn [rbind negb].
  destruct bs as [|b0 [|b1 [|b2 [|b3 [|b4 [|b5 [|b6 [|b7 [|]]]]]]]]]; try done.
  repeat (apply Forall_cons in Hb as [? Hb]). unfold is_byte in *. do 4 f_equal.
  rewrite Z.shiftl_0_r.
  rewrite (lor_byte b0 b1 8), (lor_byte _ b2 16), (lor_byte _ b3 24), (lor_byte _ b4 32),
    (lor_byte _ b5 40), (lor_byte _ b6 48), (lor_byte _ b7 56) by lia.
  cbn [le_combine]. lia.
Qed.

Lemma pb_decode_tag_encoded wt n rest beyond e :
  0 <= wt < 8 -> 0 <= n -> 0 < 8 * n + wt < 2 ^ 32 -> Forall is_byte rest ->
  pb_decode_tag (reader (key wt n ++ rest) beyond e) = Ret (Some (wt, n), false, reader rest beyond e).
Proof.
  intros Hwt Hn Hk Hr. unfold pb_decode_tag, key. rewrite pb_decode_varint32_encoded by (lia || done).
  cbn [rbind]. destruct (Z.eqb_spec (8 * n + wt) 0); [lia|].
  change 7 with (Z.ones 3). rewrite Z.land_ones, Z.shiftr_div_pow2 by lia. change (2 ^ 3) with 8.
  replace (8 * n + wt) with (wt + n * 8) by lia.
  rewrite Z.mod_add, Z.mod_small, Z.div_add, Z.div_small by lia. by rewrite Z.add_0_l.
Qed.

(** ** Skipping and substreams *)

Lemma pb_skip_varint_encoded n v rest beyond e k :
  Forall is_byte rest -> 0 <= v < 2 ^ (7 * Z.of_nat (S n)) -> (length (varint_enc (S n) v) <= k)%nat ->
  loop k
    (fun s =>
       let! (ok, bytes, s) := pb_read s true 1 in
       if negb ok then Ret (inr (false, s))
       else
         match bytes with
         | [] => UB
         | byte :: _ => if negb (Z.land byte 0x80 =? 0) then Ret (inl s) else Ret (inr (true, s))
         end) (reader (varint_enc (S n) v ++ rest) beyond e) = Ret (true, reader rest beyond e).
Proof.
  intros Hr. revert k v; induction n as [|n IH]; intros k v Hv Hk;
    rewrite pow_7_succ in Hv; cbn [varint_enc] in Hk |- *;
    destruct (Z.ltb_spec v 128) as [Hlt|Hge]; (destruct k as [|k]; [cbn in Hk; lia|]);
    rewrite loop_unfold.
  1, 3: rewrite (read_app 1 [v]) by done; cbn [rbind negb]; rewrite continues by (unfold is_byte; lia);
    by destruct (Z.ltb_spec v 128); [|lia].
  { change (2 ^ (7 * Z.of_nat 0)) with 1 in Hv. lia. }
  change (if (v / 128) <? 128 then [v / 128] else _) with (varint_enc (S n) (v / 128)).
  pose proof (Z.mod_pos_bound v 128 ltac:(lia)).
  change (v mod 128 + 128 :: varint_enc (S n) (v / 128))
    with ([v mod 128 + 128] ++ varint_enc (S n) (v / 128)).
  rewrite <- app_assoc, read_app by done. cbn [rbind negb].
  rewrite continues by (unfold is_byte; lia). destruct (Z.ltb_spec (v mod 128 + 128) 128); [lia|].
  cbn [rbind negb]. apply IH; [|cbn in Hk |- *; lia].
  split; [apply Z.div_pos; lia|apply Z.div_lt_upper_bound; lia].
Qed.

(** The bytes of one field value, by wire type. *)
Inductive payload : Z -> list Z -> Prop :=
| PVarint v : 0 <= v < 2 ^ 64 -> payload PB_WT_VARINT (varint v)
| P64 bs : length bs = 8%nat -> payload PB_WT_64BIT bs
| PString bs : zlen bs < 2 ^ 32 -> payload PB_WT_STRING (delimited_bytes bs)
| P32 bs : length bs = 4%nat -> payload PB_WT_32BIT bs.

(** [pb_skip_field] skips exactly one field value, of any wire type. *)
Theorem pb_skip_field_payload wt bs rest beyond e :
  payload wt bs -> Forall is_byte bs -> Forall is_byte rest ->
  pb_skip_field (reader (bs ++ rest) beyond e) wt = Ret (true, reader rest beyond e).
Proof.
  intros Hp Hb Hr. destruct Hp as [v Hv|bs Hl|bs Hl|bs Hl]; unfold pb_skip_field; cbn [Z.eqb].
  - unfold pb_skip_varint. apply (pb_skip_varint_encoded 9); [done| |].
    + split; [lia|apply pow_64_lt_70; lia].
    + cbn [is_bytes_left reader]. rewrite zlen_app. unfold zlen, varint. lia.
  - apply skip_app. unfold zlen. lia.
  - unfold pb_skip_string, pb_decode_varint32, delimited_bytes. rewrite <- app_assoc.
    rewrite pb_decode_varint32_encoded; [cbn [rbind]; by apply skip_app| |].
    + pose proof (zlen_nonneg bs). lia.
    + apply Forall_app in Hb as [_ Hb]. by apply Forall_app.
  - apply skip_app. unfold zlen. lia.
Qed.

(** A length-delimited value opens a substream that holds exactly its bytes;
    closing it after any part of it was consumed leaves the parent just past the
    value. *)
Theorem substream_isolated d rest beyond e :
  zlen d < 2 ^ 32 -> Forall is_byte d -> Forall is_byte rest ->
  exists s,
    pb_make_string_substream (reader (delimited_bytes d ++ rest) beyond e)
    = Ret (Some (reader d (rest ++ beyond) e), s)
    /\ forall d1 d2 e', d = d1 ++ d2 ->
         pb_close_string_substream s (reader d2 (rest ++ beyond) e')
         = Ret (true, reader rest beyond e').
Proof.
  intros Hl Hd Hr. pose proof (zlen_nonneg d). pose proof (zlen_nonneg rest).
  unfold pb_make_string_substream, pb_decode_varint32, delimited_bytes. rewrite <- app_assoc.
  rewrite pb_decode_varint32_encoded by (lia || by apply Forall_app). cbn [rbind].
  cbn [is_bytes_left reader]. rewrite zlen_app.
  destruct (Z.ltb_spec (zlen d + zlen rest) (zlen d)); [lia|].
  eexists. split.
  { unfold reader, is_set_left. cbn. by rewrite app_assoc. }
  intros d1 d2 e' ->. unfold pb_close_string_substream. cbn [is_bytes_left reader].
  replace (pb_skip (reader d2 (rest ++ beyond) e') (zlen d2))
    with (Ret (true, reader [] (rest ++ beyond) e'))
    by (by rewrite <- (app_nil_r d2) at 1; rewrite skip_app).
  assert ((if negb (zlen d2 =? 0) then Ret (true, reader [] (rest ++ beyond) e')
           else Ret (true, reader d2 (rest ++ beyond) e')) = Ret (true, reader [] (rest ++ beyond) e')) as ->.
  { destruct (Z.eqb_spec (zlen d2) 0) as [E0|]; [|done].
    assert (d2 = []) as -> by (destruct d2; [done|unfold zlen in E0; cbn in E0; lia]). done. }
  cbn [rbind negb]. unfold reader, is_set_errmsg, is_set_state, is_set_left. cbn. do 3 f_equal.
  rewrite zlen_app. lia.
Qed.
End Readers.

(** ** Sane streams: every primitive returns, and leaves one *)

Section Totality.
Context `{UserStreams}.

Lemma bytes_cons b (l r : list Z) :
  Forall is_byte ((b :: l) ++ r) -> is_byte b /\ Forall is_byte (l ++ r).
Proof. apply Forall_cons. Qed.

Lemma bytes_after (pre a r : list Z) : Forall is_byte ((pre ++ a) ++ r) -> Forall is_byte (a ++ r).
Proof. rewrite <- app_assoc. intros Hb. by apply Forall_app in Hb as [_ Hb]. Qed.

(** A memory stream whose limit is within its buffer. *)
Definition sane (s : pb_istream_t) : Prop :=
  is_callback s = IBufRead
  /\ exists buf, is_state s = ISBuf buf /\ Forall is_byte buf /\ 0 <= is_bytes_left s <= zlen buf.

(** [s] is the reader of [avail] after at least [n] bytes were consumed. *)
Definition left_of (n : nat) (avail beyond : list Z) (s : pb_istream_t) : Prop :=
  exists pre avail' e, avail = pre ++ avail' /\ (n <= length pre)%nat /\ s = reader avail' beyond e.

Lemma sane_reader avail beyond e : Forall is_byte (avail ++ beyond) -> sane (reader avail beyond e).
Proof.
  intros Hb. split; [done|]. eexists. split; [done|]. split; [done|]. cbn. rewrite zlen_app.
  pose proof (zlen_nonneg avail). pose proof (zlen_nonneg beyond). lia.
Qed.

Lemma reader_sane s :
  sane s -> exists avail beyond e, s = reader avail beyond e /\ Forall is_byte (avail ++ beyond).
Proof.
  intros (Hcb & buf & Hst & Hb & Hl). exists (take (Z.to_nat (is_bytes_left s)) buf),
    (drop (Z.to_nat (is_bytes_left s)) buf), (is_errmsg s).
  unfold reader. rewrite take_drop. split; [|done]. destruct s as [cb st l e]. cbn in *. subst.
  f_equal. unfold zlen in *. rewrite length_take. lia.
Qed.

Lemma sane_is_err s msg : sane s -> sane (is_err s msg).
Proof. done. Qed.

Lemma sane_set_errmsg s e : sane s -> sane (is_set_errmsg s e).
Proof. done. Qed.

Lemma left_of_sane n avail beyond s :
  Forall is_byte (avail ++ beyond) -> left_of n avail beyond s -> sane s.
Proof.
  intros Hb (pre & avail' & e & -> & _ & ->). apply sane_reader.
  rewrite <- app_assoc in Hb. by apply Forall_app in Hb as [_ Hb].
Qed.

Lemma left_of_refl avail beyond e : left_of 0 avail beyond (reader avail beyond e).
Proof. by exists [], avail, e. Qed.

Lemma left_of_weaken n m avail beyond s : (m <= n)%nat -> left_of n avail beyond s -> left_of m avail beyond s.
Proof. intros Hm (pre & avail' & e & -> & Hn & ->). exists pre, avail', e. split_and!; [done|lia|done]. Qed.

Lemma left_of_trans n m pre avail avail' beyond s :
  avail = pre ++ avail' -> (n <= length pre)%nat -> left_of m avail' beyond s ->
  left_of (n + m) avail beyond s.
Proof.
  intros -> Hn (pre' & a & e & -> & Hm & ->). exists (pre ++ pre'), a, e.
  split_and!; [by rewrite app_assoc|rewrite length_app; lia|done].
Qed.

Lemma left_of_set_errmsg n avail beyond s e :
  left_of n avail beyond s -> left_of n avail beyond (is_set_errmsg s e).
Proof. intros (pre & avail' & e' & -> & Hn & ->). by exists pre, avail', e. Qed.

(** What a primitive promises: it returns, the stream stays sane, and a value
    means that at least [n] bytes were consumed. *)
Definition reads {A} (n : nat) (avail beyond : list Z) (P : A -> Prop)
    (m : res (option A * pb_istream_t)) : Prop :=
  exists o s, m = Ret (o, s) /\ sane s
    /\ match o with Some v => P v /\ left_of n avail beyond s | None => True end.

Lemma varint32_total avail beyond e :
  Forall is_byte (avail ++ beyond) ->
  exists o eof s, pb_decode_varint32_eof (reader avail beyond e) = Ret (o, eof, s) /\ sane s
    /\ match o with
       | Some v => 0 <= v < 2 ^ 32 /\ left_of 1 avail beyond s
       | None => eof = true -> left_of 0 avail beyond s
       end.
Proof.
  intros Hb. unfold pb_decode_varint32_eof, varint32_loop. destruct avail as [|b avail].
  { eexists _, _, _. split; [done|]. split; [by apply sane_is_err, sane_reader|].
    intros _. by eexists [], [], _. }
  rewrite readbyte_cons. cbn [rbind]. apply bytes_cons in Hb as [Hb0 Hb].
  destruct (Z.land b 0x80 =? 0).
  { eexists _, _, _. split; [done|]. split; [by apply sane_reader|]. unfold is_byte in Hb0.
    split; [lia|]. by exists [b], avail, e. }
  set (I := fun '((s, result, _) : pb_istream_t * Z * Z) =>
    (exists pre a e, avail = pre ++ a /\ s = reader a beyond e) /\ 0 <= result < 2 ^ 32).
  destruct (loop_total I (fun '(s, _, _) => Z.to_nat (is_bytes_left s))
    (fun '(o, s) => sane s
       /\ match o with Some v => 0 <= v < 2 ^ 32 /\ left_of 1 (b :: avail) beyond s | None => True end)
    varint32_step (S (Z.to_nat (is_bytes_left (reader avail beyond e))))
    (reader avail beyond e, Z.land b 0x7F, 7)) as ([o s] & -> & Hs & Ho).
  - intros [[s result] bitpos] [(pre & a & e' & -> & ->) Hr]. unfold varint32_step.
    assert (Forall is_byte (a ++ beyond)) as Hb1
      by by apply bytes_after in Hb.
    destruct a as [|c a].
    { eexists. split; [done|]. cbn. split; [by apply sane_is_err, sane_reader|done]. }
    rewrite readbyte_cons. cbn [rbind]. apply bytes_cons in Hb1 as [Hc Hb1].
    pose proof (sane_reader a beyond e' Hb1) as Hsane.
    destruct (_ && _); [eexists; split; [done|]; cbn; split; [by apply sane_is_err|done]|].
    set (result' := if 32 <=? bitpos then result else _).
    assert (0 <= result' < 2 ^ 32) as Hr'.
    { subst result'. destruct (32 <=? bitpos); [done|]. apply lor_range; [lia|done|].
      apply wrap_range. lia. }
    destruct (negb _).
    { eexists. split; [done|]. cbn [is_bytes_left reader]. split; [|rewrite zlen_cons; unfold zlen; lia].
      split; [|done]. exists (pre ++ [c]), a, e'. by rewrite <- app_assoc. }
    destruct (_ && _); eexists; (split; [done|]); cbn beta iota.
    { split; [by apply sane_is_err|done]. }
    split; [done|]. split; [done|]. exists (b :: pre ++ [c]), a, e'.
    split_and!; [cbn; by rewrite <- app_assoc|cbn; lia|done].
  - split; [by exists [], avail, e|]. pose proof (land_127_range b Hb0). lia.
  - lia.
  - cbn [rbind]. eexists _, _, _. split; [done|]. split; [done|]. by destruct o.
Qed.

Lemma varint_total avail beyond e :
  Forall is_byte (avail ++ beyond) ->
  reads 1 avail beyond (fun v => 0 <= v < 2 ^ 64) (pb_decode_varint (reader avail beyond e)).
Proof.
  intros Hb. unfold pb_decode_varint.
  set (I := fun '((s, result, bitpos) : pb_istream_t * Z * Z) =>
    (exists pre a e, avail = pre ++ a /\ s = reader a beyond e) /\ 0 <= result < 2 ^ 64
    /\ exists j, (j <= 10)%nat /\ bitpos = 7 * Z.of_nat j).
  destruct (loop_total I (fun '(_, _, bitpos) => Z.to_nat (10 - bitpos / 7))
    (fun '(o, s) => sane s
       /\ match o with Some v => 0 <= v < 2 ^ 64 /\ left_of 1 avail beyond s | None => True end)
    varint_step 11 (reader avail beyond e, 0, 0)) as ([o s] & -> & Hs & Ho).
  - intros [[s result] bitpos] ((pre & a & e' & -> & ->) & Hr & j & Hj & ->). unfold varint_step.
    assert (Forall is_byte (a ++ beyond)) as Hb1
      by by apply bytes_after in Hb.
    destruct (Z.leb_spec 64 (7 * Z.of_nat j)).
    { eexists. split; [done|]. cbn. split; [by apply sane_is_err, sane_reader|done]. }
    destruct a as [|c a].
    { eexists. split; [done|]. cbn. split; [by apply sane_is_err, sane_reader|done]. }
    rewrite readbyte_cons. cbn [rbind]. apply bytes_cons in Hb1 as [Hc Hb1].
    set (result' := Z.lor result _).
    assert (0 <= result' < 2 ^ 64) as Hr' by (apply lor_range; [lia|done|apply wrap_range; lia]).
    destruct (negb _); eexists; (split; [done|]); cbn beta iota.
    + split.
      * split_and!; [|lia|lia|].
        -- exists (pre ++ [c]), a, e'. by rewrite <- app_assoc.
        -- exists (S j). split; [lia|]. unfold u8. rewrite wrap_small; lia.
      * unfold u8. rewrite wrap_small by lia.
        replace (7 * Z.of_nat j + 7) with (Z.of_nat (S j) * 7) by lia.
        rewrite Z.div_mul, (Z.mul_comm 7), Z.div_mul by lia. lia.
    + split; [by apply sane_reader|]. split; [done|]. exists (pre ++ [c]), a, e'.
      split_and!; [by rewrite <- app_assoc|rewrite length_app; cbn; lia|done].
  - split_and!; [by exists [], avail, e|lia|lia|]. exists 0%nat. by split; [lia|].
  - change (Z.to_nat (10 - 0 / 7)) with 10%nat. lia.
  - by exists o, s.
Qed.

Lemma varint32_reads avail beyond e :
  Forall is_byte (avail ++ beyond) ->
  reads 1 avail beyond (fun v => 0 <= v < 2 ^ 32) (pb_decode_varint32 (reader avail beyond e)).
Proof.
  intros Hb. destruct (varint32_total avail beyond e Hb) as (o & eof & s & E & Hs & Ho).
  unfold pb_decode_varint32. rewrite E. exists o, s. split_and!; [done|done|]. by destruct o.
Qed.

Lemma read_total (to_buf : bool) n avail beyond e :
  Forall is_byte (avail ++ beyond) -> 0 <= n ->
  exists ok bs s, pb_read (reader avail beyond e) to_buf n = Ret (ok, bs, s) /\ sane s
    /\ zlen bs <= n /\ Forall is_byte bs
    /\ (ok = true -> left_of (Z.to_nat n) avail beyond s /\ (to_buf = true -> zlen bs = n)).
Proof.
  intros Hb Hn. destruct (decide (n <= zlen avail)) as [Hle|Hgt].
  - rewrite read_reader by lia. eexists _, _, _. split; [done|].
    assert (avail = take (Z.to_nat n) avail ++ drop (Z.to_nat n) avail) as Ea by by rewrite take_drop.
    assert (length (take (Z.to_nat n) avail) = Z.to_nat n) as El
      by (rewrite length_take; unfold zlen in Hle; lia).
    split_and!.
    + apply sane_reader. rewrite Ea in Hb. by apply bytes_after in Hb.
    + destruct to_buf; [unfold zlen; lia|done].
    + destruct to_buf; [|done]. apply Forall_app in Hb as [Hb _]. by apply Forall_take.
    + intros _. split; [|intros ->; unfold zlen; lia].
      exists (take (Z.to_nat n) avail), (drop (Z.to_nat n) avail), e. split_and!; [done|lia|done].
  - pose proof (zlen_nonneg avail). rewrite read_short by lia. eexists _, _, _. split; [done|].
    split_and!; [by apply sane_is_err, sane_reader|done|done|done].
Qed.

Lemma skip_total n avail beyond e :
  Forall is_byte (avail ++ beyond) -> 0 <= n ->
  exists ok s, pb_skip (reader avail beyond e) n = Ret (ok, s) /\ sane s
    /\ (ok = true -> left_of (Z.to_nat n) avail beyond s).
Proof.
  intros Hb Hn. unfold pb_skip.
  destruct (read_total false n avail beyond e Hb Hn) as (ok & bs & s & -> & Hs & _ & _ & Hok).
  exists ok, s. split_and!; [done|done|]. intros ->. by apply Hok.
Qed.

Lemma skip_varint_total avail beyond e :
  Forall is_byte (avail ++ beyond) ->
  exists ok s, pb_skip_varint (reader avail beyond e) = Ret (ok, s) /\ sane s
    /\ (ok = true -> left_of 0 avail beyond s).
Proof.
  intros Hb. unfold pb_skip_varint.
  destruct (loop_total
    (fun s => exists pre a e, avail = pre ++ a /\ s = reader a beyond e)
    (fun s => Z.to_nat (is_bytes_left s))
    (fun '(ok, s) => sane s /\ (ok = true -> left_of 0 avail beyond s))
    (fun s =>
       let! (ok, bytes, s) := pb_read s true 1 in
       if negb ok then Ret (inr (false, s))
       else
         match bytes with
         | [] => UB
         | byte :: _ => if negb (Z.land byte 0x80 =? 0) then Ret (inl s) else Ret (inr (true, s))
         end)
    (S (Z.to_nat (is_bytes_left (reader avail beyond e)))) (reader avail beyond e))
    as ([ok s] & E & Hs & Hok).
  - intros s (pre & a & e' & -> & ->).
    assert (Forall is_byte (a ++ beyond)) as Hb1
      by by apply bytes_after in Hb.
    destruct a as [|c a].
    { rewrite read_short by done. eexists. split; [done|]. cbn.
      split; [by apply sane_is_err, sane_reader|done]. }
    change (c :: a) with ([c] ++ a). rewrite read_app by done. cbn [rbind negb].
    apply (bytes_cons c) in Hb1 as [_ Hb1].
    destruct (negb _); eexists; (split; [done|]); cbn beta iota.
    + split; [exists (pre ++ [c]), a, e'; by rewrite <- app_assoc|].
      cbn [is_bytes_left reader app]. rewrite zlen_cons. unfold zlen. lia.
    + split; [by apply sane_reader|]. intros _. exists (pre ++ [c]), a, e'.
      split_and!; [by rewrite <- app_assoc|lia|done].
  - by exists [], avail, e.
  - lia.
  - by exists ok, s.
Qed.

Lemma skip_field_total wt avail beyond e :
  Forall is_byte (avail ++ beyond) ->
  exists ok s, pb_skip_field (reader avail beyond e) wt = Ret (ok, s) /\ sane s
    /\ (ok = true -> left_of 0 avail beyond s).
Proof.
  intros Hb. unfold pb_skip_field.
  assert (forall n, 0 <= n ->
    exists ok s, pb_skip (reader avail beyond e) n = Ret (ok, s) /\ sane s
      /\ (ok = true -> left_of 0 avail beyond s)) as Hskip.
  { intros n Hn. destruct (skip_total n avail beyond e Hb Hn) as (ok & s & -> & Hs & Hok).
    exists ok, s. split_and!; [done|done|]. intros ->. eapply left_of_weaken; [|by apply Hok]. lia. }
  destruct (wt =? PB_WT_VARINT); [by apply skip_varint_total|].
  destruct (wt =? PB_WT_64BIT); [apply Hskip; lia|].
  destruct (wt =? PB_WT_STRING).
  { unfold pb_skip_string. destruct (varint32_reads avail beyond e Hb) as ([v|] & s & -> & Hs & Hv);
      cbn [rbind]; [|by eexists _, _].
    destruct Hv as [Hv (pre & a & e' & -> & Hp & ->)].
    apply bytes_after in Hb.
    destruct (skip_total v a beyond e' Hb ltac:(lia)) as (ok & s & -> & Hs' & Hok).
    exists ok, s. split_and!; [done|done|]. intros Ht.
    eapply left_of_weaken; [|by eapply left_of_trans; [|exact Hp|apply Hok]]. lia. }
  destruct (wt =? PB_WT_32BIT); [apply Hskip; lia|].
  eexists _, _. split; [done|]. split; [by apply sane_is_err, sane_reader|done].
Qed.

Lemma tag_total avail beyond e :
  Forall is_byte (avail ++ beyond) ->
  exists o eof s, pb_decode_tag (reader avail beyond e) = Ret (o, eof, s) /\ sane s
    /\ match o with
       | Some (_, tag) => 0 <= tag < 2 ^ 29 /\ left_of 1 avail beyond s
       | None => eof = true -> left_of 0 avail beyond s
       end.
Proof.
  intros Hb. unfold pb_decode_tag.
  destruct (varint32_total avail beyond e Hb) as ([v|] & eof & s & -> & Hs & Hv); cbn [rbind].
  - destruct Hv as [Hv Hl]. destruct (v =? 0); eexists _, _, _; (split; [done|]); (split; [done|]).
    + intros _. eapply left_of_weaken; [|exact Hl]. lia.
    + split; [|done]. rewrite Z.shiftr_div_pow2 by lia. change (2 ^ 3) with 8.
      split; [apply Z.div_pos; lia|apply Z.div_lt_upper_bound; lia].
  - by eexists _, _, _.
Qed.

(** Opening a substream, and closing it after it was read: the parent is just
    past it. *)
Lemma substream_total avail beyond e :
  Forall is_byte (avail ++ beyond) ->
  exists o s, pb_make_string_substream (reader avail beyond e) = Ret (o, s)
    /\ match o with
       | None => True
       | Some sub =>
           exists d beyond' e', sub = reader d beyond' e' /\ Forall is_byte (d ++ beyond')
             /\ forall e1 sub', left_of 0 d beyond' sub' ->
                  exists s', pb_close_string_substream (is_set_errmsg s e1) sub' = Ret (true, s')
                             /\ left_of 1 avail beyond s'
       end.
Proof.
  intros Hb. unfold pb_make_string_substream.
  destruct (varint32_reads avail beyond e Hb) as ([v|] & s & -> & Hs & Hv); cbn [rbind]; [|by eexists _, _].
  destruct Hv as [Hv (pre & a & e' & -> & Hp & ->)]. apply bytes_after in Hb.
  cbn [is_bytes_left reader]. destruct (Z.ltb_spec (zlen a) v) as [|Hle]; [by eexists _, _|].
  set (d := take (Z.to_nat v) a). set (rest := drop (Z.to_nat v) a).
  assert (a = d ++ rest) as Ea by (subst d rest; by rewrite take_drop).
  assert (zlen d = v) as Ed by (subst d; unfold zlen in *; rewrite length_take; lia).
  clearbody d rest. subst a. rewrite zlen_app, Ed.
  eexists _, _. split; [done|]. exists d, (rest ++ beyond), e'. split_and!.
  - unfold reader, is_set_left. cbn. by rewrite Ed, <- app_assoc.
  - by rewrite <- app_assoc in Hb.
  - intros e1 sub' (pre' & d' & e2 & -> & _ & ->). unfold pb_close_string_substream.
    cbn [is_bytes_left reader].
    pose proof (skip_app (zlen d') d' [] (rest ++ beyond) e2 eq_refl) as Hskip.
    rewrite app_nil_r in Hskip. rewrite Hskip.
    assert ((if negb (zlen d' =? 0) then Ret (true, reader [] (rest ++ beyond) e2)
             else Ret (true, reader d' (rest ++ beyond) e2)) = Ret (true, reader [] (rest ++ beyond) e2)) as ->.
    { destruct (Z.eqb_spec (zlen d') 0) as [E0|]; [|done].
      assert (d' = []) as -> by (destruct d'; [done|unfold zlen in E0; cbn in E0; lia]). done. }
    cbn [rbind negb]. eexists. split; [done|]. exists (pre ++ pre' ++ d'), rest, e2.
    split_and!; [by rewrite <- !app_assoc|rewrite length_app; lia|].
    unfold reader, is_set_errmsg, is_set_state, is_set_left. cbn. f_equal. lia.
Qed.

(** Reading from any stream ends, a custom one included. *)
Lemma pb_read_direct_post s (to_buf : bool) n : terminates (pb_read_direct s to_buf n).
Proof.
  unfold pb_read_direct. destruct (_ <? _); [done|]. apply post_let.
  - unfold call_iread, buf_read. destruct (is_callback s), (is_state s); try done.
    + by destruct (_ <=? _).
    + by destruct (user_read _ _ _) as [[? ?] ?].
  - intros [[[] ?] ?]; done.
Qed.

Lemma pb_read_post s (to_buf : bool) n : terminates (pb_read s to_buf n).
Proof.
  unfold pb_read. destruct (n =? 0); [done|].
  assert (terminates (skip_chunks s n)) as Hskip.
  { unfold skip_chunks.
    apply (post_loop (fun _ => True) (fun '(_, n) => Z.to_nat (n / 16))); [|done|lia].
    intros [s' k] _. destruct (Z.ltb_spec 16 k).
    - apply post_let; [apply pb_read_direct_post|]. intros [[[] ?] ?]; [|done]. cbn. split; [done|].
      replace k with (k - 16 + 1 * 16) at 2 by lia. rewrite Z.div_add by lia.
      assert (0 <= (k - 16) / 16) by (apply Z.div_pos; lia). lia.
    - apply post_let; [apply pb_read_direct_post|]. by intros [[? ?] ?]. }
  destruct to_buf, (is_callback s); first [exact Hskip|apply pb_read_direct_post].
Qed.

Lemma close_post s sub : terminates (pb_close_string_substream s sub).
Proof.
  unfold pb_close_string_substream. apply post_let.
  - destruct (negb _); [|done]. unfold pb_skip. apply post_let; [apply pb_read_post|].
    by intros [[? ?] ?].
  - by intros [[] ?].
Qed.
End Totality.

(** ** Round trips and limits of the primitives *)

Section RoundTrips.
Context `{UserStreams}.

Lemma write_fits s bs :
  wf_stream s -> fits s (zlen bs) -> zlen bs < 2 ^ 63 ->
  pb_write s (Ret bs) (zlen bs) = Ret (true, push s bs).
Proof. intros Hs Hf Hl. by apply (emits_write bs Hl s Hs). Qed.

(** [pb_encode_varint] writes the shortest varint that [pb_decode_varint] reads
    back as the same 64-bit value, one to ten bytes long; the decoder stops
    right after it. *)
Theorem varint_roundtrip v s rest beyond e :
  0 <= v < 2 ^ 64 -> wf_stream s -> fits s (zlen (varint v)) -> Forall is_byte rest ->
  pb_encode_varint s v = Ret (true, push s (varint v))
  /\ 1 <= zlen (varint v) <= 10
  /\ (forall bs, Forall is_byte bs -> varint_dec 10 bs = Some (v, []) -> zlen (varint v) <= zlen bs)
  /\ pb_decode_varint (reader (varint v ++ rest) beyond e) = Ret (Some v, reader rest beyond e).
Proof.
  intros Hv Hs Hf Hr. pose proof (varint_length v). split_and!; try lia.
  - rewrite pb_encode_varint_spec by done. apply write_fits; [done|done|lia].
  - intros bs Hb Hd. pose proof (pow_64_lt_70 v). unfold zlen. apply inj_le.
    apply varint_enc_shortest; [lia|done|done].
  - by apply pb_decode_varint_encoded.
Qed.

(** On any input, [pb_decode_varint] returns the low 64 bits of a varint of at
    most ten bytes and stops right after it, and fails when there is none. *)
Theorem pb_decode_varint_correct avail beyond e :
  Forall is_byte avail ->
  exists s,
    pb_decode_varint (reader avail beyond e)
    = Ret (match varint_dec 10 avail with
           | Some (v, rest) => (Some (v mod 2 ^ 64), reader rest beyond e)
           | None => (None, s)
           end).
Proof. apply pb_decode_varint_reader. Qed.

(** On a varint of at most ten bytes [pb_decode_varint32] agrees with the 64-bit
    decoder: a value that fits 32 bits is returned exactly, and a larger one is
    either refused or returned modulo 2^32. *)
Theorem pb_decode_varint32_agrees avail beyond e v rest :
  Forall is_byte avail -> varint_dec 10 avail = Some (v, rest) ->
  (v < 2 ^ 32 ->
   pb_decode_varint32 (reader avail beyond e) = Ret (Some v, reader rest beyond e))
  /\ (2 ^ 32 <= v ->
      pb_decode_varint32 (reader avail beyond e) = Ret (Some (v mod 2 ^ 32), reader rest beyond e)
      \/ exists s, pb_decode_varint32 (reader avail beyond e) = Ret (None, s)).
Proof.
  intros Hb Hv. pose proof (varint_dec_nonneg _ _ _ _ Hb Hv). unfold pb_decode_varint32.
  destruct (pb_decode_varint32_reader avail beyond e v rest Hb Hv) as [->|[Ht [s ->]]]; cbn [rbind].
  - split; intros ?; [by rewrite Z.mod_small by lia|by left].
  - split; intros ?; [lia|right; by eexists].
Qed.

(** The 32-bit decoder has no limit on padding: its 8-bit position counter wraps
    round, so 37 padding bytes and a 1 are accepted as the value 8, which the
    64-bit decoder refuses. *)
Theorem pb_decode_varint32_overlong e :
  let input := replicate 37 0x80 ++ [1] in
  pb_decode_varint32 (reader input [] e) = Ret (Some 8, reader [] [] e)
  /\ exists s, pb_decode_varint (reader input [] e) = Ret (None, s).
Proof. split; [by vm_compute|]. eexists. by vm_compute. Qed.

(** Signed values survive zig-zag encoding. *)
Theorem svarint_roundtrip v s rest beyond e :
  - 2 ^ 63 <= v < 2 ^ 63 -> wf_stream s -> fits s (zlen (varint (zigzag v))) -> Forall is_byte rest ->
  pb_encode_svarint s v = Ret (true, push s (varint (zigzag v)))
  /\ pb_decode_svarint (reader (varint (zigzag v) ++ rest) beyond e) = Ret (Some v, reader rest beyond e).
Proof.
  intros Hv Hs Hf Hr. pose proof (varint_length (zigzag v)). split.
  - rewrite pb_encode_svarint_spec by done. apply write_fits; [done|done|lia].
  - by apply pb_decode_svarint_encoded.
Qed.

(** Fixed-width values are written little-endian and read back. *)
Theorem fixed_roundtrip v32 v64 s rest beyond e :
  0 <= v32 < 2 ^ 32 -> 0 <= v64 < 2 ^ 64 -> wf_stream s -> fits s 8 ->
  pb_encode_fixed32 s v32 = Ret (true, push s (le_split 4 v32))
  /\ pb_encode_fixed64 s v64 = Ret (true, push s (le_split 8 v64))
  /\ pb_decode_fixed32 (reader (le_split 4 v32 ++ rest) beyond e) = Ret (Some v32, reader rest beyond e)
  /\ pb_decode_fixed64 (reader (le_split 8 v64 ++ rest) beyond e) = Ret (Some v64, reader rest beyond e).
Proof.
  intros H32 H64 Hs Hf. split_and!.
  - rewrite pb_encode_fixed32_spec. apply write_fits; [done| |done].
    intros Hc. specialize (Hf Hc). rewrite zlen_le_split. lia.
  - rewrite pb_encode_fixed64_spec. by apply write_fits.
  - rewrite pb_decode_fixed32_bytes by (apply le_split_bytes || apply length_le_split).
    rewrite le_combine_split. change (8 * Z.of_nat 4) with 32. by rewrite Z.mod_small.
  - rewrite pb_decode_fixed64_bytes by (apply le_split_bytes || apply length_le_split).
    rewrite le_combine_split. change (8 * Z.of_nat 8) with 64. by rewrite Z.mod_small.
Qed.

(** A field key with a number below 2^29 is read back as its wire type and
    number. *)
Theorem tag_roundtrip wt n s rest beyond e :
  0 <= wt < 8 -> 0 < n < 2 ^ 29 -> wf_stream s -> fits s (zlen (key wt n)) -> Forall is_byte rest ->
  pb_encode_tag s wt n = Ret (true, push s (key wt n))
  /\ pb_decode_tag (reader (key wt n ++ rest) beyond e)
     = Ret (Some (wt, n), false, reader rest beyond e).
Proof.
  intros Hwt Hn Hs Hf Hr. pose proof (varint_length (8 * n + wt)). split.
  - rewrite pb_encode_tag_spec by lia. apply write_fits; [done|done|unfold key; lia].
  - apply pb_decode_tag_encoded; (lia || done).
Qed.
End RoundTrips.
