(* ===== verification/PbDecode.v ===== *)
(** * pb_decode.c: decoding messages

    Field decoders, allocation, default values, release and the message loop
    of pb_decode.c.  The state threaded through is the input stream and the
    memory.  As in the encoder, functions that reach [pb_decode_noinit] again
    through submessages take it as an argument; fuel bounds the nesting of
    messages and the walks over extension lists. *)
From S2P Require Import Prelude CMem CLayout PbH PbStream PbCommon PbDecodePrim.
From Stdlib Require Import ZArith Lia.
From stdpp Require Import base tactics numbers list gmap strings.
#[local] Open Scope Z_scope.

(** What the decoder finds through function pointers. *)
Class DecoderEnv `{UserStreams} `{Descriptors} `{Allocator} : Type := {
  dec_field_callback :
    Z -> option (pb_istream_t -> pb_field_t -> Z -> mstate -> res (bool * (pb_istream_t * mstate)));
  dec_extension_callback :
    Z -> option (pb_istream_t -> Z -> Z -> Z -> mstate -> res (bool * (pb_istream_t * mstate)))
}.

(** ** Extensions as fields *)

Section Extensions.
Context `{Descriptors}.

(** [(const pb_field_t* )extension->type->arg]. *)
Definition extension_fields (m : gmap Z mbyte) (ext : Z) : res (list pb_field_t) :=
  let! type := load_ptr m (ext + offsetof pb_extension_t (Mem "type")) in
  let! arg := load_ptr m (type + offsetof pb_extension_type_t (Mem "arg")) in
  submsg_fields arg.

Definition extension_next (m : gmap Z mbyte) (ext : Z) : res Z :=
  load_ptr m (ext + offsetof pb_extension_t (Mem "next")).

Definition iter_from_extension (m : gmap Z mbyte) (ext : Z) : res pb_field_iter_t :=
  let dest := ext + offsetof pb_extension_t (Mem "dest") in
  let! fields := extension_fields m ext in
  let! field := field_at fields 0 in
  let! p := load_ptr m dest in
  let! (_, it) := pb_field_iter_begin fields p in
  let it := it_set_pData it p in
  let it := it_set_pSize it (ext + offsetof pb_extension_t (Mem "found")) in
  Ret (if PB_ATYPE (pf_type field) =? PB_ATYPE_POINTER then it_set_pData it dest else it).

Definition find_extension_field (it : pb_field_iter_t) : res (bool * pb_field_iter_t) :=
  let start := it_pos it in
  loop (S (length (it_start it)))
    (fun it =>
       let! f := it_field it in
       if PB_LTYPE (pf_type f) =? PB_LTYPE_EXTENSION then Ret (inr (true, it))
       else
         let! (_, it) := pb_field_iter_next it in
         if (it_pos it =? start)%nat then Ret (inr (false, it)) else Ret (inl it))
    it.

(** Run [f] on every extension of the linked list at [ext]. *)
Definition for_extensions (fuel : nat) (f : Z -> mstate -> res mstate) (ext : Z) (ms : mstate) :
    res mstate :=
  loop fuel
    (fun '(ext, ms) =>
       if ext =? 0 then Ret (inr ms)
       else
         let! ms := f ext ms in
         let! next := extension_next (mem ms) ext in
         Ret (inl (next, ms)))
    (ext, ms).

(** Run [f] on every field: [do { f(&iter); } while (next(&iter))]. *)
Definition for_fields (f : pb_field_iter_t -> mstate -> res mstate) (fields : list pb_field_t)
    (dest : Z) (ms : mstate) : res mstate :=
  let! (more, it) := pb_field_iter_begin fields dest in
  if negb more then Ret ms
  else
    loop (S (length fields))
      (fun '(it, ms) =>
         let! ms := f it ms in
         let! (more, it) := pb_field_iter_next it in
         Ret (if more then inl (it, ms) else inr ms))
      (it, ms).

(** ** Default values *)

(** What a static field that is initialised is set to. *)
Definition init_static_data (message_defaults : list pb_field_t -> Z -> mstate -> res mstate)
    (f : pb_field_t) (pData : Z) (ms : mstate) : res mstate :=
  if PB_LTYPE (pf_type f) =? PB_LTYPE_SUBMESSAGE
  then let! fields := submsg_fields (pf_ptr f) in message_defaults fields pData ms
  else if negb (pf_ptr f =? 0) then memcpy ms pData (pf_ptr f) (pf_data_size f)
  else memset0 ms pData (pf_data_size f).

Fixpoint pb_field_set_to_default (fuel : nat) (it : pb_field_iter_t) (ms : mstate) : res mstate :=
  match fuel with
  | O => OutOfFuel
  | S fuel =>
      let! f := it_field it in
      let type := pf_type f in
      if PB_LTYPE type =? PB_LTYPE_EXTENSION then
        let! ext := load_ptr (mem ms) (it_pData it) in
        for_extensions fuel
          (fun ext ms =>
             let! ms := store_uint ms (ext + offsetof pb_extension_t (Mem "found")) 1 0 in
             let! ext_iter := iter_from_extension (mem ms) ext in
             pb_field_set_to_default fuel ext_iter ms)
          ext ms
      else if PB_ATYPE type =? PB_ATYPE_STATIC then
        if (PB_HTYPE type =? PB_HTYPE_OPTIONAL) && negb (it_pSize it =? it_pData it) then
          let! ms := store_uint ms (it_pSize it) 1 0 in
          init_static_data (for_fields (pb_field_set_to_default fuel)) f (it_pData it) ms
        else if (PB_HTYPE type =? PB_HTYPE_REPEATED) || (PB_HTYPE type =? PB_HTYPE_ONEOF)
        then store_uint ms (it_pSize it) 4 0
        else init_static_data (for_fields (pb_field_set_to_default fuel)) f (it_pData it) ms
      else if PB_ATYPE type =? PB_ATYPE_POINTER then
        let! ms := store_ptr ms (it_pData it) 0 in
        if (PB_HTYPE type =? PB_HTYPE_REPEATED) || (PB_HTYPE type =? PB_HTYPE_ONEOF)
        then store_uint ms (it_pSize it) 4 0
        else Ret ms
      else Ret ms
  end.

Definition pb_message_set_to_defaults (fuel : nat) (fields : list pb_field_t) (dest : Z)
    (ms : mstate) : res mstate :=
  for_fields (pb_field_set_to_default fuel) fields dest ms.

(** ** Release *)

(** [while (count--) { pb_release(ptr, pItem); pItem += data_size; }] *)
Fixpoint release_items (release : Z -> mstate -> res mstate) (n : nat) (pItem data_size : Z)
    (ms : mstate) : res mstate :=
  match n with
  | O => Ret ms
  | S n =>
      let! ms := release pItem ms in
      release_items release n (pItem + data_size) data_size ms
  end.

(** [while (count--) { pb_free( *pItem ); *pItem++ = NULL; }] *)
Definition free_entry (pItem : Z) (ms : mstate) : res mstate :=
  let! p := load_ptr (mem ms) pItem in
  let! ms := pb_free p ms in
  store_ptr ms pItem 0.

Definition submsg_count (f : pb_field_t) (it : pb_field_iter_t) (ms : mstate) : res Z :=
  let type := pf_type f in
  if PB_HTYPE type =? PB_HTYPE_REPEATED then
    let! count :=
      (if (PB_ATYPE type =? PB_ATYPE_STATIC) && (it_pSize it =? it_pData it)
       then Ret (pf_array_size f)
       else load_uint (mem ms) (it_pSize it) 4) in
    Ret (if (PB_ATYPE type =? PB_ATYPE_STATIC) && (pf_array_size f <? count)
         then pf_array_size f else count)
  else Ret 1.

(** The part after submessages: a pointer field's own allocations. *)
Definition release_pointer (f : pb_field_t) (it : pb_field_iter_t) (ms : mstate) : res mstate :=
  let type := pf_type f in
  if PB_ATYPE type =? PB_ATYPE_POINTER then
    let! ms :=
      (if (PB_HTYPE type =? PB_HTYPE_REPEATED)
          && ((PB_LTYPE type =? PB_LTYPE_STRING) || (PB_LTYPE type =? PB_LTYPE_BYTES))
       then
         let! pItem := load_ptr (mem ms) (it_pData it) in
         let! count := load_uint (mem ms) (it_pSize it) 4 in
         release_items free_entry (Z.to_nat count) pItem 8 ms
       else Ret ms) in
    let! ms :=
      (if PB_HTYPE type =? PB_HTYPE_REPEATED then store_uint ms (it_pSize it) 4 0 else Ret ms) in
    let! p := load_ptr (mem ms) (it_pData it) in
    let! ms := pb_free p ms in
    store_ptr ms (it_pData it) 0
  else Ret ms.

Fixpoint pb_release_single_field (fuel : nat) (it : pb_field_iter_t) (ms : mstate) : res mstate :=
  match fuel with
  | O => OutOfFuel
  | S fuel =>
      let! f := it_field it in
      let type := pf_type f in
      let! current :=
        (if PB_HTYPE type =? PB_HTYPE_ONEOF
         then let! which := load_uint (mem ms) (it_pSize it) 4 in Ret (which =? pf_tag f)
         else Ret true) in
      if negb current then Ret ms
      else
        let release (pItem : Z) (ms : mstate) :=
          if pItem =? 0 then Ret ms
          else
            let! fields := submsg_fields (pf_ptr f) in
            for_fields (pb_release_single_field fuel) fields pItem ms in
        let! ms :=
          (if PB_LTYPE type =? PB_LTYPE_EXTENSION then
             let! ext := load_ptr (mem ms) (it_pData it) in
             for_extensions fuel
               (fun ext ms =>
                  let! ext_iter := iter_from_extension (mem ms) ext in
                  pb_release_single_field fuel ext_iter ms)
               ext ms
           else if (PB_LTYPE type =? PB_LTYPE_SUBMESSAGE)
                   && negb (PB_ATYPE type =? PB_ATYPE_CALLBACK) then
             let! pItem :=
               (if PB_ATYPE type =? PB_ATYPE_POINTER then load_ptr (mem ms) (it_pData it)
                else Ret (it_pData it)) in
             let! count := submsg_count f it ms in
             if pItem =? 0 then Ret ms
             else release_items release (Z.to_nat count) pItem (pf_data_size f) ms
           else Ret ms) in
        release_pointer f it ms
  end.

Definition pb_release (fuel : nat) (fields : list pb_field_t) (dest : Z) (ms : mstate) :
    res mstate :=
  if dest =? 0 then Ret ms else for_fields (pb_release_single_field fuel) fields dest ms.
End Extensions.

(** ** Field decoders *)

(** [PB_RETURN_ERROR(stream, msg)]. *)
Definition d_error `{UserStreams} (s : pb_istream_t) (ms : mstate) (msg : string) :
    res (bool * (pb_istream_t * mstate)) :=
  Ret (false, (is_err s msg, ms)).

Section FieldDecoders.
Context `{E : DecoderEnv} (fuel : nat).
Context (pb_decode_noinit :
  pb_istream_t -> list pb_field_t -> Z -> mstate -> res (bool * (pb_istream_t * mstate))).

Let dres : Type := res (bool * (pb_istream_t * mstate)).

(** [pb_read(stream, a, count)] for a destination in memory. *)
Definition pb_read_to (s : pb_istream_t) (a count : Z) (ms : mstate) : dres :=
  let! (ok, bytes, s) := pb_read s (negb (a =? 0)) count in
  let! ms := store_bytes ms a bytes in
  Ret (ok, (s, ms)).

Definition pb_decode (s : pb_istream_t) (fields : list pb_field_t) (dest : Z) (ms : mstate) : dres :=
  let! ms := pb_message_set_to_defaults fuel fields dest ms in
  let! (status, (s, ms)) := pb_decode_noinit s fields dest ms in
  if status then Ret (true, (s, ms))
  else let! ms := pb_release fuel fields dest ms in Ret (false, (s, ms)).

(** [allocate_field]: grow the block [*pData] points to. *)
Definition allocate_field (s : pb_istream_t) (pData data_size array_size : Z) (ms : mstate) : dres :=
  let! ptr := load_ptr (mem ms) pData in
  if (data_size =? 0) || (array_size =? 0) then d_error s ms "invalid size"
  else
    let check_limit := 2 ^ 32 in
    if ((check_limit <=? data_size) || (check_limit <=? array_size))
       && (u64 (-1) / array_size <? data_size)
    then d_error s ms "size too large"
    else
      let! (ptr, ms) := pb_realloc ptr (u64 (array_size * data_size)) ms in
      if ptr =? 0 then d_error s ms "realloc failed"
      else let! ms := store_ptr ms pData ptr in Ret (true, (s, ms)).

Definition initialize_pointer_field (f : pb_field_t) (pItem : Z) (ms : mstate) : res mstate :=
  let ltype := PB_LTYPE (pf_type f) in
  if (ltype =? PB_LTYPE_STRING) || (ltype =? PB_LTYPE_BYTES) then store_ptr ms pItem 0
  else if ltype =? PB_LTYPE_SUBMESSAGE then
    let! ms := memset0 ms pItem (pf_data_size f) in
    let! fields := submsg_fields (pf_ptr f) in
    pb_message_set_to_defaults fuel fields pItem ms
  else Ret ms.

Definition pb_dec_bool (s : pb_istream_t) (field : pb_field_t) (dest : Z) (ms : mstate) : dres :=
  let! (value, s) := pb_decode_bool s in
  match value with
  | None => Ret (false, (s, ms))
  | Some value => let! ms := store_uint ms dest 1 value in Ret (true, (s, ms))
  end.

(** [clamped = *(intN_t* )dest = (intN_t)svalue], then the overflow check. *)
Definition store_clamped (s : pb_istream_t) (dest : Z) (n : nat) (clamped value : Z) (ms : mstate) :
    dres :=
  let! ms := store_uint ms dest n clamped in
  if negb (clamped =? value) then d_error s ms "integer too large" else Ret (true, (s, ms)).

Definition pb_dec_varint (s : pb_istream_t) (field : pb_field_t) (dest : Z) (ms : mstate) : dres :=
  let! (value, s) := pb_decode_varint s in
  match value with
  | None => Ret (false, (s, ms))
  | Some value =>
      let svalue := if pf_data_size field =? 8 then swrap 64 value else swrap 32 value in
      if pf_data_size field =? 8 then store_clamped s dest 8 svalue svalue ms
      else if pf_data_size field =? 4 then store_clamped s dest 4 (swrap 32 svalue) svalue ms
      else if pf_data_size field =? 2 then store_clamped s dest 2 (swrap 16 svalue) svalue ms
      else if pf_data_size field =? 1 then store_clamped s dest 1 (swrap 8 svalue) svalue ms
      else d_error s ms "invalid data_size"
  end.

Definition pb_dec_uvarint (s : pb_istream_t) (field : pb_field_t) (dest : Z) (ms : mstate) : dres :=
  let! (value, s) := pb_decode_varint s in
  match value with
  | None => Ret (false, (s, ms))
  | Some value =>
      if pf_data_size field =? 8 then store_clamped s dest 8 value value ms
      else if pf_data_size field =? 4 then store_clamped s dest 4 (wrap 32 value) value ms
      else if pf_data_size field =? 2 then store_clamped s dest 2 (wrap 16 value) value ms
      else if pf_data_size field =? 1 then store_clamped s dest 1 (wrap 8 value) value ms
      else d_error s ms "invalid data_size"
  end.

Definition pb_dec_svarint (s : pb_istream_t) (field : pb_field_t) (dest : Z) (ms : mstate) : dres :=
  let! (value, s) := pb_decode_svarint s in
  match value with
  | None => Ret (false, (s, ms))
  | Some value =>
      if pf_data_size field =? 8 then store_clamped s dest 8 value value ms
      else if pf_data_size field =? 4 then store_clamped s dest 4 (swrap 32 value) value ms
      else if pf_data_size field =? 2 then store_clamped s dest 2 (swrap 16 value) value ms
      else if pf_data_size field =? 1 then store_clamped s dest 1 (swrap 8 value) value ms
      else d_error s ms "invalid data_size"
  end.

Definition pb_dec_fixed32 (s : pb_istream_t) (field : pb_field_t) (dest : Z) (ms : mstate) : dres :=
  let! (value, s) := pb_decode_fixed32 s in
  match value with
  | None => Ret (false, (s, ms))
  | Some value => let! ms := store_uint ms dest 4 value in Ret (true, (s, ms))
  end.

Definition pb_dec_fixed64 (s : pb_istream_t) (field : pb_field_t) (dest : Z) (ms : mstate) : dres :=
  let! (value, s) := pb_decode_fixed64 s in
  match value with
  | None => Ret (false, (s, ms))
  | Some value => let! ms := store_uint ms dest 8 value in Ret (true, (s, ms))
  end.

Definition pb_dec_bytes (s : pb_istream_t) (field : pb_field_t) (dest : Z) (ms : mstate) : dres :=
  let! (size, s) := pb_decode_varint32 s in
  match size with
  | None => Ret (false, (s, ms))
  | Some size =>
      let alloc_size := PB_BYTES_ARRAY_T_ALLOCSIZE size in
      let fill (bdest : Z) (s : pb_istream_t) (ms : mstate) : dres :=
        let! ms := store_uint ms bdest 4 size in
        pb_read_to s (bdest + offsetof pb_bytes_array_t (Mem "bytes")) size ms in
      if PB_SIZE_MAX <? size then d_error s ms "bytes overflow"
      else if alloc_size <? size then d_error s ms "size too large"
      else if PB_ATYPE (pf_type field) =? PB_ATYPE_POINTER then
        let? (s, ms) := allocate_field s dest alloc_size 1 ms in
        let! bdest := load_ptr (mem ms) dest in
        fill bdest s ms
      else if pf_data_size field <? alloc_size then d_error s ms "bytes overflow"
      else fill dest s ms
  end.

Definition pb_dec_string (s : pb_istream_t) (field : pb_field_t) (dest : Z) (ms : mstate) : dres :=
  let! (size, s) := pb_decode_varint32 s in
  match size with
  | None => Ret (false, (s, ms))
  | Some size =>
      let alloc_size := u32 (size + 1) in
      let fill (dest : Z) (s : pb_istream_t) (ms : mstate) : dres :=
        let! (status, (s, ms)) := pb_read_to s dest size ms in
        let! ms := store_uint ms (dest + size) 1 0 in
        Ret (status, (s, ms)) in
      if alloc_size <? size then d_error s ms "size too large"
      else if PB_ATYPE (pf_type field) =? PB_ATYPE_POINTER then
        let? (s, ms) := allocate_field s dest alloc_size 1 ms in
        let! p := load_ptr (mem ms) dest in
        fill p s ms
      else if pf_data_size field <? alloc_size then d_error s ms "string overflow"
      else fill dest s ms
  end.

Definition pb_dec_submessage (s : pb_istream_t) (field : pb_field_t) (dest : Z) (ms : mstate) :
    dres :=
  let! (sub, s) := pb_make_string_substream s in
  match sub with
  | None => Ret (false, (s, ms))
  | Some substream =>
      if pf_ptr field =? 0 then d_error s ms "invalid field descriptor"
      else
        let! fields := submsg_fields (pf_ptr field) in
        let! (status, (substream, ms)) :=
          (if PB_HTYPE (pf_type field) =? PB_HTYPE_REPEATED
           then pb_decode substream fields dest ms
           else pb_decode_noinit substream fields dest ms) in
        let! (ok, s) := pb_close_string_substream s substream in
        Ret (ok && status, (s, ms))
  end.

Definition pb_dec_fixed_length_bytes (s : pb_istream_t) (field : pb_field_t) (dest : Z)
    (ms : mstate) : dres :=
  let! (size, s) := pb_decode_varint32 s in
  match size with
  | None => Ret (false, (s, ms))
  | Some size =>
      if PB_SIZE_MAX <? size then d_error s ms "bytes overflow"
      else if size =? 0 then
        let! ms := memset0 ms dest (pf_data_size field) in Ret (true, (s, ms))
      else if negb (size =? pf_data_size field)
      then d_error s ms "incorrect fixed length bytes size"
      else pb_read_to s dest (pf_data_size field) ms
  end.

Definition pb_decoder_t : Type := pb_istream_t -> pb_field_t -> Z -> mstate -> dres.

Definition PB_DECODERS : list (option pb_decoder_t) :=
  [Some pb_dec_bool;
   Some pb_dec_varint;
   Some pb_dec_uvarint;
   Some pb_dec_svarint;
   Some pb_dec_fixed32;
   Some pb_dec_fixed64;
   Some pb_dec_bytes;
   Some pb_dec_string;
   Some pb_dec_submessage;
   None;
   Some pb_dec_fixed_length_bytes].

Definition decoder_for (ltype : Z) : res (option pb_decoder_t) :=
  match PB_DECODERS !! Z.to_nat ltype with
  | Some func => Ret func
  | None => UB
  end.

Definition call_decoder (func : option pb_decoder_t) : pb_decoder_t :=
  fun s field dest ms =>
    match func with
    | Some f => f s field dest ms
    | None => UB
    end.

(** ** One field *)

(** Is the wire data a packed array of this field? *)
Definition is_packed (f : pb_field_t) (wire_type : Z) : bool :=
  (wire_type =? PB_WT_STRING) && (PB_LTYPE (pf_type f) <=? PB_LTYPE_LAST_PACKABLE).

(** The loop over a packed array's substream: items are decoded while bytes
    are left and the array has room; the status, the substream, memory. *)
Definition packed_static_items (func : option pb_decoder_t) (f : pb_field_t)
    (it : pb_field_iter_t) (sub : pb_istream_t) (ms : mstate) : dres :=
  loop (S (Z.to_nat (is_bytes_left sub)))
    (fun '(sub, ms) =>
       if 0 <? is_bytes_left sub then
         let! size := load_uint (mem ms) (it_pSize it) 4 in
         if size <? pf_array_size f then
           let! (ok, (sub, ms)) :=
             call_decoder func sub f (it_pData it + u32 (pf_data_size f * size)) ms in
           if negb ok then Ret (inr (false, (sub, ms)))
           else
             let! size := load_uint (mem ms) (it_pSize it) 4 in
             let! ms := store_uint ms (it_pSize it) 4 (size + 1) in
             Ret (inl (sub, ms))
         else Ret (inr (true, (sub, ms)))
       else Ret (inr (true, (sub, ms))))
    (sub, ms).

Definition decode_static_field (s : pb_istream_t) (wire_type : Z) (it : pb_field_iter_t)
    (ms : mstate) : dres :=
  let! f := it_field it in
  let type := pf_type f in
  let! func := decoder_for (PB_LTYPE type) in
  if PB_HTYPE type =? PB_HTYPE_REQUIRED then call_decoder func s f (it_pData it) ms
  else if PB_HTYPE type =? PB_HTYPE_OPTIONAL then
    let! ms := (if negb (it_pSize it =? it_pData it) then store_uint ms (it_pSize it) 1 1
                else Ret ms) in
    call_decoder func s f (it_pData it) ms
  else if PB_HTYPE type =? PB_HTYPE_REPEATED then
    if is_packed f wire_type then
      let! (sub, s) := pb_make_string_substream s in
      match sub with
      | None => Ret (false, (s, ms))
      | Some sub =>
          let! (status, (sub, ms)) := packed_static_items func f it sub ms in
          if negb (is_bytes_left sub =? 0) then d_error s ms "array overflow"
          else
            let! (ok, s) := pb_close_string_substream s sub in
            Ret (ok && status, (s, ms))
      end
    else
      let! size := load_uint (mem ms) (it_pSize it) 4 in
      let pItem := it_pData it + u32 (pf_data_size f * size) in
      let! ms := store_uint ms (it_pSize it) 4 (size + 1) in
      if pf_array_size f <=? size then d_error s ms "array overflow"
      else call_decoder func s f pItem ms
  else if PB_HTYPE type =? PB_HTYPE_ONEOF then
    let! ms :=
      (if PB_LTYPE type =? PB_LTYPE_SUBMESSAGE then
         let! which := load_uint (mem ms) (it_pSize it) 4 in
         if negb (which =? pf_tag f) then
           let! ms := memset0 ms (it_pData it) (pf_data_size f) in
           let! fields := submsg_fields (pf_ptr f) in
           pb_message_set_to_defaults fuel fields (it_pData it) ms
         else Ret ms
       else Ret ms) in
    let! ms := store_uint ms (it_pSize it) 4 (pf_tag f) in
    call_decoder func s f (it_pData it) ms
  else d_error s ms "invalid field type".

(** The capacity to grow a packed pointer array to. *)
Definition grow_allocation (allocated_size bytes_left data_size : Z) : Z :=
  let remain := u64 ((bytes_left - 1) / data_size + 1) in
  if remain <? u64 (PB_SIZE_MAX - allocated_size) then u64 (allocated_size + remain)
  else u64 (allocated_size + 1).

(** The loop over a packed array for a pointer field; [stream->errmsg] is set
    directly when the count is at its maximum. *)
Definition packed_pointer_items (func : option pb_decoder_t) (f : pb_field_t)
    (it : pb_field_iter_t) (s sub : pb_istream_t) (ms : mstate) :
    res (bool * (pb_istream_t * pb_istream_t * mstate)) :=
  let! allocated_size := load_uint (mem ms) (it_pSize it) 4 in
  loop (S (Z.to_nat (is_bytes_left sub)))
    (fun '(sub, allocated_size, ms) =>
       if is_bytes_left sub =? 0 then Ret (inr (true, (s, sub, ms)))
       else
         let! size := load_uint (mem ms) (it_pSize it) 4 in
         if size =? PB_SIZE_MAX
         then Ret (inr (false, (is_set_errmsg s (Some "too many array entries"%string), sub, ms)))
         else
           let grow := allocated_size <? size + 1 in
           if grow && (pf_data_size f =? 0) then UB
           else
             let allocated_size :=
               if grow then grow_allocation allocated_size (is_bytes_left sub) (pf_data_size f)
               else allocated_size in
             let! (ok, (sub, ms)) :=
               (if grow then allocate_field sub (it_pData it) (pf_data_size f) allocated_size ms
                else Ret (true, (sub, ms))) in
             if negb ok then Ret (inr (false, (s, sub, ms)))
             else
               let! base := load_ptr (mem ms) (it_pData it) in
               let pItem := base + u32 (pf_data_size f * size) in
               let! ms := initialize_pointer_field f pItem ms in
               let! (ok, (sub, ms)) := call_decoder func sub f pItem ms in
               if negb ok then Ret (inr (false, (s, sub, ms)))
               else
                 let! size := load_uint (mem ms) (it_pSize it) 4 in
                 let! ms := store_uint ms (it_pSize it) 4 (size + 1) in
                 Ret (inl (sub, allocated_size, ms)))
    (sub, allocated_size, ms).

Definition decode_pointer_field (s : pb_istream_t) (wire_type : Z) (it : pb_field_iter_t)
    (ms : mstate) : dres :=
  let! f := it_field it in
  let type := pf_type f in
  let! func := decoder_for (PB_LTYPE type) in
  if (PB_HTYPE type =? PB_HTYPE_REQUIRED) || (PB_HTYPE type =? PB_HTYPE_OPTIONAL)
     || (PB_HTYPE type =? PB_HTYPE_ONEOF)
  then
    let! ms :=
      (if PB_LTYPE type =? PB_LTYPE_SUBMESSAGE then
         let! p := load_ptr (mem ms) (it_pData it) in
         if negb (p =? 0) then pb_release_single_field fuel it ms else Ret ms
       else Ret ms) in
    let! ms :=
      (if PB_HTYPE type =? PB_HTYPE_ONEOF then store_uint ms (it_pSize it) 4 (pf_tag f)
       else Ret ms) in
    if (PB_LTYPE type =? PB_LTYPE_STRING) || (PB_LTYPE type =? PB_LTYPE_BYTES)
    then call_decoder func s f (it_pData it) ms
    else
      let? (s, ms) := allocate_field s (it_pData it) (pf_data_size f) 1 ms in
      let! p := load_ptr (mem ms) (it_pData it) in
      let! ms := initialize_pointer_field f p ms in
      call_decoder func s f p ms
  else if PB_HTYPE type =? PB_HTYPE_REPEATED then
    if is_packed f wire_type then
      let! (sub, s) := pb_make_string_substream s in
      match sub with
      | None => Ret (false, (s, ms))
      | Some sub =>
          let! (status, (s, sub, ms)) := packed_pointer_items func f it s sub ms in
          let! (ok, s) := pb_close_string_substream s sub in
          Ret (ok && status, (s, ms))
      end
    else
      let! size := load_uint (mem ms) (it_pSize it) 4 in
      if size =? PB_SIZE_MAX then d_error s ms "too many array entries"
      else
        let? (s, ms) := allocate_field s (it_pData it) (pf_data_size f) (u32 (size + 1)) ms in
        let! base := load_ptr (mem ms) (it_pData it) in
        let! size := load_uint (mem ms) (it_pSize it) 4 in
        let pItem := base + u32 (pf_data_size f * size) in
        let! ms := store_uint ms (it_pSize it) 4 (size + 1) in
        let! ms := initialize_pointer_field f pItem ms in
        call_decoder func s f pItem ms
  else d_error s ms "invalid field type".

(** [do { callback } while (substream.bytes_left)]. *)
Definition callback_loop
    (cb : pb_istream_t -> pb_field_t -> Z -> mstate -> dres) (f : pb_field_t) (arg : Z)
    (sub : pb_istream_t) (ms : mstate) : dres :=
  loop fuel
    (fun '(sub, ms) =>
       let! (ok, (sub, ms)) := cb sub f arg ms in
       if negb ok then Ret (inr (false, (sub, ms)))
       else if is_bytes_left sub =? 0 then Ret (inr (true, (sub, ms)))
       else Ret (inl (sub, ms)))
    (sub, ms).

Definition decode_callback_field (s : pb_istream_t) (wire_type : Z) (it : pb_field_iter_t)
    (ms : mstate) : dres :=
  let! f := it_field it in
  let pCallback := it_pData it in
  let arg := pCallback + offsetof pb_callback_t (Mem "arg") in
  let! decode :=
    (if pCallback =? 0 then Ret 0
     else load_ptr (mem ms) (pCallback + offsetof pb_callback_t (Sub "funcs" "decode"))) in
  if decode =? 0 then
    let! (ok, s) := pb_skip_field s wire_type in Ret (ok, (s, ms))
  else
    match dec_field_callback decode with
    | None => UB
    | Some cb =>
        if wire_type =? PB_WT_STRING then
          let! (sub, s) := pb_make_string_substream s in
          match sub with
          | None => Ret (false, (s, ms))
          | Some sub =>
              let! (ok, (sub, ms)) := callback_loop cb f arg sub ms in
              if negb ok then d_error s ms "callback failed"
              else let! (ok, s) := pb_close_string_substream s sub in Ret (ok, (s, ms))
          end
        else
          let! (raw, s) := read_raw_value s wire_type 10 in
          match raw with
          | None => Ret (false, (s, ms))
          | Some buffer =>
              let! (ok, (_, ms)) := cb (pb_istream_from_buffer buffer (zlen buffer)) f arg ms in
              Ret (ok, (s, ms))
          end
    end.

(** When the oneof holds another member, release it; the iterator goes there
    and back. *)
Definition pb_release_union_field (s : pb_istream_t) (it : pb_field_iter_t) (ms : mstate) :
    res (bool * (pb_istream_t * pb_field_iter_t * mstate)) :=
  let! f := it_field it in
  let! old_tag := load_uint (mem ms) (it_pSize it) 4 in
  let new_tag := pf_tag f in
  if (old_tag =? 0) || (old_tag =? new_tag) then Ret (true, (s, it, ms))
  else
    let! (found, it) := pb_field_iter_find it old_tag in
    if negb found then Ret (false, (is_err s "invalid union tag", it, ms))
    else
      let! ms := pb_release_single_field fuel it ms in
      let! (found, it) := pb_field_iter_find it new_tag in
      if negb found then Ret (false, (is_err s "iterator error", it, ms))
      else Ret (true, (s, it, ms)).

(** [decode_field]; the iterator is the caller's, and may move. *)
Definition decode_field (s : pb_istream_t) (wire_type : Z) (it : pb_field_iter_t) (ms : mstate) :
    res (bool * (pb_istream_t * pb_field_iter_t * mstate)) :=
  let! f := it_field it in
  let? (s, it, ms) :=
    (if PB_HTYPE (pf_type f) =? PB_HTYPE_ONEOF then pb_release_union_field s it ms
     else Ret (true, (s, it, ms))) in
  let! f := it_field it in
  let atype := PB_ATYPE (pf_type f) in
  let! (ok, (s, ms)) :=
    (if atype =? PB_ATYPE_STATIC then decode_static_field s wire_type it ms
     else if atype =? PB_ATYPE_POINTER then decode_pointer_field s wire_type it ms
     else if atype =? PB_ATYPE_CALLBACK then decode_callback_field s wire_type it ms
     else d_error s ms "invalid field type") in
  Ret (ok, (s, it, ms)).

(** ** Extensions *)

Definition default_extension_decoder (s : pb_istream_t) (ext tag wire_type : Z) (ms : mstate) :
    dres :=
  let! fields := extension_fields (mem ms) ext in
  let! field := field_at fields 0 in
  if negb (pf_tag field =? tag) then Ret (true, (s, ms))
  else
    let! it := iter_from_extension (mem ms) ext in
    let! ms := store_uint ms (ext + offsetof pb_extension_t (Mem "found")) 1 1 in
    let! (ok, (s, _, ms)) := decode_field s wire_type it ms in
    Ret (ok, (s, ms)).

Definition decode_one_extension (s : pb_istream_t) (ext tag wire_type : Z) (ms : mstate) : dres :=
  let! type := load_ptr (mem ms) (ext + offsetof pb_extension_t (Mem "type")) in
  let! decode := load_ptr (mem ms) (type + offsetof pb_extension_type_t (Mem "decode")) in
  if decode =? 0 then default_extension_decoder s ext tag wire_type ms
  else
    match dec_extension_callback decode with
    | None => UB
    | Some f => f s ext tag wire_type ms
    end.

Definition decode_extension (s : pb_istream_t) (tag wire_type : Z) (it : pb_field_iter_t)
    (ms : mstate) : dres :=
  let! extension := load_ptr (mem ms) (it_pData it) in
  let pos := is_bytes_left s in
  loop fuel
    (fun '(ext, s, ms) =>
       if (ext =? 0) || negb (pos =? is_bytes_left s) then Ret (inr (true, (s, ms)))
       else
         let! (ok, (s, ms)) := decode_one_extension s ext tag wire_type ms in
         if negb ok then Ret (inr (false, (s, ms)))
         else let! next := extension_next (mem ms) ext in Ret (inl (next, s, ms)))
    (extension, s, ms).
End FieldDecoders.

(** ** Required fields *)

(** [fields_seen], one bit per required field. *)
Definition mark_seen (fields_seen : list Z) (index : Z) : list Z :=
  alter (fun w => Z.lor w (u32 (Z.shiftl 1 (Z.land index 31)))) (Z.to_nat (Z.shiftr index 5))
    fields_seen.

Definition allbits : Z := u32 (Z.lnot 0).

(** Whether all of the first [count] bits are set: whole words, then the
    remaining bits. *)
Definition check_seen (fields_seen : list Z) (count : Z) : res bool :=
  let words := Z.to_nat (Z.shiftr count 5) in
  if (length fields_seen <? words)%nat then UB
  else if negb (forallb (fun w => w =? allbits) (take words fields_seen)) then Ret false
  else if Z.land count 31 =? 0 then Ret true
  else
    match fields_seen !! words with
    | None => UB
    | Some w => Ret (w =? Z.shiftr allbits (32 - Z.land count 31))
    end.

(** The number of required fields, found by walking to the end of the array. *)
Definition count_required (it : pb_field_iter_t) : res Z :=
  let! (req_field_count, last_type, it) :=
    loop (S (length (it_start it)))
      (fun it =>
         let! f := it_field it in
         let! (more, it') := pb_field_iter_next it in
         Ret (if more then inl it' else inr (it_required_field_index it, pf_type f, it')))
      it in
  let! f := it_field it in
  let n :=
    if (PB_HTYPE last_type =? PB_HTYPE_REQUIRED) && negb (pf_tag f =? 0)
    then u32 (req_field_count + 1) else req_field_count in
  Ret (if PB_MAX_REQUIRED_FIELDS <? n then PB_MAX_REQUIRED_FIELDS else n).

(** ** The message loop *)

(** The locals of [pb_decode_noinit]: [fixed_count_field] is an index into the
    descriptor array, [None] for NULL. *)
Record decode_locals : Type := Locals {
  dl_iter : pb_field_iter_t;
  dl_fields_seen : list Z;
  dl_extension_range_start : Z;
  dl_fixed_count_field : option nat
}.

Definition dl_set_iter (l : decode_locals) (it : pb_field_iter_t) : decode_locals :=
  {| dl_iter := it; dl_fields_seen := dl_fields_seen l;
     dl_extension_range_start := dl_extension_range_start l;
     dl_fixed_count_field := dl_fixed_count_field l |}.

Definition dl_set_range_start (l : decode_locals) (n : Z) : decode_locals :=
  {| dl_iter := dl_iter l; dl_fields_seen := dl_fields_seen l;
     dl_extension_range_start := n; dl_fixed_count_field := dl_fixed_count_field l |}.

Section MessageLoop.
Context `{E : DecoderEnv} (fuel : nat).
Context (pb_decode_noinit :
  pb_istream_t -> list pb_field_t -> Z -> mstate -> res (bool * (pb_istream_t * mstate))).

Let step : Type := res (bool * (pb_istream_t * decode_locals * mstate)).

(** A tag no field has: an extension may take it, otherwise it is skipped. *)
Definition decode_unknown (s : pb_istream_t) (tag wire_type : Z) (l : decode_locals) (ms : mstate) :
    step :=
  let skip (l : decode_locals) (s : pb_istream_t) (ms : mstate) : step :=
    let! (ok, s) := pb_skip_field s wire_type in Ret (ok, (s, l, ms)) in
  if dl_extension_range_start l <=? tag then
    let! (found, it) := find_extension_field (dl_iter l) in
    let! f := it_field it in
    let start := if found then pf_tag f else u32 (-1) in
    let l := dl_set_range_start (dl_set_iter l it) start in
    if start <=? tag then
      let pos := is_bytes_left s in
      let? (s, l, ms) :=
        (let! (ok, (s, ms)) := decode_extension fuel pb_decode_noinit s tag wire_type it ms in
         Ret (ok, (s, l, ms))) in
      if negb (pos =? is_bytes_left s) then Ret (true, (s, l, ms)) else skip l s ms
    else skip l s ms
  else skip l s ms.

(** The expected number of entries of the fixed count field being received
    have arrived. *)
Definition fixed_count_complete (l : decode_locals) (fc : Z) (ms : mstate) : res bool :=
  match dl_fixed_count_field l with
  | None => Ret true
  | Some i =>
      let! g := field_at (it_start (dl_iter l)) i in
      let! n := load_uint (mem ms) fc 4 in
      Ret (n =? pf_array_size g)
  end.

(** A repeated field without a count member is counted in the local at [fc]. *)
Definition enter_fixed_count (s : pb_istream_t) (f : pb_field_t) (fc : Z) (l : decode_locals)
    (ms : mstate) : step :=
  let it := dl_iter l in
  if (PB_HTYPE (pf_type f) =? PB_HTYPE_REPEATED) && (it_pSize it =? it_pData it) then
    let? (s, l, ms) :=
      (if bool_decide (dl_fixed_count_field l = Some (it_pos it)) then Ret (true, (s, l, ms))
       else
         let! complete := fixed_count_complete l fc ms in
         if negb complete
         then Ret (false, (is_err s "wrong size for fixed count field", l, ms))
         else
           let! ms := store_uint ms fc 4 0 in
           Ret (true, (s,
             {| dl_iter := dl_iter l; dl_fields_seen := dl_fields_seen l;
                dl_extension_range_start := dl_extension_range_start l;
                dl_fixed_count_field := Some (it_pos it) |}, ms))) in
    Ret (true, (s, dl_set_iter l (it_set_pSize it fc), ms))
  else Ret (true, (s, l, ms)).

Definition note_required (f : pb_field_t) (l : decode_locals) : decode_locals :=
  if (PB_HTYPE (pf_type f) =? PB_HTYPE_REQUIRED)
     && (it_required_field_index (dl_iter l) <? PB_MAX_REQUIRED_FIELDS)
  then {| dl_iter := dl_iter l;
          dl_fields_seen := mark_seen (dl_fields_seen l) (it_required_field_index (dl_iter l));
          dl_extension_range_start := dl_extension_range_start l;
          dl_fixed_count_field := dl_fixed_count_field l |}
  else l.

Definition decode_known (s : pb_istream_t) (wire_type fc : Z) (l : decode_locals) (ms : mstate) :
    step :=
  let! f := it_field (dl_iter l) in
  let? (s, l, ms) := enter_fixed_count s f fc l ms in
  let l := note_required f l in
  let! (ok, (s, it, ms)) := decode_field fuel pb_decode_noinit s wire_type (dl_iter l) ms in
  Ret (ok, (s, dl_set_iter l it, ms)).

(** [while (stream->bytes_left) { ... }]: false is an early [return false]. *)
Definition decode_loop (fc : Z) (s : pb_istream_t) (l : decode_locals) (ms : mstate) : step :=
  loop (S (Z.to_nat (is_bytes_left s)))
    (fun '(s, l, ms) =>
       if is_bytes_left s =? 0 then Ret (inr (true, (s, l, ms)))
       else
         let! (tagged, eof, s) := pb_decode_tag s in
         match tagged with
         | None => Ret (inr (eof, (s, l, ms)))
         | Some (wire_type, tag) =>
             let! (found, it) := pb_field_iter_find (dl_iter l) tag in
             let l := dl_set_iter l it in
             let! (ok, st) :=
               (if found then decode_known s wire_type fc l ms
                else decode_unknown s tag wire_type l ms) in
             Ret (if ok then inl st else inr (false, st))
         end)
    (s, l, ms).

(** The checks after the loop. *)
Definition decode_finish (fc : Z) (s : pb_istream_t) (l : decode_locals) (ms : mstate) :
    res (bool * (pb_istream_t * mstate)) :=
  let! complete := fixed_count_complete l fc ms in
  if negb complete then d_error s ms "wrong size for fixed count field"
  else
    let! count := count_required (dl_iter l) in
    let! seen := check_seen (dl_fields_seen l) count in
    if seen then Ret (true, (s, ms)) else d_error s ms "missing required field".

(** The body of [pb_decode_noinit]; [fixed_count_size] is a local whose
    address is taken. *)
Definition decode_message (s : pb_istream_t) (fields : list pb_field_t) (dest : Z) (ms : mstate) :
    res (bool * (pb_istream_t * mstate)) :=
  let! (_, it) := pb_field_iter_begin fields dest in
  let '(fc, ms) := local_alloc ms (le_split 4 0) in
  let l :=
    {| dl_iter := it; dl_fields_seen := [0; 0]; dl_extension_range_start := 0;
       dl_fixed_count_field := None |} in
  let! (ok, (s, l, ms)) := decode_loop fc s l ms in
  let! (ok, (s, ms)) :=
    (if ok then decode_finish fc s l ms else Ret (false, (s, ms))) in
  Ret (ok, (s, local_free ms fc 4)).
End MessageLoop.

Fixpoint pb_decode_noinit `{DecoderEnv} (fuel : nat) (s : pb_istream_t) (fields : list pb_field_t)
    (dest : Z) (ms : mstate) : res (bool * (pb_istream_t * mstate)) :=
  match fuel with
  | O => OutOfFuel
  | S fuel => decode_message fuel (pb_decode_noinit fuel) s fields dest ms
  end.

Section DecodeApi.
Context `{DecoderEnv} (fuel : nat).

Let dres : Type := res (bool * (pb_istream_t * mstate)).

Definition pb_decode_top (s : pb_istream_t) (fields : list pb_field_t) (dest : Z) (ms : mstate) :
    dres :=
  pb_decode fuel (pb_decode_noinit fuel) s fields dest ms.

Definition delimited (decode : pb_istream_t -> mstate -> dres) (s : pb_istream_t) (ms : mstate) :
    dres :=
  let! (sub, s) := pb_make_string_substream s in
  match sub with
  | None => Ret (false, (s, ms))
  | Some substream =>
      let! (status, (substream, ms)) := decode substream ms in
      let! (ok, s) := pb_close_string_substream s substream in
      Ret (ok && status, (s, ms))
  end.

Definition pb_decode_delimited_noinit (s : pb_istream_t) (fields : list pb_field_t) (dest : Z)
    (ms : mstate) : dres :=
  delimited (fun sub ms => pb_decode_noinit fuel sub fields dest ms) s ms.

Definition pb_decode_delimited (s : pb_istream_t) (fields : list pb_field_t) (dest : Z)
    (ms : mstate) : dres :=
  delimited (fun sub ms => pb_decode_top sub fields dest ms) s ms.

Definition pb_decode_nullterminated (s : pb_istream_t) (fields : list pb_field_t) (dest : Z)
    (ms : mstate) : dres :=
  pb_decode_top s fields dest ms.
End DecodeApi.
