(* ===== verification/PbDecodeTotal.v ===== *)
(** * The decoder ends and stays within its input

    Whatever the bytes of the input and the contents of memory,
    [pb_decode_noinit] never runs out of fuel when the fuel exceeds the nesting
    depth of the message type by two: each round of its loops consumes input,
    each walk of the iterator ends, and each submessage is one level down.  When
    it succeeds, the stream it leaves is the input stream further on, within the
    limit it was given.  This covers message types without callback and
    extension fields, which is what the generated files contain. *)
From S2P Require Import Prelude WireSpec CMem CLayout PbH PbStream PbCommon PbDecodePrim PbPrimSpec PbDecode.
From Stdlib Require Import ZArith Lia.
From stdpp Require Import base tactics numbers list gmap strings.
#[local] Open Scope Z_scope.

(** ** Message types of bounded nesting *)

Definition plain (f : pb_field_t) : Prop :=
  field_ok f /\ PB_ATYPE (pf_type f) <> PB_ATYPE_CALLBACK /\ PB_LTYPE (pf_type f) <> PB_LTYPE_EXTENSION.

(** No callbacks, no extensions, and at most [n] levels of submessages. *)
Fixpoint nest_ok `{Descriptors} (n : nat) (fields : list pb_field_t) : Prop :=
  wf_table fields
  /\ Forall (fun f => plain f
       /\ (PB_LTYPE (pf_type f) = PB_LTYPE_SUBMESSAGE ->
           forall sub, descriptor_at (pf_ptr f) = Some sub ->
             match n with
             | O => False
             | S n => nest_ok n sub
             end)) fields.

(** The same as a computation. *)
Fixpoint nest_okb `{Descriptors} (n : nat) (fields : list pb_field_t) : bool :=
  wf_tableb fields
  && forallb (fun f =>
       field_okb f && negb (PB_ATYPE (pf_type f) =? PB_ATYPE_CALLBACK)
       && negb (PB_LTYPE (pf_type f) =? PB_LTYPE_EXTENSION)
       && (negb (PB_LTYPE (pf_type f) =? PB_LTYPE_SUBMESSAGE)
           || match descriptor_at (pf_ptr f) with
              | None => true
              | Some sub => match n with O => false | S n => nest_okb n sub end
              end)) fields.

Lemma nest_okb_spec `{Descriptors} n fields : nest_okb n fields = true -> nest_ok n fields.
Proof.
  revert fields; induction n as [|n IH]; intros fields Hn; cbn in *;
    apply andb_prop in Hn as [Hw Hf]; (split; [by apply wf_tableb_spec|]);
    apply Forall_forall; intros f Hin; rewrite forallb_forall in Hf;
    apply list_elem_of_In in Hin; specialize (Hf f Hin);
    apply andb_prop in Hf as [[[Hok%field_okb_spec Ha%negb_true_iff%Z.eqb_neq]%andb_prop
      He%negb_true_iff%Z.eqb_neq]%andb_prop Hs]; (split; [by split_and!|]); intros Hsub sub Hd; rewrite Hd in Hs;
    apply Z.eqb_eq in Hsub; rewrite Hsub in Hs; cbn in Hs; [done|by apply IH].
Qed.

(** ** Iterators anywhere in a table *)

Section Iterators.
Context (fields : list pb_field_t) (Hwf : wf_table fields).

(** The iterator is at a field; in an empty table, at its end marker. *)
Definition it_ok (it : pb_field_iter_t) : Prop :=
  it_start it = fields /\ (it_pos it < Nat.max 1 (field_count fields))%nat.

Lemma it_ok_field it :
  it_ok it -> it_field it = Ret (nth_field fields (it_pos it)).
Proof.
  intros [Hs Hp]. unfold it_field, field_at. rewrite Hs, (nth_field_lookup fields Hwf); [done|lia].
Qed.

Lemma it_ok_begin dest : exists more it,
  pb_field_iter_begin fields dest = Ret (more, it) /\ it_ok it /\ it_pos it = 0%nat.
Proof.
  rewrite iter_begin_at by done. eexists _, _. split; [done|].
  unfold it_ok. rewrite iter_at_start, iter_at_pos. split_and!; [done|lia|done].
Qed.

Lemma it_ok_next it :
  it_ok it -> exists more it', pb_field_iter_next it = Ret (more, it') /\ it_ok it'
    /\ it_pos it' = next_pos fields (it_pos it)
    /\ (more = true -> (S (it_pos it) < field_count fields)%nat).
Proof.
  intros Hok. pose proof Hok as [Hs Hp]. unfold pb_field_iter_next. rewrite it_ok_field by done.
  cbn [rbind]. unfold next_pos.
  destruct (Z.eqb_spec (pf_tag (nth_field fields (it_pos it))) 0) as [E|E].
  { assert (it_pos it = 0 /\ field_count fields = 0)%nat as [Hp0 Hn0].
    { destruct (decide (it_pos it < field_count fields)%nat) as [Hlt|]; [|lia].
      by apply (nth_field_tag fields Hwf) in Hlt. }
    eexists _, _. split; [done|]. rewrite Hn0, Hp0. split_and!; [done|done|done]. }
  assert (it_pos it < field_count fields)%nat as Hlt.
  { destruct (decide (it_pos it < field_count fields)%nat); [done|].
    exfalso. apply E. pose proof (nth_field_last fields Hwf) as Hl.
    replace (it_pos it) with (field_count fields) by lia. done. }
  unfold field_at. rewrite Hs, (nth_field_lookup fields Hwf) by lia. cbn [rbind].
  destruct (Nat.ltb_spec (S (it_pos it)) (field_count fields)) as [Hn|Hn].
  - destruct (Z.eqb_spec (pf_tag (nth_field fields (S (it_pos it)))) 0) as [E'|_];
      [by apply (nth_field_tag fields Hwf) in E'|].
    destruct (same_union _ _); eexists _, _; (split; [done|]); cbn;
      (split; [split; [done|cbn; lia]|done]).
  - replace (S (it_pos it)) with (field_count fields) by lia.
    rewrite (nth_field_last fields Hwf). cbn [Z.eqb].
    destruct (it_ok_begin (it_dest_struct it)) as (more & it0 & -> & Hok0 & Hp0). cbn [rbind].
    eexists _, _. split; [done|]. by rewrite Hp0.
Qed.

(** Any search round the table ends. *)
Lemma search_post (p : pb_field_t -> bool) it :
  it_ok it ->
  post (loop (S (length fields))
          (fun it' =>
             let! f := it_field it' in
             if p f then Ret (inr (true, it'))
             else
               let! (_, it') := pb_field_iter_next it' in
               if (it_pos it' =? it_pos it)%nat then Ret (inr (false, it')) else Ret (inl it'))
          it)
    (fun '(found, it') => it_ok it' /\ (found = true -> p (nth_field fields (it_pos it')) = true)).
Proof.
  intros Hok. set (n := field_count fields). set (i := it_pos it).
  apply (post_loop it_ok
    (fun it' => let q := it_pos it' in
       if (q =? i)%nat then n else if (i <? q)%nat then (n - (q - i))%nat else (i - q)%nat)); [|done|].
  - intros it' Hok'. rewrite it_ok_field by done. cbn [rbind].
    destruct (p _) eqn:Ep; [done|].
    destruct (it_ok_next it' Hok') as (more & it2 & -> & Hok2 & Hq & _). cbn [rbind].
    destruct (Nat.eqb_spec (it_pos it2) i) as [|Hne]; [done|]. split; [done|]. cbn zeta.
    destruct Hok as [_ Hi], Hok' as [_ Hq']. unfold next_pos in Hq. fold i in Hi. fold n in Hi, Hq', Hq.
    destruct (Nat.eqb_spec (it_pos it2) i); [done|].
    destruct (Nat.ltb_spec (S (it_pos it')) n), (Nat.ltb_spec i (it_pos it2)),
      (Nat.eqb_spec (it_pos it') i), (Nat.ltb_spec i (it_pos it')); lia.
  - cbn zeta. unfold i. rewrite Nat.eqb_refl. unfold n, field_count. lia.
Qed.

Lemma find_post it tag :
  it_ok it -> post (pb_field_iter_find it tag) (fun '(_, it') => it_ok it').
Proof.
  intros Hok. pose proof Hok as [Hs _]. unfold pb_field_iter_find. rewrite Hs.
  apply (post_mono _ _ _ (search_post
    (fun f => (pf_tag f =? tag) && negb (PB_LTYPE (pf_type f) =? PB_LTYPE_EXTENSION)) it Hok)).
  by intros [found it'] [? _].
Qed.

(** The walk over all the fields ends when what is done at each field does. *)
Lemma for_fields_post (f : pb_field_iter_t -> mstate -> res mstate) dest ms :
  (forall it ms, it_ok it -> terminates (f it ms)) -> terminates (for_fields f fields dest ms).
Proof.
  intros Hf. unfold for_fields. destruct (it_ok_begin dest) as (more & it & -> & Hok & Hp). cbn [rbind].
  destruct (negb more); [done|].
  apply (post_loop (fun '(it, _) => it_ok it) (fun '(it, _) => length fields - it_pos it)%nat);
    [|done|lia].
  intros [it' ms'] Hok'. apply post_let; [by apply Hf|]. intros ms2.
  destruct (it_ok_next it' Hok') as (more' & it2 & -> & Hok2 & Hq & Hm). cbn [rbind].
  destruct more'; [|done]. split; [done|]. specialize (Hm eq_refl). unfold next_pos in Hq.
  destruct (Nat.ltb_spec (S (it_pos it')) (field_count fields)); [|lia].
  unfold field_count in *. lia.
Qed.
End Iterators.

(** ** Defaults and release *)

(** Case analysis on the code: memory accesses end, conditions branch. *)
Ltac post_step :=
  lazymatch goal with
  | |- terminates _ => unfold terminates
  | |- post (Ret _) _ => done
  | |- post UB _ => done
  | |- post (rbind _ _) _ => apply post_let; [solve [auto with post]|intros ?]
  | |- post (if ?b then _ else _) _ => destruct b eqn:?
  | |- post (match ?x with _ => _ end) _ => destruct x eqn:?
  end.

Lemma field_at_post fields i : terminates (field_at fields i).
Proof. unfold field_at. by destruct (fields !! i). Qed.

Lemma submsg_fields_post `{Descriptors} p : terminates (submsg_fields p).
Proof. unfold submsg_fields. by destruct (descriptor_at p). Qed.

#[export] Hint Resolve field_at_post submsg_fields_post : post.

Section Memory.
Context `{Descriptors}.

Lemma nest_ok_wf n fields : nest_ok n fields -> wf_table fields.
Proof. by destruct n as [|n]; intros [? _]. Qed.

Lemma nest_ok_field n fields i :
  nest_ok n fields -> (i < Nat.max 1 (field_count fields))%nat -> plain (nth_field fields i).
Proof.
  intros Hn Hi. pose proof (nest_ok_wf _ _ Hn) as Hwf.
  assert (Forall plain fields) as Hp.
  { destruct n as [|n], Hn as [_ Hf]; eapply Forall_impl; [exact Hf|by intros f [? _]|
      exact Hf|by intros f [? _]]. }
  eapply Forall_lookup_1; [exact Hp|]. apply nth_field_lookup; [done|lia].
Qed.

(** A submessage is one level down. *)
Lemma nest_ok_sub n fields i sub :
  nest_ok n fields -> (i < Nat.max 1 (field_count fields))%nat ->
  PB_LTYPE (pf_type (nth_field fields i)) = PB_LTYPE_SUBMESSAGE ->
  submsg_fields (pf_ptr (nth_field fields i)) = Ret sub ->
  exists k, n = S k /\ nest_ok k sub.
Proof.
  intros Hn Hi Hl Hs. pose proof (nest_ok_wf _ _ Hn) as Hwf.
  pose proof (nth_field_lookup fields Hwf i ltac:(lia)) as Hlook.
  unfold submsg_fields in Hs. destruct (descriptor_at _) eqn:Ed; [|done]. injection Hs as ->.
  destruct n as [|n], Hn as [_ Hf];
    destruct (Forall_lookup_1 _ _ _ _ Hf Hlook) as [_ Hsub]; specialize (Hsub Hl sub Ed); [done|].
  by exists n.
Qed.

Lemma submsg_post n fields i (k : list pb_field_t -> res mstate) :
  nest_ok n fields -> (i < Nat.max 1 (field_count fields))%nat ->
  PB_LTYPE (pf_type (nth_field fields i)) = PB_LTYPE_SUBMESSAGE ->
  (forall j sub, n = S j -> nest_ok j sub -> terminates (k sub)) ->
  terminates (let! sub := submsg_fields (pf_ptr (nth_field fields i)) in k sub).
Proof.
  intros Hn Hi Hl Hk. destruct (submsg_fields _) as [sub| |] eqn:Es; [|done|].
  - destruct (nest_ok_sub n fields i sub Hn Hi Hl Es) as (j & -> & Hj). by apply (Hk j).
  - pose proof (submsg_fields_post (pf_ptr (nth_field fields i))) as Hp. by rewrite Es in Hp.
Qed.

Lemma set_default_post n fuel fields it ms :
  nest_ok n fields -> it_ok fields it -> (n < fuel)%nat ->
  terminates (pb_field_set_to_default fuel it ms).
Proof.
  revert n fields it ms; induction fuel as [|fuel IH]; intros n fields it ms Hn Hit Hf; [lia|].
  cbn [pb_field_set_to_default]. pose proof (nest_ok_wf _ _ Hn) as Hwf.
  rewrite (it_ok_field fields Hwf it Hit). cbn [rbind]. pose proof Hit as [_ Hpos].
  destruct (nest_ok_field n fields (it_pos it) Hn Hpos) as (_ & _ & Hext).
  destruct (Z.eqb_spec (PB_LTYPE (pf_type (nth_field fields (it_pos it)))) PB_LTYPE_EXTENSION); [done|].
  assert (forall ms, terminates (init_static_data (for_fields (pb_field_set_to_default fuel))
            (nth_field fields (it_pos it)) (it_pData it) ms)) as Hinit.
  { intros ms'. unfold init_static_data.
    destruct (Z.eqb_spec (PB_LTYPE (pf_type (nth_field fields (it_pos it)))) PB_LTYPE_SUBMESSAGE) as [El|].
    - apply (submsg_post n); [done|done|done|]. intros j sub -> Hj.
      apply for_fields_post; [by eapply nest_ok_wf|]. intros it' ms2 Hit'. apply (IH j sub); [done|done|lia].
    - unfold terminates. repeat post_step; auto with post. }
  unfold terminates. repeat (post_step || apply Hinit || auto with post).
Qed.

Lemma message_defaults_post n fuel fields dest ms :
  nest_ok n fields -> (n < fuel)%nat -> terminates (pb_message_set_to_defaults fuel fields dest ms).
Proof.
  intros Hn Hf. apply for_fields_post; [by eapply nest_ok_wf|]. intros it ms' Hit.
  by apply (set_default_post n fuel fields).
Qed.

Lemma release_items_post (release : Z -> mstate -> res mstate) k p size ms :
  (forall p ms, terminates (release p ms)) -> terminates (release_items release k p size ms).
Proof.
  intros Hr. revert p ms; induction k as [|k IH]; intros p ms; [done|]. cbn [release_items].
  apply post_let; [apply Hr|]. intros ms'. apply IH.
Qed.

Lemma free_entry_post p ms : terminates (free_entry p ms).
Proof. unfold free_entry, terminates. repeat post_step; auto with post. Qed.

Lemma release_pointer_post f it ms : terminates (release_pointer f it ms).
Proof.
  unfold release_pointer, terminates. destruct (_ =? _); [|done].
  apply post_let.
  { unfold terminates. destruct (_ && _); [|done]. repeat post_step. apply release_items_post, free_entry_post. }
  intros ms1. apply post_let; [destruct (_ =? _); [apply store_uint_post|done]|].
  intros ms2. repeat post_step; auto with post.
Qed.

Lemma submsg_count_post f it ms : terminates (submsg_count f it ms).
Proof.
  unfold submsg_count, terminates. post_step; [|done].
  apply post_let; [destruct (_ && _); [done|apply load_uint_post]|done].
Qed.

Lemma release_single_post n fuel fields it ms :
  nest_ok n fields -> it_ok fields it -> (n < fuel)%nat ->
  terminates (pb_release_single_field fuel it ms).
Proof.
  revert n fields it ms; induction fuel as [|fuel IH]; intros n fields it ms Hn Hit Hf; [lia|].
  cbn [pb_release_single_field]. pose proof (nest_ok_wf _ _ Hn) as Hwf.
  rewrite (it_ok_field fields Hwf it Hit). cbn [rbind]. pose proof Hit as [_ Hpos].
  destruct (nest_ok_field n fields (it_pos it) Hn Hpos) as (_ & _ & Hext).
  apply post_let.
  { destruct (_ =? _); [|done]. apply post_let; [apply load_uint_post|done]. }
  intros current. destruct (negb current); [done|].
  apply post_let; [|intros ms1; apply release_pointer_post].
  destruct (Z.eqb_spec (PB_LTYPE (pf_type (nth_field fields (it_pos it)))) PB_LTYPE_EXTENSION); [done|].
  destruct (Z.eqb_spec (PB_LTYPE (pf_type (nth_field fields (it_pos it)))) PB_LTYPE_SUBMESSAGE) as [El|];
    cbn [andb]; [|done].
  destruct (negb _); [|done].
  apply post_let; [destruct (_ =? _); [apply load_ptr_post|done]|]. intros pItem.
  apply post_let; [apply submsg_count_post|]. intros count. destruct (pItem =? 0); [done|].
  apply release_items_post. intros p ms2. destruct (p =? 0); [done|].
  apply (submsg_post n); [done|done|done|]. intros j sub -> Hj.
  apply for_fields_post; [by eapply nest_ok_wf|]. intros it' ms3 Hit'. apply (IH j sub); [done|done|lia].
Qed.

Lemma release_post n fuel fields dest ms :
  nest_ok n fields -> (n < fuel)%nat -> terminates (pb_release fuel fields dest ms).
Proof.
  intros Hn Hf. unfold pb_release. destruct (dest =? 0); [done|].
  apply for_fields_post; [by eapply nest_ok_wf|]. intros it ms' Hit.
  by apply (release_single_post n fuel fields).
Qed.
End Memory.

(** ** Field decoders *)

Lemma left_of_bytes `{UserStreams} k avail beyond s :
  left_of k avail beyond s -> (Z.to_nat (is_bytes_left s) + k <= length avail)%nat.
Proof.
  intros (pre & avail' & e & -> & Hk & ->). cbn [is_bytes_left reader]. rewrite length_app.
  unfold zlen. lia.
Qed.

Section Decoders.
Context `{E : DecoderEnv} (fuel n : nat) (Hfuel : (n < fuel)%nat).
Context (pb_decode_noinit :
  pb_istream_t -> list pb_field_t -> Z -> mstate -> res (bool * (pb_istream_t * mstate))).

(** Success means that at least [k] bytes of [avail] were consumed. *)
Definition progress (k : nat) (avail beyond : list Z) (r : bool * (pb_istream_t * mstate)) : Prop :=
  let '(ok, (s, _)) := r in ok = true -> left_of k avail beyond s.

Hypothesis Hrec : forall j sub avail beyond e dest ms,
  n = S j -> nest_ok j sub -> Forall is_byte (avail ++ beyond) ->
  post (pb_decode_noinit (reader avail beyond e) sub dest ms) (progress 0 avail beyond).

Lemma reads_post {A B} k avail beyond (P : A -> Prop) m
    (body : option A -> pb_istream_t -> res B) (Q : B -> Prop) :
  reads k avail beyond P m ->
  (forall v s, P v -> left_of k avail beyond s -> post (body (Some v) s) Q) ->
  (forall s, post (body None s) Q) ->
  post (let! (o, s) := m in body o s) Q.
Proof. intros ([v|] & s & -> & _ & Hv) Hs Hn; cbn [rbind]; [destruct Hv; by apply Hs|apply Hn]. Qed.

Lemma bool_reads avail beyond e :
  Forall is_byte (avail ++ beyond) ->
  reads 1 avail beyond (fun _ => True) (pb_decode_bool (reader avail beyond e)).
Proof.
  intros Hb. unfold pb_decode_bool.
  destruct (varint32_reads avail beyond e Hb) as ([v|] & s & -> & Hs & Hv); cbn [rbind];
    eexists _, _; (split; [done|]); [|done]. split; [done|]. split; [done|apply Hv].
Qed.

Lemma svarint_reads avail beyond e :
  Forall is_byte (avail ++ beyond) ->
  reads 1 avail beyond (fun _ => True) (pb_decode_svarint (reader avail beyond e)).
Proof.
  intros Hb. unfold pb_decode_svarint.
  destruct (varint_total avail beyond e Hb) as ([v|] & s & -> & Hs & Hv); cbn [rbind].
  - destruct (negb _); eexists _, _; (split; [done|]); (split; [done|]); (split; [done|apply Hv]).
  - eexists _, _. by split.
Qed.

Lemma fixed32_reads avail beyond e :
  Forall is_byte (avail ++ beyond) ->
  reads 1 avail beyond (fun _ => True) (pb_decode_fixed32 (reader avail beyond e)).
Proof.
  intros Hb. unfold pb_decode_fixed32.
  destruct (read_total true 4 avail beyond e Hb) as (ok & bs & s & -> & Hs & _ & _ & Hok); [lia|].
  cbn [rbind]. destruct ok; cbn [negb]; [|by eexists _, _]. destruct (Hok eq_refl) as [Hl Hz].
  specialize (Hz eq_refl).
  destruct bs as [|? [|? [|? [|? [|? ?]]]]]; unfold zlen in Hz; cbn in Hz; try lia.
  eexists _, _. split; [done|]. split; [done|]. split; [done|]. eapply left_of_weaken; [|exact Hl]. lia.
Qed.

Lemma fixed64_reads avail beyond e :
  Forall is_byte (avail ++ beyond) ->
  reads 1 avail beyond (fun _ => True) (pb_decode_fixed64 (reader avail beyond e)).
Proof.
  intros Hb. unfold pb_decode_fixed64.
  destruct (read_total true 8 avail beyond e Hb) as (ok & bs & s & -> & Hs & _ & _ & Hok); [lia|].
  cbn [rbind]. destruct ok; cbn [negb]; [|by eexists _, _]. destruct (Hok eq_refl) as [Hl Hz].
  specialize (Hz eq_refl).
  destruct bs as [|? [|? [|? [|? [|? [|? [|? [|? [|? ?]]]]]]]]]; unfold zlen in Hz; cbn in Hz; try lia.
  eexists _, _. split; [done|]. split; [done|]. split; [done|]. eapply left_of_weaken; [|exact Hl]. lia.
Qed.

Lemma d_error_post s ms msg (k : nat) avail beyond : post (d_error s ms msg) (progress k avail beyond).
Proof. intros [=]. Qed.
#[local] Hint Resolve d_error_post : core.

Lemma store_clamped_post s dest w c v ms k avail beyond :
  left_of k avail beyond s -> post (store_clamped s dest w c v ms) (progress k avail beyond).
Proof.
  intros Hs. unfold store_clamped. apply post_let; [apply store_uint_post|]. intros ms'.
  destruct (negb _); [done|]. by intros _.
Qed.

(** The scalar decoders. *)
Lemma dec_scalar_post avail beyond e f dest ms :
  Forall is_byte (avail ++ beyond) ->
  Forall (fun dec : pb_istream_t -> pb_field_t -> Z -> mstate -> _ =>
            post (dec (reader avail beyond e) f dest ms) (progress 1 avail beyond))
    [pb_dec_bool; pb_dec_varint; pb_dec_uvarint; pb_dec_svarint; pb_dec_fixed32; pb_dec_fixed64].
Proof.
  intros Hb. repeat apply Forall_cons_2; [| | | | | |apply Forall_nil_2].
  - apply (reads_post _ _ _ _ _ _ _ (bool_reads avail beyond e Hb)); [|done].
    intros v s _ Hs. apply post_let; [apply store_uint_post|by intros ? _].
  - apply (reads_post _ _ _ _ _ _ _ (varint_total avail beyond e Hb)); [|done].
    intros v s _ Hs. cbn zeta. repeat post_step; first [by apply store_clamped_post|done].
  - apply (reads_post _ _ _ _ _ _ _ (varint_total avail beyond e Hb)); [|done].
    intros v s _ Hs. cbn zeta. repeat post_step; first [by apply store_clamped_post|done].
  - apply (reads_post _ _ _ _ _ _ _ (svarint_reads avail beyond e Hb)); [|done].
    intros v s _ Hs. cbn zeta. repeat post_step; first [by apply store_clamped_post|done].
  - apply (reads_post _ _ _ _ _ _ _ (fixed32_reads avail beyond e Hb)); [|done].
    intros v s _ Hs. apply post_let; [apply store_uint_post|by intros ? _].
  - apply (reads_post _ _ _ _ _ _ _ (fixed64_reads avail beyond e Hb)); [|done].
    intros v s _ Hs. apply post_let; [apply store_uint_post|by intros ? _].
Qed.

Lemma allocate_field_post s pData size count ms :
  post (allocate_field s pData size count ms) (fun '(ok, (s', _)) => ok = true -> s' = s).
Proof.
  unfold allocate_field. repeat post_step; done.
Qed.

(** Reading into memory after [k] bytes. *)
Lemma read_to_post avail beyond s a count ms :
  Forall is_byte (avail ++ beyond) -> left_of 1 avail beyond s -> 0 <= count ->
  post (pb_read_to s a count ms) (progress 1 avail beyond).
Proof.
  intros Hb (pre & avail' & e & -> & Hp & ->) Hc. apply bytes_after in Hb. unfold pb_read_to.
  destruct (read_total (negb (a =? 0)) count avail' beyond e Hb Hc) as (ok & bs & s & -> & _ & _ & _ & Hok).
  cbn [rbind]. apply post_let; [apply store_bytes_post|]. intros ms' ->.
  destruct (Hok eq_refl) as [Hl _].
  eapply left_of_weaken; [|by eapply left_of_trans; [done|exact Hp|exact Hl]]. lia.
Qed.

Lemma dec_bytes_post avail beyond e f dest ms :
  Forall is_byte (avail ++ beyond) ->
  post (pb_dec_bytes (reader avail beyond e) f dest ms) (progress 1 avail beyond).
Proof.
  intros Hb. apply (reads_post _ _ _ _ _ _ _ (varint32_reads avail beyond e Hb)); [|done].
  intros size s Hsize Hs. cbn zeta.
  assert (forall p ms, post (let! ms := store_uint ms p 4 size in
            pb_read_to s (p + offsetof pb_bytes_array_t (Mem "bytes")) size ms) (progress 1 avail beyond))
    as Hfill.
  { intros p ms'. apply post_let; [apply store_uint_post|]. intros ms2. apply read_to_post; [done|done|lia]. }
  destruct (_ <? _); [done|]. destruct (_ <? _); [done|]. destruct (_ =? _).
  - apply (post_ok _ _ _ _ (allocate_field_post s dest _ 1 ms)); [|by intros [? ?] ? [=]].
    intros [s' ms'] Hs'. rewrite (Hs' eq_refl). apply post_let; [apply load_ptr_post|]. intros p. apply Hfill.
  - destruct (_ <? _); [done|apply Hfill].
Qed.

Lemma dec_string_post avail beyond e f dest ms :
  Forall is_byte (avail ++ beyond) ->
  post (pb_dec_string (reader avail beyond e) f dest ms) (progress 1 avail beyond).
Proof.
  intros Hb. apply (reads_post _ _ _ _ _ _ _ (varint32_reads avail beyond e Hb)); [|done].
  intros size s Hsize Hs. cbn zeta.
  assert (forall p ms, post (let! (status, (s, ms)) := pb_read_to s p size ms in
            let! ms := store_uint ms (p + size) 1 0 in Ret (status, (s, ms))) (progress 1 avail beyond))
    as Hfill.
  { intros p ms'. eapply post_bind; [apply read_to_post; [done|done|lia]|].
    intros [status [s' ms2]] Hs'. apply post_let; [apply store_uint_post|]. intros ms3. exact Hs'. }
  destruct (_ <? _); [done|]. destruct (_ =? _).
  - apply (post_ok _ _ _ _ (allocate_field_post s dest _ 1 ms)); [|by intros [? ?] ? [=]].
    intros [s' ms'] Hs'. rewrite (Hs' eq_refl). apply post_let; [apply load_ptr_post|]. intros p. apply Hfill.
  - destruct (_ <? _); [done|apply Hfill].
Qed.

Lemma dec_fixed_bytes_post avail beyond e f dest ms :
  Forall is_byte (avail ++ beyond) -> field_ok f ->
  post (pb_dec_fixed_length_bytes (reader avail beyond e) f dest ms) (progress 1 avail beyond).
Proof.
  intros Hb Hok. apply (reads_post _ _ _ _ _ _ _ (varint32_reads avail beyond e Hb)); [|done].
  intros size s Hsize Hs. destruct (_ <? _); [done|]. destruct (_ =? _).
  - apply post_let; [apply memset0_post|by intros ? _].
  - destruct (negb _); [done|]. apply read_to_post; [done|done|apply Hok].
Qed.
(** A field of a message of nesting [n]. *)
Definition field_nests (f : pb_field_t) : Prop :=
  plain f
  /\ (PB_LTYPE (pf_type f) = PB_LTYPE_SUBMESSAGE ->
      forall sub, submsg_fields (pf_ptr f) = Ret sub -> exists j, n = S j /\ nest_ok j sub).

Lemma nest_ok_nests fields i :
  nest_ok n fields -> (i < Nat.max 1 (field_count fields))%nat -> field_nests (nth_field fields i).
Proof.
  intros Hn Hi. split; [by apply (nest_ok_field n)|]. intros Hl sub Hs. by apply (nest_ok_sub n fields i).
Qed.

Lemma field_sub_post {A} f (k : list pb_field_t -> res A) (Q : A -> Prop) :
  field_nests f -> PB_LTYPE (pf_type f) = PB_LTYPE_SUBMESSAGE ->
  (forall j sub, n = S j -> nest_ok j sub -> post (k sub) Q) ->
  post (let! sub := submsg_fields (pf_ptr f) in k sub) Q.
Proof.
  intros [_ Hs] Hl Hk. specialize (Hs Hl). pose proof (submsg_fields_post (pf_ptr f)) as Hp.
  destruct (submsg_fields (pf_ptr f)) as [sub| |]; [|done|done]. cbn [rbind].
  destruct (Hs sub eq_refl) as (j & Hj & Hsub). by apply (Hk j).
Qed.

Lemma decode_post j sub avail beyond e dest ms :
  n = S j -> nest_ok j sub -> Forall is_byte (avail ++ beyond) ->
  post (pb_decode fuel pb_decode_noinit (reader avail beyond e) sub dest ms) (progress 0 avail beyond).
Proof.
  intros Hj Hsub Hb. unfold pb_decode.
  apply post_let; [apply (message_defaults_post j); [done|lia]|]. intros ms1.
  apply (post_bind _ _ _ _ (Hrec j sub avail beyond e dest ms1 Hj Hsub Hb)).
  intros [[] [s' ms2]] Hp; [done|].
  apply post_let; [apply (release_post j); [done|lia]|by intros ? [=]].
Qed.

Lemma dec_submessage_post avail beyond e f dest ms :
  field_nests f -> PB_LTYPE (pf_type f) = PB_LTYPE_SUBMESSAGE -> Forall is_byte (avail ++ beyond) ->
  post (pb_dec_submessage fuel pb_decode_noinit (reader avail beyond e) f dest ms)
    (progress 1 avail beyond).
Proof.
  intros Hf Hl Hb. unfold pb_dec_submessage.
  destruct (substream_total avail beyond e Hb) as ([sub|] & s & -> & Hs); cbn [rbind]; [|done].
  destruct Hs as (d & beyond' & e' & -> & Hd & Hclose).
  destruct (pf_ptr f =? 0); [done|]. apply field_sub_post; [done|done|]. intros j sub Hj Hsub.
  eapply post_bind.
  { destruct (_ =? _); [by apply (decode_post j)|by apply (Hrec j)]. }
  intros [[] [sub' ms']] Hp.
  - destruct (Hclose (is_errmsg s) sub' (Hp eq_refl)) as (s' & Hc & Hl').
    replace (is_set_errmsg s (is_errmsg s)) with s in Hc by by destruct s. rewrite Hc. by intros _.
  - apply post_let; [apply close_post|]. intros [[] s'] [=].
Qed.

Lemma decoder_post func avail beyond e f dest ms :
  field_nests f -> decoder_for fuel pb_decode_noinit (PB_LTYPE (pf_type f)) = Ret func ->
  Forall is_byte (avail ++ beyond) ->
  post (call_decoder func (reader avail beyond e) f dest ms) (progress 1 avail beyond).
Proof.
  intros Hf Hfunc Hb. pose proof (dec_scalar_post avail beyond e f dest ms Hb) as Hs.
  repeat (apply Forall_cons in Hs as [? Hs]). clear Hs.
  pose proof (dec_bytes_post avail beyond e f dest ms Hb).
  pose proof (dec_string_post avail beyond e f dest ms Hb).
  pose proof (dec_fixed_bytes_post avail beyond e f dest ms Hb (proj1 (proj1 Hf))).
  pose proof (fun Hl => dec_submessage_post avail beyond e f dest ms Hf Hl Hb) as Hsub.
  revert Hfunc Hsub. apply (ltype_cases f). intros k Hk.
  do 16 (destruct k as [|k]; [intros [= <-] Hsub; cbn [call_decoder];
    first [assumption|by apply Hsub|done]|]). lia.
Qed.

(** ** One field *)

Lemma packed_static_post func d beyond s f it ms :
  field_nests f -> decoder_for fuel pb_decode_noinit (PB_LTYPE (pf_type f)) = Ret func ->
  Forall is_byte (d ++ beyond) -> left_of 0 d beyond s ->
  post (packed_static_items func f it s ms) (progress 0 d beyond).
Proof.
  intros Hf Hfunc Hb Hs. unfold packed_static_items.
  apply (post_loop (fun '(sub, _) => left_of 0 d beyond sub)
    (fun '(sub, _) => Z.to_nat (is_bytes_left sub))); [|done|lia].
  intros [sub ms1] Hsub. destruct (Z.ltb_spec 0 (is_bytes_left sub)); [|by intros _].
  apply post_let; [apply load_uint_post|]. intros size. destruct (_ <? _); [|by intros _].
  pose proof Hsub as (pre & a & e & -> & Hpre & ->). apply bytes_after in Hb.
  eapply post_bind; [by apply decoder_post|].
  intros [[] [sub' ms2]] Hp; [|by intros [=]]. cbn [negb].
  apply post_let; [apply load_uint_post|]. intros size'.
  apply post_let; [apply store_uint_post|]. intros ms3. specialize (Hp eq_refl).
  split; [eapply left_of_weaken; [|eapply left_of_trans; [done|exact Hpre|exact Hp]]; lia|].
  apply left_of_bytes in Hp. cbn [is_bytes_left reader]. unfold zlen. lia.
Qed.

Lemma close_after avail beyond s d beyond' sub status (ms : mstate) :
  (forall e1 sub', left_of 0 d beyond' sub' ->
     exists s', pb_close_string_substream (is_set_errmsg s e1) sub' = Ret (true, s')
                /\ left_of 1 avail beyond s') ->
  (status = true -> left_of 0 d beyond' sub) ->
  forall e1,
  post (let! (ok, s) := pb_close_string_substream (is_set_errmsg s e1) sub in
        Ret (ok && status, (s, ms))) (progress 1 avail beyond).
Proof.
  intros Hclose Hs e1. destruct status.
  - destruct (Hclose e1 sub (Hs eq_refl)) as (s' & -> & Hl). by intros _.
  - apply post_let; [apply close_post|]. intros [[] s'] [=].
Qed.

Lemma init_pointer_post f p ms : field_nests f -> terminates (initialize_pointer_field fuel f p ms).
Proof.
  intros Hf. unfold initialize_pointer_field. destruct (_ || _); [apply store_ptr_post|].
  destruct (Z.eqb_spec (PB_LTYPE (pf_type f)) PB_LTYPE_SUBMESSAGE); [|done].
  apply post_let; [apply memset0_post|]. intros ms'.
  apply field_sub_post; [done|done|]. intros j sub -> Hsub. apply (message_defaults_post j); [done|lia].
Qed.

Lemma static_field_post fields it avail beyond e wt ms :
  wf_table fields -> it_ok fields it -> field_nests (nth_field fields (it_pos it)) ->
  Forall is_byte (avail ++ beyond) ->
  post (decode_static_field fuel pb_decode_noinit (reader avail beyond e) wt it ms)
    (progress 1 avail beyond).
Proof.
  intros Hwf Hit Hf Hb. unfold decode_static_field. rewrite (it_ok_field fields Hwf it Hit). cbn [rbind].
  set (f := nth_field fields (it_pos it)) in *.
  destruct (decoder_for _ _ _) as [func| |] eqn:Hfunc; cbn [rbind]; [|done|].
  2: { revert Hfunc. apply (ltype_cases f). intros k Hk. do 16 (destruct k as [|k]; [done|]). lia. }
  pose proof (fun ms dest => decoder_post func avail beyond e f dest ms Hf Hfunc Hb) as Hdec.
  destruct (_ =? PB_HTYPE_REQUIRED); [apply Hdec|].
  destruct (_ =? PB_HTYPE_OPTIONAL).
  { apply post_let; [destruct (negb _); [apply store_uint_post|done]|]. intros ms'. apply Hdec. }
  destruct (_ =? PB_HTYPE_REPEATED).
  { destruct (is_packed f wt).
    - destruct (substream_total avail beyond e Hb) as ([sub|] & s & -> & Hs); cbn [rbind]; [|done].
      destruct Hs as (d & beyond' & e' & -> & Hd & Hclose).
      eapply post_bind; [apply (packed_static_post func d beyond'); try done; apply left_of_refl|].
      intros [status [sub ms1]] Hp. destruct (negb _); [done|].
      pose proof (close_after avail beyond s d beyond' sub status ms1 Hclose Hp (is_errmsg s)) as Hc.
      by replace (is_set_errmsg s (is_errmsg s)) with s in Hc by by destruct s.
    - apply post_let; [apply load_uint_post|]. intros size. cbn zeta.
      apply post_let; [apply store_uint_post|]. intros ms'. destruct (_ <=? _); [done|apply Hdec]. }
  destruct (_ =? PB_HTYPE_ONEOF); [|done].
  apply post_let; [|intros ms1; apply post_let; [apply store_uint_post|intros ms2; apply Hdec]].
  destruct (Z.eqb_spec (PB_LTYPE (pf_type f)) PB_LTYPE_SUBMESSAGE); [|done].
  apply post_let; [apply load_uint_post|]. intros which. destruct (negb _); [|done].
  apply post_let; [apply memset0_post|]. intros ms'.
  apply field_sub_post; [done|done|]. intros j sub -> Hsub. apply (message_defaults_post j); [done|lia].
Qed.

Lemma packed_pointer_post func d beyond s0 sub f it ms :
  field_nests f -> decoder_for fuel pb_decode_noinit (PB_LTYPE (pf_type f)) = Ret func ->
  Forall is_byte (d ++ beyond) -> left_of 0 d beyond sub ->
  post (packed_pointer_items fuel func f it s0 sub ms)
    (fun '(ok, (s', sub', _)) =>
       (exists e1, s' = is_set_errmsg s0 e1) /\ (ok = true -> left_of 0 d beyond sub')).
Proof.
  intros Hf Hfunc Hb Hs. unfold packed_pointer_items.
  assert (s0 = is_set_errmsg s0 (is_errmsg s0)) as Es by by destruct s0.
  apply post_let; [apply load_uint_post|]. intros alloc0.
  apply (post_loop (fun '(sub, _, _) => left_of 0 d beyond sub)
    (fun '(sub, _, _) => Z.to_nat (is_bytes_left sub))); [|done|lia].
  intros [[sub1 alloc] ms1] Hsub.
  destruct (_ =? 0); [by split; [eexists|intros _]|].
  apply post_let; [apply load_uint_post|]. intros size.
  destruct (_ =? PB_SIZE_MAX); [by split; [eexists|intros [=]]|]. cbn zeta.
  destruct (_ && _); [done|]. set (grow := alloc <? size + 1).
  apply (post_bind _ _ (fun '(ok, (s', _)) => ok = true -> s' = sub1)).
  { destruct grow; [apply allocate_field_post|by intros _]. }
  intros [[] [sub2 ms2]] Hok; cbn [negb]; [|split; [by eexists|intros [=]]].
  rewrite (Hok eq_refl). clear Hok.
  apply post_let; [apply load_ptr_post|]. intros base.
  apply post_let; [by apply init_pointer_post|]. intros ms3.
  pose proof Hsub as (pre & a & e & -> & Hpre & ->). apply bytes_after in Hb.
  eapply post_bind; [by apply decoder_post|].
  intros [[] [sub' ms4]] Hp; cbn [negb]; [|split; [by eexists|intros [=]]].
  apply post_let; [apply load_uint_post|]. intros size'.
  apply post_let; [apply store_uint_post|]. intros ms5. specialize (Hp eq_refl).
  split; [eapply left_of_weaken; [|eapply left_of_trans; [done|exact Hpre|exact Hp]]; lia|].
  apply left_of_bytes in Hp. cbn [is_bytes_left reader]. unfold zlen. lia.
Qed.
Lemma decoder_for_post ltype : terminates (decoder_for fuel pb_decode_noinit ltype).
Proof. unfold decoder_for. by destruct (_ !! _). Qed.

(** What follows a successful allocation. *)
Lemma allocated_post pData size count avail beyond e ms
    (k : pb_istream_t -> Z -> mstate -> res (bool * (pb_istream_t * mstate))) :
  (forall p ms, post (k (reader avail beyond e) p ms) (progress 1 avail beyond)) ->
  post (let? (s, ms) := allocate_field (reader avail beyond e) pData size count ms in
        let! p := load_ptr (mem ms) pData in k s p ms) (progress 1 avail beyond).
Proof.
  intros Hk.
  apply (post_ok _ _ _ _ (allocate_field_post (reader avail beyond e) pData size count ms));
    [|by intros [? ?] ? [=]].
  intros [s' ms'] Hs'. rewrite (Hs' eq_refl). apply post_let; [apply load_ptr_post|]. intros p. apply Hk.
Qed.

Lemma init_and_decode_post func f p avail beyond e ms :
  field_nests f -> decoder_for fuel pb_decode_noinit (PB_LTYPE (pf_type f)) = Ret func ->
  Forall is_byte (avail ++ beyond) ->
  post (let! ms := initialize_pointer_field fuel f p ms in
        call_decoder func (reader avail beyond e) f p ms) (progress 1 avail beyond).
Proof.
  intros Hf Hfunc Hb. apply post_let; [by apply init_pointer_post|]. intros ms2. by apply decoder_post.
Qed.

Lemma pointer_field_post fields it avail beyond e wt ms :
  nest_ok n fields -> it_ok fields it -> Forall is_byte (avail ++ beyond) ->
  post (decode_pointer_field fuel pb_decode_noinit (reader avail beyond e) wt it ms)
    (progress 1 avail beyond).
Proof.
  intros Hn Hit Hb. pose proof (nest_ok_wf _ _ Hn) as Hwf. pose proof Hit as [_ Hpos].
  pose proof (nest_ok_nests fields (it_pos it) Hn Hpos) as Hf.
  unfold decode_pointer_field. rewrite (it_ok_field fields Hwf it Hit). cbn [rbind].
  set (f := nth_field fields (it_pos it)) in *.
  destruct (decoder_for _ _ _) as [func| |] eqn:Hfunc; cbn [rbind]; [|done|].
  2: { pose proof (decoder_for_post (PB_LTYPE (pf_type f))) as Hp. by rewrite Hfunc in Hp. }
  destruct (_ || _).
  { apply post_let.
    { destruct (_ =? _); [|done]. apply post_let; [apply load_ptr_post|]. intros p.
      destruct (negb _); [|done]. by apply (release_single_post n fuel fields). }
    intros ms1. apply post_let; [destruct (_ =? _); [apply store_uint_post|done]|]. intros ms2.
    destruct (_ || _); [by apply decoder_post|].
    apply (allocated_post _ _ _ _ _ _ _ (fun s p ms => let! ms := initialize_pointer_field fuel f p ms in
      call_decoder func s f p ms)). intros p ms3. by apply init_and_decode_post. }
  destruct (_ =? _); [|done]. destruct (is_packed f wt).
  - destruct (substream_total avail beyond e Hb) as ([sub|] & s & -> & Hs); cbn [rbind]; [|done].
    destruct Hs as (d & beyond' & e' & -> & Hd & Hclose).
    eapply post_bind; [apply (packed_pointer_post func d beyond'); try done; apply left_of_refl|].
    intros [status [[s' sub] ms1]] [[e1 ->] Hp]. by apply (close_after avail beyond s d beyond').
  - apply post_let; [apply load_uint_post|]. intros size. destruct (_ =? _); [done|].
    apply (allocated_post _ _ _ _ _ _ _ (fun s base ms =>
      let! size := load_uint (mem ms) (it_pSize it) 4 in
      let pItem := base + u32 (pf_data_size f * size) in
      let! ms := store_uint ms (it_pSize it) 4 (size + 1) in
      let! ms := initialize_pointer_field fuel f pItem ms in
      call_decoder func s f pItem ms)).
    intros base ms1. apply post_let; [apply load_uint_post|]. intros size'. cbn zeta.
    apply post_let; [apply store_uint_post|]. intros ms2. by apply init_and_decode_post.
Qed.

Lemma union_post fields it s ms :
  nest_ok n fields -> it_ok fields it ->
  post (pb_release_union_field fuel s it ms)
    (fun '(ok, (s', it', _)) => it_ok fields it' /\ (ok = true -> s' = s)).
Proof.
  intros Hn Hit. pose proof (nest_ok_wf _ _ Hn) as Hwf. unfold pb_release_union_field.
  rewrite (it_ok_field fields Hwf it Hit). cbn [rbind].
  apply post_let; [apply load_uint_post|]. intros old. cbn zeta. destruct (_ || _); [done|].
  eapply post_bind; [by apply (find_post fields Hwf)|]. intros [found it1] Hit1.
  destruct (negb found); [by split; [|intros [=]]|].
  apply post_let; [by apply (release_single_post n fuel fields)|]. intros ms1.
  eapply post_bind; [by apply (find_post fields Hwf)|]. intros [found2 it2] Hit2.
  destruct (negb found2); [by split; [|intros [=]]|done].
Qed.

(** [decode_field] consumes input and leaves the iterator in the table. *)
Lemma decode_field_post fields it avail beyond e wt ms :
  nest_ok n fields -> it_ok fields it -> Forall is_byte (avail ++ beyond) ->
  post (decode_field fuel pb_decode_noinit (reader avail beyond e) wt it ms)
    (fun '(ok, (s, it', _)) => it_ok fields it' /\ (ok = true -> left_of 1 avail beyond s)).
Proof.
  intros Hn Hit Hb. pose proof (nest_ok_wf _ _ Hn) as Hwf. unfold decode_field.
  rewrite (it_ok_field fields Hwf it Hit). cbn [rbind].
  apply (post_ok _ _ (fun '(ok, (s', it', _)) =>
    it_ok fields it' /\ (ok = true -> s' = reader avail beyond e))).
  { destruct (_ =? _); [by apply union_post|done]. }
  2: { intros [[s' it'] ms'] [Hit' _]. by split; [|intros [=]]. }
  intros [[s' it'] ms'] [Hit' Hs']. rewrite (Hs' eq_refl). clear Hs'.
  pose proof Hit' as [_ Hpos].
  rewrite (it_ok_field fields Hwf it' Hit'). cbn [rbind]. cbn zeta.
  pose proof (nest_ok_nests fields (it_pos it') Hn Hpos) as Hf. pose proof Hf as [(_ & Hcb & _) _].
  eapply (post_bind _ _ (progress 1 avail beyond)).
  { destruct (_ =? PB_ATYPE_STATIC); [by apply (static_field_post fields)|].
    destruct (_ =? PB_ATYPE_POINTER); [by apply (pointer_field_post fields)|].
    destruct (Z.eqb_spec (PB_ATYPE (pf_type (nth_field fields (it_pos it')))) PB_ATYPE_CALLBACK); done. }
  intros [ok [s2 ms2]] Hp. by split.
Qed.
End Decoders.

(** ** The message loop *)

Section Messages.
Context `{E : DecoderEnv} (fuel n : nat) (Hfuel : (n < fuel)%nat).
Context (pb_decode_noinit :
  pb_istream_t -> list pb_field_t -> Z -> mstate -> res (bool * (pb_istream_t * mstate))).
Hypothesis Hrec : forall j sub avail beyond e dest ms,
  n = S j -> nest_ok j sub -> Forall is_byte (avail ++ beyond) ->
  post (pb_decode_noinit (reader avail beyond e) sub dest ms) (progress 0 avail beyond).
Context (fields : list pb_field_t) (Hn : nest_ok n fields).

Let Hwf : wf_table fields := nest_ok_wf n fields Hn.

(** A step of the loop: the iterator stays in the table, and success keeps the
    stream within its input. *)
Definition step_ok (avail beyond : list Z) (r : bool * (pb_istream_t * decode_locals * mstate)) : Prop :=
  let '(ok, (s, l, _)) := r in
  it_ok fields (dl_iter l) /\ (ok = true -> left_of 0 avail beyond s).

Lemma find_extension_post it :
  it_ok fields it -> post (find_extension_field it) (fun '(found, it') => found = false /\ it_ok fields it').
Proof.
  intros Hit. pose proof Hit as [Hs _]. unfold find_extension_field. rewrite Hs.
  apply (post_mono _ _ _ (search_post fields Hwf
    (fun f => PB_LTYPE (pf_type f) =? PB_LTYPE_EXTENSION) it Hit)).
  intros [[] it'] [Hok Hf]; [|done]. specialize (Hf eq_refl). apply Z.eqb_eq in Hf.
  pose proof Hok as [_ Hpos]. by destruct (nest_ok_field n fields (it_pos it') Hn Hpos) as (_ & _ & He).
Qed.

Lemma unknown_post avail beyond e tag wt l ms :
  it_ok fields (dl_iter l) -> 0 <= tag < 2 ^ 29 -> Forall is_byte (avail ++ beyond) ->
  post (decode_unknown fuel pb_decode_noinit (reader avail beyond e) tag wt l ms) (step_ok avail beyond).
Proof.
  intros Hl Htag Hb. unfold decode_unknown.
  assert (forall l, it_ok fields (dl_iter l) ->
    post (let! (ok, s) := pb_skip_field (reader avail beyond e) wt in Ret (ok, (s, l, ms)))
      (step_ok avail beyond)) as Hskip.
  { intros l' Hl'. destruct (skip_field_total wt avail beyond e Hb) as (ok & s & -> & _ & Hok). by split. }
  destruct (_ <=? tag); [|by apply Hskip].
  eapply post_bind; [by apply find_extension_post|]. intros [found it] [-> Hit].
  rewrite (it_ok_field fields Hwf it Hit). cbn [rbind]. cbn zeta.
  destruct (Z.leb_spec (u32 (-1)) tag) as [Hle|_]; [|by apply Hskip].
  change (u32 (-1)) with (2 ^ 32 - 1) in Hle. lia.
Qed.

Lemma fixed_count_complete_post l fc ms : terminates (fixed_count_complete l fc ms).
Proof. unfold fixed_count_complete. repeat post_step; auto with post. Qed.

Lemma enter_fixed_count_post s f fc l ms :
  it_ok fields (dl_iter l) ->
  post (enter_fixed_count s f fc l ms)
    (fun '(ok, (s', l', _)) => it_ok fields (dl_iter l') /\ (ok = true -> s' = s)).
Proof.
  intros Hl. unfold enter_fixed_count. destruct (_ && _); [|done].
  apply (post_ok _ _ (fun '(ok, (s', l', _)) => it_ok fields (dl_iter l') /\ (ok = true -> s' = s))).
  - destruct (bool_decide _); [done|]. apply post_let; [apply fixed_count_complete_post|].
    intros complete. destruct (negb complete); [by split; [|intros [=]]|].
    by apply post_let; [apply store_uint_post|].
  - intros [[s' l'] ms'] [Hl' Hs']. split; [exact Hl|by intros _; apply Hs'].
  - by intros [[s' l'] ms'].
Qed.

Lemma known_post avail beyond e wt fc l ms :
  it_ok fields (dl_iter l) -> Forall is_byte (avail ++ beyond) ->
  post (decode_known fuel pb_decode_noinit (reader avail beyond e) wt fc l ms) (step_ok avail beyond).
Proof.
  intros Hl Hb. unfold decode_known. rewrite (it_ok_field fields Hwf _ Hl). cbn [rbind].
  apply (post_ok _ _ _ _ (enter_fixed_count_post _ _ fc l ms Hl)).
  2: { intros [[s' l'] ms'] [Hl' _]. by split; [|intros [=]]. }
  intros [[s' l'] ms'] [Hl' Hs']. rewrite (Hs' eq_refl). clear Hs'. cbn zeta.
  assert (it_ok fields (dl_iter (note_required (nth_field fields (it_pos (dl_iter l))) l'))) as Hl2
    by (unfold note_required; by destruct (_ && _)).
  eapply post_bind; [by apply (decode_field_post fuel n Hfuel _ Hrec fields)|].
  intros [ok [[s2 it2] ms2]] [Hit2 Hok]. split; [done|]. intros Ht.
  by eapply left_of_weaken; [|apply Hok]; [lia|].
Qed.

Lemma count_required_post it : it_ok fields it -> terminates (count_required it).
Proof.
  intros Hit. pose proof Hit as [Hs _]. unfold count_required. rewrite Hs.
  apply (post_bind _ _ (fun '(_, _, it') => it_ok fields it')).
  - apply (post_loop (it_ok fields) (fun it => length fields - it_pos it)%nat); [|done|lia].
    intros it' Hit'. rewrite (it_ok_field fields Hwf _ Hit'). cbn [rbind].
    destruct (it_ok_next fields Hwf it' Hit') as (more & it2 & -> & Hok2 & Hq & Hm). cbn [rbind].
    destruct more; [|done]. split; [done|]. specialize (Hm eq_refl). unfold next_pos in Hq.
    destruct (Nat.ltb_spec (S (it_pos it')) (field_count fields)); [|lia].
    unfold field_count in *. lia.
  - intros [[req type] it'] Hit'. rewrite (it_ok_field fields Hwf _ Hit'). done.
Qed.

Lemma check_seen_post seen count : terminates (check_seen seen count).
Proof. unfold check_seen, terminates. repeat post_step; done. Qed.

Lemma finish_post avail beyond fc s l ms :
  it_ok fields (dl_iter l) -> left_of 0 avail beyond s ->
  post (decode_finish fc s l ms) (progress 0 avail beyond).
Proof.
  intros Hl Hs. unfold decode_finish. apply post_let; [apply fixed_count_complete_post|].
  intros complete. destruct (negb complete); [by intros [=]|].
  apply post_let; [by apply count_required_post|]. intros count.
  apply post_let; [apply check_seen_post|]. intros []; [by intros _|by intros [=]].
Qed.

Lemma decode_loop_post avail beyond e fc l ms :
  it_ok fields (dl_iter l) -> Forall is_byte (avail ++ beyond) ->
  post (decode_loop fuel pb_decode_noinit fc (reader avail beyond e) l ms) (step_ok avail beyond).
Proof.
  intros Hl Hb. unfold decode_loop.
  apply (post_loop (fun '(s, l, _) => left_of 0 avail beyond s /\ it_ok fields (dl_iter l))
    (fun '(s, _, _) => Z.to_nat (is_bytes_left s))); [|split; [apply left_of_refl|done]|lia].
  intros [[s1 l1] ms1] [Hs1 Hl1]. destruct (_ =? 0); [by split|].
  pose proof Hs1 as (pre & a & e1 & -> & Hpre & ->). apply bytes_after in Hb.
  destruct (tag_total a beyond e1 Hb) as (o & eof & s2 & -> & _ & Ho). cbn [rbind].
  destruct o as [[wt tag]|].
  2: { split; [done|]. intros Ht. eapply left_of_weaken; [|by eapply left_of_trans; [|exact Hpre|apply Ho]]. lia. }
  destruct Ho as [Htag Hs2].
  eapply post_bind; [by apply (find_post fields Hwf)|]. intros [found it] Hit. cbn zeta.
  pose proof Hs2 as (pre2 & a2 & e2 & -> & Hpre2 & ->). apply bytes_after in Hb.
  apply (post_bind _ _ (step_ok a2 beyond)).
  { destruct found; [by apply known_post|by apply unknown_post]. }
  intros [ok [[s3 l3] ms3]] [Hl3 Hs3]. destruct ok.
  - specialize (Hs3 eq_refl). split; [split; [|done]|].
    + rewrite app_assoc. eapply left_of_weaken; [|eapply left_of_trans; [done| |exact Hs3]]; [|reflexivity]. lia.
    + apply left_of_bytes in Hs3. cbn [is_bytes_left reader]. unfold zlen. rewrite length_app. lia.
  - by split; [|intros [=]].
Qed.

Lemma decode_message_post avail beyond e dest ms :
  Forall is_byte (avail ++ beyond) ->
  post (decode_message fuel pb_decode_noinit (reader avail beyond e) fields dest ms)
    (progress 0 avail beyond).
Proof.
  intros Hb. unfold decode_message.
  destruct (it_ok_begin fields Hwf dest) as (more & it & -> & Hit & _). cbn [rbind].
  destruct (local_alloc _ _) as [fc ms1].
  eapply post_bind; [by apply decode_loop_post|]. intros [ok [[s l] ms2]] [Hl Hs].
  apply (post_bind _ _ (progress 0 avail beyond)).
  - destruct ok; [apply finish_post; auto|by intros [=]].
  - by intros [ok' [s' ms3]] Hp.
Qed.
End Messages.

(** ** The whole decoder *)

Section Whole.
Context `{E : DecoderEnv}.

Lemma noinit_post fuel n fields avail beyond e dest ms :
  nest_ok n fields -> (n + 1 < fuel)%nat -> Forall is_byte (avail ++ beyond) ->
  post (pb_decode_noinit fuel (reader avail beyond e) fields dest ms) (progress 0 avail beyond).
Proof.
  revert n fields avail beyond e dest ms; induction fuel as [|fuel IH];
    intros n fields avail beyond e dest ms Hn Hf Hb; [lia|].
  cbn [pb_decode_noinit]. apply (decode_message_post fuel n); [lia| |done|done].
  intros j sub avail' beyond' e' dest' ms' -> Hsub Hb'. apply (IH j); [done|lia|done].
Qed.

(** [pb_decode_noinit] ends on every input: whatever the bytes and whatever is
    in memory, a fuel of the nesting depth of the message type plus two is never
    used up; on success the stream it leaves is the input stream further on,
    never past the limit. *)
Theorem pb_decode_noinit_terminates fuel n fields avail beyond e dest ms :
  nest_ok n fields -> (n + 1 < fuel)%nat -> Forall is_byte (avail ++ beyond) ->
  pb_decode_noinit fuel (reader avail beyond e) fields dest ms <> OutOfFuel
  /\ forall s' ms', pb_decode_noinit fuel (reader avail beyond e) fields dest ms = Ret (true, (s', ms')) ->
       exists used rest e', avail = used ++ rest /\ s' = reader rest beyond e'.
Proof.
  intros Hn Hf Hb. pose proof (noinit_post fuel n fields avail beyond e dest ms Hn Hf Hb) as Hp.
  split; [by destruct (pb_decode_noinit _ _ _ _ _)|].
  intros s' ms' E'. rewrite E' in Hp. destruct (Hp eq_refl) as (used & rest & e' & ? & _ & ?).
  by exists used, rest, e'.
Qed.

(** C2. The same for [pb_decode], which also sets the defaults first and releases
    what was allocated when decoding fails. *)
Theorem pb_decode_terminates fuel n fields avail beyond e dest ms :
  nest_ok n fields -> (n + 1 < fuel)%nat -> Forall is_byte (avail ++ beyond) ->
  pb_decode_top fuel (reader avail beyond e) fields dest ms <> OutOfFuel
  /\ forall s' ms', pb_decode_top fuel (reader avail beyond e) fields dest ms = Ret (true, (s', ms')) ->
       exists used rest e', avail = used ++ rest /\ s' = reader rest beyond e'.
Proof.
  intros Hn Hf Hb.
  assert (post (pb_decode_top fuel (reader avail beyond e) fields dest ms) (progress 0 avail beyond)) as Hp.
  { unfold pb_decode_top, pb_decode.
    apply post_let; [apply (message_defaults_post n); [done|lia]|]. intros ms1.
    apply (post_bind _ _ _ _ (noinit_post fuel n fields avail beyond e dest ms1 Hn Hf Hb)).
    intros [[] [s' ms2]] Hp; [done|].
    apply post_let; [apply (release_post n); [done|lia]|by intros ? [=]]. }
  split; [by destruct (pb_decode_top _ _ _ _ _)|].
  intros s' ms' E'. rewrite E' in Hp. destruct (Hp eq_refl) as (used & rest & e' & ? & _ & ?).
  by exists used, rest, e'.
Qed.
End Whole.
