(* ===== verification/PbDecodeSpec.v ===== *)
(** * What the decoder's steps compute

    Allocation of repeated and pointer fields ([allocate_field]): no
    multiplication overflows, and a grown block keeps its contents.  The
    bookkeeping of required fields: the counting walk, the bit set and the final
    test together say exactly whether every required field was received. *)
From S2P Require Import Prelude WireSpec CMem CLayout PbH PbStream PbCommon PbDecodePrim PbPrimSpec PbDecode.
From S2P Require Import PbDecodeTotal.
From Stdlib Require Import ZArith Lia.
From stdpp Require Import base tactics numbers list gmap strings.
#[local] Open Scope Z_scope.

(** ** Allocation *)

Section Allocation.
Context `{UserStreams} `{Allocator}.

Lemma load_uint_mapped m a n v :
  load_uint m a n = Ret v -> forall i, 0 <= i < Z.of_nat n -> is_Some (m !! (a + i)).
Proof.
  intros Hl i Hi. unfold load_uint in Hl. res_step Hl. apply load_bytes_spec in E as [_ Hs].
  destruct (Hs (Z.to_nat i) ltac:(lia)) as (b & _ & Hb). rewrite Z2Nat.id in Hb by lia. by eexists.
Qed.

(** The test of [allocate_field] is exact: what passes it does not overflow. *)
Lemma size_check data_size array_size :
  0 < data_size < 2 ^ 64 -> 0 < array_size < 2 ^ 64 ->
  ((2 ^ 32 <=? data_size) || (2 ^ 32 <=? array_size)) && (u64 (-1) / array_size <? data_size) = false ->
  array_size * data_size < 2 ^ 64.
Proof.
  intros Hd Ha Hc. change (u64 (-1)) with (2 ^ 64 - 1) in Hc.
  apply andb_false_iff in Hc as [Hc|Hc%Z.ltb_ge].
  - apply orb_false_iff in Hc as [Hc1%Z.leb_gt Hc2%Z.leb_gt].
    assert (array_size * data_size <= (2 ^ 32 - 1) * (2 ^ 32 - 1)) by (apply Z.mul_le_mono_nonneg; lia). lia.
  - pose proof (Z.mul_div_le (2 ^ 64 - 1) array_size ltac:(lia)).
    assert (array_size * data_size <= array_size * ((2 ^ 64 - 1) / array_size))
      by (apply Z.mul_le_mono_nonneg_l; lia). lia.
Qed.

(** Memory after a block of [osize] bytes at [old] became one of [size] bytes at
    [p], which [pData] now points to: the new block starts with the old contents,
    and only the pointer, the new block and the old one have changed. *)
Definition block_moved (m m' : gmap Z mbyte) (pData old osize p size : Z) : Prop :=
  (forall i, 0 <= i < size ->
     m' !! (p + i) = Some (if decide (i < osize) then default Undef (m !! (old + i)) else Undef))
  /\ (forall x, ~ (pData <= x < pData + 8) -> ~ (p <= x < p + size) ->
        ~ (old <> 0 /\ old <= x < old + osize) -> m' !! x = m !! x).

(** C36. When [allocate_field] succeeds, the block [*pData] points to has exactly
    [array_size * data_size] bytes, a product that did not wrap round; it is a
    live heap block that starts with the old contents, the old block is gone,
    and everything else in memory is as it was. *)
Theorem allocate_field_correct s pData data_size array_size st s' st' :
  st_ok st -> 0 <= data_size < 2 ^ 64 -> 0 <= array_size < 2 ^ 64 ->
  allocate_field s pData data_size array_size st = Ret (true, (s', st')) ->
  exists p old osize,
    s' = s /\ st_ok st' /\ load_ptr (mem st) pData = Ret old /\ block_size st old = Some osize
    /\ 0 < array_size * data_size < 2 ^ 64
    /\ load_ptr (mem st') pData = Ret p /\ p <> 0
    /\ heap st' = <[p := array_size * data_size]> (if old =? 0 then heap st else delete old (heap st))
    /\ block_moved (mem st) (mem st') pData old osize p (array_size * data_size).
Proof.
  intros Hok Hd Ha Hal. unfold allocate_field in Hal. res_step Hal.
  destruct (Z.eqb_spec data_size 0); [done|]. destruct (Z.eqb_spec array_size 0); [done|]. cbn [orb] in Hal.
  destruct (_ && _) eqn:Hc; [done|]. pose proof (size_check data_size array_size ltac:(lia) ltac:(lia) Hc) as Hprod.
  assert (0 < array_size * data_size) as Hpos by (apply Z.mul_pos_pos; lia).
  unfold u64 in Hal. rewrite wrap_small in Hal by lia. res_step Hal. destruct a0 as [p st1].
  destruct (Z.eqb_spec p 0); [done|]. res_step Hal. injection Hal as <- <-.
  destruct (pb_realloc_spec _ _ _ _ _ Hok Hpos E0) as (osize & Eb & -> & Hok1 & Hnext & Eh & Em); [done|].
  destruct (store_bytes_inv _ _ _ _ E1) as (_ & Eh' & _ & El). rewrite zlen_le_split in El.
  change (Z.of_nat 8) with 8 in El.
  pose proof (load_uint_mapped _ _ _ _ E) as Hmapped. change (Z.of_nat 8) with 8 in Hmapped.
  assert (pData + 7 < next st) as Hbelow by (apply (ok_mapped st Hok (pData + 7)), Hmapped; lia).
  pose proof (load_store_uint _ _ 8 _ _ E1) as Hload. change (8 * Z.of_nat 8) with 64 in Hload.
  rewrite wrap_small in Hload by (pose proof (ok_next st Hok); lia).
  exists (next st), a, osize. unfold block_moved. split_and!; try done.
  - apply (st_ok_store _ _ _ _ Hok1 (le_split_bytes _ _) E1).
  - by rewrite Eh'.
  - intros i Hi. rewrite El, decide_False by lia. rewrite Em, decide_True by lia.
    by replace (next st + i - next st) with i by lia.
  - intros x H1 H2 H3. rewrite El, decide_False by lia. rewrite Em, decide_False by lia.
    by rewrite decide_False.
Qed.
End Allocation.

(** ** Required fields *)

Section Required.

(** Whether bit [i] of the bit set is on. *)
Definition seen (fields_seen : list Z) (i : Z) : bool :=
  Z.testbit (default 0 (fields_seen !! Z.to_nat (i / 32))) (i mod 32).

Lemma shiftr_5 i : Z.shiftr i 5 = i / 32.
Proof. by rewrite Z.shiftr_div_pow2. Qed.

Lemma land_31 i : Z.land i 31 = i mod 32.
Proof. change 31 with (Z.ones 5). by rewrite Z.land_ones. Qed.

Definition is_word (w : Z) : Prop := 0 <= w < 2 ^ 32.

Lemma testbit_one j k : 0 <= j < 32 -> Z.testbit (u32 (Z.shiftl 1 j)) k = (j =? k).
Proof.
  intros Hj. unfold u32. rewrite Z.shiftl_1_l, wrap_small
    by (split; [apply Z.pow_nonneg; lia|apply Z.pow_lt_mono_r; lia]).
  destruct (Z.eqb_spec j k) as [->|Hne]; [apply Z.pow2_bits_true; lia|by apply Z.pow2_bits_false].
Qed.

Lemma mark_seen_seen fields_seen i j :
  0 <= i < 32 * zlen fields_seen -> 0 <= j ->
  seen (mark_seen fields_seen i) j = seen fields_seen j || (i =? j).
Proof.
  intros Hi Hj. unfold seen, mark_seen. rewrite shiftr_5, land_31.
  pose proof (Z.mod_pos_bound i 32). pose proof (Z.mod_pos_bound j 32).
  destruct (decide (j / 32 = i / 32)) as [E|E].
  - rewrite E, list_lookup_alter_eq.
    destruct (lookup_lt_is_Some_2 fields_seen (Z.to_nat (i / 32))) as [w Hw].
    { assert (i / 32 < zlen fields_seen) by (apply Z.div_lt_upper_bound; lia).
      pose proof (Z.div_pos i 32). unfold zlen in *. lia. }
    rewrite Hw. cbn. rewrite Z.lor_spec, testbit_one by lia. f_equal.
    pose proof (Z.div_mod i 32). pose proof (Z.div_mod j 32).
    destruct (Z.eqb_spec (i mod 32) (j mod 32)), (Z.eqb_spec i j); try done; lia.
  - rewrite list_lookup_alter_ne.
    + destruct (Z.eqb_spec i j) as [->|]; [done|]. by rewrite orb_false_r.
    + intros E'. apply E. pose proof (Z.div_pos i 32). pose proof (Z.div_pos j 32). lia.
Qed.

Lemma mark_seen_words fields_seen i :
  0 <= i -> Forall is_word fields_seen -> Forall is_word (mark_seen fields_seen i).
Proof.
  intros Hi Hw. unfold mark_seen. apply Forall_alter; [done|]. intros w _ Hx.
  unfold is_word in *. apply lor_range; [lia|done|apply wrap_range; lia].
Qed.

Lemma length_mark_seen fields_seen i : length (mark_seen fields_seen i) = length fields_seen.
Proof. apply length_alter. Qed.

(** A word is all ones exactly when all its bits are on. *)
Lemma word_all w : is_word w -> (w =? allbits) = true <-> forall k, 0 <= k < 32 -> Z.testbit w k = true.
Proof.
  intros Hw. change allbits with (Z.ones 32). rewrite Z.eqb_eq. split.
  - intros -> k Hk. by apply Z.ones_spec_low.
  - intros Hall. apply Z.bits_inj'. intros k Hk. destruct (decide (k < 32)).
    + rewrite Hall, Z.ones_spec_low by lia. done.
    + rewrite Z.ones_spec_high by lia. unfold is_word in Hw.
      rewrite <- (Z.mod_small w (2 ^ 32)), Z.mod_pow2_bits_high by lia. done.
Qed.

(** The test on the last, partial word. *)
Lemma word_low w k :
  is_word w -> 0 < k < 32 ->
  (forall j, k <= j < 32 -> Z.testbit w j = false) ->
  (w =? Z.shiftr allbits (32 - k)) = true <-> forall j, 0 <= j < k -> Z.testbit w j = true.
Proof.
  intros Hw Hk Hhigh. change allbits with (Z.ones 32). rewrite Z.shiftr_div_pow2 by lia.
  rewrite Z.ones_div_pow2 by lia. replace (32 - (32 - k)) with k by lia. rewrite Z.eqb_eq. split.
  - intros -> j Hj. by apply Z.ones_spec_low.
  - intros Hall. apply Z.bits_inj'. intros j Hj. destruct (decide (j < k)).
    + rewrite Hall, Z.ones_spec_low by lia. done.
    + rewrite Z.ones_spec_high by lia. destruct (decide (j < 32)); [by apply Hhigh; lia|].
      unfold is_word in Hw. rewrite <- (Z.mod_small w (2 ^ 32)), Z.mod_pow2_bits_high by lia. done.
Qed.
Lemma seen_word0 w0 w1 j : 0 <= j < 32 -> seen [w0; w1] j = Z.testbit w0 j.
Proof. intros Hj. unfold seen. by rewrite Z.div_small, Z.mod_small by lia. Qed.

Lemma seen_word1 w0 w1 j : 0 <= j < 32 -> seen [w0; w1] (32 + j) = Z.testbit w1 j.
Proof.
  intros Hj. unfold seen. replace (32 + j) with (j + 1 * 32) by lia.
  by rewrite Z.div_add, Z.mod_add, Z.div_small, Z.mod_small by lia.
Qed.

(** [check_seen] tests whether all of the first [count] bits are on, provided no
    bit beyond is. *)
Lemma check_seen_spec w0 w1 count :
  is_word w0 -> is_word w1 -> 0 <= count <= 64 ->
  (forall j, count <= j < 64 -> seen [w0; w1] j = false) ->
  exists b, check_seen [w0; w1] count = Ret b
    /\ (b = true <-> forall j, 0 <= j < count -> seen [w0; w1] j = true).
Proof.
  intros H0 H1 Hc Hhigh. unfold check_seen. rewrite shiftr_5, land_31.
  assert (forall k, 0 <= k <= 32 -> (forall j, 0 <= j < k -> seen [w0; w1] j = true)
            <-> forall j, 0 <= j < k -> Z.testbit w0 j = true) as Hw0.
  { intros k Hk. split; intros Hs j Hj; [rewrite <- (seen_word0 w0 w1) by lia|rewrite seen_word0 by lia];
      by apply Hs. }
  assert (forall k, 0 <= k <= 32 -> (forall j, 0 <= j < 32 + k -> seen [w0; w1] j = true)
            <-> (forall j, 0 <= j < 32 -> Z.testbit w0 j = true)
                /\ forall j, 0 <= j < k -> Z.testbit w1 j = true) as Hw1.
  { intros k Hk. split.
    - intros Hs. split; intros j Hj; [rewrite <- (seen_word0 w0 w1) by lia; apply Hs; lia|].
      rewrite <- (seen_word1 w0 w1) by lia. apply Hs. lia.
    - intros [Ha Hb] j Hj. destruct (decide (j < 32)); [rewrite seen_word0 by lia; apply Ha; lia|].
      replace j with (32 + (j - 32)) by lia. rewrite seen_word1 by lia. apply Hb. lia. }
  destruct (decide (count < 32)) as [Hlt|Hge].
  { rewrite Z.div_small, Z.mod_small by lia. cbn [Z.to_nat length Nat.ltb Nat.leb take forallb negb].
    destruct (Z.eqb_spec count 0) as [->|Hne]; [exists true; split; [done|by split; [lia|]]|].
    cbn. eexists. split; [done|]. rewrite Hw0 by lia. apply word_low; [done|lia|].
    intros j Hj. rewrite <- (seen_word0 w0 w1) by lia. apply Hhigh. lia. }
  destruct (decide (count < 64)) as [Hlt|Hge'].
  { assert (exists k, count = 32 + k) as [k ->] by (exists (count - 32); lia).
    replace ((32 + k) / 32) with 1
      by (replace (32 + k) with (k + 1 * 32) by lia; rewrite Z.div_add, Z.div_small; lia).
    replace ((32 + k) mod 32) with k
      by (replace (32 + k) with (k + 1 * 32) by lia; rewrite Z.mod_add, Z.mod_small; lia).
    change (Z.to_nat 1) with 1%nat. cbn [length Nat.ltb Nat.leb take forallb].
    pose proof (Hw1 k ltac:(lia)) as Hiff. rewrite <- (word_all w0 H0) in Hiff. rewrite andb_true_r.
    destruct (w0 =? allbits); cbn [negb].
    2: { exists false. split; [done|]. rewrite Hiff. by split; [|intros [? _]]. }
    destruct (Z.eqb_spec k 0) as [->|Hne].
    { exists true. split; [done|]. rewrite Hiff. split; [|done]. intros _. split; [done|lia]. }
    cbn. eexists. split; [done|]. rewrite Hiff, word_low; [by split; [split|intros [_ ?]]|done|lia|].
    intros j Hj. rewrite <- (seen_word1 w0 w1) by lia. apply Hhigh. lia. }
  assert (count = 64) as -> by lia. change (64 / 32) with 2. change (64 mod 32) with 0.
  change (Z.to_nat 2) with 2%nat. cbn [length Nat.ltb Nat.leb take forallb Z.eqb].
  pose proof (Hw1 32 ltac:(lia)) as Hiff. change (32 + 32) with 64 in Hiff.
  rewrite <- (word_all w0 H0), <- (word_all w1 H1) in Hiff. rewrite andb_true_r.
  destruct (w0 =? allbits), (w1 =? allbits); cbn; eexists; (split; [done|]);
    (rewrite Hiff; split; [intros ?; by try split|by intros [? ?]]).
Qed.
Definition is_required (f : pb_field_t) : bool := PB_HTYPE (pf_type f) =? PB_HTYPE_REQUIRED.

(** How many of the first [i] fields are required: the number of field [i]
    among the required ones, when it is one. *)
Fixpoint required_before (fields : list pb_field_t) (i : nat) : Z :=
  match i with
  | O => 0
  | S i => required_before fields i + if is_required (nth_field fields i) then 1 else 0
  end.

Lemma required_before_mono fields i j :
  (i <= j)%nat -> required_before fields i <= required_before fields j.
Proof.
  induction 1 as [|j Hij IH]; [lia|]. cbn [required_before]. destruct (is_required _); lia.
Qed.

Lemma required_before_bound fields i : 0 <= required_before fields i <= Z.of_nat i.
Proof. induction i as [|i IH]; cbn [required_before]; [lia|]. destruct (is_required _); lia. Qed.

(** The iterator numbers the required fields. *)
Lemma iter_at_required fields dest i :
  Z.of_nat i < 2 ^ 32 ->
  it_required_field_index (iter_at fields dest i) = required_before fields i.
Proof.
  induction i as [|i IH]; intros Hi; [done|]. cbn [iter_at required_before].
  specialize (IH ltac:(lia)). pose proof (required_before_bound fields i).
  unfold is_required. destruct (same_union _ _) eqn:Eu; cbn.
  - unfold same_union in Eu. apply andb_prop in Eu as [[Eo%Z.eqb_eq _]%andb_prop _]. rewrite Eo, IH.
    change (PB_HTYPE_ONEOF =? PB_HTYPE_REQUIRED) with false. cbn iota. lia.
  - rewrite IH. destruct (_ =? _); [|lia]. unfold u32. rewrite wrap_small; lia.
Qed.

(** Every required number below the total belongs to a required field. *)
Lemma required_position fields i j :
  0 <= j < required_before fields i ->
  exists k, (k < i)%nat /\ is_required (nth_field fields k) = true /\ required_before fields k = j.
Proof.
  induction i as [|i IH]; cbn [required_before]; [lia|]. intros Hj.
  destruct (decide (j < required_before fields i)) as [Hlt|Hge].
  - destruct (IH ltac:(lia)) as (k & Hk & Hr & Ek). exists k. split_and!; [lia|done|done].
  - destruct (is_required (nth_field fields i)) eqn:Er; [|lia].
    exists i. split_and!; [lia|done|lia].
Qed.

Lemma required_before_inj fields i j :
  is_required (nth_field fields i) = true -> is_required (nth_field fields j) = true ->
  required_before fields i = required_before fields j -> i = j.
Proof.
  assert (forall i j, (i < j)%nat -> is_required (nth_field fields i) = true ->
            required_before fields i < required_before fields j) as Hlt.
  { intros i' j' Hij Hr. pose proof (required_before_mono fields (S i') j' Hij) as Hm.
    cbn [required_before] in Hm. rewrite Hr in Hm. lia. }
  intros Hi Hj He. destruct (decide (i < j)%nat) as [H|]; [apply Hlt in H; [lia|done]|].
  destruct (decide (j < i)%nat) as [H|]; [apply Hlt in H; [lia|done]|lia].
Qed.
End Required.

(** The locals of the message loop after fields at the positions [got] were
    received. *)
Definition after_receiving (fields : list pb_field_t) (dest : Z) (got : list nat) (l : decode_locals) :
    decode_locals :=
  fold_left (fun l i => note_required (nth_field fields i) (dl_set_iter l (iter_at fields dest i))) got l.

Lemma after_receiving_seen fields dest got l :
  Forall (fun i => Z.of_nat i < 2 ^ 32) got -> length (dl_fields_seen l) = 2%nat ->
  Forall is_word (dl_fields_seen l) ->
  let l' := after_receiving fields dest got l in
  length (dl_fields_seen l') = 2%nat /\ Forall is_word (dl_fields_seen l')
  /\ forall j, 0 <= j < 64 ->
       seen (dl_fields_seen l') j
       = seen (dl_fields_seen l) j
         || existsb (fun i => is_required (nth_field fields i) && (required_before fields i =? j)) got.
Proof.
  revert l; induction got as [|i got IH]; intros l Hg Hl Hw; cbn zeta; cbn [after_receiving fold_left existsb].
  { split_and!; [done|done|]. intros j Hj. by rewrite orb_false_r. }
  apply Forall_cons in Hg as [Hi Hg]. fold (after_receiving fields dest got).
  set (l1 := note_required (nth_field fields i) (dl_set_iter l (iter_at fields dest i))).
  pose proof (required_before_bound fields i) as Hb.
  assert (length (dl_fields_seen l1) = 2%nat /\ Forall is_word (dl_fields_seen l1)
    /\ forall j, 0 <= j < 64 ->
         seen (dl_fields_seen l1) j
         = seen (dl_fields_seen l) j || is_required (nth_field fields i) && (required_before fields i =? j))
    as (Hl1 & Hw1 & Hs1).
  { subst l1. unfold note_required. cbn [dl_iter dl_set_iter]. rewrite iter_at_required by done.
    fold (is_required (nth_field fields i)). destruct (is_required _); cbn [andb].
    - destruct (Z.ltb_spec (required_before fields i) PB_MAX_REQUIRED_FIELDS) as [Hlt|Hge]; cbn.
      + change PB_MAX_REQUIRED_FIELDS with 64 in Hlt. rewrite length_mark_seen.
        split_and!; [done|apply mark_seen_words; [lia|done]|]. intros j Hj.
        apply mark_seen_seen; [unfold zlen; lia|lia].
      + change PB_MAX_REQUIRED_FIELDS with 64 in Hge. split_and!; [done|done|]. intros j Hj.
        destruct (Z.eqb_spec (required_before fields i) j); [lia|by rewrite orb_false_r].
    - split_and!; [done|done|]. intros j _. by rewrite orb_false_r. }
  destruct (IH l1 Hg Hl1 Hw1) as (Hl' & Hw' & Hs'). split_and!; [done|done|].
  intros j Hj. rewrite Hs', Hs1 by done. by rewrite orb_assoc.
Qed.

(** The walk to the end of the table counts the required fields. *)
Lemma count_required_loop fields dest i k :
  wf_table fields -> Z.of_nat (length fields) < 2 ^ 32 -> (i < field_count fields)%nat ->
  (field_count fields - i <= k)%nat ->
  loop k
    (fun it =>
       let! f := it_field it in
       let! (more, it') := pb_field_iter_next it in
       Ret (if more then inl it' else inr (it_required_field_index it, pf_type f, it')))
    (iter_at fields dest i)
  = Ret (required_before fields (field_count fields - 1),
         pf_type (nth_field fields (field_count fields - 1)), iter_at fields dest 0).
Proof.
  intros Hwf Hlen. remember (field_count fields - i)%nat as r eqn:Er. revert i k Er.
  induction r as [|r IH]; intros i [|k] Er Hi Hk; try lia.
  cbn [loop]. rewrite (it_field_at fields dest Hwf) by lia. cbn [rbind].
  rewrite (iter_next_at fields dest Hwf) by done. cbn [rbind]. unfold next_pos.
  destruct (Nat.ltb_spec (S i) (field_count fields)) as [Hn|Hn]; cbn [rbind].
  - apply IH; lia.
  - replace (field_count fields - 1)%nat with i by lia. unfold field_count in Hi.
    by rewrite iter_at_required by lia.
Qed.

Lemma count_required_spec fields dest i :
  wf_table fields -> Z.of_nat (length fields) < 2 ^ 32 -> (i < field_count fields)%nat ->
  count_required (iter_at fields dest i) = Ret (Z.min 64 (required_before fields (field_count fields))).
Proof.
  intros Hwf Hlen Hi. unfold count_required. rewrite iter_at_start.
  rewrite (count_required_loop fields dest i) by (done || (unfold field_count in *; lia)). cbn [rbind].
  rewrite (it_field_at fields dest Hwf) by lia. cbn [rbind].
  pose proof (nth_field_tag fields Hwf 0 ltac:(lia)) as Ht.
  destruct (Z.eqb_spec (pf_tag (nth_field fields 0)) 0); [done|].
  destruct (field_count fields) as [|c] eqn:En; [lia|]. rewrite Nat.sub_succ, Nat.sub_0_r.
  cbn [negb required_before]. fold (is_required (nth_field fields c)). rewrite andb_true_r.
  pose proof (required_before_bound fields c) as Hb. unfold field_count in En.
  change PB_MAX_REQUIRED_FIELDS with 64. f_equal.
  destruct (is_required (nth_field fields c)).
  - unfold u32. rewrite wrap_small by lia. destruct (Z.ltb_spec 64 (required_before fields c + 1)); lia.
  - destruct (Z.ltb_spec 64 (required_before fields c)); lia.
Qed.

(** The final check of [pb_decode_noinit] accepts exactly when every required
    field among the first 64 required ones was received, in any order and with
    repetitions: [got] are the positions of the fields received. *)
Theorem required_fields_checked fields dest got i l :
  wf_table fields -> Z.of_nat (length fields) < 2 ^ 32 -> (i < field_count fields)%nat ->
  Forall (fun k => (k < field_count fields)%nat) got -> dl_fields_seen l = [0; 0] ->
  exists count b,
    count_required (iter_at fields dest i) = Ret count
    /\ check_seen (dl_fields_seen (after_receiving fields dest got l)) count = Ret b
    /\ (b = true <->
        forall k, (k < field_count fields)%nat -> is_required (nth_field fields k) = true ->
          required_before fields k < 64 -> k ∈ got).
Proof.
  intros Hwf Hlen Hi Hg Hl.
  destruct (after_receiving_seen fields dest got l) as (Hl2 & Hw & Hs).
  { eapply Forall_impl; [exact Hg|]. intros k Hk. cbn in Hk. unfold field_count in Hk. lia. }
  { by rewrite Hl. }
  { rewrite Hl. repeat constructor; unfold is_word; lia. }
  set (ws := dl_fields_seen (after_receiving fields dest got l)) in *.
  set (total := required_before fields (field_count fields)).
  assert (forall j, 0 <= j < 64 -> seen ws j = true <->
    exists k, k ∈ got /\ is_required (nth_field fields k) = true /\ required_before fields k = j) as Hseen.
  { intros j Hj. rewrite Hs, Hl by done.
    assert (seen [0; 0] j = false) as ->.
    { destruct (decide (j < 32)); [rewrite seen_word0 by lia; apply Z.bits_0|].
      replace j with (32 + (j - 32)) by lia. rewrite seen_word1 by lia. apply Z.bits_0. }
    cbn [orb]. rewrite existsb_exists. split.
    - intros (k & Hk & [Hr He%Z.eqb_eq]%andb_prop). exists k. by rewrite list_elem_of_In.
    - intros (k & Hk & Hr & He). exists k. rewrite <- list_elem_of_In, Hr. split; [done|]. by apply Z.eqb_eq. }
  destruct ws as [|w0 [|w1 [|? ?]]]; try done.
  apply Forall_cons in Hw as [Hw0 Hw]. apply Forall_cons in Hw as [Hw1 _].
  pose proof (required_before_bound fields (field_count fields)) as Htot. fold total in Htot.
  destruct (check_seen_spec w0 w1 (Z.min 64 total) Hw0 Hw1 ltac:(lia)) as (b & Eb & Hb).
  { intros j Hj. apply not_true_iff_false. rewrite Hseen by lia. intros (k & Hk & Hr & He).
    rewrite Forall_forall in Hg. specialize (Hg k Hk).
    pose proof (required_before_mono fields (S k) (field_count fields) Hg) as Hm.
    cbn [required_before] in Hm. rewrite Hr in Hm. fold total in Hm. lia. }
  exists (Z.min 64 total), b. split_and!; [by apply count_required_spec|exact Eb|]. rewrite Hb. split.
  - intros Hall k Hk Hr Hlt. pose proof (required_before_bound fields k).
    pose proof (required_before_mono fields (S k) (field_count fields) Hk) as Hm.
    cbn [required_before] in Hm. rewrite Hr in Hm. fold total in Hm.
    specialize (Hall (required_before fields k) ltac:(lia)). apply Hseen in Hall; [|lia].
    destruct Hall as (k' & Hk' & Hr' & He). by rewrite (required_before_inj fields k k').
  - intros Hall j Hj. apply Hseen; [lia|].
    destruct (required_position fields (field_count fields) j) as (k & Hk & Hr & He); [fold total; lia|].
    exists k. split_and!; [apply Hall; [done|done|lia]|done|done].
Qed.
