(* ===== verification/SepMem.v ===== *)
(** * Ownership of memory

    A separation logic over the C memory: an assertion describes a footprint,
    the memory cells and the heap blocks it owns.  It is linear, so that an
    assertion that owns no block says that every block was freed.  The
    assertions form a [bi], which gives them Iris's proof mode.  [sat] ties them
    to a state; the rules below say what each memory operation does to one,
    whatever else [F] is owned. *)
From S2P Require Import Prelude CMem.
From Stdlib Require Import ZArith Lia.
From stdpp Require Import base tactics numbers list gmap.
From iris.bi Require Import interface.
From iris.proofmode Require Import proofmode.
#[local] Unset SsrRewrite.
#[local] Open Scope Z_scope.

(** ** Assertions *)

(** What can be owned: the cell at an address, or a live heap block. *)
Inductive resource : Type :=
| Cell (c : mbyte)
| Block (size : Z).

Abbreviation footprint := (gmap (Z + Z) resource).

Record hprop : Type := HProp { holds : footprint -> Prop }.

Section Connectives.
Implicit Types (P Q : hprop) (w : footprint).

(** A record, so that tactics do not look through it. *)
Record h_entails P Q : Prop := HEntails { entails_at : forall w, holds P w -> holds Q w }.
Definition h_emp : hprop := HProp (fun w => w = ∅).
Definition h_pure (phi : Prop) : hprop := HProp (fun _ => phi).
Definition h_and P Q : hprop := HProp (fun w => holds P w /\ holds Q w).
Definition h_or P Q : hprop := HProp (fun w => holds P w \/ holds Q w).
Definition h_impl P Q : hprop := HProp (fun w => holds P w -> holds Q w).
Definition h_forall (A : Type) (f : A -> hprop) : hprop := HProp (fun w => forall a, holds (f a) w).
Definition h_exist (A : Type) (f : A -> hprop) : hprop := HProp (fun w => exists a, holds (f a) w).
Definition h_sep P Q : hprop :=
  HProp (fun w => exists w1 w2, w = w1 ∪ w2 /\ w1 ##ₘ w2 /\ holds P w1 /\ holds Q w2).
Definition h_wand P Q : hprop :=
  HProp (fun w => forall w', w ##ₘ w' -> holds P w' -> holds Q (w ∪ w')).
Definition h_persistently P : hprop := h_pure (h_entails h_emp P).
Definition h_later P : hprop := P.
End Connectives.
Arguments entails_at {P Q}.

(** A record, so that tactics do not look through it. *)
Record hprop_equiv (P Q : hprop) : Prop := HEquiv { equiv_at : forall w, holds P w <-> holds Q w }.
#[local] Instance hprop_has_equiv : Equiv hprop := hprop_equiv.
Definition hprop_dist : Dist hprop := fun _ => hprop_equiv.

Section Laws.
#[local] Existing Instances hprop_has_equiv hprop_dist.

Lemma hprop_equivalence : Equivalence hprop_equiv.
Proof.
  split.
  - by intros P.
  - intros P Q [H]. constructor. intros w. by rewrite (H w).
  - intros P Q R [H1] [H2]. constructor. intros w. by rewrite (H1 w), (H2 w).
Qed.

Definition hprop_ofe_mixin : OfeMixin hprop := discrete_ofe_mixin hprop_equivalence.

Lemma h_entails_po : PreOrder h_entails.
Proof. split; [by constructor|]. intros P Q R HPQ HQR. constructor. intros w HP. by apply (entails_at HQR), (entails_at HPQ). Qed.

Lemma h_sep_comm P Q : h_entails (h_sep P Q) (h_sep Q P).
Proof.
  constructor. intros w (w1 & w2 & -> & Hd & HP & HQ). exists w2, w1.
  split_and!; [by apply map_union_comm|done..].
Qed.

Lemma h_sep_assoc P Q R : h_entails (h_sep (h_sep P Q) R) (h_sep P (h_sep Q R)).
Proof.
  constructor. intros w (w12 & w3 & -> & Hd & (w1 & w2 & -> & Hd' & HP & HQ) & HR).
  apply map_disjoint_union_l in Hd as [Hd1 Hd2]. exists w1, (w2 ∪ w3).
  split_and!; [symmetry; apply map_union_assoc|by apply map_disjoint_union_r|done|].
  by exists w2, w3.
Qed.

Lemma h_bi_mixin :
  BiMixin h_entails h_emp h_pure h_and h_or h_impl h_forall h_exist h_sep h_wand.
Proof.
  split.
  - apply h_entails_po.
  - intros P Q. split.
    + intros [He]. by split; constructor; intros w; apply He.
    + intros [H1 H2]. constructor. intros w. split; [apply (entails_at H1)|apply (entails_at H2)].
  - intros n phi psi He. constructor. intros w. apply He.
  - intros n P P' [HP] Q Q' [HQ]. constructor. intros w. specialize (HP w). specialize (HQ w). cbn. tauto.
  - intros n P P' [HP] Q Q' [HQ]. constructor. intros w. specialize (HP w). specialize (HQ w). cbn. tauto.
  - intros n P P' [HP] Q Q' [HQ]. constructor. intros w. specialize (HP w). specialize (HQ w). cbn. tauto.
  - intros A n f g He. constructor. intros w. cbn. split; intros H a; by apply (equiv_at _ _ (He a) w), H.
  - intros A n f g He. constructor. intros w. cbn. split; intros [a H]; exists a; by apply (equiv_at _ _ (He a) w), H.
  - intros n P P' [HP] Q Q' [HQ]. constructor. intros w. cbn.
    split; intros (w1 & w2 & -> & Hd & H1 & H2); exists w1, w2; (split_and!; [done|done|by apply HP|by apply HQ]).
  - intros n P P' [HP] Q Q' [HQ]. constructor. intros w. cbn.
    split; intros H w' Hd HP'; apply HQ, H; auto; by apply HP.
  - intros phi P H. by constructor.
  - intros phi P H. constructor. intros w Hphi. by apply (entails_at (H Hphi)).
  - intros P Q. by constructor; intros w [? ?].
  - intros P Q. by constructor; intros w [? ?].
  - intros P Q R H1 H2. constructor. intros w HP. split; [by apply (entails_at H1)|by apply (entails_at H2)].
  - intros P Q. constructor. intros w. by left.
  - intros P Q. constructor. intros w. by right.
  - intros P Q R H1 H2. constructor. intros w [HP|HQ]; [by apply (entails_at H1)|by apply (entails_at H2)].
  - intros P Q R H. constructor. intros w HP HQ. by apply (entails_at H).
  - intros P Q R H. constructor. intros w [HP HQ]. by apply (entails_at H w HP).
  - intros A P f H. constructor. intros w HP a. by apply (entails_at (H a)).
  - intros A f a. by constructor.
  - intros A f a. constructor. intros w H. by exists a.
  - intros A f Q H. constructor. intros w [a Ha]. by apply (entails_at (H a)).
  - intros P P' Q Q' H1 H2. constructor. intros w (w1 & w2 & -> & Hd & HP & HQ).
    exists w1, w2. split_and!; [done|done|by apply (entails_at H1)|by apply (entails_at H2)].
  - intros P. constructor. intros w HP. exists ∅, w.
    split_and!; [symmetry; apply map_empty_union|apply map_disjoint_empty_l|done|done].
  - intros P. constructor. intros w (w1 & w2 & -> & _ & -> & HP). by rewrite (map_empty_union w2).
  - apply h_sep_comm.
  - apply h_sep_assoc.
  - intros P Q R H. constructor. intros w HP w' Hd HQ. apply (entails_at H). by exists w, w'.
  - intros P Q R H. constructor. intros w (w1 & w2 & -> & Hd & HP & HQ). by apply (entails_at H w1 HP w2 Hd).
Qed.

Lemma h_persistently_mixin :
  BiPersistentlyMixin h_entails h_emp h_and h_exist h_sep h_persistently.
Proof.
  eapply bi_persistently_mixin_discrete; [| |done|exact h_bi_mixin].
  - intros n P Q He. exact He.
  - intros A f H. destruct (entails_at H ∅ eq_refl) as [a Ha]. exists a. by constructor; intros w ->.
Qed.

Lemma h_later_mixin :
  BiLaterMixin h_entails h_pure h_or h_impl h_forall h_exist h_sep h_persistently h_later.
Proof. eapply bi_later_mixin_id; [done|exact h_bi_mixin]. Qed.
End Laws.

Canonical Structure hpropI : bi :=
  {| bi_dist := hprop_dist; bi_equiv := hprop_equiv;
     bi_ofe_mixin := hprop_ofe_mixin; bi_cofe_aux := discrete_cofe hprop_equivalence; bi_bi_mixin := h_bi_mixin;
     bi_bi_persistently_mixin := h_persistently_mixin; bi_bi_later_mixin := h_later_mixin |}.

(** ** Cells and blocks *)

Definition cell (a : Z) (c : mbyte) : hpropI := HProp (fun w => w = {[inl a := Cell c]}).
Definition block (p size : Z) : hpropI := HProp (fun w => w = {[inr p := Block size]}).

(** Consecutive cells, and a heap block with its cells. *)
Definition pts (a : Z) (l : list mbyte) : hpropI := ([∗ list] i ↦ c ∈ l, cell (a + Z.of_nat i) c)%I.
Definition blk (p : Z) (l : list mbyte) : hpropI := (block p (zlen l) ∗ pts p l)%I.

(** The cells of an [n]-byte integer. *)
Definition ints (n : nat) (z : Z) : list mbyte := Byte <$> le_split n z.

(** A map of cells, and nothing else. *)
Definition frozen (m : gmap Z mbyte) : hpropI :=
  HProp (fun w => (forall a, w !! inl a = Cell <$> m !! a) /\ forall p, w !! inr p = None).

(** The footprint of a whole memory and heap. *)
Definition models (m : gmap Z mbyte) (h : gmap Z Z) (P : hpropI) : Prop :=
  exists w, holds P w /\ (forall a, w !! inl a = Cell <$> m !! a) /\ (forall p, w !! inr p = Block <$> h !! p).

(** The read-only data of the program: the default values descriptors point to. *)
Class Rodata : Type := rodata : gmap Z mbyte.

(** [P] describes all of a well-formed state but the read-only data. *)
Definition sat `{Rodata} (ms : mstate) (P : hpropI) : Prop :=
  st_ok ms /\ models (mem ms) (heap ms) (P ∗ frozen rodata).

Lemma length_ints n z : length (ints n z) = n.
Proof. unfold ints. by rewrite length_fmap, length_le_split. Qed.

Lemma pts_nil a : pts a [] ⊣⊢ emp.
Proof. done. Qed.

Lemma pts_cons a c l : pts a (c :: l) ⊣⊢ cell a c ∗ pts (a + 1) l.
Proof.
  unfold pts. cbn [big_opL]. rewrite Z.add_0_r. f_equiv. apply big_sepL_proper.
  intros i d _. by replace (a + Z.of_nat (S i)) with (a + 1 + Z.of_nat i) by lia.
Qed.

Lemma pts_app a l1 l2 : pts a (l1 ++ l2) ⊣⊢ pts a l1 ∗ pts (a + zlen l1) l2.
Proof.
  unfold pts. rewrite big_sepL_app. f_equiv. apply big_sepL_proper. intros i c _.
  by rewrite Nat2Z.inj_add, Z.add_assoc.
Qed.

Lemma models_mono m h (P Q : hpropI) : (P ⊢ Q) -> models m h P -> models m h Q.
Proof. intros HPQ (w & HP & Hw). exists w. split; [by apply (entails_at HPQ)|done]. Qed.

Lemma models_assoc m h P Q R : models m h ((P ∗ Q) ∗ R) <-> models m h (P ∗ Q ∗ R).
Proof. split; apply models_mono; by rewrite (bi.sep_assoc P Q R). Qed.

Lemma disjoint_singleton (k : Z + Z) (r : resource) (w : footprint) : ({[k := r]} : footprint) ##ₘ w <-> w !! k = None.
Proof. apply map_disjoint_singleton_l. Qed.

(** Owning one cell besides [P]. *)
Lemma models_cell m h a c P :
  models m h (cell a c ∗ P) <-> m !! a = Some c /\ models (delete a m) h P.
Proof.
  split.
  - intros (w & (w1 & w2 & -> & Hd & Hc & HP) & Hm & Hh). cbn in Hc. subst w1.
    apply disjoint_singleton in Hd. rewrite <- insert_union_singleton_l in Hm, Hh. split.
    + specialize (Hm a). rewrite lookup_insert_eq in Hm. destruct (m !! a); [|done]. by injection Hm as <-.
    + exists w2. split; [done|]. split.
      * intros b. destruct (decide (b = a)) as [->|Hne]; [by rewrite Hd, lookup_delete_eq|].
        rewrite lookup_delete_ne by done. rewrite <- Hm. by rewrite lookup_insert_ne by congruence.
      * intros p. rewrite <- Hh. by rewrite lookup_insert_ne by done.
  - intros (Ha & w & HP & Hm & Hh). exists ({[inl a := Cell c]} ∪ w).
    assert (w !! inl a = None) as Hn by (by rewrite Hm, lookup_delete_eq). split.
    { exists {[inl a := Cell c]}, w. split_and!; [done|by apply disjoint_singleton|done|done]. }
    rewrite <- insert_union_singleton_l. split.
    + intros b. destruct (decide (b = a)) as [->|Hne]; [by rewrite lookup_insert_eq, Ha|].
      rewrite lookup_insert_ne by congruence. rewrite Hm. by rewrite lookup_delete_ne by done.
    + intros p. rewrite lookup_insert_ne by done. apply Hh.
Qed.

(** Owning one block besides [P]. *)
Lemma models_block m h p n P :
  models m h (block p n ∗ P) <-> h !! p = Some n /\ models m (delete p h) P.
Proof.
  split.
  - intros (w & (w1 & w2 & -> & Hd & Hc & HP) & Hm & Hh). cbn in Hc. subst w1.
    apply disjoint_singleton in Hd. rewrite <- insert_union_singleton_l in Hm, Hh. split.
    + specialize (Hh p). rewrite lookup_insert_eq in Hh. destruct (h !! p); [|done]. by injection Hh as <-.
    + exists w2. split; [done|]. split.
      * intros b. rewrite <- Hm. by rewrite lookup_insert_ne by done.
      * intros q. destruct (decide (q = p)) as [->|Hne]; [by rewrite Hd, lookup_delete_eq|].
        rewrite lookup_delete_ne by done. rewrite <- Hh. by rewrite lookup_insert_ne by congruence.
  - intros (Hp & w & HP & Hm & Hh). exists ({[inr p := Block n]} ∪ w).
    assert (w !! inr p = None) as Hn by (by rewrite Hh, lookup_delete_eq). split.
    { exists {[inr p := Block n]}, w. split_and!; [done|by apply disjoint_singleton|done|done]. }
    rewrite <- insert_union_singleton_l. split.
    + intros b. rewrite lookup_insert_ne by done. apply Hm.
    + intros q. destruct (decide (q = p)) as [->|Hne]; [by rewrite lookup_insert_eq, Hp|].
      rewrite lookup_insert_ne by congruence. rewrite Hh. by rewrite lookup_delete_ne by done.
Qed.

(** ** Runs of cells *)

Lemma clear_range_delete m a n : clear_range (delete a m) (a + 1) n = clear_range m a (S n).
Proof. done. Qed.

(** Owning a run of cells besides [P]. *)
Lemma models_pts m h a l P :
  models m h (pts a l ∗ P) <->
  (forall i c, l !! i = Some c -> m !! (a + Z.of_nat i) = Some c) /\ models (clear_range m a (length l)) h P.
Proof.
  revert m a; induction l as [|c l IH]; intros m a.
  - assert (pts a [] ∗ P ⊣⊢ P) as [H1 H2]%bi.equiv_entails by apply bi.emp_sep.
    cbn [length clear_range]. split; [intros H; split; [done|]|intros [_ H]]; by eapply models_mono.
  - assert (models m h (pts a (c :: l) ∗ P) <-> models m h (cell a c ∗ pts (a + 1) l ∗ P)) as ->.
    { rewrite <- models_assoc. split; apply models_mono; by rewrite pts_cons. }
    rewrite models_cell, IH. cbn [length clear_range]. split.
    + intros (Ha & Hl & HP). split; [|done]. intros [|i] d Hi.
      * injection Hi as <-. by rewrite Z.add_0_r.
      * specialize (Hl i d Hi). apply lookup_delete_Some in Hl as [_ Hl].
        by replace (a + Z.of_nat (S i)) with (a + 1 + Z.of_nat i) by lia.
    + intros (Hl & HP). split_and!; [rewrite <- (Z.add_0_r a) at 1; by apply (Hl 0%nat)| |done].
      intros i d Hi. rewrite lookup_delete_ne by lia.
      replace (a + 1 + Z.of_nat i) with (a + Z.of_nat (S i)) by lia. by apply Hl.
Qed.

(** The cells of a run can be overwritten, and free ones taken or given back. *)
Lemma models_store m h a l l' P :
  length l' = length l -> models m h (pts a l ∗ P) -> models (set_range m a l') h (pts a l' ∗ P).
Proof.
  intros Hl [_ HP]%models_pts. apply models_pts. split.
  - intros i c Hi. rewrite lookup_set_range, decide_True.
    + by replace (Z.to_nat (a + Z.of_nat i - a)) with i by lia.
    + apply lookup_lt_Some in Hi. unfold zlen. lia.
  - replace (clear_range (set_range m a l') a (length l')) with (clear_range m a (length l)); [done|].
    apply map_eq. intros x. rewrite !lookup_clear_range, lookup_set_range, Hl. unfold zlen. rewrite Hl.
    by destruct (decide _).
Qed.

Lemma models_take m h a l P :
  (forall x, a <= x < a + zlen l -> m !! x = None) -> models m h P ->
  models (set_range m a l) h (pts a l ∗ P).
Proof.
  intros Hfree HP. apply models_pts. split.
  - intros i c Hi. rewrite lookup_set_range, decide_True.
    + by replace (Z.to_nat (a + Z.of_nat i - a)) with i by lia.
    + apply lookup_lt_Some in Hi. unfold zlen. lia.
  - replace (clear_range (set_range m a l) a (length l)) with m; [done|].
    apply map_eq. intros x. rewrite lookup_clear_range, lookup_set_range. unfold zlen in *.
    destruct (decide _); [by apply Hfree|done].
Qed.

Lemma models_drop m h a l P :
  models m h (pts a l ∗ P) -> models (clear_range m a (length l)) h P.
Proof. by intros [_ HP]%models_pts. Qed.

(** ** Rules for states *)

Section Rules.
Context `{Rodata}.
Implicit Types (P Q F : hpropI) (ms : mstate).

Lemma sat_mono ms P Q : (P ⊢ Q) -> sat ms P -> sat ms Q.
Proof. intros HPQ [Hok HP]. split; [done|]. eapply models_mono; [|exact HP]. by rewrite HPQ. Qed.

Lemma sat_pure ms phi P : sat ms (<affine> ⌜phi⌝ ∗ P) -> phi /\ sat ms P.
Proof.
  intros [Hok (w & Hw & Hm)]. destruct Hw as (w1 & w2 & -> & Hd & HP & Hr).
  destruct HP as (w3 & w4 & -> & Hd' & [Hemp Hphi] & HP). change (w3 = ∅) in Hemp. subst w3.
  split; [done|]. split; [done|]. exists (w4 ∪ w2). rewrite (map_empty_union w4) in *.
  split; [by exists w4, w2|done].
Qed.

Lemma sat_pure_intro ms phi P : phi -> sat ms P -> sat ms (<affine> ⌜phi⌝ ∗ P).
Proof. intros Hphi. apply sat_mono. iIntros "$". done. Qed.

Lemma sat_exist {A} ms (f : A -> hpropI) F : sat ms ((∃ x, f x) ∗ F) -> exists x, sat ms (f x ∗ F).
Proof.
  intros [Hok HP].
  assert (models (mem ms) (heap ms) (∃ x, (f x ∗ F) ∗ frozen rodata)) as (w & [x Hx] & Hm).
  { eapply models_mono; [|exact HP]. iIntros "[[[%x Hx] HF] Hr]". iExists x. iFrame. }
  exists x. split; [done|]. by exists w.
Qed.

Lemma sat_or ms P Q F : sat ms ((P ∨ Q) ∗ F) -> sat ms (P ∗ F) \/ sat ms (Q ∗ F).
Proof.
  intros [Hok HP].
  assert (models (mem ms) (heap ms) (((P ∗ F) ∗ frozen rodata) ∨ ((Q ∗ F) ∗ frozen rodata)))
    as (w & [Hx|Hx] & Hm).
  { eapply models_mono; [|exact HP]. iIntros "[[[HP|HQ] HF] Hr]"; [iLeft|iRight]; iFrame. }
  - left. split; [done|]. by exists w.
  - right. split; [done|]. by exists w.
Qed.

Lemma sat_assoc ms P Q F : sat ms ((P ∗ Q) ∗ F) <-> sat ms (P ∗ Q ∗ F).
Proof. split; apply sat_mono; by rewrite (bi.sep_assoc P Q F). Qed.

Lemma sat_cells ms a l F i c :
  sat ms (pts a l ∗ F) -> l !! i = Some c -> mem ms !! (a + Z.of_nat i) = Some c.
Proof.
  intros [_ [Hl _]%models_assoc%models_pts] Hi. by apply Hl.
Qed.

(** Where owned cells can be. *)
Lemma sat_range ms a l F : sat ms (pts a l ∗ F) -> l <> [] -> 0 < a /\ a + zlen l <= next ms.
Proof.
  intros Hs Hl. destruct l as [|c l]; [done|].
  assert (forall i, (i < S (length l))%nat -> 0 < a + Z.of_nat i < next ms) as Hi.
  { intros i Hi. destruct (lookup_lt_is_Some_2 (c :: l) i) as [d Hd]; [done|].
    apply (ok_mapped _ (proj1 Hs)). exists d. by eapply sat_cells. }
  pose proof (Hi 0%nat ltac:(lia)). specialize (Hi (length l) ltac:(lia)).
  unfold zlen. cbn [length]. lia.
Qed.

Lemma sat_bytes ms a l F : sat ms (pts a l ∗ F) -> Forall (fun c => match c with Byte b => is_byte b | Undef => True end) l.
Proof.
  intros Hs. apply Forall_lookup. intros i c Hi. pose proof (sat_cells _ _ _ _ _ _ Hs Hi) as Hm.
  exact (ok_mem _ (proj1 Hs) _ _ Hm).
Qed.

(** *** Loads *)

Lemma sat_load_bytes ms a bs F :
  sat ms (pts a (Byte <$> bs) ∗ F) -> load_bytes (mem ms) a (length bs) = Ret bs.
Proof.
  intros Hs. apply load_bytes_spec. split; [done|]. intros i Hi.
  destruct (lookup_lt_is_Some_2 bs i Hi) as [b Hb]. exists b. split; [done|].
  eapply sat_cells; [exact Hs|]. by rewrite list_lookup_fmap, Hb.
Qed.

Lemma sat_load_uint ms a n z F :
  sat ms (pts a (ints n z) ∗ F) -> load_uint (mem ms) a n = Ret (wrap (8 * Z.of_nat n) z).
Proof.
  intros Hs. apply sat_load_bytes in Hs. rewrite length_le_split in Hs. unfold load_uint. rewrite Hs.
  cbn [rbind]. by rewrite le_combine_split.
Qed.

Lemma sat_load_ptr ms a p F :
  0 <= p < 2 ^ 64 -> sat ms (pts a (ints 8 p) ∗ F) -> load_ptr (mem ms) a = Ret p.
Proof.
  intros Hp Hs. unfold load_ptr. rewrite (sat_load_uint _ _ _ _ _ Hs). by rewrite wrap_small.
Qed.

Lemma sat_load_u32 ms a c F :
  0 <= c < 2 ^ 32 -> sat ms (pts a (ints 4 c) ∗ F) -> load_uint (mem ms) a 4 = Ret c.
Proof. intros Hc Hs. rewrite (sat_load_uint _ _ _ _ _ Hs). by rewrite wrap_small. Qed.

Lemma sat_rodata ms a n bs P : load_bytes rodata a n = Ret bs -> sat ms P -> load_bytes (mem ms) a n = Ret bs.
Proof.
  intros [Hl Hr]%load_bytes_spec [_ (w & (w1 & w2 & -> & Hd & _ & Hf & _) & Hm & _)].
  apply load_bytes_spec. split; [done|]. intros i Hi. destruct (Hr i Hi) as (b & Hb & Ho).
  exists b. split; [done|]. specialize (Hf (a + Z.of_nat i)). specialize (Hm (a + Z.of_nat i)).
  rewrite Ho in Hf. cbn in Hf. erewrite lookup_union_Some_r in Hm by done.
  destruct (mem ms !! _); [|done]. cbn in Hm. congruence.
Qed.

(** *** Stores *)

Lemma sat_store_bytes ms a l bs F :
  sat ms (pts a l ∗ F) -> length l = length bs -> Forall is_byte bs ->
  exists ms', store_bytes ms a bs = Ret ms' /\ sat ms' (pts a (Byte <$> bs) ∗ F).
Proof.
  intros Hs Hl Hb. unfold store_bytes.
  assert (mapped (mem ms) a (length bs) = true) as Hmap.
  { apply mapped_spec. intros i Hi. destruct (lookup_lt_is_Some_2 l (Z.to_nat i)) as [c Hc]; [lia|].
    exists c. replace i with (Z.of_nat (Z.to_nat i)) by lia. by eapply sat_cells. }
  rewrite Hmap. eexists. split; [done|].
  destruct Hs as [Hok HP]. split.
  - apply (st_ok_store ms a bs); [done|done|]. unfold store_bytes. by rewrite Hmap.
  - cbn [mem heap with_mem]. apply models_assoc, (models_store _ _ _ l); [by rewrite length_fmap|].
    by apply models_assoc.
Qed.

Lemma sat_store_uint ms a l n z F :
  sat ms (pts a l ∗ F) -> length l = n ->
  exists ms', store_uint ms a n z = Ret ms' /\ sat ms' (pts a (ints n z) ∗ F).
Proof.
  intros Hs Hl. apply (sat_store_bytes _ _ _ _ _ Hs); [|apply le_split_bytes].
  by rewrite length_le_split.
Qed.

Lemma sat_memset0 ms a l n F :
  sat ms (pts a l ∗ F) -> zlen l = n ->
  exists ms' l', memset0 ms a n = Ret ms' /\ length l' = length l /\ sat ms' (pts a l' ∗ F).
Proof.
  intros Hs Hl. unfold zlen in Hl.
  destruct (sat_store_bytes ms a l (replicate (Z.to_nat n) 0) F Hs) as (ms' & E & Hs').
  - rewrite length_replicate. lia.
  - by apply Forall_replicate.
  - exists ms'. eexists. split; [exact E|]. split; [|exact Hs']. rewrite length_fmap, length_replicate. lia.
Qed.

Lemma sat_memcpy ms a l src n bs F :
  sat ms (pts a l ∗ F) -> zlen l = n -> load_bytes rodata src (Z.to_nat n) = Ret bs ->
  exists ms' l', memcpy ms a src n = Ret ms' /\ length l' = length l /\ sat ms' (pts a l' ∗ F).
Proof.
  intros Hs Hl Hr. unfold memcpy. pose proof (sat_rodata _ _ _ _ _ Hr Hs) as Hload. rewrite Hload. cbn [rbind].
  destruct (load_bytes_ok _ _ _ _ (ok_mem _ (proj1 Hs)) Hload) as [Hb Hlen]. unfold zlen in Hl.
  destruct (sat_store_bytes ms a l bs F Hs) as (ms' & E & Hs'); [lia|done|].
  exists ms'. eexists. split; [exact E|]. split; [|exact Hs']. rewrite length_fmap. lia.
Qed.

(** *** Locals *)

Lemma sat_local_alloc ms bs P a ms' :
  sat ms P -> Forall is_byte bs -> local_alloc ms bs = (a, ms') -> sat ms' (pts a (Byte <$> bs) ∗ P).
Proof.
  intros [[Hmem Hmap Hheap Hdis Hnext] HP] Hb E. unfold local_alloc, take_fresh in E. injection E as <- <-.
  set (l := Byte <$> bs). pose proof (align_up_ge (zlen l) 16 ltac:(lia)). pose proof (zlen_nonneg l).
  split.
  - split; cbn [mem heap next].
    + intros x c Hx. rewrite lookup_set_range in Hx. destruct (decide _); [|by eapply Hmem].
      unfold l in Hx. rewrite list_lookup_fmap in Hx. destruct (bs !! _) as [b|] eqn:Eb; [|done].
      injection Hx as <-. by eapply Forall_lookup_1.
    + intros x Hx. rewrite lookup_set_range in Hx. destruct (decide _); [lia|].
      specialize (Hmap x Hx). lia.
    + intros p size Hp. specialize (Hheap p size Hp). lia.
    + exact Hdis.
    + lia.
  - cbn [mem heap]. apply models_assoc, models_take; [|exact HP].
    intros x Hx. destruct (mem ms !! x) eqn:Ex; [|done].
    assert (0 < x < next ms) by (apply Hmap; by eexists). lia.
Qed.

Lemma sat_local_free ms a l n P :
  sat ms (pts a l ∗ P) -> zlen l = n -> sat (local_free ms a n) P.
Proof.
  intros [[Hmem Hmap Hheap Hdis Hnext] HP] <-. unfold local_free, with_mem, zlen. rewrite Nat2Z.id. split.
  - split; cbn [mem heap next]; try done.
    + intros x c Hx. rewrite lookup_clear_range in Hx. destruct (decide _); [done|]. by eapply Hmem.
    + intros x Hx. rewrite lookup_clear_range in Hx. destruct (decide _); [by destruct Hx|]. by apply Hmap.
  - cbn [mem heap]. apply models_drop with (P := (P ∗ frozen rodata)%I).
    by apply models_assoc.
Qed.

(** *** The heap *)

Lemma sat_block ms p n F : sat ms (block p n ∗ F) -> heap ms !! p = Some n.
Proof.
  by intros [_ [? _]%models_assoc%models_block].
Qed.

Lemma heap_drop_ok ms p n : st_ok ms -> st_ok (heap_drop ms p n).
Proof.
  intros [Hmem Hmap Hheap Hdis Hnext]. split; cbn [heap_drop mem heap next]; try done.
  - intros x c Hx. rewrite lookup_clear_range in Hx. destruct (decide _); [done|]. by eapply Hmem.
  - intros x Hx. rewrite lookup_clear_range in Hx. destruct (decide _); [by destruct Hx|]. by apply Hmap.
  - intros q size [_ Hq]%lookup_delete_Some. by apply Hheap.
  - intros q1 s1 q2 s2 [_ H1]%lookup_delete_Some [_ H2]%lookup_delete_Some. by apply Hdis.
Qed.

Lemma sat_free ms p l F :
  sat ms (blk p l ∗ F) -> exists ms', pb_free p ms = Ret ms' /\ sat ms' F.
Proof.
  intros Hs. unfold blk in Hs. apply sat_assoc in Hs. pose proof (sat_block _ _ _ _ Hs) as Hp.
  destruct Hs as [Hok HP]. destruct (ok_heap _ Hok _ _ Hp) as (Hpos & _ & _).
  unfold pb_free. destruct (Z.eqb_spec p 0); [lia|]. rewrite Hp. eexists. split; [done|].
  split; [by apply heap_drop_ok|]. cbn [heap_drop mem heap].
  apply models_assoc, models_block in HP as [_ HP]. apply models_assoc, models_drop in HP.
  unfold zlen. by rewrite Nat2Z.id.
Qed.

(** A pointer to a block, or NULL for an empty one. *)
Definition oblk (p : Z) (l : list mbyte) : hpropI :=
  if p =? 0 then (<affine> ⌜l = []⌝)%I else blk p l.

Lemma oblk_null : oblk 0 [] ⊣⊢ emp.
Proof. unfold oblk. cbn. iSplit; by iIntros "_". Qed.

Lemma blk_oblk p l : p <> 0 -> blk p l ⊣⊢ oblk p l.
Proof. intros Hp. unfold oblk. by destruct (Z.eqb_spec p 0). Qed.

Lemma sat_free_null ms p l F :
  sat ms (oblk p l ∗ F) -> exists ms', pb_free p ms = Ret ms' /\ sat ms' F.
Proof.
  unfold oblk. destruct (Z.eqb_spec p 0) as [->|Hp]; [|apply sat_free].
  intros [_ Hs]%sat_pure. by exists ms.
Qed.

Lemma cells_pts m a l :
  (forall i c, l !! i = Some c -> m !! (a + Z.of_nat i) = Some c) -> cells m a (length l) = l.
Proof.
  intros Hl. apply list_eq. intros i. destruct (decide (i < length l)%nat) as [Hi|Hi].
  - rewrite lookup_cells by done. destruct (lookup_lt_is_Some_2 l i Hi) as [c Hc]. by rewrite Hc, (Hl i c Hc).
  - by rewrite !lookup_ge_None_2 by (rewrite ?length_cells; lia).
Qed.

Lemma models_block_take m h p n P :
  h !! p = None -> models m h P -> models m (<[p:=n]> h) (block p n ∗ P).
Proof. intros Hp HP. apply models_block. rewrite lookup_insert_eq. split; [done|]. by rewrite delete_insert_id. Qed.

(** [realloc]: refused, or a new block that starts with the old contents. *)
Lemma sat_realloc `{Allocator} ms p l size F :
  sat ms (oblk p l ∗ F) -> 0 < size ->
  exists q ms', pb_realloc p size ms = Ret (q, ms')
    /\ (q = 0 /\ ms' = ms \/ 0 < q < 2 ^ 63 /\ sat ms' (blk q (grown l (Z.to_nat size)) ∗ F)).
Proof.
  intros Hs Hsize. pose proof (proj1 Hs) as Hok. pose proof (ok_next _ Hok) as Hnext.
  assert (block_size ms p = Some (zlen l)) as Hb.
  { unfold block_size, oblk in *. destruct (Z.eqb_spec p 0); [by apply sat_pure in Hs as [-> _]|].
    unfold blk in Hs. apply sat_assoc in Hs. by eapply sat_block. }
  pose proof (fun q ms' => pb_realloc_spec p size ms q ms' Hok Hsize) as Hspec.
  unfold pb_realloc in *. fold (block_size ms p) in *. rewrite Hb in *. cbn [take_fresh] in *.
  destruct (_ || _) eqn:Ef; [exists 0, ms; by split; [|left]|]. apply orb_false_iff in Ef as [_ Ef%Z.leb_gt].
  pose proof (align_up_ge size 16 ltac:(lia)) as Ha. unfold zlen in *. rewrite Nat2Z.id in *.
  set (g := grown (cells (mem ms) p (length l)) (Z.to_nat size)) in *.
  assert (Z.of_nat (length g) = size) as Hg by (unfold g; rewrite length_grown; lia).
  assert (exists ms', pb_free p (heap_add (snd (take_fresh ms g)) (next ms) size) = Ret ms'
    /\ models (mem ms') (heap ms') ((blk (next ms) (grown l (Z.to_nat size)) ∗ F) ∗ frozen rodata)) as (ms' & E & HP).
  2: { unfold take_fresh in *. cbn [snd] in *. unfold zlen in *. rewrite E in Hspec |- *.
       cbn [rbind] in *. exists (next ms), ms'. split; [done|]. right.
       destruct (Hspec (next ms) ms' eq_refl ltac:(lia)) as (? & _ & _ & Hok' & Hlt & _).
       split; [lia|]. by split. }
  assert (forall x, next ms <= x < next ms + zlen g -> mem ms !! x = None) as Hfresh.
  { intros x Hx. destruct (mem ms !! x) eqn:Ex; [|done]. assert (0 < x < next ms) by (apply (ok_mapped _ Hok); by eexists).
    lia. }
  assert (heap ms !! next ms = None) as Hnew.
  { destruct (heap ms !! next ms) eqn:Eh; [|done]. apply (ok_heap _ Hok) in Eh. lia. }
  unfold heap_add, take_fresh. cbn [snd mem heap next].
  destruct Hs as [_ HP]. unfold oblk in HP. unfold pb_free. destruct (Z.eqb_spec p 0) as [->|Hp].
  - assert (sat ms (<affine> ⌜l = []⌝ ∗ F)) as [-> [_ HF]]%sat_pure by (split; done).
    eexists. split; [done|]. cbn [mem heap]. apply models_assoc. unfold blk. apply models_assoc.
    replace (zlen (grown [] (Z.to_nat size))) with size by (unfold zlen; rewrite length_grown; lia).
    apply models_block_take; [done|]. by apply models_take.
  - unfold blk in HP. rewrite !models_assoc in HP. pose proof HP as [Hh _]%models_block.
    cbn [heap]. assert (p <> next ms) as Hne by (intros ->; congruence).
    rewrite lookup_insert_ne, Hh by done. eexists. split; [done|]. cbn [heap_drop mem heap].
    assert (g = grown l (Z.to_nat size)) as Eg.
    { unfold g. f_equal. apply cells_pts. apply models_block in HP as [_ HP].
      apply models_pts in HP as [Hl _]. exact Hl. }
    rewrite Eg in *. unfold zlen. rewrite Nat2Z.id.
    apply (models_take _ _ (next ms) _ _ Hfresh) in HP.
    apply (models_block_take _ _ (next ms) size _ Hnew) in HP.
    apply (models_mono _ _ _ (block p (zlen l) ∗ pts p l ∗ block (next ms) size ∗
      pts (next ms) (grown l (Z.to_nat size)) ∗ F ∗ frozen rodata)) in HP.
    2: { iIntros "($ & $ & $ & $ & $ & $)". }
    apply models_block in HP as [_ HP]. apply models_drop in HP.
    apply models_assoc. unfold blk. apply models_assoc. unfold zlen. by rewrite Hg.
Qed.
End Rules.
