(* ===== verification/PbOwn.v ===== *)
(** * What a decoded message owns

    The ownership invariant of a message struct, for message types without
    oneofs, callbacks and extensions.  The struct's cells are described by their
    contents [l]; what a field owns beyond them (the block behind a pointer, the
    entries of an array behind a pointer, and what those own) is a function
    of the contents of the field, so that a struct can be moved by [realloc].
    [typed] says that a descriptor array describes a struct of a given size. *)
From S2P Require Import Prelude CMem CLayout PbH PbStream PbCommon PbDecodeTotal SepMem.
From Stdlib Require Import ZArith Lia.
From stdpp Require Import base tactics numbers list gmap.
From iris.bi Require Import interface.
From iris.proofmode Require Import proofmode.
#[local] Unset SsrRewrite.
#[local] Open Scope Z_scope.

(** ** Parts of a list *)

Section Slices.
Context {A : Type}.
Implicit Types (l x : list A) (o n : Z).

Definition slice o n l : list A := take (Z.to_nat n) (drop (Z.to_nat o) l).

(** [l] with the part at [o] replaced by [x]. *)
Definition splice o x l : list A :=
  take (Z.to_nat o) l ++ x ++ drop (Z.to_nat o + length x) l.

Lemma length_slice o n l : 0 <= o -> 0 <= n -> o + n <= zlen l -> length (slice o n l) = Z.to_nat n.
Proof. unfold slice, zlen. intros. rewrite length_take, length_drop. lia. Qed.

Lemma zlen_slice o n l : 0 <= o -> 0 <= n -> o + n <= zlen l -> zlen (slice o n l) = n.
Proof. intros. unfold zlen at 1. rewrite length_slice by done. lia. Qed.

Lemma zlen_splice o x l : 0 <= o -> o + zlen x <= zlen l -> zlen (splice o x l) = zlen l.
Proof. unfold splice, zlen. intros. rewrite !length_app, length_take, length_drop. lia. Qed.

Lemma lookup_slice o n l i :
  (i < Z.to_nat n)%nat -> slice o n l !! i = l !! (Z.to_nat o + i)%nat.
Proof. intros Hi. unfold slice. by rewrite lookup_take_lt, lookup_drop by done. Qed.

Lemma lookup_splice_in o x l i :
  0 <= o -> o + zlen x <= zlen l -> (i < length x)%nat -> splice o x l !! (Z.to_nat o + i)%nat = x !! i.
Proof.
  unfold splice, zlen. intros Ho Hl Hi. rewrite lookup_app_r; rewrite length_take; [|lia].
  rewrite lookup_app_l by lia. f_equal. lia.
Qed.

Lemma lookup_splice_out o x l i :
  0 <= o -> o + zlen x <= zlen l -> (Z.of_nat i < o \/ o + zlen x <= Z.of_nat i) ->
  splice o x l !! i = l !! i.
Proof.
  unfold splice, zlen. intros Ho Hl [Hi|Hi].
  - rewrite lookup_app_l by (rewrite length_take; lia). by rewrite lookup_take_lt by lia.
  - rewrite lookup_app_r; rewrite length_take; [|lia]. rewrite lookup_app_r by lia.
    rewrite lookup_drop. f_equal. lia.
Qed.

Lemma slice_splice_eq o n x l :
  0 <= o -> zlen x = n -> o + n <= zlen l -> slice o n (splice o x l) = x.
Proof.
  intros Ho Hx Hl. apply list_eq. intros i. destruct (decide (i < length x)%nat) as [Hi|Hi].
  - rewrite lookup_slice by (unfold zlen in *; lia). rewrite lookup_splice_in by lia. done.
  - rewrite (lookup_ge_None_2 x) by lia. apply lookup_ge_None_2. unfold slice. rewrite length_take.
    unfold zlen in *. lia.
Qed.

(** Two parts that do not overlap. *)
Definition apart (o n o' n' : Z) : Prop := n = 0 \/ n' = 0 \/ o + n <= o' \/ o' + n' <= o.

Lemma apart_sym o n o' n' : apart o n o' n' -> apart o' n' o n.
Proof. unfold apart. lia. Qed.

Lemma slice_splice_ne o n o' x l :
  0 <= o -> 0 <= n -> o + n <= zlen l -> 0 <= o' -> o' + zlen x <= zlen l -> apart o n o' (zlen x) ->
  slice o n (splice o' x l) = slice o n l.
Proof.
  intros Ho Hn Hl Ho' Hl' Hd. apply list_eq. intros i. destruct (decide (i < Z.to_nat n)%nat) as [Hi|Hi].
  - rewrite !lookup_slice by done. destruct (decide (zlen x = 0)) as [Hx|Hx].
    + apply lookup_splice_out; [done|done|]. rewrite Hx. lia.
    + apply lookup_splice_out; [done|done|]. destruct Hd as [|[|[|]]]; lia.
  - rewrite !lookup_ge_None_2; [done|..]; unfold slice; rewrite length_take; lia.
Qed.

Lemma slice_full l n : n = zlen l -> slice 0 n l = l.
Proof. intros ->. unfold slice, zlen. rewrite Nat2Z.id. cbn [Z.to_nat drop]. by apply take_ge. Qed.

Lemma splice_slice o n l : 0 <= o -> 0 <= n -> o + n <= zlen l -> splice o (slice o n l) l = l.
Proof.
  intros Ho Hn Hl. unfold splice. rewrite length_slice by done. unfold slice.
  rewrite <- drop_drop. rewrite (take_drop (Z.to_nat n)). apply take_drop.
Qed.
End Slices.

(** ** Cells of a part of a struct *)

Section Parts.
Implicit Types (l x : list mbyte).

(** The struct around one of its parts. *)
Definition hole (a o n : Z) l : hpropI :=
  (pts a (take (Z.to_nat o) l) ∗ pts (a + o + n) (drop (Z.to_nat o + Z.to_nat n) l))%I.

Lemma pts_join a o n x l :
  0 <= o -> zlen x = n -> o + n <= zlen l -> pts (a + o) x ∗ hole a o n l ⊣⊢ pts a (splice o x l).
Proof.
  intros Ho Hx Hl. unfold hole, splice. rewrite !pts_app. unfold zlen in *.
  rewrite length_take, Nat.min_l, Z2Nat.id by lia. replace (Z.to_nat n) with (length x) by lia.
  rewrite Hx. iSplit; iIntros "($ & $ & $)".
Qed.

Lemma pts_split a o n l :
  0 <= o -> 0 <= n -> o + n <= zlen l -> pts a l ⊣⊢ pts (a + o) (slice o n l) ∗ hole a o n l.
Proof.
  intros Ho Hn Hl. rewrite pts_join by (done || by apply zlen_slice). by rewrite splice_slice.
Qed.

Lemma slice_empty o l : slice o 0 l = [].
Proof. done. Qed.

Lemma splice_empty o l : splice o [] l = l.
Proof. unfold splice. cbn [app length]. rewrite Nat.add_0_r. apply take_drop. Qed.

Lemma splice_take o x k l :
  0 <= o -> o + zlen x <= k -> k <= zlen l ->
  splice o x (take (Z.to_nat k) l) = take (Z.to_nat k) (splice o x l).
Proof.
  intros Ho Hx Hk. pose proof (zlen_nonneg x). apply list_eq. intros i.
  assert (zlen (take (Z.to_nat k) l) = k) as Hl by (unfold zlen in *; rewrite length_take; lia).
  destruct (decide (i < Z.to_nat k)%nat) as [Hi|Hi].
  - rewrite lookup_take_lt by done. destruct (decide (o <= Z.of_nat i < o + zlen x)) as [Hin|Hout].
    + replace i with (Z.to_nat o + (i - Z.to_nat o))%nat by lia. unfold zlen in *. by rewrite !lookup_splice_in by (unfold zlen; lia).
    + rewrite !lookup_splice_out by lia. by rewrite lookup_take_lt.
  - rewrite lookup_take_ge by lia. apply lookup_ge_None_2.
    pose proof (zlen_splice o x (take (Z.to_nat k) l) Ho ltac:(lia)). unfold zlen in *. lia.
Qed.

Lemma splice_drop o x k l :
  0 <= o -> o + zlen x <= Z.of_nat k -> o + zlen x <= zlen l -> drop k (splice o x l) = drop k l.
Proof.
  intros Ho Hx Hl. apply list_eq. intros i. rewrite !lookup_drop. apply lookup_splice_out; [done|done|lia].
Qed.

(** Two parts of the same run, to be replaced: what the run becomes. *)
Definition two_replaced (o n o' n' : Z) x x' l l' : Prop :=
  zlen l' = zlen l /\ slice o n l' = x /\ slice o' n' l' = x'
  /\ forall k m, 0 <= k -> 0 <= m -> k + m <= zlen l -> apart k m o n -> apart k m o' n' -> slice k m l' = slice k m l.

Lemma splices_replaced o n o' n' x x' l :
  0 <= o -> zlen x = n -> o + n <= zlen l -> 0 <= o' -> zlen x' = n' -> o' + n' <= zlen l ->
  apart o n o' n' -> two_replaced o n o' n' x x' l (splice o' x' (splice o x l)).
Proof.
  intros Ho Hx Hn Ho' Hx' Hn' Ha. pose proof (zlen_nonneg x). pose proof (zlen_nonneg x').
  pose proof (zlen_splice o x l Ho ltac:(lia)) as Hs. split_and!.
  - rewrite zlen_splice; lia.
  - rewrite slice_splice_ne; [|try lia..]; [apply slice_splice_eq; lia|]. by rewrite Hx'.
  - apply slice_splice_eq; lia.
  - intros k m Hk Hm Hkm H1 H2. rewrite !slice_splice_ne; try lia; [done| |]; by subst.
Qed.

Lemma two_replaced_sym o n o' n' x x' l l' :
  two_replaced o n o' n' x x' l l' -> two_replaced o' n' o n x' x l l'.
Proof. intros (? & ? & ? & Hr). split_and!; try done. intros. by apply Hr. Qed.

Lemma pts_two_ordered a o n o' n' l :
  0 <= o -> 0 <= n -> 0 <= n' -> o + n <= o' -> o' + n' <= zlen l ->
  pts a l ⊢ pts (a + o) (slice o n l) ∗ pts (a + o') (slice o' n' l)
    ∗ ∀ x x', <affine> ⌜zlen x = n /\ zlen x' = n'⌝ -∗ pts (a + o) x -∗ pts (a + o') x' -∗
        pts a (splice o' x' (splice o x l)).
Proof.
  intros Ho Hn Hn' Hd Hl. rewrite (pts_split a o' n' l) by lia. unfold hole at 1.
  assert (zlen (take (Z.to_nat o') l) = o') as Ht by (unfold zlen in *; rewrite length_take; lia).
  rewrite (pts_split a o n (take (Z.to_nat o') l)) by lia.
  assert (slice o n (take (Z.to_nat o') l) = slice o n l) as ->.
  { apply list_eq. intros i. destruct (decide (i < Z.to_nat n)%nat).
    - rewrite !lookup_slice by done. by rewrite lookup_take_lt by lia.
    - rewrite !lookup_ge_None_2; [done|..]; unfold slice; rewrite length_take; lia. }
  iIntros "(Hy & (Hx & Hhole) & Hd)". iFrame "Hx Hy". iIntros (x x' [Hx Hx']) "Hx Hx'".
  iApply (pts_join a o' n' x' (splice o x l)); [lia|done|rewrite zlen_splice; lia|]. iFrame "Hx'".
  unfold hole at 2. rewrite <- splice_take, splice_drop by (unfold zlen in *; lia). iFrame "Hd".
  iApply (pts_join a o n); [lia|done|lia|]. iFrame.
Qed.

(** Taking two parts out of a run, and putting others in their place. *)
Lemma pts_two a o n o' n' l :
  0 <= o -> 0 <= n -> o + n <= zlen l -> 0 <= o' -> 0 <= n' -> o' + n' <= zlen l -> apart o n o' n' ->
  pts a l ⊢ pts (a + o) (slice o n l) ∗ pts (a + o') (slice o' n' l)
    ∗ ∀ x x', <affine> ⌜zlen x = n /\ zlen x' = n'⌝ -∗ pts (a + o) x -∗ pts (a + o') x' -∗
        ∃ l', <affine> ⌜two_replaced o n o' n' x x' l l'⌝ ∗ pts a l'.
Proof.
  intros Ho Hn Hon Ho' Hn' Hon' Ha.
  assert (forall o k, @slice mbyte o 0 k = []) as Hnil by done.
  assert (forall x : list mbyte, zlen x = 0 -> x = []) as Hzero by (intros [|? ?]; [done|]; unfold zlen; cbn; lia).
  destruct Ha as [->|[->|[Hd|Hd]]].
  - rewrite (pts_split a o' n' l) by done. rewrite Hnil, pts_nil. iIntros "[$ Hhole]".
    iIntros (x x' [Hx Hx']) "Hx Hx'". rewrite (Hzero x Hx). iDestruct (pts_nil (a + o) with "Hx") as "_". iExists (splice o' x' (splice o [] l)). iSplitR.
    + iPureIntro. apply splices_replaced; try done. by left.
    + rewrite splice_empty. iApply (pts_join a o' n'); [lia|done|lia|]. iFrame.
  - rewrite (pts_split a o n l) by done. rewrite Hnil, pts_nil. iIntros "[$ Hhole]". iSplitR; [done|].
    iIntros (x x' [Hx Hx']) "Hx Hx'". rewrite (Hzero x' Hx'). iDestruct (pts_nil (a + o') with "Hx'") as "_". iExists (splice o' [] (splice o x l)). iSplitR.
    + iPureIntro. apply splices_replaced; try done. right. by left.
    + rewrite splice_empty. iApply (pts_join a o n); [lia|done|lia|]. iFrame.
  - iIntros "Hl". iDestruct (pts_two_ordered a o n o' n' l with "Hl") as "($ & $ & Hw)"; [done..|]. iIntros (x x' [Hx Hx']) "Hx Hx'".
    iExists (splice o' x' (splice o x l)). iSplitR.
    + iPureIntro. apply splices_replaced; try done. right. right. by left.
    + iApply ("Hw" with "[] Hx Hx'"). done.
  - iIntros "Hl". iDestruct (pts_two_ordered a o' n' o n l with "Hl") as "($ & $ & Hw)"; [done..|]. iIntros (x x' [Hx Hx']) "Hx Hx'".
    iExists (splice o x (splice o' x' l)). iSplitR.
    + iPureIntro. apply two_replaced_sym, splices_replaced; try done. right. right. by left.
    + iApply ("Hw" with "[] Hx' Hx"). done.
Qed.
End Parts.

(** ** Descriptors of structs *)

Section Typed.
Context `{Descriptors} `{Rodata}.

Definition is_pointer (f : pb_field_t) : bool := PB_ATYPE (pf_type f) =? PB_ATYPE_POINTER.
Definition is_repeated (f : pb_field_t) : bool := PB_HTYPE (pf_type f) =? PB_HTYPE_REPEATED.
Definition is_submessage (f : pb_field_t) : bool := PB_LTYPE (pf_type f) =? PB_LTYPE_SUBMESSAGE.
Definition is_text (f : pb_field_t) : bool :=
  (PB_LTYPE (pf_type f) =? PB_LTYPE_STRING) || (PB_LTYPE (pf_type f) =? PB_LTYPE_BYTES).

(** The descriptors of a submessage field. *)
Definition sub_fields (f : pb_field_t) : list pb_field_t := default [] (descriptor_at (pf_ptr f)).

(** The bytes of a field's count or presence member. *)
Definition size_len (f : pb_field_t) : Z :=
  if pf_size_offset f =? 0 then 0
  else if PB_HTYPE (pf_type f) =? PB_HTYPE_OPTIONAL then 1
  else if is_repeated f then 4 else 0.

Definition data_off (fields : list pb_field_t) (i : nat) : Z := it_pData (iter_at fields 0 i).
Definition size_off (fields : list pb_field_t) (i : nat) : Z := it_pSize (iter_at fields 0 i).

(** The least size of a scalar's member. *)
Definition least_size (f : pb_field_t) : Z :=
  let ltype := PB_LTYPE (pf_type f) in
  if ltype =? PB_LTYPE_BOOL then 1
  else if ltype =? PB_LTYPE_FIXED32 then 4
  else if ltype =? PB_LTYPE_FIXED64 then 8 else 0.

(** No pointers, and nothing whose release would read a count. *)
Fixpoint flat (n : nat) (fields : list pb_field_t) : Prop :=
  match n with
  | O => False
  | S n =>
      forall i, (i < field_count fields)%nat ->
        let f := nth_field fields i in
        is_pointer f = false
        /\ (is_submessage f = true -> is_repeated f = false /\ flat n (sub_fields f))
  end.

Definition static_typed (n : nat) (f : pb_field_t) : Prop :=
  PB_ATYPE (pf_type f) = PB_ATYPE_STATIC
  /\ (is_repeated f = true ->
        pf_data_size f * pf_array_size f < 2 ^ 32
        /\ (pf_size_offset f = 0 -> 4 <= pf_data_size f * pf_array_size f)
        /\ (is_submessage f = true -> flat n (sub_fields f)))
  /\ (is_submessage f = false -> is_repeated f = false -> pf_ptr f <> 0 ->
        exists bs, load_bytes rodata (pf_ptr f) (Z.to_nat (pf_data_size f)) = Ret bs).

(** [limit] bounds the number of bytes that will be decoded, and with it the
    number of entries of any array. *)
Definition pointer_typed (limit : Z) (f : pb_field_t) : Prop :=
  PB_ATYPE (pf_type f) = PB_ATYPE_POINTER
  /\ (if is_repeated f
      then pf_size_offset f <> 0 /\ 0 < pf_data_size f /\ pf_data_size f * limit < 2 ^ 32
           /\ (is_text f = true -> pf_data_size f = 8)
      else pf_size_offset f = 0).

Definition field_typed (n : nat) (limit : Z) (sub_typed : list pb_field_t -> Z -> Prop) (f : pb_field_t) : Prop :=
  PbDecodeTotal.plain f
  /\ (PB_HTYPE (pf_type f) = PB_HTYPE_REQUIRED \/ PB_HTYPE (pf_type f) = PB_HTYPE_OPTIONAL
      \/ is_repeated f = true)
  /\ PB_LTYPE (pf_type f) < PB_LTYPES_COUNT
  /\ (PB_HTYPE (pf_type f) = PB_HTYPE_REQUIRED -> pf_size_offset f = 0)
  /\ least_size f <= pf_data_size f
  /\ (is_submessage f = true -> 
      pf_ptr f <> 0 /\ descriptor_at (pf_ptr f) = Some (sub_fields f) /\ sub_typed (sub_fields f) (pf_data_size f))
  /\ (static_typed n f \/ pointer_typed limit f).

(** The members of the struct do not overlap and are inside it. *)
Definition layout_ok (fields : list pb_field_t) (size : Z) : Prop :=
  forall i, (i < field_count fields)%nat ->
    let f := nth_field fields i in
    0 <= data_off fields i /\ data_off fields i + field_extent f <= size
    /\ 0 <= size_off fields i /\ size_off fields i + size_len f <= size
    /\ apart (data_off fields i) (field_extent f) (size_off fields i) (size_len f)
    /\ forall j, (j < field_count fields)%nat -> i <> j ->
         let g := nth_field fields j in
         apart (data_off fields i) (field_extent f) (data_off fields j) (field_extent g)
         /\ apart (data_off fields i) (field_extent f) (size_off fields j) (size_len g)
         /\ apart (size_off fields i) (size_len f) (size_off fields j) (size_len g).

Fixpoint typed (n : nat) (limit : Z) (fields : list pb_field_t) (size : Z) : Prop :=
  match n with
  | O => False
  | S n =>
      wf_table fields /\ Forall PbDecodeTotal.plain fields /\ (0 < field_count fields)%nat /\ 0 < size
      /\ layout_ok fields size
      /\ forall i, (i < field_count fields)%nat -> field_typed n limit (typed n limit) (nth_field fields i)
  end.
End Typed.

(** ** Ownership *)

(** The state a field can be in: nothing known, no blocks and a count of zero
    (as the defaults leave it), or any value received, with at most [b] entries
    in an array behind a pointer. *)
Inductive fstate : Type :=
| Raw
| Empty
| Full (b : Z).

Definition fstate_bound (st : fstate) : Z :=
  match st with
  | Full b => b
  | _ => 0
  end.

Definition fstate_le (st st' : fstate) : Prop :=
  match st, st' with
  | Empty, Empty => True
  | Empty, Full b => 0 <= b
  | Full b, Full b' => b <= b'
  | _, _ => False
  end.

Section Ownership.
Context `{Descriptors} `{Rodata}.
Implicit Types (st : fstate) (f : pb_field_t) (x y l : list mbyte).

(** One entry of an array behind a pointer: text and bytes are behind a pointer
    of their own.  [sub] is the ownership of a submessage's contents. *)
Definition item_R (sub : list pb_field_t -> list mbyte -> hpropI) f x : hpropI :=
  (if is_text f then ∃ q l, <affine> ⌜x = ints 8 q /\ 0 <= q < 2 ^ 64⌝ ∗ oblk q l
  else if is_submessage f then sub (sub_fields f) x
  else emp)%I.

(** What a field owns, given the contents [x] of its member and [y] of its count
    or presence member. *)
Definition field_R (sub : fstate -> list pb_field_t -> list mbyte -> hpropI) st f x y : hpropI :=
  (match st with
  | Raw => emp
  | _ =>
      if is_pointer f then
        if is_repeated f then
          ∃ p c items,
            <affine> ⌜x = ints 8 p /\ 0 <= p < 2 ^ 64 /\ y = ints 4 c /\ 0 <= c <= fstate_bound st
              /\ c * pf_data_size f <= zlen items /\ (st = Empty -> p = 0)⌝
            ∗ oblk p items
            ∗ [∗ list] j ∈ seq 0 (Z.to_nat c),
                item_R (sub st) f (slice (Z.of_nat j * pf_data_size f) (pf_data_size f) items)
        else
          ∃ p l,
            <affine> ⌜x = ints 8 p /\ 0 <= p < 2 ^ 64 /\ (st = Empty -> p = 0)
              /\ (is_submessage f = true -> p <> 0 -> zlen l = pf_data_size f)⌝
            ∗ oblk p l
            ∗ if is_submessage f && negb (p =? 0) then sub st (sub_fields f) l else emp
      else
        if is_repeated f then
          <affine> ⌜pf_size_offset f <> 0 -> exists c, 0 <= c < 2 ^ 32 /\ y = ints 4 c⌝
        else if is_submessage f then sub st (sub_fields f) x
        else emp
  end)%I.

Definition part_data (fields : list pb_field_t) (i : nat) l : list mbyte :=
  slice (data_off fields i) (field_extent (nth_field fields i)) l.
Definition part_size (fields : list pb_field_t) (i : nat) l : list mbyte :=
  slice (size_off fields i) (size_len (nth_field fields i)) l.

(** What a struct with contents [l] owns, its fields in the states [sts]. *)
Fixpoint msg_R (n : nat) (sts : nat -> fstate) (fields : list pb_field_t) l : hpropI :=
  match n with
  | O => emp%I
  | S n =>
      ([∗ list] i ∈ seq 0 (field_count fields),
        field_R (fun st sub x => msg_R n (fun _ => st) sub x) (sts i) (nth_field fields i)
          (part_data fields i l) (part_size fields i l))%I
  end.

(** The struct at [dest], with all it owns. *)
Definition own (n : nat) (sts : nat -> fstate) (fields : list pb_field_t) (size dest : Z) : hpropI :=
  (∃ l, <affine> ⌜zlen l = size⌝ ∗ pts dest l ∗ msg_R n sts fields l)%I.

(** Any contents, and nothing more. *)
Definition raw (a n : Z) : hpropI := (∃ l, <affine> ⌜zlen l = n⌝ ∗ pts a l)%I.

(** One field alone, at the addresses the iterator gives it. *)
Definition fld (n : nat) st f (pData pSize : Z) : hpropI :=
  (∃ x y, <affine> ⌜zlen x = field_extent f /\ zlen y = size_len f⌝
    ∗ pts pData x ∗ pts pSize y ∗ field_R (fun st sub x => msg_R n (fun _ => st) sub x) st f x y)%I.

Lemma msg_R_ext n sts sts' fields l :
  (forall i, (i < field_count fields)%nat -> sts i = sts' i) -> msg_R n sts fields l ⊣⊢ msg_R n sts' fields l.
Proof.
  destruct n as [|n]; [done|]. intros He. cbn [msg_R]. apply big_sepL_proper. intros k i Hi.
  apply lookup_seq in Hi as [-> Hi]. by rewrite He.
Qed.

Lemma own_ext n sts sts' fields size dest :
  (forall i, (i < field_count fields)%nat -> sts i = sts' i) ->
  own n sts fields size dest ⊣⊢ own n sts' fields size dest.
Proof. intros He. unfold own. do 4 f_equiv. by apply msg_R_ext. Qed.

Definition set_state (sts : nat -> fstate) (i : nat) st : nat -> fstate :=
  fun j => if (j =? i)%nat then st else sts j.

Lemma field_extent_nonneg f : field_ok f -> 0 <= field_extent f.
Proof.
  intros (_ & _ & Hd & _). unfold field_extent. destruct (_ && _).
  - pose proof (wrap_range 64 (pf_data_size f * pf_array_size f) ltac:(lia)). unfold u64. lia.
  - destruct (_ =? _); lia.
Qed.

Lemma size_len_nonneg f : 0 <= size_len f.
Proof. unfold size_len. repeat case_match; lia. Qed.

Section Focus.
Context (n : nat) (fields : list pb_field_t) (size dest : Z).
Context (Hlay : layout_ok fields size) (Hok : Forall PbDecodeTotal.plain fields) (Hwf : wf_table fields).

Lemma field_ok_nth i : (i < field_count fields)%nat -> field_ok (nth_field fields i).
Proof.
  intros Hi. pose proof (nth_field_lookup fields Hwf i ltac:(lia)) as Hl.
  by destruct (Forall_lookup_1 _ _ _ _ Hok Hl) as (? & _).
Qed.

(** The parts of a field, to be replaced. *)
Lemma parts_focus i l :
  (i < field_count fields)%nat -> zlen l = size ->
  let f := nth_field fields i in
  pts dest l ⊢ pts (dest + data_off fields i) (part_data fields i l)
    ∗ pts (dest + size_off fields i) (part_size fields i l)
    ∗ (∀ x y, <affine> ⌜zlen x = field_extent f /\ zlen y = size_len f⌝ -∗
        pts (dest + data_off fields i) x -∗ pts (dest + size_off fields i) y -∗
        ∃ l', <affine> ⌜zlen l' = size /\ part_data fields i l' = x /\ part_size fields i l' = y
          /\ forall j, (j < field_count fields)%nat -> j <> i ->
               part_data fields j l' = part_data fields j l /\ part_size fields j l' = part_size fields j l⌝
        ∗ pts dest l').
Proof.
  intros Hi Hl f. subst f. destruct (Hlay i Hi) as (Hd0 & Hd1 & Hs0 & Hs1 & Hds & Hj). cbn zeta in Hj.
  pose proof (field_extent_nonneg _ (field_ok_nth i Hi)). pose proof (size_len_nonneg (nth_field fields i)).
  iIntros "Hl".
  iDestruct (pts_two dest (data_off fields i) (field_extent (nth_field fields i)) (size_off fields i)
    (size_len (nth_field fields i)) with "Hl") as "($ & $ & Hw)"; [lia..|done|].
  iIntros (x y Hxy) "Hx Hy".
  iDestruct ("Hw" with "[//] Hx Hy") as "(%l' & %Hr & Hl)". iExists l'. iFrame "Hl". iPureIntro.
  destruct Hr as (E1 & E2 & E3 & Er). split_and!; [lia|done|done|]. intros j Hjn Hne.
  destruct (Hlay j Hjn) as (Hd0' & Hd1' & Hs0' & Hs1' & _ & Hj'). cbn zeta in Hj'.
  destruct (Hj' i Hi Hne) as (Ha1 & Ha2 & Ha3). destruct (Hj j Hjn (not_eq_sym Hne)) as (Hb1 & Hb2 & Hb3).
  pose proof (field_extent_nonneg _ (field_ok_nth j Hjn)). pose proof (size_len_nonneg (nth_field fields j)).
  unfold part_data, part_size. split; apply Er; try done; try lia.
  all: eauto using apart_sym.
Qed.

(** Two contents of the struct that differ in field [i] only. *)
Definition same_but (i : nat) l l' : Prop :=
  forall j, (j < field_count fields)%nat -> j <> i ->
    part_data fields j l' = part_data fields j l /\ part_size fields j l' = part_size fields j l.

Lemma msg_focus sts i l :
  (i < field_count fields)%nat ->
  let R st l := field_R (fun st sub x => msg_R n (fun _ => st) sub x) st (nth_field fields i)
                  (part_data fields i l) (part_size fields i l) in
  msg_R (S n) sts fields l ⊢
    R (sts i) l
    ∗ ∀ st' l', <affine> ⌜same_but i l l'⌝ -∗ R st' l' -∗ msg_R (S n) (set_state sts i st') fields l'.
Proof.
  intros Hi R. cbn [msg_R].
  assert (seq 0 (field_count fields) !! i = Some i) as Hlook by (by apply lookup_seq).
  iIntros "HR". iDestruct (big_sepL_lookup_acc_impl i with "HR") as "[$ Hw]"; [exact Hlook|].
  iIntros (st' l' Hsame) "Hi".
  iApply ("Hw" $! (fun _ j => field_R (fun st sub x => msg_R n (fun _ => st) sub x) (set_state sts i st' j)
    (nth_field fields j) (part_data fields j l') (part_size fields j l')) with "[] [Hi]").
  - iIntros "!>" (k j Hk Hne) "Hj". apply lookup_seq in Hk as [-> Hk]. cbn [Nat.add] in *.
    destruct (Hsame k Hk Hne) as [-> ->]. unfold set_state. by destruct (Nat.eqb_spec k i).
  - unfold set_state. by rewrite Nat.eqb_refl.
Qed.

(** One field of a struct, to be given back in another state. *)
Lemma own_focus sts i :
  (i < field_count fields)%nat ->
  let f := nth_field fields i in
  own (S n) sts fields size dest ⊢
    fld n (sts i) f (dest + data_off fields i) (dest + size_off fields i)
    ∗ ∀ st', fld n st' f (dest + data_off fields i) (dest + size_off fields i) -∗
        own (S n) (set_state sts i st') fields size dest.
Proof.
  intros Hi f. subst f. iIntros "(%l & %Hl & Hpts & HR)".
  iDestruct (parts_focus i l Hi Hl with "Hpts") as "(Hx & Hy & Hw)".
  iDestruct (msg_focus sts i l Hi with "HR") as "(HRi & HR)".
  destruct (Hlay i Hi) as (Hd0 & Hd1 & Hs0 & Hs1 & _).
  pose proof (field_extent_nonneg _ (field_ok_nth i Hi)). pose proof (size_len_nonneg (nth_field fields i)).
  iSplitL "Hx Hy HRi".
  - iExists (part_data fields i l), (part_size fields i l). iFrame. iPureIntro.
    split; apply zlen_slice; lia.
  - iIntros (st') "(%x & %y & [%Hx %Hy] & Hx & Hy & HRi)".
    iDestruct ("Hw" with "[//] Hx Hy") as "(%l' & %Hl' & Hl)".
    destruct Hl' as (Hl' & <- & <- & Hsame). iExists l'. iFrame "Hl". iSplitR; [done|]. by iApply ("HR" with "[] HRi").
Qed.
End Focus.
End Ownership.
