(* ===== verification/PbDefects.v ===== *)
(** * Where nanopb 0.3.9.7 does not do what it means to

    Two behaviours that follow from the definitions: a oneof that changes from
    a member stored in the struct to a member behind a pointer hands the old
    value to [realloc] (pb_decode.c), and the proto3 emptiness check reads only
    the low bytes of a pointer (pb_encode.c).  A third, the 32-bit varint decoder
    accepting padding of any length, is in [PbPrimSpec]. *)
From S2P Require Import Prelude WireSpec CMem CLayout PbH PbStream PbCommon PbEncode PbEmission PbDecodePrim.
From S2P Require Import PbPrimSpec PbDecode.
From Stdlib Require Import ZArith Lia.
From stdpp Require Import base tactics numbers list gmap strings.
#[local] Open Scope Z_scope.

(** ** A oneof with a static and a pointer member *)

(** [oneof u { int64 a = 1; bytes b = 2; }] with [b] of pointer type: the
    descriptors the generator emits. *)
Definition oneof_message : ctype :=
  CStruct [("which_u"%string, CScalar 4);
           ("u"%string, CUnion [("a"%string, CScalar 8); ("b"%string, CPtr (sizeof pb_bytes_array_t))])].

Definition oneof_fields : list pb_field_t :=
  [PB_ONEOF_FIELD "u" 1 INT64 false FIRST oneof_message "a" (Sub "u" "a") 0;
   PB_ONEOF_FIELD "u" 2 BYTES true UNION oneof_message "b" (Sub "u" "a") 0;
   PB_LAST_FIELD].

Lemma oneof_wf : wf_table oneof_fields.
Proof. apply wf_tableb_spec. reflexivity. Qed.

Lemma oneof_addresses dest i :
  (i < 2)%nat ->
  it_pData (iter_at oneof_fields dest i) = dest + 8 /\ it_pSize (iter_at oneof_fields dest i) = dest.
Proof.
  intros Hi. destruct (iter_at_shift oneof_fields dest i) as [-> ->].
  destruct i as [|[|]]; [| |lia]; (split; [f_equal|]); try reflexivity.
  all: rewrite <- (Z.add_0_r dest) at 2; f_equal.
Qed.

Lemma oneof_find dest i tag j :
  (i < 2)%nat -> (j < 2)%nat -> pf_tag (nth_field oneof_fields j) = tag ->
  pb_field_iter_find (iter_at oneof_fields dest i) tag = Ret (true, iter_at oneof_fields dest j).
Proof.
  intros Hi Hj <-. rewrite (iter_find_at oneof_fields dest oneof_wf) by done.
  destruct i as [|[|]]; [| |lia]; (destruct j as [|[|]]; [| |lia]); reflexivity.
Qed.

Section Oneof.
Context `{E : DecoderEnv} (fuel : nat).
Context (pb_decode_noinit :
  pb_istream_t -> list pb_field_t -> Z -> mstate -> res (bool * (pb_istream_t * mstate))).

(** Releasing the static member releases nothing. *)
Lemma oneof_release_static dest ms :
  load_uint (mem ms) dest 4 = Ret 1 ->
  pb_release_single_field (S fuel) (iter_at oneof_fields dest 0) ms = Ret ms.
Proof.
  intros Hw. destruct (oneof_addresses dest 0 ltac:(lia)) as [Hd Hs]. cbn [pb_release_single_field].
  rewrite (it_field_at oneof_fields dest oneof_wf) by (vm_compute; lia). cbn [rbind]. rewrite Hs, Hw.
  reflexivity.
Qed.

(** C40. When the message holds a value of the static member and the pointer member
    arrives, decoding it passes the value to [realloc] as a pointer: undefined
    behaviour, unless it happens to be the address of a live block. *)
Theorem oneof_static_then_pointer_undefined d rest beyond e wt dest v ms :
  load_uint (mem ms) dest 4 = Ret 1 -> v <> 0 -> heap ms !! v = None ->
  load_ptr (mem ms) (dest + 8) = Ret v ->
  zlen d < 2 ^ 31 -> Forall is_byte d -> Forall is_byte rest ->
  decode_field (S fuel) pb_decode_noinit (reader (delimited_bytes d ++ rest) beyond e) wt
    (iter_at oneof_fields dest 1) ms
  = UB.
Proof.
  intros Hw Hv Hh Hload Hd Hbd Hbr. pose proof (zlen_nonneg d) as Hpos.
  destruct (oneof_addresses dest 1 ltac:(lia)) as [Ed Es].
  assert (forall g : pb_field_t -> res (bool * (pb_istream_t * pb_field_iter_t * mstate)),
    rbind (it_field (iter_at oneof_fields dest 1)) g = g (nth_field oneof_fields 1)) as Hf
    by (intros g; by rewrite (it_field_at oneof_fields dest oneof_wf) by (vm_compute; lia)).
  unfold decode_field. rewrite Hf. change (PB_HTYPE _ =? PB_HTYPE_ONEOF) with true. cbn iota.
  unfold pb_release_union_field. rewrite Hf, Es, Hw. cbn [rbind].
  change (pf_tag (nth_field oneof_fields 1)) with 2. cbn [Z.eqb orb Pos.eqb].
  rewrite (oneof_find dest 1 1 0) by (lia || done). cbn [rbind negb].
  rewrite oneof_release_static by done. cbn [rbind].
  rewrite (oneof_find dest 0 2 1) by (lia || done). cbn [rbind negb bind_ok].
  rewrite Hf. change (PB_ATYPE _) with PB_ATYPE_POINTER.
  change (PB_ATYPE_POINTER =? PB_ATYPE_STATIC) with false.
  change (PB_ATYPE_POINTER =? PB_ATYPE_POINTER) with true. cbn iota.
  unfold decode_pointer_field. rewrite (it_field_at oneof_fields dest oneof_wf) by (vm_compute; lia).
  cbn [rbind]. change (pf_type (nth_field oneof_fields 1)) with 0xB6.
  change (decoder_for (S fuel) pb_decode_noinit (PB_LTYPE 0xB6)) with (Ret (Some pb_dec_bytes)).
  cbn [rbind]. rewrite Es, Ed. change (pf_tag (nth_field oneof_fields 1)) with 2.
  change (PB_HTYPE 0xB6 =? PB_HTYPE_REQUIRED) with false.
  change (PB_HTYPE 0xB6 =? PB_HTYPE_OPTIONAL) with false.
  change (PB_HTYPE 0xB6 =? PB_HTYPE_ONEOF) with true.
  change (PB_LTYPE 0xB6 =? PB_LTYPE_SUBMESSAGE) with false.
  change (PB_LTYPE 0xB6 =? PB_LTYPE_STRING) with false.
  change (PB_LTYPE 0xB6 =? PB_LTYPE_BYTES) with true. cbn [orb rbind].
  destruct (store_uint ms dest 4 2) as [ms'| |] eqn:Est; cbn [rbind]; [|done|].
  2: { unfold store_uint, store_bytes in Est. by destruct (mapped _ _ _). }
  assert (heap ms' = heap ms) as Eh by (by apply store_bytes_inv in Est as (_ & ? & _)).
  cbn [call_decoder]. unfold pb_dec_bytes, delimited_bytes, pb_decode_varint32. rewrite <- app_assoc.
  rewrite pb_decode_varint32_encoded by (lia || by apply Forall_app). cbn [rbind].
  change (PB_ATYPE _ =? PB_ATYPE_POINTER) with true.
  assert (PB_BYTES_ARRAY_T_ALLOCSIZE (zlen d) = zlen d + 4) as -> by
    (unfold PB_BYTES_ARRAY_T_ALLOCSIZE, u64; apply wrap_small; change (offsetof _ _) with 4; lia).
  change PB_SIZE_MAX with (2 ^ 32 - 1).
  destruct (Z.ltb_spec (2 ^ 32 - 1) (zlen d)); [lia|]. destruct (Z.ltb_spec (zlen d + 4) (zlen d)); [lia|].
  unfold allocate_field. unfold load_ptr in *.
  rewrite (load_uint_store_other _ _ _ _ _ _ _ Est), Hload by lia. cbn [rbind].
  destruct (Z.eqb_spec (zlen d + 4) 0); [lia|]. cbn [orb Z.eqb].
  destruct (Z.leb_spec (2 ^ 32) (zlen d + 4)); [lia|]. cbn [orb andb].
  change (2 ^ 32 <=? 1) with false. cbn iota.
  unfold pb_realloc. rewrite Eh, Hh. destruct (Z.eqb_spec v 0); [done|]. reflexivity.
Qed.
End Oneof.

(** ** The proto3 emptiness check of a pointer field *)

Lemma bytes_are_zero_spec m p n bs :
  load_bytes m p n = Ret bs -> bytes_are_zero m p n = Ret (forallb (Z.eqb 0) bs).
Proof.
  revert p bs; induction n as [|n IH]; intros p bs Hl; cbn [load_bytes bytes_are_zero] in *.
  - by injection Hl as <-.
  - res_step Hl. res_step Hl. injection Hl as <-. cbn [rbind forallb].
    rewrite (IH (p + 1) _ E0), (Z.eqb_sym 0). by destruct (a =? 0).
Qed.

(** The first bytes of a number are its low ones. *)
Lemma le_combine_take n bs :
  Forall is_byte bs -> (n <= length bs)%nat ->
  le_combine (take n bs) = le_combine bs mod 2 ^ (8 * Z.of_nat n).
Proof.
  intros Hb Hn. rewrite <- (take_drop n bs) at 2.
  assert (forall a b, Forall is_byte a -> le_combine (a ++ b) mod 2 ^ (8 * zlen a) = le_combine a) as Happ.
  { intros a b Ha. induction a as [|x a IH]; [cbn; apply Z.mod_1_r|]. apply Forall_cons in Ha as [Hx Ha].
    specialize (IH Ha). cbn [app le_combine]. unfold is_byte in Hx. rewrite zlen_cons. pose proof (zlen_nonneg a).
    replace (2 ^ (8 * (1 + zlen a))) with (256 * 2 ^ (8 * zlen a))
      by (rewrite Z.mul_add_distr_l, Z.pow_add_r by lia; done).
    rewrite Z.rem_mul_r by (lia || apply Z.pow_pos_nonneg; lia).
    replace (x + 256 * le_combine (a ++ b)) with (x + le_combine (a ++ b) * 256) by lia.
    rewrite Z.mod_add, Z.div_add, Z.mod_small, Z.div_small by lia. by rewrite Z.add_0_l, IH. }
  pose proof (Happ (take n bs) (drop n bs) (Forall_take _ n _ Hb)) as H.
  unfold zlen in H. rewrite length_take, Nat.min_l in H by done. by rewrite H.
Qed.

Lemma forallb_zero bs : Forall is_byte bs -> forallb (Z.eqb 0) bs = (le_combine bs =? 0).
Proof.
  induction bs as [|b bs IH]; intros Hb; [done|]. apply Forall_cons in Hb as [Hb Hbs].
  pose proof (le_combine_range bs Hbs) as Hr. cbn [forallb le_combine]. rewrite IH by done.
  unfold is_byte in Hb. destruct (Z.eqb_spec 0 b), (Z.eqb_spec (le_combine bs) 0),
    (Z.eqb_spec (b + 256 * le_combine bs) 0); try done; lia.
Qed.

Lemma load_bytes_take m p n k bs :
  (k <= n)%nat -> load_bytes m p n = Ret bs -> load_bytes m p k = Ret (take k bs).
Proof.
  intros Hk [Hl Hs]%load_bytes_spec. apply load_bytes_spec. split; [rewrite length_take; lia|].
  intros i Hi. destruct (Hs i ltac:(lia)) as (b & Hb & Hm). exists b. by rewrite lookup_take_lt.
Qed.

(** An optional field of a scalar type, kept behind a pointer. *)
Definition pointer_scalar (field : pb_field_t) : Prop :=
  PB_ATYPE (pf_type field) = PB_ATYPE_POINTER /\ PB_HTYPE (pf_type field) = PB_HTYPE_OPTIONAL
  /\ PB_LTYPE (pf_type field) <= PB_LTYPE_LAST_PACKABLE /\ pf_size_offset field = 0
  /\ 0 <= pf_data_size field <= 8.

(** For an optional field behind a pointer, of a scalar type, the check whether
    the field is empty looks at the low [data_size] bytes of the pointer, not at
    the whole pointer: a present value at an address whose low bytes are zero
    counts as absent. *)
Theorem pointer_emptiness_truncated `{EncoderEnv} m fuel field p q :
  mem_ok m -> pointer_scalar field -> load_ptr m p = Ret q ->
  pb_check_proto3_default_value m (S fuel) field p
  = Ret (q mod 2 ^ (8 * pf_data_size field) =? 0).
Proof.
  intros Hm (Ha & Hh & Hl & Hs & Hd) Hq. cbn [pb_check_proto3_default_value]. rewrite Ha, Hh, Hs.
  change PB_LTYPE_LAST_PACKABLE with 5 in *.
  change (PB_HTYPE_OPTIONAL =? PB_HTYPE_REQUIRED) with false.
  change (PB_HTYPE_OPTIONAL =? PB_HTYPE_REPEATED) with false.
  change (PB_HTYPE_OPTIONAL =? PB_HTYPE_ONEOF) with false.
  change (PB_ATYPE_POINTER =? PB_ATYPE_STATIC) with false. rewrite andb_false_r.
  destruct (Z.ltb_spec 5 (PB_LTYPE (pf_type field))); [lia|]. rewrite andb_false_r. cbn iota.
  unfold load_ptr, load_uint in Hq. res_step Hq. injection Hq as <-.
  destruct (load_bytes_ok _ _ _ _ Hm E) as [Hb Hlen].
  rewrite (bytes_are_zero_spec _ _ _ _ (load_bytes_take _ _ 8 (Z.to_nat (pf_data_size field)) _ ltac:(lia) E)).
  rewrite forallb_zero by (by apply Forall_take). rewrite le_combine_take by (done || lia).
  by rewrite Z2Nat.id by lia.
Qed.
