(* ===== verification/CctProto.v ===== *)
(** * cct.nanopb.h / cct.nanopb.c: the log-transport messages

    The enums, message structs, field tags and descriptor tables nanopb's
    generator wrote for the clearcut transport, with the default values of
    their fields.  Static objects (descriptor arrays and default values) sit at
    addresses the linker chooses; one choice is fixed here. *)
From S2P Require Import Prelude CMem CLayout PbH PbCommon.
From Stdlib Require Import ZArith Lia.
From stdpp Require Import base tactics numbers list gmap strings.
#[local] Open Scope Z_scope.
#[local] Open Scope string_scope.

(** ** Enums *)


(** [enum gdt_cct_NetworkConnectionInfo_NetworkType]. *)
Definition gdt_cct_NetworkConnectionInfo_NetworkType_NONE : Z := -1.
Definition gdt_cct_NetworkConnectionInfo_NetworkType_MOBILE : Z := 0.
Definition gdt_cct_NetworkConnectionInfo_NetworkType_WIFI : Z := 1.
Definition gdt_cct_NetworkConnectionInfo_NetworkType_MOBILE_MMS : Z := 2.
Definition gdt_cct_NetworkConnectionInfo_NetworkType_MOBILE_SUPL : Z := 3.
Definition gdt_cct_NetworkConnectionInfo_NetworkType_MOBILE_DUN : Z := 4.
Definition gdt_cct_NetworkConnectionInfo_NetworkType_MOBILE_HIPRI : Z := 5.
Definition gdt_cct_NetworkConnectionInfo_NetworkType_WIMAX : Z := 6.
Definition gdt_cct_NetworkConnectionInfo_NetworkType_BLUETOOTH : Z := 7.
Definition gdt_cct_NetworkConnectionInfo_NetworkType_DUMMY : Z := 8.
Definition gdt_cct_NetworkConnectionInfo_NetworkType_ETHERNET : Z := 9.
Definition gdt_cct_NetworkConnectionInfo_NetworkType_MOBILE_FOTA : Z := 10.
Definition gdt_cct_NetworkConnectionInfo_NetworkType_MOBILE_IMS : Z := 11.
Definition gdt_cct_NetworkConnectionInfo_NetworkType_MOBILE_CBS : Z := 12.
Definition gdt_cct_NetworkConnectionInfo_NetworkType_WIFI_P2P : Z := 13.
Definition gdt_cct_NetworkConnectionInfo_NetworkType_MOBILE_IA : Z := 14.
Definition gdt_cct_NetworkConnectionInfo_NetworkType_MOBILE_EMERGENCY : Z := 15.
Definition gdt_cct_NetworkConnectionInfo_NetworkType_PROXY : Z := 16.
Definition gdt_cct_NetworkConnectionInfo_NetworkType_VPN : Z := 17.
Definition _gdt_cct_NetworkConnectionInfo_NetworkType_MIN : Z := gdt_cct_NetworkConnectionInfo_NetworkType_NONE.
Definition _gdt_cct_NetworkConnectionInfo_NetworkType_MAX : Z := gdt_cct_NetworkConnectionInfo_NetworkType_VPN.
Definition _gdt_cct_NetworkConnectionInfo_NetworkType_ARRAYSIZE : Z := gdt_cct_NetworkConnectionInfo_NetworkType_VPN + 1.

(** [enum gdt_cct_NetworkConnectionInfo_MobileSubtype]. *)
Definition gdt_cct_NetworkConnectionInfo_MobileSubtype_UNKNOWN_MOBILE_SUBTYPE : Z := 0.
Definition gdt_cct_NetworkConnectionInfo_MobileSubtype_GPRS : Z := 1.
Definition gdt_cct_NetworkConnectionInfo_MobileSubtype_EDGE : Z := 2.
Definition gdt_cct_NetworkConnectionInfo_MobileSubtype_UMTS : Z := 3.
Definition gdt_cct_NetworkConnectionInfo_MobileSubtype_CDMA : Z := 4.
Definition gdt_cct_NetworkConnectionInfo_MobileSubtype_EVDO_0 : Z := 5.
Definition gdt_cct_NetworkConnectionInfo_MobileSubtype_EVDO_A : Z := 6.
Definition gdt_cct_NetworkConnectionInfo_MobileSubtype_RTT : Z := 7.
Definition gdt_cct_NetworkConnectionInfo_MobileSubtype_HSDPA : Z := 8.
Definition gdt_cct_NetworkConnectionInfo_MobileSubtype_HSUPA : Z := 9.
Definition gdt_cct_NetworkConnectionInfo_MobileSubtype_HSPA : Z := 10.
Definition gdt_cct_NetworkConnectionInfo_MobileSubtype_IDEN : Z := 11.
Definition gdt_cct_NetworkConnectionInfo_MobileSubtype_EVDO_B : Z := 12.
Definition gdt_cct_NetworkConnectionInfo_MobileSubtype_LTE : Z := 13.
Definition gdt_cct_NetworkConnectionInfo_MobileSubtype_EHRPD : Z := 14.
Definition gdt_cct_NetworkConnectionInfo_MobileSubtype_HSPAP : Z := 15.
Definition gdt_cct_NetworkConnectionInfo_MobileSubtype_GSM : Z := 16.
Definition gdt_cct_NetworkConnectionInfo_MobileSubtype_TD_SCDMA : Z := 17.
Definition gdt_cct_NetworkConnectionInfo_MobileSubtype_IWLAN : Z := 18.
Definition gdt_cct_NetworkConnectionInfo_MobileSubtype_LTE_CA : Z := 19.
Definition gdt_cct_NetworkConnectionInfo_MobileSubtype_COMBINED : Z := 100.
Definition _gdt_cct_NetworkConnectionInfo_MobileSubtype_MIN : Z := gdt_cct_NetworkConnectionInfo_MobileSubtype_UNKNOWN_MOBILE_SUBTYPE.
Definition _gdt_cct_NetworkConnectionInfo_MobileSubtype_MAX : Z := gdt_cct_NetworkConnectionInfo_MobileSubtype_COMBINED.
Definition _gdt_cct_NetworkConnectionInfo_MobileSubtype_ARRAYSIZE : Z := gdt_cct_NetworkConnectionInfo_MobileSubtype_COMBINED + 1.

(** [enum gdt_cct_ClientInfo_ClientType]. *)
Definition gdt_cct_ClientInfo_ClientType_CLIENT_UNKNOWN : Z := 0.
Definition gdt_cct_ClientInfo_ClientType_IOS_FIREBASE : Z := 15.
Definition _gdt_cct_ClientInfo_ClientType_MIN : Z := gdt_cct_ClientInfo_ClientType_CLIENT_UNKNOWN.
Definition _gdt_cct_ClientInfo_ClientType_MAX : Z := gdt_cct_ClientInfo_ClientType_IOS_FIREBASE.
Definition _gdt_cct_ClientInfo_ClientType_ARRAYSIZE : Z := gdt_cct_ClientInfo_ClientType_IOS_FIREBASE + 1.

(** [enum gdt_cct_QosTierConfiguration_QosTier]. *)
Definition gdt_cct_QosTierConfiguration_QosTier_DEFAULT : Z := 0.
Definition gdt_cct_QosTierConfiguration_QosTier_UNMETERED_ONLY : Z := 1.
Definition gdt_cct_QosTierConfiguration_QosTier_UNMETERED_OR_DAILY : Z := 2.
Definition gdt_cct_QosTierConfiguration_QosTier_FAST_IF_RADIO_AWAKE : Z := 3.
Definition gdt_cct_QosTierConfiguration_QosTier_NEVER : Z := 4.
Definition _gdt_cct_QosTierConfiguration_QosTier_MIN : Z := gdt_cct_QosTierConfiguration_QosTier_DEFAULT.
Definition _gdt_cct_QosTierConfiguration_QosTier_MAX : Z := gdt_cct_QosTierConfiguration_QosTier_NEVER.
Definition _gdt_cct_QosTierConfiguration_QosTier_ARRAYSIZE : Z := gdt_cct_QosTierConfiguration_QosTier_NEVER + 1.

(** ** Message structs *)

Definition gdt_cct_IosClientInfo : ctype :=
  CStruct
    [("os_major_version", CPtr (sizeof pb_bytes_array_t));
     ("os_full_version", CPtr (sizeof pb_bytes_array_t));
     ("application_build", CPtr (sizeof pb_bytes_array_t));
     ("country", CPtr (sizeof pb_bytes_array_t));
     ("model", CPtr (sizeof pb_bytes_array_t));
     ("language_code", CPtr (sizeof pb_bytes_array_t));
     ("application_bundle_id", CPtr (sizeof pb_bytes_array_t))].

Definition gdt_cct_ClientInfo : ctype :=
  CStruct
    [("has_client_type", CScalar 1);
     ("client_type", CScalar 4);
     ("has_ios_client_info", CScalar 1);
     ("ios_client_info", gdt_cct_IosClientInfo)].

Definition gdt_cct_NetworkConnectionInfo : ctype :=
  CStruct
    [("has_network_type", CScalar 1);
     ("network_type", CScalar 4);
     ("has_mobile_subtype", CScalar 1);
     ("mobile_subtype", CScalar 4)].

Definition gdt_cct_LogEvent : ctype :=
  CStruct
    [("has_event_time_ms", CScalar 1);
     ("event_time_ms", CScalar 8);
     ("source_extension", CPtr (sizeof pb_bytes_array_t));
     ("has_event_code", CScalar 1);
     ("event_code", CScalar 4);
     ("has_timezone_offset_seconds", CScalar 1);
     ("timezone_offset_seconds", CScalar 8);
     ("has_event_uptime_ms", CScalar 1);
     ("event_uptime_ms", CScalar 8);
     ("has_network_connection_info", CScalar 1);
     ("network_connection_info", gdt_cct_NetworkConnectionInfo)].

Definition gdt_cct_LogRequest : ctype :=
  CStruct
    [("has_client_info", CScalar 1);
     ("client_info", gdt_cct_ClientInfo);
     ("has_log_source", CScalar 1);
     ("log_source", CScalar 4);
     ("log_event_count", CScalar 4);
     ("log_event", CPtr (sizeof gdt_cct_LogEvent));
     ("has_request_time_ms", CScalar 1);
     ("request_time_ms", CScalar 8);
     ("has_request_uptime_ms", CScalar 1);
     ("request_uptime_ms", CScalar 8);
     ("has_qos_tier", CScalar 1);
     ("qos_tier", CScalar 4)].

Definition gdt_cct_BatchedLogRequest : ctype :=
  CStruct
    [("log_request_count", CScalar 4);
     ("log_request", CPtr (sizeof gdt_cct_LogRequest))].

Definition gdt_cct_QosTierConfiguration : ctype :=
  CStruct
    [("has_qos_tier", CScalar 1);
     ("qos_tier", CScalar 4);
     ("has_log_source", CScalar 1);
     ("log_source", CScalar 4)].

Definition gdt_cct_QosTiersOverride : ctype :=
  CStruct
    [("qos_tier_configuration_count", CScalar 4);
     ("qos_tier_configuration", CPtr (sizeof gdt_cct_QosTierConfiguration));
     ("has_qos_tier_fingerprint", CScalar 1);
     ("qos_tier_fingerprint", CScalar 8)].

Definition gdt_cct_LogResponse : ctype :=
  CStruct
    [("has_next_request_wait_millis", CScalar 1);
     ("next_request_wait_millis", CScalar 8);
     ("has_qos_tier", CScalar 1);
     ("qos_tier", gdt_cct_QosTiersOverride)].

(** ** Field tags *)

Definition gdt_cct_BatchedLogRequest_log_request_tag : Z := 1.
Definition gdt_cct_IosClientInfo_os_major_version_tag : Z := 3.
Definition gdt_cct_IosClientInfo_os_full_version_tag : Z := 4.
Definition gdt_cct_IosClientInfo_application_build_tag : Z := 5.
Definition gdt_cct_IosClientInfo_country_tag : Z := 6.
Definition gdt_cct_IosClientInfo_model_tag : Z := 7.
Definition gdt_cct_IosClientInfo_language_code_tag : Z := 8.
Definition gdt_cct_IosClientInfo_application_bundle_id_tag : Z := 11.
Definition gdt_cct_ClientInfo_client_type_tag : Z := 1.
Definition gdt_cct_ClientInfo_ios_client_info_tag : Z := 4.
Definition gdt_cct_NetworkConnectionInfo_network_type_tag : Z := 1.
Definition gdt_cct_NetworkConnectionInfo_mobile_subtype_tag : Z := 2.
Definition gdt_cct_QosTierConfiguration_qos_tier_tag : Z := 2.
Definition gdt_cct_QosTierConfiguration_log_source_tag : Z := 3.
Definition gdt_cct_QosTiersOverride_qos_tier_configuration_tag : Z := 1.
Definition gdt_cct_QosTiersOverride_qos_tier_fingerprint_tag : Z := 2.
Definition gdt_cct_LogEvent_event_time_ms_tag : Z := 1.
Definition gdt_cct_LogEvent_event_code_tag : Z := 11.
Definition gdt_cct_LogEvent_event_uptime_ms_tag : Z := 17.
Definition gdt_cct_LogEvent_source_extension_tag : Z := 6.
Definition gdt_cct_LogEvent_timezone_offset_seconds_tag : Z := 15.
Definition gdt_cct_LogEvent_network_connection_info_tag : Z := 23.
Definition gdt_cct_LogRequest_request_time_ms_tag : Z := 4.
Definition gdt_cct_LogRequest_request_uptime_ms_tag : Z := 8.
Definition gdt_cct_LogRequest_client_info_tag : Z := 1.
Definition gdt_cct_LogRequest_log_source_tag : Z := 2.
Definition gdt_cct_LogRequest_log_event_tag : Z := 3.
Definition gdt_cct_LogRequest_qos_tier_tag : Z := 9.
Definition gdt_cct_LogResponse_next_request_wait_millis_tag : Z := 1.
Definition gdt_cct_LogResponse_qos_tier_tag : Z := 3.

(** ** Maximum encoded sizes *)

Definition gdt_cct_NetworkConnectionInfo_size : Z := 13.
Definition gdt_cct_QosTierConfiguration_size : Z := 13.

(** ** Default values *)

Definition gdt_cct_NetworkConnectionInfo_network_type_default : Z := gdt_cct_NetworkConnectionInfo_NetworkType_NONE.
Definition gdt_cct_NetworkConnectionInfo_mobile_subtype_default : Z := gdt_cct_NetworkConnectionInfo_MobileSubtype_UNKNOWN_MOBILE_SUBTYPE.
Definition gdt_cct_LogRequest_qos_tier_default : Z := gdt_cct_QosTierConfiguration_QosTier_DEFAULT.
Definition gdt_cct_QosTierConfiguration_log_source_default : Z := 0.

(** ** Addresses of the static objects *)

Definition addr_gdt_cct_LogEvent_fields : Z := 0x1000.
Definition addr_gdt_cct_NetworkConnectionInfo_fields : Z := 0x1400.
Definition addr_gdt_cct_IosClientInfo_fields : Z := 0x1800.
Definition addr_gdt_cct_ClientInfo_fields : Z := 0x1c00.
Definition addr_gdt_cct_BatchedLogRequest_fields : Z := 0x2000.
Definition addr_gdt_cct_LogRequest_fields : Z := 0x2400.
Definition addr_gdt_cct_QosTierConfiguration_fields : Z := 0x2800.
Definition addr_gdt_cct_QosTiersOverride_fields : Z := 0x2c00.
Definition addr_gdt_cct_LogResponse_fields : Z := 0x3000.
Definition addr_gdt_cct_NetworkConnectionInfo_network_type_default : Z := 0x8000.
Definition addr_gdt_cct_NetworkConnectionInfo_mobile_subtype_default : Z := 0x8008.
Definition addr_gdt_cct_LogRequest_qos_tier_default : Z := 0x8010.
Definition addr_gdt_cct_QosTierConfiguration_log_source_default : Z := 0x8018.

(** ** Descriptor tables *)

Definition gdt_cct_LogEvent_fields : list pb_field_t :=
  [PB_FIELD 1 INT64 OPTIONAL STATIC FIRST gdt_cct_LogEvent "event_time_ms" "event_time_ms"
     0;
   PB_FIELD 6 BYTES OPTIONAL POINTER OTHER gdt_cct_LogEvent "source_extension" "event_time_ms"
     0;
   PB_FIELD 11 INT32 OPTIONAL STATIC OTHER gdt_cct_LogEvent "event_code" "source_extension"
     0;
   PB_FIELD 15 SINT64 OPTIONAL STATIC OTHER gdt_cct_LogEvent "timezone_offset_seconds" "event_code"
     0;
   PB_FIELD 17 INT64 OPTIONAL STATIC OTHER gdt_cct_LogEvent "event_uptime_ms" "timezone_offset_seconds"
     0;
   PB_FIELD 23 MESSAGE OPTIONAL STATIC OTHER gdt_cct_LogEvent "network_connection_info" "event_uptime_ms"
     addr_gdt_cct_NetworkConnectionInfo_fields;
   PB_LAST_FIELD].

Definition gdt_cct_NetworkConnectionInfo_fields : list pb_field_t :=
  [PB_FIELD 1 ENUM OPTIONAL STATIC FIRST gdt_cct_NetworkConnectionInfo "network_type" "network_type"
     addr_gdt_cct_NetworkConnectionInfo_network_type_default;
   PB_FIELD 2 UENUM OPTIONAL STATIC OTHER gdt_cct_NetworkConnectionInfo "mobile_subtype" "network_type"
     addr_gdt_cct_NetworkConnectionInfo_mobile_subtype_default;
   PB_LAST_FIELD].

Definition gdt_cct_IosClientInfo_fields : list pb_field_t :=
  [PB_FIELD 3 BYTES OPTIONAL POINTER FIRST gdt_cct_IosClientInfo "os_major_version" "os_major_version"
     0;
   PB_FIELD 4 BYTES OPTIONAL POINTER OTHER gdt_cct_IosClientInfo "os_full_version" "os_major_version"
     0;
   PB_FIELD 5 BYTES OPTIONAL POINTER OTHER gdt_cct_IosClientInfo "application_build" "os_full_version"
     0;
   PB_FIELD 6 BYTES OPTIONAL POINTER OTHER gdt_cct_IosClientInfo "country" "application_build"
     0;
   PB_FIELD 7 BYTES OPTIONAL POINTER OTHER gdt_cct_IosClientInfo "model" "country"
     0;
   PB_FIELD 8 BYTES OPTIONAL POINTER OTHER gdt_cct_IosClientInfo "language_code" "model"
     0;
   PB_FIELD 11 BYTES OPTIONAL POINTER OTHER gdt_cct_IosClientInfo "application_bundle_id" "language_code"
     0;
   PB_LAST_FIELD].

Definition gdt_cct_ClientInfo_fields : list pb_field_t :=
  [PB_FIELD 1 UENUM OPTIONAL STATIC FIRST gdt_cct_ClientInfo "client_type" "client_type"
     0;
   PB_FIELD 4 MESSAGE OPTIONAL STATIC OTHER gdt_cct_ClientInfo "ios_client_info" "client_type"
     addr_gdt_cct_IosClientInfo_fields;
   PB_LAST_FIELD].

Definition gdt_cct_BatchedLogRequest_fields : list pb_field_t :=
  [PB_FIELD 1 MESSAGE REPEATED POINTER FIRST gdt_cct_BatchedLogRequest "log_request" "log_request"
     addr_gdt_cct_LogRequest_fields;
   PB_LAST_FIELD].

Definition gdt_cct_LogRequest_fields : list pb_field_t :=
  [PB_FIELD 1 MESSAGE OPTIONAL STATIC FIRST gdt_cct_LogRequest "client_info" "client_info"
     addr_gdt_cct_ClientInfo_fields;
   PB_FIELD 2 INT32 OPTIONAL STATIC OTHER gdt_cct_LogRequest "log_source" "client_info"
     0;
   PB_FIELD 3 MESSAGE REPEATED POINTER OTHER gdt_cct_LogRequest "log_event" "log_source"
     addr_gdt_cct_LogEvent_fields;
   PB_FIELD 4 INT64 OPTIONAL STATIC OTHER gdt_cct_LogRequest "request_time_ms" "log_event"
     0;
   PB_FIELD 8 INT64 OPTIONAL STATIC OTHER gdt_cct_LogRequest "request_uptime_ms" "request_time_ms"
     0;
   PB_FIELD 9 UENUM OPTIONAL STATIC OTHER gdt_cct_LogRequest "qos_tier" "request_uptime_ms"
     addr_gdt_cct_LogRequest_qos_tier_default;
   PB_LAST_FIELD].

Definition gdt_cct_QosTierConfiguration_fields : list pb_field_t :=
  [PB_FIELD 2 UENUM OPTIONAL STATIC FIRST gdt_cct_QosTierConfiguration "qos_tier" "qos_tier"
     0;
   PB_FIELD 3 INT32 OPTIONAL STATIC OTHER gdt_cct_QosTierConfiguration "log_source" "qos_tier"
     addr_gdt_cct_QosTierConfiguration_log_source_default;
   PB_LAST_FIELD].

Definition gdt_cct_QosTiersOverride_fields : list pb_field_t :=
  [PB_FIELD 1 MESSAGE REPEATED POINTER FIRST gdt_cct_QosTiersOverride "qos_tier_configuration" "qos_tier_configuration"
     addr_gdt_cct_QosTierConfiguration_fields;
   PB_FIELD 2 INT64 OPTIONAL STATIC OTHER gdt_cct_QosTiersOverride "qos_tier_fingerprint" "qos_tier_configuration"
     0;
   PB_LAST_FIELD].

Definition gdt_cct_LogResponse_fields : list pb_field_t :=
  [PB_FIELD 1 INT64 OPTIONAL STATIC FIRST gdt_cct_LogResponse "next_request_wait_millis" "next_request_wait_millis"
     0;
   PB_FIELD 3 MESSAGE OPTIONAL STATIC OTHER gdt_cct_LogResponse "qos_tier" "next_request_wait_millis"
     addr_gdt_cct_QosTiersOverride_fields;
   PB_LAST_FIELD].

(** The descriptor array at an address. *)
Definition cct_descriptors (a : Z) : option (list pb_field_t) :=
  if (a =? addr_gdt_cct_LogEvent_fields)%Z then Some gdt_cct_LogEvent_fields
  else if (a =? addr_gdt_cct_NetworkConnectionInfo_fields)%Z then Some gdt_cct_NetworkConnectionInfo_fields
  else if (a =? addr_gdt_cct_IosClientInfo_fields)%Z then Some gdt_cct_IosClientInfo_fields
  else if (a =? addr_gdt_cct_ClientInfo_fields)%Z then Some gdt_cct_ClientInfo_fields
  else if (a =? addr_gdt_cct_BatchedLogRequest_fields)%Z then Some gdt_cct_BatchedLogRequest_fields
  else if (a =? addr_gdt_cct_LogRequest_fields)%Z then Some gdt_cct_LogRequest_fields
  else if (a =? addr_gdt_cct_QosTierConfiguration_fields)%Z then Some gdt_cct_QosTierConfiguration_fields
  else if (a =? addr_gdt_cct_QosTiersOverride_fields)%Z then Some gdt_cct_QosTiersOverride_fields
  else if (a =? addr_gdt_cct_LogResponse_fields)%Z then Some gdt_cct_LogResponse_fields
  else None.

(** Memory with the default values in place. *)
Definition cct_rodata (m : gmap Z mbyte) : gmap Z mbyte :=
  set_range (set_range (set_range (set_range (m) addr_gdt_cct_NetworkConnectionInfo_network_type_default
    (Byte <$> le_split 4 gdt_cct_NetworkConnectionInfo_network_type_default)) addr_gdt_cct_NetworkConnectionInfo_mobile_subtype_default
    (Byte <$> le_split 4 gdt_cct_NetworkConnectionInfo_mobile_subtype_default)) addr_gdt_cct_LogRequest_qos_tier_default
    (Byte <$> le_split 4 gdt_cct_LogRequest_qos_tier_default)) addr_gdt_cct_QosTierConfiguration_log_source_default
    (Byte <$> le_split 4 gdt_cct_QosTierConfiguration_log_source_default).
