(* ===== verification/CoreDiagProto.v ===== *)
(** * firebasecore.nanopb.h / firebasecore.nanopb.c: the diagnostics message

    The enums, the message struct, field tags and descriptor table of
    [ICoreConfiguration], the message Firebase's core diagnostics reports. *)
From S2P Require Import Prelude CMem CLayout PbH PbCommon.
From Stdlib Require Import ZArith Lia.
From stdpp Require Import base tactics numbers list gmap strings.
#[local] Open Scope Z_scope.
#[local] Open Scope string_scope.

(** ** Enums *)


(** [enum logs_proto_mobilesdk_ios_ICoreConfiguration_ConfigurationType]. *)
Definition logs_proto_mobilesdk_ios_ICoreConfiguration_ConfigurationType_UNKNOWN_CONFIGURATION_TYPE : Z := 0.
Definition logs_proto_mobilesdk_ios_ICoreConfiguration_ConfigurationType_CORE : Z := 1.
Definition logs_proto_mobilesdk_ios_ICoreConfiguration_ConfigurationType_SDK : Z := 2.
Definition _logs_proto_mobilesdk_ios_ICoreConfiguration_ConfigurationType_MIN : Z :=
  logs_proto_mobilesdk_ios_ICoreConfiguration_ConfigurationType_UNKNOWN_CONFIGURATION_TYPE.
Definition _logs_proto_mobilesdk_ios_ICoreConfiguration_ConfigurationType_MAX : Z :=
  logs_proto_mobilesdk_ios_ICoreConfiguration_ConfigurationType_SDK.
Definition _logs_proto_mobilesdk_ios_ICoreConfiguration_ConfigurationType_ARRAYSIZE : Z :=
  logs_proto_mobilesdk_ios_ICoreConfiguration_ConfigurationType_SDK + 1.

(** [enum logs_proto_mobilesdk_ios_ICoreConfiguration_BuildType]. *)
Definition logs_proto_mobilesdk_ios_ICoreConfiguration_BuildType_UNKNOWN_BUILD_TYPE : Z := 0.
Definition logs_proto_mobilesdk_ios_ICoreConfiguration_BuildType_INTERNAL : Z := 1.
Definition logs_proto_mobilesdk_ios_ICoreConfiguration_BuildType_EAP : Z := 2.
Definition logs_proto_mobilesdk_ios_ICoreConfiguration_BuildType_PROD : Z := 3.
Definition _logs_proto_mobilesdk_ios_ICoreConfiguration_BuildType_MIN : Z :=
  logs_proto_mobilesdk_ios_ICoreConfiguration_BuildType_UNKNOWN_BUILD_TYPE.
Definition _logs_proto_mobilesdk_ios_ICoreConfiguration_BuildType_MAX : Z :=
  logs_proto_mobilesdk_ios_ICoreConfiguration_BuildType_PROD.
Definition _logs_proto_mobilesdk_ios_ICoreConfiguration_BuildType_ARRAYSIZE : Z :=
  logs_proto_mobilesdk_ios_ICoreConfiguration_BuildType_PROD + 1.

(** [enum logs_proto_mobilesdk_ios_ICoreConfiguration_ServiceType]. *)
Definition logs_proto_mobilesdk_ios_ICoreConfiguration_ServiceType_UNKNOWN_SDK_SERVICE : Z := 0.
Definition logs_proto_mobilesdk_ios_ICoreConfiguration_ServiceType_ICORE : Z := 1.
Definition logs_proto_mobilesdk_ios_ICoreConfiguration_ServiceType_ADMOB : Z := 2.
Definition logs_proto_mobilesdk_ios_ICoreConfiguration_ServiceType_APP_INVITE : Z := 3.
Definition logs_proto_mobilesdk_ios_ICoreConfiguration_ServiceType_SIGN_IN : Z := 5.
Definition logs_proto_mobilesdk_ios_ICoreConfiguration_ServiceType_GCM : Z := 6.
Definition logs_proto_mobilesdk_ios_ICoreConfiguration_ServiceType_MAPS : Z := 7.
Definition logs_proto_mobilesdk_ios_ICoreConfiguration_ServiceType_SCION : Z := 8.
Definition logs_proto_mobilesdk_ios_ICoreConfiguration_ServiceType_ANALYTICS : Z := 9.
Definition logs_proto_mobilesdk_ios_ICoreConfiguration_ServiceType_APP_INDEXING : Z := 10.
Definition logs_proto_mobilesdk_ios_ICoreConfiguration_ServiceType_CONFIG : Z := 11.
Definition logs_proto_mobilesdk_ios_ICoreConfiguration_ServiceType_DURABLE_DEEP_LINKS : Z := 12.
Definition logs_proto_mobilesdk_ios_ICoreConfiguration_ServiceType_CRASH : Z := 13.
Definition logs_proto_mobilesdk_ios_ICoreConfiguration_ServiceType_AUTH : Z := 14.
Definition logs_proto_mobilesdk_ios_ICoreConfiguration_ServiceType_DATABASE : Z := 15.
Definition logs_proto_mobilesdk_ios_ICoreConfiguration_ServiceType_STORAGE : Z := 16.
Definition logs_proto_mobilesdk_ios_ICoreConfiguration_ServiceType_MESSAGING : Z := 17.
Definition logs_proto_mobilesdk_ios_ICoreConfiguration_ServiceType_MEASUREMENT : Z := 18.
Definition logs_proto_mobilesdk_ios_ICoreConfiguration_ServiceType_REMOTE_CONFIG : Z := 19.
Definition logs_proto_mobilesdk_ios_ICoreConfiguration_ServiceType_DYNAMIC_LINKS : Z := 20.
Definition logs_proto_mobilesdk_ios_ICoreConfiguration_ServiceType_INVITES : Z := 21.
Definition logs_proto_mobilesdk_ios_ICoreConfiguration_ServiceType_AUTH_UI : Z := 22.
Definition logs_proto_mobilesdk_ios_ICoreConfiguration_ServiceType_FIRESTORE : Z := 23.
Definition logs_proto_mobilesdk_ios_ICoreConfiguration_ServiceType_PERFORMANCE : Z := 24.
Definition logs_proto_mobilesdk_ios_ICoreConfiguration_ServiceType_ML_VISION_ON_DEVICE_FACE : Z := 26.
Definition logs_proto_mobilesdk_ios_ICoreConfiguration_ServiceType_ML_VISION_ON_DEVICE_BARCODE : Z := 27.
Definition logs_proto_mobilesdk_ios_ICoreConfiguration_ServiceType_ML_VISION_ON_DEVICE_TEXT : Z := 28.
Definition logs_proto_mobilesdk_ios_ICoreConfiguration_ServiceType_ML_VISION_ON_DEVICE_LABEL : Z := 29.
Definition logs_proto_mobilesdk_ios_ICoreConfiguration_ServiceType_ML_MODEL_INTERPRETER : Z := 30.
Definition logs_proto_mobilesdk_ios_ICoreConfiguration_ServiceType_IN_APP_MESSAGING : Z := 31.
Definition logs_proto_mobilesdk_ios_ICoreConfiguration_ServiceType_FUNCTIONS : Z := 32.
Definition logs_proto_mobilesdk_ios_ICoreConfiguration_ServiceType_ML_NATURAL_LANGUAGE : Z := 33.
Definition logs_proto_mobilesdk_ios_ICoreConfiguration_ServiceType_ML_VISION_ON_DEVICE_AUTOML : Z := 34.
Definition logs_proto_mobilesdk_ios_ICoreConfiguration_ServiceType_ML_VISION_ON_DEVICE_OBJECT_DETECTION : Z := 35.
Definition _logs_proto_mobilesdk_ios_ICoreConfiguration_ServiceType_MIN : Z :=
  logs_proto_mobilesdk_ios_ICoreConfiguration_ServiceType_UNKNOWN_SDK_SERVICE.
Definition _logs_proto_mobilesdk_ios_ICoreConfiguration_ServiceType_MAX : Z :=
  logs_proto_mobilesdk_ios_ICoreConfiguration_ServiceType_ML_VISION_ON_DEVICE_OBJECT_DETECTION.
Definition _logs_proto_mobilesdk_ios_ICoreConfiguration_ServiceType_ARRAYSIZE : Z :=
  logs_proto_mobilesdk_ios_ICoreConfiguration_ServiceType_ML_VISION_ON_DEVICE_OBJECT_DETECTION + 1.

(** [enum logs_proto_mobilesdk_ios_ICoreConfiguration_PodName]. *)
Definition logs_proto_mobilesdk_ios_ICoreConfiguration_PodName_UNKNOWN_POD_NAME : Z := 0.
Definition logs_proto_mobilesdk_ios_ICoreConfiguration_PodName_GOOGLE : Z := 1.
Definition logs_proto_mobilesdk_ios_ICoreConfiguration_PodName_FIREBASE : Z := 2.
Definition _logs_proto_mobilesdk_ios_ICoreConfiguration_PodName_MIN : Z :=
  logs_proto_mobilesdk_ios_ICoreConfiguration_PodName_UNKNOWN_POD_NAME.
Definition _logs_proto_mobilesdk_ios_ICoreConfiguration_PodName_MAX : Z :=
  logs_proto_mobilesdk_ios_ICoreConfiguration_PodName_FIREBASE.
Definition _logs_proto_mobilesdk_ios_ICoreConfiguration_PodName_ARRAYSIZE : Z :=
  logs_proto_mobilesdk_ios_ICoreConfiguration_PodName_FIREBASE + 1.

(** [enum logs_proto_mobilesdk_ios_ICoreConfiguration_DeploymentType]. *)
Definition logs_proto_mobilesdk_ios_ICoreConfiguration_DeploymentType_UNKNOWN : Z := 0.
Definition logs_proto_mobilesdk_ios_ICoreConfiguration_DeploymentType_COCOAPODS : Z := 1.
Definition logs_proto_mobilesdk_ios_ICoreConfiguration_DeploymentType_ZIP_FILE : Z := 2.
Definition logs_proto_mobilesdk_ios_ICoreConfiguration_DeploymentType_CARTHAGE : Z := 3.
Definition logs_proto_mobilesdk_ios_ICoreConfiguration_DeploymentType_SPM : Z := 4.
Definition _logs_proto_mobilesdk_ios_ICoreConfiguration_DeploymentType_MIN : Z :=
  logs_proto_mobilesdk_ios_ICoreConfiguration_DeploymentType_UNKNOWN.
Definition _logs_proto_mobilesdk_ios_ICoreConfiguration_DeploymentType_MAX : Z :=
  logs_proto_mobilesdk_ios_ICoreConfiguration_DeploymentType_SPM.
Definition _logs_proto_mobilesdk_ios_ICoreConfiguration_DeploymentType_ARRAYSIZE : Z :=
  logs_proto_mobilesdk_ios_ICoreConfiguration_DeploymentType_SPM + 1.

(** ** The message struct *)

Definition logs_proto_mobilesdk_ios_ICoreConfiguration : ctype :=
  CStruct
    [("has_configuration_type", CScalar 1);
     ("configuration_type", CScalar 4);
     ("sdk_service_installed_count", CScalar 4);
     ("sdk_service_installed", CPtr 4);
     ("device_model", CPtr (sizeof pb_bytes_array_t));
     ("app_id", CPtr (sizeof pb_bytes_array_t));
     ("bundle_id", CPtr (sizeof pb_bytes_array_t));
     ("has_pod_name", CScalar 1);
     ("pod_name", CScalar 4);
     ("icore_version", CPtr (sizeof pb_bytes_array_t));
     ("sdk_version", CPtr (sizeof pb_bytes_array_t));
     ("has_sdk_name", CScalar 1);
     ("sdk_name", CScalar 4);
     ("has_app_count", CScalar 1);
     ("app_count", CScalar 4);
     ("os_version", CPtr (sizeof pb_bytes_array_t));
     ("min_supported_ios_version", CPtr (sizeof pb_bytes_array_t));
     ("has_use_default_app", CScalar 1);
     ("use_default_app", CScalar 1);
     ("has_deployed_in_app_store", CScalar 1);
     ("deployed_in_app_store", CScalar 1);
     ("has_dynamic_framework_count", CScalar 1);
     ("dynamic_framework_count", CScalar 4);
     ("apple_framework_version", CPtr (sizeof pb_bytes_array_t));
     ("has_using_zip_file", CScalar 1);
     ("using_zip_file", CScalar 1);
     ("has_deployment_type", CScalar 1);
     ("deployment_type", CScalar 4);
     ("platform_info", CPtr (sizeof pb_bytes_array_t));
     ("has_swizzling_enabled", CScalar 1);
     ("swizzling_enabled", CScalar 1);
     ("has_using_gdt", CScalar 1);
     ("using_gdt", CScalar 1)].

(** ** Field tags *)

Definition logs_proto_mobilesdk_ios_ICoreConfiguration_pod_name_tag : Z := 16.
Definition logs_proto_mobilesdk_ios_ICoreConfiguration_configuration_type_tag : Z := 1.
Definition logs_proto_mobilesdk_ios_ICoreConfiguration_icore_version_tag : Z := 18.
Definition logs_proto_mobilesdk_ios_ICoreConfiguration_sdk_version_tag : Z := 19.
Definition logs_proto_mobilesdk_ios_ICoreConfiguration_sdk_service_installed_tag : Z := 7.
Definition logs_proto_mobilesdk_ios_ICoreConfiguration_sdk_name_tag : Z := 20.
Definition logs_proto_mobilesdk_ios_ICoreConfiguration_device_model_tag : Z := 9.
Definition logs_proto_mobilesdk_ios_ICoreConfiguration_os_version_tag : Z := 22.
Definition logs_proto_mobilesdk_ios_ICoreConfiguration_app_id_tag : Z := 10.
Definition logs_proto_mobilesdk_ios_ICoreConfiguration_bundle_id_tag : Z := 12.
Definition logs_proto_mobilesdk_ios_ICoreConfiguration_min_supported_ios_version_tag : Z := 24.
Definition logs_proto_mobilesdk_ios_ICoreConfiguration_use_default_app_tag : Z := 25.
Definition logs_proto_mobilesdk_ios_ICoreConfiguration_app_count_tag : Z := 21.
Definition logs_proto_mobilesdk_ios_ICoreConfiguration_deployed_in_app_store_tag : Z := 26.
Definition logs_proto_mobilesdk_ios_ICoreConfiguration_dynamic_framework_count_tag : Z := 27.
Definition logs_proto_mobilesdk_ios_ICoreConfiguration_apple_framework_version_tag : Z := 28.
Definition logs_proto_mobilesdk_ios_ICoreConfiguration_using_zip_file_tag : Z := 29.
Definition logs_proto_mobilesdk_ios_ICoreConfiguration_deployment_type_tag : Z := 30.
Definition logs_proto_mobilesdk_ios_ICoreConfiguration_platform_info_tag : Z := 31.
Definition logs_proto_mobilesdk_ios_ICoreConfiguration_swizzling_enabled_tag : Z := 33.
Definition logs_proto_mobilesdk_ios_ICoreConfiguration_using_gdt_tag : Z := 36.

(** ** Descriptor table *)

Definition logs_proto_mobilesdk_ios_ICoreConfiguration_fields : list pb_field_t :=
  [PB_FIELD 1 UENUM OPTIONAL STATIC FIRST logs_proto_mobilesdk_ios_ICoreConfiguration
     "configuration_type" "configuration_type" 0;
   PB_FIELD 7 UENUM REPEATED POINTER OTHER logs_proto_mobilesdk_ios_ICoreConfiguration
     "sdk_service_installed" "configuration_type" 0;
   PB_FIELD 9 BYTES OPTIONAL POINTER OTHER logs_proto_mobilesdk_ios_ICoreConfiguration
     "device_model" "sdk_service_installed" 0;
   PB_FIELD 10 BYTES OPTIONAL POINTER OTHER logs_proto_mobilesdk_ios_ICoreConfiguration
     "app_id" "device_model" 0;
   PB_FIELD 12 BYTES OPTIONAL POINTER OTHER logs_proto_mobilesdk_ios_ICoreConfiguration
     "bundle_id" "app_id" 0;
   PB_FIELD 16 UENUM OPTIONAL STATIC OTHER logs_proto_mobilesdk_ios_ICoreConfiguration
     "pod_name" "bundle_id" 0;
   PB_FIELD 18 BYTES OPTIONAL POINTER OTHER logs_proto_mobilesdk_ios_ICoreConfiguration
     "icore_version" "pod_name" 0;
   PB_FIELD 19 BYTES OPTIONAL POINTER OTHER logs_proto_mobilesdk_ios_ICoreConfiguration
     "sdk_version" "icore_version" 0;
   PB_FIELD 20 UENUM OPTIONAL STATIC OTHER logs_proto_mobilesdk_ios_ICoreConfiguration
     "sdk_name" "sdk_version" 0;
   PB_FIELD 21 INT32 OPTIONAL STATIC OTHER logs_proto_mobilesdk_ios_ICoreConfiguration
     "app_count" "sdk_name" 0;
   PB_FIELD 22 BYTES OPTIONAL POINTER OTHER logs_proto_mobilesdk_ios_ICoreConfiguration
     "os_version" "app_count" 0;
   PB_FIELD 24 BYTES OPTIONAL POINTER OTHER logs_proto_mobilesdk_ios_ICoreConfiguration
     "min_supported_ios_version" "os_version" 0;
   PB_FIELD 25 BOOL OPTIONAL STATIC OTHER logs_proto_mobilesdk_ios_ICoreConfiguration
     "use_default_app" "min_supported_ios_version" 0;
   PB_FIELD 26 BOOL OPTIONAL STATIC OTHER logs_proto_mobilesdk_ios_ICoreConfiguration
     "deployed_in_app_store" "use_default_app" 0;
   PB_FIELD 27 INT32 OPTIONAL STATIC OTHER logs_proto_mobilesdk_ios_ICoreConfiguration
     "dynamic_framework_count" "deployed_in_app_store" 0;
   PB_FIELD 28 BYTES OPTIONAL POINTER OTHER logs_proto_mobilesdk_ios_ICoreConfiguration
     "apple_framework_version" "dynamic_framework_count" 0;
   PB_FIELD 29 BOOL OPTIONAL STATIC OTHER logs_proto_mobilesdk_ios_ICoreConfiguration
     "using_zip_file" "apple_framework_version" 0;
   PB_FIELD 30 UENUM OPTIONAL STATIC OTHER logs_proto_mobilesdk_ios_ICoreConfiguration
     "deployment_type" "using_zip_file" 0;
   PB_FIELD 31 BYTES OPTIONAL POINTER OTHER logs_proto_mobilesdk_ios_ICoreConfiguration
     "platform_info" "deployment_type" 0;
   PB_FIELD 33 BOOL OPTIONAL STATIC OTHER logs_proto_mobilesdk_ios_ICoreConfiguration
     "swizzling_enabled" "platform_info" 0;
   PB_FIELD 36 BOOL OPTIONAL STATIC OTHER logs_proto_mobilesdk_ios_ICoreConfiguration
     "using_gdt" "swizzling_enabled" 0;
   PB_LAST_FIELD].

