(* ===== verification/Transport.v ===== *)
(** * The log transport's use of the runtime

    The environment GoogleDataTransport runs nanopb in: memory-buffer and sizing
    streams only, no callback fields, the descriptor arrays of cct.nanopb.c.
    The descriptors of both generated files are checked against the structs they
    describe, and the two messages whose maximum size the generator computed
    are followed from the struct to the wire and back. *)
From S2P Require Import Prelude WireSpec CMem CLayout PbH PbStream PbCommon PbEncode PbEmission PbEncodeRef.
From S2P Require Import PbDecodePrim PbPrimSpec PbDecode PbDecodeTotal CctProto CoreDiagProto.
From Stdlib Require Import ZArith Lia.
From stdpp Require Import base tactics numbers list gmap strings.
#[local] Open Scope Z_scope.

(** ** The environment *)

#[export] Instance buffers_only : UserStreams := {|
  ustate := Empty_set;
  user_write := fun u _ => match u with end;
  user_read := fun u _ _ => match u with end
|}.

#[export] Instance transport_descriptors : Descriptors := cct_descriptors.

(** An allocator that refuses nothing it has address space for. *)
#[export] Instance willing_allocator : Allocator := fun _ _ => false.

#[export] Instance transport_encoder : EncoderEnv := {|
  enc_field_callback := fun _ => None;
  enc_extension_callback := fun _ => None
|}.

#[export] Instance transport_decoder : DecoderEnv := {|
  dec_field_callback := fun _ => None;
  dec_extension_callback := fun _ => None
|}.

#[export] Instance transport_callbacks : EncCallbackSpec.
Proof. by refine {| field_emission := fun _ _ _ => UB; extension_emission := fun _ _ => UB |}. Defined.

Definition wf_fieldsb (fields : list pb_field_t) : bool := wf_tableb fields && forallb field_okb fields.

Lemma wf_fieldsb_spec fields : wf_fieldsb fields = true -> wf_fields fields.
Proof.
  intros [Hw Hf]%andb_prop. split; [by apply wf_tableb_spec|]. apply Forall_forall. intros f Hin.
  rewrite forallb_forall in Hf. by apply field_okb_spec, Hf, list_elem_of_In.
Qed.

#[export] Instance transport_wf : WfDescriptors.
Proof.
  intros a fields Hd. apply wf_fieldsb_spec. unfold descriptor_at, transport_descriptors, cct_descriptors in Hd.
  repeat (destruct (a =? _); [injection Hd as <-; vm_compute; reflexivity|]). done.
Qed.

(** ** Descriptors and structs *)

(** A generated message type: its descriptors, its struct, and for each field
    in descriptor order the struct member it stands for and its tag constant. *)
Record message_type : Type := MessageType {
  mt_fields : list pb_field_t;
  mt_struct : ctype;
  mt_members : list (string * Z)
}.

#[local] Open Scope string_scope.

Definition message_types : list message_type :=
  [MessageType gdt_cct_LogEvent_fields gdt_cct_LogEvent
     [("event_time_ms", gdt_cct_LogEvent_event_time_ms_tag);
      ("source_extension", gdt_cct_LogEvent_source_extension_tag);
      ("event_code", gdt_cct_LogEvent_event_code_tag);
      ("timezone_offset_seconds", gdt_cct_LogEvent_timezone_offset_seconds_tag);
      ("event_uptime_ms", gdt_cct_LogEvent_event_uptime_ms_tag);
      ("network_connection_info", gdt_cct_LogEvent_network_connection_info_tag)];
   MessageType gdt_cct_NetworkConnectionInfo_fields gdt_cct_NetworkConnectionInfo
     [("network_type", gdt_cct_NetworkConnectionInfo_network_type_tag);
      ("mobile_subtype", gdt_cct_NetworkConnectionInfo_mobile_subtype_tag)];
   MessageType gdt_cct_IosClientInfo_fields gdt_cct_IosClientInfo
     [("os_major_version", gdt_cct_IosClientInfo_os_major_version_tag);
      ("os_full_version", gdt_cct_IosClientInfo_os_full_version_tag);
      ("application_build", gdt_cct_IosClientInfo_application_build_tag);
      ("country", gdt_cct_IosClientInfo_country_tag);
      ("model", gdt_cct_IosClientInfo_model_tag);
      ("language_code", gdt_cct_IosClientInfo_language_code_tag);
      ("application_bundle_id", gdt_cct_IosClientInfo_application_bundle_id_tag)];
   MessageType gdt_cct_ClientInfo_fields gdt_cct_ClientInfo
     [("client_type", gdt_cct_ClientInfo_client_type_tag);
      ("ios_client_info", gdt_cct_ClientInfo_ios_client_info_tag)];
   MessageType gdt_cct_BatchedLogRequest_fields gdt_cct_BatchedLogRequest
     [("log_request", gdt_cct_BatchedLogRequest_log_request_tag)];
   MessageType gdt_cct_LogRequest_fields gdt_cct_LogRequest
     [("client_info", gdt_cct_LogRequest_client_info_tag);
      ("log_source", gdt_cct_LogRequest_log_source_tag);
      ("log_event", gdt_cct_LogRequest_log_event_tag);
      ("request_time_ms", gdt_cct_LogRequest_request_time_ms_tag);
      ("request_uptime_ms", gdt_cct_LogRequest_request_uptime_ms_tag);
      ("qos_tier", gdt_cct_LogRequest_qos_tier_tag)];
   MessageType gdt_cct_QosTierConfiguration_fields gdt_cct_QosTierConfiguration
     [("qos_tier", gdt_cct_QosTierConfiguration_qos_tier_tag);
      ("log_source", gdt_cct_QosTierConfiguration_log_source_tag)];
   MessageType gdt_cct_QosTiersOverride_fields gdt_cct_QosTiersOverride
     [("qos_tier_configuration", gdt_cct_QosTiersOverride_qos_tier_configuration_tag);
      ("qos_tier_fingerprint", gdt_cct_QosTiersOverride_qos_tier_fingerprint_tag)];
   MessageType gdt_cct_LogResponse_fields gdt_cct_LogResponse
     [("next_request_wait_millis", gdt_cct_LogResponse_next_request_wait_millis_tag);
      ("qos_tier", gdt_cct_LogResponse_qos_tier_tag)];
   MessageType logs_proto_mobilesdk_ios_ICoreConfiguration_fields logs_proto_mobilesdk_ios_ICoreConfiguration
     [("configuration_type", logs_proto_mobilesdk_ios_ICoreConfiguration_configuration_type_tag);
      ("sdk_service_installed", logs_proto_mobilesdk_ios_ICoreConfiguration_sdk_service_installed_tag);
      ("device_model", logs_proto_mobilesdk_ios_ICoreConfiguration_device_model_tag);
      ("app_id", logs_proto_mobilesdk_ios_ICoreConfiguration_app_id_tag);
      ("bundle_id", logs_proto_mobilesdk_ios_ICoreConfiguration_bundle_id_tag);
      ("pod_name", logs_proto_mobilesdk_ios_ICoreConfiguration_pod_name_tag);
      ("icore_version", logs_proto_mobilesdk_ios_ICoreConfiguration_icore_version_tag);
      ("sdk_version", logs_proto_mobilesdk_ios_ICoreConfiguration_sdk_version_tag);
      ("sdk_name", logs_proto_mobilesdk_ios_ICoreConfiguration_sdk_name_tag);
      ("app_count", logs_proto_mobilesdk_ios_ICoreConfiguration_app_count_tag);
      ("os_version", logs_proto_mobilesdk_ios_ICoreConfiguration_os_version_tag);
      ("min_supported_ios_version",
        logs_proto_mobilesdk_ios_ICoreConfiguration_min_supported_ios_version_tag);
      ("use_default_app", logs_proto_mobilesdk_ios_ICoreConfiguration_use_default_app_tag);
      ("deployed_in_app_store", logs_proto_mobilesdk_ios_ICoreConfiguration_deployed_in_app_store_tag);
      ("dynamic_framework_count", logs_proto_mobilesdk_ios_ICoreConfiguration_dynamic_framework_count_tag);
      ("apple_framework_version", logs_proto_mobilesdk_ios_ICoreConfiguration_apple_framework_version_tag);
      ("using_zip_file", logs_proto_mobilesdk_ios_ICoreConfiguration_using_zip_file_tag);
      ("deployment_type", logs_proto_mobilesdk_ios_ICoreConfiguration_deployment_type_tag);
      ("platform_info", logs_proto_mobilesdk_ios_ICoreConfiguration_platform_info_tag);
      ("swizzling_enabled", logs_proto_mobilesdk_ios_ICoreConfiguration_swizzling_enabled_tag);
      ("using_gdt", logs_proto_mobilesdk_ios_ICoreConfiguration_using_gdt_tag)]].

#[local] Close Scope string_scope.

Definition has_member (st : ctype) (d : designator) : bool :=
  match CLayout.find st d with
  | Some _ => true
  | None => false
  end.

(** Where a field's count or presence is kept: in the struct member
    [<name>_count] or [has_<name>] when the struct has one, and otherwise the
    iterator's size address is its data address. *)
Definition size_member (st : ctype) (name : string) : designator :=
  if has_member st (_count (Mem name)) then _count (Mem name)
  else if has_member st (has_ (Mem name)) then has_ (Mem name)
  else Mem name.

(** What the data size says: the member's own, or one pointee's. *)
Definition data_size_of (st : ctype) (name : string) : Z :=
  match CLayout.find st (Mem name) with
  | Some (_, CPtr n) => n
  | _ => membersize st (Mem name)
  end.

(** The repetition and allocation the struct shows: a count beside the member,
    a pointer in its place. *)
Definition shape_okb (f : pb_field_t) (st : ctype) (name : string) : bool :=
  Bool.eqb (PB_HTYPE (pf_type f) =? PB_HTYPE_REPEATED)
    (has_member st (_count (Mem name)))
  && Bool.eqb (PB_ATYPE (pf_type f) =? PB_ATYPE_POINTER)
       match CLayout.find st (Mem name) with Some (_, CPtr _) => true | _ => false end.

Definition member_okb (mt : message_type) (i : nat) (name : string) (tag : Z) : bool :=
  let f := nth_field (mt_fields mt) i in
  let it := iter_at (mt_fields mt) 0 i in
  let st := mt_struct mt in
  (pf_tag f =? tag)
  && (it_pData it =? offsetof st (Mem name))
  && (it_pSize it =? offsetof st (size_member st name))
  && (pf_data_size f =? data_size_of st name) && shape_okb f st name
  && (0 <=? offsetof st (Mem name))
  && (offsetof st (Mem name) + membersize st (Mem name) <=? sizeof st)
  && (0 <=? offsetof st (size_member st name)) && (offsetof st (size_member st name) <? sizeof st).

Definition message_okb (mt : message_type) : bool :=
  (field_count (mt_fields mt) =? length (mt_members mt))%nat
  && forallb (fun '(i, (name, tag)) => member_okb mt i name tag)
       (imap (fun i x => (i, x)) (mt_members mt)).

Lemma message_okb_all : forallb message_okb message_types = true.
Proof. vm_compute. reflexivity. Qed.

Lemma member_okb_all mt i name tag :
  mt ∈ message_types -> mt_members mt !! i = Some (name, tag) ->
  field_count (mt_fields mt) = length (mt_members mt) /\ member_okb mt i name tag = true.
Proof.
  intros Hmt Hi. pose proof message_okb_all as Hall. rewrite forallb_forall in Hall.
  apply list_elem_of_In in Hmt. apply Hall in Hmt as [Hn%Nat.eqb_eq Hm]%andb_prop. split; [done|].
  rewrite forallb_forall in Hm. apply (Hm (i, (name, tag))), list_elem_of_In.
  apply list_elem_of_lookup. exists i. by rewrite list_lookup_imap, Hi.
Qed.

(** C37. Every descriptor of cct.nanopb.c and firebasecore.nanopb.c describes the
    struct member it is written for: the iterator arrives there with the
    member's address, the address of its count or presence flag and its size,
    whatever the address of the struct, and both lie within the struct. *)
Theorem descriptors_match_structs mt i name tag dest :
  mt ∈ message_types -> mt_members mt !! i = Some (name, tag) ->
  let f := nth_field (mt_fields mt) i in
  let it := iter_at (mt_fields mt) dest i in
  let st := mt_struct mt in
  field_count (mt_fields mt) = length (mt_members mt)
  /\ pf_tag f = tag
  /\ it_pData it = dest + offsetof st (Mem name)
  /\ it_pSize it = dest + offsetof st (size_member st name)
  /\ pf_data_size f = data_size_of st name /\ shape_okb f st name = true
  /\ dest <= it_pData it /\ it_pData it + membersize st (Mem name) <= dest + sizeof st
  /\ dest <= it_pSize it < dest + sizeof st.
Proof.
  intros Hmt Hi. destruct (member_okb_all mt i name tag Hmt Hi) as [Hn Hm]. cbn zeta.
  destruct (iter_at_shift (mt_fields mt) dest i) as [-> ->].
  unfold member_okb in Hm. rewrite !andb_true_iff, !Z.eqb_eq, !Z.leb_le, Z.ltb_lt in Hm.
  split_and!; try tauto; lia.
Qed.

(** ** Messages of two optional integers *)

(** The encoding of an optional integer member. *)
Definition optional_bytes (tag : Z) (v : option Z) : list Z :=
  match v with
  | Some v => key PB_WT_VARINT tag ++ varint (u64 v)
  | None => []
  end.

(** The optional integer member [name] of the struct at [src] holds [v], read
    as the member's signed or unsigned type. *)
Definition flag (v : option Z) : Z :=
  match v with
  | Some _ => 1
  | None => 0
  end.

Definition holds_optional (m : gmap Z mbyte) (load : gmap Z mbyte -> Z -> nat -> res Z) (src : Z)
    (st : ctype) (name : string) (v : option Z) : Prop :=
  load_byte m (src + offsetof st (has_ (Mem name))) = Ret (flag v)
  /\ forall z, v = Some z -> load m (src + offsetof st (Mem name)) 4%nat = Ret z.

Section Optional.
Context (m : gmap Z mbyte) (fuel : nat) (rec : list pb_field_t -> Z -> emission).

Lemma ref_optional f p (v : option Z) :
  PB_ATYPE (pf_type f) = PB_ATYPE_STATIC -> PB_HTYPE (pf_type f) = PB_HTYPE_OPTIONAL ->
  PB_LTYPE (pf_type f) <= PB_LTYPE_SVARINT -> pf_size_offset f <> 0 ->
  load_byte m (p + pf_size_offset f) = Ret (flag v) ->
  (forall z : Z, v = Some z -> ref_value m fuel rec f p = Ret (Some (varint (u64 z)))) ->
  ref_iter_field m fuel rec f p = Ret (Some (optional_bytes (pf_tag f) v)).
Proof.
  intros Ha Hh Hl Hs Hp Hv. unfold ref_iter_field, ref_field, ref_basic.
  change PB_LTYPE_SVARINT with 3 in Hl. rewrite Ha, Hh.
  destruct (Z.eqb_spec (PB_LTYPE (pf_type f)) PB_LTYPE_EXTENSION) as [E|_]; [rewrite E in Hl; done|].
  change (PB_ATYPE_STATIC =? PB_ATYPE_STATIC) with true. cbn [orb].
  destruct (Z.ltb_spec PB_LTYPE_FIXED_LENGTH_BYTES (PB_LTYPE (pf_type f))) as [E|_];
    [change PB_LTYPE_FIXED_LENGTH_BYTES with 10 in E; lia|].
  unfold basic_field_psize. destruct (Z.eqb_spec (pf_size_offset f) 0); [done|]. cbn [negb rbind].
  unfold deref_pointer_field. rewrite Ha. change (PB_ATYPE_STATIC =? PB_ATYPE_POINTER) with false.
  cbn [rbind]. change (PB_HTYPE_OPTIONAL =? PB_HTYPE_REQUIRED) with false.
  change (PB_HTYPE_OPTIONAL =? PB_HTYPE_OPTIONAL) with true. cbn [read_has].
  unfold safe_read_bool. rewrite Hp. cbn [rbind]. destruct v as [z|]; cbn [flag Z.eqb negb]; [|done].
  unfold ref_keyed_value, ref_key, wire_type_of. rewrite (Hv z) by done.
  change PB_LTYPE_SVARINT with 3. rewrite (proj2 (Z.leb_le _ 3)) by lia. done.
Qed.

(** The two ways a 4-byte integer member is declared. *)
Lemma ref_value_int32 f p z :
  PB_LTYPE (pf_type f) = PB_LTYPE_VARINT -> pf_data_size f = 4 ->
  load_sint m p 4 = Ret z -> ref_value m fuel rec f p = Ret (Some (varint (u64 z))).
Proof.
  intros Hl Hd Hz. unfold ref_value. rewrite Hl, Hd. change (PB_LTYPE_VARINT =? PB_LTYPE_BOOL) with false.
  change (PB_LTYPE_VARINT =? PB_LTYPE_VARINT) with true. cbn iota. unfold ref_integer. cbn [existsb Z.eqb Pos.eqb orb].
  change (Z.to_nat 4) with 4%nat. by rewrite Hz.
Qed.

Lemma ref_value_uint32 f p z :
  mem_ok m -> PB_LTYPE (pf_type f) = PB_LTYPE_UVARINT -> pf_data_size f = 4 ->
  load_uint m p 4 = Ret z -> ref_value m fuel rec f p = Ret (Some (varint (u64 z))).
Proof.
  intros Hm Hl Hd Hz. pose proof (load_uint_range _ _ _ _ Hm Hz) as Hr. change (8 * Z.of_nat 4) with 32 in Hr.
  unfold u64. rewrite wrap_small by lia.
  unfold ref_value. rewrite Hl, Hd. change (PB_LTYPE_UVARINT =? PB_LTYPE_BOOL) with false.
  change (PB_LTYPE_UVARINT =? PB_LTYPE_VARINT) with false.
  change (PB_LTYPE_UVARINT =? PB_LTYPE_UVARINT) with true. cbn iota. unfold ref_integer. cbn [existsb Z.eqb Pos.eqb orb].
  change (Z.to_nat 4) with 4%nat. by rewrite Hz.
Qed.
End Optional.

(** The reference encodings of the two messages. *)
Lemma ref_network_info m fuel src nt mst :
  mem_ok m ->
  holds_optional m load_sint src gdt_cct_NetworkConnectionInfo "network_type" nt ->
  holds_optional m load_uint src gdt_cct_NetworkConnectionInfo "mobile_subtype" mst ->
  ref_message m (S fuel) gdt_cct_NetworkConnectionInfo_fields src
  = Ret (Some (optional_bytes 1 nt ++ optional_bytes 2 mst)).
Proof.
  intros Hm [Hf1 Hv1] [Hf2 Hv2]. cbn [ref_message].
  change (field_count gdt_cct_NetworkConnectionInfo_fields) with 2%nat. cbn [ref_from].
  set (fs := gdt_cct_NetworkConnectionInfo_fields).
  destruct (iter_at_shift fs src 0) as [-> _]. destruct (iter_at_shift fs src 1) as [-> _].
  rewrite (ref_optional m fuel _ _ _ nt), (ref_optional m fuel _ _ _ mst); try done.
  - cbn. by rewrite app_nil_r.
  - rewrite <- Z.add_assoc. exact Hf2.
  - intros z Hz. by apply ref_value_uint32, Hv2.
  - rewrite <- Z.add_assoc. exact Hf1.
  - intros z Hz. by apply ref_value_int32, Hv1.
Qed.

Lemma ref_qos_tier m fuel src tier source :
  mem_ok m ->
  holds_optional m load_uint src gdt_cct_QosTierConfiguration "qos_tier" tier ->
  holds_optional m load_sint src gdt_cct_QosTierConfiguration "log_source" source ->
  ref_message m (S fuel) gdt_cct_QosTierConfiguration_fields src
  = Ret (Some (optional_bytes 2 tier ++ optional_bytes 3 source)).
Proof.
  intros Hm [Hf1 Hv1] [Hf2 Hv2]. cbn [ref_message].
  change (field_count gdt_cct_QosTierConfiguration_fields) with 2%nat. cbn [ref_from].
  set (fs := gdt_cct_QosTierConfiguration_fields).
  destruct (iter_at_shift fs src 0) as [-> _]. destruct (iter_at_shift fs src 1) as [-> _].
  rewrite (ref_optional m fuel _ _ _ tier), (ref_optional m fuel _ _ _ source); try done.
  - cbn. by rewrite app_nil_r.
  - rewrite <- Z.add_assoc. exact Hf2.
  - intros z Hz. by apply ref_value_int32, Hv2.
  - rewrite <- Z.add_assoc. exact Hf1.
  - intros z Hz. by apply ref_value_uint32, Hv1.
Qed.

(** Lengths: one byte of key, and one byte for a small value or at most ten. *)
Lemma optional_short tag v :
  0 < tag < 16 -> (forall z, v = Some z -> 0 <= z < 128) -> zlen (optional_bytes tag v) <= 2.
Proof.
  intros Ht Hv. destruct v as [z|]; [|done]. specialize (Hv z eq_refl). cbn [optional_bytes].
  unfold key, u64, varint, PB_WT_VARINT. rewrite wrap_small by lia. cbn [varint_enc].
  destruct (Z.ltb_spec (8 * tag + 0) 128); [|lia]. destruct (Z.ltb_spec z 128); [done|lia].
Qed.

Lemma optional_long tag v : 0 < tag < 16 -> zlen (optional_bytes tag v) <= 11.
Proof.
  intros Ht. destruct v as [z|]; [|done]. cbn [optional_bytes]. rewrite zlen_app.
  pose proof (varint_length (u64 z)). unfold key, PB_WT_VARINT. unfold varint at 1. cbn [varint_enc].
  destruct (Z.ltb_spec (8 * tag + 0) 128); [|lia]. change (zlen [_]) with 1. lia.
Qed.

(** A network connection info is encoded as its two optional members, field 1
    sign-extended to 64 bits; with a mobile subtype of the enum it takes at most
    the 13 bytes the generator computed, a bound that is reached. *)
Theorem network_info_encoding m fuel s src nt mst :
  mem_ok m ->
  holds_optional m load_sint src gdt_cct_NetworkConnectionInfo "network_type" nt ->
  holds_optional m load_uint src gdt_cct_NetworkConnectionInfo "mobile_subtype" mst ->
  let bs := optional_bytes gdt_cct_NetworkConnectionInfo_network_type_tag nt
            ++ optional_bytes gdt_cct_NetworkConnectionInfo_mobile_subtype_tag mst in
  (wf_stream s -> fits s (zlen bs) ->
   pb_encode m (S fuel) s gdt_cct_NetworkConnectionInfo_fields src = Ret (true, push s bs))
  /\ ((forall z, mst = Some z -> 0 <= z <= _gdt_cct_NetworkConnectionInfo_MobileSubtype_MAX) ->
      zlen bs <= gdt_cct_NetworkConnectionInfo_size)
  /\ (nt = Some gdt_cct_NetworkConnectionInfo_NetworkType_NONE ->
      mst = Some _gdt_cct_NetworkConnectionInfo_MobileSubtype_MAX ->
      zlen bs = gdt_cct_NetworkConnectionInfo_size).
Proof.
  intros Hm H1 H2. cbn zeta. pose proof (ref_network_info m fuel src nt mst Hm H1 H2) as Hr. split_and!.
  - intros Hs Hf. pose proof (pb_encode_refines m Hm (S fuel) gdt_cct_NetworkConnectionInfo_fields src) as Hemit.
    rewrite Hr in Hemit. apply Hemit; [|done..]. by apply wf_fieldsb_spec.
  - intros Hz. rewrite zlen_app. change gdt_cct_NetworkConnectionInfo_size with (11 + 2).
    apply Z.add_le_mono; [by apply optional_long|]. apply optional_short; [done|]. intros z E.
    specialize (Hz z E). change _gdt_cct_NetworkConnectionInfo_MobileSubtype_MAX with 100 in Hz. lia.
  - by intros -> ->.
Qed.

(** The same for a QoS tier configuration: the tier is of the enum, and the log
    source may be any 32-bit integer. *)
Theorem qos_tier_encoding m fuel s src tier source :
  mem_ok m ->
  holds_optional m load_uint src gdt_cct_QosTierConfiguration "qos_tier" tier ->
  holds_optional m load_sint src gdt_cct_QosTierConfiguration "log_source" source ->
  let bs := optional_bytes gdt_cct_QosTierConfiguration_qos_tier_tag tier
            ++ optional_bytes gdt_cct_QosTierConfiguration_log_source_tag source in
  (wf_stream s -> fits s (zlen bs) ->
   pb_encode m (S fuel) s gdt_cct_QosTierConfiguration_fields src = Ret (true, push s bs))
  /\ ((forall z, tier = Some z -> 0 <= z <= _gdt_cct_QosTierConfiguration_QosTier_MAX) ->
      zlen bs <= gdt_cct_QosTierConfiguration_size)
  /\ (tier = Some _gdt_cct_QosTierConfiguration_QosTier_MAX -> source = Some (-1) ->
      zlen bs = gdt_cct_QosTierConfiguration_size).
Proof.
  intros Hm H1 H2. cbn zeta. pose proof (ref_qos_tier m fuel src tier source Hm H1 H2) as Hr. split_and!.
  - intros Hs Hf. pose proof (pb_encode_refines m Hm (S fuel) gdt_cct_QosTierConfiguration_fields src) as Hemit.
    rewrite Hr in Hemit. apply Hemit; [|done..]. by apply wf_fieldsb_spec.
  - intros Hz. rewrite zlen_app. change gdt_cct_QosTierConfiguration_size with (2 + 11).
    apply Z.add_le_mono; [|by apply optional_long]. apply optional_short; [done|]. intros z E.
    specialize (Hz z E). change _gdt_cct_QosTierConfiguration_QosTier_MAX with 4 in Hz. lia.
  - by intros -> ->.
Qed.

(** ** From struct to wire and back, for every enumerator *)

Definition network_types : list Z :=
  (fun i => _gdt_cct_NetworkConnectionInfo_NetworkType_MIN + Z.of_nat i)
  <$> seq 0 (Z.to_nat (_gdt_cct_NetworkConnectionInfo_NetworkType_MAX + 2)).

Definition mobile_subtypes : list Z :=
  (Z.of_nat <$> seq 0 20) ++ [gdt_cct_NetworkConnectionInfo_MobileSubtype_COMBINED].

(** A memory with the generated files' default values and, at [src], a struct
    with the given members. *)
Definition struct_at : Z := 0x10000.

Definition blank (size : Z) : mstate :=
  {| mem := set_range (cct_rodata ∅) struct_at (replicate (Z.to_nat size) Undef);
     heap := ∅; next := 0x20000 |}.

Definition store_optional (st : ctype) (name : string) (v : option Z) (ms : mstate) : res mstate :=
  let! ms := store_uint ms (struct_at + offsetof st (has_ (Mem name))) 1 (flag v) in
  match v with
  | Some z => store_uint ms (struct_at + offsetof st (Mem name)) 4 z
  | None => Ret ms
  end.

Definition load_optional (st : ctype) (name : string) (load : gmap Z mbyte -> Z -> nat -> res Z)
    (ms : mstate) : res (option Z) :=
  let! has := load_byte (mem ms) (struct_at + offsetof st (has_ (Mem name))) in
  if has =? 0 then Ret None
  else let! z := load (mem ms) (struct_at + offsetof st (Mem name)) 4%nat in Ret (Some z).

(** Encode with the sizing pass and a buffer of that size, as the transport
    does. *)
Definition encode_network_info (nt mst : option Z) : res (option (list Z)) :=
  let st := gdt_cct_NetworkConnectionInfo in
  let! ms := store_optional st "network_type" nt (blank (sizeof st)) in
  let! ms := store_optional st "mobile_subtype" mst ms in
  let! size := pb_get_encoded_size (mem ms) 2 gdt_cct_NetworkConnectionInfo_fields struct_at in
  match size with
  | None => Ret None
  | Some n =>
      let! (ok, s) := pb_encode (mem ms) 2
        (pb_ostream_from_buffer (replicate (Z.to_nat n) 0) n)
        gdt_cct_NetworkConnectionInfo_fields struct_at in
      Ret (match ok, os_state s with
           | true, OSBuf buf _ => Some buf
           | _, _ => None
           end)
  end.

Definition decode_network_info (bs : list Z) : res (option (option Z * option Z)) :=
  let st := gdt_cct_NetworkConnectionInfo in
  let! (ok, (_, ms)) := pb_decode_top 3 (pb_istream_from_buffer bs (zlen bs))
    gdt_cct_NetworkConnectionInfo_fields struct_at (blank (sizeof st)) in
  if ok then
    let! nt := load_optional st "network_type" load_sint ms in
    let! mst := load_optional st "mobile_subtype" load_uint ms in
    Ret (Some (nt, mst))
  else Ret None.

(** One enumerator pair: the encoding decodes to the same members, in whichever
    order the two fields arrive. *)
Definition network_info_okb (nt mst : option Z) : bool :=
  match encode_network_info nt mst with
  | Ret (Some bs) =>
      bool_decide (bs = optional_bytes 1 nt ++ optional_bytes 2 mst)
      && bool_decide (decode_network_info bs = Ret (Some (nt, mst)))
      && bool_decide (decode_network_info (optional_bytes 2 mst ++ optional_bytes 1 nt)
                      = Ret (Some (nt, mst)))
  | _ => false
  end.

Lemma network_info_okb_all :
  forallb (fun nt => forallb (network_info_okb nt) (None :: (Some <$> mobile_subtypes)))
    (None :: (Some <$> network_types)) = true.
Proof. vm_compute. reflexivity. Qed.

Lemma in_optional (l : list Z) (v : option Z) :
  (forall z, v = Some z -> z ∈ l) -> In v (None :: (Some <$> l)).
Proof.
  intros Hv. apply list_elem_of_In. destruct v as [z|]; [|left].
  right. apply list_elem_of_fmap. exists z. by split; [|apply Hv].
Qed.

(** Every network connection info whose members are absent or enumerators goes
    through the two-pass encoder and back through [pb_decode] unchanged, also
    when its two fields arrive in the other order. *)
Theorem network_info_roundtrip nt mst :
  (forall z, nt = Some z -> z ∈ network_types) -> (forall z, mst = Some z -> z ∈ mobile_subtypes) ->
  let f1 := optional_bytes gdt_cct_NetworkConnectionInfo_network_type_tag nt in
  let f2 := optional_bytes gdt_cct_NetworkConnectionInfo_mobile_subtype_tag mst in
  encode_network_info nt mst = Ret (Some (f1 ++ f2))
  /\ decode_network_info (f1 ++ f2) = Ret (Some (nt, mst))
  /\ decode_network_info (f2 ++ f1) = Ret (Some (nt, mst)).
Proof.
  intros Hnt Hmst. pose proof network_info_okb_all as Hall. rewrite forallb_forall in Hall.
  specialize (Hall nt (in_optional _ _ Hnt)). rewrite forallb_forall in Hall.
  specialize (Hall mst (in_optional _ _ Hmst)). unfold network_info_okb in Hall.
  destruct (encode_network_info nt mst) as [[bs|]| |]; try done.
  rewrite !andb_true_iff, !bool_decide_eq_true in Hall. destruct Hall as [[-> Hd] Hd']. by split_and!.
Qed.
