(* ===== verification/FBase64.v ===== *)
(** * fbase64.c: base64

    [f_b64_ntop] and [f_b64_pton], which the web-socket handshake of the
    realtime-database client uses.  Buffers are lists of [u_char] values; the
    list is the whole object the pointer points to, so an access past its end
    is undefined, and [targsize] is what the caller claims about it. *)
From S2P Require Import Prelude.
From Stdlib Require Import ZArith Lia Ascii String.
From stdpp Require Import base tactics numbers list.
#[local] Open Scope Z_scope.

(** ** Definitions *)

Definition char_code (c : ascii) : Z := Z.of_N (N_of_ascii c).

(** [static const char Base64[]], without the terminating NUL. *)
Definition Base64 : list Z :=
  map char_code
    (list_ascii_of_string "ABCDEFGHIJKLMNOPQRSTUVWXYZabcdefghijklmnopqrstuvwxyz0123456789+/").

Definition Pad64 : Z := 61.

(** [isspace] in the C locale. *)
Definition isspace (c : Z) : bool := (c =? 32) || ((9 <=? c) && (c <=? 13)).

(** [*p++] on the object [p] points into. *)
Definition next_char (src : list Z) : res (Z * list Z) :=
  match src with
  | c :: src => Ret (c, src)
  | [] => UB
  end.

(** [target[i] = v] and [target[i]]. *)
Definition put (target : list Z) (i v : Z) : res (list Z) :=
  if (0 <=? i) && (i <? zlen target) then Ret (<[Z.to_nat i := u8 v]> target) else UB.

Definition get (target : list Z) (i : Z) : res Z :=
  if 0 <=? i then match target !! Z.to_nat i with Some v => Ret v | None => UB end else UB.

(** [target[datalength++] = Base64[output]]. *)
Definition put_digit (output : Z) (st : Z * list Z) : res (Z * list Z) :=
  let '(datalength, target) := st in
  match Base64 !! Z.to_nat output with
  | Some c => let! target := put target datalength c in Ret (datalength + 1, target)
  | None => UB
  end.

Definition put_pad (st : Z * list Z) : res (Z * list Z) :=
  let '(datalength, target) := st in
  let! target := put target datalength Pad64 in Ret (datalength + 1, target).

(** The four 6-bit groups of three bytes. *)
Definition output0 (i0 : Z) : Z := Z.shiftr i0 2.
Definition output1 (i0 i1 : Z) : Z := u8 (Z.shiftl (Z.land i0 0x03) 4 + Z.shiftr i1 4).
Definition output2 (i1 i2 : Z) : Z := u8 (Z.shiftl (Z.land i1 0x0f) 2 + Z.shiftr i2 6).
Definition output3 (i2 : Z) : Z := Z.land i2 0x3f.

(** The main loop: [inl] is an early [return (-1)]. *)
Definition ntop_groups (src : list Z) (srclength : Z) (target : list Z) (targsize : Z) :
    res (list Z + (list Z * Z * Z * list Z)) :=
  loop (S (Z.to_nat srclength))
    (fun '(src, srclength, datalength, target) =>
       if 2 <? srclength then
         let! (i0, src) := next_char src in
         let! (i1, src) := next_char src in
         let! (i2, src) := next_char src in
         if targsize <? datalength + 4 then Ret (inr (inl target))
         else
           let! st := put_digit (output0 i0) (datalength, target) in
           let! st := put_digit (output1 i0 i1) st in
           let! st := put_digit (output2 i1 i2) st in
           let! (datalength, target) := put_digit (output3 i2) st in
           Ret (inl (src, srclength - 3, datalength, target))
       else Ret (inr (inr (src, srclength, datalength, target))))
    (src, srclength, 0, target).

(** The last one or two bytes, and the padding. *)
Definition ntop_padding (src : list Z) (srclength datalength : Z) (target : list Z)
    (targsize : Z) : res (option (Z * list Z)) :=
  if srclength =? 0 then Ret (Some (datalength, target))
  else
    let! (i0, src) := next_char src in
    let! (i1, src) := (if 1 <? srclength then next_char src else Ret (0, src)) in
    if targsize <? datalength + 4 then Ret None
    else
      let! st := put_digit (output0 i0) (datalength, target) in
      let! st := put_digit (output1 i0 i1) st in
      let! st := (if srclength =? 1 then put_pad st else put_digit (output2 i1 0) st) in
      let! st := put_pad st in
      Ret (Some st).

(** The value returned and the target buffer afterwards. *)
Definition f_b64_ntop (src : list Z) (srclength : Z) (target : list Z) (targsize : Z) :
    res (Z * list Z) :=
  let! r := ntop_groups src srclength target targsize in
  match r with
  | inl target => Ret (-1, target)
  | inr (src, srclength, datalength, target) =>
      let! r := ntop_padding src srclength datalength target targsize in
      match r with
      | None => Ret (-1, target)
      | Some (datalength, target) =>
          if targsize <=? datalength then Ret (-1, target)
          else
            let! target := put target datalength 0 in
            Ret (swrap 32 datalength, target)
      end
  end.

(** [strchr(Base64, ch) - Base64] for a [ch] that is not NUL. *)
Definition b64_index (ch : Z) : option Z :=
  match list_find (eq ch) Base64 with
  | Some (i, _) => Some (Z.of_nat i)
  | None => None
  end.

(** One base64 digit: [None] is [return (-1)].  A NULL target is [None], and
    only the index advances. *)
Definition pton_digit (v : Z) (targsize tarindex state : Z) (target : option (list Z)) :
    res (option (Z * Z * option (list Z))) :=
  let two_bytes (shift mask up next_state : Z) :=
    match target with
    | None => Ret (Some (u32 (tarindex + 1), next_state, None))
    | Some t =>
        if targsize <=? u32 (tarindex + 1) then Ret None
        else
          let! old := get t tarindex in
          let! t := put t tarindex (Z.lor old (Z.shiftr v shift)) in
          let! t := put t (u32 (tarindex + 1)) (Z.shiftl (Z.land v mask) up) in
          Ret (Some (u32 (tarindex + 1), next_state, Some t))
    end in
  if state =? 0 then
    match target with
    | None => Ret (Some (tarindex, 1, None))
    | Some t =>
        if targsize <=? tarindex then Ret None
        else let! t := put t tarindex (Z.shiftl v 2) in Ret (Some (tarindex, 1, Some t))
    end
  else if state =? 1 then two_bytes 4 0x0f 4 2
  else if state =? 2 then two_bytes 2 0x03 6 3
  else
    match target with
    | None => Ret (Some (u32 (tarindex + 1), 0, None))
    | Some t =>
        if targsize <=? tarindex then Ret None
        else
          let! old := get t tarindex in
          let! t := put t tarindex (Z.lor old v) in
          Ret (Some (u32 (tarindex + 1), 0, Some t))
    end.

(** [while ((ch = *src++) != 0)]: how the loop over the input ends. *)
Inductive pton_end : Type :=
| PtonFail (target : option (list Z))
| PtonBreak (ch : Z) (src : list Z) (tarindex state : Z) (target : option (list Z)).

Fixpoint pton_loop (src : list Z) (targsize tarindex state : Z) (target : option (list Z)) :
    res pton_end :=
  match src with
  | [] => UB
  | ch :: src =>
      if ch =? 0 then Ret (PtonBreak ch src tarindex state target)
      else if isspace ch then pton_loop src targsize tarindex state target
      else if ch =? Pad64 then Ret (PtonBreak ch src tarindex state target)
      else
        match b64_index ch with
        | None => Ret (PtonFail target)
        | Some v =>
            let! r := pton_digit v targsize tarindex state target in
            match r with
            | None => Ret (PtonFail target)
            | Some (tarindex, state, target) => pton_loop src targsize tarindex state target
            end
        end
  end.

(** [for (; ch != 0; ch = *src++) if (!isspace(ch)) break;]: the character that
    stopped the loop and the rest. *)
Fixpoint skip_spaces (ch : Z) (src : list Z) : res (Z * list Z) :=
  if (ch =? 0) || negb (isspace ch) then Ret (ch, src)
  else
    match src with
    | [] => UB
    | c :: src => skip_spaces c src
    end.

(** Only spaces up to the NUL, and the bits that slopped past the last byte are
    zero. *)
Definition pton_tail (ch : Z) (src : list Z) (tarindex : Z) (target : option (list Z)) : res Z :=
  let! (ch, _) := skip_spaces ch src in
  if negb (ch =? 0) then Ret (-1)
  else
    match target with
    | None => Ret (swrap 32 tarindex)
    | Some t =>
        let! extra := get t tarindex in
        Ret (if extra =? 0 then swrap 32 tarindex else -1)
    end.

Definition pton_finish (ch : Z) (src : list Z) (tarindex state : Z) (target : option (list Z)) :
    res Z :=
  if ch =? Pad64 then
    let! (ch, src) := next_char src in
    if (state =? 0) || (state =? 1) then Ret (-1)
    else if state =? 2 then
      let! (ch, src) := skip_spaces ch src in
      if negb (ch =? Pad64) then Ret (-1)
      else
        let! (ch, src) := next_char src in
        pton_tail ch src tarindex target
    else pton_tail ch src tarindex target
  else Ret (if state =? 0 then swrap 32 tarindex else -1).

Definition f_b64_pton (src : list Z) (target : option (list Z)) (targsize : Z) :
    res (Z * option (list Z)) :=
  let! r := pton_loop src targsize 0 0 target in
  match r with
  | PtonFail target => Ret (-1, target)
  | PtonBreak ch src tarindex state target =>
      let! n := pton_finish ch src tarindex state target in Ret (n, target)
  end.

(** ** Specification: RFC 1521 base64 *)

(** The four 6-bit digits of three bytes. *)
Definition digit0 (a : Z) : Z := a / 4.
Definition digit1 (a b : Z) : Z := (a mod 4) * 16 + b / 16.
Definition digit2 (b c : Z) : Z := (b mod 16) * 4 + c / 64.
Definition digit3 (c : Z) : Z := c mod 64.

Definition b64_char (d : Z) : Z := default 0 (Base64 !! Z.to_nat d).

Fixpoint b64_encode (src : list Z) : list Z :=
  match src with
  | a :: b :: c :: src =>
      b64_char (digit0 a) :: b64_char (digit1 a b) :: b64_char (digit2 b c) :: b64_char (digit3 c)
        :: b64_encode src
  | [a; b] => [b64_char (digit0 a); b64_char (digit1 a b); b64_char (digit2 b 0); Pad64]
  | [a] => [b64_char (digit0 a); b64_char (digit1 a 0); Pad64; Pad64]
  | [] => []
  end.

(** Induction three bytes at a time. *)
Lemma list_ind3 (P : list Z -> Prop) :
  P [] -> (forall a, P [a]) -> (forall a b, P [a; b]) ->
  (forall a b c l, P l -> P (a :: b :: c :: l)) -> forall l, P l.
Proof.
  intros H0 H1 H2 H3. fix IH 1. intros [|a [|b [|c l]]]; [done|done|done|]. apply H3, IH.
Qed.

(** ** The alphabet *)

Lemma digits_ok :
  Forall (fun n =>
    Base64 !! n = Some (b64_char (Z.of_nat n)) /\ u8 (b64_char (Z.of_nat n)) = b64_char (Z.of_nat n)
    /\ b64_index (b64_char (Z.of_nat n)) = Some (Z.of_nat n)
    /\ isspace (b64_char (Z.of_nat n)) = false /\ b64_char (Z.of_nat n) <> Pad64
    /\ b64_char (Z.of_nat n) <> 0) (seq 0 64).
Proof. repeat (constructor; [by vm_compute|]). constructor. Qed.

Lemma digit_ok d :
  0 <= d < 64 ->
  Base64 !! Z.to_nat d = Some (b64_char d) /\ u8 (b64_char d) = b64_char d
  /\ b64_index (b64_char d) = Some d /\ isspace (b64_char d) = false
  /\ b64_char d <> Pad64 /\ b64_char d <> 0.
Proof.
  intros Hd. pose proof digits_ok as Hf. rewrite Forall_forall in Hf.
  specialize (Hf (Z.to_nat d)). rewrite Z2Nat.id in Hf by lia. apply Hf, elem_of_seq. lia.
Qed.

Lemma digit_ranges a b c :
  is_byte a -> is_byte b -> is_byte c ->
  0 <= digit0 a < 64 /\ 0 <= digit1 a b < 64 /\ 0 <= digit2 b c < 64 /\ 0 <= digit3 c < 64.
Proof.
  unfold is_byte, digit0, digit1, digit2, digit3. intros Ha Hb Hc. Z.to_euclidean_division_equations. lia.
Qed.

Lemma output0_spec a : output0 a = digit0 a.
Proof. apply Z.shiftr_div_pow2. lia. Qed.

Lemma output1_spec a b : is_byte a -> is_byte b -> output1 a b = digit1 a b.
Proof.
  intros Ha Hb. unfold output1. change 0x03 with (Z.ones 2).
  rewrite Z.land_ones, Z.shiftl_mul_pow2, Z.shiftr_div_pow2 by lia.
  pose proof (digit_ranges a b 0 Ha Hb ltac:(by unfold is_byte)).
  change (2 ^ 2) with 4. change (2 ^ 4) with 16.
  unfold u8. rewrite wrap_small; unfold digit1 in *; lia.
Qed.

Lemma output2_spec b c : is_byte b -> is_byte c -> output2 b c = digit2 b c.
Proof.
  intros Hb Hc. unfold output2. change 0x0f with (Z.ones 4).
  rewrite Z.land_ones, Z.shiftl_mul_pow2, Z.shiftr_div_pow2 by lia.
  pose proof (digit_ranges 0 b c ltac:(by unfold is_byte) Hb Hc).
  change (2 ^ 2) with 4. change (2 ^ 4) with 16. change (2 ^ 6) with 64.
  unfold u8. rewrite wrap_small; unfold digit2 in *; lia.
Qed.

Lemma output3_spec c : output3 c = digit3 c.
Proof. unfold output3. change 0x3f with (Z.ones 6). by rewrite Z.land_ones. Qed.

(** ** Encoding *)

Lemma put_at out x rest v :
  put (out ++ x :: rest) (zlen out) v = Ret (out ++ u8 v :: rest).
Proof.
  unfold put. pose proof (zlen_nonneg out). pose proof (zlen_nonneg rest).
  rewrite zlen_app, zlen_cons. destruct (Z.leb_spec 0 (zlen out)); [|lia].
  destruct (Z.ltb_spec (zlen out) (zlen out + (1 + zlen rest))); [|lia]. cbn. f_equal.
  unfold zlen. rewrite Nat2Z.id. rewrite <- (Nat.add_0_r (length out)). by rewrite insert_app_r.
Qed.

Lemma zlen_snoc {A} (l : list A) x : zlen (l ++ [x]) = zlen l + 1.
Proof. by rewrite zlen_app. Qed.

Lemma put_digit_at out x rest d :
  0 <= d < 64 ->
  put_digit d (zlen out, out ++ x :: rest)
  = Ret (zlen (out ++ [b64_char d]), (out ++ [b64_char d]) ++ rest).
Proof.
  intros Hd. destruct (digit_ok d Hd) as (Hc & Hu & _). unfold put_digit. rewrite Hc.
  rewrite put_at, Hu. cbn [rbind]. by rewrite zlen_snoc, <- app_assoc.
Qed.

Lemma put_pad_at out x rest :
  put_pad (zlen out, out ++ x :: rest) = Ret (zlen (out ++ [Pad64]), (out ++ [Pad64]) ++ rest).
Proof. unfold put_pad. rewrite put_at. cbn [rbind]. by rewrite zlen_snoc, <- app_assoc. Qed.

(** Room for four more characters. *)
Lemma four_more (out t : list Z) n :
  zlen out + 4 <= n -> n <= zlen (out ++ t) -> exists x0 x1 x2 x3 t', t = x0 :: x1 :: x2 :: x3 :: t'.
Proof.
  rewrite zlen_app. intros Hn Ht.
  destruct t as [|x0 [|x1 [|x2 [|x3 t']]]]; try (unfold zlen in *; cbn in *; lia). by repeat eexists.
Qed.

Lemma b64_encode_zlen src : zlen (b64_encode src) = 4 * ((zlen src + 2) / 3).
Proof.
  induction src as [|a|a b|a b c src IH] using list_ind3; [done|done|done|].
  cbn [b64_encode]. rewrite !zlen_cons, IH.
  replace (1 + (1 + (1 + zlen src)) + 2) with (zlen src + 2 + 1 * 3) by lia.
  rewrite Z.div_add by lia. lia.
Qed.

(** The whole of [f_b64_ntop] after the groups already written. *)
Definition ntop_rest (src : list Z) (datalength : Z) (target : list Z) (targsize : Z) (k : nat) :
    res (Z * list Z) :=
  let! r :=
    loop k
      (fun '(src, srclength, datalength, target) =>
         if 2 <? srclength then
           let! (i0, src) := next_char src in
           let! (i1, src) := next_char src in
           let! (i2, src) := next_char src in
           if targsize <? datalength + 4 then Ret (inr (inl target))
           else
             let! st := put_digit (output0 i0) (datalength, target) in
             let! st := put_digit (output1 i0 i1) st in
             let! st := put_digit (output2 i1 i2) st in
             let! (datalength, target) := put_digit (output3 i2) st in
             Ret (inl (src, srclength - 3, datalength, target))
         else Ret (inr (inr (src, srclength, datalength, target))))
      (src, zlen src, datalength, target) in
  match r with
  | inl target => Ret (-1, target)
  | inr (src, srclength, datalength, target) =>
      let! r := ntop_padding src srclength datalength target targsize in
      match r with
      | None => Ret (-1, target)
      | Some (datalength, target) =>
          if targsize <=? datalength then Ret (-1, target)
          else
            let! target := put target datalength 0 in
            Ret (swrap 32 datalength, target)
      end
  end.

Lemma drop_past (out q t : list Z) n :
  (length out + length q <= n)%nat ->
  drop n ((out ++ q) ++ drop (length q) t) = drop n (out ++ t).
Proof.
  intros Hn. rewrite !drop_app_ge by (rewrite ?length_app; lia). rewrite drop_drop, length_app.
  f_equal. lia.
Qed.

(** Terminating the string, when there is room. *)
Lemma ntop_close out t targsize :
  targsize <= zlen (out ++ t) -> targsize < 2 ^ 31 ->
  let r := if targsize <=? zlen out then Ret (-1, out ++ t)
           else let! target := put (out ++ t) (zlen out) 0 in Ret (swrap 32 (zlen out), target) in
  if zlen out <? targsize
  then r = Ret (zlen out, out ++ 0 :: drop 1 t)
  else exists t', r = Ret (-1, t')
                  /\ drop (Z.to_nat targsize) t' = drop (Z.to_nat targsize) (out ++ t).
Proof.
  intros Ht Hn. rewrite zlen_app in Ht. pose proof (zlen_nonneg out). cbn zeta.
  destruct (Z.ltb_spec (zlen out) targsize), (Z.leb_spec targsize (zlen out)); try lia; [|by eexists].
  destruct t as [|x t]; [unfold zlen in *; cbn in *; lia|]. rewrite put_at. cbn [rbind].
  by rewrite swrap_small by lia.
Qed.

(** The padded last group, of one byte and of two. *)
Lemma ntop_padding_1 a out t targsize :
  is_byte a -> targsize <= zlen (out ++ t) ->
  ntop_padding [a] 1 (zlen out) (out ++ t) targsize
  = Ret (if targsize <? zlen out + 4 then None
         else Some (zlen (out ++ b64_encode [a]), (out ++ b64_encode [a]) ++ drop 4 t)).
Proof.
  intros Ha Ht. assert (is_byte 0) as Hz by by unfold is_byte.
  pose proof (digit_ranges a 0 0 Ha Hz Hz) as (H0 & H1 & _).
  change (ntop_padding [a] 1 (zlen out) (out ++ t) targsize) with
    (if targsize <? zlen out + 4 then Ret None
     else
       let! st := put_digit (output0 a) (zlen out, out ++ t) in
       let! st := put_digit (output1 a 0) st in
       let! st := put_pad st in
       let! st := put_pad st in
       Ret (Some st)).
  destruct (Z.ltb_spec targsize (zlen out + 4)) as [Hlt|Hge]; [done|].
  destruct (four_more out t targsize Hge Ht) as (x0 & x1 & x2 & x3 & t' & ->).
  rewrite output0_spec, output1_spec by done.
  do 2 (rewrite put_digit_at by done; cbn [rbind]). do 2 (rewrite put_pad_at; cbn [rbind]).
  by rewrite <- !app_assoc.
Qed.

Lemma ntop_padding_2 a b out t targsize :
  is_byte a -> is_byte b -> targsize <= zlen (out ++ t) ->
  ntop_padding [a; b] 2 (zlen out) (out ++ t) targsize
  = Ret (if targsize <? zlen out + 4 then None
         else Some (zlen (out ++ b64_encode [a; b]), (out ++ b64_encode [a; b]) ++ drop 4 t)).
Proof.
  intros Ha Hb Ht. assert (is_byte 0) as Hz by by unfold is_byte.
  pose proof (digit_ranges a b 0 Ha Hb Hz) as (H0 & H1 & H2 & _).
  change (ntop_padding [a; b] 2 (zlen out) (out ++ t) targsize) with
    (if targsize <? zlen out + 4 then Ret None
     else
       let! st := put_digit (output0 a) (zlen out, out ++ t) in
       let! st := put_digit (output1 a b) st in
       let! st := put_digit (output2 b 0) st in
       let! st := put_pad st in
       Ret (Some st)).
  destruct (Z.ltb_spec targsize (zlen out + 4)) as [Hlt|Hge]; [done|].
  destruct (four_more out t targsize Hge Ht) as (x0 & x1 & x2 & x3 & t' & ->).
  rewrite output0_spec, output1_spec, output2_spec by done.
  do 3 (rewrite put_digit_at by done; cbn [rbind]). rewrite put_pad_at. cbn [rbind].
  by rewrite <- !app_assoc.
Qed.

Lemma ntop_padding_spec src out t targsize :
  Forall is_byte src -> (0 < length src < 3)%nat -> targsize <= zlen (out ++ t) ->
  ntop_padding src (zlen src) (zlen out) (out ++ t) targsize
  = Ret (if targsize <? zlen out + 4 then None
         else Some (zlen (out ++ b64_encode src), (out ++ b64_encode src) ++ drop 4 t)).
Proof.
  intros Hb Hl Ht. destruct src as [|a [|b [|? ?]]]; cbn in Hl; try lia.
  - apply Forall_cons in Hb as [Ha _]. by apply ntop_padding_1.
  - apply Forall_cons in Hb as [Ha Hb]. apply Forall_cons in Hb as [Hb _]. by apply ntop_padding_2.
Qed.

Lemma ntop_last src out t targsize k :
  Forall is_byte src -> (0 < length src < 3)%nat -> targsize <= zlen (out ++ t) -> targsize < 2 ^ 31 ->
  let enc := b64_encode src in
  let r := ntop_rest src (zlen out) (out ++ t) targsize (S k) in
  if zlen (out ++ enc) <? targsize
  then r = Ret (zlen (out ++ enc), (out ++ enc) ++ 0 :: drop (length enc + 1) t)
  else exists t', r = Ret (-1, t')
                  /\ drop (Z.to_nat targsize) t' = drop (Z.to_nat targsize) (out ++ t).
Proof.
  intros Hb Hl Ht Hn. cbn zeta.
  assert (zlen (b64_encode src) = 4) as He
    by (rewrite b64_encode_zlen; destruct src as [|? [|? [|? ?]]]; cbn in Hl; try lia; done).
  assert (ntop_rest src (zlen out) (out ++ t) targsize (S k) =
    let! r := ntop_padding src (zlen src) (zlen out) (out ++ t) targsize in
    match r with
    | None => Ret (-1, out ++ t)
    | Some (datalength, target) =>
        if targsize <=? datalength then Ret (-1, target)
        else let! target := put target datalength 0 in Ret (swrap 32 datalength, target)
    end) as ->.
  { unfold ntop_rest. rewrite loop_unfold.
    destruct (Z.ltb_spec 2 (zlen src)); [unfold zlen in *; lia|]. done. }
  rewrite ntop_padding_spec by done. cbn [rbind]. rewrite zlen_app, He in *.
  destruct (Z.ltb_spec targsize (zlen out + 4)) as [Hlt|Hge].
  { destruct (Z.ltb_spec (zlen out + 4) targsize); [lia|]. by eexists. }
  pose proof (ntop_close (out ++ b64_encode src) (drop 4 t) targsize) as Hc.
  assert (length (b64_encode src) = 4%nat) as Hq by (unfold zlen in He; lia).
  rewrite !zlen_app, He in Hc. rewrite drop_drop in Hc. rewrite Hq. pose proof (drop_past out (b64_encode src) t (Z.to_nat targsize)) as Hp.
  rewrite Hq in Hp. rewrite Hp in Hc by (unfold zlen in *; lia).
  apply Hc; [|done]. unfold zlen in *. rewrite length_drop. lia.
Qed.

(** The groups of three bytes put four characters each. *)
Lemma ntop_group a b c src out t targsize k :
  is_byte a -> is_byte b -> is_byte c -> targsize <= zlen (out ++ t) ->
  let q := [b64_char (digit0 a); b64_char (digit1 a b); b64_char (digit2 b c); b64_char (digit3 c)] in
  ntop_rest (a :: b :: c :: src) (zlen out) (out ++ t) targsize (S k)
  = if targsize <? zlen out + 4 then Ret (-1, out ++ t)
    else ntop_rest src (zlen (out ++ q)) ((out ++ q) ++ drop 4 t) targsize k.
Proof.
  intros Ha Hb Hc Ht. cbn zeta. pose proof (digit_ranges a b c Ha Hb Hc) as (H0 & H1 & H2 & H3).
  unfold ntop_rest. rewrite loop_unfold. rewrite !zlen_cons. pose proof (zlen_nonneg src).
  destruct (Z.ltb_spec 2 (1 + (1 + (1 + zlen src)))); [|lia]. cbn [next_char rbind].
  destruct (Z.ltb_spec targsize (zlen out + 4)) as [Hlt|Hge]; [done|].
  destruct (four_more out t targsize Hge Ht) as (x0 & x1 & x2 & x3 & t' & ->).
  rewrite output0_spec, output1_spec, output2_spec, output3_spec by done.
  do 4 (rewrite put_digit_at by done; cbn [rbind]).
  replace (1 + (1 + (1 + zlen src)) - 3) with (zlen src) by lia. by rewrite <- !app_assoc.
Qed.

(** The groups of three bytes put four characters each. *)
Lemma ntop_rest_spec src out t targsize k :
  Forall is_byte src -> targsize <= zlen (out ++ t) -> targsize < 2 ^ 31 -> (length src < k)%nat ->
  let enc := b64_encode src in
  let r := ntop_rest src (zlen out) (out ++ t) targsize k in
  if zlen (out ++ enc) <? targsize
  then r = Ret (zlen (out ++ enc), (out ++ enc) ++ 0 :: drop (length enc + 1) t)
  else exists t', r = Ret (-1, t')
                  /\ drop (Z.to_nat targsize) t' = drop (Z.to_nat targsize) (out ++ t).
Proof.
  intros Hb. revert Hb k out t.
  induction src as [|a|a b|a b c src IH] using list_ind3; intros Hb [|k] out t Ht Hn Hk;
    try (cbn in Hk; lia); cbn zeta.
  - cbn [b64_encode]. rewrite app_nil_r. by apply ntop_close.
  - apply (ntop_last [a]); [done|cbn; lia|done|done].
  - apply (ntop_last [a; b]); [done|cbn; lia|done|done].
  - apply Forall_cons in Hb as [Ha Hb]. apply Forall_cons in Hb as [Hb' Hb].
    apply Forall_cons in Hb as [Hc Hb]. rewrite ntop_group by done. cbn [b64_encode].
    set (q := [b64_char (digit0 a); b64_char (digit1 a b); b64_char (digit2 b c); b64_char (digit3 c)]).
    change (_ :: _ :: _ :: _ :: b64_encode src) with (q ++ b64_encode src). rewrite app_assoc.
    pose proof (zlen_nonneg (b64_encode src)).
    assert (zlen (out ++ q ++ b64_encode src) = zlen out + 4 + zlen (b64_encode src)) as Hz
      by (rewrite !zlen_app; change (zlen q) with 4; lia). rewrite app_assoc in Hz. rewrite Hz.
    destruct (Z.ltb_spec targsize (zlen out + 4)) as [Hlt|Hge].
    { destruct (Z.ltb_spec (zlen out + 4 + zlen (b64_encode src)) targsize); [lia|]. by eexists. }
    rewrite <- Hz. replace (length (q ++ b64_encode src) + 1)%nat
      with (4 + (length (b64_encode src) + 1))%nat by (rewrite length_app; cbn; lia).
    rewrite <- drop_drop.
    rewrite <- (drop_past out q t (Z.to_nat targsize)) by (unfold zlen in *; cbn; lia).
    apply IH; [done| |done|cbn in Hk; lia].
    rewrite !zlen_app in *. change (zlen q) with 4. unfold zlen in *. rewrite length_drop. lia.
Qed.

(** [f_b64_ntop] writes the base64 text of the source and a terminating NUL,
    returns its length, four characters for every three bytes rounded up, and
    leaves the rest of the buffer alone; it returns -1 exactly when [targsize]
    has no room for the text and the NUL, and never writes past [targsize]. *)
Theorem f_b64_ntop_correct src target targsize :
  Forall is_byte src -> targsize <= zlen target -> targsize < 2 ^ 31 ->
  let n := 4 * ((zlen src + 2) / 3) in
  if n <? targsize
  then f_b64_ntop src (zlen src) target targsize
       = Ret (n, b64_encode src ++ 0 :: drop (Z.to_nat (n + 1)) target)
  else exists t', f_b64_ntop src (zlen src) target targsize = Ret (-1, t')
                  /\ drop (Z.to_nat targsize) t' = drop (Z.to_nat targsize) target.
Proof.
  intros Hb Ht Hn. cbn zeta. rewrite <- b64_encode_zlen.
  pose proof (ntop_rest_spec src [] target targsize (S (Z.to_nat (zlen src))) Hb Ht Hn) as Hr.
  cbn zeta in Hr. change ([] ++ b64_encode src) with (b64_encode src) in Hr.
  replace (Z.to_nat (zlen (b64_encode src) + 1)) with (length (b64_encode src) + 1)%nat
    by (unfold zlen; lia).
  apply Hr. unfold zlen. lia.
Qed.

(** ** Decoding *)

Lemma get_at out x rest : get (out ++ x :: rest) (zlen out) = Ret x.
Proof.
  unfold get. pose proof (zlen_nonneg out). destruct (Z.leb_spec 0 (zlen out)); [|lia].
  unfold zlen. by rewrite Nat2Z.id, list_lookup_middle.
Qed.

(** What a digit adds to the target in each state. *)
Lemma pton_state0 v targsize out x rest :
  zlen out < targsize ->
  pton_digit v targsize (zlen out) 0 (Some (out ++ x :: rest))
  = Ret (Some (zlen out, 1, Some (out ++ u8 (Z.shiftl v 2) :: rest))).
Proof.
  intros Hn. unfold pton_digit. cbn [Z.eqb Pos.eqb]. destruct (Z.leb_spec targsize (zlen out)); [lia|].
  by rewrite put_at.
Qed.

Lemma pton_two_bytes v targsize out o x rest shift mask up ns :
  zlen out + 1 < targsize -> targsize < 2 ^ 31 ->
  (let t := out ++ o :: x :: rest in
   if targsize <=? u32 (zlen out + 1) then Ret None
   else
     let! old := get t (zlen out) in
     let! t := put t (zlen out) (Z.lor old (Z.shiftr v shift)) in
     let! t := put t (u32 (zlen out + 1)) (Z.shiftl (Z.land v mask) up) in
     Ret (Some (u32 (zlen out + 1), ns, Some t)))
  = let out' := out ++ [u8 (Z.lor o (Z.shiftr v shift))] in
    @Ret (option (Z * Z * option (list Z))) (Some (zlen out', ns, Some (out' ++ u8 (Z.shiftl (Z.land v mask) up) :: rest))).
Proof.
  intros Hn Hm. cbn zeta. pose proof (zlen_nonneg out). unfold u32. rewrite wrap_small by lia.
  destruct (Z.leb_spec targsize (zlen out + 1)); [lia|].
  rewrite get_at. cbn [rbind]. rewrite put_at. cbn [rbind].
  set (y := u8 (Z.lor _ _)). rewrite <- (zlen_snoc out y).
  change (out ++ y :: x :: rest) with (out ++ [y] ++ x :: rest). rewrite app_assoc, put_at. done.
Qed.

Lemma pton_state1 v targsize out o x rest :
  zlen out + 1 < targsize -> targsize < 2 ^ 31 ->
  pton_digit v targsize (zlen out) 1 (Some (out ++ o :: x :: rest))
  = let out' := out ++ [u8 (Z.lor o (Z.shiftr v 4))] in
    Ret (Some (zlen out', 2, Some (out' ++ u8 (Z.shiftl (Z.land v 0x0f) 4) :: rest))).
Proof. intros Hn Hm. exact (pton_two_bytes v targsize out o x rest 4 0x0f 4 2 Hn Hm). Qed.

Lemma pton_state2 v targsize out o x rest :
  zlen out + 1 < targsize -> targsize < 2 ^ 31 ->
  pton_digit v targsize (zlen out) 2 (Some (out ++ o :: x :: rest))
  = let out' := out ++ [u8 (Z.lor o (Z.shiftr v 2))] in
    Ret (Some (zlen out', 3, Some (out' ++ u8 (Z.shiftl (Z.land v 0x03) 6) :: rest))).
Proof. intros Hn Hm. exact (pton_two_bytes v targsize out o x rest 2 0x03 6 3 Hn Hm). Qed.

Lemma pton_state3 v targsize out o rest :
  zlen out < targsize -> targsize < 2 ^ 31 ->
  pton_digit v targsize (zlen out) 3 (Some (out ++ o :: rest))
  = let out' := out ++ [u8 (Z.lor o v)] in Ret (Some (zlen out', 0, Some (out' ++ rest))).
Proof.
  intros Hn Hm. pose proof (zlen_nonneg out). unfold pton_digit. cbn [Z.eqb Pos.eqb].
  destruct (Z.leb_spec targsize (zlen out)); [lia|]. rewrite get_at. cbn [rbind].
  rewrite put_at. cbn [rbind]. unfold u32. rewrite wrap_small by lia.
  by rewrite zlen_snoc, <- app_assoc.
Qed.

(** The digits of three bytes put the three bytes back. *)
Lemma lor_shift a b n : 0 <= n -> 0 <= b < 2 ^ n -> Z.lor (Z.shiftl a n) b = a * 2 ^ n + b.
Proof. intros Hn Hb. rewrite Z.lor_comm, lor_shiftl by done. lia. Qed.

Lemma join_bytes a b c :
  is_byte a -> is_byte b -> is_byte c ->
  u8 (Z.lor (u8 (Z.shiftl (digit0 a) 2)) (Z.shiftr (digit1 a b) 4)) = a
  /\ u8 (Z.lor (u8 (Z.shiftl (Z.land (digit1 a b) 0x0f) 4)) (Z.shiftr (digit2 b c) 2)) = b
  /\ u8 (Z.lor (u8 (Z.shiftl (Z.land (digit2 b c) 0x03) 6)) (digit3 c)) = c.
Proof.
  intros Ha Hb Hc. pose proof (digit_ranges a b c Ha Hb Hc). unfold is_byte in *.
  change 0x0f with (Z.ones 4). change 0x03 with (Z.ones 2).
  rewrite !Z.land_ones, !Z.shiftr_div_pow2 by lia.
  unfold u8. unfold digit0, digit1, digit2, digit3 in *.
  change (2 ^ 2) with 4 in *. change (2 ^ 4) with 16 in *.
  assert ((a mod 4 * 16 + b / 16) / 16 = a mod 4) as -> by (Z.to_euclidean_division_equations; lia).
  assert ((a mod 4 * 16 + b / 16) mod 16 = b / 16) as -> by (Z.to_euclidean_division_equations; lia).
  assert ((b mod 16 * 4 + c / 64) / 4 = b mod 16) as -> by (Z.to_euclidean_division_equations; lia).
  assert ((b mod 16 * 4 + c / 64) mod 4 = c / 64) as -> by (Z.to_euclidean_division_equations; lia).
  split_and!.
  - rewrite (wrap_small 8 (Z.shiftl _ _)), lor_shift, wrap_small;
      rewrite ?Z.shiftl_mul_pow2; Z.to_euclidean_division_equations; lia.
  - rewrite (wrap_small 8 (Z.shiftl _ _)), lor_shift, wrap_small;
      rewrite ?Z.shiftl_mul_pow2; Z.to_euclidean_division_equations; lia.
  - rewrite (wrap_small 8 (Z.shiftl _ _)), lor_shift, wrap_small;
      rewrite ?Z.shiftl_mul_pow2; Z.to_euclidean_division_equations; lia.
Qed.

Lemma pton_loop_digit d src targsize i state target :
  0 <= d < 64 ->
  pton_loop (b64_char d :: src) targsize i state target
  = let! r := pton_digit d targsize i state target in
    match r with
    | None => Ret (PtonFail target)
    | Some (i, state, target) => pton_loop src targsize i state target
    end.
Proof.
  intros Hd. destruct (digit_ok d Hd) as (_ & _ & Hi & Hs & Hp & H0). cbn [pton_loop].
  destruct (Z.eqb_spec (b64_char d) 0); [done|]. rewrite Hs.
  destruct (Z.eqb_spec (b64_char d) Pad64); [done|]. by rewrite Hi.
Qed.

(** The whole of [f_b64_pton] from a state of its loop. *)
Definition pton_from (src : list Z) (targsize tarindex state : Z) (target : option (list Z)) :
    res (Z * option (list Z)) :=
  let! r := pton_loop src targsize tarindex state target in
  match r with
  | PtonFail target => Ret (-1, target)
  | PtonBreak ch src tarindex state target =>
      let! n := pton_finish ch src tarindex state target in Ret (n, target)
  end.

Lemma pton_from_digit d src targsize i state target i' state' target' :
  0 <= d < 64 -> pton_digit d targsize i state target = Ret (Some (i', state', target')) ->
  pton_from (b64_char d :: src) targsize i state target = pton_from src targsize i' state' target'.
Proof. intros Hd Hp. unfold pton_from. by rewrite pton_loop_digit, Hp. Qed.

(** One more byte of scratch space is needed when the text ends in padding. *)
Definition pton_room (n : Z) : Z := if n mod 3 =? 0 then n else n + 1.

Lemma pton_room_3 n : pton_room (1 + (1 + (1 + n))) = pton_room n + 3.
Proof.
  unfold pton_room. replace (1 + (1 + (1 + n))) with (n + 1 * 3) by lia. rewrite Z.mod_add by lia.
  destruct (_ =? _); lia.
Qed.

Lemma pton_room_le n : n <= pton_room n.
Proof. unfold pton_room. destruct (_ =? _); lia. Qed.

Lemma room (out t : list Z) n m :
  zlen out + m <= n -> n <= zlen (out ++ t) -> 0 < m -> exists x t', t = x :: t'.
Proof.
  rewrite zlen_app. intros Hn Ht Hm. destruct t as [|x t]; [unfold zlen in *; cbn in *; lia|].
  by exists x, t.
Qed.

Lemma pton_group a b c src out t targsize :
  is_byte a -> is_byte b -> is_byte c -> targsize <= zlen (out ++ t) -> targsize < 2 ^ 31 ->
  zlen out + 3 <= targsize ->
  pton_from (b64_char (digit0 a) :: b64_char (digit1 a b) :: b64_char (digit2 b c)
             :: b64_char (digit3 c) :: src) targsize (zlen out) 0 (Some (out ++ t))
  = pton_from src targsize (zlen (out ++ [a; b; c])) 0 (Some ((out ++ [a; b; c]) ++ drop 3 t)).
Proof.
  intros Ha Hb Hc Ht Hn Hr. pose proof (digit_ranges a b c Ha Hb Hc) as (H0 & H1 & H2 & H3).
  pose proof (join_bytes a b c Ha Hb Hc) as (Ja & Jb & Jc).
  destruct t as [|x0 [|x1 [|x2 t]]];
    try (rewrite zlen_app in Ht; unfold zlen in *; cbn in *; lia).
  erewrite pton_from_digit; [|done|apply pton_state0; lia].
  erewrite pton_from_digit; [|done|apply pton_state1; lia]. rewrite Ja.
  erewrite pton_from_digit; [|done|apply pton_state2; rewrite ?zlen_snoc; lia]. rewrite Jb.
  erewrite pton_from_digit; [|done|apply pton_state3; rewrite ?zlen_snoc; lia]. rewrite Jc.
  by rewrite <- !app_assoc.
Qed.

(** The padding is accepted when the extra bits are zero. *)
Lemma pton_tail_zero out rest junk :
  zlen out < 2 ^ 31 -> pton_tail 0 junk (zlen out) (Some (out ++ 0 :: rest)) = Ret (zlen out).
Proof.
  intros Hn. pose proof (zlen_nonneg out). unfold pton_tail.
  assert (skip_spaces 0 junk = Ret (0, junk)) as -> by by destruct junk.
  cbn [rbind Z.eqb negb]. rewrite get_at. cbn [rbind Z.eqb]. by rewrite swrap_small by lia.
Qed.

Lemma pton_padding_1 out rest targsize junk :
  zlen out < 2 ^ 31 ->
  pton_from (Pad64 :: 0 :: junk) targsize (zlen out) 3 (Some (out ++ 0 :: rest))
  = Ret (zlen out, Some (out ++ 0 :: rest)).
Proof.
  intros Hn.
  change (pton_from (Pad64 :: 0 :: junk) targsize (zlen out) 3 (Some (out ++ 0 :: rest)))
    with (let! n := pton_tail 0 junk (zlen out) (Some (out ++ 0 :: rest)) in
          Ret (n, Some (out ++ 0 :: rest))).
  by rewrite pton_tail_zero.
Qed.

Lemma pton_padding_2 out rest targsize junk :
  zlen out < 2 ^ 31 ->
  pton_from (Pad64 :: Pad64 :: 0 :: junk) targsize (zlen out) 2 (Some (out ++ 0 :: rest))
  = Ret (zlen out, Some (out ++ 0 :: rest)).
Proof.
  intros Hn.
  change (pton_from (Pad64 :: Pad64 :: 0 :: junk) targsize (zlen out) 2 (Some (out ++ 0 :: rest)))
    with (let! n := pton_tail 0 junk (zlen out) (Some (out ++ 0 :: rest)) in
          Ret (n, Some (out ++ 0 :: rest))).
  by rewrite pton_tail_zero.
Qed.

Lemma pton_last src out t targsize junk :
  Forall is_byte src -> (0 < length src < 3)%nat -> targsize <= zlen (out ++ t) ->
  targsize < 2 ^ 31 -> zlen out + zlen src + 1 <= targsize ->
  exists t',
    pton_from (b64_encode src ++ 0 :: junk) targsize (zlen out) 0 (Some (out ++ t))
    = Ret (zlen (out ++ src), Some ((out ++ src) ++ t')).
Proof.
  intros Hb Hl Ht Hn Hr. assert (is_byte 0) as Hz by by unfold is_byte.
  pose proof (zlen_nonneg out).
  destruct src as [|a [|b [|? ?]]]; cbn in Hl; try lia.
  - apply Forall_cons in Hb as [Ha _]. change (zlen [a]) with 1 in Hr.
    pose proof (digit_ranges a 0 0 Ha Hz Hz) as (H0 & H1 & _).
    pose proof (join_bytes a 0 0 Ha Hz Hz) as (Ja & Jb & _).
    destruct t as [|x0 [|x1 t]]; try (rewrite zlen_app in Ht; unfold zlen in *; cbn in *; lia).
    cbn [b64_encode app].
    erewrite pton_from_digit; [|done|apply pton_state0; lia].
    erewrite pton_from_digit; [|done|apply pton_state1; lia]. rewrite Ja.
    assert (u8 (Z.shiftl (Z.land (digit1 a 0) 15) 4) = 0) as ->.
    { unfold digit1. change 15 with (Z.ones 4). rewrite Z.land_ones by lia.
      change (2 ^ 4) with 16. change (0 / 16) with 0. rewrite Z.add_0_r, Z.mod_mul by lia. done. }
    exists (0 :: t). by rewrite pton_padding_2 by (rewrite zlen_snoc; lia).
  - apply Forall_cons in Hb as [Ha Hb]. apply Forall_cons in Hb as [Hb _].
    change (zlen [a; b]) with 2 in Hr.
    pose proof (digit_ranges a b 0 Ha Hb Hz) as (H0 & H1 & H2 & _).
    pose proof (join_bytes a b 0 Ha Hb Hz) as (Ja & Jb & _).
    destruct t as [|x0 [|x1 [|x2 t]]]; try (rewrite zlen_app in Ht; unfold zlen in *; cbn in *; lia).
    cbn [b64_encode app].
    erewrite pton_from_digit; [|done|apply pton_state0; lia].
    erewrite pton_from_digit; [|done|apply pton_state1; lia]. rewrite Ja.
    erewrite pton_from_digit; [|done|apply pton_state2; rewrite ?zlen_snoc; lia]. rewrite Jb.
    assert (u8 (Z.shiftl (Z.land (digit2 b 0) 3) 6) = 0) as ->.
    { unfold digit2. change 3 with (Z.ones 2). rewrite Z.land_ones by lia.
      change (2 ^ 2) with 4. change (0 / 64) with 0. rewrite Z.add_0_r, Z.mod_mul by lia. done. }
    exists (0 :: t). rewrite pton_padding_1 by (rewrite !zlen_snoc; lia). by rewrite <- !app_assoc.
Qed.

Lemma pton_from_encoded src out t targsize junk :
  Forall is_byte src -> targsize <= zlen (out ++ t) -> targsize < 2 ^ 31 ->
  zlen out + pton_room (zlen src) <= targsize ->
  exists t',
    pton_from (b64_encode src ++ 0 :: junk) targsize (zlen out) 0 (Some (out ++ t))
    = Ret (zlen (out ++ src), Some ((out ++ src) ++ t')).
Proof.
  intros Hb. revert Hb out t.
  induction src as [|a|a b|a b c src IH] using list_ind3; intros Hb out t Ht Hn Hr.
  - exists t. unfold pton_from. cbn. change (pton_room (zlen [])) with 0 in Hr.
    pose proof (zlen_nonneg out). by rewrite app_nil_r, swrap_small by lia.
  - apply (pton_last [a]); try done; [cbn; lia|].
    change (pton_room (zlen [a])) with 2 in Hr. change (zlen [a]) with 1. lia.
  - apply (pton_last [a; b]); try done; [cbn; lia|].
    change (pton_room (zlen [a; b])) with 3 in Hr. change (zlen [a; b]) with 2. lia.
  - apply Forall_cons in Hb as [Ha Hb]. apply Forall_cons in Hb as [Hb' Hb].
    apply Forall_cons in Hb as [Hc Hb]. rewrite !zlen_cons, pton_room_3 in Hr.
    pose proof (pton_room_le (zlen src)). pose proof (zlen_nonneg src).
    change (b64_encode (a :: b :: c :: src) ++ 0 :: junk) with
      (b64_char (digit0 a) :: b64_char (digit1 a b) :: b64_char (digit2 b c) :: b64_char (digit3 c)
       :: (b64_encode src ++ 0 :: junk)).
    rewrite pton_group by (done || lia).
    destruct (IH Hb (out ++ [a; b; c]) (drop 3 t)) as [t' Ht'].
    + rewrite !zlen_app in *. change (zlen [a; b; c]) with 3. unfold zlen in *. rewrite length_drop. lia.
    + done.
    + rewrite zlen_app. change (zlen [a; b; c]) with 3. lia.
    + exists t'. rewrite Ht'. by rewrite <- !app_assoc.
Qed.

(** C38. [f_b64_pton] inverts [f_b64_ntop]: with room for the text and its NUL, encoding
    any bytes writes a text that decodes to these bytes, with their number returned,
    whatever is in the buffer behind the text, as long as the target of the decoder
    has room for them, plus one byte when the text ends in padding. *)
Theorem f_b64_roundtrip src text textsize target targsize :
  Forall is_byte src ->
  textsize <= zlen text -> 4 * ((zlen src + 2) / 3) < textsize < 2 ^ 31 ->
  targsize <= zlen target -> pton_room (zlen src) <= targsize < 2 ^ 31 ->
  exists text' target',
    f_b64_ntop src (zlen src) text textsize = Ret (4 * ((zlen src + 2) / 3), text') /\
    f_b64_pton text' (Some target) targsize = Ret (zlen src, Some target') /\ take (length src) target' = src.
Proof.
  intros Hb Htext [Hroom Hsize] Ht [Hr Hn]. pose proof (f_b64_ntop_correct src text textsize Hb Htext Hsize) as E. cbn zeta in E.
  destruct (Z.ltb_spec (4 * ((zlen src + 2) / 3)) textsize); [|lia].
  destruct (pton_from_encoded src [] target targsize (drop (Z.to_nat (4 * ((zlen src + 2) / 3) + 1)) text) Hb Ht Hn Hr) as [t' E'].
  do 2 eexists. split; [exact E|]. split; [exact E'|apply take_app_length].
Qed.

(** ** Safety of the decoder on any text *)

Section Safety.
Context (target : list Z) (targsize : Z).
Context (Hroom : targsize <= zlen target) (Hsize : 0 <= targsize < 2 ^ 31).

(** A target that differs from the original only below [targsize]. *)
Definition same_tail (t : list Z) : Prop :=
  length t = length target /\ drop (Z.to_nat targsize) t = drop (Z.to_nat targsize) target.

(** A partly filled byte is within the target. *)
Definition pton_inv (i state : Z) (t : list Z) : Prop :=
  same_tail t /\ 0 <= i /\ (state = 0 /\ i <= targsize \/ 1 <= state <= 3 /\ i < targsize).

Lemma put_safe t i v :
  same_tail t -> 0 <= i < targsize -> exists t', put t i v = Ret t' /\ same_tail t'.
Proof.
  intros [Hl Hd] Hi. unfold put.
  destruct (Z.leb_spec 0 i), (Z.ltb_spec i (zlen t)); try (unfold zlen in *; lia). cbn.
  eexists. split; [done|]. split; [by rewrite length_insert|]. rewrite drop_insert_lt by lia. done.
Qed.

Lemma get_safe t i : same_tail t -> 0 <= i < targsize -> exists v, get t i = Ret v.
Proof.
  intros [Hl _] Hi. unfold get. destruct (Z.leb_spec 0 i); [|lia].
  destruct (lookup_lt_is_Some_2 t (Z.to_nat i)) as [v ->]; [unfold zlen in *; lia|]. by eexists.
Qed.

Lemma pton_digit_safe v i state t :
  pton_inv i state t ->
  exists r, pton_digit v targsize i state (Some t) = Ret r
    /\ match r with
       | None => True
       | Some (i', state', Some t') => pton_inv i' state' t'
       | Some (_, _, None) => False
       end.
Proof.
  intros (Ht & Hi & Hst).
  assert (forall shift mask up ns, 0 <= i < targsize -> 1 <= ns <= 3 ->
    exists r,
      (if targsize <=? u32 (i + 1) then Ret None
       else
         let! old := get t i in
         let! t := put t i (Z.lor old (Z.shiftr v shift)) in
         let! t := put t (u32 (i + 1)) (Z.shiftl (Z.land v mask) up) in
         Ret (Some (u32 (i + 1), ns, Some t))) = Ret r
      /\ match r with
         | None => True
         | Some (i', state', Some t') => pton_inv i' state' t'
         | Some (_, _, None) => False
         end) as Htwo.
  { intros shift mask up ns Hi' Hns. unfold u32. rewrite wrap_small by lia.
    destruct (Z.leb_spec targsize (i + 1)); [by exists None|].
    destruct (get_safe t i Ht Hi') as [old ->]. cbn [rbind].
    destruct (put_safe t i (Z.lor old (Z.shiftr v shift)) Ht Hi') as (t1 & -> & Ht1). cbn [rbind].
    destruct (put_safe t1 (i + 1) (Z.shiftl (Z.land v mask) up) Ht1 ltac:(lia)) as (t2 & -> & Ht2).
    cbn [rbind]. eexists. split; [done|]. split_and!; [done|lia|lia]. }
  unfold pton_digit. destruct Hst as [[-> Hle]|[Hst Hlt]].
  { cbn [Z.eqb]. destruct (Z.leb_spec targsize i); [by exists None|].
    destruct (put_safe t i (Z.shiftl v 2) Ht ltac:(lia)) as (t1 & -> & Ht1). cbn [rbind].
    eexists. split; [done|]. split_and!; [done|lia|lia]. }
  destruct (Z.eqb_spec state 0); [lia|]. destruct (state =? 1); [apply Htwo; lia|].
  destruct (state =? 2); [apply Htwo; lia|].
  destruct (Z.leb_spec targsize i); [by exists None|].
  destruct (get_safe t i Ht ltac:(lia)) as [old ->]. cbn [rbind].
  destruct (put_safe t i (Z.lor old v) Ht ltac:(lia)) as (t1 & -> & Ht1). cbn [rbind].
  unfold u32. rewrite wrap_small by lia. eexists. split; [done|]. split_and!; [done|lia|lia].
Qed.

Lemma pton_loop_safe src i state t :
  0 ∈ src -> pton_inv i state t ->
  exists r, pton_loop src targsize i state (Some t) = Ret r
    /\ match r with
       | PtonFail (Some t') => same_tail t'
       | PtonBreak ch src' i' state' (Some t') => pton_inv i' state' t' /\ (ch = 0 \/ 0 ∈ src')
       | _ => False
       end.
Proof.
  revert i state t; induction src as [|ch src IH]; intros i state t Hz Hinv; [by apply elem_of_nil in Hz|].
  cbn [pton_loop]. destruct (Z.eqb_spec ch 0) as [->|Hch]; [eexists; split; [done|]; split; [done|by left]|].
  assert (0 ∈ src) as Hz' by (apply elem_of_cons in Hz as [?|?]; [by subst|done]).
  destruct (isspace ch); [by apply IH|].
  destruct (ch =? Pad64); [eexists; split; [done|]; split; [done|by right]|].
  destruct (b64_index ch) as [v|]; [|eexists; split; [done|apply Hinv]].
  destruct (pton_digit_safe v i state t Hinv) as ([[[i' state'] [t'|]]|] & -> & Hr); cbn [rbind];
    [by apply IH|done|]. eexists. split; [done|apply Hinv].
Qed.

Lemma skip_spaces_safe ch src :
  ch = 0 \/ 0 ∈ src ->
  exists ch' src', skip_spaces ch src = Ret (ch', src') /\ (ch' = 0 \/ 0 ∈ src').
Proof.
  revert ch; induction src as [|c src IH]; intros ch Hz; cbn [skip_spaces].
  - destruct Hz as [->|Hz]; [|by apply elem_of_nil in Hz]. cbn. by exists 0, []; auto.
  - destruct ((ch =? 0) || negb (isspace ch)) eqn:E; [by exists ch, (c :: src)|].
    apply IH. destruct Hz as [->|Hz]; [done|]. apply elem_of_cons in Hz as [<-|?]; auto.
Qed.

Lemma pton_tail_safe ch src i t :
  ch = 0 \/ 0 ∈ src -> same_tail t -> 0 <= i < targsize ->
  exists n, pton_tail ch src i (Some t) = Ret n /\ -1 <= n <= targsize.
Proof.
  intros Hz Ht Hi. unfold pton_tail. destruct (skip_spaces_safe ch src Hz) as (ch' & src' & -> & _).
  cbn [rbind]. destruct (negb _); [eexists; split; [done|lia]|].
  destruct (get_safe t i Ht Hi) as [v ->]. cbn [rbind]. rewrite swrap_small by lia.
  destruct (v =? 0); eexists; split; (done || lia).
Qed.

Lemma next_char_safe src : 0 ∈ src -> exists ch src', next_char src = Ret (ch, src') /\ (ch = 0 \/ 0 ∈ src').
Proof.
  destruct src as [|c src]; intros Hz; [by apply elem_of_nil in Hz|].
  exists c, src. split; [done|]. apply elem_of_cons in Hz as [<-|?]; auto.
Qed.

Lemma pton_finish_safe ch src i state t :
  ch = 0 \/ 0 ∈ src -> pton_inv i state t ->
  exists n, pton_finish ch src i state (Some t) = Ret n /\ -1 <= n <= targsize.
Proof.
  intros Hz (Ht & Hi & Hst). unfold pton_finish. destruct (Z.eqb_spec ch Pad64) as [->|_].
  - destruct Hz as [[=]|Hz]. destruct (next_char_safe src Hz) as (c & src' & -> & Hz'). cbn [rbind].
    destruct Hst as [[-> _]|[Hst Hlt]]; [eexists; split; [done|lia]|].
    destruct (Z.eqb_spec state 0); [lia|]. destruct (state =? 1); [eexists; split; [done|lia]|]. cbn [orb].
    destruct (state =? 2); [|by apply pton_tail_safe].
    destruct (skip_spaces_safe c src' Hz') as (c2 & src2 & -> & Hz2). cbn [rbind].
    destruct (Z.eqb_spec c2 Pad64) as [->|]; cbn [negb]; [|eexists; split; [done|lia]].
    destruct Hz2 as [[=]|Hz2]. destruct (next_char_safe src2 Hz2) as (c3 & src3 & -> & Hz3).
    cbn [rbind]. by apply pton_tail_safe.
  - destruct (state =? 0); eexists; (split; [done|]); [rewrite swrap_small; lia|lia].
Qed.

Lemma pton_safe src :
  0 ∈ src ->
  exists n t', f_b64_pton src (Some target) targsize = Ret (n, Some t') /\ -1 <= n <= targsize
               /\ same_tail t'.
Proof.
  intros Hz. unfold f_b64_pton.
  destruct (pton_loop_safe src 0 0 target Hz) as (r & -> & Hr).
  { split_and!; [by split|lia|left; lia]. }
  cbn [rbind]. destruct r as [[t'|]|ch src' i state [t'|]]; try done.
  - eexists _, _. split; [done|]. split; [lia|done].
  - destruct Hr as [Hinv Hz']. destruct (pton_finish_safe ch src' i state t' Hz' Hinv) as (n & -> & Hn).
    cbn [rbind]. eexists _, _. split; [done|]. split; [done|apply Hinv].
Qed.
End Safety.

(** C39. On any NUL-terminated text, well formed or not, [f_b64_pton] returns -1 or a
    count within [targsize], reads nothing past the NUL, and writes nothing past
    [targsize]. *)
Theorem f_b64_pton_bounds src target targsize :
  0 ∈ src -> 0 <= targsize <= zlen target -> targsize < 2 ^ 31 ->
  exists n t',
    f_b64_pton src (Some target) targsize = Ret (n, Some t') /\ -1 <= n <= targsize
    /\ length t' = length target
    /\ drop (Z.to_nat targsize) t' = drop (Z.to_nat targsize) target.
Proof.
  intros Hz Ht Hn. destruct (pton_safe target targsize) with (src := src) as (n & t' & E & Hb & Hl & Hd);
    [lia|lia|done|]. by exists n, t'.
Qed.
