(* ===== verification/LdbCoding.v ===== *)
(** * LevelDB: integer and string coding (util/coding.cc, util/coding.h)

    Fixed-width little-endian integers, base-128 varints and length-prefixed
    strings.  A [Slice] or [std::string] is the list of its bytes, a pair of
    pointers [p, limit] the list of the bytes between them; the [Put] functions
    return what they append, the [Get] functions the value and the input left,
    or [None] where the code returns [nullptr] or [false].  The class [Coder]
    is what the record formats built on top (write batches, version edits,
    block handles) need of such a pair of functions. *)
From S2P Require Import Prelude.
From S2P Require Import WireSpec.
From Stdlib Require Import ZArith Lia.
From stdpp Require Import base tactics numbers list.
#[local] Open Scope Z_scope.

(** ** Definitions *)

(** [port::kLittleEndian], from the LEVELDB_IS_BIG_ENDIAN=0 of the build. *)
Definition kLittleEndian : bool := true.

(** The bytes of an integer in the memory of a little-endian machine. *)
Definition raw_bytes (n : nat) (value : Z) : list Z := le_split n value.

Definition EncodeFixed32_on (little_endian : bool) (value : Z) : list Z :=
  if little_endian then raw_bytes 4 value
  else
    [Z.land value 0xff;
     Z.land (Z.shiftr value 8) 0xff;
     Z.land (Z.shiftr value 16) 0xff;
     Z.land (Z.shiftr value 24) 0xff].

Definition EncodeFixed64_on (little_endian : bool) (value : Z) : list Z :=
  if little_endian then raw_bytes 8 value
  else
    [Z.land value 0xff;
     Z.land (Z.shiftr value 8) 0xff;
     Z.land (Z.shiftr value 16) 0xff;
     Z.land (Z.shiftr value 24) 0xff;
     Z.land (Z.shiftr value 32) 0xff;
     Z.land (Z.shiftr value 40) 0xff;
     Z.land (Z.shiftr value 48) 0xff;
     Z.land (Z.shiftr value 56) 0xff].

Definition EncodeFixed32 : Z -> list Z := EncodeFixed32_on kLittleEndian.
Definition EncodeFixed64 : Z -> list Z := EncodeFixed64_on kLittleEndian.

Definition PutFixed32 (dst : list Z) (value : Z) : list Z := dst ++ EncodeFixed32 value.
Definition PutFixed64 (dst : list Z) (value : Z) : list Z := dst ++ EncodeFixed64 value.

(** The [i]-th byte at a pointer; the callers have checked the length. *)
Definition byte_at (ptr : list Z) (i : nat) : Z := nth i ptr 0.

Definition DecodeFixed32_on (little_endian : bool) (ptr : list Z) : Z :=
  if little_endian then le_combine (firstn 4 ptr)
  else
    Z.lor (Z.lor (Z.lor (byte_at ptr 0)
                        (u32 (Z.shiftl (byte_at ptr 1) 8)))
                 (u32 (Z.shiftl (byte_at ptr 2) 16)))
          (u32 (Z.shiftl (byte_at ptr 3) 24)).

Definition DecodeFixed64_on (little_endian : bool) (ptr : list Z) : Z :=
  if little_endian then le_combine (firstn 8 ptr)
  else
    let lo := DecodeFixed32_on little_endian ptr in
    let hi := DecodeFixed32_on little_endian (skipn 4 ptr) in
    Z.lor (u64 (Z.shiftl hi 32)) lo.

Definition DecodeFixed32 : list Z -> Z := DecodeFixed32_on kLittleEndian.
Definition DecodeFixed64 : list Z -> Z := DecodeFixed64_on kLittleEndian.

(** [*(ptr++) = v | B] and [*(ptr++) = v] on an [unsigned char*]. *)
Definition more_byte (v : Z) : Z := u8 (Z.lor v 128).
Definition last_byte (v : Z) : Z := u8 v.

Definition EncodeVarint32 (v : Z) : list Z :=
  if v <? Z.shiftl 1 7 then [last_byte v]
  else if v <? Z.shiftl 1 14 then [more_byte v; last_byte (Z.shiftr v 7)]
  else if v <? Z.shiftl 1 21 then
    [more_byte v; more_byte (Z.shiftr v 7); last_byte (Z.shiftr v 14)]
  else if v <? Z.shiftl 1 28 then
    [more_byte v; more_byte (Z.shiftr v 7); more_byte (Z.shiftr v 14); last_byte (Z.shiftr v 21)]
  else
    [more_byte v; more_byte (Z.shiftr v 7); more_byte (Z.shiftr v 14); more_byte (Z.shiftr v 21);
     last_byte (Z.shiftr v 28)].

Definition PutVarint32 (dst : list Z) (v : Z) : list Z := dst ++ EncodeVarint32 v.

(** [while (v >= B)], for at most [n] rounds. *)
Fixpoint EncodeVarint64_loop (n : nat) (v : Z) : list Z :=
  match n with
  | S n =>
      if v >=? 128 then more_byte v :: EncodeVarint64_loop n (Z.shiftr v 7) else [last_byte v]
  | O => [last_byte v]
  end.

(** Nine rounds bring a 64-bit value below 128. *)
Definition EncodeVarint64 (v : Z) : list Z := EncodeVarint64_loop 9 v.

Definition PutVarint64 (dst : list Z) (v : Z) : list Z := dst ++ EncodeVarint64 v.

(** [PutVarint32(dst, value.size())] converts the size to 32 bits. *)
Definition PutLengthPrefixedSlice (dst : list Z) (value : list Z) : list Z :=
  PutVarint32 dst (u32 (zlen value)) ++ value.

Fixpoint VarintLength_loop (n : nat) (v len : Z) : Z :=
  match n with
  | S n => if v >=? 128 then VarintLength_loop n (Z.shiftr v 7) (len + 1) else len
  | O => len
  end.

Definition VarintLength (v : Z) : Z := VarintLength_loop 9 v 1.

(** [for (shift = 0; shift <= last && p < limit; shift += 7)] with [w]-bit
    results: the loops of [GetVarint32PtrFallback] (32, 28) and of
    [GetVarint64Ptr] (64, 63). *)
Fixpoint GetVarintPtr_loop (w last : Z) (p : list Z) (shift result : Z) : option (Z * list Z) :=
  match p with
  | [] => None
  | byte :: p =>
      if shift <=? last then
        if negb (Z.land byte 128 =? 0) then
          GetVarintPtr_loop w last p (shift + 7)
            (Z.lor result (wrap w (Z.shiftl (Z.land byte 127) shift)))
        else Some (Z.lor result (wrap w (Z.shiftl byte shift)), p)
      else None
  end.

Definition GetVarint32PtrFallback (p : list Z) : option (Z * list Z) := GetVarintPtr_loop 32 28 p 0 0.

Definition GetVarint32Ptr (p : list Z) : option (Z * list Z) :=
  match p with
  | result :: p' => if Z.land result 128 =? 0 then Some (result, p') else GetVarint32PtrFallback p
  | [] => GetVarint32PtrFallback p
  end.

Definition GetVarint64Ptr (p : list Z) : option (Z * list Z) := GetVarintPtr_loop 64 63 p 0 0.

(** [*input] is the slice past the value when the result is [Some]. *)
Definition GetVarint32 (input : list Z) : option (Z * list Z) := GetVarint32Ptr input.
Definition GetVarint64 (input : list Z) : option (Z * list Z) := GetVarint64Ptr input.

(** The pointer variant: the result and the pointer past it. *)
Definition GetLengthPrefixedSlicePtr (p : list Z) : option (list Z * list Z) :=
  match GetVarint32Ptr p with
  | None => None
  | Some (len, p) =>
      if len >? zlen p then None else Some (firstn (Z.to_nat len) p, skipn (Z.to_nat len) p)
  end.

Definition GetLengthPrefixedSlice (input : list Z) : option (list Z * list Z) :=
  match GetVarint32 input with
  | Some (len, input) =>
      if zlen input >=? len then Some (firstn (Z.to_nat len) input, skipn (Z.to_nat len) input)
      else None
  | None => None
  end.

(** ** The interface of a coder *)

(** [get] reads back, from the front of any input, what [put] wrote for a
    valid value, and leaves the rest; a value takes at least one byte. *)
Class Coder {A : Type} (put : A -> list Z) (get : list Z -> option (A * list Z))
    (valid : A -> Prop) : Prop := {
  get_put a rest : valid a -> get (put a ++ rest) = Some (a, rest);
  put_bytes a : valid a -> Forall is_byte (put a);
  put_nonempty a : valid a -> put a <> [];
}.

Definition is_u32 (v : Z) : Prop := 0 <= v < 2 ^ 32.
Definition is_u64 (v : Z) : Prop := 0 <= v < 2 ^ 64.

(** A string whose size fits the 32-bit length in front of it. *)
Definition is_slice (s : list Z) : Prop := Forall is_byte s /\ zlen s < 2 ^ 32.

(** ** Fixed-width integers *)

Lemma digit_at v n : 0 <= n -> Z.land (Z.shiftr v n) 0xff = (v / 2 ^ n) mod 256.
Proof. intros. by rewrite land_255, Z.shiftr_div_pow2. Qed.

Lemma u32_zlen {A} (l : list A) : zlen l < 2 ^ 32 -> u32 (zlen l) = zlen l.
Proof. intros. apply wrap_small. pose proof (zlen_nonneg l). lia. Qed.

Lemma firstn_zlen {A} (l r : list A) : firstn (Z.to_nat (zlen l)) (l ++ r) = l.
Proof. unfold zlen. by rewrite Nat2Z.id, take_app_length. Qed.

Lemma firstn_zlen_self {A} (l : list A) : firstn (Z.to_nat (zlen l)) l = l.
Proof. unfold zlen. by rewrite Nat2Z.id, firstn_all. Qed.

Lemma EncodeFixed32_le b value : EncodeFixed32_on b value = le_split 4 value.
Proof.
  destruct b; [done|]. cbn [EncodeFixed32_on le_split].
  rewrite land_255, !digit_at, !Z.div_div by lia. done.
Qed.

Lemma EncodeFixed64_le b value : EncodeFixed64_on b value = le_split 8 value.
Proof.
  destruct b; [done|]. cbn [EncodeFixed64_on le_split].
  rewrite land_255, !digit_at, !Z.div_div by lia. done.
Qed.

Lemma u32_shiftl b n : is_byte b -> 0 <= n <= 24 -> u32 (Z.shiftl b n) = Z.shiftl b n.
Proof.
  unfold is_byte. intros Hb Hn. apply wrap_small. rewrite Z.shiftl_mul_pow2 by lia.
  assert (2 ^ n <= 2 ^ 24) by (apply Z.pow_le_mono_r; lia).
  pose proof (Z.pow_pos_nonneg 2 n). change (2 ^ 32) with (256 * 2 ^ 24). nia.
Qed.

Lemma DecodeFixed32_le b ptr :
  Forall is_byte ptr -> (4 <= length ptr)%nat -> DecodeFixed32_on b ptr = le_combine (firstn 4 ptr).
Proof.
  intros Hb Hl. destruct b; [done|]. destruct ptr as [|b0 [|b1 [|b2 [|b3 ptr]]]]; cbn in Hl; try lia.
  repeat (apply Forall_cons in Hb as [? Hb]).
  cbn [DecodeFixed32_on byte_at nth firstn le_combine]. rewrite !u32_shiftl by (done || lia || done).
  unfold is_byte in *. clear Hl Hb.
  rewrite (lor_byte b0 b1 8), (lor_byte _ b2 16), (lor_byte _ b3 24) by lia.
  rewrite take_0. cbn [le_combine]. lia.
Qed.

Lemma le_combine_app bs cs : le_combine (bs ++ cs) = le_combine bs + 2 ^ (8 * zlen bs) * le_combine cs.
Proof.
  induction bs as [|b bs IH]; [cbn [app le_combine]; change (2 ^ (8 * zlen [])) with 1; lia|].
  rewrite zlen_cons, Z.mul_add_distr_l, Z.pow_add_r by (pose proof (zlen_nonneg bs); lia).
  cbn [app le_combine]. rewrite IH. change (2 ^ (8 * 1)) with 256. lia.
Qed.

Lemma DecodeFixed64_le b ptr :
  Forall is_byte ptr -> (8 <= length ptr)%nat -> DecodeFixed64_on b ptr = le_combine (firstn 8 ptr).
Proof.
  intros Hb Hl. destruct b; [done|]. cbn [DecodeFixed64_on].
  assert (Forall is_byte (skipn 4 ptr)) by by apply Forall_drop.
  assert (Forall is_byte (firstn 4 ptr) /\ Forall is_byte (firstn 4 (skipn 4 ptr))) as [H1 H2]
    by (split; by apply Forall_take).
  rewrite !DecodeFixed32_le by (rewrite ?length_skipn; lia || done).
  pose proof (le_combine_range _ H1) as R1. pose proof (le_combine_range _ H2) as R2.
  assert (firstn 8 ptr = firstn 4 ptr ++ firstn 4 (skipn 4 ptr)) as ->.
  { rewrite <- (firstn_skipn 4 (firstn 8 ptr)), firstn_firstn, skipn_firstn_comm. done. }
  unfold zlen in *. rewrite !length_firstn, ?length_skipn in *.
  replace (Z.of_nat (4 `min` length ptr)) with 4 in R1 by lia.
  replace (Z.of_nat (4 `min` (length ptr - 4))) with 4 in R2 by lia.
  change (2 ^ (8 * 4)) with (2 ^ 32) in *.
  rewrite le_combine_app. unfold zlen. rewrite length_firstn.
  replace (Z.of_nat (4 `min` length ptr)) with 4 by lia.
  unfold u64. rewrite wrap_small by (rewrite Z.shiftl_mul_pow2; lia).
  rewrite Z.lor_comm, (lor_byte _ _ 32) by lia. done.
Qed.

Lemma take_le_split n m v rest : m = n -> firstn m (le_split n v ++ rest) = le_split n v.
Proof. intros ->. by rewrite take_app_length' by by rewrite length_le_split. Qed.

Lemma DecodeFixed32_Encode v rest : is_u32 v -> DecodeFixed32 (EncodeFixed32 v ++ rest) = v.
Proof.
  intros Hv. unfold DecodeFixed32, EncodeFixed32, DecodeFixed32_on, kLittleEndian.
  rewrite EncodeFixed32_le, take_le_split, le_combine_split by done. by apply Z.mod_small.
Qed.

Lemma DecodeFixed64_Encode v rest : is_u64 v -> DecodeFixed64 (EncodeFixed64 v ++ rest) = v.
Proof.
  intros Hv. unfold DecodeFixed64, EncodeFixed64, DecodeFixed64_on, kLittleEndian.
  rewrite EncodeFixed64_le, take_le_split, le_combine_split by done. by apply Z.mod_small.
Qed.

(** ** Varints *)

Lemma more_byte_digit v : 0 <= v -> more_byte v = v mod 128 + 128.
Proof.
  intros Hv. unfold more_byte, u8, wrap. change (2 ^ 8) with 256. rewrite <- land_255.
  rewrite Z.land_lor_distr_l, land_255. change (Z.land 128 255) with 128.
  pose proof (Z.mod_pos_bound v 128).
  assert (v mod 256 = v mod 128 + 128 * ((v / 128) mod 2)) as ->.
  { change 256 with (128 * 2). by rewrite Z.rem_mul_r by lia. }
  pose proof (Z.mod_pos_bound (v / 128) 2).
  assert ((v / 128) mod 2 = 0 \/ (v / 128) mod 2 = 1) as [-> | ->] by lia.
  - rewrite Z.mul_0_r, Z.add_0_r. by rewrite lor_128 by lia.
  - rewrite Z.mul_1_r, <- lor_128 by lia. by rewrite <- Z.lor_assoc.
Qed.

Lemma last_byte_digit v : 0 <= v < 128 -> last_byte v = v.
Proof. intros. apply wrap_small. lia. Qed.

Lemma EncodeVarint64_loop_enc n v :
  0 <= v < 2 ^ (7 * Z.of_nat (S n)) -> EncodeVarint64_loop n v = varint_enc (S n) v.
Proof.
  revert v; induction n as [|n IH]; intros v Hv; rewrite pow_7_succ in Hv.
  - change (2 ^ (7 * Z.of_nat 0)) with 1 in Hv. cbn [EncodeVarint64_loop varint_enc].
    rewrite last_byte_digit by lia. by destruct (Z.ltb_spec v 128); [|lia].
  - cbn [EncodeVarint64_loop]. change (varint_enc (S (S n)) v)
      with (if v <? 128 then [v] else v mod 128 + 128 :: varint_enc (S n) (v / 128)).
    rewrite Z.geb_leb, Z.leb_antisym. destruct (Z.ltb_spec v 128); cbn [negb].
    + by rewrite last_byte_digit by lia.
    + rewrite more_byte_digit, shiftr_7, IH; [done| |lia].
      split; [apply Z.div_pos; lia|apply Z.div_lt_upper_bound; lia].
Qed.

Lemma EncodeVarint64_enc v : is_u64 v -> EncodeVarint64 v = varint v.
Proof.
  intros [??]. apply EncodeVarint64_loop_enc. split; [done|by apply pow_64_lt_70].
Qed.

(** More digits than needed change nothing. *)
Lemma varint_enc_digits n m v :
  0 <= v < 2 ^ (7 * Z.of_nat (S n)) -> (n <= m)%nat -> varint_enc (S m) v = varint_enc (S n) v.
Proof.
  revert m v; induction n as [|n IH]; intros m v Hv Hm; rewrite pow_7_succ in Hv.
  { change (2 ^ (7 * Z.of_nat 0)) with 1 in Hv. cbn [varint_enc]. by destruct (Z.ltb_spec v 128); [|lia]. }
  destruct m as [|m]; [lia|].
  change (varint_enc (S (S m)) v) with (if v <? 128 then [v] else v mod 128 + 128 :: varint_enc (S m) (v / 128)).
  change (varint_enc (S (S n)) v) with (if v <? 128 then [v] else v mod 128 + 128 :: varint_enc (S n) (v / 128)).
  destruct (Z.ltb_spec v 128); [done|]. f_equal. apply IH; [|lia].
  split; [apply Z.div_pos; lia|apply Z.div_lt_upper_bound; lia].
Qed.

(** The five branches of [EncodeVarint32] are the loop of [EncodeVarint64]. *)
Lemma EncodeVarint32_enc v : is_u32 v -> EncodeVarint32 v = varint v.
Proof.
  intros Hv. unfold is_u32 in Hv. rewrite <- EncodeVarint64_enc by (unfold is_u64; lia).
  unfold EncodeVarint32, EncodeVarint64.
  assert (forall n w, EncodeVarint64_loop (S n) w =
    if w >=? 128 then more_byte w :: EncodeVarint64_loop n (Z.shiftr w 7) else [last_byte w]) as Hl by done.
  assert (forall n, 0 <= n -> Z.shiftr (Z.shiftr v n) 7 = Z.shiftr v (n + 7)) as Hs
    by (intros; by rewrite Z.shiftr_shiftr by lia).
  assert (forall n, 0 <= n -> (Z.shiftr v n >=? 128) = negb (v <? Z.shiftl 1 (7 + n))) as Hc.
  { intros n Hn. rewrite Z.geb_leb, Z.leb_antisym, Z.shiftl_1_l, Z.shiftr_div_pow2, Z.pow_add_r by lia.
    change (2 ^ 7) with 128. assert (0 < 2 ^ n) by (apply Z.pow_pos_nonneg; lia).
    f_equal. destruct (Z.ltb_spec v (128 * 2 ^ n)), (Z.ltb_spec (v / 2 ^ n) 128); try done; exfalso.
    - assert (v / 2 ^ n < 128) by (apply Z.div_lt_upper_bound; lia). lia.
    - assert (128 <= v / 2 ^ n) by (apply Z.div_le_lower_bound; lia). lia. }
  pose proof (Hc 0 ltac:(lia)) as H0. rewrite Z.shiftr_0_r in H0.
  rewrite Hl, H0. change (7 + 0) with 7. destruct (v <? Z.shiftl 1 7); cbn [negb]; [done|].
  rewrite Hl, Hc by lia. change (7 + 7) with 14. destruct (v <? Z.shiftl 1 14); cbn [negb]; [done|].
  rewrite Hs by lia. change (7 + 7) with 14.
  rewrite Hl, Hc by lia. change (7 + 14) with 21. destruct (v <? Z.shiftl 1 21); cbn [negb]; [done|].
  rewrite Hs by lia. change (14 + 7) with 21.
  rewrite Hl, Hc by lia. change (7 + 21) with 28. destruct (v <? Z.shiftl 1 28); cbn [negb]; [done|].
  rewrite Hs by lia. change (21 + 7) with 28.
  rewrite Hl, Hc by lia. change (7 + 28) with 35.
  destruct (Z.ltb_spec v (Z.shiftl 1 35)) as [|Hbig]; cbn [negb]; [done|].
  rewrite Z.shiftl_1_l in Hbig. lia.
Qed.

(** [VarintLength] counts the bytes of the encoding. *)
Lemma VarintLength_loop_len n v len :
  VarintLength_loop n v len = len - 1 + zlen (EncodeVarint64_loop n v).
Proof.
  revert v len; induction n as [|n IH]; intros v len; cbn.
  - unfold zlen; cbn; lia.
  - destruct (v >=? 128); [|unfold zlen; cbn; lia]. rewrite IH, zlen_cons. lia.
Qed.

Lemma VarintLength_zlen w : VarintLength w = zlen (EncodeVarint64 w).
Proof. unfold VarintLength. rewrite VarintLength_loop_len. unfold EncodeVarint64. lia. Qed.

Lemma VarintLength_loop_range n v len : len <= VarintLength_loop n v len <= len + Z.of_nat n.
Proof.
  revert v len; induction n as [|n IH]; intros v len; cbn [VarintLength_loop]; [lia|].
  destruct (v >=? 128); [|lia]. specialize (IH (Z.shiftr v 7) (len + 1)). lia.
Qed.

Lemma VarintLength_range w : 1 <= VarintLength w <= 10.
Proof. pose proof (VarintLength_loop_range 9 w 1). unfold VarintLength. lia. Qed.

(** The decoding loop from byte [j] on, [r] the value so far. *)
Lemma GetVarintPtr_loop_dec w total n j p r :
  (n + j = total)%nat -> 7 * (Z.of_nat total - 1) < w -> Forall is_byte p ->
  (n = 0%nat \/ 0 <= r < 2 ^ (7 * Z.of_nat j)) ->
  GetVarintPtr_loop w (7 * (Z.of_nat total - 1)) p (7 * Z.of_nat j) r =
  match varint_dec n p with
  | Some (v, rest) => Some ((r + 2 ^ (7 * Z.of_nat j) * v) mod 2 ^ w, rest)
  | None => None
  end.
Proof.
  revert j p r; induction n as [|n IH]; intros j [|b p] r Hj Hw Hb Hr; cbn [GetVarintPtr_loop]; try done.
  { by destruct (Z.leb_spec (7 * Z.of_nat j) (7 * (Z.of_nat total - 1))); [lia|]. }
  destruct (Z.leb_spec (7 * Z.of_nat j) (7 * (Z.of_nat total - 1))); [|lia].
  destruct Hr as [?|Hr]; [done|]. inversion Hb as [|? ? Hb0 Hb1]; subst.
  rewrite continues by done. rewrite varint_dec_cons. pose proof (land_127_range b Hb0) as Hd.
  unfold is_byte in Hb0. destruct (Z.ltb_spec b 128) as [Hlt|Hge]; cbn [negb].
  { by rewrite add_digit by lia. }
  rewrite digit_high by lia. rewrite digit_high in Hd by lia. rewrite add_digit by lia.
  replace (7 * Z.of_nat j + 7) with (7 * Z.of_nat (S j)) by lia.
  rewrite IH; [|lia|done|done|].
  - destruct (varint_dec n p) as [[v rest]|]; [|done]. rewrite Zplus_mod_idemp_l, pow2_split.
    do 3 f_equal. ring.
  - destruct n as [|n]; [by left|right]. rewrite pow2_split.
    set (P := 2 ^ (7 * Z.of_nat j)) in *.
    assert (2 ^ (7 * Z.of_nat (S j)) <= 2 ^ w) as Hp by (apply Z.pow_le_mono_r; lia).
    rewrite pow2_split in Hp. fold P in Hp. clearbody P. rewrite Z.mod_small by nia. nia.
Qed.

(** The inline test of [GetVarint32Ptr] is the first round of the loop. *)
Lemma GetVarint32_dec input :
  Forall is_byte input ->
  GetVarint32 input =
  match varint_dec 5 input with Some (v, rest) => Some (v mod 2 ^ 32, rest) | None => None end.
Proof.
  intros Hb. assert (GetVarint32PtrFallback input = match varint_dec 5 input with
    Some (v, rest) => Some (v mod 2 ^ 32, rest) | None => None end) as Hf.
  { etransitivity; [apply (GetVarintPtr_loop_dec 32 5 5 0 input 0); (done || lia)|].
    destruct (varint_dec 5 input) as [[v rest]|]; [|done]. by rewrite Z.add_0_l, Z.mul_1_l. }
  unfold GetVarint32, GetVarint32Ptr. destruct input as [|b input]; [done|].
  inversion Hb as [|? ? Hb0 Hb1]; subst. rewrite continues by done.
  destruct (Z.ltb_spec b 128) as [Hlt|]; [|done]. rewrite varint_dec_cons.
  destruct (Z.ltb_spec b 128); [|lia]. unfold is_byte in Hb0. by rewrite Z.mod_small by lia.
Qed.

Lemma GetVarint64_dec input :
  Forall is_byte input ->
  GetVarint64 input =
  match varint_dec 10 input with Some (v, rest) => Some (v mod 2 ^ 64, rest) | None => None end.
Proof.
  intros Hb. etransitivity; [apply (GetVarintPtr_loop_dec 64 10 10 0 input 0); (done || lia)|].
  destruct (varint_dec 10 input) as [[v rest]|]; [|done]. by rewrite Z.add_0_l, Z.mul_1_l.
Qed.

(** ** What the decoders do to longer inputs *)

Lemma GetVarintPtr_loop_app w last p s r v q rest :
  GetVarintPtr_loop w last p s r = Some (v, q) ->
  GetVarintPtr_loop w last (p ++ rest) s r = Some (v, q ++ rest).
Proof.
  revert s r; induction p as [|b p IH]; intros s r H; [done|]. cbn in H |- *.
  destruct (s <=? last); [|done]. destruct (negb _); [by apply IH|]. by injection H as <- <-.
Qed.

Lemma GetVarint32_app p v q rest : GetVarint32 p = Some (v, q) -> GetVarint32 (p ++ rest) = Some (v, q ++ rest).
Proof.
  unfold GetVarint32, GetVarint32Ptr. destruct p as [|b p]; [done|]. cbn [app].
  destruct (Z.land b 128 =? 0); [by intros [= <- <-]|]. apply (GetVarintPtr_loop_app _ _ (b :: p)).
Qed.

Lemma GetVarint64_app p v q rest : GetVarint64 p = Some (v, q) -> GetVarint64 (p ++ rest) = Some (v, q ++ rest).
Proof. apply GetVarintPtr_loop_app. Qed.

Lemma varint_self n v : 0 <= v < 2 ^ (7 * Z.of_nat (S n)) -> varint_dec (S n) (varint_enc (S n) v) = Some (v, []).
Proof. intros Hv. pose proof (varint_dec_enc n v [] Hv) as H. by rewrite app_nil_r in H. Qed.

#[export] Instance varint32_coder : Coder EncodeVarint32 GetVarint32 is_u32.
Proof.
  split; intros v; [intros rest|..]; intros Hv; rewrite (EncodeVarint32_enc v Hv); unfold is_u32 in Hv.
  - apply (GetVarint32_app _ _ []). rewrite GetVarint32_dec by (apply varint_bytes_ok; lia).
    unfold varint. rewrite (varint_enc_digits 4 9) by (cbn; lia).
    rewrite varint_self by (cbn; lia). by rewrite Z.mod_small by lia.
  - apply varint_bytes_ok; lia.
  - apply varint_enc_nonempty.
Qed.

#[export] Instance varint64_coder : Coder EncodeVarint64 GetVarint64 is_u64.
Proof.
  split; intros v; [intros rest|..]; intros Hv; rewrite (EncodeVarint64_enc v Hv); unfold is_u64 in Hv.
  - apply (GetVarint64_app _ _ []). rewrite GetVarint64_dec by (apply varint_bytes_ok; lia).
    unfold varint. rewrite varint_self by (cbn; lia). by rewrite Z.mod_small by lia.
  - apply varint_bytes_ok; lia.
  - apply varint_enc_nonempty.
Qed.

Lemma get_varint32 v rest : is_u32 v -> GetVarint32 (EncodeVarint32 v ++ rest) = Some (v, rest).
Proof. apply (get_put (Coder := varint32_coder)). Qed.

Lemma get_varint64 v rest : is_u64 v -> GetVarint64 (EncodeVarint64 v ++ rest) = Some (v, rest).
Proof. apply (get_put (Coder := varint64_coder)). Qed.

Lemma is_slice_size s : is_slice s -> is_u32 (zlen s) /\ u32 (zlen s) = zlen s.
Proof. intros [_ H]. pose proof (zlen_nonneg s). split; [done|]. by apply wrap_small. Qed.

Lemma PutLengthPrefixedSlice_app dst s : PutLengthPrefixedSlice dst s = dst ++ PutLengthPrefixedSlice [] s.
Proof. unfold PutLengthPrefixedSlice, PutVarint32. by rewrite app_nil_l, app_assoc. Qed.

#[export] Instance slice_coder : Coder (PutLengthPrefixedSlice []) GetLengthPrefixedSlice is_slice.
Proof.
  split; intros s; [intros rest|..]; intros Hs; pose proof (is_slice_size s Hs) as [Hl E];
    unfold PutLengthPrefixedSlice, PutVarint32; rewrite E, ?app_nil_l.
  - unfold GetLengthPrefixedSlice. rewrite <- app_assoc, get_varint32 by done.
    rewrite zlen_app. destruct (Z.geb_spec (zlen s + zlen rest) (zlen s)); [|pose proof (zlen_nonneg rest); lia].
    unfold zlen. rewrite Nat2Z.id, take_app_length, drop_app_length. done.
  - apply Forall_app. split; [by apply (put_bytes (Coder := varint32_coder))|apply Hs].
  - intros [H _]%app_nil. by apply (put_nonempty (Coder := varint32_coder) (zlen s)).
Qed.

Lemma get_slice s rest : is_slice s -> GetLengthPrefixedSlice (PutLengthPrefixedSlice [] s ++ rest) = Some (s, rest).
Proof. apply (get_put (Coder := slice_coder)). Qed.

(** Both variants of [GetLengthPrefixedSlice] are one function. *)
Lemma GetLengthPrefixedSlicePtr_eq p : GetLengthPrefixedSlicePtr p = GetLengthPrefixedSlice p.
Proof.
  unfold GetLengthPrefixedSlicePtr, GetLengthPrefixedSlice, GetVarint32.
  destruct (GetVarint32Ptr p) as [[len q]|]; [|done].
  by destruct (Z.gtb_spec len (zlen q)), (Z.geb_spec (zlen q) len); try lia.
Qed.

(** What is read is a part of the input. *)
Lemma GetVarintPtr_loop_suffix w last p s r v q :
  GetVarintPtr_loop w last p s r = Some (v, q) -> exists pre, p = pre ++ q /\ pre <> [].
Proof.
  revert s r; induction p as [|b p IH]; intros s r H; [done|]. cbn in H.
  destruct (s <=? last); [|done]. destruct (negb _).
  - destruct (IH _ _ H) as (pre & -> & _). by exists (b :: pre).
  - injection H as <- <-. by exists [b].
Qed.

Lemma GetVarint32_suffix p v q : GetVarint32 p = Some (v, q) -> exists pre, p = pre ++ q /\ pre <> [].
Proof.
  unfold GetVarint32, GetVarint32Ptr. destruct p as [|b p]; [done|].
  destruct (Z.land b 128 =? 0); [intros [= <- <-]; by exists [b]|]. apply GetVarintPtr_loop_suffix.
Qed.

Lemma GetLengthPrefixedSlice_suffix p s q :
  GetLengthPrefixedSlice p = Some (s, q) -> exists pre, p = pre ++ s ++ q /\ pre <> [].
Proof.
  unfold GetLengthPrefixedSlice. destruct (GetVarint32 p) as [[len p']|] eqn:E; [|done].
  destruct (GetVarint32_suffix _ _ _ E) as (pre & -> & Hne). destruct (_ >=? _); [|done].
  intros [= <- <-]. exists pre. by rewrite firstn_skipn.
Qed.

(** ** Theorems *)

(** The encoders write the shortest base-128 digits of the value, whichever of
    the unrolled and looping versions is used, [VarintLength] is their number,
    and on any bytes the decoders return the low bits of the varint of at most
    5 (10) bytes the input starts with, and fail exactly when there is none. *)
Theorem varint_coding v w input :
  is_u32 v -> is_u64 w -> Forall is_byte input ->
  EncodeVarint32 v = varint v /\ EncodeVarint64 w = varint w /\ VarintLength w = zlen (EncodeVarint64 w) /\
  GetVarint32 input =
    match varint_dec 5 input with Some (x, rest) => Some (x mod 2 ^ 32, rest) | None => None end /\
  GetVarint64 input =
    match varint_dec 10 input with Some (x, rest) => Some (x mod 2 ^ 64, rest) | None => None end.
Proof.
  intros Hv Hw Hi. split_and!.
  - by apply EncodeVarint32_enc.
  - by apply EncodeVarint64_enc.
  - apply VarintLength_zlen.
  - by apply GetVarint32_dec.
  - by apply GetVarint64_dec.
Qed.

(** Every [Put] function is undone by its [Get] function, which leaves exactly
    what follows; the fixed-width functions give the same bytes and values on
    machines of either byte order. *)
Theorem coding_roundtrip v w s dst rest le :
  is_u32 v -> is_u64 w -> is_slice s -> Forall is_byte rest ->
  GetVarint32 (skipn (length dst) (PutVarint32 dst v) ++ rest) = Some (v, rest) /\
  GetVarint64 (skipn (length dst) (PutVarint64 dst w) ++ rest) = Some (w, rest) /\
  GetLengthPrefixedSlice (skipn (length dst) (PutLengthPrefixedSlice dst s) ++ rest) = Some (s, rest) /\
  DecodeFixed32_on le (EncodeFixed32_on (negb le) v ++ rest) = v /\
  DecodeFixed64_on le (EncodeFixed64_on (negb le) w ++ rest) = w.
Proof.
  intros Hv Hw Hs Hr. unfold PutVarint32, PutVarint64. rewrite PutLengthPrefixedSlice_app, !drop_app_length.
  split_and!; [by apply get_varint32|by apply get_varint64|by apply get_slice|..].
  - rewrite EncodeFixed32_le, DecodeFixed32_le, take_le_split, le_combine_split; [by apply Z.mod_small|done| |].
    + apply Forall_app. split; [apply le_split_bytes|done].
    + rewrite length_app, length_le_split. lia.
  - rewrite EncodeFixed64_le, DecodeFixed64_le, take_le_split, le_combine_split; [by apply Z.mod_small|done| |].
    + apply Forall_app. split; [apply le_split_bytes|done].
    + rewrite length_app, length_le_split. lia.
Qed.
