(* ===== verification/LdbCrc32c.v ===== *)
(** * LevelDB: the CRC-32C checksum (util/crc32c.cc, util/crc32c.h)

    [Extend] with its five tables, its byte-wise head and tail and the four
    interleaved strides of the 16-byte swaths, and [Mask]/[Unmask].  It is shown
    to compute the bitwise CRC of the Castagnoli polynomial for every buffer and
    every alignment of it.  The proof is by linearity over GF(2): one bit step is
    a linear map, [U] (eight of them) is the effect of a byte, and the tables
    hold [U] and its 16th power on bytes. *)
From S2P Require Import Prelude.
From S2P Require Import LdbCoding.
From Stdlib Require Import ZArith Lia.
From stdpp Require Import base tactics numbers list.
#[local] Open Scope Z_scope.

(** ** Definitions *)

Definition kByteExtensionTable : list Z :=
  [0x00000000; 0xf26b8303; 0xe13b70f7; 0x1350f3f4; 0xc79a971f; 0x35f1141c; 0x26a1e7e8; 0xd4ca64eb;
   0x8ad958cf; 0x78b2dbcc; 0x6be22838; 0x9989ab3b; 0x4d43cfd0; 0xbf284cd3; 0xac78bf27; 0x5e133c24;
   0x105ec76f; 0xe235446c; 0xf165b798; 0x030e349b; 0xd7c45070; 0x25afd373; 0x36ff2087; 0xc494a384;
   0x9a879fa0; 0x68ec1ca3; 0x7bbcef57; 0x89d76c54; 0x5d1d08bf; 0xaf768bbc; 0xbc267848; 0x4e4dfb4b;
   0x20bd8ede; 0xd2d60ddd; 0xc186fe29; 0x33ed7d2a; 0xe72719c1; 0x154c9ac2; 0x061c6936; 0xf477ea35;
   0xaa64d611; 0x580f5512; 0x4b5fa6e6; 0xb93425e5; 0x6dfe410e; 0x9f95c20d; 0x8cc531f9; 0x7eaeb2fa;
   0x30e349b1; 0xc288cab2; 0xd1d83946; 0x23b3ba45; 0xf779deae; 0x05125dad; 0x1642ae59; 0xe4292d5a;
   0xba3a117e; 0x4851927d; 0x5b016189; 0xa96ae28a; 0x7da08661; 0x8fcb0562; 0x9c9bf696; 0x6ef07595;
   0x417b1dbc; 0xb3109ebf; 0xa0406d4b; 0x522bee48; 0x86e18aa3; 0x748a09a0; 0x67dafa54; 0x95b17957;
   0xcba24573; 0x39c9c670; 0x2a993584; 0xd8f2b687; 0x0c38d26c; 0xfe53516f; 0xed03a29b; 0x1f682198;
   0x5125dad3; 0xa34e59d0; 0xb01eaa24; 0x42752927; 0x96bf4dcc; 0x64d4cecf; 0x77843d3b; 0x85efbe38;
   0xdbfc821c; 0x2997011f; 0x3ac7f2eb; 0xc8ac71e8; 0x1c661503; 0xee0d9600; 0xfd5d65f4; 0x0f36e6f7;
   0x61c69362; 0x93ad1061; 0x80fde395; 0x72966096; 0xa65c047d; 0x5437877e; 0x4767748a; 0xb50cf789;
   0xeb1fcbad; 0x197448ae; 0x0a24bb5a; 0xf84f3859; 0x2c855cb2; 0xdeeedfb1; 0xcdbe2c45; 0x3fd5af46;
   0x7198540d; 0x83f3d70e; 0x90a324fa; 0x62c8a7f9; 0xb602c312; 0x44694011; 0x5739b3e5; 0xa55230e6;
   0xfb410cc2; 0x092a8fc1; 0x1a7a7c35; 0xe811ff36; 0x3cdb9bdd; 0xceb018de; 0xdde0eb2a; 0x2f8b6829;
   0x82f63b78; 0x709db87b; 0x63cd4b8f; 0x91a6c88c; 0x456cac67; 0xb7072f64; 0xa457dc90; 0x563c5f93;
   0x082f63b7; 0xfa44e0b4; 0xe9141340; 0x1b7f9043; 0xcfb5f4a8; 0x3dde77ab; 0x2e8e845f; 0xdce5075c;
   0x92a8fc17; 0x60c37f14; 0x73938ce0; 0x81f80fe3; 0x55326b08; 0xa759e80b; 0xb4091bff; 0x466298fc;
   0x1871a4d8; 0xea1a27db; 0xf94ad42f; 0x0b21572c; 0xdfeb33c7; 0x2d80b0c4; 0x3ed04330; 0xccbbc033;
   0xa24bb5a6; 0x502036a5; 0x4370c551; 0xb11b4652; 0x65d122b9; 0x97baa1ba; 0x84ea524e; 0x7681d14d;
   0x2892ed69; 0xdaf96e6a; 0xc9a99d9e; 0x3bc21e9d; 0xef087a76; 0x1d63f975; 0x0e330a81; 0xfc588982;
   0xb21572c9; 0x407ef1ca; 0x532e023e; 0xa145813d; 0x758fe5d6; 0x87e466d5; 0x94b49521; 0x66df1622;
   0x38cc2a06; 0xcaa7a905; 0xd9f75af1; 0x2b9cd9f2; 0xff56bd19; 0x0d3d3e1a; 0x1e6dcdee; 0xec064eed;
   0xc38d26c4; 0x31e6a5c7; 0x22b65633; 0xd0ddd530; 0x0417b1db; 0xf67c32d8; 0xe52cc12c; 0x1747422f;
   0x49547e0b; 0xbb3ffd08; 0xa86f0efc; 0x5a048dff; 0x8ecee914; 0x7ca56a17; 0x6ff599e3; 0x9d9e1ae0;
   0xd3d3e1ab; 0x21b862a8; 0x32e8915c; 0xc083125f; 0x144976b4; 0xe622f5b7; 0xf5720643; 0x07198540;
   0x590ab964; 0xab613a67; 0xb831c993; 0x4a5a4a90; 0x9e902e7b; 0x6cfbad78; 0x7fab5e8c; 0x8dc0dd8f;
   0xe330a81a; 0x115b2b19; 0x020bd8ed; 0xf0605bee; 0x24aa3f05; 0xd6c1bc06; 0xc5914ff2; 0x37faccf1;
   0x69e9f0d5; 0x9b8273d6; 0x88d28022; 0x7ab90321; 0xae7367ca; 0x5c18e4c9; 0x4f48173d; 0xbd23943e;
   0xf36e6f75; 0x0105ec76; 0x12551f82; 0xe03e9c81; 0x34f4f86a; 0xc69f7b69; 0xd5cf889d; 0x27a40b9e;
   0x79b737ba; 0x8bdcb4b9; 0x988c474d; 0x6ae7c44e; 0xbe2da0a5; 0x4c4623a6; 0x5f16d052; 0xad7d5351].

Definition kStrideExtensionTable0 : list Z :=
  [0x00000000; 0x30d23865; 0x61a470ca; 0x517648af; 0xc348e194; 0xf39ad9f1; 0xa2ec915e; 0x923ea93b;
   0x837db5d9; 0xb3af8dbc; 0xe2d9c513; 0xd20bfd76; 0x4035544d; 0x70e76c28; 0x21912487; 0x11431ce2;
   0x03171d43; 0x33c52526; 0x62b36d89; 0x526155ec; 0xc05ffcd7; 0xf08dc4b2; 0xa1fb8c1d; 0x9129b478;
   0x806aa89a; 0xb0b890ff; 0xe1ced850; 0xd11ce035; 0x4322490e; 0x73f0716b; 0x228639c4; 0x125401a1;
   0x062e3a86; 0x36fc02e3; 0x678a4a4c; 0x57587229; 0xc566db12; 0xf5b4e377; 0xa4c2abd8; 0x941093bd;
   0x85538f5f; 0xb581b73a; 0xe4f7ff95; 0xd425c7f0; 0x461b6ecb; 0x76c956ae; 0x27bf1e01; 0x176d2664;
   0x053927c5; 0x35eb1fa0; 0x649d570f; 0x544f6f6a; 0xc671c651; 0xf6a3fe34; 0xa7d5b69b; 0x97078efe;
   0x8644921c; 0xb696aa79; 0xe7e0e2d6; 0xd732dab3; 0x450c7388; 0x75de4bed; 0x24a80342; 0x147a3b27;
   0x0c5c750c; 0x3c8e4d69; 0x6df805c6; 0x5d2a3da3; 0xcf149498; 0xffc6acfd; 0xaeb0e452; 0x9e62dc37;
   0x8f21c0d5; 0xbff3f8b0; 0xee85b01f; 0xde57887a; 0x4c692141; 0x7cbb1924; 0x2dcd518b; 0x1d1f69ee;
   0x0f4b684f; 0x3f99502a; 0x6eef1885; 0x5e3d20e0; 0xcc0389db; 0xfcd1b1be; 0xada7f911; 0x9d75c174;
   0x8c36dd96; 0xbce4e5f3; 0xed92ad5c; 0xdd409539; 0x4f7e3c02; 0x7fac0467; 0x2eda4cc8; 0x1e0874ad;
   0x0a724f8a; 0x3aa077ef; 0x6bd63f40; 0x5b040725; 0xc93aae1e; 0xf9e8967b; 0xa89eded4; 0x984ce6b1;
   0x890ffa53; 0xb9ddc236; 0xe8ab8a99; 0xd879b2fc; 0x4a471bc7; 0x7a9523a2; 0x2be36b0d; 0x1b315368;
   0x096552c9; 0x39b76aac; 0x68c12203; 0x58131a66; 0xca2db35d; 0xfaff8b38; 0xab89c397; 0x9b5bfbf2;
   0x8a18e710; 0xbacadf75; 0xebbc97da; 0xdb6eafbf; 0x49500684; 0x79823ee1; 0x28f4764e; 0x18264e2b;
   0x18b8ea18; 0x286ad27d; 0x791c9ad2; 0x49cea2b7; 0xdbf00b8c; 0xeb2233e9; 0xba547b46; 0x8a864323;
   0x9bc55fc1; 0xab1767a4; 0xfa612f0b; 0xcab3176e; 0x588dbe55; 0x685f8630; 0x3929ce9f; 0x09fbf6fa;
   0x1baff75b; 0x2b7dcf3e; 0x7a0b8791; 0x4ad9bff4; 0xd8e716cf; 0xe8352eaa; 0xb9436605; 0x89915e60;
   0x98d24282; 0xa8007ae7; 0xf9763248; 0xc9a40a2d; 0x5b9aa316; 0x6b489b73; 0x3a3ed3dc; 0x0aecebb9;
   0x1e96d09e; 0x2e44e8fb; 0x7f32a054; 0x4fe09831; 0xddde310a; 0xed0c096f; 0xbc7a41c0; 0x8ca879a5;
   0x9deb6547; 0xad395d22; 0xfc4f158d; 0xcc9d2de8; 0x5ea384d3; 0x6e71bcb6; 0x3f07f419; 0x0fd5cc7c;
   0x1d81cddd; 0x2d53f5b8; 0x7c25bd17; 0x4cf78572; 0xdec92c49; 0xee1b142c; 0xbf6d5c83; 0x8fbf64e6;
   0x9efc7804; 0xae2e4061; 0xff5808ce; 0xcf8a30ab; 0x5db49990; 0x6d66a1f5; 0x3c10e95a; 0x0cc2d13f;
   0x14e49f14; 0x2436a771; 0x7540efde; 0x4592d7bb; 0xd7ac7e80; 0xe77e46e5; 0xb6080e4a; 0x86da362f;
   0x97992acd; 0xa74b12a8; 0xf63d5a07; 0xc6ef6262; 0x54d1cb59; 0x6403f33c; 0x3575bb93; 0x05a783f6;
   0x17f38257; 0x2721ba32; 0x7657f29d; 0x4685caf8; 0xd4bb63c3; 0xe4695ba6; 0xb51f1309; 0x85cd2b6c;
   0x948e378e; 0xa45c0feb; 0xf52a4744; 0xc5f87f21; 0x57c6d61a; 0x6714ee7f; 0x3662a6d0; 0x06b09eb5;
   0x12caa592; 0x22189df7; 0x736ed558; 0x43bced3d; 0xd1824406; 0xe1507c63; 0xb02634cc; 0x80f40ca9;
   0x91b7104b; 0xa165282e; 0xf0136081; 0xc0c158e4; 0x52fff1df; 0x622dc9ba; 0x335b8115; 0x0389b970;
   0x11ddb8d1; 0x210f80b4; 0x7079c81b; 0x40abf07e; 0xd2955945; 0xe2476120; 0xb331298f; 0x83e311ea;
   0x92a00d08; 0xa272356d; 0xf3047dc2; 0xc3d645a7; 0x51e8ec9c; 0x613ad4f9; 0x304c9c56; 0x009ea433].

Definition kStrideExtensionTable1 : list Z :=
  [0x00000000; 0x54075546; 0xa80eaa8c; 0xfc09ffca; 0x55f123e9; 0x01f676af; 0xfdff8965; 0xa9f8dc23;
   0xabe247d2; 0xffe51294; 0x03eced5e; 0x57ebb818; 0xfe13643b; 0xaa14317d; 0x561dceb7; 0x021a9bf1;
   0x5228f955; 0x062fac13; 0xfa2653d9; 0xae21069f; 0x07d9dabc; 0x53de8ffa; 0xafd77030; 0xfbd02576;
   0xf9cabe87; 0xadcdebc1; 0x51c4140b; 0x05c3414d; 0xac3b9d6e; 0xf83cc828; 0x043537e2; 0x503262a4;
   0xa451f2aa; 0xf056a7ec; 0x0c5f5826; 0x58580d60; 0xf1a0d143; 0xa5a78405; 0x59ae7bcf; 0x0da92e89;
   0x0fb3b578; 0x5bb4e03e; 0xa7bd1ff4; 0xf3ba4ab2; 0x5a429691; 0x0e45c3d7; 0xf24c3c1d; 0xa64b695b;
   0xf6790bff; 0xa27e5eb9; 0x5e77a173; 0x0a70f435; 0xa3882816; 0xf78f7d50; 0x0b86829a; 0x5f81d7dc;
   0x5d9b4c2d; 0x099c196b; 0xf595e6a1; 0xa192b3e7; 0x086a6fc4; 0x5c6d3a82; 0xa064c548; 0xf463900e;
   0x4d4f93a5; 0x1948c6e3; 0xe5413929; 0xb1466c6f; 0x18beb04c; 0x4cb9e50a; 0xb0b01ac0; 0xe4b74f86;
   0xe6add477; 0xb2aa8131; 0x4ea37efb; 0x1aa42bbd; 0xb35cf79e; 0xe75ba2d8; 0x1b525d12; 0x4f550854;
   0x1f676af0; 0x4b603fb6; 0xb769c07c; 0xe36e953a; 0x4a964919; 0x1e911c5f; 0xe298e395; 0xb69fb6d3;
   0xb4852d22; 0xe0827864; 0x1c8b87ae; 0x488cd2e8; 0xe1740ecb; 0xb5735b8d; 0x497aa447; 0x1d7df101;
   0xe91e610f; 0xbd193449; 0x4110cb83; 0x15179ec5; 0xbcef42e6; 0xe8e817a0; 0x14e1e86a; 0x40e6bd2c;
   0x42fc26dd; 0x16fb739b; 0xeaf28c51; 0xbef5d917; 0x170d0534; 0x430a5072; 0xbf03afb8; 0xeb04fafe;
   0xbb36985a; 0xef31cd1c; 0x133832d6; 0x473f6790; 0xeec7bbb3; 0xbac0eef5; 0x46c9113f; 0x12ce4479;
   0x10d4df88; 0x44d38ace; 0xb8da7504; 0xecdd2042; 0x4525fc61; 0x1122a927; 0xed2b56ed; 0xb92c03ab;
   0x9a9f274a; 0xce98720c; 0x32918dc6; 0x6696d880; 0xcf6e04a3; 0x9b6951e5; 0x6760ae2f; 0x3367fb69;
   0x317d6098; 0x657a35de; 0x9973ca14; 0xcd749f52; 0x648c4371; 0x308b1637; 0xcc82e9fd; 0x9885bcbb;
   0xc8b7de1f; 0x9cb08b59; 0x60b97493; 0x34be21d5; 0x9d46fdf6; 0xc941a8b0; 0x3548577a; 0x614f023c;
   0x635599cd; 0x3752cc8b; 0xcb5b3341; 0x9f5c6607; 0x36a4ba24; 0x62a3ef62; 0x9eaa10a8; 0xcaad45ee;
   0x3eced5e0; 0x6ac980a6; 0x96c07f6c; 0xc2c72a2a; 0x6b3ff609; 0x3f38a34f; 0xc3315c85; 0x973609c3;
   0x952c9232; 0xc12bc774; 0x3d2238be; 0x69256df8; 0xc0ddb1db; 0x94dae49d; 0x68d31b57; 0x3cd44e11;
   0x6ce62cb5; 0x38e179f3; 0xc4e88639; 0x90efd37f; 0x39170f5c; 0x6d105a1a; 0x9119a5d0; 0xc51ef096;
   0xc7046b67; 0x93033e21; 0x6f0ac1eb; 0x3b0d94ad; 0x92f5488e; 0xc6f21dc8; 0x3afbe202; 0x6efcb744;
   0xd7d0b4ef; 0x83d7e1a9; 0x7fde1e63; 0x2bd94b25; 0x82219706; 0xd626c240; 0x2a2f3d8a; 0x7e2868cc;
   0x7c32f33d; 0x2835a67b; 0xd43c59b1; 0x803b0cf7; 0x29c3d0d4; 0x7dc48592; 0x81cd7a58; 0xd5ca2f1e;
   0x85f84dba; 0xd1ff18fc; 0x2df6e736; 0x79f1b270; 0xd0096e53; 0x840e3b15; 0x7807c4df; 0x2c009199;
   0x2e1a0a68; 0x7a1d5f2e; 0x8614a0e4; 0xd213f5a2; 0x7beb2981; 0x2fec7cc7; 0xd3e5830d; 0x87e2d64b;
   0x73814645; 0x27861303; 0xdb8fecc9; 0x8f88b98f; 0x267065ac; 0x727730ea; 0x8e7ecf20; 0xda799a66;
   0xd8630197; 0x8c6454d1; 0x706dab1b; 0x246afe5d; 0x8d92227e; 0xd9957738; 0x259c88f2; 0x719bddb4;
   0x21a9bf10; 0x75aeea56; 0x89a7159c; 0xdda040da; 0x74589cf9; 0x205fc9bf; 0xdc563675; 0x88516333;
   0x8a4bf8c2; 0xde4cad84; 0x2245524e; 0x76420708; 0xdfbadb2b; 0x8bbd8e6d; 0x77b471a7; 0x23b324e1].

Definition kStrideExtensionTable2 : list Z :=
  [0x00000000; 0x678efd01; 0xcf1dfa02; 0xa8930703; 0x9bd782f5; 0xfc597ff4; 0x54ca78f7; 0x334485f6;
   0x3243731b; 0x55cd8e1a; 0xfd5e8919; 0x9ad07418; 0xa994f1ee; 0xce1a0cef; 0x66890bec; 0x0107f6ed;
   0x6486e636; 0x03081b37; 0xab9b1c34; 0xcc15e135; 0xff5164c3; 0x98df99c2; 0x304c9ec1; 0x57c263c0;
   0x56c5952d; 0x314b682c; 0x99d86f2f; 0xfe56922e; 0xcd1217d8; 0xaa9cead9; 0x020fedda; 0x658110db;
   0xc90dcc6c; 0xae83316d; 0x0610366e; 0x619ecb6f; 0x52da4e99; 0x3554b398; 0x9dc7b49b; 0xfa49499a;
   0xfb4ebf77; 0x9cc04276; 0x34534575; 0x53ddb874; 0x60993d82; 0x0717c083; 0xaf84c780; 0xc80a3a81;
   0xad8b2a5a; 0xca05d75b; 0x6296d058; 0x05182d59; 0x365ca8af; 0x51d255ae; 0xf94152ad; 0x9ecfafac;
   0x9fc85941; 0xf846a440; 0x50d5a343; 0x375b5e42; 0x041fdbb4; 0x639126b5; 0xcb0221b6; 0xac8cdcb7;
   0x97f7ee29; 0xf0791328; 0x58ea142b; 0x3f64e92a; 0x0c206cdc; 0x6bae91dd; 0xc33d96de; 0xa4b36bdf;
   0xa5b49d32; 0xc23a6033; 0x6aa96730; 0x0d279a31; 0x3e631fc7; 0x59ede2c6; 0xf17ee5c5; 0x96f018c4;
   0xf371081f; 0x94fff51e; 0x3c6cf21d; 0x5be20f1c; 0x68a68aea; 0x0f2877eb; 0xa7bb70e8; 0xc0358de9;
   0xc1327b04; 0xa6bc8605; 0x0e2f8106; 0x69a17c07; 0x5ae5f9f1; 0x3d6b04f0; 0x95f803f3; 0xf276fef2;
   0x5efa2245; 0x3974df44; 0x91e7d847; 0xf6692546; 0xc52da0b0; 0xa2a35db1; 0x0a305ab2; 0x6dbea7b3;
   0x6cb9515e; 0x0b37ac5f; 0xa3a4ab5c; 0xc42a565d; 0xf76ed3ab; 0x90e02eaa; 0x387329a9; 0x5ffdd4a8;
   0x3a7cc473; 0x5df23972; 0xf5613e71; 0x92efc370; 0xa1ab4686; 0xc625bb87; 0x6eb6bc84; 0x09384185;
   0x083fb768; 0x6fb14a69; 0xc7224d6a; 0xa0acb06b; 0x93e8359d; 0xf466c89c; 0x5cf5cf9f; 0x3b7b329e;
   0x2a03aaa3; 0x4d8d57a2; 0xe51e50a1; 0x8290ada0; 0xb1d42856; 0xd65ad557; 0x7ec9d254; 0x19472f55;
   0x1840d9b8; 0x7fce24b9; 0xd75d23ba; 0xb0d3debb; 0x83975b4d; 0xe419a64c; 0x4c8aa14f; 0x2b045c4e;
   0x4e854c95; 0x290bb194; 0x8198b697; 0xe6164b96; 0xd552ce60; 0xb2dc3361; 0x1a4f3462; 0x7dc1c963;
   0x7cc63f8e; 0x1b48c28f; 0xb3dbc58c; 0xd455388d; 0xe711bd7b; 0x809f407a; 0x280c4779; 0x4f82ba78;
   0xe30e66cf; 0x84809bce; 0x2c139ccd; 0x4b9d61cc; 0x78d9e43a; 0x1f57193b; 0xb7c41e38; 0xd04ae339;
   0xd14d15d4; 0xb6c3e8d5; 0x1e50efd6; 0x79de12d7; 0x4a9a9721; 0x2d146a20; 0x85876d23; 0xe2099022;
   0x878880f9; 0xe0067df8; 0x48957afb; 0x2f1b87fa; 0x1c5f020c; 0x7bd1ff0d; 0xd342f80e; 0xb4cc050f;
   0xb5cbf3e2; 0xd2450ee3; 0x7ad609e0; 0x1d58f4e1; 0x2e1c7117; 0x49928c16; 0xe1018b15; 0x868f7614;
   0xbdf4448a; 0xda7ab98b; 0x72e9be88; 0x15674389; 0x2623c67f; 0x41ad3b7e; 0xe93e3c7d; 0x8eb0c17c;
   0x8fb73791; 0xe839ca90; 0x40aacd93; 0x27243092; 0x1460b564; 0x73ee4865; 0xdb7d4f66; 0xbcf3b267;
   0xd972a2bc; 0xbefc5fbd; 0x166f58be; 0x71e1a5bf; 0x42a52049; 0x252bdd48; 0x8db8da4b; 0xea36274a;
   0xeb31d1a7; 0x8cbf2ca6; 0x242c2ba5; 0x43a2d6a4; 0x70e65352; 0x1768ae53; 0xbffba950; 0xd8755451;
   0x74f988e6; 0x137775e7; 0xbbe472e4; 0xdc6a8fe5; 0xef2e0a13; 0x88a0f712; 0x2033f011; 0x47bd0d10;
   0x46bafbfd; 0x213406fc; 0x89a701ff; 0xee29fcfe; 0xdd6d7908; 0xbae38409; 0x1270830a; 0x75fe7e0b;
   0x107f6ed0; 0x77f193d1; 0xdf6294d2; 0xb8ec69d3; 0x8ba8ec25; 0xec261124; 0x44b51627; 0x233beb26;
   0x223c1dcb; 0x45b2e0ca; 0xed21e7c9; 0x8aaf1ac8; 0xb9eb9f3e; 0xde65623f; 0x76f6653c; 0x1178983d].

Definition kStrideExtensionTable3 : list Z :=
  [0x00000000; 0xf20c0dfe; 0xe1f46d0d; 0x13f860f3; 0xc604aceb; 0x3408a115; 0x27f0c1e6; 0xd5fccc18;
   0x89e52f27; 0x7be922d9; 0x6811422a; 0x9a1d4fd4; 0x4fe183cc; 0xbded8e32; 0xae15eec1; 0x5c19e33f;
   0x162628bf; 0xe42a2541; 0xf7d245b2; 0x05de484c; 0xd0228454; 0x222e89aa; 0x31d6e959; 0xc3dae4a7;
   0x9fc30798; 0x6dcf0a66; 0x7e376a95; 0x8c3b676b; 0x59c7ab73; 0xabcba68d; 0xb833c67e; 0x4a3fcb80;
   0x2c4c517e; 0xde405c80; 0xcdb83c73; 0x3fb4318d; 0xea48fd95; 0x1844f06b; 0x0bbc9098; 0xf9b09d66;
   0xa5a97e59; 0x57a573a7; 0x445d1354; 0xb6511eaa; 0x63add2b2; 0x91a1df4c; 0x8259bfbf; 0x7055b241;
   0x3a6a79c1; 0xc866743f; 0xdb9e14cc; 0x29921932; 0xfc6ed52a; 0x0e62d8d4; 0x1d9ab827; 0xef96b5d9;
   0xb38f56e6; 0x41835b18; 0x527b3beb; 0xa0773615; 0x758bfa0d; 0x8787f7f3; 0x947f9700; 0x66739afe;
   0x5898a2fc; 0xaa94af02; 0xb96ccff1; 0x4b60c20f; 0x9e9c0e17; 0x6c9003e9; 0x7f68631a; 0x8d646ee4;
   0xd17d8ddb; 0x23718025; 0x3089e0d6; 0xc285ed28; 0x17792130; 0xe5752cce; 0xf68d4c3d; 0x048141c3;
   0x4ebe8a43; 0xbcb287bd; 0xaf4ae74e; 0x5d46eab0; 0x88ba26a8; 0x7ab62b56; 0x694e4ba5; 0x9b42465b;
   0xc75ba564; 0x3557a89a; 0x26afc869; 0xd4a3c597; 0x015f098f; 0xf3530471; 0xe0ab6482; 0x12a7697c;
   0x74d4f382; 0x86d8fe7c; 0x95209e8f; 0x672c9371; 0xb2d05f69; 0x40dc5297; 0x53243264; 0xa1283f9a;
   0xfd31dca5; 0x0f3dd15b; 0x1cc5b1a8; 0xeec9bc56; 0x3b35704e; 0xc9397db0; 0xdac11d43; 0x28cd10bd;
   0x62f2db3d; 0x90fed6c3; 0x8306b630; 0x710abbce; 0xa4f677d6; 0x56fa7a28; 0x45021adb; 0xb70e1725;
   0xeb17f41a; 0x191bf9e4; 0x0ae39917; 0xf8ef94e9; 0x2d1358f1; 0xdf1f550f; 0xcce735fc; 0x3eeb3802;
   0xb13145f8; 0x433d4806; 0x50c528f5; 0xa2c9250b; 0x7735e913; 0x8539e4ed; 0x96c1841e; 0x64cd89e0;
   0x38d46adf; 0xcad86721; 0xd92007d2; 0x2b2c0a2c; 0xfed0c634; 0x0cdccbca; 0x1f24ab39; 0xed28a6c7;
   0xa7176d47; 0x551b60b9; 0x46e3004a; 0xb4ef0db4; 0x6113c1ac; 0x931fcc52; 0x80e7aca1; 0x72eba15f;
   0x2ef24260; 0xdcfe4f9e; 0xcf062f6d; 0x3d0a2293; 0xe8f6ee8b; 0x1afae375; 0x09028386; 0xfb0e8e78;
   0x9d7d1486; 0x6f711978; 0x7c89798b; 0x8e857475; 0x5b79b86d; 0xa975b593; 0xba8dd560; 0x4881d89e;
   0x14983ba1; 0xe694365f; 0xf56c56ac; 0x07605b52; 0xd29c974a; 0x20909ab4; 0x3368fa47; 0xc164f7b9;
   0x8b5b3c39; 0x795731c7; 0x6aaf5134; 0x98a35cca; 0x4d5f90d2; 0xbf539d2c; 0xacabfddf; 0x5ea7f021;
   0x02be131e; 0xf0b21ee0; 0xe34a7e13; 0x114673ed; 0xc4babff5; 0x36b6b20b; 0x254ed2f8; 0xd742df06;
   0xe9a9e704; 0x1ba5eafa; 0x085d8a09; 0xfa5187f7; 0x2fad4bef; 0xdda14611; 0xce5926e2; 0x3c552b1c;
   0x604cc823; 0x9240c5dd; 0x81b8a52e; 0x73b4a8d0; 0xa64864c8; 0x54446936; 0x47bc09c5; 0xb5b0043b;
   0xff8fcfbb; 0x0d83c245; 0x1e7ba2b6; 0xec77af48; 0x398b6350; 0xcb876eae; 0xd87f0e5d; 0x2a7303a3;
   0x766ae09c; 0x8466ed62; 0x979e8d91; 0x6592806f; 0xb06e4c77; 0x42624189; 0x519a217a; 0xa3962c84;
   0xc5e5b67a; 0x37e9bb84; 0x2411db77; 0xd61dd689; 0x03e11a91; 0xf1ed176f; 0xe215779c; 0x10197a62;
   0x4c00995d; 0xbe0c94a3; 0xadf4f450; 0x5ff8f9ae; 0x8a0435b6; 0x78083848; 0x6bf058bb; 0x99fc5545;
   0xd3c39ec5; 0x21cf933b; 0x3237f3c8; 0xc03bfe36; 0x15c7322e; 0xe7cb3fd0; 0xf4335f23; 0x063f52dd;
   0x5a26b1e2; 0xa82abc1c; 0xbbd2dcef; 0x49ded111; 0x9c221d09; 0x6e2e10f7; 0x7dd67004; 0x8fda7dfa].

Definition kCRC32Xor : Z := 0xffffffff.

(** [table[i]] *)
Definition entry (table : list Z) (i : Z) : Z := nth (Z.to_nat i) table 0.

Definition ReadUint32LE (buffer : list Z) : Z := DecodeFixed32 buffer.

(** [RoundUp<N>] on a 64-bit address. *)
Definition RoundUp (N pointer : Z) : Z := Z.land (u64 (pointer + (N - 1))) (Z.lnot (N - 1)).

(** [port::AcceleratedCRC32C] of a build without HAVE_CRC32C. *)
Definition AcceleratedCRC32C (crc : Z) (buf : list Z) : Z := 0.

(** The bytes of "TestCRCBuffer". *)
Definition kTestCRCBuffer : list Z := [84; 101; 115; 116; 67; 82; 67; 66; 117; 102; 102; 101; 114].

Definition CanAccelerateCRC32C : bool := AcceleratedCRC32C 0 kTestCRCBuffer =? 0xdcbc59fa.

Definition STEP1 (l b : Z) : Z :=
  let c := Z.lxor (Z.land l 0xff) b in
  Z.lxor (entry kByteExtensionTable c) (Z.shiftr l 8).

(** [STEP4(s)]: [word] is the word read at [p + s * 4]. *)
Definition STEP4 (crc word : Z) : Z :=
  Z.lxor (Z.lxor (Z.lxor (Z.lxor word
    (entry kStrideExtensionTable3 (Z.land crc 0xff)))
    (entry kStrideExtensionTable2 (Z.land (Z.shiftr crc 8) 0xff)))
    (entry kStrideExtensionTable1 (Z.land (Z.shiftr crc 16) 0xff)))
    (entry kStrideExtensionTable0 (Z.shiftr crc 24)).

(** The four partial results. *)
Record strides := Strides { crc0 : Z; crc1 : Z; crc2 : Z; crc3 : Z }.

Definition word_at (p : list Z) (s : nat) : Z := ReadUint32LE (skipn (s * 4) p).

Definition STEP16 (c : strides) (p : list Z) : strides :=
  Strides (STEP4 (crc0 c) (word_at p 0)) (STEP4 (crc1 c) (word_at p 1))
          (STEP4 (crc2 c) (word_at p 2)) (STEP4 (crc3 c) (word_at p 3)).

(** One round of the [for] loop of [STEP4W]. *)
Definition step4w_round (w : Z) : Z :=
  Z.lxor (Z.shiftr w 8) (entry kByteExtensionTable (Z.land w 0xff)).

Definition STEP4W (l w : Z) : Z :=
  let w := Z.lxor w l in
  step4w_round (step4w_round (step4w_round (step4w_round w))).

(** [while (p != x) STEP1;] with the address of [p], the bytes from it to the end
    of the buffer, and [l]. *)
Fixpoint step1_until (x p : Z) (bytes : list Z) (l : Z) : list Z * Z :=
  if p =? x then (bytes, l)
  else
    match bytes with
    | b :: bytes => step1_until x (p + 1) bytes (STEP1 l b)
    | [] => (bytes, l)
    end.

(** [while ((e - p) >= 16) STEP16;] *)
Fixpoint swath_loop (fuel : nat) (c : strides) (p : list Z) : strides * list Z :=
  match fuel with
  | S fuel => if zlen p >=? 16 then swath_loop fuel (STEP16 c p) (skipn 16 p) else (c, p)
  | O => (c, p)
  end.

(** [while ((e - p) >= 4)]: one stride step, then the strides rotate. *)
Fixpoint word_loop (fuel : nat) (c : strides) (p : list Z) : strides * list Z :=
  match fuel with
  | S fuel =>
      if zlen p >=? 4 then
        word_loop fuel (Strides (crc1 c) (crc2 c) (crc3 c) (STEP4 (crc0 c) (word_at p 0))) (skipn 4 p)
      else (c, p)
  | O => (c, p)
  end.

(** The part of [Extend] under [if ((e - p) >= 16)]. *)
Definition extend_swaths (p : list Z) (l : Z) : list Z * Z :=
  let c := Strides (Z.lxor (word_at p 0) l) (word_at p 1) (word_at p 2) (word_at p 3) in
  let p := skipn 16 p in
  let (c, p) := swath_loop (length p) c p in
  let (c, p) := word_loop (length p) c p in
  let l := 0 in
  let l := STEP4W l (crc0 c) in
  let l := STEP4W l (crc1 c) in
  let l := STEP4W l (crc2 c) in
  let l := STEP4W l (crc3 c) in
  (p, l).

(** [Extend(crc, data, n)] on the [n] bytes [data] at [address]. *)
Definition Extend_at (address crc : Z) (data : list Z) : Z :=
  if CanAccelerateCRC32C then AcceleratedCRC32C crc data
  else
    let e := address + zlen data in
    let l := Z.lxor crc kCRC32Xor in
    let x := RoundUp 4 address in
    let (p, l) := if x <=? e then step1_until x address data l else (data, l) in
    let (p, l) := if zlen p >=? 16 then extend_swaths p l else (p, l) in
    let (_, l) := step1_until e (e - zlen p) p l in
    Z.lxor l kCRC32Xor.

Definition Value_at (address : Z) (data : list Z) : Z := Extend_at address 0 data.

Definition kMaskDelta : Z := 0xa282ead8.

Definition Mask (crc : Z) : Z :=
  u32 (Z.lor (Z.shiftr crc 15) (u32 (Z.shiftl crc 17)) + kMaskDelta).

Definition Unmask (masked_crc : Z) : Z :=
  let rot := u32 (masked_crc - kMaskDelta) in
  Z.lor (Z.shiftr rot 17) (u32 (Z.shiftl rot 15)).

(** ** Specification *)

(** The reversed Castagnoli polynomial. *)
Definition castagnoli : Z := 0x82f63b78.

(** One step of the shift register. *)
Definition crc_bit (l : Z) : Z := Z.lxor (Z.shiftr l 1) (if Z.odd l then castagnoli else 0).

Definition U (l : Z) : Z := Nat.iter 8 crc_bit l.

Definition crc_byte (l b : Z) : Z := U (Z.lxor l b).

(** The CRC of [A ++ bytes] from the CRC [crc] of [A]. *)
Definition crc_extend (crc : Z) (bytes : list Z) : Z :=
  Z.lxor (fold_left crc_byte bytes (Z.lxor crc kCRC32Xor)) kCRC32Xor.

Definition crc_value (bytes : list Z) : Z := crc_extend 0 bytes.

(** ** Linearity of the shift register *)

Definition linear (f : Z -> Z) : Prop := forall x y, f (Z.lxor x y) = Z.lxor (f x) (f y).

(** Bits of both sides, for equations between xors. *)
Ltac xor_bits :=
  apply Z.bits_inj'; intros ?i ?Hi; rewrite ?Z.lxor_spec, ?Z.bits_0;
  repeat match goal with |- context [Z.testbit ?a ?n] =>
    lazymatch a with Z.lxor _ _ => fail | _ => destruct (Z.testbit a n) end end; reflexivity.

Lemma crc_bit_linear : linear crc_bit.
Proof.
  intros x y. unfold crc_bit. rewrite Z.shiftr_lxor. rewrite <- !Z.bit0_odd, Z.lxor_spec.
  destruct (Z.testbit x 0), (Z.testbit y 0); cbn [xorb]; xor_bits.
Qed.

Lemma iter_linear n f : linear f -> linear (Nat.iter n f).
Proof. intros Hf. induction n as [|n IH]; intros x y; [done|].
  rewrite !Nat.iter_succ. by rewrite IH, Hf. Qed.

Lemma crc_bit_shiftl z n : 0 <= n -> crc_bit (Z.shiftl z (Z.succ n)) = Z.shiftl z n.
Proof.
  intros Hn. unfold crc_bit. rewrite <- Z.bit0_odd, Z.shiftl_spec_low, Z.lxor_0_r by lia.
  rewrite Z.shiftr_shiftl_l by lia. f_equal. lia.
Qed.

Lemma iter_bits_shiftl n z : Nat.iter n crc_bit (Z.shiftl z (Z.of_nat n)) = z.
Proof.
  induction n as [|n IH]; [cbn; apply Z.shiftl_0_r|].
  rewrite Nat2Z.inj_succ, Nat.iter_succ_r, crc_bit_shiftl by lia. done.
Qed.

Lemma U_linear : linear U.
Proof. apply iter_linear, crc_bit_linear. Qed.

Lemma U_shiftl_8 z : U (Z.shiftl z 8) = z.
Proof. apply (iter_bits_shiftl 8). Qed.

(** The register after [n] byte steps without input. *)
Abbreviation Un n := (Nat.iter n U).

Lemma Un_linear n : linear (Un n).
Proof. apply iter_linear, U_linear. Qed.

Lemma Un_add n m x : Un n (Un m x) = Un (n + m) x.
Proof. by rewrite Nat.iter_add. Qed.

Lemma split_low z n : 0 <= n -> z = Z.lxor (Z.land z (Z.ones n)) (Z.shiftl (Z.shiftr z n) n).
Proof.
  intros Hn. apply Z.bits_inj'. intros i Hi. rewrite Z.lxor_spec, Z.land_spec, Z.shiftl_spec by done.
  destruct (decide (i < n)).
  - rewrite Z.ones_spec_low, (Z.testbit_neg_r (Z.shiftr z n)) by lia. by destruct (Z.testbit z i).
  - rewrite Z.ones_spec_high, Z.shiftr_spec by lia. replace (i - n + n) with i by lia.
    by destruct (Z.testbit z i).
Qed.

(** ** The registers stay within 32 bits *)

Lemma lxor_bound n a b : 0 <= n -> 0 <= a < 2 ^ n -> 0 <= b < 2 ^ n -> 0 <= Z.lxor a b < 2 ^ n.
Proof.
  intros Hn Ha Hb. assert (0 <= Z.lxor a b) as H0 by (apply Z.lxor_nonneg; lia). split; [done|].
  assert (Z.lxor a b = Z.lxor a b mod 2 ^ n) as ->; [|apply Z.mod_pos_bound; apply Z.pow_pos_nonneg; lia].
  apply Z.bits_inj'. intros i Hi. destruct (decide (i < n)).
  - by rewrite Z.mod_pow2_bits_low.
  - rewrite Z.mod_pow2_bits_high, Z.lxor_spec by lia.
    rewrite <- (Z.mod_small a (2 ^ n)), <- (Z.mod_small b (2 ^ n)) by done.
    by rewrite !Z.mod_pow2_bits_high by lia.
Qed.

Lemma lxor_u32 a b : is_u32 a -> is_u32 b -> is_u32 (Z.lxor a b).
Proof. intros. by apply (lxor_bound 32). Qed.

Lemma crc_bit_u32 l : is_u32 l -> is_u32 (crc_bit l).
Proof.
  intros Hl. unfold crc_bit. apply lxor_u32; [|by destruct (Z.odd l)].
  unfold is_u32 in *. rewrite Z.shiftr_div_pow2 by lia. change (2 ^ 1) with 2.
  split; [apply Z.div_pos; lia|apply Z.div_lt_upper_bound; lia].
Qed.

Lemma iter_u32 n f l : (forall l, is_u32 l -> is_u32 (f l)) -> is_u32 l -> is_u32 (Nat.iter n f l).
Proof. intros Hf Hl. induction n; [done|]. rewrite Nat.iter_succ. auto. Qed.

Lemma U_u32 l : is_u32 l -> is_u32 (U l).
Proof. apply iter_u32, crc_bit_u32. Qed.

Lemma Un_u32 n l : is_u32 l -> is_u32 (Un n l).
Proof. apply iter_u32, U_u32. Qed.

Lemma crc_bit_injective x y : is_u32 x -> is_u32 y -> crc_bit x = crc_bit y -> x = y.
Proof.
  intros Hx Hy E. unfold is_u32 in *.
  assert (forall z, 0 <= z < 2 ^ 32 -> Z.testbit (crc_bit z) 31 = Z.odd z) as Htop.
  { intros z Hz. unfold crc_bit. rewrite Z.lxor_spec, Z.shiftr_spec by lia.
    rewrite <- (Z.mod_small z (2 ^ 32)) at 1 by lia. rewrite Z.mod_pow2_bits_high by lia.
    by destruct (Z.odd z). }
  assert (Z.odd x = Z.odd y) as Ho by (rewrite <- !Htop by done; by rewrite E).
  unfold crc_bit in E. rewrite Ho in E. set (c := if Z.odd y then castagnoli else 0) in *.
  assert (Z.shiftr x 1 = Z.shiftr y 1) as Es.
  { rewrite <- (Z.lxor_0_r (Z.shiftr x 1)), <- (Z.lxor_0_r (Z.shiftr y 1)).
    rewrite <- (Z.lxor_nilpotent c), <- !Z.lxor_assoc. by rewrite E. }
  rewrite <- !Z.div2_spec in Es. rewrite (Z.div2_odd x), (Z.div2_odd y). by rewrite Es, Ho.
Qed.

Lemma iter_injective n f x y :
  (forall l, is_u32 l -> is_u32 (f l)) ->
  (forall a b, is_u32 a -> is_u32 b -> f a = f b -> a = b) ->
  is_u32 x -> is_u32 y -> Nat.iter n f x = Nat.iter n f y -> x = y.
Proof.
  intros Hf Hi Hx Hy. induction n as [|n IH]; intros E; [done|]. rewrite !Nat.iter_succ in E.
  apply IH, Hi; [apply iter_u32; done..|done].
Qed.

Lemma U_injective x y : is_u32 x -> is_u32 y -> U x = U y -> x = y.
Proof. apply iter_injective; [apply crc_bit_u32|apply crc_bit_injective]. Qed.

#[local] Opaque U.

Lemma byte_u32 b : is_byte b -> is_u32 b.
Proof. unfold is_byte, is_u32. lia. Qed.

Lemma crc_byte_u32 l b : is_u32 l -> is_byte b -> is_u32 (crc_byte l b).
Proof. intros. unfold crc_byte. by apply U_u32, lxor_u32, byte_u32. Qed.

(** An invariant of a fold. *)
Lemma fold_left_inv {A B} (f : A -> B -> A) (P : A -> Prop) (Q : B -> Prop) bs a :
  (forall a b, P a -> Q b -> P (f a b)) -> Forall Q bs -> P a -> P (fold_left f bs a).
Proof. intros Hf Hb. revert a; induction Hb; intros a Ha; cbn; auto. Qed.

Lemma crc_bytes_u32 bs l : Forall is_byte bs -> is_u32 l -> is_u32 (fold_left crc_byte bs l).
Proof. apply fold_left_inv, crc_byte_u32. Qed.

(** ** The tables *)

(** [table] holds [f] on the bytes. *)
Definition tabulates (table : list Z) (f : Z -> Z) : Prop := forall b, is_byte b -> entry table b = f b.

Lemma tabulates_dec table f :
  forallb (fun b => entry table (Z.of_nat b) =? f (Z.of_nat b)) (seq 0 256) = true -> tabulates table f.
Proof.
  intros H b [Hb Hb']. rewrite forallb_forall in H. specialize (H (Z.to_nat b)).
  rewrite in_seq, Z2Nat.id in H by lia. by apply Z.eqb_eq, H; lia.
Qed.

Lemma byte_table : tabulates kByteExtensionTable U.
Proof. apply tabulates_dec. by vm_compute. Qed.

Lemma stride_table_3 : tabulates kStrideExtensionTable3 (Un 16).
Proof. apply tabulates_dec. by vm_compute. Qed.

Lemma stride_table_2 : tabulates kStrideExtensionTable2 (fun b => Un 16 (Z.shiftl b 8)).
Proof. apply tabulates_dec. by vm_compute. Qed.

Lemma stride_table_1 : tabulates kStrideExtensionTable1 (fun b => Un 16 (Z.shiftl b 16)).
Proof. apply tabulates_dec. by vm_compute. Qed.

Lemma stride_table_0 : tabulates kStrideExtensionTable0 (fun b => Un 16 (Z.shiftl b 24)).
Proof. apply tabulates_dec. by vm_compute. Qed.

#[local] Opaque kByteExtensionTable kStrideExtensionTable0 kStrideExtensionTable1
  kStrideExtensionTable2 kStrideExtensionTable3.

Lemma land_ff_byte z : is_byte (Z.land z 0xff).
Proof. unfold is_byte. rewrite land_255. by apply Z.mod_pos_bound. Qed.

(** ** The steps *)

Lemma U_by_table w : U w = Z.lxor (Z.shiftr w 8) (entry kByteExtensionTable (Z.land w 0xff)).
Proof.
  rewrite byte_table by apply land_ff_byte. rewrite (split_low w 8) at 1 by lia.
  rewrite U_linear, U_shiftl_8. apply Z.lxor_comm.
Qed.

Lemma STEP1_crc l b : is_u32 l -> is_byte b -> STEP1 l b = crc_byte l b.
Proof.
  intros Hl Hb. unfold STEP1, crc_byte. rewrite U_by_table.
  assert (Z.land (Z.lxor l b) 255 = Z.lxor (Z.land l 255) b) as ->.
  { rewrite <- (Z.mod_small b 256) at 2 by done. rewrite <- land_255. apply Z.bits_inj'. intros i Hi.
    rewrite ?Z.land_spec, ?Z.lxor_spec, ?Z.land_spec. by destruct (Z.testbit l i), (Z.testbit b i), (Z.testbit 255 i). }
  rewrite Z.shiftr_lxor, (Z.shiftr_div_pow2 b), (Z.div_small b), Z.lxor_0_r by done.
  apply Z.lxor_comm.
Qed.

Lemma STEP4_crc c w : is_u32 c -> STEP4 c w = Z.lxor w (Un 16 c).
Proof.
  intros Hc. unfold STEP4.
  assert (is_byte (Z.shiftr c 24)) as H24.
  { unfold is_u32, is_byte in *. rewrite Z.shiftr_div_pow2 by lia.
    split; [apply Z.div_pos; lia|apply Z.div_lt_upper_bound; lia]. }
  rewrite stride_table_3, stride_table_2, stride_table_1, stride_table_0 by (apply land_ff_byte || done).
  assert (c = Z.lxor (Z.land c 0xff) (Z.lxor (Z.shiftl (Z.land (Z.shiftr c 8) 0xff) 8)
    (Z.lxor (Z.shiftl (Z.land (Z.shiftr c 16) 0xff) 16) (Z.shiftl (Z.shiftr c 24) 24)))) as Ec.
  { rewrite (split_low c 8) at 1 by lia. f_equal. rewrite (split_low (Z.shiftr c 8) 8) at 1 by lia.
    rewrite Z.shiftl_lxor. f_equal. rewrite (Z.shiftr_shiftr c 8 8), Z.shiftl_shiftl by lia.
    rewrite (split_low (Z.shiftr c (8 + 8)) 8) at 1 by lia. rewrite Z.shiftl_lxor.
    rewrite Z.shiftr_shiftr, Z.shiftl_shiftl by lia. done. }
  rewrite Ec at 5. rewrite !(Un_linear 16). by rewrite !Z.lxor_assoc.
Qed.

Lemma STEP4W_crc l w : STEP4W l w = Un 4 (Z.lxor w l).
Proof. unfold STEP4W, step4w_round. by rewrite <- !U_by_table. Qed.

(** Four bytes at once. *)
Definition crc_word (l w : Z) : Z := Un 4 (Z.lxor l w).

Lemma U_byte_above x b : U (Z.lxor x (Z.shiftl b 8)) = Z.lxor (U x) b.
Proof. by rewrite U_linear, U_shiftl_8. Qed.

Lemma crc_word_bytes l b0 b1 b2 b3 :
  Forall is_byte [b0; b1; b2; b3] ->
  crc_word l (le_combine [b0; b1; b2; b3]) = fold_left crc_byte [b0; b1; b2; b3] l.
Proof.
  intros Hb. assert (forall b z, is_byte b -> b + 256 * z = Z.lxor b (Z.shiftl z 8)) as Hx.
  { intros b z Hz. rewrite Z.lxor_lor by (by apply (land_shiftl_0 b z 8)).
    rewrite lor_shiftl by done. change (2 ^ 8) with 256. lia. }
  repeat (apply Forall_cons in Hb as [? Hb]). cbn [le_combine]. rewrite Z.mul_0_r, Z.add_0_r.
  rewrite !Hx by done. unfold crc_word, crc_byte. cbn [Nat.iter nat_rect fold_left].
  rewrite <- Z.lxor_assoc, !U_linear, !U_shiftl_8, !U_linear, !U_shiftl_8, !U_linear, U_shiftl_8.
  by rewrite !Z.lxor_assoc.
Qed.

Lemma lxor_cancel_l a x y : Z.lxor a x = Z.lxor a y -> x = y.
Proof.
  intros E. apply (f_equal (Z.lxor a)) in E. by rewrite <- !Z.lxor_assoc, Z.lxor_nilpotent, !Z.lxor_0_l in E.
Qed.

Lemma lxor_cancel_r a x y : Z.lxor x a = Z.lxor y a -> x = y.
Proof. rewrite !(Z.lxor_comm _ a). apply lxor_cancel_l. Qed.

Lemma crc_byte_injective b x y : is_byte b -> is_u32 x -> is_u32 y -> crc_byte x b = crc_byte y b -> x = y.
Proof.
  intros Hb Hx Hy E. unfold crc_byte in E. apply U_injective in E; [|by apply lxor_u32, byte_u32..].
  by apply lxor_cancel_r in E.
Qed.

#[local] Opaque crc_byte.

(** ** The loops of [Extend] *)

Lemma word_at_u32 p s : Forall is_byte p -> is_u32 (word_at p s).
Proof.
  intros Hb. unfold word_at, ReadUint32LE, DecodeFixed32, DecodeFixed32_on, kLittleEndian.
  pose proof (le_combine_range (firstn 4 (skipn (s * 4) p))) as H.
  specialize (H ltac:(by apply Forall_take, Forall_drop)). unfold zlen in H. rewrite length_take in H.
  unfold is_u32. assert (2 ^ (8 * Z.of_nat (4 `min` length (skipn (s * 4) p))) <= 2 ^ 32)
    by (apply Z.pow_le_mono_r; lia). lia.
Qed.

(** The word at stride [s], as four more bytes of input. *)
Lemma crc_word_at l p s :
  Forall is_byte p -> (s * 4 + 4 <= length p)%nat ->
  crc_word l (word_at p s) = fold_left crc_byte (firstn 4 (skipn (s * 4) p)) l.
Proof.
  intros Hb Hl. unfold word_at, ReadUint32LE, DecodeFixed32, DecodeFixed32_on, kLittleEndian.
  assert (Forall is_byte (firstn 4 (skipn (s * 4) p))) as Hb4 by by apply Forall_take, Forall_drop.
  assert (length (firstn 4 (skipn (s * 4) p)) = 4%nat) as Hl4 by (rewrite length_take, length_drop; lia).
  destruct (firstn 4 _) as [|b0 [|b1 [|b2 [|b3 [|]]]]]; try done. by apply crc_word_bytes.
Qed.

Lemma take_16 (p : list Z) :
  firstn 16 p = firstn 4 (skipn (0 * 4) p) ++ firstn 4 (skipn (1 * 4) p)
                ++ firstn 4 (skipn (2 * 4) p) ++ firstn 4 (skipn (3 * 4) p).
Proof.
  change 16%nat with (4 + 12)%nat. rewrite <- (take_take_drop p 4 12). f_equal.
  change 12%nat with (4 + 8)%nat. rewrite <- (take_take_drop (skipn 4 p) 4 8). f_equal.
  rewrite drop_drop. change 8%nat with (4 + 4)%nat at 1. rewrite <- (take_take_drop _ 4 4).
  by rewrite !drop_drop.
Qed.

(** The register the four strides stand for. *)
Definition combined (c : strides) : Z :=
  Un 4 (Z.lxor (crc3 c) (Un 4 (Z.lxor (crc2 c) (Un 4 (Z.lxor (crc1 c) (Un 4 (crc0 c))))))).

Definition strides_ok (c : strides) : Prop :=
  is_u32 (crc0 c) /\ is_u32 (crc1 c) /\ is_u32 (crc2 c) /\ is_u32 (crc3 c).

(** Expand powers of [U] over xors. *)
Ltac expand_U :=
  rewrite ?(Un_linear 16), ?(Un_linear 4), ?Un_add; cbn [Nat.add];
  rewrite ?(Un_linear 4), ?Un_add; cbn [Nat.add];
  rewrite ?(Un_linear 4), ?Un_add; cbn [Nat.add].

Lemma STEP4_u32 c w : is_u32 c -> is_u32 w -> is_u32 (STEP4 c w).
Proof. intros. rewrite STEP4_crc by done. by apply lxor_u32, Un_u32. Qed.

Lemma combined_swath c p :
  strides_ok c -> Forall is_byte p -> (16 <= length p)%nat ->
  strides_ok (STEP16 c p) /\ combined (STEP16 c p) = fold_left crc_byte (firstn 16 p) (combined c).
Proof.
  intros (H0 & H1 & H2 & H3) Hb Hl. split.
  { split_and!; cbn [crc0 crc1 crc2 crc3 STEP16]; apply STEP4_u32; done || by apply word_at_u32. }
  rewrite take_16, !fold_left_app, <- !crc_word_at by (done || lia).
  unfold combined, STEP16, crc_word. cbn [crc0 crc1 crc2 crc3]. rewrite !STEP4_crc by done.
  expand_U. xor_bits.
Qed.

Lemma combined_word c p :
  strides_ok c -> Forall is_byte p -> (4 <= length p)%nat ->
  let c' := Strides (crc1 c) (crc2 c) (crc3 c) (STEP4 (crc0 c) (word_at p 0)) in
  strides_ok c' /\ combined c' = fold_left crc_byte (firstn 4 p) (combined c).
Proof.
  intros (H0 & H1 & H2 & H3) Hb Hl c'. split.
  { split_and!; cbn [crc0 crc1 crc2 crc3 c']; try done. apply STEP4_u32; [done|by apply word_at_u32]. }
  change (firstn 4 p) with (firstn 4 (skipn (0 * 4) p)). rewrite <- crc_word_at by (done || lia).
  unfold combined, crc_word, c'. cbn [crc0 crc1 crc2 crc3]. rewrite !STEP4_crc by done.
  expand_U. xor_bits.
Qed.

Lemma fold_left_take_drop n (p : list Z) l :
  fold_left crc_byte (skipn n p) (fold_left crc_byte (firstn n p) l) = fold_left crc_byte p l.
Proof. by rewrite <- fold_left_app, firstn_skipn. Qed.

(** What a stride loop has done: the rest of the input takes the combined
    register where the whole input would have taken it. *)
Definition caught_up (below : Z) (c : strides) (p : list Z) (r : strides * list Z) : Prop :=
  strides_ok (fst r) /\ Forall is_byte (snd r) /\ zlen (snd r) < below /\
  fold_left crc_byte (snd r) (combined (fst r)) = fold_left crc_byte p (combined c).

Lemma swath_loop_correct fuel c p :
  strides_ok c -> Forall is_byte p -> (length p <= fuel)%nat -> caught_up 16 c p (swath_loop fuel c p).
Proof.
  revert c p; induction fuel as [|fuel IH]; intros c p Hc Hb Hf; cbn [swath_loop].
  { split_and!; try done; try apply Hc. destruct p; [done|cbn in Hf; lia]. }
  destruct (Z.geb_spec (zlen p) 16) as [H16|]; [|by split_and!; try apply Hc].
  assert (16 <= length p)%nat by (unfold zlen in H16; lia).
  destruct (combined_swath c p) as [Hc' E]; try done.
  destruct (IH (STEP16 c p) (skipn 16 p)) as (H1 & H2 & H3 & H4); try done.
  - by apply Forall_drop.
  - rewrite length_drop. lia.
  - split_and!; try done; try apply H1. by rewrite H4, E, fold_left_take_drop.
Qed.

Lemma word_loop_correct fuel c p :
  strides_ok c -> Forall is_byte p -> (length p <= fuel)%nat -> caught_up 4 c p (word_loop fuel c p).
Proof.
  revert c p; induction fuel as [|fuel IH]; intros c p Hc Hb Hf; cbn [word_loop].
  { split_and!; try done; try apply Hc. destruct p; [done|cbn in Hf; lia]. }
  destruct (Z.geb_spec (zlen p) 4) as [H4|]; [|by split_and!; try apply Hc].
  assert (4 <= length p)%nat by (unfold zlen in H4; lia).
  destruct (combined_word c p) as [Hc' E]; try done.
  destruct (IH _ (skipn 4 p) Hc') as (H1 & H2 & H3 & H5); try done.
  - by apply Forall_drop.
  - rewrite length_drop. lia.
  - split_and!; try done; try apply H1. by rewrite H5, E, fold_left_take_drop.
Qed.

Lemma extend_swaths_correct p l :
  is_u32 l -> Forall is_byte p -> (16 <= length p)%nat ->
  let '(p', l') := extend_swaths p l in
  Forall is_byte p' /\ is_u32 l' /\ fold_left crc_byte p' l' = fold_left crc_byte p l.
Proof.
  intros Hl Hb Hlen. unfold extend_swaths.
  set (c := Strides _ _ _ _).
  assert (strides_ok c) as Hc.
  { split_and!; cbn [crc0 crc1 crc2 crc3]; try by apply word_at_u32. apply lxor_u32; [by apply word_at_u32|done]. }
  assert (combined c = fold_left crc_byte (firstn 16 p) l) as E.
  { rewrite take_16, !fold_left_app, <- !crc_word_at by (done || lia).
    unfold combined, crc_word, c. cbn [crc0 crc1 crc2 crc3]. expand_U. xor_bits. }
  destruct (swath_loop_correct (length (skipn 16 p)) c (skipn 16 p)) as (H1 & H2 & _ & H4);
    [done|by apply Forall_drop|done|].
  destruct (swath_loop _ c _) as [c1 p1]. cbn [fst snd] in *.
  destruct (word_loop_correct (length p1) c1 p1) as (H5 & H6 & _ & H8); [done|done|done|].
  destruct (word_loop _ c1 p1) as [c2 p2]. cbn [fst snd] in *.
  rewrite !STEP4W_crc, Z.lxor_0_r. fold (combined c2). split_and!; [done| |].
  - destruct H5 as (? & ? & ? & ?). by repeat (apply Un_u32 || apply lxor_u32).
  - by rewrite H8, H4, E, fold_left_take_drop.
Qed.

Lemma fold_left_take_cons {A B} (f : A -> B -> A) n b bs a :
  fold_left f (firstn (S n) (b :: bs)) a = fold_left f (firstn n bs) (f a b).
Proof. done. Qed.

Lemma step1_until_correct n p bytes l :
  is_u32 l -> Forall is_byte bytes -> (n <= length bytes)%nat ->
  step1_until (p + Z.of_nat n) p bytes l = (skipn n bytes, fold_left crc_byte (firstn n bytes) l).
Proof.
  revert p bytes l; induction n as [|n IH]; intros p bytes l Hl Hb Hn.
  { rewrite Z.add_0_r. destruct bytes; cbn; by rewrite Z.eqb_refl. }
  destruct bytes as [|b bytes]; [cbn in Hn; lia|]. cbn [step1_until].
  destruct (Z.eqb_spec p (p + Z.of_nat (S n))); [lia|]. inversion Hb; subst.
  rewrite STEP1_crc by done. replace (p + Z.of_nat (S n)) with (p + 1 + Z.of_nat n) by lia.
  assert (is_u32 (crc_byte l b)) as Hlb by (apply crc_byte_u32; assumption).
  assert (n <= length bytes)%nat as Hn' by (cbn in Hn; lia).
  rewrite (IH (p + 1) bytes (crc_byte l b) Hlb ltac:(assumption) Hn').
  by rewrite fold_left_take_cons.
Qed.

Lemma RoundUp_4 a : 0 <= a < 2 ^ 64 - 3 -> exists n, (n < 4)%nat /\ RoundUp 4 a = a + Z.of_nat n.
Proof.
  intros Ha. unfold RoundUp. change (4 - 1) with 3. unfold u64. rewrite wrap_small by lia.
  rewrite <- Z.ldiff_land. change 3 with (Z.ones 2) at 2. rewrite Z.ldiff_ones_r by lia.
  rewrite Z.shiftl_mul_pow2, Z.shiftr_div_pow2 by lia. change (2 ^ 2) with 4.
  pose proof (Z.div_mod (a + 3) 4) as E. pose proof (Z.mod_pos_bound (a + 3) 4).
  exists (Z.to_nat ((a + 3) / 4 * 4 - a)). lia.
Qed.

(** The whole of [Extend], wherever the buffer lies. *)
Lemma Extend_at_crc address crc data :
  0 <= address < 2 ^ 64 - 3 -> is_u32 crc -> Forall is_byte data ->
  Extend_at address crc data = crc_extend crc data.
Proof.
  intros Ha Hc Hb. unfold Extend_at, crc_extend. cbn [CanAccelerateCRC32C AcceleratedCRC32C Z.eqb].
  assert (is_u32 (Z.lxor crc kCRC32Xor)) as Hl by by apply lxor_u32.
  set (l := Z.lxor crc kCRC32Xor) in *. f_equal.
  destruct (RoundUp_4 address Ha) as (n & Hn & ->).
  set (head := if _ <=? address + zlen data then _ else _).
  assert (exists p l1, head = (p, l1) /\ Forall is_byte p /\ is_u32 l1 /\
    fold_left crc_byte p l1 = fold_left crc_byte data l) as (p & l1 & -> & Hp & Hl1 & E1).
  { unfold head. destruct (Z.leb_spec (address + Z.of_nat n) (address + zlen data)); [|by exists data, l].
    unfold zlen in *. rewrite step1_until_correct by (done || lia). do 2 eexists. split_and!; [done|..].
    - by apply Forall_drop.
    - apply crc_bytes_u32; [by apply Forall_take|done].
    - apply fold_left_take_drop. }
  set (mid := if zlen p >=? 16 then _ else _).
  assert (exists p' l2, mid = (p', l2) /\ Forall is_byte p' /\ is_u32 l2 /\
    fold_left crc_byte p' l2 = fold_left crc_byte p l1) as (p' & l2 & -> & Hp' & Hl2 & E2).
  { unfold mid. destruct (Z.geb_spec (zlen p) 16) as [H16|]; [|by exists p, l1].
    pose proof (extend_swaths_correct p l1 Hl1 Hp ltac:(unfold zlen in H16; lia)) as H.
    destruct (extend_swaths p l1) as [p' l2]. by exists p', l2. }
  assert (address + zlen data = address + zlen data - zlen p' + Z.of_nat (length p')) as Ee
    by (unfold zlen; lia).
  set (a := address + zlen data - zlen p') in *. rewrite Ee.
  rewrite step1_until_correct by done. by rewrite firstn_all, E2, E1.
Qed.

(** ** Injectivity: what the checksum detects *)

Lemma Un_injective n x y : is_u32 x -> is_u32 y -> Un n x = Un n y -> x = y.
Proof. apply iter_injective; [apply U_u32|apply U_injective]. Qed.

Lemma fold_left_injective {A B} (f : A -> B -> A) (P : A -> Prop) (Q : B -> Prop) bs x y :
  (forall a b, P a -> Q b -> P (f a b)) ->
  (forall b a a', Q b -> P a -> P a' -> f a b = f a' b -> a = a') ->
  Forall Q bs -> P x -> P y -> fold_left f bs x = fold_left f bs y -> x = y.
Proof.
  intros Hf Hi Hb. revert x y; induction Hb as [|b bs Hb _ IH]; intros x y Hx Hy E; [done|].
  apply (Hi b); try done. apply IH; auto.
Qed.

Lemma crc_bytes_injective bs x y :
  Forall is_byte bs -> is_u32 x -> is_u32 y -> fold_left crc_byte bs x = fold_left crc_byte bs y -> x = y.
Proof. apply fold_left_injective; [apply crc_byte_u32|apply crc_byte_injective]. Qed.

Lemma four_bytes (bs : list Z) : length bs = 4%nat -> exists b0 b1 b2 b3, bs = [b0; b1; b2; b3].
Proof. destruct bs as [|b0 [|b1 [|b2 [|b3 [|]]]]]; try done. by exists b0, b1, b2, b3. Qed.

Lemma crc_window_injective l w w' :
  is_u32 l -> Forall is_byte w -> Forall is_byte w' -> length w = 4%nat -> length w' = 4%nat ->
  fold_left crc_byte w l = fold_left crc_byte w' l -> w = w'.
Proof.
  intros Hl Hw Hw' H4 H4' E. destruct (four_bytes w H4) as (b0 & b1 & b2 & b3 & ->).
  destruct (four_bytes w' H4') as (c0 & c1 & c2 & c3 & ->). rewrite <- !crc_word_bytes in E by done.
  apply Un_injective in E.
  - apply lxor_cancel_l in E. rewrite <- (le_split_combine _ Hw), <- (le_split_combine _ Hw'). by rewrite E.
  - apply lxor_u32; [done|]. pose proof (le_combine_range _ Hw). by rewrite zlen_cons in *.
  - apply lxor_u32; [done|]. pose proof (le_combine_range _ Hw'). by rewrite zlen_cons in *.
Qed.

Lemma crc_extend_u32 crc bs : is_u32 crc -> Forall is_byte bs -> is_u32 (crc_extend crc bs).
Proof. intros. unfold crc_extend. apply lxor_u32; [|done]. apply crc_bytes_u32; [done|]. by apply lxor_u32. Qed.

Lemma crc_extend_app crc a b : crc_extend (crc_extend crc a) b = crc_extend crc (a ++ b).
Proof.
  unfold crc_extend. rewrite fold_left_app. do 2 f_equal.
  by rewrite Z.lxor_assoc, Z.lxor_nilpotent, Z.lxor_0_r.
Qed.

Lemma crc_value_detects pre w w' post :
  Forall is_byte (pre ++ w ++ post) -> Forall is_byte w' -> length w = 4%nat -> length w' = 4%nat ->
  crc_value (pre ++ w ++ post) = crc_value (pre ++ w' ++ post) -> w = w'.
Proof.
  rewrite !Forall_app. intros (Hpre & Hw & Hpost) Hw' H4 H4' E. unfold crc_value, crc_extend in E.
  apply lxor_cancel_r in E. rewrite !fold_left_app in E.
  set (l := fold_left crc_byte pre _) in *.
  assert (is_u32 l) as Hl by (by apply crc_bytes_u32).
  apply crc_bytes_injective in E; [|done|by apply crc_bytes_u32..].
  by apply (crc_window_injective l).
Qed.

(** ** Rotation *)

Lemma rotate_right k c :
  0 < k < 32 -> is_u32 c ->
  Z.lor (Z.shiftr c k) (u32 (Z.shiftl c (32 - k))) = c / 2 ^ k + (c mod 2 ^ k) * 2 ^ (32 - k).
Proof.
  intros Hk Hc. unfold is_u32 in Hc.
  assert (2 ^ 32 = 2 ^ k * 2 ^ (32 - k)) as Ep by (rewrite <- Z.pow_add_r by lia; f_equal; lia).
  assert (0 < 2 ^ k) by (apply Z.pow_pos_nonneg; lia).
  assert (0 < 2 ^ (32 - k)) by (apply Z.pow_pos_nonneg; lia).
  assert (u32 (Z.shiftl c (32 - k)) = Z.shiftl (c mod 2 ^ k) (32 - k)) as ->.
  { unfold u32, wrap. rewrite !Z.shiftl_mul_pow2 by lia. by rewrite Ep, Zmult_mod_distr_r. }
  rewrite Z.shiftr_div_pow2 by lia. apply lor_shiftl; [lia|].
  split; [apply Z.div_pos; lia|apply Z.div_lt_upper_bound; lia].
Qed.

Lemma rotate_left_right k q r :
  0 < k < 32 -> 0 <= q < 2 ^ (32 - k) -> 0 <= r < 2 ^ k ->
  Z.lor (Z.shiftr (q + r * 2 ^ (32 - k)) (32 - k)) (u32 (Z.shiftl (q + r * 2 ^ (32 - k)) k)) = r + q * 2 ^ k.
Proof.
  intros Hk Hq Hr. assert (2 ^ 32 = 2 ^ k * 2 ^ (32 - k)) as Ep by (rewrite <- Z.pow_add_r by lia; f_equal; lia).
  pose proof (rotate_right (32 - k) (q + r * 2 ^ (32 - k)) ltac:(lia)) as H.
  replace (32 - (32 - k)) with k in H by lia. rewrite H by (unfold is_u32; nia).
  rewrite Z.div_add, Z.mod_add, Z.div_small, Z.mod_small by lia. lia.
Qed.

Lemma mask_inverse c :
  is_u32 c -> is_u32 (Mask c) /\ is_u32 (Unmask c) /\ Unmask (Mask c) = c /\ Mask (Unmask c) = c.
Proof.
  intros Hc. assert (forall z, is_u32 (u32 z)) as Hu by (intros; by apply (wrap_range 32)).
  assert (forall k z, 0 < k < 32 -> is_u32 z -> 0 <= z / 2 ^ k < 2 ^ (32 - k)) as Hdiv.
  { intros k z Hk Hz. unfold is_u32 in Hz. split; [apply Z.div_pos; [lia|apply Z.pow_pos_nonneg; lia]|].
    apply Z.div_lt_upper_bound; [apply Z.pow_pos_nonneg; lia|]. rewrite <- Z.pow_add_r by lia.
    replace (k + (32 - k)) with 32 by lia. lia. }
  assert (forall k z, 0 < k < 32 -> 0 <= z mod 2 ^ k < 2 ^ k) as Hmod
    by (intros; apply Z.mod_pos_bound, Z.pow_pos_nonneg; lia).
  assert (forall z, is_u32 z -> z / 2 ^ 15 + z mod 2 ^ 15 * 2 ^ 17 < 2 ^ 32) as Hr15.
  { intros z Hz. pose proof (Hdiv 15 z ltac:(lia) Hz). pose proof (Hmod 15 z ltac:(lia)). lia. }
  assert (is_u32 (Unmask c)) as Hunm.
  { unfold Unmask. specialize (Hu (c - kMaskDelta)). rewrite (rotate_right 17) by (done || lia).
    pose proof (Hdiv 17 _ ltac:(lia) Hu). pose proof (Hmod 17 (u32 (c - kMaskDelta)) ltac:(lia)).
    unfold is_u32. change (2 ^ (32 - 17)) with (2 ^ 15) in *. lia. }
  split_and!; [apply Hu|done|..].
  - unfold Unmask, Mask. rewrite (rotate_right 15) by (done || lia).
    pose proof (Hdiv 15 c ltac:(lia) Hc) as Hd. pose proof (Hmod 15 c ltac:(lia)) as Hm.
    change (32 - 15) with 17 in *. specialize (Hr15 c Hc).
    set (r := c / 2 ^ 15 + c mod 2 ^ 15 * 2 ^ 17) in *.
    assert (u32 (u32 (r + kMaskDelta) - kMaskDelta) = r) as ->.
    { unfold u32, wrap. rewrite Zminus_mod_idemp_l. rewrite Z.add_simpl_r. apply Z.mod_small. lia. }
    unfold r. pose proof (rotate_left_right 15 (c / 2 ^ 15) (c mod 2 ^ 15) ltac:(lia) Hd Hm) as E.
    change (32 - 15) with 17 in E. rewrite E. pose proof (Z.div_mod c (2 ^ 15)). lia.
  - unfold Unmask, Mask in *. set (rot := u32 (c - kMaskDelta)) in *.
    assert (is_u32 rot) as Hrot by apply Hu.
    rewrite (rotate_right 17) in * by (done || lia).
    pose proof (Hdiv 17 rot ltac:(lia) Hrot) as Hd. pose proof (Hmod 17 rot ltac:(lia)) as Hm.
    change (32 - 17) with 15 in *.
    pose proof (rotate_left_right 17 (rot / 2 ^ 17) (rot mod 2 ^ 17) ltac:(lia) Hd Hm) as E.
    change (32 - 17) with 15 in E. rewrite E. clear E.
    replace (rot mod 2 ^ 17 + rot / 2 ^ 17 * 2 ^ 17) with rot by (pose proof (Z.div_mod rot (2 ^ 17)); lia).
    unfold rot, u32, wrap. rewrite Zplus_mod_idemp_l, Z.sub_simpl_r. by apply Z.mod_small.
Qed.

(** ** What the checksum promises its clients *)

(** [value] and [extend] at whatever addresses the buffers have. *)
Class Checksum (value : list Z -> Z) (extend : Z -> list Z -> Z) : Prop := {
  value_u32 bs : Forall is_byte bs -> is_u32 (value bs);
  extend_value a b : Forall is_byte a -> Forall is_byte b -> extend (value a) b = value (a ++ b);
  value_detects pre w w' post :
    Forall is_byte (pre ++ w ++ post) -> Forall is_byte w' -> length w = 4%nat -> length w' = 4%nat ->
    value (pre ++ w ++ post) = value (pre ++ w' ++ post) -> w = w';
}.

Definition placed (place : list Z -> Z) : Prop := forall bs, 0 <= place bs < 2 ^ 64 - 3.

Lemma crc32c_checksum place :
  placed place ->
  Checksum (fun bs => Value_at (place bs) bs) (fun crc bs => Extend_at (place bs) crc bs).
Proof.
  intros Hp. assert (forall bs, Forall is_byte bs -> Value_at (place bs) bs = crc_value bs) as Hv.
  { intros bs Hb. by apply Extend_at_crc. }
  split.
  - intros bs Hb. rewrite Hv by done. by apply crc_extend_u32.
  - intros a b Ha Hb. rewrite Hv, Hv by (try apply Forall_app; done).
    rewrite Extend_at_crc; [apply crc_extend_app|done| |done]. by apply crc_extend_u32.
  - intros pre w w' post Hb Hw' H4 H4'. rewrite !Hv; [by apply crc_value_detects|..|done].
    apply Forall_app in Hb as [? Hb]. apply Forall_app in Hb as [? ?]. by rewrite !Forall_app.
Qed.

(** ** Theorems *)

(** C32. The table-driven [Extend], with its aligned head, interleaved strides and
    tail, computes the bitwise CRC-32C of the buffer at every address; extending
    the checksum of [a] by [b] is the checksum of [a ++ b]. *)
Theorem crc32c_correct address crc a b :
  0 <= address < 2 ^ 64 - 3 -> is_u32 crc -> Forall is_byte a -> Forall is_byte b ->
  Extend_at address crc a = crc_extend crc a /\
  Extend_at address (Extend_at address crc a) b = Extend_at address crc (a ++ b).
Proof.
  intros Ha Hc Hx Hy. rewrite !Extend_at_crc; try done; [by rewrite crc_extend_app|by apply Forall_app|].
  by apply crc_extend_u32.
Qed.

(** Changing any four consecutive bytes of a buffer changes its checksum. *)
Theorem crc32c_detects address pre w w' post :
  0 <= address < 2 ^ 64 - 3 ->
  Forall is_byte (pre ++ w ++ post) -> Forall is_byte w' -> length w = 4%nat -> length w' = 4%nat ->
  w <> w' -> Value_at address (pre ++ w ++ post) <> Value_at address (pre ++ w' ++ post).
Proof.
  intros Ha Hb Hw' H4 H4' Hne E. apply Hne.
  by apply (value_detects (Checksum := crc32c_checksum (fun _ => address) (fun _ => Ha)) pre w w' post).
Qed.

(** Masking is a bijection on 32-bit values, with [Unmask] its inverse. *)
Theorem mask_roundtrip c :
  is_u32 c -> is_u32 (Mask c) /\ is_u32 (Unmask c) /\ Unmask (Mask c) = c /\ Mask (Unmask c) = c.
Proof. apply mask_inverse. Qed.
