(* ===== verification/LdbBloom.v ===== *)
(** * LevelDB: the hash function and the Bloom filter (util/hash.cc, util/bloom.cc)

    [Hash], and the filter policy built on it: [CreateFilter] appends a bit
    array and its number of probes to a string, [KeyMayMatch] probes it.  An
    access outside an array is [UB]; it is shown that there is none, for any
    filter contents, and that the bits set are exactly the probes of the keys,
    so a key of the filter always matches. *)
From S2P Require Import Prelude.
From S2P Require Import LdbCoding.
From Stdlib Require Import ZArith Lia.
From stdpp Require Import base tactics numbers list.
#[local] Open Scope Z_scope.

(** ** Hash *)

(** [const uint32_t m], [r] of [Hash]. *)
Definition hash_m : Z := 0xc6a4a793.
Definition hash_r : Z := 24.

Definition hash_word (h w : Z) : Z :=
  let h := u32 (h + w) in
  let h := u32 (h * hash_m) in
  Z.lxor h (Z.shiftr h 16).

(** The [switch] on the remaining bytes, with its fall-throughs. *)
Definition hash_tail (h : Z) (data : list Z) : Z :=
  match data with
  | [] => h
  | _ =>
      let h := if zlen data =? 3 then u32 (h + Z.shiftl (byte_at data 2) 16) else h in
      let h := if 2 <=? zlen data then u32 (h + Z.shiftl (byte_at data 1) 8) else h in
      let h := u32 (h + byte_at data 0) in
      let h := u32 (h * hash_m) in
      Z.lxor h (Z.shiftr h hash_r)
  end.

Fixpoint hash_words (h : Z) (data : list Z) : Z :=
  match data with
  | _ :: _ :: _ :: _ :: rest => hash_words (hash_word h (DecodeFixed32 data)) rest
  | _ => hash_tail h data
  end.

Definition Hash (data : list Z) (seed : Z) : Z :=
  hash_words (u32 (Z.lxor seed (u64 (zlen data * hash_m)))) data.

Definition BloomHash (key : list Z) : Z := Hash key 0xbc9f1d34.

(** ** The filter policy *)

Record BloomFilterPolicy := mk_policy { bits_per_key_ : Z; k_ : Z }.

(** The constructor.  [bits_per_key * 0.69] is a [double]: below 44, where the
    product is under the limit of 30, it is far from an integer unless it is 0,
    so its truncation is that of the fraction 69/100. *)
Definition new_policy (bits_per_key : Z) : BloomFilterPolicy :=
  let k := u64 (Z.quot (bits_per_key * 69) 100) in
  let k := if k <? 1 then 1 else k in
  let k := if k >? 30 then 30 else k in
  mk_policy (u64 bits_per_key) k.

(** [array[bitpos / 8] |= (1 << (bitpos % 8))] *)
Definition set_bit (array : list Z) (bitpos : Z) : res (list Z) :=
  match array !! Z.to_nat (bitpos / 8) with
  | Some b => Ret (<[Z.to_nat (bitpos / 8) := u8 (Z.lor b (Z.shiftl 1 (bitpos mod 8)))]> array)
  | None => UB
  end.

(** [(array[bitpos / 8] & (1 << (bitpos % 8))) == 0], negated. *)
Definition get_bit (array : list Z) (bitpos : Z) : res bool :=
  match array !! Z.to_nat (bitpos / 8) with
  | Some b => Ret (negb (Z.land b (Z.shiftl 1 (bitpos mod 8)) =? 0))
  | None => UB
  end.

(** The double hashing: [h], and [delta], [h] rotated right by 17 bits. *)
Definition bloom_delta (h : Z) : Z := Z.lor (Z.shiftr h 17) (u32 (Z.shiftl h 15)).

(** [for (size_t j = 0; j < k_; j++)] of [CreateFilter]. *)
Fixpoint add_probes (k : nat) (bits h delta : Z) (array : list Z) : res (list Z) :=
  match k with
  | O => Ret array
  | S k =>
      let! array := set_bit array (h mod bits) in
      add_probes k bits (u32 (h + delta)) delta array
  end.

Fixpoint add_keys (k : nat) (bits : Z) (keys : list (list Z)) (array : list Z) : res (list Z) :=
  match keys with
  | [] => Ret array
  | key :: keys =>
      let h := BloomHash key in
      let! array := add_probes k bits h (bloom_delta h) array in
      add_keys k bits keys array
  end.

(** The size of the bit array, in bytes, for [n] keys. *)
Definition filter_bytes (policy : BloomFilterPolicy) (n : Z) : Z :=
  let bits := u64 (n * bits_per_key_ policy) in
  let bits := if bits <? 64 then 64 else bits in
  u64 (bits + 7) / 8.

(** [array] is the part of [dst] from [init_size] on. *)
Definition CreateFilter (policy : BloomFilterPolicy) (keys : list (list Z)) (dst : list Z) : res (list Z) :=
  let bytes := filter_bytes policy (zlen keys) in
  let bits := bytes * 8 in
  let array := repeat 0 (Z.to_nat bytes) ++ [u8 (k_ policy)] in
  let! array := add_keys (Z.to_nat (k_ policy)) bits keys array in
  Ret (dst ++ array).

(** [for (size_t j = 0; j < k; j++)] of [KeyMayMatch]. *)
Fixpoint check_probes (k : nat) (bits h delta : Z) (array : list Z) : res bool :=
  match k with
  | O => Ret true
  | S k =>
      let! set := get_bit array (h mod bits) in
      if negb set then Ret false else check_probes k bits (u32 (h + delta)) delta array
  end.

(** [array[len - 1]] is a [char], here signed, converted to [size_t]. *)
Definition KeyMayMatch (key bloom_filter : list Z) : res bool :=
  let len := zlen bloom_filter in
  if len <? 2 then Ret false
  else
    let bits := (len - 1) * 8 in
    let k := u64 (swrap 8 (byte_at bloom_filter (Z.to_nat (len - 1)))) in
    if k >? 30 then Ret true
    else
      let h := BloomHash key in
      check_probes (Z.to_nat k) bits h (bloom_delta h) bloom_filter.

(** ** Specification *)

(** The bits a key sets and is tested by. *)
Fixpoint probes_from (k : nat) (bits h delta : Z) : list Z :=
  match k with
  | O => []
  | S k => h mod bits :: probes_from k bits (u32 (h + delta)) delta
  end.

Definition probes (k : nat) (bits : Z) (key : list Z) : list Z :=
  probes_from k bits (BloomHash key) (bloom_delta (BloomHash key)).

(** Bit [p] of an array. *)
Definition bit (array : list Z) (p : Z) : bool :=
  Z.testbit (byte_at array (Z.to_nat (p / 8))) (p mod 8).

(** ** The hash is a 32-bit value *)

Lemma lxor_shiftr_u32 h n : 0 <= n -> is_u32 h -> is_u32 (Z.lxor h (Z.shiftr h n)).
Proof.
  unfold is_u32. intros Hn Hh. rewrite Z.shiftr_div_pow2 by done.
  assert (0 < 2 ^ n) by (apply Z.pow_pos_nonneg; lia).
  assert (0 <= h / 2 ^ n <= h) as Hs.
  { split; [apply Z.div_pos; lia|]. apply Z.div_le_upper_bound; [lia|]. nia. }
  split; [apply Z.lxor_nonneg; lia|].
  destruct (decide (Z.lxor h (h / 2 ^ n) = 0)) as [->|Hne]; [lia|].
  assert (0 <= Z.lxor h (h / 2 ^ n)) by (apply Z.lxor_nonneg; lia).
  apply Z.log2_lt_pow2; [lia|].
  pose proof (Z.log2_lxor h (h / 2 ^ n) ltac:(lia) ltac:(lia)) as Hl.
  assert (Z.log2 (h / 2 ^ n) <= Z.log2 h) by (apply Z.log2_le_mono; lia).
  destruct (decide (h = 0)) as [->|]; [change (Z.log2 0) with 0 in *; lia|].
  assert (Z.log2 h < 32) by (apply Z.log2_lt_pow2; lia). lia.
Qed.

Lemma u32_u32 z : is_u32 (u32 z).
Proof. by apply (wrap_range 32). Qed.

Lemma hash_word_u32 h w : is_u32 (hash_word h w).
Proof. apply lxor_shiftr_u32; [lia|apply u32_u32]. Qed.

Lemma hash_tail_u32 h data : is_u32 h -> is_u32 (hash_tail h data).
Proof. intros Hh. unfold hash_tail. destruct data; [done|]. apply lxor_shiftr_u32; [done|apply u32_u32]. Qed.

Lemma hash_words_u32 n h data : (length data <= n)%nat -> is_u32 h -> is_u32 (hash_words h data).
Proof.
  revert h data; induction n as [|n IH]; intros h data Hn Hh.
  { destruct data; [done|cbn in Hn; lia]. }
  destruct data as [|b0 [|b1 [|b2 [|b3 rest]]]]; try by apply hash_tail_u32.
  cbn [hash_words]. apply IH; [cbn in Hn; lia|apply hash_word_u32].
Qed.

Lemma Hash_u32 data seed : is_u32 (Hash data seed).
Proof. by eapply hash_words_u32, u32_u32. Qed.

(** ** Bits *)

Lemma bit_index p bits : 0 < bits -> 0 <= p mod (bits * 8) < bits * 8 /\ 0 <= p mod (bits * 8) / 8 < bits.
Proof.
  intros Hb. pose proof (Z.mod_pos_bound p (bits * 8) ltac:(lia)). split; [done|].
  split; [apply Z.div_pos; lia|apply Z.div_lt_upper_bound; lia].
Qed.

Lemma is_byte_lookup array i b : Forall is_byte array -> array !! i = Some b -> is_byte b.
Proof. intros Hb. by apply Forall_lookup_1. Qed.

Lemma byte_at_lookup array i b : array !! i = Some b -> byte_at array i = b.
Proof. unfold byte_at. rewrite nth_lookup. by intros ->. Qed.

Lemma testbit_set b q r : is_byte b -> 0 <= q < 8 -> 0 <= r < 8 ->
  Z.testbit (u8 (Z.lor b (Z.shiftl 1 q))) r = Z.testbit b r || (q =? r).
Proof.
  intros Hb Hq Hr. unfold u8, wrap. rewrite Z.mod_pow2_bits_low, Z.lor_spec by lia. f_equal.
  rewrite Z.shiftl_1_l, Z.pow2_bits_eqb by lia. done.
Qed.

Lemma u8_byte z : is_byte (u8 z).
Proof. by apply (wrap_range 8). Qed.

(** Setting a bit in range sets that bit and no other. *)
Lemma set_bit_spec array p :
  Forall is_byte array -> 0 <= p -> p / 8 < zlen array ->
  exists array', set_bit array p = Ret array' /\ Forall is_byte array' /\ length array' = length array /\
    (forall q, 0 <= q -> bit array' q = bit array q || (p =? q)) /\
    forall i, Z.of_nat i <> p / 8 -> array' !! i = array !! i.
Proof.
  intros Hb Hp Hlen. unfold set_bit. assert (0 <= p / 8) by (apply Z.div_pos; lia).
  destruct (lookup_lt_is_Some_2 array (Z.to_nat (p / 8))) as [b E]; [unfold zlen in Hlen; lia|].
  rewrite E. eexists. split; [done|]. pose proof (is_byte_lookup _ _ _ Hb E) as Hbb.
  split_and!; [apply Forall_insert; [done|apply u8_byte]|apply length_insert| |].
  - intros q Hq. unfold bit. assert (0 <= q / 8) by (apply Z.div_pos; lia).
    pose proof (Z.mod_pos_bound p 8). pose proof (Z.mod_pos_bound q 8).
    pose proof (Z.div_mod p 8). pose proof (Z.div_mod q 8).
    destruct (decide (p / 8 = q / 8)) as [Ed|Hne].
    + rewrite <- Ed. assert (Z.to_nat (p / 8) < length array)%nat by (unfold zlen in Hlen; lia).
      rewrite (byte_at_lookup _ _ (u8 (Z.lor b (Z.shiftl 1 (p mod 8))))) by (by apply list_lookup_insert_eq).
      rewrite (byte_at_lookup _ _ _ E), testbit_set by (done || lia). f_equal.
      destruct (Z.eqb_spec (p mod 8) (q mod 8)), (Z.eqb_spec p q); done || lia.
    + unfold byte_at. rewrite !nth_lookup, list_lookup_insert_ne by lia.
      destruct (Z.eqb_spec p q); [subst; done|]. by rewrite orb_false_r.
  - intros i Hi. apply list_lookup_insert_ne. lia.
Qed.

Lemma get_bit_spec array p :
  Forall is_byte array -> 0 <= p -> p / 8 < zlen array -> get_bit array p = Ret (bit array p).
Proof.
  intros Hb Hp Hlen. unfold get_bit. assert (0 <= p / 8) by (apply Z.div_pos; lia).
  destruct (lookup_lt_is_Some_2 array (Z.to_nat (p / 8))) as [b E]; [unfold zlen in Hlen; lia|].
  rewrite E. unfold bit. rewrite (byte_at_lookup _ _ _ E). f_equal.
  pose proof (Z.mod_pos_bound p 8). destruct (Z.eqb_spec (Z.land b (Z.shiftl 1 (p mod 8))) 0) as [E0|Hne]; cbn.
  - apply (f_equal (fun z => Z.testbit z (p mod 8))) in E0.
    rewrite Z.land_spec, Z.shiftl_1_l, Z.pow2_bits_true, Z.bits_0, andb_true_r in E0 by lia. done.
  - destruct (Z.testbit b (p mod 8)) eqn:Et; [done|]. exfalso. apply Hne. apply Z.bits_inj'. intros i Hi.
    rewrite Z.land_spec, Z.shiftl_1_l, Z.bits_0, Z.pow2_bits_eqb by lia.
    destruct (Z.eqb_spec (p mod 8) i) as [<-|]; [by rewrite Et|by rewrite andb_false_r].
Qed.

(** ** Building a filter *)

(** [array'] is [array] with the bits of [ps] set and the bytes from [bytes] on
    as they were. *)
Definition with_bits (bytes : Z) (array : list Z) (ps : list Z) (array' : list Z) : Prop :=
  Forall is_byte array' /\ length array' = length array /\
  (forall q, 0 <= q -> bit array' q = bit array q || existsb (Z.eqb q) ps) /\
  forall i, bytes <= Z.of_nat i -> array' !! i = array !! i.

Lemma with_bits_nil bytes array : Forall is_byte array -> with_bits bytes array [] array.
Proof. intros Hb. split_and!; try done. intros. cbn. by rewrite orb_false_r. Qed.

Lemma with_bits_app bytes array ps array' qs array'' :
  with_bits bytes array ps array' -> with_bits bytes array' qs array'' ->
  with_bits bytes array (ps ++ qs) array''.
Proof.
  intros (H1 & H2 & H3 & H4) (H5 & H6 & H7 & H8). split_and!.
  - done.
  - congruence.
  - intros q Hq. rewrite H7, H3, existsb_app by done. by rewrite orb_assoc.
  - intros i Hi. by rewrite H8, H4.
Qed.

Lemma set_bit_with bytes array p :
  Forall is_byte array -> 0 < bytes <= zlen array ->
  exists array', set_bit array (p mod (bytes * 8)) = Ret array' /\ with_bits bytes array [p mod (bytes * 8)] array'.
Proof.
  intros Hb Hl. destruct (bit_index p bytes) as [H1 H2]; [lia|].
  destruct (set_bit_spec array (p mod (bytes * 8))) as (array' & E & Hb' & Hl' & Hbit & Hrest); [done|lia|lia|].
  exists array'. split; [done|]. split_and!; try done.
  - intros q Hq. rewrite Hbit by done. cbn. by rewrite orb_false_r, Z.eqb_sym.
  - intros i Hi. apply Hrest. lia.
Qed.

Lemma add_probes_with k bytes h delta array :
  Forall is_byte array -> 0 < bytes <= zlen array ->
  exists array', add_probes k (bytes * 8) h delta array = Ret array' /\
    with_bits bytes array (probes_from k (bytes * 8) h delta) array'.
Proof.
  revert h array; induction k as [|k IH]; intros h array Hb Hl.
  { exists array. split; [done|by apply with_bits_nil]. }
  cbn [add_probes probes_from]. destruct (set_bit_with bytes array h Hb Hl) as (a1 & -> & W1).
  cbn [rbind]. destruct (IH (u32 (h + delta)) a1) as (a2 & -> & W2); [apply W1| |].
  { destruct W1 as (_ & El & _). unfold zlen in *. lia. }
  exists a2. split; [done|]. apply (with_bits_app _ _ [_] a1); done.
Qed.

Lemma add_keys_with k bytes keys array :
  Forall is_byte array -> 0 < bytes <= zlen array ->
  exists array', add_keys k (bytes * 8) keys array = Ret array' /\
    with_bits bytes array (concat (map (probes k (bytes * 8)) keys)) array'.
Proof.
  revert array; induction keys as [|key keys IH]; intros array Hb Hl.
  { exists array. split; [done|by apply with_bits_nil]. }
  cbn [add_keys map concat].
  destruct (add_probes_with k bytes (BloomHash key) (bloom_delta (BloomHash key)) array Hb Hl) as (a1 & E & W1).
  rewrite E. cbn [rbind]. destruct (IH a1) as (a2 & -> & W2); [apply W1| |].
  { destruct W1 as (_ & El & _). unfold zlen in *. lia. }
  exists a2. split; [done|]. by apply (with_bits_app _ _ _ a1).
Qed.

(** A policy as the constructor makes it. *)
Definition valid_policy (policy : BloomFilterPolicy) : Prop :=
  1 <= k_ policy <= 30 /\ 0 <= bits_per_key_ policy < 2 ^ 31.

Lemma new_policy_valid bits_per_key : 0 <= bits_per_key < 2 ^ 31 -> valid_policy (new_policy bits_per_key).
Proof.
  intros Hb. unfold new_policy. split; cbn [k_ bits_per_key_].
  - set (k := u64 _). destruct (Z.ltb_spec k 1); [done|]. destruct (Z.gtb_spec k 30); lia.
  - unfold u64. rewrite wrap_small; lia.
Qed.

(** Eight bits for each byte, at least [bits_per_key_] for each key, at least 64. *)
Lemma filter_bytes_enough policy n :
  valid_policy policy -> 0 <= n < 2 ^ 31 ->
  8 <= filter_bytes policy n /\ n * bits_per_key_ policy <= filter_bytes policy n * 8.
Proof.
  intros [_ Hb] Hn. unfold filter_bytes.
  assert (n * bits_per_key_ policy <= 2 ^ 31 * 2 ^ 31) by nia. change (2 ^ 31 * 2 ^ 31) with (2 ^ 62) in *.
  unfold u64. rewrite (wrap_small 64 (n * _)) by nia. set (bits := n * bits_per_key_ policy) in *.
  assert (64 <= (if bits <? 64 then 64 else bits) <= 2 ^ 62) as Hbits by (destruct (Z.ltb_spec bits 64); lia).
  assert (bits <= if bits <? 64 then 64 else bits) by (destruct (Z.ltb_spec bits 64); lia).
  set (c := if bits <? 64 then 64 else bits) in *. rewrite wrap_small by lia.
  pose proof (Z.div_mod (c + 7) 8). pose proof (Z.mod_pos_bound (c + 7) 8). lia.
Qed.

Lemma bit_zeros n k q : 0 <= q < Z.of_nat n * 8 -> bit (repeat 0 n ++ [k]) q = false.
Proof.
  intros Hq. unfold bit, byte_at.
  assert (0 <= q / 8 < Z.of_nat n) by (split; [apply Z.div_pos; lia|apply Z.div_lt_upper_bound; lia]).
  rewrite app_nth1 by (rewrite repeat_length; lia). rewrite nth_repeat. apply Z.bits_0.
Qed.

(** The filter [CreateFilter] appends. *)
Definition is_filter (policy : BloomFilterPolicy) (keys : list (list Z)) (filter : list Z) : Prop :=
  let bytes := filter_bytes policy (zlen keys) in
  Forall is_byte filter /\ zlen filter = bytes + 1 /\
  byte_at filter (Z.to_nat bytes) = k_ policy /\
  forall q, 0 <= q < bytes * 8 ->
    bit filter q = existsb (Z.eqb q) (concat (map (probes (Z.to_nat (k_ policy)) (bytes * 8)) keys)).

Lemma CreateFilter_spec policy keys dst :
  valid_policy policy -> zlen keys < 2 ^ 31 ->
  exists filter, CreateFilter policy keys dst = Ret (dst ++ filter) /\ is_filter policy keys filter.
Proof.
  intros Hp Hn. destruct (filter_bytes_enough policy (zlen keys) Hp) as [Hmin _];
    [pose proof (zlen_nonneg keys); lia|].
  unfold CreateFilter. set (bytes := filter_bytes policy (zlen keys)) in *.
  set (array := repeat 0 (Z.to_nat bytes) ++ [u8 (k_ policy)]).
  assert (zlen array = bytes + 1) as Hlen.
  { unfold array, zlen. rewrite length_app, repeat_length. cbn [length]. lia. }
  assert (Forall is_byte array) as Hb.
  { apply Forall_app. split; [apply Forall_forall; by intros b ->%list_elem_of_In%repeat_spec|].
    repeat constructor; apply u8_byte. }
  destruct (add_keys_with (Z.to_nat (k_ policy)) bytes keys array Hb ltac:(lia)) as (filter & -> & Hb' & Hl & Hbit & Hrest).
  exists filter. split; [done|]. split_and!; [done|unfold zlen in *; lia| |].
  - unfold byte_at. rewrite nth_lookup. fold bytes. rewrite Hrest by lia. unfold array.
    rewrite lookup_app_r, repeat_length, Nat.sub_diag by (rewrite repeat_length; lia). cbn.
    apply (wrap_small 8). destruct Hp as [[??] _]. lia.
  - fold bytes. intros q Hq. rewrite Hbit by lia. unfold array. by rewrite bit_zeros by lia.
Qed.

(** ** Probing a filter *)

Lemma check_probes_spec k bytes h delta array :
  Forall is_byte array -> 0 < bytes <= zlen array ->
  check_probes k (bytes * 8) h delta array = Ret (forallb (bit array) (probes_from k (bytes * 8) h delta)).
Proof.
  intros Hb Hl. revert h; induction k as [|k IH]; intros h; [done|]. cbn [check_probes probes_from forallb].
  destruct (bit_index h bytes) as [H1 H2]; [lia|]. rewrite get_bit_spec by (done || lia). cbn [rbind].
  destruct (bit array (h mod (bytes * 8))); [apply IH|done].
Qed.

Lemma probes_range k bytes key : 0 < bytes -> Forall (fun q => 0 <= q < bytes * 8) (probes k (bytes * 8) key).
Proof.
  intros Hb. unfold probes. generalize (BloomHash key) at 1. generalize (bloom_delta (BloomHash key)).
  induction k as [|k IH]; intros d h; constructor; [apply Z.mod_pos_bound; lia|apply IH].
Qed.

(** [KeyMayMatch] on any string: false when it is too short, true for the
    reserved numbers of probes, otherwise whether all probes of the key are set. *)
Lemma KeyMayMatch_spec key filter :
  Forall is_byte filter ->
  KeyMayMatch key filter =
  Ret (if zlen filter <? 2 then false
       else
         let k := byte_at filter (length filter - 1) in
         (k >? 30) || forallb (bit filter) (probes (Z.to_nat k) ((zlen filter - 1) * 8) key)).
Proof.
  intros Hb. unfold KeyMayMatch. destruct (Z.ltb_spec (zlen filter) 2) as [|Hl]; [done|].
  replace (Z.to_nat (zlen filter - 1)) with (length filter - 1)%nat by (unfold zlen in *; lia).
  destruct (lookup_lt_is_Some_2 filter (length filter - 1)) as [k E]; [unfold zlen in Hl; lia|].
  rewrite (byte_at_lookup _ _ _ E). pose proof (is_byte_lookup _ _ _ Hb E) as Hk. unfold is_byte in Hk.
  destruct (decide (k < 128)) as [Hs|Hs].
  - unfold u64. rewrite (swrap_small 8), (wrap_small 64) by (cbn; lia).
    destruct (Z.gtb_spec k 30) as [Hg|Hg]; [done|]. cbn [orb]. apply check_probes_spec; [done|lia].
  - assert (swrap 8 k = k - 256) as ->.
    { unfold swrap. change (2 ^ 8) with 256. change (2 ^ (8 - 1)) with 128.
      replace (k + 128) with (k - 128 + 1 * 256) by lia. rewrite Z.mod_add, Z.mod_small by lia. lia. }
    assert (u64 (k - 256) = k - 256 + 2 ^ 64) as ->.
    { unfold u64, wrap. rewrite <- (Z.mod_add (k - 256) 1 (2 ^ 64)) by lia. rewrite Z.mod_small; lia. }
    destruct (Z.gtb_spec (k - 256 + 2 ^ 64) 30); [|lia]. by destruct (Z.gtb_spec k 30); [|lia].
Qed.

Lemma bloom_matches bits_per_key keys dst :
  0 <= bits_per_key < 2 ^ 31 -> zlen keys < 2 ^ 31 ->
  exists filter, CreateFilter (new_policy bits_per_key) keys dst = Ret (dst ++ filter) /\
    is_filter (new_policy bits_per_key) keys filter /\
    Forall (fun key => KeyMayMatch key filter = Ret true) keys.
Proof.
  intros Hb Hn. pose proof (new_policy_valid bits_per_key Hb) as Hp. set (policy := new_policy _) in *.
  destruct (CreateFilter_spec policy keys dst Hp Hn) as (filter & E & Hf). exists filter.
  split; [done|]. split; [done|]. destruct Hf as (Hbytes & Hlen & Hk & Hbit).
  destruct (filter_bytes_enough policy (zlen keys) Hp) as [Hmin _]; [pose proof (zlen_nonneg keys); lia|].
  set (bytes := filter_bytes policy (zlen keys)) in *. apply Forall_forall. intros key Hin.
  rewrite KeyMayMatch_spec by done. destruct (Z.ltb_spec (zlen filter) 2); [lia|]. cbn zeta.
  replace (length filter - 1)%nat with (Z.to_nat bytes) by (unfold zlen in Hlen; lia). rewrite Hk.
  replace (zlen filter - 1) with bytes by lia.
  assert (forallb (bit filter) (probes (Z.to_nat (k_ policy)) (bytes * 8) key) = true) as ->;
    [|by rewrite orb_true_r].
  apply forallb_forall. intros q Hq. pose proof (probes_range (Z.to_nat (k_ policy)) bytes key ltac:(lia)) as Hr.
  rewrite Forall_forall in Hr. rewrite Hbit by (by apply Hr, list_elem_of_In).
  apply existsb_exists. exists q. split; [|apply Z.eqb_refl]. apply in_concat.
  eexists. split; [apply in_map; by apply list_elem_of_In|done].
Qed.

(** ** Theorems *)

(** C34. A filter made for some keys has exactly the bits of their probes set, and
    matches every one of them: no false negatives, for any number of keys and
    bits per key. *)
Theorem bloom_no_false_negative bits_per_key keys dst :
  0 <= bits_per_key < 2 ^ 31 -> zlen keys < 2 ^ 31 ->
  exists filter, CreateFilter (new_policy bits_per_key) keys dst = Ret (dst ++ filter) /\
    is_filter (new_policy bits_per_key) keys filter /\
    Forall (fun key => KeyMayMatch key filter = Ret true) keys.
Proof. apply bloom_matches. Qed.

(** [KeyMayMatch] reads only inside the filter, whatever it contains. *)
Theorem KeyMayMatch_safe key filter :
  Forall is_byte filter -> exists b, KeyMayMatch key filter = Ret b.
Proof. intros Hb. rewrite KeyMayMatch_spec by done. by eexists. Qed.
