(* ===== verification/LdbStatus.v ===== *)
(** * LevelDB: statuses and the file interfaces (status.h, status.cc, env.h)

    A [Status] as the code lays it out: a null [state_] for success, otherwise an
    array with the length of the message, the code and the message.  The virtual
    classes [WritableFile] and [SequentialFile] are type classes over the state of
    a file, with the laws the log relies on as classes of their own. *)
From S2P Require Import Prelude.
From S2P Require Import LdbCoding.
From Stdlib Require Import ZArith Lia Strings.Ascii Strings.String.
From stdpp Require Import base tactics numbers list strings.
#[local] Open Scope Z_scope.

(** ** Status *)

(** The bytes of a C string literal. *)
Definition bytes_of (s : string) : list Z :=
  map (fun c => Z.of_N (N_of_ascii c)) (String.list_ascii_of_string s).

(** [Status::Code] *)
Definition kOk : Z := 0.
Definition kNotFound : Z := 1.
Definition kCorruption : Z := 2.
Definition kNotSupported : Z := 3.
Definition kInvalidArgument : Z := 4.
Definition kIOError : Z := 5.

(** [state_]: null, or the array it points to. *)
Definition Status : Type := option (list Z).

Definition status_ok : Status := None.

(** [ok()] *)
Definition is_ok (s : Status) : bool := match s with None => true | Some _ => false end.

(** The constructor [Status(code, msg, msg2)]. *)
Definition make_status (code : Z) (msg msg2 : list Z) : Status :=
  let len1 := u32 (zlen msg) in
  let len2 := u32 (zlen msg2) in
  let size := u32 (len1 + (if negb (len2 =? 0) then u32 (2 + len2) else 0)) in
  Some (raw_bytes 4 size ++ [code] ++ firstn (Z.to_nat len1) msg
        ++ (if negb (len2 =? 0) then bytes_of ": " ++ firstn (Z.to_nat len2) msg2 else [])).

Definition NotFound (msg msg2 : list Z) : Status := make_status kNotFound msg msg2.
Definition Corruption (msg msg2 : list Z) : Status := make_status kCorruption msg msg2.
Definition NotSupported (msg msg2 : list Z) : Status := make_status kNotSupported msg msg2.
Definition InvalidArgument (msg msg2 : list Z) : Status := make_status kInvalidArgument msg msg2.
Definition IOError (msg msg2 : list Z) : Status := make_status kIOError msg msg2.

(** [code()] *)
Definition status_code (s : Status) : Z :=
  match s with None => kOk | Some state => byte_at state 4 end.

Definition IsNotFound (s : Status) : bool := status_code s =? kNotFound.
Definition IsCorruption (s : Status) : bool := status_code s =? kCorruption.
Definition IsIOError (s : Status) : bool := status_code s =? kIOError.
Definition IsNotSupportedError (s : Status) : bool := status_code s =? kNotSupported.
Definition IsInvalidArgument (s : Status) : bool := status_code s =? kInvalidArgument.

(** [CopyState]: [memcpy] of [size + 5] bytes. *)
Definition CopyState (state : list Z) : list Z :=
  let size := le_combine (firstn 4 state) in firstn (Z.to_nat (size + 5)) state.

(** [Status(const Status&)] *)
Definition copy_status (rhs : Status) : Status := option_map CopyState rhs.

(** [ToString()]; the codes outside the enumeration, which no constructor makes,
    are printed with [snprintf] and left out. *)
Definition ToString (s : Status) : option (list Z) :=
  match s with
  | None => Some (bytes_of "OK")
  | Some state =>
      let code := status_code s in
      let type :=
        if code =? kOk then Some (bytes_of "OK")
        else if code =? kNotFound then Some (bytes_of "NotFound: ")
        else if code =? kCorruption then Some (bytes_of "Corruption: ")
        else if code =? kNotSupported then Some (bytes_of "Not implemented: ")
        else if code =? kInvalidArgument then Some (bytes_of "Invalid argument: ")
        else if code =? kIOError then Some (bytes_of "IO error: ")
        else None in
      let length := le_combine (firstn 4 state) in
      option_map (fun t => t ++ firstn (Z.to_nat length) (skipn 5 state)) type
  end.

(** ** Files *)

(** [WritableFile]: each method returns its status and the file after it. *)
Class WritableFile (F : Type) : Type := {
  Append : F -> list Z -> res (Status * F);
  Close : F -> res (Status * F);
  Flush : F -> res (Status * F);
  Sync : F -> res (Status * F);
}.

(** [SequentialFile]: [Read] takes the number of bytes wanted and [*result], and
    returns the status and the new [*result]. *)
Class SequentialFile (F : Type) : Type := {
  Read : F -> Z -> list Z -> res (Status * list Z * F);
  Skip : F -> Z -> res (Status * F);
}.

(** What the log relies on.  [written f] are the bytes the file has taken,
    [delivered f] the part that has left the process and survives its crash,
    [failed f] whether a call has failed, and [dirty f] whether there are bytes
    not delivered.  A call that fails may have delivered a part of what was taken
    and loses the rest; after a failure [Append] may succeed, since it may only
    fill a buffer, but nothing more is delivered, and [Flush] then fails.  When
    [Flush] succeeds everything taken is delivered.  [usable f] is an invariant
    of the file, under which [Append] and [Flush] return. *)
Class FailStop (F : Type) {W : WritableFile F} (usable : F -> Prop)
    (written delivered : F -> list Z) (failed dirty : F -> bool) : Prop := {
  append_spec f data : usable f -> exists s f', Append f data = Ret (s, f') /\ usable f' /\
    delivered f `prefix_of` delivered f' /\
    if failed f then
      failed f' = true /\ written f' = written f /\
      (is_ok s = true -> data <> [] \/ dirty f = true -> dirty f' = true)
    else failed f' = negb (is_ok s) /\
      if is_ok s then written f' = written f ++ data else written f' `prefix_of` written f ++ data;
  flush_spec f : usable f -> exists s f', Flush f = Ret (s, f') /\ usable f' /\
    delivered f `prefix_of` delivered f' /\
    if failed f then
      failed f' = true /\ written f' = written f /\ (dirty f = true -> is_ok s = false)
    else failed f' = negb (is_ok s) /\
      if is_ok s then written f' = written f /\ delivered f' = written f
      else written f' `prefix_of` written f;
  delivered_written f : usable f -> delivered f `prefix_of` written f;
}.

(** [Sync] of a file that has not failed and has nothing left to deliver changes
    nothing that a crash of the process would show, whatever its status. *)
Class HarmlessSync (F : Type) {W : WritableFile F} (usable : F -> Prop)
    (written delivered : F -> list Z) (failed : F -> bool) : Prop := {
  sync_spec f : usable f -> failed f = false -> delivered f = written f ->
    exists s f', Sync f = Ret (s, f') /\ usable f' /\ failed f' = false /\
      written f' = written f /\ delivered f' = delivered f;
}.

(** [unread f] are the bytes after the position of [f]: [Read] returns the first
    [n] of them, fewer only at the end of the file; [Skip] stops at the end.  The
    offsets of files are signed. *)
Class LawfulSequential (F : Type) {S : SequentialFile F} (unread : F -> list Z) : Prop := {
  read_unread f n result : 0 <= n ->
    exists f', Read f n result = Ret (status_ok, firstn (Z.to_nat n) (unread f), f') /\
      unread f' = skipn (Z.to_nat n) (unread f);
  skip_unread f n : 0 <= n < 2 ^ 63 ->
    exists f', Skip f n = Ret (status_ok, f') /\ unread f' = skipn (Z.to_nat n) (unread f);
}.

(** The message a status holds. *)
Definition joined (msg msg2 : list Z) : list Z :=
  msg ++ (if zlen msg2 =? 0 then [] else bytes_of ": " ++ msg2).

Lemma make_status_layout code msg msg2 :
  zlen msg + zlen msg2 + 2 < 2 ^ 32 ->
  make_status code msg msg2 =
  Some (le_split 4 (zlen (joined msg msg2)) ++ [code] ++ joined msg msg2).
Proof.
  intros Hl. pose proof (zlen_nonneg msg). pose proof (zlen_nonneg msg2).
  unfold make_status, raw_bytes, joined. rewrite !u32_zlen by lia.
  rewrite !firstn_zlen_self.
  destruct (Z.eqb_spec (zlen msg2) 0) as [E|E]; cbn [negb].
  - rewrite Z.add_0_r, app_nil_r. by rewrite u32_zlen by lia.
  - unfold u32 at 2. rewrite wrap_small by lia. unfold u32. rewrite wrap_small by lia.
    do 3 f_equal. by rewrite !zlen_app.
Qed.

(** The array behind a status: length, code, message. *)
Definition laid_out (code : Z) (msg : list Z) (state : list Z) : Prop :=
  state = le_split 4 (zlen msg) ++ [code] ++ msg /\ zlen msg < 2 ^ 32.

Lemma laid_out_length code msg state :
  laid_out code msg state -> le_combine (firstn 4 state) = zlen msg.
Proof.
  intros [-> Hl]. rewrite take_le_split, le_combine_split by done. apply Z.mod_small.
  pose proof (zlen_nonneg msg). cbn. lia.
Qed.

Lemma laid_out_code code msg state : laid_out code msg state -> byte_at state 4 = code.
Proof. by intros [-> _]. Qed.

Lemma laid_out_copy code msg state : laid_out code msg state -> CopyState state = state.
Proof.
  intros H. unfold CopyState. rewrite (laid_out_length _ _ _ H). destruct H as [-> Hl].
  apply firstn_all2. rewrite !length_app, length_le_split. unfold zlen. cbn [length]. lia.
Qed.

(** ** Theorem *)

(** Whatever the code and messages, a status made by the constructor is not ok,
    its queries give the code, copying it gives the same bytes, and [ToString]
    prints the name of the code and the messages joined by a colon. *)
Theorem status_represents code msg msg2 :
  kNotFound <= code <= kIOError -> zlen msg + zlen msg2 + 2 < 2 ^ 32 ->
  let s := make_status code msg msg2 in
  is_ok s = false /\ status_code s = code /\ copy_status s = s /\
  exists name, In (code, name)
      [(kNotFound, "NotFound: "%string); (kCorruption, "Corruption: "%string);
       (kNotSupported, "Not implemented: "%string); (kInvalidArgument, "Invalid argument: "%string);
       (kIOError, "IO error: "%string)] /\
    ToString s = Some (bytes_of name ++ joined msg msg2).
Proof.
  intros Hc Hl s. subst s. rewrite make_status_layout by done.
  assert (zlen (joined msg msg2) < 2 ^ 32) as Hj.
  { unfold joined. rewrite zlen_app. destruct (Z.eqb_spec (zlen msg2) 0); [rewrite zlen_nil; lia|].
    rewrite zlen_app. change (zlen (bytes_of ": ")) with 2. lia. }
  set (state := le_split 4 _ ++ _).
  assert (laid_out code (joined msg msg2) state) as Hlay by done.
  cbn [is_ok copy_status option_map status_code ToString].
  rewrite (laid_out_copy _ _ _ Hlay), (laid_out_code _ _ _ Hlay), (laid_out_length _ _ _ Hlay).
  split_and!; try done.
  assert (firstn (Z.to_nat (zlen (joined msg msg2))) (skipn 5 state) = joined msg msg2) as ->.
  { subst state. rewrite app_assoc, drop_app_length'; [|by rewrite length_app, length_le_split].
    apply firstn_zlen_self. }
  unfold kNotFound, kIOError in Hc.
  assert (code = 1 \/ code = 2 \/ code = 3 \/ code = 4 \/ code = 5) as [-> |[-> |[-> |[-> | ->]]]] by lia;
    eexists; (split; [by auto 10 using in_eq, in_cons|done]).
Qed.
