(* ===== verification/LdbEnvPosix.v ===== *)
(** * LevelDB: the POSIX files (util/env_posix.cc)

    [PosixSequentialFile] and [PosixWritableFile] over system calls that are
    parameters: the class [PosixOS] of the calls, and the classes of what the
    files rely on.  The two are instances of the file interfaces, and under the
    hypotheses on the calls they satisfy the laws the log needs: a write error is
    permanent, interruptions are finitely many, a read is short only at the end. *)
From S2P Require Import Prelude.
From S2P Require Import LdbCoding LdbStatus.
From Stdlib Require Import ZArith Lia.
From stdpp Require Import base tactics numbers list strings.
#[local] Open Scope Z_scope.

(** ** System calls *)

(** [errno] values (the same on Linux and Apple systems). *)
Definition ENOENT : Z := 2.
Definition EINTR : Z := 4.
Definition EINVAL : Z := 22.

(** The calls on the state of the system; [inl] is a negative result with its
    [errno].  [interrupts] bounds how often calls will still be interrupted. *)
Class PosixOS (O : Type) : Type := {
  sys_read : O -> Z -> Z -> (Z + list Z) * O;
  sys_pread : O -> Z -> Z -> Z -> (Z + list Z) * O;
  sys_write : O -> Z -> list Z -> (Z + Z) * O;
  sys_lseek_cur : O -> Z -> Z -> (Z + Z) * O;
  sys_open_rdonly : O -> list Z -> (Z + Z) * O;
  sys_close : O -> Z -> option Z * O;
  sys_fullfsync : O -> Z -> option Z * O;
  sys_fsync : O -> Z -> option Z * O;
  sys_strerror : Z -> list Z;
  interrupts : O -> nat;
}.

Section Posix.
Context {O : Type} {OS : PosixOS O}.

Definition PosixError (context : list Z) (error_number : Z) : Status :=
  if error_number =? ENOENT then NotFound context (sys_strerror error_number)
  else IOError context (sys_strerror error_number).

(** ** Sequential files *)

Record PosixSequentialFile := mk_sequential { seq_fd_ : Z; seq_filename_ : list Z }.

(** [Read]; the loop retries interrupted calls. *)
Definition posix_read (f : PosixSequentialFile) (os : O) (n : Z) (result : list Z)
    : res (Status * list Z * O) :=
  loop (S (interrupts os)) (fun os =>
    match sys_read os (seq_fd_ f) n with
    | (inl errno, os) =>
        if errno =? EINTR then Ret (inl os)
        else Ret (inr (PosixError (seq_filename_ f) errno, result, os))
    | (inr bytes, os) => Ret (inr (status_ok, bytes, os))
    end) os.

(** [lseek(fd_, n, SEEK_CUR)]: [n] is converted to the signed [off_t]. *)
Definition posix_skip (f : PosixSequentialFile) (os : O) (n : Z) : res (Status * O) :=
  match sys_lseek_cur os (seq_fd_ f) (swrap 64 n) with
  | (inl errno, os) => Ret (PosixError (seq_filename_ f) errno, os)
  | (inr _, os) => Ret (status_ok, os)
  end.

(** The members are constant, so the state of the file is that of the system. *)
Definition posix_sequential_file (f : PosixSequentialFile) : SequentialFile O :=
  {| Read := posix_read f; Skip := posix_skip f |}.

(** ** Random access *)

(** [PosixRandomAccessFile]: without a permanent descriptor the file is opened
    for every read.  [*result] is null and the status an error when the read
    fails, or [*result] is left alone when the file cannot be opened. *)
Record PosixRandomAccessFile := mk_random { has_permanent_fd_ : bool; rand_fd_ : Z; rand_filename_ : list Z }.

(** The constructor takes the answer of the limiter, and closes the descriptor
    it may not keep. *)
Definition new_random_access (os : O) (filename : list Z) (fd : Z) (acquired : bool)
    : PosixRandomAccessFile * O :=
  if acquired then (mk_random true fd filename, os)
  else (mk_random false (-1) filename, snd (sys_close os fd)).

Definition random_read (os : O) (f : PosixRandomAccessFile) (offset n : Z) (result : list Z)
    : res (Status * list Z * O) :=
  let opened :=
    if negb (has_permanent_fd_ f) then sys_open_rdonly os (rand_filename_ f) else (inr (rand_fd_ f), os) in
  match opened with
  | (inl errno, os) => Ret (PosixError (rand_filename_ f) errno, result, os)
  | (inr fd, os) =>
      let! _ := assert_ (negb (fd =? -1)) in
      let (read, os) := sys_pread os fd n (swrap 64 offset) in
      let (status, result) :=
        match read with
        | inl errno => (PosixError (rand_filename_ f) errno, [])
        | inr bytes => (status_ok, bytes)
        end in
      if negb (has_permanent_fd_ f) then
        let! _ := assert_ (negb (fd =? rand_fd_ f)) in
        Ret (status, result, snd (sys_close os fd))
      else Ret (status, result, os)
  end.

(** [PosixMmapReadableFile]: the mapped bytes. *)
Record PosixMmapReadableFile := mk_mmap { mmap_base_ : list Z; mmap_filename_ : list Z }.

Definition mmap_read (f : PosixMmapReadableFile) (offset n : Z) : Status * list Z :=
  if u64 (offset + n) >? zlen (mmap_base_ f) then (PosixError (mmap_filename_ f) EINVAL, [])
  else (status_ok, firstn (Z.to_nat n) (skipn (Z.to_nat offset) (mmap_base_ f))).

(** ** Writable files *)

Definition kWritableFileBufferSize : Z := 65536.

(** [buf_] holds the bytes given to it so far, of which [pos_] count. *)
Record PosixWritableFile := mk_writable {
  buf_ : list Z;
  pos_ : Z;
  fd_ : Z;
  is_manifest_ : bool;
  filename_ : list Z;
  dirname_ : list Z;
}.

Definition set_buf (f : PosixWritableFile) (buf : list Z) (pos : Z) : PosixWritableFile :=
  mk_writable buf pos (fd_ f) (is_manifest_ f) (filename_ f) (dirname_ f).
Definition set_fd (f : PosixWritableFile) (fd : Z) : PosixWritableFile :=
  mk_writable (buf_ f) (pos_ f) fd (is_manifest_ f) (filename_ f) (dirname_ f).

(** What follows the last separator, and what comes before it. *)
Fixpoint after_last (c : Z) (s : list Z) : option (list Z * list Z) :=
  match s with
  | [] => None
  | x :: s =>
      match after_last c s with
      | Some (before, after) => Some (x :: before, after)
      | None => if x =? c then Some ([], s) else None
      end
  end.

(** The character [/]. *)
Definition slash : Z := 47.

Definition Dirname (filename : list Z) : list Z :=
  match after_last slash filename with
  | None => bytes_of "."
  | Some (before, _) => before
  end.

Definition Basename (filename : list Z) : list Z :=
  match after_last slash filename with
  | None => filename
  | Some (_, after) => after
  end.

Definition starts_with (s x : list Z) : bool := bool_decide (x `prefix_of` s).

Definition IsManifest (filename : list Z) : bool := starts_with (Basename filename) (bytes_of "MANIFEST").

Definition new_writable (filename : list Z) (fd : Z) : PosixWritableFile :=
  mk_writable [] 0 fd (IsManifest filename) filename (Dirname filename).

(** [memcpy(buf_ + pos, data, size)]: undefined past the end of [buf_]. *)
Definition copy_to_buf (buf : list Z) (pos : Z) (data : list Z) : res (list Z) :=
  if pos + zlen data <=? kWritableFileBufferSize then
    Ret (firstn (Z.to_nat pos) buf ++ data ++ skipn (Z.to_nat (pos + zlen data)) buf)
  else UB.

(** Every round of the loop writes a byte or is interrupted. *)
Definition WriteUnbuffered (os : O) (f : PosixWritableFile) (data : list Z) : res (Status * O) :=
  loop (S (length data + interrupts os)) (fun '(os, data) =>
    if zlen data >? 0 then
      match sys_write os (fd_ f) data with
      | (inl errno, os) =>
          if errno =? EINTR then Ret (inl (os, data))
          else Ret (inr (PosixError (filename_ f) errno, os))
      | (inr write_result, os) => Ret (inl (os, skipn (Z.to_nat write_result) data))
      end
    else Ret (inr (status_ok, os))) (os, data).

Definition FlushBuffer (os : O) (f : PosixWritableFile) : res (Status * (O * PosixWritableFile)) :=
  let! (status, os) := WriteUnbuffered os f (firstn (Z.to_nat (pos_ f)) (buf_ f)) in
  Ret (status, (os, set_buf f (buf_ f) 0)).

Definition posix_append (st : O * PosixWritableFile) (data : list Z) : res (Status * (O * PosixWritableFile)) :=
  let (os, f) := st in
  let copy_size := Z.min (zlen data) (kWritableFileBufferSize - pos_ f) in
  let! buf := copy_to_buf (buf_ f) (pos_ f) (firstn (Z.to_nat copy_size) data) in
  let write_data := skipn (Z.to_nat copy_size) data in
  let write_size := zlen data - copy_size in
  let f := set_buf f buf (pos_ f + copy_size) in
  if write_size =? 0 then Ret (status_ok, (os, f))
  else
    let! (status, (os, f)) := FlushBuffer os f in
    if negb (is_ok status) then Ret (status, (os, f))
    else if write_size <? kWritableFileBufferSize then
      let! buf := copy_to_buf (buf_ f) 0 write_data in
      Ret (status_ok, (os, set_buf f buf write_size))
    else
      let! (status, os) := WriteUnbuffered os f write_data in
      Ret (status, (os, f)).

(** [SyncFd] of a build with HAVE_FULLFSYNC and without HAVE_FDATASYNC. *)
Definition SyncFd (os : O) (fd : Z) (fd_path : list Z) : Status * O :=
  match sys_fullfsync os fd with
  | (None, os) => (status_ok, os)
  | (Some _, os) =>
      match sys_fsync os fd with
      | (None, os) => (status_ok, os)
      | (Some errno, os) => (PosixError fd_path errno, os)
      end
  end.

Definition SyncDirIfManifest (os : O) (f : PosixWritableFile) : Status * O :=
  if negb (is_manifest_ f) then (status_ok, os)
  else
    match sys_open_rdonly os (dirname_ f) with
    | (inl errno, os) => (PosixError (dirname_ f) errno, os)
    | (inr fd, os) =>
        let (status, os) := SyncFd os fd (dirname_ f) in
        (status, snd (sys_close os fd))
    end.

Definition posix_sync (st : O * PosixWritableFile) : res (Status * (O * PosixWritableFile)) :=
  let (os, f) := st in
  let (status, os) := SyncDirIfManifest os f in
  if negb (is_ok status) then Ret (status, (os, f))
  else
    let! (status, (os, f)) := FlushBuffer os f in
    if negb (is_ok status) then Ret (status, (os, f))
    else
      let (status, os) := SyncFd os (fd_ f) (filename_ f) in
      Ret (status, (os, f)).

Definition posix_close (st : O * PosixWritableFile) : res (Status * (O * PosixWritableFile)) :=
  let (os, f) := st in
  let! (status, (os, f)) := FlushBuffer os f in
  let (close_result, os) := sys_close os (fd_ f) in
  let status :=
    match close_result with
    | Some errno => if is_ok status then PosixError (filename_ f) errno else status
    | None => status
    end in
  Ret (status, (os, set_fd f (-1))).

#[export] Instance posix_writable_file : WritableFile (O * PosixWritableFile) :=
  {| Append := posix_append; Close := posix_close;
     Flush := fun st => let (os, f) := st in FlushBuffer os f; Sync := posix_sync |}.

End Posix.

(** ** What the files rely on *)

(** [contents os] are the bytes of the file open at [fd] for appending, and
    [broken os] whether a write to it has failed.  A write of some bytes appends
    at least one of them, is interrupted, or fails for good. *)
Class AppendOnly (O : Type) {OS : PosixOS O} (fd : Z) (contents : O -> list Z) (broken : O -> bool) : Prop := {
  write_spec os data result os' : data <> [] -> sys_write os fd data = (result, os') ->
    match result with
    | inr n =>
        broken os = false /\ broken os' = false /\ 0 < n <= zlen data /\
        contents os' = contents os ++ firstn (Z.to_nat n) data /\ (interrupts os' <= interrupts os)%nat
    | inl errno =>
        contents os' = contents os /\
        if errno =? EINTR then broken os' = broken os /\ (interrupts os' < interrupts os)%nat
        else broken os' = true
    end;
}.

(** [unread os] are the bytes after the position of the file open at [fd] for
    reading: a read returns as many as it is asked for and there are. *)
Class ReadOnly (O : Type) {OS : PosixOS O} (fd : Z) (unread : O -> list Z) : Prop := {
  read_spec os n result os' : 0 <= n -> sys_read os fd n = (result, os') ->
    match result with
    | inr bytes => bytes = firstn (Z.to_nat n) (unread os) /\ unread os' = skipn (Z.to_nat n) (unread os)
    | inl errno => errno = EINTR /\ unread os' = unread os /\ (interrupts os' < interrupts os)%nat
    end;
  lseek_spec os n : 0 <= n < 2 ^ 63 ->
    exists o os', sys_lseek_cur os fd n = (inr o, os') /\ unread os' = skipn (Z.to_nat n) (unread os);
}.

(** ** The laws of the file interfaces *)

Section PosixLaws.
Context {O : Type} {OS : PosixOS O}.

Lemma firstn_app_skipn {A} n (l r : list A) : l ++ firstn n r ++ skipn n r = l ++ r.
Proof. by rewrite firstn_skipn. Qed.

Section Writing.
Context {fd : Z} {contents : O -> list Z} {broken : O -> bool} {AO : AppendOnly O fd contents broken}.

(** What is left to write of [data], from the state [os]. *)
Definition writing (os : O) (data : list Z) (st : O * list Z) : Prop :=
  let (os1, d1) := st in
  exists done, data = done ++ d1 /\ contents os1 = contents os ++ done /\ broken os1 = broken os /\
    (done <> [] -> broken os = false).

Definition wrote (os : O) (data : list Z) (r : Status * O) : Prop :=
  let (s, os') := r in
  contents os `prefix_of` contents os' /\
  if is_ok s then contents os' = contents os ++ data /\ broken os' = broken os /\ (data <> [] -> broken os = false)
  else broken os' = true /\ contents os' `prefix_of` contents os ++ data /\
       (broken os = true -> contents os' = contents os).

Lemma PosixError_not_ok context errno : is_ok (PosixError context errno) = false.
Proof. unfold PosixError. by destruct (_ =? _). Qed.

Lemma WriteUnbuffered_wrote os f data :
  fd_ f = fd -> exists r, WriteUnbuffered os f data = Ret r /\ wrote os data r.
Proof.
  intros Hfd. unfold WriteUnbuffered.
  apply (loop_total (writing os data) (fun '(os, d) => length d + interrupts os)%nat); [| |lia].
  2: { exists []. by rewrite app_nil_r. }
  intros [os1 d1] (done & -> & Hc & Hb & Hd). destruct (Z.gtb_spec (zlen d1) 0) as [Hpos|Hz].
  2: { assert (d1 = []) as -> by (destruct d1; [done|rewrite zlen_cons in Hz; pose proof (zlen_nonneg d1); lia]).
       eexists. split; [done|]. cbn [wrote is_ok status_ok]. rewrite app_nil_r, Hc.
       split; [by eexists|]. by rewrite Hb. }
  rewrite Hfd. destruct (sys_write os1 fd d1) as [result os2] eqn:E.
  assert (d1 <> []) as Hne by (intros ->; done).
  pose proof (write_spec os1 d1 result os2 Hne E) as H. destruct result as [errno|n].
  - destruct H as [Hc2 H]. destruct (Z.eqb_spec errno EINTR).
    + eexists. split; [done|]. destruct H as [Hb2 Hi]. split; [|lia]. exists done.
      split_and!; [done|congruence|congruence|done].
    + eexists. split; [done|]. cbn [wrote]. rewrite PosixError_not_ok, Hc2, Hc. split; [by eexists|].
      split; [done|]. split; [rewrite app_assoc; by eexists|].
      intros Hbr. destruct done; [by rewrite app_nil_r|]. by rewrite Hd in Hbr.
  - destruct H as (Hb1 & Hb2 & Hn & Hc2 & Hi). eexists. split; [done|]. split.
    + exists (done ++ firstn (Z.to_nat n) d1). split_and!; [|by rewrite Hc2, Hc, app_assoc|congruence|congruence].
      by rewrite <- app_assoc, firstn_skipn.
    + rewrite length_drop. unfold zlen in *. lia.
Qed.

Definition posix_usable (st : O * PosixWritableFile) : Prop :=
  let (_, f) := st in
  0 <= pos_ f <= kWritableFileBufferSize /\ pos_ f <= zlen (buf_ f) /\ fd_ f = fd.

(** The bytes in the buffer. *)
Definition buffered (f : PosixWritableFile) : list Z := firstn (Z.to_nat (pos_ f)) (buf_ f).

Definition posix_written (st : O * PosixWritableFile) : list Z :=
  let (os, f) := st in if broken os then contents os else contents os ++ buffered f.
Definition posix_delivered (st : O * PosixWritableFile) : list Z := contents (fst st).
Definition posix_failed (st : O * PosixWritableFile) : bool := broken (fst st).
Definition posix_dirty (st : O * PosixWritableFile) : bool := 0 <? pos_ (snd st).

Lemma FlushBuffer_wrote os f :
  posix_usable (os, f) ->
  exists s os', FlushBuffer os f = Ret (s, (os', set_buf f (buf_ f) 0)) /\ wrote os (buffered f) (s, os').
Proof.
  intros (Hp & Hl & Hfd). unfold FlushBuffer.
  destruct (WriteUnbuffered_wrote os f (buffered f) Hfd) as ([s os'] & E & H). unfold buffered in *. rewrite E.
  by exists s, os'.
Qed.

Lemma usable_empty os f buf : posix_usable (os, f) -> posix_usable (os, set_buf f buf 0).
Proof. intros (Hp & Hl & Hfd). unfold kWritableFileBufferSize. split_and!; cbn; try done. apply zlen_nonneg. Qed.

Lemma posix_flush_spec st :
  posix_usable st -> exists s st', Flush st = Ret (s, st') /\ posix_usable st' /\
    posix_delivered st `prefix_of` posix_delivered st' /\
    if posix_failed st then
      posix_failed st' = true /\ posix_written st' = posix_written st /\ (posix_dirty st = true -> is_ok s = false)
    else posix_failed st' = negb (is_ok s) /\
      if is_ok s then posix_written st' = posix_written st /\ posix_delivered st' = posix_written st
      else posix_written st' `prefix_of` posix_written st.
Proof.
  destruct st as [os f]. intros Hu. destruct (FlushBuffer_wrote os f Hu) as (s & os' & E & Hpre & H).
  exists s, (os', set_buf f (buf_ f) 0). split; [exact E|]. split; [by apply (usable_empty os)|].
  split; [done|]. unfold posix_failed, posix_written, posix_delivered, posix_dirty. cbn [fst snd].
  assert (buffered (set_buf f (buf_ f) 0) = []) as -> by done. rewrite app_nil_r.
  destruct (broken os) eqn:Eb; destruct (is_ok s) eqn:Es.
  - destruct H as (Hc & -> & Hne). assert (buffered f = []) as Hn by (destruct (buffered f); [done|by discriminate Hne]).
    rewrite Hn, app_nil_r in Hc. split_and!; [done|done|]. intros Hd%Z.ltb_lt. exfalso.
    apply (f_equal length) in Hn. unfold buffered in Hn. rewrite length_take in Hn. cbn in Hn.
    destruct Hu as (_ & Hl & _). unfold zlen in Hl. lia.
  - destruct H as (-> & _ & Hc). by rewrite Hc.
  - destruct H as (Hc & -> & _). by rewrite Hc.
  - destruct H as (-> & Hp & _). done.
Qed.

Lemma copy_to_buf_fits buf pos data :
  0 <= pos <= zlen buf -> pos + zlen data <= kWritableFileBufferSize ->
  exists buf', copy_to_buf buf pos data = Ret buf' /\ pos + zlen data <= zlen buf' /\
    firstn (Z.to_nat (pos + zlen data)) buf' = firstn (Z.to_nat pos) buf ++ data.
Proof.
  intros Hp Hfit. unfold copy_to_buf. destruct (Z.leb_spec (pos + zlen data) kWritableFileBufferSize); [|lia].
  eexists. split; [done|]. unfold zlen in *. split.
  - rewrite !length_app, length_take, length_drop. lia.
  - rewrite app_assoc. apply take_app_length'. rewrite length_app, length_take. lia.
Qed.

Lemma posix_append_spec st data :
  posix_usable st -> exists s st', Append st data = Ret (s, st') /\ posix_usable st' /\
    posix_delivered st `prefix_of` posix_delivered st' /\
    if posix_failed st then
      posix_failed st' = true /\ posix_written st' = posix_written st /\
      (is_ok s = true -> data <> [] \/ posix_dirty st = true -> posix_dirty st' = true)
    else posix_failed st' = negb (is_ok s) /\
      if is_ok s then posix_written st' = posix_written st ++ data
      else posix_written st' `prefix_of` posix_written st ++ data.
Proof.
  destruct st as [os f]. intros (Hp & Hl & Hfd). unfold Append, posix_writable_file, posix_append.
  pose proof (zlen_nonneg data) as Hd. set (n := Z.min (zlen data) (kWritableFileBufferSize - pos_ f)).
  assert (0 <= n <= zlen data /\ pos_ f + n <= kWritableFileBufferSize /\
          (n = zlen data \/ pos_ f + n = kWritableFileBufferSize)) as (Hn & Hfit & Hor) by lia.
  set (now := firstn (Z.to_nat n) data). set (later := skipn (Z.to_nat n) data).
  assert (zlen now = n) as En by (unfold now, zlen in *; rewrite length_take; lia).
  assert (zlen later = zlen data - n) as El by (unfold later, zlen in *; rewrite length_drop; lia).
  assert (data = now ++ later) as Ed by (unfold now, later; by rewrite firstn_skipn).
  assert (forall l, l ++ data = l ++ now ++ later) as Eapp by (intros l; by rewrite <- Ed).
  destruct (copy_to_buf_fits (buf_ f) (pos_ f) now) as (buf & -> & Hlb & Eb); [lia|lia|]. cbn [rbind].
  rewrite En in *. set (f1 := set_buf f buf (pos_ f + n)).
  assert (posix_usable (os, f1)) as Hu1 by (split_and!; cbn; lia || done).
  assert (buffered f1 = buffered f ++ now) as Ebuf by done.
  destruct (Z.eqb_spec (zlen data - n) 0) as [E0|E0].
  { (* everything fits the buffer *)
    exists status_ok, (os, f1). split; [done|]. split; [done|]. split; [done|].
    assert (later = []) as Elat by (destruct later; [done|rewrite zlen_cons in El; pose proof (zlen_nonneg later); lia]).
    rewrite Elat, app_nil_r in Ed. unfold posix_failed, posix_written, posix_dirty. cbn [fst snd is_ok status_ok negb].
    destruct (broken os).
    - split_and!; [done|done|]. intros _ Hor'. apply Z.ltb_lt. cbn [pos_ set_buf f1].
      destruct Hor' as [Hne|Hdirty%Z.ltb_lt]; [|lia].
      assert (0 < zlen data) by (destruct data; [done|rewrite zlen_cons; pose proof (zlen_nonneg data); lia]). lia.
    - split; [done|]. rewrite Ebuf, app_assoc. by rewrite <- Ed. }
  destruct (FlushBuffer_wrote os f1 Hu1) as (s & os' & -> & Hpre & H). cbn [rbind].
  assert (buffered f1 <> []) as Hne.
  { intros E%(f_equal length). unfold buffered in E. rewrite length_take in E. cbn [buf_ pos_ set_buf f1] in E.
    unfold zlen, kWritableFileBufferSize in *. cbn in E. lia. }
  set (f2 := set_buf f1 (buf_ f1) 0). assert (buffered f2 = []) as E2 by done.
  unfold posix_failed, posix_written, posix_delivered, posix_dirty.
  destruct (is_ok s) eqn:Es; cbn [negb].
  2: { (* the buffer could not be written *)
    exists s, (os', f2). split; [done|]. split; [by apply (usable_empty os)|]. split; [done|]. cbn [fst snd].
    rewrite E2, Es. destruct H as (-> & Hp' & Hbr). destruct (broken os); [by rewrite Hbr|]. split; [done|].
    trans (contents os ++ buffered f1); [done|]. rewrite Ebuf, app_assoc. rewrite Eapp. rewrite app_assoc.
    by apply prefix_app_r. }
  destruct H as (Hc & Hb' & Hnb). specialize (Hnb Hne). rewrite Hnb in Hb'. cbn [fst snd]. rewrite Hnb.
  destruct (Z.ltb_spec (zlen data - n) kWritableFileBufferSize).
  - (* the rest goes to the buffer *)
    destruct (copy_to_buf_fits (buf_ f2) 0 later) as (buf2 & -> & Hlb2 & Eb2); [pose proof (zlen_nonneg (buf_ f2)); lia|lia|].
    cbn [rbind]. exists status_ok, (os', set_buf f2 buf2 (zlen data - n)). split; [done|].
    rewrite Z.add_0_l, El in *. split; [split_and!; cbn; lia || done|]. split; [done|]. cbn [fst is_ok status_ok].
    rewrite Hb'. split; [done|]. rewrite Hc. unfold buffered at 2. cbn [pos_ buf_ set_buf]. rewrite Eb2.
    cbn [Z.to_nat firstn app]. rewrite Ebuf. rewrite Eapp. by rewrite <- !app_assoc.
  - destruct (WriteUnbuffered_wrote os' f2 later Hfd) as ([s2 os2] & -> & Hpre2 & H2). cbn [rbind].
    exists s2, (os2, f2). split; [done|]. split; [by apply (usable_empty os)|]. split; [by trans (contents os')|].
    cbn [fst]. rewrite E2, app_nil_r. destruct (is_ok s2) eqn:Es2.
    + destruct H2 as (Hc2 & -> & _). rewrite Hb', Hc2, Hc. split; [done|]. rewrite Ebuf. rewrite Eapp.
      by rewrite <- !app_assoc.
    + destruct H2 as (-> & Hp2 & _). split; [done|]. trans (contents os' ++ later); [done|].
      rewrite Hc, Ebuf. rewrite Eapp. by rewrite <- !app_assoc.
Qed.

(** The POSIX file keeps the promises the log relies on. *)
#[export] Instance posix_fail_stop :
  FailStop (O * PosixWritableFile) posix_usable posix_written posix_delivered posix_failed posix_dirty.
Proof.
  split.
  - intros st data. apply posix_append_spec.
  - intros st. apply posix_flush_spec.
  - intros [os f] _. unfold posix_delivered, posix_written. cbn [fst].
    destruct (broken os); [done|by eexists].
Qed.

(** Synchronising is nothing a crash of the process would show. *)
Class QuietSync (O : Type) {OS : PosixOS O} (contents : O -> list Z) (broken : O -> bool) : Prop := {
  fullfsync_quiet os d : contents (snd (sys_fullfsync os d)) = contents os /\ broken (snd (sys_fullfsync os d)) = broken os;
  fsync_quiet os d : contents (snd (sys_fsync os d)) = contents os /\ broken (snd (sys_fsync os d)) = broken os;
  open_quiet os path : contents (snd (sys_open_rdonly os path)) = contents os /\ broken (snd (sys_open_rdonly os path)) = broken os;
  close_quiet os d : contents (snd (sys_close os d)) = contents os /\ broken (snd (sys_close os d)) = broken os;
}.

Section Syncing.
Context {QS : QuietSync O contents broken}.

Lemma SyncFd_quiet os d path : contents (snd (SyncFd os d path)) = contents os /\ broken (snd (SyncFd os d path)) = broken os.
Proof.
  unfold SyncFd. pose proof (fullfsync_quiet os d) as H. destruct (sys_fullfsync os d) as [[e|] os1]; [|done].
  cbn [snd] in H. pose proof (fsync_quiet os1 d) as H2. destruct (sys_fsync os1 d) as [[e2|] os2]; cbn [snd] in *; split; intuition congruence.
Qed.

Lemma SyncDirIfManifest_quiet os f :
  contents (snd (SyncDirIfManifest os f)) = contents os /\ broken (snd (SyncDirIfManifest os f)) = broken os.
Proof.
  unfold SyncDirIfManifest. destruct (negb _); [done|]. pose proof (open_quiet os (dirname_ f)) as H.
  destruct (sys_open_rdonly os (dirname_ f)) as [[e|d] os1]; cbn [snd] in H |- *; [done|].
  pose proof (SyncFd_quiet os1 d (dirname_ f)) as H2. destruct (SyncFd os1 d (dirname_ f)) as [s os2]. cbn [snd] in *.
  pose proof (close_quiet os2 d) as H3. split; intuition congruence.
Qed.

#[export] Instance posix_harmless_sync :
  HarmlessSync (O * PosixWritableFile) posix_usable posix_written posix_delivered posix_failed.
Proof.
  split. intros [os f] Hu Hf Hd. unfold posix_delivered, posix_written, posix_failed in *. cbn [fst snd Sync posix_writable_file] in *.
  rewrite Hf in Hd. assert (buffered f = []) as Hb by (apply (app_inv_head (contents os)); rewrite <- Hd; by rewrite app_nil_r).
  unfold posix_sync. pose proof (SyncDirIfManifest_quiet os f) as [Q1 Q2]. destruct (SyncDirIfManifest os f) as [s os1]. cbn [snd] in *.
  destruct (is_ok s); cbn [negb].
  2: { exists s, (os1, f). cbn [fst]. rewrite Q2, Hf, Hb, !app_nil_r. by split_and!. }
  assert (FlushBuffer os1 f = Ret (status_ok, (os1, set_buf f (buf_ f) 0))) as ->.
  { unfold FlushBuffer. fold (buffered f). rewrite Hb. unfold WriteUnbuffered. rewrite loop_unfold. done. }
  cbn [rbind is_ok status_ok negb]. pose proof (SyncFd_quiet os1 (fd_ (set_buf f (buf_ f) 0)) (filename_ (set_buf f (buf_ f) 0))) as [Q3 Q4].
  destruct (SyncFd os1 _ _) as [s2 os2]. cbn [snd] in *. eexists s2, (os2, _). split; [done|]. cbn [fst].
  split; [by apply (usable_empty os)|]. rewrite Q4, Q2, Hf, Hb, Q3, Q1. split_and!; [done| |done]. done.
Qed.

End Syncing.

End Writing.

Section Reading.
Context (f : PosixSequentialFile) {unread : O -> list Z} {RO : ReadOnly O (seq_fd_ f) unread}.

(** The POSIX file reads as the log expects. *)
Lemma posix_lawful_sequential : LawfulSequential O (S := posix_sequential_file f) unread.
Proof.
  split; intros os n; [intros result|]; intros Hn; cbn [Read Skip posix_sequential_file].
  - unfold posix_read.
    edestruct (loop_total (fun os1 => unread os1 = unread os) interrupts
      (fun r => exists os', r = (status_ok, firstn (Z.to_nat n) (unread os), os') /\
         unread os' = skipn (Z.to_nat n) (unread os))) as (r & E & os' & -> & Hu);
      [| | |exists os'; split; [exact E|done]].
    + intros os1 Hu. destruct (sys_read os1 (seq_fd_ f) n) as [x os2] eqn:E.
      pose proof (read_spec os1 n x os2 Hn E) as H. destruct x as [errno|bytes].
      * destruct H as (-> & Hu2 & Hi). exists (inl os2). rewrite E. split; [done|]. split; [congruence|lia].
      * destruct H as [-> Hu2]. rewrite Hu in *. rewrite E. eexists. split; [done|]. by exists os2.
    + done.
    + lia.
  - unfold posix_skip. rewrite swrap_small by (cbn; lia).
    destruct (lseek_spec os n Hn) as (o & os' & -> & Hu). by exists os'.
Qed.

End Reading.
End PosixLaws.
