(* ===== verification/LdbLogWriter.v ===== *)
(** * LevelDB: the log format and its writer (db/log_format.h, db/log_writer.cc)

    A log is a sequence of 32 KB blocks; a record is cut into fragments, each
    with a header of checksum, length and type, and no header is split over two
    blocks.  [AddRecord] is shown never to fail an assertion, to end, and to give
    the file exactly a fragmentation of the record, or a part of it when the file
    fails; and on a file that fails once, on the trailer of a block, not to notice. *)
From S2P Require Import Prelude.
From S2P Require Import LdbCoding.
From S2P Require Import LdbCrc32c.
From S2P Require Import LdbStatus.
From Stdlib Require Import ZArith Lia.
From stdpp Require Import base tactics numbers list.
#[local] Open Scope Z_scope.

(** ** The format *)

Definition kZeroType : Z := 0.
Definition kFullType : Z := 1.
Definition kFirstType : Z := 2.
Definition kMiddleType : Z := 3.
Definition kLastType : Z := 4.
Definition kMaxRecordType : Z := kLastType.
Definition kBlockSize : Z := 32768.
Definition kHeaderSize : Z := 4 + 2 + 1.

(** ** The writer *)

(** The destination file, the offset in the current block, and the checksums of
    the one-byte strings of the types. *)
Record Writer (F : Type) := mk_writer { dest_ : F; block_offset_ : Z; type_crc_ : list Z }.
Arguments mk_writer {F} dest_ block_offset_ type_crc_.
Arguments dest_ {F} w : rename.
Arguments block_offset_ {F} w : rename.
Arguments type_crc_ {F} w : rename.

(** [crc32c::Value] and [crc32c::Extend], at whatever addresses the buffers have. *)
Section Writer.
Context {F : Type} {W : WritableFile F}.
Context (Value : list Z -> Z) (Extend : Z -> list Z -> Z).

Definition InitTypeCrc : list Z :=
  map (fun i => Value [Z.of_nat i]) (seq 0 (Z.to_nat (kMaxRecordType + 1))).

(** [Writer(dest)] and [Writer(dest, dest_length)]. *)
Definition new_writer (dest : F) : Writer F := mk_writer dest 0 InitTypeCrc.

Definition reopen_writer (dest : F) (dest_length : Z) : Writer F :=
  mk_writer dest (dest_length mod kBlockSize) InitTypeCrc.

Definition EmitPhysicalRecord (w : Writer F) (t : Z) (ptr : list Z) (length : Z) : res (Status * Writer F) :=
  let! _ := assert_ (length <=? 0xffff) in
  let! _ := assert_ (block_offset_ w + kHeaderSize + length <=? kBlockSize) in
  let data := firstn (Z.to_nat length) ptr in
  let crc := Extend (entry (type_crc_ w) t) data in
  let crc := Mask crc in
  let buf := EncodeFixed32 crc ++ [u8 (Z.land length 0xff); u8 (Z.shiftr length 8); u8 t] in
  let! (s, dest) := Append (dest_ w) buf in
  let! (s, dest) :=
    if is_ok s then
      let! (s, dest) := Append dest data in
      if is_ok s then Flush dest else Ret (s, dest)
    else Ret (s, dest) in
  Ret (s, mk_writer dest (block_offset_ w + (kHeaderSize + length)) (type_crc_ w)).

(** The start of a round: switch to a new block when the header does not fit,
    after filling the trailer.  The status of that [Append] is not looked at. *)
Definition switch_block (w : Writer F) : res (Writer F) :=
  let leftover := kBlockSize - block_offset_ w in
  let! _ := assert_ (leftover >=? 0) in
  if leftover <? kHeaderSize then
    let! dest :=
      if leftover >? 0 then
        let! (_, dest) := Append (dest_ w) (repeat 0 (Z.to_nat leftover)) in Ret dest
      else Ret (dest_ w) in
    Ret (mk_writer dest 0 (type_crc_ w))
  else Ret w.

Definition record_type (begin last : bool) : Z :=
  if begin && last then kFullType
  else if begin then kFirstType
  else if last then kLastType
  else kMiddleType.

(** One round of the [do] loop of [AddRecord]. *)
Definition add_fragment (st : Writer F * list Z * Z * bool)
    : res (Writer F * list Z * Z * bool + Status * Writer F) :=
  let '(w, ptr, left_, begin) := st in
  let! w := switch_block w in
  let! _ := assert_ (kBlockSize - block_offset_ w - kHeaderSize >=? 0) in
  let avail := kBlockSize - block_offset_ w - kHeaderSize in
  let fragment_length := if left_ <? avail then left_ else avail in
  let last := left_ =? fragment_length in
  let type := record_type begin last in
  let! (s, w) := EmitPhysicalRecord w type ptr fragment_length in
  let ptr := skipn (Z.to_nat fragment_length) ptr in
  let left_ := left_ - fragment_length in
  if is_ok s && (left_ >? 0) then Ret (inl (w, ptr, left_, false)) else Ret (inr (s, w)).

(** Every round but the first, if the header just fits, takes a byte. *)
Definition AddRecord (w : Writer F) (slice : list Z) : res (Status * Writer F) :=
  loop (2 + length slice) add_fragment (w, slice, zlen slice, true).

End Writer.

(** ** Specification *)

(** Where the next header goes from offset [off], and the trailer before it. *)
Definition header_start (off : Z) : Z := if kBlockSize - off <? kHeaderSize then 0 else off.

Definition trailer (off : Z) : list Z :=
  if kBlockSize - off <? kHeaderSize then repeat 0 (Z.to_nat (kBlockSize - off)) else [].

Section Format.
Context (Value : list Z -> Z).

(** A physical record: checksum of type and data, length, type, data. *)
Definition header_bytes (t : Z) (data : list Z) : list Z :=
  EncodeFixed32 (Mask (Value (t :: data))) ++ [zlen data mod 256; zlen data / 256; t].

Definition physical_record (t : Z) (data : list Z) : list Z := header_bytes t data ++ data.

(** [fragmented off begin data bytes off']: from offset [off] in a block, [bytes]
    is a fragmentation of [data], in several records unless it fits the block,
    and ends at offset [off'].  [begin] tells whether [data] starts the record. *)
Inductive fragmented : Z -> bool -> list Z -> list Z -> Z -> Prop :=
| last_fragment off begin data :
    header_start off + kHeaderSize + zlen data <= kBlockSize ->
    fragmented off begin data
      (trailer off ++ physical_record (record_type begin true) data)
      (header_start off + kHeaderSize + zlen data)
| next_fragment off begin part rest bytes off' :
    header_start off + kHeaderSize + zlen part = kBlockSize ->
    rest <> [] ->
    fragmented kBlockSize false rest bytes off' ->
    fragmented off begin (part ++ rest)
      (trailer off ++ physical_record (record_type begin false) part ++ bytes) off'.

(** A whole log of records from offset [off] on. *)
Inductive logged : Z -> list (list Z) -> list Z -> Z -> Prop :=
| logged_nil off : logged off [] [] off
| logged_cons off record records bytes off' rest off'' :
    fragmented off true record bytes off' ->
    logged off' records rest off'' ->
    logged off (record :: records) (bytes ++ rest) off''.

End Format.

(** ** Every record has a fragmentation, and only one *)

Lemma header_start_range off : 0 <= off <= kBlockSize -> 0 <= header_start off /\ header_start off + kHeaderSize <= kBlockSize.
Proof. intros H. unfold header_start, kBlockSize, kHeaderSize in *. destruct (Z.ltb_spec (32768 - off) (4 + 2 + 1)); lia. Qed.

Lemma zlen_trailer off :
  0 <= off <= kBlockSize ->
  zlen (trailer off) = if kBlockSize - off <? kHeaderSize then kBlockSize - off else 0.
Proof.
  intros H. unfold trailer, zlen. destruct (Z.ltb_spec (kBlockSize - off) kHeaderSize); [|done].
  rewrite repeat_length. lia.
Qed.

Section Spec.
Context {Value : list Z -> Z} {Extend : Z -> list Z -> Z} {C : Checksum Value Extend}.

Lemma zlen_physical t data : zlen (physical_record Value t data) = kHeaderSize + zlen data.
Proof.
  unfold physical_record, header_bytes. rewrite !zlen_app. unfold EncodeFixed32. rewrite EncodeFixed32_le.
  rewrite zlen_le_split. unfold zlen, kHeaderSize. cbn [length]. lia.
Qed.

(** A fragmentation ends inside or at the end of a block. *)
Lemma fragmented_range off begin data bytes off' :
  0 <= off <= kBlockSize -> fragmented Value off begin data bytes off' -> 0 <= off' <= kBlockSize.
Proof.
  intros Ho H. induction H as [off begin data Hfit|]; [|apply IHfragmented; unfold kBlockSize; lia].
  pose proof (header_start_range off Ho). pose proof (zlen_nonneg data). unfold kHeaderSize in *. lia.
Qed.

(** The rounds still to do: the bytes left, and one that takes no byte when the
    header just fits. *)
Definition rounds (off : Z) (n : nat) : nat :=
  if header_start off + kHeaderSize =? kBlockSize then S n else n.

Lemma rounds_block n : rounds kBlockSize n = n.
Proof. done. Qed.

Lemma fragmented_exists off begin data :
  0 <= off <= kBlockSize -> exists bytes off', fragmented Value off begin data bytes off'.
Proof.
  remember (rounds off (length data)) as n eqn:En. revert off begin data En.
  induction n as [n IH] using lt_wf_ind. intros off begin data -> Ho.
  pose proof (header_start_range off Ho) as [H0 H7]. set (avail := kBlockSize - header_start off - kHeaderSize).
  destruct (decide (zlen data <= avail)) as [Hfit|Hmore]; [do 2 eexists; apply last_fragment; lia|].
  rewrite <- (firstn_skipn (Z.to_nat avail) data).
  assert (zlen (firstn (Z.to_nat avail) data) = avail) as El.
  { unfold zlen in *. rewrite length_take. lia. }
  assert (skipn (Z.to_nat avail) data <> []) as Hne.
  { intros E%(f_equal length). rewrite length_drop in E. cbn in E. unfold zlen in *. lia. }
  edestruct (IH (rounds kBlockSize (length (skipn (Z.to_nat avail) data)))) as (bytes & off' & H); [|done|..].
  - rewrite rounds_block, length_drop. unfold rounds. unfold zlen in *.
    destruct (Z.eqb_spec (header_start off + kHeaderSize) kBlockSize); lia.
  - unfold kBlockSize; lia.
  - do 2 eexists. apply next_fragment; [rewrite El; lia|done|exact H].
Qed.

Lemma fragmented_unique off begin data bytes off' bytes' off'' :
  fragmented Value off begin data bytes off' -> fragmented Value off begin data bytes' off'' ->
  bytes = bytes' /\ off' = off''.
Proof.
  intros H. revert bytes' off''. induction H as [off begin data Hfit|off begin part rest bytes off' Hfull Hne Hrest IH];
    intros bytes' off'' H'.
  - inversion H' as [|? ? part rest ? ? Hfull Hne]; subst; [done|]. exfalso. rewrite zlen_app in Hfit.
    destruct rest; [done|]. rewrite zlen_cons in Hfit. pose proof (zlen_nonneg rest). lia.
  - remember (part ++ rest) as data eqn:Ed.
    inversion H' as [? ? ? Hfit|? ? part' rest' ? ? Hfull' Hne' Hrest']; subst.
    + exfalso. rewrite zlen_app in Hfit. destruct rest; [done|]. rewrite zlen_cons in Hfit.
      pose proof (zlen_nonneg rest). lia.
    + match goal with E : _ ++ _ = _ ++ _ |- _ => apply app_inj_1 in E as [-> ->]; [|unfold zlen in *; lia] end. by destruct (IH _ _ Hrest') as [-> ->].
Qed.

Lemma logged_exists off records :
  0 <= off <= kBlockSize -> exists bytes off', logged Value off records bytes off'.
Proof.
  revert off; induction records as [|record records IH]; intros off Ho; [exists [], off; constructor|].
  destruct (fragmented_exists off true record Ho) as (bytes & off1 & H1).
  destruct (IH off1) as (bytes2 & off2 & H2); [by eapply fragmented_range|].
  exists (bytes ++ bytes2), off2. by apply (logged_cons Value _ _ _ _ off1).
Qed.

Lemma logged_app off rs bytes off' rs' bytes' off'' :
  logged Value off rs bytes off' -> logged Value off' rs' bytes' off'' ->
  logged Value off (rs ++ rs') (bytes ++ bytes') off''.
Proof.
  induction 1; intros H'; [done|]. cbn [app]. rewrite <- app_assoc. by econstructor; [|apply IHlogged].
Qed.

End Spec.

(** ** The writer against the format *)

Lemma u8_zlen_low {A} (data : list A) : u8 (Z.land (zlen data) 0xff) = zlen data mod 256.
Proof. rewrite land_255. apply wrap_small, Z.mod_pos_bound. lia. Qed.

Lemma u8_zlen_high {A} (data : list A) : zlen data <= 0xffff -> u8 (Z.shiftr (zlen data) 8) = zlen data / 256.
Proof.
  intros H. rewrite Z.shiftr_div_pow2 by lia. change (2 ^ 8) with 256. pose proof (zlen_nonneg data).
  apply wrap_small. split; [apply Z.div_pos; lia|apply Z.div_lt_upper_bound; lia].
Qed.

Section WriterProof.
Context {F : Type} {W : WritableFile F} {usable : F -> Prop}.
Context {written delivered : F -> list Z} {failed dirty : F -> bool}.
Context {FS : FailStop F usable written delivered failed dirty}.
Context {Value : list Z -> Z} {Extend : Z -> list Z -> Z} {C : Checksum Value Extend}.

(** What calls leave of the file: all of [bytes] taken, or a part of them when
    the file has failed, and nothing more after a failure. *)
Definition gave (f f' : F) (bytes : list Z) : Prop :=
  delivered f `prefix_of` delivered f' /\
  (failed f = true -> failed f' = true /\ written f' = written f) /\
  (failed f = false ->
   if failed f' then written f' `prefix_of` written f ++ bytes else written f' = written f ++ bytes).

Lemma gave_refl f : gave f f [].
Proof. split_and!; [done|done|]. rewrite app_nil_r. by intros ->. Qed.

(** The bytes taken since the failure, if any, are waiting. *)
Definition waiting (f : F) : Prop := failed f = true -> dirty f = true.

Lemma append_gave f data :
  usable f -> exists s f', Append f data = Ret (s, f') /\ usable f' /\ gave f f' data /\
    (is_ok s = false -> failed f' = true) /\
    (is_ok s = true -> data <> [] \/ waiting f -> waiting f').
Proof.
  intros Hu. destruct (append_spec f data Hu) as (s & f' & E & Hu' & Hd & H). exists s, f'. unfold gave, waiting.
  destruct (failed f).
  - destruct H as (Hf & Hw & Hdirty). split_and!; try done. intros Es Hor _. apply Hdirty; [done|].
    destruct Hor as [|Hor]; [by left|right; by apply Hor].
  - destruct H as [-> H]. split_and!; try done; [by intros _; destruct (is_ok s)|by intros ->|by intros ->].
Qed.

Lemma flush_gave f :
  usable f -> waiting f -> exists s f', Flush f = Ret (s, f') /\ usable f' /\
    gave f f' [] /\ is_ok s = negb (failed f') /\ (is_ok s = true -> delivered f' = written f').
Proof.
  intros Hu Hwait. destruct (flush_spec f Hu) as (s & f' & E & Hu' & Hd & H). exists s, f'.
  unfold gave, waiting in *. rewrite app_nil_r.
  destruct (failed f); [destruct H as (-> & ? & Hs); rewrite (Hs (Hwait eq_refl)); by split_and!|].
  destruct H as [-> H]. rewrite negb_involutive. split_and!; try done.
  - intros _. destruct (is_ok s); cbn; [apply H|done].
  - intros Es. rewrite Es in H. destruct H as [-> ->]. done.
Qed.

(** Calls in sequence. *)
Lemma gave_app f1 f2 f3 b1 b2 : gave f1 f2 b1 -> gave f2 f3 b2 -> gave f1 f3 (b1 ++ b2).
Proof.
  intros (D1 & S1 & W1) (D2 & S2 & W2). split_and!; [by trans (delivered f2)| |].
  - intros H. destruct (S1 H) as [H2 <-]. by apply S2.
  - intros H. specialize (W1 H). rewrite app_assoc. destruct (failed f2).
    + destruct (S2 eq_refl) as [-> ->]. by apply prefix_app_r.
    + specialize (W2 eq_refl). by rewrite W1 in W2.
Qed.

Lemma gave_more f1 f2 b1 b2 : failed f2 = true -> gave f1 f2 b1 -> gave f1 f2 (b1 ++ b2).
Proof.
  intros E (D1 & S1 & W1). split_and!; [done|done|]. intros H. specialize (W1 H). rewrite E in *.
  rewrite app_assoc. by apply prefix_app_r.
Qed.

(** A writer the constructors make. *)
Definition writer_ok (w : Writer F) : Prop :=
  0 <= block_offset_ w <= kBlockSize /\ type_crc_ w = InitTypeCrc Value.

Lemma type_crc t : 0 <= t <= kMaxRecordType -> entry (InitTypeCrc Value) t = Value [t].
Proof.
  intros Ht. unfold kMaxRecordType, kLastType in Ht.
  assert (t = 0 \/ t = 1 \/ t = 2 \/ t = 3 \/ t = 4) as [->|[->|[->|[->| ->]]]] by lia; done.
Qed.

(** The three calls of [EmitPhysicalRecord]: the status tells whether the file
    has failed, and when it has not everything is delivered. *)
Lemma emit_calls f buf data :
  usable f -> buf <> [] ->
  exists s f',
    (let! (s, dest) := Append f buf in
     if is_ok s then
       let! (s, dest) := Append dest data in
       if is_ok s then Flush dest else Ret (s, dest)
     else Ret (s, dest)) = Ret (s, f') /\
    usable f' /\ gave f f' (buf ++ data) /\ is_ok s = negb (failed f') /\
    (is_ok s = true -> delivered f' = written f').
Proof.
  intros Hu Hbuf. destruct (append_gave f buf Hu) as (s1 & f1 & -> & Hu1 & G1 & F1 & W1). cbn [rbind].
  destruct (is_ok s1) eqn:Es1.
  2: { exists s1, f1. rewrite Es1, F1 by done. split_and!; try done. apply gave_more; [by apply F1|done]. }
  destruct (append_gave f1 data Hu1) as (s2 & f2 & -> & Hu2 & G2 & F2 & W2). cbn [rbind].
  pose proof (gave_app _ _ _ _ _ G1 G2) as G12.
  destruct (is_ok s2) eqn:Es2.
  2: { exists s2, f2. rewrite Es2, F2 by done. by split_and!. }
  destruct (flush_gave f2 Hu2) as (s3 & f3 & -> & Hu3 & G3 & Es3 & Hd); [by auto|].
  pose proof (gave_app _ _ _ _ _ G12 G3) as G. rewrite app_nil_r in G. exists s3, f3. by split_and!.
Qed.

Lemma EmitPhysicalRecord_gave w t ptr n :
  writer_ok w -> usable (dest_ w) -> 0 <= t <= kMaxRecordType -> Forall is_byte ptr ->
  0 <= n <= zlen ptr -> block_offset_ w + kHeaderSize + n <= kBlockSize ->
  exists s w', EmitPhysicalRecord Extend w t ptr n = Ret (s, w') /\ usable (dest_ w') /\
    gave (dest_ w) (dest_ w') (physical_record Value t (firstn (Z.to_nat n) ptr)) /\
    is_ok s = negb (failed (dest_ w')) /\
    (is_ok s = true -> delivered (dest_ w') = written (dest_ w')) /\
    block_offset_ w' = block_offset_ w + kHeaderSize + n /\ type_crc_ w' = type_crc_ w.
Proof.
  intros [Ho Hc] Hu Ht Hb Hn Hfit. unfold EmitPhysicalRecord. unfold kHeaderSize, kBlockSize in *.
  destruct (Z.leb_spec n 0xffff); [|lia]. cbn [assert_ rbind].
  destruct (Z.leb_spec (block_offset_ w + (4 + 2 + 1) + n) 32768); [|lia]. cbn [assert_ rbind].
  set (data := firstn (Z.to_nat n) ptr).
  assert (zlen data = n) as En by (unfold data, zlen in *; rewrite length_take; lia).
  assert (Forall is_byte data) as Hd by by apply Forall_take.
  rewrite Hc, type_crc, (extend_value (Checksum := C)) by (done || (repeat constructor; unfold is_byte, kMaxRecordType, kLastType in *; lia)).
  cbn [app]. set (buf := EncodeFixed32 _ ++ _).
  assert (buf = header_bytes Value t data) as ->.
  { unfold buf, header_bytes. rewrite <- En, u8_zlen_low, u8_zlen_high by lia. do 4 f_equal.
    apply wrap_small. unfold kMaxRecordType, kLastType in *. lia. }
  destruct (emit_calls (dest_ w) (header_bytes Value t data) data Hu) as (s & f' & E & Hu' & G & Es & Hdel).
  { unfold header_bytes. by intros [_ ?]%app_nil. }
  exists s, (mk_writer f' (block_offset_ w + (4 + 2 + 1 + n)) (type_crc_ w)).
  cbn [dest_ block_offset_ type_crc_]. split; [|split_and!; [done|exact G|done|done|lia|done]].
  revert E. destruct (Append (dest_ w) (header_bytes Value t data)) as [[s1 f1]| |]; [|done..].
  cbn [rbind]. intros ->. by rewrite Hc.
Qed.

Lemma switch_block_gave w :
  writer_ok w -> usable (dest_ w) ->
  exists w', switch_block w = Ret w' /\ block_offset_ w' = header_start (block_offset_ w) /\
    type_crc_ w' = type_crc_ w /\ usable (dest_ w') /\ gave (dest_ w) (dest_ w') (trailer (block_offset_ w)).
Proof.
  intros [Ho Hc] Hu. unfold switch_block, header_start, trailer. set (leftover := kBlockSize - block_offset_ w).
  destruct (Z.geb_spec leftover 0); [|lia]. cbn [assert_ rbind].
  destruct (Z.ltb_spec leftover kHeaderSize).
  - destruct (Z.gtb_spec leftover 0).
    + destruct (append_gave (dest_ w) (repeat 0 (Z.to_nat leftover)) Hu) as (s & f & -> & Hu' & G & _ & _). cbn [rbind].
      eexists. by split_and!.
    + cbn [rbind]. eexists. split_and!; [done..|]. assert (leftover = 0) as -> by lia. apply gave_refl.
  - eexists. split_and!; [done..|]. apply gave_refl.
Qed.

(** What is left to do, given what the file has got. *)
Definition adding (f0 : F) (off0 : Z) (data0 : list Z) (st : Writer F * list Z * Z * bool) : Prop :=
  let '(w, ptr, left_, begin) := st in
  writer_ok w /\ usable (dest_ w) /\ left_ = zlen ptr /\ Forall is_byte ptr /\
  exists bytes0, gave f0 (dest_ w) bytes0 /\
    forall bytes off', fragmented Value (block_offset_ w) begin ptr bytes off' ->
      fragmented Value off0 true data0 (bytes0 ++ bytes) off'.

(** The status tells whether the file has failed; if not, all is delivered. *)
Definition acknowledged (s : Status) (f : F) : Prop :=
  is_ok s = negb (failed f) /\ (is_ok s = true -> delivered f = written f).

Definition added (f0 : F) (off0 : Z) (data0 : list Z) (r : Status * Writer F) : Prop :=
  let '(s, w) := r in
  usable (dest_ w) /\ acknowledged s (dest_ w) /\
  exists bytes off', fragmented Value off0 true data0 bytes off' /\ gave f0 (dest_ w) bytes /\
    type_crc_ w = InitTypeCrc Value /\ (is_ok s = true -> block_offset_ w = off').

Lemma record_type_range begin last : 0 <= record_type begin last <= kMaxRecordType.
Proof. by destruct begin, last. Qed.

Lemma add_fragment_step f0 off0 data0 w ptr left_ begin :
  adding f0 off0 data0 (w, ptr, left_, begin) ->
  exists x, add_fragment Extend (w, ptr, left_, begin) = Ret x /\
    match x with
    | inl (w', ptr', left', begin') =>
        adding f0 off0 data0 (w', ptr', left', begin') /\
        (rounds (block_offset_ w') (length ptr') < rounds (block_offset_ w) (length ptr))%nat
    | inr r => added f0 off0 data0 r
    end.
Proof.
  intros ([Ho Hc] & Hu & -> & Hb & bytes0 & G0 & Hk). unfold add_fragment.
  pose proof (header_start_range _ Ho) as [Hs0 Hs7]. set (start := header_start (block_offset_ w)) in *.
  assert (start <= kBlockSize) as HsB by (unfold kHeaderSize in *; lia).
  destruct (switch_block_gave w) as (w1 & -> & Ho1 & Hc1 & Hu1 & G1); [done..|]. cbn [rbind]. fold start in Ho1.
  rewrite Ho1. destruct (Z.geb_spec (kBlockSize - start - kHeaderSize) 0); [|lia]. cbn [assert_ rbind].
  set (avail := kBlockSize - start - kHeaderSize) in *. pose proof (zlen_nonneg ptr) as Hp.
  set (n := if zlen ptr <? avail then zlen ptr else avail).
  assert (0 <= n <= zlen ptr /\ n <= avail /\ (n = zlen ptr \/ n = avail)) as (Hn & Hna & Hor)
    by (unfold n; destruct (Z.ltb_spec (zlen ptr) avail); lia).
  set (t := record_type begin (zlen ptr =? n)).
  destruct (EmitPhysicalRecord_gave w1 t ptr n) as (s & w2 & -> & Hu2 & G2 & Es & Hdel & Ho2 & Hc2);
    [split; [by rewrite Ho1|congruence]|done|apply record_type_range|done|done|rewrite Ho1; lia|].
  cbn [rbind]. pose proof (gave_app _ _ _ _ _ G0 (gave_app _ _ _ _ _ G1 G2)) as G. clear G0 G1 G2.
  set (part := firstn (Z.to_nat n) ptr) in *. set (rest := skipn (Z.to_nat n) ptr).
  assert (ptr = part ++ rest) as Eptr by (unfold part, rest; by rewrite firstn_skipn).
  assert (zlen part = n) as Epart by (unfold part, zlen in *; rewrite length_take; lia).
  assert (zlen ptr - n = zlen rest) as Erest by (rewrite Eptr at 1; rewrite zlen_app; lia).
  rewrite Erest. destruct (Z.eqb_spec (zlen ptr) n) as [Elast|Emore].
  - (* the last fragment *)
    assert (rest = []) as Hr by (destruct rest; [done|rewrite zlen_cons in Erest; pose proof (zlen_nonneg rest); lia]).
    rewrite Hr. change (zlen [] >? 0) with false. rewrite andb_false_r. eexists. split; [done|].
    rewrite Hr, app_nil_r in Eptr. rewrite <- Eptr in G. split; [done|]. split; [done|].
    exists (bytes0 ++ trailer (block_offset_ w) ++ physical_record Value t ptr), (start + kHeaderSize + zlen ptr).
    split_and!; [apply Hk, last_fragment; fold start; lia|done|congruence|].
    intros _. rewrite Ho2, Ho1. lia.
  - assert (rest <> []) as Hr by (intros Hr; rewrite Hr in Erest; change (zlen []) with 0 in Erest; lia).
    assert (start + kHeaderSize + zlen part = kBlockSize) as Hfull by lia.
    assert (forall bytes off', fragmented Value kBlockSize false rest bytes off' ->
      fragmented Value off0 true data0
        ((bytes0 ++ trailer (block_offset_ w) ++ physical_record Value t part) ++ bytes) off') as Hk'.
    { intros bytes off' Hfr. rewrite <- !app_assoc. apply Hk. rewrite Eptr. by apply next_fragment. }
    assert ((zlen rest >? 0) = true) as ->.
    { destruct rest; [done|]. rewrite zlen_cons. pose proof (zlen_nonneg rest). by apply Z.gtb_lt; lia. }
    destruct (is_ok s) eqn:Eok; cbn [andb]; eexists; (split; [done|]).
    + split.
      { split_and!; [split; [rewrite Ho2, Ho1; unfold kBlockSize in *; lia|congruence]|done|done|by apply Forall_drop|].
        eexists. split; [exact G|]. rewrite Ho2, Ho1. replace (start + kHeaderSize + n) with kBlockSize by lia. exact Hk'. }
      rewrite Ho2, Ho1. replace (start + kHeaderSize + n) with kBlockSize by lia.
      rewrite rounds_block. unfold rounds. fold start. unfold rest. rewrite length_drop. unfold zlen in *.
      destruct (Z.eqb_spec (start + kHeaderSize) kBlockSize); lia.
    + (* the file failed *)
      destruct (fragmented_exists (Value := Value) kBlockSize false rest) as (bytes & off' & Hfr); [unfold kBlockSize; lia|].
      split; [done|]. split; [by split; rewrite Eok|].
      exists ((bytes0 ++ trailer (block_offset_ w) ++ physical_record Value t part) ++ bytes), off'.
      split_and!; [by apply Hk'|apply gave_more; [|exact G]|congruence|congruence].
      by destruct (failed (dest_ w2)).
Qed.

Lemma AddRecord_added w slice :
  writer_ok w -> usable (dest_ w) -> Forall is_byte slice ->
  exists r, AddRecord Extend w slice = Ret r /\ added (dest_ w) (block_offset_ w) slice r.
Proof.
  intros Hw Hu Hb. unfold AddRecord.
  apply (loop_total (adding (dest_ w) (block_offset_ w) slice)
    (fun '(w, ptr, _, _) => rounds (block_offset_ w) (length ptr))).
  - intros [[[w1 ptr] left_] begin] H. destruct (add_fragment_step _ _ _ _ _ _ _ H) as (x & E & Hx).
    exists x. split; [done|]. by destruct x as [[[[??]?]?]|].
  - split_and!; try done; try apply Hw. exists []. split; [apply gave_refl|done].
  - unfold rounds. destruct (_ =? _); lia.
Qed.

(** A log that has never failed, with all of its records delivered. *)
Definition holds_records (w : Writer F) (records : list (list Z)) : Prop :=
  writer_ok w /\ usable (dest_ w) /\ failed (dest_ w) = false /\ delivered (dest_ w) = written (dest_ w) /\
  logged Value 0 records (written (dest_ w)) (block_offset_ w).

(** What a crash leaves of a log: records, of which the first [acked] are complete. *)
Definition records_left (bytes : list Z) (records : list (list Z)) (acked : nat) : Prop :=
  exists all off rest bytes1 off1, logged Value 0 records all off /\ all = bytes ++ rest /\
    logged Value 0 (firstn acked records) bytes1 off1 /\ bytes1 `prefix_of` bytes.

Lemma holds_records_left w records : holds_records w records -> records_left (delivered (dest_ w)) records (length records).
Proof.
  intros (_ & _ & _ & Hd & Hl). exists (written (dest_ w)), (block_offset_ w), [], (written (dest_ w)), (block_offset_ w).
  rewrite Hd, app_nil_r, firstn_all. by split_and!.
Qed.

(** One more record. *)
Lemma AddRecord_records w records record : holds_records w records -> Forall is_byte record ->
  exists s w', AddRecord Extend w record = Ret (s, w') /\
    if is_ok s then holds_records w' (records ++ [record])
    else failed (dest_ w') = true /\ records_left (delivered (dest_ w')) (records ++ [record]) (length records).
Proof.
  intros (Hw & Hu & Hf & Hd & Hl) Hb.
  destruct (AddRecord_added w record Hw Hu Hb) as ([s w'] & E & Hu' & [Hs Hd'] & bytes & off' & Hfr & (Hpre & _ & Hg) & Hc & Ho).
  exists s, w'. split; [done|]. specialize (Hg Hf).
  assert (logged Value 0 (records ++ [record]) (written (dest_ w) ++ bytes) off') as Hlog.
  { eapply logged_app; [done|]. rewrite <- (app_nil_r bytes). econstructor; [done|constructor]. }
  destruct (is_ok s); [assert (failed (dest_ w') = false) as Hf' by (by destruct (failed (dest_ w')))
                      |assert (failed (dest_ w') = true) as Hf' by (by destruct (failed (dest_ w')))]; rewrite Hf' in Hg.
  - split; [|split; [done|split; [done|split; [by apply Hd'|by rewrite Hg, Ho]]]]. split; [|done]. rewrite Ho by done. eapply fragmented_range; [|exact Hfr]. apply Hw.
  - split; [done|]. assert (delivered (dest_ w') `prefix_of` written (dest_ w) ++ bytes) as [rest Erest].
    { trans (written (dest_ w')); [by apply (delivered_written (FailStop := FS))|done]. }
    exists (written (dest_ w) ++ bytes), off', rest, (written (dest_ w)), (block_offset_ w).
    split_and!; [done|done| |by rewrite <- Hd]. rewrite firstn_app, firstn_all, Nat.sub_diag. cbn [firstn]. by rewrite app_nil_r.
Qed.

Lemma Sync_records {HS : HarmlessSync F usable written delivered failed} w records : holds_records w records ->
  exists s dest, Sync (dest_ w) = Ret (s, dest) /\ holds_records (mk_writer dest (block_offset_ w) (type_crc_ w)) records.
Proof.
  intros (Hw & Hu & Hf & Hd & Hl). destruct (sync_spec (dest_ w) Hu Hf Hd) as (s & f & E & Hu' & Hf' & Hw' & Hd').
  exists s, f. split; [done|]. split_and!; try done; [apply Hw..|cbn; congruence|]. cbn. by rewrite Hw'.
Qed.

(** Adding records one after the other, until one fails. *)
Fixpoint add_records (w : Writer F) (records : list (list Z)) : res (Status * Writer F) :=
  match records with
  | [] => Ret (status_ok, w)
  | record :: records =>
      let! (s, w) := AddRecord Extend w record in
      if is_ok s then add_records w records else Ret (s, w)
  end.

Lemma add_records_logged w records :
  writer_ok w -> usable (dest_ w) -> acknowledged status_ok (dest_ w) -> Forall (Forall is_byte) records ->
  exists s w' bytes off', add_records w records = Ret (s, w') /\
    logged Value (block_offset_ w) records bytes off' /\
    usable (dest_ w') /\ gave (dest_ w) (dest_ w') bytes /\ acknowledged s (dest_ w') /\
    (is_ok s = true -> writer_ok w' /\ block_offset_ w' = off').
Proof.
  intros Hw Hu Hf Hb. revert w Hw Hu Hf; induction Hb as [|record records Hr _ IH]; intros w Hw Hu Hf.
  { exists status_ok, w, [], (block_offset_ w). split_and!; try done; [constructor|apply gave_refl]. }
  cbn [add_records]. destruct (AddRecord_added w record Hw Hu Hr) as ([s w1] & -> & Hu1 & Hack & bytes & off' & Hfr & G & Hc & Ho).
  cbn [rbind]. pose proof (fragmented_range _ _ _ _ _ (proj1 Hw) Hfr) as Hr'.
  destruct (is_ok s) eqn:Es.
  - specialize (Ho eq_refl). destruct (IH w1) as (s2 & w2 & bytes2 & off2 & -> & Hl & Hu2 & G2 & Hack2 & Hw2).
    { split; [by rewrite Ho|done]. }
    { done. }
    { destruct Hack as [Ha Hd]. rewrite Es in *. by split. }
    exists s2, w2, (bytes ++ bytes2), off2. split_and!; [done| |done|by eapply gave_app|done|done].
    apply (logged_cons Value _ _ _ _ off'); [done|by rewrite <- Ho].
  - destruct (logged_exists (Value := Value) off' records Hr') as (bytes2 & off2 & Hl).
    exists s, w1, (bytes ++ bytes2), off2. split_and!; [done| |done| |done|congruence].
    + by apply (logged_cons Value _ _ _ _ off').
    + apply gave_more; [|done]. destruct Hack as [Ha _]. rewrite Es in Ha. by destruct (failed (dest_ w1)).
Qed.

(** Any sequence of records: no assertion fails and every call ends; the file
    takes the log of the records.  When all calls succeed it has been delivered
    entirely, and when one fails, whose status is then returned, the file is left
    with a part of it, from its start. *)
Theorem log_writer_correct w records :
  writer_ok w -> usable (dest_ w) -> acknowledged status_ok (dest_ w) -> Forall (Forall is_byte) records ->
  exists s w' bytes off', add_records w records = Ret (s, w') /\
    logged Value (block_offset_ w) records bytes off' /\
    usable (dest_ w') /\ gave (dest_ w) (dest_ w') bytes /\ acknowledged s (dest_ w') /\
    (is_ok s = true -> writer_ok w' /\ block_offset_ w' = off').
Proof. apply add_records_logged. Qed.

(** *** A trailer that is not written *)

(** Behind [off], where no header fits, a fragmentation from the start of a block is
    one only with the trailer in front. *)
Lemma fragmented_behind off begin data bytes off' : kBlockSize - off < kHeaderSize ->
  fragmented Value 0 begin data bytes off' -> fragmented Value off begin data (trailer off ++ bytes) off'.
Proof.
  intros H7 H. assert (header_start off = 0) as E by (unfold header_start; by destruct (Z.ltb_spec (kBlockSize - off) kHeaderSize); [|lia]).
  inversion H as [? ? ? Hfit|? ? part rest b o Hfull Hne Hrest]; subst; change (trailer 0) with (@nil Z); cbn [app]; change (header_start 0) with 0 in *.
  - pose proof (last_fragment Value off begin data) as G. rewrite E in G. by apply G.
  - pose proof (next_fragment Value off begin part rest) as G. rewrite E in G. by apply G.
Qed.

Lemma no_trailer off data bytes off' off'' : 0 < kBlockSize - off < kHeaderSize ->
  fragmented Value 0 true data bytes off' -> ~ fragmented Value off true data bytes off''.
Proof.
  intros H7 H H'. destruct (fragmented_unique _ _ _ _ _ _ _ (fragmented_behind off _ _ _ _ (proj2 H7) H) H') as [E _].
  apply (f_equal length) in E. rewrite length_app in E. unfold trailer in E. destruct (Z.ltb_spec (kBlockSize - off) kHeaderSize); [|lia].
  rewrite repeat_length in E. lia.
Qed.

(** The status of the [Append] makes no difference to what follows. *)
Lemma failed_trailer (f f' : F) s off tc record : 0 < kBlockSize - off < kHeaderSize ->
  Append f (repeat 0 (Z.to_nat (kBlockSize - off))) = Ret (s, f') ->
  AddRecord Extend (mk_writer f off tc) record = AddRecord Extend (mk_writer f' 0 tc) record.
Proof.
  intros H7 E. assert (switch_block (mk_writer f off tc) = switch_block (mk_writer f' 0 tc)) as Es.
  { unfold switch_block. cbn [block_offset_ dest_ type_crc_]. destruct (Z.geb_spec (kBlockSize - off) 0); [|lia]. destruct (Z.ltb_spec (kBlockSize - off) kHeaderSize); [|lia].
    destruct (Z.gtb_spec (kBlockSize - off) 0); [|lia]. cbn [assert_ rbind]. by rewrite E. }
  unfold AddRecord. cbn [Nat.add]. rewrite !loop_unfold. unfold add_fragment at 1 3. by rewrite Es.
Qed.

(** C35. When the [Append] that fills the trailer of a block writes nothing, whatever its
    status [s] says, but the file works from then on, [AddRecord] reports no error: its
    status is that of the calls that follow, and when these succeed it is ok and the
    file has taken the fragments of the record without the trailer in front, which is
    no fragmentation of the record where the log had got to. *)
Theorem trailer_failure_ignored (f f' : F) s off record : 0 < kBlockSize - off < kHeaderSize ->
  Append f (repeat 0 (Z.to_nat (kBlockSize - off))) = Ret (s, f') -> written f' = written f ->
  usable f' -> failed f' = false -> Forall is_byte record ->
  exists s' w', AddRecord Extend (mk_writer f off (InitTypeCrc Value)) record = Ret (s', w') /\ is_ok s' = negb (failed (dest_ w')) /\
    (is_ok s' = true -> exists bytes, delivered (dest_ w') = written f ++ bytes /\
      fragmented Value 0 true record bytes (block_offset_ w') /\ forall off', ~ fragmented Value off true record bytes off').
Proof.
  intros H7 E Ew Hu Hf Hb. rewrite (failed_trailer f f' s) by done.
  destruct (AddRecord_added (mk_writer f' 0 (InitTypeCrc Value)) record) as ([s' w'] & -> & _ & [Ha Hd] & bytes & off' & Hfr & (_ & _ & G) & _ & Ho);
    [split; [cbn; unfold kBlockSize; lia|done]|done|done|]. cbn [dest_ block_offset_] in *.
  exists s', w'. split_and!; [done|done|]. intros Es. exists bytes. specialize (G Hf). rewrite Es in Ha. destruct (failed (dest_ w')); [done|].
  rewrite (Ho Es), Hd, G, Ew by done. split_and!; [done|done|]. intros off''. by apply (no_trailer off _ _ off').
Qed.

End WriterProof.
