(* ===== verification/LdbLogReader.v ===== *)
(** * LevelDB: the log reader (db/log_reader.h, db/log_reader.cc)

    [ReadPhysicalRecord] takes fragments from a buffer it fills a block at a
    time, [ReadRecord] puts records together from them.  Against the format of
    LdbLogWriter: from a log cut off at any byte the reader returns exactly the
    records that are complete and reports nothing; on arbitrary bytes it ends,
    and a fragment it returns was stored with its checksum. *)
From S2P Require Import Prelude.
From S2P Require Import WireSpec LdbCoding.
From S2P Require Import LdbCrc32c.
From S2P Require Import LdbStatus.
From S2P Require Import LdbLogWriter.
From Stdlib Require Import ZArith Lia.
From stdpp Require Import base tactics numbers list strings.
#[local] Open Scope Z_scope.

(** ** Definitions *)

(** The record types that are not in the file. *)
Definition kEof : Z := kMaxRecordType + 1.
Definition kBadRecord : Z := kMaxRecordType + 2.

(** The reader; [backing_store_] only holds the bytes [buffer_] points to.  The
    reporter is the list of the calls made to it, or null. *)
Record Reader (F : Type) := mk_reader {
  file_ : F;
  reporter_ : option (list (Z * Status));
  checksum_ : bool;
  buffer_ : list Z;
  eof_ : bool;
  last_record_offset_ : Z;
  end_of_buffer_offset_ : Z;
  initial_offset_ : Z;
  resyncing_ : bool;
}.
Arguments mk_reader {F} _ _ _ _ _ _ _ _ _.
Arguments file_ {F} _.
Arguments reporter_ {F} _.
Arguments checksum_ {F} _.
Arguments buffer_ {F} _.
Arguments eof_ {F} _.
Arguments last_record_offset_ {F} _.
Arguments end_of_buffer_offset_ {F} _.
Arguments initial_offset_ {F} _.
Arguments resyncing_ {F} _.

(** Decimal digits, as [%u] prints them. *)
Fixpoint decimal_digits (fuel : nat) (n : Z) (acc : list Z) : list Z :=
  match fuel with
  | O => acc
  | S fuel =>
      let acc := 48 + n mod 10 :: acc in
      if n <? 10 then acc else decimal_digits fuel (n / 10) acc
  end.

Definition decimal (n : Z) : list Z := decimal_digits 20 n [].

Section Reader.
Context {F : Type} {SF : SequentialFile F}.
Context (Value : list Z -> Z).

Definition new_reader (file : F) (reporter : option (list (Z * Status))) (checksum : bool)
    (initial_offset : Z) : Reader F :=
  mk_reader file reporter checksum [] false 0 0 initial_offset (initial_offset >? 0).

(** Assignments to members. *)
Definition with_file (r : Reader F) (f : F) : Reader F :=
  mk_reader f (reporter_ r) (checksum_ r) (buffer_ r) (eof_ r) (last_record_offset_ r)
    (end_of_buffer_offset_ r) (initial_offset_ r) (resyncing_ r).
Definition with_buffer (r : Reader F) (b : list Z) : Reader F :=
  mk_reader (file_ r) (reporter_ r) (checksum_ r) b (eof_ r) (last_record_offset_ r)
    (end_of_buffer_offset_ r) (initial_offset_ r) (resyncing_ r).
Definition with_eof (r : Reader F) (b : bool) : Reader F :=
  mk_reader (file_ r) (reporter_ r) (checksum_ r) (buffer_ r) b (last_record_offset_ r)
    (end_of_buffer_offset_ r) (initial_offset_ r) (resyncing_ r).
Definition with_last_record_offset (r : Reader F) (o : Z) : Reader F :=
  mk_reader (file_ r) (reporter_ r) (checksum_ r) (buffer_ r) (eof_ r) o
    (end_of_buffer_offset_ r) (initial_offset_ r) (resyncing_ r).
Definition with_end_of_buffer_offset (r : Reader F) (o : Z) : Reader F :=
  mk_reader (file_ r) (reporter_ r) (checksum_ r) (buffer_ r) (eof_ r) (last_record_offset_ r)
    o (initial_offset_ r) (resyncing_ r).
Definition with_resyncing (r : Reader F) (b : bool) : Reader F :=
  mk_reader (file_ r) (reporter_ r) (checksum_ r) (buffer_ r) (eof_ r) (last_record_offset_ r)
    (end_of_buffer_offset_ r) (initial_offset_ r) b.
Definition with_reporter (r : Reader F) (p : option (list (Z * Status))) : Reader F :=
  mk_reader (file_ r) p (checksum_ r) (buffer_ r) (eof_ r) (last_record_offset_ r)
    (end_of_buffer_offset_ r) (initial_offset_ r) (resyncing_ r).

Definition ReportDrop (r : Reader F) (bytes : Z) (reason : Status) : Reader F :=
  match reporter_ r with
  | Some calls =>
      if u64 (end_of_buffer_offset_ r - zlen (buffer_ r) - bytes) >=? initial_offset_ r
      then with_reporter r (Some (calls ++ [(bytes, reason)]))
      else r
  | None => r
  end.

Definition ReportCorruption (r : Reader F) (bytes : Z) (reason : list Z) : Reader F :=
  ReportDrop r bytes (Corruption reason []).

Definition SkipToInitialBlock (r : Reader F) : res (bool * Reader F) :=
  let offset_in_block := initial_offset_ r mod kBlockSize in
  let block_start_location := u64 (initial_offset_ r - offset_in_block) in
  let block_start_location :=
    if offset_in_block >? kBlockSize - 6 then u64 (block_start_location + kBlockSize)
    else block_start_location in
  let r := with_end_of_buffer_offset r block_start_location in
  if block_start_location >? 0 then
    let! (skip_status, f) := Skip (file_ r) block_start_location in
    let r := with_file r f in
    if negb (is_ok skip_status) then Ret (false, ReportDrop r block_start_location skip_status)
    else Ret (true, r)
  else Ret (true, r).

(** [if (buffer_.size() < kHeaderSize)]: fill the buffer and go round again, or
    the end of the file. *)
Definition refill (r : Reader F) (result : list Z) : res (Reader F + Z * list Z * Reader F) :=
  if negb (eof_ r) then
    let r := with_buffer r [] in
    let! (status, buffer, f) := Read (file_ r) kBlockSize (buffer_ r) in
    let r := with_buffer (with_file r f) buffer in
    let r := with_end_of_buffer_offset r (u64 (end_of_buffer_offset_ r + zlen (buffer_ r))) in
    if negb (is_ok status) then
      let r := with_buffer r [] in
      let r := ReportDrop r kBlockSize status in
      Ret (inr (kEof, result, with_eof r true))
    else if zlen (buffer_ r) <? kBlockSize then Ret (inl (with_eof r true))
    else Ret (inl r)
  else Ret (inr (kEof, result, with_buffer r [])).

(** The rest of the round: parse the header and check the record. *)
Definition parse_record (r : Reader F) (result : list Z) : Z * list Z * Reader F :=
  let header := buffer_ r in
  let a := Z.land (byte_at header 4) 0xff in
  let b := Z.land (byte_at header 5) 0xff in
  let type := u32 (swrap 8 (byte_at header 6)) in
  let len := Z.lor a (Z.shiftl b 8) in
  if kHeaderSize + len >? zlen (buffer_ r) then
    let drop_size := zlen (buffer_ r) in
    let r := with_buffer r [] in
    if negb (eof_ r) then
      let r := ReportCorruption r drop_size (bytes_of "bad record length") in
      (kBadRecord, result, r)
    else (kEof, result, r)
  else if (type =? kZeroType) && (len =? 0) then (kBadRecord, result, with_buffer r [])
  else if checksum_ r &&
          negb (Value (firstn (Z.to_nat (1 + len)) (skipn 6 header)) =? Unmask (DecodeFixed32 header)) then
    let drop_size := zlen (buffer_ r) in
    let r := with_buffer r [] in
    let r := ReportCorruption r drop_size (bytes_of "checksum mismatch") in
    (kBadRecord, result, r)
  else
    let r := with_buffer r (skipn (Z.to_nat (kHeaderSize + len)) (buffer_ r)) in
    if u64 (end_of_buffer_offset_ r - zlen (buffer_ r) - kHeaderSize - len) <? initial_offset_ r then
      (kBadRecord, [], r)
    else (type, firstn (Z.to_nat len) (skipn (Z.to_nat kHeaderSize) header), r).

(** The [while (true)] goes round a second time only after filling the buffer,
    and then not a third time. *)
Definition ReadPhysicalRecord (r : Reader F) (result : list Z) : res (Z * list Z * Reader F) :=
  loop 2 (fun r =>
    if zlen (buffer_ r) <? kHeaderSize then refill r result
    else Ret (inr (parse_record r result))) r.

(** The locals of [ReadRecord] that live across its rounds. *)
Record assembling := mk_assembling {
  fragment : list Z;
  scratch : list Z;
  in_fragmented_record : bool;
  prospective_record_offset : Z;
}.

(** A round of [ReadRecord]: go on, or return [(found, record, scratch)]. *)
Definition read_round (st : Reader F * assembling)
    : res (Reader F * assembling + bool * list Z * list Z * Reader F) :=
  let (r, l) := st in
  let! (record_type, fragment, r) := ReadPhysicalRecord r (fragment l) in
  let physical_record_offset :=
    u64 (end_of_buffer_offset_ r - zlen (buffer_ r) - kHeaderSize - zlen fragment) in
  let l := mk_assembling fragment (scratch l) (in_fragmented_record l) (prospective_record_offset l) in
  let skipped := resyncing_ r && ((record_type =? kMiddleType) || (record_type =? kLastType)) in
  let r := if resyncing_ r && negb (record_type =? kMiddleType) then with_resyncing r false else r in
  if skipped then Ret (inl (r, l))
  else if record_type =? kFullType then
    let r :=
      if in_fragmented_record l && negb (zlen (scratch l) =? 0) then
        ReportCorruption r (zlen (scratch l)) (bytes_of "partial record without end(1)")
      else r in
    Ret (inr (true, fragment, [], with_last_record_offset r physical_record_offset))
  else if record_type =? kFirstType then
    let r :=
      if in_fragmented_record l && negb (zlen (scratch l) =? 0) then
        ReportCorruption r (zlen (scratch l)) (bytes_of "partial record without end(2)")
      else r in
    Ret (inl (r, mk_assembling fragment fragment true physical_record_offset))
  else if record_type =? kMiddleType then
    if negb (in_fragmented_record l) then
      let r := ReportCorruption r (zlen fragment) (bytes_of "missing start of fragmented record(1)") in
      Ret (inl (r, l))
    else Ret (inl (r, mk_assembling fragment (scratch l ++ fragment) true (prospective_record_offset l)))
  else if record_type =? kLastType then
    if negb (in_fragmented_record l) then
      let r := ReportCorruption r (zlen fragment) (bytes_of "missing start of fragmented record(2)") in
      Ret (inl (r, l))
    else
      let scratch := scratch l ++ fragment in
      Ret (inr (true, scratch, scratch, with_last_record_offset r (prospective_record_offset l)))
  else if record_type =? kEof then
    Ret (inr (false, [], if in_fragmented_record l then [] else scratch l, r))
  else if record_type =? kBadRecord then
    if in_fragmented_record l then
      let r := ReportCorruption r (zlen (scratch l)) (bytes_of "error in middle of record") in
      Ret (inl (r, mk_assembling fragment [] false (prospective_record_offset l)))
    else Ret (inl (r, l))
  else
    let buf := bytes_of "unknown record type " ++ decimal record_type in
    let r :=
      ReportCorruption r (zlen fragment + (if in_fragmented_record l then zlen (scratch l) else 0)) buf in
    Ret (inl (r, mk_assembling fragment [] false (prospective_record_offset l))).

(** [ReadRecord(record, scratch)]; every round but the last takes a byte of the
    file or of the buffer, so [fuel] bounds what is left of both. *)
Definition ReadRecord (fuel : nat) (r : Reader F) (record scratch : list Z)
    : res (bool * list Z * list Z * Reader F) :=
  let! (found, r) :=
    if last_record_offset_ r <? initial_offset_ r then SkipToInitialBlock r else Ret (true, r) in
  if negb found then Ret (false, record, scratch, r)
  else loop fuel read_round (r, mk_assembling [] [] false 0).

Definition LastRecordOffset (r : Reader F) : Z := last_record_offset_ r.

(** [while (reader.ReadRecord(&record, &scratch))] of the clients: the records. *)
Fixpoint read_records (n fuel : nat) (r : Reader F) : res (list (list Z) * Reader F) :=
  match n with
  | O => OutOfFuel
  | S n =>
      let! (found, record, _, r) := ReadRecord fuel r [] [] in
      if found then
        let! (records, r) := read_records n fuel r in
        Ret (record :: records, r)
      else Ret ([], r)
  end.

End Reader.

(** ** Parsing a physical record *)

Section ReaderProof.
Context {F : Type} {SF : SequentialFile F} {unread : F -> list Z} {LS : LawfulSequential F unread}.
Context {Value : list Z -> Z} {Extend : Z -> list Z -> Z} {C : Checksum Value Extend}.

(** A fragment the writer can make. *)
Definition stored (t : Z) (data : list Z) : Prop :=
  kFullType <= t <= kLastType /\ zlen data <= 0xffff /\ Forall is_byte data.

Lemma physical_record_cons t data :
  exists b0 b1 b2 b3, EncodeFixed32 (Mask (Value (t :: data))) = [b0; b1; b2; b3] /\
    physical_record Value t data = b0 :: b1 :: b2 :: b3 :: zlen data mod 256 :: zlen data / 256 :: t :: data.
Proof.
  unfold physical_record, header_bytes, EncodeFixed32. rewrite EncodeFixed32_le. do 4 eexists. by split.
Qed.

(** The length the header gives. *)
Lemma header_length {A} (data : list A) :
  zlen data <= 0xffff ->
  Z.lor (Z.land (zlen data mod 256) 0xff) (Z.shiftl (Z.land (zlen data / 256) 0xff) 8) = zlen data.
Proof.
  intros Hl. pose proof (zlen_nonneg data). rewrite !land_255, Zmod_mod.
  pose proof (Z.mod_pos_bound (zlen data) 256). pose proof (Z.div_mod (zlen data) 256).
  assert (0 <= zlen data / 256 < 256) by (split; [apply Z.div_pos; lia|apply Z.div_lt_upper_bound; lia]).
  rewrite (Z.mod_small (zlen data / 256)) by lia. rewrite (lor_byte _ _ 8) by (cbn; lia). cbn; lia.
Qed.

Lemma stored_type t data : stored t data -> u32 (swrap 8 t) = t /\ (t =? kZeroType) = false.
Proof.
  intros ([H1 H2] & _). unfold kFullType, kLastType in *. rewrite swrap_small by (cbn; lia).
  split; [apply wrap_small; lia|]. by apply Z.eqb_neq; unfold kZeroType; lia.
Qed.

Lemma stored_checksum t data rest :
  stored t data ->
  Unmask (DecodeFixed32 (EncodeFixed32 (Mask (Value (t :: data))) ++ rest)) = Value (t :: data).
Proof.
  intros ([H1 H2] & _ & Hb).
  assert (is_u32 (Value (t :: data))) as Hv.
  { apply (value_u32 (Checksum := C)). constructor; [unfold is_byte, kFullType, kLastType in *; lia|done]. }
  destruct (mask_inverse _ Hv) as (Hm & _ & E & _). by rewrite DecodeFixed32_Encode.
Qed.

Lemma u64_not_negative z : (u64 z <? 0) = false.
Proof. apply Z.ltb_ge. apply (wrap_range 64). lia. Qed.

Lemma parse_stored (r : Reader F) result t data rest :
  stored t data -> initial_offset_ r = 0 -> buffer_ r = physical_record Value t data ++ rest ->
  parse_record Value r result = (t, data, with_buffer r rest).
Proof.
  intros Hs Hi Hbuf. unfold parse_record. rewrite Hbuf.
  destruct (physical_record_cons t data) as (b0 & b1 & b2 & b3 & Ee & Ep).
  pose proof (zlen_physical (Value := Value) t data) as Hl. pose proof (stored_checksum t data (skipn 4 (physical_record Value t data ++ rest)) Hs) as Hc.
  rewrite Ee in Hc. rewrite Ep in *. destruct (stored_type t data Hs) as [Ht Hz]. destruct Hs as (_ & Hlen & _).
  cbn [app byte_at nth]. unfold byte_at. cbn [nth]. rewrite Ht, Hz, header_length by done. cbn [andb].
  pose proof (zlen_nonneg rest). pose proof (zlen_nonneg data).
  change (b0 :: b1 :: b2 :: b3 :: zlen data mod 256 :: zlen data / 256 :: t :: data ++ rest)
    with ((b0 :: b1 :: b2 :: b3 :: zlen data mod 256 :: zlen data / 256 :: t :: data) ++ rest).
  rewrite zlen_app, Hl. destruct (Z.gtb_spec (kHeaderSize + zlen data) (kHeaderSize + zlen data + zlen rest)); [lia|].
  cbn [app] in Hc |- *. cbn [skipn] in Hc |- *. rewrite Hc.
  assert (firstn (Z.to_nat (1 + zlen data)) (t :: data ++ rest) = t :: data) as ->.
  { replace (Z.to_nat (1 + zlen data)) with (S (Z.to_nat (zlen data))) by lia. cbn [firstn]. by rewrite firstn_zlen. }
  rewrite Z.eqb_refl. cbn [negb]. rewrite andb_false_r.
  cbn [initial_offset_ with_buffer]. rewrite Hi.
  rewrite u64_not_negative.
  change (Z.to_nat kHeaderSize) with 7%nat.
  replace (Z.to_nat (kHeaderSize + zlen data)) with (7 + Z.to_nat (zlen data))%nat by (unfold kHeaderSize; lia).
  rewrite <- drop_drop. change (drop 7 _) with (data ++ rest). rewrite firstn_zlen.
  unfold zlen. by rewrite Nat2Z.id, drop_app_length.
Qed.

(** A header whose record is cut off at the end of the file. *)
Lemma parse_truncated (r : Reader F) result t data q :
  stored t data -> physical_record Value t data = buffer_ r ++ q -> q <> [] -> kHeaderSize <= zlen (buffer_ r) ->
  eof_ r = true -> parse_record Value r result = (kEof, result, with_buffer r []).
Proof.
  intros Hs Hbuf Hq H7 He. unfold parse_record.
  destruct (physical_record_cons t data) as (b0 & b1 & b2 & b3 & _ & Ep). pose proof (zlen_physical (Value := Value) t data) as Hl.
  rewrite Hbuf, zlen_app in Hl. rewrite Ep in Hbuf. destruct Hs as (_ & Hlen & _).
  assert (0 < zlen q) by (destruct q; [done|rewrite zlen_cons; pose proof (zlen_nonneg q); lia]).
  assert (byte_at (buffer_ r) 4 = zlen data mod 256 /\ byte_at (buffer_ r) 5 = zlen data / 256) as [-> ->].
  { unfold kHeaderSize, zlen in H7. destruct (buffer_ r) as [|c0 [|c1 [|c2 [|c3 [|c4 [|c5 [|c6 b]]]]]]]; cbn in H7; try lia.
    cbn [app] in Hbuf. injection Hbuf as -> -> -> -> -> -> -> _. done. }
  rewrite header_length by done.
  destruct (Z.gtb_spec (kHeaderSize + zlen data) (zlen (buffer_ r))); [|lia]. cbn [eof_ with_buffer]. by rewrite He.
Qed.

(** ** Reading from the file *)

(** A reader without an initial offset to go to. *)
Definition from_start (r : Reader F) : Prop := initial_offset_ r = 0 /\ 0 <= last_record_offset_ r.

(** The reader has [s] left to read, at offset [off] of a block; the buffer holds
    what is left of the block, or of the file. *)
Definition reading (r : Reader F) (off : Z) (s : list Z) : Prop :=
  0 <= off <= kBlockSize /\ from_start r /\ resyncing_ r = false /\
  s = buffer_ r ++ unread (file_ r) /\
  if eof_ r then unread (file_ r) = [] /\ zlen (buffer_ r) <= kBlockSize - off
  else zlen (buffer_ r) = kBlockSize - off.

(** What a step keeps. *)
Definition same_calls (r r' : Reader F) : Prop := reporter_ r' = reporter_ r /\ checksum_ r' = checksum_ r.

Lemma same_calls_trans r1 r2 r3 : same_calls r1 r2 -> same_calls r2 r3 -> same_calls r1 r3.
Proof. unfold same_calls. intuition congruence. Qed.

Lemma new_reader_reading file reporter checksum :
  reading (new_reader file reporter checksum 0) kBlockSize (unread file).
Proof. unfold reading. split_and!; done. Qed.

(** Filling the buffer with the next block. *)
Lemma refill_block r result :
  eof_ r = false ->
  exists r', refill r result = Ret (inl r') /\ buffer_ r' = firstn (Z.to_nat kBlockSize) (unread (file_ r)) /\
    unread (file_ r') = skipn (Z.to_nat kBlockSize) (unread (file_ r)) /\
    eof_ r' = (zlen (buffer_ r') <? kBlockSize) /\
    (from_start r -> from_start r') /\ resyncing_ r' = resyncing_ r /\ same_calls r r'.
Proof.
  intros He. unfold refill. rewrite He. cbn [negb file_ buffer_ with_buffer].
  destruct (read_unread (file_ r) kBlockSize []) as (f & E & Hu); [unfold kBlockSize; lia|]. rewrite E.
  cbn [rbind is_ok negb status_ok buffer_ with_buffer with_end_of_buffer_offset].
  destruct (_ <? kBlockSize) eqn:El; eexists; (split; [done|]); cbn; rewrite ?He; by split_and!.
Qed.

(** The new block, from its start. *)
Lemma refill_reading r result s :
  eof_ r = false -> from_start r -> resyncing_ r = false -> unread (file_ r) = s ->
  exists r', refill r result = Ret (inl r') /\ reading r' 0 s /\ same_calls r r' /\
    (zlen s < kBlockSize -> buffer_ r' = s /\ eof_ r' = true) /\
    (kBlockSize <= zlen s -> zlen (buffer_ r') = kBlockSize).
Proof.
  intros He Hi Hr Hs. destruct (refill_block r result He) as (r' & E & Hb & Hu & He' & Hi' & Hr' & Hc).
  exists r'. rewrite Hs in *. assert (0 <= kBlockSize) by (unfold kBlockSize; lia).
  assert (zlen (buffer_ r') = Z.min kBlockSize (zlen s)) as El
    by (rewrite Hb; unfold zlen in *; rewrite length_take; lia).
  split_and!; try done.
  - unfold reading. rewrite He'. split_and!; [lia|lia|by apply Hi'|congruence|by rewrite Hb, Hu, firstn_skipn|].
    destruct (Z.ltb_spec (zlen (buffer_ r')) kBlockSize).
    + split; [|lia]. rewrite Hu. apply skipn_all2. unfold zlen in *. lia.
    + lia.
  - intros Hlt. rewrite He', El. split; [|by apply Z.ltb_lt; lia].
    rewrite Hb. apply firstn_all2. unfold zlen in *. lia.
  - intros Hge. lia.
Qed.

Lemma trailer_none off : kHeaderSize <= kBlockSize - off -> trailer off = [] /\ header_start off = off.
Proof. intros H. unfold trailer, header_start. by destruct (Z.ltb_spec (kBlockSize - off) kHeaderSize); [lia|]. Qed.

Lemma trailer_some off :
  0 <= off <= kBlockSize -> kBlockSize - off < kHeaderSize -> zlen (trailer off) = kBlockSize - off /\ header_start off = 0.
Proof.
  intros Ho H. rewrite zlen_trailer by done. unfold header_start.
  by destruct (Z.ltb_spec (kBlockSize - off) kHeaderSize); [|lia].
Qed.

(** At the trailer of a block that is not the last: the buffer holds it. *)
Lemma reading_trailer r off s :
  reading r off (trailer off ++ s) -> kBlockSize - off < kHeaderSize -> kHeaderSize <= zlen s ->
  eof_ r = false /\ unread (file_ r) = s /\ zlen (buffer_ r) < kHeaderSize.
Proof.
  intros (Ho & _ & _ & Hs & He) H7 Hl. destruct (trailer_some off Ho H7) as [Ht _].
  apply (f_equal zlen) in Hs as Hlen. rewrite !zlen_app in Hlen. destruct (eof_ r).
  - destruct He as [Hu Hb]. rewrite Hu in Hlen. change (zlen []) with 0 in Hlen. lia.
  - apply app_inj_1 in Hs as [_ ->]; [|unfold zlen in *; lia]. split_and!; [done|done|lia].
Qed.

Lemma zlen_physical_min t data : kHeaderSize <= zlen (physical_record Value t data).
Proof. rewrite zlen_physical. pose proof (zlen_nonneg data). lia. Qed.

(** A complete record that starts in the buffer is wholly in it. *)
Lemma reading_buffered r off p s :
  reading r off (p ++ s) -> zlen p <= kBlockSize - off ->
  exists b, buffer_ r = p ++ b /\ s = b ++ unread (file_ r).
Proof.
  intros (Ho & _ & _ & Hs & He) Hfit. destruct (eof_ r).
  - destruct He as [Hu _]. rewrite Hu, app_nil_r in *. exists s. by rewrite app_nil_r.
  - destruct (app_eq_inv _ _ _ _ Hs) as [(k & E1 & E2)|(k & E1 & E2)].
    + exists []. assert (k = []) as ->.
      { apply (f_equal zlen) in E1. rewrite zlen_app in E1. destruct k; [done|].
        rewrite zlen_cons in E1. pose proof (zlen_nonneg k). lia. }
      rewrite app_nil_r in *. by rewrite <- E1.
    + by exists k.
Qed.

(** Consuming a record of the buffer. *)
Lemma reading_consume r off p b s :
  reading r off (p ++ s) -> buffer_ r = p ++ b -> s = b ++ unread (file_ r) -> zlen p <= kBlockSize - off ->
  reading (with_buffer r b) (off + zlen p) s.
Proof.
  intros (Ho & Hi & Hr & Hs & He) Hb Hs' Hfit. unfold reading. cbn [initial_offset_ resyncing_ buffer_ file_ eof_ with_buffer].
  rewrite Hb, zlen_app in He. pose proof (zlen_nonneg p). split_and!; try done; try lia.
  destruct (eof_ r); [|lia]. destruct He. split; [done|lia].
Qed.

Lemma ReadPhysicalRecord_stored r off t data s result :
  stored t data -> header_start off + kHeaderSize + zlen data <= kBlockSize ->
  reading r off (trailer off ++ physical_record Value t data ++ s) ->
  exists r', ReadPhysicalRecord Value r result = Ret (t, data, r') /\
    reading r' (header_start off + kHeaderSize + zlen data) s /\ same_calls r r'.
Proof.
  intros Hst Hfit Hr. unfold ReadPhysicalRecord. rewrite loop_unfold.
  pose proof (zlen_physical_min t data) as Hmin.
  assert (forall r off, reading r off (physical_record Value t data ++ s) -> kHeaderSize + zlen data <= kBlockSize - off ->
    exists b, (zlen (buffer_ r) <? kHeaderSize) = false /\ parse_record Value r result = (t, data, with_buffer r b) /\
    reading (with_buffer r b) (off + (kHeaderSize + zlen data)) s) as Hgo.
  { clear r off Hfit Hr. intros r off Hr Hfit. rewrite <- (zlen_physical (Value := Value) t data) in *.
    destruct (reading_buffered r off _ s Hr) as (b & Hb & Hs); [done|]. exists b. split_and!.
    - apply Z.ltb_ge. rewrite Hb, zlen_app. pose proof (zlen_nonneg b). lia.
    - apply parse_stored; [done|by apply Hr|done].
    - by apply reading_consume. }
  destruct (decide (kHeaderSize <= kBlockSize - off)) as [H7|H7].
  - destruct (trailer_none off H7) as [Et Eh]. rewrite Et in Hr. rewrite Eh in *.
    destruct (Hgo r off Hr) as (b & -> & -> & Hr'); [lia|]. cbn [rbind]. eexists. split; [done|].
    split; [|done]. by replace (off + kHeaderSize + zlen data) with (off + (kHeaderSize + zlen data)) by lia.
  - destruct (reading_trailer r off _ Hr) as (He & Hu & Hb);
      [lia|rewrite zlen_app; pose proof (zlen_nonneg s); lia|].
    destruct (trailer_some off) as [_ Eh]; [apply Hr|lia|]. rewrite Eh in *.
    destruct (Z.ltb_spec (zlen (buffer_ r)) kHeaderSize); [|lia].
    destruct Hr as (_ & Hi & Hre & _). destruct (refill_reading r result _ He Hi Hre Hu) as (r1 & -> & Hr1 & Hc & _).
    cbn [rbind]. rewrite loop_unfold. destruct (Hgo r1 0 Hr1) as (b & -> & -> & Hr'); [lia|]. cbn [rbind].
    eexists. split; [done|]. split; [|done]. by replace (0 + kHeaderSize + zlen data) with (0 + (kHeaderSize + zlen data)) by lia.
Qed.

(** A record cut off at the end of the file is not reported. *)
Lemma ReadPhysicalRecord_cut r off t data s q result :
  stored t data -> header_start off + kHeaderSize + zlen data <= kBlockSize ->
  trailer off ++ physical_record Value t data = s ++ q -> q <> [] -> reading r off s ->
  exists r', ReadPhysicalRecord Value r result = Ret (kEof, result, r') /\ same_calls r r' /\
    from_start r' /\ resyncing_ r' = false.
Proof.
  intros Hst Hfit Hcut Hq Hr. unfold ReadPhysicalRecord. rewrite loop_unfold.
  assert (0 < zlen q) as Hq0 by (destruct q; [done|rewrite zlen_cons; pose proof (zlen_nonneg q); lia]).
  assert (forall r s', eof_ r = true -> buffer_ r = s' -> physical_record Value t data = s' ++ q ->
    from_start r -> resyncing_ r = false ->
    exists r', (if zlen (buffer_ r) <? kHeaderSize then refill r result
      else Ret (inr (parse_record Value r result))) = Ret (inr (kEof, result, r')) /\ same_calls r r' /\
    from_start r' /\ resyncing_ r' = false) as Hend.
  { clear r Hr. intros r s' He Hb Hp Hi Hre. destruct (Z.ltb_spec (zlen (buffer_ r)) kHeaderSize).
    - unfold refill. rewrite He. by eexists.
    - rewrite (parse_truncated r result t data q); [by eexists|done|by rewrite Hb|done|done|done]. }
  apply (f_equal zlen) in Hcut as Hl. rewrite !zlen_app, zlen_physical in Hl.
  destruct Hr as (Ho & Hi & Hre & Hs & He).
  destruct (decide (kHeaderSize <= kBlockSize - off)) as [H7|H7].
  - destruct (trailer_none off H7) as [Et Eh]. rewrite Et in *. rewrite Eh in *. cbn [app] in Hcut.
    change (zlen []) with 0 in Hl. destruct (eof_ r) eqn:Ee.
    + destruct He as [Hu _]. rewrite Hu, app_nil_r in Hs.
      destruct (Hend r s) as (r' & -> & Hc & ?); try done. cbn [rbind]. by eexists.
    + rewrite Hs, zlen_app in Hl. pose proof (zlen_nonneg (unread (file_ r))). lia.
  - destruct (trailer_some off Ho ltac:(lia)) as [Et Eh]. rewrite Eh in *. pose proof (zlen_nonneg data).
    destruct (eof_ r) eqn:Ee.
    + destruct He as [Hu Hb]. destruct (Z.ltb_spec (zlen (buffer_ r)) kHeaderSize); [|lia].
      unfold refill. rewrite Ee. cbn [negb rbind]. by eexists.
    + destruct (Z.ltb_spec (zlen (buffer_ r)) kHeaderSize); [|lia].
      rewrite Hs, <- app_assoc in Hcut. apply app_inj_1 in Hcut as [_ Hcut]; [|unfold zlen in *; lia].
      destruct (refill_reading r result _ Ee Hi Hre eq_refl) as (r1 & -> & Hr1 & Hc & Hshort & _).
      cbn [rbind]. rewrite loop_unfold. rewrite Hs, zlen_app in Hl.
      destruct Hshort as [Hb1 He1]; [lia|]. destruct Hr1 as (_ & Hi1 & Hre1 & _).
      destruct (Hend r1 (unread (file_ r))) as (r' & -> & Hc' & ?); try done. cbn [rbind].
      eexists. split; [done|]. split; [by eapply same_calls_trans|done].
Qed.

(** ** Putting records together *)

(** What [read_round] does with a fragment read outside resynchronisation, in
    the states a log gives rise to. *)
Lemma round_fragment r l t data r' :
  ReadPhysicalRecord Value r (fragment l) = Ret (t, data, r') -> resyncing_ r' = false ->
  0 <= prospective_record_offset l ->
  exists l' r'', 0 <= prospective_record_offset l' /\ same_calls r' r'' /\ (forall off s, reading r' off s -> reading r'' off s) /\
    (t = kFullType -> in_fragmented_record l = false ->
       read_round Value (r, l) = Ret (inr (true, data, [], r''))) /\
    (t = kFirstType -> in_fragmented_record l = false ->
       read_round Value (r, l) = Ret (inl (r'', l')) /\ scratch l' = data /\ in_fragmented_record l' = true) /\
    (t = kMiddleType -> in_fragmented_record l = true ->
       read_round Value (r, l) = Ret (inl (r'', l')) /\ scratch l' = scratch l ++ data /\
       in_fragmented_record l' = true) /\
    (t = kLastType -> in_fragmented_record l = true ->
       read_round Value (r, l) = Ret (inr (true, scratch l ++ data, scratch l ++ data, r''))).
Proof.
  intros E Hr Hp. unfold read_round. rewrite E. cbn [rbind]. rewrite Hr. cbn [andb].
  set (o := u64 _). assert (0 <= o) as Ho by (apply (wrap_range 64); lia).
  assert (forall o off s, 0 <= o -> reading r' off s -> reading (with_last_record_offset r' o) off s) as Hw.
  { intros o' off s Ho' (H1 & [H2 _] & H3 & H4 & H5). split; [done|]. split; [by split|]. by split_and!. }
  destruct (Z.eqb_spec t kFullType) as [->|H1].
  { exists l, (with_last_record_offset r' o). do 2 (split; [done|]). split; [by intros; apply Hw|].
    split; [by intros _ ->|by split_and!]. }
  destruct (Z.eqb_spec t kFirstType) as [->|H2].
  { exists (mk_assembling data data true o), r'. do 4 (split; [done|]). split; [|by split_and!]. by intros _ ->. }
  destruct (Z.eqb_spec t kMiddleType) as [->|H3].
  { exists (mk_assembling data (scratch l ++ data) true (prospective_record_offset l)), r'.
    do 5 (split; [done|]). split; [|done]. cbn [in_fragmented_record]. by intros _ ->. }
  destruct (Z.eqb_spec t kLastType) as [->|H4].
  { exists l, (with_last_record_offset r' (prospective_record_offset l)). do 2 (split; [done|]).
    split; [by intros; apply Hw|]. do 3 (split; [done|]).
    cbn [in_fragmented_record]. by intros _ ->. }
  exists l, r'. by split_and!.
Qed.

Lemma round_eof r l result r' :
  ReadPhysicalRecord Value r (fragment l) = Ret (kEof, result, r') -> resyncing_ r' = false ->
  exists sc, read_round Value (r, l) = Ret (inr (false, [], sc, r')).
Proof. intros E Hr. unfold read_round. rewrite E. cbn [rbind]. rewrite Hr. by eexists. Qed.

(** The fragments of a fragmentation can be stored. *)
Lemma record_type_stored begin last data off :
  0 <= off <= kBlockSize -> header_start off + kHeaderSize + zlen data <= kBlockSize -> Forall is_byte data ->
  stored (record_type begin last) data.
Proof.
  intros Ho Hfit Hb. pose proof (header_start_range off Ho). unfold kHeaderSize, kBlockSize in *.
  split; [by destruct begin, last|]. split; [lia|done].
Qed.

(** From a reader at the start of a fragmentation of which [s] is in the file:
    the record when [s] reaches its end, and otherwise the end of the file. *)
Lemma read_fragmented off begin data bytes off' :
  fragmented Value off begin data bytes off' -> 0 <= off <= kBlockSize -> Forall is_byte data ->
  forall r l fuel s, in_fragmented_record l = negb begin -> 0 <= prospective_record_offset l -> (length s < fuel)%nat -> reading r off s ->
    (forall rest, s = bytes ++ rest ->
      exists r' sc, loop fuel (read_round Value) (r, l) =
          Ret (true, (if begin then data else scratch l ++ data), sc, r') /\
        reading r' off' rest /\ same_calls r r') /\
    (forall q, bytes = s ++ q -> q <> [] ->
      exists r' sc, loop fuel (read_round Value) (r, l) = Ret (false, [], sc, r') /\ same_calls r r').
Proof.
  intros H. induction H as [off begin data Hfit|off begin part rest bytes off' Hfull Hne Hrest IH];
    intros Ho Hb r l [|fuel] s Hl Hp Hf Hr; try lia.
  - pose proof (record_type_stored begin true data off Ho Hfit Hb) as Hst. split.
    + intros rest ->. rewrite <- app_assoc in Hr.
      destruct (ReadPhysicalRecord_stored r off _ data rest (fragment l) Hst Hfit Hr) as (r1 & E & Hr1 & Hc).
      destruct (round_fragment r l _ data r1 E ltac:(apply Hr1) Hp) as (l' & r2 & _ & Hc2 & Hr2 & Hfull & _ & _ & Hlast).
      rewrite loop_unfold. destruct begin; cbn in Hl.
      * rewrite (Hfull eq_refl Hl). cbn [rbind]. do 2 eexists. split; [done|].
        split; [by apply Hr2|by eapply same_calls_trans].
      * rewrite (Hlast eq_refl Hl). cbn [rbind]. do 2 eexists. split; [done|].
        split; [by apply Hr2|by eapply same_calls_trans].
    + intros q Eq Hq.
      destruct (ReadPhysicalRecord_cut r off _ data s q (fragment l) Hst Hfit Eq Hq Hr) as (r1 & E & Hc & _ & Hre).
      destruct (round_eof r l _ r1 E Hre) as (sc & E'). rewrite loop_unfold, E'. cbn [rbind]. by do 2 eexists.
  - apply Forall_app in Hb as [Hb1 Hb2].
    pose proof (record_type_stored begin false part off Ho ltac:(lia) Hb1) as Hst.
    assert (forall s', s = (trailer off ++ physical_record Value (record_type begin false) part) ++ s' ->
      exists l' r2, read_round Value (r, l) = Ret (inl (r2, l')) /\ reading r2 kBlockSize s' /\ same_calls r r2 /\
        in_fragmented_record l' = true /\ 0 <= prospective_record_offset l' /\
        scratch l' = (if begin then part else scratch l ++ part)) as Hstep.
    { intros s' ->. rewrite <- app_assoc in Hr.
      destruct (ReadPhysicalRecord_stored r off _ part s' (fragment l) Hst ltac:(lia) Hr) as (r1 & E & Hr1 & Hc).
      rewrite Hfull in Hr1.
      destruct (round_fragment r l _ part r1 E ltac:(apply Hr1) Hp) as (l' & r2 & Hp' & Hc2 & Hr2 & _ & Hfirst & Hmid & _).
      exists l', r2. destruct begin; cbn in Hl.
      - destruct (Hfirst eq_refl Hl) as (-> & ? & ?). split_and!; try done; [by apply Hr2|by eapply same_calls_trans].
      - destruct (Hmid eq_refl Hl) as (-> & ? & ?). split_and!; try done; [by apply Hr2|by eapply same_calls_trans]. }
    assert (forall s', s = (trailer off ++ physical_record Value (record_type begin false) part) ++ s' ->
      (length s' < fuel)%nat) as Hf'.
    { intros s' ->. pose proof (zlen_physical_min (record_type begin false) part) as Hm.
      rewrite !length_app in Hf. unfold zlen, kHeaderSize in Hm. lia. }
    assert (0 <= kBlockSize <= kBlockSize) as HoB by (unfold kBlockSize; lia).
    rewrite (app_assoc (trailer off)). rewrite loop_unfold. split.
    + intros rest' ->. rewrite <- app_assoc in Hr, Hf, Hstep, Hf'.
      destruct (Hstep _ eq_refl) as (l' & r2 & -> & Hr2 & Hc & Hin & Hp' & Hsc). cbn [rbind].
      destruct (IH HoB Hb2 r2 l' fuel (bytes ++ rest')) as [IH1 _]; [done|done|by apply Hf'|done|].
      destruct (IH1 rest' eq_refl) as (r' & sc & -> & Hr' & Hc'). exists r', sc.
      split; [|split; [done|by eapply same_calls_trans]]. rewrite Hsc. destruct begin; [done|]. by rewrite app_assoc.
    + intros q Eq Hq. destruct (app_eq_inv _ _ _ _ Eq) as [(k & Ecut & Ek)|(k & Ek & Eb)].
      * destruct (decide (k = [])) as [->|Hk].
        -- rewrite app_nil_r in Ecut. cbn [app] in Ek. subst q.
           destruct (Hstep [] ltac:(by rewrite app_nil_r)) as (l' & r2 & -> & Hr2 & Hc & Hin & Hp' & _).
           cbn [rbind]. destruct (IH HoB Hb2 r2 l' fuel []) as [_ IH2]; [done|done|apply Hf'; by rewrite app_nil_r|done|].
           destruct (IH2 bytes eq_refl) as (r' & sc & -> & Hc'); [done|]. exists r', sc.
           split; [done|by eapply same_calls_trans].
        -- destruct (ReadPhysicalRecord_cut r off _ part s k (fragment l) Hst ltac:(lia) Ecut Hk Hr) as (r1 & E & Hc & _ & Hre).
           destruct (round_eof r l _ r1 E Hre) as (sc & ->). cbn [rbind]. by do 2 eexists.
      * destruct (Hstep k Ek) as (l' & r2 & -> & Hr2 & Hc & Hin & Hp' & _). cbn [rbind].
        destruct (IH HoB Hb2 r2 l' fuel k) as [_ IH2]; [done|done|by apply Hf'|done|].
        destruct (IH2 q Eb Hq) as (r' & sc & -> & Hc'). exists r', sc. split; [done|by eapply same_calls_trans].
Qed.

(** [ReadRecord] from the start of the file on. *)
Lemma ReadRecord_start fuel r record scratch :
  from_start r ->
  ReadRecord Value fuel r record scratch = loop fuel (read_round Value) (r, mk_assembling [] [] false 0).
Proof. intros [Hi Hl]. unfold ReadRecord. rewrite Hi. by destruct (Z.ltb_spec (last_record_offset_ r) 0); [lia|]. Qed.

(** ** Whole logs *)

Lemma ReadRecord_from_start fuel r record scratch result :
  ReadRecord Value fuel r record scratch = Ret result -> from_start r ->
  loop fuel (read_round Value) (r, mk_assembling [] [] false 0) = Ret result.
Proof. intros H Hr. by rewrite ReadRecord_start in H. Qed.

(** The records of a log that are complete in its first bytes [s]. *)
Definition complete (off : Z) (records : list (list Z)) (s : list Z) (k : nat) : Prop :=
  (exists bytes off', logged Value off (firstn k records) bytes off' /\ bytes `prefix_of` s) /\
  ((k < length records)%nat ->
   forall bytes off', logged Value off (firstn (S k) records) bytes off' -> (length s < length bytes)%nat).

Lemma read_log off records bytes off' :
  logged Value off records bytes off' -> 0 <= off <= kBlockSize -> Forall (Forall is_byte) records ->
  forall r s q n fuel, reading r off s -> bytes = s ++ q ->
    (length records < n)%nat -> (length s < fuel)%nat ->
    exists k r', read_records Value n fuel r = Ret (firstn k records, r') /\ same_calls r r' /\
      complete off records s k /\ (q = [] -> firstn k records = records).
Proof.
  intros H. induction H as [off|off record records bytes off1 rest off2 Hfr Hlog IH];
    intros Ho Hb r s q [|n] fuel Hr Eq Hn Hf; try (cbn in Hn; lia).
  - destruct (app_nil s q) as [Hnil _]. destruct (Hnil (eq_sym Eq)) as [-> ->].
    destruct fuel as [|fuel]; [lia|]. cbn [read_records]. rewrite ReadRecord_start by apply Hr.
    destruct (header_start_range off Ho) as [_ H7].
    assert (stored kFullType []) as Hst by (split_and!; [done..|constructor]).
    destruct (ReadPhysicalRecord_cut r off kFullType [] [] (trailer off ++ physical_record Value kFullType []) []
      Hst) as (r' & E & Hc & _ & Hre); [change (zlen []) with 0; lia|done| |done|].
    { intros [_ E]%app_nil. pose proof (zlen_physical_min kFullType []) as Hm. rewrite E in Hm.
      unfold kHeaderSize in Hm. change (zlen []) with 0 in Hm. lia. }
    destruct (round_eof r (mk_assembling [] [] false 0) [] r' E Hre) as (sc & E'). rewrite loop_unfold, E'. cbn [rbind].
    exists 0%nat, r'. split_and!; try done. split; [|cbn; lia]. exists [], off. split; [constructor|apply prefix_nil].
  - apply Forall_cons in Hb as [Hb1 Hb2]. pose proof (fragmented_range _ _ _ _ _ Ho Hfr) as Ho1.
    cbn [read_records]. rewrite ReadRecord_start by apply Hr.
    destruct (read_fragmented _ _ _ _ _ Hfr Ho Hb1 r (mk_assembling [] [] false 0) fuel s) as [Hall Hcut]; [done..|].
    destruct (app_eq_inv _ _ _ _ Eq) as [(k & Ek & Er)|(k & Ek & Er)].
    + destruct (decide (k = [])) as [->|Hk].
      * (* exactly this record *)
        rewrite app_nil_r in Ek. cbn [app] in Er. subst q.
        destruct (Hall [] ltac:(by rewrite app_nil_r)) as (r1 & sc & -> & Hr1 & Hc). cbn [rbind].
        destruct (IH Ho1 Hb2 r1 [] rest n fuel Hr1 eq_refl ltac:(cbn in Hn; lia) ltac:(cbn; lia))
          as (k & r' & -> & Hc' & [(b1 & o1 & Hl1 & Hp1) Hnext] & Hend). cbn [rbind].
        exists (S k), r'. cbn [firstn]. split_and!; [done|by eapply same_calls_trans| |by intros ->%Hend].
        split.
        -- exists (bytes ++ b1), o1. split; [by econstructor|].
           apply prefix_nil_inv in Hp1 as ->. by rewrite app_nil_r, <- Ek.
        -- cbn [length]. intros Hlt b o Hl. inversion Hl as [|? ? ? b' ob ? ? Hf' Hl']; subst.
           destruct (fragmented_unique _ _ _ _ _ _ _ Hfr Hf') as [-> ->]. rewrite length_app.
           specialize (Hnext ltac:(lia) _ _ Hl'). cbn in Hnext. lia.
      * (* cut inside this record *)
        destruct (Hcut k Ek Hk) as (r' & sc & -> & Hc). cbn [rbind]. exists 0%nat, r'. cbn [firstn].
        split_and!; [done|done| |].
        -- split; [exists [], off; split; [constructor|apply prefix_nil]|]. intros _ b o Hl.
           inversion Hl as [|? ? ? b' ob ? ? Hf' Hl']; subst. inversion Hl'; subst.
           destruct (fragmented_unique _ _ _ _ _ _ _ Hfr Hf') as [<- _]. rewrite !length_app.
           destruct k; [done|]. cbn. lia.
        -- intros ->. apply (f_equal length) in Er. rewrite length_app in Er. destruct k; [done|]. cbn in Er. lia.
    + (* the record and more *)
      destruct (Hall k Ek) as (r1 & sc & -> & Hr1 & Hc). cbn [rbind].
      destruct (IH Ho1 Hb2 r1 k q n fuel Hr1 Er ltac:(cbn in Hn; lia)) as (j & r' & -> & Hc' & [(b1 & o1 & Hl1 & Hp1) Hnext] & Hend).
      { rewrite Ek, length_app in Hf. lia. }
      cbn [rbind]. exists (S j), r'. cbn [firstn]. split_and!; [done|by eapply same_calls_trans| |by intros ->%Hend].
      split.
      * exists (bytes ++ b1), o1. split; [by econstructor|]. rewrite Ek. by apply prefix_app.
      * cbn [length]. intros Hlt b o Hl. inversion Hl as [|? ? ? b' ob ? ? Hf' Hl']; subst.
        destruct (fragmented_unique _ _ _ _ _ _ _ Hfr Hf') as [<- <-]. rewrite !length_app.
        specialize (Hnext ltac:(lia) _ _ Hl'). lia.
Qed.

(** ** Arbitrary contents *)

(** Bytes the reader can still come across. *)
Definition bytes_left (r : Reader F) : nat := (length (buffer_ r) + length (unread (file_ r)))%nat.

Lemma parse_record_consumes r result :
  kHeaderSize <= zlen (buffer_ r) ->
  let '(_, _, r') := parse_record Value r result in
  (bytes_left r' < bytes_left r)%nat.
Proof.
  intros H7. unfold parse_record, bytes_left. unfold kHeaderSize, zlen in *.
  assert (forall (r : Reader F) b reason, buffer_ (ReportCorruption r b reason) = buffer_ r /\ file_ (ReportCorruption r b reason) = file_ r) as Hrep.
  { intros r0 b reason. unfold ReportCorruption, ReportDrop. destruct (reporter_ r0); [|done]. by destruct (_ >=? _). }
  set (len := Z.lor _ _). destruct (_ >? _).
  { destruct (negb _); [rewrite (proj1 (Hrep _ _ _)), (proj2 (Hrep _ _ _))|]; cbn; lia. }
  destruct (_ && _); [cbn; lia|]. destruct (_ && _).
  { rewrite (proj1 (Hrep _ _ _)), (proj2 (Hrep _ _ _)). cbn; lia. }
  assert (0 <= len) by (apply Z.lor_nonneg; split; [apply Z.land_nonneg; lia|apply Z.shiftl_nonneg, Z.land_nonneg; lia]).
  destruct (_ <? _); cbn [buffer_ file_ with_buffer]; rewrite length_drop; lia.
Qed.

Lemma ReadPhysicalRecord_total r result :
  exists t data r', ReadPhysicalRecord Value r result = Ret (t, data, r') /\
    (t <> kEof -> (bytes_left r' < bytes_left r)%nat).
Proof.
  unfold ReadPhysicalRecord. rewrite loop_unfold. destruct (Z.ltb_spec (zlen (buffer_ r)) kHeaderSize) as [H7|H7].
  - destruct (eof_ r) eqn:Ee.
    { unfold refill. rewrite Ee. cbn [negb rbind]. do 3 eexists. split; [done|]. by intros []. }
    destruct (refill_block r result Ee) as (r1 & -> & Hb & Hu & He & _). cbn [rbind]. rewrite loop_unfold.
    assert (bytes_left r1 <= bytes_left r)%nat as Hle.
    { unfold bytes_left. rewrite Hb, Hu, length_take, length_drop. lia. }
    destruct (Z.ltb_spec (zlen (buffer_ r1)) kHeaderSize) as [H7'|H7'].
    + unfold refill. rewrite He. destruct (Z.ltb_spec (zlen (buffer_ r1)) kBlockSize); [|unfold kBlockSize, kHeaderSize in *; lia].
      cbn [negb rbind]. do 3 eexists. split; [done|]. by intros [].
    + pose proof (parse_record_consumes r1 result H7') as Hlt. destruct (parse_record Value r1 result) as [[t d] r'].
      cbn [rbind]. do 3 eexists. split; [done|]. lia.
  - pose proof (parse_record_consumes r result H7) as Hlt. destruct (parse_record Value r result) as [[t d] r'].
    cbn [rbind]. do 3 eexists. split; [done|]. lia.
Qed.

Lemma report_bytes_left (r : Reader F) n reason : bytes_left (ReportCorruption r n reason) = bytes_left r.
Proof. unfold ReportCorruption, ReportDrop. destruct (reporter_ r); [|done]. by destruct (_ >=? _). Qed.

Lemma read_round_total r l :
  exists x, read_round Value (r, l) = Ret x /\
    match x with inl (r', _) => (bytes_left r' < bytes_left r)%nat | inr _ => True end.
Proof.
  unfold read_round. destruct (ReadPhysicalRecord_total r (fragment l)) as (t & d & r1 & -> & Hlt). cbn [rbind].
  set (r2 := if _ && negb _ then _ else r1).
  assert (bytes_left r2 = bytes_left r1) as E2 by (unfold r2; by destruct (_ && _)).
  clearbody r2. destruct (Z.eqb_spec t kEof) as [->|Hne].
  - rewrite andb_false_r. cbn. by eexists.
  - specialize (Hlt Hne).
    repeat (let b := match goal with |- context [if ?b then _ else _] => b end in destruct b);
    (eexists; split; [done|]); cbn -[ReportCorruption]; rewrite ?report_bytes_left; try done; lia.
Qed.

Lemma ReadRecord_total fuel r record scratch :
  0 <= initial_offset_ r < 2 ^ 62 -> (bytes_left r < fuel)%nat ->
  exists result, ReadRecord Value fuel r record scratch = Ret result.
Proof.
  intros Hi Hf. unfold ReadRecord.
  set (start := if _ <? _ then _ else _).
  assert (exists b r1, start = Ret (b, r1) /\ (bytes_left r1 <= bytes_left r)%nat) as (b & r1 & -> & Hs).
  { unfold start. destruct (_ <? _); [|by do 2 eexists]. unfold SkipToInitialBlock.
    set (loc := if _ >? kBlockSize - 6 then _ else _).
    assert (0 <= loc < 2 ^ 63) as Hloc.
    { unfold loc. pose proof (Z.mod_pos_bound (initial_offset_ r) kBlockSize ltac:(by unfold kBlockSize)) as Hm.
      pose proof (Z.div_mod (initial_offset_ r) kBlockSize ltac:(by unfold kBlockSize)).
      assert (0 <= initial_offset_ r - initial_offset_ r mod kBlockSize <= initial_offset_ r) as Hd.
      { split; [|lia]. pose proof (Z.mod_le (initial_offset_ r) kBlockSize). unfold kBlockSize in *. lia. }
      unfold u64. rewrite (wrap_small 64 (_ - _)) by lia. unfold kBlockSize in *.
      destruct (_ >? _); [rewrite wrap_small by lia|]; lia. }
    destruct (_ >? 0); [|by do 2 eexists]. cbn [file_ with_end_of_buffer_offset].
    destruct (skip_unread (file_ r) loc Hloc) as (f' & -> & Hu). cbn [rbind is_ok status_ok negb].
    do 2 eexists. split; [done|].
    unfold bytes_left. cbn [buffer_ file_ with_file with_end_of_buffer_offset]. rewrite Hu, length_drop. lia. }
  cbn [rbind]. destruct b; cbn [negb]; [|by eexists].
  edestruct (loop_total (fun _ => True) (fun '(r, _) => bytes_left r) (fun _ => True) (read_round Value) fuel)
    as (x & E & _); [|done| |].
  - intros [r2 l2] _. destruct (read_round_total r2 l2) as (x & E & Hx). exists x. split; [done|].
    by destruct x as [[??]|].
  - instantiate (1 := (r1, mk_assembling [] [] false 0)). cbn. lia.
  - exists x. exact E.
Qed.

(** The start of the file is the start of a block. *)
Lemma fragmented_start begin data bytes off' :
  fragmented Value 0 begin data bytes off' -> fragmented Value kBlockSize begin data bytes off'.
Proof.
  intros H. inversion H as [? ? ? Hfit|? ? ? ? ? ? Hfull Hne Hrest]; subst.
  - apply (last_fragment Value kBlockSize begin data Hfit).
  - by apply (next_fragment Value kBlockSize begin).
Qed.

Lemma log_prefix_read file records bytes off' s q calls checksum n fuel :
  logged Value 0 records bytes off' -> Forall (Forall is_byte) records -> bytes = s ++ q -> unread file = s ->
  (length records < n)%nat -> (length s < fuel)%nat ->
  exists k r', read_records Value n fuel (new_reader file calls checksum 0) = Ret (firstn k records, r') /\
    reporter_ r' = calls /\ complete 0 records s k /\ (q = [] -> firstn k records = records).
Proof.
  intros Hlog Hb Eq Hu Hn Hf.
  assert (forall rs b o, logged Value 0 rs b o -> exists o', logged Value kBlockSize rs b o') as Hstart.
  { intros rs b o H. inversion H as [|? ? ? ? ? ? ? Hfr Hl]; subst; [eexists; constructor|].
    eexists. econstructor; [by apply fragmented_start|done]. }
  destruct (Hstart _ _ _ Hlog) as (o & Hlog').
  pose proof (new_reader_reading file calls checksum) as Hr. rewrite Hu in Hr.
  destruct (read_log _ _ _ _ Hlog' ltac:(unfold kBlockSize; lia) Hb _ s q n fuel Hr Eq Hn Hf)
    as (k & r' & E & [Hc _] & [(b1 & o1 & Hl1 & Hp1) Hnext] & Hend).
  exists k, r'. split_and!; [done|by rewrite Hc| |done]. split.
  - destruct records as [|record records].
    { rewrite firstn_nil. exists [], 0. split; [constructor|apply prefix_nil]. }
    destruct k as [|k]; [exists [], 0; split; [constructor|apply prefix_nil]|]. cbn [firstn] in *.
    inversion Hl1 as [|? ? ? b ob rest ? Hfr Hl]; subst. inversion Hlog as [|? ? ? b' ob' ? ? Hfr' _]; subst.
    destruct (fragmented_unique _ _ _ _ _ _ _ (fragmented_start _ _ _ _ Hfr') Hfr) as [-> ->].
    exists (b ++ rest), o1. split; [by econstructor|done].
  - intros Hlt b1' o1' H. destruct (Hstart _ _ _ H) as (o2 & H2). by apply (Hnext Hlt _ o2).
Qed.

(** ** Theorems *)

(** C25. Crash safety: of a log cut off at any byte, in a record, a header or a
    trailer, the reader returns exactly the records that are complete, reports
    no corruption, and ends; from an intact log it returns all records.  This
    holds with checksums verified or not. *)
Theorem log_reader_recovers file records bytes off' s q calls checksum n fuel :
  logged Value 0 records bytes off' -> Forall (Forall is_byte) records -> bytes = s ++ q -> unread file = s ->
  (length records < n)%nat -> (length s < fuel)%nat ->
  exists k r', read_records Value n fuel (new_reader file calls checksum 0) = Ret (firstn k records, r') /\
    reporter_ r' = calls /\ complete 0 records s k /\ (q = [] -> firstn k records = records).
Proof. apply log_prefix_read. Qed.

(** On a file with any contents, from any initial offset, [ReadRecord] ends. *)
Theorem ReadRecord_terminates fuel r record scratch :
  0 <= initial_offset_ r < 2 ^ 62 -> (bytes_left r < fuel)%nat ->
  exists found record' scratch' r', ReadRecord Value fuel r record scratch = Ret (found, record', scratch', r').
Proof.
  intros Hi Hf. destruct (ReadRecord_total fuel r record scratch Hi Hf) as ([[[found rec] sc] r'] & E).
  by exists found, rec, sc, r'.
Qed.

(** C33. Corruption: a stored fragment of which four consecutive bytes of the type
    and data were changed is not returned.  The rest of the block is dropped and
    the drop is reported. *)
Theorem corruption_detected r result t data t' data' pre w w' post rest calls :
  stored t data -> is_byte t' -> t :: data = pre ++ w ++ post -> t' :: data' = pre ++ w' ++ post ->
  Forall is_byte w' -> length w = 4%nat -> length w' = 4%nat -> w <> w' ->
  checksum_ r = true -> initial_offset_ r = 0 -> reporter_ r = Some calls ->
  buffer_ r = EncodeFixed32 (Mask (Value (t :: data))) ++ [zlen data mod 256; zlen data / 256] ++ (t' :: data') ++ rest ->
  exists r', ReadPhysicalRecord Value r result = Ret (kBadRecord, result, r') /\ buffer_ r' = [] /\
    reporter_ r' = Some (calls ++ [(zlen (buffer_ r), Corruption (bytes_of "checksum mismatch") [])]).
Proof.
  intros Hst Ht' Ed Ed' Hw' H4 H4' Hne Hck Hi Hrep Hbuf.
  assert (zlen data' = zlen data) as El.
  { apply (f_equal length) in Ed, Ed'. rewrite !length_app in *. cbn in Ed, Ed'. unfold zlen. lia. }
  assert (Value (t' :: data') <> Value (t :: data)) as Hv.
  { intros E. apply Hne. rewrite Ed, Ed' in E. symmetry in E.
    apply (value_detects (Checksum := C) pre w w' post); try done. rewrite <- Ed.
    destruct Hst as ([??] & _ & ?). constructor; [unfold is_byte, kFullType, kLastType in *; lia|done]. }
  pose proof (stored_checksum t data ([zlen data mod 256; zlen data / 256] ++ (t' :: data') ++ rest) Hst) as Hc.
  rewrite <- Hbuf in Hc. unfold EncodeFixed32 in Hbuf. rewrite EncodeFixed32_le in Hbuf. cbn [le_split app] in Hbuf.
  assert (zlen (buffer_ r) = kHeaderSize + zlen data + zlen rest) as Hl.
  { rewrite Hbuf, !zlen_cons, zlen_app, El. unfold kHeaderSize. lia. }
  pose proof (zlen_nonneg data). pose proof (zlen_nonneg rest).
  unfold ReadPhysicalRecord. rewrite loop_unfold. destruct (Z.ltb_spec (zlen (buffer_ r)) kHeaderSize); [lia|].
  assert (byte_at (buffer_ r) 4 = zlen data mod 256 /\ byte_at (buffer_ r) 5 = zlen data / 256 /\
    skipn 6 (buffer_ r) = t' :: data' ++ rest) as (E4 & E5 & E6) by (by rewrite Hbuf).
  unfold parse_record. rewrite Hc, Hck, E4, E5, E6.
  destruct Hst as ([Ht1 Ht2] & Hlen & Hb). rewrite header_length by done.
  destruct (Z.gtb_spec (kHeaderSize + zlen data) (zlen (buffer_ r))); [lia|].
  assert ((zlen data =? 0) = false) as ->.
  { apply Z.eqb_neq. apply (f_equal length) in Ed. rewrite !length_app, H4 in Ed. cbn in Ed. unfold zlen. lia. }
  rewrite andb_false_r. cbn [andb].
  assert (firstn (Z.to_nat (1 + zlen data)) (t' :: data' ++ rest) = t' :: data') as ->.
  { replace (Z.to_nat (1 + zlen data)) with (S (Z.to_nat (zlen data'))) by (rewrite El; lia).
    cbn [firstn]. by rewrite firstn_zlen. }
  destruct (Z.eqb_spec (Value (t' :: data')) (Value (t :: data))); [done|]. cbn [negb rbind].
  eexists. split; [done|]. unfold ReportCorruption, ReportDrop. cbn [reporter_ with_buffer]. rewrite Hrep.
  cbn [initial_offset_ with_buffer]. rewrite Hi.
  match goal with |- context [u64 ?z >=? 0] => assert ((u64 z >=? 0) = true) as -> end.
  { apply Z.geb_le. apply (wrap_range 64). lia. }
  done.
Qed.

End ReaderProof.
