(* ===== verification/LdbLog.v ===== *)
(** * LevelDB: writing a log and reading it back

    The composition of the writer, a file that may fail, a crash, and the reader;
    the instance on the POSIX files; and what goes wrong on a file that fails once
    and then works again, since the writer does not look at the status of the
    [Append] that fills a block. *)
From S2P Require Import Prelude.
From S2P Require Import LdbCoding LdbCrc32c LdbStatus LdbEnvPosix.
From S2P Require Import LdbLogWriter LdbLogReader.
From Stdlib Require Import ZArith Lia.
From stdpp Require Import base tactics numbers list strings.
#[local] Open Scope Z_scope.

(** ** Recovery *)

Section Recovery.
Context {F : Type} {W : WritableFile F} {usable : F -> Prop}.
Context {written delivered : F -> list Z} {failed dirty : F -> bool}.
Context {FS : FailStop F usable written delivered failed dirty}.
Context {G : Type} {SF : SequentialFile G} {unread : G -> list Z} {LS : LawfulSequential G unread}.
Context {Value : list Z -> Z} {Extend : Z -> list Z -> Z} {C : Checksum Value Extend}.

Lemma prefix_cut {A} (s b : list A) : s `prefix_of` b -> exists q, b = s ++ q.
Proof. by intros [q ->]; exists q. Qed.

(** What survives of a log that was being written. *)
Lemma delivered_prefix f f' bytes s :
  usable f' -> written f = [] -> failed f = false -> gave (written := written) (delivered := delivered) (failed := failed) f f' bytes ->
  acknowledged (written := written) (delivered := delivered) (failed := failed) s f' ->
  exists q, bytes = delivered f' ++ q /\ (is_ok s = true -> q = []).
Proof.
  intros Hu Hw Hf (_ & _ & G1) [Hs Hd]. specialize (G1 Hf). rewrite Hw in G1. cbn [app] in G1.
  destruct (is_ok s) eqn:Es.
  - exists []. rewrite Hd by done. destruct (failed f'); [done|]. by rewrite G1, app_nil_r.
  - destruct (failed f'); [|done]. destruct (prefix_cut (delivered f') bytes) as [q ->]; [|by exists q].
    trans (written f'); [by apply (delivered_written (FailStop := FS))|done].
Qed.

(** Durability: records are written to an empty file, until one fails or all are
    accepted; whatever the file has delivered is read back after a crash.  The
    reader returns the first records, exactly those that are completely there,
    reports no corruption, and returns all of them when they were all accepted. *)
Theorem log_recovery wf records rf calls checksum n fuel :
  usable wf -> written wf = [] -> failed wf = false -> Forall (Forall is_byte) records ->
  (length records < n)%nat ->
  (forall s w', add_records (Extend := Extend) (new_writer Value wf) records = Ret (s, w') ->
     unread rf = delivered (dest_ w') /\ (length (unread rf) < fuel)%nat) ->
  exists s w' k r',
    add_records (Extend := Extend) (new_writer Value wf) records = Ret (s, w') /\
    read_records Value n fuel (new_reader rf calls checksum 0) = Ret (firstn k records, r') /\
    reporter_ r' = calls /\
    complete (Value := Value) 0 records (unread rf) k /\
    (is_ok s = true -> firstn k records = records).
Proof.
  intros Hu Hw Hf Hb Hn Hrf.
  assert (writer_ok (Value := Value) (new_writer Value wf)) as Hwok by (split; [cbn; unfold kBlockSize; lia|done]).
  assert (acknowledged (written := written) (delivered := delivered) (failed := failed) status_ok wf) as Hack.
  { split; [by rewrite Hf|]. intros _. pose proof (delivered_written (FailStop := FS) wf Hu) as Hp.
    rewrite Hw in *. by apply prefix_nil_inv in Hp. }
  destruct (add_records_logged (Extend := Extend) (new_writer Value wf) records Hwok Hu Hack Hb)
    as (s & w' & bytes & off' & E & Hlog & Hu' & Hg & Ha & _).
  destruct (Hrf s w' E) as [Hunread Hfuel].
  destruct (delivered_prefix wf (dest_ w') bytes s Hu' Hw Hf Hg Ha) as (q & Eq & Hq). rewrite <- Hunread in Eq.
  destruct (log_prefix_read rf records bytes off' (unread rf) q calls checksum n fuel Hlog Hb Eq eq_refl Hn Hfuel)
    as (k & r' & Er & Hrep & Hc & Hend).
  exists s, w', k, r'. split_and!; [done|done|done|done|]. intros Es. by apply Hend, Hq.
Qed.

End Recovery.

(** ** A concrete system *)

(** One file: what is on the disk, the room left there, whether a write has
    failed, what is left to read, and how many calls will be interrupted. *)
Record mem_os := mk_os { disk : list Z; room : Z; full : bool; input : list Z; interruptions : nat }.

Definition ENOSPC : Z := 28.

Definition mem_write (os : mem_os) (fd : Z) (data : list Z) : (Z + Z) * mem_os :=
  match interruptions os with
  | S i => (inl EINTR, mk_os (disk os) (room os) (full os) (input os) i)
  | O =>
      let n := Z.min (zlen data) (room os) in
      if full os || (n <=? 0) then (inl ENOSPC, mk_os (disk os) (room os) true (input os) 0)
      else (inr n, mk_os (disk os ++ firstn (Z.to_nat n) data) (room os - n) false (input os) 0)
  end.

Definition mem_read (os : mem_os) (fd n : Z) : (Z + list Z) * mem_os :=
  match interruptions os with
  | S i => (inl EINTR, mk_os (disk os) (room os) (full os) (input os) i)
  | O => (inr (firstn (Z.to_nat n) (input os)),
          mk_os (disk os) (room os) (full os) (skipn (Z.to_nat n) (input os)) 0)
  end.

Definition mem_lseek (os : mem_os) (fd n : Z) : (Z + Z) * mem_os :=
  (inr n, mk_os (disk os) (room os) (full os) (skipn (Z.to_nat n) (input os)) (interruptions os)).

#[export] Instance mem_posix : PosixOS mem_os := {|
  sys_read := mem_read;
  sys_pread := fun os fd n off => (inr (firstn (Z.to_nat n) (skipn (Z.to_nat off) (disk os))), os);
  sys_write := mem_write;
  sys_lseek_cur := mem_lseek;
  sys_open_rdonly := fun os _ => (inr 3, os);
  sys_close := fun os _ => (None, os);
  sys_fullfsync := fun os _ => (None, os);
  sys_fsync := fun os _ => (None, os);
  sys_strerror := fun errno => decimal errno;
  interrupts := interruptions;
|}.

#[export] Instance mem_append_only fd : AppendOnly mem_os fd disk full.
Proof.
  split. intros os data result os' Hne. cbn [sys_write mem_posix]. unfold mem_write.
  destruct (interruptions os) as [|i] eqn:Ei.
  - assert (0 < zlen data) by (destruct data; [done|rewrite zlen_cons; pose proof (zlen_nonneg data); lia]).
    destruct (full os) eqn:Ef; cbn [orb]; [by intros [= <- <-]|].
    destruct (Z.leb_spec (Z.min (zlen data) (room os)) 0); intros [= <- <-]; [done|].
    split_and!; cbn; try done; lia.
  - intros [= <- <-]. cbn. rewrite Ei. split; [done|]. split; [done|lia].
Qed.

#[export] Instance mem_quiet : QuietSync mem_os disk full.
Proof. by split. Qed.

#[export] Instance mem_read_only fd : ReadOnly mem_os fd input.
Proof.
  split.
  - intros os n result os' Hn. cbn [sys_read mem_posix]. unfold mem_read.
    destruct (interruptions os) as [|i] eqn:Ei; intros [= <- <-]; cbn; [done|]. rewrite Ei. split_and!; [done|done|lia].
  - intros os n Hn. cbn [sys_lseek_cur mem_posix]. by do 2 eexists.
Qed.

(** ** A file that fails once *)

(** The [Append] after [countdown] others fails and writes nothing. *)
Record flaky := mk_flaky { content : list Z; countdown : nat }.

#[export] Instance flaky_file : WritableFile flaky := {|
  Append := fun f data =>
    match countdown f with
    | S O => Ret (IOError (bytes_of "once") [], mk_flaky (content f) 0)
    | S n => Ret (status_ok, mk_flaky (content f ++ data) n)
    | O => Ret (status_ok, mk_flaky (content f ++ data) 0)
    end;
  Close := fun f => Ret (status_ok, f);
  Flush := fun f => Ret (status_ok, f);
  Sync := fun f => Ret (status_ok, f);
|}.

(** Once it has failed, it works. *)
#[export] Instance flaky_fail_stop : FailStop flaky (fun f => countdown f = 0%nat) content content (fun _ => false) (fun _ => true).
Proof.
  split.
  - intros f data Hf. cbn [Append flaky_file]. rewrite Hf. do 2 eexists. split; [done|]. split_and!; [done|by apply prefix_app_r|done|done].
  - intros f Hf. do 2 eexists. split; [done|]. by split_and!.
  - done.
Qed.

(** A file as the list of the bytes to read. *)
#[export] Instance bytes_file : SequentialFile (list Z) := {|
  Read := fun f n _ => Ret (status_ok, firstn (Z.to_nat n) f, skipn (Z.to_nat n) f);
  Skip := fun f n => Ret (status_ok, skipn (Z.to_nat n) f);
|}.

#[export] Instance bytes_lawful : LawfulSequential (list Z) (fun f => f).
Proof. split; intros f n; [intros result|]; intros _; by eexists. Qed.

(** A file that ends three bytes before the end of its first block, all zeros as
    the preallocated regions the reader skips. *)
Definition preallocated : list Z := repeat 0 (Z.to_nat 32765).

(** Reopen the file, whose [countdown]-th [Append] fails, add a record, and read
    the file. *)
Definition add_and_read (countdown : nat) (record : list Z) : res (Status * list (list Z)) :=
  let file := mk_flaky preallocated countdown in
  let! (s, w) := AddRecord (Extend_at 0) (reopen_writer (Value_at 0) file (zlen preallocated)) record in
  let! (read, _) := read_records (Value_at 0) 2 5 (new_reader (content (dest_ w)) None true 0) in
  Ret (s, read).

(** [m] returns an ok status and the records [rs]. *)
Definition returned (m : res (Status * list (list Z))) (rs : list (list Z)) : bool :=
  match m with Ret (s, read) => is_ok s && bool_decide (read = rs) | _ => false end.

Lemma returned_ret m rs : returned m rs = true -> m = Ret (status_ok, rs).
Proof.
  unfold returned. destruct m as [[[|] read]| |]; try done. cbn [is_ok andb].
  by intros ->%bool_decide_eq_true.
Qed.

(** The record is not read back, and it would be without the failure. *)
Lemma add_and_read_lost :
  add_and_read 1 [1; 2; 3] = Ret (status_ok, []) /\
  add_and_read 0 [1; 2; 3] = Ret (status_ok, [[1; 2; 3]]).
Proof. split; apply returned_ret; by vm_compute. Qed.
