(* ===== verification/LdbOrder.v ===== *)
(** * Total orders given by a three-way comparison, and sorted lists

    What LevelDB asks of a comparator, as a class on the comparison it computes,
    and strictly sorted lists under it: the abstract view of the skip list, of a
    memtable and of a block. *)
From S2P Require Import Prelude.
From Stdlib Require Import ZArith Lia.
From stdpp Require Import base tactics numbers list sorting.
#[local] Open Scope Z_scope.

(** [cmp] orders the values that are [valid]: negative, zero and positive for
    less, equivalent and greater. *)
Class KeyOrder {A : Type} (valid : A -> Prop) (cmp : A -> A -> Z) : Prop := {
  order_sym a b : valid a -> valid b -> (cmp a b < 0 <-> 0 < cmp b a);
  order_trans a b c : valid a -> valid b -> valid c -> cmp a b <= 0 -> cmp b c <= 0 -> cmp a c <= 0;
}.

Section Order.
Context {A : Type} {valid : A -> Prop} {cmp : A -> A -> Z} {order : KeyOrder valid cmp}.

(** The comparison the other way round. *)
Lemma order_flip a b : valid a -> valid b ->
  (cmp a b < 0 /\ 0 < cmp b a) \/ (cmp a b = 0 /\ cmp b a = 0) \/ (0 < cmp a b /\ cmp b a < 0).
Proof. intros Ha Hb. pose proof (order_sym a b Ha Hb). pose proof (order_sym b a Hb Ha). lia. Qed.

Lemma order_refl a : valid a -> cmp a a = 0.
Proof. intros H. pose proof (order_flip a a H H). lia. Qed.

Lemma order_lt_le a b c : valid a -> valid b -> valid c -> cmp a b < 0 -> cmp b c <= 0 -> cmp a c < 0.
Proof.
  intros Ha Hb Hc H1 H2. pose proof (order_flip a c Ha Hc). pose proof (order_flip a b Ha Hb).
  pose proof (order_trans b c a Hb Hc Ha H2). lia.
Qed.

Lemma order_le_lt a b c : valid a -> valid b -> valid c -> cmp a b <= 0 -> cmp b c < 0 -> cmp a c < 0.
Proof.
  intros Ha Hb Hc H1 H2. pose proof (order_flip a c Ha Hc). pose proof (order_flip b c Hb Hc).
  pose proof (order_trans c a b Hc Ha Hb). lia.
Qed.

Lemma order_lt_trans a b c : valid a -> valid b -> valid c -> cmp a b < 0 -> cmp b c < 0 -> cmp a c < 0.
Proof. intros Ha Hb Hc H1 H2. apply (order_lt_le a b c); [done..|lia]. Qed.

(** Equivalent values compare alike. *)
Lemma order_eq_l a b c : valid a -> valid b -> valid c -> cmp a b = 0 ->
  (cmp a c < 0 <-> cmp b c < 0) /\ (cmp a c = 0 <-> cmp b c = 0).
Proof.
  intros Ha Hb Hc H. pose proof (order_flip a b Ha Hb). pose proof (order_flip a c Ha Hc).
  pose proof (order_flip b c Hb Hc). pose proof (order_le_lt a b c Ha Hb Hc). pose proof (order_le_lt b a c Hb Ha Hc).
  pose proof (order_trans a b c Ha Hb Hc). pose proof (order_trans b a c Hb Ha Hc). lia.
Qed.

(** ** Strictly sorted lists *)

Definition less (a b : A) : Prop := cmp a b < 0.

Definition sorted (l : list A) : Prop := StronglySorted less l /\ Forall valid l.

Lemma sorted_nil : sorted [].
Proof. split; constructor. Qed.

Lemma sorted_cons a l : sorted (a :: l) <-> valid a /\ Forall (less a) l /\ sorted l.
Proof.
  unfold sorted. rewrite Forall_cons. split.
  - intros [H [Ha Hl]]. by apply StronglySorted_inv in H as [H1 H2].
  - intros (Ha & Hl & Hs & Hv). split; [by constructor|done].
Qed.

Lemma sorted_app l1 l2 : sorted (l1 ++ l2) <-> sorted l1 /\ sorted l2 /\ forall a b, a ∈ l1 -> b ∈ l2 -> less a b.
Proof.
  induction l1 as [|x l1 IH]; cbn [app].
  - split; [intros H; split_and!; [apply sorted_nil|done|]; by intros a b ?%not_elem_of_nil|by intros (_ & ? & _)].
  - rewrite !sorted_cons, IH, Forall_app. split.
    + intros (Hx & [H1 H2] & Hs1 & Hs2 & Hab). split_and!; [done|done|done|done|].
      intros a b [->|Ha]%elem_of_cons Hb; [by eapply Forall_forall in H2|by apply Hab].
    + intros ((Hx & H1 & Hs1) & Hs2 & Hab). split_and!; [done|done| |done|done|].
      * apply Forall_forall. intros b Hb. apply Hab; [by left|done].
      * intros a b Ha Hb. apply Hab; [by right|done].
Qed.

(** The list with [x] put in its place, before the first element not less. *)
Fixpoint insert_sorted (x : A) (l : list A) : list A :=
  match l with
  | [] => [x]
  | y :: l => if cmp y x <? 0 then y :: insert_sorted x l else x :: y :: l
  end.

(** The elements less than [x], and the others. *)
Lemma sorted_split x l :
  sorted l -> valid x -> exists l1 l2, l = l1 ++ l2 /\ Forall (fun y => cmp y x < 0) l1 /\ Forall (fun y => 0 <= cmp y x) l2 /\
    insert_sorted x l = l1 ++ x :: l2.
Proof.
  intros Hs Hx. induction l as [|y l IH]; [by exists [], []|].
  apply sorted_cons in Hs as (Hy & Hl & Hs). cbn [insert_sorted]. destruct (Z.ltb_spec (cmp y x) 0).
  - destruct (IH Hs) as (l1 & l2 & -> & H1 & H2 & ->). exists (y :: l1), l2. split_and!; [done|by constructor|done|done].
  - exists [], (y :: l). split_and!; [done|constructor| |done]. constructor; [done|].
    apply Forall_forall. intros z Hz. eapply Forall_forall in Hl; [|done].
    assert (valid z) by (destruct Hs as [_ Hv]; by eapply Forall_forall in Hv).
    destruct (Z.lt_ge_cases (cmp z x) 0) as [Hzx|]; [|done].
    pose proof (order_lt_trans y z x Hy ltac:(done) Hx Hl Hzx). lia.
Qed.

Lemma insert_sorted_between x l1 l2 : sorted (l1 ++ x :: l2) -> insert_sorted x (l1 ++ l2) = l1 ++ x :: l2.
Proof.
  induction l1 as [|y l1 IH]; cbn [app]; intros Hs; apply sorted_cons in Hs as (Hy & Hlt & Hs).
  - destruct l2 as [|z l2]; [done|]. apply Forall_cons in Hlt as [Hz _]. apply sorted_cons in Hs as (Hvz & _). cbn.
    unfold less in Hz. pose proof (order_flip x z Hy Hvz). by destruct (Z.ltb_spec (cmp z x) 0); [lia|].
  - cbn [insert_sorted]. apply Forall_app in Hlt as [_ [Hlt _]%Forall_cons]. unfold less in Hlt.
    destruct (Z.ltb_spec (cmp y x) 0); [|lia]. by rewrite IH.
Qed.

Lemma insert_sorted_perm x l : insert_sorted x l ≡ₚ x :: l.
Proof.
  induction l as [|y l IH]; cbn; [done|]. destruct (_ <? _); [|done]. rewrite IH. apply Permutation_swap.
Qed.

Lemma insert_sorted_sorted x l :
  sorted l -> valid x -> Forall (fun y => cmp y x <> 0) l -> sorted (insert_sorted x l).
Proof.
  intros Hs Hx Hne. destruct (sorted_split x l Hs Hx) as (l1 & l2 & -> & H1 & H2 & ->).
  apply sorted_app in Hs as (Hs1 & Hs2 & Hlt). apply sorted_app. apply Forall_app in Hne as [_ Hne].
  assert (Forall (less x) l2) as Hxl2.
  { apply Forall_forall. intros y Hy. eapply Forall_forall in H2; [|done]. eapply Forall_forall in Hne; [|done].
    assert (valid y) as Hvy by (destruct Hs2 as [_ Hv]; by eapply Forall_forall in Hv).
    pose proof (order_flip x y Hx Hvy). unfold less. cbn in *. lia. }
  split_and!; [done|by apply sorted_cons|]. intros a b Ha [->|Hb]%elem_of_cons; [by eapply Forall_forall in H1|by apply Hlt].
Qed.

(** Sorted lists with the same elements are the same. *)
Lemma sorted_unique l1 l2 : sorted l1 -> sorted l2 -> l1 ≡ₚ l2 -> l1 = l2.
Proof.
  intros [H1 V1] [H2 V2] Hp. apply (StronglySorted_unique_strong less); [|done..].
  intros x y Hx Hy Hxy Hyx. assert (valid x) as Hvx by (by eapply Forall_forall in V1).
  assert (valid y) as Hvy by (by eapply Forall_forall in V2).
  pose proof (order_flip x y Hvx Hvy). unfold less in *. lia.
Qed.

(** An order on the images of a function is one on its arguments. *)
Lemma order_pullback {B : Type} (f : B -> A) (valid' : B -> Prop) :
  (forall b, valid' b -> valid (f b)) -> KeyOrder valid' (fun a b => cmp (f a) (f b)).
Proof.
  intros H. split.
  - intros a b Ha Hb. apply order_sym; by apply H.
  - intros a b c Ha Hb Hc. apply order_trans; by apply H.
Qed.

End Order.
Arguments less {A} cmp a b.
Arguments sorted {A} valid cmp l.
Arguments insert_sorted {A} cmp x l.

(** Insertion commutes with a map that preserves the comparison. *)
Lemma insert_sorted_map {A B : Type} (f : B -> A) (cmp : A -> A -> Z) (cmp' : B -> B -> Z) x l :
  Forall (fun y => cmp (f y) (f x) = cmp' y x) l -> map f (insert_sorted cmp' x l) = insert_sorted cmp (f x) (map f l).
Proof.
  induction 1 as [|y l Hy _ IH]; [done|]. cbn [insert_sorted map]. rewrite Hy.
  destruct (cmp' y x <? 0); cbn [map]; [by rewrite IH|done].
Qed.
