(* ===== verification/LdbKeys.v ===== *)
(** * LevelDB: comparators and internal keys (util/comparator.cc, db/dbformat)

    [Slice::compare] and the bytewise comparator, the internal keys that carry a
    sequence number and a type behind a user key, their comparator and filter
    policy built on the user's, and the lookup key of a read.  The classes
    [ComparatorLaws] and [FilterLaws] are the contracts of comparator.h and
    filter_policy.h: the built-in comparator and filter keep them, and wrapping a
    comparator or a policy that keeps them for internal keys keeps them again. *)
From S2P Require Import Prelude WireSpec.
From S2P Require Import LdbCoding LdbBloom LdbStatus LdbOrder.
From Stdlib Require Import ZArith Lia.
From stdpp Require Import base tactics numbers list sorting strings.
#[local] Open Scope Z_scope.

(** ** Slices and comparators *)

(** [memcmp] of the first [n] bytes of both; only the sign is specified. *)
Fixpoint memcmp (n : nat) (a b : list Z) : Z :=
  match n, a, b with
  | S n, x :: a, y :: b => if x <? y then -1 else if x >? y then 1 else memcmp n a b
  | _, _, _ => 0
  end.

Definition slice_compare (a b : list Z) : Z :=
  let min_len := if zlen a <? zlen b then zlen a else zlen b in
  let r := memcmp (Z.to_nat min_len) a b in
  if r =? 0 then
    if zlen a <? zlen b then -1 else if zlen a >? zlen b then 1 else r
  else r.

(** The virtual methods of [Comparator]; the last two change a string. *)
Record Comparator := mk_comparator {
  Compare : list Z -> list Z -> res Z;
  FindShortestSeparator : list Z -> list Z -> res (list Z);
  FindShortSuccessor : list Z -> res (list Z);
}.

(** The length of the common prefix. *)
Fixpoint shared_prefix (a b : list Z) : nat :=
  match a, b with
  | x :: a, y :: b => if x =? y then S (shared_prefix a b) else O
  | _, _ => O
  end.

(** [s[i]++; s.resize(i + 1)] on the byte [b] at [i]. *)
Definition bump (s : list Z) (i : nat) (b : Z) : list Z := firstn i s ++ [u8 (b + 1)].

Definition bytewise_separator (start limit : list Z) : res (list Z) :=
  let min_length := Z.min (zlen start) (zlen limit) in
  let diff_index := shared_prefix start limit in
  if Z.of_nat diff_index >=? min_length then Ret start
  else
    let diff_byte := byte_at start diff_index in
    if (diff_byte <? 0xff) && (diff_byte + 1 <? byte_at limit diff_index) then
      let start := bump start diff_index diff_byte in
      let! _ := assert_ (slice_compare start limit <? 0) in
      Ret start
    else Ret start.

(** [for (i = 0; i < n; i++)], from [i] on. *)
Fixpoint bytewise_successor (before key : list Z) : list Z :=
  match key with
  | byte :: key => if negb (byte =? 0xff) then before ++ [u8 (byte + 1)] else bytewise_successor (before ++ [byte]) key
  | [] => before
  end.

Definition BytewiseComparator : Comparator := {|
  Compare := fun a b => Ret (slice_compare a b);
  FindShortestSeparator := bytewise_separator;
  FindShortSuccessor := fun key => Ret (bytewise_successor [] key);
|}.

(** ** Internal keys *)

(** [ValueType]. *)
Definition kTypeDeletion : Z := 0.
Definition kTypeValue : Z := 1.
Definition kValueTypeForSeek : Z := kTypeValue.

Definition kMaxSequenceNumber : Z := Z.shiftl 1 56 - 1.

Record ParsedInternalKey := mk_parsed { user_key : list Z; sequence : Z; key_type : Z }.

Definition PackSequenceAndType (seq t : Z) : res Z :=
  let! _ := assert_ (seq <=? kMaxSequenceNumber) in
  let! _ := assert_ (t <=? kValueTypeForSeek) in
  Ret (Z.lor (u64 (Z.shiftl seq 8)) t).

Definition AppendInternalKey (result : list Z) (key : ParsedInternalKey) : res (list Z) :=
  let result := result ++ user_key key in
  let! packed := PackSequenceAndType (sequence key) (key_type key) in
  Ret (PutFixed64 result packed).

Definition InternalKeyEncodingLength (key : ParsedInternalKey) : Z := zlen (user_key key) + 8.

Definition ExtractUserKey (internal_key : list Z) : res (list Z) :=
  let! _ := assert_ (zlen internal_key >=? 8) in
  Ret (firstn (Z.to_nat (zlen internal_key - 8)) internal_key).

(** The number behind the user key. *)
Definition tail_num (key : list Z) : Z := DecodeFixed64 (skipn (Z.to_nat (zlen key - 8)) key).

(** [ParseInternalKey(internal_key, result)]: whether it is one, and [*result]. *)
Definition ParseInternalKey (internal_key : list Z) (result : ParsedInternalKey) : bool * ParsedInternalKey :=
  let n := zlen internal_key in
  if n <? 8 then (false, result)
  else
    let num := tail_num internal_key in
    let c := Z.land num 0xff in
    (c <=? kTypeValue, mk_parsed (firstn (Z.to_nat (n - 8)) internal_key) (Z.shiftr num 8) c).

Section InternalKeyComparator.
Context (user_comparator_ : Comparator).

Definition internal_compare (akey bkey : list Z) : res Z :=
  let! a := ExtractUserKey akey in
  let! b := ExtractUserKey bkey in
  let! r := Compare user_comparator_ a b in
  if r =? 0 then
    let anum := tail_num akey in
    let bnum := tail_num bkey in
    if anum >? bnum then Ret (-1) else if anum <? bnum then Ret 1 else Ret r
  else Ret r.

(** [PutFixed64(&tmp, PackSequenceAndType(kMaxSequenceNumber, kValueTypeForSeek))] *)
Definition put_earliest (tmp : list Z) : res (list Z) :=
  let! packed := PackSequenceAndType kMaxSequenceNumber kValueTypeForSeek in
  Ret (PutFixed64 tmp packed).

Definition internal_separator (start limit : list Z) : res (list Z) :=
  let! user_start := ExtractUserKey start in
  let! user_limit := ExtractUserKey limit in
  let! tmp := FindShortestSeparator user_comparator_ user_start user_limit in
  let! shorter :=
    if zlen tmp <? zlen user_start then
      let! r := Compare user_comparator_ user_start tmp in Ret (r <? 0)
    else Ret false in
  if shorter then
    let! tmp := put_earliest tmp in
    let! r := internal_compare start tmp in
    let! _ := assert_ (r <? 0) in
    let! r := internal_compare tmp limit in
    let! _ := assert_ (r <? 0) in
    Ret tmp
  else Ret start.

Definition internal_successor (key : list Z) : res (list Z) :=
  let! user_key := ExtractUserKey key in
  let! tmp := FindShortSuccessor user_comparator_ user_key in
  let! shorter :=
    if zlen tmp <? zlen user_key then
      let! r := Compare user_comparator_ user_key tmp in Ret (r <? 0)
    else Ret false in
  if shorter then
    let! tmp := put_earliest tmp in
    let! r := internal_compare key tmp in
    let! _ := assert_ (r <? 0) in
    Ret tmp
  else Ret key.

Definition InternalKeyComparator : Comparator := {|
  Compare := internal_compare;
  FindShortestSeparator := internal_separator;
  FindShortSuccessor := internal_successor;
|}.

End InternalKeyComparator.

(** The class [InternalKey], whose state is its [rep_]. *)
Definition InternalKey : Type := list Z.

Definition new_internal_key (user_key : list Z) (s t : Z) : res InternalKey :=
  AppendInternalKey [] (mk_parsed user_key s t).

Definition DecodeFrom (s : list Z) : InternalKey := s.

Definition Encode (rep_ : InternalKey) : res (list Z) :=
  let! _ := assert_ (negb (zlen rep_ =? 0)) in
  Ret rep_.

Definition internal_user_key (rep_ : InternalKey) : res (list Z) := ExtractUserKey rep_.

Definition SetFrom (p : ParsedInternalKey) : res InternalKey := AppendInternalKey [] p.

Definition compare_internal_keys (user : Comparator) (a b : InternalKey) : res Z :=
  let! a := Encode a in
  let! b := Encode b in
  internal_compare user a b.

(** ** Filter policies *)

(** The methods of [FilterPolicy].  [CreateFilter] may change [keys[]], which it
    returns with [*dst]. *)
Record FilterPolicy := mk_filter_policy {
  policy_name : list Z;
  policy_create : list (list Z) -> list Z -> res (list (list Z) * list Z);
  policy_match : list Z -> list Z -> res bool;
}.

Definition bloom_policy (p : BloomFilterPolicy) : FilterPolicy := {|
  policy_name := bytes_of "leveldb.BuiltinBloomFilter2";
  policy_create := fun keys dst => let! dst := CreateFilter p keys dst in Ret (keys, dst);
  policy_match := KeyMayMatch;
|}.

(** [for (i = 0; i < n; i++) mkey[i] = ExtractUserKey(keys[i])] *)
Fixpoint extract_user_keys (keys : list (list Z)) : res (list (list Z)) :=
  match keys with
  | [] => Ret []
  | key :: keys =>
      let! key := ExtractUserKey key in
      let! keys := extract_user_keys keys in
      Ret (key :: keys)
  end.

Definition InternalFilterPolicy (user_policy_ : FilterPolicy) : FilterPolicy := {|
  policy_name := policy_name user_policy_;
  policy_create := fun keys dst =>
    let! mkey := extract_user_keys keys in
    policy_create user_policy_ mkey dst;
  policy_match := fun key f =>
    let! key := ExtractUserKey key in
    policy_match user_policy_ key f;
|}.

(** ** Lookup keys *)

(** The array from [start_] to [end_], and [kstart_ - start_]. *)
Record LookupKey := mk_lookup { lookup_array : list Z; kstart_ : Z }.

(** [sizeof(space_)]. *)
Definition lookup_space : Z := 200.

(** The array must fit the buffer, [space_] or [needed] bytes of the heap. *)
Definition new_lookup_key (user_key : list Z) (s : Z) : res LookupKey :=
  let usize := zlen user_key in
  let needed := u64 (usize + 13) in
  let room := if needed <=? lookup_space then lookup_space else needed in
  let length := EncodeVarint32 (u32 (usize + 8)) in
  let! packed := PackSequenceAndType s kValueTypeForSeek in
  let array := length ++ user_key ++ EncodeFixed64 packed in
  if zlen array <=? room then Ret (mk_lookup array (zlen length)) else UB.

Definition memtable_key (k : LookupKey) : list Z := lookup_array k.
Definition internal_key (k : LookupKey) : list Z := skipn (Z.to_nat (kstart_ k)) (lookup_array k).
Definition lookup_user_key (k : LookupKey) : list Z :=
  firstn (Z.to_nat (zlen (lookup_array k) - kstart_ k - 8)) (internal_key k).

(** ** Contracts *)

(** comparator.h: [Compare] is a total order; a separator is in [[start, limit)]
    when [start] is less, and [start] itself otherwise; a successor is not less;
    both are short, that is, not longer than the key they are made from. *)
Class ComparatorLaws (c : Comparator) (valid : list Z -> Prop) (cmp : list Z -> list Z -> Z) : Prop := {
  laws_order : KeyOrder valid cmp;
  laws_bytes a : valid a -> Forall is_byte a;
  laws_compare a b : valid a -> valid b -> Compare c a b = Ret (cmp a b);
  laws_separator start limit : valid start -> valid limit -> cmp start limit < 0 ->
    exists s, FindShortestSeparator c start limit = Ret s /\ valid s /\ cmp start s <= 0 /\ cmp s limit < 0 /\ zlen s <= zlen start;
  laws_no_separator start limit : valid start -> valid limit -> 0 <= cmp start limit ->
    FindShortestSeparator c start limit = Ret start;
  laws_successor key : valid key ->
    exists s, FindShortSuccessor c key = Ret s /\ valid s /\ cmp key s <= 0 /\ zlen s <= zlen key;
}.
#[export] Existing Instance laws_order.

(** filter_policy.h: the filter is a string that is appended, and matches the keys it
    was made of; any string can be asked for any key. *)
Class FilterLaws (p : FilterPolicy) (valid : list Z -> Prop) : Prop := {
  filter_matches keys dst : Forall valid keys -> zlen keys < 2 ^ 31 ->
    exists filter keys', policy_create p keys dst = Ret (keys', dst ++ filter) /\
      Forall is_byte filter /\ Forall (fun key => policy_match p key filter = Ret true) keys;
  filter_total key filter : valid key -> Forall is_byte filter -> exists m, policy_match p key filter = Ret m;
}.

Lemma filter_laws_weaken p (valid valid' : list Z -> Prop) : (forall k, valid' k -> valid k) -> FilterLaws p valid -> FilterLaws p valid'.
Proof.
  intros Hv L. split.
  - intros keys dst Hk Hl. apply (filter_matches keys dst); [|done]. eapply Forall_impl; [exact Hk|done].
  - intros key f Hk Hf. apply (filter_total key f); [by apply Hv|done].
Qed.

(** ** The bytewise order *)

Inductive bytes_before : list Z -> list Z -> Prop :=
| before_end y b : bytes_before [] (y :: b)
| before_byte x y a b : x < y -> bytes_before (x :: a) (y :: b)
| before_next x a b : bytes_before a b -> bytes_before (x :: a) (x :: b).

(** [slice_compare] without the lengths. *)
Fixpoint lex (a b : list Z) : Z :=
  match a, b with
  | [], [] => 0
  | [], _ :: _ => -1
  | _ :: _, [] => 1
  | x :: a, y :: b => if x <? y then -1 else if x >? y then 1 else lex a b
  end.

Lemma slice_compare_cons x y a b :
  slice_compare (x :: a) (y :: b) = if x <? y then -1 else if x >? y then 1 else slice_compare a b.
Proof.
  unfold slice_compare. rewrite !zlen_cons. pose proof (zlen_nonneg a). pose proof (zlen_nonneg b).
  assert ((1 + zlen a <? 1 + zlen b) = (zlen a <? zlen b)) as -> by (apply eq_iff_eq_true; rewrite !Z.ltb_lt; lia).
  assert ((1 + zlen a >? 1 + zlen b) = (zlen a >? zlen b)) as -> by (rewrite !Z.gtb_ltb; apply eq_iff_eq_true; rewrite !Z.ltb_lt; lia).
  assert (Z.to_nat (if zlen a <? zlen b then 1 + zlen a else 1 + zlen b) =
          S (Z.to_nat (if zlen a <? zlen b then zlen a else zlen b))) as -> by (destruct (_ <? _); lia).
  cbn [memcmp]. destruct (x <? y); [done|]. by destruct (x >? y).
Qed.

Lemma slice_compare_lex a b : slice_compare a b = lex a b.
Proof.
  revert b; induction a as [|x a IH]; intros [|y b]; [done|..].
  - unfold slice_compare. rewrite (@zlen_nil Z), zlen_cons. pose proof (zlen_nonneg b).
    by destruct (Z.ltb_spec 0 (1 + zlen b)); [|lia].
  - unfold slice_compare. rewrite (@zlen_nil Z), zlen_cons. pose proof (zlen_nonneg a).
    destruct (Z.ltb_spec (1 + zlen a) 0); [lia|]. by destruct (Z.gtb_spec (1 + zlen a) 0); [|lia].
  - by rewrite slice_compare_cons, IH.
Qed.

Lemma lex_spec a b :
  match lex a b with Zneg _ => bytes_before a b | 0 => a = b | Zpos _ => bytes_before b a end.
Proof.
  revert b; induction a as [|x a IH]; intros [|y b]; cbn [lex]; [done|constructor|constructor|].
  destruct (Z.ltb_spec x y); [by constructor|]. destruct (Z.gtb_spec x y); [by constructor|].
  assert (x = y) as -> by lia. specialize (IH b). destruct (lex a b); [by subst|by constructor..].
Qed.

Lemma bytes_before_irrefl a : ~ bytes_before a a.
Proof. induction a; inversion 1; subst; [lia|done]. Qed.

Lemma bytes_before_trans a b c : bytes_before a b -> bytes_before b c -> bytes_before a c.
Proof.
  intros H; revert c; induction H as [y b|x y a b Hl|x a b H IH]; intros c Hc;
    inversion Hc; subst; try (by constructor); [constructor; lia|constructor; by apply IH].
Qed.

Lemma slice_compare_spec a b :
  (slice_compare a b < 0 <-> bytes_before a b) /\ (slice_compare a b = 0 <-> a = b) /\
  (0 < slice_compare a b <-> bytes_before b a).
Proof.
  rewrite slice_compare_lex. pose proof (lex_spec a b) as H. pose proof (bytes_before_irrefl a) as Ha.
  destruct (lex a b) eqn:E.
  - subst b. split_and!; split; done.
  - assert (a <> b) by (by intros <-). assert (~ bytes_before a b) by (intros ?; by apply Ha, (bytes_before_trans a b a)).
    split_and!; split; done.
  - assert (a <> b) by (by intros <-). assert (~ bytes_before b a) by (intros ?; by apply Ha, (bytes_before_trans a b a)).
    split_and!; split; done.
Qed.

Lemma slice_compare_le a b : slice_compare a b <= 0 <-> bytes_before a b \/ a = b.
Proof. destruct (slice_compare_spec a b) as (H1 & H2 & _). rewrite <- H1, <- H2. lia. Qed.

#[export] Instance bytewise_order valid : KeyOrder valid slice_compare.
Proof.
  split; intros a b.
  - intros _ _. pose proof (slice_compare_spec a b). pose proof (slice_compare_spec b a). tauto.
  - intros c _ _ _. rewrite !slice_compare_le. intros [Hab| ->] [Hbc| ->]; eauto using bytes_before_trans.
Qed.

(** ** The bytewise comparator *)

Lemma shared_prefix_spec a b :
  exists p a' b', a = p ++ a' /\ b = p ++ b' /\ length p = shared_prefix a b /\
    match a', b' with x :: _, y :: _ => x <> y | _, _ => True end.
Proof.
  revert b; induction a as [|x a IH]; intros b; [by exists [], [], b|].
  destruct b as [|y b]; [by exists [], (x :: a), []|].
  cbn [shared_prefix]. destruct (Z.eqb_spec x y) as [<-|]; [|by exists [], (x :: a), (y :: b)].
  destruct (IH b) as (p & a' & b' & -> & -> & Hl & H). exists (x :: p), a', b'. cbn. by rewrite Hl.
Qed.

Lemma lex_app p a b : lex (p ++ a) (p ++ b) = lex a b.
Proof. induction p as [|x p IH]; [done|]. cbn. destruct (Z.ltb_spec x x); [lia|]. by destruct (Z.gtb_spec x x); [lia|]. Qed.

Lemma byte_at_app p x a : byte_at (p ++ x :: a) (length p) = x.
Proof. unfold byte_at. rewrite app_nth2 by lia. by rewrite Nat.sub_diag. Qed.

Lemma bump_app p x a : 0 <= x < 255 -> bump (p ++ x :: a) (length p) x = p ++ [x + 1].
Proof. intros Hx. unfold bump. rewrite take_app_length. do 2 f_equal. apply wrap_small. lia. Qed.

Lemma lex_above p x a : lex (p ++ x :: a) (p ++ [x + 1]) < 0.
Proof. rewrite lex_app. cbn [lex]. by destruct (Z.ltb_spec x (x + 1)); [|lia]. Qed.

Lemma bytewise_successor_spec before key :
  Forall is_byte (before ++ key) ->
  lex (before ++ key) (bytewise_successor before key) <= 0 /\ Forall is_byte (bytewise_successor before key) /\
  zlen (bytewise_successor before key) <= zlen (before ++ key).
Proof.
  revert before; induction key as [|x key IH]; intros before Hb; cbn [bytewise_successor].
  - rewrite app_nil_r in *. split; [|done]. rewrite <- slice_compare_lex. apply slice_compare_le. by right.
  - pose proof (zlen_nonneg key). destruct (Z.eqb_spec x 0xff) as [->|Hx]; cbn [negb].
    + rewrite (app_assoc before [255] key : before ++ 255 :: key = (before ++ [255]) ++ key) in *. by apply IH.
    + apply Forall_app in Hb as [H1 H2]. inversion H2 as [|? ? Hxb _]; subst. unfold is_byte in Hxb.
      rewrite (wrap_small 8 (x + 1) : _ -> u8 (x + 1) = x + 1) by lia. split; [pose proof (lex_above before x key); lia|].
      rewrite !zlen_app, !zlen_cons. change (zlen (@nil Z)) with 0. split; [|lia]. apply Forall_app. split; [done|]. constructor; [unfold is_byte; lia|constructor].
Qed.

(** A separator is the string itself, or its common prefix with the limit and the
    next byte incremented. *)
Lemma bytewise_separator_cases start limit :
  Forall is_byte start ->
  bytewise_separator start limit = Ret start \/
  exists p x a y b, start = p ++ x :: a /\ limit = p ++ y :: b /\ 0 <= x < 255 /\ x + 1 < y /\
    bytewise_separator start limit = Ret (p ++ [x + 1]).
Proof.
  intros Hs. unfold bytewise_separator.
  destruct (Z.geb_spec (Z.of_nat (shared_prefix start limit)) (Z.min (zlen start) (zlen limit))); [by left|].
  destruct (shared_prefix_spec start limit) as (p & a & b & Ea & Eb & El & Hne). rewrite <- El.
  destruct a as [|x a]; [exfalso; subst; rewrite app_nil_r in *; unfold zlen in *; lia|].
  destruct b as [|y b]; [exfalso; subst; rewrite app_nil_r in *; unfold zlen in *; lia|]. subst start limit.
  rewrite !byte_at_app. destruct (Z.ltb_spec x 0xff), (Z.ltb_spec (x + 1) y); cbn [andb]; try by left.
  assert (0 <= x) as Hx by (apply Forall_app in Hs as [_ Hs]; inversion Hs; subst; unfold is_byte in *; lia).
  right. exists p, x, a, y, b. rewrite bump_app by lia.
  assert (slice_compare (p ++ [x + 1]) (p ++ y :: b) < 0) as Hlim.
  { rewrite slice_compare_lex, lex_app. cbn [lex]. by destruct (Z.ltb_spec (x + 1) y); [|lia]. }
  by rewrite (proj2 (Z.ltb_lt _ _) Hlim).
Qed.

(** The built-in comparator keeps the contract. *)
#[export] Instance bytewise_laws : ComparatorLaws BytewiseComparator (Forall is_byte) slice_compare.
Proof.
  split; [typeclasses eauto|done|done|..]; cbn [FindShortestSeparator FindShortSuccessor BytewiseComparator].
  - intros start limit Hs Hl Hlt. destruct (bytewise_separator_cases start limit Hs) as [->|H].
    { exists start. split_and!; [done|done| |done|lia]. apply slice_compare_le. by right. }
    destruct H as (p & x & a & y & b & -> & -> & Hx & Hxy & ->). exists (p ++ [x + 1]). rewrite !slice_compare_lex.
    rewrite !zlen_app, !zlen_cons. change (zlen (@nil Z)) with 0. pose proof (zlen_nonneg a). split_and!; [done| |pose proof (lex_above p x a); lia| |lia].
    + apply Forall_app in Hs as [Hp _]. apply Forall_app. split; [done|]. constructor; [unfold is_byte; lia|constructor].
    + rewrite lex_app. cbn [lex]. by destruct (Z.ltb_spec (x + 1) y); [|lia].
  - intros start limit Hs Hl Hge. destruct (bytewise_separator_cases start limit Hs) as [->|H]; [done|].
    destruct H as (p & x & a & y & b & -> & -> & Hx & Hxy & _). rewrite slice_compare_lex, lex_app in Hge.
    cbn [lex] in Hge. by destruct (Z.ltb_spec x y); [|lia].
  - intros key Hk. destruct (bytewise_successor_spec [] key Hk) as (H1 & H2 & H3).
    exists (bytewise_successor [] key). by rewrite slice_compare_lex.
Qed.

(** ** The order of internal keys *)

Definition user_part (key : list Z) : list Z := firstn (Z.to_nat (zlen key - 8)) key.

(** An internal key: a user key and 8 bytes. *)
Definition internal_valid (valid : list Z -> Prop) (key : list Z) : Prop :=
  8 <= zlen key /\ Forall is_byte key /\ valid (user_part key).

(** By user key, then by decreasing number. *)
Definition internal_order (cmp : list Z -> list Z -> Z) (a b : list Z) : Z :=
  let r := cmp (user_part a) (user_part b) in
  if r =? 0 then
    if tail_num a >? tail_num b then -1 else if tail_num a <? tail_num b then 1 else 0
  else r.

Lemma ExtractUserKey_ret key : 8 <= zlen key -> ExtractUserKey key = Ret (user_part key).
Proof. intros H. unfold ExtractUserKey, assert_. by destruct (Z.geb_spec (zlen key) 8); [|lia]. Qed.

Lemma put_bytes64 tmp n : PutFixed64 tmp n = tmp ++ le_split 8 n.
Proof. unfold PutFixed64, EncodeFixed64. by rewrite EncodeFixed64_le. Qed.

Lemma zlen_put64 tmp n : zlen (PutFixed64 tmp n) = zlen tmp + 8.
Proof. by rewrite put_bytes64, zlen_app, zlen_le_split. Qed.

Lemma user_part_put tmp n : user_part (PutFixed64 tmp n) = tmp.
Proof.
  unfold user_part. rewrite zlen_put64. replace (zlen tmp + 8 - 8) with (zlen tmp) by lia.
  rewrite put_bytes64. apply firstn_zlen.
Qed.

Lemma tail_num_put tmp n : is_u64 n -> tail_num (PutFixed64 tmp n) = n.
Proof.
  intros Hn. unfold tail_num. rewrite zlen_put64. replace (zlen tmp + 8 - 8) with (zlen tmp) by lia.
  unfold PutFixed64, zlen. rewrite Nat2Z.id, drop_app_length. rewrite <- (app_nil_r (EncodeFixed64 n)).
  by apply DecodeFixed64_Encode.
Qed.

Lemma tail_num_range key : 8 <= zlen key -> Forall is_byte key -> is_u64 (tail_num key).
Proof.
  intros Hl Hb. unfold tail_num, is_u64. set (t := skipn _ key).
  assert (length t = 8%nat) as Ht by (subst t; rewrite length_drop; unfold zlen in *; lia).
  assert (Forall is_byte t) as Hbt by (by apply Forall_drop).
  unfold DecodeFixed64. rewrite DecodeFixed64_le by (done || lia).
  rewrite firstn_all2 by lia. pose proof (le_combine_range t Hbt) as H. unfold zlen in H. by rewrite Ht in H.
Qed.

(** An internal key is its user key and its number. *)
Lemma internal_key_parts key : 8 <= zlen key -> Forall is_byte key -> key = PutFixed64 (user_part key) (tail_num key).
Proof.
  intros Hl Hb. rewrite put_bytes64. rewrite <- (firstn_skipn (Z.to_nat (zlen key - 8)) key) at 1. f_equal.
  unfold tail_num. set (t := skipn _ key).
  assert (length t = 8%nat) as Ht by (subst t; rewrite length_drop; unfold zlen in *; lia).
  assert (Forall is_byte t) as Hbt by (by apply Forall_drop).
  unfold DecodeFixed64. rewrite DecodeFixed64_le by (done || lia). rewrite firstn_all2 by lia.
  rewrite <- Ht. by rewrite le_split_combine.
Qed.

Lemma internal_valid_put valid user n : valid user -> Forall is_byte user -> internal_valid valid (PutFixed64 user n).
Proof.
  intros Hv Hb. split_and!; [rewrite zlen_put64; pose proof (zlen_nonneg user); lia| |by rewrite user_part_put].
  rewrite put_bytes64. apply Forall_app. split; [done|apply le_split_bytes].
Qed.

Section InternalOrder.
Context {user : Comparator} {valid : list Z -> Prop} {cmp : list Z -> list Z -> Z}.
Context {laws : ComparatorLaws user valid cmp}.

#[export] Instance internal_key_order : KeyOrder (internal_valid valid) (internal_order cmp).
Proof.
  split; intros a b.
  - intros (_ & _ & Ha) (_ & _ & Hb). unfold internal_order. pose proof (order_flip (cmp := cmp) _ _ Ha Hb).
    destruct (Z.eqb_spec (cmp (user_part a) (user_part b)) 0), (Z.eqb_spec (cmp (user_part b) (user_part a)) 0); try lia.
    rewrite !Z.gtb_ltb. destruct (Z.ltb_spec (tail_num b) (tail_num a)), (Z.ltb_spec (tail_num a) (tail_num b)); lia.
  - intros c (_ & _ & Ha) (_ & _ & Hb) (_ & _ & Hc). unfold internal_order.
    pose proof (order_trans (cmp := cmp) _ _ _ Ha Hb Hc). pose proof (order_lt_le (cmp := cmp) _ _ _ Ha Hb Hc).
    pose proof (order_le_lt (cmp := cmp) _ _ _ Ha Hb Hc). pose proof (order_eq_l (cmp := cmp) _ _ _ Ha Hb Hc).
    destruct (Z.eqb_spec (cmp (user_part a) (user_part b)) 0), (Z.eqb_spec (cmp (user_part b) (user_part c)) 0),
      (Z.eqb_spec (cmp (user_part a) (user_part c)) 0); rewrite ?Z.gtb_ltb; try lia.
    destruct (Z.ltb_spec (tail_num b) (tail_num a)), (Z.ltb_spec (tail_num a) (tail_num b)),
      (Z.ltb_spec (tail_num c) (tail_num b)), (Z.ltb_spec (tail_num b) (tail_num c)),
      (Z.ltb_spec (tail_num c) (tail_num a)), (Z.ltb_spec (tail_num a) (tail_num c)); lia.
Qed.

Lemma internal_compare_ret a b :
  internal_valid valid a -> internal_valid valid b -> internal_compare user a b = Ret (internal_order cmp a b).
Proof.
  intros (Ha & _ & Hva) (Hb & _ & Hvb). unfold internal_compare, internal_order.
  rewrite !ExtractUserKey_ret by done. cbn [rbind]. rewrite laws_compare by done. cbn [rbind].
  destruct (Z.eqb_spec (cmp (user_part a) (user_part b)) 0) as [E|]; [|done]. rewrite E.
  destruct (_ >? _); [done|]. by destruct (_ <? _).
Qed.

(** The order of the user keys decides. *)
Lemma internal_order_user a b : cmp (user_part a) (user_part b) <> 0 -> internal_order cmp a b = cmp (user_part a) (user_part b).
Proof. intros H. unfold internal_order. by destruct (Z.eqb_spec (cmp (user_part a) (user_part b)) 0). Qed.

Definition earliest : Z := Z.lor (u64 (Z.shiftl kMaxSequenceNumber 8)) kValueTypeForSeek.

Lemma put_earliest_ret tmp : put_earliest tmp = Ret (PutFixed64 tmp earliest).
Proof. done. Qed.

(** The shortened key is taken when it is shorter and greater. *)
Lemma shorter_ret tmp u :
  valid tmp -> valid u ->
  (if zlen tmp <? zlen u then let! r := Compare user u tmp in Ret (r <? 0) else Ret false)
  = Ret ((zlen tmp <? zlen u) && (cmp u tmp <? 0)).
Proof. intros Ht Hu. destruct (zlen tmp <? zlen u); [|done]. by rewrite laws_compare by done. Qed.

Lemma put_earliest_valid tmp : valid tmp -> internal_valid valid (PutFixed64 tmp earliest).
Proof. intros H. apply internal_valid_put; [done|by eapply laws_bytes]. Qed.

(** Both shortenings: the key stays, or becomes the shorter one, which is greater. *)
Lemma shortened key tmp :
  internal_valid valid key -> valid tmp -> (zlen tmp <? zlen (user_part key)) && (cmp (user_part key) tmp <? 0) = true ->
  internal_order cmp key (PutFixed64 tmp earliest) < 0.
Proof.
  intros (_ & _ & Hk) Ht [_ Hlt%Z.ltb_lt]%andb_prop. rewrite internal_order_user; rewrite user_part_put; lia.
Qed.

Lemma shortened_length key tmp :
  internal_valid valid key -> (zlen tmp <? zlen (user_part key)) && (cmp (user_part key) tmp <? 0) = true ->
  zlen (PutFixed64 tmp earliest) <= zlen key.
Proof.
  intros (H8 & _) [Hlt%Z.ltb_lt _]%andb_prop. rewrite zlen_put64. unfold user_part, zlen in *. rewrite length_take in Hlt. lia.
Qed.

(** Internal keys over a comparator that keeps the contract keep it, and no
    assertion fails. *)
#[export] Instance internal_laws : ComparatorLaws (InternalKeyComparator user) (internal_valid valid) (internal_order cmp).
Proof.
  split; [typeclasses eauto|by intros a (_ & ? & _)|apply internal_compare_ret|..];
    cbn [FindShortestSeparator FindShortSuccessor InternalKeyComparator].
  - intros start limit Hs Hl Hlt. pose proof Hs as (Hs8 & _ & Hsv). pose proof Hl as (Hl8 & _ & Hlv).
    unfold internal_separator. rewrite !ExtractUserKey_ret by done. cbn [rbind].
    assert (internal_order cmp start start <= 0) as Hrefl by (rewrite order_refl by done; done).
    destruct (Z.lt_ge_cases (cmp (user_part start) (user_part limit)) 0) as [Hu|Hu].
    + destruct (laws_separator _ _ Hsv Hlv Hu) as (tmp & -> & Htv & Hge & Htl & _). cbn [rbind].
      rewrite shorter_ret by done. cbn [rbind]. destruct (_ && _) eqn:Esh; [|by exists start].
      pose proof (shortened_length start tmp Hs Esh) as Hlen.
      pose proof (shortened start tmp Hs Htv Esh) as Hst. pose proof (put_earliest_valid tmp Htv) as Hpv.
      assert (internal_order cmp (PutFixed64 tmp earliest) limit < 0) as Hpl
        by (rewrite internal_order_user; rewrite user_part_put; lia).
      rewrite put_earliest_ret. cbn [rbind]. rewrite !internal_compare_ret by done. cbn [rbind].
      rewrite (proj2 (Z.ltb_lt _ _) Hst), (proj2 (Z.ltb_lt _ _) Hpl). exists (PutFixed64 tmp earliest).
      split_and!; [done|done|lia|done|done].
    + rewrite laws_no_separator by done. cbn [rbind]. rewrite Z.ltb_irrefl. by exists start.
  - intros start limit Hs Hl Hge. pose proof Hs as (Hs8 & _ & Hsv). pose proof Hl as (Hl8 & _ & Hlv).
    unfold internal_separator. rewrite !ExtractUserKey_ret by done. cbn [rbind].
    rewrite laws_no_separator; [cbn [rbind]; by rewrite Z.ltb_irrefl|done|done|].
    unfold internal_order in Hge. destruct (Z.eqb_spec (cmp (user_part start) (user_part limit)) 0); lia.
  - intros key Hk. pose proof Hk as (Hk8 & _ & Hkv). unfold internal_successor.
    rewrite ExtractUserKey_ret by done. cbn [rbind]. destruct (laws_successor _ Hkv) as (tmp & -> & Htv & Hge & _).
    cbn [rbind]. rewrite shorter_ret by done. cbn [rbind]. destruct (_ && _) eqn:Esh.
    + pose proof (shortened_length key tmp Hk Esh) as Hlen. pose proof (shortened key tmp Hk Htv Esh) as Hst. pose proof (put_earliest_valid tmp Htv) as Hpv.
      rewrite put_earliest_ret. cbn [rbind]. rewrite internal_compare_ret by done. cbn [rbind].
      rewrite (proj2 (Z.ltb_lt _ _) Hst). exists (PutFixed64 tmp earliest). split_and!; [done|done|lia|done].
    + exists key. by rewrite order_refl.
Qed.

End InternalOrder.

(** ** Packing and parsing *)

(** The sequence numbers and types of the keys that are written. *)
Definition is_sequence (s : Z) : Prop := 0 <= s <= kMaxSequenceNumber.
Definition is_type (t : Z) : Prop := t = kTypeDeletion \/ t = kTypeValue.

(** [seq << 8 | t]. *)
Definition packed (s t : Z) : Z := s * 256 + t.

Lemma PackSequenceAndType_ret s t : is_sequence s -> is_type t -> PackSequenceAndType s t = Ret (packed s t) /\ is_u64 (packed s t).
Proof.
  unfold is_sequence. change kMaxSequenceNumber with (2 ^ 56 - 1). intros Hs Ht. unfold PackSequenceAndType, assert_.
  assert (0 <= t <= 1) as Ht1 by (destruct Ht as [-> | ->]; vm_compute; split; discriminate).
  change kMaxSequenceNumber with (2 ^ 56 - 1). destruct (Z.leb_spec s (2 ^ 56 - 1)); [|lia].
  change kValueTypeForSeek with 1. destruct (Z.leb_spec t 1); [|lia]. cbn [rbind]. unfold packed, is_u64.
  split; [|lia]. rewrite (wrap_small 64 (Z.shiftl s 8) : _ -> u64 (Z.shiftl s 8) = Z.shiftl s 8) by (rewrite Z.shiftl_mul_pow2; lia).
  by rewrite Z.lor_comm, lor_shiftl, Z.add_comm by lia.
Qed.

Lemma unpack s t : is_type t -> Z.land (packed s t) 0xff = t /\ Z.shiftr (packed s t) 8 = s.
Proof.
  intros Ht. assert (0 <= t < 256) as Ht1 by (destruct Ht as [-> | ->]; vm_compute; split; congruence).
  unfold packed. rewrite land_255, Z.shiftr_div_pow2 by lia. change (2 ^ 8) with 256. split.
  - rewrite Z.add_comm, Z.mod_add, Z.mod_small; lia.
  - rewrite Z.div_add_l, Z.div_small; lia.
Qed.

Lemma AppendInternalKey_ret result key :
  is_sequence (sequence key) -> is_type (key_type key) ->
  AppendInternalKey result key = Ret (PutFixed64 (result ++ user_key key) (packed (sequence key) (key_type key))).
Proof. intros Hs Ht. unfold AppendInternalKey. by rewrite (proj1 (PackSequenceAndType_ret _ _ Hs Ht)). Qed.

Lemma ParseInternalKey_put user s t old :
  is_sequence s -> is_type t -> ParseInternalKey (PutFixed64 user (packed s t)) old = (true, mk_parsed user s t).
Proof.
  intros Hs Ht. destruct (PackSequenceAndType_ret s t Hs Ht) as [_ Hp]. destruct (unpack s t Ht) as [H1 H2].
  unfold ParseInternalKey. rewrite tail_num_put by done. fold (user_part (PutFixed64 user (packed s t))).
  rewrite user_part_put, H1, H2. rewrite zlen_put64. pose proof (zlen_nonneg user).
  destruct (Z.ltb_spec (zlen user + 8) 8); [lia|]. f_equal. by destruct Ht as [-> | ->].
Qed.

Lemma ParseInternalKey_inv key old p :
  Forall is_byte key -> ParseInternalKey key old = (true, p) ->
  is_sequence (sequence p) /\ is_type (key_type p) /\ key = PutFixed64 (user_key p) (packed (sequence p) (key_type p)).
Proof.
  intros Hb. unfold ParseInternalKey. destruct (Z.ltb_spec (zlen key) 8) as [|Hl]; [done|].
  pose proof (tail_num_range key Hl Hb) as Hn. pose proof (internal_key_parts key Hl Hb) as Ek.
  set (n := tail_num key) in *. intros [= Ht <-]. cbn [user_key sequence key_type]. unfold is_u64 in Hn.
  apply Z.leb_le in Ht. change kTypeValue with 1 in Ht. unfold is_sequence. change kMaxSequenceNumber with (2 ^ 56 - 1).
  rewrite land_255 in *. rewrite Z.shiftr_div_pow2 by lia. change (2 ^ 8) with 256.
  pose proof (Z.mod_pos_bound n 256). pose proof (Z.div_mod n 256).
  assert (n / 256 < 2 ^ 56) by (apply Z.div_lt_upper_bound; lia). pose proof (Z.div_pos n 256).
  split; [lia|]. split; [unfold is_type; change kTypeDeletion with 0; change kTypeValue with 1; lia|].
  unfold packed. replace (n / 256 * 256 + n mod 256) with n by lia. exact Ek.
Qed.

(** ** Filters and lookup keys *)

#[export] Instance bloom_filter_laws bits_per_key :
  0 <= bits_per_key < 2 ^ 31 -> FilterLaws (bloom_policy (new_policy bits_per_key)) (fun _ => True).
Proof.
  intros Hb. split.
  - intros keys dst _ Hn. destruct (bloom_matches bits_per_key keys dst Hb Hn) as (filter & E & Hf & Hm).
    exists filter, keys. cbn [policy_create policy_match bloom_policy]. rewrite E. split_and!; [done|apply Hf|done].
  - intros key f _ Hf. eexists. cbn [policy_match bloom_policy]. by apply KeyMayMatch_spec.
Qed.

Lemma extract_user_keys_ret keys :
  Forall (fun k => 8 <= zlen k) keys -> extract_user_keys keys = Ret (map user_part keys).
Proof.
  induction 1 as [|k keys Hk _ IH]; [done|]. cbn [extract_user_keys map].
  rewrite ExtractUserKey_ret by done. cbn [rbind]. by rewrite IH.
Qed.

(** Over a policy that matches its keys, so does the policy of internal keys. *)
#[export] Instance internal_filter_laws p valid :
  FilterLaws p valid -> FilterLaws (InternalFilterPolicy p) (fun k => 8 <= zlen k /\ valid (user_part k)).
Proof.
  intros Hp. split; [intros keys dst Hk Hn|].
  2: { intros key f [Hk Hv] Hf. cbn [policy_match InternalFilterPolicy]. rewrite ExtractUserKey_ret by done. cbn [rbind]. by apply filter_total. }
  assert (Forall (fun k => 8 <= zlen k) keys) as H8 by (eapply Forall_impl; [exact Hk|by intros k []]).
  assert (Forall valid (map user_part keys)) as Hv.
  { apply Forall_map. eapply Forall_impl; [exact Hk|by intros k []]. }
  destruct (filter_matches (map user_part keys) dst Hv) as (filter & keys' & E & Hf & Hm); [by unfold zlen; rewrite length_map|].
  exists filter, keys'. cbn [policy_create policy_match InternalFilterPolicy]. rewrite extract_user_keys_ret by done.
  split; [exact E|]. split; [exact Hf|]. rewrite Forall_map in Hm. apply Forall_forall. intros k Hin.
  rewrite ExtractUserKey_ret by (by eapply Forall_forall in H8). cbn [rbind]. by eapply Forall_forall in Hm.
Qed.

Lemma new_lookup_key_ret user s :
  is_sequence s -> zlen user + 13 < 2 ^ 32 ->
  exists k, new_lookup_key user s = Ret k /\
    internal_key k = PutFixed64 user (packed s kTypeValue) /\
    memtable_key k = PutLengthPrefixedSlice [] (internal_key k) /\
    lookup_user_key k = user.
Proof.
  intros Hs Hl. unfold new_lookup_key. change kValueTypeForSeek with kTypeValue.
  destruct (PackSequenceAndType_ret s kTypeValue Hs ltac:(by right)) as [-> _]. cbn [rbind].
  pose proof (zlen_nonneg user). set (length := EncodeVarint32 _). set (array := length ++ _).
  assert (is_u32 (zlen user + 8)) as Hu by (unfold is_u32; lia).
  assert (zlen length <= 5) as H5.
  { subst length. rewrite (wrap_small 32 (zlen user + 8) : _ -> u32 _ = _) by (unfold is_u32 in Hu; lia).
    unfold EncodeVarint32. repeat destruct (_ <? _); by vm_compute. }
  pose proof (put_bytes64 user (packed s kTypeValue)) as Ep. unfold PutFixed64 in Ep.
  assert (zlen array = zlen length + zlen user + 8) as Ea.
  { subst array. rewrite !zlen_app. apply (f_equal zlen) in Ep. rewrite !zlen_app, zlen_le_split in Ep. lia. }
  rewrite (wrap_small 64 (zlen user + 13) : _ -> u64 _ = _) by lia. unfold lookup_space.
  destruct (Z.leb_spec (zlen array) (if zlen user + 13 <=? 200 then 200 else zlen user + 13)) as [|Hgt];
    [|exfalso; destruct (Z.leb_spec (zlen user + 13) 200); lia].
  exists (mk_lookup array (zlen length)). split; [done|].
  assert (internal_key (mk_lookup array (zlen length)) = PutFixed64 user (packed s kTypeValue)) as Ei.
  { unfold internal_key. cbn [lookup_array kstart_]. subst array. unfold zlen. by rewrite Nat2Z.id, drop_app_length. }
  split; [done|]. rewrite Ei. split.
  - unfold PutLengthPrefixedSlice, PutVarint32. by rewrite zlen_put64.
  - unfold lookup_user_key. rewrite Ei. cbn [lookup_array kstart_]. rewrite Ea.
    replace (zlen length + zlen user + 8 - zlen length - 8) with (zlen user) by lia.
    unfold PutFixed64. apply firstn_zlen.
Qed.

Section LookupOrder.
Context {user : Comparator} {valid : list Z -> Prop} {cmp : list Z -> list Z -> Z}.
Context {laws : ComparatorLaws user valid cmp}.

(** The order of keys by their parts. *)
Lemma internal_order_parts u1 s1 t1 u2 s2 t2 :
  is_sequence s1 -> is_sequence s2 -> is_type t1 -> is_type t2 ->
  let r := internal_order cmp (PutFixed64 u1 (packed s1 t1)) (PutFixed64 u2 (packed s2 t2)) in
  (r < 0 <-> cmp u1 u2 < 0 \/ cmp u1 u2 = 0 /\ (s2 < s1 \/ s1 = s2 /\ t2 < t1)) /\
  (r = 0 <-> cmp u1 u2 = 0 /\ s1 = s2 /\ t1 = t2).
Proof.
  intros Hs1 Hs2 Ht1 Ht2 r. subst r. unfold internal_order. rewrite !user_part_put.
  destruct (PackSequenceAndType_ret _ _ Hs1 Ht1) as [_ Hp1], (PackSequenceAndType_ret _ _ Hs2 Ht2) as [_ Hp2].
  rewrite !tail_num_put by done.
  assert (forall t, is_type t -> 0 <= t <= 1) as Htr by (intros t [-> | ->]; vm_compute; split; discriminate).
  pose proof (Htr _ Ht1). pose proof (Htr _ Ht2). rewrite Z.gtb_ltb. unfold packed.
  destruct (Z.eqb_spec (cmp u1 u2) 0) as [->|]; [|lia].
  destruct (Z.ltb_spec (s2 * 256 + t2) (s1 * 256 + t1)); [lia|].
  destruct (Z.ltb_spec (s1 * 256 + t1) (s2 * 256 + t2)); lia.
Qed.

End LookupOrder.

(** ** Theorems *)

(** The built-in comparator compares strings byte by byte, with a prefix before
    its extensions, and keeps the contract of comparator.h. *)
Theorem bytewise_contract :
  ComparatorLaws BytewiseComparator (Forall is_byte) slice_compare /\
  forall a b, (slice_compare a b < 0 <-> bytes_before a b) /\ (slice_compare a b = 0 <-> a = b) /\
    (0 < slice_compare a b <-> bytes_before b a).
Proof. split; [apply bytewise_laws|apply slice_compare_spec]. Qed.

(** C30. Over any user comparator that keeps its contract, the comparator of internal
    keys keeps it too, so that no assertion in it fails; it orders keys by user
    key, then by decreasing sequence number, then by decreasing type. *)
Theorem internal_keys_ordered user valid cmp u1 s1 t1 u2 s2 t2 :
  ComparatorLaws user valid cmp ->
  valid u1 -> valid u2 -> is_sequence s1 -> is_sequence s2 -> is_type t1 -> is_type t2 ->
  ComparatorLaws (InternalKeyComparator user) (internal_valid valid) (internal_order cmp) /\
  exists k1 k2 r, new_internal_key u1 s1 t1 = Ret k1 /\ new_internal_key u2 s2 t2 = Ret k2 /\
    compare_internal_keys user k1 k2 = Ret r /\
    (r < 0 <-> cmp u1 u2 < 0 \/ cmp u1 u2 = 0 /\ (s2 < s1 \/ s1 = s2 /\ t2 < t1)) /\
    (r = 0 <-> cmp u1 u2 = 0 /\ s1 = s2 /\ t1 = t2).
Proof.
  intros laws Hv1 Hv2 Hs1 Hs2 Ht1 Ht2. split; [apply internal_laws|].
  exists (PutFixed64 u1 (packed s1 t1)), (PutFixed64 u2 (packed s2 t2)).
  exists (internal_order cmp (PutFixed64 u1 (packed s1 t1)) (PutFixed64 u2 (packed s2 t2))).
  unfold new_internal_key. rewrite !AppendInternalKey_ret by done. split_and!; [done|done| |by apply internal_order_parts..].
  unfold compare_internal_keys, Encode, assert_. rewrite !zlen_put64.
  pose proof (zlen_nonneg u1). pose proof (zlen_nonneg u2).
  destruct (Z.eqb_spec (zlen u1 + 8) 0); [lia|]. destruct (Z.eqb_spec (zlen u2 + 8) 0); [lia|]. cbn [negb rbind].
  apply internal_compare_ret; by apply internal_valid_put; [|eapply laws_bytes].
Qed.

(** Internal keys are exactly what [AppendInternalKey] writes: parsing a key it
    wrote gives its parts back, and a string that parses is what it writes for the
    parts. *)
Theorem internal_key_roundtrip key old rep p :
  is_sequence (sequence key) -> is_type (key_type key) -> Forall is_byte rep ->
  (exists k, AppendInternalKey [] key = Ret k /\ ParseInternalKey k old = (true, key) /\
     ExtractUserKey k = Ret (user_key key) /\ zlen k = InternalKeyEncodingLength key) /\
  (ParseInternalKey rep old = (true, p) -> AppendInternalKey [] p = Ret rep).
Proof.
  intros Hs Ht Hb. split.
  - exists (PutFixed64 (user_key key) (packed (sequence key) (key_type key))).
    rewrite AppendInternalKey_ret, ParseInternalKey_put by done. split_and!; [done|by destruct key| |by rewrite zlen_put64].
    rewrite ExtractUserKey_ret; [by rewrite user_part_put|]. rewrite zlen_put64. pose proof (zlen_nonneg (user_key key)). lia.
  - intros H. destruct (ParseInternalKey_inv _ _ _ Hb H) as (Hps & Hpt & ->). by rewrite AppendInternalKey_ret.
Qed.

(** A lookup key fits its buffer, holds the user key and the snapshot, and comes
    before the entries of the user key that the snapshot sees, and after the
    others. *)
Theorem lookup_key_spec user valid cmp u s :
  ComparatorLaws user valid cmp -> valid u -> is_sequence s -> zlen u + 13 < 2 ^ 32 ->
  exists k, new_lookup_key u s = Ret k /\ lookup_user_key k = u /\
    memtable_key k = PutLengthPrefixedSlice [] (internal_key k) /\
    forall s' t' key, is_sequence s' -> is_type t' -> new_internal_key u s' t' = Ret key ->
      exists r, internal_compare user (internal_key k) key = Ret r /\ (r <= 0 <-> s' <= s).
Proof.
  intros laws Hu Hs Hl. destruct (new_lookup_key_ret u s Hs Hl) as (k & E & Ei & Em & Eu).
  exists k. split_and!; [done|done|done|]. intros s' t' key Hs' Ht'. unfold new_internal_key.
  rewrite AppendInternalKey_ret by done. cbn [user_key sequence key_type app]. intros [= <-]. rewrite Ei.
  eexists. split; [apply internal_compare_ret; by apply internal_valid_put; [|eapply laws_bytes]|].
  destruct (internal_order_parts (cmp := cmp) u s kTypeValue u s' t' Hs Hs' ltac:(by right) Ht') as [H1 H2].
  pose proof (order_refl (cmp := cmp) u Hu). assert (t' <= kTypeValue) by (by destruct Ht' as [-> | ->]). lia.
Qed.
