(* ===== verification/LdbRandom.v ===== *)
(** * LevelDB: the random number generator (util/random.h)

    A Lehmer generator modulo [2 ^ 31 - 1].  A [Random] is its [seed_]; [Next]
    returns the number drawn and the new seed. *)
From S2P Require Import Prelude.
From Stdlib Require Import ZArith Lia.
From stdpp Require Import base tactics numbers.
#[local] Open Scope Z_scope.

(** ** Definitions *)

Definition random_M : Z := 2147483647.
Definition random_A : Z := 16807.

Definition new_random (s : Z) : Z :=
  let seed_ := Z.land s 0x7fffffff in
  if (seed_ =? 0) || (seed_ =? 2147483647) then 1 else seed_.

(** [Next()]: the result, which is also the new [seed_]. *)
Definition Next (seed_ : Z) : Z :=
  let product := u64 (seed_ * random_A) in
  let seed_ := u32 (Z.shiftr product 31 + Z.land product random_M) in
  if seed_ >? random_M then u32 (seed_ - random_M) else seed_.

(** [Uniform(n)], [OneIn(n)] and [Skewed(max_log)], with the new seed. *)
Definition Uniform (seed_ n : Z) : Z * Z :=
  let seed_ := Next seed_ in (seed_ mod u32 n, seed_).

Definition OneIn (seed_ n : Z) : bool * Z :=
  let seed_ := Next seed_ in (seed_ mod u32 n =? 0, seed_).

Definition Skewed (seed_ max_log : Z) : Z * Z :=
  let (base, seed_) := Uniform seed_ (max_log + 1) in
  Uniform seed_ (swrap 32 (Z.shiftl 1 base)).

(** ** Lemmas *)

(** The seeds the generator goes through. *)
Definition is_seed (s : Z) : Prop := 1 <= s < random_M.

Lemma new_random_seed s : is_seed (new_random s).
Proof.
  unfold new_random, is_seed, random_M. change 0x7fffffff with (Z.ones 31). rewrite Z.land_ones by lia.
  pose proof (Z.mod_pos_bound s (2 ^ 31)). change (2 ^ 31) with 2147483648 in *. change (Z.ones 31) with 2147483647.
  destruct (Z.eqb_spec (s mod 2147483648) 0), (Z.eqb_spec (s mod 2147483648) 2147483647); cbn [orb]; lia.
Qed.

(** [2 ^ 31] is 1 modulo [M]. *)
Lemma fold_31 x : (Z.shiftr x 31 + Z.land x random_M) mod random_M = x mod random_M.
Proof.
  unfold random_M at 1. change 2147483647 with (Z.ones 31). rewrite Z.land_ones, Z.shiftr_div_pow2 by lia.
  pose proof (Z.div_mod x (2 ^ 31)) as E. set (q := x / 2 ^ 31) in *. set (r := x mod 2 ^ 31) in *.
  rewrite E by done. replace (2 ^ 31 * q + r) with (q + r + q * random_M) by (unfold random_M; lia).
  by rewrite Z.mod_add.
Qed.

Lemma Next_mod seed_ : is_seed seed_ -> Next seed_ = (seed_ * random_A) mod random_M /\ is_seed (Next seed_).
Proof.
  intros Hs. unfold is_seed, random_M in Hs.
  assert ((seed_ * random_A) mod random_M <> 0) as Hne.
  { rewrite Z.mod_divide by done. rewrite Z.mul_comm. intros Hd. apply Z.gauss in Hd; [|by vm_compute].
    apply Z.divide_pos_le in Hd; unfold random_M in *; lia. }
  unfold Next. rewrite (wrap_small 64 (seed_ * random_A) : _ -> u64 _ = _) by (unfold random_A; lia).
  set (x := seed_ * random_A) in *. pose proof (fold_31 x) as Hf. set (y := Z.shiftr x 31 + Z.land x random_M) in *.
  assert (0 <= y <= 2 * random_M) as Hy.
  { assert (y = x / 2 ^ 31 + x mod 2 ^ 31) as ->.
    { subst y. unfold random_M. change 2147483647 with (Z.ones 31). by rewrite Z.land_ones, Z.shiftr_div_pow2 by lia. }
    assert (0 <= x < random_A * random_M) by (subst x; unfold random_M, random_A; lia).
    pose proof (Z.mod_pos_bound x (2 ^ 31)). pose proof (Z.div_pos x (2 ^ 31)).
    assert (x / 2 ^ 31 < random_A) by (apply Z.div_lt_upper_bound; unfold random_M, random_A in *; lia).
    unfold random_M, random_A in *. lia. }
  rewrite (wrap_small 32 y : _ -> u32 y = y) by (unfold random_M in *; lia).
  rewrite <- Hf in *. unfold is_seed. pose proof (Z.mod_pos_bound y random_M).
  destruct (Z.gtb_spec y random_M) as [Hg|Hg].
  - rewrite (wrap_small 32 (y - random_M) : _ -> u32 _ = _) by (unfold random_M in *; lia).
    assert (y mod random_M = y - random_M) as E.
    { rewrite <- (Z.mod_add y (-1)) by done. destruct (Z.eq_dec y (2 * random_M)) as [E2|].
      - exfalso. apply Hne. by rewrite E2, Z.mod_mul.
      - apply Z.mod_small. lia. }
    rewrite <- E. split; [done|]. unfold random_M in *. lia.
  - assert (y <> random_M) by (intros E; apply Hne; by rewrite E, Z.mod_same).
    rewrite Z.mod_small in * by lia. split; [done|]. unfold random_M in *. lia.
Qed.

(** ** Theorem *)

(** The generator multiplies by 16807 modulo [2 ^ 31 - 1] without a division and
    without overflow; whatever the first seed, it never reaches 0 or the modulus,
    where it would stay. *)
Theorem random_generator s :
  is_seed (new_random s) /\
  forall seed, is_seed seed -> Next seed = (seed * random_A) mod random_M /\ is_seed (Next seed).
Proof. split; [apply new_random_seed|apply Next_mod]. Qed.
