(* ===== verification/LdbArena.v ===== *)
(** * LevelDB: the arena (util/arena.h, util/arena.cc)

    Memory handed out piece by piece from large blocks, and freed all at once with
    the arena.  [operator new[]] is a parameter: from the blocks that are live and
    a size it gives the address of a new block, or nothing when it throws
    [std::bad_alloc].  [FreshAlloc] is what the users of an arena rely on. *)
From S2P Require Import Prelude.
From Stdlib Require Import ZArith Lia.
From stdpp Require Import base tactics numbers list.
#[local] Open Scope Z_scope.

(** A piece of memory: its address and its size. *)
Definition region : Type := Z * Z.

Definition apart (r s : region) : Prop := fst r + snd r <= fst s \/ fst s + snd s <= fst r.

Definition inside (r s : region) : Prop := fst s <= fst r /\ fst r + snd r <= fst s + snd s.

(** What [operator new[]] promises. *)
Class FreshBlocks (new_array : list region -> Z -> option Z) : Prop := {
  fresh_block blocks n p : 0 < n -> new_array blocks n = Some p ->
    0 < p /\ p + n < 2 ^ 64 /\ p mod 16 = 0 /\ Forall (apart (p, n)) blocks;
}.

Section Arena.
Context (new_array : list region -> Z -> option Z).

(** [kBlockSize] of arena.cc. *)
Definition arena_block_size : Z := 4096.

Definition sizeof_pointer : Z := 8.

Record Arena := mk_arena {
  alloc_ptr_ : Z;
  alloc_bytes_remaining_ : Z;
  blocks_ : list region;
  memory_usage_ : Z;
}.

Definition new_arena : Arena := mk_arena 0 0 [] 0.

Definition MemoryUsage (a : Arena) : Z := memory_usage_ a.

Definition AllocateNewBlock (a : Arena) (block_bytes : Z) : option Z * Arena :=
  match new_array (blocks_ a) block_bytes with
  | None => (None, a)
  | Some result =>
      (Some result,
       mk_arena (alloc_ptr_ a) (alloc_bytes_remaining_ a) (blocks_ a ++ [(result, block_bytes)])
         (u64 (memory_usage_ a + (block_bytes + sizeof_pointer))))
  end.

Definition AllocateFallback (a : Arena) (bytes : Z) : option Z * Arena :=
  if bytes >? arena_block_size / 4 then AllocateNewBlock a bytes
  else
    match AllocateNewBlock a arena_block_size with
    | (None, a) => (None, a)
    | (Some p, a) =>
        (Some p, mk_arena (p + bytes) (arena_block_size - bytes) (blocks_ a) (memory_usage_ a))
    end.

Definition Allocate (a : Arena) (bytes : Z) : res (option Z * Arena) :=
  let! _ := assert_ (bytes >? 0) in
  if bytes <=? alloc_bytes_remaining_ a then
    Ret (Some (alloc_ptr_ a),
         mk_arena (alloc_ptr_ a + bytes) (alloc_bytes_remaining_ a - bytes) (blocks_ a) (memory_usage_ a))
  else Ret (AllocateFallback a bytes).

Definition arena_align : Z := if sizeof_pointer >? 8 then sizeof_pointer else 8.

Definition AllocateAligned (a : Arena) (bytes : Z) : res (option Z * Arena) :=
  let current_mod := Z.land (alloc_ptr_ a) (arena_align - 1) in
  let slop := if current_mod =? 0 then 0 else arena_align - current_mod in
  let needed := u64 (bytes + slop) in
  let '(result, a) :=
    if needed <=? alloc_bytes_remaining_ a then
      (Some (alloc_ptr_ a + slop),
       mk_arena (alloc_ptr_ a + needed) (alloc_bytes_remaining_ a - needed) (blocks_ a) (memory_usage_ a))
    else AllocateFallback a bytes in
  match result with
  | None => Ret (None, a)
  | Some p =>
      let! _ := assert_ (Z.land p (arena_align - 1) =? 0) in
      Ret (Some p, a)
  end.

End Arena.

(** ** The interface of an allocator *)

(** [alloc], from states that [ok] relates to the regions in use, gives a region
    apart from them or nothing. *)
Class FreshAlloc {A : Type} (alloc : A -> Z -> res (option Z * A)) (ok : A -> list region -> Prop) : Prop := {
  alloc_fresh a used n : ok a used -> 0 < n < 2 ^ 62 ->
    exists result a', alloc a n = Ret (result, a') /\
      match result with
      | None => ok a' used
      | Some p => 0 < p /\ Forall (apart (p, n)) used /\ ok a' ((p, n) :: used)
      end;
}.

(** ** The invariant *)

Section ArenaProof.
Context {new_array : list region -> Z -> option Z} {fresh : FreshBlocks new_array}.

(** Everything handed out lies in a block, and so does the free part of the
    current block, apart from what was handed out. *)
Definition arena_ok (a : Arena) (used : list region) : Prop :=
  let free := (alloc_ptr_ a, alloc_bytes_remaining_ a) in
  Forall (fun r => 0 < snd r /\ Exists (inside r) (blocks_ a)) used /\
  0 <= alloc_ptr_ a /\ 0 <= alloc_bytes_remaining_ a < 2 ^ 62 /\
  (alloc_ptr_ a = 0 /\ alloc_bytes_remaining_ a = 0 \/ 0 < alloc_ptr_ a /\ Exists (inside free) (blocks_ a)) /\
  Forall (apart free) used.

Lemma new_arena_ok : arena_ok new_arena [].
Proof. split_and!; cbn; [constructor|lia|lia|lia|by left|constructor]. Qed.

Lemma regions_apart_sym r s : apart r s -> apart s r.
Proof. unfold apart. tauto. Qed.

Lemma apart_inside r s t : apart r s -> inside t s -> apart r t.
Proof. unfold apart, inside. lia. Qed.

Lemma apart_all r s l : Forall (apart s) l -> inside r s -> Forall (apart r) l.
Proof.
  intros H Hi. eapply Forall_impl; [exact H|]. intros t Ht. apply regions_apart_sym. eapply apart_inside; [by apply regions_apart_sym|done].
Qed.

(** A new block is apart from all that lies in the others. *)
Lemma apart_blocks r blocks l :
  Forall (apart r) blocks -> Forall (fun s => 0 < snd s /\ Exists (inside s) blocks) l -> Forall (apart r) l.
Proof.
  intros Hb Hl. eapply Forall_impl; [exact Hl|]. intros s [_ Hs]. apply Exists_exists in Hs as (b & Hin & Hi).
  eapply apart_inside; [by eapply Forall_forall in Hb|done].
Qed.

Lemma inside_more l b used :
  Forall (fun r => 0 < snd r /\ Exists (inside r) l) used -> Forall (fun r => 0 < snd r /\ Exists (inside r) (l ++ [b])) used.
Proof. intros H. eapply Forall_impl; [exact H|]. intros r [? ?]. split; [done|]. apply Exists_app. by left. Qed.

Lemma inside_last (r : region) l : Exists (inside r) (l ++ [r]).
Proof. apply Exists_app. right. apply Exists_cons_hd. unfold inside. lia. Qed.

(** What every allocation gives. *)
Definition allocated (used : list region) (bytes align : Z) (r : option Z * Arena) : Prop :=
  let (result, a') := r in
  match result with
  | None => arena_ok a' used
  | Some p => 0 < p /\ p mod align = 0 /\ Forall (apart (p, bytes)) used /\ arena_ok a' ((p, bytes) :: used)
  end.

Lemma mod_16_8 p : p mod 16 = 0 -> p mod 8 = 0.
Proof. intros H. apply Z.mod_divide in H; [|done]. apply Z.mod_divide; [done|]. eapply Z.divide_trans; [|exact H]. by exists 2. Qed.

Lemma AllocateFallback_ok a used bytes :
  arena_ok a used -> 0 < bytes < 2 ^ 62 -> allocated used bytes 8 (AllocateFallback new_array a bytes).
Proof.
  intros Ha Hb. pose proof Ha as (Hu & Hp & Hr & Hf & Hap). unfold AllocateFallback. change (arena_block_size / 4) with 1024.
  destruct (Z.gtb_spec bytes 1024) as [Hbig|Hsmall]; unfold AllocateNewBlock, arena_block_size.
  - destruct (new_array (blocks_ a) bytes) as [p|] eqn:E; cbn [allocated]; [|done].
    destruct (fresh_block (blocks_ a) bytes p ltac:(lia) E) as (Hp0 & Hp64 & Hp16 & Hpa).
    assert (Forall (apart (p, bytes)) used) as Hpu by (by eapply apart_blocks).
    split_and!; [done|by apply mod_16_8|done|unfold arena_ok; cbn; split_and!]; try lia.
    + constructor; [split; [cbn; lia|apply inside_last]|by apply inside_more].
    + destruct Hf as [|[? Hf]]; [by left|right]. split; [done|]. apply Exists_app. by left.
    + constructor; [|done]. destruct Hf as [[-> ->]|[_ Hf]]; [left; cbn; lia|].
      apply Exists_exists in Hf as (b & Hin & Hi). apply regions_apart_sym. eapply apart_inside; [|exact Hi].
      by eapply Forall_forall in Hpa.
  - destruct (new_array (blocks_ a) 4096) as [p|] eqn:E; cbn [allocated]; [|done].
    destruct (fresh_block (blocks_ a) 4096 p ltac:(lia) E) as (Hp0 & Hp64 & Hp16 & Hpa).
    assert (Forall (apart (p, 4096)) used) as Hpu by (by eapply apart_blocks).
    assert (forall r, inside r (p, 4096) -> Exists (inside r) (blocks_ a ++ [(p, 4096)])) as Hlast.
    { intros r Hi. apply Exists_app. right. by apply Exists_cons_hd. }
    assert (inside (p, bytes) (p, 4096)) as Hib by (unfold inside; cbn; lia).
    assert (inside (p + bytes, 4096 - bytes) (p, 4096)) as Hif by (unfold inside; cbn; lia).
    split_and!; [done|by apply mod_16_8|exact (apart_all _ _ _ Hpu Hib)|unfold arena_ok; cbn; split_and!]; try lia.
    + constructor; [split; [cbn; lia|by apply Hlast]|by apply inside_more].
    + right. split; [lia|by apply Hlast].
    + constructor; [right; cbn; lia|exact (apart_all _ _ _ Hpu Hif)].
Qed.

(** Taking [slop + bytes] bytes from the free part. *)
Lemma allocated_free a used bytes slop align :
  arena_ok a used -> 0 < bytes -> 0 <= slop -> slop + bytes <= alloc_bytes_remaining_ a ->
  (alloc_ptr_ a + slop) mod align = 0 ->
  allocated used bytes align
    (Some (alloc_ptr_ a + slop),
     mk_arena (alloc_ptr_ a + (bytes + slop)) (alloc_bytes_remaining_ a - (bytes + slop)) (blocks_ a) (memory_usage_ a)).
Proof.
  intros (Hu & Hp & Hr & Hf & Hap) Hb Hs Hn Hal. destruct Hf as [[_ H0]|[Hp0 Hf]]; [lia|].
  set (free := (alloc_ptr_ a, alloc_bytes_remaining_ a)) in *.
  assert (inside (alloc_ptr_ a + slop, bytes) free) as Hi by (unfold inside; cbn; lia).
  assert (inside (alloc_ptr_ a + (bytes + slop), alloc_bytes_remaining_ a - (bytes + slop)) free) as Hi' by (unfold inside; cbn; lia).
  assert (forall r, inside r free -> Exists (inside r) (blocks_ a)) as Hin.
  { intros r Hr'. eapply Exists_impl; [exact Hf|]. unfold inside in *. intros b ?. lia. }
  split_and!; [lia|done|exact (apart_all _ _ _ Hap Hi)|unfold arena_ok; cbn; split_and!]; try lia.
  - constructor; [split; [cbn; lia|by apply Hin]|done].
  - right. split; [lia|by apply Hin].
  - constructor; [right; cbn; lia|exact (apart_all _ _ _ Hap Hi')].
Qed.

Lemma Allocate_ok a used bytes :
  arena_ok a used -> 0 < bytes < 2 ^ 62 -> exists r, Allocate new_array a bytes = Ret r /\ allocated used bytes 1 r.
Proof.
  intros Ha Hb. unfold Allocate, assert_. destruct (Z.gtb_spec bytes 0); [|lia]. cbn [rbind].
  destruct (Z.leb_spec bytes (alloc_bytes_remaining_ a)).
  - eexists. split; [done|]. pose proof (allocated_free a used bytes 0 1 Ha ltac:(lia) ltac:(lia) ltac:(lia) ltac:(by rewrite Z.mod_1_r)) as H1.
    by rewrite !Z.add_0_r in H1.
  - eexists. split; [done|]. pose proof (AllocateFallback_ok a used bytes Ha Hb) as H1.
    destruct (AllocateFallback new_array a bytes) as [[p|] a']; [|done]. destruct H1 as (? & _ & H1).
    split; [done|]. by rewrite Z.mod_1_r.
Qed.

Lemma AllocateAligned_ok a used bytes :
  arena_ok a used -> 0 < bytes < 2 ^ 62 -> exists r, AllocateAligned new_array a bytes = Ret r /\ allocated used bytes 8 r.
Proof.
  intros Ha Hb. unfold AllocateAligned. change (arena_align - 1) with (Z.ones 3). change arena_align with 8.
  rewrite !Z.land_ones by lia. change (2 ^ 3) with 8. set (m := alloc_ptr_ a mod 8).
  assert (0 <= m < 8) as Hm by (apply Z.mod_pos_bound; lia). set (slop := if m =? 0 then 0 else 8 - m).
  assert (0 <= slop < 8 /\ (alloc_ptr_ a + slop) mod 8 = 0) as [Hs Hsm].
  { pose proof (Z.div_mod (alloc_ptr_ a) 8 ltac:(lia)) as Hd. fold m in Hd.
    subst slop. destruct (Z.eqb_spec m 0) as [E|]; split; try lia.
    - by rewrite Z.add_0_r.
    - rewrite Hd. replace (8 * (alloc_ptr_ a / 8) + m + (8 - m)) with ((alloc_ptr_ a / 8 + 1) * 8) by lia. by apply Z.mod_mul. }
  rewrite (wrap_small 64 (bytes + slop) : _ -> u64 _ = _) by lia.
  assert (exists r, (if bytes + slop <=? alloc_bytes_remaining_ a then
       (Some (alloc_ptr_ a + slop),
        mk_arena (alloc_ptr_ a + (bytes + slop)) (alloc_bytes_remaining_ a - (bytes + slop)) (blocks_ a) (memory_usage_ a))
     else AllocateFallback new_array a bytes) = r /\ allocated used bytes 8 r) as ([result a'] & -> & H1).
  { eexists. split; [done|]. destruct (Z.leb_spec (bytes + slop) (alloc_bytes_remaining_ a)).
    - apply allocated_free; try done; lia.
    - by apply AllocateFallback_ok. }
  destruct result as [p|]; [|by eexists]. cbn [allocated] in H1. rewrite Z.land_ones by lia. change (2 ^ 3) with 8.
  rewrite (proj1 (proj2 H1)). by eexists.
Qed.

(** Both ways of allocating are what the users of the arena rely on. *)
#[export] Instance arena_allocate : FreshAlloc (Allocate new_array) arena_ok.
Proof.
  split. intros a used n Ha Hn. destruct (Allocate_ok a used n Ha Hn) as ([[p|] a'] & -> & H); eexists _, _; split; try done.
  destruct H as (? & _ & ?). done.
Qed.

#[export] Instance arena_allocate_aligned : FreshAlloc (AllocateAligned new_array) arena_ok.
Proof.
  split. intros a used n Ha Hn. destruct (AllocateAligned_ok a used n Ha Hn) as ([[p|] a'] & -> & H); eexists _, _; split; try done.
  destruct H as (? & _ & ?). done.
Qed.

(** ** Memory usage *)

Definition block_total (blocks : list region) : Z := foldr (fun b s => snd b + sizeof_pointer + s) 0 blocks.

Definition usage_ok (a : Arena) : Prop := memory_usage_ a = u64 (block_total (blocks_ a)).

Lemma block_total_app blocks b : block_total (blocks ++ [b]) = block_total blocks + (snd b + sizeof_pointer).
Proof. unfold block_total. induction blocks as [|c blocks IH]; cbn [app foldr]; [lia|rewrite IH; lia]. Qed.

Lemma AllocateNewBlock_usage a n : usage_ok a -> usage_ok (snd (AllocateNewBlock new_array a n)).
Proof.
  unfold usage_ok, AllocateNewBlock. intros Ha. destruct (new_array (blocks_ a) n); [|done]. cbn [snd memory_usage_ blocks_].
  rewrite Ha, block_total_app. unfold u64, wrap. by rewrite Zplus_mod_idemp_l.
Qed.

Lemma AllocateFallback_usage a n : usage_ok a -> usage_ok (snd (AllocateFallback new_array a n)).
Proof.
  intros Ha. unfold AllocateFallback. destruct (n >? _); [by apply AllocateNewBlock_usage|].
  pose proof (AllocateNewBlock_usage a arena_block_size Ha) as H.
  by destruct (AllocateNewBlock new_array a arena_block_size) as [[p|] a'].
Qed.

Lemma Allocate_usage a n r : usage_ok a -> Allocate new_array a n = Ret r -> usage_ok (snd r).
Proof.
  unfold Allocate, assert_. intros Ha. destruct (n >? 0); [|done]. cbn [rbind].
  destruct (n <=? _); intros [= <-]; [done|by apply AllocateFallback_usage].
Qed.

Lemma AllocateAligned_usage a n r : usage_ok a -> AllocateAligned new_array a n = Ret r -> usage_ok (snd r).
Proof.
  unfold AllocateAligned. intros Ha. destruct (u64 _ <=? _).
  - unfold assert_. destruct (Z.land _ _ =? 0); [|done]. by intros [= <-].
  - pose proof (AllocateFallback_usage a n Ha) as H. destruct (AllocateFallback new_array a n) as [[p|] a'].
    + unfold assert_. destruct (Z.land _ _ =? 0); [|done]. by intros [= <-].
    + by intros [= <-].
Qed.

(** ** A run of an arena *)

(** Requests, each aligned or not, in turn; the regions of those that were
    granted, with what was asked, the last first. *)
Fixpoint serve (a : Arena) (given : list (bool * region)) (requests : list (bool * Z))
    : res (list (bool * region) * Arena) :=
  match requests with
  | [] => Ret (given, a)
  | (aligned, n) :: requests =>
      let! (result, a) := (if aligned then AllocateAligned new_array else Allocate new_array) a n in
      serve a (match result with Some p => (aligned, (p, n)) :: given | None => given end) requests
  end.

Definition aligned_region (x : bool * region) : Prop := fst x = true -> fst (snd x) mod 8 = 0.

Lemma serve_ok a given requests :
  arena_ok a (map snd given) -> usage_ok a -> ForallOrdPairs apart (map snd given) -> Forall aligned_region given ->
  Forall (fun r => 0 < snd r < 2 ^ 62) requests ->
  exists given' a', serve a given requests = Ret (given', a') /\ arena_ok a' (map snd given') /\ usage_ok a' /\
    ForallOrdPairs apart (map snd given') /\ Forall aligned_region given'.
Proof.
  intros Ha Hus Hap Hal Hr. revert a given Ha Hus Hap Hal; induction Hr as [|[aligned n] requests Hn _ IH]; intros a given Ha Hus Hap Hal.
  { by exists given, a. }
  cbn [serve snd] in *.
  assert (exists r, (if aligned then AllocateAligned new_array else Allocate new_array) a n = Ret r /\
            allocated (map snd given) n (if aligned then 8 else 1) r /\ usage_ok (snd r)) as ([result a'] & -> & H & Hus').
  { destruct aligned.
    - destruct (AllocateAligned_ok a (map snd given) n Ha Hn) as (r & E & H). exists r. split_and!; [done..|by eapply AllocateAligned_usage].
    - destruct (Allocate_ok a (map snd given) n Ha Hn) as (r & E & H). exists r. split_and!; [done..|by eapply Allocate_usage]. }
  cbn [rbind snd] in *. destruct result as [p|]; cbn [allocated] in H; [|by apply IH].
  destruct H as (Hp & Hmod & Hpa & Ha'). apply IH; [done|done|by constructor|].
  constructor; [|done]. unfold aligned_region. cbn. by intros ->.
Qed.

(** C31. Whatever is asked of an arena, in any order: no assertion fails, the regions
    given are apart from each other and lie in the blocks of the arena, those that
    were asked aligned are aligned to 8 bytes, and the memory usage is the size of
    the blocks and of the pointers to them. *)
Theorem arena_allocations requests :
  Forall (fun r => 0 < snd r < 2 ^ 62) requests ->
  exists given a, serve new_arena [] requests = Ret (given, a) /\
    ForallOrdPairs apart (map snd given) /\ Forall (fun r => Exists (inside r) (blocks_ a)) (map snd given) /\
    Forall aligned_region given /\ MemoryUsage a = u64 (block_total (blocks_ a)).
Proof.
  intros Hr. destruct (serve_ok new_arena [] requests new_arena_ok eq_refl ltac:(constructor) ltac:(constructor) Hr)
    as (given & a & E & (Hin & _) & Hu & Hap & Hal).
  exists given, a. split_and!; [done|done| |done|done]. eapply Forall_impl; [exact Hin|]. by intros r [].
Qed.

End ArenaProof.
