(* ===== verification/LdbSkipList.v ===== *)
(** * LevelDB: the skip list (db/skiplist.h)

    Nodes live at addresses given by an arena; a node has its key and an array of
    links of the length it was allocated with.  A link that was not stored yet is
    indeterminate, and reading it, or a link outside the array, or a node through
    the null pointer, is undefined behaviour.  Keys, their comparison and the
    arena are parameters.  The specification is the strictly sorted list of the
    keys. *)
From S2P Require Import Prelude.
From S2P Require Import LdbOrder LdbRandom LdbArena.
From Stdlib Require Import ZArith Lia.
From stdpp Require Import base tactics numbers list gmap sorting.
#[local] Open Scope Z_scope.

(** ** Definitions *)

Definition kMaxHeight : nat := 12.
Definition kBranching : Z := 4.

Definition nullptr : Z := 0.

(** [prev[]] and [next_[]]: links, [None] where none was stored. *)
Abbreviation links := (list (option Z)).

Record node (Key : Type) := mk_node { node_key : Key; next_ : links }.
Arguments mk_node {Key} _ _.
Arguments node_key {Key} _.
Arguments next_ {Key} _.

Record SkipList (Key A : Type) := mk_skiplist {
  arena_ : A;
  nodes_ : gmap Z (node Key);
  head_ : Z;
  max_height_ : nat;
  rnd_ : Z;
}.
Arguments mk_skiplist {Key A} _ _ _ _ _.
Arguments arena_ {Key A} _.
Arguments nodes_ {Key A} _.
Arguments head_ {Key A} _.
Arguments max_height_ {Key A} _.
Arguments rnd_ {Key A} _.

Section SkipList.
Context {Key A : Type}.
(** [compare_], [arena_->AllocateAligned], [sizeof(Node)], and the key of the head. *)
Context (compare_ : Key -> Key -> res Z) (alloc : A -> Z -> res (option Z * A)) (sizeof_Node : Z) (key0 : Key).

Abbreviation SkipList := (SkipList Key A).

Definition with_nodes (s : SkipList) (nodes : gmap Z (node Key)) : SkipList :=
  mk_skiplist (arena_ s) nodes (head_ s) (max_height_ s) (rnd_ s).

(** Dereferencing a [Node*]. *)
Definition deref (s : SkipList) (x : Z) : res (node Key) :=
  match nodes_ s !! x with Some nd => Ret nd | None => UB end.

(** [x->Next(n)] and [x->SetNext(n, p)]; the variants without a barrier do the same. *)
Definition Next (s : SkipList) (x : Z) (n : nat) : res Z :=
  let! nd := deref s x in
  match next_ nd !! n with Some (Some p) => Ret p | _ => UB end.

Definition SetNext (s : SkipList) (x : Z) (n : nat) (p : Z) : res SkipList :=
  let! nd := deref s x in
  if (n <? length (next_ nd))%nat
  then Ret (with_nodes s (<[x := mk_node (node_key nd) (<[n := Some p]> (next_ nd))]> (nodes_ s)))
  else UB.

(** [None] when the arena throws [std::bad_alloc]. *)
Definition NewNode (a : A) (nodes : gmap Z (node Key)) (key : Key) (height : nat)
    : res (option Z * (A * gmap Z (node Key))) :=
  let! (p, a) := alloc a (sizeof_Node + sizeof_pointer * (Z.of_nat height - 1)) in
  match p with
  | Some p => Ret (Some p, (a, <[p := mk_node key (repeat None height)]> nodes))
  | None => Ret (None, (a, nodes))
  end.

Definition Equal (a b : Key) : res bool := let! r := compare_ a b in Ret (r =? 0).

(** [while (height < kMaxHeight && (rnd_.Next() % kBranching) == 0) height++;] with
    [n] heights left. *)
Fixpoint raise_loop (n height : nat) (rnd : Z) : nat * Z :=
  match n with
  | O => (height, rnd)
  | S n =>
      let rnd := LdbRandom.Next rnd in
      if rnd mod kBranching =? 0 then raise_loop n (S height) rnd else (height, rnd)
  end.

Definition RandomHeight (rnd : Z) : res (nat * Z) :=
  let (height, rnd) := raise_loop (kMaxHeight - 1) 1 rnd in
  let! _ := assert_ (0 <? height)%nat in
  let! _ := assert_ (height <=? kMaxHeight)%nat in
  Ret (height, rnd).

Definition KeyIsAfterNode (s : SkipList) (key : Key) (n : Z) : res bool :=
  if n =? nullptr then Ret false
  else
    let! nd := deref s n in
    let! r := compare_ (node_key nd) key in
    Ret (r <? 0).

(** Every round of a search goes to a later node or to a lower level. *)
Definition search_fuel (s : SkipList) : nat := (1 + kMaxHeight + size (nodes_ s))%nat.

(** A round of [FindGreaterOrEqual]; [prev] is [None] for the null pointer. *)
Definition ge_round (s : SkipList) (key : Key) (st : Z * nat * option links)
    : res (Z * nat * option links + Z * option links) :=
  let '(x, level, prev) := st in
  let! next := Next s x level in
  let! after := KeyIsAfterNode s key next in
  if after then Ret (inl (next, level, prev))
  else
    let prev := option_map (<[level := Some x]>) prev in
    match level with
    | O => Ret (inr (next, prev))
    | S level => Ret (inl (x, level, prev))
    end.

Definition FindGreaterOrEqual (s : SkipList) (key : Key) (prev : option links) : res (Z * option links) :=
  loop (search_fuel s) (ge_round s key) (head_ s, pred (max_height_ s), prev).

Definition lt_round (s : SkipList) (key : Key) (st : Z * nat) : res (Z * nat + Z) :=
  let (x, level) := st in
  let! before :=
    if x =? head_ s then Ret true
    else let! nd := deref s x in let! r := compare_ (node_key nd) key in Ret (r <? 0) in
  let! _ := assert_ before in
  let! next := Next s x level in
  let! down :=
    if next =? nullptr then Ret true
    else let! nd := deref s next in let! r := compare_ (node_key nd) key in Ret (r >=? 0) in
  if down then match level with O => Ret (inr x) | S level => Ret (inl (x, level)) end
  else Ret (inl (next, level)).

Definition FindLessThan (s : SkipList) (key : Key) : res Z :=
  loop (search_fuel s) (lt_round s key) (head_ s, pred (max_height_ s)).

Definition last_round (s : SkipList) (st : Z * nat) : res (Z * nat + Z) :=
  let (x, level) := st in
  let! next := Next s x level in
  if next =? nullptr then match level with O => Ret (inr x) | S level => Ret (inl (x, level)) end
  else Ret (inl (next, level)).

Definition FindLast (s : SkipList) : res Z :=
  loop (search_fuel s) (last_round s) (head_ s, pred (max_height_ s)).

(** [for (int i : levels) SetNext(i, nullptr)] *)
Fixpoint clear_links (s : SkipList) (x : Z) (levels : list nat) : res SkipList :=
  match levels with
  | [] => Ret s
  | i :: levels => let! s := SetNext s x i nullptr in clear_links s x levels
  end.

(** The constructor. *)
Definition new_skiplist (a : A) : res (option SkipList) :=
  let! (p, (a, nodes)) := NewNode a ∅ key0 kMaxHeight in
  match p with
  | None => Ret None
  | Some head =>
      let s := mk_skiplist a nodes head 1 (new_random 0xdeadbeef) in
      let! s := clear_links s head (seq 0 kMaxHeight) in
      Ret (Some s)
  end.

(** *** Insert, step by step *)

(** Find [prev] and check that no key is equal. *)
Definition insert_position (s : SkipList) (key : Key) : res links :=
  let! (x, prev) := FindGreaterOrEqual s key (Some (repeat None kMaxHeight)) in
  let! _ :=
    if x =? nullptr then Ret tt
    else let! nd := deref s x in let! eq := Equal key (node_key nd) in assert_ (negb eq) in
  Ret (default [] prev).

(** [for (int i = GetMaxHeight(); i < height; i++) prev[i] = head_;] and the store
    to [max_height_]. *)
Definition raise_height (s : SkipList) (prev : links) (height : nat) : SkipList * links :=
  if (max_height_ s <? height)%nat then
    (mk_skiplist (arena_ s) (nodes_ s) (head_ s) height (rnd_ s),
     foldl (fun prev i => <[i := Some (head_ s)]> prev) prev (seq (max_height_ s) (height - max_height_ s)))
  else (s, prev).

Definition prev_at (prev : links) (i : nat) : res Z :=
  match prev !! i with Some (Some p) => Ret p | _ => UB end.

(** The two stores of level [i]: the link of [x], which no reader can reach at
    this level yet, and the link to [x]. *)
Definition prepare_level (s : SkipList) (x : Z) (prev : links) (i : nat) : res SkipList :=
  let! p := prev_at prev i in
  let! next := Next s p i in
  SetNext s x i next.

Definition publish_level (s : SkipList) (x : Z) (prev : links) (i : nat) : res SkipList :=
  let! p := prev_at prev i in
  SetNext s p i x.

Fixpoint link_levels (s : SkipList) (x : Z) (prev : links) (levels : list nat) : res SkipList :=
  match levels with
  | [] => Ret s
  | i :: levels =>
      let! s := prepare_level s x prev i in
      let! s := publish_level s x prev i in
      link_levels s x prev levels
  end.

Definition with_arena (s : SkipList) (a : A) (nodes : gmap Z (node Key)) : SkipList :=
  mk_skiplist a nodes (head_ s) (max_height_ s) (rnd_ s).

Definition with_rnd (s : SkipList) (rnd : Z) : SkipList :=
  mk_skiplist (arena_ s) (nodes_ s) (head_ s) (max_height_ s) rnd.

(** Up to the loop: the search, the height and the new node, or [None] when the
    arena throws.  The only store others can see is the one to [max_height_]. *)
Definition insert_begin (s : SkipList) (key : Key) : res (option (Z * links * nat) * SkipList) :=
  let! prev := insert_position s key in
  let! (height, rnd) := RandomHeight (rnd_ s) in
  let s := with_rnd s rnd in
  let (s, prev) := raise_height s prev height in
  let! (p, (a, nodes)) := NewNode (arena_ s) (nodes_ s) key height in
  let s := with_arena s a nodes in
  Ret (match p with Some x => Some (x, prev, height) | None => None end, s).

(** [false] when the arena throws. *)
Definition Insert (s : SkipList) (key : Key) : res (bool * SkipList) :=
  let! (node, s) := insert_begin s key in
  match node with
  | None => Ret (false, s)
  | Some (x, prev, height) =>
      let! s := link_levels s x prev (seq 0 height) in
      Ret (true, s)
  end.

Definition Contains (s : SkipList) (key : Key) : res bool :=
  let! (x, _) := FindGreaterOrEqual s key None in
  if x =? nullptr then Ret false
  else let! nd := deref s x in Equal key (node_key nd).

(** *** Iterators, by their [node_] *)

Definition iter_new : Z := nullptr.
Definition iter_Valid (node_ : Z) : bool := negb (node_ =? nullptr).

Definition iter_key (s : SkipList) (node_ : Z) : res Key :=
  let! _ := assert_ (iter_Valid node_) in
  let! nd := deref s node_ in
  Ret (node_key nd).

Definition iter_Next (s : SkipList) (node_ : Z) : res Z :=
  let! _ := assert_ (iter_Valid node_) in
  Next s node_ 0.

Definition iter_Prev (s : SkipList) (node_ : Z) : res Z :=
  let! _ := assert_ (iter_Valid node_) in
  let! nd := deref s node_ in
  let! x := FindLessThan s (node_key nd) in
  Ret (if x =? head_ s then nullptr else x).

Definition iter_Seek (s : SkipList) (target : Key) : res Z :=
  let! (x, _) := FindGreaterOrEqual s target None in Ret x.

Definition iter_SeekToFirst (s : SkipList) : res Z := Next s (head_ s) 0.

Definition iter_SeekToLast (s : SkipList) : res Z :=
  let! x := FindLast s in
  Ret (if x =? head_ s then nullptr else x).

End SkipList.

(** ** The shape of the list *)

Section Shape.
Context {Key A : Type} (key0 : Key).
Abbreviation SkipList := (SkipList Key A).

Definition key_at (s : SkipList) (x : Z) : Key :=
  match nodes_ s !! x with Some nd => node_key nd | None => key0 end.

Definition height_at (s : SkipList) (x : Z) : nat :=
  match nodes_ s !! x with Some nd => length (next_ nd) | None => 0%nat end.

Definition link_at (s : SkipList) (x : Z) (i : nat) : option Z :=
  match nodes_ s !! x with Some nd => mjoin (next_ nd !! i) | None => None end.

(** The first node of [ns] linked above level [i], when node [y] is linked on
    [lv y] levels. *)
Fixpoint first_above (lv : Z -> nat) (i : nat) (ns : list Z) : Z :=
  match ns with
  | [] => nullptr
  | y :: ns => if (i <? lv y)%nat then y else first_above lv i ns
  end.

(** The nodes [ns], in order, of which [lv] levels are linked so far: a link of
    a linked level leads to the next node linked on that level. *)
Record shaped (s : SkipList) (lv : Z -> nat) (ns : list Z) : Prop := {
  shaped_nodup : NoDup (head_ s :: ns);
  shaped_nonnull : Forall (fun x => x <> nullptr) (head_ s :: ns);
  shaped_heap : Forall (fun x => is_Some (nodes_ s !! x) /\ (lv x <= height_at s x)%nat) (head_ s :: ns);
  shaped_head : lv (head_ s) = kMaxHeight;
  shaped_lv : Forall (fun x => (lv x <= max_height_ s)%nat) ns;
  shaped_max : (1 <= max_height_ s <= kMaxHeight)%nat;
  shaped_links P x Q i : head_ s :: ns = P ++ x :: Q -> (i < lv x)%nat -> link_at s x i = Some (first_above lv i Q);
}.

(** *** First linked node *)

Lemma first_above_none (lv : Z -> nat) i Q B :
  Forall (fun y => (lv y <= i)%nat) Q -> first_above lv i (Q ++ B) = first_above lv i B.
Proof. induction 1 as [|y Q Hy _ IH]; [done|]. cbn [app first_above]. by destruct (Nat.ltb_spec i (lv y)); [lia|]. Qed.

Lemma first_above_cases (lv : Z -> nat) i Q :
  (exists y Q1 Q2, Q = Q1 ++ y :: Q2 /\ Forall (fun y => (lv y <= i)%nat) Q1 /\ (i < lv y)%nat) \/
  Forall (fun y => (lv y <= i)%nat) Q.
Proof.
  induction Q as [|y Q IH]; [by right|]. destruct (Nat.ltb_spec i (lv y)) as [Hy|Hy].
  - left. by exists y, [], Q.
  - destruct IH as [(z & Q1 & Q2 & -> & H1 & Hz)|H]; [left|right; by constructor].
    exists z, (y :: Q1), Q2. split; [done|]. split; [by constructor|done].
Qed.

Lemma first_above_found (lv : Z -> nat) i Q1 y Q2 :
  Forall (fun y => (lv y <= i)%nat) Q1 -> (i < lv y)%nat -> first_above lv i (Q1 ++ y :: Q2) = y.
Proof. intros H1 Hy. rewrite first_above_none by done. cbn [app first_above]. by destruct (Nat.ltb_spec i (lv y)); [|lia]. Qed.

Lemma first_above_in (lv : Z -> nat) i B : first_above lv i B = nullptr \/ first_above lv i B ∈ B.
Proof. induction B as [|y B IH]; [by left|]. cbn [app first_above]. destruct (i <? lv y)%nat; [right; by left|]. destruct IH; [by left|right; by right]. Qed.

Lemma first_above_ext (lv lv' : Z -> nat) i ns : Forall (fun y => (i <? lv y)%nat = (i <? lv' y)%nat) ns -> first_above lv i ns = first_above lv' i ns.
Proof. induction 1 as [|y ns Hy _ IH]; [done|]. cbn [app first_above]. by rewrite Hy, IH. Qed.

Lemma later_in_tail (h : Z) B P x Q1 y Q2 : h :: B = P ++ x :: Q1 ++ y :: Q2 -> y ∈ B.
Proof.
  destruct P as [|z P]; intros [= -> ->]; rewrite ?elem_of_app, ?elem_of_cons, ?elem_of_app, ?elem_of_cons; auto 10.
Qed.

(** *** Reading the list *)

Lemma deref_at (s : SkipList) x : is_Some (nodes_ s !! x) -> exists nd, deref s x = Ret nd /\ node_key nd = key_at s x.
Proof. intros [nd E]. exists nd. unfold deref, key_at. by rewrite E. Qed.

Lemma Next_link s x i p : link_at s x i = Some p -> Next s x i = Ret p.
Proof.
  unfold link_at, Next, deref. destruct (nodes_ s !! x) as [nd|]; [|done]. cbn [rbind].
  destruct (next_ nd !! i) as [[q|]|]; cbn; congruence.
Qed.

Lemma shaped_at s lv ns x : shaped s lv ns -> x ∈ head_ s :: ns -> is_Some (nodes_ s !! x) /\ x <> nullptr.
Proof. intros H Hx. destruct H as [_ Hn Hh _ _ _ _]. eapply Forall_forall in Hn, Hh; [|done..]. by destruct Hh. Qed.

Lemma shaped_size s lv ns : shaped s lv ns -> (length ns < size (nodes_ s))%nat.
Proof.
  intros H. assert (list_to_set (head_ s :: ns) ⊆@{gset Z} dom (nodes_ s)) as Hsub.
  { intros x Hx%elem_of_list_to_set. apply elem_of_dom. by eapply shaped_at. }
  apply subseteq_size in Hsub. rewrite size_list_to_set, size_dom in Hsub by apply H. cbn in Hsub. lia.
Qed.

(** A search that stands at [x] on [level], where the nodes [ns1] come before its
    target: every round goes to the next of them that is linked on this level, or
    one level down when there is none, and ends at level 0. *)
Lemma descend {T R} (body : T -> res (T + R)) (place : T -> Z) (lev : T -> nat) (J : T -> Prop) (Q : R -> Prop)
    (lv : Z -> nat) (all : list Z) :
  (forall st P Q', all = P ++ place st :: Q' -> (lev st < lv (place st))%nat -> J st ->
     (forall y Q1 Q2, Q' = Q1 ++ y :: Q2 -> Forall (fun y => (lv y <= lev st)%nat) Q1 -> (lev st < lv y)%nat ->
        exists st', body st = Ret (inl st') /\ place st' = y /\ lev st' = lev st /\ J st') /\
     (Forall (fun y => (lv y <= lev st)%nat) Q' ->
        match lev st with
        | O => exists r, body st = Ret (inr r) /\ Q r
        | S l => exists st', body st = Ret (inl st') /\ place st' = place st /\ lev st' = l /\ J st'
        end)) ->
  forall fuel st P Q', all = P ++ place st :: Q' -> (lev st < lv (place st))%nat -> J st -> (lev st + length Q' < fuel)%nat ->
  exists r, loop fuel body st = Ret r /\ Q r.
Proof.
  intros Hbody fuel. induction fuel as [|fuel IH]; intros st P Q' E Hl HJ Hf; [lia|].
  destruct (Hbody st P Q' E Hl HJ) as [Hon Hdown]. cbn [loop].
  destruct (first_above_cases lv (lev st) Q') as [(y & Q1 & Q2 & -> & H1 & Hy)|Hnone].
  - destruct (Hon y Q1 Q2 eq_refl H1 Hy) as (st' & -> & <- & El & HJ'). cbn [rbind].
    apply (IH st' (P ++ place st :: Q1) Q2); [by rewrite E, <- app_assoc|by rewrite El|done|].
    rewrite length_app in Hf. cbn in Hf. lia.
  - specialize (Hdown Hnone). destruct (lev st) as [|l] eqn:El.
    + destruct Hdown as (r & -> & Hr). by exists r.
    + destruct Hdown as (st' & -> & Ep & El' & HJ'). cbn [rbind]. apply (IH st' P Q'); [by rewrite Ep|rewrite Ep, El'; lia|done|lia].
Qed.

End Shape.

(** ** Searching *)

Section SearchProof.
Context {Key A : Type} {key0 : Key} {valid : Key -> Prop} {cmp : Key -> Key -> Z} {order : KeyOrder valid cmp}.
Context {compare_ : Key -> Key -> res Z} (compare_ret : forall a b, valid a -> valid b -> compare_ a b = Ret (cmp a b)).
Abbreviation SkipList := (SkipList Key A).
Abbreviation key_at := (key_at key0).

(** The nodes in the order of their keys. *)
Definition listed (s : SkipList) (lv : Z -> nat) (ns : list Z) : Prop :=
  shaped s lv ns /\ sorted valid cmp (map (key_at s) ns).

(** [B1] are the nodes with keys before [k]. *)
Definition around (s : SkipList) (k : Key) (B1 B2 : list Z) : Prop :=
  Forall (fun x => cmp (key_at s x) k < 0) B1 /\ Forall (fun x => 0 <= cmp (key_at s x) k) B2.

Lemma split_around s lv ns k : listed s lv ns -> valid k -> exists B1 B2, ns = B1 ++ B2 /\ around s k B1 B2 /\
  insert_sorted cmp k (map (key_at s) ns) = map (key_at s) B1 ++ k :: map (key_at s) B2.
Proof.
  intros [_ Hs] Hk. destruct (sorted_split k _ Hs Hk) as (l1 & l2 & E & H1 & H2 & Ei).
  apply map_eq_app in E as (B1 & B2 & -> & <- & <-). exists B1, B2. rewrite Forall_map in H1, H2. done.
Qed.

Lemma listed_valid s lv ns x : listed s lv ns -> x ∈ ns -> valid (key_at s x).
Proof. intros [_ [_ Hv]] Hx. rewrite Forall_map in Hv. by eapply Forall_forall in Hv. Qed.

(** The node is null or its key compares with [k] as expected. *)
Lemma compare_at s lv ns k x : listed s lv ns -> valid k -> x ∈ ns ->
  exists nd, deref s x = Ret nd /\ node_key nd = key_at s x /\ compare_ (node_key nd) k = Ret (cmp (key_at s x) k) /\ (x =? nullptr) = false.
Proof.
  intros H Hk Hx. destruct (shaped_at s lv ns x (proj1 H) ltac:(by right)) as [Hs Hn].
  destruct (deref_at key0 s x Hs) as (nd & E & Ek). exists nd. split_and!; [done|done| |by apply Z.eqb_neq].
  rewrite Ek. apply compare_ret; [by eapply listed_valid|done].
Qed.

Lemma KeyIsAfterNode_before s lv B1 B2 k y :
  listed s lv (B1 ++ B2) -> valid k -> around s k B1 B2 -> y ∈ B1 -> KeyIsAfterNode compare_ s k y = Ret true.
Proof.
  intros H Hk [H1 _] Hy. destruct (compare_at s lv (B1 ++ B2) k y H Hk) as (nd & E & Ek & Ec & En); [apply elem_of_app; by left|].
  unfold KeyIsAfterNode. rewrite En, E. cbn [rbind]. rewrite Ec. cbn [rbind]. eapply Forall_forall in H1; [|done].
  by rewrite (proj2 (Z.ltb_lt _ _) H1).
Qed.

Lemma KeyIsAfterNode_after s lv B1 B2 k y :
  listed s lv (B1 ++ B2) -> valid k -> around s k B1 B2 -> y = nullptr \/ y ∈ B2 -> KeyIsAfterNode compare_ s k y = Ret false.
Proof.
  intros H Hk [_ H2] [->|Hy]; [done|].
  destruct (compare_at s lv (B1 ++ B2) k y H Hk) as (nd & E & Ek & Ec & En); [apply elem_of_app; by right|].
  unfold KeyIsAfterNode. rewrite En, E. cbn [rbind]. rewrite Ec. cbn [rbind]. eapply Forall_forall in H2; [|done].
  by rewrite (proj2 (Z.ltb_ge _ _) H2).
Qed.

(** The link of a node among the first nodes. *)
Lemma link_among s lv B1 B2 P x Q i :
  listed s lv (B1 ++ B2) -> head_ s :: B1 = P ++ x :: Q -> (i < lv x)%nat -> Next s x i = Ret (first_above lv i (Q ++ B2)).
Proof.
  intros [H _] E Hi. apply Next_link. apply (shaped_links _ _ _ H P); [|done].
  by rewrite app_comm_cons, E, <- app_assoc.
Qed.

(** [x] is the last of the nodes [all] linked on level [i]. *)
Definition last_on (lv : Z -> nat) (all : list Z) (i : nat) (x : Z) : Prop :=
  exists P Q, all = P ++ x :: Q /\ (i < lv x)%nat /\ Forall (fun y => (lv y <= i)%nat) Q.

(** [prev] after a search that started at [prev0] with [top] levels and has done
    those from [done] on. *)
Definition prev_done (lv : Z -> nat) (all : list Z) (top done : nat) (prev0 prev : option links) : Prop :=
  match prev0, prev with
  | None, None => True
  | Some p0, Some p =>
      length p = kMaxHeight /\ (forall i, (top <= i)%nat -> p !! i = p0 !! i) /\
      forall i, (done <= i < top)%nat -> exists x, p !! i = Some (Some x) /\ last_on lv all i x
  | _, _ => False
  end.

Lemma prev_done_step lv all top level prev0 prev x :
  prev_done lv all top (S level) prev0 prev -> (level < top <= kMaxHeight)%nat -> last_on lv all level x ->
  prev_done lv all top level prev0 (option_map (<[level := Some x]>) prev).
Proof.
  intros H Hl Hx. destruct prev0 as [p0|], prev as [p|]; try done. destruct H as (Hlen & Hout & Hin). cbn [option_map prev_done].
  split_and!; [by rewrite length_insert|..].
  - intros i Hi. rewrite list_lookup_insert_ne by lia. by apply Hout.
  - intros i Hi. destruct (Nat.eq_dec i level) as [->|].
    + exists x. by rewrite list_lookup_insert_eq by lia.
    + destruct (Hin i ltac:(lia)) as (y & Ey & Hy). exists y. by rewrite list_lookup_insert_ne by lia.
Qed.

Lemma prev_done_start lv all top prev0 : match prev0 with Some p => length p = kMaxHeight | None => True end ->
  prev_done lv all top top prev0 prev0.
Proof. destruct prev0; [|done]. intros H. split_and!; [done|done|lia]. Qed.

Lemma FindGreaterOrEqual_ok s lv B1 B2 k prev0 :
  listed s lv (B1 ++ B2) -> valid k -> around s k B1 B2 ->
  match prev0 with Some p => length p = kMaxHeight | None => True end ->
  exists prev, FindGreaterOrEqual compare_ s k prev0 = Ret (first_above lv 0 B2, prev) /\
    prev_done lv (head_ s :: B1) (max_height_ s) 0 prev0 prev.
Proof.
  intros H Hk Har Hp0. pose proof (shaped_max _ _ _ (proj1 H)) as Hmax. pose proof (shaped_size _ _ _ (proj1 H)) as Hsize.
  unfold FindGreaterOrEqual.
  edestruct (descend (ge_round compare_ s k) (fun st => fst (fst st)) (fun st => snd (fst st))
    (fun st => (snd (fst st) < max_height_ s)%nat /\ prev_done lv (head_ s :: B1) (max_height_ s) (S (snd (fst st))) prev0 (snd st))
    (fun r => fst r = first_above lv 0 B2 /\ prev_done lv (head_ s :: B1) (max_height_ s) 0 prev0 (snd r))
    lv (head_ s :: B1)) as ([r prev] & -> & Hr & Hprev).
  - intros [[x level] prev] P Q E Hl [Hlt HJ]. cbn [fst snd] in *. split.
    + intros y Q1 Q2 -> H1 Hy. unfold ge_round. rewrite (link_among s lv B1 B2 P x _ level H E Hl). cbn [rbind].
      rewrite <- app_assoc. cbn [app]. rewrite first_above_found by done.
      rewrite (KeyIsAfterNode_before s lv B1 B2 k y H Hk Har); [by eexists (_, _, _)|].
      exact (later_in_tail _ _ _ _ _ _ _ E).
    + intros Hnone. unfold ge_round. rewrite (link_among s lv B1 B2 P x Q level H E Hl). cbn [rbind].
      rewrite first_above_none by done. rewrite (KeyIsAfterNode_after s lv B1 B2 k _ H Hk Har (first_above_in _ _ _)). cbn [rbind].
      assert (prev_done lv (head_ s :: B1) (max_height_ s) level prev0 (option_map (<[level := Some x]>) prev)) as Hstep
        by (apply prev_done_step; [done|lia|by exists P, Q]).
      destruct level as [|level]; [by eexists (_, _)|]. eexists (_, _, _). split_and!; [done|done|done|cbn; lia|done].
  - by apply (eq_refl : _ = [] ++ head_ s :: B1).
  - cbn [fst snd]. rewrite (shaped_head _ _ _ (proj1 H)). lia.
  - cbn [fst snd]. split; [lia|]. replace (S (pred (max_height_ s))) with (max_height_ s) by lia. by apply prev_done_start.
  - cbn [fst snd]. unfold search_fuel. rewrite length_app in Hsize. lia.
  - cbn in *. subst r. by exists prev.
Qed.

(** A search that goes on as long as the next node is one of [B1] ends at the last of them. *)
Lemma find_last_on s lv B1 B2 (body : Z * nat -> res (Z * nat + Z)) :
  listed s lv (B1 ++ B2) ->
  (forall x level next, x = head_ s \/ x ∈ B1 -> Next s x level = Ret next ->
     (next ∈ B1 -> body (x, level) = Ret (inl (next, level))) /\
     (next = nullptr \/ next ∈ B2 ->
      body (x, level) = match level with O => Ret (inr x) | S level => Ret (inl (x, level)) end)) ->
  exists x, loop (search_fuel s) body (head_ s, pred (max_height_ s)) = Ret x /\ last_on lv (head_ s :: B1) 0 x.
Proof.
  intros H Hbody. pose proof (shaped_max _ _ _ (proj1 H)) as Hmax. pose proof (shaped_size _ _ _ (proj1 H)) as Hsize.
  apply (descend body fst snd (fun _ => True) (last_on lv (head_ s :: B1) 0) lv (head_ s :: B1)) with (P := []) (Q' := B1).
  - intros [x level] P Q E Hl _. cbn [fst snd] in *.
    assert (x = head_ s \/ x ∈ B1) as Hx by (rewrite <- elem_of_cons, E, elem_of_app; right; by left).
    pose proof (link_among s lv B1 B2 P x Q level H E Hl) as Hnext.
    destruct (Hbody x level _ Hx Hnext) as [Hon Hdown]. split.
    + intros y Q1 Q2 -> H1 Hy. rewrite <- app_assoc in *. cbn [app] in *. rewrite first_above_found in * by done.
      exists (y, level). split; [apply Hon; exact (later_in_tail _ _ _ _ _ _ _ E)|done].
    + intros Hnone. rewrite first_above_none in * by done. rewrite (Hdown (first_above_in _ _ _)).
      destruct level as [|level]; [|by exists (x, level)]. exists x. split; [done|]. by exists P, Q.
  - done.
  - cbn [fst snd]. rewrite (shaped_head _ _ _ (proj1 H)). lia.
  - done.
  - cbn [fst snd]. unfold search_fuel. rewrite length_app in Hsize. lia.
Qed.

Lemma head_not_in (s : SkipList) lv ns : shaped s lv ns -> head_ s ∉ ns.
Proof. intros H. by apply NoDup_cons, H. Qed.

Lemma FindLessThan_ok s lv B1 B2 k :
  listed s lv (B1 ++ B2) -> valid k -> around s k B1 B2 ->
  exists x, FindLessThan compare_ s k = Ret x /\ last_on lv (head_ s :: B1) 0 x.
Proof.
  intros H Hk Har. apply (find_last_on s lv B1 B2); [done|]. intros x level next Hx Hnext. unfold lt_round.
  assert ((if x =? head_ s then Ret true
           else let! nd := deref s x in let! r := compare_ (node_key nd) k in Ret (r <? 0)) = Ret true) as ->.
  { destruct Hx as [->|Hx]; [by rewrite Z.eqb_refl|].
    destruct (compare_at s lv (B1 ++ B2) k x H Hk) as (nd & E & Ek & Ec & En); [apply elem_of_app; by left|].
    rewrite E. cbn [rbind]. rewrite Ec. cbn [rbind]. destruct (x =? head_ s); [done|]. f_equal. apply Z.ltb_lt.
    destruct Har as [H1 _]. by eapply Forall_forall in H1. }
  cbn [rbind assert_]. rewrite Hnext. cbn [rbind]. split.
  - intros Hin. destruct (compare_at s lv (B1 ++ B2) k next H Hk) as (nd & E & Ek & Ec & En); [apply elem_of_app; by left|].
    rewrite En, E. cbn [rbind]. rewrite Ec. cbn [rbind]. destruct Har as [H1 _]. eapply Forall_forall in H1; [|done].
    by destruct (Z.geb_spec (cmp (key_at s next) k) 0); [lia|].
  - intros [->|Hin]; [done|].
    destruct (compare_at s lv (B1 ++ B2) k next H Hk) as (nd & E & Ek & Ec & En); [apply elem_of_app; by right|].
    rewrite En, E. cbn [rbind]. rewrite Ec. cbn [rbind]. destruct Har as [_ H2]. eapply Forall_forall in H2; [|done].
    by destruct (Z.geb_spec (cmp (key_at s next) k) 0); [|lia].
Qed.

Lemma FindLast_ok s lv ns : listed s lv ns -> exists x, FindLast s = Ret x /\ last_on lv (head_ s :: ns) 0 x.
Proof.
  intros H. rewrite <- (app_nil_r ns) in H. apply (find_last_on s lv ns []); [done|].
  intros x level next Hx Hnext. unfold last_round. rewrite Hnext. cbn [rbind]. split.
  - intros Hin. destruct (shaped_at s lv (ns ++ []) next (proj1 H)) as [_ Hn]; [rewrite app_nil_r; by right|].
    by destruct (Z.eqb_spec next nullptr).
  - intros [->|Hin]; [done|]. by apply not_elem_of_nil in Hin.
Qed.

End SearchProof.

(** ** The stores *)

Section StoreProof.
Context {Key A : Type} {key0 : Key} {valid : Key -> Prop} {cmp : Key -> Key -> Z} {order : KeyOrder valid cmp}.
Abbreviation SkipList := (SkipList Key A).
Abbreviation key_at := (key_at key0).
Abbreviation listed := (listed (key0 := key0) (valid := valid) (cmp := cmp)).

(** [s'] is [s] with link [i] of [x] changed to [p]. *)
Record relinked (s s' : SkipList) (x : Z) (i : nat) (p : Z) : Prop := {
  relinked_key y : key_at s' y = key_at s y;
  relinked_height y : height_at s' y = height_at s y;
  relinked_link y j : link_at s' y j = if (y =? x) && (j =? i)%nat then Some p else link_at s y j;
  relinked_dom : dom (nodes_ s') = dom (nodes_ s);
  relinked_rest : arena_ s' = arena_ s /\ head_ s' = head_ s /\ max_height_ s' = max_height_ s /\ rnd_ s' = rnd_ s;
}.

Lemma SetNext_ok (s : SkipList) x i p : (i < height_at s x)%nat -> exists s', SetNext s x i p = Ret s' /\ relinked s s' x i p.
Proof.
  unfold height_at, SetNext, deref. destruct (nodes_ s !! x) as [nd|] eqn:E; [|lia]. intros Hi. cbn [rbind].
  destruct (Nat.ltb_spec i (length (next_ nd))); [|lia]. eexists. split; [done|].
  assert (forall y, <[x := mk_node (node_key nd) (<[i := Some p]> (next_ nd))]> (nodes_ s) !! y =
    if decide (x = y) then Some (mk_node (node_key nd) (<[i := Some p]> (next_ nd))) else nodes_ s !! y) as Hlook.
  { intros y. destruct (decide (x = y)) as [<-|Hne]; [apply lookup_insert_eq|by apply lookup_insert_ne]. }
  split; try done.
  - intros y. unfold LdbSkipList.key_at. cbn [nodes_ with_nodes]. rewrite Hlook. destruct (decide (x = y)) as [<-|]; [by rewrite E|done].
  - intros y. unfold height_at. cbn [nodes_ with_nodes]. rewrite Hlook. destruct (decide (x = y)) as [<-|]; [|done].
    rewrite E. apply length_insert.
  - intros y j. unfold link_at. cbn [nodes_ with_nodes]. rewrite Hlook. destruct (decide (x = y)) as [<-|Hne]; cbn [next_].
    + rewrite Z.eqb_refl, E. cbn [andb]. destruct (Nat.eqb_spec j i) as [->|].
      * by rewrite list_lookup_insert_eq by done.
      * by rewrite list_lookup_insert_ne by done.
    + by destruct (Z.eqb_spec y x).
  - cbn [nodes_ with_nodes]. rewrite dom_insert_L. apply subseteq_union_1_L, singleton_subseteq_l. by eapply elem_of_dom_2.
Qed.

Lemma relinked_some s s' x i p y : relinked s s' x i p -> is_Some (nodes_ s' !! y) <-> is_Some (nodes_ s !! y).
Proof. intros H. rewrite <- !elem_of_dom. by rewrite (relinked_dom _ _ _ _ _ H). Qed.

(** The nodes of a list, cut at one of them. *)
Lemma cut_cases (l1 : list Z) x l2 P y Q :
  l1 ++ x :: l2 = P ++ y :: Q ->
  (y = x /\ P = l1 /\ Q = l2) \/ (exists Q1, l1 = P ++ y :: Q1 /\ Q = Q1 ++ x :: l2) \/ (exists P2, P = l1 ++ x :: P2 /\ l2 = P2 ++ y :: Q).
Proof.
  intros E. apply app_eq_inv in E as [(k & -> & E)|(k & -> & E)]; destruct k as [|z k]; cbn [app] in E.
  - injection E as -> ->. left. by rewrite app_nil_r.
  - injection E as -> ->. right; left. by exists k.
  - injection E as -> ->. left. by rewrite app_nil_r.
  - injection E as -> ->. right; right. by exists k.
Qed.

Lemma last_on_unique lv all i x y : NoDup all -> last_on lv all i x -> last_on lv all i y -> x = y.
Proof.
  intros Hnd (P & Q & -> & Hx & Hq) (P' & Q' & E & Hy & Hq').
  apply cut_cases in E as [(-> & _)|[(Q1 & -> & ->)|(P2 & -> & ->)]]; [done|..]; exfalso.
  - apply Forall_app in Hq' as [_ Hq']. apply Forall_cons in Hq' as [? _]. lia.
  - apply Forall_app in Hq as [_ Hq]. apply Forall_cons in Hq as [? _]. lia.
Qed.

(** Storing a link of a level that is not linked yet keeps the list. *)
Lemma prepare_listed s s' lv ns x i p :
  listed s lv ns -> relinked s s' x i p -> (lv x <= i)%nat -> listed s' lv ns.
Proof.
  intros [Hsh Hs] R Hi. destruct (relinked_rest _ _ _ _ _ R) as (Ra & Rh & Rm & _). split.
  - destruct Hsh as [H1 H2 H3 H4 H5 H6 H7]. split; rewrite ?Rh, ?Rm; try done.
    + eapply Forall_impl; [exact H3|]. intros y Hy. rewrite (relinked_some _ _ _ _ _ y R), (relinked_height _ _ _ _ _ R). exact Hy.
    + intros P y Q j E Hj. rewrite (relinked_link _ _ _ _ _ R). destruct (Z.eqb_spec y x) as [->|], (Nat.eqb_spec j i) as [->|];
        cbn [andb]; try (by eapply H7). lia.
  - replace (map (key_at s') ns) with (map (key_at s) ns); [done|]. apply map_ext. intros y. by rewrite (relinked_key _ _ _ _ _ R).
Qed.

Lemma cut_unique (l P Q P' Q' : list Z) x : NoDup l -> l = P ++ x :: Q -> l = P' ++ x :: Q' -> P = P' /\ Q = Q'.
Proof.
  intros Hnd -> E. apply cut_cases in E as [(_ & -> & ->)|[(Q1 & -> & ->)|(P2 & -> & ->)]]; [done|..]; exfalso.
  - rewrite <- app_assoc in Hnd. apply NoDup_app in Hnd as (_ & _ & Hnd). apply NoDup_cons in Hnd as [Hn _].
    apply Hn, elem_of_app. right. by left.
  - apply NoDup_app in Hnd as (_ & _ & Hnd). apply NoDup_cons in Hnd as [Hn _]. apply Hn, elem_of_app. right. by left.
Qed.

(** [lv] with one more level of [x]. *)
Definition level_up (lv : Z -> nat) (x : Z) : Z -> nat := fun y => if y =? x then S (lv x) else lv y.

Lemma level_up_other lv x y : y <> x -> level_up lv x y = lv y.
Proof. unfold level_up. by destruct (Z.eqb_spec y x). Qed.

Lemma level_up_same lv x : level_up lv x x = S (lv x).
Proof. unfold level_up. by rewrite Z.eqb_refl. Qed.

(** Storing the link to [x] links it on one more level. *)
Lemma publish_listed s s' lv B1 x B2 p :
  listed s lv (B1 ++ x :: B2) -> relinked s s' p (lv x) x ->
  (lv x < height_at s x <= max_height_ s)%nat -> last_on lv (head_ s :: B1) (lv x) p ->
  link_at s x (lv x) = Some (first_above lv (lv x) B2) ->
  listed s' (level_up lv x) (B1 ++ x :: B2).
Proof.
  intros [Hsh Hs] R Hi Hp Hx. destruct (relinked_rest _ _ _ _ _ R) as (Ra & Rh & Rm & _).
  assert (NoDup (head_ s :: B1 ++ x :: B2)) as Hnd by apply Hsh.
  assert (head_ s <> x) as Hhx by (intros E; rewrite E in Hnd; apply NoDup_cons in Hnd as [Hn _]; apply Hn, elem_of_app; right; by left).
  assert (x ∉ B2) as Hx2 by (apply NoDup_cons in Hnd as [_ Hnd]; apply NoDup_app in Hnd as (_ & _ & Hnd); by apply NoDup_cons in Hnd as [? _]).
  assert (forall j Q, x ∉ Q -> first_above (level_up lv x) j Q = first_above lv j Q) as Hsame.
  { intros j Q HQ. apply first_above_ext, Forall_forall. intros y Hy. by rewrite level_up_other by (intros ->; done). }
  split; [|replace (map (key_at s') (B1 ++ x :: B2)) with (map (key_at s) (B1 ++ x :: B2)); [done|];
           apply map_ext; intros y; by rewrite (relinked_key _ _ _ _ _ R)].
  destruct Hsh as [H1 H2 H3 H4 H5 H6 H7]. split; rewrite ?Rh, ?Rm; try done.
  - eapply Forall_impl; [exact H3|]. intros y [Hy1 Hy2]. rewrite (relinked_some _ _ _ _ _ y R), (relinked_height _ _ _ _ _ R).
    split; [done|]. unfold level_up. destruct (Z.eqb_spec y x) as [->|]; lia.
  - by rewrite level_up_other.
  - eapply Forall_impl; [exact H5|]. intros y Hy. unfold level_up. destruct (Z.eqb_spec y x) as [->|]; [lia|done].
  - intros P y Q j E Hj. rewrite (relinked_link _ _ _ _ _ R). rewrite app_comm_cons in Hnd.
    apply NoDup_app in Hnd as (Hnd1 & Hdisj & _).
    assert (p ∈ head_ s :: B1) as Hp1 by (destruct Hp as (P' & Q' & -> & _); apply elem_of_app; right; by left).
    assert (p <> x) as Hpx by (intros ->; apply (Hdisj x Hp1); by left).
    destruct (cut_cases (head_ s :: B1) x B2 P y Q E) as [(-> & -> & ->)|[(Q1 & E1 & ->)|(P2 & -> & ->)]].
    + rewrite level_up_same in Hj. rewrite Hsame by done. destruct (Z.eqb_spec x p); [done|]. cbn [andb].
      destruct (Nat.eq_dec j (lv x)) as [->|]; [done|]. apply (H7 _ _ _ _ E). lia.
    + assert (y ∈ head_ s :: B1) as Hy1 by (rewrite E1; apply elem_of_app; right; by left).
      assert (y <> x) as Hyx by (intros ->; apply (Hdisj x Hy1); by left). rewrite level_up_other in Hj by done.
      assert (x ∉ Q1) as HxQ1 by (intros Hin; apply (Hdisj x); [rewrite E1; apply elem_of_app; right; by right|by left]).
      specialize (H7 _ _ _ _ E Hj).
      assert (forall R', x ∉ R' -> Forall (fun z => (lv z <= j)%nat) R' -> Forall (fun z => (level_up lv x z <= j)%nat) R') as Hbelow.
      { intros R' HR H. apply Forall_forall. intros z Hz. rewrite level_up_other by (intros ->; done). by eapply Forall_forall in H. }
      destruct (first_above_cases lv j Q1) as [(z & R1 & R2 & -> & HR1 & Hz)|Hnone].
      * assert (z <> x /\ x ∉ R1) as [Hzx HR1x] by (split; [intros ->|intros Hin]; apply HxQ1, elem_of_app; [right; by left|by left]).
        rewrite <- app_assoc in *. cbn [app] in *. rewrite first_above_found in H7 by done.
        rewrite first_above_found; [|by apply Hbelow|by rewrite level_up_other].
        destruct (Z.eqb_spec y p) as [->|]; [|done]. destruct (Nat.eqb_spec j (lv x)) as [->|]; [|done]. exfalso.
        destruct Hp as (P' & Q' & EP & _ & HQ'). destruct (cut_unique _ _ _ _ _ _ Hnd1 E1 EP) as [_ <-].
        apply Forall_app in HQ' as [_ HQ']. apply Forall_cons in HQ' as [? _]. lia.
      * rewrite first_above_none in H7 by done. rewrite first_above_none by (by apply Hbelow).
        cbn [first_above] in *. rewrite level_up_same, (Hsame j B2 Hx2).
        destruct (Nat.eq_dec j (lv x)) as [->|Hj'].
        -- assert (y = p) as -> by (eapply last_on_unique; [done|by exists P, Q1|done]).
           rewrite Z.eqb_refl, Nat.eqb_refl. cbn [andb]. by destruct (Nat.ltb_spec (lv x) (S (lv x))); [|lia].
        -- rewrite (proj2 (Nat.eqb_neq _ _) Hj'), andb_false_r, H7.
           destruct (Nat.ltb_spec j (lv x)), (Nat.ltb_spec j (S (lv x))); try lia; done.
    + assert (y ∈ P2 ++ y :: Q) as Hy2 by (apply elem_of_app; right; by left).
      assert (y <> x) as Hyx by (by intros ->). rewrite level_up_other in Hj by done.
      assert (y <> p) as Hyp by (intros ->; apply (Hdisj p Hp1); by right).
      destruct (Z.eqb_spec y p); [done|]. cbn [andb]. rewrite (H7 _ _ _ _ E Hj). f_equal. symmetry. apply Hsame.
      intros Hin. apply Hx2, elem_of_app. right. by right.
Qed.

(** A new node between the others, linked on no level yet. *)
Definition with_new (lv : Z -> nat) (x : Z) : Z -> nat := fun y => if y =? x then O else lv y.

Lemma with_new_other lv x y : y <> x -> with_new lv x y = lv y.
Proof. unfold with_new. by destruct (Z.eqb_spec y x). Qed.

Lemma first_above_new lv x i Q B2 : x ∉ Q -> x ∉ B2 ->
  first_above (with_new lv x) i (Q ++ x :: B2) = first_above lv i (Q ++ B2).
Proof.
  intros HQ HB. assert (forall R, x ∉ R -> first_above (with_new lv x) i R = first_above lv i R) as Hsame.
  { intros R HR. apply first_above_ext, Forall_forall. intros y Hy. by rewrite with_new_other by (intros ->; done). }
  induction Q as [|y Q IH]; cbn [app first_above].
  - unfold with_new at 1. rewrite Z.eqb_refl. cbn [Nat.ltb Nat.leb]. by apply Hsame.
  - apply not_elem_of_cons in HQ as [Hy HQ]. rewrite with_new_other by done. by rewrite IH.
Qed.

Lemma lookup_new (nodes : gmap Z (node Key)) x nd y : y <> x -> <[x := nd]> nodes !! y = nodes !! y.
Proof. intros H. by apply lookup_insert_ne. Qed.

Lemma add_listed (s : SkipList) lv B1 B2 key x height a :
  listed s lv (B1 ++ B2) -> nodes_ s !! x = None -> x <> nullptr ->
  sorted valid cmp (map (key_at s) B1 ++ key :: map (key_at s) B2) ->
  listed (with_arena s a (<[x := mk_node key (repeat None height)]> (nodes_ s))) (with_new lv x) (B1 ++ x :: B2).
Proof.
  intros [Hsh Hs] Hx Hx0 Hsort. set (s' := with_arena s a _).
  assert (forall y, y ∈ head_ s :: B1 ++ B2 -> y <> x) as Hne.
  { intros y Hy ->. destruct (shaped_at s lv _ x Hsh Hy) as [Hsx _]. by rewrite Hx in Hsx; destruct Hsx. }
  assert (forall y, y <> x -> key_at s' y = key_at s y /\ height_at s' y = height_at s y /\
            (forall i, link_at s' y i = link_at s y i) /\ (is_Some (nodes_ s' !! y) <-> is_Some (nodes_ s !! y))) as Hold.
  { intros y Hy. unfold LdbSkipList.key_at, height_at, link_at. subst s'. cbn [nodes_ with_arena]. by rewrite lookup_new. }
  assert (key_at s' x = key) as Hkx by (unfold LdbSkipList.key_at; subst s'; cbn [nodes_ with_arena]; by rewrite lookup_insert_eq).
  assert (forall R, R ⊆ head_ s :: B1 ++ B2 -> x ∉ R) as Hnot by (intros R HR Hin; by apply (Hne x); [apply HR|]).
  split.
  - destruct Hsh as [H1 H2 H3 H4 H5 H6 H7].
    assert (head_ s :: B1 ++ x :: B2 ≡ₚ x :: head_ s :: B1 ++ B2) as Hperm.
    { rewrite <- Permutation_middle. apply Permutation_swap. }
    split; change (head_ s') with (head_ s); change (max_height_ s') with (max_height_ s).
    + rewrite Hperm. apply NoDup_cons. split; [by apply Hnot|done].
    + rewrite Hperm. by constructor.
    + rewrite Hperm. constructor.
      * unfold with_new. rewrite Z.eqb_refl. split; [|lia]. subst s'. cbn. rewrite lookup_insert_eq. by eexists.
      * apply Forall_forall. intros y Hy. destruct (Hold y (Hne y Hy)) as (_ & -> & _ & ->). rewrite with_new_other by (by apply Hne).
        by eapply Forall_forall in H3.
    + rewrite with_new_other; [done|]. apply Hne. by left.
    + rewrite <- Permutation_middle. constructor; [unfold with_new; rewrite Z.eqb_refl; lia|].
      apply Forall_forall. intros y Hy. rewrite with_new_other by (apply Hne; by right). by eapply Forall_forall in H5.
    + done.
    + intros P y Q i E Hi. destruct (Z.eq_dec y x) as [->|Hyx]; [unfold with_new in Hi; rewrite Z.eqb_refl in Hi; lia|].
      rewrite with_new_other in Hi by done. destruct (Hold y Hyx) as (_ & _ & -> & _).
      destruct (cut_cases (head_ s :: B1) x B2 P y Q E) as [(-> & _)|[(Q1 & E1 & ->)|(P2 & -> & ->)]]; [done|..].
      * rewrite first_above_new.
        -- apply (H7 P); [|done]. by rewrite app_comm_cons, E1, <- app_assoc.
        -- apply Hnot. intros z Hz. rewrite app_comm_cons, E1. rewrite !elem_of_app, elem_of_cons. tauto.
        -- apply Hnot. intros z Hz. rewrite elem_of_cons, elem_of_app. tauto.
      * rewrite (H7 ((head_ s :: B1) ++ P2) y Q i); [f_equal; symmetry|by rewrite <- app_assoc|done].
        apply first_above_ext, Forall_forall. intros z Hz. rewrite with_new_other; [done|]. apply Hne.
        rewrite elem_of_cons, !elem_of_app, elem_of_cons. tauto.
  - rewrite map_app. cbn [map]. rewrite Hkx.
    assert (forall R, R ⊆ head_ s :: B1 ++ B2 -> map (key_at s') R = map (key_at s) R) as Hmap.
    { intros R HR. apply map_ext_in. intros y Hy%list_elem_of_In. apply Hold, Hne, HR, Hy. }
    rewrite !Hmap; [done|..]; intros z Hz; rewrite elem_of_cons, elem_of_app; tauto.
Qed.

End StoreProof.

(** ** Inserting *)

Section InsertProof.
Context {Key A : Type} {key0 : Key} {valid : Key -> Prop} {cmp : Key -> Key -> Z} {order : KeyOrder valid cmp}.
Context {compare_ : Key -> Key -> res Z} (compare_ret : forall a b, valid a -> valid b -> compare_ a b = Ret (cmp a b)).
Context {alloc : A -> Z -> res (option Z * A)} {ok : A -> list region -> Prop} {fresh : FreshAlloc alloc ok}.
Context {sizeof_Node : Z} (sizeof_ok : 0 < sizeof_Node < 2 ^ 32).
Abbreviation SkipList := (SkipList Key A).
Abbreviation key_at := (key_at key0).
Abbreviation listed := (listed (key0 := key0) (valid := valid) (cmp := cmp)).
Abbreviation around := (around (key0 := key0) (cmp := cmp)).

(** Every node has memory of its own. *)
Definition owned (a : A) (nodes : gmap Z (node Key)) (used : list region) : Prop :=
  ok a used /\ forall x, is_Some (nodes !! x) -> exists n, 0 < n /\ (x, n) ∈ used.

Lemma NewNode_ok a nodes used key height :
  owned a nodes used -> (1 <= height <= kMaxHeight)%nat ->
  exists result a' nodes' used', NewNode alloc sizeof_Node a nodes key height = Ret (result, (a', nodes')) /\ owned a' nodes' used' /\
    match result with
    | None => nodes' = nodes
    | Some x => x <> nullptr /\ nodes !! x = None /\ nodes' = <[x := mk_node key (repeat None height)]> nodes
    end.
Proof.
  intros [Hok Hown] Hh. unfold NewNode, kMaxHeight, sizeof_pointer in *.
  set (n := sizeof_Node + 8 * (Z.of_nat height - 1)).
  destruct (alloc_fresh a used n Hok ltac:(lia)) as (result & a' & -> & H). cbn [rbind].
  destruct result as [x|]; [|by exists None, a', nodes, used].
  destruct H as (Hx & Hap & Hok'). exists (Some x), a', (<[x := mk_node key (repeat None height)]> nodes), ((x, n) :: used).
  split; [done|]. split; [split; [done|]|split; [unfold nullptr; lia|split; [|done]]].
  - intros y Hy. destruct (decide (x = y)) as [<-|Hne]; [exists n; split; [lia|by left]|].
    rewrite lookup_insert_ne in Hy by done. destruct (Hown y Hy) as (m & Hm & Hin). exists m. split; [done|by right].
  - apply eq_None_not_Some. intros Hs. destruct (Hown x Hs) as (m & Hm & Hin).
    eapply Forall_forall in Hap; [|exact Hin]. unfold apart in Hap. cbn in Hap. lia.
Qed.

(** The heights drawn. *)
Lemma raise_loop_range n height rnd : is_seed rnd ->
  (height <= fst (raise_loop n height rnd) <= height + n)%nat /\ is_seed (snd (raise_loop n height rnd)).
Proof.
  revert height rnd; induction n as [|n IH]; intros height rnd Hr; cbn [raise_loop]; [cbn; split; [lia|done]|].
  pose proof (proj2 (Next_mod rnd Hr)) as Hn. destruct (_ =? 0); [|cbn; split; [lia|done]].
  destruct (IH (S height) _ Hn). split; [lia|done].
Qed.

Lemma RandomHeight_ok rnd : is_seed rnd ->
  exists height rnd', RandomHeight rnd = Ret (height, rnd') /\ (1 <= height <= kMaxHeight)%nat /\ is_seed rnd'.
Proof.
  intros Hr. unfold RandomHeight. destruct (raise_loop_range (kMaxHeight - 1) 1 rnd Hr) as [Hh Hs].
  destruct (raise_loop _ 1 rnd) as [height rnd']. cbn [fst snd] in *. unfold kMaxHeight in *. unfold assert_.
  destruct (Nat.ltb_spec 0 height); [|lia]. destruct (Nat.leb_spec height 12); [|lia]. cbn [rbind].
  exists height, rnd'. split; [done|]. split; [lia|done].
Qed.

End InsertProof.
