(* ===== verification/LdbSkipListSpec.v ===== *)
(** * LevelDB: what the skip list does

    A skip list is a strictly sorted list of keys: inserting puts a key in its
    place, searching finds the first key not before a target, and the iterator
    walks the keys in both directions. *)
From S2P Require Import Prelude.
From S2P Require Import LdbOrder LdbRandom LdbArena LdbSkipList.
From Stdlib Require Import ZArith Lia.
From stdpp Require Import base tactics numbers list gmap sorting.
#[local] Open Scope Z_scope.

Section Spec.
Context {Key A : Type} {key0 : Key} {valid : Key -> Prop} {cmp : Key -> Key -> Z} {order : KeyOrder valid cmp}.
Context {compare_ : Key -> Key -> res Z} (compare_ret : forall a b, valid a -> valid b -> compare_ a b = Ret (cmp a b)).
Context {alloc : A -> Z -> res (option Z * A)} {ok : A -> list region -> Prop} {fresh : FreshAlloc alloc ok}.
Context {sizeof_Node : Z} (sizeof_ok : 0 < sizeof_Node < 2 ^ 32).
Abbreviation SkipList := (SkipList Key A).
Abbreviation key_at := (key_at key0).
Abbreviation listed := (listed (A := A) (key0 := key0) (valid := valid) (cmp := cmp)).
Abbreviation around := (around (key0 := key0) (cmp := cmp)).
Abbreviation owned := (owned (Key := Key) (ok := ok)).

(** ** Linking a node *)

(** What linking leaves alone. *)
Record same_nodes (s s' : SkipList) : Prop := {
  same_key y : key_at s' y = key_at s y;
  same_height y : height_at s' y = height_at s y;
  same_dom : dom (nodes_ s') = dom (nodes_ s);
  same_rest : arena_ s' = arena_ s /\ head_ s' = head_ s /\ max_height_ s' = max_height_ s /\ rnd_ s' = rnd_ s;
}.

Lemma same_refl s : same_nodes s s.
Proof. by split. Qed.

Lemma same_trans s1 s2 s3 : same_nodes s1 s2 -> same_nodes s2 s3 -> same_nodes s1 s3.
Proof.
  intros [K1 H1 D1 (A1 & E1 & M1 & R1)] [K2 H2 D2 (A2 & E2 & M2 & R2)]. split; intros; [congruence..|].
  split_and!; congruence.
Qed.

Lemma relinked_same s s' x i p : relinked (key0 := key0) s s' x i p -> same_nodes s s'.
Proof. by intros [? ? ? ? ?]. Qed.

(** The levels from [i] on have the last node before [x] in [prev]. *)
Definition prev_ready (lv : Z -> nat) (all : list Z) (prev : links) (i top : nat) : Prop :=
  forall j, (i <= j < top)%nat -> exists p, prev !! j = Some (Some p) /\ last_on lv all j p.

Lemma prepare_level_ok s lv B1 x B2 prev i :
  listed s lv (B1 ++ x :: B2) -> lv x = i -> (i < height_at s x)%nat ->
  (exists p, prev !! i = Some (Some p) /\ last_on lv (head_ s :: B1) i p) ->
  exists s', prepare_level s x prev i = Ret s' /\ relinked (key0 := key0) s s' x i (first_above lv i B2) /\ listed s' lv (B1 ++ x :: B2).
Proof.
  intros H Hlv Hi (p & Ep & P & Q & E & Hp & HQ). unfold prepare_level, prev_at. rewrite Ep. cbn [rbind].
  rewrite (link_among (key0 := key0) (valid := valid) (cmp := cmp) s lv B1 (x :: B2) P p Q i H E Hp). cbn [rbind].
  rewrite first_above_none by done. cbn [first_above]. rewrite Hlv. destruct (Nat.ltb_spec i i) as [|_]; [lia|].
  destruct (SetNext_ok (key0 := key0) s x i (first_above lv i B2) Hi) as (s' & E' & R).
  exists s'. split; [exact E'|]. split; [done|]. eapply prepare_listed; [done|done|lia].
Qed.

Lemma publish_level_ok s lv B1 x B2 prev i :
  listed s lv (B1 ++ x :: B2) -> lv x = i -> (i < height_at s x <= max_height_ s)%nat ->
  link_at s x i = Some (first_above lv i B2) ->
  (exists p, prev !! i = Some (Some p) /\ last_on lv (head_ s :: B1) i p) ->
  exists s', publish_level s x prev i = Ret s' /\ same_nodes s s' /\ listed s' (level_up lv x) (B1 ++ x :: B2).
Proof.
  intros H Hlv Hi Hx (p & Ep & Hp). unfold publish_level, prev_at. rewrite Ep. cbn [rbind].
  assert (i < height_at s p)%nat as Hpi.
  { destruct Hp as (P & Q & E & Hp & _). destruct H as [Hsh _]. pose proof (shaped_heap _ _ _ Hsh) as Hh.
    rewrite app_comm_cons, E in Hh. apply Forall_app in Hh as [Hh _]. apply Forall_app in Hh as [_ Hh].
    apply Forall_cons in Hh as [[_ Hh] _]. lia. }
  destruct (SetNext_ok (key0 := key0) s p i x Hpi) as (s' & E' & R). exists s'. split; [exact E'|].
  split; [by eapply relinked_same|]. subst i. eapply publish_listed; [exact H|exact R|exact Hi|exact Hp|exact Hx].
Qed.

Lemma last_on_level_up lv x all j p : x ∉ all -> last_on lv all j p -> last_on (level_up lv x) all j p.
Proof.
  intros Hx (P & Q & -> & Hp & HQ). apply not_elem_of_app in Hx as [_ Hx]. apply not_elem_of_cons in Hx as [Hxp HxQ].
  exists P, Q. split; [done|]. split; [by rewrite level_up_other|]. apply Forall_forall. intros y Hy.
  rewrite level_up_other by (intros ->; done). by eapply Forall_forall in HQ.
Qed.

Lemma link_levels_ok x prev B1 B2 n : forall i s lv,
  listed s lv (B1 ++ x :: B2) -> lv x = i -> (i + n <= height_at s x <= max_height_ s)%nat ->
  prev_ready lv (head_ s :: B1) prev i (i + n) ->
  exists s' lv', link_levels s x prev (seq i n) = Ret s' /\ same_nodes s s' /\ listed s' lv' (B1 ++ x :: B2) /\
    lv' x = (i + n)%nat /\ forall y, y <> x -> lv' y = lv y.
Proof.
  induction n as [|n IH]; intros i s lv H Hlv Hi Hprev.
  { exists s, lv. cbn [seq link_levels]. split_and!; [done|apply same_refl|done|lia|done]. }
  cbn [seq link_levels].
  destruct (prepare_level_ok s lv B1 x B2 prev i H Hlv) as (s1 & -> & R1 & H1); [lia|apply Hprev; lia|]. cbn [rbind].
  pose proof (relinked_same _ _ _ _ _ R1) as S1. destruct S1 as [K1 T1 D1 (A1 & E1 & M1 & N1)] eqn:ES1. clear ES1.
  destruct (publish_level_ok s1 lv B1 x B2 prev i H1 Hlv) as (s2 & -> & S2 & H2).
  { rewrite T1, M1. lia. }
  { rewrite (relinked_link _ _ _ _ _ R1). by rewrite Z.eqb_refl, Nat.eqb_refl. }
  { rewrite E1. apply Hprev. lia. }
  cbn [rbind]. pose proof (same_trans s s1 s2 (relinked_same _ _ _ _ _ R1) S2) as S12.
  destruct S12 as [K2 T2 D2 (A2 & E2 & M2 & N2)] eqn:ES2.
  assert (x ∉ head_ s :: B1) as Hx.
  { pose proof (shaped_nodup _ _ _ (proj1 H)) as Hnd. rewrite app_comm_cons in Hnd. apply NoDup_app in Hnd as (_ & Hnd & _).
    intros Hin. apply (Hnd x Hin). by left. }
  destruct (IH (S i) s2 (level_up lv x)) as (s3 & lv' & -> & S3 & H3 & Hlv' & Hother).
  - done.
  - by rewrite level_up_same, Hlv.
  - rewrite T2, M2. lia.
  - rewrite E2. intros j Hj. destruct (Hprev j ltac:(lia)) as (p & Ep & Hp). exists p. split; [done|]. by apply last_on_level_up.
  - exists s3, lv'. split; [done|]. split; [by eapply same_trans|]. split; [done|]. split; [lia|].
    intros y Hy. rewrite Hother by done. by apply level_up_other.
Qed.

(** ** Insert *)

Lemma head_notin s lv ns : listed s lv ns -> head_ s ∉ ns.
Proof. intros [H _]. by apply NoDup_cons, H. Qed.

Lemma foldl_insert_lookup (l : list nat) (h : Z) : forall (prev : links) j,
  foldl (fun prev i => <[i := Some h]> prev) prev l !! j =
  if decide (j ∈ l) then (if decide (j < length prev)%nat then Some (Some h) else None) else prev !! j.
Proof.
  induction l as [|i l IH]; intros prev j; [done|]. cbn [foldl]. rewrite IH, length_insert.
  destruct (decide (j ∈ l)) as [Hin|Hin].
  - destruct (decide (j ∈ i :: l)) as [_|Hn]; [done|]. exfalso. apply Hn. by right.
  - destruct (Nat.eq_dec i j) as [->|Hne].
    + destruct (decide (j ∈ j :: l)) as [_|Hn]; [|exfalso; apply Hn; by left].
      destruct (decide (j < length prev)%nat); [by apply list_lookup_insert_eq|]. apply lookup_ge_None_2. rewrite length_insert. lia.
    + rewrite list_lookup_insert_ne by done. destruct (decide (j ∈ i :: l)) as [Hn|_]; [|done].
      apply elem_of_cons in Hn as [->|]; done.
Qed.

(** [prev] for all the levels of the new node, those above the list included. *)
Lemma raise_height_ok s lv B1 B2 prev height s' prev' :
  listed s lv (B1 ++ B2) -> (1 <= height <= kMaxHeight)%nat -> length prev = kMaxHeight ->
  prev_ready lv (head_ s :: B1) prev 0 (max_height_ s) -> raise_height s prev height = (s', prev') ->
  listed s' lv (B1 ++ B2) /\ (height <= max_height_ s')%nat /\ prev_ready lv (head_ s' :: B1) prev' 0 height /\
  nodes_ s' = nodes_ s /\ arena_ s' = arena_ s /\ rnd_ s' = rnd_ s.
Proof.
  intros [Hsh Hs] Hh Hlen Hprev. unfold raise_height. destruct (Nat.ltb_spec (max_height_ s) height) as [Hlt|Hge]; intros [= <- <-].
  - split_and!; cbn [max_height_ head_ nodes_ arena_ rnd_]; try done.
    + split; [|exact Hs]. destruct Hsh as [H1 H2 H3 H4 H5 H6 H7]. split; cbn [max_height_ head_]; try done.
      eapply Forall_impl; [exact H5|]. cbn. lia.
    + intros j Hj. rewrite foldl_insert_lookup. destruct (decide (j ∈ seq (max_height_ s) (height - max_height_ s))) as [Hin|Hin].
      * apply elem_of_seq in Hin. destruct (decide (j < length prev)%nat); [|lia]. exists (head_ s). split; [done|].
        exists [], B1. split; [done|]. split; [rewrite (shaped_head _ _ _ Hsh); lia|]. apply Forall_forall. intros y Hy.
        pose proof (shaped_lv _ _ _ Hsh) as Hlv. apply Forall_app in Hlv as [Hlv _]. eapply Forall_forall in Hlv; [|done]. cbn in Hlv. lia.
      * rewrite elem_of_seq in Hin. apply Hprev. lia.
  - split_and!; try done. intros j Hj. apply Hprev. lia.
Qed.

Lemma insert_position_ok s lv B1 B2 k :
  listed s lv (B1 ++ B2) -> valid k -> around s k B1 B2 -> Forall (fun x => cmp (key_at s x) k <> 0) B2 ->
  exists prev, insert_position compare_ s k = Ret prev /\ length prev = kMaxHeight /\
    prev_ready lv (head_ s :: B1) prev 0 (max_height_ s).
Proof.
  intros H Hk Har Hne. unfold insert_position.
  destruct (FindGreaterOrEqual_ok (key0 := key0) (cmp := cmp) compare_ret s lv B1 B2 k (Some (repeat None kMaxHeight)) H Hk Har)
    as (prev & -> & Hprev); [by rewrite repeat_length|]. cbn [rbind].
  destruct prev as [prev|]; [|done]. destruct Hprev as (Hlen & _ & Hprev).
  exists prev. split; [|split; [done|exact Hprev]].
  destruct (first_above_in lv 0 B2) as [->|Hin]; [done|].
  destruct (compare_at (key0 := key0) (cmp := cmp) compare_ret s lv (B1 ++ B2) k (first_above lv 0 B2) H Hk) as (nd & E & Ek & _ & En);
    [apply elem_of_app; by right|].
  rewrite En, E. cbn [rbind]. unfold Equal. rewrite Ek.
  assert (valid (key_at s (first_above lv 0 B2))) as Hv by (eapply (listed_valid (cmp := cmp)); [done|apply elem_of_app; by right]).
  rewrite compare_ret by done. cbn [rbind]. eapply Forall_forall in Hne; [|exact Hin]. cbn in Hne.
  pose proof (order_flip k (key_at s (first_above lv 0 B2)) Hk Hv). unfold assert_.
  destruct (Z.eqb_spec (cmp k (key_at s (first_above lv 0 B2))) 0); [lia|done].
Qed.

(** The nodes of a list between two calls, all of them linked. *)
Definition nodes_ok (s : SkipList) (ns : list Z) : Prop :=
  exists lv used, listed s lv ns /\ Forall (fun x => (0 < lv x)%nat) ns /\ owned (arena_ s) (nodes_ s) used /\ is_seed (rnd_ s).

(** The abstract list: the keys of the nodes. *)
Definition skip_ok (s : SkipList) (keys : list Key) : Prop := exists ns, nodes_ok s ns /\ map (key_at s) ns = keys.

Lemma same_keys (s s' : SkipList) ns : same_nodes s s' -> map (key_at s') ns = map (key_at s) ns.
Proof. intros S. apply map_ext. intros y. apply S. Qed.

Lemma same_owned s s' used : same_nodes s s' -> owned (arena_ s) (nodes_ s) used -> owned (arena_ s') (nodes_ s') used.
Proof.
  intros [_ _ D (Ar & _)] [Hok Hown]. rewrite Ar. split; [done|]. intros x Hx. apply Hown.
  rewrite <- elem_of_dom, D in Hx. by apply elem_of_dom.
Qed.

(** What the start of an insertion leaves: the list as it was, or the new node in
    its place, linked on no level. *)
Definition begun (s : SkipList) (lv : Z -> nat) (B1 B2 : list Z) (k : Key) (r : option (Z * links * nat) * SkipList) : Prop :=
  let (node, s') := r in
  (forall y, y ∈ B1 ++ B2 -> key_at s' y = key_at s y) /\ head_ s' = head_ s /\ is_seed (rnd_ s') /\
  (exists used, owned (arena_ s') (nodes_ s') used) /\
  match node with
  | None => listed s' lv (B1 ++ B2)
  | Some (x, prev, height) =>
      (x ∉ head_ s :: B1 ++ B2) /\ listed s' (with_new lv x) (B1 ++ x :: B2) /\ key_at s' x = k /\
      (1 <= height <= max_height_ s')%nat /\ height_at s' x = height /\ prev_ready (with_new lv x) (head_ s :: B1) prev 0 height
  end.

Lemma last_on_with_new lv x all i p : x ∉ all -> last_on lv all i p -> last_on (with_new lv x) all i p.
Proof.
  intros Hx (P & Q & -> & Hp & HQ). apply not_elem_of_app in Hx as [_ Hx]. apply not_elem_of_cons in Hx as [Hxp HxQ].
  exists P, Q. split; [done|]. split; [by rewrite with_new_other|]. apply Forall_forall. intros y Hy.
  rewrite with_new_other by (intros ->; done). by eapply Forall_forall in HQ.
Qed.

Lemma insert_begin_ok s lv B1 B2 k used :
  listed s lv (B1 ++ B2) -> owned (arena_ s) (nodes_ s) used -> is_seed (rnd_ s) -> valid k -> around s k B1 B2 ->
  Forall (fun x => cmp (key_at s x) k <> 0) B2 -> sorted valid cmp (map (key_at s) B1 ++ k :: map (key_at s) B2) ->
  exists r, insert_begin compare_ alloc sizeof_Node s k = Ret r /\ begun s lv B1 B2 k r.
Proof.
  intros H Hown Hseed Hk Har Hne Hsort.
  destruct (insert_position_ok s lv B1 B2 k H Hk Har Hne) as (prev & Epos & Hlen & Hprev).
  unfold insert_begin. rewrite Epos. cbn [rbind].
  destruct (RandomHeight_ok (rnd_ s) Hseed) as (height & rnd & -> & Hh & Hseed'). cbn [rbind].
  destruct (raise_height (with_rnd s rnd) prev height) as [s1 prev1] eqn:Er.
  destruct (raise_height_ok (with_rnd s rnd) lv B1 B2 prev height s1 prev1) as (H1 & Hmax & Hprev1 & En & Ea & Ern); try done.
  { split; [|exact (proj2 H)]. destruct (proj1 H) as [? ? ? ? ? ? ?]. by split. }
  assert (head_ s1 = head_ s) as Ehead by (unfold raise_height in Er; destruct (_ <? _)%nat; by injection Er as <- _).
  cbn [with_rnd nodes_ arena_ rnd_] in En, Ea, Ern. rewrite <- En, <- Ea in Hown.
  assert (forall y, key_at s1 y = key_at s y) as Hkey by (intros y; unfold LdbSkipList.key_at; by rewrite En).
  destruct (NewNode_ok (alloc := alloc) (ok := ok) sizeof_ok (arena_ s1) (nodes_ s1) used k height Hown Hh)
    as (result & a' & nodes' & used' & -> & Hown' & Hres). cbn [rbind].
  eexists. split; [done|]. unfold begun. destruct result as [x|].
  - destruct Hres as (Hx0 & Hx & ->). set (s2 := with_arena s1 a' _).
    assert (x ∉ head_ s1 :: B1 ++ B2) as Hxn.
    { intros Hin. destruct (shaped_at _ _ _ _ (proj1 H1) Hin) as [Hs _]. rewrite Hx in Hs. by destruct Hs. }
    rewrite <- Ehead. split_and!; [| |by rewrite <- Ern in Hseed'|by exists used'|done| | |lia|done| |].
    + intros y Hy. unfold LdbSkipList.key_at. subst s2. cbn [nodes_ with_arena].
      rewrite lookup_insert_ne; [by rewrite En|]. intros <-. apply Hxn. by right.
    + done.
    + apply (add_listed (key0 := key0) s1 lv B1 B2 k x height a'); [exact H1|exact Hx|exact Hx0|]. by rewrite !(map_ext _ _ Hkey).
    + unfold LdbSkipList.key_at. subst s2. cbn [nodes_ with_arena]. by rewrite lookup_insert_eq.
    + unfold height_at. subst s2. cbn [nodes_ with_arena]. rewrite lookup_insert_eq. cbn [next_]. by rewrite repeat_length.
    + intros j Hj. destruct (Hprev1 j Hj) as (p & Ep & Hp). exists p. split; [done|]. apply last_on_with_new; [|done].
      intros Hin. apply Hxn. rewrite app_comm_cons. apply elem_of_app. by left.
  - subst nodes'. split_and!; [by intros y _; apply Hkey|done|by rewrite <- Ern in Hseed'|by exists used'|].
    destruct H1 as [Hsh1 Hs1]. split; [|exact Hs1]. destruct Hsh1 as [? ? ? ? ? ? ?]. by split.
Qed.

(** Inserting puts the key in its place; when the arena throws the list stays. *)
Lemma Insert_ok s keys k :
  skip_ok s keys -> valid k -> Forall (fun k' => cmp k' k <> 0) keys ->
  exists inserted s', LdbSkipList.Insert compare_ alloc sizeof_Node s k = Ret (inserted, s') /\
    skip_ok s' (if inserted then insert_sorted cmp k keys else keys).
Proof.
  intros (ns & (lv & used & H & Hlv & Hown & Hseed) & <-) Hk Hne.
  destruct (split_around (key0 := key0) (cmp := cmp) s lv ns k H Hk) as (B1 & B2 & -> & Har & Eins).
  pose proof (insert_sorted_sorted k _ (proj2 H) Hk Hne) as Hsort. rewrite Eins in Hsort. rewrite map_app, Forall_app, !Forall_map in Hne.
  destruct (insert_begin_ok s lv B1 B2 k used H Hown Hseed Hk Har (proj2 Hne) Hsort) as ([node s2] & E & Hkeys & Eh & Hseed2 & [used2 Hown2] & Hnode).
  unfold LdbSkipList.Insert. rewrite E. cbn [rbind].
  assert (forall R, R ⊆ B1 ++ B2 -> map (key_at s2) R = map (key_at s) R) as Hmap.
  { intros R HR. apply map_ext_in. intros y Hy%list_elem_of_In. by apply Hkeys, HR. }
  destruct node as [[[x prev] height]|].
  - destruct Hnode as (Hx & H2 & Hkx & Hh & Hhx & Hprev).
    destruct (link_levels_ok x prev B1 B2 height 0 s2 (with_new lv x)) as (s3 & lv' & -> & S3 & H3 & Hlvx & Hother).
    { done. } { unfold with_new. by rewrite Z.eqb_refl. } { lia. } { by rewrite Eh. }
    cbn [rbind]. exists true, s3. split; [done|]. exists (B1 ++ x :: B2). split.
    + exists lv', used2. split_and!; [done| |by apply (same_owned s2)|by destruct (same_rest _ _ S3) as (_ & _ & _ & ->)].
      assert (forall R, R ⊆ B1 ++ B2 -> Forall (fun y => (0 < lv' y)%nat) R) as Hall.
      { intros R HR. apply Forall_forall. intros y Hy%HR. assert (y <> x) as Hyx by (intros ->; apply Hx; by right).
        rewrite Hother, with_new_other by done. by eapply Forall_forall in Hlv. }
      apply Forall_app. split; [|constructor; [lia|]]; apply Hall; intros y Hy; apply elem_of_app; tauto.
    + rewrite (same_keys s2 s3) by done. rewrite Eins, map_app. cbn [map]. rewrite Hkx.
      rewrite !Hmap; [done|..]; intros y Hy; apply elem_of_app; tauto.
  - exists false, s2. split; [done|]. exists (B1 ++ B2). split; [by exists lv, used2|]. by apply Hmap.
Qed.

(** ** The constructor *)

Lemma clear_links_ok x levels : forall s, Forall (fun i => (i < height_at s x)%nat) levels ->
  exists s', clear_links s x levels = Ret s' /\ same_nodes s s' /\
    forall j, link_at s' x j = if decide (j ∈ levels) then Some nullptr else link_at s x j.
Proof.
  induction levels as [|i levels IH]; intros s Hl; [exists s; split; [done|by split]|].
  apply Forall_cons in Hl as [Hi Hl]. cbn [clear_links].
  destruct (SetNext_ok (key0 := key0) s x i nullptr Hi) as (s1 & -> & R). cbn [rbind].
  destruct (IH s1) as (s' & -> & S & Hlink).
  { eapply Forall_impl; [exact Hl|]. intros j Hj. by rewrite (relinked_height _ _ _ _ _ R). }
  exists s'. split; [done|]. split; [eapply same_trans; [by eapply relinked_same|done]|].
  intros j. rewrite Hlink, (relinked_link _ _ _ _ _ R), Z.eqb_refl. cbn [andb].
  destruct (decide (j ∈ levels)) as [Hin|Hin].
  - destruct (decide (j ∈ i :: levels)) as [_|Hn]; [done|]. exfalso. apply Hn. by right.
  - destruct (Nat.eqb_spec j i) as [->|Hne].
    + destruct (decide (i ∈ i :: levels)) as [_|Hn]; [done|]. exfalso. apply Hn. by left.
    + destruct (decide (j ∈ i :: levels)) as [[->|]%elem_of_cons|_]; done.
Qed.

Lemma new_skiplist_ok a used : ok a used ->
  exists r, new_skiplist alloc sizeof_Node key0 a = Ret r /\ match r with Some s => skip_ok s [] | None => True end.
Proof.
  intros Ha. unfold new_skiplist. assert (owned a ∅ used) as Hown by (split; [done|]; intros x Hx; by rewrite lookup_empty in Hx; destruct Hx).
  destruct (NewNode_ok (alloc := alloc) (ok := ok) sizeof_ok a ∅ used key0 kMaxHeight Hown ltac:(unfold kMaxHeight; lia))
    as (result & a' & nodes' & used' & -> & Hown' & Hres). cbn [rbind]. destruct result as [x|]; [|by exists None].
  destruct Hres as (Hx0 & _ & ->). set (s := mk_skiplist a' _ x 1 _).
  assert (height_at s x = kMaxHeight) as Hh by (unfold height_at; subst s; cbn [nodes_]; rewrite lookup_insert_eq; cbn [next_]; by rewrite repeat_length).
  destruct (clear_links_ok x (seq 0 kMaxHeight) s) as (s' & -> & S & Hlink).
  { apply Forall_forall. intros j Hj%elem_of_seq. rewrite Hh. lia. }
  cbn [rbind]. exists (Some s'). split; [done|]. exists []. split; [|done]. exists (fun _ => kMaxHeight), used'.
  destruct (same_rest _ _ S) as (_ & Eh & Em & Er). split_and!; [split; [split|]|constructor|by apply (same_owned s)|].
  - apply NoDup_singleton.
  - rewrite Eh. by constructor.
  - rewrite Eh. constructor; [|constructor]. rewrite (same_height _ _ S). change (head_ s) with x. rewrite Hh. split; [|done].
    apply elem_of_dom. rewrite (same_dom _ _ S). apply elem_of_dom. subst s. cbn [nodes_]. rewrite lookup_insert_eq. by eexists.
  - done.
  - constructor.
  - rewrite Em. cbn. unfold kMaxHeight. lia.
  - rewrite Eh. change (head_ s) with x. intros P y Q i E Hi. destruct P as [|? P]; [|by destruct P]. injection E as <- <-.
    rewrite Hlink. destruct (decide (i ∈ seq 0 kMaxHeight)) as [_|Hn]; [done|]. exfalso. apply Hn, elem_of_seq. lia.
  - apply sorted_nil.
  - rewrite Er. apply new_random_seed.
Qed.

(** ** Searches and iterators *)

Lemma first_linked lv ns : Forall (fun x => (0 < lv x)%nat) ns -> first_above lv 0 ns = hd nullptr ns.
Proof. destruct ns as [|x ns]; [done|]. intros [Hx _]%Forall_cons. cbn [first_above hd]. by destruct (Nat.ltb_spec 0 (lv x)); [|lia]. Qed.

(** The iterator [it] stands at the first of the keys [after]. *)
Definition iter_at (s : SkipList) (it : Z) (before after : list Key) : Prop :=
  exists B1 B2, nodes_ok s (B1 ++ B2) /\ map (key_at s) B1 = before /\ map (key_at s) B2 = after /\ it = hd nullptr B2.

Lemma Seek_ok s keys k : skip_ok s keys -> valid k ->
  exists it before after, iter_Seek compare_ s k = Ret it /\ keys = before ++ after /\
    Forall (fun k' => cmp k' k < 0) before /\ Forall (fun k' => 0 <= cmp k' k) after /\ iter_at s it before after.
Proof.
  intros (ns & Hok & <-) Hk. pose proof Hok as (lv & used & H & Hlv & _).
  destruct (split_around (key0 := key0) (cmp := cmp) s lv ns k H Hk) as (B1 & B2 & -> & Har & _).
  destruct (FindGreaterOrEqual_ok (key0 := key0) (cmp := cmp) compare_ret s lv B1 B2 k None H Hk Har I) as (prev & E & _).
  unfold iter_Seek. rewrite E. cbn [rbind]. rewrite first_linked by (by apply Forall_app in Hlv as [_ ?]).
  exists (hd nullptr B2), (map (key_at s) B1), (map (key_at s) B2). rewrite map_app, !Forall_map.
  split_and!; [done|done|apply Har|apply Har|]. by exists B1, B2.
Qed.

Lemma Contains_ok s keys k : skip_ok s keys -> valid k ->
  Contains compare_ s k = Ret (existsb (fun k' => cmp k' k =? 0) keys).
Proof.
  intros (ns & Hok & <-) Hk. pose proof Hok as (lv & used & H & Hlv & _).
  destruct (split_around (key0 := key0) (cmp := cmp) s lv ns k H Hk) as (B1 & B2 & -> & Har & _).
  destruct (FindGreaterOrEqual_ok (key0 := key0) (cmp := cmp) compare_ret s lv B1 B2 k None H Hk Har I) as (prev & E & _).
  unfold Contains. rewrite E. cbn [rbind]. rewrite first_linked by (by apply Forall_app in Hlv as [_ ?]).
  rewrite map_app, existsb_app.
  assert (existsb (fun k' => cmp k' k =? 0) (map (key_at s) B1) = false) as ->.
  { apply not_true_iff_false. rewrite existsb_exists. intros (k' & Hin & Hz). apply in_map_iff in Hin as (x & <- & Hx%list_elem_of_In).
    destruct Har as [H1 _]. eapply Forall_forall in H1; [|exact Hx]. cbn in H1. lia. }
  cbn [orb]. destruct B2 as [|x B2]; [done|]. cbn [hd map existsb].
  destruct (compare_at (key0 := key0) (cmp := cmp) compare_ret s lv (B1 ++ x :: B2) k x H Hk) as (nd & Ed & Ek & _ & En);
    [apply elem_of_app; right; by left|]. rewrite En, Ed. cbn [rbind]. unfold Equal. rewrite Ek.
  assert (forall y, y ∈ x :: B2 -> valid (key_at s y)) as Hv.
  { intros y Hy. eapply (listed_valid (cmp := cmp)); [done|]. apply elem_of_app. by right. }
  rewrite compare_ret by (try apply Hv; try done; by left). cbn [rbind].
  pose proof (order_flip k (key_at s x) Hk (Hv x ltac:(by left))) as Hf.
  assert (existsb (fun k' => cmp k' k =? 0) (map (key_at s) B2) = false) as ->.
  { apply not_true_iff_false. rewrite existsb_exists. intros (k' & Hin & Hz). apply in_map_iff in Hin as (y & <- & Hy%list_elem_of_In).
    destruct H as [_ Hs]. rewrite map_app in Hs. cbn [map] in Hs. apply sorted_app in Hs as (_ & Hs & _). apply sorted_cons in Hs as (_ & Hlt & _).
    rewrite Forall_map in Hlt. eapply Forall_forall in Hlt; [|exact Hy]. unfold less in Hlt.
    destruct Har as [_ H2]. apply Forall_cons in H2 as [H2 _].
    pose proof (order_le_lt k (key_at s x) (key_at s y) Hk (Hv x ltac:(by left)) (Hv y ltac:(by right)) ltac:(lia) Hlt) as Hky.
    pose proof (order_flip k (key_at s y) Hk (Hv y ltac:(by right))). lia. }
  rewrite orb_false_r. f_equal. destruct (Z.eqb_spec (cmp k (key_at s x)) 0), (Z.eqb_spec (cmp (key_at s x) k) 0); lia || done.
Qed.

Lemma SeekToFirst_ok s keys : skip_ok s keys -> exists it, iter_SeekToFirst s = Ret it /\ iter_at s it [] keys.
Proof.
  intros (ns & Hok & <-). pose proof Hok as (lv & used & H & Hlv & _). unfold iter_SeekToFirst.
  rewrite (Next_link s (head_ s) 0 (first_above lv 0 ns)).
  - eexists. split; [done|]. exists [], ns. split_and!; [done|done|done|]. by apply first_linked.
  - apply (shaped_links _ _ _ (proj1 H) []); [done|]. rewrite (shaped_head _ _ _ (proj1 H)). unfold kMaxHeight. lia.
Qed.

(** The last node of a list whose nodes are all linked. *)
Lemma last_on_last lv h B1 x : Forall (fun x => (0 < lv x)%nat) B1 -> last_on lv (h :: B1) 0 x ->
  (B1 = [] /\ x = h) \/ exists B, B1 = B ++ [x].
Proof.
  intros Hlv (P & Q & E & _ & HQ). destruct Q as [|y Q].
  - destruct P as [|z P]; injection E as -> ->; [by left|right; by exists P].
  - exfalso. assert (y ∈ B1) as Hy by exact (later_in_tail h B1 P x [] y Q E).
    apply Forall_cons in HQ as [Hy0 _]. eapply Forall_forall in Hlv; [|exact Hy]. cbn in Hlv. lia.
Qed.

Lemma SeekToLast_ok s keys : skip_ok s keys ->
  exists it, iter_SeekToLast s = Ret it /\
    ((keys = [] /\ iter_at s it [] []) \/ exists before k, keys = before ++ [k] /\ iter_at s it before [k]).
Proof.
  intros (ns & Hok & <-). pose proof Hok as (lv & used & H & Hlv & _). unfold iter_SeekToLast.
  destruct (FindLast_ok (key0 := key0) (valid := valid) (cmp := cmp) s lv ns H) as (x & -> & Hx). cbn [rbind].
  eexists. split; [done|]. destruct (last_on_last lv _ ns x Hlv Hx) as [[-> ->]|[B ->]].
  - left. split; [done|]. rewrite Z.eqb_refl. by exists [], [].
  - right. exists (map (key_at s) B), (key_at s x). rewrite map_app. split; [done|].
    destruct (Z.eqb_spec x (head_ s)) as [->|]; [|by exists B, [x]].
    exfalso. eapply head_notin; [exact H|]. apply elem_of_app. right. by left.
Qed.

Lemma iter_at_node s it before k after : iter_at s it before (k :: after) ->
  exists B1 B2, nodes_ok s (B1 ++ it :: B2) /\ map (key_at s) B1 = before /\ key_at s it = k /\ map (key_at s) B2 = after.
Proof.
  intros (B1 & B2 & Hok & <- & E & ->). destruct B2 as [|x B2]; [done|]. injection E as <- <-. by exists B1, B2.
Qed.

(** A valid iterator has a key, and the node is there. *)
Lemma iter_at_valid s it before k after : iter_at s it before (k :: after) ->
  iter_Valid it = true /\ exists nd, deref s it = Ret nd /\ node_key nd = k.
Proof.
  intros Hit. destruct (iter_at_node _ _ _ _ _ Hit) as (B1 & B2 & (lv & used & H & _) & _ & <- & _).
  destruct (shaped_at s lv (B1 ++ it :: B2) it (proj1 H)) as [Hs Hn]; [right; apply elem_of_app; right; by left|].
  split; [|exact (deref_at key0 s it Hs)]. unfold iter_Valid. by rewrite (proj2 (Z.eqb_neq _ _) Hn).
Qed.

Lemma iter_key_ok s it before after : iter_at s it before after ->
  iter_Valid it = match after with [] => false | _ => true end /\ forall k after', after = k :: after' -> iter_key s it = Ret k.
Proof.
  intros Hit. destruct after as [|k after]; [split; [by destruct Hit as (B1 & [|] & _ & _ & E & ->)|done]|].
  destruct (iter_at_valid _ _ _ _ _ Hit) as (Hv & nd & E & Ek). split; [done|]. intros k' after' [= <- <-].
  unfold iter_key. rewrite Hv, E. cbn. by rewrite Ek.
Qed.

Lemma iter_Next_ok s it before k after : iter_at s it before (k :: after) ->
  exists it', iter_Next s it = Ret it' /\ iter_at s it' (before ++ [k]) after.
Proof.
  intros Hit. destruct (iter_at_valid _ _ _ _ _ Hit) as (Hv & _).
  destruct (iter_at_node _ _ _ _ _ Hit) as (B1 & B2 & Hok & <- & <- & <-).
  pose proof Hok as (lv & used & H & Hlv & _). unfold iter_Next. rewrite Hv. cbn [assert_ rbind].
  apply Forall_app in Hlv as [_ Hlv]. apply Forall_cons in Hlv as [Hx Hlv].
  rewrite (Next_link s it 0 (first_above lv 0 B2)).
  - eexists. split; [done|]. exists (B1 ++ [it]), B2. rewrite <- app_assoc, map_app. split_and!; [done|done|done|by apply first_linked].
  - by apply (shaped_links _ _ _ (proj1 H) (head_ s :: B1)).
Qed.

Lemma iter_Prev_ok s it before k after : iter_at s it before (k :: after) ->
  exists it', iter_Prev compare_ s it = Ret it' /\
    ((before = [] /\ iter_Valid it' = false) \/
     exists before' k', before = before' ++ [k'] /\ iter_at s it' before' (k' :: k :: after)).
Proof.
  intros Hit. destruct (iter_at_valid _ _ _ _ _ Hit) as (Hv & nd & End & Ek).
  destruct (iter_at_node _ _ _ _ _ Hit) as (B1 & B2 & Hok & <- & Ekey & <-).
  pose proof Hok as (lv & used & H & Hlv & _). unfold iter_Prev. rewrite Hv, End. cbn [assert_ rbind]. rewrite Ek.
  assert (valid k) as Hk by (rewrite <- Ekey; eapply (listed_valid (cmp := cmp)); [done|apply elem_of_app; right; by left]).
  assert (around s k B1 (it :: B2)) as Har.
  { pose proof (proj2 H) as Hs. rewrite map_app in Hs. cbn [map] in Hs. rewrite Ekey in Hs.
    apply sorted_app in Hs as (_ & Hs & Hlt). apply sorted_cons in Hs as (_ & Hgt & [_ Hval]). split.
    - apply Forall_forall. intros y Hy. apply Hlt; [by apply list_elem_of_fmap_2|by left].
    - constructor; [rewrite Ekey; by rewrite order_refl|]. apply Forall_forall. intros y Hy. rewrite Forall_map in Hgt, Hval.
      eapply Forall_forall in Hgt, Hval; [|exact Hy..]. unfold less in Hgt. pose proof (order_flip k (key_at s y) Hk Hval). lia. }
  destruct (FindLessThan_ok (key0 := key0) (cmp := cmp) compare_ret s lv B1 (it :: B2) k H Hk Har) as (x & -> & Hx). cbn [rbind].
  eexists. split; [done|]. apply Forall_app in Hlv as [Hlv _].
  destruct (last_on_last lv _ B1 x Hlv Hx) as [[-> ->]|[B ->]]; [left; by rewrite Z.eqb_refl|]. right.
  exists (map (key_at s) B), (key_at s x). rewrite map_app. split; [done|]. rewrite <- app_assoc in *.
  destruct (Z.eqb_spec x (head_ s)) as [->|].
  - exfalso. eapply head_notin; [exact H|]. apply elem_of_app. right. by left.
  - exists B, (x :: it :: B2). split_and!; [done|done| |done]. cbn [map]. by rewrite Ekey.
Qed.

End Spec.

(** ** Theorems *)

Section Theorems.
Context {Key A : Type} {key0 : Key} {valid : Key -> Prop} {cmp : Key -> Key -> Z} {order : KeyOrder valid cmp}.
Context {compare_ : Key -> Key -> res Z} (compare_ret : forall a b, valid a -> valid b -> compare_ a b = Ret (cmp a b)).
Context {alloc : A -> Z -> res (option Z * A)} {ok : A -> list region -> Prop} {fresh : FreshAlloc alloc ok}.
Context {sizeof_Node : Z} (sizeof_ok : 0 < sizeof_Node < 2 ^ 32).
Abbreviation SkipList := (SkipList Key A).
Abbreviation skip_ok := (skip_ok (key0 := key0) (valid := valid) (cmp := cmp) (ok := ok)).
Abbreviation iter_at := (iter_at (key0 := key0) (valid := valid) (cmp := cmp) (ok := ok)).

(** C26. The skip list implements a strictly sorted list of keys.  The constructor
    makes an empty one.  Inserting a key that is not equal to one in the list puts
    it in its place, or leaves the list when the arena throws.  [Contains] tells
    whether an equal key is in the list, [Seek] finds the first key not before a
    target, [SeekToFirst] and [SeekToLast] the first and the last.  None of them
    reads a link or a node that is not there, and every loop ends. *)
Theorem skiplist_refines (a : A) used (s : SkipList) keys k :
  ok a used -> skip_ok s keys -> valid k ->
  (exists r, new_skiplist alloc sizeof_Node key0 a = Ret r /\ match r with Some s0 => skip_ok s0 [] | None => True end) /\
  (Forall (fun k' => cmp k' k <> 0) keys ->
   exists inserted s', LdbSkipList.Insert compare_ alloc sizeof_Node s k = Ret (inserted, s') /\
     skip_ok s' (if inserted then insert_sorted cmp k keys else keys)) /\
  Contains compare_ s k = Ret (existsb (fun k' => cmp k' k =? 0) keys) /\
  (exists it before after, iter_Seek compare_ s k = Ret it /\ keys = before ++ after /\
     Forall (fun k' => cmp k' k < 0) before /\ Forall (fun k' => 0 <= cmp k' k) after /\ iter_at s it before after) /\
  (exists it, iter_SeekToFirst s = Ret it /\ iter_at s it [] keys) /\
  (exists it, iter_SeekToLast s = Ret it /\
     ((keys = [] /\ iter_at s it [] []) \/ exists before k', keys = before ++ [k'] /\ iter_at s it before [k'])).
Proof.
  intros Ha Hs Hk. split_and!.
  - by eapply new_skiplist_ok.
  - intros Hne. by eapply Insert_ok.
  - by eapply Contains_ok.
  - by eapply Seek_ok.
  - by eapply SeekToFirst_ok.
  - by eapply SeekToLast_ok.
Qed.

(** An iterator is valid exactly when it stands at a key, and then gives it;
    [Next] goes to the following key and [Prev] to the preceding one, or they
    leave the iterator invalid at the ends. *)
Theorem skiplist_iterators (s : SkipList) it before k after :
  iter_at s it before (k :: after) ->
  iter_Valid it = true /\ iter_key s it = Ret k /\
  (exists it', iter_Next s it = Ret it' /\ iter_at s it' (before ++ [k]) after /\
     iter_Valid it' = match after with [] => false | _ => true end) /\
  (exists it', iter_Prev compare_ s it = Ret it' /\
     ((before = [] /\ iter_Valid it' = false) \/
      exists before' k', before = before' ++ [k'] /\ iter_at s it' before' (k' :: k :: after))).
Proof.
  intros Hit. destruct (iter_key_ok _ _ _ _ Hit) as [Hv Hkey]. split_and!.
  - done.
  - by eapply Hkey.
  - destruct (iter_Next_ok _ _ _ _ _ Hit) as (it' & E & Hit'). exists it'. split_and!; [done|done|].
    by destruct (iter_key_ok _ _ _ _ Hit').
  - by eapply iter_Prev_ok.
Qed.

End Theorems.
