(* ===== verification/LdbSkipListConc.v ===== *)
(** * LevelDB: readers of the skip list while it is written

    The comments of db/skiplist.h promise that reads need no lock: one thread at a
    time inserts, any number search.  Here one writer and one reader take steps in
    any order.  A step has at most one visible store or load; stores become
    visible in the order they are made, which is what the release stores and
    acquire loads of the links are for.  The reader is shown to be safe and to
    return what the list holds at the moment of its last load. *)
From S2P Require Import Prelude.
From S2P Require Import LdbOrder LdbRandom LdbArena LdbSkipList LdbSkipListSpec.
From Stdlib Require Import ZArith Lia.
From stdpp Require Import base tactics numbers list gmap sorting relations.
#[local] Open Scope Z_scope.

(** ** The steps *)

(** Where the thread that inserts stands: between two insertions, before the two
    stores of level [i] of node [x], or between them. *)
Inductive writer (Key : Type) :=
| W_idle
| W_link (key : Key) (x : Z) (prev : links) (i height : nat)
| W_publish (key : Key) (x : Z) (prev : links) (i height : nat).
Arguments W_idle {Key}.
Arguments W_link {Key} _ _ _ _ _.
Arguments W_publish {Key} _ _ _ _ _.

(** Where a thread in [FindGreaterOrEqual(key, nullptr)] stands: not started, at
    node [x] on [level], or returned with [result], when the list was [seen]. *)
Inductive reader (Key : Type) :=
| R_idle
| R_search (key : Key) (x : Z) (level : nat)
| R_done (key : Key) (result : Z) (seen : list Key).
Arguments R_idle {Key}.
Arguments R_search {Key} _ _ _.
Arguments R_done {Key} _ _ _.

Section Steps.
Context {Key A : Type} (valid : Key -> Prop) (cmp : Key -> Key -> Z).
Context (compare_ : Key -> Key -> res Z) (alloc : A -> Z -> res (option Z * A)) (sizeof_Node : Z) (key0 : Key).
Abbreviation SkipList := (SkipList Key A).

(** The keys on level 0, as a walk along the links finds them. *)
Fixpoint walk (fuel : nat) (s : SkipList) (x : Z) : list Key :=
  match fuel with
  | O => []
  | S fuel =>
      match Next s x 0 with
      | Ret y => if y =? nullptr then [] else key_at key0 s y :: walk fuel s y
      | _ => []
      end
  end.

Definition contents (s : SkipList) : list Key := walk (size (nodes_ s)) s (head_ s).

(** The writer only inserts keys that are not in the list. *)
Inductive step : SkipList * writer Key * reader Key -> SkipList * writer Key * reader Key -> Prop :=
| step_insert s s' key x prev height r :
    valid key -> Forall (fun k => cmp k key <> 0) (contents s) ->
    insert_begin compare_ alloc sizeof_Node s key = Ret (Some (x, prev, height), s') ->
    step (s, W_idle, r) (s', W_link key x prev 0 height, r)
| step_insert_throws s s' key r :
    valid key -> Forall (fun k => cmp k key <> 0) (contents s) ->
    insert_begin compare_ alloc sizeof_Node s key = Ret (None, s') ->
    step (s, W_idle, r) (s', W_idle, r)
| step_link s s' key x prev i height r :
    (i < height)%nat -> prepare_level s x prev i = Ret s' ->
    step (s, W_link key x prev i height, r) (s', W_publish key x prev i height, r)
| step_publish s s' key x prev i height r :
    publish_level s x prev i = Ret s' ->
    step (s, W_publish key x prev i height, r) (s', W_link key x prev (S i) height, r)
| step_insert_end s key x prev height r :
    step (s, W_link key x prev height height, r) (s, W_idle, r)
| step_read_begin s w key :
    valid key -> step (s, w, R_idle) (s, w, R_search key (head_ s) (pred (max_height_ s)))
| step_read s w key x level x' level' prev' :
    ge_round compare_ s key (x, level, None) = Ret (inl (x', level', prev')) ->
    step (s, w, R_search key x level) (s, w, R_search key x' level')
| step_read_end s w key x level result prev' :
    ge_round compare_ s key (x, level, None) = Ret (inr (result, prev')) ->
    step (s, w, R_search key x level) (s, w, R_done key result (contents s))
| step_read_again s w key result seen :
    step (s, w, R_done key result seen) (s, w, R_idle).

End Steps.

(** ** The invariant *)

Section Invariant.
Context {Key A : Type} {key0 : Key} {valid : Key -> Prop} {cmp : Key -> Key -> Z} {order : KeyOrder valid cmp}.
Context {compare_ : Key -> Key -> res Z} (compare_ret : forall a b, valid a -> valid b -> compare_ a b = Ret (cmp a b)).
Context {alloc : A -> Z -> res (option Z * A)} {ok : A -> list region -> Prop} {fresh : FreshAlloc alloc ok}.
Context {sizeof_Node : Z} (sizeof_ok : 0 < sizeof_Node < 2 ^ 32).
Abbreviation SkipList := (SkipList Key A).
Abbreviation key_at := (key_at key0).
Abbreviation listed := (listed (A := A) (key0 := key0) (valid := valid) (cmp := cmp)).
Abbreviation contents := (contents (A := A) key0).

(** The nodes linked on level 0. *)
Definition linked (lv : Z -> nat) (ns : list Z) : list Z := filter (fun x => (0 < lv x)%nat) ns.

Lemma linked_app lv l1 l2 : linked lv (l1 ++ l2) = linked lv l1 ++ linked lv l2.
Proof. apply filter_app. Qed.

Lemma linked_cons lv x l : linked lv (x :: l) = if decide (0 < lv x)%nat then x :: linked lv l else linked lv l.
Proof. exact (filter_cons (fun x => (0 < lv x)%nat) x l). Qed.

Lemma linked_none lv l : Forall (fun y => (lv y <= 0)%nat) l -> linked lv l = [].
Proof. induction 1 as [|y l Hy _ IH]; [done|]. rewrite linked_cons. by destruct (decide _); [lia|]. Qed.

Lemma linked_all lv l : Forall (fun y => (0 < lv y)%nat) l -> linked lv l = l.
Proof. induction 1 as [|y l Hy _ IH]; [done|]. rewrite linked_cons, IH. by destruct (decide _). Qed.

Lemma linked_ext lv lv' l : (forall y, y ∈ l -> ((0 < lv y)%nat <-> (0 < lv' y)%nat)) -> linked lv l = linked lv' l.
Proof.
  induction l as [|y l IH]; intros H; [done|]. rewrite !linked_cons, IH by (intros z Hz; apply H; by right).
  pose proof (H y ltac:(by left)). destruct (decide (0 < lv y)%nat), (decide (0 < lv' y)%nat); tauto.
Qed.

(** The walk along level 0 finds the linked nodes. *)
Lemma walk_linked s lv ns : listed s lv ns -> forall fuel P x Q, head_ s :: ns = P ++ x :: Q -> (0 < lv x)%nat ->
  (length Q <= fuel)%nat -> walk key0 fuel s x = map (key_at s) (linked lv Q).
Proof.
  clear sizeof_ok.
  intros H fuel. induction fuel as [|fuel IH]; intros P x Q E Hx Hf; [by destruct Q; [|cbn in Hf; lia]|].
  cbn [walk]. rewrite (Next_link _ _ _ _ (shaped_links _ _ _ (proj1 H) P x Q 0%nat E Hx)).
  destruct (first_above_cases lv 0 Q) as [(y & Q1 & Q2 & -> & H1 & Hy)|Hnone].
  - rewrite first_above_found by done.
    assert (y <> nullptr) as Hyn.
    { eapply (shaped_at s lv ns); [apply H|]. rewrite E, !elem_of_app, !elem_of_cons, elem_of_app, elem_of_cons. tauto. }
    rewrite (proj2 (Z.eqb_neq _ _) Hyn), linked_app, linked_cons, (linked_none lv Q1) by done. destruct (decide _); [|lia].
    cbn [app map]. f_equal. apply (IH (P ++ x :: Q1)); [by rewrite E, <- app_assoc|done|]. rewrite length_app in Hf. cbn in Hf. lia.
  - rewrite <- (app_nil_r Q) at 1. rewrite first_above_none by done. by rewrite linked_none.
Qed.

Lemma contents_linked s lv ns : listed s lv ns -> contents s = map (key_at s) (linked lv ns).
Proof.
  clear sizeof_ok.
  intros H. pose proof (shaped_size _ _ _ (proj1 H)). apply (walk_linked s lv ns H _ []); [done| |lia].
  rewrite (shaped_head _ _ _ (proj1 H)). unfold kMaxHeight. lia.
Qed.

Lemma linked_sorted s lv ns : listed s lv ns -> sorted valid cmp (map (key_at s) (linked lv ns)).
Proof.
  intros [_ Hs]. induction ns as [|x ns IH]; [done|]. rewrite linked_cons. cbn [map] in Hs.
  apply sorted_cons in Hs as (Hx & Hlt & Hs). destruct (decide _); [|by apply IH]. cbn [map]. apply sorted_cons.
  split_and!; [done| |by apply IH]. rewrite Forall_map in *. apply Forall_forall. intros y Hy.
  apply list_elem_of_filter in Hy as [_ Hy]. by eapply Forall_forall in Hlt.
Qed.

(** Where the writer is: the node being linked is in its place, linked on the
    levels below [i]. *)
Definition linking (s : SkipList) (lv : Z -> nat) (ns : list Z) (key : Key) (x : Z) (prev : links) (i height : nat)
    (B1 B2 : list Z) : Prop :=
  ns = B1 ++ x :: B2 /\ Forall (fun y => (0 < lv y)%nat) (B1 ++ B2) /\ lv x = i /\ (i <= height)%nat /\
  (1 <= height <= max_height_ s)%nat /\ height_at s x = height /\ key_at s x = key /\
  prev_ready lv (head_ s :: B1) prev i height.

Definition writer_ok (s : SkipList) (lv : Z -> nat) (ns : list Z) (w : writer Key) : Prop :=
  match w with
  | W_idle => Forall (fun y => (0 < lv y)%nat) ns
  | W_link key x prev i height => exists B1 B2, linking s lv ns key x prev i height B1 B2
  | W_publish key x prev i height => exists B1 B2, linking s lv ns key x prev i height B1 B2 /\
      (i < height)%nat /\ link_at s x i = Some (first_above lv i B2)
  end.

(** The first key not before [k], or none. *)
Definition seek_result (k : Key) (keys : list Key) : option Key := List.find (fun k' => 0 <=? cmp k' k) keys.

Definition answers (s : SkipList) (ns : list Z) (k : Key) (result : Z) (seen : list Key) : Prop :=
  match seek_result k seen with
  | None => result = nullptr
  | Some k' => result ∈ ns /\ key_at s result = k'
  end.

Definition reader_ok (s : SkipList) (lv : Z -> nat) (ns : list Z) (r : reader Key) : Prop :=
  match r with
  | R_idle => True
  | R_search k x level => valid k /\ x ∈ head_ s :: ns /\ (level < lv x)%nat /\ (x = head_ s \/ cmp (key_at s x) k < 0)
  | R_done k result seen => answers s ns k result seen /\ sorted valid cmp seen
  end.

Definition inv (st : SkipList * writer Key * reader Key) : Prop :=
  let '(s, w, r) := st in
  exists lv ns used, listed s lv ns /\ owned (ok := ok) (arena_ s) (nodes_ s) used /\ is_seed (rnd_ s) /\
    writer_ok s lv ns w /\ reader_ok s lv ns r.

(** *** The reader's steps *)

Lemma seek_result_before k l1 l2 : Forall (fun k' => cmp k' k < 0) l1 -> seek_result k (l1 ++ l2) = seek_result k l2.
Proof. induction 1 as [|k' l1 Hk' _ IH]; [done|]. cbn. by destruct (Z.leb_spec 0 (cmp k' k)); [lia|]. Qed.

(** The linked nodes after a node before [k] decide. *)
Lemma seek_after s lv ns P x Q k :
  listed s lv ns -> valid k -> head_ s :: ns = P ++ x :: Q -> x = head_ s \/ cmp (key_at s x) k < 0 ->
  seek_result k (contents s) = seek_result k (map (key_at s) (linked lv Q)).
Proof.
  intros H Hk E Hx. rewrite (contents_linked s lv ns H). destruct P as [|h P]; injection E as <- ->; [done|].
  destruct Hx as [->|Hx]; [exfalso; eapply head_not_in; [apply H|]; apply elem_of_app; right; by left|].
  rewrite (cons_middle x P Q), app_assoc, linked_app, map_app. apply seek_result_before, Forall_map, Forall_forall.
  intros y Hy. apply list_elem_of_filter in Hy as [_ Hy].
  apply elem_of_app in Hy as [Hy|Hy%list_elem_of_singleton]; [|by subst].
  pose proof (proj2 H) as Hs. rewrite map_app in Hs. apply sorted_app in Hs as (_ & _ & Hlt).
  apply (order_lt_trans (key_at s y) (key_at s x) k); [| |done| |done].
  - eapply (listed_valid (cmp := cmp)); [done|]. apply elem_of_app. by left.
  - eapply (listed_valid (cmp := cmp)); [done|]. apply elem_of_app. right. by left.
  - apply Hlt; [by apply list_elem_of_fmap_2|by left].
Qed.

(** A round of the search is defined; it goes on, or ends with the first key of
    the list that is not before the target. *)
Lemma reader_round s lv ns k P x Q level :
  listed s lv ns -> reader_ok s lv ns (R_search k x level) -> head_ s :: ns = P ++ x :: Q ->
  exists r, ge_round compare_ s k (x, level, None) = Ret r /\
    match r with
    | inl (x', level', _) => reader_ok s lv ns (R_search k x' level') /\
        ((x' = x /\ level = S level') \/ (x' ∈ Q /\ level' = level))
    | inr (result, _) => answers s ns k result (contents s)
    end.
Proof.
  intros H (Hk & Hx & Hl & Hbefore) E.
  pose proof (shaped_links _ _ _ (proj1 H) P x Q level E Hl) as Hlink. set (next := first_above lv level Q) in *.
  assert (next = nullptr \/ next ∈ ns) as Hnext.
  { destruct (first_above_in lv level Q) as [?|Hin]; [by left|right]. apply list_elem_of_split in Hin as (Q1 & Q2 & EQ).
    apply (later_in_tail (head_ s) ns P x Q1 next Q2). by rewrite E, EQ. }
  assert (KeyIsAfterNode compare_ s k next = Ret (negb (next =? nullptr) && (cmp (key_at s next) k <? 0))) as Hafter.
  { unfold KeyIsAfterNode. destruct Hnext as [->|Hin]; [done|].
    destruct (compare_at (key0 := key0) (cmp := cmp) compare_ret s lv ns k next H Hk Hin) as (nd & Ed & Ek & Ec & En).
    rewrite En, Ed. cbn [rbind]. rewrite Ec. done. }
  unfold ge_round. rewrite (Next_link _ _ _ _ Hlink). cbn [rbind]. rewrite Hafter. cbn [rbind option_map].
  destruct (negb (next =? nullptr) && (cmp (key_at s next) k <? 0)) eqn:Eafter.
  - eexists. split; [done|]. cbn [reader_ok]. apply andb_prop in Eafter as [Hn Hlt%Z.ltb_lt].
    destruct Hnext as [Hnull|Hin]; [by rewrite Hnull in Hn|]. split.
    2: { right. split; [|done]. destruct (first_above_in lv level Q) as [Hnull|?]; [by subst next; rewrite Hnull in Hn|done]. }
    split_and!; [done|by right| |by right]. subst next. destruct (first_above_cases lv level Q) as [(y & Q1 & Q2 & -> & H1 & Hy)|Hnone].
    + by rewrite first_above_found.
    + rewrite <- (app_nil_r Q), first_above_none in Hn by done. done.
  - destruct level as [|level]; eexists; (split; [done|]); cbn [reader_ok].
    + unfold answers. rewrite (seek_after s lv ns P x Q k H Hk E Hbefore).
      destruct (first_above_cases lv 0 Q) as [(y & Q1 & Q2 & -> & H1 & Hy)|Hnone].
      * assert (next = y) as Ey by (subst next; by rewrite first_above_found). rewrite Ey in *.
        rewrite linked_app, linked_cons, (linked_none lv Q1) by done. destruct (decide _) as [_|]; [|lia]. cbn [app map].
        assert (y ∈ ns) as Hyn by exact (later_in_tail _ _ _ _ _ _ _ E).
        destruct (shaped_at s lv ns y (proj1 H) ltac:(by right)) as [Hs Hn].
        rewrite (proj2 (Z.eqb_neq _ _) Hn) in Eafter. cbn [negb andb] in Eafter. apply Z.ltb_ge in Eafter.
        unfold seek_result. cbn [List.find]. by rewrite (proj2 (Z.leb_le _ _) Eafter).
      * rewrite linked_none by done. cbn. subst next. rewrite <- (app_nil_r Q). by rewrite first_above_none.
    + split; [split_and!; [done|done|lia|done]|by left].
Qed.

(** *** The writer's steps *)

(** What the reader knows stays true when nodes are added and links change. *)
Lemma reader_kept (s s' : SkipList) lv lv' ns ns' r :
  reader_ok s lv ns r -> head_ s' = head_ s -> ns ⊆ ns' -> (forall y, y ∈ head_ s :: ns -> (lv y <= lv' y)%nat) ->
  (forall y, y ∈ ns -> key_at s' y = key_at s y) -> reader_ok s' lv' ns' r.
Proof.
  intros Hr Eh Hns Hlv Hkey. destruct r as [|k x level|k result seen]; cbn [reader_ok] in *; [done|..].
  - destruct Hr as (Hk & Hx & Hl & Hb). pose proof (Hlv x Hx). rewrite Eh.
    apply elem_of_cons in Hx as [->|Hx]; (split_and!; [done| |lia|]); [by left|by left|by right; apply Hns|].
    destruct Hb as [->|Hb]; [by left|right]. by rewrite Hkey.
  - destruct Hr as [Ha Hs]. split; [|done]. unfold answers in *. destruct (seek_result k seen); [|done].
    destruct Ha as (Hin & <-). split; [by apply Hns|by apply Hkey].
Qed.

Lemma linked_contents s lv ns : listed s lv ns -> Forall (fun y => (0 < lv y)%nat) ns -> contents s = map (key_at s) ns.
Proof. intros H Hlv. by rewrite (contents_linked s lv ns H), linked_all. Qed.

(** The start of an insertion adds a node that nothing leads to. *)
Lemma begin_inv s r key :
  inv (s, W_idle, r) -> valid key -> Forall (fun k => cmp k key <> 0) (contents s) ->
  exists node s', insert_begin compare_ alloc sizeof_Node s key = Ret (node, s') /\ contents s' = contents s /\
    inv (s', match node with Some (x, prev, height) => W_link key x prev 0 height | None => W_idle end, r).
Proof.
  intros (lv & ns & used & H & Hown & Hseed & Hlv & Hr) Hk Hne. cbn [writer_ok] in Hlv.
  rewrite (linked_contents s lv ns) in * by done.
  destruct (split_around (key0 := key0) (cmp := cmp) s lv ns key H Hk) as (B1 & B2 & -> & Har & Eins).
  pose proof (insert_sorted_sorted key _ (proj2 H) Hk Hne) as Hsort. rewrite Eins in Hsort.
  rewrite map_app, Forall_app, !Forall_map in Hne.
  destruct (insert_begin_ok (key0 := key0) (valid := valid) (cmp := cmp) (ok := ok) compare_ret sizeof_ok s lv B1 B2 key used
    H Hown Hseed Hk Har (proj2 Hne) Hsort) as ([node s'] & E & Hkeys & Eh & Hseed' & [used' Hown'] & Hnode).
  exists node, s'. split; [done|].
  assert (map (key_at s') (B1 ++ B2) = map (key_at s) (B1 ++ B2)) as Hmap.
  { apply map_ext_in. intros y Hy%list_elem_of_In. by apply Hkeys. }
  destruct node as [[[x prev] height]|].
  - destruct Hnode as (Hx & H' & Hkx & Hh & Hhx & Hprev).
    assert (forall y, y ∈ head_ s :: B1 ++ B2 -> with_new lv x y = lv y) as Hsame.
    { intros y Hy. apply with_new_other. by intros ->. }
    assert (Forall (fun y => (0 < with_new lv x y)%nat) (B1 ++ B2)) as Hlv'.
    { apply Forall_forall. intros y Hy. rewrite Hsame by (by right). by eapply Forall_forall in Hlv. }
    assert (with_new lv x x = 0%nat) as Hxx by (unfold with_new; by rewrite Z.eqb_refl).
    split.
    + rewrite (contents_linked s' _ _ H'), linked_app, linked_cons, Hxx. destruct (decide _) as [|_]; [lia|].
      by rewrite <- linked_app, linked_all.
    + exists (with_new lv x), (B1 ++ x :: B2), used'. split_and!; [done|done|done| |].
      * exists B1, B2. unfold linking. rewrite Eh. split_and!; done || lia.
      * eapply reader_kept; [exact Hr|done| | |by intros y Hy; apply Hkeys].
        -- intros y. rewrite !elem_of_app, elem_of_cons. tauto.
        -- intros y Hy. by rewrite Hsame.
  - split; [by rewrite (linked_contents s' lv (B1 ++ B2))|].
    exists lv, (B1 ++ B2), used'. split_and!; [done|done|done|done|].
    by eapply reader_kept; [exact Hr|..].
Qed.

(** The state after a store that keeps the nodes and their keys. *)
Lemma same_inv s s' lv lv' ns used w r :
  same_nodes (key0 := key0) s s' -> listed s' lv' ns -> owned (ok := ok) (arena_ s) (nodes_ s) used -> is_seed (rnd_ s) ->
  writer_ok s' lv' ns w -> reader_ok s lv ns r -> (forall y, (lv y <= lv' y)%nat) -> inv (s', w, r).
Proof.
  intros S H Hown Hseed Hw Hr Hlv. destruct (same_rest _ _ S) as (_ & Eh & _ & Er). exists lv', ns, used.
  split_and!; [done|by apply (same_owned (key0 := key0) s)|by rewrite Er|done|].
  eapply reader_kept; [exact Hr|done|done|by intros y _|by intros y _; apply S].
Qed.

Lemma link_inv s key x prev i height r :
  inv (s, W_link key x prev i height, r) -> (i < height)%nat ->
  exists s', prepare_level s x prev i = Ret s' /\ contents s' = contents s /\ inv (s', W_publish key x prev i height, r).
Proof.
  intros (lv & ns & used & H & Hown & Hseed & (B1 & B2 & -> & Hlv & Hx & Hi & Hh & Hhx & Hkx & Hprev) & Hr) Hlt.
  destruct (prepare_level_ok (key0 := key0) (valid := valid) (cmp := cmp) s lv B1 x B2 prev i H Hx) as (s' & E & R & H');
    [lia|apply Hprev; lia|]. exists s'. split; [done|].
  pose proof (relinked_same _ _ _ _ _ R) as S. destruct (same_rest _ _ S) as (_ & Eh & Em & _). split.
  - rewrite (contents_linked _ _ _ H), (contents_linked _ _ _ H'). by rewrite (same_keys s s').
  - eapply same_inv; [done|done|done|done| |done|done]. exists B1, B2. unfold linking.
    rewrite Em, Eh, (same_height _ _ S), (same_key _ _ S), (relinked_link _ _ _ _ _ R), Z.eqb_refl, Nat.eqb_refl.
    split_and!; done || lia.
Qed.

Lemma publish_inv s key x prev i height r :
  inv (s, W_publish key x prev i height, r) ->
  exists s', publish_level s x prev i = Ret s' /\
    contents s' = (if (i =? 0)%nat then insert_sorted cmp key (contents s) else contents s) /\
    inv (s', W_link key x prev (S i) height, r).
Proof.
  intros (lv & ns & used & H & Hown & Hseed & (B1 & B2 & (-> & Hlv & Hx & Hi & Hh & Hhx & Hkx & Hprev) & Hlt & Hl) & Hr).
  destruct (publish_level_ok (key0 := key0) (valid := valid) (cmp := cmp) s lv B1 x B2 prev i H Hx) as (s' & E & S & H');
    [lia|done|apply Hprev; lia|]. exists s'. split; [done|]. destruct (same_rest _ _ S) as (_ & Eh & Em & _).
  assert (x ∉ head_ s :: B1 ++ B2) as Hxn.
  { pose proof (shaped_nodup _ _ _ (proj1 H)) as Hnd. rewrite <- Permutation_middle, Permutation_swap in Hnd.
    by apply NoDup_cons in Hnd as [? _]. }
  apply not_elem_of_cons in Hxn as [Hxh Hxn].
  assert (Forall (fun y => (0 < level_up lv x y)%nat) (B1 ++ B2)) as Hlv'.
  { apply Forall_forall. intros y Hy. rewrite level_up_other by (by intros ->). by eapply Forall_forall in Hlv. }
  split.
  - rewrite (contents_linked _ _ _ H), (contents_linked _ _ _ H'), (same_keys s s') by done.
    rewrite !linked_app, !linked_cons, level_up_same, Hx. destruct (decide (0 < _)%nat) as [_|]; [|lia].
    apply Forall_app in Hlv as [L1 L2]. apply Forall_app in Hlv' as [L1' L2']. rewrite !linked_all by done.
    destruct (Nat.eqb_spec i 0) as [->|Hi0]; destruct (decide _); try lia; [|done].
    rewrite !map_app. cbn [map]. rewrite Hkx. symmetry. pose proof (proj2 H) as Hs. rewrite map_app in Hs. cbn [map] in Hs.
    rewrite Hkx in Hs. by apply (insert_sorted_between (valid := valid)).
  - eapply same_inv; [done|done|done|done| |done|].
    + exists B1, B2. unfold linking. rewrite Em, Eh, (same_height _ _ S), (same_key _ _ S), level_up_same.
      split_and!; [done|done|lia|lia|lia|lia|done|done|]. intros j Hj. destruct (Hprev j ltac:(lia)) as (p & Ep & Hp).
      exists p. split; [done|]. apply last_on_level_up; [|done]. apply not_elem_of_cons. split; [done|].
      intros Hin. apply Hxn, elem_of_app. by left.
    + intros y. destruct (Z.eq_dec y x) as [->|Hy]; [rewrite level_up_same; lia|by rewrite level_up_other].
Qed.

(** *** Runs *)

Abbreviation step := (step valid cmp compare_ alloc sizeof_Node key0).

Lemma search_inv s w k x level :
  inv (s, w, R_search k x level) ->
  exists r, ge_round compare_ s k (x, level, None) = Ret r /\
    match r with
    | inl (x', level', _) => inv (s, w, R_search k x' level')
    | inr (result, _) => inv (s, w, R_done k result (contents s))
    end.
Proof.
  intros (lv & ns & used & H & Hown & Hseed & Hw & Hr). pose proof Hr as (_ & Hx & _).
  apply list_elem_of_split in Hx as (P & Q & E).
  destruct (reader_round s lv ns k P x Q level H Hr E) as (r & -> & Hr'). exists r. split; [done|].
  destruct r as [[[x' level'] prev']|[result prev']].
  - destruct Hr' as [Hr' _]. by exists lv, ns, used.
  - exists lv, ns, used. split_and!; [done..|]. cbn [reader_ok]. split; [done|].
    rewrite (contents_linked s lv ns H). by apply linked_sorted.
Qed.

(** What a step does to the list: nothing, but for the store that links the new
    node on level 0. *)
Definition evolves (st st' : SkipList * writer Key * reader Key) : Prop :=
  let '(s, w, r) := st in
  let '(s', _, _) := st' in
  contents s' = contents s \/
  exists key x prev height, w = W_publish key x prev 0 height /\ contents s' = insert_sorted cmp key (contents s).

Lemma step_inv st st' : step st st' -> inv st -> inv st' /\ evolves st st'.
Proof.
  intros Hst Hinv. destruct Hst as [s s' key x prev height r Hk Hne E|s s' key r Hk Hne E|s s' key x prev i height r Hi E
    |s s' key x prev i height r E|s key x prev height r|s w key Hk|s w key x level x' level' prev' E
    |s w key x level result prev' E|s w key result seen]; cbn [evolves].
  - destruct (begin_inv s r key Hinv Hk Hne) as (node & s1 & E1 & Ec & Hinv'). rewrite E in E1. injection E1 as <- <-. by split; [|left].
  - destruct (begin_inv s r key Hinv Hk Hne) as (node & s1 & E1 & Ec & Hinv'). rewrite E in E1. injection E1 as <- <-. by split; [|left].
  - destruct (link_inv _ _ _ _ _ _ _ Hinv Hi) as (s1 & E1 & Ec & Hinv'). rewrite E in E1. injection E1 as <-. by split; [|left].
  - destruct (publish_inv _ _ _ _ _ _ _ Hinv) as (s1 & E1 & Ec & Hinv'). rewrite E in E1. injection E1 as <-. split; [done|].
    destruct (Nat.eqb_spec i 0) as [->|]; [right; by exists key, x, prev, height|by left].
  - split; [|by left]. destruct Hinv as (lv & ns & used & H & Hown & Hseed & (B1 & B2 & -> & Hlv & Hx & Hh) & Hr).
    exists lv, (B1 ++ x :: B2), used. split_and!; [done..| |done]. cbn [writer_ok].
    rewrite <- Permutation_middle. constructor; [lia|done].
  - split; [|by left]. destruct Hinv as (lv & ns & used & H & Hown & Hseed & Hw & _). exists lv, ns, used. split_and!; [done..|].
    cbn [reader_ok]. pose proof (shaped_max _ _ _ (proj1 H)). rewrite (shaped_head _ _ _ (proj1 H)).
    split_and!; [done|by left|lia|by left].
  - split; [|by left]. destruct (search_inv _ _ _ _ _ Hinv) as (r & E1 & Hinv'). rewrite E in E1. by injection E1 as <-.
  - split; [|by left]. destruct (search_inv _ _ _ _ _ Hinv) as (r & E1 & Hinv'). rewrite E in E1. by injection E1 as <-.
  - split; [|by left]. destruct Hinv as (lv & ns & used & H & Hown & Hseed & Hw & _). by exists lv, ns, used.
Qed.

Lemma steps_inv st st' : rtc step st st' -> inv st -> inv st'.
Proof. induction 1 as [|st1 st2 st3 H _ IH]; [done|]. intros Hi. apply IH. by apply (step_inv st1). Qed.

Lemma skip_ok_inv s keys : skip_ok (key0 := key0) (valid := valid) (cmp := cmp) (ok := ok) s keys ->
  inv (s, W_idle, R_idle) /\ contents s = keys.
Proof.
  intros (ns & (lv & used & H & Hlv & Hown & Hseed) & <-). split; [by exists lv, ns, used|by apply (linked_contents s lv)].
Qed.

Lemma inv_skip_ok s r : inv (s, W_idle, r) -> skip_ok (key0 := key0) (valid := valid) (cmp := cmp) (ok := ok) s (contents s).
Proof.
  intros (lv & ns & used & H & Hown & Hseed & Hw & _). exists ns. split; [by exists lv, used|].
  symmetry. by apply (linked_contents s lv).
Qed.

(** Alone, the reader ends its search. *)
Lemma reader_finishes s w k x level : inv (s, w, R_search k x level) ->
  exists result, rtc step (s, w, R_search k x level) (s, w, R_done k result (contents s)).
Proof.
  intros (lv & ns & used & H & _ & _ & _ & Hr). pose proof Hr as (_ & Hx & _).
  apply list_elem_of_split in Hx as (P & Q & E). remember (length Q + level)%nat as n eqn:En.
  revert P x Q level Hr E En. induction (lt_wf n) as [n _ IH]; intros P x Q level Hr E En.
  destruct (reader_round s lv ns k P x Q level H Hr E) as ([[[x' level'] prev']|[result prev']] & Er & Hr').
  - destruct Hr' as [Hr' Hm]. assert (exists P' Q', head_ s :: ns = P' ++ x' :: Q' /\ (length Q' + level' < n)%nat) as (P' & Q' & E' & Hlt).
    { destruct Hm as [[-> ->]|[Hin ->]]; [exists P, Q; split; [done|lia]|].
      apply list_elem_of_split in Hin as (Q1 & Q2 & ->). exists (P ++ x :: Q1), Q2. split; [by rewrite E, <- app_assoc|].
      rewrite length_app in En. cbn in En. lia. }
    destruct (IH _ Hlt P' x' Q' level' Hr' E' eq_refl) as (result & Hrun). exists result.
    eapply rtc_l; [by eapply step_read|done].
  - exists result. apply rtc_once. by eapply step_read_end.
Qed.

(** Alone, the writer ends its insertion. *)
Lemma writer_finishes s key x prev i height r : inv (s, W_link key x prev i height, r) ->
  exists s', rtc step (s, W_link key x prev i height, r) (s', W_idle, r).
Proof.
  intros Hinv. assert (i <= height)%nat as Hi by (destruct Hinv as (? & ? & ? & _ & _ & _ & (? & ? & ? & ? & ? & ? & _) & _); done).
  remember (height - i)%nat as n eqn:En. revert s i Hinv Hi En. induction n as [|n IH]; intros s i Hinv Hi En.
  - assert (i = height) as -> by lia. exists s. apply rtc_once, step_insert_end.
  - destruct (link_inv _ _ _ _ _ _ _ Hinv ltac:(lia)) as (s1 & E1 & _ & Hinv1).
    destruct (publish_inv _ _ _ _ _ _ _ Hinv1) as (s2 & E2 & _ & Hinv2).
    destruct (IH s2 (S i) Hinv2 ltac:(lia) ltac:(lia)) as (s' & Hrun). exists s'.
    eapply rtc_l; [apply step_link; [lia|done]|]. eapply rtc_l; [by apply step_publish|done].
Qed.

(** A thread can always go on. *)
Definition can_write (s : SkipList) (w : writer Key) (r : reader Key) : Prop :=
  match w with W_idle => True | _ => exists s', rtc step (s, w, r) (s', W_idle, r) end.

Definition can_read (s : SkipList) (w : writer Key) (r : reader Key) : Prop :=
  match r with
  | R_search k _ _ => exists result, rtc step (s, w, r) (s, w, R_done k result (contents s))
  | _ => True
  end.

Lemma inv_progress s w r : inv (s, w, r) -> can_write s w r /\ can_read s w r.
Proof.
  intros Hinv. split.
  - destruct w as [|key x prev i height|key x prev i height]; cbn [can_write]; [done|by apply writer_finishes|].
    destruct (publish_inv _ _ _ _ _ _ _ Hinv) as (s1 & E1 & _ & Hinv1).
    destruct (writer_finishes _ _ _ _ _ _ _ Hinv1) as (s' & Hrun). exists s'. eapply rtc_l; [by apply step_publish|done].
  - destruct r; cbn [can_read]; [done| |done]. by apply reader_finishes.
Qed.

(** What a search that has returned found. *)
Definition found (s : SkipList) (r : reader Key) : Prop :=
  match r with
  | R_done k result seen =>
      sorted valid cmp seen /\
      match seek_result k seen with
      | None => result = nullptr
      | Some k' => result <> nullptr /\ exists nd, deref s result = Ret nd /\ node_key nd = k'
      end
  | _ => True
  end.

Lemma inv_found s w r : inv (s, w, r) -> found s r.
Proof.
  intros (lv & ns & used & H & _ & _ & _ & Hr). destruct r as [| |k result seen]; cbn [found]; [done|done|].
  destruct Hr as [Ha Hs]. split; [done|]. unfold answers in Ha. destruct (seek_result k seen) as [k'|]; [|done].
  destruct Ha as [Hin <-]. destruct (shaped_at s lv ns result (proj1 H) ltac:(by right)) as [Hsome Hn]. split; [done|].
  by apply deref_at.
Qed.

Lemma inv_sorted s w r : inv (s, w, r) -> sorted valid cmp (contents s).
Proof. intros (lv & ns & used & H & _). rewrite (contents_linked s lv ns H). by apply linked_sorted. Qed.

End Invariant.

(** ** Theorems *)

Section Theorems.
Context {Key A : Type} {key0 : Key} {valid : Key -> Prop} {cmp : Key -> Key -> Z} {order : KeyOrder valid cmp}.
Context {compare_ : Key -> Key -> res Z} (compare_ret : forall a b, valid a -> valid b -> compare_ a b = Ret (cmp a b)).
Context {alloc : A -> Z -> res (option Z * A)} {ok : A -> list region -> Prop} {fresh : FreshAlloc alloc ok}.
Context {sizeof_Node : Z} (sizeof_ok : 0 < sizeof_Node < 2 ^ 32).
Abbreviation skip_ok := (skip_ok (key0 := key0) (valid := valid) (cmp := cmp) (ok := ok)).
Abbreviation contents := (contents (A := A) key0).
Abbreviation step := (step valid cmp compare_ alloc sizeof_Node key0).
Abbreviation found := (found (A := A) (valid := valid) (cmp := cmp)).
Abbreviation evolves := (evolves (A := A) (key0 := key0) (cmp := cmp)).
Abbreviation can_write := (can_write (key0 := key0) (valid := valid) (cmp := cmp) (compare_ := compare_) (alloc := alloc) (sizeof_Node := sizeof_Node)).
Abbreviation can_read := (can_read (key0 := key0) (valid := valid) (cmp := cmp) (compare_ := compare_) (alloc := alloc) (sizeof_Node := sizeof_Node)).

(** C27. A list that one thread inserts into while another searches it, in any
    interleaving: what the links spell is a strictly sorted list at every moment; a
    search that has returned found the first key not before its target among the
    keys that were in the list at its last load, or the end of the list; either
    thread, left alone, finishes without a bad read; and a step changes the list
    only when it links the new node on level 0, which puts its key in its place. *)
Theorem concurrent_readers (s s' : SkipList Key A) keys w r :
  skip_ok s keys -> rtc step (s, W_idle, R_idle) (s', w, r) ->
  sorted valid cmp (contents s') /\ found s' r /\ can_write s' w r /\ can_read s' w r /\
  (w = W_idle -> skip_ok s' (contents s')) /\
  (forall st, step (s', w, r) st -> evolves (s', w, r) st).
Proof.
  intros [Hinv _]%(skip_ok_inv (cmp := cmp)) Hrun.
  pose proof (steps_inv compare_ret sizeof_ok _ _ Hrun Hinv) as Hi.
  destruct (inv_progress (alloc := alloc) (sizeof_Node := sizeof_Node) compare_ret _ _ _ Hi). split_and!.
  - by eapply inv_sorted.
  - by eapply inv_found.
  - done.
  - done.
  - intros ->. by eapply inv_skip_ok.
  - intros st Hst. by apply (step_inv compare_ret sizeof_ok _ _ Hst Hi).
Qed.

End Theorems.
