(* ===== verification/LdbMemTable.v ===== *)
(** * LevelDB: the memtable (db/memtable.h, db/memtable.cc)

    A skip list of encoded entries over an arena.  A [const char*] to an entry is
    modelled by the bytes from there to the end of its buffer: an entry is written
    before it is inserted and never changes, and a read past its end is undefined
    behaviour.  The specification is a sorted list of entries; a lookup at a
    snapshot finds the newest entry of the key that the snapshot sees. *)
From S2P Require Import Prelude WireSpec.
From S2P Require Import LdbCoding LdbStatus LdbOrder LdbKeys LdbArena LdbSkipList LdbSkipListSpec.
From Stdlib Require Import ZArith Lia.
From stdpp Require Import base tactics numbers list gmap sorting.
#[local] Open Scope Z_scope.

(** ** Definitions *)

(** [GetVarint32Ptr(p, p + 5, &len)] where [p] points into a buffer. *)
Definition varint_at (p : list Z) : res (Z * list Z) :=
  match GetVarint32Ptr (firstn 5 p) with
  | Some (v, q) => Ret (v, skipn (length (firstn 5 p) - length q) p)
  | None => UB
  end.

(** [GetLengthPrefixedSlice(data)] of memtable.cc: the slice, and where it ends. *)
Definition prefixed_at (data : list Z) : res (list Z * list Z) :=
  let! (len, p) := varint_at data in
  if len <=? zlen p then Ret (firstn (Z.to_nat len) p, skipn (Z.to_nat len) p) else UB.

(** [EncodeKey], which clears [*scratch]. *)
Definition EncodeKey (target : list Z) : list Z := PutVarint32 [] (u32 (zlen target)) ++ target.

Section MemTable.
(** The user's comparator, [operator new[]] and [sizeof(Node)]. *)
Context (user : Comparator) (new_array : list region -> Z -> option Z) (sizeof_Node : Z).

Abbreviation Table := (SkipList (list Z) Arena).

Record MemTable := mk_memtable { refs_ : Z; table_ : Table }.

(** [KeyComparator::operator()] *)
Definition key_compare (aptr bptr : list Z) : res Z :=
  let! (a, _) := prefixed_at aptr in
  let! (b, _) := prefixed_at bptr in
  internal_compare user a b.

(** The constructor; [None] when it throws. *)
Definition new_memtable : res (option MemTable) :=
  let! table := new_skiplist (AllocateAligned new_array) sizeof_Node [] new_arena in
  Ret (option_map (mk_memtable 0) table).

Definition Ref (m : MemTable) : MemTable := mk_memtable (refs_ m + 1) (table_ m).

(** [None] once the last reference is gone and the table deleted. *)
Definition Unref (m : MemTable) : res (option MemTable) :=
  let m := mk_memtable (refs_ m - 1) (table_ m) in
  let! _ := assert_ (refs_ m >=? 0) in
  if refs_ m <=? 0 then
    let! _ := assert_ (refs_ m =? 0) in
    Ret None
  else Ret (Some m).

Definition ApproximateMemoryUsage (m : MemTable) : Z := MemoryUsage (arena_ (table_ m)).

(** *** The iterator, by the node of its [iter_] *)

Definition mem_Valid (it : Z) : bool := iter_Valid it.
Definition mem_Seek (m : MemTable) (k : list Z) : res Z := iter_Seek key_compare (table_ m) (EncodeKey k).
Definition mem_SeekToFirst (m : MemTable) : res Z := iter_SeekToFirst (table_ m).
Definition mem_SeekToLast (m : MemTable) : res Z := iter_SeekToLast (table_ m).
Definition mem_Next (m : MemTable) (it : Z) : res Z := iter_Next (table_ m) it.
Definition mem_Prev (m : MemTable) (it : Z) : res Z := iter_Prev key_compare (table_ m) it.

Definition mem_key (m : MemTable) (it : Z) : res (list Z) :=
  let! e := iter_key (table_ m) it in
  let! (k, _) := prefixed_at e in
  Ret k.

Definition mem_value (m : MemTable) (it : Z) : res (list Z) :=
  let! e := iter_key (table_ m) it in
  let! (_, p) := prefixed_at e in
  let! (v, _) := prefixed_at p in
  Ret v.

(** *** Add and Get *)

(** Memory from the table's arena. *)
Definition arena_buffer (m : MemTable) (n : Z) : res (bool * MemTable) :=
  let! (p, a) := Allocate new_array (arena_ (table_ m)) n in
  Ret (bool_decide (is_Some p), mk_memtable (refs_ m) (with_arena (table_ m) a (nodes_ (table_ m)))).

(** [false] when an allocation throws.  The stores must fit the buffer. *)
Definition Add (m : MemTable) (s type : Z) (key value : list Z) : res (bool * MemTable) :=
  let key_size := zlen key in
  let val_size := zlen value in
  let internal_key_size := u64 (key_size + 8) in
  let encoded_len := u64 (VarintLength internal_key_size + internal_key_size + VarintLength val_size + val_size) in
  let! (ok, m) := arena_buffer m encoded_len in
  if ok then
    let buf := EncodeVarint32 (u32 internal_key_size) ++ key ++ EncodeFixed64 (Z.lor (u64 (Z.shiftl s 8)) type) ++
               EncodeVarint32 (u32 val_size) ++ value in
    if zlen buf <=? encoded_len then
      let! _ := assert_ (zlen buf =? encoded_len) in
      let! (inserted, table) := LdbSkipList.Insert key_compare (AllocateAligned new_array) sizeof_Node (table_ m) buf in
      Ret (inserted, mk_memtable (refs_ m) table)
    else UB
  else Ret (false, m).

(** The entry the search stops at: whether there is an answer, [*value] and [*s]. *)
Definition get_entry (key : LookupKey) (entry value : list Z) (s : Status) : res (bool * list Z * Status) :=
  let! (key_length, key_ptr) := varint_at entry in
  if zlen key_ptr <? u32 (key_length - 8) then UB
  else
    let! r := Compare user (firstn (Z.to_nat (u32 (key_length - 8))) key_ptr) (lookup_user_key key) in
    if negb (r =? 0) then Ret (false, value, s)
    else if zlen key_ptr <? key_length then UB
    else
      let tag := DecodeFixed64 (skipn (Z.to_nat (key_length - 8)) key_ptr) in
      let type := Z.land tag 0xff in
      if type =? kTypeValue then
        let! (v, _) := prefixed_at (skipn (Z.to_nat key_length) key_ptr) in
        Ret (true, v, s)
      else if type =? kTypeDeletion then Ret (true, value, NotFound [] [])
      else Ret (false, value, s).

Definition Get (m : MemTable) (key : LookupKey) (value : list Z) (s : Status) : res (bool * list Z * Status) :=
  let! iter := iter_Seek key_compare (table_ m) (memtable_key key) in
  if iter_Valid iter then
    let! entry := iter_key (table_ m) iter in
    get_entry key entry value s
  else Ret (false, value, s).

End MemTable.

(** ** Reading entries *)

Lemma varint_at_put v rest : is_u32 v -> varint_at (EncodeVarint32 v ++ rest) = Ret (v, rest).
Proof.
  intros Hv. unfold varint_at.
  assert (length (EncodeVarint32 v) <= 5)%nat as Hl by (unfold EncodeVarint32; repeat destruct (_ <? _); cbn; lia).
  rewrite take_app_ge by done. pose proof (get_varint32 v (take (5 - length (EncodeVarint32 v)) rest) Hv) as E.
  unfold GetVarint32 in E. rewrite E, length_app. do 2 f_equal.
  replace (length (EncodeVarint32 v) + length (take (5 - length (EncodeVarint32 v)) rest) - length (take (5 - length (EncodeVarint32 v)) rest))%nat
    with (length (EncodeVarint32 v)) by lia.
  apply drop_app_length.
Qed.

Lemma put_slice s : is_slice s -> PutLengthPrefixedSlice [] s = EncodeVarint32 (zlen s) ++ s.
Proof. intros [_ E]%is_slice_size. unfold PutLengthPrefixedSlice, PutVarint32. by rewrite E. Qed.

Lemma prefixed_at_put s rest : is_slice s -> prefixed_at (PutLengthPrefixedSlice [] s ++ rest) = Ret (s, rest).
Proof.
  intros Hs. destruct (is_slice_size s Hs) as [Hu _]. unfold prefixed_at. rewrite put_slice by done.
  rewrite <- app_assoc, varint_at_put by done. cbn [rbind]. rewrite zlen_app. pose proof (zlen_nonneg rest).
  destruct (Z.leb_spec (zlen s) (zlen s + zlen rest)); [|lia]. unfold zlen. rewrite Nat2Z.id.
  by rewrite take_app_length, drop_app_length.
Qed.

(** ** The order of entries *)

(** The internal key at the front of an entry or of a lookup key. *)
Definition prefix_of (k : list Z) : list Z := match prefixed_at k with Ret (ik, _) => ik | _ => [] end.

Definition starts_key (valid : list Z -> Prop) (k : list Z) : Prop :=
  exists ik rest, k = PutLengthPrefixedSlice [] ik ++ rest /\ is_slice ik /\ internal_valid valid ik.

Definition key_order (cmp : list Z -> list Z -> Z) (a b : list Z) : Z := internal_order cmp (prefix_of a) (prefix_of b).

Lemma prefix_of_put ik rest : is_slice ik -> prefix_of (PutLengthPrefixedSlice [] ik ++ rest) = ik.
Proof. intros H. unfold prefix_of. by rewrite prefixed_at_put. Qed.

Section Spec.
Context {user : Comparator} {valid : list Z -> Prop} {cmp : list Z -> list Z -> Z} {laws : ComparatorLaws user valid cmp}.
Context {new_array : list region -> Z -> option Z} {fresh : FreshBlocks new_array}.
Context {sizeof_Node : Z} (sizeof_ok : 0 < sizeof_Node < 2 ^ 32).
Abbreviation starts_key := (starts_key valid).
Abbreviation key_order := (key_order cmp).
Abbreviation alloc := (AllocateAligned new_array).
Abbreviation list_ok := (skip_ok (key0 := []) (valid := starts_key) (cmp := key_order) (ok := arena_ok)).

Lemma prefix_of_valid k : starts_key k -> internal_valid valid (prefix_of k).
Proof. intros (ik & rest & -> & Hs & Hv). by rewrite prefix_of_put. Qed.

#[export] Instance key_order_laws : KeyOrder starts_key key_order.
Proof. exact (order_pullback (cmp := internal_order cmp) prefix_of starts_key prefix_of_valid). Qed.

Lemma key_compare_ret a b : starts_key a -> starts_key b -> key_compare user a b = Ret (key_order a b).
Proof.
  intros (ka & ra & -> & Hsa & Hva) (kb & rb & -> & Hsb & Hvb). unfold key_compare, LdbMemTable.key_order.
  rewrite !prefixed_at_put, !prefix_of_put by done. cbn [rbind]. by apply internal_compare_ret.
Qed.

(** ** Entries *)

Record entry := mk_entry { e_user : list Z; e_seq : Z; e_type : Z; e_value : list Z }.

Definition internal_of (e : entry) : list Z := PutFixed64 (e_user e) (packed (e_seq e) (e_type e)).
Definition entry_bytes (e : entry) : list Z := PutLengthPrefixedSlice [] (internal_of e) ++ PutLengthPrefixedSlice [] (e_value e).
Definition entry_order (a b : entry) : Z := internal_order cmp (internal_of a) (internal_of b).

Definition entry_ok (e : entry) : Prop :=
  valid (e_user e) /\ is_sequence (e_seq e) /\ is_type (e_type e) /\ zlen (e_user e) + 8 < 2 ^ 32 /\ is_slice (e_value e).

Lemma internal_of_slice e : entry_ok e -> is_slice (internal_of e).
Proof.
  intros (Hv & Hs & Ht & Hl & _). pose proof (laws_bytes _ Hv) as Hb. split; [|by unfold internal_of; rewrite zlen_put64].
  by apply (internal_valid_put valid).
Qed.

Lemma entry_bytes_start e : entry_ok e -> starts_key (entry_bytes e).
Proof.
  intros He. exists (internal_of e), (PutLengthPrefixedSlice [] (e_value e)). split_and!; [done|by apply internal_of_slice|].
  destruct He as (Hv & _). apply internal_valid_put; [done|by eapply laws_bytes].
Qed.

Lemma prefix_of_entry e : entry_ok e -> prefix_of (entry_bytes e) = internal_of e.
Proof. intros He. by apply prefix_of_put, internal_of_slice. Qed.

Lemma key_order_entries a b : entry_ok a -> entry_ok b -> key_order (entry_bytes a) (entry_bytes b) = entry_order a b.
Proof. intros Ha Hb. unfold LdbMemTable.key_order. by rewrite !prefix_of_entry. Qed.

(** The order of entries by their parts. *)
Lemma entry_order_parts a b : entry_ok a -> entry_ok b ->
  (entry_order a b < 0 <-> cmp (e_user a) (e_user b) < 0 \/
     cmp (e_user a) (e_user b) = 0 /\ (e_seq b < e_seq a \/ e_seq a = e_seq b /\ e_type b < e_type a)) /\
  (entry_order a b = 0 <-> cmp (e_user a) (e_user b) = 0 /\ e_seq a = e_seq b /\ e_type a = e_type b).
Proof. intros (_ & Ha & Hta & _) (_ & Hb & Htb & _). by apply internal_order_parts. Qed.

(** The table holds the entries, in order. *)
Definition table_ok (m : MemTable) (es : list entry) : Prop := list_ok (table_ m) (map entry_bytes es) /\ Forall entry_ok es.

(** ** The constructor and Add *)

Lemma new_memtable_ok : exists r, new_memtable new_array sizeof_Node = Ret r /\
  match r with Some m => table_ok m [] | None => True end.
Proof.
  unfold new_memtable. destruct (new_skiplist_ok (key0 := []) (valid := starts_key) (cmp := key_order) (alloc := alloc) (ok := arena_ok)
    sizeof_ok new_arena [] new_arena_ok) as (r & -> & H). cbn [rbind]. eexists. split; [done|].
  by destruct r as [table|].
Qed.

(** Memory is taken from under the table. *)
Lemma arena_buffer_ok m es n : table_ok m es -> 0 < n < 2 ^ 62 ->
  exists ok m', arena_buffer new_array m n = Ret (ok, m') /\ table_ok m' es /\ refs_ m' = refs_ m.
Proof.
  intros [(ns & (lv & used & H & Hlv & [Hok Hown] & Hseed) & Ekeys) He] Hn. unfold arena_buffer.
  destruct (alloc_fresh (alloc := Allocate new_array) (arena_ (table_ m)) used n Hok Hn) as (p & a & -> & Hp). cbn [rbind].
  do 2 eexists. split; [done|]. split; [|done]. split; [|done]. exists ns. split; [|done]. cbn [table_].
  assert (exists used', arena_ok a used' /\ used ⊆ used') as (used' & Ha & Hsub).
  { destruct p as [p|]; [|by exists used]. destruct Hp as (_ & _ & Ha). exists ((p, n) :: used). split; [done|]. by apply list_subseteq_cons. }
  exists lv, used'. split_and!; [|done| |done].
  - destruct H as [Hsh Hs]. split; [|done]. destruct Hsh as [? ? ? ? ? ? ?]. by split.
  - split; [done|]. intros x Hx. destruct (Hown x Hx) as (k & Hk & Hin). exists k. split; [done|by apply Hsub].
Qed.

(** The bytes [Add] writes, and their number. *)
Lemma entry_layout e : entry_ok e ->
  EncodeVarint32 (u32 (u64 (zlen (e_user e) + 8))) ++ e_user e ++ EncodeFixed64 (Z.lor (u64 (Z.shiftl (e_seq e) 8)) (e_type e)) ++
    EncodeVarint32 (u32 (zlen (e_value e))) ++ e_value e = entry_bytes e /\
  zlen (entry_bytes e) = u64 (VarintLength (u64 (zlen (e_user e) + 8)) + u64 (zlen (e_user e) + 8) +
    VarintLength (zlen (e_value e)) + zlen (e_value e)) /\
  0 < zlen (entry_bytes e) < 2 ^ 62.
Proof.
  intros He. pose proof (internal_of_slice e He) as Hi. destruct He as (Hv & Hs & Ht & Hl & Hval).
  pose proof (zlen_nonneg (e_user e)). pose proof (zlen_nonneg (e_value e)).
  destruct (PackSequenceAndType_ret _ _ Hs Ht) as [Ep Hp]. unfold PackSequenceAndType in Ep.
  repeat (unfold assert_ in Ep at 1; destruct (_ <=? _) in Ep; [|done]; cbn [rbind] in Ep). injection Ep as Ep.
  rewrite (wrap_small 64 (zlen (e_user e) + 8) : _ -> u64 _ = _) by lia. pose proof (proj1 (is_slice_size _ Hi)) as Hiu.
  assert (zlen (internal_of e) = zlen (e_user e) + 8) as Ei by apply zlen_put64. rewrite Ei in Hiu.
  rewrite (wrap_small 32 (zlen (e_user e) + 8) : _ -> u32 _ = _) by (unfold is_u32 in Hiu; lia).
  destruct (is_slice_size _ Hval) as [Hvu Ev]. rewrite Ev, Ep. unfold entry_bytes. rewrite !put_slice, Ei by done.
  split; [by unfold internal_of, PutFixed64; rewrite <- !app_assoc|].
  rewrite !zlen_app, Ei. rewrite !EncodeVarint32_enc by done.
  assert (forall v, is_u32 v -> is_u64 v) as H64 by (unfold is_u32, is_u64; intros; lia).
  rewrite <- !EncodeVarint64_enc by auto. rewrite <- !VarintLength_zlen by auto.
  pose proof (VarintLength_range (zlen (e_user e) + 8)). pose proof (VarintLength_range (zlen (e_value e))).
  destruct Hval as [_ Hval]. rewrite (wrap_small 64 _ : _ -> u64 _ = _) by lia. lia.
Qed.

Lemma key_order_nonzero e e' : entry_ok e -> entry_ok e' ->
  ~ (cmp (e_user e') (e_user e) = 0 /\ e_seq e' = e_seq e /\ e_type e' = e_type e) ->
  key_order (entry_bytes e') (entry_bytes e) <> 0.
Proof. intros He He' H. rewrite key_order_entries by done. by rewrite (proj2 (entry_order_parts e' e He' He)). Qed.

(** No entry has the user key, the number and the type of [e]. *)
Definition new_entry (e : entry) (es : list entry) : Prop :=
  Forall (fun e' => ~ (cmp (e_user e') (e_user e) = 0 /\ e_seq e' = e_seq e /\ e_type e' = e_type e)) es.

Lemma Add_ok m es e :
  table_ok m es -> entry_ok e -> new_entry e es ->
  exists added m', Add user new_array sizeof_Node m (e_seq e) (e_type e) (e_user e) (e_value e) = Ret (added, m') /\
    table_ok m' (if added then insert_sorted entry_order e es else es) /\ refs_ m' = refs_ m.
Proof.
  intros Hm He Hnew. destruct (entry_layout e He) as (Ebuf & Elen & Hlen). unfold Add. rewrite Ebuf, <- Elen.
  destruct (arena_buffer_ok m es _ Hm Hlen) as (ok & m1 & -> & [Hm1 Hes] & Er). cbn [rbind].
  destruct ok; [|by exists false, m1].
  destruct (Z.leb_spec (zlen (entry_bytes e)) (zlen (entry_bytes e))); [|lia]. rewrite Z.eqb_refl. cbn [assert_ rbind].
  destruct (Insert_ok (cmp := key_order) key_compare_ret (alloc := alloc) sizeof_ok (table_ m1) _ (entry_bytes e) Hm1)
    as (added & t & -> & Ht); [by apply entry_bytes_start| |].
  { apply Forall_map, Forall_forall. intros e' Hin. eapply Forall_forall in Hnew, Hes; [|done..]. by apply key_order_nonzero. }
  cbn [rbind]. exists added, (mk_memtable (refs_ m1) t). split; [done|]. split; [|done]. destruct added; [|done]. split.
  - cbn [table_]. rewrite (insert_sorted_map entry_bytes key_order entry_order); [done|].
    eapply Forall_impl; [exact Hes|]. intros e' He'. by apply key_order_entries.
  - rewrite insert_sorted_perm. by constructor.
Qed.

(** ** Get *)

(** What a snapshot at [s] sees of the user key [u]. *)
Definition visible (u : list Z) (s : Z) (e : entry) : bool := (cmp (e_user e) u =? 0) && (e_seq e <=? s).

Definition answer (found : option entry) (value : list Z) (st : Status) : bool * list Z * Status :=
  match found with
  | Some e => if e_type e =? kTypeValue then (true, e_value e, st) else (true, value, NotFound [] [])
  | None => (false, value, st)
  end.

(** An entry before a lookup key is of a smaller user key, or too new. *)
Lemma lookup_before u s k e :
  is_sequence s -> entry_ok e -> is_slice (PutFixed64 u (packed s kTypeValue)) -> k = PutLengthPrefixedSlice [] (PutFixed64 u (packed s kTypeValue)) ->
  (key_order (entry_bytes e) k < 0 <-> cmp (e_user e) u < 0 \/ cmp (e_user e) u = 0 /\ s < e_seq e).
Proof.
  intros Hs He Hk ->. unfold LdbMemTable.key_order. rewrite prefix_of_entry by done.
  rewrite <- (app_nil_r (PutLengthPrefixedSlice [] _)), prefix_of_put by done. destruct He as (_ & Hse & Hte & _).
  unfold internal_of. rewrite (proj1 (internal_order_parts (cmp := cmp) _ _ _ _ _ _ Hse Hs Hte ltac:(by right))).
  assert (e_type e <= kTypeValue) by (by destruct Hte as [-> | ->]). lia.
Qed.

Lemma find_skip {B} (f : B -> bool) l1 l2 : Forall (fun x => f x = false) l1 -> List.find f (l1 ++ l2) = List.find f l2.
Proof. induction 1 as [|x l1 Hx _ IH]; [done|]. cbn. by rewrite Hx. Qed.

(** A lookup reads the entry it stops at. *)
Lemma get_entry_ok (k : LookupKey) e value st :
  entry_ok e -> valid (lookup_user_key k) ->
  get_entry user k (entry_bytes e) value st =
  Ret (answer (if cmp (e_user e) (lookup_user_key k) =? 0 then Some e else None) value st).
Proof.
  intros He Hu. unfold get_entry. set (u := lookup_user_key k) in *. pose proof (internal_of_slice e He) as Hi. pose proof He as (Hv & Hs & Ht & Hl & Hval).
  pose proof (zlen_nonneg (e_user e)). pose proof (zlen_nonneg (PutLengthPrefixedSlice [] (e_value e))).
  assert (zlen (internal_of e) = zlen (e_user e) + 8) as Ei by apply zlen_put64.
  destruct (is_slice_size _ Hi) as [Hiu _]. rewrite Ei in Hiu.
  unfold entry_bytes. rewrite (put_slice (internal_of e)) by done. rewrite <- !app_assoc, varint_at_put by (by rewrite Ei). cbn [rbind].
  rewrite Ei. replace (zlen (e_user e) + 8 - 8) with (zlen (e_user e)) by lia.
  rewrite (wrap_small 32 (zlen (e_user e)) : _ -> u32 _ = _) by (unfold is_u32 in Hiu; lia).
  rewrite zlen_app, Ei. destruct (Z.ltb_spec (zlen (e_user e) + 8 + zlen (PutLengthPrefixedSlice [] (e_value e))) (zlen (e_user e))); [lia|].
  assert (internal_of e = e_user e ++ EncodeFixed64 (packed (e_seq e) (e_type e))) as Eparts by done.
  rewrite Eparts at 1. rewrite <- app_assoc, firstn_zlen, laws_compare by done. cbn [rbind].
  destruct (cmp (e_user e) u =? 0); cbn [negb answer]; [|done].
  destruct (Z.ltb_spec (zlen (e_user e) + 8 + zlen (PutLengthPrefixedSlice [] (e_value e))) (zlen (e_user e) + 8)); [lia|].
  destruct (PackSequenceAndType_ret _ _ Hs Ht) as [_ Hp].
  assert (DecodeFixed64 (skipn (Z.to_nat (zlen (e_user e))) (internal_of e ++ PutLengthPrefixedSlice [] (e_value e))) =
    packed (e_seq e) (e_type e)) as ->.
  { rewrite Eparts. unfold zlen. by rewrite Nat2Z.id, <- app_assoc, drop_app_length, DecodeFixed64_Encode. }
  rewrite (proj1 (unpack (e_seq e) (e_type e) Ht)).
  destruct (Z.eqb_spec (e_type e) kTypeValue) as [|Hne].
  - rewrite <- Ei. unfold zlen at 1. rewrite Nat2Z.id, drop_app_length. rewrite <- (app_nil_r (PutLengthPrefixedSlice _ _)), prefixed_at_put by done. done.
  - destruct Ht as [->|]; [done|done].
Qed.

Lemma Get_ok m es u s k value st :
  table_ok m es -> valid u -> is_sequence s -> zlen u + 13 < 2 ^ 32 -> new_lookup_key u s = Ret k ->
  Get user m k value st = Ret (answer (List.find (visible u s) es) value st).
Proof.
  intros [Hm Hes] Hu Hs Hl Ek. destruct (new_lookup_key_ret u s Hs Hl) as (k' & Ek' & Ei & Em & Euser).
  rewrite Ek in Ek'. injection Ek' as <-. rewrite Ei in Em. pose proof (laws_bytes _ Hu) as Hub.
  assert (internal_valid valid (PutFixed64 u (packed s kTypeValue))) as Hkv by (by apply internal_valid_put).
  assert (is_slice (PutFixed64 u (packed s kTypeValue))) as Hks by (split; [apply Hkv|rewrite zlen_put64; lia]).
  destruct (Seek_ok (cmp := key_order) key_compare_ret (table_ m) _ (memtable_key k) Hm) as (it & before & after & Eseek & Ekeys & Hb & Ha & Hit).
  { rewrite Em. exists (PutFixed64 u (packed s kTypeValue)), []. by rewrite app_nil_r. }
  unfold Get. rewrite Eseek. cbn [rbind]. destruct (iter_key_ok _ _ _ _ Hit) as [-> Hkey].
  apply map_eq_app in Ekeys as (es1 & es2 & -> & <- & <-). rewrite Forall_map in Hb, Ha. apply Forall_app in Hes as [He1 He2].
  rewrite find_skip.
  2: { apply Forall_forall. intros e Hin. eapply Forall_forall in Hb, He1; [|done..]. cbn in Hb.
       apply (lookup_before u s _ e Hs He1 Hks Em) in Hb. unfold visible.
       destruct (Z.eqb_spec (cmp (e_user e) u) 0), (Z.leb_spec (e_seq e) s); lia || done. }
  destruct es2 as [|e es2]; cbn [map]; [done|]. rewrite (Hkey _ _ eq_refl). cbn [rbind].
  apply Forall_cons in He2 as [He He2]. apply Forall_cons in Ha as [Hae Ha].
  rewrite get_entry_ok by (by rewrite ?Euser). rewrite Euser. f_equal. f_equal. cbn [List.find]. unfold visible at 1.
  pose proof (lookup_before u s _ e Hs He Hks Em) as Hbe.
  destruct (Z.eqb_spec (cmp (e_user e) u) 0) as [|Hne]; cbn [andb].
  { by destruct (Z.leb_spec (e_seq e) s); [|lia]. }
  symmetry. rewrite <- (app_nil_r es2). etransitivity; [apply find_skip|done]. apply Forall_forall. intros e' Hin. unfold visible. apply andb_false_iff. left. apply Z.eqb_neq.
  assert (cmp (e_user e) u > 0) as Hgt by (destruct (Z.lt_total (cmp (e_user e) u) 0) as [|[|]]; lia).
  eapply Forall_forall in He2; [|exact Hin].
  destruct Hm as (ns & (lv & used & H & _) & Hmap). pose proof (proj2 H) as Hsort. rewrite Hmap, map_app in Hsort.
  apply sorted_app in Hsort as (_ & Hsort & _). cbn [map] in Hsort. apply sorted_cons in Hsort as (_ & Hlt & _).
  rewrite Forall_map in Hlt. eapply Forall_forall in Hlt; [|exact Hin]. unfold less in Hlt. rewrite key_order_entries in Hlt by done.
  apply (proj1 (entry_order_parts e e' He He2)) in Hlt. pose proof (proj1 He) as Hve. pose proof (proj1 He2) as Hve'.
  pose proof (order_flip (cmp := cmp) u (e_user e) Hu Hve). pose proof (order_flip (cmp := cmp) (e_user e) (e_user e') Hve Hve').
  pose proof (order_lt_le (cmp := cmp) u (e_user e) (e_user e') Hu Hve Hve'). pose proof (order_flip (cmp := cmp) u (e_user e') Hu Hve'). lia.
Qed.

(** *** The newest entry *)

Lemma table_sorted m es : table_ok m es -> sorted starts_key key_order (map entry_bytes es).
Proof. intros [(ns & (lv & used & H & _) & <-) _]. apply H. Qed.

Lemma find_split {B} (f : B -> bool) l x : List.find f l = Some x ->
  exists l1 l2, l = l1 ++ x :: l2 /\ f x = true /\ Forall (fun y => f y = false) l1.
Proof.
  induction l as [|y l IH]; [done|]. cbn. destruct (f y) eqn:E; [intros [= ->]; by exists [], l|].
  intros H. destruct (IH H) as (l1 & l2 & -> & Hx & Hl). exists (y :: l1), l2. split_and!; [done|done|by constructor].
Qed.

(** The entry with the greatest number among those of [u] that [s] sees. *)
Definition newest (u : list Z) (s : Z) (es : list entry) (found : option entry) : Prop :=
  match found with
  | Some e => e ∈ es /\ visible u s e = true /\ forall e', e' ∈ es -> visible u s e' = true -> e_seq e' <= e_seq e
  | None => Forall (fun e => visible u s e = false) es
  end.

Lemma find_newest m es u s : table_ok m es -> valid u -> newest u s es (List.find (visible u s) es).
Proof.
  intros Hm Hu. destruct (List.find (visible u s) es) as [e|] eqn:E; cbn [newest].
  - apply find_split in E as (es1 & es2 & -> & He & Hnone). split_and!; [apply elem_of_app; right; by left|done|].
    intros e' Hin He'. apply elem_of_app in Hin as [Hin|[->|Hin]%elem_of_cons]; [|done|].
    { eapply Forall_forall in Hnone; [|exact Hin]. cbn in Hnone. congruence. }
    pose proof (table_sorted _ _ Hm) as Hsort. destruct Hm as [_ Hok]. apply Forall_app in Hok as [_ [Hoke Hok]%Forall_cons].
    rewrite map_app in Hsort. apply sorted_app in Hsort as (_ & Hsort & _). cbn [map] in Hsort.
    apply sorted_cons in Hsort as (_ & Hlt & _). rewrite Forall_map in Hlt. eapply Forall_forall in Hlt, Hok; [|exact Hin..].
    unfold less in Hlt. rewrite key_order_entries in Hlt by done. apply (proj1 (entry_order_parts e e' Hoke Hok)) in Hlt.
    unfold visible in He, He'. apply andb_prop in He as [He _], He' as [He' _]. apply Z.eqb_eq in He, He'.
    pose proof (order_flip (cmp := cmp) (e_user e') u (proj1 Hok) Hu).
    pose proof (order_eq_l (cmp := cmp) (e_user e) u (e_user e') (proj1 Hoke) Hu (proj1 Hok) He). lia.
  - apply Forall_forall. intros e He. apply (find_none _ _ E). by apply list_elem_of_In.
Qed.

(** ** Iterators *)

(** The iterator [it] stands at the first of the entries [after]. *)
Definition mem_at (m : MemTable) (it : Z) (before after : list entry) : Prop :=
  iter_at (key0 := []) (valid := starts_key) (cmp := key_order) (ok := arena_ok) (table_ m) it (map entry_bytes before) (map entry_bytes after) /\
  Forall entry_ok (before ++ after).

Lemma mem_entry m it before e after : mem_at m it before (e :: after) ->
  mem_Valid it = true /\ mem_key m it = Ret (internal_of e) /\ mem_value m it = Ret (e_value e).
Proof.
  intros [Hit Hok]. apply Forall_app in Hok as [_ [He _]%Forall_cons]. destruct (iter_key_ok _ _ _ _ Hit) as [Hv Hkey].
  unfold mem_key, mem_value, entry_bytes in *. rewrite (Hkey _ _ eq_refl). cbn [rbind].
  rewrite prefixed_at_put by (by apply internal_of_slice). cbn [rbind].
  rewrite <- (app_nil_r (PutLengthPrefixedSlice [] (e_value e))), prefixed_at_put by apply He. done.
Qed.

Lemma mem_Next_ok m it before e after : mem_at m it before (e :: after) ->
  exists it', mem_Next m it = Ret it' /\ mem_at m it' (before ++ [e]) after.
Proof.
  intros [Hit Hok]. destruct (iter_Next_ok _ _ _ _ _ Hit) as (it' & E & Hit'). exists it'. split; [done|].
  split; [by rewrite map_app|by rewrite <- app_assoc].
Qed.

Lemma mem_Prev_ok m it before e after : mem_at m it before (e :: after) ->
  exists it', mem_Prev user m it = Ret it' /\
    ((before = [] /\ mem_Valid it' = false) \/
     exists before' e', before = before' ++ [e'] /\ mem_at m it' before' (e' :: e :: after)).
Proof.
  intros [Hit Hok]. destruct (iter_Prev_ok key_compare_ret _ _ _ _ _ Hit) as (it' & E & H). exists it'. split; [exact E|].
  destruct H as [[Hb Hv]|(before' & k' & Eb & Hit')].
  - left. split; [by destruct before|done].
  - right. apply map_eq_app in Eb as (b1 & b2 & -> & <- & E2). destruct b2 as [|e' [|]]; try done. injection E2 as <-.
    exists b1, e'. split; [done|]. split; [done|]. by rewrite <- app_assoc in Hok.
Qed.

Lemma mem_Seek_ok m es ik : table_ok m es -> is_slice ik -> internal_valid valid ik ->
  exists it before after, mem_Seek user m ik = Ret it /\ es = before ++ after /\ mem_at m it before after /\
    Forall (fun e => internal_order cmp (internal_of e) ik < 0) before /\
    Forall (fun e => 0 <= internal_order cmp (internal_of e) ik) after.
Proof.
  intros [Hm Hok] Hs Hv. unfold mem_Seek.
  assert (EncodeKey ik = PutLengthPrefixedSlice [] ik ++ []) as -> by (by rewrite app_nil_r).
  destruct (Seek_ok (cmp := key_order) key_compare_ret (table_ m) _ (PutLengthPrefixedSlice [] ik ++ []) Hm)
    as (it & before & after & -> & E & Hb & Ha & Hit); [by exists ik, []|].
  apply map_eq_app in E as (b & a & -> & <- & <-). exists it, b, a. rewrite Forall_map in Hb, Ha.
  assert (forall e, entry_ok e -> key_order (entry_bytes e) (PutLengthPrefixedSlice [] ik ++ []) = internal_order cmp (internal_of e) ik) as Heq.
  { intros e He. unfold LdbMemTable.key_order. by rewrite prefix_of_entry, prefix_of_put. }
  apply Forall_app in Hok as [Hob Hoa].
  split_and!; [done|done|split; [done|by apply Forall_app]|..]; apply Forall_forall; intros e He.
  - eapply Forall_forall in Hb, Hob; [|done..]. rewrite <- Heq by done. exact Hb.
  - eapply Forall_forall in Ha, Hoa; [|done..]. rewrite <- Heq by done. exact Ha.
Qed.

Lemma mem_SeekToFirst_ok m es : table_ok m es -> exists it, mem_SeekToFirst m = Ret it /\ mem_at m it [] es.
Proof. intros [Hm Hok]. destruct (SeekToFirst_ok _ _ Hm) as (it & E & Hit). by exists it. Qed.

Lemma mem_SeekToLast_ok m es : table_ok m es -> exists it, mem_SeekToLast m = Ret it /\
  ((es = [] /\ mem_Valid it = false) \/ exists before e, es = before ++ [e] /\ mem_at m it before [e]).
Proof.
  intros [Hm Hok]. destruct (SeekToLast_ok _ _ Hm) as (it & E & H). exists it. split; [exact E|].
  destruct H as [[E0 Hit]|(before & k & Eb & Hit)].
  - left. destruct es; [|done]. split; [done|]. by destruct (iter_key_ok _ _ _ _ Hit).
  - right. apply map_eq_app in Eb as (b1 & b2 & -> & <- & E2). destruct b2 as [|e' [|]]; try done. injection E2 as <-.
    by exists b1, e'.
Qed.

(** ** Theorems *)

(** C29. A memtable holds a sorted list of entries.  It starts empty; [Add] puts an entry
    with a number of its own in its place, or leaves the table when an allocation
    throws; [Get] at a snapshot answers with the newest entry of the user key that
    the snapshot sees, its value or that it was deleted, and says so when there is
    none.  No buffer is overrun and no assertion fails. *)
Theorem memtable_refines m es e u s k value st :
  table_ok m es -> entry_ok e -> valid u -> is_sequence s -> zlen u + 13 < 2 ^ 32 -> new_lookup_key u s = Ret k ->
  (exists r, new_memtable new_array sizeof_Node = Ret r /\ match r with Some m0 => table_ok m0 [] | None => True end) /\
  (new_entry e es ->
   exists added m', Add user new_array sizeof_Node m (e_seq e) (e_type e) (e_user e) (e_value e) = Ret (added, m') /\
     table_ok m' (if added then insert_sorted entry_order e es else es)) /\
  (exists found, Get user m k value st = Ret (answer found value st) /\ newest u s es found).
Proof.
  intros Hm He Hu Hs Hl Hk. split_and!.
  - apply new_memtable_ok.
  - intros Hnew. destruct (Add_ok m es e Hm He Hnew) as (added & m' & E & Hm' & _). by exists added, m'.
  - exists (List.find (visible u s) es). split; [by apply Get_ok|by eapply find_newest].
Qed.

(** The iterator of a memtable goes through its entries in both directions, gives
    their internal keys and values, and seeks to the first entry not before an
    internal key. *)
Theorem memtable_iterates m es ik it before e after :
  table_ok m es -> is_slice ik -> internal_valid valid ik -> mem_at m it before (e :: after) ->
  mem_Valid it = true /\ mem_key m it = Ret (internal_of e) /\ mem_value m it = Ret (e_value e) /\
  (exists it', mem_Next m it = Ret it' /\ mem_at m it' (before ++ [e]) after) /\
  (exists it', mem_Prev user m it = Ret it' /\
     ((before = [] /\ mem_Valid it' = false) \/
      exists before' e', before = before' ++ [e'] /\ mem_at m it' before' (e' :: e :: after))) /\
  (exists it' before' after', mem_Seek user m ik = Ret it' /\ es = before' ++ after' /\ mem_at m it' before' after' /\
     Forall (fun e => internal_order cmp (internal_of e) ik < 0) before' /\
     Forall (fun e => 0 <= internal_order cmp (internal_of e) ik) after') /\
  (exists it', mem_SeekToFirst m = Ret it' /\ mem_at m it' [] es) /\
  (exists it', mem_SeekToLast m = Ret it' /\
     ((es = [] /\ mem_Valid it' = false) \/ exists before' e', es = before' ++ [e'] /\ mem_at m it' before' [e'])).
Proof.
  intros Hm Hs Hv Hit. destruct (mem_entry _ _ _ _ _ Hit) as (H1 & H2 & H3).
  split_and!; [done..|by apply mem_Next_ok|by apply mem_Prev_ok|by apply mem_Seek_ok|by apply mem_SeekToFirst_ok|by apply mem_SeekToLast_ok].
Qed.

End Spec.
