(* ===== verification/LdbWriteBatch.v ===== *)
(** * LevelDB: write batches (db/write_batch.cc)

    A batch is a string: a sequence number, a count and one record per operation.
    [Iterate] plays it to a handler; the handler that [InsertInto] uses adds the
    operations to a memtable under consecutive numbers.  A handler that throws ends
    the iteration. *)
From S2P Require Import Prelude WireSpec.
From S2P Require Import LdbCoding LdbStatus LdbOrder LdbKeys LdbArena LdbSkipList LdbSkipListSpec LdbMemTable.
From Stdlib Require Import ZArith Lia.
From stdpp Require Import base tactics numbers list strings.
#[local] Open Scope Z_scope.

(** ** Definitions *)

Definition kHeader : Z := 12.

(** [rep_]. *)
Definition WriteBatch : Type := list Z.

(** [a + b] on [int]. *)
Definition int_add (a b : Z) : res Z := if (- 2 ^ 31 <=? a + b) && (a + b <? 2 ^ 31) then Ret (a + b) else UB.

(** The bytes of [rep_] that are read or written must be there. *)
Definition in_rep (b : WriteBatch) (n : Z) : res unit := if n <=? zlen b then Ret tt else UB.

Definition Clear : WriteBatch := repeat 0 (Z.to_nat kHeader).

Definition ApproximateSize (b : WriteBatch) : Z := zlen b.

Definition Count (b : WriteBatch) : res Z :=
  let! _ := in_rep b 12 in
  Ret (swrap 32 (DecodeFixed32 (skipn 8 b))).

Definition SetCount (b : WriteBatch) (n : Z) : res WriteBatch :=
  let! _ := in_rep b 12 in
  Ret (firstn 8 b ++ EncodeFixed32 (u32 n) ++ skipn 12 b).

Definition Sequence (b : WriteBatch) : res Z :=
  let! _ := in_rep b 8 in
  Ret (DecodeFixed64 b).

Definition SetSequence (b : WriteBatch) (seq : Z) : res WriteBatch :=
  let! _ := in_rep b 8 in
  Ret (EncodeFixed64 seq ++ skipn 8 b).

Definition Contents (b : WriteBatch) : list Z := b.
Definition ByteSize (b : WriteBatch) : Z := zlen b.

Definition SetContents (contents : list Z) : res WriteBatch :=
  let! _ := assert_ (zlen contents >=? kHeader) in
  Ret contents.

Definition Put (b : WriteBatch) (key value : list Z) : res WriteBatch :=
  let! n := Count b in
  let! n := int_add n 1 in
  let! b := SetCount b n in
  Ret (PutLengthPrefixedSlice (PutLengthPrefixedSlice (b ++ [kTypeValue]) key) value).

Definition Delete (b : WriteBatch) (key : list Z) : res WriteBatch :=
  let! n := Count b in
  let! n := int_add n 1 in
  let! b := SetCount b n in
  Ret (PutLengthPrefixedSlice (b ++ [kTypeDeletion]) key).

(** [dst] and [src] may be the same batch: only the header is changed before the
    records are copied. *)
Definition Append (dst src : WriteBatch) : res WriteBatch :=
  let! m := Count dst in
  let! n := Count src in
  let! n := int_add m n in
  let! dst := SetCount dst n in
  let! _ := assert_ (zlen src >=? kHeader) in
  Ret (dst ++ skipn (Z.to_nat kHeader) src).

(** [WriteBatch::Handler]; [false] when the method throws. *)
Record Handler (St : Type) := mk_handler {
  handle_Put : St -> list Z -> list Z -> res (bool * St);
  handle_Delete : St -> list Z -> res (bool * St);
}.
Arguments mk_handler {St} _ _.
Arguments handle_Put {St} _ _ _ _.
Arguments handle_Delete {St} _ _ _.

Section Iterate.
Context {St : Type} (handler : Handler St).

(** Go on with what is left of the input, or rethrow. *)
Definition iterate_on (input : list Z) (found : Z) (r : bool * St)
    : list Z * Z * St + option Status * St :=
  let (ok, st) := r in if ok then inl (input, found, st) else inr (None, st).

(** A round of the loop over [rep_], with its end. *)
Definition iterate_round (rep_ : WriteBatch) (s : list Z * Z * St) : res (list Z * Z * St + option Status * St) :=
  let '(input, found, st) := s in
  match input with
  | [] =>
      let! count := Count rep_ in
      if negb (found =? count) then Ret (inr (Some (Corruption (bytes_of "WriteBatch has wrong count") []), st))
      else Ret (inr (Some status_ok, st))
  | tag :: input =>
      let! found := int_add found 1 in
      if tag =? kTypeValue then
        match GetLengthPrefixedSlice input with
        | Some (key, input) =>
            match GetLengthPrefixedSlice input with
            | Some (value, input) =>
                let! r := handle_Put handler st key value in
                Ret (iterate_on input found r)
            | None => Ret (inr (Some (Corruption (bytes_of "bad WriteBatch Put") []), st))
            end
        | None => Ret (inr (Some (Corruption (bytes_of "bad WriteBatch Put") []), st))
        end
      else if tag =? kTypeDeletion then
        match GetLengthPrefixedSlice input with
        | Some (key, input) =>
            let! r := handle_Delete handler st key in
            Ret (iterate_on input found r)
        | None => Ret (inr (Some (Corruption (bytes_of "bad WriteBatch Delete") []), st))
        end
      else Ret (inr (Some (Corruption (bytes_of "unknown WriteBatch tag") []), st))
  end.

(** The status, or nothing when the handler threw, and the handler's state. *)
Definition Iterate (rep_ : WriteBatch) (st : St) : res (option Status * St) :=
  if zlen rep_ <? kHeader then Ret (Some (Corruption (bytes_of "malformed WriteBatch (too small)") []), st)
  else
    let input := skipn (Z.to_nat kHeader) rep_ in
    loop (S (length input)) (iterate_round rep_) (input, 0, st).

End Iterate.

Section Inserter.
Context (user : Comparator) (new_array : list region -> Z -> option Z) (sizeof_Node : Z).

(** [sequence_] and [mem_]. *)
Record MemTableInserter := mk_inserter { sequence_ : Z; mem_ : MemTable }.

(** One operation: a type and a value under the next number. *)
Definition inserter_add (type : Z) (i : MemTableInserter) (key value : list Z) : res (bool * MemTableInserter) :=
  let! (ok, mem) := LdbMemTable.Add user new_array sizeof_Node (mem_ i) (sequence_ i) type key value in
  Ret (ok, mk_inserter (if ok then u64 (sequence_ i + 1) else sequence_ i) mem).

Definition inserter_handler : Handler MemTableInserter :=
  mk_handler (inserter_add kTypeValue) (fun i key => inserter_add kTypeDeletion i key []).

Definition InsertInto (b : WriteBatch) (memtable : MemTable) : res (option Status * MemTable) :=
  let! seq := Sequence b in
  let! (status, i) := Iterate inserter_handler b (mk_inserter seq memtable) in
  Ret (status, mem_ i).

End Inserter.

(** ** Batches of operations *)

Inductive op := OpPut (key value : list Z) | OpDelete (key : list Z).

Definition op_bytes (o : op) : list Z :=
  match o with
  | OpPut key value => kTypeValue :: PutLengthPrefixedSlice [] key ++ PutLengthPrefixedSlice [] value
  | OpDelete key => kTypeDeletion :: PutLengthPrefixedSlice [] key
  end.

Definition op_ok (o : op) : Prop :=
  match o with OpPut key value => is_slice key /\ is_slice value | OpDelete key => is_slice key end.

Definition records (ops : list op) : list Z := concat (map op_bytes ops).

(** The batch [b] holds the operations [ops] from the number [seq] on. *)
Definition holds (b : WriteBatch) (seq : Z) (ops : list op) : Prop :=
  b = EncodeFixed64 seq ++ EncodeFixed32 (zlen ops) ++ records ops /\ is_u64 seq /\ zlen ops < 2 ^ 31 /\ Forall op_ok ops.

Lemma records_app ops1 ops2 : records (ops1 ++ ops2) = records ops1 ++ records ops2.
Proof. unfold records. by rewrite map_app, concat_app. Qed.

Lemma length_fixed32 v : length (EncodeFixed32 v) = 4%nat.
Proof. unfold EncodeFixed32. rewrite EncodeFixed32_le. apply length_le_split. Qed.

Lemma length_fixed64 v : length (EncodeFixed64 v) = 8%nat.
Proof. unfold EncodeFixed64. rewrite EncodeFixed64_le. apply length_le_split. Qed.

Section Header.
Context (q n : Z) (r : list Z).
Let b : WriteBatch := EncodeFixed64 q ++ EncodeFixed32 n ++ r.

Lemma header_room : in_rep b 12 = Ret tt /\ in_rep b 8 = Ret tt /\ zlen b = 12 + zlen r.
Proof.
  assert (zlen b = 12 + zlen r) as E by (unfold b, zlen; rewrite !length_app, length_fixed32, length_fixed64; lia).
  unfold in_rep. rewrite E. pose proof (zlen_nonneg r).
  destruct (Z.leb_spec 12 (12 + zlen r)), (Z.leb_spec 8 (12 + zlen r)); lia || done.
Qed.

Lemma header_parts : firstn 8 b = EncodeFixed64 q /\ skipn 8 b = EncodeFixed32 n ++ r /\ skipn 12 b = r.
Proof.
  unfold b. split_and!; [by apply take_app_length'|by apply drop_app_length'|].
  rewrite app_assoc. apply drop_app_length'. by rewrite length_app, length_fixed64, length_fixed32.
Qed.

Lemma Count_header : 0 <= n < 2 ^ 31 -> Count b = Ret n.
Proof.
  intros Hn. unfold Count. rewrite (proj1 header_room). cbn [rbind]. rewrite (proj1 (proj2 header_parts)).
  rewrite DecodeFixed32_Encode by (unfold is_u32; lia). f_equal. apply swrap_small; lia.
Qed.

Lemma SetCount_header n' : 0 <= n' < 2 ^ 31 -> SetCount b n' = Ret (EncodeFixed64 q ++ EncodeFixed32 n' ++ r).
Proof.
  intros Hn. unfold SetCount. rewrite (proj1 header_room). cbn [rbind]. destruct header_parts as (-> & _ & ->).
  by rewrite (wrap_small 32 n' : _ -> u32 n' = n') by lia.
Qed.

Lemma Sequence_header : is_u64 q -> Sequence b = Ret q.
Proof. intros Hq. unfold Sequence. rewrite (proj1 (proj2 header_room)). cbn [rbind]. unfold b. by rewrite DecodeFixed64_Encode. Qed.

Lemma SetSequence_header q' : SetSequence b q' = Ret (EncodeFixed64 q' ++ EncodeFixed32 n ++ r).
Proof. unfold SetSequence. rewrite (proj1 (proj2 header_room)). cbn [rbind]. by rewrite (proj1 (proj2 header_parts)). Qed.

End Header.

(** ** Building *)

Lemma Clear_holds : holds Clear 0 [].
Proof. split_and!; [reflexivity|by vm_compute|by vm_compute|constructor]. Qed.

(** The header of a batch, and the records behind it. *)
Lemma holds_header b q ops : holds b q ops ->
  Count b = Ret (zlen ops) /\ Sequence b = Ret q /\ zlen b = 12 + zlen (records ops) /\ skipn 12 b = records ops.
Proof.
  intros (-> & Hq & Hn & _). pose proof (zlen_nonneg ops). split_and!.
  - apply Count_header. lia.
  - by apply Sequence_header.
  - apply header_room.
  - apply header_parts.
Qed.

(** Adding operations to a batch with a new count. *)
Lemma holds_more b q ops b' ops' :
  holds b q ops -> Forall op_ok ops' -> zlen ops + zlen ops' < 2 ^ 31 ->
  SetCount b (zlen ops + zlen ops') = Ret b' -> holds (b' ++ records ops') q (ops ++ ops').
Proof.
  intros (-> & Hq & Hn & Hops) Hops' Hlen. pose proof (zlen_nonneg ops). pose proof (zlen_nonneg ops').
  rewrite SetCount_header by lia. intros E.
  assert (b' = EncodeFixed64 q ++ EncodeFixed32 (zlen ops + zlen ops') ++ records ops) as -> by congruence.
  unfold holds. rewrite zlen_app, records_app, <- !app_assoc.
  split_and!; [done|done|done|by apply Forall_app].
Qed.

Lemma set_count_more b q ops n : holds b q ops -> 0 <= n < 2 ^ 31 -> exists b', SetCount b n = Ret b'.
Proof. intros (-> & _) Hn. rewrite SetCount_header by done. by eexists. Qed.

Lemma int_add_ret a b : 0 <= a -> 0 <= b -> a + b < 2 ^ 31 -> int_add a b = Ret (a + b).
Proof. intros Ha Hb H. unfold int_add. destruct (Z.leb_spec (- 2 ^ 31) (a + b)), (Z.ltb_spec (a + b) (2 ^ 31)); lia || done. Qed.

(** Both builders add one operation. *)
Definition add_op (b : WriteBatch) (o : op) : res WriteBatch :=
  match o with OpPut key value => Put b key value | OpDelete key => Delete b key end.

Lemma add_op_eq b o : add_op b o =
  (let! n := Count b in let! n := int_add n 1 in let! b := SetCount b n in Ret (b ++ op_bytes o)).
Proof.
  destruct o as [key value|key]; cbn [add_op op_bytes]; unfold Put, Delete; destruct (Count b) as [n| |]; cbn [rbind]; try done;
    destruct (int_add n 1) as [n'| |]; cbn [rbind]; try done; destruct (SetCount b n') as [b'| |]; cbn [rbind]; try done.
  - rewrite (PutLengthPrefixedSlice_app (PutLengthPrefixedSlice _ _)), (PutLengthPrefixedSlice_app (_ ++ _)).
    by rewrite <- !app_assoc.
  - by rewrite PutLengthPrefixedSlice_app, <- app_assoc.
Qed.

Lemma add_op_ok b q ops o : holds b q ops -> op_ok o -> zlen ops + 1 < 2 ^ 31 ->
  exists b', add_op b o = Ret b' /\ holds b' q (ops ++ [o]).
Proof.
  intros H Ho Hn. pose proof (zlen_nonneg ops). destruct (holds_header _ _ _ H) as (Ec & _). rewrite add_op_eq, Ec. cbn [rbind].
  rewrite int_add_ret by lia. cbn [rbind]. destruct (set_count_more b q ops (zlen ops + 1) H ltac:(lia)) as [b' E]. rewrite E. cbn [rbind].
  eexists. split; [done|]. replace (op_bytes o) with (records [o]) by (unfold records; cbn; by rewrite app_nil_r).
  eapply holds_more; [done|by constructor|done|done].
Qed.

Lemma Append_ok b q ops b2 q2 ops2 : holds b q ops -> holds b2 q2 ops2 -> zlen ops + zlen ops2 < 2 ^ 31 ->
  exists b', Append b b2 = Ret b' /\ holds b' q (ops ++ ops2).
Proof.
  intros H H2 Hn. pose proof (zlen_nonneg ops). pose proof (zlen_nonneg ops2). destruct (holds_header _ _ _ H) as (Ec & _).
  destruct (holds_header _ _ _ H2) as (Ec2 & _ & El & Er). unfold Append. rewrite Ec, Ec2. cbn [rbind].
  rewrite int_add_ret by lia. cbn [rbind]. destruct (set_count_more b q ops (zlen ops + zlen ops2) H ltac:(lia)) as [b' E]. rewrite E. cbn [rbind].
  rewrite El. pose proof (zlen_nonneg (records ops2)). unfold assert_, kHeader.
  destruct (Z.geb_spec (12 + zlen (records ops2)) 12); [|lia]. cbn [rbind]. eexists. split; [done|].
  change (Z.to_nat 12) with 12%nat. rewrite Er. eapply holds_more; [done|apply H2|done|done].
Qed.

Lemma SetSequence_ok b q ops q' : holds b q ops -> is_u64 q' -> exists b', SetSequence b q' = Ret b' /\ holds b' q' ops.
Proof. intros (-> & Hq & Hn & Hops) Hq'. rewrite SetSequence_header. by eexists. Qed.

Lemma SetContents_ok b q ops : holds b q ops -> SetContents b = Ret b.
Proof.
  intros H. destruct (holds_header _ _ _ H) as (_ & _ & El & _). unfold SetContents, assert_, kHeader. rewrite El.
  pose proof (zlen_nonneg (records ops)). by destruct (Z.geb_spec (12 + zlen (records ops)) 12); [|lia].
Qed.

(** ** Iterating *)

Section IterateProof.
Context {St : Type} (handler : Handler St).

(** What a handler does with operations, in order, until it throws. *)
Definition play_op (o : op) (st : St) : res (bool * St) :=
  match o with OpPut key value => handle_Put handler st key value | OpDelete key => handle_Delete handler st key end.

Fixpoint play (ops : list op) (st : St) : res (bool * St) :=
  match ops with
  | [] => Ret (true, st)
  | o :: ops => let? st := play_op o st in play ops st
  end.

Lemma round_op rep_ o rest found st : op_ok o -> 0 <= found -> found + 1 < 2 ^ 31 ->
  iterate_round handler rep_ (op_bytes o ++ rest, found, st) = let! r := play_op o st in Ret (iterate_on rest (found + 1) r).
Proof.
  intros Ho H0 Hf. destruct o as [key value|key]; cbn [op_bytes app iterate_round play_op]; rewrite int_add_ret by lia; cbn [rbind].
  - rewrite Z.eqb_refl, <- app_assoc. destruct Ho as [Hk Hv]. by rewrite !get_slice.
  - change (kTypeDeletion =? kTypeValue) with false. rewrite Z.eqb_refl. by rewrite get_slice.
Qed.

Lemma loop_ops rep_ ops : forall fuel rest found st,
  Forall op_ok ops -> 0 <= found -> found + zlen ops < 2 ^ 31 ->
  loop (length ops + fuel) (iterate_round handler rep_) (records ops ++ rest, found, st) =
  let! (ok, st') := play ops st in
  if ok then loop fuel (iterate_round handler rep_) (rest, found + zlen ops, st') else Ret (None, st').
Proof.
  induction ops as [|o ops IH]; intros fuel rest found st Hops H0 Hn.
  { cbn [length Nat.add play rbind]. by rewrite Z.add_0_r. }
  apply Forall_cons in Hops as [Ho Hops]. rewrite zlen_cons in Hn. pose proof (zlen_nonneg ops).
  cbn [length Nat.add play]. rewrite loop_unfold. change (records (o :: ops)) with (op_bytes o ++ records ops).
  rewrite <- app_assoc, round_op by (done || lia). unfold bind_ok. destruct (play_op o st) as [[ok st']| |]; [|done|done].
  destruct ok; [|done]. cbn [rbind iterate_on]. rewrite IH by (done || lia).
  replace (found + 1 + zlen ops) with (found + zlen (o :: ops)) by (rewrite zlen_cons; lia). done.
Qed.

Lemma records_length ops : (length ops <= length (records ops))%nat.
Proof.
  induction ops as [|o ops IH]; [done|]. change (records (o :: ops)) with (op_bytes o ++ records ops).
  rewrite length_app. destruct o; cbn [op_bytes length]; lia.
Qed.

(** A batch is played to the handler in order. *)
Lemma Iterate_ok b q ops st : holds b q ops ->
  Iterate handler b st = let! (ok, st') := play ops st in Ret (if ok then Some status_ok else None, st').
Proof.
  intros H. destruct (holds_header _ _ _ H) as (Ec & _ & El & Er). destruct H as (_ & _ & Hn & Hops).
  pose proof (zlen_nonneg (records ops)). unfold Iterate, kHeader. rewrite El.
  destruct (Z.ltb_spec (12 + zlen (records ops)) 12); [lia|]. change (Z.to_nat 12) with 12%nat. rewrite Er.
  pose proof (records_length ops).
  replace (S (length (records ops))) with (length ops + (S (length (records ops) - length ops)))%nat by lia.
  rewrite <- (app_nil_r (records ops)) at 2. rewrite loop_ops by (done || lia).
  destruct (play ops st) as [[ok st']| |]; [|done|done]. cbn [rbind]. destruct ok; [|done].
  rewrite loop_unfold. cbn [iterate_round]. rewrite Ec. cbn [rbind]. by rewrite Z.eqb_refl.
Qed.

(** *** Truncated batches *)

Lemma get_slice_app p s q rest : GetLengthPrefixedSlice p = Some (s, q) -> GetLengthPrefixedSlice (p ++ rest) = Some (s, q ++ rest).
Proof.
  unfold GetLengthPrefixedSlice. destruct (GetVarint32 p) as [[len r]|] eqn:E; [|done]. rewrite (GetVarint32_app _ _ _ _ E).
  rewrite zlen_app. pose proof (zlen_nonneg rest). destruct (Z.geb_spec (zlen r) len) as [Hlen|]; [|done].
  destruct (Z.geb_spec (zlen r + zlen rest) len); [|lia]. intros [= <- <-]. unfold zlen in Hlen.
  rewrite take_app_le, drop_app_le by lia. done.
Qed.

Lemma get_slice_cut s p c : is_slice s -> PutLengthPrefixedSlice [] s = p ++ c -> c <> [] -> GetLengthPrefixedSlice p = None.
Proof.
  intros Hs E Hc. destruct (GetLengthPrefixedSlice p) as [[x r]|] eqn:Ep; [|done]. exfalso.
  apply (get_slice_app _ _ _ c) in Ep. rewrite <- E in Ep. pose proof (get_slice s [] Hs) as Hg. rewrite app_nil_r in Hg.
  rewrite Hg in Ep. injection Ep as _ Er. symmetry in Er. by apply app_nil in Er as [_ ?].
Qed.

(** Where a cut falls: between two operations or in one. *)
Lemma records_cut ops p c : records ops = p ++ c -> c <> [] ->
  exists ops1 o ops2 part rest, ops = ops1 ++ o :: ops2 /\ p = records ops1 ++ part /\ op_bytes o = part ++ rest /\ rest <> [].
Proof.
  revert p; induction ops as [|o ops IH]; intros p E Hc; [by destruct p, c|].
  change (records (o :: ops)) with (op_bytes o ++ records ops) in E.
  apply app_eq_inv in E as [(k & Ek & E)|(k & Ek & E)].
  - destruct k as [|x k].
    + rewrite app_nil_r in Ek. cbn in E. destruct ops as [|o2 ops]; [by subst c|].
      destruct (IH [] ltac:(cbn; done) Hc) as (ops1 & o' & ops2 & part & rest & -> & Ep & Eo & Hr).
      exists (o :: ops1), o', ops2, part, rest. split_and!; [done| |done|done].
      change (records (o :: ops1)) with (op_bytes o ++ records ops1). rewrite <- app_assoc, <- Ep, app_nil_r. by rewrite Ek.
    + by exists [], o, ops, p, (x :: k).
  - destruct (IH k E Hc) as (ops1 & o' & ops2 & part & rest & -> & -> & Eo & Hr).
    exists (o :: ops1), o', ops2, part, rest. split_and!; [done| |done|done].
    change (records (o :: ops1)) with (op_bytes o ++ records ops1). by rewrite <- app_assoc.
Qed.

(** The messages for a batch that is cut off. *)
Definition cut_messages : list string :=
  ["malformed WriteBatch (too small)"; "bad WriteBatch Put"; "bad WriteBatch Delete"; "WriteBatch has wrong count"]%string.

Definition cut_off (s : Status) : Prop := exists msg, msg ∈ cut_messages /\ s = Corruption (bytes_of msg) [].

Lemma cut_off_msg msg : bool_decide (msg ∈ cut_messages) = true -> cut_off (Corruption (bytes_of msg) []).
Proof. intros H%bool_decide_eq_true. by exists msg. Qed.

Lemma round_cut rep_ o part rest found n :
  op_ok o -> op_bytes o = part ++ rest -> rest <> [] -> 0 <= found < 2 ^ 31 - 1 -> Count rep_ = Ret n -> n <> found ->
  exists s, cut_off s /\ forall st, iterate_round handler rep_ (part, found, st) = Ret (inr (Some s, st)).
Proof.
  intros Ho E Hr Hf Hc Hn. destruct part as [|tag part].
  { cbn [iterate_round]. rewrite Hc. cbn [rbind]. destruct (Z.eqb_spec found n); [done|]. cbn [negb].
    eexists. split; [exact (cut_off_msg "WriteBatch has wrong count"%string eq_refl)|done]. }
  cbn [iterate_round]. rewrite int_add_ret by lia. cbn [rbind].
  destruct o as [key value|key]; injection E as <- E.
  - rewrite Z.eqb_refl. destruct Ho as [Hk Hv].
    apply app_eq_inv in E as [(k & Ek & E)|(k & -> & E)]; [destruct k as [|x k]|].
    + rewrite app_nil_r in Ek. rewrite <- Ek, <- (app_nil_r (PutLengthPrefixedSlice [] key)), get_slice by done.
      eexists. split; [exact (cut_off_msg "bad WriteBatch Put"%string eq_refl)|done].
    + rewrite (get_slice_cut key part (x :: k) Hk Ek) by done. eexists. split; [exact (cut_off_msg "bad WriteBatch Put"%string eq_refl)|done].
    + rewrite get_slice by done. rewrite (get_slice_cut value k rest Hv E Hr).
      eexists. split; [exact (cut_off_msg "bad WriteBatch Put"%string eq_refl)|done].
  - change (kTypeDeletion =? kTypeValue) with false. rewrite Z.eqb_refl. rewrite (get_slice_cut key part rest Ho E Hr).
    eexists. split; [exact (cut_off_msg "bad WriteBatch Delete"%string eq_refl)|done].
Qed.

(** A batch that is cut off is refused; the operations before the cut are played. *)
Lemma Iterate_cut b q ops b' c st : holds b q ops -> b = b' ++ c -> c <> [] ->
  exists ops1 ops2 s, ops = ops1 ++ ops2 /\ cut_off s /\
    Iterate handler b' st = let! (ok, st') := play ops1 st in Ret (if ok then Some s else None, st').
Proof.
  intros (E & Hq & Hn & Hops) Eb Hc. unfold Iterate, kHeader. destruct (Z.ltb_spec (zlen b') 12) as [Hlt|Hge].
  { eexists [], ops, _. split_and!; [done|exact (cut_off_msg "malformed WriteBatch (too small)"%string eq_refl)|done]. }
  assert (exists p, b' = EncodeFixed64 q ++ EncodeFixed32 (zlen ops) ++ p /\ records ops = p ++ c) as (p & Eb' & Ep).
  { rewrite E in Eb. rewrite app_assoc in Eb. apply app_eq_inv in Eb as [(k & Ek & Er)|(k & -> & Er)].
    - destruct k as [|x k].
      + rewrite app_nil_r in Ek. cbn [app] in Er. exists []. by rewrite app_nil_r, Ek, Er.
      + exfalso. apply (f_equal length) in Ek. rewrite !length_app, length_fixed32, length_fixed64 in Ek. unfold zlen in Hge. cbn in Ek. lia.
    - exists k. by rewrite <- app_assoc. }
  destruct (records_cut ops p c Ep Hc) as (ops1 & o & ops2 & part & rest & -> & -> & Eo & Hrest).
  apply Forall_app in Hops as [Hops1 [Ho _]%Forall_cons]. rewrite zlen_app, zlen_cons in Hn.
  pose proof (zlen_nonneg ops1). pose proof (zlen_nonneg ops2).
  assert (Count b' = Ret (zlen (ops1 ++ o :: ops2))) as Ec.
  { rewrite Eb'. apply Count_header. rewrite zlen_app, zlen_cons. lia. }
  exists ops1, (o :: ops2). change (Z.to_nat 12) with 12%nat.
  assert (skipn 12 b' = records ops1 ++ part) as -> by (rewrite Eb'; apply header_parts).
  pose proof (records_length ops1). rewrite length_app.
  replace (S (length (records ops1) + length part)) with (length ops1 + (S (length (records ops1) + length part - length ops1)))%nat by lia.
  rewrite loop_ops by (done || lia). rewrite Z.add_0_l.
  destruct (round_cut b' o part rest (zlen ops1) (zlen (ops1 ++ o :: ops2)) Ho Eo Hrest) as (s & Hs & Hround);
    [lia|done|rewrite zlen_app, zlen_cons; lia|].
  exists s. split; [done|]. split; [done|]. destruct (play ops1 st) as [[ok st']| |]; [|done|done]. cbn [rbind]. destruct ok; [|done].
  by rewrite loop_unfold, Hround.
Qed.

End IterateProof.

(** ** Into the memtable *)

Section Insertion.
Context {user : Comparator} {valid : list Z -> Prop} {cmp : list Z -> list Z -> Z} {laws : ComparatorLaws user valid cmp}.
Context {new_array : list region -> Z -> option Z} {fresh : FreshBlocks new_array}.
Context {sizeof_Node : Z} (sizeof_ok : 0 < sizeof_Node < 2 ^ 32).
Abbreviation table_ok := (table_ok (valid := valid) (cmp := cmp)).
Abbreviation entry_order := (entry_order (cmp := cmp)).
Abbreviation visible := (visible (cmp := cmp)).
Abbreviation handler := (inserter_handler user new_array sizeof_Node).

Definition op_key (o : op) : list Z := match o with OpPut key _ => key | OpDelete key => key end.

(** The entry an operation becomes. *)
Definition entry_of (q : Z) (o : op) : entry :=
  match o with
  | OpPut key value => mk_entry key q kTypeValue value
  | OpDelete key => mk_entry key q kTypeDeletion []
  end.

Fixpoint entries_of (q : Z) (ops : list op) : list entry :=
  match ops with [] => [] | o :: ops => entry_of q o :: entries_of (q + 1) ops end.

Definition insert_all (es new : list entry) : list entry := foldl (fun es e => insert_sorted entry_order e es) es new.

Definition op_fits (o : op) : Prop := op_ok o /\ valid (op_key o) /\ zlen (op_key o) + 8 < 2 ^ 32.

Lemma entry_of_ok q o : op_fits o -> is_sequence q -> entry_ok (valid := valid) (entry_of q o).
Proof.
  intros (Ho & Hv & Hl) Hq. destruct o as [key value|key]; cbn in *; split_and!; cbn; try done.
  - by right.
  - apply Ho.
  - by left.
Qed.

Lemma insert_all_perm new : forall es, insert_all es new ≡ₚ es ++ new.
Proof.
  induction new as [|e new IH]; intros es; [by rewrite app_nil_r|]. cbn [insert_all foldl]. fold (insert_all (insert_sorted entry_order e es) new).
  rewrite IH, insert_sorted_perm. cbn. by rewrite Permutation_middle.
Qed.

Lemma entries_seq ops : forall q e, e ∈ entries_of q ops ->
  exists ops1 o ops2, ops = ops1 ++ o :: ops2 /\ e = entry_of (q + zlen ops1) o.
Proof.
  induction ops as [|o ops IH]; intros q e H; [by apply not_elem_of_nil in H|].
  cbn [entries_of] in H. apply elem_of_cons in H as [->|H].
  - exists [], o, ops. split; [done|]. by rewrite Z.add_0_r.
  - destruct (IH _ _ H) as (ops1 & o' & ops2 & -> & ->). exists (o :: ops1), o', ops2. split; [done|].
    rewrite zlen_cons. f_equal. lia.
Qed.

Lemma entry_of_parts q o : e_user (entry_of q o) = op_key o /\ e_seq (entry_of q o) = q.
Proof. by destruct o. Qed.

(** Adding one operation, with a number above all those in the table. *)
Lemma play_op_ok m es q o :
  table_ok m es -> Forall (fun e => e_seq e < q) es -> is_sequence q -> op_fits o ->
  exists (ok : bool) m', play_op handler o (mk_inserter q m) = Ret (ok, mk_inserter (if ok then q + 1 else q) m') /\
    table_ok m' (if ok then insert_sorted entry_order (entry_of q o) es else es) /\ refs_ m' = refs_ m.
Proof.
  intros Hm Hseq Hq Ho. pose proof (entry_of_ok q o Ho Hq) as He.
  destruct (Add_ok (new_array := new_array) sizeof_ok m es (entry_of q o) Hm He) as (ok & m' & E & Hm' & Hr).
  { eapply Forall_impl; [exact Hseq|]. intros e Hlt (_ & Es & _). rewrite (proj2 (entry_of_parts q o)) in Es. cbn in Hlt. lia. }
  exists ok, m'. split; [|done]. assert (u64 (q + 1) = q + 1) as Eq.
  { apply (wrap_small 64). unfold is_sequence in Hq. change kMaxSequenceNumber with (2 ^ 56 - 1) in Hq. lia. }
  destruct o as [key value|key]; cbn [play_op handle_Put handle_Delete inserter_handler]; unfold inserter_add; cbn [mem_ sequence_];
    cbn [entry_of e_seq e_type e_user e_value] in E; rewrite E; cbn [rbind]; rewrite Eq; by destruct ok.
Qed.

Lemma play_ok ops : forall m es q,
  table_ok m es -> Forall (fun e => e_seq e < q) es -> 0 <= q -> q + zlen ops - 1 <= kMaxSequenceNumber -> Forall op_fits ops ->
  exists ok ops1 ops2 q' m', ops = ops1 ++ ops2 /\ play handler ops (mk_inserter q m) = Ret (ok, mk_inserter q' m') /\
    table_ok m' (insert_all es (entries_of q ops1)) /\ refs_ m' = refs_ m /\ (ok = true -> ops2 = []).
Proof.
  induction ops as [|o ops IH]; intros m es q Hm Hseq Hq Hmax Hops; [by exists true, [], [], q, m|].
  apply Forall_cons in Hops as [Ho Hops]. rewrite zlen_cons in Hmax. pose proof (zlen_nonneg ops).
  destruct (play_op_ok m es q o Hm Hseq ltac:(split; lia) Ho) as (ok & m1 & E & Hm1 & Hr1). cbn [play]. rewrite E.
  destruct ok; cbn [bind_ok]; [|by exists false, [], (o :: ops), q, m1].
  destruct (IH m1 _ (q + 1) Hm1) as (ok & ops1 & ops2 & q' & m' & -> & E' & Hm' & Hr & Hok); [|lia|lia|done|].
  { rewrite insert_sorted_perm. constructor; [rewrite (proj2 (entry_of_parts q o)); lia|]. eapply Forall_impl; [exact Hseq|]. cbn. lia. }
  exists ok, (o :: ops1), ops2, q', m'. split_and!; [done|done|exact Hm'|congruence|done].
Qed.

(** A table where every entry has a number of its own, below [q]. *)
Definition numbered (m : MemTable) (es : list entry) (q : Z) : Prop :=
  table_ok m es /\ NoDup (map e_seq es) /\ Forall (fun e => e_seq e < q) es.

Lemma entries_numbers ops : forall q, map e_seq (entries_of q ops) = map (fun i => q + Z.of_nat i) (seq 0 (length ops)).
Proof.
  induction ops as [|o ops IH]; intros q; [done|]. cbn [entries_of map length seq]. rewrite (proj2 (entry_of_parts q o)), IH.
  f_equal; [lia|]. rewrite <- seq_shift, map_map. apply map_ext. lia.
Qed.

Lemma numbered_more m m' es q ops : numbered m es q -> 0 <= q ->
  table_ok m' (insert_all es (entries_of q ops)) -> numbered m' (insert_all es (entries_of q ops)) (q + zlen ops).
Proof.
  intros (_ & Hnd & Hlt) Hq Hm'. split; [done|]. rewrite (insert_all_perm (entries_of q ops) es), map_app, entries_numbers. split.
  - apply NoDup_app. split_and!; [done| |].
    + intros x Hx Hx'. apply list_elem_of_In, in_map_iff in Hx as (e & <- & He%list_elem_of_In).
      apply list_elem_of_In, in_map_iff in Hx' as (i & Ei & _). eapply Forall_forall in Hlt; [|exact He]. cbn in Hlt. lia.
    + apply (NoDup_fmap_2_strong (fun i => q + Z.of_nat i)); [intros; lia|apply NoDup_seq].
  - apply Forall_app. pose proof (zlen_nonneg ops). split; [eapply Forall_impl; [exact Hlt|]; cbn; lia|].
    apply Forall_forall. intros e He. destruct (entries_seq _ _ _ He) as (ops1 & o & ops2 & -> & ->).
    rewrite (proj2 (entry_of_parts _ o)), zlen_app, zlen_cons. pose proof (zlen_nonneg ops2). lia.
Qed.

Lemma InsertInto_ok m es b q ops :
  holds b q ops -> numbered m es q -> 0 <= q -> q + zlen ops - 1 <= kMaxSequenceNumber -> Forall op_fits ops ->
  exists status ops1 ops2 m', ops = ops1 ++ ops2 /\ InsertInto user new_array sizeof_Node b m = Ret (status, m') /\
    numbered m' (insert_all es (entries_of q ops1)) (q + zlen ops1) /\ refs_ m' = refs_ m /\
    (status = None \/ status = Some status_ok /\ ops2 = []).
Proof.
  intros Hb Hm Hq Hmax Hops. pose proof Hm as (Ht & _ & Hlt). destruct (holds_header _ _ _ Hb) as (_ & Es & _).
  unfold InsertInto. rewrite Es. cbn [rbind]. rewrite (Iterate_ok handler b q ops) by done.
  destruct (play_ok ops m es q Ht Hlt Hq Hmax Hops) as (ok & ops1 & ops2 & q' & m' & -> & -> & Hm' & Hr & Hok). cbn [rbind mem_].
  exists (if ok then Some status_ok else None), ops1, ops2, m'. split_and!; [done|done|by eapply numbered_more|done|].
  destruct ok; [right; split; [done|by apply Hok]|by left].
Qed.

(** *** What a lookup sees afterwards *)

(** The last operation on a key. *)
Definition last_op (u : list Z) (ops : list op) : option op := List.find (fun o => cmp (op_key o) u =? 0) (rev ops).

Definition op_answer (o : op) (value : list Z) (st : Status) : bool * list Z * Status :=
  match o with OpPut _ v => (true, v, st) | OpDelete _ => (true, value, NotFound [] []) end.

Lemma answer_entry q o value st : answer (Some (entry_of q o)) value st = op_answer o value st.
Proof. by destruct o. Qed.

Lemma last_op_split u ops : 
  match last_op u ops with
  | Some o => exists ops1 ops2, ops = ops1 ++ o :: ops2 /\ cmp (op_key o) u = 0 /\ Forall (fun o => cmp (op_key o) u <> 0) ops2
  | None => Forall (fun o => cmp (op_key o) u <> 0) ops
  end.
Proof.
  unfold last_op. destruct (List.find _ (rev ops)) as [o|] eqn:E.
  - apply find_split in E as (l1 & l2 & E & Ho & Hl). exists (rev l2), (rev l1). split_and!.
    + rewrite <- (rev_involutive ops), E, rev_app_distr. cbn. by rewrite <- app_assoc.
    + by apply Z.eqb_eq.
    + apply Forall_rev. eapply Forall_impl; [exact Hl|]. cbn. intros x Hx. by apply Z.eqb_neq.
  - apply Forall_forall. intros o Ho. apply Z.eqb_neq. apply (find_none _ _ E o). apply in_rev. rewrite rev_involutive. by apply list_elem_of_In.
Qed.

(** Two newest entries are the same when the numbers are distinct. *)
Lemma newest_unique u s es f1 f2 : NoDup (map e_seq es) ->
  newest (cmp := cmp) u s es f1 -> newest (cmp := cmp) u s es f2 -> f1 = f2.
Proof.
  intros Hnd H1 H2. destruct f1 as [e1|], f2 as [e2|]; cbn [newest] in *; [|exfalso|exfalso|done].
  - destruct H1 as (Hi1 & Hv1 & Hm1), H2 as (Hi2 & Hv2 & Hm2). pose proof (Hm1 _ Hi2 Hv2). pose proof (Hm2 _ Hi1 Hv1).
    f_equal. apply list_elem_of_lookup in Hi1 as [i1 E1], Hi2 as [i2 E2].
    assert (i1 = i2) as ->; [|congruence].
    apply (NoDup_lookup (e_seq <$> es) i1 i2 (e_seq e1)); [done|by rewrite list_lookup_fmap, E1|].
    rewrite list_lookup_fmap, E2. cbn. f_equal. lia.
  - destruct H1 as (Hi & Hv & _). eapply Forall_forall in H2; [|exact Hi]. cbn in H2. congruence.
  - destruct H2 as (Hi & Hv & _). eapply Forall_forall in H1; [|exact Hi]. cbn in H1. congruence.
Qed.

(** The operations of a batch, once in the table, answer lookups at its last
    number; keys the batch does not touch are answered as before. *)
Lemma lookup_after m m' es q ops u k value st :
  numbered m es q -> 0 <= q -> table_ok m' (insert_all es (entries_of q ops)) -> q + zlen ops - 1 <= kMaxSequenceNumber ->
  Forall op_fits ops -> ops <> [] -> valid u -> zlen u + 13 < 2 ^ 32 -> new_lookup_key u (q + zlen ops - 1) = Ret k ->
  exists old, newest (cmp := cmp) u (q + zlen ops - 1) es old /\
    LdbMemTable.Get user m' k value st =
      Ret match last_op u ops with Some o => op_answer o value st | None => answer old value st end.
Proof.
  intros Hm Hq Hm' Hmax Hops Hne Hu Hl Ek. set (s := q + zlen ops - 1) in *.
  assert (1 <= zlen ops) as Hlen by (destruct ops; [done|]; rewrite zlen_cons; pose proof (zlen_nonneg ops); lia).
  assert (is_sequence s) as Hs by (split; lia).
  rewrite (Get_ok m' _ u s k value st Hm' Hu Hs Hl Ek).
  exists (List.find (visible u s) es). split; [eapply find_newest; [apply Hm|done]|]. f_equal.
  pose proof (find_newest m' _ u s Hm' Hu) as Hnew. destruct (numbered_more m m' es q ops Hm Hq Hm') as (_ & Hnd & _).
  assert (forall e, e ∈ insert_all es (entries_of q ops) <-> e ∈ es \/ e ∈ entries_of q ops) as Hin.
  { intros e. by rewrite (insert_all_perm (entries_of q ops) es), elem_of_app. }
  pose proof (last_op_split u ops) as Hlast. destruct (last_op u ops) as [o|].
  - destruct Hlast as (ops1 & ops2 & Eops & Ho & Hafter). rewrite <- (answer_entry (q + zlen ops1) o value st). f_equal.
    eapply newest_unique; [exact Hnd|exact Hnew|]. cbn [newest].
    assert (entry_of (q + zlen ops1) o ∈ entries_of q ops) as Ho_in.
    { rewrite Eops. clear. revert q; induction ops1 as [|o1 ops1 IH]; intros q; cbn [app entries_of].
      - rewrite Z.add_0_r. by left.
      - right. rewrite zlen_cons. replace (q + (1 + zlen ops1)) with (q + 1 + zlen ops1) by lia. apply IH. }
    split_and!; [apply Hin; by right| |].
    + unfold LdbMemTable.visible. destruct (entry_of_parts (q + zlen ops1) o) as [-> ->]. rewrite Ho. cbn [Z.eqb andb].
      apply Z.leb_le. subst s. rewrite Eops, zlen_app, zlen_cons. pose proof (zlen_nonneg ops2). lia.
    + intros e' He' Hv. destruct (entry_of_parts (q + zlen ops1) o) as [_ ->]. apply andb_prop in Hv as [Hv _]. apply Z.eqb_eq in Hv.
      apply Hin in He' as [He'|He'].
      * destruct Hm as (_ & _ & Hlt). eapply Forall_forall in Hlt; [|exact He']. cbn in Hlt. pose proof (zlen_nonneg ops1). lia.
      * destruct (entries_seq _ _ _ He') as (l1 & o' & l2 & El & ->). destruct (entry_of_parts (q + zlen l1) o') as [Eu ->].
        rewrite Eu in Hv. destruct (decide (length l1 <= length ops1)%nat) as [Hle|Hgt]; [unfold zlen; lia|exfalso].
        eapply Forall_forall in Hafter; [by apply Hafter|]. rewrite Eops in El. symmetry in El.
        apply app_eq_inv in El as [(x & -> & El)|(x & -> & El)].
        -- rewrite length_app in Hgt. destruct x as [|y x]; cbn in Hgt; [lia|]. injection El as _ ->. apply elem_of_app. right. by left.
        -- rewrite length_app in Hgt. lia.
  - f_equal. eapply newest_unique; [exact Hnd|exact Hnew|].
    assert (forall e, e ∈ entries_of q ops -> visible u s e = false) as Hnone.
    { intros e He. destruct (entries_seq _ _ _ He) as (l1 & o & l2 & -> & ->). apply andb_false_iff. left. apply Z.eqb_neq.
      rewrite (proj1 (entry_of_parts _ o)). eapply Forall_forall in Hlast; [exact Hlast|]. apply elem_of_app. right. by left. }
    pose proof (find_newest m es u s (proj1 Hm) Hu) as Hold. destruct (List.find (visible u s) es) as [e|]; cbn [newest] in *.
    + destruct Hold as (He & Hv & Hmx). split_and!; [apply Hin; by left|done|]. intros e' [He'|He']%Hin Hv'; [by apply Hmx|].
      rewrite Hnone in Hv' by done. done.
    + apply Forall_forall. intros e' [He'|He']%Hin; [by eapply Forall_forall in Hold|by apply Hnone].
Qed.

(** ** Theorems *)

(** Building a batch: [Clear] makes the empty one, [Put] and [Delete] add one
    operation each, [Append] the operations of another batch, [SetSequence] and
    [SetContents] keep them; the count, the number and the bytes are those of the
    operations. *)
Theorem batch_building b q ops b2 q2 ops2 o q' :
  holds b q ops -> holds b2 q2 ops2 -> op_ok o -> is_u64 q' -> zlen ops + zlen ops2 < 2 ^ 31 - 1 ->
  holds Clear 0 [] /\ Count b = Ret (zlen ops) /\ Sequence b = Ret q /\ ByteSize b = 12 + zlen (records ops) /\
  (exists b', add_op b o = Ret b' /\ holds b' q (ops ++ [o])) /\
  (exists b', Append b b2 = Ret b' /\ holds b' q (ops ++ ops2)) /\
  (exists b', SetSequence b q' = Ret b' /\ holds b' q' ops) /\
  SetContents (Contents b) = Ret b.
Proof.
  intros H H2 Ho Hq' Hn. destruct (holds_header _ _ _ H) as (Ec & Es & El & _). pose proof (zlen_nonneg ops2).
  split_and!; [apply Clear_holds|done..|apply add_op_ok; [done..|lia]|eapply Append_ok; [done..|lia]|by eapply SetSequence_ok|by eapply SetContents_ok].
Qed.

(** Iterating over a batch plays its operations to the handler, in order, until one
    throws; over a batch that is cut off it plays a prefix of them and then
    reports corruption. *)
Theorem batch_iteration {St : Type} (h : Handler St) b q ops b' c st :
  holds b q ops -> b = b' ++ c -> c <> [] ->
  Iterate h b st = (let! (ok, st') := play h ops st in Ret (if ok then Some status_ok else None, st')) /\
  exists ops1 ops2 s, ops = ops1 ++ ops2 /\ cut_off s /\
    Iterate h b' st = let! (ok, st') := play h ops1 st in Ret (if ok then Some s else None, st').
Proof. intros H Eb Hc. split; [by eapply Iterate_ok|by eapply Iterate_cut]. Qed.

(** C28. Inserting a batch into a memtable gives its operations consecutive numbers.
    Unless an allocation throws, after which the table holds a prefix of them, it
    succeeds, and from then on a lookup at the last number answers with the last
    operation of the batch on the key, or as before when there is none. *)
Theorem batch_visible m es b q ops u k value st :
  holds b q ops -> numbered m es q -> 0 <= q -> q + zlen ops - 1 <= kMaxSequenceNumber -> Forall op_fits ops -> ops <> [] ->
  valid u -> zlen u + 13 < 2 ^ 32 -> new_lookup_key u (q + zlen ops - 1) = Ret k ->
  exists status m', InsertInto user new_array sizeof_Node b m = Ret (status, m') /\
    match status with
    | None => exists ops1 ops2, ops = ops1 ++ ops2 /\ numbered m' (insert_all es (entries_of q ops1)) (q + zlen ops1)
    | Some s => s = status_ok /\ numbered m' (insert_all es (entries_of q ops)) (q + zlen ops) /\
        exists old, newest (cmp := cmp) u (q + zlen ops - 1) es old /\
          LdbMemTable.Get user m' k value st =
            Ret match last_op u ops with Some o => op_answer o value st | None => answer old value st end
    end.
Proof.
  intros Hb Hm Hq Hmax Hops Hne Hu Hl Ek.
  destruct (InsertInto_ok m es b q ops Hb Hm Hq Hmax Hops) as (status & ops1 & ops2 & m' & -> & E & Hm' & _ & Hs).
  exists status, m'. split; [done|]. destruct Hs as [->|[-> ->]]; [by exists ops1, ops2|]. rewrite app_nil_r in *.
  split_and!; [done|done|]. eapply lookup_after; try done. apply Hm'.
Qed.

End Insertion.
