(* ===== verification/Witnesses.v ===== *)
(** * Concrete instances

    The properties of the other files that have hypotheses, each applied to
    concrete data: messages of the log transport in a concrete memory, concrete
    inputs, the environment of [Transport]. *)
From S2P Require Import Prelude WireSpec CMem CLayout PbH PbStream PbCommon PbEncode PbEmission PbEncodeRef.
From S2P Require Import PbDecodePrim PbPrimSpec PbDecode PbDecodeTotal PbDecodeSpec PbDefects CctProto.
From S2P Require Import CoreDiagProto Transport FBase64.
From Stdlib Require Import ZArith Lia.
From stdpp Require Import base tactics numbers list gmap strings.
#[local] Open Scope Z_scope.

(** ** Sample data *)

(** Every byte of a concrete memory is a byte. *)
Definition mem_okb (m : gmap Z mbyte) : bool :=
  forallb (fun '(_, c) => match c with Byte b => (0 <=? b) && (b <? 256) | Undef => true end) (map_to_list m).

Lemma mem_okb_spec m : mem_okb m = true -> mem_ok m.
Proof.
  intros Hm x c Hx. destruct c as [|b]; [done|]. unfold mem_okb in Hm. rewrite forallb_forall in Hm.
  specialize (Hm (x, Byte b)). apply elem_of_map_to_list, list_elem_of_In, Hm in Hx. cbn in Hx. unfold is_byte. lia.
Qed.

Definition put (m : gmap Z mbyte) (a : Z) (n : nat) (v : Z) : gmap Z mbyte :=
  set_range m a (Byte <$> le_split n v).

(** A log request: source 7, tier 3, and a client info with an iOS version in a
    heap block. *)
Definition sample_version : Z := 0x18000.

Definition sample_mem : gmap Z mbyte :=
  let st := gdt_cct_LogRequest in
  let at_ (name : string) := struct_at + offsetof st (Mem name) in
  let client := at_ "client_info" in
  let ios := client + offsetof gdt_cct_ClientInfo (Mem "ios_client_info") in
  let m := set_range (cct_rodata ∅) struct_at (replicate (Z.to_nat (sizeof st)) (Byte 0)) in
  let m := set_range m sample_version (Byte <$> (le_split 4 2 ++ [0x31; 0x33])) in
  let m := put m (at_ "has_client_info") 1 1 in
  let m := put m (client + offsetof gdt_cct_ClientInfo (Mem "has_ios_client_info")) 1 1 in
  let m := put m (ios + offsetof gdt_cct_IosClientInfo (Mem "os_major_version")) 8 sample_version in
  let m := put m (at_ "has_log_source") 1 1 in
  let m := put m (at_ "log_source") 4 7 in
  let m := put m (at_ "has_qos_tier") 1 1 in
  put m (at_ "qos_tier") 4 3.

Definition sample_bytes : list Z := [0x0A; 0x06; 0x22; 0x04; 0x1A; 0x02; 0x31; 0x33; 0x10; 7; 0x48; 3].

Lemma sample_mem_ok : mem_ok sample_mem.
Proof. apply mem_okb_spec. vm_compute. reflexivity. Qed.

Lemma sample_wf : wf_fields gdt_cct_LogRequest_fields.
Proof. apply wf_fieldsb_spec. vm_compute. reflexivity. Qed.

Lemma sample_ref : ref_message sample_mem 4 gdt_cct_LogRequest_fields struct_at = Ret (Some sample_bytes).
Proof. vm_compute. reflexivity. Qed.

Lemma sample_table : wf_table gdt_cct_LogRequest_fields.
Proof. apply sample_wf. Qed.

(** Conditions on concrete data. *)
Ltac concrete :=
  lazymatch goal with
  | |- mem_ok _ => exact sample_mem_ok
  | |- wf_fields _ => apply wf_fieldsb_spec; vm_compute; reflexivity
  | |- wf_table _ => exact sample_table
  | |- ref_message sample_mem _ _ _ = _ => exact sample_ref
  | |- Forall is_byte ?l =>
      let bytes := eval vm_compute in l in
      change (Forall is_byte bytes); repeat (constructor; [unfold is_byte; lia|]); constructor
  | |- wf_stream PB_OSTREAM_SIZING => left; repeat split; lia
  | |- wf_stream (pb_ostream_from_buffer ?b _) =>
      right; repeat split; try (cbn; lia); exists b, 0; repeat split; vm_compute; discriminate
  | |- fits _ _ => vm_compute; discriminate
  | |- _ = _ => vm_compute; reflexivity
  | |- (_ < _)%Z => vm_compute; reflexivity
  | |- _ => first [lia | vm_compute; lia | vm_compute; discriminate | idtac]
  end.

(** ** The iterator *)

Lemma pb_field_iter_find_witness :
  pb_field_iter_find (iter_at gdt_cct_LogRequest_fields struct_at 2) 2
  = Ret (true, iter_at gdt_cct_LogRequest_fields struct_at 1).
Proof.
  exact (pb_field_iter_find_correct gdt_cct_LogRequest_fields struct_at 2 2 sample_table
    ltac:(vm_compute; lia)).
Defined.

Lemma pb_field_iter_enumerates_witness :
  pb_field_iter_begin gdt_cct_LogRequest_fields struct_at
  = Ret (true, iter_at gdt_cct_LogRequest_fields struct_at 0)
  /\ pb_field_iter_next (iter_at gdt_cct_LogRequest_fields struct_at 5)
     = Ret (false, iter_at gdt_cct_LogRequest_fields struct_at 0).
Proof.
  destruct (pb_field_iter_enumerates gdt_cct_LogRequest_fields struct_at sample_table) as [Hb Hn].
  split; [exact Hb|]. apply (Hn 5%nat). vm_compute. lia.
Defined.

(** ** The encoder *)

Definition out_buffer : list Z := replicate 20 0xEE.

Lemma pb_encode_emits_witness :
  pb_encode sample_mem 4 (pb_ostream_from_buffer out_buffer 12) gdt_cct_LogRequest_fields struct_at
  = Ret (true, push (pb_ostream_from_buffer out_buffer 12) sample_bytes)
  /\ exists s', pb_encode sample_mem 4 (pb_ostream_from_buffer out_buffer 11) gdt_cct_LogRequest_fields struct_at
                = Ret (false, s').
Proof.
  split.
  - apply (pb_encode_emits sample_mem sample_mem_ok 4 gdt_cct_LogRequest_fields struct_at
      (pb_ostream_from_buffer out_buffer 12) (Some sample_bytes)); concrete.
  - apply (pb_encode_emits sample_mem sample_mem_ok 4 gdt_cct_LogRequest_fields struct_at
      (pb_ostream_from_buffer out_buffer 11) (Some sample_bytes)); try concrete.
    intros Hf. specialize (Hf eq_refl). vm_compute in Hf. by apply Hf.
Defined.

Lemma pb_get_encoded_size_witness :
  pb_get_encoded_size sample_mem 4 gdt_cct_LogRequest_fields struct_at = Ret (Some 12).
Proof.
  transitivity (Ret (zlen <$> Some sample_bytes)); [|reflexivity].
  apply (pb_get_encoded_size_exact sample_mem sample_mem_ok 4 gdt_cct_LogRequest_fields struct_at
    (Some sample_bytes) sample_wf sample_ref).
  intros bs [= <-]. reflexivity.
Defined.

Lemma pb_encode_to_buffer_witness :
  exists s,
    pb_encode sample_mem 4 (pb_ostream_from_buffer out_buffer 15) gdt_cct_LogRequest_fields struct_at
    = Ret (true, s)
    /\ os_state s = OSBuf (sample_bytes ++ drop 12 out_buffer) 12 /\ os_bytes_written s = 12.
Proof.
  assert (0 <= 15 <= zlen out_buffer) as Hsize by (vm_compute; split; discriminate).
  pose proof (pb_encode_to_buffer sample_mem sample_mem_ok 4 gdt_cct_LogRequest_fields struct_at out_buffer 15
    sample_bytes sample_wf sample_ref Hsize ltac:(lia)) as Hw. cbn zeta in Hw.
  change (zlen sample_bytes <=? 15) with true in Hw. cbn iota in Hw. exact Hw.
Defined.

Lemma two_pass_encoding_witness :
  exists bs s, Some sample_bytes = Some bs /\ zlen bs = 12
    /\ pb_encode sample_mem 4 (pb_ostream_from_buffer (replicate 12 0) 12) gdt_cct_LogRequest_fields struct_at
       = Ret (true, s)
    /\ os_state s = OSBuf bs 12 /\ os_bytes_written s = 12.
Proof.
  assert (pb_get_encoded_size sample_mem 4 gdt_cct_LogRequest_fields struct_at = Ret (Some 12)) as Hsize
    by (vm_compute; reflexivity).
  apply (two_pass_encoding sample_mem sample_mem_ok 4 gdt_cct_LogRequest_fields struct_at
    (Some sample_bytes) 12 (replicate 12 0) sample_wf sample_ref ltac:(lia)); [|exact Hsize|reflexivity].
  intros bs [= <-]. reflexivity.
Defined.

Lemma pb_encode_delimited_witness :
  pb_encode_delimited sample_mem 4 (pb_ostream_from_buffer out_buffer 20) gdt_cct_LogRequest_fields struct_at
  = Ret (true, push (pb_ostream_from_buffer out_buffer 20) (12 :: sample_bytes)).
Proof.
  change (12 :: sample_bytes) with (delimited_bytes sample_bytes).
  apply (pb_encode_delimited_emits sample_mem sample_mem_ok 4 gdt_cct_LogRequest_fields struct_at
    (pb_ostream_from_buffer out_buffer 20) sample_bytes); concrete.
Defined.

Lemma pb_encode_nullterminated_witness :
  pb_encode_nullterminated sample_mem 4 (pb_ostream_from_buffer out_buffer 20) gdt_cct_LogRequest_fields struct_at
  = Ret (true, push (pb_ostream_from_buffer out_buffer 20) (sample_bytes ++ [0])).
Proof.
  apply (pb_encode_nullterminated_emits sample_mem sample_mem_ok 4 gdt_cct_LogRequest_fields struct_at
    (pb_ostream_from_buffer out_buffer 20) sample_bytes); concrete.
Defined.

(** ** Values on the wire *)

Definition small_buffer : pb_ostream_t := pb_ostream_from_buffer (replicate 12 0) 12.

Lemma small_buffer_wf : wf_stream small_buffer.
Proof. unfold small_buffer. concrete. Qed.

Lemma varint_roundtrip_witness :
  pb_encode_varint small_buffer 300 = Ret (true, push small_buffer [0xAC; 0x02])
  /\ pb_decode_varint (reader [0xAC; 0x02; 7] [] None) = Ret (Some 300, reader [7] [] None).
Proof.
  destruct (varint_roundtrip 300 small_buffer [7] [] None ltac:(lia) small_buffer_wf ltac:(concrete)
    ltac:(concrete)) as (He & _ & _ & Hd).
  split; [exact He|exact Hd].
Defined.

Lemma pb_decode_varint_witness :
  (exists s : pb_istream_t, pb_decode_varint (reader [0xFF; 0x01; 9] [3] None)
     = Ret (Some 255, reader [9] [3] None))
  /\ exists s, pb_decode_varint (reader (replicate 11 0xFF) [3] None) = Ret (None, s).
Proof.
  split.
  - exact (pb_decode_varint_correct [0xFF; 0x01; 9] [3] None ltac:(concrete)).
  - exact (pb_decode_varint_correct (replicate 11 0xFF) [3] None ltac:(concrete)).
Defined.

Lemma pb_decode_varint32_agrees_witness :
  pb_decode_varint32 (reader [0xFF; 0xFF; 0xFF; 0xFF; 0x0F] [] None)
  = Ret (Some (2 ^ 32 - 1), reader [] [] None).
Proof.
  destruct (pb_decode_varint32_agrees [0xFF; 0xFF; 0xFF; 0xFF; 0x0F] [] None (2 ^ 32 - 1) []
    ltac:(concrete) ltac:(concrete)) as [Hlow _].
  apply Hlow. lia.
Defined.

Lemma svarint_roundtrip_witness :
  pb_encode_svarint small_buffer (-3) = Ret (true, push small_buffer [5])
  /\ pb_decode_svarint (reader [5; 1] [] None) = Ret (Some (-3), reader [1] [] None).
Proof.
  exact (svarint_roundtrip (-3) small_buffer [1] [] None ltac:(lia) small_buffer_wf ltac:(concrete)
    ltac:(concrete)).
Defined.

Lemma fixed_roundtrip_witness :
  pb_encode_fixed32 small_buffer 0x01020304 = Ret (true, push small_buffer [4; 3; 2; 1])
  /\ pb_decode_fixed64 (reader (replicate 8 0xFF) [] None) = Ret (Some (2 ^ 64 - 1), reader [] [] None).
Proof.
  destruct (fixed_roundtrip 0x01020304 (2 ^ 64 - 1) small_buffer [] [] None ltac:(lia) ltac:(lia)
    small_buffer_wf ltac:(concrete)) as (H32 & _ & _ & H64).
  split; [exact H32|exact H64].
Defined.

Lemma tag_roundtrip_witness :
  pb_encode_tag small_buffer PB_WT_STRING 23 = Ret (true, push small_buffer [0xBA; 0x01])
  /\ pb_decode_tag (reader [0xBA; 0x01] [] None) = Ret (Some (2, 23), false, reader [] [] None).
Proof.
  exact (tag_roundtrip PB_WT_STRING 23 small_buffer [] [] None ltac:(vm_compute; split; congruence)
    ltac:(lia) small_buffer_wf ltac:(concrete) ltac:(concrete)).
Defined.

Lemma pb_skip_field_witness :
  pb_skip_field (reader [2; 0xAA; 0xBB; 7] [1] None) PB_WT_STRING = Ret (true, reader [7] [1] None).
Proof.
  exact (pb_skip_field_payload PB_WT_STRING (delimited_bytes [0xAA; 0xBB]) [7] [1] None
    (PString [0xAA; 0xBB] eq_refl) ltac:(concrete) ltac:(concrete)).
Defined.

Lemma substream_isolated_witness :
  exists s,
    pb_make_string_substream (reader [2; 0xAA; 0xBB; 7] [1] None)
    = Ret (Some (reader [0xAA; 0xBB] [7; 1] None), s)
    /\ forall d1 d2 e', [0xAA; 0xBB] = d1 ++ d2 ->
         pb_close_string_substream s (reader d2 [7; 1] e') = Ret (true, reader [7] [1] e').
Proof.
  exact (substream_isolated [0xAA; 0xBB] [7] [1] None eq_refl ltac:(concrete) ltac:(concrete)).
Defined.

(** ** The decoder *)

Lemma log_response_nest : nest_ok 2 gdt_cct_LogResponse_fields.
Proof. apply nest_okb_spec. vm_compute. reflexivity. Qed.

Lemma pb_decode_noinit_terminates_witness :
  pb_decode_noinit 4 (reader [0x08; 0x80; 0x1A; 0xFF] [] None) gdt_cct_LogResponse_fields struct_at
    (blank (sizeof gdt_cct_LogResponse)) <> OutOfFuel.
Proof.
  exact (proj1 (pb_decode_noinit_terminates 4 2 gdt_cct_LogResponse_fields [0x08; 0x80; 0x1A; 0xFF] [] None
    struct_at (blank (sizeof gdt_cct_LogResponse)) log_response_nest ltac:(lia) ltac:(concrete))).
Defined.

Lemma pb_decode_terminates_witness :
  pb_decode_top 4 (reader [0x08; 0x05; 0x1A; 0x02; 0x10; 0x09] [0x55] None) gdt_cct_LogResponse_fields struct_at
    (blank (sizeof gdt_cct_LogResponse)) <> OutOfFuel.
Proof.
  exact (proj1 (pb_decode_terminates 4 2 gdt_cct_LogResponse_fields [0x08; 0x05; 0x1A; 0x02; 0x10; 0x09] [0x55]
    None struct_at (blank (sizeof gdt_cct_LogResponse)) log_response_nest ltac:(lia) ltac:(concrete))).
Defined.

(** A state with one live block of two bytes, which the pointer at 0x100
    names. *)
Definition grow_state : mstate :=
  {| mem := put (set_range ∅ 0x200 [Byte 0xA1; Byte 0xA2]) 0x100 8 0x200; heap := {[ 0x200 := 2 ]};
     next := 0x300 |}.

Lemma grow_state_ok : st_ok grow_state.
Proof.
  split.
  - apply mem_okb_spec. vm_compute. reflexivity.
  - intros x Hx. unfold grow_state, put in Hx. cbn [mem] in Hx. rewrite !lookup_set_range in Hx.
    change (zlen (Byte <$> le_split 8 0x200)) with 8 in Hx. change (zlen [Byte 0xA1; Byte 0xA2]) with 2 in Hx.
    cbn. destruct (decide (0x100 <= x < 0x100 + 8)); [lia|].
    destruct (decide (0x200 <= x < 0x200 + 2)); [lia|]. rewrite lookup_empty in Hx. by destruct Hx.
  - intros p size Hp. cbn [heap grow_state] in Hp. apply lookup_singleton_Some in Hp as [<- <-]. cbn. lia.
  - intros p size q size' Hp Hq Hne. cbn [heap grow_state] in Hp, Hq.
    apply lookup_singleton_Some in Hp as [<- _], Hq as [<- _]. done.
  - done.
Qed.

Definition a_stream : pb_istream_t := reader [] [] None.

(** The state [allocate_field] leaves when it succeeds. *)
Definition state_after {A B : Type} (d : B) (r : res (bool * (A * B))) : B :=
  match r with
  | Ret (_, (_, b)) => b
  | _ => d
  end.

Lemma state_after_spec {A B : Type} (d : B) (a : A) (r : res (bool * (A * B))) :
  match r with
  | Ret (true, (s, _)) => s = a
  | _ => False
  end -> r = Ret (true, (a, state_after d r)).
Proof. by destruct r as [[[] [s b]]| |]; [intros ->|..]. Qed.

Lemma allocate_field_witness :
  exists p old osize,
    old = 0x200 /\ osize = 2 /\ p <> 0
    /\ load_ptr (mem (state_after grow_state (allocate_field a_stream 0x100 4 2 grow_state))) 0x100 = Ret p
    /\ forall i, 0 <= i < 8 ->
         mem (state_after grow_state (allocate_field a_stream 0x100 4 2 grow_state)) !! (p + i)
         = Some (if decide (i < osize) then default Undef (mem grow_state !! (old + i)) else Undef).
Proof.
  assert (allocate_field a_stream 0x100 4 2 grow_state
          = Ret (true, (a_stream, state_after grow_state (allocate_field a_stream 0x100 4 2 grow_state)))) as Hrun
    by (apply state_after_spec; vm_compute; reflexivity).
  destruct (allocate_field_correct a_stream 0x100 4 2 grow_state a_stream
    (state_after grow_state (allocate_field a_stream 0x100 4 2 grow_state)) grow_state_ok ltac:(lia) ltac:(lia)
    Hrun)
    as (p & old & osize & _ & _ & Hold & Hsize & _ & Hp & Hp0 & _ & Hbytes & _).
  exists p, old, osize.
  assert (old = 0x200) as -> by (vm_compute in Hold; congruence).
  assert (osize = 2) as -> by (vm_compute in Hsize; congruence).
  split; [reflexivity|]. split; [reflexivity|]. split; [exact Hp0|]. split; [exact Hp|exact Hbytes].
Defined.

(** A message type with two required fields and an optional one. *)
Definition three_fields : list pb_field_t :=
  let st := CStruct [("a"%string, CScalar 4); ("has_b"%string, CScalar 1); ("b"%string, CScalar 4);
                     ("c"%string, CScalar 8)] in
  [PB_FIELD 1 INT32 REQUIRED STATIC FIRST st "a" "a" 0;
   PB_FIELD 2 INT32 OPTIONAL STATIC OTHER st "b" "a" 0;
   PB_FIELD 3 FIXED64 REQUIRED STATIC OTHER st "c" "b" 0;
   PB_LAST_FIELD].

Lemma required_fields_checked_witness :
  let l := {| dl_iter := iter_at three_fields 0x100 0; dl_fields_seen := [0; 0];
              dl_extension_range_start := 0; dl_fixed_count_field := None |} in
  exists count b,
    count_required (iter_at three_fields 0x100 1) = Ret count
    /\ check_seen (dl_fields_seen (after_receiving three_fields 0x100 [2%nat; 1%nat] l)) count = Ret b
    /\ (b = true <->
        forall k, (k < field_count three_fields)%nat -> is_required (nth_field three_fields k) = true ->
          required_before three_fields k < 64 -> k ∈ [2%nat; 1%nat]).
Proof.
  assert (wf_table three_fields) as Hwf by (apply wf_tableb_spec; vm_compute; reflexivity).
  assert (Z.of_nat (length three_fields) < 2 ^ 32) as Hlen by (change (length three_fields) with 4%nat; lia).
  assert (Forall (fun k => (k < field_count three_fields)%nat) [2%nat; 1%nat]) as Hgot
    by (change (field_count three_fields) with 3%nat; repeat constructor).
  apply (required_fields_checked three_fields 0x100 [2%nat; 1%nat] 1); [exact Hwf|exact Hlen|..]; try assumption.
  - change (field_count three_fields) with 3%nat. lia.
  - reflexivity.
Defined.

(** ** Defects *)

(** A message whose oneof holds the integer 0x1234. *)
Definition oneof_state : mstate :=
  {| mem := put (put (set_range ∅ struct_at (replicate 16 Undef)) struct_at 4 1) (struct_at + 8) 8 0x1234;
     heap := ∅; next := 0x20000 |}.

Lemma oneof_static_then_pointer_witness :
  decode_field 2 (pb_decode_noinit 2) (reader [1; 0x41] [] None) PB_WT_STRING
    (iter_at oneof_fields struct_at 1) oneof_state
  = UB.
Proof.
  apply (oneof_static_then_pointer_undefined 1 (pb_decode_noinit 2) [0x41] [] [] None PB_WT_STRING struct_at
    0x1234 oneof_state).
  - vm_compute. reflexivity.
  - lia.
  - apply lookup_empty.
  - vm_compute. reflexivity.
  - vm_compute. reflexivity.
  - concrete.
  - concrete.
Defined.

(** A present bool at address 0x18100 counts as absent. *)
Definition bool_pointer : pb_field_t :=
  PB_FIELD 1 BOOL SINGULAR POINTER FIRST (CStruct [("flag"%string, CPtr 1)]) "flag" "flag" 0.

Lemma pointer_emptiness_witness :
  pb_check_proto3_default_value (put ∅ struct_at 8 0x18100) 1 bool_pointer struct_at = Ret true.
Proof.
  apply (pointer_emptiness_truncated (put ∅ struct_at 8 0x18100) 0 bool_pointer struct_at 0x18100).
  - apply mem_okb_spec. vm_compute. reflexivity.
  - repeat split; vm_compute; discriminate.
  - vm_compute. reflexivity.
Defined.

(** ** The generated messages *)

Lemma descriptors_match_structs_witness :
  let it := iter_at gdt_cct_LogRequest_fields struct_at 5 in
  it_pData it = struct_at + offsetof gdt_cct_LogRequest (Mem "qos_tier")
  /\ it_pSize it = struct_at + offsetof gdt_cct_LogRequest (Mem "has_qos_tier").
Proof.
  assert (nth_error message_types 5 = Some (MessageType gdt_cct_LogRequest_fields gdt_cct_LogRequest
    (mt_members (nth 5 message_types (MessageType [] (CScalar 1) []))))) as Hin by reflexivity.
  apply nth_error_In, list_elem_of_In in Hin.
  destruct (descriptors_match_structs _ 5 "qos_tier" gdt_cct_LogRequest_qos_tier_tag struct_at Hin eq_refl)
    as (_ & _ & Hd & Hs & _).
  split; [exact Hd|exact Hs].
Defined.

Definition info_mem : gmap Z mbyte :=
  let st := gdt_cct_NetworkConnectionInfo in
  let m := set_range ∅ struct_at (replicate (Z.to_nat (sizeof st)) (Byte 0)) in
  let m := put m (struct_at + offsetof st (Mem "has_network_type")) 1 1 in
  let m := put m (struct_at + offsetof st (Mem "network_type")) 4 (-1) in
  let m := put m (struct_at + offsetof st (Mem "has_mobile_subtype")) 1 1 in
  put m (struct_at + offsetof st (Mem "mobile_subtype")) 4 100.

Lemma network_info_encoding_witness :
  pb_encode info_mem 2 (pb_ostream_from_buffer out_buffer 13) gdt_cct_NetworkConnectionInfo_fields struct_at
  = Ret (true, push (pb_ostream_from_buffer out_buffer 13) (0x08 :: replicate 9 0xFF ++ [0x01; 0x10; 100])).
Proof.
  assert (mem_ok info_mem) as Hm by (apply mem_okb_spec; vm_compute; reflexivity).
  destruct (network_info_encoding info_mem 1 (pb_ostream_from_buffer out_buffer 13) struct_at
    (Some (-1)) (Some 100) Hm) as (He & _ & _).
  - split; [vm_compute; reflexivity|]. intros z [= <-]. vm_compute. reflexivity.
  - split; [vm_compute; reflexivity|]. intros z [= <-]. vm_compute. reflexivity.
  - apply He; concrete.
Defined.

Definition tier_mem : gmap Z mbyte :=
  let st := gdt_cct_QosTierConfiguration in
  let m := set_range ∅ struct_at (replicate (Z.to_nat (sizeof st)) (Byte 0)) in
  let m := put m (struct_at + offsetof st (Mem "has_qos_tier")) 1 1 in
  put m (struct_at + offsetof st (Mem "qos_tier")) 4 4.

Lemma qos_tier_encoding_witness :
  pb_encode tier_mem 2 (pb_ostream_from_buffer out_buffer 13) gdt_cct_QosTierConfiguration_fields struct_at
  = Ret (true, push (pb_ostream_from_buffer out_buffer 13) [0x10; 4]).
Proof.
  assert (mem_ok tier_mem) as Hm by (apply mem_okb_spec; vm_compute; reflexivity).
  destruct (qos_tier_encoding tier_mem 1 (pb_ostream_from_buffer out_buffer 13) struct_at
    (Some 4) None Hm) as (He & _ & _).
  - split; [vm_compute; reflexivity|]. intros z [= <-]. vm_compute. reflexivity.
  - split; [vm_compute; reflexivity|]. intros z Hz. discriminate Hz.
  - apply He; concrete.
Defined.

Lemma network_info_roundtrip_witness :
  encode_network_info (Some gdt_cct_NetworkConnectionInfo_NetworkType_WIFI) None = Ret (Some [0x08; 0x01])
  /\ decode_network_info [0x08; 0x01] = Ret (Some (Some gdt_cct_NetworkConnectionInfo_NetworkType_WIFI, None)).
Proof.
  destruct (network_info_roundtrip (Some gdt_cct_NetworkConnectionInfo_NetworkType_WIFI) None)
    as (He & Hd & _).
  - intros z [= <-]. apply list_elem_of_In. vm_compute. tauto.
  - intros z Hz. discriminate Hz.
  - split; [exact He|exact Hd].
Defined.

(** ** Base64 *)

Lemma f_b64_ntop_witness :
  f_b64_ntop [0x4D; 0x61] 2 (replicate 6 7) 6 = Ret (4, [84; 87; 69; 61; 0; 7]).
Proof.
  pose proof (f_b64_ntop_correct [0x4D; 0x61] (replicate 6 7) 6 ltac:(concrete) ltac:(vm_compute; discriminate)
    ltac:(lia)) as Hw.
  exact Hw.
Defined.

Lemma f_b64_roundtrip_witness :
  exists text' target', f_b64_ntop [0x4D; 0x61] 2 (replicate 6 7) 5 = Ret (4, text') /\
    f_b64_pton text' (Some (replicate 3 7)) 3 = Ret (2, Some target') /\ take 2 target' = [0x4D; 0x61].
Proof.
  exact (f_b64_roundtrip [0x4D; 0x61] (replicate 6 7) 5 (replicate 3 7) 3 ltac:(concrete) ltac:(vm_compute; discriminate) ltac:(by vm_compute)
    ltac:(vm_compute; discriminate) ltac:(split; [vm_compute; discriminate|by vm_compute])).
Defined.

Lemma f_b64_pton_bounds_witness :
  exists n t',
    f_b64_pton [84; 33; 0] (Some (replicate 4 7)) 2 = Ret (n, Some t') /\ -1 <= n <= 2
    /\ length t' = 4%nat /\ drop 2 t' = [7; 7].
Proof.
  exact (f_b64_pton_bounds [84; 33; 0] (replicate 4 7) 2 ltac:(apply list_elem_of_In; cbn; tauto)
    ltac:(vm_compute; split; discriminate) ltac:(lia)).
Defined.
