(* ===== verification/LdbWitnesses.v ===== *)
(** * LevelDB: concrete instances

    The properties of the LevelDB files that have hypotheses, each applied to
    concrete data: a POSIX file on a disk with room for 12 bytes, a log cut off in
    its second record, a record with a changed byte, a small filter. *)
From S2P Require Import Prelude WireSpec LdbCoding LdbCrc32c LdbBloom LdbStatus LdbEnvPosix.
From S2P Require Import LdbLogWriter LdbLogReader LdbLog.
From Stdlib Require Import ZArith Lia.
From stdpp Require Import base tactics numbers list strings.
#[local] Open Scope Z_scope.

(** Concrete lists of bytes, bounds and lengths. *)
Ltac concrete :=
  repeat first [apply Forall_nil_2 | apply Forall_cons_2]; cbn; unfold is_byte, is_u32, is_u64, zlen; cbn; lia.

(** ** Coding, checksum and filter *)

Lemma varint_coding_witness :
  EncodeVarint32 300 = [172; 2] /\ EncodeVarint64 300 = [172; 2] /\ VarintLength 300 = 2 /\
  GetVarint32 [172; 2; 9] = Some (300, [9]) /\ GetVarint64 [172; 2; 9] = Some (300, [9]).
Proof.
  pose proof (varint_coding 300 300 [172; 2; 9] ltac:(concrete) ltac:(concrete) ltac:(concrete)) as H. exact H.
Defined.

Lemma coding_roundtrip_witness :
  GetVarint32 (skipn 1 (PutVarint32 [7] 300) ++ [9]) = Some (300, [9]) /\
  GetVarint64 (skipn 1 (PutVarint64 [7] (2 ^ 63)) ++ [9]) = Some (2 ^ 63, [9]) /\
  GetLengthPrefixedSlice (skipn 1 (PutLengthPrefixedSlice [7] [1; 2]) ++ [9]) = Some ([1; 2], [9]) /\
  DecodeFixed32_on true (EncodeFixed32_on false 300 ++ [9]) = 300 /\
  DecodeFixed64_on true (EncodeFixed64_on false (2 ^ 63) ++ [9]) = 2 ^ 63.
Proof.
  exact (coding_roundtrip 300 (2 ^ 63) [1; 2] [7] [9] true ltac:(concrete) ltac:(concrete)
    ltac:(split; concrete) ltac:(concrete)).
Defined.

Lemma crc32c_correct_witness :
  Extend_at 3 0 [49; 50; 51; 52; 53] = crc_extend 0 [49; 50; 51; 52; 53] /\
  Extend_at 3 (Extend_at 3 0 [49; 50; 51; 52; 53]) [54] = Extend_at 3 0 ([49; 50; 51; 52; 53] ++ [54]).
Proof.
  exact (crc32c_correct 3 0 [49; 50; 51; 52; 53] [54] ltac:(concrete) ltac:(concrete) ltac:(concrete) ltac:(concrete)).
Defined.

Lemma crc32c_detects_witness : Value_at 0 ([9] ++ [1; 2; 3; 4] ++ [8]) <> Value_at 0 ([9] ++ [1; 2; 3; 5] ++ [8]).
Proof.
  exact (crc32c_detects 0 [9] [1; 2; 3; 4] [1; 2; 3; 5] [8] ltac:(concrete) ltac:(concrete) ltac:(concrete)
    eq_refl eq_refl ltac:(discriminate)).
Defined.

Lemma mask_roundtrip_witness : is_u32 (Mask 5) /\ is_u32 (Unmask 5) /\ Unmask (Mask 5) = 5 /\ Mask (Unmask 5) = 5.
Proof. exact (mask_roundtrip 5 ltac:(concrete)). Defined.

Lemma bloom_witness :
  exists filter, CreateFilter (new_policy 10) [[104; 105]; []] [7] = Ret ([7] ++ filter) /\
    is_filter (new_policy 10) [[104; 105]; []] filter /\
    Forall (fun key => KeyMayMatch key filter = Ret true) [[104; 105]; []].
Proof. exact (bloom_no_false_negative 10 [[104; 105]; []] [7] ltac:(concrete) ltac:(concrete)). Defined.

Lemma KeyMayMatch_witness : exists b, KeyMayMatch [1] [255; 0; 2] = Ret b.
Proof. exact (KeyMayMatch_safe [1] [255; 0; 2] ltac:(concrete)). Defined.

Lemma status_witness :
  let s := make_status kCorruption (bytes_of "bad") (bytes_of "block") in
  is_ok s = false /\ status_code s = kCorruption /\ copy_status s = s /\
  exists name, In (kCorruption, name)
      [(kNotFound, "NotFound: "%string); (kCorruption, "Corruption: "%string);
       (kNotSupported, "Not implemented: "%string); (kInvalidArgument, "Invalid argument: "%string);
       (kIOError, "IO error: "%string)] /\
    ToString s = Some (bytes_of name ++ joined (bytes_of "bad") (bytes_of "block")).
Proof. exact (status_represents kCorruption (bytes_of "bad") (bytes_of "block") ltac:(vm_compute; by split) eq_refl). Defined.

(** ** The log *)

(** The checksum, with every buffer at address 0. *)
Lemma at_0 : placed (fun _ => 0).
Proof. intros bs. lia. Qed.

#[local] Instance crc_at_0 : Checksum (Value_at 0) (Extend_at 0) := crc32c_checksum (fun _ => 0) at_0.

(** The file that fails on the trailer of its first block: the record is not read
    back, and it would be without the failure. *)
Lemma trailer_failure_ignored_witness :
  (exists s w, AddRecord (Extend_at 0) (mk_writer (mk_flaky preallocated 1) 32765 (InitTypeCrc (Value_at 0))) [1; 2; 3] = Ret (s, w) /\ is_ok s = true /\
    exists bytes, content (dest_ w) = preallocated ++ bytes /\ forall off', ~ fragmented (Value_at 0) 32765 true [1; 2; 3] bytes off') /\
  add_and_read 1 [1; 2; 3] = Ret (status_ok, []) /\ add_and_read 0 [1; 2; 3] = Ret (status_ok, [[1; 2; 3]]).
Proof.
  split; [|exact add_and_read_lost].
  destruct (trailer_failure_ignored (mk_flaky preallocated 1) (mk_flaky preallocated 0) (IOError (bytes_of "once") []) 32765 [1; 2; 3])
    as (s & w & E & Es & H); [by vm_compute|done|done|done|done|repeat (constructor; [split; vm_compute; congruence|]); constructor|].
  exists s, w. split; [exact E|]. split; [exact Es|]. destruct (H Es) as (bytes & E1 & _ & E2). exists bytes. split; [exact E1|exact E2].
Defined.

(** A new log file on a disk with room for 12 bytes, where the next call is
    interrupted. *)
Definition small_disk : mem_os := mk_os [] 12 false [] 1.
Definition small_file : mem_os * PosixWritableFile := (small_disk, new_writable (bytes_of "/db/000003.log") 3).

#[local] Instance small_fail_stop :
  FailStop (mem_os * PosixWritableFile) (posix_usable (fd := 3)) (posix_written (contents := disk) (broken := full))
    (posix_delivered (contents := disk)) (posix_failed (broken := full)) posix_dirty :=
  posix_fail_stop (AO := mem_append_only 3).

Definition two_records : list (list Z) := [[1; 2]; [3]].

Lemma two_records_bytes : Forall (Forall is_byte) two_records.
Proof. unfold two_records. repeat constructor; unfold is_byte; lia. Qed.

Lemma small_usable : posix_usable (fd := 3) small_file.
Proof. vm_compute. repeat split; discriminate. Qed.

Lemma small_written : posix_written (contents := disk) (broken := full) small_file = [].
Proof. vm_compute. reflexivity. Qed.

(** The first record, and three bytes of the header of the second. *)
Definition left_on_disk : list Z := [81; 90; 139; 85; 2; 0; 1; 1; 2; 254; 205; 38].

(** The disk after both records. *)
Definition disk_after (m : res (Status * Writer (mem_os * PosixWritableFile))) : list Z :=
  match m with Ret (_, w) => disk (fst (dest_ w)) | _ => [] end.

Lemma disk_left :
  disk_after (add_records (Extend := Extend_at 0) (new_writer (Value_at 0) small_file) two_records) = left_on_disk.
Proof. vm_compute. reflexivity. Qed.

Lemma small_acknowledged :
  acknowledged (written := posix_written (contents := disk) (broken := full))
    (delivered := posix_delivered (contents := disk)) (failed := posix_failed (broken := full)) status_ok small_file.
Proof. split; [done|]. by rewrite small_written. Qed.

Lemma small_writer : writer_ok (Value := Value_at 0) (new_writer (Value_at 0) small_file).
Proof. split; [cbn; unfold kBlockSize; lia|done]. Qed.

Lemma log_writer_witness :
  exists s w' bytes off',
    add_records (Extend := Extend_at 0) (new_writer (Value_at 0) small_file) two_records = Ret (s, w') /\
    logged (Value_at 0) 0 two_records bytes off' /\
    posix_usable (fd := 3) (dest_ w') /\
    gave (written := posix_written (contents := disk) (broken := full))
      (delivered := posix_delivered (contents := disk)) (failed := posix_failed (broken := full))
      small_file (dest_ w') bytes /\
    acknowledged (written := posix_written (contents := disk) (broken := full))
      (delivered := posix_delivered (contents := disk)) (failed := posix_failed (broken := full)) s (dest_ w') /\
    (is_ok s = true -> writer_ok (Value := Value_at 0) w' /\ block_offset_ w' = off').
Proof.
  exact (log_writer_correct (FS := small_fail_stop) (Value := Value_at 0) (Extend := Extend_at 0)
    (new_writer (Value_at 0) small_file) two_records small_writer small_usable small_acknowledged two_records_bytes).
Defined.

(** The reader of what the crash leaves, whose first read is interrupted. *)
Definition recovered_file : PosixSequentialFile := mk_sequential 4 (bytes_of "/db/000003.log").
Definition recovered_disk : mem_os := mk_os [] 0 false left_on_disk 1.

#[local] Instance recovered : LawfulSequential mem_os (S := posix_sequential_file recovered_file) input :=
  posix_lawful_sequential recovered_file (RO := mem_read_only 4).

Lemma log_recovery_witness :
  exists s w' k r',
    add_records (Extend := Extend_at 0) (new_writer (Value_at 0) small_file) two_records = Ret (s, w') /\
    read_records (SF := posix_sequential_file recovered_file) (Value_at 0) 3 13 (new_reader recovered_disk None true 0)
      = Ret (firstn k two_records, r') /\
    reporter_ r' = None /\
    complete (Value := Value_at 0) 0 two_records left_on_disk k /\
    (is_ok s = true -> firstn k two_records = two_records).
Proof.
  refine (log_recovery (FS := small_fail_stop) (LS := recovered) (Value := Value_at 0) (Extend := Extend_at 0)
    small_file two_records recovered_disk None true 3 13 small_usable small_written eq_refl two_records_bytes
    ltac:(cbn; lia) _).
  intros s w' E. pose proof disk_left as Hd. rewrite E in Hd. cbn [disk_after] in Hd.
  split; [by symmetry|cbn; lia].
Defined.

(** A log of one record, as bytes. *)
Definition one_record : list Z := physical_record (Value_at 0) kFullType [1; 2].

Lemma one_logged : exists off', logged (Value_at 0) 0 [[1; 2]] (one_record ++ []) off'.
Proof.
  eexists. econstructor; [|constructor].
  exact (last_fragment (Value_at 0) 0 true [1; 2] ltac:(vm_compute; discriminate)).
Qed.

Lemma log_reader_witness :
  exists k r', read_records (Value_at 0) 2 13 (new_reader (firstn 5 one_record) None true 0) = Ret (firstn k [[1; 2]], r') /\
    reporter_ r' = None /\ complete (Value := Value_at 0) 0 [[1; 2]] (firstn 5 one_record) k /\
    (skipn 5 one_record = [] -> firstn k [[1; 2]] = [[1; 2]]).
Proof.
  destruct one_logged as [off' Hl].
  exact (log_reader_recovers (Value := Value_at 0) (Extend := Extend_at 0) (firstn 5 one_record) [[1; 2]] (one_record ++ []) off' (firstn 5 one_record)
    (skipn 5 one_record) None true 2 13 Hl ltac:(repeat constructor; unfold is_byte; lia)
    ltac:(by rewrite app_nil_r, firstn_skipn) eq_refl ltac:(cbn; lia) ltac:(rewrite length_take; lia)).
Defined.

Lemma ReadRecord_witness :
  exists found record' scratch' r',
    ReadRecord (Value_at 0) 9 (new_reader [1; 2; 3; 4; 0; 0; 77; 5] None true 3) [] [] = Ret (found, record', scratch', r').
Proof.
  exact (ReadRecord_terminates (LS := bytes_lawful) (Value := Value_at 0) 9 (new_reader [1; 2; 3; 4; 0; 0; 77; 5] None true 3) [] []
    ltac:(cbn; lia) ltac:(unfold bytes_left; cbn; lia)).
Defined.

(** A reader whose buffer holds a record of three bytes, of which the last was changed. *)
Definition changed : list Z :=
  EncodeFixed32 (Mask (Value_at 0 [1; 10; 20; 30])) ++ [3; 0] ++ [1; 10; 20; 31] ++ [5].

Definition changed_reader : Reader (list Z) := mk_reader [] (Some []) true changed true 0 12 0 false.

Lemma corruption_witness :
  exists r', ReadPhysicalRecord (Value_at 0) changed_reader [] = Ret (kBadRecord, [], r') /\ buffer_ r' = [] /\
    reporter_ r' = Some ([] ++ [(zlen changed, Corruption (bytes_of "checksum mismatch") [])]).
Proof.
  exact (corruption_detected (Value := Value_at 0) (Extend := Extend_at 0) changed_reader [] 1 [10; 20; 30] 1 [10; 20; 31]
    [] [1; 10; 20; 30] [1; 10; 20; 31] [] [5] []
    ltac:(split; [vm_compute; split; discriminate|split; [vm_compute; discriminate|concrete]])
    ltac:(unfold is_byte; lia) eq_refl eq_refl ltac:(concrete) eq_refl eq_refl ltac:(discriminate)
    eq_refl eq_refl eq_refl eq_refl).
Defined.
