(* ===== verification/LdbMemWitnesses.v ===== *)
(** * LevelDB: concrete instances for keys, arena, skip list, memtable and batches *)
From S2P Require Import Prelude LdbCoding LdbStatus LdbOrder LdbKeys LdbRandom LdbArena LdbSkipList LdbSkipListSpec LdbSkipListConc LdbMemTable LdbWriteBatch.
From Stdlib Require Import ZArith Lia.
From stdpp Require Import base tactics numbers list gmap relations strings.
#[local] Open Scope Z_scope.

(** ** Internal keys *)

Lemma internal_keys_witness :
  ComparatorLaws (InternalKeyComparator BytewiseComparator) (internal_valid (Forall is_byte)) (internal_order slice_compare) /\
  exists k1 k2 r, new_internal_key [97] 5 kTypeValue = Ret k1 /\ new_internal_key [97] 4 kTypeDeletion = Ret k2 /\
    compare_internal_keys BytewiseComparator k1 k2 = Ret r /\
    (r < 0 <-> slice_compare [97] [97] < 0 \/ slice_compare [97] [97] = 0 /\ (4 < 5 \/ 5 = 4 /\ kTypeDeletion < kTypeValue)) /\
    (r = 0 <-> slice_compare [97] [97] = 0 /\ 5 = 4 /\ kTypeValue = kTypeDeletion).
Proof.
  apply (internal_keys_ordered BytewiseComparator (Forall is_byte) slice_compare [97] 5 kTypeValue [97] 4 kTypeDeletion).
  - apply bytewise_laws.
  - repeat constructor; unfold is_byte; lia.
  - repeat constructor; unfold is_byte; lia.
  - vm_compute; by split.
  - vm_compute; by split.
  - by right.
  - by left.
Defined.

Lemma internal_key_roundtrip_witness :
  let key := mk_parsed [97; 98] 7 kTypeValue in
  let old := mk_parsed [] 0 kTypeDeletion in
  (exists k, AppendInternalKey [] key = Ret k /\ ParseInternalKey k old = (true, key) /\
     ExtractUserKey k = Ret [97; 98] /\ zlen k = InternalKeyEncodingLength key) /\
  (ParseInternalKey [97; 98; 1; 7; 0; 0; 0; 0; 0; 0] old = (true, key) ->
   AppendInternalKey [] key = Ret [97; 98; 1; 7; 0; 0; 0; 0; 0; 0]).
Proof.
  apply (internal_key_roundtrip (mk_parsed [97; 98] 7 kTypeValue) (mk_parsed [] 0 kTypeDeletion)
    [97; 98; 1; 7; 0; 0; 0; 0; 0; 0] (mk_parsed [97; 98] 7 kTypeValue)).
  - vm_compute; by split.
  - by right.
  - repeat constructor; unfold is_byte; lia.
Defined.

Lemma lookup_key_witness :
  exists k, new_lookup_key [97] 9 = Ret k /\ lookup_user_key k = [97] /\
    memtable_key k = PutLengthPrefixedSlice [] (internal_key k) /\
    forall s' t' key, is_sequence s' -> is_type t' -> new_internal_key [97] s' t' = Ret key ->
      exists r, internal_compare BytewiseComparator (internal_key k) key = Ret r /\ (r <= 0 <-> s' <= 9).
Proof.
  apply (lookup_key_spec BytewiseComparator (Forall is_byte) slice_compare [97] 9).
  - apply bytewise_laws.
  - repeat constructor; unfold is_byte; lia.
  - vm_compute; by split.
  - vm_compute; reflexivity.
Defined.

(** ** The arena *)

(** Every block after the last one, until the address space is full. *)
Definition top (blocks : list region) : Z := foldr (fun r m => Z.max (fst r + snd r) m) 0 blocks.

Definition next_block (blocks : list region) (n : Z) : option Z :=
  let p := (top blocks / 16 + 1) * 16 in
  if p + n <? 2 ^ 64 then Some p else None.

Lemma top_after blocks p n : top blocks <= p -> Forall (apart (p, n)) blocks /\ 0 <= top blocks.
Proof.
  unfold apart. induction blocks as [|r blocks IH]; cbn [top foldr fst snd] in *; [split; [constructor|done]|].
  fold (top blocks) in *. intros H. destruct (IH ltac:(lia)). split; [constructor; [lia|done]|lia].
Qed.

#[export] Instance next_block_fresh : FreshBlocks next_block.
Proof.
  split. intros blocks n p Hn. unfold next_block. set (q := (top blocks / 16 + 1) * 16).
  destruct (Z.ltb_spec (q + n) (2 ^ 64)) as [Hq|]; [|done]. intros [= <-].
  pose proof (Z.div_mod (top blocks) 16 ltac:(lia)). pose proof (Z.mod_pos_bound (top blocks) 16 ltac:(lia)).
  destruct (top_after blocks q n ltac:(subst q; lia)). split_and!; [subst q; lia|done| |done].
  subst q. apply Z.mod_mul. lia.
Qed.

Lemma arena_witness :
  exists given a, serve (new_array := next_block) new_arena [] [(true, 5); (false, 3); (true, 2000)] = Ret (given, a) /\
    ForallOrdPairs apart (map snd given) /\ Forall (fun r => Exists (inside r) (blocks_ a)) (map snd given) /\
    Forall aligned_region given /\ MemoryUsage a = u64 (block_total (blocks_ a)).
Proof. apply (arena_allocations (new_array := next_block)). repeat constructor; cbn; lia. Defined.

(** ** The skip list *)

#[local] Instance z_order : KeyOrder (fun _ : Z => True) Z.sub.
Proof. split; lia. Qed.

Definition compare_z (a b : Z) : res Z := Ret (a - b).

Lemma compare_z_ret (a b : Z) : True -> True -> compare_z a b = Ret (a - b).
Proof. done. Qed.

Abbreviation alloc_z := (AllocateAligned next_block).
Abbreviation list_ok := (skip_ok (key0 := 0) (valid := fun _ => True) (cmp := Z.sub) (ok := arena_ok)).
Abbreviation step_z := (step (fun _ => True) Z.sub compare_z alloc_z 16 0).

(** The list of 5 and 9, built by the program. *)
Definition inserted (r : res (bool * SkipList Z Arena)) (s : SkipList Z Arena) : SkipList Z Arena :=
  match r with Ret (_, s) => s | _ => s end.

Definition list0 : SkipList Z Arena :=
  match new_skiplist alloc_z 16 0 new_arena with Ret (Some s) => s | _ => mk_skiplist new_arena ∅ 0 0 0 end.
Definition list9 : SkipList Z Arena := inserted (LdbSkipList.Insert compare_z alloc_z 16 list0 9) list0.
Definition list59 : SkipList Z Arena := inserted (LdbSkipList.Insert compare_z alloc_z 16 list9 5) list9.

Lemma list0_ok : list_ok list0 [].
Proof.
  destruct (new_skiplist_ok (key0 := 0) (valid := fun _ => True) (cmp := Z.sub) (alloc := alloc_z) (ok := arena_ok)
    (sizeof_Node := 16) ltac:(lia) new_arena [] new_arena_ok) as (r & E & H).
  assert (new_skiplist alloc_z 16 0 new_arena = Ret (Some list0)) as E0 by (vm_compute; reflexivity).
  rewrite E in E0. injection E0 as ->. exact H.
Qed.

Lemma insert_list s keys k s' :
  list_ok s keys -> Forall (fun k' => k' - k <> 0) keys -> LdbSkipList.Insert compare_z alloc_z 16 s k = Ret (true, s') ->
  list_ok s' (insert_sorted Z.sub k keys).
Proof.
  intros H Hne E. destruct (Insert_ok (cmp := Z.sub) compare_z_ret (alloc := alloc_z) (sizeof_Node := 16) ltac:(lia) s keys k H I Hne)
    as (b & s1 & E1 & H1). rewrite E in E1. by injection E1 as <- <-.
Qed.

Lemma list9_ok : list_ok list9 [9].
Proof. apply (insert_list list0 [] 9); [apply list0_ok|constructor|vm_compute; reflexivity]. Qed.

Lemma list59_ok : list_ok list59 [5; 9].
Proof. apply (insert_list list9 [9] 5); [apply list9_ok|repeat constructor; lia|vm_compute; reflexivity]. Qed.

Lemma skiplist_refines_witness :
  (exists r, new_skiplist alloc_z 16 0 new_arena = Ret r /\ match r with Some s0 => list_ok s0 [] | None => True end) /\
  (Forall (fun k' => k' - 7 <> 0) [5; 9] ->
   exists b s', LdbSkipList.Insert compare_z alloc_z 16 list59 7 = Ret (b, s') /\
     list_ok s' (if b then insert_sorted Z.sub 7 [5; 9] else [5; 9])) /\
  Contains compare_z list59 7 = Ret (existsb (fun k' => k' - 7 =? 0) [5; 9]) /\
  (exists it before after, iter_Seek compare_z list59 7 = Ret it /\ [5; 9] = before ++ after /\
     Forall (fun k' => k' - 7 < 0) before /\ Forall (fun k' => 0 <= k' - 7) after /\
     iter_at (key0 := 0) (valid := fun _ => True) (cmp := Z.sub) (ok := arena_ok) list59 it before after) /\
  (exists it, iter_SeekToFirst list59 = Ret it /\
     iter_at (key0 := 0) (valid := fun _ => True) (cmp := Z.sub) (ok := arena_ok) list59 it [] [5; 9]) /\
  (exists it, iter_SeekToLast list59 = Ret it /\
     (([5; 9] = [] /\ iter_at (key0 := 0) (valid := fun _ => True) (cmp := Z.sub) (ok := arena_ok) list59 it [] []) \/
      exists before k', [5; 9] = before ++ [k'] /\
        iter_at (key0 := 0) (valid := fun _ => True) (cmp := Z.sub) (ok := arena_ok) list59 it before [k'])).
Proof.
  exact (skiplist_refines (cmp := Z.sub) compare_z_ret (alloc := alloc_z) (ok := arena_ok) (sizeof_Node := 16) ltac:(lia)
    new_arena [] list59 [5; 9] 7 new_arena_ok list59_ok I).
Defined.

Lemma skiplist_iterators_witness :
  exists it, iter_Valid it = true /\ iter_key list59 it = Ret 5 /\
  (exists it', iter_Next list59 it = Ret it' /\
     iter_at (key0 := 0) (valid := fun _ => True) (cmp := Z.sub) (ok := arena_ok) list59 it' ([] ++ [5]) [9] /\ iter_Valid it' = true) /\
  (exists it', iter_Prev compare_z list59 it = Ret it' /\
     (([] = [] :> list Z /\ iter_Valid it' = false) \/
      exists before' k', [] = before' ++ [k'] /\
        iter_at (key0 := 0) (valid := fun _ => True) (cmp := Z.sub) (ok := arena_ok) list59 it' before' [k'; 5; 9])).
Proof.
  destruct (SeekToFirst_ok (cmp := Z.sub) list59 [5; 9] list59_ok) as (it & _ & Hit). exists it.
  exact (skiplist_iterators compare_z_ret list59 it [] 5 [9] Hit).
Defined.

(** A search for 7 that starts before 8 is inserted and ends after 8 is linked:
    it finds 8. *)
Lemma overlap : exists s w result,
  rtc step_z (list9, W_idle, R_idle) (s, w, R_done 7 result [8; 9]).
Proof.
  do 3 eexists.
  eapply rtc_l; [by apply (step_read_begin _ _ _ _ _ _ _ _ 7)|].
  eapply rtc_l; [eapply (step_insert _ _ _ _ _ _ _ _ 8); [done|vm_compute; repeat constructor; discriminate|vm_compute; reflexivity]|].
  eapply rtc_l; [eapply step_link; [lia|vm_compute; reflexivity]|].
  eapply rtc_l; [eapply step_publish; vm_compute; reflexivity|].
  eapply rtc_l; [eapply step_read; vm_compute; reflexivity|].
  eapply rtc_l; [|apply rtc_refl].
  match goal with |- step_z (?s, ?w, ?r) _ => enough (contents 0 s = [8; 9]) as <- end; [|vm_compute; reflexivity].
  eapply step_read_end. vm_compute. reflexivity.
Qed.

Lemma concurrent_readers_witness :
  exists s w result, sorted (fun _ => True) Z.sub (contents 0 s) /\
    found (valid := fun _ => True) (cmp := Z.sub) s (R_done 7 result [8; 9]) /\
    can_write (key0 := 0) (valid := fun _ => True) (cmp := Z.sub) (compare_ := compare_z) (alloc := alloc_z) (sizeof_Node := 16)
      s w (R_done 7 result [8; 9]) /\
    can_read (key0 := 0) (valid := fun _ => True) (cmp := Z.sub) (compare_ := compare_z) (alloc := alloc_z) (sizeof_Node := 16)
      s w (R_done 7 result [8; 9]) /\
    (w = W_idle -> list_ok s (contents 0 s)) /\
    (forall st, step_z (s, w, R_done 7 result [8; 9]) st ->
       evolves (key0 := 0) (cmp := Z.sub) (s, w, R_done 7 result [8; 9]) st).
Proof.
  destruct overlap as (s & w & result & Hrun). exists s, w, result.
  exact (concurrent_readers (key0 := 0) (cmp := Z.sub) compare_z_ret (alloc := alloc_z) (ok := arena_ok) (sizeof_Node := 16) ltac:(lia)
    list9 s [9] w (R_done 7 result [8; 9]) list9_ok Hrun).
Defined.

#[export] Instance bytes_laws : ComparatorLaws BytewiseComparator (Forall is_byte) slice_compare := bytewise_laws.

Abbreviation mem_ok := (table_ok (valid := Forall is_byte) (cmp := slice_compare)).

(** Concrete bytes, numbers and lengths. *)
Ltac concrete :=
  cbn; repeat first [apply Forall_nil_2 | apply Forall_cons_2 | split];
  first [done | by vm_compute | by left | by right | unfold is_byte; lia].

(** The table that maps "a" to "x" at number 1, built by the program. *)
Definition mem0 : MemTable :=
  match new_memtable next_block 16 with Ret (Some m) => m | _ => mk_memtable 0 (mk_skiplist new_arena ∅ 0 0 0) end.

Definition mem1 : MemTable :=
  match LdbMemTable.Add BytewiseComparator next_block 16 mem0 1 kTypeValue [97] [120] with Ret (_, m) => m | _ => mem0 end.

Definition entry1 : entry := mk_entry [97] 1 kTypeValue [120].

Lemma entry1_ok : entry_ok (valid := Forall is_byte) entry1.
Proof. concrete. Qed.

Lemma mem0_ok : mem_ok mem0 [].
Proof.
  destruct (new_memtable_ok (valid := Forall is_byte) (cmp := slice_compare) (new_array := next_block) (sizeof_Node := 16) ltac:(lia)) as (r & E & H).
  assert (new_memtable next_block 16 = Ret (Some mem0)) as E0 by (vm_compute; reflexivity).
  rewrite E in E0. injection E0 as ->. exact H.
Qed.

Lemma mem1_ok : mem_ok mem1 [entry1].
Proof.
  destruct (Add_ok (new_array := next_block) (sizeof_Node := 16) ltac:(lia) mem0 [] entry1 mem0_ok entry1_ok) as (b & m & E & H & _); [constructor|].
  assert (LdbMemTable.Add BytewiseComparator next_block 16 mem0 1 kTypeValue [97] [120] = Ret (true, mem1)) as E1 by (vm_compute; reflexivity).
  cbn [entry1 e_seq e_type e_user e_value] in E. rewrite E in E1. assert (b = true /\ m = mem1) as [-> ->] by (split; congruence). exact H.
Qed.

Lemma key_a : new_lookup_key [97] 5 = Ret (mk_lookup (9 :: 97 :: EncodeFixed64 (5 * 256 + 1)) 1).
Proof. vm_compute. reflexivity. Qed.

Lemma memtable_refines_witness :
  let e := mk_entry [98] 2 kTypeDeletion [] in
  let k := mk_lookup (9 :: 97 :: EncodeFixed64 (5 * 256 + 1)) 1 in
  (exists r, new_memtable next_block 16 = Ret r /\ match r with Some m0 => mem_ok m0 [] | None => True end) /\
  (new_entry (cmp := slice_compare) e [entry1] ->
   exists added m', LdbMemTable.Add BytewiseComparator next_block 16 mem1 2 kTypeDeletion [98] [] = Ret (added, m') /\
     mem_ok m' (if added then insert_sorted (entry_order (cmp := slice_compare)) e [entry1] else [entry1])) /\
  (exists found, LdbMemTable.Get BytewiseComparator mem1 k [] status_ok = Ret (answer found [] status_ok) /\
     newest (cmp := slice_compare) [97] 5 [entry1] found).
Proof.
  apply (memtable_refines (new_array := next_block) (sizeof_Node := 16) ltac:(lia) mem1 [entry1] (mk_entry [98] 2 kTypeDeletion []) [97] 5).
  - exact mem1_ok.
  - concrete.
  - concrete.
  - vm_compute. by split.
  - by vm_compute.
  - exact key_a.
Defined.

Lemma memtable_iterates_witness : exists it,
  mem_Valid it = true /\ mem_key mem1 it = Ret (internal_of entry1) /\ mem_value mem1 it = Ret [120] /\
  (exists it', mem_Next mem1 it = Ret it' /\ mem_at (valid := Forall is_byte) (cmp := slice_compare) mem1 it' ([] ++ [entry1]) []) /\
  (exists it', mem_Prev BytewiseComparator mem1 it = Ret it' /\
     (([] = [] :> list entry /\ mem_Valid it' = false) \/
      exists before' e', [] = before' ++ [e'] /\ mem_at (valid := Forall is_byte) (cmp := slice_compare) mem1 it' before' [e'; entry1])) /\
  (exists it' before' after', mem_Seek BytewiseComparator mem1 (internal_of entry1) = Ret it' /\ [entry1] = before' ++ after' /\
     mem_at (valid := Forall is_byte) (cmp := slice_compare) mem1 it' before' after' /\
     Forall (fun e => internal_order slice_compare (internal_of e) (internal_of entry1) < 0) before' /\
     Forall (fun e => 0 <= internal_order slice_compare (internal_of e) (internal_of entry1)) after') /\
  (exists it', mem_SeekToFirst mem1 = Ret it' /\ mem_at (valid := Forall is_byte) (cmp := slice_compare) mem1 it' [] [entry1]) /\
  (exists it', mem_SeekToLast mem1 = Ret it' /\
     (([entry1] = [] /\ mem_Valid it' = false) \/
      exists before' e', [entry1] = before' ++ [e'] /\ mem_at (valid := Forall is_byte) (cmp := slice_compare) mem1 it' before' [e'])).
Proof.
  destruct (mem_SeekToFirst_ok mem1 [entry1] mem1_ok) as (it & _ & Hit). exists it.
  exact (memtable_iterates mem1 [entry1] (internal_of entry1) it [] entry1 [] mem1_ok (internal_of_slice entry1 entry1_ok)
    (internal_valid_put (Forall is_byte) [97] _ (proj1 entry1_ok) (proj1 entry1_ok)) Hit).
Defined.

(** ** Batches *)

Definition two_ops : list op := [OpPut [97] [121]; OpDelete [98]].

Definition two_batch : WriteBatch := EncodeFixed64 7 ++ EncodeFixed32 (zlen two_ops) ++ records two_ops.

Lemma bytes_1 b : is_byte b -> is_slice [b].
Proof. intros H. split; [by apply Forall_singleton|by vm_compute]. Qed.

Lemma two_ops_ok : Forall op_ok two_ops.
Proof. concrete. Qed.

Lemma two_holds : holds two_batch 7 two_ops.
Proof. split; [reflexivity|]. split; [by vm_compute|]. split; [by vm_compute|exact two_ops_ok]. Qed.

Lemma batch_building_witness :
  holds Clear 0 [] /\ Count two_batch = Ret 2 /\ Sequence two_batch = Ret 7 /\ ByteSize two_batch = 12 + zlen (records two_ops) /\
  (exists b', add_op two_batch (OpDelete [99]) = Ret b' /\ holds b' 7 (two_ops ++ [OpDelete [99]])) /\
  (exists b', Append two_batch two_batch = Ret b' /\ holds b' 7 (two_ops ++ two_ops)) /\
  (exists b', SetSequence two_batch 9 = Ret b' /\ holds b' 9 two_ops) /\
  SetContents (Contents two_batch) = Ret two_batch.
Proof.
  exact (batch_building two_batch 7 two_ops two_batch 7 two_ops (OpDelete [99]) 9 two_holds two_holds
    (bytes_1 99 ltac:(unfold is_byte; lia)) ltac:(by vm_compute) ltac:(by vm_compute)).
Defined.

(** A handler that counts, and throws at its second call. *)
Definition counter : Handler Z :=
  mk_handler (fun n _ _ => Ret (n <? 1, n + 1)) (fun n _ => Ret (n <? 1, n + 1)).

Lemma batch_iteration_witness :
  Iterate counter two_batch 0 = (let! (ok, n) := play counter two_ops 0 in Ret (if ok then Some status_ok else None, n)) /\
  exists ops1 ops2 s, two_ops = ops1 ++ ops2 /\ cut_off s /\
    Iterate counter (firstn 18 two_batch) 0 = let! (ok, n) := play counter ops1 0 in Ret (if ok then Some s else None, n).
Proof.
  exact (batch_iteration counter two_batch 7 two_ops (firstn 18 two_batch) (skipn 18 two_batch) 0 two_holds
    (eq_sym (firstn_skipn 18 two_batch)) ltac:(discriminate)).
Defined.

Lemma mem1_numbered : numbered (valid := Forall is_byte) (cmp := slice_compare) mem1 [entry1] 7.
Proof. split; [exact mem1_ok|]. split; [apply NoDup_singleton|]. by repeat constructor. Qed.

Lemma batch_visible_witness :
  let k := mk_lookup (9 :: 97 :: EncodeFixed64 (8 * 256 + 1)) 1 in
  exists status m', InsertInto BytewiseComparator next_block 16 two_batch mem1 = Ret (status, m') /\
    match status with
    | None => exists ops1 ops2, two_ops = ops1 ++ ops2 /\
        numbered (valid := Forall is_byte) (cmp := slice_compare) m' (insert_all (cmp := slice_compare) [entry1] (entries_of 7 ops1)) (7 + zlen ops1)
    | Some s => s = status_ok /\
        numbered (valid := Forall is_byte) (cmp := slice_compare) m' (insert_all (cmp := slice_compare) [entry1] (entries_of 7 two_ops)) (7 + zlen two_ops) /\
        exists old, newest (cmp := slice_compare) [97] (7 + zlen two_ops - 1) [entry1] old /\
          LdbMemTable.Get BytewiseComparator m' k [] status_ok =
            Ret match last_op (cmp := slice_compare) [97] two_ops with Some o => op_answer o [] status_ok | None => answer old [] status_ok end
    end.
Proof.
  apply (batch_visible (new_array := next_block) (sizeof_Node := 16) ltac:(lia) mem1 [entry1] two_batch 7 two_ops [97]
    (mk_lookup (9 :: 97 :: EncodeFixed64 (8 * 256 + 1)) 1) [] status_ok two_holds mem1_numbered ltac:(lia)).
  - by vm_compute.
  - concrete.
  - discriminate.
  - concrete.
  - by vm_compute.
  - vm_compute. reflexivity.
Defined.
