(* ===== verification/LdbDbWrite.v ===== *)
(** * LevelDB: the write path of the database (db/db_impl.cc)

    What [DBImpl::Write] does once its thread is at the front of the queue of
    writers: it merges the batches of the writers behind it, numbers the result,
    logs it and applies it to the memtable; and how [DBImpl::Get] reads the
    memtables.  [MakeRoomForWrite] and the tables on disk are parameters.  Waiting
    and signalling are not modelled: the mutex makes the queue a list. *)
From S2P Require Import Prelude WireSpec.
From S2P Require Import LdbCoding LdbCrc32c LdbStatus LdbLogWriter LdbOrder LdbKeys LdbArena LdbSkipList LdbSkipListSpec.
From S2P Require Import LdbMemTable LdbWriteBatch.
From Stdlib Require Import ZArith Lia.
From stdpp Require Import base tactics numbers list.
#[local] Open Scope Z_scope.

(** ** Definitions *)

(** [DBImpl::Writer]: what a waiting thread wants written. *)
Record Waiter := mk_waiter { batch : option WriteBatch; sync : bool }.

Definition max_group (size : Z) : Z :=
  if size <=? Z.shiftl 128 10 then u64 (size + Z.shiftl 128 10) else Z.shiftl 1 20.

(** The loop of [BuildBatchGroup] over the writers behind the first: [tmp_batch_],
    whether it is in use, the size so far and the number of writers taken. *)
Fixpoint group_loop (first : WriteBatch) (first_sync : bool) (max_size : Z) (writers : list Waiter)
    (tmp_batch_ : WriteBatch) (switched : bool) (size : Z) (n : nat) : res (WriteBatch * bool * nat) :=
  match writers with
  | [] => Ret (tmp_batch_, switched, n)
  | w :: writers =>
      if sync w && negb first_sync then Ret (tmp_batch_, switched, n)
      else
        match batch w with
        | Some b =>
            let size := u64 (size + ByteSize b) in
            if size >? max_size then Ret (tmp_batch_, switched, n)
            else
              let! result :=
                if switched then Ret tmp_batch_
                else
                  let! count := Count tmp_batch_ in
                  let! _ := assert_ (count =? 0) in
                  LdbWriteBatch.Append tmp_batch_ first in
              let! result := LdbWriteBatch.Append result b in
              group_loop first first_sync max_size writers result true size (S n)
        | None => group_loop first first_sync max_size writers tmp_batch_ switched size (S n)
        end
  end.

(** The merged batch, whether it is [tmp_batch_], and how many writers it serves. *)
Definition BuildBatchGroup (writers : list Waiter) (tmp_batch_ : WriteBatch) : res (WriteBatch * bool * nat) :=
  match writers with
  | [] => UB
  | first :: writers =>
      match batch first with
      | None => UB
      | Some b =>
          let size := ByteSize b in
          let! (tmp, switched, n) := group_loop b (sync first) (max_group size) writers tmp_batch_ false size 1 in
          Ret (if switched then tmp else b, switched, n)
      end
  end.

Section DBImpl.
Context {F : Type} {W : WritableFile F} (Extend : Z -> list Z -> Z).
Context (user : Comparator) (new_array : list region -> Z -> option Z) (sizeof_Node : Z).

(** [last_sequence] is that of [versions_]; the log writer has the log file. *)
Record DBImpl := mk_db {
  log_ : Writer F;
  mem_ : MemTable;
  imm_ : option MemTable;
  tmp_batch_ : WriteBatch;
  last_sequence : Z;
  bg_error_ : Status;
}.

Definition RecordBackgroundError (db : DBImpl) (s : Status) : DBImpl :=
  if is_ok (bg_error_ db) then mk_db (log_ db) (mem_ db) (imm_ db) (tmp_batch_ db) (last_sequence db) s else db.

(** The phase without the mutex: log, sync, apply.  The status, or nothing when
    an allocation throws, and whether the sync failed. *)
Definition log_and_apply (db : DBImpl) (do_sync : bool) (updates : WriteBatch) : res (option Status * bool * DBImpl) :=
  let! (status, log) := AddRecord Extend (log_ db) (Contents updates) in
  let! (status, sync_error, log) :=
    if is_ok status && do_sync then
      let! (status, dest) := Sync (dest_ log) in
      Ret (status, negb (is_ok status), mk_writer dest (block_offset_ log) (type_crc_ log))
    else Ret (status, false, log) in
  let! (status, mem) :=
    if is_ok status then InsertInto user new_array sizeof_Node updates (mem_ db) else Ret (Some status, mem_ db) in
  Ret (status, sync_error, mk_db log mem (imm_ db) (tmp_batch_ db) (last_sequence db) (bg_error_ db)).

(** [Write] by the writer at the front of the queue, [room] being the status of
    [MakeRoomForWrite]: the status, or nothing when an allocation throws, the
    number of writers that get it, and the batch of the first writer. *)
Definition Write (db : DBImpl) (room : Status) (writers : list Waiter)
    : res (option Status * nat * option WriteBatch * DBImpl) :=
  match writers with
  | [] => UB
  | w :: _ =>
      if is_ok room && bool_decide (is_Some (batch w)) then
        let! (updates, switched, n) := BuildBatchGroup writers (tmp_batch_ db) in
        let! updates := SetSequence updates (u64 (last_sequence db + 1)) in
        let! count := Count updates in
        let last := u64 (last_sequence db + count) in
        let! (status, sync_error, db) := log_and_apply db (sync w) updates in
        match status with
        | None => Ret (None, n, batch w, db)
        | Some s =>
            let db := if sync_error then RecordBackgroundError db s else db in
            Ret (Some s, n, if switched then batch w else Some updates,
                 mk_db (log_ db) (mem_ db) (imm_ db) (if switched then Clear else tmp_batch_ db) last (bg_error_ db))
        end
      else Ret (Some room, 1%nat, batch w, db)
  end.

(** [Get] at a snapshot or at the last sequence number; [current] is the search of
    the tables on disk.  The references taken to the memtables are dropped. *)
Definition DbGet (db : DBImpl) (snapshot : option Z) (current : LookupKey -> list Z -> Status -> res (Status * list Z))
    (key value : list Z) : res (Status * list Z) :=
  let snapshot := default (last_sequence db) snapshot in
  let mem := Ref (mem_ db) in
  let imm := option_map Ref (imm_ db) in
  let! lkey := new_lookup_key key snapshot in
  let! (done, value, s) := LdbMemTable.Get user mem lkey value status_ok in
  let! (s, value) :=
    if done then Ret (s, value)
    else
      let! (done, value, s) :=
        match imm with Some imm => LdbMemTable.Get user imm lkey value s | None => Ret (false, value, s) end in
      if done then Ret (s, value) else current lkey value s in
  let! _ := Unref mem in
  let! _ := match imm with Some imm => Unref imm | None => Ret None end in
  Ret (s, value).

End DBImpl.

(** ** Groups *)

(** What a writer wants written. *)
Definition wants (w : Waiter) (ops : list op) : Prop :=
  match batch w with Some b => (exists q, holds b q ops) /\ zlen b < 2 ^ 62 | None => ops = [] end.

Lemma op_bytes_length o : 2 <= zlen (op_bytes o).
Proof.
  assert (forall s, 1 <= zlen (PutLengthPrefixedSlice [] s)) as Hp.
  { intros s. unfold PutLengthPrefixedSlice, PutVarint32. rewrite !zlen_app. pose proof (zlen_nonneg s).
    unfold EncodeVarint32. repeat destruct (_ <? _); rewrite !zlen_cons; unfold zlen; cbn; lia. }
  destruct o as [k v|k]; cbn [op_bytes]; rewrite zlen_cons, ?zlen_app; pose proof (Hp k); [pose proof (Hp v)|]; lia.
Qed.

Lemma records_bytes ops : 2 * zlen ops <= zlen (records ops).
Proof.
  induction ops as [|o ops IH]; [done|]. change (records (o :: ops)) with (op_bytes o ++ records ops).
  rewrite zlen_cons, zlen_app. pose proof (op_bytes_length o). lia.
Qed.

Lemma holds_size b q ops : holds b q ops -> ByteSize b = 12 + zlen (records ops) /\ 2 * zlen ops <= ByteSize b - 12.
Proof. intros H. destruct (holds_header _ _ _ H) as (_ & _ & El & _). unfold ByteSize. rewrite El. pose proof (records_bytes ops). lia. Qed.

(** The state of the merge: nothing merged yet, or all of the operations so far in
    [tmp_batch_], whose size is within the bound. *)
Definition merged (first : WriteBatch) (q : Z) (ops1 ops : list op) (max_size : Z) (tmp : WriteBatch) (switched : bool) (size : Z) : Prop :=
  holds first q ops1 /\
  if switched then holds tmp 0 ops /\ ByteSize tmp <= size <= max_size else tmp = Clear /\ ops = ops1 /\ size = ByteSize first.

Lemma Append_merge tmp q ops b q' ops' :
  holds tmp q ops -> holds b q' ops' -> ByteSize tmp + ByteSize b <= 2 ^ 22 ->
  exists tmp', LdbWriteBatch.Append tmp b = Ret tmp' /\ holds tmp' q (ops ++ ops') /\ ByteSize tmp' <= ByteSize tmp + ByteSize b.
Proof.
  intros H H' Hs. destruct (holds_size _ _ _ H) as [E1 L1], (holds_size _ _ _ H') as [E2 L2].
  destruct (Append_ok tmp q ops b q' ops' H H') as (tmp' & E & Ht); [lia|]. exists tmp'. split_and!; [done|done|].
  destruct (holds_size _ _ _ Ht) as [-> _]. rewrite E1, E2, records_app, zlen_app. lia.
Qed.

(** The batch the next one is appended to. *)
Definition merge_into (first tmp : WriteBatch) (switched : bool) : res WriteBatch :=
  if switched then Ret tmp
  else
    let! count := Count tmp in
    let! _ := assert_ (count =? 0) in
    LdbWriteBatch.Append tmp first.

Lemma merge_step first q ops1 ops max_size tmp switched size b q' ops' :
  0 <= max_size <= 2 ^ 20 -> merged first q ops1 ops max_size tmp switched size -> holds b q' ops' -> size + ByteSize b <= max_size ->
  exists result tmp', merge_into first tmp switched = Ret result /\ LdbWriteBatch.Append result b = Ret tmp' /\
    merged first q ops1 (ops ++ ops') max_size tmp' true (size + ByteSize b).
Proof.
  intros Hmax [Hf Hm] Hb Hs. pose proof (zlen_nonneg b) as Hlb. change (zlen b) with (ByteSize b) in Hlb.
  assert (exists result, merge_into first tmp switched = Ret result /\ holds result 0 ops /\ ByteSize result <= size) as (result & E & Hr & Hrs).
  { destruct switched; [by exists tmp; destruct Hm as (? & ? & ?)|]. destruct Hm as (-> & -> & ->).
    destruct (Append_ok Clear 0 [] first q ops1) as (r & E & Hr); [apply Clear_holds|done|cbn; apply Hf|].
    exists r. destruct (holds_size _ _ _ Hr) as [-> _], (holds_size _ _ _ Hf) as [-> _]. by split_and!. }
  destruct (Append_merge result 0 ops b q' ops' Hr Hb) as (tmp' & E' & Ht & Hts); [lia|].
  exists result, tmp'. split; [done|]. split; [done|]. split; [done|]. split; [done|lia].
Qed.

(** How the loop ends: it has taken the first [m] of the writers. *)
Definition group_end first q ops1 ops max_size (first_sync : bool) writers opss n (r : res (WriteBatch * bool * nat)) : Prop :=
  exists tmp' switched' m, r = Ret (tmp', switched', (n + m)%nat) /\ (m <= length writers)%nat /\
    Forall (fun w => sync w = true -> first_sync = true) (firstn m writers) /\
    exists size', merged first q ops1 (ops ++ concat (firstn m opss)) max_size tmp' switched' size'.

Lemma group_stop first q ops1 ops max_size first_sync writers opss n tmp switched size :
  merged first q ops1 ops max_size tmp switched size ->
  group_end first q ops1 ops max_size first_sync writers opss n (Ret (tmp, switched, n)).
Proof.
  intros H. exists tmp, switched, 0%nat. rewrite Nat.add_0_r. cbn [firstn concat]. rewrite app_nil_r.
  split_and!; [done|lia|constructor|by exists size].
Qed.

Lemma group_more first q ops1 ops max_size first_sync w writers ops' opss n r :
  (sync w = true -> first_sync = true) ->
  group_end first q ops1 (ops ++ ops') max_size first_sync writers opss (S n) r ->
  group_end first q ops1 ops max_size first_sync (w :: writers) (ops' :: opss) n r.
Proof.
  intros Hw (tmp' & switched' & m & -> & Hm & Hs & size' & Hmer). exists tmp', switched', (S m). cbn [firstn concat length].
  split_and!; [do 2 f_equal; lia|lia|by constructor|]. exists size'. by rewrite app_assoc.
Qed.

Lemma group_loop_ok first q ops1 first_sync max_size : 0 <= max_size <= 2 ^ 20 -> zlen first < 2 ^ 62 ->
  forall writers opss tmp switched size n ops,
  Forall2 wants writers opss -> merged first q ops1 ops max_size tmp switched size ->
  group_end first q ops1 ops max_size first_sync writers opss n (group_loop first first_sync max_size writers tmp switched size n).
Proof.
  intros Hmax Hfirst writers opss tmp switched size n ops Hw. revert tmp switched size n ops.
  induction Hw as [|w ops' writers opss Hwants Hw IH]; intros tmp switched size n ops Hm; [by eapply group_stop|].
  cbn [group_loop]. destruct (sync w && negb first_sync) eqn:Esync; [by eapply group_stop|].
  assert (sync w = true -> first_sync = true) as Hsw by (destruct (sync w), first_sync; done).
  unfold wants in Hwants. destruct (batch w) as [b|].
  - destruct Hwants as [(q' & Hb) Hlb]. pose proof (zlen_nonneg b) as Hb0. unfold ByteSize at 1 2.
    assert (0 <= size < 2 ^ 62) as Hsize.
    { destruct Hm as [_ Hm], switched; [destruct Hm as (_ & ? & ?); pose proof (zlen_nonneg tmp)|destruct Hm as (_ & _ & ->); pose proof (zlen_nonneg first)];
        unfold ByteSize in *; lia. }
    rewrite (wrap_small 64 (size + zlen b) : _ -> u64 (size + zlen b) = _) by lia.
    destruct (Z.gtb_spec (size + zlen b) max_size) as [|Hle]; [by eapply group_stop|].
    destruct (merge_step _ _ _ _ _ _ _ _ _ _ _ Hmax Hm Hb Hle) as (result & tmp' & E & E' & Hm').
    change (if switched then Ret tmp else _) with (merge_into first tmp switched). rewrite E. cbn [rbind]. rewrite E'. cbn [rbind].
    apply group_more; [done|]. by apply IH.
  - subst ops'. apply group_more; [done|]. apply IH. by rewrite app_nil_r.
Qed.

Lemma max_group_range size : 0 <= size -> 0 <= max_group size <= 2 ^ 20.
Proof.
  intros H. unfold max_group. destruct (Z.leb_spec size (Z.shiftl 128 10)) as [Hle|]; [|by vm_compute].
  change (Z.shiftl 128 10) with 131072 in *. rewrite (wrap_small 64 (size + 131072) : _ -> u64 (size + 131072) = _) by lia. lia.
Qed.

(** The group is a prefix of the queue, merged into one batch. *)
Lemma BuildBatchGroup_ok w b q ops1 writers opss :
  batch w = Some b -> holds b q ops1 -> zlen b < 2 ^ 62 -> Forall2 wants writers opss ->
  exists updates switched m q', BuildBatchGroup (w :: writers) Clear = Ret (updates, switched, S m) /\ (m <= length writers)%nat /\
    Forall (fun w' => sync w' = true -> sync w = true) (firstn m writers) /\ holds updates q' (ops1 ++ concat (firstn m opss)) /\
    (switched = false -> updates = b).
Proof.
  intros Ew Hb Hl Hw. unfold BuildBatchGroup. rewrite Ew. pose proof (zlen_nonneg b).
  destruct (group_loop_ok b q ops1 (sync w) (max_group (ByteSize b)) (max_group_range _ ltac:(done)) Hl writers opss Clear false
    (ByteSize b) 1 ops1 Hw) as (tmp & switched & m & -> & Hm & Hs & size & Hf & Hmer); [by split|].
  cbn [rbind Nat.add]. destruct switched.
  - destruct Hmer as (Ht & _). by exists tmp, true, m, 0.
  - destruct Hmer as (_ & Eops & _). exists b, false, m, q. by rewrite Eops.
Qed.

(** ** The log of the groups *)

(** Batches that are numbered one after the other, from [q] on. *)
Inductive numbered_batches : Z -> list (list op) -> list (list Z) -> Prop :=
| no_batches q : numbered_batches q [] []
| next_batch q ops b groups bs :
    holds b q ops -> numbered_batches (q + zlen ops) groups bs -> numbered_batches q (ops :: groups) (b :: bs).

Lemma numbered_batches_snoc q groups bs b ops :
  numbered_batches q groups bs -> holds b (q + zlen (concat groups)) ops -> numbered_batches q (groups ++ [ops]) (bs ++ [b]).
Proof.
  induction 1 as [q|q ops1 b1 groups bs Hb1 H IH]; intros Hb; cbn [app concat] in *.
  - rewrite Z.add_0_r in Hb. constructor; [done|constructor].
  - constructor; [done|]. apply IH. rewrite zlen_app in Hb. by rewrite Z.add_assoc in Hb.
Qed.

Lemma numbered_batches_length q groups bs : numbered_batches q groups bs -> length bs = length groups.
Proof. induction 1; cbn; congruence. Qed.

Lemma slice_bytes s : is_slice s -> Forall is_byte (PutLengthPrefixedSlice [] s).
Proof. apply (put_bytes (Coder := slice_coder)). Qed.

Lemma holds_bytes b q ops : holds b q ops -> Forall is_byte b.
Proof.
  intros (-> & _ & _ & Hops). unfold EncodeFixed64, EncodeFixed32. rewrite EncodeFixed32_le, EncodeFixed64_le.
  apply Forall_app. split; [apply le_split_bytes|]. apply Forall_app. split; [apply le_split_bytes|].
  induction Hops as [|o ops Ho _ IH]; [constructor|]. change (records (o :: ops)) with (op_bytes o ++ records ops).
  apply Forall_app. split; [|done].
  destruct o as [k v|k]; cbn [op_bytes op_ok] in *; (constructor; [unfold is_byte, kTypeValue, kTypeDeletion; lia|]).
  - destruct Ho as [Hk Hv]. apply Forall_app. split; by apply slice_bytes.
  - by apply slice_bytes.
Qed.

Lemma numbered_batches_bytes q groups bs : numbered_batches q groups bs -> Forall (Forall is_byte) bs.
Proof. induction 1; constructor; [by eapply holds_bytes|done]. Qed.

Section WriteProof.
Context {F : Type} {W : WritableFile F} {usable : F -> Prop}.
Context {written delivered : F -> list Z} {failed dirty : F -> bool}.
Context {FS : FailStop F usable written delivered failed dirty} {HS : HarmlessSync F usable written delivered failed}.
Context {Value : list Z -> Z} {Extend : Z -> list Z -> Z} {C : Checksum Value Extend}.
Context {user : Comparator} {valid : list Z -> Prop} {cmp : list Z -> list Z -> Z} {laws : ComparatorLaws user valid cmp}.
Context {new_array : list region -> Z -> option Z} {fresh : FreshBlocks new_array}.
Context {sizeof_Node : Z} (sizeof_ok : 0 < sizeof_Node < 2 ^ 32).
Abbreviation numbered := (numbered (valid := valid) (cmp := cmp)).
Abbreviation insert_all := (insert_all (cmp := cmp)).
Abbreviation op_fits := (op_fits (valid := valid)).

(** What is in a log that may end in the middle of a batch: the groups, the first
    [acked] of them completely. *)
Definition log_left (log : Writer F) (q : Z) (groups : list (list op)) (acked : nat) : Prop :=
  exists bs bytes off rest bytes1 off1, numbered_batches q groups bs /\
    logged Value 0 bs bytes off /\ bytes = delivered (dest_ log) ++ rest /\
    logged Value 0 (firstn acked bs) bytes1 off1 /\ bytes1 `prefix_of` delivered (dest_ log).

(** A log that has never failed, with all of the groups delivered. *)
Definition healthy_log (log : Writer F) (q : Z) (groups : list (list op)) : Prop :=
  writer_ok (Value := Value) log /\ usable (dest_ log) /\ failed (dest_ log) = false /\ delivered (dest_ log) = written (dest_ log) /\
  exists bs, numbered_batches q groups bs /\ logged Value 0 bs (written (dest_ log)) (block_offset_ log).

Lemma healthy_log_left log q groups : healthy_log log q groups -> log_left log q groups (length groups).
Proof.
  intros (_ & _ & _ & Hd & bs & Hn & Hl). exists bs, (written (dest_ log)), (block_offset_ log), [], (written (dest_ log)), (block_offset_ log).
  rewrite Hd, app_nil_r. rewrite firstn_all2 by (by erewrite numbered_batches_length). by split_and!.
Qed.

(** Logging one more group. *)
Lemma AddRecord_group log q groups b ops :
  healthy_log log q groups -> holds b (q + zlen (concat groups)) ops ->
  exists s log', AddRecord Extend log b = Ret (s, log') /\
    if is_ok s then healthy_log log' q (groups ++ [ops])
    else failed (dest_ log') = true /\ log_left log' q (groups ++ [ops]) (length groups).
Proof.
  intros (Hw & Hu & Hf & Hd & bs & Hn & Hl) Hb. pose proof (numbered_batches_snoc _ _ _ _ _ Hn Hb) as Hn'.
  destruct (AddRecord_records (Value := Value) log bs b ltac:(by split_and!) (holds_bytes _ _ _ Hb)) as (s & log' & E & H). exists s, log'. split; [done|]. destruct (is_ok s).
  - destruct H as (? & ? & ? & ? & ?). split_and!; try done. by exists (bs ++ [b]).
  - destruct H as [Hf' (all & off & rest & bytes1 & off1 & ? & ? & ? & ?)]. split; [done|]. rewrite <- (numbered_batches_length _ _ _ Hn). by exists (bs ++ [b]), all, off, rest, bytes1, off1.
Qed.

Lemma Sync_group log q groups :
  healthy_log log q groups -> exists s dest, Sync (dest_ log) = Ret (s, dest) /\
    healthy_log (mk_writer dest (block_offset_ log) (type_crc_ log)) q groups.
Proof.
  intros (Hw & Hu & Hf & Hd & bs & Hn & Hl). destruct (Sync_records (Value := Value) log bs) as (s & f & E & ? & ? & ? & ? & ?); [by split_and!|].
  exists s, f. split; [done|]. split_and!; try done. by exists bs.
Qed.

(** A database whose log and memtable hold the same groups, from the number [q] on. *)
Definition healthy (db : DBImpl (F := F)) (q : Z) (groups : list (list op)) : Prop :=
  healthy_log (log_ db) q groups /\
  numbered (mem_ db) (insert_all [] (entries_of q (concat groups))) (q + zlen (concat groups)) /\
  last_sequence db + 1 = q + zlen (concat groups) /\ 1 <= q /\ tmp_batch_ db = Clear.

Lemma entries_of_app q ops1 ops2 : entries_of q (ops1 ++ ops2) = entries_of q ops1 ++ entries_of (q + zlen ops1) ops2.
Proof.
  revert q; induction ops1 as [|o ops1 IH]; intros q; cbn [app entries_of]; [by rewrite Z.add_0_r|].
  rewrite IH, zlen_cons. by replace (q + 1 + zlen ops1) with (q + (1 + zlen ops1)) by lia.
Qed.

Lemma insert_all_app es new1 new2 : insert_all es (new1 ++ new2) = insert_all (insert_all es new1) new2.
Proof. apply foldl_app. Qed.

(** What a group leaves behind, with its status. *)
Definition group_outcome (db db' : DBImpl (F := F)) (q : Z) (groups : list (list op)) (ops : list op)
    (do_sync : bool) (status : option Status) (sync_error : bool) : Prop :=
  bg_error_ db' = bg_error_ db /\ imm_ db' = imm_ db /\ tmp_batch_ db' = tmp_batch_ db /\
  match status with
  | None => sync_error = false /\ log_left (log_ db') q (groups ++ [ops]) (S (length groups))
  | Some s =>
      if is_ok s then
        sync_error = false /\ healthy_log (log_ db') q (groups ++ [ops]) /\
        numbered (mem_ db') (insert_all [] (entries_of q (concat (groups ++ [ops])))) (q + zlen (concat (groups ++ [ops])))
      else
        mem_ db' = mem_ db /\ log_left (log_ db') q (groups ++ [ops]) (length groups) /\
        (if sync_error then do_sync = true else failed (dest_ (log_ db')) = true)
  end.

Lemma logged_firstn k bs : forall off bytes off', logged Value off bs bytes off' ->
  exists bytes1 off1, logged Value off (firstn k bs) bytes1 off1 /\ bytes1 `prefix_of` bytes.
Proof.
  revert bs; induction k as [|k IH]; intros bs off bytes off' H; [exists [], off; split; [constructor|apply prefix_nil]|].
  destruct bs as [|b bs]; [exists [], off; split; [constructor|apply prefix_nil]|].
  inversion H as [|? ? ? b1 o1 r1 ? Hf Hr]; subst. destruct (IH _ _ _ _ Hr) as (r2 & o2 & H2 & Hp2).
  exists (b1 ++ r2), o2. split; [by econstructor|by apply prefix_app].
Qed.

Lemma left_fewer log q groups acked acked' : (acked' <= acked)%nat -> log_left log q groups acked -> log_left log q groups acked'.
Proof.
  intros Hle (bs & bytes & off & rest & bytes1 & off1 & Hn & Hl & E & Hl1 & Hp).
  destruct (logged_firstn acked' _ _ _ _ Hl1) as (bytes2 & off2 & Hl2 & Hp2). rewrite firstn_firstn, Nat.min_l in Hl2 by done.
  exists bs, bytes, off, rest, bytes2, off2. split_and!; try done. by trans bytes1.
Qed.

Lemma log_and_apply_ok db q groups b ops do_sync :
  healthy db q groups -> holds b (last_sequence db + 1) ops ->
  last_sequence db + zlen ops <= kMaxSequenceNumber -> Forall op_fits ops ->
  exists status sync_error db', log_and_apply Extend user new_array sizeof_Node db do_sync b = Ret (status, sync_error, db') /\
    group_outcome db db' q groups ops do_sync status sync_error.
Proof.
  intros (Hlog & Hmem & Hlast & Hq & Htmp) Hb Hmax Hops. pose proof (zlen_nonneg (concat groups)). unfold log_and_apply, Contents. rewrite Hlast in Hb.
  destruct (AddRecord_group _ _ _ _ _ Hlog Hb) as (s & log & -> & Hlog'). cbn [rbind].
  destruct (is_ok s) eqn:Es; cbn [andb].
  2: { cbn [rbind]. rewrite Es. do 3 eexists. split; [done|]. unfold group_outcome. rewrite Es. by destruct Hlog'. }
  set (synced := if do_sync then _ else _).
  assert (exists s2 err log2, synced = Ret (s2, err, log2) /\ healthy_log log2 q (groups ++ [ops]) /\
    err = negb (is_ok s2) /\ (err = true -> do_sync = true)) as (s2 & err & log2 & -> & Hlog2 & Eerr & Hsync).
  { subst synced. destruct do_sync; [|exists s, false, log; by rewrite Es].
    destruct (Sync_group _ _ _ Hlog') as (s2 & dest & -> & H2). cbn [rbind]. by do 3 eexists. }
  cbn [rbind]. destruct (is_ok s2) eqn:Es2.
  2: { cbn [rbind]. do 3 eexists. split; [done|]. unfold group_outcome. cbn [log_ mem_ imm_ tmp_batch_ bg_error_]. rewrite Es2.
       split_and!; try done; [|by rewrite Eerr; apply Hsync]. apply healthy_log_left in Hlog2.
       eapply left_fewer; [|exact Hlog2]. rewrite length_app. lia. }
  destruct (InsertInto_ok sizeof_ok (mem_ db) _ b _ ops Hb Hmem) as (status & ops1 & ops2 & m' & Eops & -> & Hm' & _ & Hst); [lia|lia|done|].
  cbn [rbind]. exists status, err, (mk_db log2 m' (imm_ db) (tmp_batch_ db) (last_sequence db) (bg_error_ db)). split; [done|].
  unfold group_outcome. cbn [log_ mem_ imm_ tmp_batch_ bg_error_ negb] in *. subst err. split_and!; [done..|].
  destruct Hst as [->|[-> ->]].
  - split; [done|]. apply healthy_log_left in Hlog2. by rewrite length_app, Nat.add_1_r in Hlog2.
  - cbn [is_ok status_ok]. rewrite app_nil_r in Eops. subst ops1. split_and!; [done|apply Hlog2..|].
    rewrite concat_snoc, entries_of_app, insert_all_app, zlen_app, Z.add_assoc. done.
Qed.

(** The operations of the first [m] writers behind the first. *)
Definition group_ops (ops1 : list op) (opss : list (list op)) (m : nat) : list op := ops1 ++ concat (firstn m opss).

Lemma group_ops_part ops1 opss m : exists more, ops1 ++ concat opss = group_ops ops1 opss m ++ more.
Proof. exists (concat (skipn m opss)). unfold group_ops. rewrite <- app_assoc, <- concat_app, firstn_skipn. done. Qed.

Lemma Write_ok db q groups w ws b q1 ops1 opss :
  healthy db q groups -> batch w = Some b -> holds b q1 ops1 -> zlen b < 2 ^ 62 -> Forall2 wants ws opss ->
  last_sequence db + zlen (ops1 ++ concat opss) <= kMaxSequenceNumber -> Forall op_fits (ops1 ++ concat opss) ->
  exists status m b' db', Write Extend user new_array sizeof_Node db status_ok (w :: ws) = Ret (status, S m, b', db') /\
    (m <= length ws)%nat /\ Forall (fun w' => sync w' = true -> sync w = true) (firstn m ws) /\
    let ops := group_ops ops1 opss m in
    match status with
    | None => log_left (log_ db') q (groups ++ [ops]) (S (length groups))
    | Some s =>
        last_sequence db' = last_sequence db + zlen ops /\ imm_ db' = imm_ db /\
        if is_ok s then healthy db' q (groups ++ [ops]) /\ bg_error_ db' = bg_error_ db
        else
          mem_ db' = mem_ db /\ log_left (log_ db') q (groups ++ [ops]) (length groups) /\
          (failed (dest_ (log_ db')) = true /\ bg_error_ db' = bg_error_ db \/
           sync w = true /\ bg_error_ db' = if is_ok (bg_error_ db) then s else bg_error_ db)
    end.
Proof.
  intros Hdb Ew Hb Hl Hws Hmax Hops. pose proof Hdb as (_ & _ & Hlast & Hq & Htmp). pose proof (zlen_nonneg (concat groups)).
  unfold Write. rewrite Ew. cbn [is_ok status_ok andb bool_decide]. rewrite Htmp.
  change (bool_decide (is_Some (Some b))) with true. cbn [andb].
  destruct (BuildBatchGroup_ok w b q1 ops1 ws opss Ew Hb Hl Hws) as (updates & switched & m & q' & -> & Hm & Hsync & Hu & Hsw).
  cbn [rbind]. fold (group_ops ops1 opss m) in Hu. destruct (group_ops_part ops1 opss m) as [more Emore]. set (ops := group_ops ops1 opss m) in *.
  rewrite Emore, zlen_app in Hmax. rewrite Emore in Hops. apply Forall_app in Hops as [Hops _].
  pose proof (zlen_nonneg ops). pose proof (zlen_nonneg more). change kMaxSequenceNumber with (2 ^ 56 - 1) in Hmax.
  rewrite (wrap_small 64 (last_sequence db + 1) : _ -> u64 (last_sequence db + 1) = _) by lia.
  destruct (SetSequence_ok _ _ _ (last_sequence db + 1) Hu) as (b' & -> & Hb'); [unfold is_u64; lia|]. cbn [rbind].
  destruct (holds_header _ _ _ Hb') as (-> & _). cbn [rbind].
  rewrite (wrap_small 64 (last_sequence db + zlen ops) : _ -> u64 (last_sequence db + zlen ops) = _) by lia.
  destruct (log_and_apply_ok db q groups b' ops (sync w) Hdb Hb') as (status & err & db' & -> & Hbg & Himm & Htmp' & Hout);
    [change kMaxSequenceNumber with (2 ^ 56 - 1); lia|done|]. cbn [rbind].
  destruct status as [s|]; [|exists None, m, (Some b), db'; by destruct Hout].
  do 4 eexists. split; [done|]. split; [done|]. split; [done|]. cbn [last_sequence imm_ bg_error_ mem_ log_].
  assert (imm_ (if err then RecordBackgroundError db' s else db') = imm_ db /\
    log_ (if err then RecordBackgroundError db' s else db') = log_ db' /\
    mem_ (if err then RecordBackgroundError db' s else db') = mem_ db') as (-> & -> & ->).
  { destruct err; [|done]. unfold RecordBackgroundError. by destruct (is_ok (bg_error_ db')). }
  split; [done|]. split; [done|]. destruct (is_ok s) eqn:Es.
  - destruct Hout as (-> & Hlog & Hmem). split; [|done]. split; [done|]. split; [done|]. cbn [last_sequence tmp_batch_].
    rewrite concat_snoc, zlen_app. fold ops. split_and!; [lia|lia|].
    destruct switched; [done|congruence].
  - destruct Hout as (Hmem & Hlog & Hwhy). split; [done|]. split; [done|]. destruct err.
    + right. split; [done|]. unfold RecordBackgroundError. rewrite Hbg. by destruct (is_ok (bg_error_ db)).
    + left. by split.
Qed.

(** ** Reading *)

(** The memtables of a database: those of the immutable one, if any, are older. *)
Definition memtables (db : DBImpl (F := F)) (imm_es es : list entry) (q : Z) : Prop :=
  numbered (mem_ db) es (last_sequence db + 1) /\ Forall (fun e => q <= e_seq e) es /\ 1 <= refs_ (mem_ db) /\
  match imm_ db with Some imm => numbered imm imm_es q /\ 1 <= refs_ imm | None => imm_es = [] end.

Lemma Unref_ret m : 1 <= refs_ m -> exists r, Unref m = Ret r.
Proof.
  intros H. unfold Unref, assert_. cbn [refs_]. destruct (Z.geb_spec (refs_ m - 1) 0); [|lia]. cbn [rbind].
  destruct (Z.leb_spec (refs_ m - 1) 0); [|by eexists]. destruct (Z.eqb_spec (refs_ m - 1) 0); [by eexists|lia].
Qed.

Lemma Unref_Ref m : 1 <= refs_ m -> exists r, Unref (Ref m) = Ret r.
Proof. intros H. apply Unref_ret. cbn. lia. Qed.

Lemma newest_later u s old new f : (forall e e', e ∈ old -> e' ∈ new -> e_seq e <= e_seq e') ->
  newest (cmp := cmp) u s new (Some f) -> newest (cmp := cmp) u s (old ++ new) (Some f).
Proof.
  intros Hlt (Hi & Hv & Hm). split; [|split; [done|]]; [apply elem_of_app; by right|].
  intros e [He|He]%elem_of_app Hve; [by apply Hlt|by apply Hm].
Qed.

Lemma newest_earlier u s old new f : newest (cmp := cmp) u s new None -> newest (cmp := cmp) u s old f -> newest (cmp := cmp) u s (old ++ new) f.
Proof.
  intros Hnew Hold. destruct f as [f|]; cbn [newest] in *; [|by apply Forall_app].
  destruct Hold as (Hi & Hv & Hm). split; [|split; [done|]]; [apply elem_of_app; by left|].
  intros e [He|He]%elem_of_app Hve; [by apply Hm|]. eapply Forall_forall in Hnew; [|exact He]. cbn in Hnew. congruence.
Qed.

Lemma DbGet_ok db imm_es es q snapshot u current k value :
  memtables db imm_es es q -> valid u -> zlen u + 13 < 2 ^ 32 -> is_sequence (default (last_sequence db) snapshot) ->
  new_lookup_key u (default (last_sequence db) snapshot) = Ret k ->
  exists found, newest (cmp := cmp) u (default (last_sequence db) snapshot) (imm_es ++ es) found /\
    DbGet user db snapshot current u value =
    match found with
    | Some _ => let '(_, value, st) := answer found value status_ok in Ret (st, value)
    | None => current k value status_ok
    end.
Proof.
  set (s := default _ _). intros ((Hmem & _ & Hlt) & Hge & Href & Himm) Hu Hl Hs Ek. unfold DbGet. fold s. rewrite Ek. cbn [rbind].
  change (LdbMemTable.Get user (Ref (mem_ db))) with (LdbMemTable.Get user (mem_ db)).
  rewrite (LdbMemTable.Get_ok _ _ u s k value status_ok Hmem Hu Hs Hl Ek). cbn [rbind].
  pose proof (find_newest _ _ u s Hmem Hu) as Hnew. destruct (Unref_Ref _ Href) as [r Er].
  assert (forall m : res (Status * list Z),
    (let! (s, value) := m in let! _ := Unref (Ref (mem_ db)) in
     let! _ := match option_map Ref (imm_ db) with Some imm => Unref imm | None => Ret None end in Ret (s, value)) = m) as Hend.
  { intros [[s' value']| |]; cbn [rbind]; [|done..]. rewrite Er. cbn [rbind]. destruct (imm_ db) as [imm|]; cbn [option_map rbind]; [|done].
    destruct Himm as [_ Hri]. by destruct (Unref_Ref imm Hri) as [ri ->]. }
  destruct (List.find (LdbMemTable.visible u s) es) as [e|].
  - exists (Some e). split; [|cbn [answer]; destruct (e_type e =? kTypeValue); by apply (Hend (Ret (_, _)))].
    apply newest_later; [|done]. intros e1 e2 H1 H2. destruct (imm_ db) as [imm|]; [|by subst imm_es; apply elem_of_nil in H1].
    destruct Himm as ((_ & _ & Hi) & _). eapply Forall_forall in Hi; [|exact H1]. eapply Forall_forall in Hge; [|exact H2]. cbn in *. lia.
  - cbn [answer]. destruct (imm_ db) as [imm|] eqn:Eimm; cbn [option_map].
    2: { subst imm_es. exists None. split; [done|]. cbn [rbind]. by apply Hend. }
    destruct Himm as ((Hi & _) & _). change (LdbMemTable.Get user (Ref imm)) with (LdbMemTable.Get user imm).
    rewrite (LdbMemTable.Get_ok _ _ u s k value status_ok Hi Hu Hs Hl Ek). cbn [rbind].
    pose proof (find_newest _ _ u s Hi Hu) as Hold. destruct (List.find (LdbMemTable.visible u s) imm_es) as [e|].
    + exists (Some e). split; [by apply newest_earlier|]. cbn [answer]. destruct (e_type e =? kTypeValue); by apply (Hend (Ret (_, _))).
    + exists None. split; [by apply newest_earlier|]. cbn [answer rbind]. by apply Hend.
Qed.

(** ** Theorems *)

(** C24. A write by the writer at the front of the queue: it takes a prefix of the queue,
    without writers that want a sync unless it wants one itself, and merges what
    they want into one group, in order, under consecutive numbers.  When it
    succeeds the log has the group, all of it delivered, and the memtable its
    entries.  When it fails the memtable is unchanged, the log has the group or a
    part of it, and either the log file has failed or a sync has, after which all
    writes fail. *)
Theorem write_group db q groups w ws b q1 ops1 opss :
  healthy db q groups -> batch w = Some b -> holds b q1 ops1 -> zlen b < 2 ^ 62 -> Forall2 wants ws opss ->
  last_sequence db + zlen (ops1 ++ concat opss) <= kMaxSequenceNumber -> Forall op_fits (ops1 ++ concat opss) ->
  exists status m b' db', Write Extend user new_array sizeof_Node db status_ok (w :: ws) = Ret (status, S m, b', db') /\
    (m <= length ws)%nat /\ Forall (fun w' => sync w' = true -> sync w = true) (firstn m ws) /\
    let ops := group_ops ops1 opss m in
    match status with
    | None => log_left (log_ db') q (groups ++ [ops]) (S (length groups))
    | Some s =>
        last_sequence db' = last_sequence db + zlen ops /\ imm_ db' = imm_ db /\
        if is_ok s then healthy db' q (groups ++ [ops]) /\ bg_error_ db' = bg_error_ db
        else
          mem_ db' = mem_ db /\ log_left (log_ db') q (groups ++ [ops]) (length groups) /\
          (failed (dest_ (log_ db')) = true /\ bg_error_ db' = bg_error_ db \/
           sync w = true /\ bg_error_ db' = if is_ok (bg_error_ db) then s else bg_error_ db)
    end.
Proof. apply Write_ok. Qed.

(** [Get] answers from the memtables with the newest entry that the snapshot sees,
    the value or that it was deleted, and asks the tables only when there is none. *)
Theorem get_memtables db imm_es es q snapshot u current k value :
  memtables db imm_es es q -> valid u -> zlen u + 13 < 2 ^ 32 -> is_sequence (default (last_sequence db) snapshot) ->
  new_lookup_key u (default (last_sequence db) snapshot) = Ret k ->
  exists found, newest (cmp := cmp) u (default (last_sequence db) snapshot) (imm_es ++ es) found /\
    DbGet user db snapshot current u value =
    match found with
    | Some _ => let '(_, value, st) := answer found value status_ok in Ret (st, value)
    | None => current k value status_ok
    end.
Proof. apply DbGet_ok. Qed.

End WriteProof.
