(* ===== verification/LdbRecovery.v ===== *)
(** * LevelDB: recovering from a log (db/db_impl.cc, RecoverLogFile)

    After a crash the database reads the log back, applies its batches to memtables
    and writes those to tables.  Composed with the write path: what is recovered
    are the first groups that were written, all of those that were acknowledged
    among them. *)
From S2P Require Import Prelude WireSpec.
From S2P Require Import LdbCoding LdbCrc32c LdbStatus LdbLogWriter LdbLogReader LdbOrder LdbKeys LdbArena LdbSkipList LdbSkipListSpec.
From S2P Require Import LdbMemTable LdbWriteBatch LdbDbWrite.
From Stdlib Require Import ZArith Lia.
From stdpp Require Import base tactics numbers list strings.
#[local] Open Scope Z_scope.

(** ** Definitions *)

Record Options := mk_options { paranoid_checks : bool; write_buffer_size : Z; reuse_logs : bool }.

Definition MaybeIgnoreError (options : Options) (s : Status) : Status :=
  if is_ok s || paranoid_checks options then s else status_ok.

(** [LogReporter::Corruption] *)
Definition report (options : Options) (status : Status) (call : Z * Status) : Status :=
  if paranoid_checks options && is_ok status then snd call else status.

Section RecoverLogFile.
Context {G : Type} {SF : SequentialFile G} (Value : list Z -> Z).
Context (user : Comparator) (new_array : list region -> Z -> option Z) (sizeof_Node : Z).
Context {V : Type} (WriteLevel0Table : MemTable -> V -> res (Status * V)).
Context {F : Type} (options : Options).

(** The variables of [RecoverLogFile]. *)
Record Recovering := mk_recovering {
  reader : Reader G;
  status : Status;
  mem : option MemTable;
  compactions : Z;
  save_manifest : bool;
  edit : V;
  max_sequence : Z;
}.

Definition reports (r : Reader G) : list (Z * Status) := default [] (reporter_ r).

(** [InsertInto] for a record, and what follows it in the loop; nothing when an
    allocation throws. *)
Definition apply_record (s : Recovering) (m : MemTable) (batch : WriteBatch) : res (Recovering + option Recovering) :=
  let! (st, m) := InsertInto user new_array sizeof_Node batch m in
  match st with
  | None => Ret (inr None)
  | Some st =>
      let st := MaybeIgnoreError options st in
      if negb (is_ok st) then
        Ret (inr (Some (mk_recovering (reader s) st (Some m) (compactions s) (save_manifest s) (edit s) (max_sequence s))))
      else
        let! seq := Sequence batch in
        let! count := Count batch in
        let last_seq := u64 (seq + count - 1) in
        let max_seq := if last_seq >? max_sequence s then last_seq else max_sequence s in
        if ApproximateMemoryUsage m >? write_buffer_size options then
          let! (st, e) := WriteLevel0Table m (edit s) in
          let! _ := Unref m in
          let s := mk_recovering (reader s) st None (compactions s + 1) true e max_seq in
          if negb (is_ok st) then Ret (inr (Some s)) else Ret (inl s)
        else Ret (inl (mk_recovering (reader s) st (Some m) (compactions s) (save_manifest s) (edit s) max_seq))
  end.

(** A round of the loop; the reporter's calls go to the status. *)
Definition recover_round (fuel : nat) (s : Recovering) : res (Recovering + option Recovering) :=
  let! (found, record, _, r) := ReadRecord Value fuel (reader s) [] [] in
  let st := foldl (report options) (status s) (skipn (length (reports (reader s))) (reports r)) in
  let s := mk_recovering r st (mem s) (compactions s) (save_manifest s) (edit s) (max_sequence s) in
  if negb (found && is_ok st) then Ret (inr (Some s))
  else if zlen record <? 12 then
    let st := report options st (zlen record, Corruption (bytes_of "log record too small") []) in
    Ret (inl (mk_recovering r st (mem s) (compactions s) (save_manifest s) (edit s) (max_sequence s)))
  else
    let! batch := SetContents record in
    let! m :=
      match mem s with
      | Some m => Ret (Some m)
      | None => let! m := new_memtable new_array sizeof_Node in Ret (option_map Ref m)
      end in
    match m with None => Ret (inr None) | Some m => apply_record s m batch end.

(** The status and the outputs; [reused] are [log_] and [mem_] when the log is kept. *)
Record Recovered := mk_recovered {
  recovered_status : Status;
  recovered_save_manifest : bool;
  recovered_edit : V;
  recovered_max_sequence : Z;
  reused : option (Writer F * MemTable);
}.

(** [reopened]: the file and its size when [GetFileSize] and [NewAppendableFile]
    succeed. *)
Definition try_reuse (reopened : option (F * Z)) (last_log : bool) (s : Recovering)
    : res (option (option MemTable * option (Writer F * MemTable))) :=
  if is_ok (status s) && reuse_logs options && last_log && (compactions s =? 0) then
    match reopened with
    | Some (logfile, lfile_size) =>
        let log := reopen_writer Value logfile lfile_size in
        match mem s with
        | Some m => Ret (Some (None, Some (log, m)))
        | None =>
            let! m := new_memtable new_array sizeof_Node in
            Ret (option_map (fun m => (None, Some (log, Ref m))) m)
        end
    | None => Ret (Some (mem s, None))
    end
  else Ret (Some (mem s, None)).

(** After the loop: keep the log and its memtable, or write the memtable. *)
Definition recover_end (reopened : option (F * Z)) (last_log : bool) (s : Recovering) : res (option Recovered) :=
  let! r := try_reuse reopened last_log s in
  match r with
  | None => Ret None
  | Some (m, kept) =>
      match m with
      | Some m =>
          let! (st, save, e) :=
            if is_ok (status s) then let! (st, e) := WriteLevel0Table m (edit s) in Ret (st, true, e)
            else Ret (status s, save_manifest s, edit s) in
          let! _ := Unref m in
          Ret (Some (mk_recovered st save e (max_sequence s) kept))
      | None => Ret (Some (mk_recovered (status s) (save_manifest s) (edit s) (max_sequence s) kept))
      end
  end.

(** [file] is what [NewSequentialFile] returns.  Nothing when an allocation throws.
    A record takes a round; [fuel] is for the reader. *)
Definition RecoverLogFile (n fuel : nat) (file : Status + G) (reopened : option (F * Z)) (last_log : bool)
    (save : bool) (e : V) (max_seq : Z) : res (option Recovered) :=
  match file with
  | inl st => Ret (Some (mk_recovered (MaybeIgnoreError options st) save e max_seq None))
  | inr file =>
      let r := new_reader file (Some []) true 0 in
      let! s := loop n (recover_round fuel) (mk_recovering r status_ok None 0 save e max_seq) in
      match s with
      | None => Ret None
      | Some s => recover_end reopened last_log s
      end
  end.

End RecoverLogFile.

(** ** The reporter *)

Section Reports.
Context {G : Type} {SF : SequentialFile G} (Value : list Z -> Z).

(** Calls are only added. *)
Definition more_calls (r r' : Reader G) : Prop :=
  match reporter_ r with Some c => exists d, reporter_ r' = Some (c ++ d) | None => reporter_ r' = None end.

#[local] Instance more_calls_preorder : PreOrder more_calls.
Proof.
  split; unfold more_calls; [intros r; destruct (reporter_ r) as [c|]; [exists []; by rewrite app_nil_r|done]|].
  intros r1 r2 r3. destruct (reporter_ r1) as [c|]; [|by intros ->]. intros [d ->] [d' ->]. exists (d ++ d'). by rewrite app_assoc.
Qed.

Lemma same_calls_more r r' : reporter_ r = reporter_ r' -> more_calls r r'.
Proof. unfold more_calls. intros <-. destruct (reporter_ r) as [c|]; [exists []; by rewrite app_nil_r|done]. Qed.

Lemma ReportDrop_more r n s : more_calls r (ReportDrop r n s).
Proof.
  unfold ReportDrop. destruct (reporter_ r) as [c|] eqn:E; [|done]. destruct (_ >=? _); [|done].
  unfold more_calls. rewrite E. by eexists.
Qed.

Lemma ReportCorruption_more r n m : more_calls r (ReportCorruption r n m).
Proof. apply ReportDrop_more. Qed.

(** Assignments to the other members. *)
Ltac calls :=
  repeat lazymatch goal with
  | |- more_calls _ (ReportDrop _ _ _) => eapply transitivity; [|apply ReportDrop_more]
  | |- more_calls _ (ReportCorruption _ _ _) => eapply transitivity; [|apply ReportCorruption_more]
  | |- more_calls _ (if ?b then _ else _) => destruct b
  | |- more_calls _ (with_buffer ?r _) => apply (transitivity (y := r)); [|by apply same_calls_more]
  | |- more_calls _ (with_eof ?r _) => apply (transitivity (y := r)); [|by apply same_calls_more]
  | |- more_calls _ (with_file ?r _) => apply (transitivity (y := r)); [|by apply same_calls_more]
  | |- more_calls _ (with_resyncing ?r _) => apply (transitivity (y := r)); [|by apply same_calls_more]
  | |- more_calls _ (with_last_record_offset ?r _) => apply (transitivity (y := r)); [|by apply same_calls_more]
  | |- more_calls _ (with_end_of_buffer_offset ?r _) => apply (transitivity (y := r)); [|by apply same_calls_more]
  end; try done.

Lemma parse_record_more r result t d r' : parse_record Value r result = (t, d, r') -> more_calls r r'.
Proof.
  unfold parse_record. repeat (match goal with |- context [if ?b then _ else _] => destruct b end);
    intros [= <- <- <-]; calls.
Qed.

Lemma refill_more r result x : refill r result = Ret x -> match x with inl r' => more_calls r r' | inr (_, _, r') => more_calls r r' end.
Proof.
  unfold refill. destruct (negb (eof_ r)); [|intros [= <-]; calls].
  destruct (Read _ _ _) as [[[st b] f]| |]; cbn [rbind]; try done.
  repeat (match goal with |- context [if ?b then _ else _] => destruct b end); intros [= <-]; calls.
Qed.

Lemma ReadPhysicalRecord_more r result t d r' : ReadPhysicalRecord Value r result = Ret (t, d, r') -> more_calls r r'.
Proof.
  unfold ReadPhysicalRecord. apply (loop_inv (more_calls r) (fun '(_, _, r') => more_calls r r')); [|done].
  intros r1 x H1. destruct (_ <? _).
  - intros E. pose proof (refill_more _ _ _ E) as H. destruct x as [r2|[[? ?] r2]]; by trans r1.
  - intros [= <-]. destruct (parse_record Value r1 result) as [[t2 d2] r2] eqn:E. trans r1; [done|by eapply parse_record_more].
Qed.

Lemma read_round_more r l x : read_round Value (r, l) = Ret x ->
  match x with inl (r', _) => more_calls r r' | inr (_, _, _, r') => more_calls r r' end.
Proof.
  unfold read_round. destruct (ReadPhysicalRecord Value r _) as [[[t d] r1]| |] eqn:E; cbn [rbind]; try done.
  pose proof (ReadPhysicalRecord_more _ _ _ _ _ E) as H1. set (r2 := if _ && negb _ then _ else r1).
  assert (more_calls r r2) as H2 by (subst r2; calls). clearbody r2.
  repeat (match goal with |- context [match (if ?b then _ else _) with _ => _ end] => destruct b
                        | |- (if ?b then _ else _) = _ -> _ => destruct b end); intros [= <-]; calls.
Qed.

Lemma ReadRecord_more fuel r record scratch found record' scratch' r' :
  ReadRecord Value fuel r record scratch = Ret (found, record', scratch', r') -> more_calls r r'.
Proof.
  unfold ReadRecord. destruct (if _ <? _ then _ else _) as [[b r1]| |] eqn:E; cbn [rbind]; try done.
  assert (more_calls r r1) as H1.
  { revert E. destruct (_ <? _); [|by intros [= _ <-]]. unfold SkipToInitialBlock.
    repeat (match goal with |- context [if ?b then _ else _] => destruct b end); try (intros [= _ <-]; calls);
      destruct (Skip _ _) as [[st f]| |]; cbn [rbind]; try done; destruct (negb _); intros [= _ <-]; calls. }
  destruct b; cbn [negb]; [|by intros [= _ _ _ <-]].
  apply (loop_inv (fun '(r2, _) => more_calls r r2) (fun '(_, _, _, r2) => more_calls r r2)); [|done].
  intros [r2 l] x H2 Ex. pose proof (read_round_more _ _ _ Ex) as H. destruct x as [[r3 l3]|[[[? ?] ?] r3]]; by trans r2.
Qed.

(** The records a reader returns before the end, without a report. *)
Inductive returns (fuel : nat) : Reader G -> list (list Z) -> Prop :=
| returns_end r record sc r' : ReadRecord Value fuel r [] [] = Ret (false, record, sc, r') -> reporter_ r' = Some [] -> returns fuel r []
| returns_record r record sc r' records :
    ReadRecord Value fuel r [] [] = Ret (true, record, sc, r') -> reporter_ r' = Some [] -> returns fuel r' records ->
    returns fuel r (record :: records).

Lemma more_calls_none r r' : reporter_ r = Some [] -> more_calls r r' -> exists c, reporter_ r' = Some c.
Proof. unfold more_calls. intros -> [d ->]. by eexists. Qed.

Lemma read_records_returns n fuel r rs r' : reporter_ r = Some [] -> reporter_ r' = Some [] ->
  read_records Value n fuel r = Ret (rs, r') -> returns fuel r rs.
Proof.
  intros Hr Hr'. assert (forall n r rs, (exists c, reporter_ r = Some c) -> read_records Value n fuel r = Ret (rs, r') -> more_calls r r') as Hmore.
  { clear. induction n as [|n IH]; intros r rs Hc; [done|]. cbn [read_records].
    destruct (ReadRecord Value fuel r [] []) as [[[[found record] sc] r1]| |] eqn:E; cbn [rbind]; try done.
    pose proof (ReadRecord_more _ _ _ _ _ _ _ _ E) as H1. destruct found; [|by intros [= _ <-]].
    destruct (read_records Value n fuel r1) as [[rs1 r2]| |] eqn:E1; cbn [rbind]; try done. intros [= <- <-].
    trans r1; [done|]. eapply IH; [|done]. unfold more_calls in H1. destruct Hc as [c Hc]. rewrite Hc in H1. destruct H1 as [d ->]. by eexists. }
  revert r rs Hr. induction n as [|n IH]; intros r rs Hr; [done|]. cbn [read_records].
  destruct (ReadRecord Value fuel r [] []) as [[[[found record] sc] r1]| |] eqn:E; cbn [rbind]; try done.
  pose proof (ReadRecord_more _ _ _ _ _ _ _ _ E) as H1. destruct found; [|intros [= <- <-]; by econstructor].
  destruct (read_records Value n fuel r1) as [[rs1 r2]| |] eqn:E1; cbn [rbind]; try done. intros [= <- <-].
  destruct (more_calls_none _ _ Hr H1) as [c Hc]. pose proof (Hmore _ _ _ ltac:(by eexists) E1) as H2.
  unfold more_calls in H2. rewrite Hc, Hr' in H2. destruct H2 as [d Ed]. destruct c; [|done].
  econstructor; [done|done|]. by apply IH.
Qed.

End Reports.

(** ** The loop *)

(** A table holds what the memtable held; nothing is written for an empty one. *)
Class Level0 {V : Type} (WriteLevel0Table : MemTable -> V -> res (Status * V)) (tables : V -> list (list entry))
    (valid : list Z -> Prop) (cmp : list Z -> list Z -> Z) : Prop := {
  level0_spec m es e : table_ok (valid := valid) (cmp := cmp) m es -> exists s e', WriteLevel0Table m e = Ret (s, e') /\
    (is_ok s = true -> tables e' = tables e ++ [es] \/ es = [] /\ tables e' = tables e);
}.

Section RecoveryProof.
Context {F : Type} {W : WritableFile F} {usable : F -> Prop}.
Context {written delivered : F -> list Z} {failed dirty : F -> bool}.
Context {FS : FailStop F usable written delivered failed dirty} {HS : HarmlessSync F usable written delivered failed}.
Context {G : Type} {SF : SequentialFile G} {unread : G -> list Z} {LS : LawfulSequential G unread}.
Context {Value : list Z -> Z} {Extend : Z -> list Z -> Z} {C : Checksum Value Extend}.
Context {user : Comparator} {valid : list Z -> Prop} {cmp : list Z -> list Z -> Z} {laws : ComparatorLaws user valid cmp}.
Context {new_array : list region -> Z -> option Z} {fresh : FreshBlocks new_array}.
Context {sizeof_Node : Z} (sizeof_ok : 0 < sizeof_Node < 2 ^ 32).
Context {V : Type} {WriteLevel0Table : MemTable -> V -> res (Status * V)} {tables : V -> list (list entry)}.
Context {L0 : Level0 WriteLevel0Table tables valid cmp} (options : Options).
Abbreviation numbered := (numbered (valid := valid) (cmp := cmp)).
Abbreviation insert_all := (insert_all (cmp := cmp)).
Abbreviation op_fits := (op_fits (valid := valid)).
Abbreviation round := (recover_round Value user new_array sizeof_Node WriteLevel0Table options).

(** The greatest number, after the groups [done]. *)
Definition max_after (max0 q : Z) (done : list (list op)) : Z :=
  if decide (done = []) then max0 else Z.max max0 (q + zlen (concat done) - 1).

(** The tables written so far and the memtable hold the groups [done]. *)
Definition recovering (e0 : V) (max0 q : Z) (done : list (list op)) (s : Recovering (G := G) (V := V)) : Prop :=
  is_ok (status s) = true /\ reporter_ (reader s) = Some [] /\ max_sequence s = max_after max0 q done /\ 0 <= compactions s /\
  exists tabs es, tables (edit s) = tables e0 ++ tabs /\ concat tabs ++ es ≡ₚ entries_of q (concat done) /\
    (compactions s = 0 -> tabs = []) /\
    match mem s with Some m => numbered m es (q + zlen (concat done)) /\ 1 <= refs_ m | None => es = [] end.

Lemma max_after_snoc max0 q done ops : 1 <= q ->
  max_after max0 q (done ++ [ops]) =
  let last := q + zlen (concat done) + zlen ops - 1 in
  if last >? max_after max0 q done then last else max_after max0 q done.
Proof.
  intros Hq. unfold max_after at 1. rewrite decide_False by (by destruct done). rewrite concat_snoc, zlen_app. cbv zeta.
  unfold max_after. pose proof (zlen_nonneg ops). destruct (decide (done = [])) as [->|].
  - cbn [concat]. change (zlen []) with 0. destruct (Z.gtb_spec (q + 0 + zlen ops - 1) max0); lia.
  - destruct (Z.gtb_spec (q + zlen (concat done) + zlen ops - 1) (Z.max max0 (q + zlen (concat done) - 1))); lia.
Qed.

(** A new memtable, referenced once. *)
Lemma fresh_memtable q : exists r, (let! m := new_memtable new_array sizeof_Node in Ret (option_map Ref m)) = Ret r /\
  match r with Some m => numbered m [] q /\ 1 <= refs_ m | None => True end.
Proof.
  destruct (new_memtable_ok (valid := valid) (cmp := cmp) (new_array := new_array) sizeof_ok) as (r & E & H). rewrite E. cbn [rbind].
  eexists. split; [done|]. destruct r as [m|]; cbn [option_map]; [|done]. split; [split; [exact H|split; constructor]|].
  unfold new_memtable in E. destruct (new_skiplist _ _ _ _) as [[t|]| |]; cbn [rbind option_map] in E; try done.
  by injection E as <-.
Qed.

(** What a record of the log does. *)
Lemma apply_record_ok e0 max0 q done s m es tabs b ops :
  is_ok (status s) = true -> reporter_ (reader s) = Some [] -> max_sequence s = max_after max0 q done -> 0 <= compactions s ->
  tables (edit s) = tables e0 ++ tabs -> concat tabs ++ es ≡ₚ entries_of q (concat done) -> (compactions s = 0 -> tabs = []) ->
  numbered m es (q + zlen (concat done)) -> 1 <= refs_ m -> 1 <= q ->
  holds b (q + zlen (concat done)) ops -> Forall op_fits ops -> q + zlen (concat done) + zlen ops - 1 <= kMaxSequenceNumber ->
  exists x, apply_record user new_array sizeof_Node WriteLevel0Table options s m b = Ret x /\
    match x with
    | inl s' => reader s' = reader s /\ recovering e0 max0 q (done ++ [ops]) s'
    | inr (Some s') => is_ok (status s') = false /\ mem s' = None
    | inr None => True
    end.
Proof.
  intros Hst Hrep Hmax Hc Htabs Hperm Hc0 Hm Hr Hq Hb Hops Hle. unfold apply_record.
  pose proof (zlen_nonneg (concat done)). pose proof (zlen_nonneg ops).
  destruct (InsertInto_ok sizeof_ok m es b _ ops Hb Hm ltac:(lia) Hle Hops) as (st & ops1 & ops2 & m' & Eops & -> & Hm' & Hr' & Hs).
  cbn [rbind]. destruct Hs as [->|[-> ->]]; [by exists (inr None)|]. rewrite app_nil_r in Eops. subst ops1.
  change (MaybeIgnoreError options status_ok) with status_ok. cbn [is_ok status_ok negb].
  destruct (holds_header _ _ _ Hb) as (-> & -> & _). cbn [rbind]. change kMaxSequenceNumber with (2 ^ 56 - 1) in Hle.
  rewrite (wrap_small 64 (q + zlen (concat done) + zlen ops - 1) : _ -> u64 (q + zlen (concat done) + zlen ops - 1) = _) by lia.
  pose proof (max_after_snoc max0 q done ops Hq) as Hmax'. rewrite <- Hmax in Hmax'. cbv zeta in Hmax'. rewrite <- Hmax'.
  assert (concat tabs ++ insert_all es (entries_of (q + zlen (concat done)) ops) ≡ₚ entries_of q (concat (done ++ [ops]))) as Hperm'.
  { rewrite concat_snoc, entries_of_app, <- Hperm, <- app_assoc. f_equiv. apply insert_all_perm. }
  assert (q + zlen (concat (done ++ [ops])) = q + zlen (concat done) + zlen ops) as Elen by (rewrite concat_snoc, zlen_app; lia).
  destruct (_ >? write_buffer_size options).
  - destruct (level0_spec m' _ (edit s) (proj1 Hm')) as (st & e' & -> & He). cbn [rbind].
    destruct (Unref_ret m') as [r ->]; [lia|].
    cbn [rbind]. destruct (is_ok st) eqn:Es; cbn [negb]; eexists; (split; [done|]); [|done]. split; [done|].
    split; [done|]. split; [done|]. split; [done|]. cbn [compactions edit mem]. split; [lia|].
    destruct (He eq_refl) as [->|[Ees ->]].
    + exists (tabs ++ [insert_all es (entries_of (q + zlen (concat done)) ops)]), [].
      rewrite Htabs, <- app_assoc, concat_snoc, app_nil_r. split_and!; [done|done|lia|done].
    + exists tabs, []. rewrite Ees in Hperm'. split_and!; [done|done|lia|done].
  - eexists. split; [done|]. cbn [reader]. split; [done|]. split; [done|]. split; [done|]. split; [done|]. split; [done|].
    cbn [compactions edit mem]. exists tabs, (insert_all es (entries_of (q + zlen (concat done)) ops)). rewrite Elen.
    split_and!; try done. lia.
Qed.

Lemma round_record e0 max0 q done fuel s b bs ops :
  recovering e0 max0 q done s -> returns Value fuel (reader s) (b :: bs) -> 1 <= q ->
  holds b (q + zlen (concat done)) ops -> Forall op_fits ops -> q + zlen (concat done) + zlen ops - 1 <= kMaxSequenceNumber ->
  exists x, round fuel s = Ret x /\
    match x with
    | inl s' => returns Value fuel (reader s') bs /\ recovering e0 max0 q (done ++ [ops]) s'
    | inr (Some s') => is_ok (status s') = false /\ mem s' = None
    | inr None => True
    end.
Proof.
  intros (Hst & Hrep & Hmax & Hc & tabs & es & Htabs & Hperm & Hc0 & Hmem) Hret Hq Hb Hops Hle.
  inversion Hret as [|? ? sc r' ? E Hrep' Hret' E1 E2]; subst. unfold recover_round. rewrite E. cbn [rbind].
  assert (skipn (length (reports (reader s))) (reports r') = []) as -> by (unfold reports; by rewrite Hrep, Hrep').
  cbn [foldl]. rewrite Hst. cbn [andb negb].
  destruct (holds_header _ _ _ Hb) as (_ & _ & Hl & _). rewrite Hl. pose proof (zlen_nonneg (records ops)).
  destruct (Z.ltb_spec (12 + zlen (records ops)) 12); [lia|]. rewrite (SetContents_ok _ _ _ Hb). cbn [rbind mem].
  set (s1 := mk_recovering r' (status s) (mem s) (compactions s) (save_manifest s) (edit s) (max_sequence s)).
  assert (forall m, numbered m es (q + zlen (concat done)) -> 1 <= refs_ m ->
    exists x, apply_record user new_array sizeof_Node WriteLevel0Table options s1 m b = Ret x /\
    match x with
    | inl s' => returns Value fuel (reader s') bs /\ recovering e0 max0 q (done ++ [ops]) s'
    | inr (Some s') => is_ok (status s') = false /\ mem s' = None
    | inr None => True
    end) as Hgo.
  { intros m Hm Hr. destruct (apply_record_ok e0 max0 q done s1 m es tabs b ops) as (x & Ex & Hx); try done.
    exists x. split; [done|]. destruct x as [s'|[s'|]]; [|done..]. destruct Hx as [-> Hx]. by split. }
  destruct (mem s) as [m|]; cbn [rbind].
  - destruct Hmem. by apply Hgo.
  - subst es. destruct (fresh_memtable (q + zlen (concat done))) as (r & -> & Hr). cbn [rbind].
    destruct r as [m|]; [|by exists (inr None)]. apply Hgo; apply Hr.
Qed.

(** The whole loop. *)
Lemma loop_records e0 max0 q fuel groups bs : forall done s n,
  numbered_batches (q + zlen (concat done)) groups bs -> recovering e0 max0 q done s -> returns Value fuel (reader s) bs ->
  1 <= q -> Forall op_fits (concat groups) -> q + zlen (concat done) + zlen (concat groups) - 1 <= kMaxSequenceNumber ->
  (length bs < n)%nat ->
  exists r, loop n (round fuel) s = Ret r /\
    match r with
    | Some s' => if is_ok (status s') then recovering e0 max0 q (done ++ groups) s' else mem s' = None
    | None => True
    end.
Proof.
  revert groups; induction bs as [|b bs IH]; intros groups done s n Hn Hs Hret Hq Hops Hle Hfuel; (destruct n as [|n]; [lia|]); rewrite loop_unfold.
  - inversion Hn; subst. inversion Hret as [? record sc r' E Hrep'|]; subst. unfold recover_round. rewrite E. cbn [rbind andb negb].
    eexists. split; [done|]. rewrite app_nil_r. destruct Hs as (Hst & Hrep & Hmax & Hc & Hrest).
    assert (skipn (length (reports (reader s))) (reports r') = []) as -> by (unfold reports; by rewrite Hrep, Hrep').
    cbn [status foldl]. by rewrite Hst.
  - inversion Hn as [|? ops ? groups' ? Hb Hn']; subst. cbn [concat length] in *. rewrite zlen_app in Hle.
    apply Forall_app in Hops as [Hops1 Hops2]. pose proof (zlen_nonneg (concat groups')).
    destruct (round_record e0 max0 q done fuel s b bs ops Hs Hret Hq Hb Hops1 ltac:(lia)) as (x & -> & Hx). cbn [rbind].
    destruct x as [s'|[s'|]].
    + destruct Hx as [Hret' Hs']. destruct (IH groups' (done ++ [ops]) s' n) as (r & -> & Hr); try done.
      * rewrite concat_snoc, zlen_app, Z.add_assoc. done.
      * rewrite concat_snoc, zlen_app. lia.
      * lia.
      * exists r. split; [done|]. destruct r as [s2|]; [|done]. by rewrite <- app_assoc in Hr.
    + exists (Some s'). split; [done|]. destruct Hx as [-> Hx]. done.
    + by exists None.
Qed.

(** *** After the loop *)

(** The groups are in the new tables, or in the memtable that is kept with the log. *)
Definition recovered (e0 : V) (max0 q : Z) (groups : list (list op)) (reopened : option (F * Z)) (r : Recovered (V := V) (F := F)) : Prop :=
  recovered_max_sequence r = max_after max0 q groups /\
  exists tabs es, tables (recovered_edit r) = tables e0 ++ tabs /\ concat tabs ++ es ≡ₚ entries_of q (concat groups) /\
    match reused r with
    | Some (log, m) => numbered m es (q + zlen (concat groups)) /\
        exists f size, reopened = Some (f, size) /\ log = reopen_writer Value f size
    | None => es = []
    end.

Lemma recover_end_ok e0 max0 q groups s reopened last_log :
  recovering e0 max0 q groups s -> exists r,
    recover_end Value new_array sizeof_Node WriteLevel0Table options reopened last_log s = Ret r /\
    match r with Some r => is_ok (recovered_status r) = true -> recovered e0 max0 q groups reopened r | None => True end.
Proof.
  intros (Hst & _ & Hmax & Hc & tabs & es & Htabs & Hperm & Hc0 & Hmem). unfold recover_end.
  set (kept := fun m (k : option (Writer F * MemTable)) => match m with
    | Some m => k = None /\ numbered m es (q + zlen (concat groups)) /\ 1 <= refs_ m
    | None => match k with
      | Some (log, m) => numbered m es (q + zlen (concat groups)) /\ exists f size, reopened = Some (f, size) /\ log = reopen_writer Value f size
      | None => es = []
      end
    end).
  assert (exists r, try_reuse Value new_array sizeof_Node options reopened last_log s = Ret r /\
    match r with Some (m, k) => kept m k | None => True end) as (r & -> & Hr).
  { assert (kept (mem s) None) as Hkept by (subst kept; by destruct (mem s)).
    unfold try_reuse. destruct (_ && _); [|by eexists]. destruct reopened as [[f size]|]; [|by eexists].
    destruct (mem s) as [m|]; [eexists; split; [done|]; split; [apply Hmem|by eexists _, _]|].
    destruct (fresh_memtable (q + zlen (concat groups))) as (r & E & Hr).
    destruct (new_memtable new_array sizeof_Node) as [r0| |]; cbn [rbind] in E |- *; [|done..]. injection E as <-.
    eexists. split; [done|]. destruct r0 as [m0|]; cbn [option_map]; [|done]. cbn in Hmem. subst es.
    split; [apply Hr|by eexists _, _]. }
  cbn [rbind]. destruct r as [[m k]|]; [|by exists None].
  destruct m as [m|]; cbn [kept] in Hr.
  - destruct Hr as (-> & Hm & Hrefs). rewrite Hst. destruct (level0_spec m es (edit s) (proj1 Hm)) as (st & e' & -> & He). cbn [rbind].
    destruct (Unref_ret m Hrefs) as [r ->].
    cbn [rbind]. eexists. split; [done|]. cbn [recovered_status]. intros Hok. split; [done|]. cbn [recovered_edit reused].
    destruct (He Hok) as [->|[-> ->]].
    + exists (tabs ++ [es]), []. by rewrite Htabs, <- app_assoc, concat_snoc, app_nil_r.
    + by exists tabs, [].
  - eexists. split; [done|]. intros _. split; [done|]. cbn [recovered_edit reused]. by exists tabs, es.
Qed.

(** *** A log that was being written *)

Lemma numbered_batches_firstn k q groups bs : numbered_batches q groups bs -> numbered_batches q (firstn k groups) (firstn k bs).
Proof. intros H. revert k. induction H; intros [|k]; constructor; auto. Qed.

Lemma recover_left log q groups acked rf n fuel reopened last_log save e0 max0 :
  log_left (Value := Value) (delivered := delivered) log q groups acked -> unread rf = delivered (dest_ log) ->
  1 <= q -> Forall op_fits (concat groups) -> q + zlen (concat groups) - 1 <= kMaxSequenceNumber ->
  (length groups < n)%nat -> (length (unread rf) < fuel)%nat -> (acked <= length groups)%nat ->
  exists r, RecoverLogFile Value user new_array sizeof_Node WriteLevel0Table options n fuel (inr rf) reopened last_log save e0 max0 = Ret r /\
    match r with
    | Some r => is_ok (recovered_status r) = true ->
        exists k, (acked <= k)%nat /\ recovered e0 max0 q (firstn k groups) reopened r
    | None => True
    end.
Proof.
  intros (bs & bytes & off & rest & bytes1 & off1 & Hn & Hl & Ebytes & Hl1 & Hp) Hu Hq Hops Hle Hfuel Hfuel2 Hacked.
  pose proof (numbered_batches_length _ _ _ Hn) as Elen. rewrite <- Hu in Ebytes, Hp. clear Hu.
  destruct (log_prefix_read rf bs bytes off (unread rf) rest (Some []) true n fuel Hl (numbered_batches_bytes _ _ _ Hn) Ebytes eq_refl)
    as (k & r' & E & Hrep & [_ Hnext] & _); [lia|done|].
  pose proof (read_records_returns Value n fuel (new_reader rf (Some []) true 0) _ r' eq_refl Hrep E) as Hret.
  assert (acked <= k)%nat as Hk.
  { destruct (decide (acked <= k)%nat); [done|exfalso]. destruct (logged_firstn (S k) _ _ _ _ Hl1) as (b2 & o2 & H2 & Hp2).
    rewrite firstn_firstn, Nat.min_l in H2 by lia. specialize (Hnext ltac:(lia) _ _ H2).
    apply prefix_length in Hp, Hp2. lia. }
  unfold RecoverLogFile.
  assert (concat groups = concat (firstn k groups) ++ concat (skipn k groups)) as Esplit by (by rewrite <- concat_app, firstn_skipn).
  rewrite Esplit in Hops, Hle. apply Forall_app in Hops as [Hops _]. rewrite zlen_app in Hle. pose proof (zlen_nonneg (concat (skipn k groups))).
  destruct (loop_records e0 max0 q fuel (firstn k groups) (firstn k bs) [] (mk_recovering (new_reader rf (Some []) true 0) status_ok None 0 save e0 max0) n)
    as (r & Er & Hr).
  - cbn [concat]. rewrite Z.add_0_r. by apply numbered_batches_firstn.
  - split_and!; try done. exists [], []. by rewrite app_nil_r.
  - done.
  - done.
  - done.
  - cbn [concat]. change (zlen []) with 0. lia.
  - rewrite length_take. lia.
  - rewrite Er. cbn [rbind app] in *. destruct r as [s|]; [|by exists None].
    destruct (is_ok (status s)) eqn:Es.
    + destruct (recover_end_ok e0 max0 q _ s reopened last_log Hr) as (r & -> & Hrec). exists r. split; [done|].
      destruct r as [r|]; [|done]. intros Hok. exists k. split; [done|]. by apply Hrec.
    + unfold recover_end, try_reuse. rewrite Es. cbn [andb rbind]. rewrite Hr. eexists. split; [done|]. cbn. congruence.
Qed.

(** *** What is read afterwards *)

(** Lookups at the last number answer with the last operation on the key. *)
Definition reads_as (es : list entry) (q : Z) (ops : list op) : Prop :=
  forall u value st found, newest (cmp := cmp) u (q + zlen ops - 1) es found ->
    answer found value st = match last_op (cmp := cmp) u ops with Some o => op_answer o value st | None => (false, value, st) end.

Lemma entries_reads_as es q ops : es ≡ₚ entries_of q ops -> reads_as es q ops.
Proof.
  intros Hp u value st found Hf.
  assert (NoDup (map e_seq es)) as Hnd.
  { rewrite Hp, entries_numbers. apply (NoDup_fmap_2_strong (fun i => q + Z.of_nat i)); [intros; lia|apply NoDup_seq]. }
  pose proof (last_op_split (cmp := cmp) u ops) as Hlast. destruct (last_op u ops) as [o|].
  - destruct Hlast as (ops1 & ops2 & -> & Ho & Hafter). rewrite <- (answer_entry (q + zlen ops1) o value st). f_equal.
    eapply (newest_unique (cmp := cmp)); [exact Hnd|exact Hf|]. destruct (entry_of_parts (q + zlen ops1) o) as [Eu Es].
    split_and!.
    + rewrite Hp, entries_of_app. apply elem_of_app. right. cbn [entries_of]. by left.
    + unfold LdbMemTable.visible. rewrite Eu, Es, Ho. cbn [Z.eqb andb]. apply Z.leb_le.
      rewrite zlen_app, zlen_cons. pose proof (zlen_nonneg ops2). lia.
    + intros e' He' Hv. rewrite Es. apply andb_prop in Hv as [Hv _]. apply Z.eqb_eq in Hv.
      rewrite Hp, entries_of_app in He'. apply elem_of_app in He' as [He'|He'].
      * destruct (entries_seq _ _ _ He') as (l1 & o' & l2 & -> & ->). rewrite (proj2 (entry_of_parts _ _)), zlen_app, zlen_cons.
        pose proof (zlen_nonneg l2). lia.
      * cbn [entries_of] in He'. apply elem_of_cons in He' as [->|He']; [by rewrite Es|exfalso].
        destruct (entries_seq _ _ _ He') as (l1 & o' & l2 & -> & ->). rewrite (proj1 (entry_of_parts _ _)) in Hv.
        eapply Forall_forall in Hafter; [by apply Hafter|]. apply elem_of_app. right. by left.
  - destruct found as [e|]; [|done]. exfalso. destruct Hf as (He & Hv & _). rewrite Hp in He.
    destruct (entries_seq _ _ _ He) as (l1 & o & l2 & -> & ->). apply andb_prop in Hv as [Hv%Z.eqb_eq _].
    rewrite (proj1 (entry_of_parts _ _)) in Hv. eapply Forall_forall in Hlast; [by apply Hlast|]. apply elem_of_app. right. by left.
Qed.

(** ** Theorem *)

(** C3. Durability: a database whose log and memtable hold some groups writes one more
    and crashes.  Recovering what its log file has delivered either reports an
    error, or gives tables, with the memtable when the log is kept, whose entries
    are those of the first groups: at least all groups before the last write, and
    that of the write too when it succeeded.  Lookups then answer with the last
    operation of these groups on the key. *)
Theorem durability (db : DBImpl (F := F)) q groups w ws b q1 ops1 opss (rf : G) n fuel (reopened : option (F * Z)) last_log save (e0 : V) max0 :
  healthy (Value := Value) (usable := usable) (written := written) (delivered := delivered) (failed := failed) (valid := valid) (cmp := cmp) db q groups ->
  batch w = Some b -> holds b q1 ops1 -> zlen b < 2 ^ 62 -> Forall2 wants ws opss ->
  last_sequence db + zlen (ops1 ++ concat opss) <= kMaxSequenceNumber -> Forall op_fits (concat groups ++ ops1 ++ concat opss) ->
  (forall status m b' db', Write Extend user new_array sizeof_Node db status_ok (w :: ws) = Ret (status, m, b', db') ->
     unread rf = delivered (dest_ (log_ db')) /\ (length (unread rf) < fuel)%nat) ->
  (S (length groups) < n)%nat ->
  exists status m b' db' r,
    Write Extend user new_array sizeof_Node db status_ok (w :: ws) = Ret (status, S m, b', db') /\
    RecoverLogFile Value user new_array sizeof_Node WriteLevel0Table options n fuel (inr rf) reopened last_log save e0 max0 = Ret r /\
    match r with
    | Some r => is_ok (recovered_status r) = true ->
        exists k tabs es, let kept := firstn k (groups ++ [group_ops ops1 opss m]) in
          (length groups <= k)%nat /\ (default false (option_map is_ok status) = true -> kept = groups ++ [group_ops ops1 opss m]) /\
          tables (recovered_edit r) = tables e0 ++ tabs /\
          match reused r with
          | Some (log, m) => numbered m es (q + zlen (concat kept)) /\
              exists f size, reopened = Some (f, size) /\ log = reopen_writer Value f size
          | None => es = []
          end /\
          concat tabs ++ es ≡ₚ entries_of q (concat kept) /\ reads_as (concat tabs ++ es) q (concat kept)
    | None => True
    end.
Proof.
  intros Hdb Ew Hb Hl Hws Hmax Hops Hcrash Hn. apply Forall_app in Hops as [Hops0 Hops]. pose proof Hdb as (_ & _ & Hlast & Hq & _).
  destruct (Write_ok (HS := HS) sizeof_ok db q groups w ws b q1 ops1 opss Hdb Ew Hb Hl Hws Hmax Hops) as (status & m & b' & db' & E & Hm & _ & Hst).
  cbv zeta in Hst. set (ops := group_ops ops1 opss m) in *. destruct (group_ops_part ops1 opss m) as [more Emore]. fold ops in Emore.
  destruct (Hcrash _ _ _ _ E) as [Hu Hfuel].
  assert (exists acked, (length groups <= acked <= S (length groups))%nat /\
    log_left (Value := Value) (delivered := delivered) (log_ db') q (groups ++ [ops]) acked /\
    (default false (option_map is_ok status) = true -> acked = S (length groups))) as (acked & Hacked & Hleft & Hall).
  { destruct status as [s|]; [|by exists (S (length groups)); split_and!; [lia|lia| |]].
    cbn [option_map default from_option]. destruct Hst as (_ & _ & Hst). destruct (is_ok s).
    - exists (S (length groups)). destruct Hst as [[Hlog _] _]. apply healthy_log_left in Hlog. rewrite length_app, Nat.add_1_r in Hlog.
      by split_and!; [lia|lia| |].
    - exists (length groups). by split_and!; [lia|lia|apply Hst|]. }
  rewrite Emore in Hops, Hmax. apply Forall_app in Hops as [Hops _]. rewrite zlen_app in Hmax. pose proof (zlen_nonneg more).
  destruct (recover_left (log_ db') q (groups ++ [ops]) acked rf n fuel reopened last_log save e0 max0) as (r & Er & Hr); try done.
  - rewrite concat_snoc. by apply Forall_app.
  - rewrite concat_snoc, zlen_app. lia.
  - rewrite length_app. cbn. lia.
  - rewrite length_app. cbn. lia.
  - exists status, m, b', db', r. split; [done|]. split; [done|]. destruct r as [r|]; [|done]. intros Hok.
    destruct (Hr Hok) as (k & Hk & _ & tabs & es & Htabs & Hperm & Hreused). exists k, tabs, es. cbv zeta.
    split_and!; [lia| |done|done|done|by apply entries_reads_as].
    intros Hok'. specialize (Hall Hok'). apply firstn_all2. rewrite length_app. cbn. lia.
Qed.

End RecoveryProof.
