(* ===== verification/LdbIterator.v ===== *)
(** * LevelDB: iterators (include/leveldb/iterator.h, table/iterator.cc, table/iterator_wrapper.h)

    The abstract class [Iterator] as a record of its methods over a state, what its
    implementations promise to their clients as a type class, the empty iterator,
    and the wrapper that remembers whether its iterator is valid and at what key. *)
From S2P Require Import Prelude LdbStatus LdbOrder.
From Stdlib Require Import ZArith Lia.
From stdpp Require Import base tactics numbers list.
#[local] Open Scope Z_scope.

(** ** Definitions *)

Record Iterator (S : Type) := mk_iterator {
  Valid : S -> bool;
  SeekToFirst : S -> res S;
  SeekToLast : S -> res S;
  Seek : S -> list Z -> res S;
  Next : S -> res S;
  Prev : S -> res S;
  it_key : S -> res (list Z);
  it_value : S -> res (list Z);
  it_status : S -> Status;
}.
Arguments mk_iterator {S} _ _ _ _ _ _ _ _ _.
Arguments Valid {S} _ _.
Arguments SeekToFirst {S} _ _.
Arguments SeekToLast {S} _ _.
Arguments Seek {S} _ _ _.
Arguments Next {S} _ _.
Arguments Prev {S} _ _.
Arguments it_key {S} _ _.
Arguments it_value {S} _ _.
Arguments it_status {S} _ _.

(** [EmptyIterator]; its state is its status. *)
Definition EmptyIterator : Iterator Status :=
  mk_iterator (fun _ => false) Ret Ret (fun s _ => Ret s) (fun _ => UB) (fun _ => UB) (fun _ => UB) (fun _ => UB) id.

Definition NewEmptyIterator : Status := status_ok.
Definition NewErrorIterator (status : Status) : Status := status.

(** An iterator that may be one class or another. *)
Definition either_iterator {S T : Type} (a : Iterator S) (b : Iterator T) : Iterator (S + T) :=
  let lift (f : S -> res S) (g : T -> res T) (s : S + T) : res (S + T) :=
    match s with inl s => let! s := f s in Ret (inl s) | inr t => let! t := g t in Ret (inr t) end in
  mk_iterator
    (fun s => match s with inl s => Valid a s | inr t => Valid b t end)
    (lift (SeekToFirst a) (SeekToFirst b)) (lift (SeekToLast a) (SeekToLast b))
    (fun s target => lift (fun s => Seek a s target) (fun t => Seek b t target) s)
    (lift (Next a) (Next b)) (lift (Prev a) (Prev b))
    (fun s => match s with inl s => it_key a s | inr t => it_key b t end)
    (fun s => match s with inl s => it_value a s | inr t => it_value b t end)
    (fun s => match s with inl s => it_status a s | inr t => it_status b t end).

(** *** IteratorWrapper *)

Record IteratorWrapper (S : Type) := mk_wrapper { iter_ : option S; valid_ : bool; key_ : list Z }.
Arguments mk_wrapper {S} iter_ valid_ key_.
Arguments iter_ {S} _.
Arguments valid_ {S} _.
Arguments key_ {S} _.

Section Wrapper.
Context {S : Type} (it : Iterator S).

Definition new_wrapper : IteratorWrapper S := mk_wrapper None false [].

Definition Update (w : IteratorWrapper S) (s : S) : res (IteratorWrapper S) :=
  if Valid it s then let! k := it_key it s in Ret (mk_wrapper (Some s) true k)
  else Ret (mk_wrapper (Some s) false (key_ w)).

Definition w_Set (w : IteratorWrapper S) (iter : option S) : res (IteratorWrapper S) :=
  match iter with None => Ret (mk_wrapper None false (key_ w)) | Some s => Update w s end.

Definition w_Valid (w : IteratorWrapper S) : bool := valid_ w.
Definition w_key (w : IteratorWrapper S) : res (list Z) := let! _ := assert_ (valid_ w) in Ret (key_ w).

(** A method that needs the iterator, and those that move it. *)
Definition with_iter {A : Type} (w : IteratorWrapper S) (f : S -> res A) : res A :=
  match iter_ w with Some s => f s | None => UB end.

Definition w_value (w : IteratorWrapper S) : res (list Z) :=
  let! _ := assert_ (valid_ w) in with_iter w (it_value it).
Definition w_status (w : IteratorWrapper S) : res Status := with_iter w (fun s => Ret (it_status it s)).
Definition w_Next (w : IteratorWrapper S) : res (IteratorWrapper S) := with_iter w (fun s => let! s := Next it s in Update w s).
Definition w_Prev (w : IteratorWrapper S) : res (IteratorWrapper S) := with_iter w (fun s => let! s := Prev it s in Update w s).
Definition w_Seek (w : IteratorWrapper S) (k : list Z) : res (IteratorWrapper S) :=
  with_iter w (fun s => let! s := Seek it s k in Update w s).
Definition w_SeekToFirst (w : IteratorWrapper S) : res (IteratorWrapper S) :=
  with_iter w (fun s => let! s := SeekToFirst it s in Update w s).
Definition w_SeekToLast (w : IteratorWrapper S) : res (IteratorWrapper S) :=
  with_iter w (fun s => let! s := SeekToLast it s in Update w s).

End Wrapper.

(** ** What an iterator promises *)

(** A sequence of pairs, and positions in it; [None] is not a valid position. *)
Abbreviation pairs := (list (list Z * list Z)).

Definition position (kvs : pairs) (i : nat) : option nat := if (i <? length kvs)%nat then Some i else None.

Definition last_position (kvs : pairs) : option nat := match kvs with [] => None | _ => Some (length kvs - 1)%nat end.

Definition before_position (i : nat) : option nat := match i with O => None | S i => Some i end.

(** The first pair whose key is not less. *)
Fixpoint lower_bound (cmp : list Z -> list Z -> Z) (target : list Z) (kvs : pairs) : nat :=
  match kvs with
  | [] => O
  | (k, _) :: kvs => if cmp k target <? 0 then S (lower_bound cmp target kvs) else O
  end.

(** [at_ s p]: the iterator in the state [s] is at the position [p]; from then on
    every operation works and no error is reported. *)
Class LawfulIterator {St : Type} (it : Iterator St) (valid : list Z -> Prop) (cmp : list Z -> list Z -> Z) (kvs : pairs)
    (at_ : St -> option nat -> Prop) : Prop := {
  iter_valid s p : at_ s p -> Valid it s = bool_decide (is_Some p);
  iter_pair s i : at_ s (Some i) -> exists k v, kvs !! i = Some (k, v) /\ it_key it s = Ret k /\ it_value it s = Ret v;
  iter_status s p : at_ s p -> is_ok (it_status it s) = true;
  iter_first s p : at_ s p -> exists s', SeekToFirst it s = Ret s' /\ at_ s' (position kvs 0);
  iter_last s p : at_ s p -> exists s', SeekToLast it s = Ret s' /\ at_ s' (last_position kvs);
  iter_seek s p target : at_ s p -> valid target -> exists s', Seek it s target = Ret s' /\ at_ s' (position kvs (lower_bound cmp target kvs));
  iter_next s i : at_ s (Some i) -> exists s', Next it s = Ret s' /\ at_ s' (position kvs (S i));
  iter_prev s i : at_ s (Some i) -> exists s', Prev it s = Ret s' /\ at_ s' (before_position i);
}.

(** ** Positions *)

Lemma position_lt kvs i : (i < length kvs)%nat -> position kvs i = Some i.
Proof. intros H. unfold position. by destruct (Nat.ltb_spec i (length kvs)); [|lia]. Qed.

Lemma position_ge kvs i : (length kvs <= i)%nat -> position kvs i = None.
Proof. intros H. unfold position. by destruct (Nat.ltb_spec i (length kvs)); [lia|]. Qed.

Lemma last_position_snoc kvs kv : last_position (kvs ++ [kv]) = Some (length kvs).
Proof. unfold last_position. rewrite length_app. cbn [length]. destruct (kvs ++ [kv]) eqn:E; [by destruct kvs|]. f_equal. lia. Qed.

Lemma lower_bound_le cmp target kvs : (lower_bound cmp target kvs <= length kvs)%nat.
Proof. induction kvs as [|[k v] kvs IH]; cbn; [done|]. destruct (_ <? 0); lia. Qed.

Lemma lower_bound_app cmp target l1 l2 :
  lower_bound cmp target (l1 ++ l2) =
  if (lower_bound cmp target l1 <? length l1)%nat then lower_bound cmp target l1 else (length l1 + lower_bound cmp target l2)%nat.
Proof.
  induction l1 as [|[k v] l1 IH]; [done|]. cbn [lower_bound app length]. rewrite IH. destruct (_ <? 0); [|done].
  change (S ?a <? S ?b)%nat with (a <? b)%nat. by destruct (_ <? _)%nat.
Qed.

(** The keys before the lower bound are less, the others are not when sorted. *)
Lemma lower_bound_before cmp target kvs i k v :
  (i < lower_bound cmp target kvs)%nat -> kvs !! i = Some (k, v) -> cmp k target < 0.
Proof.
  revert i; induction kvs as [|[k' v'] kvs IH]; intros i Hi; [done|]. cbn [lower_bound] in Hi.
  destruct (Z.ltb_spec (cmp k' target) 0); [|lia]. destruct i as [|i]; cbn; [by intros [= <- <-]|]. apply IH. lia.
Qed.

Lemma lower_bound_at cmp target kvs k v :
  kvs !! lower_bound cmp target kvs = Some (k, v) -> 0 <= cmp k target.
Proof.
  induction kvs as [|[k' v'] kvs IH]; [done|]. cbn [lower_bound]. destruct (Z.ltb_spec (cmp k' target) 0); cbn; [done|].
  by intros [= <- <-].
Qed.

(** Any split of the pairs by the target. *)
Lemma lower_bound_split cmp target l1 l2 :
  Forall (fun kv => cmp (fst kv) target < 0) l1 -> Forall (fun kv => 0 <= cmp (fst kv) target) l2 ->
  lower_bound cmp target (l1 ++ l2) = length l1.
Proof.
  intros H1 H2. induction H1 as [|[k v] l1 Hk _ IH]; cbn [app lower_bound length].
  - destruct H2 as [|[k v] l2 Hk _]; cbn in *; [done|]. by destruct (Z.ltb_spec (cmp k target) 0); [lia|].
  - cbn in Hk. destruct (Z.ltb_spec (cmp k target) 0); [|lia]. by rewrite IH.
Qed.

Lemma lower_bound_all cmp target l : Forall (fun kv => cmp (fst kv) target < 0) l -> lower_bound cmp target l = length l.
Proof. intros H. rewrite <- (app_nil_r l) at 1. by apply lower_bound_split. Qed.

Lemma lower_bound_none cmp target l : Forall (fun kv => 0 <= cmp (fst kv) target) l -> lower_bound cmp target l = 0%nat.
Proof. by apply (lower_bound_split cmp target []). Qed.

Section Sorted.
Context {valid : list Z -> Prop} {cmp : list Z -> list Z -> Z} {order : KeyOrder valid cmp}.

(** [n] splits the sorted pairs at the target. *)
Lemma lower_bound_unique target l1 l2 : valid target -> sorted valid cmp (map fst (l1 ++ l2)) ->
  (forall k v, last l1 = Some (k, v) -> cmp k target < 0) -> (forall k v, head l2 = Some (k, v) -> 0 <= cmp k target) ->
  lower_bound cmp target (l1 ++ l2) = length l1.
Proof.
  intros Ht Hs H1 H2. rewrite lower_bound_app, map_app in *. apply sorted_app in Hs as (Hs1 & Hs2 & _).
  assert (lower_bound cmp target l1 = length l1) as ->.
  { clear H2 Hs2 l2. induction l1 as [|[k v] l1 IH]; [done|]. cbn [map fst] in Hs1. apply sorted_cons in Hs1 as (Hk & Hlt & Hs1). cbn [lower_bound length].
    assert (cmp k target < 0) as Hlt'.
    { destruct l1 as [|kv l1] using rev_ind; [by apply (H1 k v)|]. clear IHl1.
      destruct kv as [k' v']. specialize (H1 k' v'). rewrite app_comm_cons, last_snoc in H1. specialize (H1 eq_refl).
      rewrite map_app in Hlt, Hs1. apply Forall_app in Hlt as [_ [Hlt _]%Forall_cons]. destruct Hs1 as [_ Hv]. apply Forall_app in Hv as [_ [Hv _]%Forall_cons].
      cbn in Hlt, Hv. unfold less in Hlt. apply (order_lt_trans k k' target); done. }
    destruct (Z.ltb_spec (cmp k target) 0); [|lia]. f_equal. apply IH; [done|].
    intros k' v' E. apply (H1 k' v'). destruct l1; [done|]. exact E. }
  rewrite Nat.ltb_irrefl. destruct l2 as [|[k v] l2]; cbn [lower_bound]; [lia|].
  specialize (H2 k v eq_refl). destruct (Z.ltb_spec (cmp k target) 0); lia.
Qed.

Lemma lower_bound_above target kvs i k v : valid target -> sorted valid cmp (map fst kvs) ->
  kvs !! i = Some (k, v) -> cmp k target < 0 -> (i < lower_bound cmp target kvs)%nat.
Proof.
  intros Ht. revert i; induction kvs as [|[k' v'] kvs IH]; intros i Hs; [done|]. cbn [map fst] in Hs.
  apply sorted_cons in Hs as (Hk & Hlt & Hs). intros Hi Hlt'. cbn [lower_bound].
  assert (cmp k' target < 0) as H0.
  { destruct i as [|i]; [by injection Hi as -> ->|]. cbn in Hi. assert (k ∈ map fst kvs) as Hin by (apply list_elem_of_fmap; exists (k, v); split; [done|by eapply list_elem_of_lookup_2]).
    eapply Forall_forall in Hlt; [|exact Hin]. destruct Hs as [_ Hv]. eapply Forall_forall in Hv; [|exact Hin]. cbn in *. unfold less in Hlt.
    by apply (order_lt_trans k' k target). }
  destruct (Z.ltb_spec (cmp k' target) 0); [|lia]. destruct i as [|i]; [lia|]. cbn in Hi. specialize (IH i Hs Hi Hlt'). lia.
Qed.

End Sorted.

(** ** The empty iterator *)

#[export] Instance empty_lawful valid cmp :
  LawfulIterator EmptyIterator valid cmp [] (fun s p => is_ok s = true /\ p = None).
Proof.
  split; intros s.
  - by intros p [_ ->].
  - by intros i [_ ?].
  - by intros p [Hs _].
  - intros p [Hs _]. by exists s.
  - intros p [Hs _]. by exists s.
  - intros p target [Hs _] _. by exists s.
  - by intros i [_ ?].
  - by intros i [_ ?].
Qed.

(** An iterator that keeps one of several promises over the same pairs. *)
Lemma lawful_union {St A : Type} (it : Iterator St) valid cmp kvs (ok : A -> Prop) (at_ : A -> St -> option nat -> Prop) :
  (forall a, ok a -> LawfulIterator it valid cmp kvs (at_ a)) -> LawfulIterator it valid cmp kvs (fun s p => exists a, ok a /\ at_ a s p).
Proof.
  intros H. split; intros s.
  - intros p (a & Ha & Hs). pose proof (H a Ha). by apply iter_valid.
  - intros i (a & Ha & Hs). pose proof (H a Ha). by apply iter_pair.
  - intros p (a & Ha & Hs). pose proof (H a Ha). by eapply iter_status.
  - intros p (a & Ha & Hs). pose proof (H a Ha). destruct (iter_first s p Hs) as (s' & E & H'). exists s'. split; [done|]. by exists a.
  - intros p (a & Ha & Hs). pose proof (H a Ha). destruct (iter_last s p Hs) as (s' & E & H'). exists s'. split; [done|]. by exists a.
  - intros p target (a & Ha & Hs) Ht. pose proof (H a Ha). destruct (iter_seek s p target Hs Ht) as (s' & E & H'). exists s'. split; [done|]. by exists a.
  - intros i (a & Ha & Hs). pose proof (H a Ha). destruct (iter_next s i Hs) as (s' & E & H'). exists s'. split; [done|]. by exists a.
  - intros i (a & Ha & Hs). pose proof (H a Ha). destruct (iter_prev s i Hs) as (s' & E & H'). exists s'. split; [done|]. by exists a.
Qed.

(** *** Something kept alongside an iterator *)

Definition alongside {St X : Type} (it : Iterator St) : Iterator (St * X) :=
  let lift (f : St -> res St) (s : St * X) : res (St * X) := let! s' := f (fst s) in Ret (s', snd s) in
  mk_iterator (fun s => Valid it (fst s)) (lift (SeekToFirst it)) (lift (SeekToLast it)) (fun s target => lift (fun s => Seek it s target) s)
    (lift (Next it)) (lift (Prev it)) (fun s => it_key it (fst s)) (fun s => it_value it (fst s)) (fun s => it_status it (fst s)).

#[export] Instance alongside_lawful {St X : Type} (it : Iterator St) valid cmp kvs at_ (x : X) :
  LawfulIterator it valid cmp kvs at_ -> LawfulIterator (alongside it) valid cmp kvs (fun s p => at_ (fst s) p /\ snd s = x).
Proof.
  intros L. split; intros [s x'].
  - intros p [H _]. exact (iter_valid s p H).
  - intros i [H _]. exact (iter_pair s i H).
  - intros p [H _]. exact (iter_status s p H).
  - intros p [H Ex]. cbn in *. destruct (iter_first s p H) as (s' & -> & H'). by exists (s', x').
  - intros p [H Ex]. cbn in *. destruct (iter_last s p H) as (s' & -> & H'). by exists (s', x').
  - intros p target [H Ex] Ht. cbn in *. destruct (iter_seek s p target H Ht) as (s' & -> & H'). by exists (s', x').
  - intros i [H Ex]. cbn in *. destruct (iter_next s i H) as (s' & -> & H'). by exists (s', x').
  - intros i [H Ex]. cbn in *. destruct (iter_prev s i H) as (s' & -> & H'). by exists (s', x').
Qed.

(** ** The wrapper *)

Section WrapperProof.
Context {St : Type} {it : Iterator St} {valid : list Z -> Prop} {cmp : list Z -> list Z -> Z} {kvs : pairs} {at_ : St -> option nat -> Prop}.
Context {L : LawfulIterator it valid cmp kvs at_}.

(** The wrapper of an iterator at [p] knows its key. *)
Definition w_at (w : IteratorWrapper St) (p : option nat) : Prop :=
  exists s, iter_ w = Some s /\ at_ s p /\ valid_ w = bool_decide (is_Some p) /\
    match p with Some i => exists v, kvs !! i = Some (key_ w, v) | None => True end.

Lemma Update_ok w s p : at_ s p -> exists w', Update it w s = Ret w' /\ w_at w' p.
Proof.
  intros H. unfold Update. rewrite (iter_valid s p H). destruct p as [i|]; cbn.
  - destruct (iter_pair s i H) as (k & v & E & -> & _). cbn [rbind]. eexists. split; [done|]. exists s. split_and!; try done. by exists v.
  - eexists. split; [done|]. by exists s.
Qed.

Lemma w_Valid_ok w p : w_at w p -> w_Valid w = bool_decide (is_Some p).
Proof. by intros (s & _ & _ & H & _). Qed.

Lemma w_pair w i : w_at w (Some i) -> exists k v, kvs !! i = Some (k, v) /\ w_key w = Ret k /\ key_ w = k /\ w_value it w = Ret v.
Proof.
  intros (s & Es & Hs & Ev & v' & E). destruct (iter_pair s i Hs) as (k & v & E2 & _ & Hv). rewrite E in E2. injection E2 as <- <-.
  exists (key_ w), v'. unfold w_key, w_value, with_iter. rewrite Ev, Es. done.
Qed.

Lemma w_status_ok w p : w_at w p -> exists s, w_status it w = Ret s /\ is_ok s = true.
Proof. intros (s & Es & Hs & _). unfold w_status, with_iter. rewrite Es. eexists. split; [done|]. by eapply iter_status. Qed.

Lemma w_move w p (f : St -> res St) q : w_at w p -> (forall s, at_ s p -> exists s', f s = Ret s' /\ at_ s' q) ->
  exists w', with_iter w (fun s => let! s := f s in Update it w s) = Ret w' /\ w_at w' q.
Proof.
  intros (s & Es & Hs & _) H. unfold with_iter. rewrite Es. destruct (H s Hs) as (s' & -> & Hs'). cbn [rbind]. by apply Update_ok.
Qed.

Lemma w_first w p : w_at w p -> exists w', w_SeekToFirst it w = Ret w' /\ w_at w' (position kvs 0).
Proof. intros H. apply (w_move w p); [done|]. intros s Hs. by eapply iter_first. Qed.

Lemma w_last w p : w_at w p -> exists w', w_SeekToLast it w = Ret w' /\ w_at w' (last_position kvs).
Proof. intros H. apply (w_move w p); [done|]. intros s Hs. by eapply iter_last. Qed.

Lemma w_seek w p target : w_at w p -> valid target -> exists w', w_Seek it w target = Ret w' /\ w_at w' (position kvs (lower_bound cmp target kvs)).
Proof. intros H Ht. apply (w_move w p (fun s => Seek it s target)); [done|]. intros s Hs. by eapply iter_seek. Qed.

Lemma w_next w i : w_at w (Some i) -> exists w', w_Next it w = Ret w' /\ w_at w' (position kvs (S i)).
Proof. intros H. apply (w_move w (Some i)); [done|]. intros s Hs. by eapply iter_next. Qed.

Lemma w_prev w i : w_at w (Some i) -> exists w', w_Prev it w = Ret w' /\ w_at w' (before_position i).
Proof. intros H. apply (w_move w (Some i)); [done|]. intros s Hs. by eapply iter_prev. Qed.

End WrapperProof.
