(* ===== verification/LdbBlock.v ===== *)
(** * LevelDB: blocks (table/block_builder.h, table/block_builder.cc, table/block.h, table/block.cc)

    A block is a sequence of entries, keys compressed against the key before, with
    an array of restart points behind it.  The builder makes one from pairs in
    order, the iterator goes through one in both directions and searches it.
    Pointers into the contents are offsets; a read outside is undefined behaviour. *)
From S2P Require Import Prelude.
From S2P Require Import LdbCoding LdbStatus LdbOrder LdbKeys LdbIterator.
From Stdlib Require Import ZArith Lia.
From stdpp Require Import base tactics numbers list strings.
#[local] Open Scope Z_scope.

(** ** The builder *)

Record BlockBuilder := mk_builder {
  buffer_ : list Z;
  restarts_ : list Z;
  counter_ : Z;
  finished_ : bool;
  last_key_ : list Z;
}.

Section BlockBuilder.
Context (comparator : Comparator) (block_restart_interval : Z).

Definition new_block_builder : res BlockBuilder :=
  let! _ := assert_ (block_restart_interval >=? 1) in
  Ret (mk_builder [] [0] 0 false []).

Definition builder_Reset (b : BlockBuilder) : BlockBuilder := mk_builder [] [0] 0 false [].

Definition CurrentSizeEstimate (b : BlockBuilder) : Z := zlen (buffer_ b) + zlen (restarts_ b) * 4 + 4.

Definition builder_empty (b : BlockBuilder) : bool := zlen (buffer_ b) =? 0.

Definition builder_Finish (b : BlockBuilder) : list Z * BlockBuilder :=
  let buffer := foldl PutFixed32 (buffer_ b) (restarts_ b) in
  let buffer := PutFixed32 buffer (u32 (zlen (restarts_ b))) in
  (buffer, mk_builder buffer (restarts_ b) (counter_ b) true (last_key_ b)).

Definition builder_Add (b : BlockBuilder) (key value : list Z) : res BlockBuilder :=
  let! _ := assert_ (negb (finished_ b)) in
  let! _ := assert_ (counter_ b <=? block_restart_interval) in
  let! ordered :=
    if builder_empty b then Ret true
    else let! r := Compare comparator key (last_key_ b) in Ret (r >? 0) in
  let! _ := assert_ ordered in
  let restart := negb (counter_ b <? block_restart_interval) in
  let shared := if restart then O else shared_prefix (last_key_ b) key in
  let restarts := if restart then restarts_ b ++ [u32 (zlen (buffer_ b))] else restarts_ b in
  let counter := if restart then 0 else counter_ b in
  let non_shared := zlen key - Z.of_nat shared in
  let buffer := PutVarint32 (buffer_ b) (u32 (Z.of_nat shared)) in
  let buffer := PutVarint32 buffer (u32 non_shared) in
  let buffer := PutVarint32 buffer (u32 (zlen value)) in
  let buffer := buffer ++ skipn shared key ++ value in
  let last_key := firstn shared (last_key_ b) ++ skipn shared key in
  let! _ := assert_ (bool_decide (last_key = key)) in
  Ret (mk_builder buffer restarts (counter + 1) (finished_ b) last_key).

End BlockBuilder.

(** ** The block *)

(** [n] bytes from the offset [o] on. *)
Definition bytes_at (data : list Z) (o n : Z) : res (list Z) :=
  if (0 <=? o) && (0 <=? n) && (o + n <=? zlen data) then Ret (firstn (Z.to_nat n) (skipn (Z.to_nat o) data)) else UB.

Definition fixed32_at (data : list Z) (o : Z) : res Z :=
  let! b := bytes_at data o 4 in Ret (DecodeFixed32 b).

(** [restart_offset_] is not set when [size_] marks an error. *)
Record Block := mk_block { data_ : list Z; size_ : Z; restart_offset_ : Z }.

Definition NumRestarts (data : list Z) (size : Z) : res Z :=
  let! _ := assert_ (size >=? 4) in
  fixed32_at data (size - 4).

Definition new_block (contents : list Z) : res Block :=
  let size := zlen contents in
  if size <? 4 then Ret (mk_block contents 0 0)
  else
    let max_restarts_allowed := (size - 4) / 4 in
    let! n := NumRestarts contents size in
    if n >? max_restarts_allowed then Ret (mk_block contents 0 0)
    else Ret (mk_block contents size (u32 (size - u32 (1 + n) * 4))).

(** [*shared], [*non_shared], [*value_length] and the pointer, or null. *)
Definition DecodeEntry (data : list Z) (p limit : Z) : res (option (Z * Z * Z * Z)) :=
  if limit - p <? 3 then Ret None
  else
    let! bytes := bytes_at data p (limit - p) in
    let decoded :=
      let shared := byte_at bytes 0 in
      let non_shared := byte_at bytes 1 in
      let value_length := byte_at bytes 2 in
      if Z.lor (Z.lor shared non_shared) value_length <? 128 then Some (shared, non_shared, value_length, skipn 3 bytes)
      else
        match GetVarint32Ptr bytes with
        | None => None
        | Some (shared, bytes) =>
            match GetVarint32Ptr bytes with
            | None => None
            | Some (non_shared, bytes) =>
                match GetVarint32Ptr bytes with
                | None => None
                | Some (value_length, bytes) => Some (shared, non_shared, value_length, bytes)
                end
            end
        end in
    match decoded with
    | None => Ret None
    | Some (shared, non_shared, value_length, bytes) =>
        if u32 (zlen bytes) <? u32 (non_shared + value_length) then Ret None
        else Ret (Some (shared, non_shared, value_length, limit - zlen bytes))
    end.

(** ** The iterator *)

(** [value_] is an offset and a length, or the empty string elsewhere. *)
Record BlockIter := mk_iter {
  it_data : list Z;
  it_restarts : Z;
  num_restarts_ : Z;
  current_ : Z;
  restart_index_ : Z;
  ikey_ : list Z;
  ivalue_ : option (Z * Z);
  istatus_ : Status;
}.

Definition new_block_iter (data : list Z) (restarts num_restarts : Z) : res BlockIter :=
  let! _ := assert_ (num_restarts >? 0) in
  Ret (mk_iter data restarts num_restarts restarts num_restarts [] None status_ok).

(** Assignments to members. *)
Definition with_current (s : BlockIter) (c : Z) : BlockIter :=
  mk_iter (it_data s) (it_restarts s) (num_restarts_ s) c (restart_index_ s) (ikey_ s) (ivalue_ s) (istatus_ s).
Definition with_restart_index (s : BlockIter) (i : Z) : BlockIter :=
  mk_iter (it_data s) (it_restarts s) (num_restarts_ s) (current_ s) i (ikey_ s) (ivalue_ s) (istatus_ s).
Definition with_entry (s : BlockIter) (k : list Z) (v : option (Z * Z)) : BlockIter :=
  mk_iter (it_data s) (it_restarts s) (num_restarts_ s) (current_ s) (restart_index_ s) k v (istatus_ s).

Definition NextEntryOffset (s : BlockIter) : res Z :=
  match ivalue_ s with Some (o, n) => Ret (u32 (o + n)) | None => UB end.

Definition GetRestartPoint (s : BlockIter) (index : Z) : res Z :=
  let! _ := assert_ (index <? num_restarts_ s) in
  fixed32_at (it_data s) (it_restarts s + index * 4).

Definition SeekToRestartPoint (s : BlockIter) (index : Z) : res BlockIter :=
  let s := with_restart_index s index in
  let! offset := GetRestartPoint s index in
  Ret (with_entry s [] (Some (offset, 0))).

(** No more entries. *)
Definition set_end (s : BlockIter) : BlockIter := with_restart_index (with_current s (it_restarts s)) (num_restarts_ s).

Definition CorruptionError (s : BlockIter) : BlockIter :=
  mk_iter (it_data s) (it_restarts s) (num_restarts_ s) (it_restarts s) (num_restarts_ s) [] None
    (Corruption (bytes_of "bad entry in block") []).

(** [while (restart_index_ + 1 < num_restarts_ && GetRestartPoint(restart_index_ + 1) < current_)] *)
Definition advance_restart (s : BlockIter) : res BlockIter :=
  loop (S (Z.to_nat (num_restarts_ s))) (fun s =>
    if u32 (restart_index_ s + 1) <? num_restarts_ s then
      let! r := GetRestartPoint s (u32 (restart_index_ s + 1)) in
      if r <? current_ s then Ret (inl (with_restart_index s (u32 (restart_index_ s + 1)))) else Ret (inr s)
    else Ret (inr s)) s.

Definition ParseNextKey (s : BlockIter) : res (bool * BlockIter) :=
  let! current := NextEntryOffset s in
  let s := with_current s current in
  if current_ s >=? it_restarts s then Ret (false, set_end s)
  else
    let! entry := DecodeEntry (it_data s) (current_ s) (it_restarts s) in
    match entry with
    | None => Ret (false, CorruptionError s)
    | Some (shared, non_shared, value_length, p) =>
        if zlen (ikey_ s) <? shared then Ret (false, CorruptionError s)
        else
          let! delta := bytes_at (it_data s) p non_shared in
          let s := with_entry s (firstn (Z.to_nat shared) (ikey_ s) ++ delta) (Some (p + non_shared, value_length)) in
          let! s := advance_restart s in
          Ret (true, s)
    end.

Definition bi_Valid (s : BlockIter) : bool := current_ s <? it_restarts s.

Definition bi_key (s : BlockIter) : res (list Z) := let! _ := assert_ (bi_Valid s) in Ret (ikey_ s).

Definition bi_value (s : BlockIter) : res (list Z) :=
  let! _ := assert_ (bi_Valid s) in
  match ivalue_ s with Some (o, n) => bytes_at (it_data s) o n | None => Ret [] end.

Definition bi_Next (s : BlockIter) : res BlockIter :=
  let! _ := assert_ (bi_Valid s) in
  let! (_, s) := ParseNextKey s in
  Ret s.

(** Every entry takes three bytes at least. *)
Definition parse_fuel (s : BlockIter) : nat := S (length (it_data s)).

(** [while (ParseNextKey() && NextEntryOffset() < bound)] *)
Definition parse_until (bound : Z) (s : BlockIter) : res BlockIter :=
  loop (parse_fuel s) (fun s =>
    let! (ok, s) := ParseNextKey s in
    if ok then
      let! next := NextEntryOffset s in
      if next <? bound then Ret (inl s) else Ret (inr s)
    else Ret (inr s)) s.

(** A round of the scan backwards to a restart point before [original]. *)
Definition prev_round (original : Z) (s : BlockIter) : res (BlockIter + bool * BlockIter) :=
  let! r := GetRestartPoint s (restart_index_ s) in
  if r >=? original then
    if restart_index_ s =? 0 then Ret (inr (false, set_end s))
    else Ret (inl (with_restart_index s (restart_index_ s - 1)))
  else Ret (inr (true, s)).

Definition bi_Prev (s : BlockIter) : res BlockIter :=
  let! _ := assert_ (bi_Valid s) in
  let original := current_ s in
  let! (found, s) := loop (S (Z.to_nat (num_restarts_ s))) (prev_round original) s in
  if found then
    let! s := SeekToRestartPoint s (restart_index_ s) in
    parse_until original s
  else Ret s.

Section Search.
Context (comparator : Comparator).

(** A round of the binary search over the restart array, and the search; nothing
    when an entry is bad. *)
Definition search_round (s : BlockIter) (target : list Z) (range : Z * Z) : res (Z * Z + option Z) :=
  let (left_, right_) := range in
  if left_ <? right_ then
    let mid := u32 (left_ + right_ + 1) / 2 in
    let! region_offset := GetRestartPoint s mid in
    let! entry := DecodeEntry (it_data s) region_offset (it_restarts s) in
    match entry with
    | None => Ret (inr None)
    | Some (shared, non_shared, _, key_ptr) =>
        if negb (shared =? 0) then Ret (inr None)
        else
          let! mid_key := bytes_at (it_data s) key_ptr non_shared in
          let! r := Compare comparator mid_key target in
          if r <? 0 then Ret (inl (mid, right_)) else Ret (inl (left_, mid - 1))
    end
  else Ret (inr (Some left_)).

Definition search_restarts (s : BlockIter) (target : list Z) : res (option Z) :=
  loop (S (Z.to_nat (num_restarts_ s))) (search_round s target) (0, u32 (num_restarts_ s - 1)).

(** A round of the linear search. *)
Definition seek_round (target : list Z) (s : BlockIter) : res (BlockIter + BlockIter) :=
  let! (ok, s) := ParseNextKey s in
  if negb ok then Ret (inr s)
  else
    let! r := Compare comparator (ikey_ s) target in
    if r >=? 0 then Ret (inr s) else Ret (inl s).

Definition bi_Seek (s : BlockIter) (target : list Z) : res BlockIter :=
  let! left_ := search_restarts s target in
  match left_ with
  | None => Ret (CorruptionError s)
  | Some left_ =>
      let! s := SeekToRestartPoint s left_ in
      loop (parse_fuel s) (seek_round target) s
  end.

Definition bi_SeekToFirst (s : BlockIter) : res BlockIter :=
  let! s := SeekToRestartPoint s 0 in
  let! (_, s) := ParseNextKey s in
  Ret s.

Definition bi_SeekToLast (s : BlockIter) : res BlockIter :=
  let! s := SeekToRestartPoint s (u32 (num_restarts_ s - 1)) in
  parse_until (it_restarts s) s.

Definition block_iter : Iterator BlockIter :=
  mk_iterator bi_Valid bi_SeekToFirst bi_SeekToLast bi_Seek bi_Next bi_Prev bi_key bi_value istatus_.

(** What [NewIterator] returns is an iterator of the block or an empty one. *)
Definition block_iterator : Iterator (BlockIter + Status) := either_iterator block_iter EmptyIterator.

Definition block_NewIterator (b : Block) : res (BlockIter + Status) :=
  if size_ b <? 4 then Ret (inr (NewErrorIterator (Corruption (bytes_of "bad block contents") [])))
  else
    let! num_restarts := NumRestarts (data_ b) (size_ b) in
    if num_restarts =? 0 then Ret (inr NewEmptyIterator)
    else let! it := new_block_iter (data_ b) (restart_offset_ b) num_restarts in Ret (inl it).

End Search.
