(* ===== verification/LdbBlockSpec.v ===== *)
(** * LevelDB: blocks against the list of their pairs

    The layout of a block as a list of items and restart points; the builder makes
    such a layout of the pairs it is given, and over such a layout the iterator is
    lawful: it goes through the pairs in both directions and seeks by key. *)
From S2P Require Import Prelude WireSpec.
From S2P Require Import LdbCoding LdbStatus LdbOrder LdbKeys LdbIterator LdbBlock.
From Stdlib Require Import ZArith Lia.
From stdpp Require Import base tactics numbers list strings.
#[local] Open Scope Z_scope.

(** ** Bytes at an offset *)

Lemma bytes_at_app x y z : bytes_at (x ++ y ++ z) (zlen x) (zlen y) = Ret y.
Proof.
  unfold bytes_at. rewrite !zlen_app. pose proof (zlen_nonneg x). pose proof (zlen_nonneg y). pose proof (zlen_nonneg z).
  destruct (Z.leb_spec 0 (zlen x)), (Z.leb_spec 0 (zlen y)), (Z.leb_spec (zlen x + zlen y) (zlen x + (zlen y + zlen z))); try lia.
  cbn [andb]. f_equal. rewrite drop_app_length' by (unfold zlen; lia). by rewrite firstn_zlen.
Qed.

Lemma bytes_at_eq data x y z o n : data = x ++ y ++ z -> o = zlen x -> n = zlen y -> bytes_at data o n = Ret y.
Proof. intros -> -> ->. apply bytes_at_app. Qed.

Lemma fixed32_at_eq data x v z o : data = x ++ EncodeFixed32 v ++ z -> o = zlen x -> is_u32 v -> fixed32_at data o = Ret v.
Proof.
  intros -> -> Hv. unfold fixed32_at. unfold EncodeFixed32 at 1. rewrite EncodeFixed32_le.
  rewrite (bytes_at_eq _ x (le_split 4 v) z) by (done || by rewrite zlen_le_split). cbn [rbind].
  rewrite <- (app_nil_r (le_split 4 v)). rewrite <- (EncodeFixed32_le kLittleEndian). by rewrite DecodeFixed32_Encode.
Qed.

(** ** Entries *)

(** A pair with the length of the prefix its key shares with the key before. *)
Record item := mk_item { i_shared : nat; i_key : list Z; i_value : list Z }.

Definition pair_of (it : item) : list Z * list Z := (i_key it, i_value it).

Definition header (it : item) : list Z :=
  EncodeVarint32 (Z.of_nat (i_shared it)) ++ EncodeVarint32 (zlen (i_key it) - Z.of_nat (i_shared it)) ++ EncodeVarint32 (zlen (i_value it)).

Definition item_bytes (it : item) : list Z := header it ++ skipn (i_shared it) (i_key it) ++ i_value it.

Definition items_bytes (its : list item) : list Z := concat (map item_bytes its).

Lemma items_bytes_app a b : items_bytes (a ++ b) = items_bytes a ++ items_bytes b.
Proof. unfold items_bytes. by rewrite map_app, concat_app. Qed.

(** The first byte of a varint tells whether there are more. *)
Lemma varint_first v : is_u32 v -> exists b rest, EncodeVarint32 v = b :: rest /\ 0 <= b < 256 /\ (if v <? 128 then b = v /\ rest = [] else 128 <= b).
Proof.
  intros Hv. rewrite EncodeVarint32_enc by done. unfold is_u32 in Hv. unfold varint. change 10%nat with (S 9). cbn [varint_enc].
  destruct (Z.ltb_spec v 128); [exists v, []; split_and!; lia || done|].
  pose proof (Z.mod_pos_bound v 128 ltac:(lia)). do 2 eexists. split; [done|]. lia.
Qed.

Lemma varint_size v : is_u32 v -> 1 <= zlen (EncodeVarint32 v).
Proof. intros Hv. destruct (varint_first v Hv) as (b & rest & -> & _). rewrite zlen_cons. pose proof (zlen_nonneg rest). lia. Qed.

Lemma lor_small a b : 0 <= a -> 0 <= b -> Z.lor a b < 128 -> a < 128 /\ b < 128.
Proof.
  assert (forall a b, 0 <= a -> 0 <= b -> Z.lor a b < 128 -> a < 128) as H.
  { clear. intros a b Ha Hb Hlt. destruct (Z.le_gt_cases 128 a); [|done]. exfalso.
    assert (7 <= Z.log2 (Z.lor a b)) as Hl by (rewrite Z.log2_lor by lia; assert (7 <= Z.log2 a) by (apply Z.log2_le_pow2; lia); lia).
    assert (0 <= Z.lor a b) by (apply Z.lor_nonneg; lia).
    destruct (Z.eq_dec (Z.lor a b) 0) as [E|]; [rewrite E in Hl; cbn in Hl; lia|].
    apply Z.log2_le_pow2 in Hl; lia. }
  intros Ha Hb Hlt. split; [by apply (H a b)|]. rewrite Z.lor_comm in Hlt. by apply (H b a).
Qed.

(** Both paths of [DecodeEntry] read the same three numbers. *)
Lemma decode_three a b c rest : is_u32 a -> is_u32 b -> is_u32 c ->
  let bytes := EncodeVarint32 a ++ EncodeVarint32 b ++ EncodeVarint32 c ++ rest in
  (if Z.lor (Z.lor (byte_at bytes 0) (byte_at bytes 1)) (byte_at bytes 2) <? 128
   then Some (byte_at bytes 0, byte_at bytes 1, byte_at bytes 2, skipn 3 bytes)
   else
     match GetVarint32Ptr bytes with
     | None => None
     | Some (shared, bytes) =>
         match GetVarint32Ptr bytes with
         | None => None
         | Some (non_shared, bytes) =>
             match GetVarint32Ptr bytes with
             | None => None
             | Some (value_length, bytes) => Some (shared, non_shared, value_length, bytes)
             end
         end
     end) = Some (a, b, c, rest).
Proof.
  intros Ha Hb Hc bytes.
  assert (match GetVarint32Ptr bytes with
     | None => None
     | Some (shared, bytes) =>
         match GetVarint32Ptr bytes with
         | None => None
         | Some (non_shared, bytes) =>
             match GetVarint32Ptr bytes with
             | None => None
             | Some (value_length, bytes) => Some (shared, non_shared, value_length, bytes)
             end
         end
     end = Some (a, b, c, rest)) as ->.
  { subst bytes. change GetVarint32Ptr with GetVarint32. by rewrite !get_varint32. }
  destruct (Z.ltb_spec (Z.lor (Z.lor (byte_at bytes 0) (byte_at bytes 1)) (byte_at bytes 2)) 128) as [E|]; [|done].
  assert (0 <= byte_at bytes 0 /\ 0 <= byte_at bytes 1 /\ 0 <= byte_at bytes 2) as (H0 & H1 & H2).
  { assert (forall i, (i < 3)%nat -> is_byte (byte_at bytes i)) as Hb3; [|unfold is_byte in Hb3; split_and!; apply Hb3; lia].
    intros i Hi. pose proof (varint_size a Ha). pose proof (varint_size b Hb). pose proof (varint_size c Hc). unfold byte_at.
    subst bytes. rewrite !app_assoc, app_nth1 by (rewrite !length_app; unfold zlen in *; lia).
    assert (Forall is_byte ((EncodeVarint32 a ++ EncodeVarint32 b) ++ EncodeVarint32 c)) as Hall.
    { apply Forall_app. split; [apply Forall_app; split|]; by apply (put_bytes (Coder := varint32_coder)). }
    eapply Forall_forall in Hall; [exact Hall|]. apply list_elem_of_In, nth_In. rewrite !length_app. unfold zlen in *. lia. }
  apply lor_small in E as [E E2]; [|by apply Z.lor_nonneg|done]. apply lor_small in E as [E0 E1]; [|done..].
  destruct (varint_first a Ha) as (a0 & ra & Ea & Ra & Ca), (varint_first b Hb) as (b0 & rb & Eb & Rb & Cb), (varint_first c Hc) as (c0 & rc & Ec & Rc & Cc).
  subst bytes. unfold byte_at in *. rewrite Ea, Eb, Ec in *. cbn [app nth] in *.
  destruct (Z.ltb_spec a 128); [|lia]. destruct Ca as [-> ->]. cbn [app nth] in *.
  destruct (Z.ltb_spec b 128); [|lia]. destruct Cb as [-> ->]. cbn [app nth] in *.
  destruct (Z.ltb_spec c 128); [|lia]. destruct Cc as [-> ->]. done.
Qed.

(** An item whose lengths fit, in front of the rest of the entries. *)
Definition item_fits (it : item) : Prop :=
  (i_shared it <= length (i_key it))%nat /\ zlen (i_key it) + zlen (i_value it) < 2 ^ 32.

Lemma item_fits_u32 it : item_fits it ->
  is_u32 (Z.of_nat (i_shared it)) /\ is_u32 (zlen (i_key it) - Z.of_nat (i_shared it)) /\ is_u32 (zlen (i_value it)).
Proof. intros [H1 H2]. pose proof (zlen_nonneg (i_value it)). unfold is_u32, zlen in *. lia. Qed.

Lemma header_size it : item_fits it -> 3 <= zlen (header it).
Proof.
  intros H. destruct (item_fits_u32 it H) as (H1 & H2 & H3). unfold header. rewrite !zlen_app.
  pose proof (varint_size _ H1). pose proof (varint_size _ H2). pose proof (varint_size _ H3). lia.
Qed.

Lemma zlen_skipn {A} n (l : list A) : (n <= length l)%nat -> zlen (skipn n l) = zlen l - Z.of_nat n.
Proof. intros H. unfold zlen. rewrite length_drop. lia. Qed.

Lemma DecodeEntry_item A it B tail : item_fits it -> zlen (item_bytes it ++ B) < 2 ^ 32 ->
  DecodeEntry (A ++ item_bytes it ++ B ++ tail) (zlen A) (zlen A + zlen (item_bytes it ++ B)) =
  Ret (Some (Z.of_nat (i_shared it), zlen (i_key it) - Z.of_nat (i_shared it), zlen (i_value it), zlen A + zlen (header it))).
Proof.
  intros Hfit Hsize. pose proof (header_size it Hfit). destruct (item_fits_u32 it Hfit) as (H1 & H2 & H3). destruct Hfit as [Hs Hl].
  pose proof (zlen_nonneg B). pose proof (zlen_nonneg (i_value it)). pose proof (zlen_skipn (i_shared it) (i_key it) Hs) as Ek.
  unfold DecodeEntry. replace (zlen A + zlen (item_bytes it ++ B) - zlen A) with (zlen (item_bytes it ++ B)) by lia.
  assert (zlen (item_bytes it ++ B) = zlen (header it) + (zlen (i_key it) - Z.of_nat (i_shared it)) + zlen (i_value it) + zlen B) as El.
  { unfold item_bytes. rewrite !zlen_app, Ek. lia. }
  unfold is_u32 in *. destruct (Z.ltb_spec (zlen (item_bytes it ++ B)) 3); [lia|].
  rewrite (bytes_at_eq _ A (item_bytes it ++ B) tail) by (done || by rewrite <- app_assoc). cbn [rbind].
  unfold item_bytes, header. rewrite <- !app_assoc. rewrite decode_three by done. cbn [rbind].
  rewrite (wrap_small 32 (zlen _) : _ -> u32 (zlen _) = _) by (rewrite !zlen_app, Ek in *; lia).
  rewrite (wrap_small 32 (zlen _ - _ + _) : _ -> u32 (zlen (i_key it) - Z.of_nat (i_shared it) + zlen (i_value it)) = _) by lia.
  destruct (Z.ltb_spec (zlen (skipn (i_shared it) (i_key it) ++ i_value it ++ B)) (zlen (i_key it) - Z.of_nat (i_shared it) + zlen (i_value it)));
    rewrite !zlen_app, Ek in *; [lia|]. do 4 f_equal. rewrite <- ?zlen_app. unfold item_bytes, header in *. rewrite !zlen_app in *. lia.
Qed.

(** ** The layout of a block *)

(** The shared prefixes are those of the key before. *)
Fixpoint chained (prev : list Z) (its : list item) : Prop :=
  match its with
  | [] => True
  | it :: its =>
      (i_shared it <= length prev)%nat /\ (i_shared it <= length (i_key it))%nat /\
      firstn (i_shared it) prev = firstn (i_shared it) (i_key it) /\ chained (i_key it) its
  end.

Definition offset (its : list item) (n : nat) : Z := zlen (items_bytes (firstn n its)).

(** Restart points: the first item and later ones, which share nothing. *)
Definition restarts_ok (its : list item) (rs : list nat) : Prop :=
  rs !! 0%nat = Some 0%nat /\
  (forall i r r', rs !! i = Some r -> rs !! S i = Some r' -> (r < r' < length its)%nat) /\
  (forall r it, r ∈ rs -> its !! r = Some it -> i_shared it = 0%nat).

Definition restart_array (its : list item) (rs : list nat) : list Z := concat (map (fun r => EncodeFixed32 (offset its r)) rs).

Definition block_data (its : list item) (rs : list nat) : list Z :=
  items_bytes its ++ restart_array its rs ++ EncodeFixed32 (zlen rs).

Lemma restart_array_size its rs : zlen (restart_array its rs) = 4 * zlen rs.
Proof.
  unfold restart_array. induction rs as [|r rs IH]; [done|]. cbn [map concat]. rewrite zlen_app, IH, zlen_cons.
  unfold EncodeFixed32. rewrite EncodeFixed32_le, zlen_le_split. lia.
Qed.

Lemma chained_app prev a b : chained prev (a ++ b) <-> chained prev a /\ chained (default prev (i_key <$> last a)) b.
Proof.
  revert prev; induction a as [|it a IH]; intros prev; cbn [app chained]; [cbn; tauto|].
  rewrite IH. destruct a as [|it' a]; cbn [chained last]; [cbn; tauto|].
  change (last (it :: it' :: a)) with (last (it' :: a)). destruct (last (it' :: a)) as [x|] eqn:E; [cbn; tauto|].
  by apply last_None in E.
Qed.

Lemma offset_0 its : offset its 0 = 0.
Proof. done. Qed.

Lemma offset_split a it b : offset (a ++ it :: b) (length a) = zlen (items_bytes a) /\
  offset (a ++ it :: b) (S (length a)) = zlen (items_bytes a) + zlen (item_bytes it).
Proof.
  unfold offset. rewrite take_app_length. split; [done|].
  replace (firstn (S (length a)) (a ++ it :: b)) with (a ++ [it]).
  - rewrite items_bytes_app, zlen_app. unfold items_bytes at 2. cbn [map concat]. by rewrite app_nil_r.
  - change (it :: b) with ([it] ++ b). rewrite app_assoc. rewrite take_app_length'; [done|]. rewrite length_app. cbn. lia.
Qed.

Lemma offset_all its n : (length its <= n)%nat -> offset its n = zlen (items_bytes its).
Proof. intros H. unfold offset. by rewrite firstn_all2. Qed.

Section Layout.
Context {comparator : Comparator} {valid : list Z -> Prop} {cmp : list Z -> list Z -> Z} {laws : ComparatorLaws comparator valid cmp}.
Context (its : list item) (rs : list nat).
Context (chain : chained [] its) (restarts : restarts_ok its rs) (size : zlen (block_data its rs) < 2 ^ 32).
Context (fits : Forall item_fits its).
Let data : list Z := block_data its rs.
Let limit : Z := zlen (items_bytes its).

Lemma sizes : 0 <= limit < 2 ^ 32 /\ zlen (restart_array its rs) = 4 * zlen rs /\ zlen data = limit + 4 * zlen rs + 4 /\ 1 <= zlen rs.
Proof.
  assert (zlen (restart_array its rs) = 4 * zlen rs) as Ea.
  { apply restart_array_size. }
  assert (zlen data = limit + 4 * zlen rs + 4) as Ed.
  { unfold data, block_data. rewrite !zlen_app, Ea. unfold EncodeFixed32. rewrite EncodeFixed32_le, zlen_le_split. unfold limit. lia. }
  assert (1 <= zlen rs) as H1.
  { destruct restarts as [H0 _]. destruct rs; [done|]. rewrite zlen_cons. pose proof (zlen_nonneg l). lia. }
  assert (0 <= limit) by apply zlen_nonneg. unfold data in *. lia.
Qed.

Lemma item_split n it : its !! n = Some it -> exists a b, its = a ++ it :: b /\ length a = n.
Proof.
  intros H. exists (firstn n its), (skipn (S n) its). split.
  - symmetry. by apply take_drop_middle.
  - apply length_take_le. apply lookup_lt_Some in H. lia.
Qed.

Lemma item_ok n it : its !! n = Some it -> item_fits it.
Proof. intros H. eapply Forall_lookup in fits; [|exact H]. done. Qed.

Lemma offset_step n it : its !! n = Some it -> offset its (S n) = offset its n + zlen (item_bytes it) /\ 3 <= zlen (item_bytes it).
Proof.
  intros H. pose proof (header_size it (item_ok n it H)). destruct (item_split n it H) as (a & b & E & <-). rewrite E.
  destruct (offset_split a it b) as [-> ->]. split; [done|]. unfold item_bytes. rewrite !zlen_app.
  pose proof (zlen_nonneg (skipn (i_shared it) (i_key it))). pose proof (zlen_nonneg (i_value it)). lia.
Qed.

Lemma offset_mono n m : (n <= m)%nat -> offset its n <= offset its m.
Proof.
  intros H. induction H as [|m H IH]; [lia|]. destruct (its !! m) as [it|] eqn:E.
  - destruct (offset_step m it E) as [-> ?]. lia.
  - apply lookup_ge_None in E. rewrite (offset_all its (S m)) by lia. by rewrite (offset_all its m) in IH by lia.
Qed.

Lemma offset_strict n m : (n < m)%nat -> (n < length its)%nat -> offset its n + 3 <= offset its m.
Proof.
  intros Hnm Hn. destruct (lookup_lt_is_Some_2 its n Hn) as [it E]. destruct (offset_step n it E) as [E1 ?].
  pose proof (offset_mono (S n) m ltac:(lia)). lia.
Qed.

Lemma offset_range n : 0 <= offset its n <= limit.
Proof.
  split; [apply zlen_nonneg|]. unfold limit. rewrite <- (offset_all its (length its)) by lia.
  destruct (decide (n <= length its)%nat); [by apply offset_mono|]. rewrite !offset_all by lia. lia.
Qed.

Lemma offset_u32 n : is_u32 (offset its n).
Proof. pose proof (offset_range n). pose proof sizes. unfold is_u32. lia. Qed.

(** *** Reading the parts *)

Lemma restart_at_index i r : rs !! i = Some r -> fixed32_at data (limit + Z.of_nat i * 4) = Ret (offset its r).
Proof.
  intros H. destruct sizes as (_ & Ea & _). assert (exists a b, rs = a ++ r :: b /\ length a = i) as (a & b & E & El).
  { exists (firstn i rs), (skipn (S i) rs). split; [symmetry; by apply take_drop_middle|]. apply length_take_le. apply lookup_lt_Some in H. lia. }
  apply (fixed32_at_eq _ (items_bytes its ++ restart_array its a) _ (restart_array its b ++ EncodeFixed32 (zlen rs))); [| |apply offset_u32].
  - unfold data, block_data. rewrite E. unfold restart_array at 1. rewrite map_app, concat_app. cbn [map concat].
    rewrite <- !app_assoc. done.
  - rewrite zlen_app, restart_array_size. fold limit. subst i. unfold zlen. lia.
Qed.

(** What the iterator reads at an item. *)
Lemma entry_at n it : its !! n = Some it ->
  exists p, DecodeEntry data (offset its n) limit =
      Ret (Some (Z.of_nat (i_shared it), zlen (i_key it) - Z.of_nat (i_shared it), zlen (i_value it), p)) /\
    bytes_at data p (zlen (i_key it) - Z.of_nat (i_shared it)) = Ret (skipn (i_shared it) (i_key it)) /\
    bytes_at data (p + (zlen (i_key it) - Z.of_nat (i_shared it))) (zlen (i_value it)) = Ret (i_value it) /\
    p + (zlen (i_key it) - Z.of_nat (i_shared it)) + zlen (i_value it) = offset its (S n) /\ offset its n <= p.
Proof.
  intros H. pose proof (item_ok n it H) as Hfit. destruct (offset_step n it H) as [Estep _]. destruct (item_split n it H) as (a & b & E & El).
  set (tail := restart_array its rs ++ EncodeFixed32 (zlen rs)).
  assert (data = items_bytes a ++ item_bytes it ++ items_bytes b ++ tail) as Ed.
  { unfold data, block_data. fold tail. rewrite E, items_bytes_app. cbn. rewrite <- !app_assoc. done. }
  assert (offset its n = zlen (items_bytes a)) as Eo by (rewrite E, <- El; apply offset_split).
  assert (limit = zlen (items_bytes a) + zlen (item_bytes it ++ items_bytes b)) as Elim.
  { unfold limit. rewrite E, items_bytes_app, zlen_app. done. }
  destruct sizes as (Hlim & _). pose proof (zlen_skipn (i_shared it) (i_key it) (proj1 Hfit)) as Ek.
  pose proof (zlen_nonneg (items_bytes a)). pose proof (zlen_nonneg (header it)).
  exists (zlen (items_bytes a) + zlen (header it)). split_and!.
  - rewrite Ed, Eo, Elim. apply DecodeEntry_item; [done|]. lia.
  - eapply (bytes_at_eq _ (items_bytes a ++ header it) _ (i_value it ++ items_bytes b ++ tail)); [|by rewrite zlen_app|by rewrite Ek].
    rewrite Ed. unfold item_bytes. rewrite <- !app_assoc. done.
  - eapply (bytes_at_eq _ (items_bytes a ++ header it ++ skipn (i_shared it) (i_key it)) _ (items_bytes b ++ tail)); [|rewrite !zlen_app, Ek; lia|done].
    rewrite Ed. unfold item_bytes. rewrite <- !app_assoc. done.
  - rewrite Estep, Eo. unfold item_bytes. rewrite !zlen_app, Ek. lia.
  - lia.
Qed.

(** *** States of the iterator *)

(** The iterator looks at this block, and has met no error. *)
Definition view (s : BlockIter) : Prop :=
  it_data s = data /\ it_restarts s = limit /\ num_restarts_ s = zlen rs /\ is_ok (istatus_ s) = true.

(** The restart point in front of the item [n], which is at most [slack] items
    after the next one. *)
Definition in_region (s : BlockIter) (n slack : nat) : Prop :=
  exists i r, restart_index_ s = Z.of_nat i /\ rs !! i = Some r /\ (r <= n)%nat /\
    forall r', rs !! S i = Some r' -> (n <= slack + r')%nat.

(** At the item [n]. *)
Definition at_item (s : BlockIter) (n : nat) : Prop :=
  view s /\ in_region s n 0 /\ exists it o, its !! n = Some it /\ current_ s = offset its n /\ ikey_ s = i_key it /\
    ivalue_ s = Some (o, zlen (i_value it)) /\ bytes_at data o (zlen (i_value it)) = Ret (i_value it) /\
    o + zlen (i_value it) = offset its (S n).

(** About to parse the item [n]. *)
Definition ready (s : BlockIter) (n : nat) : Prop :=
  view s /\ in_region s n 1 /\ (n <= length its)%nat /\ NextEntryOffset s = Ret (offset its n) /\
  forall it, its !! n = Some it -> (i_shared it <= length (ikey_ s))%nat /\ firstn (i_shared it) (ikey_ s) = firstn (i_shared it) (i_key it).

Definition at_end (s : BlockIter) : Prop := view s /\ current_ s = limit.

Lemma next_offset s o n k : ivalue_ s = Some (o, n) -> o + n = offset its k -> NextEntryOffset s = Ret (offset its k).
Proof.
  intros E Eo. unfold NextEntryOffset. rewrite E, Eo. f_equal. pose proof (offset_u32 k) as H. unfold is_u32 in H. by apply wrap_small.
Qed.

Lemma at_item_ready s n : at_item s n -> ready s (S n).
Proof.
  intros (Hv & (i & r & Ei & Er & Hr & Hnext) & it & o & Eit & Ec & Ek & Ev & Eb & Eo).
  split; [done|]. split; [exists i, r; split_and!; [done|done|lia|intros r' Er'; pose proof (Hnext r' Er'); lia]|].
  split; [by apply lookup_lt_Some in Eit|]. split; [by eapply next_offset|].
  intros it' Eit'. rewrite Ek. destruct (item_split n it Eit) as (a & b & E & El).
  assert (exists b', b = it' :: b') as [b' ->].
  { rewrite E, lookup_app_r in Eit' by lia. replace (S n - length a)%nat with 1%nat in Eit' by lia. destruct b as [|x b]; [done|]. cbn in Eit'. injection Eit' as ->. by eexists. }
  pose proof chain as Hc. rewrite E, chained_app in Hc. destruct Hc as [_ (_ & _ & _ & H1 & _ & H2 & _)]. by split.
Qed.

Lemma GetRestartPoint_ok s i r : view s -> rs !! i = Some r -> GetRestartPoint s (Z.of_nat i) = Ret (offset its r).
Proof.
  intros (Ed & El & En & _) Er. unfold GetRestartPoint. rewrite En, Ed, El. apply lookup_lt_Some in Er as Hi.
  unfold assert_. destruct (Z.ltb_spec (Z.of_nat i) (zlen rs)); [|unfold zlen in *; lia]. cbn [rbind]. by apply restart_at_index.
Qed.

Lemma restart_bound r : r ∈ rs -> (r <= length its)%nat.
Proof.
  intros Hr. apply list_elem_of_lookup in Hr as [i Er]. destruct restarts as (H0 & Hstep & _).
  destruct i as [|i]; [rewrite H0 in Er; injection Er as <-; lia|].
  destruct (rs !! i) as [r0|] eqn:E0; [destruct (Hstep _ _ _ E0 Er); lia|]. apply lookup_ge_None in E0. apply lookup_lt_Some in Er. lia.
Qed.

Lemma SeekToRestartPoint_ok s i r : view s -> rs !! i = Some r ->
  exists s', SeekToRestartPoint s (Z.of_nat i) = Ret s' /\ ready s' r.
Proof.
  intros Hv Er. unfold SeekToRestartPoint. rewrite (GetRestartPoint_ok (with_restart_index s (Z.of_nat i)) i r) by done. cbn [rbind].
  eexists. split; [done|]. split; [exact Hv|]. split.
  { exists i, r. split_and!; [done|done|lia|]. intros r' Er'. destruct restarts as (_ & Hstep & _). destruct (Hstep _ _ _ Er Er'). lia. }
  split; [apply restart_bound; by eapply list_elem_of_lookup_2|]. split.
  - apply (next_offset _ (offset its r) 0); [done|lia].
  - intros it Eit. destruct restarts as (_ & _ & Hsh). rewrite (Hsh r it) by (done || by eapply list_elem_of_lookup_2). split; [cbn; lia|done].
Qed.

Lemma restart_count : zlen rs < 2 ^ 30.
Proof. destruct sizes as (Hl & _ & Ed & _). unfold data in Ed. lia. Qed.

Lemma restart_lt i r n : rs !! i = Some r -> (n < length its)%nat -> (offset its r <? offset its n) = bool_decide (r < n)%nat.
Proof.
  intros Er Hn. case_bool_decide as H.
  - apply Z.ltb_lt. pose proof (offset_strict r n H ltac:(lia)). lia.
  - apply Z.ltb_ge. apply offset_mono. lia.
Qed.

Lemma advance_restart_ok s n : view s -> in_region s n 1 -> (n < length its)%nat -> current_ s = offset its n ->
  exists i, advance_restart s = Ret (with_restart_index s i) /\ in_region (with_restart_index s i) n 0.
Proof.
  intros Hv (i & r & Ei & Er & Hr & Hnext) Hn Ec. unfold advance_restart. pose proof restart_count as Hcount.
  assert (num_restarts_ s = zlen rs) as En by apply Hv.
  assert (forall j, (j <= length rs)%nat -> u32 (Z.of_nat j + 1) = Z.of_nat (S j)) as Eu.
  { intros j Hj. rewrite (wrap_small 32 (Z.of_nat j + 1) : _ -> u32 (Z.of_nat j + 1) = _) by (unfold zlen in *; lia). lia. }
  apply lookup_lt_Some in Er as Hi.
  (* one round from a restart index *)
  assert (forall j s', view s' -> restart_index_ s' = Z.of_nat j -> current_ s' = offset its n -> (j < length rs)%nat ->
    (if u32 (restart_index_ s' + 1) <? num_restarts_ s' then
       let! r := GetRestartPoint s' (u32 (restart_index_ s' + 1)) in
       if r <? current_ s' then Ret (inl (with_restart_index s' (u32 (restart_index_ s' + 1)))) else Ret (inr s')
     else Ret (inr s')) =
    match rs !! S j with
    | Some r' => if bool_decide (r' < n)%nat then Ret (inl (with_restart_index s' (Z.of_nat (S j)))) else Ret (inr s')
    | None => Ret (inr s')
    end) as Hround.
  { intros j s' Hv' Ej Ec' Hj. rewrite Ej, Eu by lia. assert (num_restarts_ s' = zlen rs) as -> by apply Hv'.
    destruct (rs !! S j) as [r'|] eqn:Er'.
    - apply lookup_lt_Some in Er' as Hj'. destruct (Z.ltb_spec (Z.of_nat (S j)) (zlen rs)); [|unfold zlen in *; lia].
      rewrite (GetRestartPoint_ok s' (S j) r') by done. cbn [rbind]. rewrite Ec', (restart_lt (S j)) by done. done.
    - apply lookup_ge_None in Er'. destruct (Z.ltb_spec (Z.of_nat (S j)) (zlen rs)); [unfold zlen in *; lia|done]. }
  rewrite loop_unfold, (Hround i s) by done.
  destruct (rs !! S i) as [r'|] eqn:Er'; cbn [rbind].
  2: { exists (Z.of_nat i). split; [rewrite <- Ei; by destruct s|]. exists i, r. split_and!; [done|done|done|congruence]. }
  case_bool_decide as Hlt; cbn [rbind].
  2: { exists (Z.of_nat i). split; [rewrite <- Ei; by destruct s|]. exists i, r. split_and!; [done|done|done|]. intros r2. rewrite Er'. intros [= <-]. lia. }
  apply lookup_lt_Some in Er' as Hi'.
  assert (Z.to_nat (num_restarts_ s) = S (Z.to_nat (num_restarts_ s) - 1)) as -> by (rewrite En; unfold zlen; lia).
  rewrite loop_unfold, (Hround (S i)) by done.
  assert (in_region (with_restart_index s (Z.of_nat (S i))) n 0) as Hreg.
  { exists (S i), r'. split_and!; [done|done|lia|]. intros r2 Er2. destruct restarts as (_ & Hstep & _).
    pose proof (Hstep _ _ _ Er' Er2). pose proof (Hnext r' eq_refl). lia. }
  exists (Z.of_nat (S i)). split; [|done]. destruct (rs !! S (S i)) as [r2|] eqn:Er2; [|done].
  case_bool_decide as Hlt2; [|done]. exfalso. destruct restarts as (_ & Hstep & _).
  pose proof (Hstep _ _ _ Er' Er2). pose proof (Hnext r' eq_refl). lia.
Qed.

Lemma ParseNextKey_ok s n : ready s n -> exists b s', ParseNextKey s = Ret (b, s') /\
  if decide (n < length its)%nat then b = true /\ at_item s' n else b = false /\ at_end s'.
Proof.
  intros (Hv & Hreg & Hn & Enext & Hk). unfold ParseNextKey. rewrite Enext. cbn [rbind current_ with_current it_restarts it_data].
  pose proof Hv as (Ed & El & En & Hok). rewrite El, Ed. destruct (decide (n < length its)%nat) as [Hlt|Hge].
  - destruct (lookup_lt_is_Some_2 its n Hlt) as [it Eit]. destruct (entry_at n it Eit) as (p & Edec & Ekey & Eval & Eend & Hp).
    pose proof (offset_strict n (length its) Hlt Hlt) as Hstrict. rewrite (offset_all its (length its)) in Hstrict by lia. fold limit in Hstrict.
    destruct (Z.geb_spec (offset its n) limit); [lia|]. rewrite Edec. cbn [rbind ikey_ with_current].
    destruct (Hk it Eit) as [Hlen Hpre]. destruct (Z.ltb_spec (zlen (ikey_ s)) (Z.of_nat (i_shared it))); [unfold zlen in *; lia|].
    rewrite Ekey. cbn [rbind].
    rewrite Nat2Z.id, Hpre, firstn_skipn.
    set (s1 := with_entry _ _ _).
    destruct (advance_restart_ok s1 n) as (i & -> & Hreg'); [done|done|done|done|]. cbn [rbind].
    eexists true, _. split; [done|]. split; [done|]. split; [done|]. split; [done|].
    exists it, (p + (zlen (i_key it) - Z.of_nat (i_shared it))). by split_and!.
  - destruct (Z.geb_spec (offset its n) limit).
    + eexists false, _. split; [done|]. split; [done|]. split; [done|]. cbn. done.
    + rewrite (offset_all its n) in * by lia. unfold limit in *. lia.
Qed.

(** *** Loops over the entries *)

Lemma items_count : (length its < S (length data))%nat.
Proof.
  assert (forall n, (n <= length its)%nat -> 3 * Z.of_nat n <= offset its n) as H.
  { induction n as [|n IH]; intros Hn; [done|]. destruct (lookup_lt_is_Some_2 its n ltac:(lia)) as [it Eit].
    destruct (offset_step n it Eit). specialize (IH ltac:(lia)). lia. }
  specialize (H (length its) ltac:(lia)). rewrite offset_all in H by lia. destruct sizes as (_ & _ & Ed & _). unfold limit, zlen in *. lia.
Qed.

(** Parsing up to the entry in front of the item [m]. *)
Lemma parse_until_ok s n m : ready s n -> (n < m <= length its)%nat ->
  exists s', parse_until (offset its m) s = Ret s' /\ at_item s' (m - 1).
Proof.
  intros Hs Hm. unfold parse_until, parse_fuel. assert (it_data s = data) as -> by apply Hs.
  pose proof items_count as Hc. assert (m - n < S (length data))%nat as Hfuel by lia. clear Hc. revert Hfuel.
  generalize (S (length data)) as fuel. intros fuel. revert s n Hs Hm.
  induction fuel as [|fuel IH]; intros s n Hs Hm Hfuel; [lia|]. rewrite loop_unfold.
  destruct (ParseNextKey_ok s n Hs) as (b & s' & -> & H). rewrite decide_True in H by lia. destruct H as [-> Hat]. cbn [rbind].
  pose proof (at_item_ready s' n Hat) as Hr. pose proof Hr as (_ & _ & _ & -> & _). cbn [rbind].
  destruct (decide (S n = m)) as [<-|Hne].
  - destruct (Z.ltb_spec (offset its (S n)) (offset its (S n))); [lia|]. exists s'. split; [done|]. by replace (S n - 1)%nat with n by lia.
  - pose proof (offset_strict (S n) m ltac:(lia) ltac:(lia)). destruct (Z.ltb_spec (offset its (S n)) (offset its m)); [|lia].
    apply (IH s' (S n)); [done|lia|lia].
Qed.

Lemma at_item_valid s n : at_item s n -> bi_Valid s = true /\ current_ s = offset its n /\ (n < length its)%nat.
Proof.
  intros (Hv & _ & it & o & Eit & Ec & _). apply lookup_lt_Some in Eit. split; [|done]. unfold bi_Valid. apply Z.ltb_lt.
  assert (it_restarts s = limit) as -> by apply Hv. pose proof (offset_strict n (length its) ltac:(done) ltac:(done)).
  rewrite (offset_all its (length its)) in * by lia. unfold limit. lia.
Qed.

Lemma Next_ok s n : at_item s n -> exists s', bi_Next s = Ret s' /\ if decide (S n < length its)%nat then at_item s' (S n) else at_end s'.
Proof.
  intros H. destruct (at_item_valid s n H) as (Hv & _ & _). unfold bi_Next. rewrite Hv. cbn [assert_ rbind].
  destruct (ParseNextKey_ok s (S n) (at_item_ready s n H)) as (b & s' & -> & Hs'). cbn [rbind]. exists s'. split; [done|].
  destruct (decide _); apply Hs'.
Qed.

Lemma SeekToFirst_block s : view s -> exists s', bi_SeekToFirst s = Ret s' /\ if decide (0 < length its)%nat then at_item s' 0 else at_end s'.
Proof.
  intros Hv. unfold bi_SeekToFirst. change 0 with (Z.of_nat 0) at 1. destruct (SeekToRestartPoint_ok s 0 0 Hv (proj1 restarts)) as (s1 & -> & Hr). cbn [rbind].
  destruct (ParseNextKey_ok s1 0 Hr) as (b & s' & -> & Hs'). cbn [rbind]. exists s'. split; [done|]. destruct (decide _); apply Hs'.
Qed.

Lemma last_restart : exists r, rs !! (length rs - 1)%nat = Some r.
Proof. destruct sizes as (_ & _ & _ & H1). apply lookup_lt_is_Some_2. unfold zlen in H1. lia. Qed.

Lemma restart_nonempty r : its <> [] -> r ∈ rs -> (r < length its)%nat.
Proof.
  intros Hne Hr. assert (0 < length its)%nat by (destruct (length its) eqn:E; [by apply nil_length_inv in E|lia]).
  apply list_elem_of_lookup in Hr as [i Er]. destruct restarts as (H0 & Hstep & _).
  destruct i as [|i]; [rewrite H0 in Er; by injection Er as <-|].
  destruct (rs !! i) as [r0|] eqn:E0; [by destruct (Hstep _ _ _ E0 Er)|]. apply lookup_ge_None in E0. apply lookup_lt_Some in Er. lia.
Qed.

Lemma SeekToLast_block s : view s -> exists s', bi_SeekToLast s = Ret s' /\
  if decide (0 < length its)%nat then at_item s' (length its - 1) else at_end s'.
Proof.
  intros Hv. unfold bi_SeekToLast. pose proof Hv as (Ed & El & En & _). destruct last_restart as [r Er].
  pose proof restart_count. destruct sizes as (_ & _ & _ & H1).
  rewrite En, (wrap_small 32 (zlen rs - 1) : _ -> u32 (zlen rs - 1) = _) by lia.
  replace (zlen rs - 1) with (Z.of_nat (length rs - 1)) by (unfold zlen in *; lia).
  destruct (SeekToRestartPoint_ok s _ r Hv Er) as (s1 & -> & Hr). cbn [rbind]. assert (it_restarts s1 = limit) as -> by apply Hr.
  destruct (decide (0 < length its)%nat) as [Hne|Hemp].
  - replace limit with (offset its (length its)) by (by rewrite offset_all). apply (parse_until_ok s1 r); [done|].
    assert (r < length its)%nat; [|lia]. apply restart_nonempty; [intros E; rewrite E in Hne; cbn in Hne; lia|by eapply list_elem_of_lookup_2].
  - assert (r = length its) as -> by (pose proof (restart_bound r ltac:(by eapply list_elem_of_lookup_2)); lia).
    unfold parse_until, parse_fuel. rewrite loop_unfold. destruct (ParseNextKey_ok s1 (length its) Hr) as (b & s' & -> & Hs').
    rewrite decide_False in Hs' by lia. destruct Hs' as [-> Hs']. cbn [rbind]. by exists s'.
Qed.

(** *** Going back *)

Lemma Prev_ok s n : at_item s n -> exists s', bi_Prev s = Ret s' /\ match n with O => at_end s' | S m => at_item s' m end.
Proof.
  intros H. destruct (at_item_valid s n H) as (Hval & Ec & Hn). unfold bi_Prev. rewrite Hval, Ec. cbn [assert_ rbind].
  pose proof H as (Hv & (i & r & Ei & Er & Hr & _) & _). assert (num_restarts_ s = zlen rs) as En by apply Hv.
  apply lookup_lt_Some in Er as Hi.
  assert (forall j q s', view s' -> restart_index_ s' = Z.of_nat j -> rs !! j = Some q ->
    prev_round (offset its n) s' = if bool_decide (q < n)%nat then Ret (inr (true, s'))
              else match j with O => Ret (inr (false, set_end s')) | S j => Ret (inl (with_restart_index s' (Z.of_nat j))) end) as Hbody.
  { intros j q s' Hv' Ej Eq. unfold prev_round. rewrite Ej, (GetRestartPoint_ok s' j q Hv' Eq). cbn [rbind].
    pose proof (restart_lt j q n Eq Hn) as Hlt. rewrite Z.geb_leb, Z.leb_antisym, Hlt. case_bool_decide; cbn [negb]; [done|].
    destruct j as [|j]; [done|]. destruct (Z.eqb_spec (Z.of_nat (S j)) 0); [lia|]. by replace (Z.of_nat (S j) - 1) with (Z.of_nat j) by lia. }
  assert (exists found s1, loop (S (Z.to_nat (num_restarts_ s))) (prev_round (offset its n)) s = Ret (found, s1) /\
    if found then exists j q, restart_index_ s1 = Z.of_nat j /\ rs !! j = Some q /\ (q < n)%nat /\ view s1
    else n = 0%nat /\ at_end s1) as (found & s1 & -> & Hfound).
  { rewrite En. rewrite loop_unfold, (Hbody i r s Hv Ei Er). case_bool_decide as Hlt; cbn [rbind].
    { exists true, s. split; [done|]. by exists i, r. }
    destruct i as [|i]; cbn [rbind].
    { exists false, (set_end s). split; [done|]. rewrite (proj1 restarts) in Er. injection Er as <-. split; [lia|]. split; [exact Hv|]. apply Hv. }
    assert (Z.to_nat (zlen rs) = S (length rs - 1)) as -> by (unfold zlen; lia). rewrite loop_unfold.
    destruct (lookup_lt_is_Some_2 rs i ltac:(lia)) as [q Eq]. rewrite (Hbody i q) by done.
    destruct restarts as (_ & Hstep & _). pose proof (Hstep _ _ _ Eq Er). rewrite bool_decide_true by lia. cbn [rbind].
    eexists true, _. split; [done|]. exists i, q. split_and!; try done. lia. }
  cbn [rbind]. destruct found.
  - destruct Hfound as (j & q & Ej & Eq & Hq & Hv1). rewrite Ej. destruct (SeekToRestartPoint_ok s1 j q Hv1 Eq) as (s2 & -> & Hr2). cbn [rbind].
    destruct (parse_until_ok s2 q n Hr2 ltac:(lia)) as (s3 & -> & Hs3). exists s3. split; [done|]. destruct n; [lia|].
    by replace (S n - 1)%nat with n in Hs3 by lia.
  - destruct Hfound as [-> Hend]. by exists s1.
Qed.

(** *** Searching *)

Context (ordered : sorted valid cmp (map i_key its)).
Let kvs : pairs := map pair_of its.

Lemma kvs_keys : map fst kvs = map i_key its.
Proof. unfold kvs. rewrite map_map. done. Qed.

Lemma kvs_lookup n it : its !! n = Some it -> kvs !! n = Some (i_key it, i_value it).
Proof. intros H. change ((pair_of <$> its) !! n = Some (i_key it, i_value it)). by rewrite list_lookup_fmap, H. Qed.

Lemma kvs_length : length kvs = length its.
Proof. apply length_map. Qed.

Lemma item_key_valid n it : its !! n = Some it -> valid (i_key it).
Proof. intros H. destruct ordered as [_ Hv]. eapply Forall_forall in Hv; [exact Hv|]. apply list_elem_of_fmap. exists it. split; [done|by eapply list_elem_of_lookup_2]. Qed.

(** Either the first restart point, or one whose key is less than the target. *)
Definition left_ok (target : list Z) (l : Z) : Prop :=
  exists i r, l = Z.of_nat i /\ rs !! i = Some r /\ (r <= lower_bound cmp target kvs)%nat.

Lemma search_round_ok s target i j : view s -> valid target -> left_ok target i -> i <= j < zlen rs ->
  exists x, search_round comparator s target (i, j) = Ret x /\
    match x with
    | inl (i', j') => left_ok target i' /\ i' <= j' < zlen rs /\ (Z.to_nat (j' - i') < Z.to_nat (j - i))%nat
    | inr l => exists i', l = Some i' /\ left_ok target i'
    end.
Proof.
  intros Hv Ht (a & ra & -> & Era & Hra) Hij. unfold search_round. pose proof restart_count. destruct (Z.ltb_spec (Z.of_nat a) j) as [Hlt|].
  2: { eexists. split; [done|]. eexists. split; [done|]. by exists a, ra. }
  rewrite (wrap_small 32 (Z.of_nat a + j + 1) : _ -> u32 (Z.of_nat a + j + 1) = _) by lia.
  set (mid := (Z.of_nat a + j + 1) / 2).
  assert (Z.of_nat a < mid <= j) as Hmid by (subst mid; pose proof (Z.div_mod (Z.of_nat a + j + 1) 2); pose proof (Z.mod_pos_bound (Z.of_nat a + j + 1) 2); lia).
  destruct (lookup_lt_is_Some_2 rs (Z.to_nat mid)) as [r Er]; [unfold zlen in *; lia|].
  pose proof (GetRestartPoint_ok s (Z.to_nat mid) r Hv Er) as Eg. rewrite Z2Nat.id in Eg by lia. rewrite Eg. cbn [rbind].
  pose proof Hv as (-> & -> & _).
  assert (its <> []) as Hne.
  { intros E. pose proof restarts as (_ & Hstep & _). destruct (rs !! (Z.to_nat mid - 1)%nat) as [r0|] eqn:E0.
    - assert (rs !! S (Z.to_nat mid - 1) = Some r) as Er' by (by replace (S (Z.to_nat mid - 1)) with (Z.to_nat mid) by lia).
      destruct (Hstep _ _ _ E0 Er') as [_ Hl]. rewrite E in Hl. cbn in Hl. lia.
    - apply lookup_ge_None in E0. apply lookup_lt_Some in Er. lia. }
  pose proof (restart_nonempty r Hne ltac:(by eapply list_elem_of_lookup_2)) as Hr.
  destruct (lookup_lt_is_Some_2 its r Hr) as [it Eit]. destruct (entry_at r it Eit) as (p & Edec & Ekey & _). rewrite Edec. cbn [rbind].
  assert (i_shared it = 0%nat) as Esh by (destruct restarts as (_ & _ & Hsh); by apply (Hsh r it); [eapply list_elem_of_lookup_2|]).
  rewrite Esh in *. change (Z.of_nat 0 =? 0) with true. cbn [negb]. rewrite Ekey. cbn [rbind skipn].
  pose proof (item_key_valid r it Eit) as Hk. rewrite (laws_compare (i_key it) target) by done. cbn [rbind].
  destruct (Z.ltb_spec (cmp (i_key it) target) 0).
  - eexists. split; [done|]. split; [|lia]. exists (Z.to_nat mid), r. split_and!; [lia|done|].
    apply Nat.lt_le_incl. eapply lower_bound_above; [done|by rewrite kvs_keys|by apply kvs_lookup|done].
  - eexists. split; [done|]. split; [by exists a, ra|]. lia.
Qed.

Lemma search_restarts_ok s target : view s -> valid target -> exists l, search_restarts comparator s target = Ret (Some l) /\ left_ok target l.
Proof.
  intros Hv Ht. unfold search_restarts. pose proof restart_count. destruct sizes as (_ & _ & _ & H1). assert (num_restarts_ s = zlen rs) as -> by apply Hv.
  rewrite (wrap_small 32 (zlen rs - 1) : _ -> u32 (zlen rs - 1) = _) by lia.
  edestruct (loop_total (fun '(i, j) => left_ok target i /\ i <= j < zlen rs) (fun '(i, j) => Z.to_nat (j - i))
    (fun l => exists i', l = Some i' /\ left_ok target i') (search_round comparator s target) (S (Z.to_nat (zlen rs))))
    as (r & E & i' & -> & Hl); [| | |by exists i'].
  - intros [i j] [Hi Hij]. destruct (search_round_ok s target i j Hv Ht Hi Hij) as (x & E & Hx). exists x. split; [done|].
    destruct x as [[i' j']|l]; [|done]. destruct Hx as (? & ? & ?). split; [by split|done].
  - split; [|lia]. exists 0%nat, 0%nat. split_and!; [done|apply restarts|lia].
  - cbn beta iota. lia.
Qed.

Lemma Seek_block_ok s target : view s -> valid target -> exists s', bi_Seek comparator s target = Ret s' /\
  if decide (lower_bound cmp target kvs < length its)%nat then at_item s' (lower_bound cmp target kvs) else at_end s'.
Proof.
  intros Hv Ht. unfold bi_Seek. destruct (search_restarts_ok s target Hv Ht) as (l & -> & i & r & -> & Er & Hr). cbn [rbind].
  destruct (SeekToRestartPoint_ok s i r Hv Er) as (s1 & -> & Hs1). cbn [rbind]. unfold parse_fuel. assert (it_data s1 = data) as -> by apply Hs1.
  set (lb := lower_bound cmp target kvs) in *. pose proof (lower_bound_le cmp target kvs) as Hlb. fold lb in Hlb. rewrite kvs_length in Hlb.
  pose proof items_count. assert (lb - r < S (length data))%nat as Hfuel by lia. revert Hfuel.
  generalize (S (length data)) as fuel. intros fuel. clear Hv Er. revert s1 r Hr Hs1.
  induction fuel as [|fuel IH]; intros s1 r Hr Hs1 Hfuel; [lia|]. rewrite loop_unfold. unfold seek_round at 1.
  destruct (ParseNextKey_ok s1 r Hs1) as (b & s2 & -> & Hs2). cbn [rbind]. destruct (decide (r < length its)%nat) as [Hlt|Hge].
  2: { destruct Hs2 as [-> Hs2]. cbn [negb rbind]. exists s2. split; [done|]. rewrite decide_False by lia. done. }
  destruct Hs2 as [-> Hs2]. cbn [negb]. pose proof Hs2 as (_ & _ & it & o & Eit & _ & -> & _).
  pose proof (item_key_valid r it Eit) as Hk. rewrite (laws_compare (i_key it) target) by done. cbn [rbind].
  destruct (decide (r = lb)) as [->|Hne].
  - pose proof (lower_bound_at cmp target kvs _ _ (kvs_lookup _ _ Eit)). destruct (Z.geb_spec (cmp (i_key it) target) 0); [|lia].
    cbn [rbind]. exists s2. split; [done|]. by rewrite decide_True.
  - pose proof (lower_bound_before cmp target kvs r _ _ ltac:(fold lb; lia) (kvs_lookup _ _ Eit)). destruct (Z.geb_spec (cmp (i_key it) target) 0); [lia|].
    cbn [rbind]. apply (IH s2 (S r)); [lia|by apply at_item_ready|lia].
Qed.

(** *** The iterator is lawful *)

Definition block_at (s : BlockIter + Status) (p : option nat) : Prop :=
  match s with
  | inl s => match p with Some n => at_item s n | None => at_end s end
  | inr _ => False
  end.

Lemma block_at_view s p : block_at s p -> exists s', s = inl s' /\ view s'.
Proof. destruct s as [s|]; [|done]. intros H. exists s. split; [done|]. destruct p; apply H. Qed.

Lemma block_at_position s n : (if decide (n < length its)%nat then at_item s n else at_end s) -> block_at (inl s) (position kvs n).
Proof. unfold position. rewrite kvs_length. destruct (decide _), (Nat.ltb_spec n (length its)); (done || lia). Qed.

Lemma block_lawful : LawfulIterator (block_iterator comparator) valid cmp kvs block_at.
Proof.
  split; intros s.
  - intros p H. destruct s as [s|]; [|done]. cbn. destruct p as [n|]; cbn in *; [by destruct (at_item_valid s n H)|].
    destruct H as [(_ & El & _) Ec]. unfold bi_Valid. rewrite El, Ec. by apply Z.ltb_irrefl.
  - intros n H. destruct s as [s|]; [|done]. cbn in *. destruct (at_item_valid s n H) as (Hval & _). destruct H as ((Ed & _) & _ & it & o & Eit & _ & Ek & Ev & Eb & _).
    exists (i_key it), (i_value it). split; [by apply kvs_lookup|]. unfold bi_key, bi_value. rewrite Hval, Ek, Ev, Ed. done.
  - intros p H. destruct (block_at_view s p H) as (s' & -> & Hv). apply Hv.
  - intros p H. destruct (block_at_view s p H) as (s' & -> & Hv). destruct (SeekToFirst_block s' Hv) as (s1 & E & Hs1). cbn. rewrite E. cbn [rbind].
    eexists. split; [done|]. by apply block_at_position.
  - intros p H. destruct (block_at_view s p H) as (s' & -> & Hv). destruct (SeekToLast_block s' Hv) as (s1 & E & Hs1). cbn. rewrite E. cbn [rbind].
    eexists. split; [done|]. unfold last_position. pose proof kvs_length as El. destruct kvs as [|kv l]; cbn in El.
    + by rewrite decide_False in Hs1 by lia.
    + rewrite decide_True in Hs1 by lia. cbn. by replace (length l - 0)%nat with (length its - 1)%nat by lia.
  - intros p target H Ht. destruct (block_at_view s p H) as (s' & -> & Hv). destruct (Seek_block_ok s' target Hv Ht) as (s1 & E & Hs1). cbn. rewrite E. cbn [rbind].
    eexists. split; [done|]. by apply block_at_position.
  - intros n H. destruct s as [s|]; [|done]. cbn in H. destruct (Next_ok s n H) as (s1 & E & Hs1). cbn. rewrite E. cbn [rbind].
    eexists. split; [done|]. by apply block_at_position.
  - intros n H. destruct s as [s|]; [|done]. cbn in H. destruct (Prev_ok s n H) as (s1 & E & Hs1). cbn. rewrite E. cbn [rbind].
    eexists. split; [done|]. by destruct n.
Qed.

(** Opening the block and making an iterator. *)
Lemma new_block_ok : new_block data = Ret (mk_block data (zlen data) limit).
Proof.
  destruct sizes as (Hl & Ea & Ed & H1). unfold new_block. destruct (Z.ltb_spec (zlen data) 4); [lia|]. unfold NumRestarts, assert_.
  destruct (Z.geb_spec (zlen data) 4); [|lia]. cbn [rbind].
  rewrite (fixed32_at_eq data (items_bytes its ++ restart_array its rs) (zlen rs) []); cycle 1.
  { unfold data, block_data. by rewrite app_nil_r, <- app_assoc. }
  { rewrite zlen_app, Ea. fold limit. lia. }
  { pose proof restart_count. unfold is_u32. lia. }
  cbn [rbind]. destruct (Z.gtb_spec (zlen rs) ((zlen data - 4) / 4)) as [Hgt|].
  { exfalso. assert (zlen rs <= (zlen data - 4) / 4) by (apply Z.div_le_lower_bound; lia). lia. }
  do 2 f_equal. pose proof restart_count. rewrite (wrap_small 32 (1 + zlen rs) : _ -> u32 (1 + zlen rs) = _) by lia.
  replace (zlen data - (1 + zlen rs) * 4) with limit by lia. by apply wrap_small.
Qed.

Lemma NewIterator_ok : exists s, block_NewIterator (mk_block data (zlen data) limit) = Ret s /\ block_at s None.
Proof.
  destruct sizes as (Hl & Ea & Ed & H1). unfold block_NewIterator. cbn [size_ data_ restart_offset_].
  destruct (Z.ltb_spec (zlen data) 4); [lia|]. unfold NumRestarts, assert_. destruct (Z.geb_spec (zlen data) 4); [|lia]. cbn [rbind].
  rewrite (fixed32_at_eq data (items_bytes its ++ restart_array its rs) (zlen rs) []); cycle 1.
  { unfold data, block_data. by rewrite app_nil_r, <- app_assoc. }
  { rewrite zlen_app, Ea. fold limit. lia. }
  { pose proof restart_count. unfold is_u32. lia. }
  cbn [rbind]. destruct (Z.eqb_spec (zlen rs) 0); [lia|]. unfold new_block_iter, assert_. destruct (Z.gtb_spec (zlen rs) 0); [|lia]. cbn [rbind].
  eexists. split; [done|]. by split_and!.
Qed.

End Layout.

(** ** Building *)

Section Building.
Context {comparator : Comparator} {valid : list Z -> Prop} {cmp : list Z -> list Z -> Z} {laws : ComparatorLaws comparator valid cmp}.
Context {interval : Z} (interval_ok : 1 <= interval < 2 ^ 31 - 1).

(** A bound on the size of a block of the pairs. *)
Fixpoint weight (kvs : pairs) : Z :=
  match kvs with
  | [] => 8
  | kv :: kvs => zlen (fst kv) + zlen (snd kv) + 19 + weight kvs
  end.

(** The builder holds the items, with the restart points [rs]. *)
Definition built (b : BlockBuilder) (its : list item) (rs : list nat) : Prop :=
  buffer_ b = items_bytes its /\ restarts_ b = map (offset its) rs /\ finished_ b = false /\
  last_key_ b = default [] (i_key <$> last its) /\ 0 <= counter_ b <= interval /\ (its = [] -> counter_ b = 0) /\
  chained [] its /\ restarts_ok its rs /\ Forall item_fits its /\ zlen (block_data its rs) <= weight (map pair_of its).

Lemma varint32_length v : is_u32 v -> zlen (EncodeVarint32 v) <= 5.
Proof.
  intros Hv. unfold EncodeVarint32. repeat destruct (_ <? _); rewrite ?zlen_cons; change (zlen []) with 0; lia.
Qed.

Lemma item_bytes_length it : item_fits it -> zlen (item_bytes it) <= zlen (i_key it) + zlen (i_value it) + 15.
Proof.
  intros Hf. destruct (item_fits_u32 it Hf) as (H1 & H2 & H3). unfold item_bytes, header. rewrite !zlen_app.
  pose proof (varint32_length _ H1). pose proof (varint32_length _ H2). pose proof (varint32_length _ H3).
  rewrite (zlen_skipn (i_shared it)) by apply Hf. lia.
Qed.

Lemma weight_app a b : weight (a ++ b) = weight a + weight b - 8.
Proof. induction a as [|kv a IH]; cbn [app weight]; lia. Qed.

Lemma weight_nonneg kvs : 8 <= weight kvs.
Proof. induction kvs as [|[k v] kvs IH]; cbn [weight fst snd]; [lia|]. pose proof (zlen_nonneg k). pose proof (zlen_nonneg v). lia. Qed.

Lemma block_data_length its rs : zlen (block_data its rs) = zlen (items_bytes its) + 4 * zlen rs + 4.
Proof. unfold block_data. rewrite !zlen_app, restart_array_size. unfold EncodeFixed32. rewrite EncodeFixed32_le, zlen_le_split. lia. Qed.

Lemma built_nothing : built (mk_builder [] [0] 0 false []) [] [0%nat].
Proof.
  unfold built. cbn [buffer_ restarts_ counter_ finished_ last_key_]. split_and!; try (done || lia).
Qed.

Lemma new_block_builder_ok : exists b, new_block_builder interval = Ret b /\ built b [] [0%nat].
Proof.
  unfold new_block_builder, assert_. destruct (Z.geb_spec interval 1); [|lia]. cbn [rbind]. eexists. split; [done|]. apply built_nothing.
Qed.

Lemma builder_Reset_ok b : built (builder_Reset b) [] [0%nat].
Proof. apply built_nothing. Qed.

Lemma built_empty b its rs : built b its rs -> builder_empty b = bool_decide (its = []).
Proof.
  intros (Eb & _ & _ & _ & _ & _ & _ & _ & Hf & _). unfold builder_empty. rewrite Eb. destruct its as [|it its]; [done|].
  rewrite bool_decide_false by done. apply Z.eqb_neq. apply Forall_cons in Hf as [Hf _]. pose proof (header_size it Hf).
  change (it :: its) with ([it] ++ its). rewrite items_bytes_app, zlen_app. unfold items_bytes at 1. cbn [map concat]. rewrite app_nil_r.
  unfold item_bytes. rewrite !zlen_app. pose proof (zlen_nonneg (items_bytes its)). pose proof (zlen_nonneg (skipn (i_shared it) (i_key it))).
  pose proof (zlen_nonneg (i_value it)). lia.
Qed.

Lemma CurrentSizeEstimate_ok b its rs : built b its rs -> CurrentSizeEstimate b = zlen (block_data its rs).
Proof.
  intros (Eb & Er & _). unfold CurrentSizeEstimate. rewrite Eb, Er, block_data_length. unfold zlen. rewrite length_map. lia.
Qed.

Lemma builder_Finish_ok b its rs : built b its rs -> zlen (block_data its rs) < 2 ^ 32 -> fst (builder_Finish b) = block_data its rs.
Proof.
  intros (Eb & Er & _) Hs. rewrite block_data_length in Hs. unfold builder_Finish. cbn [fst]. rewrite Eb, Er.
  unfold block_data, restart_array, PutFixed32. rewrite app_assoc. f_equal.
  - rewrite <- map_map with (g := EncodeFixed32). generalize (map (offset its) rs) as l, (items_bytes its) as pre. intros l.
    induction l as [|x l IH]; intros pre; cbn [foldl map concat]; [by rewrite app_nil_r|]. by rewrite IH, app_assoc.
  - f_equal. unfold zlen at 1. rewrite length_map. apply (wrap_small 32). pose proof (zlen_nonneg rs). pose proof (zlen_nonneg (items_bytes its)). unfold zlen in *. lia.
Qed.

(** *** Adding a pair *)

Lemma shared_prefix_ok a b : let n := shared_prefix a b in (n <= length a)%nat /\ (n <= length b)%nat /\ firstn n a = firstn n b.
Proof.
  destruct (shared_prefix_spec a b) as (p & a' & b' & -> & -> & Hl & _). cbv zeta. rewrite <- Hl, !length_app, !take_app_length. split_and!; [lia..|done].
Qed.

Lemma offset_snoc its it r : (r <= length its)%nat -> offset (its ++ [it]) r = offset its r.
Proof. intros H. unfold offset. by rewrite take_app_le. Qed.

Lemma restarts_bound its rs r : restarts_ok its rs -> r ∈ rs -> (r <= length its)%nat.
Proof.
  intros (H0 & Hs & _) Hr. apply list_elem_of_lookup in Hr as [[|i] Hi]; [rewrite H0 in Hi; injection Hi as <-; lia|].
  destruct (rs !! i) as [r0|] eqn:E; [destruct (Hs i r0 r E Hi); lia|]. apply lookup_ge_None in E. apply lookup_lt_Some in Hi. lia.
Qed.

Lemma restarts_keep its rs it : restarts_ok its rs -> its <> [] -> restarts_ok (its ++ [it]) rs.
Proof.
  intros H Hne. pose proof H as (H0 & Hs & Hz). split_and!; [done| |].
  - intros i r r' E E'. destruct (Hs i r r' E E'). rewrite length_app. cbn. lia.
  - intros r x Hr E. destruct (proj1 (Nat.lt_eq_cases _ _) (restarts_bound its rs r H Hr)).
    + rewrite lookup_app_l in E by done. by apply (Hz r x).
    + subst r. apply list_elem_of_lookup in Hr as [[|i] Hi]; [rewrite H0 in Hi; injection Hi as Hi; by destruct its|].
      destruct (rs !! i) as [r0|] eqn:E0; [destruct (Hs i r0 _ E0 Hi); lia|]. apply lookup_ge_None in E0. apply lookup_lt_Some in Hi. lia.
Qed.

(** The last restart point lies before the end. *)
Lemma restarts_push its rs it : restarts_ok its rs -> its <> [] -> i_shared it = 0%nat -> restarts_ok (its ++ [it]) (rs ++ [length its]).
Proof.
  intros H Hne Hz0. pose proof (restarts_keep its rs it H Hne) as (H0 & Hs & Hz). split_and!.
  - by rewrite lookup_app_l by (by eapply lookup_lt_Some).
  - intros i r r' E E'. apply lookup_snoc_Some in E' as [[Hi E']|[Hi <-]].
    + rewrite lookup_app_l in E by lia. by apply (Hs i r r').
    + rewrite lookup_app_l in E by lia. rewrite length_app. cbn. split; [|lia].
      destruct H as (H0' & Hs' & _). destruct i as [|i]; [rewrite H0' in E; injection E as <-; destruct its; [done|cbn; lia]|].
      destruct (rs !! i) as [r0|] eqn:E0; [by destruct (Hs' i r0 r E0 E)|]. apply lookup_ge_None in E0. apply lookup_lt_Some in E. lia.
  - intros r x [Hr|Hr]%elem_of_app E; [by apply (Hz r x)|]. apply list_elem_of_singleton in Hr as ->.
    rewrite list_lookup_middle in E by done. by injection E as <-.
Qed.

Lemma built_snoc b its rs key value : built b its rs -> weight (map pair_of its ++ [(key, value)]) < 2 ^ 32 ->
  forall n rs', (n <= length (last_key_ b))%nat -> (n <= length key)%nat -> firstn n (last_key_ b) = firstn n key ->
  let it := mk_item n key value in
  restarts_ok (its ++ [it]) rs' -> zlen rs' <= 1 + zlen rs ->
  item_fits it /\ chained [] (its ++ [it]) /\ zlen (block_data (its ++ [it]) rs') <= weight (map pair_of (its ++ [it])).
Proof.
  intros (Eb & Er & Hf & El & Hc & Hc0 & Hch & Hr & Hfs & Hw) Hlt n rs' Hn Hk Hp it Hr' Hrs. rewrite weight_app in Hlt. cbn [weight fst snd] in Hlt.
  pose proof (weight_nonneg (map pair_of its)).
  assert (item_fits it) as Hit by (split; [done|cbn; lia]). split; [done|]. split.
  - apply chained_app. split; [done|]. rewrite <- El. cbn. done.
  - rewrite block_data_length in *. rewrite map_app, weight_app. cbn [map weight fst snd pair_of it i_key i_value].
    rewrite items_bytes_app, zlen_app. unfold items_bytes at 2. cbn [map concat]. rewrite app_nil_r.
    pose proof (item_bytes_length it Hit). cbn [i_key i_value it] in *. lia.
Qed.

Lemma builder_Add_ok b its rs key value : built b its rs -> (its <> [] -> valid key) -> Forall valid (map i_key its) ->
  (forall it, last its = Some it -> cmp (i_key it) key < 0) -> weight (map pair_of its ++ [(key, value)]) < 2 ^ 32 ->
  exists b' it rs', builder_Add comparator interval b key value = Ret b' /\ pair_of it = (key, value) /\ built b' (its ++ [it]) rs'.
Proof.
  intros H Hk Hv Hlast Hlt. pose proof (built_snoc b its rs key value H Hlt) as Hsnoc. pose proof (built_empty b its rs H) as Ee.
  pose proof H as (Eb & Er & Hf & El & Hc & Hc0 & Hch & Hr & Hfs & Hw). unfold builder_Add. rewrite Hf, Ee. cbn [negb assert_ rbind].
  unfold assert_ at 1. destruct (Z.leb_spec (counter_ b) interval); [|lia]. cbn [rbind].
  assert ((if bool_decide (its = []) then Ret true else let! r := Compare comparator key (last_key_ b) in Ret (r >? 0)) = Ret true) as ->.
  { case_bool_decide as Hne; [done|]. specialize (Hk Hne). destruct its as [|x its _] using rev_ind; [done|]. rewrite El, last_snoc. cbn.
    rewrite last_snoc in Hlast. specialize (Hlast x eq_refl). rewrite map_app in Hv. apply Forall_app in Hv as [_ [Hx _]%Forall_cons].
    rewrite (laws_compare key (i_key x)) by done. cbn [rbind]. pose proof (order_flip (valid := valid) (cmp := cmp) (i_key x) key Hx Hk). by destruct (Z.gtb_spec (cmp key (i_key x)) 0); [|lia]. }
  cbn [rbind assert_].
  set (n := if negb (counter_ b <? interval) then O else shared_prefix (last_key_ b) key).
  set (rs' := if negb (counter_ b <? interval) then rs ++ [length its] else rs).
  assert ((n <= length (last_key_ b))%nat /\ (n <= length key)%nat /\ firstn n (last_key_ b) = firstn n key) as (Hn1 & Hn2 & Hn3).
  { subst n. destruct (negb _); [split_and!; [lia..|done]|]. apply shared_prefix_ok. }
  set (it := mk_item n key value).
  assert (restarts_ok (its ++ [it]) rs' /\ zlen rs' <= 1 + zlen rs /\
    map (offset (its ++ [it])) rs' = if negb (counter_ b <? interval) then map (offset its) rs ++ [zlen (items_bytes its)] else map (offset its) rs) as (Hr' & Hrs & Eoff).
  { assert (map (offset (its ++ [it])) rs = map (offset its) rs) as Emap.
    { apply map_ext_in. intros r Hin. apply offset_snoc. apply (restarts_bound its rs r Hr). by apply list_elem_of_In. }
    subst rs' n. destruct (Z.ltb_spec (counter_ b) interval); cbn [negb] in *.
    - split_and!; [|lia|done]. destruct (decide (its = [])) as [->|]; [|by apply restarts_keep].
      destruct Hr as (Hr0 & Hs & Hz). split_and!; [done| |].
      + intros i r r' E E'. destruct (Hs i r r' E E'). cbn in *. lia.
      + intros r x Hin E. destruct r as [|r]; [|done]. injection E as <-. subst it. cbn [i_shared]. by rewrite El.
    - assert (its <> []) as Hne by (intros E; specialize (Hc0 E); lia). split_and!; [by apply restarts_push|rewrite zlen_app; change (zlen [length its]) with 1; lia|].
      rewrite map_app, Emap. cbn [map]. f_equal. f_equal. rewrite offset_snoc by done. by apply offset_all. }
  destruct (Hsnoc n rs' Hn1 Hn2 Hn3 Hr' Hrs) as (Hit & Hch' & Hw'). fold it in Hit, Hch', Hw'.
  destruct (item_fits_u32 it Hit) as (H1 & H2 & H3). unfold is_u32 in H1, H2, H3. cbn [i_shared i_key i_value it] in H1, H2, H3.
  rewrite (wrap_small 32 (Z.of_nat n) : _ -> u32 (Z.of_nat n) = _) by lia.
  rewrite (wrap_small 32 (zlen key - Z.of_nat n) : _ -> u32 (zlen key - Z.of_nat n) = _) by lia.
  rewrite (wrap_small 32 (zlen value) : _ -> u32 (zlen value) = _) by lia.
  assert (firstn n (last_key_ b) ++ skipn n key = key) as -> by (rewrite Hn3; apply firstn_skipn).
  rewrite bool_decide_true by done. cbn [assert_ rbind].
  eexists _, it, rs'. split; [done|]. split; [done|].
  unfold built. cbn [buffer_ restarts_ finished_ last_key_ counter_]. split_and!.
  - rewrite Eb, items_bytes_app. unfold items_bytes at 3. cbn [map concat]. rewrite app_nil_r. unfold item_bytes, header, PutVarint32. cbn [i_shared i_key i_value it]. by rewrite <- !app_assoc.
  - rewrite Eoff, Er, Eb. destruct (negb _); [|done]. f_equal. f_equal. apply (wrap_small 32).
    rewrite block_data_length in Hw. pose proof (zlen_nonneg rs). pose proof (zlen_nonneg (items_bytes its)). rewrite weight_app in Hlt. cbn [weight fst snd] in Hlt.
    pose proof (zlen_nonneg key). pose proof (zlen_nonneg value). lia.
  - done.
  - by rewrite last_snoc.
  - destruct (Z.ltb_spec (counter_ b) interval); cbn [negb]; lia.
  - destruct (Z.ltb_spec (counter_ b) interval); cbn [negb]; lia.
  - intros E. by destruct its.
  - done.
  - done.
  - apply Forall_app. split; [done|]. by constructor.
  - done.
Qed.

(** *** All the pairs *)

Definition builder_Add_all (b : BlockBuilder) (kvs : pairs) : res BlockBuilder :=
  foldl (fun b kv => let! b := b in builder_Add comparator interval b (fst kv) (snd kv)) (Ret b) kvs.

Lemma builder_Add_all_ok kvs b its rs : built b its rs -> sorted valid cmp (map i_key its ++ map fst kvs) ->
  weight (map pair_of its ++ kvs) < 2 ^ 32 ->
  exists b' its' rs', builder_Add_all b kvs = Ret b' /\ built b' (its ++ its') rs' /\ map pair_of its' = kvs.
Proof.
  revert b its rs; induction kvs as [|[k v] kvs IH]; intros b its rs H Hs Hw.
  - exists b, [], rs. split_and!; [done|by rewrite app_nil_r|done].
  - cbn [map fst] in Hs. pose proof Hs as (Hs1 & Hs2 & Hlt)%sorted_app. apply sorted_cons in Hs2 as (Hk & _ & _).
    assert (map pair_of its ++ (k, v) :: kvs = (map pair_of its ++ [(k, v)]) ++ kvs) as Ew by (by rewrite <- app_assoc).
    rewrite Ew in Hw.
    destruct (builder_Add_ok b its rs k v H (fun _ => Hk)) as (b' & it & rs' & E & Ep & H'); [apply Hs1| | |].
    + intros x Hx. apply (Hlt (i_key x) k); [|by left]. apply list_elem_of_fmap. exists x. split; [done|].
      rewrite last_lookup in Hx. by eapply list_elem_of_lookup_2.
    + rewrite weight_app in Hw. pose proof (weight_nonneg kvs). lia.
    + destruct (IH b' (its ++ [it]) rs' H') as (b2 & its' & rs2 & E2 & H2 & Ep2).
      * rewrite map_app. cbn [map]. assert (i_key it = k) as -> by (by injection Ep). by rewrite <- app_assoc.
      * rewrite map_app. cbn [map]. by rewrite Ep.
      * exists b2, (it :: its'), rs2. split_and!; [|by rewrite <- app_assoc in H2|by cbn; rewrite Ep, Ep2].
        unfold builder_Add_all. cbn [foldl fst snd rbind]. rewrite E. exact E2.
Qed.

End Building.

(** ** What was built is what is read *)

Section RoundTrip.
Context {comparator : Comparator} {valid : list Z -> Prop} {cmp : list Z -> list Z -> Z} {laws : ComparatorLaws comparator valid cmp}.
Context {interval : Z} (interval_ok : 1 <= interval < 2 ^ 31 - 1).

Lemma built_lawful b its rs : built (interval := interval) b its rs -> sorted valid cmp (map fst (map pair_of its)) ->
  weight (map pair_of its) < 2 ^ 32 ->
  exists blk s at_, new_block (fst (builder_Finish b)) = Ret blk /\ block_NewIterator blk = Ret s /\
    LawfulIterator (block_iterator comparator) valid cmp (map pair_of its) at_ /\ at_ s None.
Proof.
  intros H Hs Hw. pose proof H as (_ & _ & _ & _ & _ & _ & Hch & Hr & Hf & Hl).
  assert (zlen (block_data its rs) < 2 ^ 32) as Hd by lia.
  rewrite (builder_Finish_ok b its rs H Hd), (new_block_ok its rs Hr Hd).
  destruct (NewIterator_ok its rs Hr Hd) as (s & Es & Hs0). do 3 eexists. split; [done|]. split; [exact Es|].
  split; [|exact Hs0]. apply block_lawful; try done. by rewrite map_map in Hs.
Qed.

(** A block made of sorted pairs has an iterator over just these. *)
Lemma block_of_pairs kvs : sorted valid cmp (map fst kvs) -> weight kvs < 2 ^ 32 ->
  exists b0 b blk s at_, new_block_builder interval = Ret b0 /\ builder_Add_all (comparator := comparator) (interval := interval) b0 kvs = Ret b /\
    new_block (fst (builder_Finish b)) = Ret blk /\ block_NewIterator blk = Ret s /\
    LawfulIterator (block_iterator comparator) valid cmp kvs at_ /\ at_ s None.
Proof.
  intros Hs Hw. destruct (new_block_builder_ok interval_ok) as (b0 & E0 & H0).
  destruct (builder_Add_all_ok interval_ok kvs b0 [] [0%nat] H0 Hs Hw) as (b & its & rs & E & H & <-). cbn [app] in H.
  destruct (built_lawful b its rs H Hs Hw) as (blk & s & at_ & E1 & E2 & L & Ha). by exists b0, b, blk, s, at_.
Qed.

(** C21. Whatever sorted pairs are added to a block builder, the finished block is one
    that the reader accepts, and its iterator goes over just these pairs: forwards,
    backwards and from any key. *)
Theorem block_roundtrip kvs : sorted valid cmp (map fst kvs) -> weight kvs < 2 ^ 32 ->
  exists b0 b blk s at_, new_block_builder interval = Ret b0 /\ builder_Add_all (comparator := comparator) (interval := interval) b0 kvs = Ret b /\
    new_block (fst (builder_Finish b)) = Ret blk /\ block_NewIterator blk = Ret s /\
    LawfulIterator (block_iterator comparator) valid cmp kvs at_ /\ at_ s None.
Proof. apply block_of_pairs. Qed.

End RoundTrip.
