(* ===== verification/LdbFormat.v ===== *)
(** * LevelDB: the pieces of a table file (table/format.h, table/format.cc, port/port_stdcxx.h)

    Block handles, the footer, and reading a block with its type and checksum from
    a file.  Handles and footers are read as they were written; what was written
    as a block is read back. *)
From S2P Require Import Prelude WireSpec.
From S2P Require Import LdbCoding LdbCrc32c LdbStatus LdbKeys LdbBlock LdbBlockSpec.
From Stdlib Require Import ZArith Lia.
From stdpp Require Import base tactics numbers list strings.
#[local] Open Scope Z_scope.

(** ** Options *)

(** [CompressionType]. *)
Definition kNoCompression : Z := 0.
Definition kSnappyCompression : Z := 1.

(** The fields of [Options] the table code reads. *)
Record Options := mk_options {
  opt_comparator : Comparator;
  paranoid_checks : bool;
  block_size : Z;
  block_restart_interval : Z;
  compression : Z;
  filter_policy : option FilterPolicy;
}.

Record ReadOptions := mk_read_options { verify_checksums : bool; fill_cache : bool }.

Definition default_read_options : ReadOptions := mk_read_options false true.

(** ** The port, built without Snappy *)

Definition Snappy_Compress (input : list Z) : option (list Z) := None.
Definition Snappy_GetUncompressedLength (input : list Z) : option Z := None.
Definition Snappy_Uncompress (input : list Z) : option (list Z) := None.

(** ** Block handles *)

Definition kMaxEncodedLength : Z := 10 + 10.

Record BlockHandle := mk_handle { offset_ : Z; hsize_ : Z }.

Definition no_handle : Z := 2 ^ 64 - 1.

Definition new_handle : BlockHandle := mk_handle no_handle no_handle.

Definition handle_EncodeTo (h : BlockHandle) (dst : list Z) : res (list Z) :=
  let! _ := assert_ (negb (offset_ h =? no_handle)) in
  let! _ := assert_ (negb (hsize_ h =? no_handle)) in
  Ret (PutVarint64 (PutVarint64 dst (offset_ h)) (hsize_ h)).

(** The status, the handle and the rest of [*input]; a failure may leave the first
    number read. *)
Definition handle_DecodeFrom (h : BlockHandle) (input : list Z) : Status * BlockHandle * list Z :=
  match GetVarint64 input with
  | Some (o, rest) =>
      match GetVarint64 rest with
      | Some (n, rest) => (status_ok, mk_handle o n, rest)
      | None => (Corruption (bytes_of "bad block handle") [], mk_handle o (hsize_ h), rest)
      end
  | None => (Corruption (bytes_of "bad block handle") [], h, input)
  end.

(** ** The footer *)

Definition kEncodedLength : Z := 2 * kMaxEncodedLength + 8.
Definition kTableMagicNumber : Z := 0xdb4775248b80fb57.

Record Footer := mk_footer { metaindex_handle : BlockHandle; index_handle : BlockHandle }.

(** [dst->resize(n)] *)
Definition resize (dst : list Z) (n : nat) : list Z := firstn n (dst ++ repeat 0 n).

Definition footer_EncodeTo (f : Footer) (dst : list Z) : res (list Z) :=
  let original_size := zlen dst in
  let! dst := handle_EncodeTo (metaindex_handle f) dst in
  let! dst := handle_EncodeTo (index_handle f) dst in
  let dst := resize dst (Z.to_nat (2 * kMaxEncodedLength)) in
  let dst := PutFixed32 dst (Z.land kTableMagicNumber 0xffffffff) in
  let dst := PutFixed32 dst (Z.shiftr kTableMagicNumber 32) in
  let! _ := assert_ (zlen dst =? original_size + kEncodedLength) in
  Ret dst.

(** The status and the footer; what is left of [*input] is not looked at.  The code does
    not look at the size of [*input]: bytes behind its end are uninitialised, or not
    its own, and making a number of them is undefined behaviour ([UB]). *)
Definition footer_DecodeFrom (f : Footer) (input : list Z) : res (Status * Footer) :=
  let! magic_lo := fixed32_at input (kEncodedLength - 8) in
  let! magic_hi := fixed32_at input (kEncodedLength - 8 + 4) in
  let magic := Z.lor (Z.shiftl magic_hi 32) magic_lo in
  if negb (magic =? kTableMagicNumber) then Ret (Corruption (bytes_of "not an sstable (bad magic number)") [], f)
  else
    let '(result, metaindex, input) := handle_DecodeFrom (metaindex_handle f) input in
    if is_ok result then
      let '(result, index, _) := handle_DecodeFrom (index_handle f) input in
      Ret (result, mk_footer metaindex index)
    else Ret (result, mk_footer metaindex (index_handle f)).

(** ** Reading a block *)

(** [RandomAccessFile]: [Read] gives a status, the bytes read and whether they are
    in [scratch]; a file that is read does not change. *)
Record RandomAccessFile := mk_random_access { file_Read : Z -> Z -> res (Status * list Z * bool) }.

Definition kBlockTrailerSize : Z := 5.

Record BlockContents := mk_contents { c_data : list Z; cachable : bool; heap_allocated : bool }.

Definition no_contents : BlockContents := mk_contents [] false false.

Section ReadBlock.
Context (Value : list Z -> Z) (Extend : Z -> list Z -> Z).

(** Sizes are those of a 64-bit machine; allocation always works. *)
Definition ReadBlock (file : RandomAccessFile) (options : ReadOptions) (handle : BlockHandle) : res (Status * BlockContents) :=
  let n := hsize_ handle in
  let! (s, contents, in_buf) := file_Read file (offset_ handle) (u64 (n + kBlockTrailerSize)) in
  if negb (is_ok s) then Ret (s, no_contents)
  else if negb (zlen contents =? u64 (n + kBlockTrailerSize)) then
    Ret (Corruption (bytes_of "truncated block read") [], no_contents)
  else
    let! checked :=
      if verify_checksums options then
        let! crc := fixed32_at contents (n + 1) in
        let! covered := bytes_at contents 0 (n + 1) in
        Ret (Value covered =? Unmask crc)
      else Ret true in
    if negb checked then Ret (Corruption (bytes_of "block checksum mismatch") [], no_contents)
    else
      let! type := bytes_at contents n 1 in
      if byte_at type 0 =? kNoCompression then
        let! data := bytes_at contents 0 n in
        if in_buf then Ret (status_ok, mk_contents data true true) else Ret (status_ok, mk_contents data false false)
      else if byte_at type 0 =? kSnappyCompression then
        let! data := bytes_at contents 0 n in
        match Snappy_GetUncompressedLength data with
        | None => Ret (Corruption (bytes_of "corrupted compressed block contents") [], no_contents)
        | Some _ =>
            match Snappy_Uncompress data with
            | None => Ret (Corruption (bytes_of "corrupted compressed block contents") [], no_contents)
            | Some data => Ret (status_ok, mk_contents data true true)
            end
        end
      else Ret (Corruption (bytes_of "bad block type") [], no_contents).

(** The type and the checksum behind the contents of a block, from
    [TableBuilder::WriteRawBlock]. *)
Definition block_trailer (block_contents : list Z) (type : Z) : list Z :=
  let crc := Value block_contents in
  let crc := Extend crc [u8 type] in
  u8 type :: EncodeFixed32 (Mask crc).

End ReadBlock.

(** ** Handles and footers *)

Definition handle_ok (h : BlockHandle) : Prop := 0 <= offset_ h < no_handle /\ 0 <= hsize_ h < no_handle.

Definition handle_bytes (h : BlockHandle) : list Z := EncodeVarint64 (offset_ h) ++ EncodeVarint64 (hsize_ h).

Lemma handle_ok_u64 h : handle_ok h -> is_u64 (offset_ h) /\ is_u64 (hsize_ h).
Proof. unfold handle_ok, is_u64, no_handle. lia. Qed.

Lemma handle_EncodeTo_ok h dst : handle_ok h -> handle_EncodeTo h dst = Ret (dst ++ handle_bytes h).
Proof.
  intros [H1 H2]. unfold handle_EncodeTo, assert_. destruct (Z.eqb_spec (offset_ h) no_handle), (Z.eqb_spec (hsize_ h) no_handle); try lia.
  cbn [negb rbind]. unfold PutVarint64, handle_bytes. by rewrite <- app_assoc.
Qed.

Lemma handle_DecodeFrom_ok h0 h rest : handle_ok h -> handle_DecodeFrom h0 (handle_bytes h ++ rest) = (status_ok, h, rest).
Proof.
  intros H. apply handle_ok_u64 in H as [H1 H2]. unfold handle_DecodeFrom, handle_bytes. rewrite <- app_assoc. rewrite !get_varint64 by done. by destruct h.
Qed.

Lemma handle_bytes_inj h h' : handle_ok h -> handle_ok h' -> handle_bytes h = handle_bytes h' -> h = h'.
Proof.
  intros H H' E. pose proof (handle_DecodeFrom_ok new_handle h [] H) as D. pose proof (handle_DecodeFrom_ok new_handle h' [] H') as D'.
  rewrite E, D' in D. by injection D.
Qed.

Lemma handle_bytes_size h : handle_ok h -> zlen (handle_bytes h) <= kMaxEncodedLength.
Proof.
  intros H. unfold handle_bytes, kMaxEncodedLength. rewrite zlen_app, <- !VarintLength_zlen.
  pose proof (VarintLength_range (offset_ h)). pose proof (VarintLength_range (hsize_ h)). lia.
Qed.

Lemma handle_bytes_bytes h : handle_ok h -> Forall is_byte (handle_bytes h).
Proof.
  intros H. apply handle_ok_u64 in H as [H1 H2]. apply Forall_app. split; by apply (put_bytes (Coder := varint64_coder)).
Qed.

Lemma firstn_repeat {A} (x : A) n m : firstn n (repeat x m) = repeat x (Nat.min n m).
Proof. revert m; induction n as [|n IH]; intros [|m]; [done..|]. cbn. by rewrite IH. Qed.

(** The handles, padding up to the magic number, and the magic number. *)
Definition padding (f : Footer) : list Z :=
  repeat 0 (Z.to_nat (2 * kMaxEncodedLength) - length (handle_bytes (metaindex_handle f) ++ handle_bytes (index_handle f))).

Definition footer_bytes (f : Footer) : list Z :=
  (handle_bytes (metaindex_handle f) ++ handle_bytes (index_handle f) ++ padding f) ++
  EncodeFixed32 (Z.land kTableMagicNumber 0xffffffff) ++ EncodeFixed32 (Z.shiftr kTableMagicNumber 32).

Definition footer_ok (f : Footer) : Prop := handle_ok (metaindex_handle f) /\ handle_ok (index_handle f).

Lemma padded_size f : footer_ok f ->
  zlen (handle_bytes (metaindex_handle f) ++ handle_bytes (index_handle f) ++ padding f) = 2 * kMaxEncodedLength.
Proof.
  intros [H1 H2]. pose proof (handle_bytes_size _ H1). pose proof (handle_bytes_size _ H2). unfold padding, kMaxEncodedLength in *.
  unfold zlen in *. rewrite !length_app, repeat_length. lia.
Qed.

Lemma footer_size f : footer_ok f -> zlen (footer_bytes f) = kEncodedLength.
Proof.
  intros H. unfold footer_bytes. rewrite zlen_app, (padded_size f H), zlen_app. unfold EncodeFixed32. by rewrite !EncodeFixed32_le, !zlen_le_split.
Qed.

Lemma footer_EncodeTo_ok f : footer_ok f -> footer_EncodeTo f [] = Ret (footer_bytes f).
Proof.
  intros H. pose proof H as [H1 H2]. unfold footer_EncodeTo. rewrite handle_EncodeTo_ok by done. cbn [rbind app]. rewrite handle_EncodeTo_ok by done. cbn [rbind].
  assert (resize (handle_bytes (metaindex_handle f) ++ handle_bytes (index_handle f)) (Z.to_nat (2 * kMaxEncodedLength)) =
          handle_bytes (metaindex_handle f) ++ handle_bytes (index_handle f) ++ padding f) as ->.
  { pose proof (padded_size f H) as E. unfold resize. rewrite take_app. rewrite take_ge by (rewrite app_assoc, zlen_app in E; unfold padding, zlen in *; lia).
    rewrite app_assoc. f_equal. unfold padding. rewrite firstn_repeat. f_equal. lia. }
  unfold PutFixed32. rewrite <- app_assoc. fold (footer_bytes f). unfold assert_. rewrite footer_size by done. done.
Qed.

Lemma footer_DecodeFrom_ok f0 f rest : footer_ok f -> footer_DecodeFrom f0 (footer_bytes f ++ rest) = Ret (status_ok, f).
Proof.
  intros H. pose proof H as [H1 H2]. unfold footer_DecodeFrom. pose proof (padded_size f H) as Ep.
  erewrite (fixed32_at_eq (footer_bytes f ++ rest)); [|unfold footer_bytes; rewrite <- !(app_assoc _ _ rest); done|by rewrite Ep|by vm_compute].
  cbn [rbind].
  erewrite (fixed32_at_eq (footer_bytes f ++ rest) _ (Z.shiftr kTableMagicNumber 32) rest);
    [|unfold footer_bytes; rewrite <- (app_assoc _ _ rest), <- (app_assoc _ _ rest), (app_assoc _ (EncodeFixed32 (Z.land _ _))); done| |by vm_compute]; cycle 1.
  { rewrite zlen_app, Ep. done. }
  cbn [rbind]. change (negb _) with false. cbn iota. unfold footer_bytes. rewrite <- !app_assoc.
  rewrite handle_DecodeFrom_ok by done. cbn [is_ok status_ok]. rewrite handle_DecodeFrom_ok by done. by destruct f.
Qed.

(** ** Reading what was written *)

(** A file with these contents; nothing is said of reads beyond its end. *)
Class LawfulRandom (file : RandomAccessFile) (contents : list Z) : Prop := {
  random_read o n : 0 <= o -> 0 <= n -> o + n <= zlen contents -> exists in_buf,
    file_Read file o n = Ret (status_ok, firstn (Z.to_nat n) (skipn (Z.to_nat o) contents), in_buf);
}.

Section Reading.
Context {Value : list Z -> Z} {Extend : Z -> list Z -> Z} {checksum : Checksum Value Extend}.
Context {file : RandomAccessFile} {contents : list Z} {lawful : LawfulRandom file contents}.

Lemma block_trailer_size c type : zlen (block_trailer Value Extend c type) = kBlockTrailerSize.
Proof. unfold block_trailer. rewrite zlen_cons. unfold EncodeFixed32. by rewrite EncodeFixed32_le, zlen_le_split. Qed.

Lemma random_read_at pre data post : contents = pre ++ data ++ post -> exists in_buf, file_Read file (zlen pre) (zlen data) = Ret (status_ok, data, in_buf).
Proof.
  intros E. destruct (random_read (zlen pre) (zlen data) (zlen_nonneg pre) (zlen_nonneg data)) as (in_buf & Er).
  { rewrite E, !zlen_app. pose proof (zlen_nonneg post). lia. } exists in_buf. rewrite Er, E.
  rewrite drop_app_length' by (unfold zlen; lia). by rewrite firstn_zlen.
Qed.

(** The contents of an uncompressed block with its trailer, anywhere in the file. *)
Lemma ReadBlock_ok options pre data post :
  contents = pre ++ (data ++ block_trailer Value Extend data kNoCompression) ++ post -> zlen data + kBlockTrailerSize < 2 ^ 64 -> Forall is_byte data ->
  exists b, ReadBlock Value file options (mk_handle (zlen pre) (zlen data)) = Ret (status_ok, mk_contents data b b).
Proof.
  intros E Hsize Hb. pose proof (zlen_nonneg data). unfold ReadBlock. cbn [hsize_ offset_]. unfold kBlockTrailerSize in *.
  rewrite (wrap_small 64 (zlen data + 5) : _ -> u64 (zlen data + 5) = _) by lia.
  assert (zlen data + 5 = zlen (data ++ block_trailer Value Extend data kNoCompression)) as El by (by rewrite zlen_app, block_trailer_size).
  rewrite El. destruct (random_read_at _ _ _ E) as (in_buf & ->). cbn [rbind is_ok status_ok negb]. rewrite Z.eqb_refl. cbn [negb].
  set (trailer := block_trailer Value Extend data kNoCompression). unfold block_trailer in trailer. change (u8 kNoCompression) with 0 in trailer.
  set (crc := Mask (Extend (Value data) [0])) in trailer.
  assert (is_u32 (Extend (Value data) [0]) /\ Extend (Value data) [0] = Value (data ++ [0])) as [Hcrc Ecrc].
  { assert (Forall is_byte [0]) as H0 by (by repeat constructor). rewrite extend_value by done. split; [|done]. apply value_u32. by apply Forall_app. }
  destruct (mask_inverse _ Hcrc) as (Hm & _ & Hinv & _). fold crc in Hm, Hinv.
  assert ((if verify_checksums options
    then let! c := fixed32_at (data ++ trailer) (zlen data + 1) in
         let! covered := bytes_at (data ++ trailer) 0 (zlen data + 1) in Ret (Value covered =? Unmask c)
    else Ret true) = Ret true) as ->.
  { destruct (verify_checksums options); [|done].
    rewrite (fixed32_at_eq _ (data ++ [0]) crc []); [|subst trailer; by rewrite <- app_assoc, app_nil_r|by rewrite zlen_app|done]. cbn [rbind].
    rewrite (bytes_at_eq _ [] (data ++ [0]) (EncodeFixed32 crc)); [|subst trailer; by rewrite <- app_assoc|done|by rewrite zlen_app]. cbn [rbind].
    f_equal. rewrite Hinv, Ecrc. apply Z.eqb_refl. }
  cbn [rbind negb].
  rewrite (bytes_at_eq _ data [0] (EncodeFixed32 crc)) by done. cbn [rbind]. change (byte_at [0] 0 =? kNoCompression) with true. cbn iota.
  rewrite (bytes_at_eq _ [] data trailer) by done. cbn [rbind]. destruct in_buf; by eexists.
Qed.

(** A block of which up to four adjacent bytes, its type among them, changed on disk
    is found out when checksums are verified. *)
Lemma ReadBlock_changed options pre head w w' tail post data type :
  verify_checksums options = true -> data ++ [u8 type] = head ++ w ++ tail -> length w = 4%nat -> length w' = 4%nat -> w <> w' ->
  contents = pre ++ ((head ++ w' ++ tail) ++ skipn 1 (block_trailer Value Extend data type)) ++ post ->
  zlen data + kBlockTrailerSize < 2 ^ 64 -> Forall is_byte data -> Forall is_byte w' ->
  ReadBlock Value file options (mk_handle (zlen pre) (zlen data)) = Ret (Corruption (bytes_of "block checksum mismatch") [], no_contents).
Proof.
  intros Hv Ed Hw Hw' Hne E Hsize Hb Hb'. pose proof (zlen_nonneg data). unfold ReadBlock. cbn [hsize_ offset_]. unfold kBlockTrailerSize in *.
  rewrite (wrap_small 64 (zlen data + 5) : _ -> u64 (zlen data + 5) = _) by lia.
  set (crc := Mask (Extend (Value data) [u8 type])). change (skipn 1 _) with (EncodeFixed32 crc) in E. set (changed := head ++ w' ++ tail) in *.
  assert (Forall is_byte (data ++ [u8 type])) as Hall by (apply Forall_app; split; [done|]; constructor; [apply wrap_range; lia|constructor]).
  assert (zlen changed = zlen data + 1) as Ec.
  { transitivity (zlen (data ++ [u8 type])); [|by rewrite zlen_app]. rewrite Ed. subst changed. unfold zlen. rewrite !length_app. lia. }
  assert (zlen data + 5 = zlen (changed ++ EncodeFixed32 crc)) as El.
  { rewrite zlen_app, Ec. unfold EncodeFixed32. rewrite EncodeFixed32_le, zlen_le_split. lia. }
  rewrite El. destruct (random_read_at _ _ _ E) as (in_buf & ->). cbn [rbind is_ok status_ok negb]. rewrite Z.eqb_refl. cbn [negb]. rewrite Hv.
  assert (is_u32 (Value (data ++ [u8 type]))) as Hcrc by (by apply value_u32).
  assert (Extend (Value data) [u8 type] = Value (data ++ [u8 type])) as Ecrc by (apply extend_value; [done|by apply Forall_app in Hall as [_ ?]]).
  destruct (mask_inverse _ Hcrc) as (Hm & _ & Hinv & _). rewrite <- Ecrc in Hm, Hinv. fold crc in Hm, Hinv.
  rewrite (fixed32_at_eq _ changed crc []) by (by rewrite ?app_nil_r). cbn [rbind]. rewrite (bytes_at_eq _ [] changed (EncodeFixed32 crc)) by done. cbn [rbind]. rewrite Hinv, Ecrc.
  destruct (Z.eqb_spec (Value changed) (Value (data ++ [u8 type]))) as [Eq|_]; [|done]. rewrite Ed in Eq, Hall. destruct Hne. by eapply (value_detects head w w' tail).
Qed.

End Reading.

(** What the builder writes into a footer is what the reader gets out of it, handles
    of any size included; it is always [kEncodedLength] bytes. *)
Theorem footer_roundtrip f f0 rest : footer_ok f -> exists dst, footer_EncodeTo f [] = Ret dst /\ zlen dst = kEncodedLength /\
  footer_DecodeFrom f0 (dst ++ rest) = Ret (status_ok, f).
Proof. intros H. exists (footer_bytes f). split_and!; [by apply footer_EncodeTo_ok|by apply footer_size|by apply footer_DecodeFrom_ok]. Qed.

(** C22. With [verify_checksums], a block of the file in which up to four adjacent bytes
    of the data or its type were changed is not read: the status says [Corruption]. *)
Theorem ReadBlock_detects Value Extend {checksum : Checksum Value Extend} file contents {lawful : LawfulRandom file contents}
    options pre head w w' tail post data type :
  verify_checksums options = true -> data ++ [u8 type] = head ++ w ++ tail -> length w = 4%nat -> length w' = 4%nat -> w <> w' ->
  contents = pre ++ ((head ++ w' ++ tail) ++ skipn 1 (block_trailer Value Extend data type)) ++ post ->
  zlen data + kBlockTrailerSize < 2 ^ 64 -> Forall is_byte data -> Forall is_byte w' ->
  ReadBlock Value file options (mk_handle (zlen pre) (zlen data)) = Ret (Corruption (bytes_of "block checksum mismatch") [], no_contents).
Proof. by apply ReadBlock_changed. Qed.
