(* ===== verification/LdbFilterBlock.v ===== *)
(** * LevelDB: the filter block (table/filter_block.h, table/filter_block.cc)

    The filters of a table's data blocks, one for every 2 KB of the file, with an
    array of their offsets.  The reader answers true for every key that was added
    for a block. *)
From S2P Require Import Prelude WireSpec.
From S2P Require Import LdbCoding LdbStatus LdbKeys LdbBlock LdbBlockSpec.
From Stdlib Require Import ZArith Lia.
From stdpp Require Import base tactics numbers list sorting.
#[local] Open Scope Z_scope.

(** ** The builder *)

Definition kFilterBaseLg : Z := 11.
Definition kFilterBase : Z := Z.shiftl 1 kFilterBaseLg.

(** [tmp_keys_] holds nothing between calls. *)
Record FilterBlockBuilder := mk_filter_builder {
  keys_ : list Z;
  start_ : list Z;
  result_ : list Z;
  filter_offsets_ : list Z;
}.

Definition new_filter_builder : FilterBlockBuilder := mk_filter_builder [] [] [] [].

(** The slices of [keys] between consecutive starts. *)
Fixpoint slices (keys : list Z) (start : list Z) : res (list (list Z)) :=
  match start with
  | a :: start =>
      match start with
      | b :: _ =>
          let! key := bytes_at keys a (b - a) in
          let! tmp_keys := slices keys start in
          Ret (key :: tmp_keys)
      | [] => Ret []
      end
  | [] => Ret []
  end.

Section Builder.
Context (policy_ : FilterPolicy).

(** The policy takes the number of keys as an [int], which must hold it. *)
Definition GenerateFilter (b : FilterBlockBuilder) : res FilterBlockBuilder :=
  let num_keys := zlen (start_ b) in
  if num_keys =? 0 then
    Ret (mk_filter_builder (keys_ b) (start_ b) (result_ b) (filter_offsets_ b ++ [u32 (zlen (result_ b))]))
  else
    let start := start_ b ++ [zlen (keys_ b)] in
    let! tmp_keys := slices (keys_ b) start in
    let filter_offsets := filter_offsets_ b ++ [u32 (zlen (result_ b))] in
    if num_keys <? 2 ^ 31 then
      let! (_, result) := policy_create policy_ tmp_keys (result_ b) in
      Ret (mk_filter_builder [] [] result filter_offsets)
    else UB.

Definition StartBlock (b : FilterBlockBuilder) (block_offset : Z) : res FilterBlockBuilder :=
  let filter_index := block_offset / kFilterBase in
  let! _ := assert_ (filter_index >=? zlen (filter_offsets_ b)) in
  loop (S (Z.to_nat (filter_index - zlen (filter_offsets_ b)))) (fun b =>
    if filter_index >? zlen (filter_offsets_ b) then let! b := GenerateFilter b in Ret (inl b) else Ret (inr b)) b.

Definition AddKey (b : FilterBlockBuilder) (key : list Z) : FilterBlockBuilder :=
  mk_filter_builder (keys_ b ++ key) (start_ b ++ [zlen (keys_ b)]) (result_ b) (filter_offsets_ b).

Definition filter_Finish (b : FilterBlockBuilder) : res (list Z * FilterBlockBuilder) :=
  let! b := if negb (zlen (start_ b) =? 0) then GenerateFilter b else Ret b in
  let array_offset := u32 (zlen (result_ b)) in
  let result := foldl PutFixed32 (result_ b) (filter_offsets_ b) in
  let result := PutFixed32 result array_offset in
  let result := result ++ [kFilterBaseLg] in
  Ret (result, mk_filter_builder (keys_ b) (start_ b) result (filter_offsets_ b)).

End Builder.

(** ** The reader *)

(** [data_] is null when the contents are bad; [offset_] is an offset into it. *)
Record FilterBlockReader := mk_filter_reader {
  filter_data_ : option (list Z);
  array_offset_ : Z;
  num_ : Z;
  base_lg_ : Z;
}.

(** [contents[n - 1]] is a [char], widened with its sign. *)
Definition new_filter_reader (contents : list Z) : res FilterBlockReader :=
  let n := zlen contents in
  if n <? 5 then Ret (mk_filter_reader None 0 0 0)
  else
    let base_lg := u64 (swrap 8 (byte_at contents (Z.to_nat (n - 1)))) in
    let! last_word := fixed32_at contents (n - 5) in
    if last_word >? n - 5 then Ret (mk_filter_reader None 0 0 base_lg)
    else Ret (mk_filter_reader (Some contents) last_word ((n - 5 - last_word) / 4) base_lg).

(** A shift by 64 or more is undefined behaviour by itself; whatever it gave, the
    reads behind the comparison with [num_] would stay inside the block. *)
Definition reader_KeyMayMatch (policy_ : FilterPolicy) (r : FilterBlockReader) (block_offset : Z) (key : list Z) : res bool :=
  let! _ := assert_ (base_lg_ r <? 64) in
  let index := Z.shiftr block_offset (base_lg_ r) in
  if index <? num_ r then
    match filter_data_ r with
    | None => UB
    | Some data =>
        let! start := fixed32_at data (array_offset_ r + index * 4) in
        let! limit := fixed32_at data (array_offset_ r + index * 4 + 4) in
        if (start <=? limit) && (limit <=? array_offset_ r) then
          let! filter := bytes_at data start (limit - start) in
          policy_match policy_ key filter
        else if start =? limit then Ret false
        else Ret true
    end
  else Ret true.

(** ** What the builder holds *)

(** Where each part of a concatenation begins, from [n] on. *)
Fixpoint offsets_from (n : Z) (l : list (list Z)) : list Z :=
  match l with [] => [] | x :: l => n :: offsets_from (n + zlen x) l end.

Lemma offsets_from_snoc n l x : offsets_from n (l ++ [x]) = offsets_from n l ++ [n + zlen (concat l)].
Proof.
  revert n; induction l as [|y l IH]; intros n; cbn [app offsets_from concat]; [by rewrite zlen_nil, Z.add_0_r|].
  rewrite IH, zlen_app. cbn. do 3 f_equal. lia.
Qed.

Lemma offsets_from_length n l : length (offsets_from n l) = length l.
Proof. revert n; induction l as [|x l IH]; intros n; cbn; [done|]. by rewrite IH. Qed.

Lemma offsets_from_lookup n l i : (i < length l)%nat -> offsets_from n l !! i = Some (n + zlen (concat (firstn i l))).
Proof.
  revert n i; induction l as [|x l IH]; intros n [|i] Hi; cbn in *; [lia|lia|by rewrite zlen_nil, Z.add_0_r|].
  rewrite IH by lia. rewrite zlen_app. f_equal. lia.
Qed.

Lemma slices_cons keys a b start :
  slices keys (a :: b :: start) = let! key := bytes_at keys a (b - a) in let! tmp_keys := slices keys (b :: start) in Ret (key :: tmp_keys).
Proof. done. Qed.

Lemma slices_ok pre ks : slices (pre ++ concat ks) (offsets_from (zlen pre) ks ++ [zlen pre + zlen (concat ks)]) = Ret ks.
Proof.
  revert pre; induction ks as [|k ks IH]; intros pre; [done|].
  change (concat (k :: ks)) with (k ++ concat ks). cbn [offsets_from app].
  assert (offsets_from (zlen pre + zlen k) ks ++ [zlen pre + zlen (k ++ concat ks)] =
          offsets_from (zlen (pre ++ k)) ks ++ [zlen (pre ++ k) + zlen (concat ks)]) as -> by (rewrite !zlen_app; do 2 f_equal; lia).
  specialize (IH (pre ++ k)). rewrite <- app_assoc in IH.
  destruct (offsets_from (zlen (pre ++ k)) ks ++ [zlen (pre ++ k) + zlen (concat ks)]) as [|b rest] eqn:E; [by destruct (offsets_from _ ks)|].
  assert (b = zlen pre + zlen k) as ->.
  { destruct ks; cbn in E; injection E as <- _; rewrite ?zlen_app, ?zlen_nil; lia. }
  rewrite slices_cons, (bytes_at_eq _ pre k (concat ks)) by (done || lia). cbn [rbind]. by rewrite IH.
Qed.

Section Building.
Context {policy : FilterPolicy} {valid : list Z -> Prop} {laws : FilterLaws policy valid}.

(** A filter that matches the keys [g]. *)
Definition covers (f : list Z) (g : list (list Z)) : Prop :=
  Forall is_byte f /\ Forall (fun key => policy_match policy key f = Ret true) g.

(** [fs] are the filters made so far, of the keys [gs]; [ks] are the keys since. *)
Definition holds (b : FilterBlockBuilder) (fs : list (list Z)) (gs : list (list (list Z))) (ks : list (list Z)) : Prop :=
  keys_ b = concat ks /\ start_ b = offsets_from 0 ks /\
  result_ b = concat fs /\ filter_offsets_ b = map u32 (offsets_from 0 fs) /\
  Forall2 covers fs gs /\
  Forall valid ks /\ zlen ks < 2 ^ 31.

Lemma new_filter_builder_ok : holds new_filter_builder [] [] [].
Proof. split_and!; done. Qed.

Lemma holds_length b fs gs ks : holds b fs gs ks -> zlen (filter_offsets_ b) = zlen fs /\ length gs = length fs /\ zlen (start_ b) = zlen ks.
Proof.
  intros (_ & -> & _ & -> & H & _). unfold zlen. rewrite length_map, !offsets_from_length. apply Forall2_length in H. done.
Qed.

Lemma AddKey_ok b fs gs ks key : holds b fs gs ks -> valid key -> zlen ks + 1 < 2 ^ 31 -> holds (AddKey b key) fs gs (ks ++ [key]).
Proof.
  intros (E1 & E2 & E3 & E4 & H & Hv & _) Hk Hl. split_and!; cbn; try done.
  - by rewrite E1, concat_snoc.
  - by rewrite E2, E1, offsets_from_snoc.
  - apply Forall_app. split; [done|]. by constructor.
  - rewrite zlen_app. done.
Qed.

Lemma GenerateFilter_ok b fs gs ks : holds b fs gs ks ->
  exists b' f, GenerateFilter policy b = Ret b' /\ holds b' (fs ++ [f]) (gs ++ [ks]) [].
Proof.
  intros H. pose proof (holds_length b fs gs ks H) as (_ & _ & El). destruct H as (E1 & E2 & E3 & E4 & H & Hv & Hl).
  unfold GenerateFilter. rewrite El.
  assert (map u32 (offsets_from 0 fs) ++ [u32 (zlen (concat fs))] = map u32 (offsets_from 0 fs ++ [0 + zlen (concat fs)])) as Eo by (by rewrite map_app).
  destruct (Z.eqb_spec (zlen ks) 0) as [E0|Hne].
  - apply zlen_0 in E0 as ->.
    eexists _, []. split; [done|]. split_and!; cbn; try done.
    + by rewrite E3, concat_snoc, app_nil_r.
    + by rewrite E4, E3, offsets_from_snoc, Eo.
    + apply Forall2_app; [done|]. repeat constructor.
  - rewrite E1, E2. pose proof (slices_ok [] ks) as Es. cbn [app] in Es. change (zlen []) with 0 in Es. rewrite Z.add_0_l in Es. rewrite Es. cbn [rbind].
    destruct (Z.ltb_spec (zlen ks) (2 ^ 31)); [|lia]. destruct (filter_matches ks (result_ b) Hv Hl) as (f & keys' & -> & Hf & Hm). cbn [rbind].
    eexists _, f. split; [done|]. split_and!; cbn; try done.
    + by rewrite E3, concat_snoc.
    + by rewrite E4, E3, offsets_from_snoc, Eo.
    + apply Forall2_app; [done|]. by repeat constructor.
Qed.

(** Starting a block makes filters until the number of them is the block's index. *)
Lemma StartBlock_ok b fs gs ks o : holds b fs gs ks -> 0 <= o -> zlen fs <= o / kFilterBase ->
  exists b' fs' gs' ks', StartBlock policy b o = Ret b' /\ holds b' fs' gs' ks' /\ zlen fs' = o / kFilterBase /\
    gs ++ [ks] `prefix_of` gs' ++ [ks'] /\ zlen ks' <= zlen ks.
Proof.
  intros H Ho Hle. unfold StartBlock. set (idx := o / kFilterBase) in *. pose proof (holds_length b fs gs ks H) as (El & _ & _). rewrite El.
  unfold assert_. destruct (Z.geb_spec idx (zlen fs)); [|lia]. cbn [rbind]. clear El.
  remember (Z.to_nat (idx - zlen fs)) as n eqn:En. revert b fs gs ks H Hle En H0; induction n as [|n IH]; intros b fs gs ks H Hle En _;
    rewrite loop_unfold; pose proof (holds_length b fs gs ks H) as (-> & _ & _); destruct (Z.gtb_spec idx (zlen fs)); try lia; cbn [rbind].
  - exists b, fs, gs, ks. split_and!; [done|done|lia|done|done].
  - destruct (GenerateFilter_ok b fs gs ks H) as (b' & f & -> & H'). cbn [rbind].
    destruct (IH b' (fs ++ [f]) (gs ++ [ks]) [] H') as (b2 & fs2 & gs2 & ks2 & E & H2 & E2 & Hp & Hl2); [rewrite zlen_app; change (zlen [f]) with 1; lia..|].
    exists b2, fs2, gs2, ks2. split_and!; [done|done|done| |rewrite zlen_nil in Hl2; pose proof (zlen_nonneg ks); lia].
    etrans; [|exact Hp]. by apply prefix_app_r.
Qed.

(** *** The finished block *)

Definition filter_block (fs : list (list Z)) : list Z :=
  concat fs ++ concat (map EncodeFixed32 (offsets_from 0 fs)) ++ EncodeFixed32 (zlen (concat fs)) ++ [kFilterBaseLg].

Lemma put_fixed32_all pre l : foldl PutFixed32 pre l = pre ++ concat (map EncodeFixed32 l).
Proof.
  revert pre; induction l as [|x l IH]; intros pre; cbn [foldl map concat]; [by rewrite app_nil_r|]. rewrite IH. unfold PutFixed32. by rewrite <- app_assoc.
Qed.

Lemma le_split_mod n v : le_split n (v mod 2 ^ (8 * Z.of_nat n)) = le_split n v.
Proof.
  rewrite <- le_combine_split. rewrite <- (length_le_split n v) at 1. apply le_split_combine. apply le_split_bytes.
Qed.

Lemma EncodeFixed32_bytes v : Forall is_byte (EncodeFixed32 v).
Proof. unfold EncodeFixed32. rewrite EncodeFixed32_le. apply le_split_bytes. Qed.

Lemma EncodeFixed32_u32 v : EncodeFixed32 (u32 v) = EncodeFixed32 v.
Proof. unfold EncodeFixed32. rewrite !EncodeFixed32_le. unfold u32, wrap. change (2 ^ 32) with (2 ^ (8 * Z.of_nat 4)). apply le_split_mod. Qed.

Lemma filter_Finish_ok b fs gs ks : holds b fs gs ks ->
  exists b' fs', filter_Finish policy b = Ret (filter_block fs', b') /\ Forall is_byte (filter_block fs') /\
    Forall2 covers fs' (if decide (ks = []) then gs else gs ++ [ks]).
Proof.
  intros H. unfold filter_Finish. pose proof (holds_length b fs gs ks H) as (_ & _ & El). rewrite El.
  assert (exists b' fs', (if negb (zlen ks =? 0) then GenerateFilter policy b else Ret b) = Ret b' /\
    holds b' fs' (if decide (ks = []) then gs else gs ++ [ks]) []) as (b' & fs' & -> & H').
  { destruct (decide (ks = [])) as [->|Hne]; [by exists b, fs|].
    destruct (Z.eqb_spec (zlen ks) 0) as [E0%zlen_0|]; [done|]. cbn [negb].
    destruct (GenerateFilter_ok b fs gs ks H) as (b' & f & -> & H'). by exists b', (fs ++ [f]). }
  cbn [rbind]. destruct H' as (_ & _ & E3 & E4 & Hm & _). rewrite E3, E4. eexists _, fs'. split_and!; [| |exact Hm].
  2: { apply Forall_app. split; [apply Forall_concat; apply Forall_forall; intros f Hf; apply list_elem_of_lookup in Hf as [i Hi]; by destruct (Forall2_lookup_l _ _ _ _ _ Hm Hi) as (g & _ & Hb & _)|].
       apply Forall_app. split; [apply Forall_concat, Forall_map, Forall_forall; intros; apply EncodeFixed32_bytes|].
       apply Forall_app. split; [apply EncodeFixed32_bytes|]. by repeat constructor. }
  rewrite put_fixed32_all. unfold PutFixed32. rewrite EncodeFixed32_u32, map_map, (map_ext _ _ EncodeFixed32_u32). unfold filter_block. do 2 f_equal. by rewrite <- !app_assoc.
Qed.

(** *** Reading it *)

Definition filter_reader (fs : list (list Z)) : FilterBlockReader :=
  mk_filter_reader (Some (filter_block fs)) (zlen (concat fs)) (zlen fs) kFilterBaseLg.

Lemma offset_array_size n fs : zlen (concat (map EncodeFixed32 (offsets_from n fs))) = 4 * zlen fs.
Proof.
  revert n; induction fs as [|f fs IH]; intros n; [done|]. cbn [offsets_from map concat]. rewrite zlen_app, IH, zlen_cons.
  unfold EncodeFixed32. rewrite EncodeFixed32_le, zlen_le_split. lia.
Qed.

Lemma filter_block_size fs : zlen (filter_block fs) = zlen (concat fs) + 4 * zlen fs + 5.
Proof.
  unfold filter_block. rewrite !zlen_app, offset_array_size. unfold EncodeFixed32. rewrite EncodeFixed32_le, zlen_le_split. change (zlen [kFilterBaseLg]) with 1. lia.
Qed.

Lemma new_filter_reader_ok fs : zlen (filter_block fs) < 2 ^ 32 -> new_filter_reader (filter_block fs) = Ret (filter_reader fs).
Proof.
  intros Hs. unfold new_filter_reader. rewrite filter_block_size in *. pose proof (zlen_nonneg (concat fs)). pose proof (zlen_nonneg fs).
  destruct (Z.ltb_spec (zlen (concat fs) + 4 * zlen fs + 5) 5); [lia|].
  rewrite (fixed32_at_eq _ (concat fs ++ concat (map EncodeFixed32 (offsets_from 0 fs))) (zlen (concat fs)) [kFilterBaseLg]).
  2: by unfold filter_block; rewrite <- app_assoc.
  2: by rewrite zlen_app, offset_array_size; lia.
  2: by unfold is_u32; lia.
  cbn [rbind]. destruct (Z.gtb_spec (zlen (concat fs)) (zlen (concat fs) + 4 * zlen fs + 5 - 5)); [lia|].
  assert (byte_at (filter_block fs) (Z.to_nat (zlen (concat fs) + 4 * zlen fs + 5 - 1)) = kFilterBaseLg) as ->.
  { pose proof (filter_block_size fs) as E. unfold filter_block in *. rewrite !app_assoc in *.
    set (pre := (concat fs ++ concat (map EncodeFixed32 (offsets_from 0 fs))) ++ EncodeFixed32 (zlen (concat fs))) in *. rewrite zlen_app in E. change (zlen [kFilterBaseLg]) with 1 in E. unfold byte_at. rewrite app_nth2 by (unfold zlen in *; lia).
    replace (Z.to_nat (zlen (concat fs) + 4 * zlen fs + 5 - 1) - length pre)%nat with 0%nat by (unfold zlen in *; lia). done. }
  unfold filter_reader. do 3 f_equal. replace (zlen (concat fs) + 4 * zlen fs + 5 - 5 - zlen (concat fs)) with (zlen fs * 4) by lia. apply Z.div_mul. lia.
Qed.

(** The offset of a filter, and of the end of the last. *)
Lemma offset_at fs i : (i <= length fs)%nat -> zlen (filter_block fs) < 2 ^ 32 ->
  fixed32_at (filter_block fs) (zlen (concat fs) + Z.of_nat i * 4) = Ret (zlen (concat (firstn i fs))).
Proof.
  intros Hi Hs. rewrite filter_block_size in Hs. pose proof (zlen_nonneg (concat fs)) as H0.
  assert (zlen (concat fs) = zlen (concat (firstn i fs)) + zlen (concat (skipn i fs))) as Ec by (by rewrite <- zlen_app, <- concat_app, firstn_skipn).
  pose proof (zlen_nonneg (concat (firstn i fs))). pose proof (zlen_nonneg (concat (skipn i fs))).
  assert (concat (map EncodeFixed32 (offsets_from 0 fs)) = concat (map EncodeFixed32 (offsets_from 0 (firstn i fs))) ++
    concat (map EncodeFixed32 (offsets_from (zlen (concat (firstn i fs))) (skipn i fs)))) as Eo.
  { rewrite <- (firstn_skipn i fs) at 1. clear. generalize (firstn i fs) as a, (skipn i fs) as b. intros a b.
    assert (forall n, offsets_from n (a ++ b) = offsets_from n a ++ offsets_from (n + zlen (concat a)) b) as E.
    { induction a as [|x a IH]; intros n; cbn [app offsets_from concat]; [by rewrite zlen_nil, Z.add_0_r|].
      rewrite IH, zlen_app. do 2 f_equal. f_equal. lia. }
    by rewrite E, map_app, concat_app. }
  pose proof (zlen_nonneg fs).
  assert (length (firstn i fs) = i) as Eli by (rewrite length_take; lia).
  assert (is_u32 (zlen (concat (firstn i fs)))) as Hu by (unfold is_u32; lia).
  destruct (skipn i fs) as [|f rest] eqn:Ef.
  - apply (fixed32_at_eq _ (concat fs ++ concat (map EncodeFixed32 (offsets_from 0 fs))) _ [kFilterBaseLg]); [|rewrite zlen_app, offset_array_size|done].
    + unfold filter_block. rewrite <- app_assoc. do 3 f_equal. rewrite Ec. change (zlen (concat [])) with 0. rewrite Z.add_0_r. done.
    + apply (f_equal length) in Ef. rewrite length_drop in Ef. cbn in Ef. unfold zlen. lia.
  - cbn [offsets_from map concat] in Eo.
    eapply (fixed32_at_eq _ (concat fs ++ concat (map EncodeFixed32 (offsets_from 0 (firstn i fs))))); [|rewrite zlen_app, offset_array_size; unfold zlen; lia|done].
    unfold filter_block. rewrite Eo, <- !app_assoc. done.
Qed.

(** The reader asks the filter of the index, and matches when there is none. *)
Lemma reader_at fs o key : zlen (filter_block fs) < 2 ^ 32 -> 0 <= o ->
  reader_KeyMayMatch policy (filter_reader fs) o key = match fs !! Z.to_nat (o / kFilterBase) with Some f => policy_match policy key f | None => Ret true end.
Proof.
  intros Hs Ho. unfold reader_KeyMayMatch, filter_reader. cbn [base_lg_ num_ filter_data_ array_offset_]. change (kFilterBaseLg <? 64) with true. cbn [assert_ rbind].
  assert (Z.shiftr o kFilterBaseLg = o / kFilterBase) as -> by (rewrite Z.shiftr_div_pow2 by done; done).
  assert (0 <= o / kFilterBase) as Hi by (apply Z.div_pos; done).
  set (i := Z.to_nat (o / kFilterBase)) in *. assert (o / kFilterBase = Z.of_nat i) as -> by (subst i; lia).
  destruct (fs !! i) as [f|] eqn:Ef; cycle 1.
  { apply lookup_ge_None_1 in Ef. destruct (Z.ltb_spec (Z.of_nat i) (zlen fs)); [unfold zlen in *; lia|done]. }
  pose proof (lookup_lt_Some _ _ _ Ef) as Hlt. destruct (Z.ltb_spec (Z.of_nat i) (zlen fs)); [|unfold zlen in *; lia].
  rewrite (offset_at fs i) by (done || lia). cbn [rbind].
  replace (zlen (concat fs) + Z.of_nat i * 4 + 4) with (zlen (concat fs) + Z.of_nat (S i) * 4) by lia. rewrite (offset_at fs (S i)) by (done || lia). cbn [rbind].
  assert (concat (firstn (S i) fs) = concat (firstn i fs) ++ f) as E1 by (by rewrite (take_S_r fs i f Ef), concat_snoc).
  assert (concat fs = concat (firstn i fs) ++ f ++ concat (skipn (S i) fs)) as E2.
  { rewrite <- (take_drop_middle fs i f Ef) at 1. rewrite concat_app. done. }
  rewrite E1, zlen_app. pose proof (zlen_nonneg f).
  assert (zlen (concat fs) = zlen (concat (firstn i fs)) + zlen f + zlen (concat (skipn (S i) fs))) as E3 by (rewrite E2, !zlen_app; lia).
  pose proof (zlen_nonneg (concat (skipn (S i) fs))).
  destruct (Z.leb_spec (zlen (concat (firstn i fs))) (zlen (concat (firstn i fs)) + zlen f)); [|lia].
  destruct (Z.leb_spec (zlen (concat (firstn i fs)) + zlen f) (zlen (concat fs))); [|lia]. cbn [andb].
  rewrite (bytes_at_eq _ (concat (firstn i fs)) f (concat (skipn (S i) fs) ++ concat (map EncodeFixed32 (offsets_from 0 fs)) ++ EncodeFixed32 (zlen (concat fs)) ++ [kFilterBaseLg])); [|unfold filter_block; rewrite E2 at 1; by rewrite <- !app_assoc|done|lia].
  done.
Qed.

Lemma reader_match fs gs o key g :
  Forall2 covers fs gs -> zlen (filter_block fs) < 2 ^ 32 ->
  0 <= o -> gs !! Z.to_nat (o / kFilterBase) = Some g -> key ∈ g ->
  reader_KeyMayMatch policy (filter_reader fs) o key = Ret true.
Proof.
  intros Hm Hs Ho Hg Hk. destruct (Forall2_lookup_r _ _ _ _ _ Hm Hg) as (f & Ef & _ & Hf). rewrite reader_at, Ef by done. by eapply Forall_forall in Hf.
Qed.

Lemma reader_total fs gs o key : Forall2 covers fs gs -> zlen (filter_block fs) < 2 ^ 32 -> 0 <= o -> valid key ->
  exists m, reader_KeyMayMatch policy (filter_reader fs) o key = Ret m.
Proof.
  intros Hm Hs Ho Hk. rewrite reader_at by done. destruct (fs !! _) as [f|] eqn:Ef; [|by exists true].
  destruct (Forall2_lookup_l _ _ _ _ _ Hm Ef) as (g & _ & Hf & _). by apply filter_total.
Qed.

(** *** Blocks of keys *)

(** The calls for a data block at an offset, and for a table. *)
Definition add_block (b : res FilterBlockBuilder) (block : Z * list (list Z)) : res FilterBlockBuilder :=
  let! b := b in
  let! b := StartBlock policy b (fst block) in
  Ret (foldl AddKey b (snd block)).

Definition add_blocks (b : FilterBlockBuilder) (blocks : list (Z * list (list Z))) : res FilterBlockBuilder := foldl add_block (Ret b) blocks.

(** Every key added is among those for its block's filter. *)
Definition filed (added : list (Z * list Z)) (sets : list (list (list Z))) : Prop :=
  Forall (fun e => exists g, sets !! Z.to_nat (fst e / kFilterBase) = Some g /\ snd e ∈ g) added.

Lemma filed_prefix added sets sets' : filed added sets -> sets `prefix_of` sets' -> filed added sets'.
Proof. intros H Hp. eapply Forall_impl; [exact H|]. intros e (g & E & Hg). exists g. split; [|done]. by eapply prefix_lookup_Some. Qed.

Lemma filed_add added gs ks key o : filed added (gs ++ [ks]) -> Z.to_nat (o / kFilterBase) = length gs -> filed (added ++ [(o, key)]) (gs ++ [ks ++ [key]]).
Proof.
  intros H Eo. apply Forall_app. split.
  - eapply Forall_impl; [exact H|]. intros e (g & E & Hg). apply lookup_snoc_Some in E as [[Hlt E]|[El <-]].
    + exists g. by rewrite lookup_app_l by done.
    + exists (ks ++ [key]). rewrite El. split; [by rewrite list_lookup_middle|]. apply elem_of_app. by left.
  - constructor; [|constructor]. cbn [fst snd]. exists (ks ++ [key]). rewrite Eo. split; [by rewrite list_lookup_middle|]. apply elem_of_app. right. by left.
Qed.

Lemma filed_finished added gs ks : filed added (gs ++ [ks]) -> filed added (if decide (ks = []) then gs else gs ++ [ks]).
Proof.
  intros H. destruct (decide (ks = [])) as [->|]; [|done]. eapply Forall_impl; [exact H|]. intros e (g & E & Hg).
  apply lookup_snoc_Some in E as [[_ E]|[_ <-]]; [by exists g|by apply not_elem_of_nil in Hg].
Qed.

Lemma add_keys_ok b fs gs ks added o keys : holds b fs gs ks -> filed added (gs ++ [ks]) -> Z.to_nat (o / kFilterBase) = length gs ->
  Forall valid keys -> zlen ks + zlen keys < 2 ^ 31 ->
  holds (foldl AddKey b keys) fs gs (ks ++ keys) /\ filed (added ++ map (fun key => (o, key)) keys) (gs ++ [ks ++ keys]).
Proof.
  intros H Ha Eo. revert b ks added H Ha; induction keys as [|key keys IH]; intros b ks added H Ha Hv Hl; cbn [foldl map]; [by rewrite !app_nil_r|].
  apply Forall_cons in Hv as [Hk Hv]. rewrite zlen_cons in Hl. pose proof (zlen_nonneg keys).
  destruct (IH (AddKey b key) (ks ++ [key]) (added ++ [(o, key)])) as [H1 H2]; [apply AddKey_ok; (done || lia)|by apply filed_add|done|rewrite zlen_app; change (zlen [key]) with 1; lia|].
  by rewrite <- !app_assoc in *.
Qed.

Definition keys_of (blocks : list (Z * list (list Z))) : list (Z * list Z) := concat (map (fun b => map (fun key => (fst b, key)) (snd b)) blocks).

Lemma add_blocks_ok blocks b fs gs ks added : holds b fs gs ks -> filed added (gs ++ [ks]) -> zlen ks <= zlen added ->
  Forall (fun block => 0 <= fst block /\ zlen fs <= fst block / kFilterBase /\ Forall valid (snd block)) blocks ->
  StronglySorted Z.le (map fst blocks) -> zlen (added ++ keys_of blocks) < 2 ^ 31 ->
  exists b' fs' gs' ks', add_blocks b blocks = Ret b' /\ holds b' fs' gs' ks' /\ filed (added ++ keys_of blocks) (gs' ++ [ks']).
Proof.
  revert b fs gs ks added; induction blocks as [|[o keys] blocks IH]; intros b fs gs ks added H Ha Hks Hb Hs Hl.
  - exists b, fs, gs, ks. unfold keys_of. cbn. by rewrite app_nil_r.
  - apply Forall_cons in Hb as [(Ho & Hf & Hv) Hb]. cbn [fst snd map] in *. apply StronglySorted_inv in Hs as [Hs Hlt].
    change (keys_of ((o, keys) :: blocks)) with (map (fun key => (o, key)) keys ++ keys_of blocks) in *.
    assert (zlen (map (fun key => (o, key)) keys) = zlen keys) as Em by (unfold zlen; by rewrite length_map).
    destruct (StartBlock_ok b fs gs ks o H Ho Hf) as (b1 & fs1 & gs1 & ks1 & E1 & H1 & Eo & Hp & Hk1).
    pose proof (holds_length b1 fs1 gs1 ks1 H1) as (_ & Eg & _). rewrite !zlen_app in Hl. pose proof (zlen_nonneg (keys_of blocks)).
    destruct (add_keys_ok b1 fs1 gs1 ks1 added o keys H1) as [H2 Ha2]; [by eapply filed_prefix|unfold zlen in Eo; lia|done|lia|].
    destruct (IH (foldl AddKey b1 keys) fs1 gs1 (ks1 ++ keys) _ H2 Ha2) as (b' & fs' & gs' & ks' & E & H' & Ha').
    + rewrite !zlen_app. lia.
    + apply Forall_forall. intros [o' ks'] Hin. eapply Forall_forall in Hb; [|exact Hin]. cbn [fst snd] in *. destruct Hb as (Ho0 & _ & Hv'). split_and!; [done| |done].
      rewrite Eo. apply Z.div_le_mono; [done|]. eapply Forall_forall in Hlt; [exact Hlt|]. apply list_elem_of_fmap. by exists (o', ks').
    + done.
    + rewrite !zlen_app. lia.
    + exists b', fs', gs', ks'. rewrite app_assoc. split_and!; [|done|done]. unfold add_blocks. cbn [foldl add_block rbind fst snd]. by rewrite E1.
Qed.

Lemma finished_matches b fs gs ks added : holds b fs gs ks -> filed added (gs ++ [ks]) -> Forall (fun e => 0 <= fst e) added ->
  exists b' data, filter_Finish policy b = Ret (data, b') /\ Forall is_byte data /\
    (zlen data < 2 ^ 32 -> exists r, new_filter_reader data = Ret r /\
      (forall o key, 0 <= o -> valid key -> exists m, reader_KeyMayMatch policy r o key = Ret m) /\
      Forall (fun e => reader_KeyMayMatch policy r (fst e) (snd e) = Ret true) added).
Proof.
  intros H Ha Ho. destruct (filter_Finish_ok b fs gs ks H) as (b' & fs' & E & Hb & Hm). exists b', (filter_block fs'). split; [done|]. split; [done|].
  intros Hs. exists (filter_reader fs'). split; [by apply new_filter_reader_ok|]. split; [intros; by eapply reader_total|]. apply filed_finished in Ha.
  apply Forall_forall. intros e He. eapply Forall_forall in Ha as (g & Eg & Hg); [|exact He]. eapply Forall_forall in Ho; [|exact He].
  by eapply reader_match.
Qed.

End Building.

(** Whatever blocks of keys a table has, the finished filter block answers true for
    every key at the offset of its block. *)
Theorem filter_block_matches policy valid {laws : FilterLaws policy valid} blocks :
  Forall (fun block => 0 <= fst block /\ Forall valid (snd block)) blocks -> StronglySorted Z.le (map fst blocks) ->
  zlen (keys_of blocks) < 2 ^ 31 ->
  exists b data b', add_blocks (policy := policy) new_filter_builder blocks = Ret b /\ filter_Finish policy b = Ret (data, b') /\
    (zlen data < 2 ^ 32 -> exists r, new_filter_reader data = Ret r /\
      forall o keys key, (o, keys) ∈ blocks -> key ∈ keys -> reader_KeyMayMatch policy r o key = Ret true).
Proof.
  intros Hb Hs Hl. destruct (add_blocks_ok blocks new_filter_builder [] [] [] [] new_filter_builder_ok) as (b & fs & gs & ks & E & H & Ha); [constructor|done| |done|done|].
  - eapply Forall_impl; [exact Hb|]. intros x [H0 Hv]. split_and!; [done|apply Z.div_pos; done|done].
  - destruct (finished_matches b fs gs ks _ H Ha) as (b' & data & Ef & _ & Hm).
    + apply Forall_forall. intros e He. apply list_elem_of_In, in_concat in He as (l & (x & <- & Hx)%in_map_iff & (k & <- & _)%in_map_iff).
      apply list_elem_of_In in Hx. eapply Forall_forall in Hb; [|exact Hx]. apply Hb.
    + exists b, data, b'. split_and!; [done|done|]. intros Hd. destruct (Hm Hd) as (r & Er & _ & Hr). exists r. split; [done|].
      intros o keys key Hin Hk. rewrite Forall_forall in Hr. apply (Hr (o, key)). cbn [app]. apply list_elem_of_In, in_concat. exists (map (fun key => (o, key)) keys).
      split; [apply in_map_iff; exists (o, keys); split; [done|by apply list_elem_of_In]|]. apply in_map_iff. exists key. split; [done|by apply list_elem_of_In].
Qed.
