(* ===== verification/LdbTwoLevel.v ===== *)
(** * LevelDB: the two-level iterator (table/two_level_iterator.h, table/two_level_iterator.cc)

    An iterator over an index whose values name blocks, and over the blocks; it is
    lawful over the pairs of all the blocks when its parts are lawful. *)
From S2P Require Import Prelude LdbStatus LdbOrder LdbKeys LdbIterator.
From Stdlib Require Import ZArith Lia.
From stdpp Require Import base tactics numbers list.
#[local] Open Scope Z_scope.

(** ** Definitions *)

(** [env_] is the state behind [arg_] that the block function may change. *)
Record TwoLevelIterator (I D E : Type) := mk_two_level {
  status_ : Status;
  index_iter_ : IteratorWrapper I;
  data_iter_ : IteratorWrapper D;
  data_block_handle_ : list Z;
  env_ : E;
}.
Arguments mk_two_level {I D E} _ _ _ _ _.
Arguments status_ {I D E} _.
Arguments index_iter_ {I D E} _.
Arguments data_iter_ {I D E} _.
Arguments data_block_handle_ {I D E} _.
Arguments env_ {I D E} _.

Section TwoLevel.
Context {I D E : Type} (index : Iterator I) (data : Iterator D).
(** The function from an index value to an iterator, and the destructor of that
    iterator with the cleanups registered on it. *)
Context (block_function_ : list Z -> E -> res (D * E)) (delete_ : D -> E -> res E).
(** A bound on the rounds of the loops over the index. *)
Context (fuel : nat).

Abbreviation T := (TwoLevelIterator I D E).

Definition new_two_level (index_iter : I) (env : E) : res T :=
  let! index_iter := w_Set index new_wrapper (Some index_iter) in
  Ret (mk_two_level status_ok index_iter new_wrapper [] env).

(** Assignments to members. *)
Definition with_index (t : T) (w : IteratorWrapper I) : T := mk_two_level (status_ t) w (data_iter_ t) (data_block_handle_ t) (env_ t).
Definition with_data (t : T) (w : IteratorWrapper D) : T := mk_two_level (status_ t) (index_iter_ t) w (data_block_handle_ t) (env_ t).
Definition with_handle (t : T) (h : list Z) (e : E) : T := mk_two_level (status_ t) (index_iter_ t) (data_iter_ t) h e.

Definition SaveError (t : T) (s : Status) : T :=
  if is_ok (status_ t) && negb (is_ok s) then mk_two_level s (index_iter_ t) (data_iter_ t) (data_block_handle_ t) (env_ t) else t.

Definition SetDataIterator (t : T) (data_iter : option D) : res T :=
  match iter_ (data_iter_ t) with
  | None => let! w := w_Set data (data_iter_ t) data_iter in Ret (with_data t w)
  | Some old =>
      let! s := w_status data (data_iter_ t) in
      let t := SaveError t s in
      let! env := delete_ old (env_ t) in
      let t := with_handle t (data_block_handle_ t) env in
      let! w := w_Set data (data_iter_ t) data_iter in
      Ret (with_data t w)
  end.

Definition InitDataBlock (t : T) : res T :=
  if negb (w_Valid (index_iter_ t)) then SetDataIterator t None
  else
    let! handle := w_value index (index_iter_ t) in
    let same := match iter_ (data_iter_ t) with Some _ => slice_compare handle (data_block_handle_ t) =? 0 | None => false end in
    if same then Ret t
    else
      let! (iter, env) := block_function_ handle (env_ t) in
      SetDataIterator (with_handle t handle env) (Some iter).

(** [if (data_iter_.iter() != nullptr) data_iter_.f()] *)
Definition if_data (f : IteratorWrapper D -> res (IteratorWrapper D)) (t : T) : res T :=
  match iter_ (data_iter_ t) with
  | None => Ret t
  | Some _ => let! w := f (data_iter_ t) in Ret (with_data t w)
  end.

(** A round of the loop over empty blocks, with the index moved by [step] and the
    data iterator by [start]. *)
Definition skip_round (step : IteratorWrapper I -> res (IteratorWrapper I)) (start : IteratorWrapper D -> res (IteratorWrapper D)) (t : T)
    : res (T + T) :=
  let empty := match iter_ (data_iter_ t) with None => true | Some _ => negb (w_Valid (data_iter_ t)) end in
  if empty then
    if negb (w_Valid (index_iter_ t)) then let! t := SetDataIterator t None in Ret (inr t)
    else
      let! w := step (index_iter_ t) in
      let! t := InitDataBlock (with_index t w) in
      let! t := if_data start t in
      Ret (inl t)
  else Ret (inr t).

Definition SkipEmptyDataBlocksForward (t : T) : res T := loop fuel (skip_round (w_Next index) (w_SeekToFirst data)) t.
Definition SkipEmptyDataBlocksBackward (t : T) : res T := loop fuel (skip_round (w_Prev index) (w_SeekToLast data)) t.

Definition tl_Seek (t : T) (target : list Z) : res T :=
  let! w := w_Seek index (index_iter_ t) target in
  let! t := InitDataBlock (with_index t w) in
  let! t := if_data (fun w => w_Seek data w target) t in
  SkipEmptyDataBlocksForward t.

Definition tl_SeekToFirst (t : T) : res T :=
  let! w := w_SeekToFirst index (index_iter_ t) in
  let! t := InitDataBlock (with_index t w) in
  let! t := if_data (w_SeekToFirst data) t in
  SkipEmptyDataBlocksForward t.

Definition tl_SeekToLast (t : T) : res T :=
  let! w := w_SeekToLast index (index_iter_ t) in
  let! t := InitDataBlock (with_index t w) in
  let! t := if_data (w_SeekToLast data) t in
  SkipEmptyDataBlocksBackward t.

Definition tl_Valid (t : T) : bool := w_Valid (data_iter_ t).

Definition tl_Next (t : T) : res T :=
  let! _ := assert_ (tl_Valid t) in
  let! w := w_Next data (data_iter_ t) in
  SkipEmptyDataBlocksForward (with_data t w).

Definition tl_Prev (t : T) : res T :=
  let! _ := assert_ (tl_Valid t) in
  let! w := w_Prev data (data_iter_ t) in
  SkipEmptyDataBlocksBackward (with_data t w).

Definition tl_key (t : T) : res (list Z) := let! _ := assert_ (tl_Valid t) in w_key (data_iter_ t).
Definition tl_value (t : T) : res (list Z) := let! _ := assert_ (tl_Valid t) in w_value data (data_iter_ t).

(** The wrapper of the index has an iterator from its construction on. *)
Definition tl_status (t : T) : Status :=
  match iter_ (index_iter_ t) with
  | Some i =>
      if negb (is_ok (it_status index i)) then it_status index i
      else
        match iter_ (data_iter_ t) with
        | Some d => if negb (is_ok (it_status data d)) then it_status data d else status_ t
        | None => status_ t
        end
  | None => status_ t
  end.

Definition two_level_iterator : Iterator T :=
  mk_iterator tl_Valid tl_SeekToFirst tl_SeekToLast tl_Seek tl_Next tl_Prev tl_key tl_value tl_status.

End TwoLevel.

(** ** The pairs of all the blocks *)

Section Spec.
Context {I D Env Tok : Type} {index : Iterator I} {data : Iterator D}.
Context {block_function : list Z -> Env -> res (D * Env)} {delete : D -> Env -> res Env} {fuel : nat}.
Context {valid : list Z -> Prop} {cmp : list Z -> list Z -> Z} {order : KeyOrder valid cmp}.

(** The index, and the pairs of the block a handle names. *)
Context (index_kvs : pairs) (contents : list Z -> pairs).
Context {iat : I -> option nat -> Prop} {index_lawful : LawfulIterator index valid cmp index_kvs iat}.

(** A data iterator for the handle [h] that owns the token [tok]; [env_ok e toks]
    says that [toks] are the tokens not given back. *)
Context {dat : list Z -> Tok -> D -> option nat -> Prop} {env_ok : Env -> list Tok -> Prop}.
Context {data_lawful : forall h tok, h ∈ map snd index_kvs -> LawfulIterator data valid cmp (contents h) (dat h tok)}.
Context (block_ok : forall h e toks, h ∈ map snd index_kvs -> env_ok e toks -> (length toks <= 1)%nat ->
  exists d e' tok, block_function h e = Ret (d, e') /\ dat h tok d None /\ env_ok e' (tok :: toks)).
Context (delete_ok : forall h tok d p e toks, dat h tok d p -> env_ok e (toks ++ [tok]) -> exists e', delete d e = Ret e' /\ env_ok e' toks).

(** Every key of a block is at most its key in the index, which is less than the
    keys of later blocks. *)
Definition separated : Prop :=
  Forall (fun e => valid (fst e)) index_kvs /\
  forall i j ki hi kj hj, index_kvs !! i = Some (ki, hi) -> index_kvs !! j = Some (kj, hj) ->
    Forall (fun kv => valid (fst kv) /\ if (j <=? i)%nat then cmp (fst kv) ki <= 0 else cmp ki (fst kv) < 0) (contents hj).

Definition blocks : list pairs := (fun e => contents (snd e)) <$> index_kvs.
Definition all_pairs : pairs := concat blocks.

(** The number of pairs before a block. *)
Definition base (i : nat) : nat := length (concat (firstn i blocks)).

Lemma block_lookup i k h : index_kvs !! i = Some (k, h) -> blocks !! i = Some (contents h).
Proof. intros H. unfold blocks. etrans; [apply list_lookup_fmap|]. exact (f_equal (fmap _) H). Qed.

Lemma base_S i k h : index_kvs !! i = Some (k, h) -> base (S i) = (base i + length (contents h))%nat.
Proof. intros H%block_lookup. unfold base. by rewrite (take_S_r _ _ _ H), concat_snoc, length_app. Qed.

Lemma all_pairs_split i k h : index_kvs !! i = Some (k, h) ->
  all_pairs = concat (firstn i blocks) ++ contents h ++ concat (skipn (S i) blocks).
Proof. intros H%block_lookup. unfold all_pairs. rewrite <- (take_drop_middle _ _ _ H) at 1. by rewrite concat_app. Qed.

Lemma all_pairs_lookup i k h j kv : index_kvs !! i = Some (k, h) -> contents h !! j = Some kv -> all_pairs !! (base i + j)%nat = Some kv.
Proof.
  intros H Hj. rewrite (all_pairs_split i k h H). unfold base. rewrite lookup_app_r by lia.
  rewrite Nat.add_comm, Nat.add_sub. rewrite lookup_app_l; [done|by eapply lookup_lt_Some].
Qed.

Lemma base_end i : (length index_kvs <= i)%nat -> base i = length all_pairs.
Proof. intros H. unfold base, all_pairs. rewrite firstn_all2; [done|]. unfold blocks. by rewrite length_fmap. Qed.

Lemma base_le i : (base i <= length all_pairs)%nat.
Proof. unfold base, all_pairs. rewrite <- (firstn_skipn i blocks) at 2. rewrite concat_app, length_app. lia. Qed.

Lemma handle_in i k h : index_kvs !! i = Some (k, h) -> h ∈ map snd index_kvs.
Proof. intros H. apply list_elem_of_fmap. exists (k, h). split; [done|]. by eapply list_elem_of_lookup_2. Qed.

(** ** States *)

Abbreviation T := (TwoLevelIterator I D Env).
Abbreviation index_at := (w_at (kvs := index_kvs) (at_ := iat)).
Abbreviation data_at h tok := (w_at (kvs := contents h) (at_ := dat h tok)).

(** The data iterator, if there is one, belongs to the handle kept. *)
Definition no_data (t : T) (toks : list Tok) : Prop := iter_ (data_iter_ t) = None /\ valid_ (data_iter_ t) = false /\ toks = [].

Definition some_data (t : T) (toks : list Tok) (h : list Z) (p : option nat) : Prop :=
  exists tok, toks = [tok] /\ data_block_handle_ t = h /\ data_at h tok (data_iter_ t) p.

Definition live (t : T) (toks : list Tok) : Prop :=
  is_ok (status_ t) = true /\ (no_data t toks \/ exists h p, h ∈ map snd index_kvs /\ some_data t toks h p).

(** The index at [pi] and the data iterator of its block at [pd]. *)
Definition mid (t : T) (pi pd : option nat) : Prop :=
  is_ok (status_ t) = true /\ index_at (index_iter_ t) pi /\ exists toks, env_ok (env_ t) toks /\
  match pi with
  | Some i => exists k h, index_kvs !! i = Some (k, h) /\ some_data t toks h pd
  | None => no_data t toks
  end.

Definition tl_at (t : T) (p : option nat) : Prop :=
  match p with
  | Some n => exists i j, mid t (Some i) (Some j) /\ n = (base i + j)%nat
  | None => mid t None None
  end.

Lemma mid_live t pi pd : mid t pi pd -> exists toks, live t toks /\ env_ok (env_ t) toks.
Proof.
  intros (Hs & _ & toks & He & H). exists toks. split; [|done]. split; [done|]. destruct pi as [i|]; [|by left].
  destruct H as (k & h & E1 & H). right. exists h, pd. split; [by eapply handle_in|done].
Qed.

(** ** Changing the data iterator *)

Lemma SetDataIterator_none t toks : live t toks -> env_ok (env_ t) toks ->
  exists t', SetDataIterator data delete t None = Ret t' /\ no_data t' [] /\ env_ok (env_ t') [] /\ is_ok (status_ t') = true /\ index_iter_ t' = index_iter_ t.
Proof.
  intros [Hs Hl] He. unfold SetDataIterator. destruct Hl as [(E1 & E2 & ->)|(h & p & Hin & tok & -> & Eh & Hd)].
  - rewrite E1. cbn [w_Set rbind]. eexists. split; [done|]. by split_and!.
  - pose proof Hd as (d & Ed & Hdat & _). rewrite Ed. pose proof (data_lawful h tok Hin) as L.
    destruct (w_status_ok _ _ Hd) as (s & -> & Hok). cbn [rbind]. unfold SaveError. rewrite Hok, andb_false_r.
    destruct (delete_ok h tok d p (env_ t) [] Hdat He) as (e' & -> & He'). cbn [rbind w_Set]. eexists. split; [done|]. by split_and!.
Qed.

Lemma SetDataIterator_some t toks h tok d e h' : live t toks -> h ∈ map snd index_kvs -> dat h tok d None -> env_ok e (tok :: toks) ->
  exists t', SetDataIterator data delete (with_handle t h' e) (Some d) = Ret t' /\ is_ok (status_ t') = true /\
    index_iter_ t' = index_iter_ t /\ data_block_handle_ t' = h' /\ data_at h tok (data_iter_ t') None /\ env_ok (env_ t') [tok].
Proof.
  intros [Hs Hl] Hin Hd He. pose proof (data_lawful h tok Hin) as L. unfold SetDataIterator. cbn [with_handle data_iter_ env_ data_block_handle_].
  destruct (Update_ok (data_iter_ t) d None Hd) as (w & Ew & Hw). destruct Hl as [(E1 & E2 & ->)|(h0 & p & Hin0 & tok0 & -> & Eh & Hd0)].
  - rewrite E1. cbn [w_Set]. rewrite Ew. cbn [rbind]. eexists. split; [done|]. by split_and!.
  - pose proof Hd0 as (d0 & Ed & Hdat & _). rewrite Ed. pose proof (data_lawful h0 tok0 Hin0) as L0.
    destruct (w_status_ok _ _ Hd0) as (s & -> & Hok). cbn [rbind]. unfold SaveError. rewrite Hok, andb_false_r. cbn [env_ with_handle].
    destruct (delete_ok h0 tok0 d0 p e [tok] Hdat He) as (e' & -> & He'). cbn [rbind w_Set data_iter_ with_handle]. rewrite Ew. cbn [rbind].
    eexists. split; [done|]. by split_and!.
Qed.

Lemma live_tokens t toks : live t toks -> (length toks <= 1)%nat.
Proof. intros [_ [(_ & _ & ->)|(h & p & _ & tok & -> & _)]]; cbn; lia. Qed.

Lemma InitDataBlock_ok t toks pi : index_at (index_iter_ t) pi -> live t toks -> env_ok (env_ t) toks ->
  exists t' pd, InitDataBlock index data block_function delete t = Ret t' /\ mid t' pi pd /\ (pi = None -> pd = None).
Proof.
  intros Hi Hl He. unfold InitDataBlock. rewrite (w_Valid_ok _ _ Hi). destruct pi as [i|]; cbn [is_Some].
  2: { rewrite bool_decide_false by (by intros [? ?]). destruct (SetDataIterator_none t toks Hl He) as (t' & E1 & H1 & H2 & H3 & H4).
       exists t', None. split; [done|]. split; [|done]. split_and!; [done|by rewrite H4|by exists []]. }
  rewrite bool_decide_true by (by eexists). cbn [negb]. destruct (w_pair _ _ Hi) as (k & h & Ekh & _ & _ & ->). cbn [rbind].
  pose proof (handle_in i k h Ekh) as Hin.
  assert (exists t' pd, (let! (iter, env) := block_function h (env_ t) in SetDataIterator data delete (with_handle t h env) (Some iter)) = Ret t' /\
    mid t' (Some i) pd) as Hnew.
  { destruct (block_ok h (env_ t) toks Hin He (live_tokens t toks Hl)) as (d & e & tok & -> & Hd & He'). cbn [rbind].
    destruct (SetDataIterator_some t toks h tok d e h Hl Hin Hd He') as (t' & -> & H1 & H2 & H3 & H4 & H5). exists t', None. split; [done|].
    split_and!; [done|by rewrite H2|]. exists [tok]. split; [done|]. exists k, h. split; [done|]. by exists tok. }
  assert (forall b : bool, (b = true -> exists pd, mid t (Some i) pd) ->
    exists t' pd, (if b then Ret t else let! (iter, env) := block_function h (env_ t) in SetDataIterator data delete (with_handle t h env) (Some iter)) = Ret t' /\
      mid t' (Some i) pd /\ (Some i = None -> pd = None)) as Hcase.
  { intros [] Hb; [destruct (Hb eq_refl) as (pd & H); by exists t, pd|]. destruct Hnew as (t' & pd & E1 & H). by exists t', pd. }
  apply Hcase. intros E1. destruct Hl as [Hs [(E2 & _)|(h0 & p & Hin0 & tok0 & -> & Eh & Hd0)]]; [by rewrite E2 in E1|].
  pose proof Hd0 as (d0 & Ed & _). rewrite Ed in E1. apply Z.eqb_eq in E1. apply (proj1 (proj2 (slice_compare_spec _ _))) in E1. rewrite Eh in E1. rewrite <- E1 in Eh, Hd0.
  exists p. split_and!; [done|done|]. exists [tok0]. split; [done|]. exists k, h. split; [done|]. by exists tok0.
Qed.

(** Moving the data iterator of the index entry. *)
Lemma move_data t i k h pd pd' (f : IteratorWrapper D -> res (IteratorWrapper D)) :
  mid t (Some i) pd -> index_kvs !! i = Some (k, h) ->
  (forall tok, data_at h tok (data_iter_ t) pd -> exists w, f (data_iter_ t) = Ret w /\ data_at h tok w pd') ->
  exists w, f (data_iter_ t) = Ret w /\ is_Some (iter_ (data_iter_ t)) /\ mid (with_data t w) (Some i) pd'.
Proof.
  intros (Hs & Hi & toks & He & k' & h' & Ekh & tok & -> & Eh & Hd) E1 Hf. rewrite E1 in Ekh. injection Ekh as <- <-.
  destruct (Hf tok Hd) as (w & -> & Hw). exists w. split; [done|]. destruct Hd as (d & -> & _). split; [by eexists|].
  split_and!; [done|done|]. exists [tok]. split; [done|]. exists k, h. split; [done|]. by exists tok.
Qed.

Lemma mid_entry t i pd : mid t (Some i) pd -> exists k h, index_kvs !! i = Some (k, h).
Proof. intros (_ & _ & toks & _ & k & h & E1 & _). by exists k, h. Qed.

(** ** Over empty blocks *)

(** The position in a block where [start] goes. *)
Definition starts (start : IteratorWrapper D -> res (IteratorWrapper D)) (at_start : pairs -> option nat) : Prop :=
  forall h tok w p, h ∈ map snd index_kvs -> data_at h tok w p -> exists w', start w = Ret w' /\ data_at h tok w' (at_start (contents h)).

Lemma start_data t pi pd start at_start : mid t pi pd -> (pi = None -> pd = None) -> starts start at_start ->
  exists t' pd', if_data start t = Ret t' /\ mid t' pi pd' /\
    match pi with Some i => forall k h, index_kvs !! i = Some (k, h) -> pd' = at_start (contents h) | None => pd' = None end.
Proof.
  intros H Hn Hst. unfold if_data. destruct pi as [i|].
  - destruct (mid_entry t i pd H) as (k & h & Ekh). destruct (move_data t i k h pd (at_start (contents h)) start H Ekh) as (w & Ew & [d Ed] & Hw).
    { intros tok Hd. apply (Hst h tok _ pd); [by eapply handle_in|done]. }
    rewrite Ed, Ew. cbn [rbind]. exists (with_data t w), (at_start (contents h)). split_and!; [done|done|]. intros k' h' E1. rewrite Ekh in E1. by injection E1 as <- <-.
  - rewrite (Hn eq_refl) in H. pose proof H as (_ & _ & toks & _ & -> & _). exists t, None. split_and!; done.
Qed.

(** A round at the end of a block moves to the next in the direction of [step]. *)
Lemma skip_round_ok t i (step : IteratorWrapper I -> res (IteratorWrapper I)) start at_start pi :
  mid t (Some i) None -> (forall w, index_at w (Some i) -> exists w', step w = Ret w' /\ index_at w' pi) -> starts start at_start ->
  exists t' pd, skip_round index data block_function delete step start t = Ret (inl t') /\ mid t' pi pd /\
    match pi with Some i => forall k h, index_kvs !! i = Some (k, h) -> pd = at_start (contents h) | None => pd = None end.
Proof.
  intros H Hstep Hst. destruct (mid_live _ _ _ H) as (toks & Hl & He). pose proof H as (Hs & Hi & toks0 & _ & k & h & Ekh & tok & _ & _ & Hd).
  unfold skip_round. pose proof (data_lawful h tok (handle_in i k h Ekh)) as L. pose proof Hd as (d & Ed & _). rewrite Ed, (w_Valid_ok _ _ Hd), (w_Valid_ok _ _ Hi).
  rewrite bool_decide_false by (by intros [? ?]). rewrite bool_decide_true by (by eexists). cbn [negb].
  destruct (Hstep _ Hi) as (w & -> & Hw). cbn [rbind].
  destruct (InitDataBlock_ok (with_index t w) toks pi Hw) as (t1 & pd1 & -> & H1 & Hn); [exact Hl|exact He|]. cbn [rbind].
  destruct (start_data t1 pi pd1 start at_start H1 Hn Hst) as (t2 & pd2 & -> & H2 & Hp). cbn [rbind]. by exists t2, pd2.
Qed.

(** The loop stops at a pair, or when the index has ended. *)
Lemma skip_stops t step start pi pd n : (0 < n)%nat -> mid t pi pd -> (pi = None -> pd = None) -> (is_Some pd \/ pi = None) ->
  exists t', loop n (skip_round index data block_function delete step start) t = Ret t' /\ mid t' pi pd.
Proof.
  intros Hfuel H Hn Hstop. destruct n as [|n]; [lia|]. rewrite loop_unfold. unfold skip_round. destruct pi as [i|].
  - destruct Hstop as [[j ->]|]; [|done]. pose proof H as (_ & _ & toks & _ & k & h & Ekh & tok & _ & _ & Hd).
    pose proof (data_lawful h tok (handle_in i k h Ekh)) as L. pose proof Hd as (d & Ed & _). rewrite Ed, (w_Valid_ok _ _ Hd), bool_decide_true by (by eexists).
    cbn [negb rbind]. by exists t.
  - rewrite (Hn eq_refl) in *. destruct (mid_live _ _ _ H) as (toks & Hl & He). pose proof H as (Hs & Hi & toks0 & _ & Ei & _). rewrite Ei, (w_Valid_ok _ _ Hi).
    rewrite bool_decide_false by (by intros [? ?]). cbn [negb]. destruct (SetDataIterator_none t toks Hl He) as (t' & -> & H1 & H2 & H3 & H4). cbn [rbind].
    exists t'. split; [done|]. split_and!; [done|by rewrite H4|by exists []].
Qed.

Lemma mid_at t i j : mid t (Some i) (Some j) -> tl_at t (position all_pairs (base i + j)).
Proof.
  intros H. pose proof H as (_ & _ & toks & _ & k & h & Ekh & tok & _ & _ & Hd). pose proof (data_lawful h tok (handle_in i k h Ekh)) as L.
  destruct (w_pair _ _ Hd) as (k' & v' & Ekv & _). rewrite position_lt by (eapply lookup_lt_Some, all_pairs_lookup; done). by exists i, j.
Qed.

Lemma before_split i k h : index_kvs !! i = Some (k, h) ->
  match last_position (contents h) with Some j => before_position (base (S i)) = Some (base i + j)%nat | None => base (S i) = base i end.
Proof.
  intros E1. rewrite (base_S _ _ _ E1). unfold last_position. destruct (contents h) as [|kv l]; cbn [length]; [lia|].
  rewrite Nat.add_succ_r. cbn. f_equal. lia.
Qed.

Context (fuel_ok : (length index_kvs + 1 < fuel)%nat).

Lemma SkipForward_ok t pi pd : mid t pi pd -> (pi = None -> pd = None) ->
  exists t', SkipEmptyDataBlocksForward index data block_function delete fuel t = Ret t' /\
    tl_at t' (match pi with Some i => position all_pairs (match pd with Some j => base i + j | None => base (S i) end) | None => None end).
Proof.
  intros H Hn. unfold SkipEmptyDataBlocksForward.
  assert (match pi with Some i => length index_kvs - i | None => 0 end + 1 < fuel)%nat as Hfuel by (destruct pi; lia).
  revert H Hn Hfuel. clear fuel_ok. revert t pi pd; induction fuel as [|n IH]; intros t pi pd H Hn Hfuel; [lia|].
  destruct (decide (is_Some pd \/ pi = None)) as [Hstop|Hgo].
  { destruct (skip_stops t (w_Next index) (w_SeekToFirst data) pi pd (S n) ltac:(lia) H Hn Hstop) as (t' & E1 & H').
    exists t'. split; [exact E1|]. destruct pi as [i|]; [|by rewrite (Hn eq_refl) in H']. destruct Hstop as [[j ->]|]; [|done]. by apply mid_at. }
  destruct pi as [i|]; [|tauto]. destruct pd as [j|]; [exfalso; apply Hgo; left; by eexists|]. rewrite loop_unfold.
  destruct (mid_entry t i None H) as (k & h & Ekh). pose proof (lookup_lt_Some _ _ _ Ekh).
  destruct (skip_round_ok t i (w_Next index) (w_SeekToFirst data) (fun kvs => position kvs 0) (position index_kvs (S i)) H) as (t1 & pd1 & -> & H1 & Hp).
  { intros w Hw. by apply w_next. }
  { intros h' tok w p Hin Hw. pose proof (data_lawful h' tok Hin) as L. by apply (w_first w p). }
  cbn [rbind]. destruct (decide (S i < length index_kvs)%nat) as [Hlt|Hge].
  - rewrite position_lt in * by done. destruct (lookup_lt_is_Some_2 _ _ Hlt) as [[k1 h1] E1].
    destruct (IH t1 (Some (S i)) pd1 H1 ltac:(done) ltac:(cbn in *; lia)) as (t' & E2 & H'). exists t'. split; [exact E2|].
    specialize (Hp k1 h1 E1). destruct (decide (length (contents h1) = 0)%nat) as [E0|Hne].
    + rewrite position_ge in Hp by lia. subst pd1. by rewrite (base_S _ _ _ E1), E0, Nat.add_0_r in H'.
    + rewrite position_lt in Hp by lia. subst pd1. by rewrite Nat.add_0_r in H'.
  - rewrite position_ge in H1, Hp by lia. subst pd1. destruct (IH t1 None None H1 ltac:(done) ltac:(cbn in *; lia)) as (t' & E2 & H'). exists t'. split; [exact E2|].
    rewrite (base_end (S i)), position_ge by lia. done.
Qed.

Lemma SkipBackward_ok t pi pd : mid t pi pd -> (pi = None -> pd = None) ->
  exists t', SkipEmptyDataBlocksBackward index data block_function delete fuel t = Ret t' /\
    tl_at t' (match pi with Some i => match pd with Some j => Some (base i + j)%nat | None => before_position (base i) end | None => None end).
Proof.
  intros H Hn. unfold SkipEmptyDataBlocksBackward.
  assert (match pi with Some i => S i | None => 0 end < fuel)%nat as Hfuel.
  { destruct pi as [i|]; [|lia]. destruct (mid_entry t i pd H) as (k & h & E1). apply lookup_lt_Some in E1. lia. }
  revert H Hn Hfuel. clear fuel_ok. revert t pi pd; induction fuel as [|n IH]; intros t pi pd H Hn Hfuel; [lia|].
  destruct (decide (is_Some pd \/ pi = None)) as [Hstop|Hgo].
  { destruct (skip_stops t (w_Prev index) (w_SeekToLast data) pi pd (S n) ltac:(lia) H Hn Hstop) as (t' & E1 & H').
    exists t'. split; [exact E1|]. destruct pi as [i|]; [|by rewrite (Hn eq_refl) in H']. destruct Hstop as [[j ->]|]; [|done]. by exists i, j. }
  destruct pi as [i|]; [|tauto]. destruct pd as [j|]; [exfalso; apply Hgo; left; by eexists|]. rewrite loop_unfold.
  destruct (skip_round_ok t i (w_Prev index) (w_SeekToLast data) last_position (before_position i) H) as (t1 & pd1 & -> & H1 & Hp).
  { intros w Hw. by apply w_prev. }
  { intros h' tok w p Hin Hw. pose proof (data_lawful h' tok Hin) as L. by apply (w_last w p). }
  cbn [rbind]. destruct i as [|i]; cbn [before_position] in *.
  - subst pd1. destruct (IH t1 None None H1 ltac:(done) ltac:(cbn in *; lia)) as (t' & E2 & H'). by exists t'.
  - destruct (mid_entry t1 i pd1 H1) as (k1 & h1 & E1). specialize (Hp k1 h1 E1). pose proof (before_split i k1 h1 E1) as Hb. rewrite <- Hp in Hb.
    destruct (IH t1 (Some i) pd1 H1 ltac:(done) ltac:(cbn in *; lia)) as (t' & E2 & H'). exists t'. split; [exact E2|].
    destruct pd1 as [j|]; rewrite Hb; done.
Qed.

(** ** The operations *)

Lemma kvs_length_lt t i j : mid t (Some i) (Some j) -> exists k h kv, index_kvs !! i = Some (k, h) /\ contents h !! j = Some kv /\ all_pairs !! (base i + j)%nat = Some kv.
Proof.
  clear fuel_ok. intros H. pose proof H as (_ & _ & toks & _ & k & h & Ekh & tok & _ & _ & Hd). pose proof (data_lawful h tok (handle_in i k h Ekh)) as L.
  destruct (w_pair _ _ Hd) as (k' & v' & Ekv & _). exists k, h, (k', v'). split_and!; [done|done|by eapply all_pairs_lookup].
Qed.

(** Moving the index and starting in its block. *)
Lemma index_then t p pi (move : IteratorWrapper I -> res (IteratorWrapper I)) start at_start :
  tl_at t p -> (forall w q, index_at w q -> exists w', move w = Ret w' /\ index_at w' pi) -> starts start at_start ->
  exists w t1 t2 pd, move (index_iter_ t) = Ret w /\ InitDataBlock index data block_function delete (with_index t w) = Ret t1 /\
    if_data start t1 = Ret t2 /\ mid t2 pi pd /\
    match pi with Some i => forall k h, index_kvs !! i = Some (k, h) -> pd = at_start (contents h) | None => pd = None end.
Proof.
  clear fuel_ok. intros H Hmove Hst. assert (exists pi pd, mid t pi pd) as (pi0 & pd0 & H0) by (destruct p; [destruct H as (i & j & H & _)|]; eauto).
  destruct (mid_live _ _ _ H0) as (toks & Hl & He). destruct H0 as (_ & Hi & _). destruct (Hmove _ _ Hi) as (w & Ew & Hw).
  destruct (InitDataBlock_ok (with_index t w) toks pi Hw Hl He) as (t1 & pd1 & E1 & H1 & Hn).
  destruct (start_data t1 pi pd1 start at_start H1 Hn Hst) as (t2 & pd2 & E2 & H2 & Hp). by exists w, t1, t2, pd2.
Qed.

Lemma none_none (pi : option nat) (pd : option nat) (f : nat -> Prop) : match pi with Some i => f i | None => pd = None end -> pi = None -> pd = None.
Proof. by intros H ->. Qed.

Lemma position_start i k h : index_kvs !! i = Some (k, h) -> (i <= length index_kvs)%nat ->
  match position (contents h) 0 with Some j => (base i + j)%nat | None => base (S i) end = base i.
Proof.
  clear fuel_ok. intros E1 _. rewrite (base_S _ _ _ E1). destruct (decide (length (contents h) = 0)%nat).
  - rewrite position_ge by lia. lia.
  - rewrite position_lt by lia. lia.
Qed.

Lemma tl_first t p : tl_at t p -> exists t', tl_SeekToFirst index data block_function delete fuel t = Ret t' /\ tl_at t' (position all_pairs 0).
Proof.
  intros H. unfold tl_SeekToFirst.
  destruct (index_then t p (position index_kvs 0) (w_SeekToFirst index) (w_SeekToFirst data) (fun kvs => position kvs 0) H) as (w & t1 & t2 & pd & -> & E1 & E2 & H2 & Hp).
  { intros w q Hw. by apply (w_first w q). }
  { intros h tok w q Hin Hw. pose proof (data_lawful h tok Hin) as L. by apply (w_first w q). }
  cbn [rbind]. rewrite E1. cbn [rbind]. rewrite E2. cbn [rbind]. pose proof (none_none _ _ _ Hp) as Hn.
  destruct (SkipForward_ok t2 _ pd H2 Hn) as (t' & E3 & H'). exists t'. split; [exact E3|].
  destruct (decide (length index_kvs = 0)%nat) as [E0|Hne].
  - rewrite position_ge in H' by lia. rewrite position_ge; [done|]. rewrite <- (base_end 0) by lia. done.
  - rewrite position_lt in H', Hp by lia. destruct (lookup_lt_is_Some_2 index_kvs 0%nat) as [[k h] E]; [lia|].
    rewrite (Hp k h E) in H'. by rewrite (position_start 0 k h E) in H' by lia.
Qed.

Lemma tl_last t p : tl_at t p -> exists t', tl_SeekToLast index data block_function delete fuel t = Ret t' /\ tl_at t' (last_position all_pairs).
Proof.
  intros H. unfold tl_SeekToLast.
  destruct (index_then t p (last_position index_kvs) (w_SeekToLast index) (w_SeekToLast data) last_position H) as (w & t1 & t2 & pd & -> & E1 & E2 & H2 & Hp).
  { intros w q Hw. by apply (w_last w q). }
  { intros h tok w q Hin Hw. pose proof (data_lawful h tok Hin) as L. by apply (w_last w q). }
  cbn [rbind]. rewrite E1. cbn [rbind]. rewrite E2. cbn [rbind]. pose proof (none_none _ _ _ Hp) as Hn.
  destruct (SkipBackward_ok t2 _ pd H2 Hn) as (t' & E3 & H'). exists t'. split; [exact E3|].
  assert (last_position all_pairs = before_position (length all_pairs)) as ->.
  { unfold last_position, before_position. destruct all_pairs; [done|]. cbn. f_equal. lia. }
  destruct (last_position index_kvs) as [i|] eqn:El.
  - assert (length index_kvs = S i) as En by (unfold last_position in El; destruct index_kvs; [done|]; injection El as <-; cbn; lia).
    destruct (lookup_lt_is_Some_2 index_kvs i) as [[k h] E]; [lia|]. specialize (Hp k h E). pose proof (before_split i k h E) as Hb. rewrite <- Hp in Hb.
    rewrite <- (base_end (S i)) by lia. destruct pd; rewrite Hb; done.
  - assert (length index_kvs = 0)%nat as En by (unfold last_position in El; by destruct index_kvs).
    rewrite <- (base_end 0) by lia. done.
Qed.

Context (sep : separated).

(** The target splits the pairs in the block the index finds. *)
Lemma lower_bound_blocks target : valid target ->
  let i := lower_bound cmp target index_kvs in
  lower_bound cmp target all_pairs =
  match index_kvs !! i with
  | Some (_, h) => (base i + lower_bound cmp target (contents h))%nat
  | None => length all_pairs
  end.
Proof.
  clear fuel_ok. intros Ht i. destruct sep as [Hv Hs].
  assert (forall j k h, index_kvs !! j = Some (k, h) -> (j < i)%nat -> Forall (fun kv => cmp (fst kv) target < 0) (contents h)) as Hbefore.
  { intros j k h E Hj. pose proof (lower_bound_before cmp target index_kvs j k h Hj E) as Hlt. specialize (Hs j j k h k h E E). rewrite Nat.leb_refl in Hs.
    eapply Forall_lookup in Hv as Hk; [|exact E]. eapply Forall_impl; [exact Hs|]. intros kv [Hkv Hle]. by apply (order_le_lt (fst kv) k target). }
  assert (Forall (fun kv => cmp (fst kv) target < 0) (concat (firstn i blocks))) as Hl.
  { apply Forall_concat. apply Forall_lookup. intros j b Eb. apply lookup_take_Some in Eb as [Eb Hj].
    apply list_lookup_fmap_Some in Eb as ([k h] & -> & E). by apply (Hbefore j k h). }
  destruct (index_kvs !! i) as [[k h]|] eqn:E.
  - rewrite (all_pairs_split i k h E). rewrite lower_bound_app.
    rewrite (lower_bound_all _ _ _ Hl), Nat.ltb_irrefl. unfold base. f_equal. rewrite lower_bound_app.
    destruct (Nat.ltb_spec (lower_bound cmp target (contents h)) (length (contents h))) as [|Hge]; [done|].
    pose proof (lower_bound_le cmp target (contents h)). assert (lower_bound cmp target (contents h) = length (contents h)) as -> by lia.
    rewrite lower_bound_none; [lia|].
    pose proof (lower_bound_at cmp target index_kvs k h E) as Hat. eapply Forall_lookup in Hv as Hk; [|exact E].
    apply Forall_concat. apply Forall_lookup. intros j b Eb. rewrite lookup_drop in Eb.
    apply list_lookup_fmap_Some in Eb as ([kj hj] & -> & Ej). specialize (Hs i _ k h kj hj E Ej). destruct (Nat.leb_spec (S i + j) i); [lia|].
    eapply Forall_impl; [exact Hs|]. intros kv [Hkv Hlt]. cbn [fst snd] in *. pose proof (order_flip (fst kv) target Hkv Ht).
    destruct (Z.lt_ge_cases (cmp (fst kv) target) 0); [|done]. pose proof (order_lt_trans k (fst kv) target Hk Hkv Ht). lia.
  - apply lookup_ge_None in E. pose proof (lower_bound_le cmp target index_kvs). fold i in H.
    apply lower_bound_all. unfold all_pairs.
    rewrite firstn_all2 in Hl; [done|]. unfold blocks. rewrite length_fmap. lia.
Qed.

Lemma tl_seek t p target : tl_at t p -> valid target ->
  exists t', tl_Seek index data block_function delete fuel t target = Ret t' /\ tl_at t' (position all_pairs (lower_bound cmp target all_pairs)).
Proof.
  intros H Ht. unfold tl_Seek.
  destruct (index_then t p (position index_kvs (lower_bound cmp target index_kvs)) (fun w => w_Seek index w target) (fun w => w_Seek data w target)
    (fun kvs => position kvs (lower_bound cmp target kvs)) H) as (w & t1 & t2 & pd & -> & E1 & E2 & H2 & Hp).
  { intros w q Hw. by apply (w_seek w q). }
  { intros h tok w q Hin Hw. pose proof (data_lawful h tok Hin) as L. by apply (w_seek w q). }
  cbn [rbind]. rewrite E1. cbn [rbind]. rewrite E2. cbn [rbind]. pose proof (none_none _ _ _ Hp) as Hn.
  destruct (SkipForward_ok t2 _ pd H2 Hn) as (t' & E3 & H'). exists t'. split; [exact E3|]. rewrite (lower_bound_blocks target Ht).
  set (i := lower_bound cmp target index_kvs) in *. destruct (index_kvs !! i) as [[k h]|] eqn:E.
  - rewrite position_lt in H', Hp by (by eapply lookup_lt_Some). rewrite (Hp k h E) in H'. pose proof (lower_bound_le cmp target (contents h)).
    destruct (decide (lower_bound cmp target (contents h) < length (contents h))%nat).
    + by rewrite (position_lt (contents h)) in H' by done.
    + rewrite (position_ge (contents h)) in H' by lia. rewrite (base_S _ _ _ E) in H'. by replace (lower_bound cmp target (contents h)) with (length (contents h)) by lia.
  - apply lookup_ge_None in E. rewrite position_ge in H' by done. by rewrite position_ge.
Qed.

Lemma tl_next t n : tl_at t (Some n) -> exists t', tl_Next index data block_function delete fuel t = Ret t' /\ tl_at t' (position all_pairs (S n)).
Proof.
  intros (i & j & H & ->). destruct (kvs_length_lt t i j H) as (k & h & kv & Ekh & Ekv & _). unfold tl_Next, tl_Valid.
  pose proof H as (_ & _ & toks & _ & k' & h' & Ekh' & tok & _ & _ & Hd). rewrite Ekh in Ekh'. injection Ekh' as <- <-.
  rewrite (w_Valid_ok _ _ Hd), bool_decide_true by (by eexists). cbn [assert_ rbind].
  destruct (move_data t i k h (Some j) (position (contents h) (S j)) (w_Next data) H Ekh) as (w & -> & _ & Hw).
  { intros tok' Hd'. pose proof (data_lawful h tok' (handle_in i k h Ekh)) as L. by apply w_next. }
  cbn [rbind]. destruct (SkipForward_ok _ _ _ Hw ltac:(done)) as (t' & E3 & H'). exists t'. split; [exact E3|]. pose proof (lookup_lt_Some _ _ _ Ekv).
  destruct (decide (S j < length (contents h))%nat).
  - rewrite (position_lt (contents h)) in H' by done. by rewrite Nat.add_succ_r in H'.
  - rewrite (position_ge (contents h)) in H' by lia. rewrite (base_S _ _ _ Ekh) in H'. by replace (S (base i + j)) with (base i + length (contents h))%nat by lia.
Qed.

Lemma tl_prev t n : tl_at t (Some n) -> exists t', tl_Prev index data block_function delete fuel t = Ret t' /\ tl_at t' (before_position n).
Proof.
  intros (i & j & H & ->). destruct (kvs_length_lt t i j H) as (k & h & kv & Ekh & Ekv & _). unfold tl_Prev, tl_Valid.
  pose proof H as (_ & _ & toks & _ & k' & h' & Ekh' & tok & _ & _ & Hd). rewrite Ekh in Ekh'. injection Ekh' as <- <-.
  rewrite (w_Valid_ok _ _ Hd), bool_decide_true by (by eexists). cbn [assert_ rbind].
  destruct (move_data t i k h (Some j) (before_position j) (w_Prev data) H Ekh) as (w & -> & _ & Hw).
  { intros tok' Hd'. pose proof (data_lawful h tok' (handle_in i k h Ekh)) as L. by apply w_prev. }
  cbn [rbind]. destruct (SkipBackward_ok _ _ _ Hw ltac:(done)) as (t' & E3 & H'). exists t'. split; [exact E3|].
  destruct j as [|j]; cbn [before_position] in *; [by rewrite Nat.add_0_r|]. by rewrite Nat.add_succ_r.
Qed.

(** The two-level iterator is lawful over the pairs of all the blocks. *)
Lemma two_level_lawful : LawfulIterator (two_level_iterator index data block_function delete fuel) valid cmp all_pairs tl_at.
Proof.
  split; intros t.
  - intros p H. cbn. destruct p as [n|].
    + destruct H as (i & j & H & ->). pose proof H as (_ & _ & toks & _ & k & h & Ekh & tok & _ & _ & Hd). pose proof (data_lawful h tok (handle_in i k h Ekh)) as L.
      unfold tl_Valid. by rewrite (w_Valid_ok _ _ Hd), !bool_decide_true by (by eexists).
    + destruct H as (_ & _ & toks & _ & Ei & Ev & _). unfold tl_Valid, w_Valid. rewrite Ev, bool_decide_false; [done|]. by intros [? ?].
  - intros n (i & j & H & ->). destruct (kvs_length_lt t i j H) as (k & h & [key value] & Ekh & Ekv & E). exists key, value. split; [done|].
    pose proof H as (_ & _ & toks & _ & k' & h' & Ekh' & tok & _ & _ & Hd). rewrite Ekh in Ekh'. injection Ekh' as <- <-. pose proof (data_lawful h tok (handle_in i k h Ekh)) as L.
    cbn. unfold tl_key, tl_value, tl_Valid. rewrite (w_Valid_ok _ _ Hd), bool_decide_true by (by eexists). cbn [assert_ rbind].
    destruct (w_pair _ _ Hd) as (k2 & v2 & E2 & -> & _ & ->). rewrite Ekv in E2. by injection E2 as <- <-.
  - intros p H. cbn. unfold tl_status. assert (exists pi pd, mid t pi pd) as (pi & pd & H0) by (destruct p; [destruct H as (i & j & H & _)|]; eauto).
    destruct H0 as (Hs & (i & Ei & Hi & _) & toks & _ & Hd). rewrite Ei. pose proof (iter_status _ _ Hi) as Hsi. rewrite Hsi. cbn [negb].
    destruct pi as [n|]; [|destruct Hd as (-> & _); done]. destruct Hd as (k & h & Ekh & tok & _ & _ & d & -> & Hd & _).
    pose proof (data_lawful h tok (handle_in n k h Ekh)) as L. pose proof (iter_status _ _ Hd) as Hsd. by rewrite Hsd.
  - intros p H. by apply (tl_first t p).
  - intros p H. by apply (tl_last t p).
  - intros p target H Ht. by apply (tl_seek t p).
  - intros n H. by apply tl_next.
  - intros n H. by apply tl_prev.
Qed.

Lemma new_two_level_ok i e : iat i None -> env_ok e [] ->
  exists t, new_two_level (D := D) index i e = Ret t /\ tl_at t None.
Proof.
  intros Hi He. unfold new_two_level. cbn [w_Set]. destruct (Update_ok new_wrapper i None Hi) as (w & -> & Hw). cbn [rbind].
  eexists. split; [done|]. split_and!; [done|done|]. exists []. by split_and!.
Qed.

End Spec.
