(* ===== verification/LdbMerger.v ===== *)
(** * LevelDB: the merging iterator (table/merger.h, table/merger.cc)

    An iterator over several iterators at once, which may change its direction at
    every step; when the keys of its children differ it is lawful over all their
    pairs in order. *)
From S2P Require Import Prelude LdbStatus LdbOrder LdbKeys LdbIterator.
From Stdlib Require Import ZArith Lia.
From stdpp Require Import base tactics numbers list sorting.
#[local] Open Scope Z_scope.

(** ** Definitions *)

Inductive Direction := kForward | kReverse.

(** [current_] is the index of the child it points to. *)
Record MergingIterator (C : Type) := mk_merging {
  children_ : list (IteratorWrapper C);
  current_ : option nat;
  direction_ : Direction;
}.
Arguments mk_merging {C} _ _ _.
Arguments children_ {C} _.
Arguments current_ {C} _.
Arguments direction_ {C} _.

Section Merging.
Context {C : Type} (it : Iterator C) (comparator_ : Comparator).

Abbreviation W := (IteratorWrapper C).
Abbreviation M := (MergingIterator C).

(** A loop over the children, with their indices from [i] on. *)
Fixpoint each (f : nat -> W -> res W) (i : nat) (children : list W) : res (list W) :=
  match children with
  | [] => Ret []
  | child :: children =>
      let! child := f i child in
      let! children := each f (S i) children in
      Ret (child :: children)
  end.

Definition child_at (children : list W) (i : nat) : res W :=
  match children !! i with Some child => Ret child | None => UB end.

(** [children_[i].Set(children[i])] for every child. *)
Fixpoint wrap_children (children : list C) : res (list W) :=
  match children with
  | [] => Ret []
  | child :: children =>
      let! w := w_Set it new_wrapper (Some child) in
      let! ws := wrap_children children in
      Ret (w :: ws)
  end.

Definition new_merging (children : list C) : res M :=
  let! children := wrap_children children in Ret (mk_merging children None kForward).

(** The best valid child in the order given, the first of several. *)
Fixpoint find_child (better : Z -> bool) (children : list W) (order : list nat) (best : option nat) : res (option nat) :=
  match order with
  | [] => Ret best
  | i :: order =>
      let! child := child_at children i in
      if w_Valid child then
        match best with
        | None => find_child better children order (Some i)
        | Some b =>
            let! key := w_key child in
            let! best_child := child_at children b in
            let! best_key := w_key best_child in
            let! r := Compare comparator_ key best_key in
            find_child better children order (if better r then Some i else best)
        end
      else find_child better children order best
  end.

Definition FindSmallest (m : M) : res M :=
  let! smallest := find_child (fun r => r <? 0) (children_ m) (seq 0 (length (children_ m))) None in
  Ret (mk_merging (children_ m) smallest (direction_ m)).

Definition FindLargest (m : M) : res M :=
  let! largest := find_child (fun r => r >? 0) (children_ m) (rev (seq 0 (length (children_ m)))) None in
  Ret (mk_merging (children_ m) largest (direction_ m)).

Definition m_Valid (m : M) : bool := match current_ m with Some _ => true | None => false end.

Definition with_direction (m : M) (d : Direction) : M := mk_merging (children_ m) (current_ m) d.

(** A method of every child, then of one. *)
Definition on_children (m : M) (f : nat -> W -> res W) : res M :=
  let! children := each f 0 (children_ m) in Ret (mk_merging children (current_ m) (direction_ m)).

Definition on_current (m : M) (f : W -> res W) : res M :=
  match current_ m with
  | None => UB
  | Some c =>
      let! child := child_at (children_ m) c in
      let! child := f child in
      Ret (mk_merging (<[c := child]> (children_ m)) (current_ m) (direction_ m))
  end.

Definition m_SeekToFirst (m : M) : res M :=
  let! m := on_children m (fun _ => w_SeekToFirst it) in
  let! m := FindSmallest m in
  Ret (with_direction m kForward).

Definition m_SeekToLast (m : M) : res M :=
  let! m := on_children m (fun _ => w_SeekToLast it) in
  let! m := FindLargest m in
  Ret (with_direction m kReverse).

Definition m_Seek (m : M) (target : list Z) : res M :=
  let! m := on_children m (fun _ child => w_Seek it child target) in
  let! m := FindSmallest m in
  Ret (with_direction m kForward).

Definition current_child (m : M) : res W := match current_ m with None => UB | Some c => child_at (children_ m) c end.

Definition m_key (m : M) : res (list Z) :=
  let! _ := assert_ (m_Valid m) in
  let! w := current_child m in
  w_key w.

Definition m_value (m : M) : res (list Z) :=
  let! _ := assert_ (m_Valid m) in
  let! w := current_child m in
  w_value it w.

Definition is_current (m : M) (i : nat) : bool := match current_ m with Some c => (i =? c)%nat | None => false end.

(** What [Next] does with the other children when the direction changes. *)
Definition after_key (key : list Z) (child : W) : res W :=
  let! child := w_Seek it child key in
  let! equal :=
    if w_Valid child then
      let! k := w_key child in
      let! r := Compare comparator_ key k in Ret (r =? 0)
    else Ret false in
  if equal then w_Next it child else Ret child.

Definition before_key (key : list Z) (child : W) : res W :=
  let! child := w_Seek it child key in
  if w_Valid child then w_Prev it child else w_SeekToLast it child.

(** The key does not change while the others move. *)
Definition m_Next (m : M) : res M :=
  let! _ := assert_ (m_Valid m) in
  let! m :=
    match direction_ m with
    | kForward => Ret m
    | kReverse =>
        let! key := m_key m in
        let! m := on_children m (fun i child => if is_current m i then Ret child else after_key key child) in
        Ret (with_direction m kForward)
    end in
  let! m := on_current m (w_Next it) in
  FindSmallest m.

Definition m_Prev (m : M) : res M :=
  let! _ := assert_ (m_Valid m) in
  let! m :=
    match direction_ m with
    | kReverse => Ret m
    | kForward =>
        let! key := m_key m in
        let! m := on_children m (fun i child => if is_current m i then Ret child else before_key key child) in
        Ret (with_direction m kReverse)
    end in
  let! m := on_current m (w_Prev it) in
  FindLargest m.

(** The status of the first child that has failed, or of the last; a child without
    an iterator would be dereferenced. *)
Fixpoint children_status (children : list W) (status : Status) : Status :=
  match children with
  | [] => status
  | child :: children =>
      match iter_ child with
      | Some s => let status := it_status it s in if is_ok status then children_status children status else status
      | None => status
      end
  end.

Definition m_status (m : M) : Status := children_status (children_ m) status_ok.

Definition merging_iterator : Iterator M :=
  mk_iterator m_Valid m_SeekToFirst m_SeekToLast m_Seek m_Next m_Prev m_key m_value m_status.

(** An empty iterator, the only child, or a merging iterator. *)
Definition any_merging : Iterator (Status + (C + M)) := either_iterator EmptyIterator (either_iterator it merging_iterator).

Definition NewMergingIterator (children : list C) : res (Status + (C + M)) :=
  match children with
  | [] => Ret (inl NewEmptyIterator)
  | [child] => Ret (inr (inl child))
  | _ => let! m := new_merging children in Ret (inr (inr m))
  end.

End Merging.

(** ** Cuts of sorted pairs *)

(** How many keys satisfy [P]. *)
Fixpoint count (P : list Z -> bool) (l : pairs) : nat :=
  match l with
  | [] => O
  | kv :: l => if P (fst kv) then S (count P l) else count P l
  end.

Section Cuts.
Context {valid : list Z -> Prop} {cmp : list Z -> list Z -> Z} {order : KeyOrder valid cmp}.

(** Predicates that hold of the lesser keys. *)
Definition downward (P : list Z -> bool) : Prop := forall a b, valid a -> valid b -> cmp a b < 0 -> P b = true -> P a = true.

Definition less_than (k x : list Z) : bool := cmp x k <? 0.
Definition at_most (k x : list Z) : bool := cmp x k <=? 0.

Lemma less_than_downward k : valid k -> downward (less_than k).
Proof. intros Hk a b Ha Hb Hab H. apply Z.ltb_lt in H. apply Z.ltb_lt. by apply (order_lt_trans a b k). Qed.

Lemma at_most_downward k : valid k -> downward (at_most k).
Proof. intros Hk a b Ha Hb Hab H. apply Z.leb_le in H. apply Z.leb_le. pose proof (order_lt_le a b k Ha Hb Hk Hab H). lia. Qed.

Lemma count_none P (l : pairs) : Forall (fun kv => P (fst kv) = false) l -> count P l = 0%nat.
Proof. induction 1 as [|kv l H _ IH]; cbn; [done|]. by rewrite H. Qed.

Lemma count_ext P Q (l : pairs) : Forall (fun kv => P (fst kv) = Q (fst kv)) l -> count P l = count Q l.
Proof. induction 1 as [|kv l H _ IH]; cbn; [done|]. by rewrite H, IH. Qed.

Lemma count_all l : count (fun _ => true) l = length l.
Proof. induction l as [|kv l IH]; cbn; [done|]. by rewrite IH. Qed.

(** The pairs that satisfy a downward predicate are the first ones. *)
Lemma count_lookup P (l : pairs) i kv : sorted valid cmp (map fst l) -> downward P -> l !! i = Some kv -> P (fst kv) = (i <? count P l)%nat.
Proof.
  intros Hs HP. revert i; induction l as [|x l IH]; intros i; [done|]. cbn [map] in Hs. apply sorted_cons in Hs as (Hx & Hlt & Hs). specialize (IH Hs). cbn [count].
  destruct (P (fst x)) eqn:Ex.
  - destruct i as [|i]; cbn [lookup list_lookup]; [by intros [= <-]|]. intros E. rewrite (IH i E). done.
  - assert (Forall (fun kv => P (fst kv) = false) l) as Hall.
    { apply Forall_forall. intros y Hy. assert (fst y ∈ map fst l) as Hin by (apply list_elem_of_fmap; by exists y).
      eapply Forall_forall in Hlt; [|exact Hin]. destruct Hs as [_ Hv]. eapply Forall_forall in Hv; [|exact Hin]. cbn in Hlt, Hv.
      destruct (P (fst y)) eqn:Ey; [|done]. by rewrite (HP (fst x) (fst y)) in Ex. }
    rewrite (count_none P l Hall). destruct i as [|i]; cbn [lookup list_lookup]; [by intros [= <-]|]. intros E. eapply Forall_lookup in Hall; [|exact E]. done.
Qed.

Lemma count_le P l : (count P l <= length l)%nat.
Proof. induction l as [|kv l IH]; cbn; [done|]. destruct (P _); lia. Qed.

Lemma sorted_pair_valid (l : pairs) kv : sorted valid cmp (map fst l) -> kv ∈ l -> valid (fst kv).
Proof. intros [_ Hv] H. eapply Forall_forall in Hv; [exact Hv|]. apply list_elem_of_fmap. by exists kv. Qed.

Lemma sorted_lookup_lt (l : pairs) i j x y : sorted valid cmp (map fst l) -> l !! i = Some x -> l !! j = Some y -> (i < j)%nat -> cmp (fst x) (fst y) < 0.
Proof.
  revert i j; induction l as [|z l IH]; intros i j Hs; [done|]. cbn [map] in Hs. apply sorted_cons in Hs as (Hz & Hlt & Hs).
  destruct j as [|j]; [lia|]. destruct i as [|i]; cbn; [intros [= <-] Hj _|intros Hi Hj Hij; apply (IH i j); (done || lia)].
  eapply Forall_forall in Hlt; [exact Hlt|]. apply list_elem_of_fmap. exists y. split; [done|]. by eapply list_elem_of_lookup_2.
Qed.

(** Keys that compare equal are those of the same pair. *)
Lemma sorted_same (l : pairs) x y : sorted valid cmp (map fst l) -> x ∈ l -> y ∈ l -> cmp (fst x) (fst y) = 0 -> x = y.
Proof.
  intros Hs Hx Hy H. pose proof (sorted_pair_valid l x Hs Hx) as Hvx. pose proof (sorted_pair_valid l y Hs Hy) as Hvy.
  apply list_elem_of_lookup in Hx as [i Hi]. apply list_elem_of_lookup in Hy as [j Hj]. pose proof (order_flip (fst x) (fst y) Hvx Hvy).
  destruct (Nat.lt_trichotomy i j) as [Hij|[->|Hij]].
  - pose proof (sorted_lookup_lt l i j x y Hs Hi Hj Hij). lia.
  - rewrite Hi in Hj. by injection Hj.
  - pose proof (sorted_lookup_lt l j i y x Hs Hj Hi Hij). lia.
Qed.

Lemma count_less_than (l : pairs) i key v : sorted valid cmp (map fst l) -> l !! i = Some (key, v) -> count (less_than key) l = i /\ count (at_most key) l = S i.
Proof.
  intros Hs E. pose proof (list_elem_of_lookup_2 _ _ _ E) as Hin. pose proof (sorted_pair_valid l _ Hs Hin) as Hk. cbn in Hk.
  pose proof (count_lookup _ l i _ Hs (less_than_downward key Hk) E) as H1. pose proof (count_lookup _ l i _ Hs (at_most_downward key Hk) E) as H2.
  cbn [fst] in *. unfold less_than in H1 at 1. unfold at_most in H2 at 1. rewrite (order_refl key Hk) in *. cbn in H1, H2. symmetry in H1, H2. apply Nat.ltb_ge in H1. apply Nat.ltb_lt in H2.
  pose proof (count_le (less_than key) l). pose proof (count_le (at_most key) l). pose proof (lookup_lt_Some _ _ _ E). split.
  - destruct (decide (count (less_than key) l = i)) as [|Hne]; [done|]. destruct i as [|i]; [lia|].
    destruct (lookup_lt_is_Some_2 l i) as [x Ex]; [lia|]. pose proof (count_lookup _ l i x Hs (less_than_downward key Hk) Ex) as Hcut.
    pose proof (sorted_lookup_lt l i (S i) x _ Hs Ex E ltac:(lia)) as Hlt. unfold less_than in Hcut at 1. cbn [fst] in Hlt.
    rewrite (proj2 (Z.ltb_lt _ _) Hlt) in Hcut. symmetry in Hcut. apply Nat.ltb_lt in Hcut. lia.
  - destruct (decide (count (at_most key) l = S i)) as [|Hne]; [done|].
    destruct (lookup_lt_is_Some_2 l (S i)) as [x Ex]; [lia|]. pose proof (count_lookup _ l (S i) x Hs (at_most_downward key Hk) Ex) as Hcut.
    pose proof (sorted_lookup_lt l i (S i) _ x Hs E Ex ltac:(lia)) as Hlt. cbn [fst] in Hlt. pose proof (sorted_pair_valid l x Hs (list_elem_of_lookup_2 _ _ _ Ex)) as Hx.
    pose proof (order_flip key (fst x) Hk Hx). unfold at_most in Hcut at 1. destruct (Z.leb_spec (cmp (fst x) key) 0); [lia|]. symmetry in Hcut. apply Nat.ltb_ge in Hcut. lia.
Qed.

Lemma lower_bound_count target (l : pairs) : sorted valid cmp (map fst l) -> valid target -> lower_bound cmp target l = count (less_than target) l.
Proof.
  intros Hs Ht. induction l as [|[k v] l IH]; [done|]. cbn [map fst] in Hs. apply sorted_cons in Hs as (Hk & Hlt & Hs). cbn [lower_bound count fst].
  unfold less_than at 1. destruct (Z.ltb_spec (cmp k target) 0); [by rewrite IH|]. symmetry. apply count_none. apply Forall_forall. intros x Hx.
  pose proof (sorted_pair_valid l x Hs Hx) as Hvx. assert (fst x ∈ map fst l) as Hin by (apply list_elem_of_fmap; by exists x).
  eapply Forall_forall in Hlt; [|exact Hin]. cbn in Hlt. unfold less in Hlt. apply Z.ltb_ge.
  destruct (Z.lt_ge_cases (cmp (fst x) target) 0); [|done]. pose proof (order_lt_trans k (fst x) target Hk Hvx Ht). lia.
Qed.

End Cuts.

(** ** The merging iterator over the merged pairs *)

Section Spec.
Context {C : Type} {it : Iterator C} {comparator : Comparator}.
Context {valid : list Z -> Prop} {cmp : list Z -> list Z -> Z} {laws : ComparatorLaws comparator valid cmp}.

(** The pairs of the children, and all of them in order. *)
Context (ks : list pairs) (kvs : pairs).
Context {cat : nat -> C -> option nat -> Prop} {lawful : forall c kc, ks !! c = Some kc -> LawfulIterator it valid cmp kc (cat c)}.
Context (merged : sorted valid cmp (map fst kvs)) (all : kvs ≡ₚ concat ks) (each_sorted : Forall (fun kc => sorted valid cmp (map fst kc)) ks).

Abbreviation W := (IteratorWrapper C).
Abbreviation M := (MergingIterator C).

Lemma child_sorted c kc : ks !! c = Some kc -> sorted valid cmp (map fst kc).
Proof. intros H. by eapply Forall_lookup in each_sorted; [|exact H]. Qed.

Lemma child_in c kc kv : ks !! c = Some kc -> kv ∈ kc -> kv ∈ kvs.
Proof. intros H Hk. rewrite all. apply list_elem_of_In, in_concat. exists kc. split; apply list_elem_of_In; [by eapply list_elem_of_lookup_2|done]. Qed.

Lemma in_child kv : kv ∈ kvs -> exists c kc j, ks !! c = Some kc /\ kc !! j = Some kv.
Proof.
  rewrite all. intros H%list_elem_of_In%in_concat. destruct H as (kc & Hc & Hk). apply list_elem_of_In, list_elem_of_lookup in Hc as [c Hc].
  apply list_elem_of_In, list_elem_of_lookup in Hk as [j Hj]. by exists c, kc, j.
Qed.

(** No pair belongs to two children. *)
Lemma one_child c kc c' kc' kv : ks !! c = Some kc -> ks !! c' = Some kc' -> kv ∈ kc -> kv ∈ kc' -> c = c'.
Proof.
  assert (NoDup (concat ks)) as Hnd.
  { rewrite <- all. apply (NoDup_fmap_1 fst). destruct merged as [Hs Hv]. revert Hs Hv. change (fst <$> kvs) with (map fst kvs).
    induction 1 as [|k l Hs IH Hlt]; intros Hv; constructor; apply Forall_cons in Hv as [Hk Hv].
    - intros Hin. eapply Forall_forall in Hlt; [|exact Hin]. unfold less in Hlt. rewrite (order_refl k Hk) in Hlt. lia.
    - by apply IH. }
  clear merged all each_sorted lawful cat. revert c c'; induction ks as [|k l IH]; intros c c'; [done|]. cbn [concat] in Hnd. apply NoDup_app in Hnd as (_ & Hd & Hnd).
  assert (forall c kc, l !! c = Some kc -> kv ∈ kc -> kv ∈ concat l) as Hin.
  { intros d kd Hd' Hk. apply list_elem_of_In, in_concat. exists kd. split; apply list_elem_of_In; [by eapply list_elem_of_lookup_2|done]. }
  destruct c as [|c], c' as [|c']; cbn; intros E1 E2 H1 H2; [done| | |].
  - injection E1 as ->. exfalso. apply (Hd kv H1). by eapply Hin.
  - injection E2 as ->. exfalso. apply (Hd kv H2). by eapply Hin.
  - f_equal. by apply (IH Hnd c c').
Qed.

(** *** The children at positions *)

Definition placed (children : list W) (pos : nat -> pairs -> option nat) : Prop :=
  length children = length ks /\
  forall c w kc, children !! c = Some w -> ks !! c = Some kc -> w_at (kvs := kc) (at_ := cat c) w (pos c kc).

Lemma placed_child children pos c kc : placed children pos -> ks !! c = Some kc ->
  exists w, children !! c = Some w /\ child_at children c = Ret w /\ w_at (kvs := kc) (at_ := cat c) w (pos c kc).
Proof.
  intros [Hl H] E. destruct (lookup_lt_is_Some_2 children c) as [w Ew]; [rewrite Hl; by eapply lookup_lt_Some|].
  exists w. unfold child_at. rewrite Ew. split_and!; [done|done|by apply H].
Qed.

Lemma placed_ext children pos pos' : placed children pos -> (forall c kc, ks !! c = Some kc -> pos c kc = pos' c kc) -> placed children pos'.
Proof. intros [Hl H] E. split; [done|]. intros c w kc Ew Ek. rewrite <- E by done. by apply H. Qed.

Lemma each_ok children pos pos' f : placed children pos ->
  (forall c w kc, ks !! c = Some kc -> w_at (kvs := kc) (at_ := cat c) w (pos c kc) -> exists w', f c w = Ret w' /\ w_at (kvs := kc) (at_ := cat c) w' (pos' c kc)) ->
  exists children', each f 0 children = Ret children' /\ placed children' pos'.
Proof.
  intros [Hl H] Hf.
  assert (forall n ws, (forall i w kc, ws !! i = Some w -> ks !! (n + i)%nat = Some kc -> w_at (kvs := kc) (at_ := cat (n + i)) w (pos (n + i)%nat kc)) ->
    (n + length ws <= length ks)%nat ->
    exists ws', each f n ws = Ret ws' /\ length ws' = length ws /\
      forall i w kc, ws' !! i = Some w -> ks !! (n + i)%nat = Some kc -> w_at (kvs := kc) (at_ := cat (n + i)) w (pos' (n + i)%nat kc)) as Hn.
  { intros n ws; revert n; induction ws as [|w ws IH]; intros n Hw Hlen; [by exists []|]. cbn [each length] in *.
    destruct (lookup_lt_is_Some_2 ks n) as [kc Ek]; [lia|]. specialize (Hw 0%nat w kc) as Hw0. rewrite Nat.add_0_r in Hw0.
    destruct (Hf n w kc Ek (Hw0 eq_refl Ek)) as (w' & -> & Hw'). cbn [rbind].
    destruct (IH (S n)) as (ws' & -> & El & Hws'); [|lia|].
    { intros i w2 k2 E1 E2. rewrite Nat.add_succ_comm in *. by apply Hw. }
    cbn [rbind]. exists (w' :: ws'). split_and!; [done|cbn; lia|]. intros [|i] w2 k2 E1 E2.
    - rewrite Nat.add_0_r in *. injection E1 as <-. rewrite Ek in E2. by injection E2 as <-.
    - cbn in E1. rewrite <- Nat.add_succ_comm in *. by apply Hws'. }
  destruct (Hn 0%nat children H ltac:(lia)) as (ws' & E & El & Hw). exists ws'. split; [done|]. split; [lia|exact Hw].
Qed.

(** The key of a child, when it is at a pair. *)
Definition key_of (pos : nat -> pairs -> option nat) (c : nat) : option (list Z) :=
  match ks !! c with Some kc => match pos c kc with Some j => fst <$> kc !! j | None => None end | None => None end.

Lemma key_of_child children pos c w kc : placed children pos -> ks !! c = Some kc -> children !! c = Some w ->
  w_Valid w = bool_decide (is_Some (key_of pos c)) /\
  forall k, key_of pos c = Some k -> w_key w = Ret k /\ valid k /\ exists i v, pos c kc = Some i /\ kc !! i = Some (k, v).
Proof.
  intros [_ H] Ek Ew. specialize (H c w kc Ew Ek). pose proof (lawful c kc Ek) as L. unfold key_of. rewrite Ek, (w_Valid_ok _ _ H).
  destruct (pos c kc) as [i|]; [|split; [by rewrite !bool_decide_false by (by intros [? ?])|done]].
  destruct (w_pair _ _ H) as (k & v & E & Ekey & _ & _). rewrite E. cbn. split; [done|].
  intros k' [= <-]. split_and!; [done| |by exists i, v]. by apply (sorted_pair_valid kc (k, v) (child_sorted c kc Ek)); eapply list_elem_of_lookup_2.
Qed.

(** The search finds a best key. *)
Lemma find_child_ok children pos (better : Z -> bool) (le : list Z -> list Z -> Prop) order best :
  placed children pos ->
  (forall a b, valid a -> valid b -> if better (cmp a b) then le a b else le b a) ->
  (forall a b c, valid a -> valid b -> valid c -> le a b -> le b c -> le a c) ->
  (forall i, i ∈ order -> (i < length ks)%nat) ->
  (forall b, best = Some b -> (b < length ks)%nat /\ is_Some (key_of pos b)) ->
  exists r, find_child comparator better children order best = Ret r /\
    match r with
    | Some b => exists k, key_of pos b = Some k /\ (b < length ks)%nat /\
        forall i k', i ∈ order \/ best = Some i -> key_of pos i = Some k' -> le k k'
    | None => best = None /\ forall i, i ∈ order -> key_of pos i = None
    end.
Proof.
  intros Hp Hbetter Htrans. assert (forall a, valid a -> le a a) as Hrefl by (intros a Ha; specialize (Hbetter a a Ha Ha); by destruct (better _)).
  revert best; induction order as [|i order IH]; intros best Ho Hb; cbn [find_child].
  { exists best. split; [done|]. destruct best as [b|]; [|split; [done|]; by intros i ?%elem_of_nil]. destruct (Hb b eq_refl) as [Hlt [k Ek]]. exists k. split_and!; [done|done|].
    intros i k' [?%elem_of_nil|[= <-]] E; [done|]. rewrite Ek in E. injection E as <-. apply Hrefl.
    destruct (lookup_lt_is_Some_2 ks b Hlt) as [kc Ekc]. destruct (placed_child _ _ _ _ Hp Ekc) as (w & Ew & _). by apply (key_of_child _ _ _ _ _ Hp Ekc Ew). }
  destruct (lookup_lt_is_Some_2 ks i) as [kc Ekc]; [apply Ho; by left|]. destruct (placed_child _ _ _ _ Hp Ekc) as (w & Ew & -> & _). cbn [rbind].
  destruct (key_of_child _ _ _ _ _ Hp Ekc Ew) as [-> Hkey]. assert (forall j, j ∈ order -> (j < length ks)%nat) as Ho' by (intros j Hj; apply Ho; by right).
  destruct (key_of pos i) as [k|] eqn:Ek; cycle 1.
  { rewrite bool_decide_false by (by intros [? ?]). destruct (IH best Ho' Hb) as (r & -> & Hr). exists r. split; [done|]. destruct r as [b|].
    - destruct Hr as (kb & Eb & Hlt & Hle). exists kb. split_and!; [done|done|]. intros j k' [[->|Hj]%elem_of_cons|Hj] E; [by rewrite Ek in E| |]; apply (Hle j k'); tauto.
    - destruct Hr as [-> Hn]. split; [done|]. intros j [->|Hj]%elem_of_cons; [done|by apply Hn]. }
  rewrite bool_decide_true by (by eexists). destruct (Hkey k eq_refl) as (Hk & Hvk & _). destruct best as [b|]; cycle 1.
  { destruct (IH (Some i) Ho') as (r & -> & Hr); [intros b [= <-]; split; [apply Ho; by left|by rewrite Ek]|]. exists r. split; [done|].
    destruct r as [b|]; [|by destruct Hr]. destruct Hr as (kb & Eb & Hlt & Hle). exists kb. split_and!; [done|done|].
    intros j k' [[->|Hj]%elem_of_cons|Hj] E; [apply (Hle i k'); tauto|apply (Hle j k'); tauto|done]. }
  destruct (Hb b eq_refl) as [Hblt [kb Ekb]]. destruct (lookup_lt_is_Some_2 ks b Hblt) as [kcb Ekcb]. destruct (placed_child _ _ _ _ Hp Ekcb) as (wb & Ewb & -> & _).
  destruct (key_of_child _ _ _ _ _ Hp Ekcb Ewb) as [_ Hkeyb]. destruct (Hkeyb kb Ekb) as (Hkb & Hvkb & _). rewrite Hk. cbn [rbind]. rewrite Hkb. cbn [rbind].
  rewrite (laws_compare k kb) by done. cbn [rbind]. specialize (Hbetter k kb Hvk Hvkb).
  destruct (IH (if better (cmp k kb) then Some i else Some b) Ho') as (r & -> & Hr).
  { destruct (better _); intros b' [= <-]; [split; [apply Ho; by left|by rewrite Ek]|split; [done|by rewrite Ekb]]. }
  exists r. split; [done|]. destruct r as [b'|]; [|by destruct (better _), Hr]. destruct Hr as (kr & Er & Hlt & Hle). exists kr. split_and!; [done|done|].
  assert (valid kr) as Hvr.
  { destruct (lookup_lt_is_Some_2 ks b' Hlt) as [kc' Ekc']. destruct (placed_child _ _ _ _ Hp Ekc') as (w' & Ew' & _). by apply (key_of_child _ _ _ _ _ Hp Ekc' Ew'). }
  intros j k' Hj E. assert (le kr k /\ le kr kb) as [Hrk Hrb].
  { destruct (better (cmp k kb)) eqn:Eb.
    - assert (le kr k) as H1 by (apply (Hle i k); tauto). split; [done|]. by apply (Htrans kr k kb).
    - assert (le kr kb) as H1 by (apply (Hle b kb); tauto). split; [|done]. by apply (Htrans kr kb k). }
  destruct Hj as [[->|Hj]%elem_of_cons|[= <-]]; [rewrite Ek in E; by injection E as <-|apply (Hle j k'); tauto|rewrite Ekb in E; by injection E as <-].
Qed.

(** *** Positions of the merging iterator *)

(** The other children are at the next pair or at the one before. *)
Definition beside (d : Direction) (key : list Z) (kc : pairs) : option nat :=
  match d with
  | kForward => position kc (count (less_than (cmp := cmp) key) kc)
  | kReverse => before_position (count (less_than (cmp := cmp) key) kc)
  end.

Definition m_at (m : M) (p : option nat) : Prop :=
  match p with
  | None => current_ m = None /\ exists pos, placed (children_ m) pos
  | Some n => exists c kc i key v, current_ m = Some c /\ ks !! c = Some kc /\ kc !! i = Some (key, v) /\ kvs !! n = Some (key, v) /\
      placed (children_ m) (fun c' kc' => if (c' =? c)%nat then Some i else beside (direction_ m) key kc')
  end.

Lemma m_at_placed m p : m_at m p -> exists pos, placed (children_ m) pos.
Proof. destruct p; [intros (? & ? & ? & ? & ? & _ & _ & _ & _ & H); by eexists|by intros [_ H]]. Qed.

Lemma merged_key_valid kv : kv ∈ kvs -> valid (fst kv).
Proof. by apply (sorted_pair_valid kvs kv merged). Qed.

(** The pair with the least key that does not satisfy [P] is the next of all. *)
Lemma next_of_all P key v : downward (valid := valid) (cmp := cmp) P -> (key, v) ∈ kvs -> P key = false ->
  (forall kv, kv ∈ kvs -> P (fst kv) = false -> cmp key (fst kv) <= 0) -> kvs !! count P kvs = Some (key, v).
Proof.
  intros HP Hin HPk Hmin. pose proof (merged_key_valid _ Hin) as Hk. cbn in Hk. apply list_elem_of_lookup in Hin as [n En]. pose proof (count_lookup P kvs n _ merged HP En) as Hn.
  cbn [fst] in Hn. rewrite HPk in Hn. symmetry in Hn. apply Nat.ltb_ge in Hn. destruct (decide (count P kvs = n)) as [->|Hne]; [done|]. exfalso.
  destruct (lookup_lt_is_Some_2 kvs (count P kvs)) as [x Ex]; [pose proof (lookup_lt_Some _ _ _ En); lia|].
  pose proof (count_lookup P kvs _ _ merged HP Ex) as Hx. rewrite Nat.ltb_irrefl in Hx. pose proof (list_elem_of_lookup_2 _ _ _ Ex) as Hinx.
  pose proof (sorted_lookup_lt kvs _ n x (key, v) merged Ex En ltac:(lia)) as Hlt. cbn in Hlt. specialize (Hmin x Hinx Hx). pose proof (merged_key_valid x Hinx) as Hvx.
  pose proof (order_flip (cmp := cmp) (fst x) key Hvx Hk). lia.
Qed.

Lemma last_of_all P key v : downward (valid := valid) (cmp := cmp) P -> (key, v) ∈ kvs -> P key = true ->
  (forall kv, kv ∈ kvs -> P (fst kv) = true -> cmp (fst kv) key <= 0) -> exists n, count P kvs = S n /\ kvs !! n = Some (key, v).
Proof.
  intros HP Hin HPk Hmax. pose proof (merged_key_valid _ Hin) as Hk. cbn in Hk. apply list_elem_of_lookup in Hin as [n En]. pose proof (count_lookup P kvs n _ merged HP En) as Hn.
  cbn [fst] in Hn. rewrite HPk in Hn. symmetry in Hn. apply Nat.ltb_lt in Hn. exists n. split; [|done]. destruct (decide (count P kvs = S n)) as [|Hne]; [done|]. exfalso.
  destruct (lookup_lt_is_Some_2 kvs (S n)) as [x Ex]; [pose proof (count_le P kvs); lia|].
  pose proof (count_lookup P kvs _ _ merged HP Ex) as Hx. destruct (Nat.ltb_spec (S n) (count P kvs)); [|lia]. pose proof (list_elem_of_lookup_2 _ _ _ Ex) as Hinx.
  pose proof (sorted_lookup_lt kvs n (S n) (key, v) x merged En Ex ltac:(lia)) as Hlt. cbn in Hlt. specialize (Hmax x Hinx Hx). pose proof (merged_key_valid x Hinx) as Hvx.
  pose proof (order_flip (cmp := cmp) (fst x) key Hvx Hk). lia.
Qed.

Lemma count_zero P l : count P l = 0%nat -> Forall (fun kv => P (fst kv) = false) l.
Proof. induction l as [|kv l IH]; cbn; [done|]. destruct (P (fst kv)) eqn:E; [done|]. intros H. constructor; [done|by apply IH]. Qed.

Lemma count_full P l : count P l = length l -> Forall (fun kv => P (fst kv) = true) l.
Proof. pose proof (count_le P l). induction l as [|kv l IH]; cbn in *; [done|]. pose proof (count_le P l). destruct (P (fst kv)) eqn:E; [|lia]. intros Hc. constructor; [done|apply IH; lia]. Qed.

(** The others are placed beside the key that was found. *)
Lemma count_beside P key v c kc kc' c' : downward (valid := valid) (cmp := cmp) P -> ks !! c = Some kc -> (key, v) ∈ kc -> ks !! c' = Some kc' -> c' <> c ->
  (forall kv, kv ∈ kvs -> P (fst kv) = (if P key then cmp (fst kv) key <=? 0 else cmp (fst kv) key <? 0)) -> count P kc' = count (less_than (cmp := cmp) key) kc'.
Proof.
  intros HP Ek Hkey Ek' Hne Hiff. apply count_ext. apply Forall_forall. intros x Hx. rewrite (Hiff x (child_in c' kc' x Ek' Hx)). unfold less_than.
  destruct (P key); [|done]. destruct (Z.eqb_spec (cmp (fst x) key) 0) as [E|]; [|destruct (Z.leb_spec (cmp (fst x) key) 0), (Z.ltb_spec (cmp (fst x) key) 0); lia || done].
  exfalso. apply Hne. assert (x = (key, v)) as -> by (by apply (sorted_same kvs x (key, v) merged (child_in c' kc' x Ek' Hx) (child_in c kc _ Ek Hkey))).
  by apply (one_child c' kc' c kc (key, v)).
Qed.

(** [P] cuts the pairs just before, or just after, the key found. *)
Lemma cut_at P key v : downward (valid := valid) (cmp := cmp) P -> (key, v) ∈ kvs ->
  (if P key then forall kv, kv ∈ kvs -> P (fst kv) = true -> cmp (fst kv) key <= 0 else forall kv, kv ∈ kvs -> P (fst kv) = false -> cmp key (fst kv) <= 0) ->
  forall kv, kv ∈ kvs -> P (fst kv) = (if P key then cmp (fst kv) key <=? 0 else cmp (fst kv) key <? 0).
Proof.
  intros HP Hin H kv Hkv. pose proof (merged_key_valid _ Hin) as Hk. pose proof (merged_key_valid _ Hkv) as Hvk. cbn in Hk. pose proof (order_flip (cmp := cmp) (fst kv) key Hvk Hk) as Hf.
  assert (cmp (fst kv) key = 0 -> P (fst kv) = P key) as Heq by (intros E; by rewrite (sorted_same kvs kv (key, v) merged Hkv Hin E)).
  pose proof (HP (fst kv) key Hvk Hk) as H1. pose proof (HP key (fst kv) Hk Hvk) as H2.
  destruct (P key), (P (fst kv)) eqn:E; try specialize (H kv Hkv E).
  - by destruct (Z.leb_spec (cmp (fst kv) key) 0); [|lia].
  - destruct (Z.leb_spec (cmp (fst kv) key) 0); [|done]. destruct (Z.eqb_spec (cmp (fst kv) key) 0) as [E0|]; [by specialize (Heq E0)|]. apply H1; [lia|done].
  - destruct (Z.ltb_spec (cmp (fst kv) key) 0); [done|]. destruct (Z.eqb_spec (cmp (fst kv) key) 0) as [E0|]; [by specialize (Heq E0)|]. symmetry. apply H2; [lia|done].
  - by destruct (Z.ltb_spec (cmp (fst kv) key) 0); [lia|].
Qed.

Lemma order_in_range n i : i ∈ seq 0 n <-> (i < n)%nat.
Proof. rewrite list_elem_of_In, in_seq. lia. Qed.

Lemma FindSmallest_ok m P : downward (valid := valid) (cmp := cmp) P -> placed (children_ m) (fun _ kc => position kc (count P kc)) ->
  exists m', FindSmallest comparator m = Ret m' /\ m_at (with_direction m' kForward) (position kvs (count P kvs)) /\ direction_ m' = direction_ m.
Proof.
  intros HP Hp. unfold FindSmallest. pose proof Hp as [Hl _]. rewrite Hl.
  destruct (find_child_ok (children_ m) _ (fun r => r <? 0) (fun a b => cmp a b <= 0) (seq 0 (length ks)) None Hp) as (r & -> & Hr).
  { intros a b Ha Hb. pose proof (order_flip (cmp := cmp) a b Ha Hb). destruct (Z.ltb_spec (cmp a b) 0); lia. }
  { intros a b c Ha Hb Hc. by apply order_trans. }
  { intros i. by rewrite order_in_range. }
  { done. }
  cbn [rbind]. eexists. split; [done|]. split; [|done].
  assert (forall kv c kc j, ks !! c = Some kc -> kc !! j = Some kv -> P (fst kv) = false -> exists x, kc !! count P kc = Some x /\ cmp (fst x) (fst kv) <= 0) as Hfirst.
  { intros kv c kc j Ek Ej HPk. pose proof (child_sorted c kc Ek) as Hs. pose proof (count_lookup P kc j kv Hs HP Ej) as Hj. rewrite HPk in Hj. symmetry in Hj. apply Nat.ltb_ge in Hj.
    destruct (lookup_lt_is_Some_2 kc (count P kc)) as [x Ex]; [pose proof (lookup_lt_Some _ _ _ Ej); lia|]. exists x. split; [done|].
    destruct (decide (count P kc = j)) as [E|]; [rewrite E, Ej in Ex; injection Ex as <-; rewrite (order_refl (fst kv)) by (by apply merged_key_valid, (child_in c kc), list_elem_of_lookup_2 with j); lia|].
    pose proof (sorted_lookup_lt kc _ j x kv Hs Ex Ej ltac:(lia)). lia. }
  destruct r as [c|].
  - destruct Hr as (key & Ekey & Hlt & Hbest). unfold key_of in Ekey. destruct (ks !! c) as [kc|] eqn:Ekc; [|done].
    destruct (position kc (count P kc)) as [i|] eqn:Ei; [|done]. unfold position in Ei. destruct (Nat.ltb_spec (count P kc) (length kc)) as [Hlti|]; [|done]. injection Ei as <-.
    destruct (kc !! count P kc) as [[k v]|] eqn:E; [|done]. injection Ekey as ->. pose proof (child_in c kc _ Ekc (list_elem_of_lookup_2 _ _ _ E)) as Hin.
    assert (P key = false) as HPk by (pose proof (count_lookup P kc _ _ (child_sorted c kc Ekc) HP E) as H; by rewrite Nat.ltb_irrefl in H).
    assert (forall kv, kv ∈ kvs -> P (fst kv) = false -> cmp key (fst kv) <= 0) as Hmin.
    { intros kv Hkv HPkv. destruct (in_child kv Hkv) as (c' & kc' & j & Ekc' & Ej). destruct (Hfirst kv c' kc' j Ekc' Ej HPkv) as (x & Ex & Hx).
      assert (cmp key (fst x) <= 0) as H1.
      { apply (Hbest c'); [left; apply order_in_range; by eapply lookup_lt_Some|]. unfold key_of. rewrite Ekc', position_lt by (by eapply lookup_lt_Some). by rewrite Ex. }
      apply (order_trans (valid := valid) key (fst x) (fst kv)); [by apply (merged_key_valid (key, v))|by apply merged_key_valid, (child_in c' kc'), list_elem_of_lookup_2 with (count P kc')|by apply merged_key_valid|done|done]. }
    pose proof (next_of_all P key v HP Hin HPk Hmin) as En. rewrite position_lt by (by eapply lookup_lt_Some).
    exists c, kc, (count P kc), key, v. split_and!; [done|done|done|done|]. cbn [children_ direction_ with_direction].
    apply (placed_ext _ _ _ Hp). intros c' kc' Ekc'. destruct (Nat.eqb_spec c' c) as [->|Hne].
    + rewrite Ekc in Ekc'. injection Ekc' as <-. by rewrite position_lt.
    + cbn [beside]. f_equal. apply (count_beside P key v c kc kc' c'); try done; [by eapply list_elem_of_lookup_2|]. apply (cut_at P key v); [done|done|]. by rewrite HPk.
  - destruct Hr as [_ Hnone]. rewrite position_ge; [split; [done|by eexists]|]. destruct (decide (length kvs <= count P kvs)%nat) as [|Hge]; [done|]. exfalso.
    destruct (lookup_lt_is_Some_2 kvs (count P kvs)) as [kv Ekv]; [lia|]. pose proof (count_lookup P kvs _ _ merged HP Ekv) as HPk. rewrite Nat.ltb_irrefl in HPk.
    destruct (in_child kv) as (c & kc & j & Ekc & Ej); [by eapply list_elem_of_lookup_2|]. destruct (Hfirst kv c kc j Ekc Ej HPk) as (x & Ex & _).
    specialize (Hnone c ltac:(apply order_in_range; by eapply lookup_lt_Some)). unfold key_of in Hnone. rewrite Ekc, position_lt in Hnone by (by eapply lookup_lt_Some). by rewrite Ex in Hnone.
Qed.

Lemma before_position_Some n i : before_position n = Some i -> n = S i.
Proof. destruct n; [done|]. by intros [= ->]. Qed.

Lemma FindLargest_ok m P : downward (valid := valid) (cmp := cmp) P -> placed (children_ m) (fun _ kc => before_position (count P kc)) ->
  exists m', FindLargest comparator m = Ret m' /\ m_at (with_direction m' kReverse) (before_position (count P kvs)) /\ direction_ m' = direction_ m.
Proof.
  intros HP Hp. unfold FindLargest. pose proof Hp as [Hl _]. rewrite Hl.
  destruct (find_child_ok (children_ m) _ (fun r => r >? 0) (fun a b => cmp b a <= 0) (rev (seq 0 (length ks))) None Hp) as (r & -> & Hr).
  { intros a b Ha Hb. pose proof (order_flip (cmp := cmp) a b Ha Hb). destruct (Z.gtb_spec (cmp a b) 0); lia. }
  { intros a b c Ha Hb Hc H1 H2. by apply (order_trans (valid := valid) c b a). }
  { intros i Hi. rewrite list_elem_of_In, <- in_rev, <- list_elem_of_In in Hi. by apply order_in_range. }
  { done. }
  assert (forall i, (i < length ks)%nat -> i ∈ rev (seq 0 (length ks))) as Hrange.
  { intros i Hi. rewrite list_elem_of_In, <- in_rev, <- list_elem_of_In. by apply order_in_range. }
  cbn [rbind]. eexists. split; [done|]. split; [|done].
  assert (forall kv c kc j, ks !! c = Some kc -> kc !! j = Some kv -> P (fst kv) = true ->
    exists i x, count P kc = S i /\ kc !! i = Some x /\ cmp (fst kv) (fst x) <= 0) as Hlast.
  { intros kv c kc j Ek Ej HPk. pose proof (child_sorted c kc Ek) as Hs. pose proof (count_lookup P kc j kv Hs HP Ej) as Hj. rewrite HPk in Hj. symmetry in Hj. apply Nat.ltb_lt in Hj.
    destruct (count P kc) as [|i] eqn:Ec; [lia|]. pose proof (count_le P kc). destruct (lookup_lt_is_Some_2 kc i) as [x Ex]; [lia|]. exists i, x. split_and!; [done|done|].
    destruct (decide (i = j)) as [->|]; [rewrite Ej in Ex; injection Ex as <-; rewrite (order_refl (fst kv)) by (by apply merged_key_valid, (child_in c kc), list_elem_of_lookup_2 with j); lia|].
    pose proof (sorted_lookup_lt kc j i kv x Hs Ej Ex ltac:(lia)). lia. }
  destruct r as [c|].
  - destruct Hr as (key & Ekey & Hlt & Hbest). unfold key_of in Ekey. destruct (ks !! c) as [kc|] eqn:Ekc; [|done].
    destruct (before_position (count P kc)) as [i|] eqn:Ei; [|done]. apply before_position_Some in Ei.
    destruct (kc !! i) as [[k v]|] eqn:E; [|done]. injection Ekey as ->. pose proof (child_in c kc _ Ekc (list_elem_of_lookup_2 _ _ _ E)) as Hin.
    assert (P key = true) as HPk by (pose proof (count_lookup P kc _ _ (child_sorted c kc Ekc) HP E) as H; cbn [fst] in H; rewrite H; apply Nat.ltb_lt; lia).
    assert (forall kv, kv ∈ kvs -> P (fst kv) = true -> cmp (fst kv) key <= 0) as Hmax.
    { intros kv Hkv HPkv. destruct (in_child kv Hkv) as (c' & kc' & j & Ekc' & Ej). destruct (Hlast kv c' kc' j Ekc' Ej HPkv) as (i' & x & Ei' & Ex & Hx).
      assert (cmp (fst x) key <= 0) as H1.
      { apply (Hbest c'); [left; apply Hrange; by eapply lookup_lt_Some|]. unfold key_of. rewrite Ekc', Ei'. cbn. by rewrite Ex. }
      apply (order_trans (valid := valid) (fst kv) (fst x) key); [by apply merged_key_valid|by apply merged_key_valid, (child_in c' kc'), list_elem_of_lookup_2 with i'|by apply (merged_key_valid (key, v))|done|done]. }
    destruct (last_of_all P key v HP Hin HPk Hmax) as (n & En & Ekv). rewrite En. cbn [before_position].
    exists c, kc, i, key, v. split_and!; [done|done|done|done|]. cbn [children_ direction_ with_direction].
    apply (placed_ext _ _ _ Hp). intros c' kc' Ekc'. destruct (Nat.eqb_spec c' c) as [->|Hne].
    + rewrite Ekc in Ekc'. injection Ekc' as <-. by rewrite Ei.
    + cbn [beside]. f_equal. apply (count_beside P key v c kc kc' c'); try done; [by eapply list_elem_of_lookup_2|]. apply (cut_at P key v); [done|done|]. by rewrite HPk.
  - destruct Hr as [_ Hnone]. assert (count P kvs = 0%nat) as ->; [|split; [done|by eexists]]. destruct (count P kvs) as [|n] eqn:Ec; [done|]. exfalso.
    destruct (lookup_lt_is_Some_2 kvs n) as [kv Ekv]; [pose proof (count_le P kvs); lia|]. pose proof (count_lookup P kvs _ _ merged HP Ekv) as HPk. rewrite Ec in HPk.
    destruct (Nat.ltb_spec n (S n)); [|lia]. destruct (in_child kv) as (c & kc & j & Ekc & Ej); [by eapply list_elem_of_lookup_2|].
    destruct (Hlast kv c kc j Ekc Ej HPk) as (i & x & Ei & Ex & _). specialize (Hnone c ltac:(apply Hrange; by eapply lookup_lt_Some)).
    unfold key_of in Hnone. rewrite Ekc, Ei in Hnone. cbn in Hnone. by rewrite Ex in Hnone.
Qed.

(** *** The operations *)

Lemma move_all m p pos f : m_at m p ->
  (forall c w kc q, ks !! c = Some kc -> w_at (kvs := kc) (at_ := cat c) w q -> exists w', f c w = Ret w' /\ w_at (kvs := kc) (at_ := cat c) w' (pos c kc)) ->
  exists m', on_children m f = Ret m' /\ placed (children_ m') pos.
Proof.
  intros H Hf. destruct (m_at_placed m p H) as [pos0 Hp]. destruct (each_ok (children_ m) pos0 pos f Hp) as (ws & E & Hw).
  { intros c w kc Ek Hw. by apply (Hf c w kc (pos0 c kc)). }
  unfold on_children. rewrite E. cbn [rbind]. by eexists.
Qed.

Lemma m_first m p : m_at m p -> exists m', m_SeekToFirst it comparator m = Ret m' /\ m_at m' (position kvs 0).
Proof.
  intros H. unfold m_SeekToFirst.
  destruct (move_all m p (fun _ kc => position kc 0) (fun _ => w_SeekToFirst it) H) as (m1 & -> & H1).
  { intros c w kc q Ek Hw. pose proof (lawful c kc Ek) as L. by apply (w_first w q). }
  cbn [rbind]. destruct (FindSmallest_ok m1 (fun _ => false)) as (m2 & -> & H2 & _); [done|apply (placed_ext _ _ _ H1); intros c kc _; by rewrite count_none by (by apply Forall_forall)|].
  cbn [rbind]. rewrite count_none in H2 by (by apply Forall_forall). by eexists.
Qed.

Lemma before_length (kc : pairs) : before_position (length kc) = last_position kc.
Proof. destruct kc; [done|]. cbn. f_equal. lia. Qed.

Lemma m_last m p : m_at m p -> exists m', m_SeekToLast it comparator m = Ret m' /\ m_at m' (last_position kvs).
Proof.
  intros H. unfold m_SeekToLast.
  destruct (move_all m p (fun _ kc => last_position kc) (fun _ => w_SeekToLast it) H) as (m1 & -> & H1).
  { intros c w kc q Ek Hw. pose proof (lawful c kc Ek) as L. by apply (w_last w q). }
  cbn [rbind]. destruct (FindLargest_ok m1 (fun _ => true)) as (m2 & -> & H2 & _); [done|apply (placed_ext _ _ _ H1); intros c kc _; by rewrite count_all, before_length|].
  cbn [rbind]. rewrite count_all, before_length in H2. by eexists.
Qed.

Lemma m_seek m p target : m_at m p -> valid target ->
  exists m', m_Seek it comparator m target = Ret m' /\ m_at m' (position kvs (lower_bound cmp target kvs)).
Proof.
  intros H Ht. unfold m_Seek.
  destruct (move_all m p (fun _ kc => position kc (lower_bound cmp target kc)) (fun _ child => w_Seek it child target) H) as (m1 & -> & H1).
  { intros c w kc q Ek Hw. pose proof (lawful c kc Ek) as L. by apply (w_seek w q). }
  cbn [rbind]. destruct (FindSmallest_ok m1 (less_than (cmp := cmp) target)) as (m2 & -> & H2 & _); [by apply less_than_downward| |].
  { apply (placed_ext _ _ _ H1). intros c kc Ek. by rewrite (lower_bound_count (valid := valid)) by (by try apply (child_sorted c)). }
  cbn [rbind]. rewrite (lower_bound_count (valid := valid)) by done. by eexists.
Qed.

(** The current child moved, and the others as they were. *)
Lemma on_current_ok m c kc i (f : W -> res W) pos q : current_ m = Some c -> ks !! c = Some kc ->
  placed (children_ m) (fun c' kc' => if (c' =? c)%nat then Some i else pos kc') ->
  (forall w, w_at (kvs := kc) (at_ := cat c) w (Some i) -> exists w', f w = Ret w' /\ w_at (kvs := kc) (at_ := cat c) w' q) ->
  exists m', on_current m f = Ret m' /\ direction_ m' = direction_ m /\
    placed (children_ m') (fun c' kc' => if (c' =? c)%nat then q else pos kc').
Proof.
  intros Ec Ek Hp Hf. unfold on_current. rewrite Ec. destruct (placed_child _ _ _ _ Hp Ek) as (w & Ew & -> & Hw). rewrite Nat.eqb_refl in Hw. cbn [rbind].
  destruct (Hf w Hw) as (w' & -> & Hw'). cbn [rbind]. eexists. split; [done|]. split; [done|]. destruct Hp as [Hl Hp]. cbn [children_]. split; [by rewrite length_insert|].
  intros c' w2 kc' E1 E2. destruct (Nat.eqb_spec c' c) as [->|Hne].
  - rewrite list_lookup_insert_eq in E1 by (by eapply lookup_lt_Some). injection E1 as <-. rewrite Ek in E2. by injection E2 as <-.
  - rewrite list_lookup_insert_ne in E1 by done. specialize (Hp c' w2 kc' E1 E2). by destruct (Nat.eqb_spec c' c).
Qed.

(** In the other children no key equals that of the current one. *)
Lemma other_keys c kc i key v c' kc' x : ks !! c = Some kc -> kc !! i = Some (key, v) -> ks !! c' = Some kc' -> c' <> c -> x ∈ kc' -> cmp (fst x) key <> 0.
Proof.
  intros Ek E Ek' Hne Hx H0. apply Hne. pose proof (list_elem_of_lookup_2 _ _ _ E) as Hin.
  assert (x = (key, v)) as -> by (by apply (sorted_same kvs x (key, v) merged (child_in c' kc' x Ek' Hx) (child_in c kc _ Ek Hin))).
  by apply (one_child c' kc' c kc (key, v)).
Qed.

Lemma beside_forward c kc i key v c' kc' : ks !! c = Some kc -> kc !! i = Some (key, v) -> ks !! c' = Some kc' -> c' <> c ->
  count (less_than (cmp := cmp) key) kc' = count (at_most (cmp := cmp) key) kc'.
Proof.
  intros Ek E Ek' Hne. apply count_ext. apply Forall_forall. intros x Hx. pose proof (other_keys c kc i key v c' kc' x Ek E Ek' Hne Hx).
  unfold less_than, at_most. destruct (Z.ltb_spec (cmp (fst x) key) 0), (Z.leb_spec (cmp (fst x) key) 0); lia || done.
Qed.

(** Changing the direction puts the other children beside the key. *)
Lemma turned m n d (f : list Z -> W -> res W) : m_at m (Some n) -> direction_ m <> d ->
  (forall c kc i key v c' kc' w q, ks !! c = Some kc -> kc !! i = Some (key, v) -> ks !! c' = Some kc' -> c' <> c ->
    w_at (kvs := kc') (at_ := cat c') w q -> exists w', f key w = Ret w' /\ w_at (kvs := kc') (at_ := cat c') w' (beside d key kc')) ->
  exists m', (let! key := m_key m in
              let! m := on_children m (fun i child => if is_current m i then Ret child else f key child) in Ret (with_direction m d)) = Ret m' /\
    m_at m' (Some n) /\ direction_ m' = d.
Proof.
  intros (c & kc & i & key & v & Ec & Ek & E & En & Hp) Hd Hf.
  destruct (placed_child _ _ _ _ Hp Ek) as (w & Ew & Ech & Hw). rewrite Nat.eqb_refl in Hw. pose proof (lawful c kc Ek) as L.
  destruct (w_pair _ _ Hw) as (k & v' & E' & Ekey & _). rewrite E in E'. injection E' as <- <-.
  unfold m_key, m_Valid, current_child. rewrite Ec. cbn [assert_ rbind]. rewrite Ech. cbn [rbind]. rewrite Ekey. cbn [rbind].
  destruct (each_ok (children_ m) _ (fun c' kc' => if (c' =? c)%nat then Some i else beside d key kc') (fun i child => if is_current m i then Ret child else f key child) Hp) as (ws & Ews & Hws).
  { intros c' w' kc' Ek' Hw'. unfold is_current. rewrite Ec. destruct (Nat.eqb_spec c' c) as [->|Hne]; [by exists w'|]. by eapply (Hf c kc i key v c' kc'). }
  unfold on_children. rewrite Ews. cbn [rbind]. eexists. split; [done|]. split; [|done]. by exists c, kc, i, key, v.
Qed.

Lemma after_key_ok c kc i key v c' kc' w q : ks !! c = Some kc -> kc !! i = Some (key, v) -> ks !! c' = Some kc' -> c' <> c ->
  w_at (kvs := kc') (at_ := cat c') w q -> exists w', after_key it comparator key w = Ret w' /\ w_at (kvs := kc') (at_ := cat c') w' (beside kForward key kc').
Proof.
  intros Ek E Ek' Hne Hw. pose proof (lawful c' kc' Ek') as L. pose proof (merged_key_valid _ (child_in c kc _ Ek (list_elem_of_lookup_2 _ _ _ E))) as Hk. cbn in Hk.
  unfold after_key. destruct (w_seek w q key Hw Hk) as (w1 & -> & H1). cbn [rbind]. rewrite (w_Valid_ok _ _ H1).
  rewrite (lower_bound_count (valid := valid)) in * by (done || by apply (child_sorted c')). exists w1. split; [|done].
  destruct (position kc' (count (less_than key) kc')) as [j|]; [|by rewrite bool_decide_false by (by intros [? ?])].
  rewrite bool_decide_true by (by eexists). destruct (w_pair _ _ H1) as (k & v' & Ekv & -> & _). cbn [rbind].
  pose proof (list_elem_of_lookup_2 _ _ _ Ekv) as Hin. pose proof (merged_key_valid _ (child_in c' kc' _ Ek' Hin)) as Hvk. cbn in Hvk.
  rewrite (laws_compare key k) by done. cbn [rbind]. pose proof (other_keys c kc i key v c' kc' (k, v') Ek E Ek' Hne Hin) as Hne0. cbn in Hne0.
  pose proof (order_flip (cmp := cmp) key k Hk Hvk). by destruct (Z.eqb_spec (cmp key k) 0); [lia|].
Qed.

Lemma before_key_ok c kc i key v c' kc' w q : ks !! c = Some kc -> kc !! i = Some (key, v) -> ks !! c' = Some kc' -> c' <> c ->
  w_at (kvs := kc') (at_ := cat c') w q -> exists w', before_key it key w = Ret w' /\ w_at (kvs := kc') (at_ := cat c') w' (beside kReverse key kc').
Proof.
  intros Ek E Ek' Hne Hw. pose proof (lawful c' kc' Ek') as L. pose proof (merged_key_valid _ (child_in c kc _ Ek (list_elem_of_lookup_2 _ _ _ E))) as Hk. cbn in Hk.
  unfold before_key. destruct (w_seek w q key Hw Hk) as (w1 & -> & H1). cbn [rbind]. rewrite (w_Valid_ok _ _ H1).
  rewrite (lower_bound_count (valid := valid)) in * by (done || by apply (child_sorted c')). cbn [beside]. set (n := count (less_than key) kc') in *.
  destruct (decide (n < length kc')%nat) as [Hlt|Hge].
  - rewrite position_lt in * by done. rewrite bool_decide_true by (by eexists). by apply w_prev.
  - rewrite position_ge in * by lia. rewrite bool_decide_false by (by intros [? ?]). pose proof (count_le (less_than (cmp := cmp) key) kc').
    assert (n = length kc') as -> by (subst n; lia). rewrite before_length. by apply (w_last w1 None).
Qed.

Lemma m_next m n : m_at m (Some n) -> exists m', m_Next it comparator m = Ret m' /\ m_at m' (position kvs (S n)).
Proof.
  intros H. unfold m_Next. assert (m_Valid m = true) as -> by (destruct H as (c & _ & _ & _ & _ & Ec & _); unfold m_Valid; by rewrite Ec). cbn [assert_ rbind].
  assert (exists m1, match direction_ m with
    | kForward => Ret m
    | kReverse =>
        let! key := m_key m in
        let! m := on_children m (fun i child => if is_current m i then Ret child else after_key it comparator key child) in Ret (with_direction m kForward)
    end = Ret m1 /\ m_at m1 (Some n) /\ direction_ m1 = kForward) as (m1 & -> & H1 & Hd).
  { destruct (direction_ m) eqn:Ed; [by exists m|]. apply (turned m n kForward (after_key it comparator) H); [by rewrite Ed|]. intros c kc i key v c' kc' w q Ek E Ek' Hne Hw. by apply (after_key_ok c kc i key v c' kc' w q). }
  clear H m. cbn [rbind]. destruct H1 as (c & kc & i & key & v & Ec & Ek & E & En & Hp). rewrite Hd in Hp. pose proof (lawful c kc Ek) as L.
  pose proof (merged_key_valid _ (list_elem_of_lookup_2 _ _ _ En)) as Hk. cbn in Hk.
  destruct (on_current_ok m1 c kc i (w_Next it) (beside kForward key) (position kc (S i)) Ec Ek Hp) as (m2 & -> & Hd2 & Hp2); [intros w Hw; by apply w_next|]. cbn [rbind].
  destruct (FindSmallest_ok m2 (at_most (cmp := cmp) key)) as (m3 & -> & H3 & Hd3); [by apply at_most_downward| |].
  { apply (placed_ext _ _ _ Hp2). intros c' kc' Ek'. destruct (Nat.eqb_spec c' c) as [->|Hne].
    - rewrite Ek in Ek'. injection Ek' as <-. by destruct (count_less_than kc i key v (child_sorted c kc Ek) E) as [_ ->].
    - cbn [beside]. by rewrite (beside_forward c kc i key v c' kc'). }
  exists m3. split; [done|]. destruct (count_less_than kvs n key v merged En) as [_ Ecnt]. rewrite Ecnt in H3.
  destruct m3 as [ch cu di]. cbn in Hd3, H3. rewrite Hd3, Hd2, Hd. exact H3.
Qed.

Lemma m_prev m n : m_at m (Some n) -> exists m', m_Prev it comparator m = Ret m' /\ m_at m' (before_position n).
Proof.
  intros H. unfold m_Prev. assert (m_Valid m = true) as -> by (destruct H as (c & _ & _ & _ & _ & Ec & _); unfold m_Valid; by rewrite Ec). cbn [assert_ rbind].
  assert (exists m1, match direction_ m with
    | kReverse => Ret m
    | kForward =>
        let! key := m_key m in
        let! m := on_children m (fun i child => if is_current m i then Ret child else before_key it key child) in Ret (with_direction m kReverse)
    end = Ret m1 /\ m_at m1 (Some n) /\ direction_ m1 = kReverse) as (m1 & -> & H1 & Hd).
  { destruct (direction_ m) eqn:Ed; [|by exists m]. apply (turned m n kReverse (before_key it) H); [by rewrite Ed|]. intros c kc i key v c' kc' w q Ek E Ek' Hne Hw. by apply (before_key_ok c kc i key v c' kc' w q). }
  clear H m. cbn [rbind]. destruct H1 as (c & kc & i & key & v & Ec & Ek & E & En & Hp). rewrite Hd in Hp. pose proof (lawful c kc Ek) as L.
  pose proof (merged_key_valid _ (list_elem_of_lookup_2 _ _ _ En)) as Hk. cbn in Hk.
  destruct (on_current_ok m1 c kc i (w_Prev it) (beside kReverse key) (before_position i) Ec Ek Hp) as (m2 & -> & Hd2 & Hp2); [intros w Hw; by apply w_prev|]. cbn [rbind].
  destruct (FindLargest_ok m2 (less_than (cmp := cmp) key)) as (m3 & -> & H3 & Hd3); [by apply less_than_downward| |].
  { apply (placed_ext _ _ _ Hp2). intros c' kc' Ek'. destruct (Nat.eqb_spec c' c) as [->|Hne]; [|done].
    rewrite Ek in Ek'. injection Ek' as <-. by destruct (count_less_than kc i key v (child_sorted c kc Ek) E) as [-> _]. }
  exists m3. split; [done|]. destruct (count_less_than kvs n key v merged En) as [Ecnt _]. rewrite Ecnt in H3.
  destruct m3 as [ch cu di]. cbn in Hd3, H3. rewrite Hd3, Hd2, Hd. exact H3.
Qed.

Lemma children_status_ok children pos : placed children pos -> is_ok (children_status it children status_ok) = true.
Proof.
  intros [Hl H].
  assert (forall n ws status, (forall i w kc, ws !! i = Some w -> ks !! (n + i)%nat = Some kc -> exists p, w_at (kvs := kc) (at_ := cat (n + i)) w p) ->
    (n + length ws <= length ks)%nat -> is_ok status = true -> is_ok (children_status it ws status) = true) as Hn.
  { intros n ws; revert n; induction ws as [|w ws IH]; intros n status Hw Hlen Hs; [done|]. cbn [children_status length] in *.
    destruct (lookup_lt_is_Some_2 ks n) as [kc Ek]; [lia|]. destruct (Hw 0%nat w kc eq_refl) as [p (s & Es & Hat & _)]; [by rewrite Nat.add_0_r|].
    rewrite Nat.add_0_r in Hat. pose proof (lawful n kc Ek) as L. pose proof (iter_status s p Hat) as Hok. rewrite Es, Hok. apply (IH (S n)); [|lia|done].
    intros i w2 k2 E1 E2. rewrite Nat.add_succ_comm in *. by apply Hw. }
  apply (Hn 0%nat); [|lia|done]. intros i w kc Ew Ek. exists (pos i kc). by apply H.
Qed.

(** The merging iterator is lawful over the pairs of its children in order. *)
Lemma merging_lawful : LawfulIterator (merging_iterator it comparator) valid cmp kvs m_at.
Proof.
  split; intros m.
  - intros p H. cbn. unfold m_Valid. destruct p as [n|].
    + destruct H as (c & _ & _ & _ & _ & Ec & _). by rewrite Ec.
    + by destruct H as [-> _].
  - intros n (c & kc & i & key & v & Ec & Ek & E & En & Hp). exists key, v. split; [done|].
    destruct (placed_child _ _ _ _ Hp Ek) as (w & Ew & Ech & Hw). rewrite Nat.eqb_refl in Hw. pose proof (lawful c kc Ek) as L.
    destruct (w_pair _ _ Hw) as (k & v' & E' & Ekey & _ & Ev). rewrite E in E'. injection E' as <- <-.
    cbn. unfold m_key, m_value, m_Valid, current_child. rewrite Ec. cbn [assert_ rbind]. rewrite Ech. cbn [rbind]. done.
  - intros p H. destruct (m_at_placed m p H) as [pos Hp]. by apply (children_status_ok _ pos).
  - intros p H. by apply (m_first m p).
  - intros p H. by apply (m_last m p).
  - intros p target H Ht. by apply (m_seek m p).
  - intros n H. by apply m_next.
  - intros n H. by apply m_prev.
Qed.

Lemma new_merging_ok children : length children = length ks -> (forall c s, children !! c = Some s -> cat c s None) ->
  exists m, new_merging it children = Ret m /\ m_at m None.
Proof.
  intros Hl Hc. unfold new_merging.
  assert (forall n l, (forall i s, l !! i = Some s -> cat (n + i)%nat s None) -> (n + length l <= length ks)%nat ->
    exists ws, wrap_children it l = Ret ws /\ length ws = length l /\
      forall i w kc, ws !! i = Some w -> ks !! (n + i)%nat = Some kc -> w_at (kvs := kc) (at_ := cat (n + i)) w None) as Hn.
  { intros n l; revert n; induction l as [|s l IH]; intros n Hs Hlen; [by exists []|]. cbn [wrap_children length] in *.
    destruct (lookup_lt_is_Some_2 ks n) as [kc Ek]; [lia|]. pose proof (lawful n kc Ek) as L.
    assert (cat n s None) as Hs0 by (rewrite <- (Nat.add_0_r n); by apply Hs). cbn [w_Set].
    destruct (Update_ok new_wrapper s None Hs0) as (w & -> & Hw). cbn [rbind].
    destruct (IH (S n)) as (ws & -> & El & Hws); [|lia|].
    { intros i x Ex. rewrite Nat.add_succ_comm. by apply Hs. }
    cbn [rbind]. exists (w :: ws). split_and!; [done|cbn; lia|]. intros [|i] w2 k2 E1 E2.
    - rewrite Nat.add_0_r in *. injection E1 as <-. rewrite Ek in E2. by injection E2 as <-.
    - cbn in E1. rewrite <- Nat.add_succ_comm in *. by apply Hws. }
  destruct (Hn 0%nat children Hc ltac:(lia)) as (ws & -> & El & Hw). cbn [rbind]. eexists. split; [done|]. split; [done|]. exists (fun _ _ => None). split; [cbn; lia|exact Hw].
Qed.

(** C20. A merging iterator over children with different keys goes over the pairs of all
    of them in order, whatever the sequence of movements and changes of direction. *)
Theorem merging_correct children : length children = length ks -> (forall c s, children !! c = Some s -> cat c s None) ->
  LawfulIterator (merging_iterator it comparator) valid cmp kvs m_at /\ exists m, new_merging it children = Ret m /\ m_at m None.
Proof. intros Hl Hc. split; [exact merging_lawful|by apply new_merging_ok]. Qed.

End Spec.
