(* ===== verification/LdbTableBuilder.v ===== *)
(** * LevelDB: the table builder (include/leveldb/table_builder.h, table/table_builder.cc)

    A table is written to a file block by block: the data blocks, the filter
    block, a block that names it, the index block and the footer. *)
From S2P Require Import Prelude.
From S2P Require Import LdbCoding LdbCrc32c LdbStatus LdbKeys LdbBlock LdbFormat LdbFilterBlock.
From Stdlib Require Import ZArith Lia.
From stdpp Require Import base tactics numbers list strings.
#[local] Open Scope Z_scope.

(** [TableBuilder::Rep].  The filter block keeps the policy it was made with. *)
Record Rep (F : Type) := mk_rep {
  rep_options : Options;
  index_block_options : Options;
  rep_file : F;
  rep_offset : Z;
  rep_status : Status;
  data_block : BlockBuilder;
  index_block : BlockBuilder;
  rep_last_key : list Z;
  num_entries : Z;
  closed : bool;
  filter_block_ : option (FilterPolicy * FilterBlockBuilder);
  pending_index_entry : bool;
  pending_handle : BlockHandle;
  compressed_output : list Z;
}.
Arguments mk_rep {F} _ _ _ _ _ _ _ _ _ _ _ _ _ _.
Arguments rep_options {F} _.
Arguments index_block_options {F} _.
Arguments rep_file {F} _.
Arguments rep_offset {F} _.
Arguments rep_status {F} _.
Arguments data_block {F} _.
Arguments index_block {F} _.
Arguments rep_last_key {F} _.
Arguments num_entries {F} _.
Arguments closed {F} _.
Arguments filter_block_ {F} _.
Arguments pending_index_entry {F} _.
Arguments pending_handle {F} _.
Arguments compressed_output {F} _.

Definition with_interval (o : Options) (n : Z) : Options :=
  mk_options (opt_comparator o) (paranoid_checks o) (block_size o) n (compression o) (filter_policy o).

Section TableBuilder.
Context {F : Type} {W : WritableFile F} (Value : list Z -> Z) (Extend : Z -> list Z -> Z).

Abbreviation R := (Rep F).

(** *** Assignments to members *)

Definition set_file (r : R) (f : F) (s : Status) : R :=
  mk_rep (rep_options r) (index_block_options r) f (rep_offset r) s (data_block r) (index_block r) (rep_last_key r) (num_entries r) (closed r)
    (filter_block_ r) (pending_index_entry r) (pending_handle r) (compressed_output r).
Definition set_offset (r : R) (o : Z) : R :=
  mk_rep (rep_options r) (index_block_options r) (rep_file r) o (rep_status r) (data_block r) (index_block r) (rep_last_key r) (num_entries r) (closed r)
    (filter_block_ r) (pending_index_entry r) (pending_handle r) (compressed_output r).
Definition set_data_block (r : R) (b : BlockBuilder) : R :=
  mk_rep (rep_options r) (index_block_options r) (rep_file r) (rep_offset r) (rep_status r) b (index_block r) (rep_last_key r) (num_entries r) (closed r)
    (filter_block_ r) (pending_index_entry r) (pending_handle r) (compressed_output r).
Definition set_index_block (r : R) (b : BlockBuilder) (last_key : list Z) : R :=
  mk_rep (rep_options r) (index_block_options r) (rep_file r) (rep_offset r) (rep_status r) (data_block r) b last_key (num_entries r) (closed r)
    (filter_block_ r) false (pending_handle r) (compressed_output r).
Definition set_key (r : R) (key : list Z) : R :=
  mk_rep (rep_options r) (index_block_options r) (rep_file r) (rep_offset r) (rep_status r) (data_block r) (index_block r) key (num_entries r + 1) (closed r)
    (filter_block_ r) (pending_index_entry r) (pending_handle r) (compressed_output r).
Definition set_closed (r : R) : R :=
  mk_rep (rep_options r) (index_block_options r) (rep_file r) (rep_offset r) (rep_status r) (data_block r) (index_block r) (rep_last_key r) (num_entries r) true
    (filter_block_ r) (pending_index_entry r) (pending_handle r) (compressed_output r).
Definition set_filter (r : R) (b : option (FilterPolicy * FilterBlockBuilder)) : R :=
  mk_rep (rep_options r) (index_block_options r) (rep_file r) (rep_offset r) (rep_status r) (data_block r) (index_block r) (rep_last_key r) (num_entries r) (closed r)
    b (pending_index_entry r) (pending_handle r) (compressed_output r).
Definition set_pending (r : R) (b : bool) (h : BlockHandle) : R :=
  mk_rep (rep_options r) (index_block_options r) (rep_file r) (rep_offset r) (rep_status r) (data_block r) (index_block r) (rep_last_key r) (num_entries r) (closed r)
    (filter_block_ r) b h (compressed_output r).
Definition set_compressed (r : R) (c : list Z) : R :=
  mk_rep (rep_options r) (index_block_options r) (rep_file r) (rep_offset r) (rep_status r) (data_block r) (index_block r) (rep_last_key r) (num_entries r) (closed r)
    (filter_block_ r) (pending_index_entry r) (pending_handle r) c.

Definition tb_ok (r : R) : bool := is_ok (rep_status r).

(** *** Construction *)

(** The constructors of the blocks and of the filter block, and the first [StartBlock]. *)
Definition new_table_builder (opt : Options) (file : F) : res R :=
  let! data := new_block_builder (block_restart_interval opt) in
  let! index := new_block_builder (block_restart_interval opt) in
  let! filter :=
    match filter_policy opt with
    | None => Ret None
    | Some p => let! b := StartBlock p new_filter_builder 0 in Ret (Some (p, b))
    end in
  Ret (mk_rep opt (with_interval opt 1) file 0 status_ok data index [] 0 false filter false new_handle []).

(** [same] tells whether the two comparators are the same object. *)
Definition ChangeOptions (same : bool) (r : R) (options : Options) : Status * R :=
  if negb same then (InvalidArgument (bytes_of "changing comparator while building table") [], r)
  else
    (status_ok,
     mk_rep options (with_interval options 1) (rep_file r) (rep_offset r) (rep_status r) (data_block r) (index_block r) (rep_last_key r) (num_entries r)
       (closed r) (filter_block_ r) (pending_index_entry r) (pending_handle r) (compressed_output r)).

(** *** Blocks *)

Definition WriteRawBlock (r : R) (block_contents : list Z) (type : Z) : res (BlockHandle * R) :=
  let handle := mk_handle (rep_offset r) (zlen block_contents) in
  let! (s, f) := Append (rep_file r) block_contents in
  let r := set_file r f s in
  if is_ok s then
    let! (s, f) := Append (rep_file r) (block_trailer Value Extend block_contents type) in
    let r := set_file r f s in
    if is_ok s then Ret (handle, set_offset r (u64 (rep_offset r + (zlen block_contents + kBlockTrailerSize))))
    else Ret (handle, r)
  else Ret (handle, r).

(** The [switch] of [WriteBlock]: the contents, the type stored with them and
    [compressed_output].  There is no case for other types. *)
Definition compress (type : Z) (raw compressed : list Z) : list Z * Z * list Z :=
  if type =? kNoCompression then (raw, type, compressed)
  else if type =? kSnappyCompression then
    match Snappy_Compress raw with
    | Some output =>
        if zlen output <? zlen raw - zlen raw / 8 then (output, type, output) else (raw, kNoCompression, output)
    | None => (raw, kNoCompression, compressed)
    end
  else ([], type, compressed).

(** [*handle], the block after [Reset], and the builder. *)
Definition WriteBlock (r : R) (block : BlockBuilder) : res (BlockHandle * BlockBuilder * R) :=
  let! _ := assert_ (tb_ok r) in
  let (raw, block) := builder_Finish block in
  let '(contents, type, compressed) := compress (compression (rep_options r)) raw (compressed_output r) in
  let! (handle, r) := WriteRawBlock (set_compressed r compressed) contents type in
  Ret (handle, builder_Reset block, set_compressed r []).

Definition start_filter (r : R) : res R :=
  match filter_block_ r with
  | None => Ret r
  | Some (p, b) => let! b := StartBlock p b (rep_offset r) in Ret (set_filter r (Some (p, b)))
  end.

Definition tb_Flush (r : R) : res R :=
  let! _ := assert_ (negb (closed r)) in
  if negb (tb_ok r) then Ret r
  else if builder_empty (data_block r) then Ret r
  else
    let! _ := assert_ (negb (pending_index_entry r)) in
    let! (handle, block, r) := WriteBlock r (data_block r) in
    let r := set_pending (set_data_block r block) (pending_index_entry r) handle in
    let! r :=
      if tb_ok r then
        let r := set_pending r true (pending_handle r) in
        let! (s, f) := Flush (rep_file r) in
        Ret (set_file r f s)
      else Ret r in
    start_filter r.

(** The entry of the last block goes to the index under [key]. *)
Definition index_entry (r : R) (key : list Z) : res R :=
  let! handle_encoding := handle_EncodeTo (pending_handle r) [] in
  let! index := builder_Add (opt_comparator (index_block_options r)) (block_restart_interval (index_block_options r)) (index_block r) key handle_encoding in
  Ret (set_index_block r index key).

Definition tb_Add (r : R) (key value : list Z) : res R :=
  let! _ := assert_ (negb (closed r)) in
  if negb (tb_ok r) then Ret r
  else
    let! ordered :=
      if num_entries r >? 0 then let! c := Compare (opt_comparator (rep_options r)) key (rep_last_key r) in Ret (c >? 0) else Ret true in
    let! _ := assert_ ordered in
    let! r :=
      if pending_index_entry r then
        let! _ := assert_ (builder_empty (data_block r)) in
        let! last_key := FindShortestSeparator (opt_comparator (rep_options r)) (rep_last_key r) key in
        index_entry r last_key
      else Ret r in
    let r := match filter_block_ r with None => r | Some (p, b) => set_filter r (Some (p, AddKey b key)) end in
    let r := set_key r key in
    let! data := builder_Add (opt_comparator (rep_options r)) (block_restart_interval (rep_options r)) (data_block r) key value in
    let r := set_data_block r data in
    if CurrentSizeEstimate (data_block r) >=? block_size (rep_options r) then tb_Flush r else Ret r.

(** *** Finishing *)

Definition filter_key (p : FilterPolicy) : list Z := bytes_of "filter." ++ policy_name p.

Definition write_filter (r : R) (handle : BlockHandle) : res (BlockHandle * R) :=
  match filter_block_ r with
  | Some (p, b) =>
      if tb_ok r then
        let! (contents, b) := filter_Finish p b in
        WriteRawBlock (set_filter r (Some (p, b))) contents kNoCompression
      else Ret (handle, r)
  | None => Ret (handle, r)
  end.

(** The policy named is that of the options. *)
Definition write_metaindex (r : R) (filter_handle handle : BlockHandle) : res (BlockHandle * R) :=
  if tb_ok r then
    let! meta := new_block_builder (block_restart_interval (rep_options r)) in
    let! meta :=
      match filter_block_ r with
      | None => Ret meta
      | Some _ =>
          match filter_policy (rep_options r) with
          | None => UB
          | Some p =>
              let! handle_encoding := handle_EncodeTo filter_handle [] in
              builder_Add (opt_comparator (rep_options r)) (block_restart_interval (rep_options r)) meta (filter_key p) handle_encoding
          end
      end in
    let! (handle, _, r) := WriteBlock r meta in
    Ret (handle, r)
  else Ret (handle, r).

Definition write_index (r : R) (handle : BlockHandle) : res (BlockHandle * R) :=
  if tb_ok r then
    let! r :=
      if pending_index_entry r then
        let! last_key := FindShortSuccessor (opt_comparator (rep_options r)) (rep_last_key r) in
        index_entry r last_key
      else Ret r in
    let! (handle, block, r) := WriteBlock r (index_block r) in
    Ret (handle, set_index_block r block (rep_last_key r))
  else Ret (handle, r).

Definition write_footer (r : R) (metaindex index : BlockHandle) : res R :=
  if tb_ok r then
    let! footer_encoding := footer_EncodeTo (mk_footer metaindex index) [] in
    let! (s, f) := Append (rep_file r) footer_encoding in
    let r := set_file r f s in
    if is_ok s then Ret (set_offset r (u64 (rep_offset r + zlen footer_encoding))) else Ret r
  else Ret r.

Definition tb_Finish (r : R) : res (Status * R) :=
  let! r := tb_Flush r in
  let! _ := assert_ (negb (closed r)) in
  let r := set_closed r in
  let! (filter_handle, r) := write_filter r new_handle in
  let! (metaindex_handle, r) := write_metaindex r filter_handle new_handle in
  let! (index_handle, r) := write_index r new_handle in
  let! r := write_footer r metaindex_handle index_handle in
  Ret (rep_status r, r).

Definition Abandon (r : R) : res R :=
  let! _ := assert_ (negb (closed r)) in
  Ret (set_closed r).

Definition NumEntries (r : R) : Z := u64 (num_entries r).
Definition FileSize (r : R) : Z := rep_offset r.

End TableBuilder.
