(* ===== verification/LdbTableLayout.v ===== *)
(** * LevelDB: the layout of a table file

    What a finished table holds: blocks of sorted pairs, an index of separating
    keys and block handles, a block that names the filter block, and the footer.
    The table builder makes such files and the table reader relies on them. *)
From S2P Require Import Prelude WireSpec.
From S2P Require Import LdbCoding LdbCrc32c LdbStatus LdbOrder LdbKeys LdbIterator LdbBlock LdbBlockSpec LdbFormat LdbFilterBlock LdbTableBuilder.
From Stdlib Require Import ZArith Lia.
From stdpp Require Import base tactics numbers list strings.
#[local] Open Scope Z_scope.

(** ** Blocks *)

(** The bytes of a block that holds the pairs. *)
Definition block_layout (kvs : pairs) (data : list Z) : Prop :=
  exists its rs, kvs = map pair_of its /\ data = block_data its rs /\ chained [] its /\ restarts_ok its rs /\ Forall item_fits its /\ zlen data < 2 ^ 32.

Definition pairs_bytes (kvs : pairs) : Prop := Forall (fun kv => Forall is_byte (fst kv) /\ Forall is_byte (snd kv)) kvs.

Lemma varint32_bytes v : is_u32 v -> Forall is_byte (EncodeVarint32 v).
Proof. apply (put_bytes (Coder := varint32_coder)). Qed.

Lemma item_bytes_bytes it : item_fits it -> Forall is_byte (i_key it) -> Forall is_byte (i_value it) -> Forall is_byte (item_bytes it).
Proof.
  intros Hf Hk Hv. destruct (item_fits_u32 it Hf) as (H1 & H2 & H3). unfold item_bytes, header. rewrite !Forall_app.
  split_and!; [by apply varint32_bytes..|by apply Forall_drop|done].
Qed.

Lemma block_layout_bytes kvs data : block_layout kvs data -> pairs_bytes kvs -> Forall is_byte data.
Proof.
  intros (its & rs & -> & -> & _ & _ & Hf & _) Hb. unfold block_data. rewrite !Forall_app. split_and!.
  - unfold items_bytes. apply Forall_concat, Forall_map. unfold pairs_bytes in Hb. rewrite Forall_map in Hb. apply Forall_forall. intros it Hit.
    eapply Forall_forall in Hf; [|exact Hit]. eapply Forall_forall in Hb; [|exact Hit]. destruct Hb. by apply item_bytes_bytes.
  - apply Forall_concat, Forall_map, Forall_forall. intros r _. apply EncodeFixed32_bytes.
  - apply EncodeFixed32_bytes.
Qed.

(** The iterator of some block of the pairs is at a position. *)
Definition layout_of (kvs : pairs) (l : list item * list nat) : Prop :=
  kvs = map pair_of (fst l) /\ chained [] (fst l) /\ restarts_ok (fst l) (snd l) /\ Forall item_fits (fst l) /\ zlen (block_data (fst l) (snd l)) < 2 ^ 32.

Definition pairs_at (kvs : pairs) (s : BlockIter + Status) (p : option nat) : Prop :=
  exists l, layout_of kvs l /\ block_at (fst l) (snd l) s p.

Lemma pairs_at_lawful {comparator valid cmp} {laws : ComparatorLaws comparator valid cmp} kvs :
  sorted valid cmp (map fst kvs) -> LawfulIterator (block_iterator comparator) valid cmp kvs (pairs_at kvs).
Proof.
  intros Hs. apply (lawful_union _ _ _ _ (layout_of kvs) (fun l => block_at (fst l) (snd l))). intros [its rs] (-> & Hc & Hr & Hf & Hd). cbn in *.
  apply block_lawful; try done. by rewrite map_map in Hs.
Qed.

(** Opening the block gives such an iterator. *)
Lemma block_layout_open kvs data : block_layout kvs data ->
  exists blk s, new_block data = Ret blk /\ block_NewIterator blk = Ret s /\ pairs_at kvs s None /\ 1 <= size_ blk < 2 ^ 32.
Proof.
  intros (its & rs & -> & -> & Hc & Hr & Hf & Hs). rewrite (new_block_ok its rs Hr Hs). destruct (NewIterator_ok its rs Hr Hs) as (s & E & H).
  destruct (sizes its rs Hr Hs) as (H1 & _ & H2 & H3). eexists _, s. split; [done|]. split; [done|]. split; [by exists (its, rs)|]. cbn. lia.
Qed.

(** ** Tables *)

(** A data block: its key in the index, its handle and its pairs. *)
Record entry := mk_entry { e_sep : list Z; e_handle : BlockHandle; e_pairs : pairs }.

Definition pairs_of (es : list entry) : pairs := concat (map e_pairs es).

Definition index_pairs (es : list entry) : pairs := map (fun e => (e_sep e, handle_bytes (e_handle e))) es.

Lemma pairs_of_app a b : pairs_of (a ++ b) = pairs_of a ++ pairs_of b.
Proof. unfold pairs_of. by rewrite map_app, concat_app. Qed.

Lemma pairs_of_cons e b : pairs_of (e :: b) = e_pairs e ++ pairs_of b.
Proof. done. Qed.

Section Layout.
Context (Value : list Z -> Z) (Extend : Z -> list Z -> Z) (valid : list Z -> Prop) (cmp : list Z -> list Z -> Z).

(** An uncompressed block with its trailer, at its handle. *)
Definition stored (file : list Z) (h : BlockHandle) (data : list Z) : Prop :=
  exists pre post, file = pre ++ (data ++ block_trailer Value Extend data kNoCompression) ++ post /\
    h = mk_handle (zlen pre) (zlen data) /\ Forall is_byte data.

Definition stored_pairs (file : list Z) (h : BlockHandle) (kvs : pairs) : Prop := exists data, stored file h data /\ block_layout kvs data.

(** Each key in the index is between its block and the pairs behind it. *)
Definition seps_ok (es : list entry) (rest : pairs) : Prop :=
  forall a e b, es = a ++ e :: b ->
    valid (e_sep e) /\ Forall (fun kv => cmp (fst kv) (e_sep e) <= 0) (pairs_of a ++ e_pairs e) /\
    Forall (fun kv => cmp (e_sep e) (fst kv) < 0) (pairs_of b ++ rest).

(** The filter matches every key at the offset of its block; its offsets have 32 bits. *)
Definition filter_good (p : FilterPolicy) (data : list Z) (es : list entry) : Prop :=
  zlen data < 2 ^ 32 -> exists r, new_filter_reader data = Ret r /\
    (forall o key, 0 <= o -> valid key -> exists m, reader_KeyMayMatch p r o key = Ret m) /\
    Forall (fun e => Forall (fun kv => reader_KeyMayMatch p r (offset_ (e_handle e)) (fst kv) = Ret true) (e_pairs e)) es.

Definition meta_layout (policy : option FilterPolicy) (file : list Z) (es : list entry) (meta : pairs) : Prop :=
  match policy with
  | None => meta = []
  | Some p => exists fh fdata, meta = [(filter_key p, handle_bytes fh)] /\ handle_ok fh /\ stored file fh fdata /\ filter_good p fdata es
  end.

Record table_file (policy : option FilterPolicy) (file : list Z) (es : list entry) : Prop := {
  tf_blocks : Forall (fun e => stored_pairs file (e_handle e) (e_pairs e) /\ handle_ok (e_handle e)) es;
  tf_distinct : NoDup (map (fun e => offset_ (e_handle e)) es);
  tf_seps : seps_ok es [];
  tf_sorted : sorted valid cmp (map fst (pairs_of es));
  tf_nonempty : Forall (fun e => e_pairs e <> []) es;
  tf_footer : exists body mh ih meta, file = body ++ footer_bytes (mk_footer mh ih) /\ footer_ok (mk_footer mh ih) /\
    stored_pairs file ih (index_pairs es) /\ stored_pairs file mh meta /\ meta_layout policy file es meta;
}.

Lemma stored_app file more h data : stored file h data -> stored (file ++ more) h data.
Proof. intros (pre & post & -> & -> & Hb). exists pre, (post ++ more). split_and!; [by rewrite <- !app_assoc|done|done]. Qed.

Lemma stored_pairs_app file more h kvs : stored_pairs file h kvs -> stored_pairs (file ++ more) h kvs.
Proof. intros (data & H & Hl). exists data. split; [by apply stored_app|done]. Qed.

Lemma stored_here file data : Forall is_byte data ->
  stored (file ++ data ++ block_trailer Value Extend data kNoCompression) (mk_handle (zlen file) (zlen data)) data.
Proof. intros Hb. exists file, []. by rewrite app_nil_r. Qed.

Lemma stored_before file h data : stored file h data -> 0 <= offset_ h /\ 0 <= hsize_ h /\ offset_ h + hsize_ h + kBlockTrailerSize <= zlen file.
Proof.
  intros (pre & post & -> & -> & _). cbn. rewrite !zlen_app, block_trailer_size. pose proof (zlen_nonneg pre). pose proof (zlen_nonneg post). pose proof (zlen_nonneg data). lia.
Qed.

Lemma stored_handle_ok file h data : stored file h data -> zlen file < 2 ^ 63 -> handle_ok h.
Proof. intros H Hs. apply stored_before in H. unfold handle_ok, no_handle, kBlockTrailerSize in *. lia. Qed.

(** ** Separating keys *)

Context {order : KeyOrder valid cmp}.

Lemma seps_extend es rest kv : seps_ok es rest -> (es = [] \/ rest <> []) -> sorted valid cmp (map fst (rest ++ [kv])) -> seps_ok es (rest ++ [kv]).
Proof.
  intros H Hne Hs a e b E. destruct (H a e b E) as (Hv & H1 & H2). split_and!; [done|done|]. rewrite app_assoc. apply Forall_app. split; [done|]. constructor; [|constructor].
  destruct Hne as [->|Hne]; [by destruct a|]. destruct rest as [|x rest]; [done|]. apply Forall_app in H2 as [_ [Hx _]%Forall_cons].
  cbn [app map] in Hs. apply sorted_cons in Hs as (Hvx & Hlt & Hs). rewrite map_app in Hlt, Hs. apply Forall_app in Hlt as [_ [Hlt _]%Forall_cons].
  destruct Hs as [_ [_ [Hvk _]%Forall_cons]%Forall_app]. by apply (order_lt_trans (e_sep e) (fst x) (fst kv)).
Qed.

(** The pairs before the new entry, its key, and the pair after. *)
Lemma seps_push es e kv : seps_ok es (e_pairs e) -> e_pairs e <> [] -> valid (e_sep e) -> Forall (fun kv => cmp (fst kv) (e_sep e) <= 0) (pairs_of es ++ e_pairs e) ->
  cmp (e_sep e) (fst kv) < 0 -> sorted valid cmp (map fst (e_pairs e ++ [kv])) -> seps_ok (es ++ [e]) [kv].
Proof.
  intros H Hne Hv Hle Hlt Hs a x b E. destruct b as [|y b _] using rev_ind.
  - apply app_inj_tail in E as [-> ->]. split_and!; [done|done|by repeat constructor].
  - rewrite app_comm_cons, app_assoc in E. apply app_inj_tail in E as [E ->]. destruct (H a x b E) as (Hvx & H1 & H2). split_and!; [done|done|].
    rewrite pairs_of_app. unfold pairs_of at 2. cbn [map concat]. rewrite app_nil_r. apply Forall_app. split; [done|]. constructor; [|constructor].
    destruct (e_pairs y) as [|z l]; [done|]. apply Forall_app in H2 as [_ [Hz _]%Forall_cons]. cbn [app map] in Hs. apply sorted_cons in Hs as (Hvz & Hzl & Hs).
    rewrite map_app in Hzl, Hs. apply Forall_app in Hzl as [_ [Hzk _]%Forall_cons]. destruct Hs as [_ [_ [Hvk _]%Forall_cons]%Forall_app].
    by apply (order_lt_trans (e_sep x) (fst z) (fst kv)).
Qed.

Lemma seps_last es e : seps_ok es (e_pairs e) -> valid (e_sep e) -> Forall (fun kv => cmp (fst kv) (e_sep e) <= 0) (pairs_of es ++ e_pairs e) -> seps_ok (es ++ [e]) [].
Proof.
  intros H Hv Hle a x b E. destruct b as [|y b _] using rev_ind.
  - apply app_inj_tail in E as [-> ->]. by split_and!.
  - rewrite app_comm_cons, app_assoc in E. apply app_inj_tail in E as [E ->]. destruct (H a x b E) as (Hvx & H1 & H2). split_and!; [done|done|].
    rewrite pairs_of_app. unfold pairs_of at 2. cbn [map concat]. by rewrite !app_nil_r.
Qed.

(** A key that is not less than the last of sorted keys is above all of them. *)
Lemma above_last (kvs : pairs) k sep : sorted valid cmp (map fst kvs) -> fst <$> last kvs = Some k -> valid sep -> cmp k sep <= 0 ->
  Forall (fun kv => cmp (fst kv) sep <= 0) kvs.
Proof.
  intros Hs Hl Hv Hle. destruct kvs as [|x l _] using rev_ind; [done|]. rewrite last_snoc in Hl. injection Hl as <-.
  rewrite map_app in Hs. apply sorted_app in Hs as (Hs1 & Hs2 & Hlt). apply Forall_app. split; [|by repeat constructor].
  apply Forall_forall. intros y Hy. assert (fst y ∈ map fst l) as Hin by (apply list_elem_of_fmap; by exists y).
  specialize (Hlt (fst y) (fst x) Hin ltac:(by left)). destruct Hs1 as [_ Hv1]. eapply Forall_forall in Hv1; [|exact Hin]. destruct Hs2 as [_ [Hvx _]%Forall_cons].
  unfold less in Hlt. pose proof (order_lt_le (fst y) (fst x) sep Hv1 Hvx Hv Hlt Hle). lia.
Qed.

(** The index is sorted. *)
Lemma seps_sorted es : seps_ok es [] -> Forall (fun e => e_pairs e <> []) es -> sorted valid cmp (map fst (pairs_of es)) -> sorted valid cmp (map fst (index_pairs es)).
Proof.
  intros H Hne Hs. assert (map fst (index_pairs es) = map e_sep es) as -> by (unfold index_pairs; by rewrite map_map).
  induction es as [|e es IH]; [apply sorted_nil|]. apply Forall_cons in Hne as [He Hne]. rewrite pairs_of_cons, map_app in Hs. apply sorted_app in Hs as (Hs1 & Hs2 & _).
  destruct (H [] e es eq_refl) as (Hv & _ & Hlt). cbn [map]. apply sorted_cons. split_and!; [done| |].
  - apply Forall_map, Forall_forall. intros x Hx. apply list_elem_of_split in Hx as (a & b & ->). destruct (H (e :: a) x b eq_refl) as (Hvx & Hle & _). unfold less.
    rewrite pairs_of_app, pairs_of_cons, app_nil_r in Hlt. apply Forall_app in Hlt as [_ Hlt]. apply Forall_app in Hlt as [Hlt _]. apply Forall_app in Hle as [_ Hle].
    assert (e_pairs x <> []) as Hxe by (apply Forall_app in Hne as [_ [Hx _]%Forall_cons]; done). destruct (e_pairs x) as [|z l] eqn:Ex; [done|].
    apply Forall_cons in Hlt as [Hlt _]. apply Forall_cons in Hle as [Hle _]. destruct Hs2 as [_ Hv2]. rewrite pairs_of_app, pairs_of_cons, Ex in Hv2.
    rewrite !map_app in Hv2. apply Forall_app in Hv2 as [_ [[Hvz _]%Forall_cons _]%Forall_app]. by apply (order_lt_le (e_sep e) (fst z) (e_sep x)).
  - apply IH; [|done|done]. intros a x b ->. destruct (H (e :: a) x b eq_refl) as (Hvx & Hle & Hlt'). split_and!; [done| |done].
    rewrite pairs_of_cons, <- app_assoc in Hle. by apply Forall_app in Hle as [_ Hle].
Qed.

End Layout.
