(* ===== verification/LdbTableBuilderSpec.v ===== *)
(** * LevelDB: what the table builder writes

    Over a file that stops at its first failure every call returns, and when the
    last status is ok the file holds a table of the pairs that were added. *)
From S2P Require Import Prelude WireSpec.
From S2P Require Import LdbCoding LdbCrc32c LdbStatus LdbOrder LdbKeys LdbIterator LdbBlock LdbBlockSpec LdbFormat LdbFilterBlock LdbTableBuilder LdbTableLayout.
From Stdlib Require Import ZArith Lia.
From stdpp Require Import base tactics numbers list strings sorting.
#[local] Open Scope Z_scope.

(** Files have signed 64-bit offsets. *)
Class BoundedFile {F : Type} (usable : F -> Prop) (written : F -> list Z) : Prop := {
  file_bound f : usable f -> zlen (written f) < 2 ^ 63;
}.

(** What the builder needs of its options. *)
Record options_ok (opt : Options) (comparator : Comparator) (valid : list Z -> Prop) : Prop := {
  oo_comparator : opt_comparator opt = comparator;
  oo_interval : 1 <= block_restart_interval opt < 2 ^ 31 - 1;
  oo_compression : compression opt = kNoCompression \/ compression opt = kSnappyCompression;
  oo_policy : match filter_policy opt with
    | Some p => FilterLaws p valid /\ Forall is_byte (policy_name p) /\ zlen (policy_name p) < 2 ^ 31
    | None => True
    end;
}.

Ltac rsimp := cbn [rep_options index_block_options rep_file rep_offset rep_status data_block index_block rep_last_key num_entries closed
  filter_block_ pending_index_entry pending_handle compressed_output
  set_file set_offset set_data_block set_index_block set_key set_closed set_filter set_pending set_compressed] in *.

Section Builder.
Context {F : Type} {W : WritableFile F} {usable : F -> Prop} {written delivered : F -> list Z} {failed dirty : F -> bool}.
Context {stop : FailStop F usable written delivered failed dirty} {bounded : BoundedFile usable written}.
Context {Value : list Z -> Z} {Extend : Z -> list Z -> Z} {checksum : Checksum Value Extend}.
Context {comparator : Comparator} {valid : list Z -> Prop} {cmp : list Z -> list Z -> Z} {laws : ComparatorLaws comparator valid cmp}.
Context (opt : Options) (opt_ok : options_ok opt comparator valid).

Abbreviation R := (Rep F).
Abbreviation stored_in := (stored Value Extend).
Abbreviation pairs_in := (stored_pairs Value Extend).

(** ** Writing blocks *)

(** A file that works and holds [w]. *)
Definition holding (f : F) (w : list Z) : Prop := usable f /\ failed f = false /\ written f = w.

Lemma Append_holding f w data : holding f w -> exists s f', Append f data = Ret (s, f') /\ (is_ok s = true -> holding f' (w ++ data)).
Proof.
  intros (Hu & Hf & Hw). destruct (append_spec f data Hu) as (s & f' & E & Hu' & _ & H). exists s, f'. split; [done|]. intros Hs.
  rewrite Hf, Hs in H. destruct H as [H1 H2]. split_and!; [done|done|by rewrite H2, Hw].
Qed.

Lemma Flush_holding f w : holding f w -> exists s f', Flush f = Ret (s, f') /\ (is_ok s = true -> holding f' w).
Proof.
  intros (Hu & Hf & Hw). destruct (flush_spec f Hu) as (s & f' & E & Hu' & _ & H). exists s, f'. split; [done|]. intros Hs.
  rewrite Hf, Hs in H. destruct H as [H1 [H2 _]]. split_and!; [done|done|by rewrite H2, Hw].
Qed.

Lemma holding_size f w : holding f w -> zlen w < 2 ^ 63.
Proof. intros (Hu & _ & <-). by apply file_bound. Qed.

(** After a block either the status is bad or the block is in the file. *)
Lemma WriteRawBlock_ok r w data : holding (rep_file r) w -> rep_offset r = zlen w -> Forall is_byte data ->
  exists f s o, WriteRawBlock Value Extend r data kNoCompression = Ret (mk_handle (zlen w) (zlen data), set_offset (set_file r f s) o) /\
    if is_ok s then
      let w' := w ++ data ++ block_trailer Value Extend data kNoCompression in
      holding f w' /\ o = zlen w' /\ stored_in w' (mk_handle (zlen w) (zlen data)) data
    else o = rep_offset r.
Proof.
  intros Hh Ho Hb. unfold WriteRawBlock. rewrite Ho. destruct (Append_holding _ _ data Hh) as (s & f & -> & H). cbn [rbind].
  destruct (is_ok s) eqn:Es; cycle 1.
  { exists f, s, (zlen w). rewrite Es. split; [|done]. do 3 f_equal. unfold set_offset, set_file. rsimp. by rewrite Ho. }
  rsimp. destruct (Append_holding _ _ (block_trailer Value Extend data kNoCompression) (H eq_refl)) as (s2 & f2 & -> & H2). cbn [rbind].
  destruct (is_ok s2) eqn:Es2; cycle 1.
  { exists f2, s2, (zlen w). rewrite Es2. split; [|done]. do 3 f_equal. unfold set_offset, set_file. rsimp. by rewrite Ho. }
  specialize (H2 eq_refl). rewrite <- app_assoc in H2. pose proof (holding_size _ _ H2) as Hs. rewrite !zlen_app, block_trailer_size in Hs.
  pose proof (zlen_nonneg w). pose proof (zlen_nonneg data). unfold kBlockTrailerSize in Hs.
  exists f2, s2, (zlen (w ++ data ++ block_trailer Value Extend data kNoCompression)). rewrite Es2. split.
  - do 3 f_equal. unfold set_offset, set_file. rsimp. rewrite Ho. unfold kBlockTrailerSize. rewrite (wrap_small 64) by lia.
    by rewrite !zlen_app, block_trailer_size.
  - split_and!; [done|done|by apply stored_here].
Qed.

Lemma compress_ok raw c : compress (compression opt) raw c = (raw, kNoCompression, c).
Proof. destruct (oo_compression _ _ _ opt_ok) as [-> | ->]; done. Qed.

(** A block builder holding some pairs. *)
Definition holds_pairs (interval : Z) (b : BlockBuilder) (kvs : pairs) : Prop := exists its rs, built (interval := interval) b its rs /\ map pair_of its = kvs.

Lemma holds_pairs_layout interval b kvs : holds_pairs interval b kvs -> weight kvs < 2 ^ 32 -> block_layout kvs (fst (builder_Finish b)).
Proof.
  intros (its & rs & H & <-) Hw. pose proof H as (_ & _ & _ & _ & _ & _ & Hc & Hr & Hf & Hl). assert (zlen (block_data its rs) < 2 ^ 32) as Hs by lia.
  exists its, rs. rewrite (builder_Finish_ok b its rs H Hs). by split_and!.
Qed.

Lemma holds_pairs_add interval b kvs k v : 1 <= interval < 2 ^ 31 - 1 -> holds_pairs interval b kvs -> sorted valid cmp (map fst (kvs ++ [(k, v)])) ->
  weight (kvs ++ [(k, v)]) < 2 ^ 32 -> exists b', builder_Add comparator interval b k v = Ret b' /\ holds_pairs interval b' (kvs ++ [(k, v)]).
Proof.
  intros Hi (its & rs & H & <-) Hs Hw. rewrite map_app, map_map in Hs. apply sorted_app in Hs as (Hs1 & Hs2 & Hlt).
  destruct (builder_Add_ok Hi b its rs k v H) as (b' & it & rs' & E & Ep & H'); [intros _; exact (Forall_inv (proj2 Hs2))|apply Hs1| |done|].
  - intros x Hx. apply (Hlt (i_key x) k); [|by left]. apply list_elem_of_fmap. exists x. split; [done|]. rewrite last_lookup in Hx. by eapply list_elem_of_lookup_2.
  - exists b'. split; [done|]. exists (its ++ [it]), rs'. split; [done|]. rewrite map_app. cbn [map]. by rewrite Ep.
Qed.

Lemma WriteBlock_ok r b interval kvs w : tb_ok r = true -> rep_options r = opt -> holding (rep_file r) w -> rep_offset r = zlen w ->
  holds_pairs interval b kvs -> weight kvs < 2 ^ 32 -> pairs_bytes kvs ->
  exists h f s o, WriteBlock Value Extend r b = Ret (h, builder_Reset b, set_compressed (set_offset (set_file r f s) o) []) /\
    if is_ok s then exists w', holding f (w ++ w') /\ o = zlen (w ++ w') /\ pairs_in (w ++ w') h kvs /\ offset_ h = zlen w
    else o = rep_offset r.
Proof.
  intros Hok Hopt Hh Ho Hp Hw Hb. pose proof (holds_pairs_layout interval b kvs Hp Hw) as Hl. pose proof (block_layout_bytes kvs _ Hl Hb) as Hbytes.
  unfold WriteBlock. rewrite Hok, Hopt. cbn [assert_ rbind]. destruct (builder_Finish b) as [raw b'] eqn:Ef. cbn [fst] in *. rewrite compress_ok.
  destruct (WriteRawBlock_ok (set_compressed r (compressed_output r)) w raw) as (f & s & o & -> & H); [done..|]. cbn [rbind].
  exists (mk_handle (zlen w) (zlen raw)), f, s, o. split.
  - do 3 f_equal.
  - destruct (is_ok s); [|done]. destruct H as (H1 & H2 & H3). exists (raw ++ block_trailer Value Extend raw kNoCompression). split_and!; [done|done| |done]. by exists raw.
Qed.

(** ** The state between calls *)

(** [fin] are the blocks in the index, [pend] the block written that is not there
    yet, and [cur] the pairs of the block being built. *)
Abbreviation block := (BlockHandle * pairs)%type.

Definition pend_pairs (pend : option block) : pairs := match pend with Some (_, kvs) => kvs | None => [] end.
Definition all_of (fin : list entry) (pend : option block) (cur : pairs) : pairs := pairs_of fin ++ pend_pairs pend ++ cur.
Definition blocks_of (fin : list entry) (pend : option block) : list block :=
  map (fun e => (e_handle e, e_pairs e)) fin ++ match pend with Some b => [b] | None => [] end.

(** The keys and the offsets their filters are under. *)
Definition filter_keys (b : block) : list (Z * list Z) := map (fun kv => (offset_ (fst b), fst kv)) (snd b).
Definition added (fin : list entry) (pend : option block) (cur : pairs) (o : Z) : list (Z * list Z) :=
  concat (map filter_keys (blocks_of fin pend)) ++ map (fun kv => (o, fst kv)) cur.

Definition filter_state (r : R) (fin : list entry) (pend : option block) (cur : pairs) : Prop :=
  match filter_policy opt with
  | None => filter_block_ r = None
  | Some p => exists b fs gs ks, filter_block_ r = Some (p, b) /\ holds (policy := p) (valid := valid) b fs gs ks /\
      filed (added fin pend cur (rep_offset r)) (gs ++ [ks]) /\ zlen fs = rep_offset r / kFilterBase /\ zlen ks <= zlen (all_of fin pend cur)
  end.

Record core (r : R) (fin : list entry) (pend : option block) (cur : pairs) : Prop := {
  c_options : rep_options r = opt /\ index_block_options r = with_interval opt 1;
  c_ok : tb_ok r = true;
  c_file : exists w, holding (rep_file r) w /\ rep_offset r = zlen w /\
    Forall (fun b : block => pairs_in w (fst b) (snd b) /\ snd b <> []) (blocks_of fin pend) /\
    StronglySorted (fun a b : block => offset_ (fst a) < offset_ (fst b)) (blocks_of fin pend);
  c_data : holds_pairs (block_restart_interval opt) (data_block r) cur;
  c_index : holds_pairs 1 (index_block r) (index_pairs fin);
  c_sorted : sorted valid cmp (map fst (all_of fin pend cur));
  c_bytes : pairs_bytes (all_of fin pend cur);
  c_num : num_entries r = zlen (all_of fin pend cur);
  c_weight : weight (index_pairs fin) <= weight (pairs_of fin) + 20 * zlen (pairs_of fin);
}.

Record inv (r : R) (fin : list entry) (pend : option block) (cur : pairs) : Prop := {
  inv_core : core r fin pend cur;
  inv_open : closed r = false;
  inv_filter : filter_state r fin pend cur;
  inv_last : rep_last_key r = default [] (fst <$> last (all_of fin pend cur));
  inv_seps : seps_ok valid cmp fin (pend_pairs pend ++ cur);
  inv_pending : match pend with
    | Some (h, _) => pending_index_entry r = true /\ pending_handle r = h /\ cur = []
    | None => pending_index_entry r = false /\ (cur = [] -> fin = [])
    end;
}.

(** Either the status is bad and the builder takes nothing more, or it holds the pairs. *)
Definition tb_inv (r : R) (kvs : pairs) : Prop :=
  closed r = false /\ (tb_ok r = true -> exists fin pend cur, inv r fin pend cur /\ kvs = all_of fin pend cur).

(** A bound on what the blocks of the pairs take. *)
Definition budget (kvs : pairs) : Prop := weight kvs + 20 * zlen kvs < 2 ^ 32.

Lemma budget_app a b : budget (a ++ b) -> budget a /\ budget b.
Proof.
  unfold budget. rewrite weight_app, zlen_app. pose proof (weight_nonneg a). pose proof (weight_nonneg b). pose proof (zlen_nonneg a). pose proof (zlen_nonneg b). lia.
Qed.

Lemma budget_count kvs : budget kvs -> zlen kvs + 1 < 2 ^ 31.
Proof.
  unfold budget. assert (19 * zlen kvs <= weight kvs); [|lia]. induction kvs as [|kv l IH]; [done|]. rewrite zlen_cons. cbn [weight].
  pose proof (zlen_nonneg (fst kv)). pose proof (zlen_nonneg (snd kv)). lia.
Qed.

(** ** Flushing a block *)

Lemma filter_keys_map h kvs : filter_keys (h, kvs) = map (fun kv => (offset_ h, fst kv)) kvs.
Proof. done. Qed.

(** The filter for the blocks from the next offset on. *)
Lemma start_filter_ok r fin cur h o : filter_state r fin None cur -> 0 <= rep_offset r -> offset_ h = rep_offset r -> rep_offset r <= o ->
  exists fb, start_filter (set_offset r o) = Ret (set_filter (set_offset r o) fb) /\
    filter_state (set_filter (set_offset r o) fb) fin (Some (h, cur)) [].
Proof.
  unfold filter_state, start_filter. rsimp. destruct (filter_policy opt) as [p|] eqn:Ep; cycle 1.
  { intros E Ho _ _. rewrite E. exists None. split; [|done]. unfold set_filter, set_offset. rsimp. by rewrite E. }
  intros (b & fs & gs & ks & -> & H & Ha & Hfs & Hks) Ho Hh Hle. pose proof (oo_policy _ _ _ opt_ok) as Hl. rewrite Ep in Hl. destruct Hl as (Hl & _).
  assert (zlen fs <= o / kFilterBase) as Hfo by (rewrite Hfs; by apply Z.div_le_mono).
  destruct (StartBlock_ok b fs gs ks o H ltac:(lia) Hfo) as (b' & fs' & gs' & ks' & -> & H' & Hfs' & Hp & Hks'). cbn [rbind].
  exists (Some (p, b')). split; [done|]. exists b', fs', gs', ks'. split_and!; [done|done| |done|].
  - unfold added, blocks_of in *. rewrite map_app, concat_app, !app_nil_r in *. cbn [map concat]. rewrite filter_keys_map, Hh, !app_nil_r. by eapply filed_prefix.
  - unfold all_of, pend_pairs in *. rewrite app_nil_r. cbn [app] in Hks. lia.
Qed.

Lemma sorted_offsets_snoc (bs : list block) b w : Forall (fun b : block => pairs_in w (fst b) (snd b) /\ snd b <> []) bs -> zlen w <= offset_ (fst b) ->
  StronglySorted (fun a b : block => offset_ (fst a) < offset_ (fst b)) bs -> StronglySorted (fun a b : block => offset_ (fst a) < offset_ (fst b)) (bs ++ [b]).
Proof.
  intros Hb Hw. induction 1 as [|x l Hs IH Hlt]; cbn [app]; [by repeat constructor|]. apply Forall_cons in Hb as [[(data & Hx & _) _] Hb]. constructor; [by apply IH|].
  apply Forall_app. split; [done|]. constructor; [|constructor]. apply stored_before in Hx. unfold kBlockTrailerSize in Hx. lia.
Qed.

Lemma set_filter_same (r : R) : set_filter r (filter_block_ r) = r.
Proof. by destruct r. Qed.

Lemma tb_Flush_ok r fin cur : inv r fin None cur -> cur <> [] -> budget (all_of fin None cur) ->
  exists r', tb_Flush Value Extend r = Ret r' /\ closed r' = false /\
    (tb_ok r' = true -> exists h, inv r' fin (Some (h, cur)) []).
Proof.
  intros [Hc Hopen Hf Hlast Hseps [Hpend _]] Hne Hbud. destruct Hc as [[Ho1 Ho2] Hok (w & Hh & Ho & Hbl & Hoff) Hd Hi Hs Hb Hn Hw].
  unfold tb_Flush. rewrite Hopen, Hok, Hpend. cbn [negb assert_ rbind]. pose proof Hd as (its & rs & Hbuilt & Eits).
  rewrite (built_empty _ _ _ Hbuilt), bool_decide_false by (intros ->; by destruct cur). cbn [rbind].
  apply budget_app in Hbud as [_ Hbud]. apply budget_app in Hbud as [_ Hbud].
  assert (weight cur < 2 ^ 32) as Hwc by (unfold budget in Hbud; pose proof (zlen_nonneg cur); lia).
  assert (pairs_bytes cur) as Hbc by (unfold all_of in Hb; by apply Forall_app in Hb as [_ Hb]).
  destruct (WriteBlock_ok r _ _ cur w Hok Ho1 Hh Ho Hd Hwc Hbc) as (h & f & st & o & -> & Hres). cbn [rbind].
  unfold tb_ok at 1. rsimp. destruct (is_ok st) eqn:Est; cycle 1.
  { cbn [rbind]. subst o. match goal with |- context [start_filter ?x] => set (r1 := x) end.
    assert (filter_state r1 fin None cur) as Hf1 by exact Hf. assert (0 <= rep_offset r1) as H0 by (subst r1; rsimp; rewrite Ho; apply zlen_nonneg).
    destruct (start_filter_ok r1 fin cur (mk_handle (rep_offset r1) 0) (rep_offset r1) Hf1 H0 eq_refl ltac:(lia)) as (fb & E & _).
    assert (set_offset r1 (rep_offset r1) = r1) as E1 by done. rewrite E1 in E. rewrite E. eexists. split; [done|]. split; [done|].
    unfold tb_ok. subst r1. rsimp. by rewrite Est. }
  destruct Hres as (w' & Hh' & -> & Hin & Hho). pose proof Hh' as Hflush. apply Flush_holding in Hflush as (s2 & f2 & -> & Hf2). cbn [rbind]. rsimp.
  match goal with |- context [start_filter ?x] => set (r1 := x) end.
  pose proof (zlen_nonneg w). pose proof (zlen_nonneg w').
  destruct (start_filter_ok (set_offset r1 (zlen w)) fin cur h (zlen (w ++ w'))) as (fb & E & Hfb).
  { unfold filter_state in *. subst r1. rsimp. by rewrite <- Ho. }
  { done. }
  { done. }
  { rsimp. rewrite zlen_app. lia. }
  assert (set_offset (set_offset r1 (zlen w)) (zlen (w ++ w')) = r1) as E1 by done. rewrite E1 in *. rewrite E.
  eexists. split; [done|]. split; [done|]. unfold tb_ok. subst r1. rsimp. intros Hs2. exists h.
  assert (all_of fin (Some (h, cur)) [] = all_of fin None cur) as Eall by (unfold all_of, pend_pairs; by rewrite app_nil_r).
  split; [|done|exact Hfb|by rewrite Eall|by cbn [pend_pairs]; rewrite app_nil_r|done].
  assert (blocks_of fin (Some (h, cur)) = blocks_of fin None ++ [(h, cur)]) as Ebl by (unfold blocks_of; by rewrite app_nil_r).
  split; rsimp; rewrite ?Eall; try done.
  - exists (w ++ w'). split_and!; [by apply Hf2|done| |].
    + rewrite Ebl. apply Forall_app. split; [|by repeat constructor]. eapply Forall_impl; [exact Hbl|]. intros b [H1 H2]. split; [by apply stored_pairs_app|done].
    + rewrite Ebl. apply (sorted_offsets_snoc _ _ w); [done| |done]. cbn. lia.
  - exists [], [0%nat]. split; [|done]. apply builder_Reset_ok. apply opt_ok.
Qed.

(** ** Adding a pair *)

Lemma seps_weaken es rest : seps_ok valid cmp es rest -> seps_ok valid cmp es [].
Proof. intros H a e b E. destruct (H a e b E) as (H1 & H2 & H3). split_and!; [done|done|]. rewrite app_nil_r. by apply Forall_app in H3 as [H3 _]. Qed.

Lemma pairs_of_snoc es e : pairs_of (es ++ [e]) = pairs_of es ++ e_pairs e.
Proof. rewrite pairs_of_app. unfold pairs_of at 2. cbn. by rewrite app_nil_r. Qed.

Lemma index_pairs_snoc es e : index_pairs (es ++ [e]) = index_pairs es ++ [(e_sep e, handle_bytes (e_handle e))].
Proof. unfold index_pairs. by rewrite map_app. Qed.

Lemma blocks_nonempty r fin pend cur : core r fin pend cur -> Forall (fun e => e_pairs e <> []) fin.
Proof.
  intros [_ _ (w & _ & _ & Hb & _) _ _ _ _ _ _]. unfold blocks_of in Hb. apply Forall_app in Hb as [Hb _]. rewrite Forall_map in Hb.
  eapply Forall_impl; [exact Hb|]. by intros e [_ ?].
Qed.

Lemma weight_last kvs kv : last kvs = Some kv -> zlen (fst kv) + 27 <= weight kvs /\ 1 <= zlen kvs.
Proof.
  destruct kvs as [|x l _] using rev_ind; [done|]. rewrite last_snoc. intros [= ->]. rewrite weight_app, zlen_app. cbn [weight]. change (zlen [kv]) with 1.
  pose proof (weight_nonneg l). pose proof (zlen_nonneg (snd kv)). pose proof (zlen_nonneg l). lia.
Qed.

Lemma blocks_of_push fin h kvs sep : blocks_of (fin ++ [mk_entry sep h kvs]) None = blocks_of fin (Some (h, kvs)).
Proof. unfold blocks_of. by rewrite map_app, app_nil_r. Qed.

Lemma all_of_push fin h kvs sep cur : all_of (fin ++ [mk_entry sep h kvs]) None cur = all_of fin (Some (h, kvs)) cur.
Proof. unfold all_of. by rewrite pairs_of_snoc, <- app_assoc. Qed.

(** The block pending goes to the index under a key between it and what follows. *)
Lemma index_entry_ok r fin h kvs sep cur : core r fin (Some (h, kvs)) cur -> pending_handle r = h ->
  seps_ok valid cmp (fin ++ [mk_entry sep h kvs]) [] -> zlen sep <= zlen (default [] (fst <$> last kvs)) -> budget (all_of fin (Some (h, kvs)) cur) ->
  exists b, index_entry r sep = Ret (set_index_block r b sep) /\ core (set_index_block r b sep) (fin ++ [mk_entry sep h kvs]) None cur.
Proof.
  intros Hc Hh Hseps Hsep Hbud. pose proof (blocks_nonempty _ _ _ _ Hc) as Hne. destruct Hc as [[Ho1 Ho2] Hok (w & Hw & Ho & Hbl & Hoff) Hd Hi Hs Hb Hn Hwt].
  pose proof (blocks_of_push fin h kvs sep) as Ebl. pose proof (all_of_push fin h kvs sep cur) as Eall.
  assert (kvs <> [] /\ handle_ok h) as [Hkne Hhok].
  { unfold blocks_of in Hbl. apply Forall_app in Hbl as [_ [[(data & Hst & _) Hk] _]%Forall_cons]. split; [done|]. by eapply stored_handle_ok, holding_size. }
  assert (sorted valid cmp (map fst (pairs_of (fin ++ [mk_entry sep h kvs])))) as Hsp.
  { rewrite <- Eall in Hs. unfold all_of in Hs. rewrite map_app in Hs. by apply sorted_app in Hs as [Hs _]. }
  assert (Forall (fun e => e_pairs e <> []) (fin ++ [mk_entry sep h kvs])) as Hne' by (apply Forall_app; split; [done|by repeat constructor]).
  pose proof (seps_sorted valid cmp _ Hseps Hne' Hsp) as Hsi. rewrite index_pairs_snoc in Hsi. cbn [e_sep e_handle] in Hsi.
  assert (weight (index_pairs (fin ++ [mk_entry sep h kvs])) <= weight (pairs_of (fin ++ [mk_entry sep h kvs])) + 20 * zlen (pairs_of (fin ++ [mk_entry sep h kvs]))) as Hwt'.
  { rewrite index_pairs_snoc, pairs_of_snoc, !weight_app, zlen_app. cbn [weight fst snd e_sep e_handle e_pairs]. pose proof (handle_bytes_size h Hhok). unfold kMaxEncodedLength in *.
    destruct (last kvs) as [kv|] eqn:El; [|by apply last_None in El]. change (zlen sep <= zlen (fst kv)) in Hsep. destruct (weight_last kvs kv El).
    lia. }
  rewrite <- Eall in Hbud. unfold all_of in Hbud. apply budget_app in Hbud as [Hbud _]. unfold budget in Hbud.
  unfold index_entry. rewrite Hh, handle_EncodeTo_ok by done. cbn [rbind]. rewrite Ho2. cbn [opt_comparator block_restart_interval with_interval app].
  rewrite (oo_comparator _ _ _ opt_ok).
  rewrite index_pairs_snoc in Hwt'. cbn [e_sep e_handle] in Hwt'.
  destruct (holds_pairs_add 1 (index_block r) (index_pairs fin) sep (handle_bytes h) ltac:(lia) Hi Hsi ltac:(lia)) as (b & -> & Hb'). cbn [rbind].
  exists b. split; [done|]. split; rsimp; rewrite ?Eall, ?Ebl; try done.
  - by exists w.
  - by rewrite index_pairs_snoc.
  - by rewrite index_pairs_snoc.
Qed.

Lemma last_all fin h kvs : kvs <> [] -> last (all_of fin (Some (h, kvs)) []) = last kvs.
Proof. intros H. unfold all_of, pend_pairs. rewrite app_nil_r, last_app. destruct (last kvs) eqn:E; [done|]. by apply last_None in E. Qed.

Definition settle (r : R) (key : list Z) : res R :=
  if pending_index_entry r then
    let! _ := assert_ (builder_empty (data_block r)) in
    let! last_key := FindShortestSeparator (opt_comparator (rep_options r)) (rep_last_key r) key in
    index_entry r last_key
  else Ret r.

Lemma settle_ok r fin pend cur key v : inv r fin pend cur -> sorted valid cmp (map fst (all_of fin pend cur ++ [(key, v)])) -> budget (all_of fin pend cur) ->
  exists r1 fin1, settle r key = Ret r1 /\ core r1 fin1 None cur /\ closed r1 = false /\ filter_state r1 fin1 None cur /\ all_of fin1 None cur = all_of fin pend cur /\
    pending_index_entry r1 = false /\ seps_ok valid cmp fin1 (cur ++ [(key, v)]).
Proof.
  intros [Hc Hopen Hf Hlast Hseps Hpend] Hs Hbud. unfold settle. destruct pend as [[h kvs]|].
  - destruct Hpend as (-> & Hh & ->). pose proof Hc as [[Ho1 Ho2] _ (w & _ & _ & Hbl & _) (its & rs & Hbuilt & Eits) _ _ _ _ _].
    rewrite (built_empty _ _ _ Hbuilt). destruct its; [|done]. rewrite bool_decide_true by done. cbn [assert_ rbind].
    assert (kvs <> []) as Hkne by (unfold blocks_of in Hbl; by apply Forall_app in Hbl as [_ [[_ Hk] _]%Forall_cons]).
    destruct (last kvs) as [kl|] eqn:El; [|by apply last_None in El]. rewrite last_all, El in Hlast by done. cbn in Hlast.
    assert (all_of fin (Some (h, kvs)) [] = pairs_of fin ++ kvs) as Eall by (unfold all_of, pend_pairs; by rewrite app_nil_r). rewrite Eall in *.
    pose proof Hs as Hs'. rewrite map_app in Hs'. apply sorted_app in Hs' as (Hs1 & Hs2 & Hlt).
    assert (valid key) as Hvk by (exact (Forall_inv (proj2 Hs2))). pose proof (last_Some kvs kl) as [Hls _]. destruct (Hls El) as [l' El'].
    assert (fst kl ∈ map fst (pairs_of fin ++ kvs)) as Hin by (apply list_elem_of_fmap; exists kl; split; [done|]; rewrite El', !elem_of_app; right; right; by left).
    assert (valid (fst kl)) as Hvl by (destruct Hs1 as [_ Hv]; eapply Forall_forall in Hv; [exact Hv|exact Hin]).
    specialize (Hlt (fst kl) key Hin ltac:(by left)). unfold less in Hlt. rewrite Ho1, (oo_comparator _ _ _ opt_ok).
    rewrite Hlast. destruct (laws_separator (fst kl) key Hvl Hvk Hlt) as (sep & -> & Hvs & Hle & Hlts & Hlen). cbn [rbind].
    assert (Forall (fun kv => cmp (fst kv) sep <= 0) (pairs_of fin ++ kvs)) as Hbelow.
    { apply (above_last valid cmp _ (fst kl)); [done| |done|done]. rewrite last_app, El. done. }
    cbn [pend_pairs] in Hseps. rewrite app_nil_r in Hseps.
    assert (seps_ok valid cmp (fin ++ [mk_entry sep h kvs]) [(key, v)]) as Hseps'.
    { apply (seps_push valid cmp); cbn [e_pairs e_sep]; try (done || typeclasses eauto). rewrite <- app_assoc, map_app in Hs. by apply sorted_app in Hs as (_ & Hs & _). }
    destruct (index_entry_ok r fin h kvs sep [] Hc Hh (seps_weaken _ _ Hseps')) as (b & E & Hcore); [by rewrite El|by rewrite Eall|].
    exists (set_index_block r b sep), (fin ++ [mk_entry sep h kvs]). split_and!; [done|done|done| | |done|done].
    + unfold filter_state in *. rsimp. destruct (filter_policy opt); [|done]. unfold added in *. by rewrite blocks_of_push, all_of_push.
    + by rewrite all_of_push.
  - destruct Hpend as [Hp Hcur]. rewrite Hp. exists r, fin. split_and!; [done|done|done|done|done|done|]. cbn [pend_pairs app] in Hseps. apply (seps_extend valid cmp); try (done || typeclasses eauto).
    + destruct cur; [left; by apply Hcur|by right].
    + unfold all_of, pend_pairs in Hs. cbn [app] in Hs. rewrite <- app_assoc, map_app in Hs. by apply sorted_app in Hs as (_ & Hs & _).
Qed.

Lemma added_snoc fin pend cur o key v : added fin pend (cur ++ [(key, v)]) o = added fin pend cur o ++ [(o, key)].
Proof. unfold added. by rewrite map_app, app_assoc. Qed.

Lemma all_of_snoc fin pend cur kv : all_of fin pend (cur ++ [kv]) = all_of fin pend cur ++ [kv].
Proof. unfold all_of. by rewrite !app_assoc. Qed.

Definition add_filter_key (r : R) (key : list Z) : R :=
  match filter_block_ r with None => r | Some (p, b) => set_filter r (Some (p, AddKey b key)) end.

Lemma add_filter_key_ok r fin cur key v : filter_state r fin None cur -> valid key -> 0 <= rep_offset r -> zlen (all_of fin None cur) + 1 < 2 ^ 31 ->
  exists fb, add_filter_key r key = set_filter r fb /\ filter_state (set_filter r fb) fin None (cur ++ [(key, v)]).
Proof.
  unfold filter_state, add_filter_key. rsimp. destruct (filter_policy opt) as [p|] eqn:Ep.
  2: { intros E _ _ _. rewrite E. exists None. split; [|done]. unfold set_filter. rewrite <- E. by destruct r. }
  intros (b & fs & gs & ks & -> & H & Ha & Hfs & Hks) Hk Ho Hl. pose proof (holds_length b fs gs ks H) as (_ & Hg & _).
  exists (Some (p, AddKey b key)). split; [done|]. exists (AddKey b key), fs, gs, (ks ++ [key]). rewrite added_snoc, all_of_snoc, !zlen_app. change (zlen [key]) with 1. change (zlen [(key, v)]) with 1.
  split_and!; [done|apply AddKey_ok; (done || lia)| |done|lia]. apply filed_add; [done|]. rewrite <- Hfs, Hg. unfold zlen. lia.
Qed.

Lemma tb_Add_ok r kvs key v : tb_inv r kvs -> sorted valid cmp (map fst (kvs ++ [(key, v)])) -> Forall is_byte v -> budget (kvs ++ [(key, v)]) ->
  exists r', tb_Add Value Extend r key v = Ret r' /\ tb_inv r' (kvs ++ [(key, v)]).
Proof.
  intros [Hopen Hinv] Hs Hv Hbud. unfold tb_Add. rewrite Hopen. cbn [negb assert_ rbind].
  destruct (tb_ok r) eqn:Hok; cbn [negb]; [|exists r; split; [done|]; split; [done|]; by rewrite Hok]. destruct (Hinv eq_refl) as (fin & pend & cur & Hi & ->). clear Hinv.
  pose proof Hi as [Hc _ _ Hlast _ _]. pose proof (c_num _ _ _ _ Hc) as En. pose proof (c_options _ _ _ _ Hc) as [Eo _].
  pose proof Hs as Hs'. rewrite map_app in Hs'. apply sorted_app in Hs' as (Hs1 & Hs2 & Hlt). assert (valid key) as Hvk by (exact (Forall_inv (proj2 Hs2))).
  assert ((if num_entries r >? 0 then let! c := Compare (opt_comparator (rep_options r)) key (rep_last_key r) in Ret (c >? 0) else Ret true) = Ret true) as ->.
  { rewrite En, Eo, (oo_comparator _ _ _ opt_ok). destruct (Z.gtb_spec (zlen (all_of fin pend cur)) 0) as [Hpos|]; [|done]. rewrite Hlast.
    destruct (last (all_of fin pend cur)) as [kl|] eqn:El; [|apply last_None in El; rewrite El in Hpos; by vm_compute in Hpos]. cbn.
    destruct (proj1 (last_Some _ _) El) as [l' El']. rewrite El' in *. assert (fst kl ∈ map fst (l' ++ [kl])) as Hin by (apply list_elem_of_fmap; exists kl; split; [done|]; rewrite elem_of_app; right; by left).
    assert (valid (fst kl)) as Hvl by (destruct Hs1 as [_ Hvs]; eapply Forall_forall in Hvs; [exact Hvs|exact Hin]).
    specialize (Hlt (fst kl) key Hin ltac:(by left)). unfold less in Hlt. rewrite (laws_compare key (fst kl)) by done. cbn [rbind].
    pose proof (order_flip (valid := valid) (cmp := cmp) (fst kl) key Hvl Hvk). by destruct (Z.gtb_spec (cmp key (fst kl)) 0); [|lia]. }
  cbn [rbind assert_]. destruct (settle_ok r fin pend cur key v Hi Hs (proj1 (budget_app _ _ Hbud))) as (r1 & fin1 & E & Hc1 & Hopen1 & Hf1 & Eall & Hpend1 & Hseps1).
  unfold settle in E. rewrite E. cbn [rbind]. clear E Hi Hc Hlast En Eo Hok Hopen r Hs1 Hs2 Hlt. rewrite <- Eall in *. clear Eall.
  destruct Hc1 as [[Ho1 Ho2] Hok (w & Hh & Ho & Hbl & Hoff) Hd Hix _ Hb Hn Hwt]. fold (add_filter_key r1 key).
  pose proof (budget_count _ (proj1 (budget_app _ _ Hbud))) as Hcount.
  destruct (add_filter_key_ok r1 fin1 cur key v Hf1 Hvk ltac:(rewrite Ho; apply zlen_nonneg) Hcount) as (fb & -> & Hfb). rsimp. rewrite Ho1, (oo_comparator _ _ _ opt_ok).
  assert (sorted valid cmp (map fst (cur ++ [(key, v)]))) as Hsc by (unfold all_of, pend_pairs in Hs; cbn [app] in Hs; rewrite <- app_assoc, map_app in Hs; by apply sorted_app in Hs as (_ & Hs & _)).
  assert (weight (cur ++ [(key, v)]) < 2 ^ 32) as Hwc.
  { rewrite <- all_of_snoc in Hbud. unfold all_of, pend_pairs in Hbud. cbn [app] in Hbud. apply budget_app in Hbud as [_ Hbud]. unfold budget in Hbud. pose proof (zlen_nonneg (cur ++ [(key, v)])). lia. }
  destruct (holds_pairs_add _ _ cur key v (oo_interval _ _ _ opt_ok) Hd Hsc Hwc) as (b & -> & Hd'). cbn [rbind].
  match goal with |- context [tb_Flush _ _ ?x] => set (r2 := x) end.
  assert (inv r2 fin1 None (cur ++ [(key, v)])) as Hi2.
  { subst r2. split; rsimp.
    - split; rsimp; try done.
      + by exists w.
      + by rewrite all_of_snoc.
      + rewrite all_of_snoc. apply Forall_app. split; [done|]. constructor; [|constructor]. split; [by eapply laws_bytes|done].
      + by rewrite all_of_snoc, zlen_app, Hn.
    - done.
    - exact Hfb.
    - by rewrite all_of_snoc, last_snoc.
    - done.
    - split; [done|]. intros E. by destruct cur. }
  rewrite <- all_of_snoc in *. destruct (_ >=? _).
  - destruct (tb_Flush_ok r2 fin1 (cur ++ [(key, v)]) Hi2) as (r3 & E & Hopen3 & H3); [by destruct cur|done|].
    exists r3. split; [exact E|]. split; [done|]. intros Hok3. destruct (H3 Hok3) as [h Hi3]. exists fin1, (Some (h, cur ++ [(key, v)])), [].
    split; [done|]. unfold all_of, pend_pairs. by rewrite app_nil_r.
  - exists r2. split; [done|]. split; [done|]. intros _. by exists fin1, None, (cur ++ [(key, v)]).
Qed.

Lemma new_table_builder_ok f : holding f [] -> exists r, new_table_builder opt f = Ret r /\ tb_inv r [].
Proof.
  intros Hh. unfold new_table_builder. destruct (new_block_builder_ok (oo_interval _ _ _ opt_ok)) as (b & -> & Hb). cbn [rbind].
  assert (exists fb, match filter_policy opt with None => Ret None | Some p => let! b := StartBlock p new_filter_builder 0 in Ret (Some (p, b)) end = Ret fb /\
    match filter_policy opt with None => fb = None | Some p => exists b, fb = Some (p, b) /\ holds (policy := p) (valid := valid) b [] [] [] end) as (fb & -> & Hfb).
  { pose proof (oo_policy _ _ _ opt_ok) as Hl. destruct (filter_policy opt) as [p|]; [|by exists None]. destruct Hl as (Hl & _). exists (Some (p, new_filter_builder)). split; [done|]. exists new_filter_builder. split; [done|]. apply new_filter_builder_ok. }
  cbn [rbind]. eexists. split; [done|]. split; [done|]. intros _. exists [], None, []. split; [|done]. split; rsimp; try done.
  - split; rsimp; try done.
    + exists []. split_and!; [done|done|constructor|constructor].
    + by exists [], [0%nat].
    + exists [], [0%nat]. split; [|done]. destruct Hb as (H1 & H2 & H3 & H4 & H5 & H6 & H7). pose proof (H6 eq_refl). split_and!; try done; lia.
    + apply sorted_nil.
    + constructor.
  - unfold filter_state. rsimp. destruct (filter_policy opt) as [p|]; [|done]. destruct Hfb as (b' & -> & H). exists b', [], [], []. split_and!; [done|done|constructor|done|done].
  - intros a e b' E. by destruct a.
Qed.

(** ** Finishing *)

(** What every step of [Finish] but the index leaves as it was; the file grows. *)
Record steps (r r' : R) : Prop := {
  st_options : rep_options r' = rep_options r /\ index_block_options r' = index_block_options r;
  st_blocks : data_block r' = data_block r /\ index_block r' = index_block r /\ num_entries r' = num_entries r;
  st_last : rep_last_key r' = rep_last_key r /\ pending_index_entry r' = pending_index_entry r /\ pending_handle r' = pending_handle r;
  st_file : tb_ok r' = true -> exists more, holding (rep_file r') (written (rep_file r) ++ more) /\ rep_offset r' = zlen (written (rep_file r) ++ more);
}.

Lemma blocks_in_app (bs : list block) w more : Forall (fun b : block => pairs_in w (fst b) (snd b) /\ snd b <> []) bs ->
  Forall (fun b : block => pairs_in (w ++ more) (fst b) (snd b) /\ snd b <> []) bs.
Proof. intros H. eapply Forall_impl; [exact H|]. intros b [H1 H2]. split; [by apply stored_pairs_app|done]. Qed.

Lemma core_steps r r' fin pend cur : core r fin pend cur -> steps r r' -> tb_ok r' = true -> core r' fin pend cur.
Proof.
  intros [[Ho1 Ho2] Hok (w & (Hu & Hf & Hw) & Ho & Hbl & Hoff) Hd Hi Hs Hb Hn Hwt] [[E1 E2] (E3 & E4 & E5) _ E] Hok'. destruct (E Hok') as (more & Hh & Ho').
  split; rewrite ?E1, ?E2, ?E3, ?E4, ?E5; try done. rewrite Hw in *. exists (w ++ more). split_and!; [done|done| |done]. by apply blocks_in_app.
Qed.

Lemma core_file r fin pend cur : core r fin pend cur ->
  holding (rep_file r) (written (rep_file r)) /\ rep_offset r = zlen (written (rep_file r)) /\ tb_ok r = true /\ rep_options r = opt /\
  index_block_options r = with_interval opt 1.
Proof. intros [[Ho1 Ho2] Hok (w & Hh & Ho & _) _ _ _ _ _ _]. pose proof Hh as (_ & _ & Hw). by rewrite Hw. Qed.

Lemma finish_flush r kvs : tb_inv r kvs -> budget kvs ->
  exists r1, tb_Flush Value Extend r = Ret r1 /\ closed r1 = false /\ (tb_ok r1 = true -> exists fin pend, inv r1 fin pend [] /\ kvs = all_of fin pend []).
Proof.
  intros [Hopen Hinv] Hbud. destruct (tb_ok r) eqn:Hok; cycle 1.
  { exists r. unfold tb_Flush. rewrite Hopen, Hok. split_and!; [done|done|congruence]. }
  destruct (Hinv eq_refl) as (fin & pend & cur & Hi & ->). destruct (decide (cur = [])) as [->|Hne].
  - exists r. unfold tb_Flush. rewrite Hopen, Hok. cbn [negb assert_ rbind]. pose proof (c_data _ _ _ _ (inv_core _ _ _ _ Hi)) as (its & rs & Hb & Eits).
    rewrite (built_empty _ _ _ Hb). destruct its; [|done]. rewrite bool_decide_true by done. split_and!; [done|done|]. intros _. by exists fin, pend.
  - pose proof (inv_pending _ _ _ _ Hi) as Hp. destruct pend as [[h p]|]; [by destruct Hp as (_ & _ & ->)|].
    destruct (tb_Flush_ok r fin cur Hi Hne Hbud) as (r1 & E & Hopen1 & H1). exists r1. split_and!; [done|done|]. intros Hok1. destruct (H1 Hok1) as [h Hi1].
    exists fin, (Some (h, cur)). split; [done|]. unfold all_of, pend_pairs. by rewrite app_nil_r.
Qed.

(** What the filter block answers, for a handle that names it. *)
Definition filter_written (file : list Z) (fh : BlockHandle) (p : FilterPolicy) (keys : list (Z * list Z)) : Prop :=
  handle_ok fh /\ exists fdata, stored_in file fh fdata /\
    (zlen fdata < 2 ^ 32 -> exists r, new_filter_reader fdata = Ret r /\
      (forall o key, 0 <= o -> valid key -> exists m, reader_KeyMayMatch p r o key = Ret m) /\
      Forall (fun e => reader_KeyMayMatch p r (fst e) (snd e) = Ret true) keys).

Lemma steps_raw r f s o more : (is_ok s = true -> holding f (written (rep_file r) ++ more) /\ o = zlen (written (rep_file r) ++ more)) -> steps r (set_offset (set_file r f s) o).
Proof. intros H. split; rsimp; try done. unfold tb_ok. rsimp. intros Hs. exists more. by apply H. Qed.

Lemma added_offsets r fin pend : core r fin pend [] -> Forall (fun e => 0 <= fst e) (added fin pend [] (rep_offset r)).
Proof.
  intros [_ _ (w & _ & _ & Hbl & _) _ _ _ _ _ _]. unfold added. cbn [map]. rewrite app_nil_r. apply Forall_concat, Forall_map.
  eapply Forall_impl; [exact Hbl|]. intros b [(data & Hst & _) _]. apply Forall_map, Forall_forall. intros kv _. cbn. by destruct (stored_before _ _ _ _ _ Hst).
Qed.

Lemma write_filter_ok r fin pend : (tb_ok r = true -> core r fin pend [] /\ filter_state r fin pend []) ->
  exists h r', write_filter Value Extend r new_handle = Ret (h, r') /\
    (tb_ok r' = true -> tb_ok r = true /\ steps r r' /\
      match filter_policy opt with
      | None => filter_block_ r' = None
      | Some p => is_Some (filter_block_ r') /\ filter_written (written (rep_file r')) h p (added fin pend [] (rep_offset r))
      end).
Proof.
  intros H. unfold write_filter. destruct (tb_ok r) eqn:Hok; cycle 1.
  { exists new_handle, r. split; [by destruct (filter_block_ r) as [[p b]|]|]. rewrite Hok. done. }
  destruct (H eq_refl) as [Hc Hf]. destruct (core_file _ _ _ _ Hc) as (Hh & Ho & _). pose proof (added_offsets r fin pend Hc) as Hoffs.
  assert (steps r r) as Hrefl.
  { split; try done. intros _. exists []. by rewrite app_nil_r. }
  unfold filter_state in Hf. destruct (filter_policy opt) as [p|] eqn:Ep; cycle 1.
  { rewrite Hf. exists new_handle, r. by rewrite Hf. }
  destruct Hf as (b & fs & gs & ks & -> & Hb & Hfiled & _ & _). pose proof (oo_policy _ _ _ opt_ok) as Hl. rewrite Ep in Hl. destruct Hl as (Hl & _).
  destruct (finished_matches b fs gs ks _ Hb Hfiled Hoffs) as (b' & data & -> & Hbytes & Hm). cbn [rbind].
  destruct (WriteRawBlock_ok (set_filter r (Some (p, b'))) _ data Hh Ho Hbytes) as (f & s & o & -> & Hres). eexists _, _. split; [done|].
  unfold tb_ok at 1. rsimp. intros Hs. rewrite Hs in Hres. destruct Hres as (Hf & -> & Hst). pose proof Hf as (_ & _ & Ew).
  split_and!; [done| |by eexists|].
  - split; rsimp; try done. intros _. by eexists.
  - rewrite Ew. split; [by eapply stored_handle_ok, holding_size|]. by exists data.
Qed.

(** *** The metaindex block *)

Lemma filter_key_bytes p : Forall is_byte (policy_name p) -> Forall is_byte (filter_key p).
Proof. intros H. unfold filter_key. apply Forall_app. split; [|done]. vm_compute. repeat constructor; discriminate. Qed.

Lemma meta_add b k v interval : 1 <= interval < 2 ^ 31 - 1 -> built (interval := interval) b [] [0%nat] -> weight [(k, v)] < 2 ^ 32 ->
  exists b', builder_Add comparator interval b k v = Ret b' /\ holds_pairs interval b' [(k, v)].
Proof.
  intros Hi Hb Hw. destruct (builder_Add_ok Hi b [] [0%nat] k v Hb) as (b' & it & rs' & E & Ep & H'); [done|constructor|done|done|].
  exists b'. split; [done|]. exists [it], rs'. split; [done|]. cbn. by rewrite Ep.
Qed.

Definition meta_pairs (fh : BlockHandle) : pairs :=
  match filter_policy opt with None => [] | Some p => [(filter_key p, handle_bytes fh)] end.

Lemma write_metaindex_ok r fin pend fh :
  (tb_ok r = true -> core r fin pend [] /\ match filter_policy opt with None => filter_block_ r = None | Some p => is_Some (filter_block_ r) /\ handle_ok fh end) ->
  exists h r', write_metaindex Value Extend r fh new_handle = Ret (h, r') /\
    (tb_ok r' = true -> tb_ok r = true /\ steps r r' /\ handle_ok h /\ pairs_in (written (rep_file r')) h (meta_pairs fh)).
Proof.
  intros H. unfold write_metaindex. destruct (tb_ok r) eqn:Hok; [|exists new_handle, r; by rewrite Hok].
  destruct (H eq_refl) as [Hc Hf]. destruct (core_file _ _ _ _ Hc) as (Hh & Ho & _ & Eo & _). rewrite Eo.
  destruct (new_block_builder_ok (oo_interval _ _ _ opt_ok)) as (b & -> & Hb). cbn [rbind]. rewrite (oo_comparator _ _ _ opt_ok).
  assert (exists b', match filter_block_ r with
    | Some _ =>
        match filter_policy opt with
        | Some p => let! handle_encoding := handle_EncodeTo fh [] in builder_Add comparator (block_restart_interval opt) b (filter_key p) handle_encoding
        | None => UB
        end
    | None => Ret b
    end = Ret b' /\ holds_pairs (block_restart_interval opt) b' (meta_pairs fh) /\ weight (meta_pairs fh) < 2 ^ 32 /\ pairs_bytes (meta_pairs fh)) as (b' & -> & Hp & Hw & Hbytes).
  { unfold meta_pairs. pose proof (oo_policy _ _ _ opt_ok) as Hl. destruct (filter_policy opt) as [p|].
    - destruct Hf as [[x ->] Hfh]. destruct Hl as (_ & Hn & Hnl). rewrite handle_EncodeTo_ok by done. cbn [rbind app]. pose proof (handle_bytes_size fh Hfh) as Hhs. unfold kMaxEncodedLength in Hhs.
      assert (weight [(filter_key p, handle_bytes fh)] < 2 ^ 32) as Hw.
      { cbn [weight fst snd]. unfold filter_key. rewrite zlen_app. change (zlen (bytes_of "filter.")) with 7. lia. }
      destruct (meta_add b (filter_key p) (handle_bytes fh) _ (oo_interval _ _ _ opt_ok) Hb Hw) as (b' & -> & Hp). exists b'. split_and!; [done|done|done|].
      constructor; [|constructor]. split; [by apply filter_key_bytes|by apply handle_bytes_bytes].
    - rewrite Hf. exists b. split_and!; [done|by exists [], [0%nat]|done|constructor]. }
  cbn [rbind]. destruct (WriteBlock_ok r b' _ _ _ Hok Eo Hh Ho Hp Hw Hbytes) as (h & f & s & o & -> & Hres). cbn [rbind]. eexists h, _. split; [done|].
  unfold tb_ok at 1. rsimp. intros Hs. rewrite Hs in Hres. destruct Hres as (w' & Hf' & -> & Hin & _). pose proof Hf' as (_ & _ & Ew). split_and!; [done| | |].
  - split; rsimp; try done. intros _. by exists w'.
  - destruct Hin as (data & Hst & _). eapply stored_handle_ok; [exact Hst|]. by eapply holding_size.
  - by rewrite Ew.
Qed.

(** *** The index block *)

Lemma pairs_bytes_index es : Forall (fun e => valid (e_sep e) /\ handle_ok (e_handle e)) es -> pairs_bytes (index_pairs es).
Proof. intros H. apply Forall_map. eapply Forall_impl; [exact H|]. intros e [Hv Hh]. split; [by eapply laws_bytes|by apply handle_bytes_bytes]. Qed.

Lemma seps_valid es rest : seps_ok valid cmp es rest -> Forall (fun e => valid (e_sep e)) es.
Proof. intros H. apply Forall_forall. intros e He. apply list_elem_of_split in He as (a & b & ->). by destruct (H a e b eq_refl). Qed.

Lemma blocks_handles fin pend cur r : core r fin pend cur -> Forall (fun b : block => handle_ok (fst b)) (blocks_of fin pend).
Proof.
  intros [_ _ (w & Hh & _ & Hbl & _) _ _ _ _ _ _]. eapply Forall_impl; [exact Hbl|]. intros b [(data & Hst & _) _]. by eapply stored_handle_ok, holding_size.
Qed.

Lemma fin_handles r fin cur : core r fin None cur -> Forall (fun e => handle_ok (e_handle e)) fin.
Proof. intros H. apply blocks_handles in H. unfold blocks_of in H. rewrite app_nil_r, Forall_map in H. exact H. Qed.

(** The last block goes to the index under a successor of its last key. *)
Lemma last_entry_ok r fin pend kvs : core r fin pend [] -> rep_last_key r = default [] (fst <$> last (all_of fin pend [])) ->
  seps_ok valid cmp fin (pend_pairs pend ++ []) ->
  match pend with Some (h, _) => pending_index_entry r = true /\ pending_handle r = h | None => pending_index_entry r = false end ->
  kvs = all_of fin pend [] -> budget kvs ->
  exists r1 fin1, (if pending_index_entry r then
      let! last_key := FindShortSuccessor (opt_comparator (rep_options r)) (rep_last_key r) in index_entry r last_key
    else Ret r) = Ret r1 /\ core r1 fin1 None [] /\ seps_ok valid cmp fin1 [] /\ pairs_of fin1 = kvs /\ blocks_of fin1 None = blocks_of fin pend /\
    rep_file r1 = rep_file r.
Proof.
  intros Hc Hlast Hseps Hpend -> Hbud. rewrite app_nil_r in Hseps. destruct pend as [[h kvs]|].
  - destruct Hpend as [-> Hh]. cbn [pend_pairs] in Hseps. destruct (core_file _ _ _ _ Hc) as (_ & _ & _ & Eo & _). rewrite Eo, (oo_comparator _ _ _ opt_ok), Hlast.
    assert (kvs <> []) as Hkne by (destruct Hc as [_ _ (w & _ & _ & Hbl & _) _ _ _ _ _ _]; unfold blocks_of in Hbl; by apply Forall_app in Hbl as [_ [[_ Hk] _]%Forall_cons]).
    destruct (last kvs) as [kl|] eqn:El; [|by apply last_None in El]. rewrite last_all, El by done. cbn [default from_option fmap option_fmap option_map].
    pose proof (c_sorted _ _ _ _ Hc) as Hs. unfold all_of, pend_pairs in Hs. rewrite app_nil_r in Hs.
    assert (valid (fst kl)) as Hvl.
    { destruct Hs as [_ Hv]. eapply Forall_forall in Hv; [exact Hv|]. apply list_elem_of_fmap. exists kl. split; [done|]. destruct (proj1 (last_Some _ _) El) as [l' ->]. rewrite !elem_of_app. right. right. by left. }
    destruct (laws_successor (fst kl) Hvl) as (sep & Esep & Hvs & Hle & Hlen). change (id (fst kl)) with (fst kl). rewrite Esep. cbn [rbind].
    assert (Forall (fun kv => cmp (fst kv) sep <= 0) (pairs_of fin ++ kvs)) as Hbelow.
    { apply (above_last valid cmp _ (fst kl)); [done| |done|done]. rewrite last_app, El. done. }
    pose proof (seps_last valid cmp fin (mk_entry sep h kvs) Hseps Hvs Hbelow) as Hseps'.
    destruct (index_entry_ok r fin h kvs sep [] Hc Hh Hseps') as (b & -> & Hc'); [by rewrite El|done|].
    exists (set_index_block r b sep), (fin ++ [mk_entry sep h kvs]). split_and!; [done|done|done| |by apply blocks_of_push|done].
    unfold all_of, pend_pairs. by rewrite pairs_of_snoc, app_nil_r.
  - rewrite Hpend. exists r, fin. split_and!; try done. unfold all_of, pend_pairs. by rewrite !app_nil_r.
Qed.

Lemma write_index_ok r fin pend kvs :
  (tb_ok r = true -> core r fin pend [] /\ rep_last_key r = default [] (fst <$> last (all_of fin pend [])) /\
    seps_ok valid cmp fin (pend_pairs pend ++ []) /\
    match pend with Some (h, _) => pending_index_entry r = true /\ pending_handle r = h | None => pending_index_entry r = false end /\
    kvs = all_of fin pend []) -> budget kvs ->
  exists h r', write_index Value Extend r new_handle = Ret (h, r') /\
    (tb_ok r' = true -> tb_ok r = true /\ handle_ok h /\ exists es more, let w := written (rep_file r) ++ more in
      holding (rep_file r') w /\ rep_offset r' = zlen w /\ pairs_in w h (index_pairs es) /\ seps_ok valid cmp es [] /\ pairs_of es = kvs /\
      blocks_of es None = blocks_of fin pend /\ Forall (fun e => handle_ok (e_handle e)) es).
Proof.
  intros H Hbud. unfold write_index. destruct (tb_ok r) eqn:Hok; [|exists new_handle, r; by rewrite Hok].
  destruct (H eq_refl) as (Hc & Hlast & Hseps & Hpend & Ekvs).
  destruct (last_entry_ok r fin pend kvs Hc Hlast Hseps Hpend Ekvs Hbud) as (r1 & es & -> & Hc1 & Hs1 & Ep & Eb & Ef). cbn [rbind].
  destruct (core_file _ _ _ _ Hc1) as (Hh & Ho & Hok1 & Eo & _). rewrite Ef in Hh, Ho. pose proof (fin_handles _ _ _ Hc1) as Hhs.
  assert (weight (index_pairs es) < 2 ^ 32) as Hw by (pose proof (c_weight _ _ _ _ Hc1) as Hw; rewrite Ep in Hw; unfold budget in Hbud; lia).
  assert (pairs_bytes (index_pairs es)) as Hbytes by (apply pairs_bytes_index; apply Forall_and; split; [by eapply seps_valid|done]).
  rewrite <- Ef in Hh at 1. destruct (WriteBlock_ok r1 _ _ _ _ Hok1 Eo Hh Ho (c_index _ _ _ _ Hc1) Hw Hbytes) as (h & f & s & o & -> & Hres). cbn [rbind]. eexists h, _. split; [done|].
  unfold tb_ok at 1. rsimp. intros Hs. rewrite Hs in Hres. destruct Hres as (w' & Hf' & -> & Hin & _). split; [done|].
  split; [destruct Hin as (data & Hst & _); by eapply stored_handle_ok, holding_size|]. exists es, w'. by split_and!.
Qed.

(** *** The footer *)

(** Blocks are at increasing offsets. *)
Lemma offsets_distinct es : StronglySorted (fun a b : block => offset_ (fst a) < offset_ (fst b)) (blocks_of es None) ->
  NoDup (map (fun e => offset_ (e_handle e)) es).
Proof.
  unfold blocks_of. rewrite app_nil_r. induction es as [|e es IH]; cbn [map]; intros Hs; [constructor|].
  apply StronglySorted_inv in Hs as [Hs Hlt]. constructor; [|by apply IH].
  intros (x & E & Hx)%list_elem_of_fmap. rewrite Forall_map in Hlt. eapply Forall_forall in Hlt; [|exact Hx]. cbn in Hlt. lia.
Qed.

Lemma write_footer_ok r w mh ih : (tb_ok r = true -> holding (rep_file r) w /\ rep_offset r = zlen w /\ footer_ok (mk_footer mh ih)) ->
  exists r', write_footer r mh ih = Ret r' /\
    (tb_ok r' = true -> tb_ok r = true /\ let w' := w ++ footer_bytes (mk_footer mh ih) in holding (rep_file r') w' /\ rep_offset r' = zlen w').
Proof.
  intros H. unfold write_footer. destruct (tb_ok r) eqn:Hok; [|exists r; by rewrite Hok]. destruct (H eq_refl) as (Hh & Ho & Hf).
  rewrite (footer_EncodeTo_ok (mk_footer mh ih) Hf). cbn [rbind app]. destruct (Append_holding _ _ (footer_bytes (mk_footer mh ih)) Hh) as (s & f & -> & Hs). cbn [rbind].
  destruct (is_ok s) eqn:Es; eexists; (split; [done|]); unfold tb_ok; rsimp; rewrite Es; intros Hr; [|done].
  specialize (Hs eq_refl). split_and!; [done|done|]. pose proof (holding_size _ _ Hs) as Hb. rewrite zlen_app in *. rewrite Ho. apply wrap_small.
  pose proof (zlen_nonneg w). pose proof (zlen_nonneg (footer_bytes (mk_footer mh ih))). lia.
Qed.

(** *** The table *)

Lemma filter_layout file fh p fin pend es o : filter_written file fh p (added fin pend [] o) -> blocks_of es None = blocks_of fin pend ->
  exists fdata, handle_ok fh /\ stored_in file fh fdata /\ filter_good valid p fdata es.
Proof.
  intros (Hok & fdata & Hst & H) Eb. exists fdata. split_and!; [done|done|]. intros Hs. destruct (H Hs) as (rd & E & Ht & Hm). exists rd. split; [done|]. split; [exact Ht|].
  unfold added in Hm. cbn [map] in Hm. rewrite app_nil_r, <- Eb in Hm. unfold blocks_of in Hm. rewrite app_nil_r, map_map, Forall_concat, Forall_map in Hm.
  eapply Forall_impl; [exact Hm|]. intros e. cbn. unfold filter_keys. by rewrite Forall_map.
Qed.

Lemma core_closed r fin pend cur : core r fin pend cur -> core (set_closed r) fin pend cur.
Proof. by intros []. Qed.

Lemma blocks_Forall {P : block -> Prop} es : Forall P (blocks_of es None) -> Forall (fun e => P (e_handle e, e_pairs e)) es.
Proof. unfold blocks_of. by rewrite app_nil_r, Forall_map. Qed.

(** What is in the file once every step has succeeded. *)
Lemma table_written r w more fin pend es mh ih fh :
  core r fin pend [] -> written (rep_file r) = w ->
  blocks_of es None = blocks_of fin pend -> pairs_of es = all_of fin pend [] -> seps_ok valid cmp es [] -> Forall (fun e => handle_ok (e_handle e)) es ->
  let file := (w ++ more) ++ footer_bytes (mk_footer mh ih) in
  handle_ok mh -> handle_ok ih -> pairs_in (w ++ more) ih (index_pairs es) -> pairs_in (w ++ more) mh (meta_pairs fh) ->
  match filter_policy opt with None => True | Some p => filter_written (w ++ more) fh p (added fin pend [] (rep_offset r)) end ->
  table_file Value Extend valid cmp (filter_policy opt) file es.
Proof.
  intros Hc Hw Eb Ep Hseps Hhs file Hmh Hih Hi Hm Hf. destruct Hc as [_ _ (w1 & (_ & _ & Hw1) & _ & Hbl & Hoff) _ _ Hs _ _ _]. rewrite Hw in Hw1. subst w1.
  rewrite <- Eb in Hbl, Hoff. split.
  - apply blocks_Forall in Hbl. apply Forall_and. split; [|done]. eapply Forall_impl; [exact Hbl|]. intros e [H _]. subst file. rewrite <- app_assoc. by apply stored_pairs_app.
  - by apply offsets_distinct.
  - done.
  - by rewrite Ep.
  - apply blocks_Forall in Hbl. eapply Forall_impl; [exact Hbl|]. by intros e [_ H].
  - exists (w ++ more), mh, ih, (meta_pairs fh). split_and!; [done|by split|by apply stored_pairs_app|by apply stored_pairs_app|].
    unfold meta_layout, meta_pairs. destruct (filter_policy opt) as [p|]; [|done].
    destruct (filter_layout _ _ _ _ _ es _ Hf Eb) as (fdata & H1 & H2 & H3). exists fh, fdata. split_and!; [done|done|by apply stored_app|done].
Qed.

Lemma steps_core r r' fin pend cur : tb_ok r' = true -> steps r r' -> core r fin pend cur -> core r' fin pend cur.
Proof. intros H1 H2 H3. by apply (core_steps r). Qed.

Lemma steps_file r r' w : steps r r' -> tb_ok r' = true -> written (rep_file r) = w ->
  exists more, written (rep_file r') = w ++ more /\ holding (rep_file r') (w ++ more) /\ rep_offset r' = zlen (w ++ more).
Proof. intros [_ _ _ H] Hok <-. destruct (H Hok) as (more & Hh & Ho). exists more. split_and!; [apply Hh|done|done]. Qed.

(** The state [Finish] starts to write in. *)
Definition finishing (r : R) (fin : list entry) (pend : option block) (kvs : pairs) : Prop :=
  core r fin pend [] /\ filter_state r fin pend [] /\ rep_last_key r = default [] (fst <$> last (all_of fin pend [])) /\
  seps_ok valid cmp fin (pend_pairs pend ++ []) /\
  match pend with Some (h, _) => pending_index_entry r = true /\ pending_handle r = h | None => pending_index_entry r = false end /\
  kvs = all_of fin pend [].

Lemma finishing_closed r fin pend kvs : inv r fin pend [] -> kvs = all_of fin pend [] -> finishing (set_closed r) fin pend kvs.
Proof.
  intros [Hc _ Hf Hl Hs Hp] ->. split; [by apply core_closed|]. split_and!; [done|done|done| |done].
  destruct pend as [[h p]|]; [by destruct Hp as (H1 & H2 & _)|by destruct Hp].
Qed.

(** The three blocks and the footer. *)
Lemma finish_written r fin pend kvs : (tb_ok r = true -> finishing r fin pend kvs) -> budget kvs ->
  exists fh r1 mh r2 ih r3 r4,
    write_filter Value Extend r new_handle = Ret (fh, r1) /\ write_metaindex Value Extend r1 fh new_handle = Ret (mh, r2) /\
    write_index Value Extend r2 new_handle = Ret (ih, r3) /\ write_footer r3 mh ih = Ret r4 /\
    (tb_ok r4 = true -> exists w es, holding (rep_file r4) w /\ rep_offset r4 = zlen w /\
      table_file Value Extend valid cmp (filter_policy opt) w es /\ pairs_of es = kvs).
Proof.
  intros Hr Hbud. destruct (write_filter_ok r fin pend) as (fh & r1 & E1 & H1); [intros Hok; by destruct (Hr Hok) as (? & ? & _)|].
  assert (tb_ok r1 = true -> core r1 fin pend []) as Hc1.
  { intros Hok. destruct (H1 Hok) as (Hok0 & Hst & _). eapply steps_core; [done|exact Hst|]. by destruct (Hr Hok0). }
  destruct (write_metaindex_ok r1 fin pend fh) as (mh & r2 & E2 & H2).
  { intros Hok. split; [by apply Hc1|]. destruct (H1 Hok) as (_ & _ & Hf). destruct (filter_policy opt); [|done]. by destruct Hf as [? [? _]]. }
  destruct (write_index_ok r2 fin pend kvs) as (ih & r3 & E3 & H3); [|done|].
  { intros Hok. destruct (H2 Hok) as (Hok1 & Hst2 & _). destruct (H1 Hok1) as (Hok0 & Hst1 & _). destruct (Hr Hok0) as (_ & _ & Hl & Hs & Hp & Hk).
    split; [eapply steps_core; [done|exact Hst2|by apply Hc1]|]. destruct Hst1 as [_ _ (L1 & L2 & L3) _], Hst2 as [_ _ (M1 & M2 & M3) _].
    rewrite M1, M2, M3, L1, L2, L3. by split_and!. }
  destruct (write_footer_ok r3 (written (rep_file r3)) mh ih) as (r4 & E4 & H4).
  { intros Hok. destruct (H3 Hok) as (Hok2 & Hih & es & more & Hh & Ho & _). destruct (H2 Hok2) as (_ & _ & Hmh & _). pose proof Hh as (_ & _ & ->). by split_and!. }
  exists fh, r1, mh, r2, ih, r3, r4. split_and!; [done|done|done|done|]. intros Hok4. destruct (H4 Hok4) as (Hok3 & Hh4 & Ho4).
  destruct (H3 Hok3) as (Hok2 & Hih & es & m3 & (_ & _ & W3) & _ & Hi & Hseps & Ep & Eb & Hhs). destruct (H2 Hok2) as (Hok1 & Hst2 & Hmh & Hm). destruct (H1 Hok1) as (Hok0 & Hst1 & Hf).
  destruct (Hr Hok0) as (Hc & _ & _ & _ & _ & Hk). rewrite W3 in *. destruct (steps_file _ _ _ Hst1 Hok1 eq_refl) as (m1 & W1 & _). destruct (steps_file _ _ _ Hst2 Hok2 W1) as (m2 & W2 & _).
  rewrite W2, W1, <- !app_assoc in *. eexists _, es. split_and!; [exact Hh4|exact Ho4| |done].
  pose proof (table_written r (written (rep_file r)) (m1 ++ m2 ++ m3) fin pend es mh ih fh Hc) as T. rewrite <- !app_assoc in T. apply T; try done.
  - by rewrite Ep.
  - assert (forall a b c d : list Z, a ++ b ++ c ++ d = (a ++ b ++ c) ++ d) as -> by (intros; by rewrite <- !app_assoc). by apply stored_pairs_app.
  - destruct (filter_policy opt) as [p|]; [|done]. destruct Hf as [_ (Hfh & fdata & Hst & Hm')]. split; [done|]. exists fdata. split; [|done].
    rewrite app_assoc. by apply stored_app.
Qed.

(** [Finish] writes a table of the pairs, or returns a bad status. *)
Lemma tb_Finish_ok r kvs : tb_inv r kvs -> budget kvs ->
  exists s r', tb_Finish Value Extend r = Ret (s, r') /\
    (is_ok s = true -> exists w es, holding (rep_file r') w /\ FileSize r' = zlen w /\
      table_file Value Extend valid cmp (filter_policy opt) w es /\ pairs_of es = kvs).
Proof.
  intros Hi Hbud. destruct (finish_flush r kvs Hi Hbud) as (r1 & E & Hopen & H1). unfold tb_Finish. rewrite E. cbn [rbind]. rewrite Hopen. cbn [negb assert_ rbind].
  assert (exists fin pend, tb_ok (set_closed r1) = true -> finishing (set_closed r1) fin pend kvs) as (fin & pend & Hf).
  { destruct (tb_ok r1) eqn:Hok; [|exists [], None; unfold tb_ok in *; rsimp; congruence]. destruct (H1 eq_refl) as (fin & pend & Hinv & Ek). exists fin, pend. intros _. by apply finishing_closed. }
  destruct (finish_written (set_closed r1) fin pend kvs Hf Hbud) as (fh & r2 & mh & r3 & ih & r4 & r5 & -> & E2 & E3 & E4 & H). cbn [rbind].
  rewrite E2. cbn [rbind]. rewrite E3. cbn [rbind]. rewrite E4. cbn [rbind]. by exists (rep_status r5), r5.
Qed.

(** *** A whole table *)

Fixpoint add_all (r : R) (kvs : pairs) : res R :=
  match kvs with
  | [] => Ret r
  | (k, v) :: l => let! r := tb_Add Value Extend r k v in add_all r l
  end.

Lemma add_all_ok r kvs l : tb_inv r kvs -> sorted valid cmp (map fst (kvs ++ l)) -> Forall (fun kv => Forall is_byte (snd kv)) l -> budget (kvs ++ l) ->
  exists r', add_all r l = Ret r' /\ tb_inv r' (kvs ++ l).
Proof.
  revert r kvs. induction l as [|[k v] l IH]; intros r kvs Hi Hs Hv Hb; cbn [add_all].
  - exists r. by rewrite app_nil_r.
  - rewrite cons_middle, app_assoc in *. apply Forall_cons in Hv as [Hv Hvs]. pose proof Hs as Hs'. rewrite map_app in Hs'. apply sorted_app in Hs' as (Hs' & _ & _).
    pose proof (proj1 (budget_app _ _ Hb)) as Hb'. destruct (tb_Add_ok r kvs k v Hi Hs' Hv Hb') as (r1 & -> & Hi1). cbn [rbind]. by apply IH.
Qed.

Lemma build_table_ok f kvs : holding f [] -> sorted valid cmp (map fst kvs) -> Forall (fun kv => Forall is_byte (snd kv)) kvs -> budget kvs ->
  exists s r', (let! r := new_table_builder opt f in let! r := add_all r kvs in tb_Finish Value Extend r) = Ret (s, r') /\
    (is_ok s = true -> exists w es, holding (rep_file r') w /\ FileSize r' = zlen w /\
      table_file Value Extend valid cmp (filter_policy opt) w es /\ pairs_of es = kvs).
Proof.
  intros Hf Hs Hv Hb. destruct (new_table_builder_ok f Hf) as (r & -> & Hi). cbn [rbind].
  destruct (add_all_ok r [] kvs Hi Hs Hv Hb) as (r1 & -> & Hi1). cbn [rbind]. by apply tb_Finish_ok.
Qed.

End Builder.
