(* ===== verification/LdbTable.v ===== *)
(** * LevelDB: reading tables (include/leveldb/table.h, table/table.cc, include/leveldb/cache.h)

    [Table::Open], the iterators over its blocks and over the whole table, lookups
    and approximate offsets.  Blocks may be shared through a cache, an abstract
    class of which the contract is [LawfulCache]. *)
From S2P Require Import Prelude.
From S2P Require Import LdbCoding LdbStatus LdbKeys LdbIterator LdbBlock LdbFormat LdbFilterBlock LdbTwoLevel LdbTableBuilder.
From Stdlib Require Import ZArith Lia.
From stdpp Require Import base tactics numbers list strings.
#[local] Open Scope Z_scope.

(** ** Caches *)

(** The methods of [Cache] over the state of a cache; a value stands for the
    pointer and its deleter. *)
Class Cache (V H C : Type) : Type := {
  cache_Insert : C -> list Z -> V -> Z -> res (H * C);
  cache_Lookup : C -> list Z -> res (option H * C);
  cache_Release : C -> H -> res C;
  cache_Value : C -> H -> res V;
  cache_Erase : C -> list Z -> res C;
  cache_NewId : C -> Z * C;
  cache_Prune : C -> res C;
  cache_TotalCharge : C -> Z;
}.

(** What a client relies on.  [cache_ok P c hs]: every value in the cache has been
    inserted under a key for which [P] holds of it, and [hs] are the handles not
    released, with their values. *)
Class LawfulCache (V H C : Type) {cache : Cache V H C} (cache_ok : (list Z -> V -> Prop) -> C -> list (H * V) -> Prop) : Prop := {
  lookup_ok P c hs key : cache_ok P c hs -> zlen hs < 2 ^ 30 ->
    exists r c', cache_Lookup c key = Ret (r, c') /\
      match r with None => cache_ok P c' hs | Some h => exists v, P key v /\ cache_ok P c' ((h, v) :: hs) end;
  insert_ok P c hs key v charge : cache_ok P c hs -> zlen hs < 2 ^ 30 -> P key v -> 1 <= charge < 2 ^ 32 ->
    exists h c', cache_Insert c key v charge = Ret (h, c') /\ cache_ok P c' ((h, v) :: hs);
  value_ok P c hs h v : cache_ok P c hs -> (h, v) ∈ hs -> cache_Value c h = Ret v;
  release_ok P c hs1 h v hs2 : cache_ok P c (hs1 ++ (h, v) :: hs2) -> exists c', cache_Release c h = Ret c' /\ cache_ok P c' (hs1 ++ hs2);
  erase_ok P c hs key : cache_ok P c hs -> exists c', cache_Erase c key = Ret c' /\ cache_ok P c' hs;
  prune_ok P c hs : cache_ok P c hs -> exists c', cache_Prune c = Ret c' /\ cache_ok P c' hs;
  new_id_ok P c hs : cache_ok P c hs -> cache_ok P (snd (cache_NewId c)) hs;
}.

(** ** Tables *)

(** [Table::Rep].  [status] is never used, and [filter_data] only frees memory. *)
Record Table := mk_table {
  t_options : Options;
  t_file : RandomAccessFile;
  cache_id : Z;
  t_filter : option FilterBlockReader;
  t_metaindex_handle : BlockHandle;
  t_index_block : Block;
}.

(** The cleanup registered on the iterator of a block. *)
Inductive Cleanup (H : Type) : Type :=
| NoCleanup
| DeleteBlock
| ReleaseBlock (h : H).
Arguments NoCleanup {H}.
Arguments DeleteBlock {H}.
Arguments ReleaseBlock {H} _.

Section Table.
Context {H C : Type} {cache : Cache Block H C} (Value : list Z -> Z).

(** The cache of the options, or no cache; its state is passed along. *)
Abbreviation BlockCache := (option C).

(** *** Opening *)

Definition internal_read_options (options : Options) : ReadOptions := mk_read_options (paranoid_checks options) true.

Definition set_reader (t : Table) (r : FilterBlockReader) : Table :=
  mk_table (t_options t) (t_file t) (cache_id t) (Some r) (t_metaindex_handle t) (t_index_block t).

Definition ReadFilter (t : Table) (filter_handle_value : list Z) : res Table :=
  let '(s, filter_handle, _) := handle_DecodeFrom new_handle filter_handle_value in
  if negb (is_ok s) then Ret t
  else
    let! (s, block) := ReadBlock Value (t_file t) (internal_read_options (t_options t)) filter_handle in
    if negb (is_ok s) then Ret t
    else
      let! r := new_filter_reader (c_data block) in
      Ret (set_reader t r).

Definition ReadMeta (t : Table) (metaindex : BlockHandle) : res Table :=
  match filter_policy (t_options t) with
  | None => Ret t
  | Some p =>
      let! (s, contents) := ReadBlock Value (t_file t) (internal_read_options (t_options t)) metaindex in
      if negb (is_ok s) then Ret t
      else
        let! meta := new_block (c_data contents) in
        let! iter := block_NewIterator meta in
        let key := filter_key p in
        let! iter := Seek (block_iterator BytewiseComparator) iter key in
        if Valid (block_iterator BytewiseComparator) iter then
          let! k := it_key (block_iterator BytewiseComparator) iter in
          if bool_decide (k = key) then
            let! v := it_value (block_iterator BytewiseComparator) iter in
            ReadFilter t v
          else Ret t
        else Ret t
  end.

(** The input lies in [footer_space], the reader's own buffer, or elsewhere: when the file
    gives fewer bytes than it was asked for, the rest of the buffer is uninitialised,
    and [footer_DecodeFrom] is undefined. *)
Definition Open (options : Options) (file : RandomAccessFile) (size : Z) (block_cache : BlockCache) : res (Status * option Table * BlockCache) :=
  if size <? kEncodedLength then Ret (Corruption (bytes_of "file is too short to be an sstable") [], None, block_cache)
  else
    let! (s, footer_input, _) := file_Read file (size - kEncodedLength) kEncodedLength in
    if negb (is_ok s) then Ret (s, None, block_cache)
    else
      let! (s, footer) := footer_DecodeFrom (mk_footer new_handle new_handle) footer_input in
      if negb (is_ok s) then Ret (s, None, block_cache)
      else
        let! (s, contents) := ReadBlock Value file (internal_read_options options) (index_handle footer) in
        if is_ok s then
          let! index_block := new_block (c_data contents) in
          let (id, block_cache) :=
            match block_cache with
            | Some c => let (id, c) := cache_NewId c in (id, Some c)
            | None => (0, None)
            end in
          let! t := ReadMeta (mk_table options file id None (metaindex_handle footer) index_block) (metaindex_handle footer) in
          Ret (s, Some t, block_cache)
        else Ret (s, None, block_cache).

(** *** Blocks *)

Definition cache_key (id offset : Z) : list Z := EncodeFixed64 id ++ EncodeFixed64 offset.

(** The iterator of a block, or an iterator with an error, with its cleanup. *)
Definition data_iterator (comparator : Comparator) : Iterator ((BlockIter + Status) * Cleanup H) := alongside (block_iterator comparator).

(** The lookup of [BlockReader] in the cache, or the file; the block found, if
    any, with the handle when it is in the cache. *)
Definition read_cached (t : Table) (options : ReadOptions) (handle : BlockHandle) (c : C) : res (Status * option (Block * option H) * C) :=
  let key := cache_key (cache_id t) (offset_ handle) in
  let! (cache_handle, c) := cache_Lookup c key in
  match cache_handle with
  | Some h => let! block := cache_Value c h in Ret (status_ok, Some (block, Some h), c)
  | None =>
      let! (s, contents) := ReadBlock Value (t_file t) options handle in
      if is_ok s then
        let! block := new_block (c_data contents) in
        if cachable contents && fill_cache options then
          let! (h, c) := cache_Insert c key block (size_ block) in Ret (s, Some (block, Some h), c)
        else Ret (s, Some (block, None), c)
      else Ret (s, None, c)
  end.

Definition read_uncached (t : Table) (options : ReadOptions) (handle : BlockHandle) : res (Status * option (Block * option H)) :=
  let! (s, contents) := ReadBlock Value (t_file t) options handle in
  if is_ok s then let! block := new_block (c_data contents) in Ret (s, Some (block, None)) else Ret (s, None).

Definition BlockReader (t : Table) (options : ReadOptions) (index_value : list Z) (block_cache : BlockCache)
    : res ((BlockIter + Status) * Cleanup H * BlockCache) :=
  let '(s, handle, _) := handle_DecodeFrom new_handle index_value in
  let! (s, block, block_cache) :=
    if is_ok s then
      match block_cache with
      | Some c => let! (s, block, c) := read_cached t options handle c in Ret (s, block, Some c)
      | None => let! (s, block) := read_uncached t options handle in Ret (s, block, None)
      end
    else Ret (s, None, block_cache) in
  match block with
  | Some (block, cache_handle) =>
      let! iter := block_NewIterator block in
      Ret (iter, match cache_handle with None => DeleteBlock | Some h => ReleaseBlock h end, block_cache)
  | None => Ret (inr (NewErrorIterator s), NoCleanup, block_cache)
  end.

(** [delete iter] runs the cleanup. *)
Definition delete_iter (d : (BlockIter + Status) * Cleanup H) (block_cache : BlockCache) : res BlockCache :=
  match snd d with
  | NoCleanup => Ret block_cache
  | DeleteBlock => Ret block_cache
  | ReleaseBlock h =>
      match block_cache with Some c => let! c := cache_Release c h in Ret (Some c) | None => UB end
  end.

(** *** The operations *)

Abbreviation TableIterator := (TwoLevelIterator (BlockIter + Status) ((BlockIter + Status) * Cleanup H) BlockCache).

Definition index_iterator (t : Table) : Iterator (BlockIter + Status) := block_iterator (opt_comparator (t_options t)).

Definition table_iterator (fuel : nat) (t : Table) (options : ReadOptions) : Iterator TableIterator :=
  two_level_iterator (index_iterator t) (data_iterator (opt_comparator (t_options t))) (BlockReader t options) delete_iter fuel.

Definition table_NewIterator (t : Table) (block_cache : BlockCache) : res TableIterator :=
  let! i := block_NewIterator (t_index_block t) in
  new_two_level (index_iterator t) i block_cache.

(** The answer of the filter for a block handle; it is asked only when there is one. *)
Definition filter_excludes (t : Table) (handle_value k : list Z) : res bool :=
  match t_filter t, filter_policy (t_options t) with
  | Some r, Some p =>
      let '(s, handle, _) := handle_DecodeFrom new_handle handle_value in
      if is_ok s then let! m := reader_KeyMayMatch p r (offset_ handle) k in Ret (negb m) else Ret false
  | Some _, None => UB
  | None, _ => Ret false
  end.

(** The status, and the pair [handle_result] is called with: in a block, and in the table. *)
Definition get_in_block (t : Table) (options : ReadOptions) (handle_value k : list Z) (block_cache : BlockCache)
    : res (Status * option (list Z * list Z) * BlockCache) :=
  let data := data_iterator (opt_comparator (t_options t)) in
  let! (block_iter, block_cache) := BlockReader t options handle_value block_cache in
  let! block_iter := Seek data block_iter k in
  let! found :=
    if Valid data block_iter then
      let! key := it_key data block_iter in
      let! value := it_value data block_iter in
      Ret (Some (key, value))
    else Ret None in
  let s := it_status data block_iter in
  let! block_cache := delete_iter block_iter block_cache in
  Ret (s, found, block_cache).

Definition InternalGet (t : Table) (options : ReadOptions) (k : list Z) (block_cache : BlockCache)
    : res (Status * option (list Z * list Z) * BlockCache) :=
  let! iiter := block_NewIterator (t_index_block t) in
  let! iiter := Seek (index_iterator t) iiter k in
  let! (s, found, block_cache) :=
    if Valid (index_iterator t) iiter then
      let! handle_value := it_value (index_iterator t) iiter in
      let! excluded := filter_excludes t handle_value k in
      if (excluded : bool) then Ret (status_ok, None, block_cache)
      else get_in_block t options handle_value k block_cache
    else Ret (status_ok, None, block_cache) in
  let s := if is_ok s then it_status (index_iterator t) iiter else s in
  Ret (s, found, block_cache).

Definition ApproximateOffsetOf (t : Table) (key : list Z) : res Z :=
  let! index_iter := block_NewIterator (t_index_block t) in
  let! index_iter := Seek (index_iterator t) index_iter key in
  if Valid (index_iterator t) index_iter then
    let! input := it_value (index_iterator t) index_iter in
    let '(s, handle, _) := handle_DecodeFrom new_handle input in
    if is_ok s then Ret (offset_ handle) else Ret (offset_ (t_metaindex_handle t))
  else Ret (offset_ (t_metaindex_handle t)).

End Table.
