(* ===== verification/LdbTableSpec.v ===== *)
(** * LevelDB: what a table reader finds

    Opening a file that holds a table gives a reader whose iterator goes over just
    the pairs of the table, whose lookups find every pair, and whose blocks may
    come from the file or from a cache that other readers use. *)
From S2P Require Import Prelude WireSpec.
From S2P Require Import LdbCoding LdbCrc32c LdbStatus LdbOrder LdbKeys LdbIterator LdbBlock LdbBlockSpec LdbFormat LdbFilterBlock LdbTwoLevel LdbTableBuilder LdbTableLayout LdbTable.
From Stdlib Require Import ZArith Lia.
From stdpp Require Import base tactics numbers list strings.
#[local] Open Scope Z_scope.

(** The blocks of sorted pairs are sorted. *)
Lemma block_sorted valid cmp es e : sorted valid cmp (map fst (pairs_of es)) -> e ∈ es -> sorted valid cmp (map fst (e_pairs e)).
Proof.
  intros Hs (a & b & ->)%list_elem_of_split. rewrite pairs_of_app, pairs_of_cons, !map_app in Hs.
  apply sorted_app in Hs as (_ & Hs & _). by apply sorted_app in Hs as (Hs & _).
Qed.

Lemma index_lookup es i : index_pairs es !! i = (fun e => (e_sep e, handle_bytes (e_handle e))) <$> (es !! i).
Proof. apply list_lookup_fmap. Qed.

(** A key that is there is its own lower bound. *)
Lemma lower_bound_found {valid cmp} {order : KeyOrder valid cmp} kvs (k v : list Z) : sorted valid cmp (map fst kvs) -> (k, v) ∈ kvs ->
  kvs !! lower_bound cmp k kvs = Some (k, v).
Proof.
  intros Hs (a & b & ->)%list_elem_of_split. pose proof Hs as Hs'. rewrite map_app in Hs'. apply sorted_app in Hs' as (Ha & Hb & Hlt). cbn [map fst] in Hb.
  apply sorted_cons in Hb as (Hv & _ & _). rewrite (lower_bound_unique k a ((k, v) :: b) Hv Hs).
  - by rewrite list_lookup_middle.
  - intros k' v' El. apply (Hlt k' k); [|by left]. apply list_elem_of_fmap. exists (k', v'). split; [done|]. rewrite last_lookup in El. by eapply list_elem_of_lookup_2.
  - intros k' v' [= <- <-]. rewrite (order_refl (valid := valid) (cmp := cmp) k Hv). lia.
Qed.

Section Reading.
Context {H C : Type} {cache : Cache Block H C} {cache_ok : (list Z -> Block -> Prop) -> C -> list (H * Block) -> Prop}.
Context {lawful_cache : LawfulCache Block H C cache_ok}.
Context {Value : list Z -> Z} {Extend : Z -> list Z -> Z} {checksum : Checksum Value Extend}.
Context {comparator : Comparator} {valid : list Z -> Prop} {cmp : list Z -> list Z -> Z} {laws : ComparatorLaws comparator valid cmp}.
Context (opt : Options) (file : RandomAccessFile) (contents : list Z) {lawful_file : LawfulRandom file contents} (es : list entry).

(** The options, and a table in the file; with filters the file is below 4 GB. *)
Context (opt_comparator_ok : opt_comparator opt = comparator).
Context (opt_policy_ok : match filter_policy opt with Some p => Forall is_byte (policy_name p) /\ zlen contents < 2 ^ 32 | None => True end).
Context (small : zlen contents < 2 ^ 63).
Context (table : table_file Value Extend valid cmp (filter_policy opt) contents es).

Abbreviation stored_in := (stored Value Extend contents).
Abbreviation pairs_in := (stored_pairs Value Extend contents).

(** ** Reading blocks *)

Lemma read_stored options h data : stored_in h data -> exists b, ReadBlock Value file options h = Ret (status_ok, mk_contents data b b).
Proof.
  intros Hst. pose proof (stored_before _ _ _ _ _ Hst) as (H1 & H2 & H3). destruct Hst as (pre & post & E & -> & Hb). cbn [offset_ hsize_] in *.
  apply (ReadBlock_ok (contents := contents) (Extend := Extend) options pre data post); [done| |done]. lia.
Qed.

Lemma open_stored options h kvs : pairs_in h kvs -> exists b data blk s,
  stored_in h data /\ ReadBlock Value file options h = Ret (status_ok, mk_contents data b b) /\ new_block data = Ret blk /\ block_NewIterator blk = Ret s /\ pairs_at kvs s None /\ 1 <= size_ blk < 2 ^ 32.
Proof.
  intros (data & Hst & Hl). destruct (read_stored options h data Hst) as (b & Er). destruct (block_layout_open kvs data Hl) as (blk & s & E1 & E2 & H3 & H4).
  exists b, data, blk, s. destruct H4. by split_and!.
Qed.

(** ** Opening *)

Definition filter_ok (f : option FilterBlockReader) : Prop :=
  match f with
  | None => True
  | Some r => exists p, filter_policy opt = Some p /\ (forall o key, 0 <= o -> valid key -> exists m, reader_KeyMayMatch p r o key = Ret m) /\
      Forall (fun e => Forall (fun kv => reader_KeyMayMatch p r (offset_ (e_handle e)) (fst kv) = Ret true) (e_pairs e)) es
  end.

Definition table_ok (t : Table) : Prop :=
  t_options t = opt /\ t_file t = file /\ filter_ok (t_filter t) /\ exists s, block_NewIterator (t_index_block t) = Ret s /\ pairs_at (index_pairs es) s None.

Lemma ReadFilter_ok t fh fdata p : t_options t = opt -> t_file t = file -> filter_policy opt = Some p -> handle_ok fh -> stored_in fh fdata -> filter_good valid p fdata es ->
  exists r, ReadFilter Value t (handle_bytes fh) = Ret (set_reader t r) /\ filter_ok (Some r).
Proof.
  intros Eo Ef Ep Hfh Hst Hg. unfold ReadFilter. rewrite <- (app_nil_r (handle_bytes fh)), handle_DecodeFrom_ok by done. cbn [is_ok status_ok negb].
  rewrite Ef. destruct (read_stored (internal_read_options (t_options t)) fh fdata Hst) as (b & ->). cbn [rbind is_ok status_ok negb c_data].
  destruct Hg as (r & -> & Ht & Hm).
  { rewrite Ep in opt_policy_ok. destruct (stored_before _ _ _ _ _ Hst) as (H1 & H2 & H3), Hst as (pre & post & Ec & -> & _). cbn in *. unfold kBlockTrailerSize in *. lia. }
  cbn [rbind]. exists r. split; [done|]. by exists p.
Qed.

(** With one pair the order of the options and the bytewise order agree. *)
Lemma ReadMeta_ok t mh meta : t_options t = opt -> t_file t = file -> t_filter t = None -> pairs_in mh meta -> meta_layout Value Extend valid (filter_policy opt) contents es meta ->
  exists t', ReadMeta Value t mh = Ret t' /\ t_options t' = opt /\ t_file t' = file /\ cache_id t' = cache_id t /\ t_metaindex_handle t' = t_metaindex_handle t /\
    t_index_block t' = t_index_block t /\ filter_ok (t_filter t').
Proof.
  intros Eo Ef En Hin Hm. unfold ReadMeta. rewrite Eo. unfold meta_layout in Hm. pose proof opt_policy_ok as Hpol.
  destruct (filter_policy opt) as [p|] eqn:Ep in Hm, Hpol |- *; [|exists t; by rewrite En].
  destruct Hm as (fh & fdata & -> & Hfh & Hst & Hg). rewrite Ef. destruct (open_stored (internal_read_options opt) mh _ Hin) as (b & data & blk & s & _ & -> & E1 & E2 & Hs & Hsize).
  cbn [rbind is_ok status_ok negb c_data]. rewrite E1. cbn [rbind]. rewrite E2. cbn [rbind].
  assert (Forall is_byte (filter_key p)) as Hk.
  { unfold filter_key. apply Forall_app. split; [|apply Hpol]. vm_compute. repeat constructor; discriminate. }
  assert (sorted (Forall is_byte) slice_compare (map fst [(filter_key p, handle_bytes fh)])) as Hsort by (apply sorted_cons; split_and!; [done|constructor|apply sorted_nil]).
  pose proof (pairs_at_lawful (comparator := BytewiseComparator) _ Hsort) as L. destruct (iter_seek s None (filter_key p) Hs Hk) as (s' & -> & Hs'). cbn [rbind].
  assert (lower_bound slice_compare (filter_key p) [(filter_key p, handle_bytes fh)] = 0%nat) as E0.
  { cbn [lower_bound]. by rewrite (order_refl (valid := Forall is_byte) (cmp := slice_compare) (filter_key p) Hk). }
  rewrite E0, position_lt in Hs' by (cbn; lia). rewrite (iter_valid s' _ Hs'), bool_decide_true by (by eexists).
  destruct (iter_pair s' 0%nat Hs') as (k & v & [= <- <-] & -> & ->). cbn [rbind]. rewrite bool_decide_true by done.
  destruct (ReadFilter_ok t fh fdata p Eo Ef Ep Hfh Hst Hg) as (r & -> & Hr). by exists (set_reader t r).
Qed.

(** The cache only gives an id. *)
Definition opened (env env' : option C) (id : Z) : Prop :=
  match env with Some c => env' = Some (snd (cache_NewId c)) /\ id = fst (cache_NewId c) | None => env' = None /\ id = 0 end.

Lemma Open_ok env : exists t env', Open Value opt file (zlen contents) env = Ret (status_ok, Some t, env') /\ table_ok t /\ opened env env' (cache_id t).
Proof.
  destruct (tf_footer _ _ _ _ _ _ _ table) as (body & mh & ih & meta & Ec & Hf & Hi & Hm & Hl). pose proof (footer_size _ Hf) as Hfs. unfold Open.
  assert (zlen contents = zlen body + kEncodedLength) as El by (by rewrite Ec, zlen_app, Hfs). pose proof (zlen_nonneg body) as Hb0.
  destruct (Z.ltb_spec (zlen contents) kEncodedLength) as [Hlt|_]; [lia|]. rewrite El. replace (zlen body + kEncodedLength - kEncodedLength) with (zlen body) by lia. rewrite <- Hfs.
  destruct (random_read_at (contents := contents) body (footer_bytes (mk_footer mh ih)) []) as (in_buf & ->); [by rewrite app_nil_r|]. cbn [rbind is_ok status_ok negb].
  rewrite <- (app_nil_r (footer_bytes (mk_footer mh ih))), footer_DecodeFrom_ok by done. cbn [rbind is_ok status_ok negb].
  change (LdbFormat.index_handle (mk_footer mh ih)) with ih. destruct (open_stored (internal_read_options opt) ih _ Hi) as (b & data & blk & s & _ & -> & E1 & E2 & Hs & Hsize).
  cbn [rbind is_ok status_ok c_data]. rewrite E1. cbn [rbind]. change (LdbFormat.metaindex_handle (mk_footer mh ih)) with mh.
  destruct env as [c|].
  - destruct (cache_NewId c) as [id c'] eqn:Eid.
    destruct (ReadMeta_ok (mk_table opt file id None mh blk) mh meta) as (t & -> & H1 & H2 & H3 & _ & H5 & H6); [done..|]. cbn [rbind].
    exists t, (Some c'). split; [done|]. split; [|unfold opened; by rewrite Eid, H3]. split_and!; [done|done|done|]. rewrite H5. by exists s.
  - destruct (ReadMeta_ok (mk_table opt file 0 None mh blk) mh meta) as (t & -> & H1 & H2 & H3 & _ & H5 & H6); [done..|]. cbn [rbind].
    exists t, None. split; [done|]. split; [|done]. split_and!; [done|done|done|]. rewrite H5. by exists s.
Qed.

(** A short file is refused. *)
Lemma Open_short env size : size < kEncodedLength -> Open Value opt file size env = Ret (Corruption (bytes_of "file is too short to be an sstable") [], None, env).
Proof. intros Hs. unfold Open. by destruct (Z.ltb_spec size kEncodedLength); [|lia]. Qed.

(** ** The blocks of the table *)

(** The pairs of the block with this encoded handle. *)
Fixpoint find_block (l : list entry) (hb : list Z) : pairs :=
  match l with
  | [] => []
  | e :: l => if bool_decide (handle_bytes (e_handle e) = hb) then e_pairs e else find_block l hb
  end.

Definition block_pairs (hb : list Z) : pairs := find_block es hb.

Lemma es_handle_ok e : e ∈ es -> handle_ok (e_handle e) /\ pairs_in (e_handle e) (e_pairs e).
Proof. intros He. pose proof (tf_blocks _ _ _ _ _ _ _ table) as Hb. eapply Forall_forall in Hb as [H1 H2]; [by split|exact He]. Qed.

Lemma find_block_ok l e : Forall (fun e => handle_ok (e_handle e)) l -> NoDup (map (fun e => offset_ (e_handle e)) l) -> e ∈ l ->
  find_block l (handle_bytes (e_handle e)) = e_pairs e.
Proof.
  induction l as [|x l IH]; intros Hok Hd He; [by apply elem_of_nil in He|]. cbn [find_block]. apply Forall_cons in Hok as [Hx Hok]. apply NoDup_cons in Hd as [Hn Hd].
  apply elem_of_cons in He as [->|He]; [by rewrite bool_decide_true|]. rewrite bool_decide_false; [by apply IH|].
  intros E. eapply Forall_forall in Hok; [|exact He]. apply handle_bytes_inj in E; [|done|done]. apply Hn. rewrite E. apply list_elem_of_fmap. by exists e.
Qed.

Lemma block_pairs_ok e : e ∈ es -> block_pairs (handle_bytes (e_handle e)) = e_pairs e.
Proof.
  apply find_block_ok; [|by destruct table]. apply Forall_forall. intros x Hx. by apply es_handle_ok.
Qed.

Lemma all_pairs_ok : all_pairs (index_pairs es) block_pairs = pairs_of es.
Proof.
  unfold all_pairs, blocks, pairs_of, index_pairs. rewrite <- list_fmap_compose. f_equal. apply list_fmap_ext. intros i e Ei. cbn. apply block_pairs_ok. by eapply list_elem_of_lookup_2.
Qed.

Lemma index_handle hb : hb ∈ map snd (index_pairs es) -> exists e, e ∈ es /\ hb = handle_bytes (e_handle e).
Proof.
  unfold index_pairs. rewrite map_map. intros (e & -> & He)%list_elem_of_fmap. by exists e.
Qed.

Lemma sorted_valid kvs : sorted valid cmp (map fst kvs) -> Forall (fun kv : list Z * list Z => valid (fst kv)) kvs.
Proof. intros [_ Hv]. by rewrite Forall_map in Hv. Qed.

Lemma es_separated : separated (valid := valid) (cmp := cmp) (index_pairs es) block_pairs.
Proof.
  destruct table as [_ _ Hseps Hs _ _]. pose proof (sorted_valid _ Hs) as Hv. split.
  - apply Forall_map, Forall_forall. intros e (a & b & E)%list_elem_of_split. by destruct (Hseps a e b E).
  - intros i j ki hi kj hj. rewrite !index_lookup. intros (ei & Ei & [= -> ->])%fmap_Some (ej & Ej & [= -> ->])%fmap_Some.
    rewrite block_pairs_ok by (by eapply list_elem_of_lookup_2). pose proof (take_drop_middle _ _ _ Ei) as E. destruct (Hseps _ _ _ (eq_sym E)) as (_ & Hle & Hlt).
    assert (Forall (fun kv => valid (fst kv)) (e_pairs ej)) as Hvj.
    { rewrite <- (take_drop_middle _ _ _ Ej), pairs_of_app, pairs_of_cons in Hv. by apply Forall_app in Hv as [_ [Hv _]%Forall_app]. }
    apply Forall_and. split; [done|]. destruct (Nat.leb_spec j i).
    + apply Forall_app in Hle as [Hle1 Hle2]. destruct (decide (j = i)) as [->|Hne]; [by replace ej with ei by congruence|].
      assert (ej ∈ firstn i es) as (a & b & Ea)%list_elem_of_split.
      { apply (list_elem_of_lookup_2 _ j). rewrite lookup_take_lt by lia. done. }
      rewrite Ea, pairs_of_app, pairs_of_cons in Hle1. by apply Forall_app in Hle1 as [_ [Hle1 _]%Forall_app].
    + assert (ej ∈ skipn (S i) es) as (a & b & Ea)%list_elem_of_split.
      { apply (list_elem_of_lookup_2 _ (j - S i)). rewrite lookup_drop. by replace (S i + (j - S i))%nat with j by lia. }
      rewrite app_nil_r, Ea, pairs_of_app, pairs_of_cons in Hlt. by apply Forall_app in Hlt as [_ [Hlt _]%Forall_app].
Qed.

(** The block a key is in is the one the index finds. *)
Lemma find_index a e b k v : es = a ++ e :: b -> (k, v) ∈ e_pairs e -> lower_bound cmp k (index_pairs es) = length a.
Proof.
  intros E Hk. destruct table as [_ _ Hseps Hs Hne _]. pose proof (sorted_valid _ Hs) as Hv. pose proof (seps_sorted valid cmp es Hseps Hne Hs) as Hi.
  assert (valid k) as Hvk by (rewrite E, pairs_of_app, pairs_of_cons in Hv; apply Forall_app in Hv as [_ [Hv _]%Forall_app]; eapply Forall_forall in Hv; [|exact Hk]; done).
  rewrite E in Hi |- *. unfold index_pairs in *. rewrite map_app in *. cbn [map] in *.
  rewrite (lower_bound_unique (valid := valid) (cmp := cmp) k _ _ Hvk Hi); [by rewrite length_map| |].
  - intros k' h' El. destruct a as [|x a _] using rev_ind; [done|]. rewrite map_app in El. cbn [map] in El. rewrite last_snoc in El. injection El as <- _.
    destruct (Hseps a x (e :: b)) as (_ & _ & Hlt); [by rewrite E, <- app_assoc|]. rewrite pairs_of_cons in Hlt. apply Forall_app in Hlt as [[Hlt _]%Forall_app _].
    eapply Forall_forall in Hlt; [|exact Hk]. done.
  - intros k' h' [= <- _]. destruct (Hseps a e b E) as (Hvs & Hle & _). apply Forall_app in Hle as [_ Hle]. eapply Forall_forall in Hle; [|exact Hk]. cbn in Hle.
    pose proof (order_flip (valid := valid) (cmp := cmp) k (e_sep e) Hvk Hvs). lia.
Qed.

(** ** Sharing the cache *)

(** What is in the cache under the table's id are its blocks; [others] are the
    handles that other readers hold. *)
Context (P : list Z -> Block -> Prop) (others : list (H * Block)) (others_few : zlen others < 2 ^ 29).

Definition ours (id : Z) : Prop := forall e data blk, e ∈ es -> stored_in (e_handle e) data ->
  (P (cache_key id (offset_ (e_handle e))) blk <-> new_block data = Ret blk).

(** A token is the handle an iterator releases, if any. *)
Abbreviation Token := (option (H * Block)).

Definition tokens (toks : list Token) : list (H * Block) := omap id toks.

Definition env_ok (id : Z) (env : option C) (toks : list Token) : Prop :=
  match env with
  | None => Forall (fun tok => tok = None) toks
  | Some c => ours id /\ cache_ok P c (tokens toks ++ others)
  end.

Definition cleanup_of (tok : Token) : Cleanup H := match tok with None => DeleteBlock | Some (h, _) => ReleaseBlock h end.

Definition data_at (hb : list Z) (tok : Token) (d : (BlockIter + Status) * Cleanup H) (p : option nat) : Prop :=
  pairs_at (block_pairs hb) (fst d) p /\ snd d = cleanup_of tok.

Lemma tokens_few toks : (length toks <= 1)%nat -> zlen (tokens toks ++ others) < 2 ^ 30.
Proof.
  intros Hl. rewrite zlen_app. enough (zlen (tokens toks) <= 1) by lia. destruct toks as [|[x|] [|? ?]]; cbn in *; (lia || done).
Qed.

(** The block comes from the cache or from the file. *)
Lemma read_cached_ok t options e c toks : table_ok t -> e ∈ es -> env_ok (cache_id t) (Some c) toks -> (length toks <= 1)%nat ->
  exists blk s tok c', read_cached Value t options (e_handle e) c = Ret (status_ok, Some (blk, fst <$> tok), c') /\
    block_NewIterator blk = Ret s /\ pairs_at (e_pairs e) s None /\ env_ok (cache_id t) (Some c') (tok :: toks).
Proof.
  intros (Eo & Ef & _) He [Hours Henv] Hl. destruct (es_handle_ok e He) as [Hh Hin]. unfold read_cached. rewrite Ef.
  destruct (open_stored options _ _ Hin) as (b & data & blk & s & Hst & Er & Eb & Es & Hs & Hsize). pose proof (Hours e data blk He Hst) as Hp.
  destruct (lookup_ok P c _ (cache_key (cache_id t) (offset_ (e_handle e))) Henv (tokens_few toks Hl)) as (r & c1 & -> & H1). cbn [rbind]. destruct r as [h|].
  - destruct H1 as (v & Hv & H1). apply (Hours e data v He Hst) in Hv. rewrite Eb in Hv. injection Hv as <-.
    rewrite (value_ok P c1 _ h blk H1) by (by left). cbn [rbind]. exists blk, s, (Some (h, blk)), c1. by split_and!.
  - rewrite Er. cbn [rbind is_ok status_ok c_data cachable]. rewrite Eb. cbn [rbind]. destruct (b && fill_cache options).
    + destruct (insert_ok P c1 _ (cache_key (cache_id t) (offset_ (e_handle e))) blk (size_ blk) H1 (tokens_few toks Hl)) as (h & c2 & -> & H2); [by apply Hp|done|]. cbn [rbind].
      exists blk, s, (Some (h, blk)), c2. by split_and!.
    + exists blk, s, None, c1. by split_and!.
Qed.

Lemma BlockReader_ok t options hb env toks : table_ok t -> hb ∈ map snd (index_pairs es) -> env_ok (cache_id t) env toks -> (length toks <= 1)%nat ->
  exists d env' tok, BlockReader Value t options hb env = Ret (d, env') /\ data_at hb tok d None /\ env_ok (cache_id t) env' (tok :: toks).
Proof.
  intros Ht Hin Henv Hl. apply index_handle in Hin as (e & He & ->). unfold data_at. rewrite block_pairs_ok by done. destruct (es_handle_ok e He) as [Hh Hp].
  unfold BlockReader. rewrite <- (app_nil_r (handle_bytes _)), handle_DecodeFrom_ok by done. cbn [is_ok status_ok]. destruct env as [c|].
  - destruct (read_cached_ok t options e c toks Ht He Henv Hl) as (blk & s & tok & c' & -> & E & Hs & Henv'). cbn [rbind]. rewrite E. cbn [rbind].
    eexists _, (Some c'), tok. split_and!; [done|exact Hs| |done]. destruct tok as [[h v]|]; done.
  - unfold read_uncached. destruct Ht as (_ & -> & _). destruct (open_stored options _ _ Hp) as (b & data & blk & s & _ & -> & E1 & E2 & Hs & Hsize).
    cbn [rbind is_ok status_ok c_data]. rewrite E1. cbn [rbind]. rewrite E2. cbn [rbind]. eexists _, None, None. split_and!; [done|exact Hs|done|]. by constructor.
Qed.

(** Deleting an iterator gives its handle back. *)
Lemma delete_iter_ok id hb tok d p env toks : data_at hb tok d p -> env_ok id env (toks ++ [tok]) -> exists env', delete_iter d env = Ret env' /\ env_ok id env' toks.
Proof.
  intros [_ Hc] Henv. unfold delete_iter. rewrite Hc. destruct tok as [[h v]|]; cbn [cleanup_of].
  - destruct env as [c|]; cbn [env_ok] in Henv; [|by apply Forall_app in Henv as [_ [? _]%Forall_cons]]. destruct Henv as [Hours Henv]. unfold tokens in Henv. rewrite omap_app in Henv. cbn in Henv.
    rewrite <- app_assoc in Henv. destruct (release_ok P c _ h v _ Henv) as (c' & -> & Hc'). by exists (Some c').
  - exists env. split; [done|]. destruct env as [c|]; cbn [env_ok] in *; [|by apply Forall_app in Henv as [? _]].
    destruct Henv as [Hours Henv]. split; [done|]. unfold tokens in *. rewrite omap_app in Henv. cbn in Henv. by rewrite app_nil_r in Henv.
Qed.

#[local] Instance data_lawful hb tok : hb ∈ map snd (index_pairs es) -> LawfulIterator (data_iterator comparator) valid cmp (block_pairs hb) (data_at hb tok).
Proof.
  intros (e & He & ->)%index_handle. apply alongside_lawful, pairs_at_lawful. rewrite block_pairs_ok by done. eapply block_sorted; [|exact He]. by destruct table.
Qed.

#[local] Instance index_lawful : LawfulIterator (block_iterator comparator) valid cmp (index_pairs es) (pairs_at (index_pairs es)).
Proof. apply pairs_at_lawful. destruct table. by apply (seps_sorted valid cmp). Qed.

(** ** The iterator over the table *)

Definition table_at (t : Table) (options : ReadOptions) : _ -> option nat -> Prop :=
  tl_at (index_pairs es) block_pairs (iat := pairs_at (index_pairs es)) (dat := data_at) (env_ok := env_ok (cache_id t)).

Lemma NewIterator_table_ok t options env fuel : table_ok t -> env_ok (cache_id t) env [] -> (length es + 1 < fuel)%nat ->
  LawfulIterator (table_iterator Value fuel t options) valid cmp (pairs_of es) (table_at t options) /\
  exists i, table_NewIterator t env = Ret i /\ table_at t options i None.
Proof.
  intros Ht Henv Hf. pose proof Ht as (Eo & _ & _ & s & Es & Hs). split.
  - rewrite <- all_pairs_ok. unfold table_iterator, index_iterator. rewrite Eo, opt_comparator_ok. apply two_level_lawful.
    + exact index_lawful.
    + exact data_lawful.
    + intros hb e toks Hin He Hl. by apply BlockReader_ok.
    + intros. by eapply delete_iter_ok.
    + unfold index_pairs. by rewrite length_map.
    + apply es_separated.
  - unfold table_NewIterator, index_iterator. rewrite Es, Eo, opt_comparator_ok. cbn [rbind]. apply (new_two_level_ok (index_pairs es) block_pairs s env Hs Henv).
Qed.

(** ** Lookups *)

Lemma index_seek t k : table_ok t -> valid k -> exists s s', block_NewIterator (t_index_block t) = Ret s /\ Seek (index_iterator t) s k = Ret s' /\
  pairs_at (index_pairs es) s' (position (index_pairs es) (lower_bound cmp k (index_pairs es))).
Proof.
  intros (Eo & _ & _ & s & Es & Hs) Hk. unfold index_iterator. rewrite Eo, opt_comparator_ok. destruct (iter_seek s None k Hs Hk) as (s' & E & H'). by exists s, s'.
Qed.

(** The index entry a seek has reached. *)
Lemma index_entry_at t s' i : t_options t = opt -> pairs_at (index_pairs es) s' (position (index_pairs es) i) ->
  is_ok (it_status (index_iterator t) s') = true /\
  match es !! i with
  | Some e => Valid (index_iterator t) s' = true /\ it_value (index_iterator t) s' = Ret (handle_bytes (e_handle e))
  | None => Valid (index_iterator t) s' = false
  end.
Proof.
  intros Eo Hs. unfold index_iterator. rewrite Eo, opt_comparator_ok. split; [by eapply iter_status|]. rewrite (iter_valid s' _ Hs). destruct (es !! i) as [e|] eqn:E.
  - assert (i < length (index_pairs es))%nat as Hlt by (unfold index_pairs; rewrite length_map; by eapply lookup_lt_Some). rewrite position_lt in * by done.
    rewrite bool_decide_true by (by eexists). destruct (iter_pair s' i Hs) as (k & v & Ekv & _ & ->). split; [done|]. rewrite index_lookup, E in Ekv. by injection Ekv as <- <-.
  - rewrite position_ge by (unfold index_pairs; rewrite length_map; by apply lookup_ge_None). by apply bool_decide_false; intros [? ?].
Qed.

Lemma filter_excludes_ok t e k : t_options t = opt -> filter_ok (t_filter t) -> e ∈ es -> valid k ->
  exists b, filter_excludes t (handle_bytes (e_handle e)) k = Ret b /\ (b = true -> forall v, (k, v) ∉ e_pairs e).
Proof.
  intros Eo Hf He Hk. unfold filter_excludes. rewrite Eo. destruct (t_filter t) as [r|]; [|by exists false].
  destruct Hf as (p & -> & Ht & Hm). destruct (es_handle_ok e He) as [Hh _]. rewrite <- (app_nil_r (handle_bytes _)), handle_DecodeFrom_ok by done. cbn [is_ok status_ok].
  destruct (Ht (offset_ (e_handle e)) k) as (m & E); [by destruct Hh as [[? _] _]|done|]. rewrite E. cbn [rbind]. exists (negb m). split; [done|].
  intros Hb v Hv. eapply Forall_forall in Hm; [|exact He]. eapply Forall_forall in Hm; [|exact Hv]. cbn in Hm. rewrite E in Hm. by injection Hm as ->.
Qed.

Lemma get_in_block_ok t options e k env : table_ok t -> e ∈ es -> valid k -> env_ok (cache_id t) env [] ->
  exists s env', get_in_block Value t options (handle_bytes (e_handle e)) k env = Ret (s, e_pairs e !! lower_bound cmp k (e_pairs e), env') /\
    is_ok s = true /\ env_ok (cache_id t) env' [].
Proof.
  intros Ht He Hk Henv. assert (handle_bytes (e_handle e) ∈ map snd (index_pairs es)) as Hin.
  { unfold index_pairs. rewrite map_map. apply list_elem_of_fmap. by exists e. }
  pose proof Ht as (Eo & _). unfold get_in_block. rewrite Eo, opt_comparator_ok. destruct (BlockReader_ok t options _ env [] Ht Hin Henv ltac:(cbn; lia)) as (d & env1 & tok & -> & Hd & Henv1). cbn [rbind].
  pose proof (data_lawful (handle_bytes (e_handle e)) tok Hin) as L. destruct (iter_seek d None k Hd Hk) as (d' & -> & Hd'). cbn [rbind].
  rewrite block_pairs_ok in L, Hd' by done. rewrite (iter_valid d' _ Hd'). destruct (delete_iter_ok _ _ tok d' _ env1 [] Hd' Henv1) as (env2 & Edel & Henv2). pose proof (iter_status d' _ Hd') as Hst.
  destruct (e_pairs e !! lower_bound cmp k (e_pairs e)) as [kv|] eqn:E.
  - rewrite position_lt in * by (by eapply lookup_lt_Some). rewrite bool_decide_true by (by eexists). destruct (iter_pair d' _ Hd') as (k' & v' & Ekv & -> & ->).
    rewrite E in Ekv. injection Ekv as ->. cbn [rbind]. rewrite Edel. cbn [rbind]. by eexists _, env2.
  - rewrite position_ge in * by (by apply lookup_ge_None). rewrite bool_decide_false by (by intros [? ?]). cbn [rbind]. rewrite Edel. cbn [rbind]. by eexists _, env2.
Qed.

(** What is found in the block of the index is the first pair of the table whose key
    is not less. *)
Lemma found_first e i k kv : valid k -> i = lower_bound cmp k (index_pairs es) -> es !! i = Some e ->
  e_pairs e !! lower_bound cmp k (e_pairs e) = Some kv -> pairs_of es !! lower_bound cmp k (pairs_of es) = Some kv.
Proof.
  intros Hk Hi E Hkv. assert (index_pairs es !! i = Some (e_sep e, handle_bytes (e_handle e))) as Ei by (by rewrite index_lookup, E).
  rewrite <- all_pairs_ok. pose proof (lower_bound_blocks (index_pairs es) block_pairs es_separated k Hk) as Hl. cbn in Hl. rewrite <- Hi, Ei in Hl.
  rewrite block_pairs_ok in Hl by (by eapply list_elem_of_lookup_2). rewrite Hl. eapply all_pairs_lookup; [exact Ei|]. rewrite block_pairs_ok by (by eapply list_elem_of_lookup_2). done.
Qed.

Lemma InternalGet_ok t options k env : table_ok t -> valid k -> env_ok (cache_id t) env [] ->
  exists s r env', InternalGet Value t options k env = Ret (s, r, env') /\ is_ok s = true /\ env_ok (cache_id t) env' [] /\
    (r = None \/ r = pairs_of es !! lower_bound cmp k (pairs_of es)) /\ (forall v, (k, v) ∈ pairs_of es -> r = Some (k, v)).
Proof.
  intros Ht Hk Henv. pose proof Ht as (Eo & _ & Hf & _). unfold InternalGet. destruct (index_seek t k Ht Hk) as (s0 & s1 & -> & E1 & Hs1). cbn [rbind]. rewrite E1. cbn [rbind].
  destruct (index_entry_at t s1 _ Eo Hs1) as [Hst Hat]. set (i := lower_bound cmp k (index_pairs es)) in *.
  assert (forall v, (k, v) ∈ pairs_of es -> exists e, es !! i = Some e /\ (k, v) ∈ e_pairs e) as Hfind.
  { intros v (l & (e & <- & He)%in_map_iff & Hl)%list_elem_of_In%in_concat. apply list_elem_of_In in He, Hl. pose proof He as (a & b & E)%list_elem_of_split. exists e. split; [|done].
    subst i. rewrite (find_index a e b k v E Hl), E. by apply list_lookup_middle. }
  destruct (es !! i) as [e|] eqn:Ee; cycle 1.
  { rewrite Hat. cbn [rbind is_ok status_ok]. eexists _, None, env. split_and!; [done|done|done|by left|]. intros v Hv. by destruct (Hfind v Hv) as (e & ? & _). }
  destruct Hat as [-> ->]. cbn [rbind]. assert (e ∈ es) as He by (by eapply list_elem_of_lookup_2).
  destruct (filter_excludes_ok t e k Eo Hf He Hk) as (b & -> & Hb). cbn [rbind]. destruct b.
  - cbn [rbind is_ok status_ok]. eexists _, None, env. split_and!; [done|done|done|by left|]. intros v Hv. destruct (Hfind v Hv) as (e' & [= <-] & Hin). by apply Hb in Hin.
  - destruct (get_in_block_ok t options e k env Ht He Hk Henv) as (s & env' & -> & Hs & Henv'). cbn [rbind]. rewrite Hs. eexists _, _, env'. split_and!; [done|done|done| |].
    + destruct (e_pairs e !! _) as [kv|] eqn:Ekv; [|by left]. right. symmetry. by eapply found_first.
    + intros v Hv. destruct (Hfind v Hv) as (e' & [= <-] & Hin). apply lower_bound_found; [|done]. eapply block_sorted; [|exact He]. by destruct table.
Qed.

Lemma ApproximateOffsetOf_ok t k : table_ok t -> valid k ->
  ApproximateOffsetOf t k = Ret (match es !! lower_bound cmp k (index_pairs es) with Some e => offset_ (e_handle e) | None => offset_ (t_metaindex_handle t) end).
Proof.
  intros Ht Hk. pose proof Ht as (Eo & _). unfold ApproximateOffsetOf. destruct (index_seek t k Ht Hk) as (s0 & s1 & -> & E1 & Hs1). cbn [rbind]. rewrite E1. cbn [rbind].
  destruct (index_entry_at t s1 _ Eo Hs1) as [_ Hat]. destruct (es !! _) as [e|] eqn:Ee; [|by rewrite Hat]. destruct Hat as [-> ->]. cbn [rbind].
  destruct (es_handle_ok e) as [Hh _]; [by eapply list_elem_of_lookup_2|]. by rewrite <- (app_nil_r (handle_bytes _)), handle_DecodeFrom_ok by done.
Qed.

End Reading.
