(* ===== verification/LdbTableFile.v ===== *)
(** * LevelDB: tables from the builder to the reader

    Whatever sorted pairs are added, a table that was finished without an error is
    read back with just these pairs. *)
From S2P Require Import Prelude WireSpec.
From S2P Require Import LdbCoding LdbCrc32c LdbStatus LdbOrder LdbKeys LdbIterator LdbBlock LdbBlockSpec LdbFormat LdbFilterBlock LdbTwoLevel LdbTableBuilder LdbTableLayout LdbTableBuilderSpec LdbTable LdbTableSpec.
From Stdlib Require Import ZArith Lia.
From stdpp Require Import base tactics numbers list.
#[local] Open Scope Z_scope.

(** ** The blocks under their keys *)

Section Keys.
Context {Value : list Z -> Z} {Extend : Z -> list Z -> Z} {valid : list Z -> Prop} {cmp : list Z -> list Z -> Z}.

Lemma stored_unique file h data data' : stored Value Extend file h data -> stored Value Extend file h data' -> data = data'.
Proof.
  intros (pre & post & -> & -> & _) (pre' & post' & E & [= E1 E2] & _). apply app_inj_1 in E as [<- E]; [|unfold zlen in *; lia].
  rewrite <- !app_assoc in E. by apply app_inj_1 in E as [-> _]; [|unfold zlen in *; lia].
Qed.

Lemma cache_key_inj id o o' : is_u64 o -> is_u64 o' -> cache_key id o = cache_key id o' -> o = o'.
Proof.
  intros Ho Ho' E. unfold cache_key in E. apply app_inv_head in E. unfold EncodeFixed64 in E. rewrite !EncodeFixed64_le in E.
  apply (f_equal le_combine) in E. rewrite !le_combine_split in E. unfold is_u64 in *. change (8 * Z.of_nat 8) with 64 in E. rewrite !Z.mod_small in E by lia. done.
Qed.

(** The blocks of a table under an id, and nothing else. *)
Definition only_ours (contents : list Z) (es : list entry) (id : Z) (key : list Z) (blk : Block) : Prop :=
  exists e data, e ∈ es /\ stored Value Extend contents (e_handle e) data /\ key = cache_key id (offset_ (e_handle e)) /\ new_block data = Ret blk.

Lemma only_ours_ok policy contents es id : table_file Value Extend valid cmp policy contents es ->
  ours (Value := Value) (Extend := Extend) contents es (only_ours contents es id) id.
Proof.
  intros [Hb Hd _ _ _ _] e data blk He Hst. split; [|intros E; by exists e, data].
  intros (e' & data' & He' & Hst' & Ek & E). assert (e = e') as <-; [|by rewrite (stored_unique _ _ _ _ Hst Hst')].
  pose proof Hb as Hb'. eapply Forall_forall in Hb as [_ [Ho _]]; [|exact He]. eapply Forall_forall in Hb' as [_ [Ho' _]]; [|exact He'].
  unfold no_handle in *. apply cache_key_inj in Ek; [|unfold is_u64; lia..]. apply list_elem_of_lookup in He as [i Ei], He' as [j Ej].
  assert (i = j) as <-; [|congruence]. eapply (NoDup_lookup _ i j (offset_ (e_handle e)) Hd); rewrite list_lookup_fmap; [by rewrite Ei|by rewrite Ej, Ek].
Qed.

End Keys.

(** ** Reading a table *)

(** Opening a file that holds a table works; the reader's iterator is lawful over
    the pairs, a lookup finds every pair, and finds nothing but the first pair
    whose key is not less; the cache keeps its promise to all its readers. *)
Section Reader.
Context {H C : Type} {cache : Cache Block H C} {cache_ok : (list Z -> Block -> Prop) -> C -> list (H * Block) -> Prop}.
Context {lawful_cache : LawfulCache Block H C cache_ok}.
Context {Value : list Z -> Z} {Extend : Z -> list Z -> Z} {checksum : Checksum Value Extend}.
Context {comparator : Comparator} {valid : list Z -> Prop} {cmp : list Z -> list Z -> Z} {laws : ComparatorLaws comparator valid cmp}.

(** What a reader of the pairs offers, whenever the state of the cache is [ok]. *)
Definition reads (t : Table) (kvs : pairs) (ok : option C -> Prop) : Prop :=
  forall options env, ok env ->
    (exists fuel at_ i, LawfulIterator (table_iterator Value fuel t options) valid cmp kvs at_ /\ table_NewIterator t env = Ret i /\ at_ i None) /\
    (forall k, valid k -> exists s r env', InternalGet Value t options k env = Ret (s, r, env') /\ is_ok s = true /\ ok env' /\
      (r = None \/ r = kvs !! lower_bound cmp k kvs) /\ (forall v, (k, v) ∈ kvs -> r = Some (k, v))) /\
    (forall k, valid k -> exists o, ApproximateOffsetOf t k = Ret o).

Abbreviation cache_env := (env_ok (Value := Value) (Extend := Extend) (cache_ok := cache_ok)).

Lemma env_after contents es P others id env env' id' : opened env env' id' ->
  match env with Some c => id = fst (cache_NewId c) | None => True end -> cache_env contents es P others id env [] -> cache_env contents es P others id' env' [].
Proof.
  unfold opened. destruct env as [c|]; [|by intros [-> ->]]. intros [-> ->] -> [Ho Hc]. split; [done|]. by apply new_id_ok.
Qed.

Lemma reader_ok opt file contents es P others env (id := match env with Some c => fst (cache_NewId c) | None => 0 end) :
  LawfulRandom file contents -> opt_comparator opt = comparator ->
  match filter_policy opt with Some p => Forall is_byte (policy_name p) /\ zlen contents < 2 ^ 32 | None => True end ->
  zlen contents < 2 ^ 63 -> table_file Value Extend valid cmp (filter_policy opt) contents es -> zlen others < 2 ^ 29 ->
  cache_env contents es P others id env [] ->
  exists t env', Open Value opt file (zlen contents) env = Ret (status_ok, Some t, env') /\ cache_env contents es P others id env' [] /\
    reads t (pairs_of es) (fun env => cache_env contents es P others id env []).
Proof.
  intros Hfile Hcmp Hpol Hsmall Ht Hoth Henv. destruct (Open_ok opt file contents es Hpol Hsmall Ht env) as (t & env' & E & Hok & Hop).
  assert (cache_id t = id) as Eid by (subst id; unfold opened in Hop; destruct env; by destruct Hop).
  assert (cache_env contents es P others id env' []) as Henv'.
  { rewrite <- Eid. eapply env_after; [exact Hop| |exact Henv]. by destruct env. }
  exists t, env'. split; [exact E|]. rewrite <- Eid in *. split; [exact Henv'|]. intros options e He. split_and!.
  - destruct (NewIterator_table_ok opt file contents es Hcmp Hsmall Ht P others Hoth t options e (length es + 2) Hok He ltac:(lia)) as (L & i & Ei & Hi).
    eexists _, _, i. split_and!; [exact L|exact Ei|exact Hi].
  - intros k Hk. by apply (InternalGet_ok opt file contents es Hcmp Hsmall Ht P others Hoth).
  - intros k Hk. eexists. by apply (ApproximateOffsetOf_ok opt file contents es Hcmp Ht).
Qed.

End Reader.

(** ** From the builder to the reader *)

Section RoundTrip.
Context {F : Type} {W : WritableFile F} {usable : F -> Prop} {written delivered : F -> list Z} {failed dirty : F -> bool}.
Context {stop : FailStop F usable written delivered failed dirty} {bounded : BoundedFile usable written}.
Context {H C : Type} {cache : Cache Block H C} {cache_ok : (list Z -> Block -> Prop) -> C -> list (H * Block) -> Prop}.
Context {lawful_cache : LawfulCache Block H C cache_ok}.
Context {Value : list Z -> Z} {Extend : Z -> list Z -> Z} {checksum : Checksum Value Extend}.
Context {comparator : Comparator} {valid : list Z -> Prop} {cmp : list Z -> list Z -> Z} {laws : ComparatorLaws comparator valid cmp}.

(** Building a table over an empty file. *)
Definition build (opt : Options) (f : F) (kvs : pairs) : res (Status * Rep F) :=
  let! r := new_table_builder opt f in
  let! r := add_all (Value := Value) (Extend := Extend) r kvs in
  tb_Finish Value Extend r.

(** The state of a shared cache that holds nothing under the next id. *)
Definition cache_ready (c : C) (others : list (H * Block)) : Prop := forall contents es,
  (exists policy, table_file Value Extend valid cmp policy contents es) ->
  exists P, ours (Value := Value) (Extend := Extend) contents es P (fst (cache_NewId c)) /\ cache_ok P c others.

Lemma build_reads opt f kvs : options_ok opt comparator valid -> holding (usable := usable) (written := written) (failed := failed) f [] ->
  sorted valid cmp (map fst kvs) -> Forall (fun kv => Forall is_byte (snd kv)) kvs -> budget kvs ->
  exists s r, build opt f kvs = Ret (s, r) /\
    (is_ok s = true -> failed (rep_file r) = false /\ FileSize r = zlen (written (rep_file r)) /\
      forall file env others, LawfulRandom file (written (rep_file r)) -> (filter_policy opt = None \/ FileSize r < 2 ^ 32) ->
        match env with Some c => cache_ready c others /\ zlen others < 2 ^ 29 | None => True end ->
        exists t env' ok, Open Value opt file (FileSize r) env = Ret (status_ok, Some t, env') /\ ok env' /\
          reads (Value := Value) (valid := valid) (cmp := cmp) t kvs ok).
Proof.
  intros Ho Hf Hs Hv Hb. destruct (build_table_ok (usable := usable) (Value := Value) (Extend := Extend) (cmp := cmp) opt Ho f kvs Hf Hs Hv Hb) as (s & r & E & Hr). exists s, r. split; [exact E|].
  intros Hok. destruct (Hr Hok) as (w & es & Hh & Hsize & Ht & Ek). pose proof (holding_size _ _ Hh) as Hsmall. destruct Hh as (_ & Hfail & Hw). rewrite Hsize, Hw.
  split; [done|]. split; [done|]. intros file env others Hfile Hpol Hcache. pose proof (oo_comparator _ _ _ Ho) as Hcmp.
  assert (match filter_policy opt with Some p => Forall is_byte (policy_name p) /\ zlen w < 2 ^ 32 | None => True end) as Hp.
  { pose proof (oo_policy _ _ _ Ho) as Hop. destruct (filter_policy opt); [|done]. split; [apply Hop|]. by destruct Hpol. }
  assert (exists P hs, zlen hs < 2 ^ 29 /\ env_ok (Value := Value) (Extend := Extend) (cache_ok := cache_ok) w es P hs
    match env with Some c => fst (cache_NewId c) | None => 0 end env []) as (P & hs & Hfew & Henv).
  { destruct env as [c|]; [|exists (fun _ _ => True), []; split; [done|constructor]]. destruct Hcache as [Hc Hfew]. destruct (Hc w es) as (P & Ho' & Hc'); [by eexists|]. by exists P, others. }
  destruct (reader_ok opt file w es P hs env Hfile Hcmp Hp Hsmall Ht Hfew Henv) as (t & env' & E1 & Henv' & Hreads). subst kvs.
  match type of Hreads with reads _ _ ?ok => exists t, env', ok end. by split_and!.
Qed.

(** C9. Any sorted pairs, added to a table builder and finished without an error, make a
    file that [Table::Open] accepts, with a cache or without; iterating over the
    table and looking up keys give back just these pairs, and never a false answer
    from the filter. *)
Theorem table_roundtrip opt f kvs : options_ok opt comparator valid -> holding (usable := usable) (written := written) (failed := failed) f [] ->
  sorted valid cmp (map fst kvs) -> Forall (fun kv => Forall is_byte (snd kv)) kvs -> budget kvs ->
  exists s r, build opt f kvs = Ret (s, r) /\
    (is_ok s = true -> failed (rep_file r) = false /\ FileSize r = zlen (written (rep_file r)) /\
      forall file env others, LawfulRandom file (written (rep_file r)) -> (filter_policy opt = None \/ FileSize r < 2 ^ 32) ->
        match env with Some c => cache_ready c others /\ zlen others < 2 ^ 29 | None => True end ->
        exists t env' ok, Open Value opt file (FileSize r) env = Ret (status_ok, Some t, env') /\ ok env' /\
          reads (Value := Value) (valid := valid) (cmp := cmp) t kvs ok).
Proof. apply build_reads. Qed.

End RoundTrip.
