(* ===== verification/LdbCache.v ===== *)
(** * LevelDB: the cache (util/cache.cc)

    The sharded cache with its hash tables and its lists of entries, linked through
    addresses.  Memory is a map for every kind of field ([next_], [prev_],
    [next_hash_] and the record of the others); the addresses of a shard are its
    own.  [malloc] leaves the links of an entry uninitialised and [free] takes all of
    its fields away: reading a field that is not there, and writing to an entry that
    is not allocated, is undefined behaviour.  Calls of deleters are recorded.  Locks
    are not modelled: every operation of a shard holds its mutex from beginning to
    end. *)
From S2P Require Import Prelude.
From S2P Require Import LdbCoding LdbBloom LdbTable.
From Stdlib Require Import ZArith NArith Lia.
From stdpp Require Import base tactics numbers list gmap.
#[local] Open Scope Z_scope.

(** ** Addresses *)

Definition null : N := 0%N.
(** The dummy heads of the two lists. *)
Definition lru_ : N := 1%N.
Definition in_use_ : N := 2%N.

Section Shard.
Context {V : Type}.

Record LRUHandle := mk_lru {
  h_value : V;
  h_charge : Z;
  h_key : list Z;
  in_cache : bool;
  refs : Z;
  h_hash : Z;
}.

Record HandleTable := mk_handle_table { length_ : Z; elems_ : Z; list_ : list N }.

(** A shard and the memory it has allocated; [deleted_] are the calls of deleters.
    [heap_] has the entries allocated and not freed. *)
Record LRUCache := mk_cache {
  capacity_ : Z;
  usage_ : Z;
  heap_ : gmap N LRUHandle;
  next_ : gmap N N;
  prev_ : gmap N N;
  next_hash_ : gmap N N;
  table_ : HandleTable;
  fresh_ : N;
  deleted_ : list (list Z * V);
}.

(** *** Memory *)

Definition load {A : Type} (m : gmap N A) (a : N) : res A := match m !! a with Some x => Ret x | None => UB end.

Definition set_usage (s : LRUCache) (u : Z) : LRUCache :=
  mk_cache (capacity_ s) u (heap_ s) (next_ s) (prev_ s) (next_hash_ s) (table_ s) (fresh_ s) (deleted_ s).
Definition set_capacity (s : LRUCache) (c : Z) : LRUCache :=
  mk_cache c (usage_ s) (heap_ s) (next_ s) (prev_ s) (next_hash_ s) (table_ s) (fresh_ s) (deleted_ s).
Definition set_heap (s : LRUCache) (h : gmap N LRUHandle) : LRUCache :=
  mk_cache (capacity_ s) (usage_ s) h (next_ s) (prev_ s) (next_hash_ s) (table_ s) (fresh_ s) (deleted_ s).
Definition set_links (s : LRUCache) (next prev : gmap N N) : LRUCache :=
  mk_cache (capacity_ s) (usage_ s) (heap_ s) next prev (next_hash_ s) (table_ s) (fresh_ s) (deleted_ s).
Definition set_hash (s : LRUCache) (nh : gmap N N) (t : HandleTable) : LRUCache :=
  mk_cache (capacity_ s) (usage_ s) (heap_ s) (next_ s) (prev_ s) nh t (fresh_ s) (deleted_ s).
Definition set_deleted (s : LRUCache) (d : list (list Z * V)) : LRUCache :=
  mk_cache (capacity_ s) (usage_ s) (heap_ s) (next_ s) (prev_ s) (next_hash_ s) (table_ s) (fresh_ s) d.

(** The dummy heads are part of the shard; an entry is there until it is freed. *)
Definition allocated (s : LRUCache) (a : N) : bool := (a =? lru_)%N || (a =? in_use_)%N || bool_decide (is_Some (heap_ s !! a)).

(** Assigning a link of the node at [a]. *)
Definition store_next (s : LRUCache) (a x : N) : res LRUCache :=
  if allocated s a then Ret (set_links s (<[a := x]> (next_ s)) (prev_ s)) else UB.
Definition store_prev (s : LRUCache) (a x : N) : res LRUCache :=
  if allocated s a then Ret (set_links s (next_ s) (<[a := x]> (prev_ s))) else UB.
Definition store_next_hash (s : LRUCache) (a x : N) : res LRUCache :=
  if allocated s a then Ret (set_hash s (<[a := x]> (next_hash_ s)) (table_ s)) else UB.

(** [free]: no field of the entry is left. *)
Definition free_entry (s : LRUCache) (a : N) : LRUCache :=
  mk_cache (capacity_ s) (usage_ s) (delete a (heap_ s)) (delete a (next_ s)) (delete a (prev_ s)) (delete a (next_hash_ s)) (table_ s) (fresh_ s) (deleted_ s).

Definition set_refs (e : LRUHandle) (b : bool) (n : Z) : LRUHandle := mk_lru (h_value e) (h_charge e) (h_key e) b n (h_hash e).

(** [LRUHandle::key] *)
Definition entry_key (s : LRUCache) (a : N) : res (list Z) :=
  let! n := load (next_ s) a in
  let! _ := assert_ (negb (n =? a)%N) in
  let! e := load (heap_ s) a in
  Ret (h_key e).

(** ** The hash table *)

(** A [LRUHandle**]: a bucket, or the [next_hash] of an entry. *)
Inductive slot := Bucket (i : nat) | NextHash (a : N).

Definition read_slot (s : LRUCache) (p : slot) : res N :=
  match p with
  | Bucket i => match list_ (table_ s) !! i with Some a => Ret a | None => UB end
  | NextHash a => load (next_hash_ s) a
  end.

Definition write_slot (s : LRUCache) (p : slot) (a : N) : res LRUCache :=
  match p with
  | Bucket i =>
      if (i <? length (list_ (table_ s)))%nat
      then Ret (set_hash s (next_hash_ s) (mk_handle_table (length_ (table_ s)) (elems_ (table_ s)) (<[i := a]> (list_ (table_ s)))))
      else UB
  | NextHash b => store_next_hash s b a
  end.

Definition find_round (s : LRUCache) (key : list Z) (hash : Z) (ptr : slot) : res (slot + slot) :=
  let! a := read_slot s ptr in
  if (a =? null)%N then Ret (inr ptr)
  else
    let! e := load (heap_ s) a in
    if negb (h_hash e =? hash) then Ret (inl (NextHash a))
    else
      let! k := entry_key s a in
      if bool_decide (key = k) then Ret (inr ptr) else Ret (inl (NextHash a)).

(** A chain is no longer than the number of entries. *)
Definition chain_fuel (s : LRUCache) : nat := S (size (heap_ s)).

Definition FindPointer (s : LRUCache) (key : list Z) (hash : Z) : res slot :=
  loop (chain_fuel s) (find_round s key hash) (Bucket (Z.to_nat (Z.land hash (u32 (length_ (table_ s) - 1))))).

Definition table_Lookup (s : LRUCache) (key : list Z) (hash : Z) : res N :=
  let! ptr := FindPointer s key hash in read_slot s ptr.

(** [while (new_length < elems_) new_length *= 2] from 4 *)
Definition grow (elems : Z) : res Z := loop 32 (fun n => if n <? elems then Ret (inl (u32 (n * 2))) else Ret (inr n)) 4.

(** A round of the loop over a bucket: what is left of it, the memory, the new
    buckets and the count. *)
Definition move_round (new_length : Z) (st : N * LRUCache * list N * Z) : res (N * LRUCache * list N * Z + LRUCache * list N * Z) :=
  let '(h, s, new_list, count) := st in
  if (h =? null)%N then Ret (inr (s, new_list, count))
  else
    let! next := load (next_hash_ s) h in
    let! e := load (heap_ s) h in
    let i := Z.to_nat (Z.land (h_hash e) (u32 (new_length - 1))) in
    match new_list !! i with
    | Some head => let! s := store_next_hash s h head in Ret (inl (next, s, <[i := h]> new_list, u32 (count + 1)))
    | None => UB
    end.

Fixpoint move_buckets (new_length : Z) (buckets : list N) (s : LRUCache) (new_list : list N) (count : Z) : res (LRUCache * list N * Z) :=
  match buckets with
  | [] => Ret (s, new_list, count)
  | h :: buckets =>
      let! (s, new_list, count) := loop (chain_fuel s) (move_round new_length) (h, s, new_list, count) in
      move_buckets new_length buckets s new_list count
  end.

Definition Resize (s : LRUCache) : res LRUCache :=
  let t := table_ s in
  let! new_length := grow (elems_ t) in
  let! (s, new_list, count) := move_buckets new_length (list_ t) s (repeat null (Z.to_nat new_length)) 0 in
  let! _ := assert_ (elems_ t =? count) in
  Ret (set_hash s (next_hash_ s) (mk_handle_table new_length (elems_ t) new_list)).

Definition set_elems (s : LRUCache) (n : Z) : LRUCache :=
  set_hash s (next_hash_ s) (mk_handle_table (length_ (table_ s)) n (list_ (table_ s))).

Definition table_Insert (s : LRUCache) (h : N) : res (N * LRUCache) :=
  let! key := entry_key s h in
  let! e := load (heap_ s) h in
  let! ptr := FindPointer s key (h_hash e) in
  let! old := read_slot s ptr in
  let! rest := if (old =? null)%N then Ret null else load (next_hash_ s) old in
  let! s := store_next_hash s h rest in
  let! s := write_slot s ptr h in
  if (old =? null)%N then
    let s := set_elems s (u32 (elems_ (table_ s) + 1)) in
    if elems_ (table_ s) >? length_ (table_ s) then let! s := Resize s in Ret (old, s) else Ret (old, s)
  else Ret (old, s).

Definition table_Remove (s : LRUCache) (key : list Z) (hash : Z) : res (N * LRUCache) :=
  let! ptr := FindPointer s key hash in
  let! result := read_slot s ptr in
  if negb (result =? null)%N then
    let! next := load (next_hash_ s) result in
    let! s := write_slot s ptr next in
    Ret (result, set_elems s (u32 (elems_ (table_ s) - 1)))
  else Ret (result, s).

(** ** A shard *)

(** [HandleTable()] makes the first four buckets; both lists are empty. *)
Definition new_cache : res LRUCache :=
  Resize (mk_cache 0 0 ∅ (<[in_use_ := in_use_]> {[lru_ := lru_]}) (<[in_use_ := in_use_]> {[lru_ := lru_]}) ∅ (mk_handle_table 0 0 []) 3%N []).

Definition LRU_Remove (s : LRUCache) (e : N) : res LRUCache :=
  let! n := load (next_ s) e in
  let! p := load (prev_ s) e in
  let! s := store_prev s n p in
  let! p := load (prev_ s) e in
  let! n := load (next_ s) e in
  store_next s p n.

Definition LRU_Append (s : LRUCache) (l e : N) : res LRUCache :=
  let! s := store_next s e l in
  let! p := load (prev_ s) l in
  let! s := store_prev s e p in
  let! p := load (prev_ s) e in
  let! s := store_next s p e in
  let! n := load (next_ s) e in
  store_prev s n e.

(** Assigning [in_cache] and [refs]. *)
Definition store_refs (s : LRUCache) (a : N) (b : bool) (n : Z) : res LRUCache :=
  let! e := load (heap_ s) a in Ret (set_heap s (<[a := set_refs e b n]> (heap_ s))).

Definition lru_Ref (s : LRUCache) (a : N) : res LRUCache :=
  let! e := load (heap_ s) a in
  let! s :=
    if (refs e =? 1) && in_cache e then
      let! s := LRU_Remove s a in
      LRU_Append s in_use_ a
    else Ret s in
  store_refs s a (in_cache e) (u32 (refs e + 1)).

Definition lru_Unref (s : LRUCache) (a : N) : res LRUCache :=
  let! e := load (heap_ s) a in
  let! _ := assert_ (refs e >? 0) in
  let n := u32 (refs e - 1) in
  let! s := store_refs s a (in_cache e) n in
  if n =? 0 then
    let! _ := assert_ (negb (in_cache e)) in
    let! key := entry_key s a in
    let s := set_deleted s (deleted_ s ++ [(key, h_value e)]) in
    Ret (free_entry s a)
  else if in_cache e && (n =? 1) then
    let! s := LRU_Remove s a in
    LRU_Append s lru_ a
  else Ret s.

(** [FinishErase]; null is no entry. *)
Definition FinishErase (s : LRUCache) (a : N) : res (bool * LRUCache) :=
  if negb (a =? null)%N then
    let! e := load (heap_ s) a in
    let! _ := assert_ (in_cache e) in
    let! s := LRU_Remove s a in
    let! s := store_refs s a false (refs e) in
    let s := set_usage s (u64 (usage_ s - h_charge e)) in
    let! s := lru_Unref s a in
    Ret (true, s)
  else Ret (false, s).

Definition lru_Lookup (s : LRUCache) (key : list Z) (hash : Z) : res (N * LRUCache) :=
  let! e := table_Lookup s key hash in
  if negb (e =? null)%N then let! s := lru_Ref s e in Ret (e, s) else Ret (e, s).

Definition lru_Release (s : LRUCache) (handle : N) : res LRUCache := lru_Unref s handle.

(** Removing the oldest entry that is not used. *)
Definition evict (s : LRUCache) : res LRUCache :=
  let! old := load (next_ s) lru_ in
  let! e := load (heap_ s) old in
  let! _ := assert_ (refs e =? 1) in
  let! key := entry_key s old in
  let! (a, s) := table_Remove s key (h_hash e) in
  let! (erased, s) := FinishErase s a in
  let! _ := assert_ erased in
  Ret s.

Definition evict_round (s : LRUCache) : res (LRUCache + LRUCache) :=
  let! first := load (next_ s) lru_ in
  if (usage_ s >? capacity_ s) && negb (first =? lru_)%N then let! s := evict s in Ret (inl s) else Ret (inr s).

(** A new entry, with a reference for the handle returned; its links are not yet set. *)
Definition lru_malloc (s : LRUCache) (key : list Z) (hash : Z) (value : V) (charge : Z) (b : bool) (n : Z) : N * LRUCache :=
  let a := fresh_ s in
  (a, mk_cache (capacity_ s) (usage_ s) (<[a := mk_lru value charge key b n hash]> (heap_ s)) (delete a (next_ s)) (delete a (prev_ s)) (delete a (next_hash_ s))
        (table_ s) (a + 1)%N (deleted_ s)).

Definition lru_Insert (s : LRUCache) (key : list Z) (hash : Z) (value : V) (charge : Z) : res (N * LRUCache) :=
  let cached := capacity_ s >? 0 in
  let (a, s) := lru_malloc s key hash value charge cached (if cached then 2 else 1) in
  let! s :=
    if cached then
      let! s := LRU_Append s in_use_ a in
      let s := set_usage s (u64 (usage_ s + charge)) in
      let! (old, s) := table_Insert s a in
      let! (_, s) := FinishErase s old in
      Ret s
    else store_next s a null in
  let! s := loop (chain_fuel s) evict_round s in
  Ret (a, s).

Definition lru_Erase (s : LRUCache) (key : list Z) (hash : Z) : res LRUCache :=
  let! (a, s) := table_Remove s key hash in
  let! (_, s) := FinishErase s a in
  Ret s.

Definition prune_round (s : LRUCache) : res (LRUCache + LRUCache) :=
  let! first := load (next_ s) lru_ in
  if negb (first =? lru_)%N then let! s := evict s in Ret (inl s) else Ret (inr s).

Definition lru_Prune (s : LRUCache) : res LRUCache := loop (chain_fuel s) prune_round s.

(** The destructor: a round of its loop frees an entry. *)
Definition destroy_round (st : N * LRUCache) : res (N * LRUCache + LRUCache) :=
  let (e, s) := st in
  if (e =? lru_)%N then Ret (inr s)
  else
    let! next := load (next_ s) e in
    let! x := load (heap_ s) e in
    let! _ := assert_ (in_cache x) in
    let! s := store_refs s e false (refs x) in
    let! _ := assert_ (refs x =? 1) in
    let! s := lru_Unref s e in
    Ret (inl (next, s)).

Definition lru_destroy (s : LRUCache) : res LRUCache :=
  let! first := load (next_ s) in_use_ in
  let! _ := assert_ (first =? in_use_)%N in
  let! e := load (next_ s) lru_ in
  loop (chain_fuel s) destroy_round (e, s).

End Shard.
Arguments LRUHandle : clear implicits.
Arguments LRUCache : clear implicits.

(** ** The sharded cache *)

Definition kNumShardBits : Z := 4.
Definition kNumShards : nat := 16.

Definition HashSlice (s : list Z) : Z := Hash s 0.

Definition Shard (hash : Z) : nat := Z.to_nat (Z.shiftr hash (32 - kNumShardBits)).

Section Sharded.
Context {V : Type}.

Record ShardedLRUCache := mk_sharded { shard_ : list (LRUCache V); last_id_ : Z }.

Fixpoint new_shards (n : nat) (per_shard : Z) : res (list (LRUCache V)) :=
  match n with
  | O => Ret []
  | S n =>
      let! s := new_cache in
      let! l := new_shards n per_shard in
      Ret (set_capacity s per_shard :: l)
  end.

Definition NewLRUCache (capacity : Z) : res ShardedLRUCache :=
  let per_shard := u64 (capacity + (Z.of_nat kNumShards - 1)) / Z.of_nat kNumShards in
  let! l := new_shards kNumShards per_shard in
  Ret (mk_sharded l 0).

(** An operation of a shard. *)
Definition on_shard {A : Type} (c : ShardedLRUCache) (i : nat) (f : LRUCache V -> res (A * LRUCache V)) : res (A * ShardedLRUCache) :=
  match shard_ c !! i with
  | Some s => let! (x, s) := f s in Ret (x, mk_sharded (<[i := s]> (shard_ c)) (last_id_ c))
  | None => UB
  end.

Definition without_result {A : Type} (f : A -> res A) (s : A) : res (unit * A) := let! s := f s in Ret (tt, s).

(** A handle is the address of an entry: a shard that allocated it and an address of it. *)
Abbreviation Handle := (nat * N)%type.

Definition sharded_Insert (c : ShardedLRUCache) (key : list Z) (value : V) (charge : Z) : res (Handle * ShardedLRUCache) :=
  let hash := HashSlice key in
  let! (a, c) := on_shard c (Shard hash) (fun s => lru_Insert s key hash value charge) in
  Ret ((Shard hash, a), c).

Definition sharded_Lookup (c : ShardedLRUCache) (key : list Z) : res (option Handle * ShardedLRUCache) :=
  let hash := HashSlice key in
  let! (a, c) := on_shard c (Shard hash) (fun s => lru_Lookup s key hash) in
  Ret (if (a =? null)%N then None else Some (Shard hash, a), c).

(** [*h] *)
Definition load_handle (c : ShardedLRUCache) (h : Handle) : res (LRUHandle V) :=
  match shard_ c !! fst h with Some s => load (heap_ s) (snd h) | None => UB end.

Definition sharded_Release (c : ShardedLRUCache) (h : Handle) : res ShardedLRUCache :=
  let! e := load_handle c h in
  if bool_decide (Shard (h_hash e) = fst h) then
    let! (_, c) := on_shard c (Shard (h_hash e)) (without_result (fun s => lru_Release s (snd h))) in
    Ret c
  else UB.

Definition sharded_Erase (c : ShardedLRUCache) (key : list Z) : res ShardedLRUCache :=
  let hash := HashSlice key in
  let! (_, c) := on_shard c (Shard hash) (without_result (fun s => lru_Erase s key hash)) in
  Ret c.

Definition sharded_Value (c : ShardedLRUCache) (h : Handle) : res V := let! e := load_handle c h in Ret (h_value e).

Definition sharded_NewId (c : ShardedLRUCache) : Z * ShardedLRUCache :=
  let id := u64 (last_id_ c + 1) in (id, mk_sharded (shard_ c) id).

Fixpoint prune_shards (l : list (LRUCache V)) : res (list (LRUCache V)) :=
  match l with
  | [] => Ret []
  | s :: l => let! s := lru_Prune s in let! l := prune_shards l in Ret (s :: l)
  end.

Definition sharded_Prune (c : ShardedLRUCache) : res ShardedLRUCache :=
  let! l := prune_shards (shard_ c) in Ret (mk_sharded l (last_id_ c)).

Definition sharded_TotalCharge (c : ShardedLRUCache) : Z := foldl (fun total s => u64 (total + usage_ s)) 0 (shard_ c).

#[export] Instance sharded_cache : Cache V Handle ShardedLRUCache := {
  cache_Insert := sharded_Insert;
  cache_Lookup := sharded_Lookup;
  cache_Release := sharded_Release;
  cache_Value := sharded_Value;
  cache_Erase := sharded_Erase;
  cache_NewId := sharded_NewId;
  cache_Prune := sharded_Prune;
  cache_TotalCharge := sharded_TotalCharge;
}.

End Sharded.
Arguments ShardedLRUCache : clear implicits.
