(* ===== verification/LdbCacheLinks.v ===== *)
(** * LevelDB: the linked structures of the cache

    Paths through a field of memory; the circular lists of a shard; the hash table
    as chains in its buckets. *)
From S2P Require Import Prelude WireSpec.
From S2P Require Import LdbCoding LdbBloom LdbTable LdbCache.
From Stdlib Require Import ZArith NArith Lia.
From stdpp Require Import base tactics numbers list gmap.
#[local] Open Scope Z_scope.

(** ** Paths *)

(** Following the field [m] from [p] one meets the addresses [c] and ends at [q]. *)
Fixpoint path (m : gmap N N) (p : N) (c : list N) (q : N) : Prop :=
  match c with
  | [] => p = q
  | a :: c => p = a /\ exists n, m !! a = Some n /\ path m n c q
  end.

Lemma path_app m p c1 c2 q : path m p (c1 ++ c2) q <-> exists r, path m p c1 r /\ path m r c2 q.
Proof.
  revert p; induction c1 as [|a c1 IH]; intros p; cbn.
  - split; [intros H; by exists p|by intros (r & -> & H)].
  - split.
    + intros (-> & n & En & (r & H1 & H2)%IH). exists r. split; [|done]. split; [done|]. by exists n.
    + intros (r & (-> & n & En & H1) & H2). split; [done|]. exists n. split; [done|]. apply IH. by exists r.
Qed.

Lemma path_head m p c q : path m p c q -> p = hd q c.
Proof. destruct c; cbn; [done|by intros [-> _]]. Qed.

Lemma path_frame m m' p c q : (forall a, a ∈ c -> m' !! a = m !! a) -> path m p c q -> path m' p c q.
Proof.
  revert p; induction c as [|a c IH]; intros p H; cbn; [done|]. intros (-> & n & En & Hp). split; [done|]. exists n. split; [rewrite H; [done|by left]|].
  apply IH; [|done]. intros b Hb. apply H. by right.
Qed.

Lemma path_insert m p c q a x : a ∉ c -> path m p c q -> path (<[a := x]> m) p c q.
Proof. intros Ha. apply path_frame. intros b Hb. apply lookup_insert_ne. by intros ->. Qed.

(** The end of a path moves with the last field. *)
Lemma path_end m p c a q x : a ∉ c -> path m p (c ++ [a]) q -> path (<[a := x]> m) p (c ++ [a]) x.
Proof.
  intros Ha (r & H1 & -> & n & En & _)%path_app. apply path_app. exists a. split; [by apply path_insert|]. split; [done|]. exists x. split; [by apply lookup_insert_eq|done].
Qed.

Lemma path_lookup m p c1 a c2 q : path m p (c1 ++ a :: c2) q -> m !! a = Some (hd q c2).
Proof. intros (r & _ & -> & n & En & H)%path_app. by rewrite En, (path_head _ _ _ _ H). Qed.

Lemma hd_snoc {A : Type} (x : A) l y : hd x (l ++ [y]) = hd y l.
Proof. by destruct l. Qed.

(** ** Circular lists *)

Definition dll (next prev : gmap N N) (h : N) (l : list N) : Prop := path next h (h :: l) h /\ path prev h (h :: reverse l) h.

Lemma dll_frame next prev next' prev' h l : (forall a, a ∈ h :: l -> next' !! a = next !! a /\ prev' !! a = prev !! a) -> dll next prev h l -> dll next' prev' h l.
Proof.
  intros H [H1 H2]. split; (eapply path_frame; [|eassumption]); intros a Ha; apply H; [done|].
  apply elem_of_cons in Ha as [->|Ha]; [by left|right]. by rewrite elem_of_reverse in Ha.
Qed.

Lemma dll_next next prev h l1 e l2 : dll next prev h (l1 ++ e :: l2) -> next !! e = Some (hd h l2).
Proof. intros [H _]. exact (path_lookup next h (h :: l1) e l2 h H). Qed.

Lemma dll_prev next prev h l1 e l2 : dll next prev h (l1 ++ e :: l2) -> prev !! e = Some (hd h (reverse l1)).
Proof. intros [_ H]. rewrite reverse_app, reverse_cons, <- app_assoc in H. exact (path_lookup prev h (h :: reverse l2) e (reverse l1) h H). Qed.

Lemma dll_first next prev h l : dll next prev h l -> next !! h = Some (hd h l).
Proof. intros [H _]. exact (path_lookup next h [] h l h H). Qed.

Lemma dll_last next prev h l : dll next prev h l -> prev !! h = Some (hd h (reverse l)).
Proof. intros [_ H]. exact (path_lookup prev h [] h (reverse l) h H). Qed.

(** Taking [e] out of a cycle: the field of the node before it skips it. *)
Lemma path_remove m h l1 e l2 : NoDup (h :: l1 ++ e :: l2) -> path m h (h :: l1 ++ e :: l2) h ->
  path (<[hd h (reverse l1) := hd h l2]> m) h (h :: l1 ++ l2) h.
Proof.
  intros Hd H. assert (exists c p, h :: l1 = c ++ [p] /\ hd h (reverse l1) = p) as (c & p & E & ->).
  { destruct l1 as [|x l1 _] using rev_ind; [by exists [], h|]. exists (h :: l1), x. split; [done|]. by rewrite reverse_snoc. }
  rewrite app_comm_cons, E in *. apply path_app in H as (r & H1 & -> & n & En & H2). rewrite (path_head _ _ _ _ H2) in H2.
  apply NoDup_app in Hd as (Hd1 & Hd2 & Hd3). apply NoDup_app in Hd1 as (_ & Hcp & _). apply path_app. exists (hd h l2). split.
  - eapply path_end; [|exact H1]. intros Hin. apply (Hcp p Hin). by left.
  - apply path_insert; [|done]. intros Hin. apply (Hd2 p); [apply elem_of_app; right; by left|by right].
Qed.

(** Putting [e] at the end of a cycle. *)
Lemma path_append m h l e : NoDup (h :: l ++ [e]) -> path m h (h :: l) h ->
  path (<[hd h (reverse l) := e]> (<[e := h]> m)) h (h :: l ++ [e]) h.
Proof.
  intros Hd H. assert (exists c p, h :: l = c ++ [p] /\ hd h (reverse l) = p) as (c & p & E & ->).
  { destruct l as [|x l _] using rev_ind; [by exists [], h|]. exists (h :: l), x. split; [done|]. by rewrite reverse_snoc. }
  rewrite app_comm_cons, E in *. apply NoDup_app in Hd as (Hd1 & Hd2 & _). apply NoDup_app in Hd1 as (_ & Hcp & _).
  assert (p <> e) as Hpe by (intros ->; apply (Hd2 e); [apply elem_of_app; right|]; by left).
  apply path_app. exists e. split.
  - eapply path_end; [intros Hin; apply (Hcp p Hin); by left|]. apply path_insert; [|exact H]. intros Hin. apply (Hd2 e Hin). by left.
  - split; [done|]. exists h. split; [|done]. rewrite lookup_insert_ne by done. apply lookup_insert_eq.
Qed.

(** Putting [e] right after the head. *)
Lemma path_prepend m h l e : NoDup (h :: e :: l) -> path m h (h :: l) h -> path (<[h := e]> (<[e := hd h l]> m)) h (h :: e :: l) h.
Proof.
  intros [Hh [He Hd]%NoDup_cons]%NoDup_cons (_ & n & En & H). split; [done|]. exists e. split; [apply lookup_insert_eq|]. split; [done|]. exists (hd h l).
  assert (h <> e) by (intros ->; apply Hh; by left). split; [rewrite lookup_insert_ne by done; apply lookup_insert_eq|].
  rewrite (path_head _ _ _ _ H) in H. apply path_insert; [intros Hin; apply Hh; by right|]. by apply path_insert.
Qed.

Section Lists.
Context {V : Type}.
Implicit Type s : LRUCache V.

Lemma set_links_twice s a b c d : set_links (set_links s a b) c d = set_links s c d.
Proof. done. Qed.

(** The nodes that may be written. *)
Definition all_allocated s (l : list N) : Prop := forall a, a ∈ l -> allocated s a = true.

Lemma heap_allocated_entry s a e : heap_ s !! a = Some e -> allocated s a = true.
Proof. intros H. unfold allocated. rewrite H, bool_decide_eq_true_2 by done. apply orb_true_r. Qed.

Lemma head_allocated s a : a = lru_ \/ a = in_use_ -> allocated s a = true.
Proof. by intros [->| ->]. Qed.

Lemma store_next_ok s a x : allocated s a = true -> store_next s a x = Ret (set_links s (<[a := x]> (next_ s)) (prev_ s)).
Proof. intros H. unfold store_next. by rewrite H. Qed.

Lemma store_prev_ok s a x : allocated s a = true -> store_prev s a x = Ret (set_links s (next_ s) (<[a := x]> (prev_ s))).
Proof. intros H. unfold store_prev. by rewrite H. Qed.

Lemma store_next_hash_ok s a e x : heap_ s !! a = Some e -> store_next_hash s a x = Ret (set_hash s (<[a := x]> (next_hash_ s)) (table_ s)).
Proof. intros H. unfold store_next_hash. by rewrite (heap_allocated_entry s a e). Qed.

Lemma LRU_Remove_ok s h l1 e l2 : all_allocated s (h :: l1 ++ e :: l2) -> dll (next_ s) (prev_ s) h (l1 ++ e :: l2) -> NoDup (h :: l1 ++ e :: l2) ->
  exists next prev, LRU_Remove s e = Ret (set_links s next prev) /\ dll next prev h (l1 ++ l2) /\
    forall a, a ∉ h :: l1 ++ l2 -> next !! a = next_ s !! a /\ prev !! a = prev_ s !! a.
Proof.
  intros Hal Hd Hn. pose proof (dll_next _ _ _ _ _ _ Hd) as En. pose proof (dll_prev _ _ _ _ _ _ Hd) as Ep. set (n := hd h l2) in *. set (p := hd h (reverse l1)) in *.
  assert (n ∈ h :: l1 ++ l2) as Hnin by (subst n; destruct l2 as [|x l2]; [by left|right; apply elem_of_app; right; by left]).
  assert (p ∈ h :: l1 ++ l2) as Hpin.
  { subst p. destruct l1 as [|x l1 _] using rev_ind; [by left|]. rewrite reverse_snoc. right. rewrite !elem_of_app. left. right. by left. }
  assert (e ∉ h :: l1 ++ l2) as He by (rewrite app_comm_cons in *; rewrite <- Permutation_middle in Hn; by apply NoDup_cons in Hn as [Hn _]).
  assert (forall a, a ∈ h :: l1 ++ l2 -> allocated s a = true) as Hal' by (intros a Ha; apply Hal; rewrite elem_of_cons, elem_of_app, elem_of_cons in *; tauto).
  assert (n <> e) by (intros ->; done). unfold LRU_Remove, load. rewrite En, Ep. cbn [rbind]. rewrite store_prev_ok by (by apply Hal'). cbn [rbind set_links next_ prev_].
  rewrite lookup_insert_ne, Ep by done. cbn [rbind]. rewrite En. cbn [rbind]. rewrite store_next_ok by exact (Hal' p Hpin). cbn [set_links next_ prev_].
  exists (<[p := n]> (next_ s)), (<[n := p]> (prev_ s)). split; [done|]. split.
  - destruct Hd as [H1 H2]. split; [by eapply path_remove|]. rewrite reverse_app, reverse_cons, <- app_assoc in H2. cbn [app] in H2. rewrite reverse_app.
    replace n with (hd h (reverse (reverse l2))) by (by rewrite reverse_involutive). eapply path_remove; [|exact H2].
    eapply NoDup_Permutation_proper; [|exact Hn]. constructor. rewrite !reverse_Permutation. rewrite <- Permutation_middle, Permutation_app_comm. by rewrite <- Permutation_middle.
  - intros a Ha. split; apply lookup_insert_ne; by intros ->.
Qed.

Lemma LRU_Append_ok s h l e : all_allocated s (h :: l ++ [e]) -> dll (next_ s) (prev_ s) h l -> NoDup (h :: l ++ [e]) ->
  exists next prev, LRU_Append s h e = Ret (set_links s next prev) /\ dll next prev h (l ++ [e]) /\
    forall a, a ∉ h :: l ++ [e] -> next !! a = next_ s !! a /\ prev !! a = prev_ s !! a.
Proof.
  intros Hal Hd Hn. pose proof (dll_last _ _ _ _ Hd) as Ep. set (p := hd h (reverse l)) in *.
  assert (p ∈ h :: l) as Hpin.
  { subst p. destruct l as [|x l _] using rev_ind; [by left|]. rewrite reverse_snoc. right. rewrite !elem_of_app. right. by left. }
  assert (e ∉ h :: l) as He by (rewrite app_comm_cons in *; apply NoDup_app in Hn as (_ & Hn & _); intros Hin; apply (Hn e Hin); by left).
  assert (p <> e) by (intros ->; done). assert (h <> e) by (intros ->; apply He; by left).
  assert (allocated s e = true) as Hae by (apply Hal; right; rewrite elem_of_app; right; by left). assert (allocated s h = true) as Hah by (apply Hal; by left).
  assert (allocated s p = true) as Hap by (apply Hal; rewrite app_comm_cons, elem_of_app; by left).
  unfold LRU_Append, load. rewrite (store_next_ok s e h Hae). cbn [rbind set_links next_ prev_]. rewrite Ep. cbn [rbind]. rewrite store_prev_ok by exact Hae. cbn [rbind set_links next_ prev_].
  rewrite lookup_insert_eq. cbn [rbind]. rewrite store_next_ok by exact Hap. cbn [rbind set_links next_ prev_].
  rewrite (lookup_insert_ne _ p e) by done. rewrite lookup_insert_eq. cbn [rbind]. rewrite store_prev_ok by exact Hah. cbn [set_links next_ prev_]. eexists _, _. split; [done|]. destruct Hd as [H1 H2]. split; [split|].
  - by apply path_append.
  - rewrite reverse_snoc. subst p. apply path_prepend; [|done]. eapply NoDup_Permutation_proper; [|exact Hn]. constructor. rewrite reverse_Permutation. by rewrite Permutation_app_comm.
  - assert (forall a, a ∉ h :: l ++ [e] -> a <> e /\ a <> h /\ a <> p) as Hne.
    { intros a Ha. rewrite app_comm_cons, not_elem_of_app, list_elem_of_singleton in Ha. destruct Ha as [Ha1 Ha2]. split_and!; [done|intros ->; apply Ha1; by left|by intros ->]. }
    intros a Ha. destruct (Hne a Ha) as (? & ? & ?). by rewrite !lookup_insert_ne.
Qed.

End Lists.

(** ** Chains *)

Definition chains (l : list N) (nh : gmap N N) (cs : list (list N)) : Prop := Forall2 (fun p c => path nh p c null) l cs.

(** The slot behind the part [c1] of the bucket [i]. *)
Definition slot_at (i : nat) (c1 : list N) : slot := match last c1 with None => Bucket i | Some a => NextHash a end.

Lemma chains_split l nh cs1 c cs2 : chains l nh (cs1 ++ c :: cs2) ->
  exists l1 p l2, l = l1 ++ p :: l2 /\ length l1 = length cs1 /\ chains l1 nh cs1 /\ path nh p c null /\ chains l2 nh cs2.
Proof.
  intros H. apply Forall2_app_inv_r in H as (l1 & l' & H1 & H2 & ->). apply Forall2_cons_inv_r in H2 as (p & l2 & Hp & H2 & ->).
  exists l1, p, l2. split_and!; [done|by eapply Forall2_length|done|done|done].
Qed.

Lemma chains_frame l nh nh' cs : (forall a, a ∈ concat cs -> nh' !! a = nh !! a) -> chains l nh cs -> chains l nh' cs.
Proof.
  intros Hf H. induction H as [|p c l cs Hp H IH]; constructor.
  - eapply path_frame; [|exact Hp]. intros a Ha. apply Hf. cbn. apply elem_of_app. by left.
  - apply IH. intros a Ha. apply Hf. cbn. apply elem_of_app. by right.
Qed.

Lemma chains_insert l nh cs a x : a ∉ concat cs -> chains l nh cs -> chains l (<[a := x]> nh) cs.
Proof. intros Ha. apply chains_frame. intros b Hb. apply lookup_insert_ne. by intros ->. Qed.

Section Chains.
Context {V : Type}.
Implicit Type s : LRUCache V.

Lemma read_slot_ok s cs1 c1 c2 cs2 : chains (list_ (table_ s)) (next_hash_ s) (cs1 ++ (c1 ++ c2) :: cs2) ->
  read_slot s (slot_at (length cs1) c1) = Ret (hd null c2).
Proof.
  intros (l1 & p & l2 & E & El & _ & Hp & _)%chains_split. unfold slot_at. destruct c1 as [|a c1 _] using rev_ind.
  - cbn. rewrite E, <- El, list_lookup_middle by done. by rewrite (path_head _ _ _ _ Hp).
  - rewrite last_snoc. cbn. rewrite <- app_assoc in Hp. unfold load. by rewrite (path_lookup _ _ _ _ _ _ Hp).
Qed.

(** Writing the slot replaces what is behind it. *)
Lemma write_slot_ok s cs1 c1 c2 c2' cs2 v : (forall a, a ∈ c1 -> is_Some (heap_ s !! a)) -> chains (list_ (table_ s)) (next_hash_ s) (cs1 ++ (c1 ++ c2) :: cs2) ->
  NoDup (concat (cs1 ++ (c1 ++ c2') :: cs2)) -> path (next_hash_ s) v c2' null ->
  exists l nh, write_slot s (slot_at (length cs1) c1) v = Ret (set_hash s nh (mk_handle_table (length_ (table_ s)) (elems_ (table_ s)) l)) /\
    chains l nh (cs1 ++ (c1 ++ c2') :: cs2) /\ length l = length (list_ (table_ s)).
Proof.
  intros Hc1 (l1 & p & l2 & E & El & H1 & Hp & H2)%chains_split Hd Hv. unfold slot_at. destruct c1 as [|a c1 _] using rev_ind.
  - cbn [last write_slot]. rewrite (proj2 (Nat.ltb_lt _ _)) by (rewrite E, length_app, <- El; cbn; lia). exists (l1 ++ v :: l2), (next_hash_ s). rewrite E, <- El. rewrite insert_app_r_alt, Nat.sub_diag by lia. cbn. split; [done|].
    split; [|rewrite !length_app; done]. apply Forall2_app; [done|]. by constructor.
  - destruct (Hc1 a) as [e He]; [rewrite elem_of_app; right; by left|].
    rewrite last_snoc. cbn [write_slot]. rewrite (store_next_hash_ok s a e) by done. exists (list_ (table_ s)), (<[a := v]> (next_hash_ s)). split; [by destruct s as [? ? ? ? ? ? [] ? ?]|]. split; [|done]. rewrite E.
    rewrite concat_app in Hd. cbn [concat] in Hd. rewrite <- !app_assoc in Hd. apply NoDup_app in Hd as (_ & Hd1 & Hd). apply NoDup_app in Hd as (Hdc & Hd2 & Hd).
    assert (a ∉ c2' ++ concat cs2) as Ha by (apply (NoDup_app [a]) in Hd as (_ & Hd & _); apply Hd; by left). apply not_elem_of_app in Ha as [Ha1 Ha2].
    assert (a ∉ c1) as Ha3 by (intros Hin; apply (Hd2 a Hin); by left). assert (a ∉ concat cs1) as Ha4.
    { intros Hin. apply (Hd1 a Hin). apply elem_of_app. right. by left. }
    apply Forall2_app; [by apply chains_insert|]. constructor; [|by apply chains_insert].
    rewrite <- app_assoc in Hp. rewrite app_assoc in Hp. apply path_app in Hp as (r & Hp1 & Hp2). apply path_app. exists v. split.
    + eapply path_end; [done|exact Hp1].
    + by apply path_insert.
Qed.

End Chains.

(** ** The hash table *)

Section Table.
Context {V : Type}.
Implicit Type s : LRUCache V.

(** The bucket of a hash. *)
Definition index (length hash : Z) : nat := Z.to_nat (Z.land hash (u32 (length - 1))).

Definition keyed s (key : list Z) (hash : Z) (a : N) : Prop := exists e, heap_ s !! a = Some e /\ h_key e = key /\ h_hash e = hash.

(** [cs] are the chains of the buckets. *)
Definition placed (heap : gmap N (LRUHandle V)) (length : Z) (cs : list (list N)) : Prop :=
  forall i c a, cs !! i = Some c -> a ∈ c -> exists e, heap !! a = Some e /\ index length (h_hash e) = i.

Definition table_size (length : Z) (l : list N) : Prop := exists k, 2 <= k <= 31 /\ length = 2 ^ k /\ zlen l = length.

Record buckets s (cs : list (list N)) : Prop := {
  bk_chains : chains (list_ (table_ s)) (next_hash_ s) cs;
  bk_nodup : NoDup (concat cs);
  bk_null : null ∉ concat cs;
  bk_placed : placed (heap_ s) (length_ (table_ s)) cs;
  bk_size : table_size (length_ (table_ s)) (list_ (table_ s));
}.

(** The table holds the entries [T], with different keys. *)
Record table_holds s (T : list N) : Prop := {
  th_buckets : exists cs, buckets s cs /\ T ≡ₚ concat cs;
  th_elems : elems_ (table_ s) = zlen T;
  th_load : elems_ (table_ s) <= length_ (table_ s);
  th_keys : forall a b e e', a ∈ T -> b ∈ T -> heap_ s !! a = Some e -> heap_ s !! b = Some e' -> h_key e = h_key e' -> a = b;
}.

(** No entry is its own successor in its list. *)
Definition selfless s (T : list N) : Prop := forall a, a ∈ T -> exists n, next_ s !! a = Some n /\ n <> a.

Lemma entry_key_ok s T a e : selfless s T -> a ∈ T -> heap_ s !! a = Some e -> entry_key s a = Ret (h_key e).
Proof.
  intros H Ha He. destruct (H a Ha) as (n & En & Hn). unfold entry_key, load. rewrite En. cbn [rbind].
  destruct (N.eqb_spec n a); [done|]. cbn [negb assert_ rbind]. by rewrite He.
Qed.

Lemma index_lt length l hash : table_size length l -> is_u32 hash -> (index length hash < List.length l)%nat.
Proof.
  intros (k & Hk & -> & El) Hh. unfold index. assert (2 ^ k <= 2 ^ 31) as Hle by (apply Z.pow_le_mono_r; lia). assert (0 < 2 ^ k) as Hpos by (apply Z.pow_pos_nonneg; lia).
  unfold u32. rewrite wrap_small by lia. replace (2 ^ k - 1) with (Z.ones k) by (rewrite Z.ones_equiv; lia). rewrite Z.land_ones by lia.
  pose proof (Z.mod_pos_bound hash (2 ^ k) Hpos). unfold zlen in El. lia.
Qed.

Lemma slot_snoc i c a : slot_at i (c ++ [a]) = NextHash a.
Proof. unfold slot_at. by rewrite last_snoc. Qed.

Definition not_keyed s key hash (c : list N) : Prop := forall a, a ∈ c -> ~ keyed s key hash a.

(** Going along a chain. *)
Lemma find_chain s cs1 cs2 key hash : forall c2 c1 fuel, buckets s (cs1 ++ (c1 ++ c2) :: cs2) -> selfless s (concat (cs1 ++ (c1 ++ c2) :: cs2)) ->
  not_keyed s key hash c1 -> (length c2 < fuel)%nat ->
  exists d1 d2, c1 ++ c2 = d1 ++ d2 /\ loop fuel (find_round s key hash) (slot_at (length cs1) c1) = Ret (slot_at (length cs1) d1) /\
    not_keyed s key hash d1 /\ match d2 with [] => True | a :: _ => keyed s key hash a end.
Proof.
  induction c2 as [|a c2 IH]; intros c1 fuel Hb Hself Hno Hfuel; (destruct fuel as [|fuel]; [cbn in Hfuel; lia|]); rewrite loop_unfold; unfold find_round;
    rewrite (read_slot_ok s cs1 c1 _ cs2 (bk_chains _ _ Hb)); cbn [rbind hd].
  - exists c1, []. split_and!; [done|done|done|done].
  - assert (a ∈ concat (cs1 ++ (c1 ++ a :: c2) :: cs2)) as Hin.
    { rewrite concat_app. cbn [concat]. rewrite !elem_of_app. right. left. right. by left. }
    destruct (N.eqb_spec a null) as [->|_]; [by apply (bk_null _ _ Hb) in Hin|].
    destruct (bk_placed _ _ Hb (length cs1) (c1 ++ a :: c2) a) as (e & He & _); [by rewrite list_lookup_middle|rewrite elem_of_app; right; by left|].
    unfold load at 1. rewrite He. cbn [rbind].
    assert (~ keyed s key hash a -> exists d1 d2, c1 ++ a :: c2 = d1 ++ d2 /\ loop fuel (find_round s key hash) (NextHash a) = Ret (slot_at (length cs1) d1) /\
      not_keyed s key hash d1 /\ match d2 with [] => True | a :: _ => keyed s key hash a end) as Hgo.
    { intros Hna. rewrite <- (slot_snoc (length cs1) c1 a). rewrite (cons_middle a c1 c2), app_assoc in *. apply IH; [done|done| |cbn in Hfuel; lia].
      intros b [Hb'| ->%list_elem_of_singleton]%elem_of_app; [by apply Hno|done]. }
    destruct (Z.eqb_spec (h_hash e) hash) as [Eh|Hne]; cbn [negb].
    + rewrite (entry_key_ok s _ a e Hself Hin He). cbn [rbind]. destruct (decide (key = h_key e)) as [->|Hk].
      * rewrite bool_decide_true by done. exists c1, (a :: c2). split_and!; [done|done|done|]. by exists e.
      * rewrite bool_decide_false by done. apply Hgo. intros (e' & He' & Hk' & _). congruence.
    + apply Hgo. intros (e' & He' & _ & Hh'). congruence.
Qed.

Lemma size_chain s cs : NoDup (concat cs) -> placed (heap_ s) (length_ (table_ s)) cs -> (length (concat cs) <= size (heap_ s))%nat.
Proof.
  intros Hd Hp. rewrite <- size_dom. rewrite <- (size_list_to_set (C := gset N)) by done. apply subseteq_size. intros a Ha. apply elem_of_list_to_set in Ha.
  apply list_elem_of_In, in_concat in Ha as (c & Hc & Ha). apply list_elem_of_In in Hc, Ha. apply list_elem_of_lookup in Hc as [i Hc].
  destruct (Hp i c a Hc Ha) as (e & He & _). by apply elem_of_dom_2 in He.
Qed.

(** The slot found, with the chain it is in. *)
Lemma FindPointer_ok s cs key hash : buckets s cs -> selfless s (concat cs) -> is_u32 hash ->
  exists cs1 d1 d2 cs2, cs = cs1 ++ (d1 ++ d2) :: cs2 /\ length cs1 = index (length_ (table_ s)) hash /\
    FindPointer s key hash = Ret (slot_at (length cs1) d1) /\ read_slot s (slot_at (length cs1) d1) = Ret (hd null d2) /\
    match d2 with [] => not_keyed s key hash (concat cs) | a :: _ => keyed s key hash a end.
Proof.
  intros Hb Hself Hh. pose proof (index_lt _ _ hash (bk_size _ _ Hb) Hh) as Hi. pose proof (Forall2_length _ _ _ (bk_chains _ _ Hb)) as El. rewrite El in Hi.
  apply lookup_lt_is_Some_2 in Hi as [c Hc]. pose proof (take_drop_middle _ _ _ Hc) as E. set (cs1 := take _ cs) in *. set (cs2 := drop _ cs) in *.
  assert (length cs1 = index (length_ (table_ s)) hash) as El1 by (subst cs1; rewrite length_take; apply lookup_lt_Some in Hc; lia). rewrite <- E in Hb, Hself |- *.
  destruct (find_chain s cs1 cs2 key hash c [] (chain_fuel s) Hb Hself) as (d1 & d2 & Ed & Ef & Hno & Hd2).
  { intros a Ha. by apply elem_of_nil in Ha. }
  { pose proof (size_chain s _ (bk_nodup _ _ Hb) (bk_placed _ _ Hb)) as Hs. rewrite concat_app in Hs. cbn [concat] in Hs. rewrite !length_app in Hs. unfold chain_fuel. lia. }
  cbn [app] in Ed. subst c. exists cs1, d1, d2, cs2. split_and!; [done|done| |exact (read_slot_ok s cs1 d1 d2 cs2 (bk_chains _ _ Hb))|].
  - unfold FindPointer. unfold index in El1. rewrite <- El1. exact Ef.
  - destruct d2 as [|a d2]; [|done]. rewrite app_nil_r in *. intros a Ha Hk. destruct Hk as (e & He & Hke & Hhe).
    apply list_elem_of_In, in_concat in Ha as (c & Hcin & Ha). apply list_elem_of_In in Hcin, Ha. apply list_elem_of_lookup in Hcin as [j Hj].
    destruct (bk_placed _ _ Hb j c a Hj Ha) as (e' & He' & Hi). rewrite He in He'. injection He' as <-. rewrite Hhe, <- El1 in Hi. subst j. rewrite list_lookup_middle in Hj by done. injection Hj as <-.
    apply (Hno a Ha). by exists e.
Qed.

Lemma table_Lookup_ok s T key hash : table_holds s T -> selfless s T -> is_u32 hash ->
  exists a, table_Lookup s key hash = Ret a /\ ((a = null /\ not_keyed s key hash T) \/ (a <> null /\ a ∈ T /\ keyed s key hash a)).
Proof.
  intros [(cs & Hb & Hp) _ _ _] Hself Hh. assert (selfless s (concat cs)) as Hself' by (intros a Ha; apply Hself; by rewrite Hp).
  destruct (FindPointer_ok s cs key hash Hb Hself' Hh) as (cs1 & d1 & d2 & cs2 & E & _ & Ef & Er & Hd). unfold table_Lookup. rewrite Ef. cbn [rbind]. rewrite Er.
  exists (hd null d2). split; [done|]. destruct d2 as [|a d2]; cbn [hd].
  - left. split; [done|]. intros b Hb'. apply Hd. by rewrite <- Hp.
  - assert (a ∈ concat cs) as Ha by (rewrite E, concat_app; cbn [concat]; rewrite !elem_of_app; right; left; right; by left).
    right. split_and!; [intros ->; by apply (bk_null _ _ Hb)|by rewrite Hp|done].
Qed.

(** *** Resizing *)

Lemma set_hash_twice s nh t nh' t' : set_hash (set_hash s nh t) nh' t' = set_hash s nh' t'.
Proof. done. Qed.

Lemma concat_middle {A : Type} (cs1 cs2 : list (list A)) c : concat (cs1 ++ c :: cs2) ≡ₚ c ++ concat (cs1 ++ cs2).
Proof. rewrite !concat_app. cbn [concat]. by rewrite Permutation_app_swap_app. Qed.

(** The entries with their hashes. *)
Definition hashed (heap : gmap N (LRUHandle V)) (T : list N) : Prop := forall a, a ∈ T -> exists e, heap !! a = Some e /\ is_u32 (h_hash e).

Lemma placed_push heap len cs1 c cs2 h e : placed heap len (cs1 ++ c :: cs2) -> heap !! h = Some e -> index len (h_hash e) = length cs1 ->
  placed heap len (cs1 ++ (h :: c) :: cs2).
Proof.
  intros Hp He Hi j d a Hj Ha. destruct (decide (j = length cs1)) as [->|Hne].
  - rewrite list_lookup_middle in Hj by done. injection Hj as <-. apply elem_of_cons in Ha as [->|Ha]; [by exists e|]. apply (Hp (length cs1) c a); [by apply list_lookup_middle|done].
  - apply (Hp j d a); [|done]. rewrite lookup_app in Hj |- *. destruct (cs1 !! j) eqn:E; [done|]. apply lookup_ge_None in E. destruct (j - length cs1)%nat eqn:E'; [lia|done].
Qed.

Lemma move_chain s len t : forall rest h nh nl cs count fuel,
  path nh h rest null -> chains nl nh cs -> NoDup (rest ++ concat cs) -> null ∉ rest -> hashed (heap_ s) rest -> placed (heap_ s) len cs -> table_size len nl ->
  0 <= count -> count + zlen rest < 2 ^ 32 -> (length rest < fuel)%nat ->
  exists nh' nl' cs', loop fuel (move_round len) (h, set_hash s nh t, nl, count) = Ret (set_hash s nh' t, nl', count + zlen rest) /\
    chains nl' nh' cs' /\ concat cs' ≡ₚ rest ++ concat cs /\ placed (heap_ s) len cs' /\ table_size len nl' /\ (forall b, b ∉ rest -> nh' !! b = nh !! b).
Proof.
  induction rest as [|a rest IH]; intros h nh nl cs count fuel Hp Hc Hd Hn Hh Hpl Hsz Hc0 Hcount Hfuel; (destruct fuel as [|fuel]; [cbn in Hfuel; lia|]); rewrite loop_unfold; cbn [move_round].
  - cbn in Hp. subst h. cbn [rbind]. rewrite zlen_nil, Z.add_0_r. exists nh, nl, cs. by split_and!.
  - destruct Hp as (-> & n & En & Hp). apply not_elem_of_cons in Hn as [Hna Hn]. destruct (N.eqb_spec a null); [congruence|]. cbn [set_hash next_hash_]. unfold load at 1. rewrite En. cbn [rbind].
    destruct (Hh a) as (e & He & Hu); [by left|]. unfold load. cbn [set_hash heap_]. rewrite He. cbn [rbind].
    pose proof (index_lt len nl (h_hash e) Hsz Hu) as Hi. fold (index len (h_hash e)). apply lookup_lt_is_Some_2 in Hi as [head Ehead]. rewrite Ehead, (store_next_hash_ok _ a e) by exact He. cbn [rbind set_hash next_hash_].
    pose proof (Forall2_length _ _ _ Hc) as Elen. pose proof (lookup_lt_Some _ _ _ Ehead) as Hlt. rewrite Elen in Hlt. apply lookup_lt_is_Some_2 in Hlt as [c Ec].
    pose proof (take_drop_middle _ _ _ Ec) as E. set (cs1 := take _ cs) in *. set (cs2 := drop _ cs) in *.
    assert (length cs1 = index len (h_hash e)) as El1 by (subst cs1; rewrite length_take; apply lookup_lt_Some in Ec; lia). clearbody cs1 cs2. subst cs.
    cbn [app] in Hd. apply NoDup_cons in Hd as [Hd1 Hd2]. apply not_elem_of_app in Hd1 as [Har Hacs].
    destruct (chains_split _ _ _ _ _ Hc) as (l1 & p & l2 & -> & El & H1 & Hpc & H2). rewrite <- El in El1. rewrite <- El1, list_lookup_middle in Ehead by done. injection Ehead as ->.
    rewrite concat_middle in Hacs. apply not_elem_of_app in Hacs as [Hac Hacs]. rewrite concat_app in Hacs. apply not_elem_of_app in Hacs as [Ha1 Ha2].
    rewrite <- El1, insert_app_r_alt, Nat.sub_diag by lia. cbn [insert list_insert]. rewrite set_hash_twice, zlen_cons. change (table_ (set_hash s nh t)) with t. rewrite zlen_cons in Hcount. pose proof (zlen_nonneg rest).
    assert (u32 (count + 1) = count + 1) as -> by (apply wrap_small; lia).
    destruct (IH n (<[a := head]> nh) (l1 ++ a :: l2) (cs1 ++ (a :: c) :: cs2) (count + 1) fuel) as (nh' & nl' & cs' & E' & Hc' & Hperm & Hpl' & Hsz' & Hfr).
    + by apply path_insert.
    + apply Forall2_app; [by apply chains_insert|]. constructor; [|by apply chains_insert]. split; [done|]. exists head. split; [by apply lookup_insert_eq|by apply path_insert].
    + rewrite concat_middle in Hd2 |- *. cbn [app]. rewrite <- Permutation_middle. apply NoDup_cons. split; [|done]. rewrite concat_app. rewrite !not_elem_of_app. by split_and!.
    + done.
    + intros b Hb. apply Hh. by right.
    + apply (placed_push _ _ _ _ _ a e); [done|done|]. by rewrite <- El, El1.
    + destruct Hsz as (k & Hk & Ek & Ez). exists k. split; [done|split; [done|]]. unfold zlen in *. rewrite length_app in *. cbn [length] in *. lia.
    + lia.
    + lia.
    + cbn in Hfuel. lia.
    + exists nh', nl', cs'. split_and!; [rewrite E'; do 2 f_equal; lia|done| |done|done|].
      * rewrite Hperm, !concat_middle. cbn [app]. by rewrite <- Permutation_middle.
      * intros b [Hb1 Hb2]%not_elem_of_cons. rewrite Hfr by done. by apply lookup_insert_ne.
Qed.

Lemma move_buckets_ok s len t : forall old l nh nl cs count,
  chains l nh old -> chains nl nh cs -> NoDup (concat old ++ concat cs) -> null ∉ concat old -> hashed (heap_ s) (concat old) -> placed (heap_ s) len cs -> table_size len nl ->
  0 <= count -> count + zlen (concat old) < 2 ^ 32 -> (length (concat old) <= size (heap_ s))%nat ->
  exists nh' nl' cs', move_buckets len l (set_hash s nh t) nl count = Ret (set_hash s nh' t, nl', count + zlen (concat old)) /\
    chains nl' nh' cs' /\ concat cs' ≡ₚ concat old ++ concat cs /\ placed (heap_ s) len cs' /\ table_size len nl'.
Proof.
  induction old as [|c old IH]; intros l nh nl cs count Hl Hc Hd Hn Hh Hpl Hsz Hc0 Hcount Hsize.
  - apply Forall2_nil_inv_r in Hl as ->. cbn [move_buckets concat]. rewrite zlen_nil, Z.add_0_r. exists nh, nl, cs. by split_and!.
  - apply Forall2_cons_inv_r in Hl as (p & l' & Hp & Hl & ->). cbn [move_buckets concat] in *. rewrite zlen_app in *. pose proof (zlen_nonneg c). pose proof (zlen_nonneg (concat old)).
    rewrite <- app_assoc in Hd. apply not_elem_of_app in Hn as [Hn1 Hn2]. rewrite length_app in Hsize. apply NoDup_app in Hd as (Hd1 & Hd2 & Hd3).
    destruct (move_chain s len t c p nh nl cs count (chain_fuel (set_hash s nh t))) as (nh1 & nl1 & cs1 & E1 & Hc1 & Hp1 & Hpl1 & Hsz1 & Hf1); try done.
    + apply NoDup_app. split_and!; [done| |by apply NoDup_app in Hd3 as (_ & _ & ?)]. intros a Ha Hin. apply (Hd2 a Ha). apply elem_of_app. by right.
    + intros a Ha. apply Hh. apply elem_of_app. by left.
    + lia.
    + unfold chain_fuel. cbn. lia.
    + rewrite E1. cbn [rbind]. destruct (IH l' nh1 nl1 cs1 (count + zlen c)) as (nh2 & nl2 & cs2 & E2 & Hc2 & Hp2 & Hpl2 & Hsz2); try done.
      * eapply chains_frame; [|exact Hl]. intros a Ha. apply Hf1. intros Hac. apply (Hd2 a Hac). apply elem_of_app. by left.
      * rewrite Hp1. rewrite Permutation_app_swap_app. apply NoDup_app. split_and!; [done|done|done].
      * intros a Ha. apply Hh. apply elem_of_app. by right.
      * lia.
      * lia.
      * lia.
      * exists nh2, nl2, cs2. split_and!; [rewrite E2; do 2 f_equal; lia|done| |done|done]. rewrite Hp2, Hp1. by rewrite Permutation_app_swap_app, app_assoc.
Qed.

Lemma grow_from elems : 0 <= elems <= 2 ^ 31 -> forall fuel k, 2 <= k <= 31 -> 32 <= k + Z.of_nat fuel ->
  exists n k', loop fuel (fun n => if n <? elems then Ret (inl (u32 (n * 2))) else Ret (inr n)) (2 ^ k) = Ret n /\ 2 <= k' <= 31 /\ n = 2 ^ k' /\ elems <= n.
Proof.
  intros He. induction fuel as [|fuel IH]; intros k Hk Hf; [lia|]. rewrite loop_unfold. destruct (Z.ltb_spec (2 ^ k) elems) as [Hlt|Hge]; cbn [rbind].
  - assert (k <> 31) by (intros ->; lia). rewrite Z.mul_comm, <- Z.pow_succ_r by lia. assert (2 ^ Z.succ k <= 2 ^ 31) by (apply Z.pow_le_mono_r; lia).
    assert (0 < 2 ^ Z.succ k) by (apply Z.pow_pos_nonneg; lia). rewrite (wrap_small 32 (2 ^ Z.succ k) : _ -> u32 (2 ^ Z.succ k) = _) by lia. apply IH; lia.
  - by exists (2 ^ k), k.
Qed.

Lemma Resize_ok s old : chains (list_ (table_ s)) (next_hash_ s) old -> NoDup (concat old) -> null ∉ concat old -> hashed (heap_ s) (concat old) ->
  elems_ (table_ s) = zlen (concat old) -> zlen (concat old) <= 2 ^ 31 ->
  exists nh t cs, Resize s = Ret (set_hash s nh t) /\ buckets (set_hash s nh t) cs /\ concat cs ≡ₚ concat old /\ elems_ t = zlen (concat old) /\ elems_ t <= length_ t.
Proof.
  intros Hc Hd Hn Hh He Hl. pose proof (zlen_nonneg (concat old)). unfold Resize. rewrite He. destruct (grow_from (zlen (concat old)) ltac:(lia) 32 2) as (n & k & Eg & Hk & -> & Hle); [lia..|].
  unfold grow. change 4 with (2 ^ 2). rewrite Eg. cbn [rbind]. assert (0 < 2 ^ k) by (apply Z.pow_pos_nonneg; lia).
  assert (concat (repeat (@nil N) (Z.to_nat (2 ^ k))) = []) as Enil by (induction (Z.to_nat (2 ^ k)) as [|m IH]; done).
  assert (s = set_hash s (next_hash_ s) (table_ s)) as Es by (by destruct s).
  destruct (move_buckets_ok s (2 ^ k) (table_ s) old (list_ (table_ s)) (next_hash_ s) (repeat null (Z.to_nat (2 ^ k))) (repeat [] (Z.to_nat (2 ^ k))) 0)
    as (nh & nl & cs & E & Hc' & Hp & Hpl & Hsz); try done.
  - clear. induction (Z.to_nat (2 ^ k)) as [|m IH]; constructor; done.
  - by rewrite Enil, app_nil_r.
  - intros i c a Hi Ha. apply list_elem_of_lookup_2, list_elem_of_In, repeat_spec in Hi as ->. by apply elem_of_nil in Ha.
  - exists k. split; [done|]. split; [done|]. unfold zlen. rewrite repeat_length. lia.
  - lia.
  - rewrite <- size_dom, <- (size_list_to_set (C := gset N)) by done. apply subseteq_size. intros a Ha. apply elem_of_list_to_set in Ha.
    destruct (Hh a Ha) as (e & Ee & _). by apply elem_of_dom_2 in Ee.
  - rewrite <- Es in E. rewrite E. cbn [rbind]. rewrite Z.add_0_l, Z.eqb_refl. cbn [assert_ rbind]. eexists nh, _, cs. split; [done|]. rewrite Enil, app_nil_r in Hp.
    split; [|by split_and!]. split; [done|by rewrite Hp|by rewrite Hp|done|done].
Qed.

(** *** Removing and inserting *)

Lemma elem_of_middle {A : Type} (a : A) cs1 c cs2 : a ∈ c -> a ∈ concat (cs1 ++ c :: cs2).
Proof. intros Ha. rewrite concat_middle. apply elem_of_app. by left. Qed.

Lemma buckets_path s cs1 d1 a d2 cs2 : buckets s (cs1 ++ (d1 ++ a :: d2) :: cs2) -> next_hash_ s !! a = Some (hd null d2) /\ path (next_hash_ s) (hd null d2) d2 null.
Proof.
  intros Hb. destruct (chains_split _ _ _ _ _ (bk_chains _ _ Hb)) as (l1 & p & l2 & _ & _ & _ & Hp & _). apply path_app in Hp as (r & _ & -> & n & En & Hp).
  pose proof (path_head _ _ _ _ Hp) as E. by rewrite E in En, Hp.
Qed.

Lemma bucket_heap s cs1 d1 d2 cs2 a : buckets s (cs1 ++ (d1 ++ d2) :: cs2) -> a ∈ d1 -> is_Some (heap_ s !! a).
Proof.
  intros Hb Ha. destruct (bk_placed _ _ Hb (length cs1) (d1 ++ d2) a) as (e & He & _); [by rewrite list_lookup_middle|rewrite elem_of_app; by left|]. by exists e.
Qed.

Lemma placed_sub heap len cs1 c c' cs2 : (forall a, a ∈ c' -> a ∈ c) -> placed heap len (cs1 ++ c :: cs2) -> placed heap len (cs1 ++ c' :: cs2).
Proof.
  intros Hsub Hp j d a Hj Ha. destruct (decide (j = length cs1)) as [->|Hne].
  - rewrite list_lookup_middle in Hj by done. injection Hj as <-. apply (Hp (length cs1) c a); [by apply list_lookup_middle|by apply Hsub].
  - apply (Hp j d a); [|done]. rewrite lookup_app in Hj |- *. destruct (cs1 !! j) eqn:E; [done|]. apply lookup_ge_None in E. destruct (j - length cs1)%nat eqn:E'; [lia|done].
Qed.

Lemma table_size_length len l l' : table_size len l -> length l' = length l -> table_size len l'.
Proof. intros (k & Hk & E & Ez) El. exists k. split; [done|]. split; [done|]. unfold zlen in *. by rewrite El. Qed.

Lemma size_bound len l : table_size len l -> 4 <= len <= 2 ^ 31.
Proof. intros (k & Hk & -> & _). assert (2 ^ 2 <= 2 ^ k) by (apply Z.pow_le_mono_r; lia). assert (2 ^ k <= 2 ^ 31) by (apply Z.pow_le_mono_r; lia). lia. Qed.

Lemma table_Remove_ok s T key hash : table_holds s T -> selfless s T -> is_u32 hash ->
  exists a nh t, table_Remove s key hash = Ret (a, set_hash s nh t) /\
    ((a = null /\ not_keyed s key hash T /\ set_hash s nh t = s) \/
     (a <> null /\ keyed s key hash a /\ exists T', T ≡ₚ a :: T' /\ table_holds (set_hash s nh t) T')).
Proof.
  intros [(cs & Hb & Hp) He Hl Hk] Hself Hh. assert (selfless s (concat cs)) as Hself' by (intros a Ha; apply Hself; by rewrite Hp).
  destruct (FindPointer_ok s cs key hash Hb Hself' Hh) as (cs1 & d1 & d2 & cs2 & -> & _ & Ef & Er & Hd). unfold table_Remove. rewrite Ef. cbn [rbind]. rewrite Er. cbn [rbind].
  destruct d2 as [|a d2]; cbn [hd].
  - exists null, (next_hash_ s), (table_ s). assert (set_hash s (next_hash_ s) (table_ s) = s) as -> by (by destruct s). split; [done|]. left. split_and!; [done| |done].
    intros b Hb'. apply Hd. by rewrite <- Hp.
  - assert (a ∈ d1 ++ a :: d2) as Had by (rewrite elem_of_app; right; by left). pose proof (elem_of_middle a cs1 _ cs2 Had) as Ha.
    assert (a <> null) as Hna by (intros ->; by apply (bk_null _ _ Hb)). destruct (N.eqb_spec a null); [done|]. cbn [negb].
    destruct (buckets_path _ _ _ _ _ _ Hb) as [En Hpath]. unfold load. rewrite En. cbn [rbind].
    assert (a :: concat (cs1 ++ (d1 ++ d2) :: cs2) ≡ₚ concat (cs1 ++ (d1 ++ a :: d2) :: cs2)) as Hperm.
    { rewrite !concat_middle. by rewrite <- (Permutation_middle d1 d2 a). }
    pose proof (bk_nodup _ _ Hb) as Hnd. rewrite <- Hperm in Hnd. apply NoDup_cons in Hnd as [_ Hnd].
    destruct (write_slot_ok s cs1 d1 (a :: d2) d2 cs2 (hd null d2) (fun b Hin => bucket_heap _ _ _ _ _ b Hb Hin) (bk_chains _ _ Hb) Hnd Hpath) as (l & nh & -> & Hc & Elen). cbn [rbind].
    eexists a, nh, _. split; [done|]. right. split; [done|]. split; [done|]. exists (concat (cs1 ++ (d1 ++ d2) :: cs2)). rewrite Hp, Hperm. split; [done|].
    destruct (size_bound _ _ (bk_size _ _ Hb)) as [_ Hsb]. assert (zlen T = 1 + zlen (concat (cs1 ++ (d1 ++ d2) :: cs2))) as Ez by (unfold zlen; rewrite Hp, <- Hperm; cbn [length]; lia).
    pose proof (zlen_nonneg (concat (cs1 ++ (d1 ++ d2) :: cs2))).
    split; cbn [set_elems set_hash table_ heap_ next_hash_ elems_ length_ list_].
    + exists (cs1 ++ (d1 ++ d2) :: cs2). split; [|done]. split; cbn [set_elems set_hash table_ heap_ next_hash_ elems_ length_ list_]; [done|done| | |].
      * intros Hin. apply (bk_null _ _ Hb). rewrite <- Hperm. by right.
      * eapply placed_sub; [|exact (bk_placed _ _ Hb)]. intros b. rewrite !elem_of_app. intros [?|?]; [by left|right; by right].
      * eapply table_size_length; [exact (bk_size _ _ Hb)|done].
    + rewrite He, Ez. replace (1 + zlen _ - 1) with (zlen (concat (cs1 ++ (d1 ++ d2) :: cs2))) by lia. apply wrap_small. lia.
    + rewrite (wrap_small 32 (elems_ (table_ s) - 1) : _ -> u32 _ = _); lia.
    + intros b b' e e' Hb1 Hb2. apply Hk; rewrite Hp, <- Hperm; by right.
Qed.

(** The chains once the slot of the key has been filled. *)
Lemma fill_slot s h e cs1 d1 d2 cs2 : buckets s (cs1 ++ (d1 ++ d2) :: cs2) -> h ∉ concat (cs1 ++ (d1 ++ d2) :: cs2) -> h <> null ->
  heap_ s !! h = Some e -> length cs1 = index (length_ (table_ s)) (h_hash e) ->
  exists l nh, write_slot (set_hash s (<[h := hd null (tail d2)]> (next_hash_ s)) (table_ s)) (slot_at (length cs1) d1) h =
      Ret (set_hash s nh (mk_handle_table (length_ (table_ s)) (elems_ (table_ s)) l)) /\
    buckets (set_hash s nh (mk_handle_table (length_ (table_ s)) (elems_ (table_ s)) l)) (cs1 ++ (d1 ++ h :: tail d2) :: cs2).
Proof.
  intros Hb Hh Hnh He Hi. set (s1 := set_hash s _ _). pose proof Hh as Hh'. rewrite concat_middle, !not_elem_of_app in Hh'. destruct Hh' as [[Hh1 Hh2] Hh3].
  assert (forall a, a ∈ tail d2 -> a ∈ d2) as Htail by (intros a; destruct d2; [done|]; by right).
  assert (path (next_hash_ s) (hd null (tail d2)) (tail d2) null) as Hp by (destruct d2 as [|a d2]; [done|]; by destruct (buckets_path _ _ _ _ _ _ Hb)).
  pose proof (bk_nodup _ _ Hb) as Hnd. assert (NoDup (concat (cs1 ++ (d1 ++ h :: tail d2) :: cs2))) as Hnd'.
  { rewrite concat_middle, <- app_assoc in *. rewrite <- app_comm_cons, <- Permutation_middle. constructor; [rewrite !not_elem_of_app; split_and!; [done|intros Hin; by apply Hh2, Htail|done]|].
    destruct d2 as [|a d2]; [done|]. cbn [tail]. rewrite <- app_comm_cons, <- Permutation_middle in Hnd. by apply NoDup_cons in Hnd as [_ Hnd]. }
  destruct (write_slot_ok s1 cs1 d1 d2 (h :: tail d2) cs2 h) as (l & nh & E & Hc & Elen).
  - intros b Hin. exact (bucket_heap _ _ _ _ _ b Hb Hin).
  - apply chains_insert; [done|]. exact (bk_chains _ _ Hb).
  - done.
  - split; [done|]. exists (hd null (tail d2)). split; [apply lookup_insert_eq|]. apply path_insert; [|done]. intros Hin. by apply Hh2, Htail.
  - exists l, nh. split; [exact E|]. split; cbn [set_hash table_ heap_ next_hash_ elems_ length_ list_]; [done|done| | |].
    + rewrite concat_middle, <- app_assoc, !not_elem_of_app, not_elem_of_cons. pose proof (bk_null _ _ Hb) as Hnull. rewrite concat_middle, <- app_assoc, !not_elem_of_app in Hnull.
      destruct Hnull as (H1 & H2 & H3). split_and!; [done|done|intros Hin; by apply H2, Htail|done].
    + assert (placed (heap_ s) (length_ (table_ s)) (cs1 ++ (h :: d1 ++ tail d2) :: cs2)) as Hpl.
      { apply (placed_push _ _ _ _ _ h e); [|done|done]. eapply placed_sub; [|exact (bk_placed _ _ Hb)]. intros b. rewrite !elem_of_app. intros [?|?]; [by left|right; by apply Htail]. }
      eapply placed_sub; [|exact Hpl]. intros b. by rewrite <- Permutation_middle.
    + eapply table_size_length; [exact (bk_size _ _ Hb)|done].
Qed.

Lemma holds_rehash s nh t cs T : buckets (set_hash s nh t) cs -> T ≡ₚ concat cs -> elems_ t = zlen T -> elems_ t <= length_ t ->
  (forall a b e e', a ∈ T -> b ∈ T -> heap_ s !! a = Some e -> heap_ s !! b = Some e' -> h_key e = h_key e' -> a = b) -> table_holds (set_hash s nh t) T.
Proof. intros Hb Hp He Hl Hk. split; [by exists cs|done|done|done]. Qed.

Lemma keys_cons s T h e : (forall a b e e', a ∈ T -> b ∈ T -> heap_ s !! a = Some e -> heap_ s !! b = Some e' -> h_key e = h_key e' -> a = b) ->
  heap_ s !! h = Some e -> (forall a e', a ∈ T -> heap_ s !! a = Some e' -> h_key e' <> h_key e) ->
  forall a b x y, a ∈ h :: T -> b ∈ h :: T -> heap_ s !! a = Some x -> heap_ s !! b = Some y -> h_key x = h_key y -> a = b.
Proof.
  intros Hk He Hne a b x y [->|Ha]%elem_of_cons [->|Hb]%elem_of_cons Ex Ey Exy; [done| | |by apply (Hk a b x y)].
  - rewrite He in Ex. injection Ex as <-. by destruct (Hne b y Hb Ey).
  - rewrite He in Ey. injection Ey as <-. by destruct (Hne a x Ha Ex).
Qed.

Lemma table_Insert_ok s T h e : table_holds s T -> selfless s (h :: T) -> h ∉ T -> h <> null -> heap_ s !! h = Some e -> is_u32 (h_hash e) -> hashed (heap_ s) T ->
  (forall a e', a ∈ T -> heap_ s !! a = Some e' -> h_key e' = h_key e -> h_hash e' = h_hash e) -> zlen T + 1 <= 2 ^ 31 ->
  exists old nh t, table_Insert s h = Ret (old, set_hash s nh t) /\
    ((old = null /\ not_keyed s (h_key e) (h_hash e) T /\ table_holds (set_hash s nh t) (h :: T)) \/
     (old <> null /\ keyed s (h_key e) (h_hash e) old /\ exists T', T ≡ₚ old :: T' /\ table_holds (set_hash s nh t) (h :: T'))).
Proof.
  intros [(cs & Hb & Hp) Hel Hl Hk] Hself Hh Hnh He Hu Hhash Hsame Hroom. assert (selfless s (concat cs)) as Hself' by (intros a Ha; apply Hself; right; by rewrite Hp).
  unfold table_Insert. rewrite (entry_key_ok s (h :: T) h e Hself) by (done || by left). cbn [rbind]. unfold load at 1. rewrite He. cbn [rbind].
  destruct (FindPointer_ok s cs (h_key e) (h_hash e) Hb Hself' Hu) as (cs1 & d1 & d2 & cs2 & -> & Hi & Ef & Er & Hd). rewrite Ef. cbn [rbind]. rewrite Er. cbn [rbind].
  assert (h ∉ concat (cs1 ++ (d1 ++ d2) :: cs2)) as Hh' by (by rewrite <- Hp). destruct (fill_slot s h e cs1 d1 d2 cs2 Hb Hh' Hnh He Hi) as (l & nh & Ew & Hb').
  assert ((if (hd null d2 =? null)%N then Ret null else load (next_hash_ s) (hd null d2)) = Ret (hd null (tail d2))) as ->.
  { destruct d2 as [|a d2]; [done|]. cbn [hd tail]. destruct (N.eqb_spec a null) as [->|_].
    - exfalso. apply (bk_null _ _ Hb). apply elem_of_middle. rewrite elem_of_app. right. by left.
    - unfold load. by destruct (buckets_path _ _ _ _ _ _ Hb) as [-> _]. }
  cbn [rbind]. rewrite (store_next_hash_ok s h e) by done. cbn [rbind]. rewrite Ew. cbn [rbind]. pose proof (zlen_nonneg T). destruct d2 as [|a d2]; cbn [hd tail] in *.
  - change (null =? null)%N with true. cbn iota. cbn [set_elems set_hash table_ next_hash_ elems_ length_ list_]. set (n := u32 (elems_ (table_ s) + 1)).
    assert (n = zlen T + 1) as En by (subst n; rewrite Hel; apply wrap_small; lia). assert (h :: T ≡ₚ concat (cs1 ++ (d1 ++ [h]) :: cs2)) as Hperm.
    { rewrite Hp, app_nil_r, !concat_middle, <- app_assoc. cbn [app]. by rewrite <- Permutation_middle. }
    assert (not_keyed s (h_key e) (h_hash e) T) as Hno by (intros b Hb1; apply Hd; by rewrite <- Hp).
    assert (forall a b x y, a ∈ h :: T -> b ∈ h :: T -> heap_ s !! a = Some x -> heap_ s !! b = Some y -> h_key x = h_key y -> a = b) as Hkeys.
    { apply (keys_cons s T h e Hk He). intros a e' Ha Ea Ek. apply (Hno a Ha). exists e'. split_and!; [done|done|by apply (Hsame a)]. }
    set (s2 := set_hash s nh (mk_handle_table (length_ (table_ s)) n l)). assert (buckets s2 (cs1 ++ (d1 ++ [h]) :: cs2)) as Hb2 by (destruct Hb'; by split).
    destruct (Z.gtb_spec n (length_ (table_ s))) as [Hgt|Hle].
    + match goal with |- context [Resize ?x] => change x with s2 end. destruct (Resize_ok s2 _ (bk_chains _ _ Hb2) (bk_nodup _ _ Hb2) (bk_null _ _ Hb2)) as (nh3 & t3 & cs3 & -> & Hb3 & Hp3 & E3 & Hl3).
      * intros a. rewrite <- Hperm. intros [->|Ha]%elem_of_cons; [by exists e|by apply Hhash].
      * cbn. unfold zlen. rewrite <- Hperm. cbn [length]. unfold zlen in En. lia.
      * unfold zlen. rewrite <- Hperm. cbn [length]. unfold zlen in Hroom. lia.
      * cbn [rbind]. exists null, nh3, t3. split; [done|]. left. split; [done|]. split; [done|]. apply (holds_rehash s nh3 t3 cs3); [exact Hb3|by rewrite Hp3|rewrite E3; unfold zlen; by rewrite Hperm|done|done].
    + exists null, nh, (mk_handle_table (length_ (table_ s)) n l). split; [done|]. left. split; [done|]. split; [done|].
      eapply holds_rehash; [exact Hb2|done|cbn; rewrite zlen_cons; lia|done|done].
  - assert (a ∈ d1 ++ a :: d2) as Had by (rewrite elem_of_app; right; by left). pose proof (elem_of_middle a cs1 _ cs2 Had) as Ha.
    destruct (N.eqb_spec a null) as [->|Hna]; [by destruct (bk_null _ _ Hb)|]. eexists a, nh, _. split; [done|]. right. split; [done|]. split; [done|].
    exists (concat (cs1 ++ (d1 ++ d2) :: cs2)). assert (T ≡ₚ a :: concat (cs1 ++ (d1 ++ d2) :: cs2)) as HT.
    { rewrite Hp, !concat_middle. by rewrite <- (Permutation_middle d1 d2 a). }
    split; [done|]. eapply holds_rehash; [exact Hb'| | | |].
    + rewrite !concat_middle. rewrite <- (Permutation_middle d1 d2 h). done.
    + cbn. rewrite Hel. unfold zlen. rewrite HT. done.
    + exact Hl.
    + destruct Hd as (ea & Ea & Eka & Eha). apply keys_cons with (e := e); [|done|].
      * intros x y ex ey Hx Hy. apply Hk; rewrite HT; by right.
      * intros x ex Hx Ex Ekx. assert (x = a) as -> by (apply (Hk x a ex ea); [rewrite HT; by right|rewrite HT; by left|done|done|congruence]).
        assert (NoDup T) as HndT by (rewrite Hp; exact (bk_nodup _ _ Hb)). rewrite HT in HndT. by apply NoDup_cons in HndT as [? _].
Qed.

End Table.
