(* ===== verification/LdbCacheSpec.v ===== *)
(** * LevelDB: what the cache promises

    The invariant of a shard, what each operation does to its lists, and that the
    sharded cache keeps the contract [LawfulCache]: values stay alive while they
    are held, the oldest unused entries go first, and every value inserted is given
    to its deleter exactly once. *)
From S2P Require Import Prelude WireSpec.
From S2P Require Import LdbCoding LdbBloom LdbTable LdbCache LdbCacheLinks.
From Stdlib Require Import ZArith NArith Lia.
From stdpp Require Import base tactics numbers list gmap sorting.
#[local] Open Scope Z_scope.

(** ** The two lists *)

Section Rings.
Context {V : Type}.
Implicit Type s : LRUCache V.

(** Two circular lists without a common node. *)
Definition rings (next prev : gmap N N) (h : N) (l : list N) (h' : N) (l' : list N) : Prop :=
  dll next prev h l /\ dll next prev h' l' /\ NoDup ((h :: l) ++ h' :: l').

Definition no_self (next : gmap N N) (a : N) : Prop := exists n, next !! a = Some n /\ n <> a.

Lemma rings_swap next prev h l h' l' : rings next prev h l h' l' -> rings next prev h' l' h l.
Proof. intros (H1 & H2 & H3). split_and!; [done|done|]. by rewrite Permutation_app_comm. Qed.

Lemma dll_no_self next prev h l a : dll next prev h l -> NoDup (h :: l) -> a ∈ l -> no_self next a.
Proof.
  intros Hd Hn (l1 & l2 & ->)%list_elem_of_split. exists (hd h l2). split; [by eapply dll_next|]. apply NoDup_cons in Hn as [Hh Hn].
  apply NoDup_app in Hn as (_ & _ & Hn). apply NoDup_cons in Hn as [Hn _]. destruct l2 as [|x l2]; cbn; intros ->; [|apply Hn; by left].
  apply Hh. apply elem_of_app. right. by left.
Qed.

Lemma rings_unlink s h l1 e l2 h' l' : all_allocated s (h :: l1 ++ e :: l2) -> rings (next_ s) (prev_ s) h (l1 ++ e :: l2) h' l' ->
  exists next prev, LRU_Remove s e = Ret (set_links s next prev) /\ rings next prev h (l1 ++ l2) h' l' /\
    forall a, a <> h -> no_self (next_ s) a -> no_self next a.
Proof.
  intros Hal (H1 & H2 & Hn). pose proof Hn as Hn'. apply NoDup_app in Hn' as (Hn1 & Hn2 & Hn3). destruct (LRU_Remove_ok s h l1 e l2 Hal H1 Hn1) as (next & prev & E & Hd & Hf).
  exists next, prev. split; [done|].
  assert (NoDup ((h :: l1 ++ l2) ++ h' :: l')) as Hnd.
  { rewrite app_comm_cons in Hn. rewrite <- (Permutation_middle (h :: l1) l2 e), <- app_comm_cons in Hn. by apply NoDup_cons in Hn as [_ Hn]. }
  split; [split_and!|].
  - done.
  - eapply dll_frame; [|exact H2]. intros a Ha. apply Hf. intros Hin. apply NoDup_app in Hnd as (_ & Hnd & _). by apply (Hnd a).
  - done.
  - intros a Hah Hself. destruct (decide (a ∈ l1 ++ l2)) as [Hin|Hout].
    + eapply dll_no_self; [exact Hd| |exact Hin]. by apply NoDup_app in Hnd as (? & _).
    + destruct (Hf a) as [E' _]; [by apply not_elem_of_cons|]. unfold no_self. by rewrite E'.
Qed.

Lemma rings_link s h l e h' l' : all_allocated s (h :: l ++ [e]) -> rings (next_ s) (prev_ s) h l h' l' -> e ∉ (h :: l) ++ h' :: l' ->
  exists next prev, LRU_Append s h e = Ret (set_links s next prev) /\ rings next prev h (l ++ [e]) h' l' /\
    forall a, a <> h -> a = e \/ no_self (next_ s) a -> no_self next a.
Proof.
  intros Hal (H1 & H2 & Hn) He. assert (NoDup ((h :: l ++ [e]) ++ h' :: l')) as Hnd.
  { assert ((h :: l ++ [e]) ++ h' :: l' ≡ₚ e :: (h :: l) ++ h' :: l') as ->; [|by constructor]. etrans; [|symmetry; apply (Permutation_middle (h :: l) (h' :: l') e)].
    by rewrite (app_comm_cons l [e] h), <- app_assoc. }
  pose proof Hnd as Hnd'. apply NoDup_app in Hnd' as (Hn1 & Hn2 & Hn3). destruct (LRU_Append_ok s h l e Hal H1 Hn1) as (next & prev & E & Hd & Hf).
  exists next, prev. split; [done|]. split; [split_and!|].
  - done.
  - eapply dll_frame; [|exact H2]. intros a Ha. apply Hf. intros Hin. by apply (Hn2 a).
  - done.
  - intros a Hah Hself. destruct (decide (a ∈ l ++ [e])) as [Hin|Hout]; [by eapply dll_no_self|].
    destruct Hself as [->|Hself]; [by destruct Hout; rewrite elem_of_app; right; left|]. destruct (Hf a) as [E' _]; [by apply not_elem_of_cons|]. unfold no_self. by rewrite E'.
Qed.

End Rings.

(** ** The shard *)

Section Spec.
Context {V : Type}.
Implicit Type s : LRUCache V.

(** How often an address is held. *)
Definition held (hs : list (N * V)) (a : N) : Z := zlen (filter (fun h => fst h = a) hs).

Lemma held_nil a : held [] a = 0.
Proof. done. Qed.

Lemma held_cons h hs a : held (h :: hs) a = (if decide (fst h = a) then 1 else 0) + held hs a.
Proof. unfold held. rewrite filter_cons. destruct (decide (fst h = a)); [by rewrite zlen_cons|lia]. Qed.

Lemma held_app hs1 hs2 a : held (hs1 ++ hs2) a = held hs1 a + held hs2 a.
Proof. unfold held. by rewrite filter_app, zlen_app. Qed.

Lemma held_nonneg hs a : 0 <= held hs a <= zlen hs.
Proof. unfold held, zlen. pose proof (length_filter (fun h => fst h = a) hs). lia. Qed.

Lemma held_pos hs a v : (a, v) ∈ hs -> 0 < held hs a.
Proof.
  intros (l1 & l2 & ->)%list_elem_of_split. rewrite held_app, held_cons, decide_True by done. pose proof (held_nonneg l1 a). pose proof (held_nonneg l2 a). lia.
Qed.

Lemma held_in hs a : 0 < held hs a -> exists v, (a, v) ∈ hs.
Proof.
  induction hs as [|[b v] hs IH]; [done|]. rewrite held_cons. cbn. destruct (decide (b = a)) as [->|]; [exists v; by left|].
  intros H. destruct IH as [v' Hv]; [lia|]. exists v'. by right.
Qed.

(** The keys and values in memory. *)
Definition live (heap : gmap N (LRUHandle V)) : list (list Z * V) := (fun p => (h_key (snd p), h_value (snd p))) <$> map_to_list heap.

(** What was inserted is in memory or has been given to its deleter. *)
Definition accounts s s' (new : list (list Z * V)) : Prop := deleted_ s' ++ live (heap_ s') ≡ₚ new ++ deleted_ s ++ live (heap_ s).

Lemma accounts_refl s : accounts s s [].
Proof. unfold accounts. reflexivity. Qed.

Lemma accounts_trans s1 s2 s3 n1 n2 : accounts s1 s2 n1 -> accounts s2 s3 n2 -> accounts s1 s3 (n2 ++ n1).
Proof. unfold accounts. intros H1 H2. rewrite H2, H1. by rewrite app_assoc. Qed.

Lemma live_delete heap a e : heap !! a = Some e -> live heap ≡ₚ (h_key e, h_value e) :: live (delete a heap).
Proof. intros H. unfold live. by rewrite <- (map_to_list_delete _ _ _ H). Qed.

Lemma live_insert heap a e : heap !! a = None -> live (<[a := e]> heap) ≡ₚ (h_key e, h_value e) :: live heap.
Proof. intros H. unfold live. by rewrite (map_to_list_insert _ _ _ H). Qed.

Lemma live_refs heap a e b n : heap !! a = Some e -> live (<[a := set_refs e b n]> heap) ≡ₚ live heap.
Proof.
  intros H. rewrite (live_delete _ _ _ H), <- (insert_delete_eq heap a (set_refs e b n)). by rewrite live_insert by apply lookup_delete_eq.
Qed.

Definition charge_at s (a : N) : Z := match heap_ s !! a with Some e => h_charge e | None => 0 end.
Fixpoint total_charge s (l : list N) : Z := match l with [] => 0 | a :: l => charge_at s a + total_charge s l end.

(** What an entry is: [b] tells whether it is in the cache. *)
Record entry_ok (P : list Z -> V -> Prop) s (T : list N) (hs : list (N * V)) (a : N) (e : LRUHandle V) : Prop := {
  eo_address : (2 < a < fresh_ s)%N;
  eo_refs : refs e = (if in_cache e then 1 else 0) + held hs a;
  eo_pos : 0 < refs e;
  eo_cached : in_cache e = true <-> a ∈ T;
  eo_hash : h_hash e = HashSlice (h_key e);
  eo_self : no_self (next_ s) a;
  eo_good : P (h_key e) (h_value e);
  eo_charge : 1 <= h_charge e < 2 ^ 32;
}.

(** The lists and the entries; [L] are the unused entries, oldest first, and [U]
    those in use; [hs] are the handles not released. *)
Record body (P : list Z -> V -> Prop) s (L U : list N) (hs : list (N * V)) : Prop := {
  bo_rings : rings (next_ s) (prev_ s) lru_ L in_use_ U;
  bo_entries a e : heap_ s !! a = Some e -> entry_ok P s (L ++ U) hs a e;
  bo_present a : a ∈ L ++ U -> is_Some (heap_ s !! a);
  bo_unused a : a ∈ L -> held hs a = 0;
  bo_used a : a ∈ U -> 0 < held hs a;
  bo_handles a v : (a, v) ∈ hs -> exists e, heap_ s !! a = Some e /\ h_value e = v;
  bo_usage : usage_ s = u64 (total_charge s (L ++ U));
  bo_fresh : (2 < fresh_ s)%N;
}.

(** *** Charges *)

Lemma total_app s l1 l2 : total_charge s (l1 ++ l2) = total_charge s l1 + total_charge s l2.
Proof. induction l1 as [|a l1 IH]; cbn; [done|]. rewrite IH. lia. Qed.

#[export] Instance total_perm s : Proper ((≡ₚ) ==> (=)) (total_charge s).
Proof. induction 1; cbn; lia. Qed.

Lemma total_frame s s' l : (forall a, a ∈ l -> charge_at s' a = charge_at s a) -> total_charge s' l = total_charge s l.
Proof.
  induction l as [|a l IH]; intros H; cbn; [done|]. rewrite H by (by left). rewrite IH; [done|]. intros b Hb. apply H. by right.
Qed.

Lemma body_charges P s L U hs l : body P s L U hs -> (forall a, a ∈ l -> a ∈ L ++ U) -> zlen l <= total_charge s l < 2 ^ 32 * zlen l + 1.
Proof.
  intros Hb. induction l as [|a l IH]; intros Hl; [done|]. cbn [total_charge]. rewrite zlen_cons.
  destruct (bo_present _ _ _ _ _ Hb a) as [e He]; [apply Hl; by left|]. pose proof (eo_charge _ _ _ _ _ _ (bo_entries _ _ _ _ _ Hb a e He)) as Hc.
  unfold charge_at at 1 2. rewrite He. destruct IH as [H1 H2]; [intros b Hb'; apply Hl; by right|]. lia.
Qed.

(** *** Changing an entry *)

Lemma body_nodup P s L U hs : body P s L U hs -> NoDup (L ++ U) /\ ~ (lru_ ∈ L ++ U) /\ ~ (in_use_ ∈ L ++ U).
Proof.
  intros Hb. destruct (bo_rings _ _ _ _ _ Hb) as (_ & _ & Hn). cbn [app] in Hn. apply NoDup_cons in Hn as [H1 Hn]. rewrite <- Permutation_middle in Hn. apply NoDup_cons in Hn as [H2 Hn].
  split_and!; [done| |done]. rewrite !elem_of_app, elem_of_cons in *. tauto.
Qed.

Lemma body_not_null P s L U hs : body P s L U hs -> null ∉ L ++ U.
Proof. intros Hb Hin. destruct (bo_present _ _ _ _ _ Hb null Hin) as [e He]. pose proof (eo_address _ _ _ _ _ _ (bo_entries _ _ _ _ _ Hb null e He)) as H. unfold null in H. lia. Qed.

(** The nodes of the lists may be written. *)
Lemma body_allocated P s s' L U hs h l : body P s L U hs -> (forall a, is_Some (heap_ s !! a) -> is_Some (heap_ s' !! a)) -> h = lru_ \/ h = in_use_ ->
  (forall a, a ∈ l -> a ∈ L ++ U) -> all_allocated s' (h :: l).
Proof.
  intros Hb Hh Hhd Hl a [->|Ha]%elem_of_cons; [by apply head_allocated|]. destruct (Hh a (bo_present _ _ _ _ _ Hb a (Hl a Ha))) as [e He]. by eapply heap_allocated_entry.
Qed.

Lemma heap_insert_some (heap : gmap N (LRUHandle V)) a e b : is_Some (heap !! b) -> is_Some (<[a := e]> heap !! b).
Proof. intros H. destruct (decide (a = b)) as [->|Hne]; [rewrite lookup_insert_eq; by eexists|by rewrite lookup_insert_ne]. Qed.

(** The lists stay as they are when an entry outside of them is freed. *)
Lemma rings_free next prev h l h' l' a : a ∉ (h :: l) ++ h' :: l' -> rings next prev h l h' l' -> rings (delete a next) (delete a prev) h l h' l'.
Proof.
  intros Ha (H1 & H2 & Hn). apply not_elem_of_app in Ha as [Ha1 Ha2].
  split_and!; [| |done]; (eapply dll_frame; [|eassumption]); intros c Hc; split; apply lookup_delete_ne; by intros ->.
Qed.

Lemma no_self_free next a b : b <> a -> no_self next b -> no_self (delete a next) b.
Proof. intros Hb (n & En & Hn). exists n. by rewrite lookup_delete_ne. Qed.

Lemma out_of_rings (a : N) L U : (2 < a)%N -> a ∉ L ++ U -> a ∉ (lru_ :: L) ++ in_use_ :: U.
Proof. unfold lru_, in_use_. rewrite !elem_of_app, !elem_of_cons. intros Ha Hout [[->|?]|[->|?]]; (lia || tauto). Qed.

(** The other entries see nothing of the change. *)
Definition same_others (a : N) (L U L' U' : list N) (hs hs' : list (N * V)) : Prop :=
  forall b, b <> a -> (b ∈ L <-> b ∈ L') /\ (b ∈ U <-> b ∈ U') /\ held hs' b = held hs b.

Lemma same_cached a L U L' U' hs hs' b : same_others a L U L' U' hs hs' -> b <> a -> (b ∈ L ++ U <-> b ∈ L' ++ U').
Proof. intros H Hb. destruct (H b Hb) as (H1 & H2 & _). rewrite !elem_of_app. tauto. Qed.

Lemma entry_other P s s' L U L' U' hs hs' a b e : same_others a L U L' U' hs hs' -> b <> a -> fresh_ s' = fresh_ s ->
  (forall c, (2 < c)%N -> c <> a -> no_self (next_ s) c -> no_self (next_ s') c) -> entry_ok P s (L ++ U) hs b e -> entry_ok P s' (L' ++ U') hs' b e.
Proof.
  intros Hs Hb Hf Hself [H1 H2 H3 H4 H5 H6 H7 H8]. destruct (Hs b Hb) as (_ & _ & Hh). split; try done.
  - by rewrite Hf.
  - by rewrite Hh.
  - by rewrite H4, (same_cached _ _ _ _ _ _ _ _ Hs Hb).
  - apply Hself; [lia|done|done].
Qed.

Lemma body_update P s s' L U L' U' hs hs' a e b n : body P s L U hs -> heap_ s !! a = Some e -> same_others a L U L' U' hs hs' ->
  heap_ s' = <[a := set_refs e b n]> (heap_ s) -> fresh_ s' = fresh_ s -> usage_ s' = u64 (total_charge s (L' ++ U')) ->
  rings (next_ s') (prev_ s') lru_ L' in_use_ U' -> (forall c, (2 < c)%N -> no_self (next_ s) c -> no_self (next_ s') c) ->
  (b = true <-> a ∈ L' ++ U') -> n = (if b then 1 else 0) + held hs' a -> 0 < n -> (a ∈ L' -> held hs' a = 0) -> (a ∈ U' -> 0 < held hs' a) ->
  (forall v, (a, v) ∈ hs' -> v = h_value e) -> (forall c v, c <> a -> (c, v) ∈ hs' -> (c, v) ∈ hs) ->
  body P s' L' U' hs'.
Proof.
  intros Hb He Hs Eh Ef Eu Hr Hself Hc Hn Hpos HL HU Hva Hv. pose proof (bo_entries _ _ _ _ _ Hb a e He) as [Ha1 Ha2 Ha3 Ha4 Ha5 Ha6 Ha7 Ha8]. split.
  - done.
  - intros c x. rewrite Eh. destruct (decide (c = a)) as [->|Hca].
    + rewrite lookup_insert_eq. intros [= <-]. split; cbn; try done; [by rewrite Ef|]. apply Hself; [lia|done].
    + rewrite lookup_insert_ne by done. intros Ex. eapply entry_other; [done|done|done|by auto|]. by apply Hb.
  - intros c Hc'. rewrite Eh. destruct (decide (c = a)) as [->|Hca]; [rewrite lookup_insert_eq; by eexists|]. rewrite lookup_insert_ne by done.
    apply (bo_present _ _ _ _ _ Hb). by rewrite (same_cached _ _ _ _ _ _ _ _ Hs Hca).
  - intros c Hc'. destruct (decide (c = a)) as [->|Hca]; [by apply HL|]. destruct (Hs c Hca) as (H1 & _ & ->). apply (bo_unused _ _ _ _ _ Hb). by apply H1.
  - intros c Hc'. destruct (decide (c = a)) as [->|Hca]; [by apply HU|]. destruct (Hs c Hca) as (_ & H1 & ->). apply (bo_used _ _ _ _ _ Hb). by apply H1.
  - intros c v Hin. rewrite Eh. destruct (decide (c = a)) as [->|Hca].
    + rewrite lookup_insert_eq. eexists. split; [done|]. cbn. symmetry. by apply Hva.
    + rewrite lookup_insert_ne by done. apply (bo_handles _ _ _ _ _ Hb). by apply Hv.
  - rewrite Eu. f_equal. symmetry. apply total_frame. intros c _. unfold charge_at. rewrite Eh. destruct (decide (c = a)) as [->|Hca]; [by rewrite lookup_insert_eq, He|by rewrite lookup_insert_ne].
  - rewrite Ef. apply Hb.
Qed.

Lemma body_delete P s s' L U L' U' hs hs' a e : body P s L U hs -> heap_ s !! a = Some e -> same_others a L U L' U' hs hs' ->
  heap_ s' = delete a (heap_ s) -> fresh_ s' = fresh_ s -> usage_ s' = u64 (total_charge s (L' ++ U')) ->
  rings (next_ s') (prev_ s') lru_ L' in_use_ U' -> (forall c, (2 < c)%N -> c <> a -> no_self (next_ s) c -> no_self (next_ s') c) ->
  a ∉ L' ++ U' -> held hs' a = 0 -> (forall c v, c <> a -> (c, v) ∈ hs' -> (c, v) ∈ hs) -> body P s' L' U' hs'.
Proof.
  intros Hb He Hs Eh Ef Eu Hr Hself Hc Hn Hv. assert (forall c, c ∈ L' ++ U' -> c <> a) as Hne by (by intros c Hin ->). split.
  - done.
  - intros c x. rewrite Eh. destruct (decide (c = a)) as [->|Hca]; [by rewrite lookup_delete_eq|]. rewrite lookup_delete_ne by done. intros Ex.
    eapply entry_other; [done|done|done|done|]. by apply Hb.
  - intros c Hc'. pose proof (Hne c Hc') as Hca. rewrite Eh, lookup_delete_ne by done. apply (bo_present _ _ _ _ _ Hb). by rewrite (same_cached _ _ _ _ _ _ _ _ Hs Hca).
  - intros c Hc'. assert (c <> a) as Hca by (apply Hne; rewrite elem_of_app; by left). destruct (Hs c Hca) as (H1 & _ & ->). apply (bo_unused _ _ _ _ _ Hb). by apply H1.
  - intros c Hc'. assert (c <> a) as Hca by (apply Hne; rewrite elem_of_app; by right). destruct (Hs c Hca) as (_ & H1 & ->). apply (bo_used _ _ _ _ _ Hb). by apply H1.
  - intros c v Hin. destruct (decide (c = a)) as [->|Hca]; [apply held_pos in Hin; lia|]. rewrite Eh, lookup_delete_ne by done. apply (bo_handles _ _ _ _ _ Hb). by apply Hv.
  - rewrite Eu. f_equal. symmetry. apply total_frame. intros c Hin. unfold charge_at. rewrite Eh, lookup_delete_ne; [done|]. by intros ->; apply Hc.
  - rewrite Ef. apply Hb.
Qed.

(** *** References *)

(** What the operations on references leave alone. *)
Record quiet s s' : Prop := {
  qt_table : table_ s' = table_ s;
  qt_chains a : is_Some (heap_ s' !! a) -> next_hash_ s' !! a = next_hash_ s !! a;
  qt_capacity : capacity_ s' = capacity_ s;
  qt_fresh : fresh_ s' = fresh_ s;
  qt_accounts : accounts s s' [];
}.

Lemma store_refs_ok s a e b n : heap_ s !! a = Some e -> store_refs s a b n = Ret (set_heap s (<[a := set_refs e b n]> (heap_ s))).
Proof. intros H. unfold store_refs, load. by rewrite H. Qed.

Lemma not_lru a : (2 < a)%N -> a <> lru_ /\ a <> in_use_.
Proof. unfold lru_, in_use_. lia. Qed.

(** The lists after an entry starts to be used. *)
Definition to_used (a : N) (L U L' U' : list N) : Prop :=
  (a ∈ U /\ L' = L /\ U' = U) \/ exists l1 l2, L = l1 ++ a :: l2 /\ L' = l1 ++ l2 /\ U' = U ++ [a].

Lemma held_self a v hs : held ((a, v) :: hs) a = 1 + held hs a.
Proof. rewrite held_cons. by rewrite decide_True. Qed.

Lemma held_other a v hs b : b <> a -> held ((a, v) :: hs) b = held hs b.
Proof. intros H. rewrite held_cons. by rewrite decide_False. Qed.

Lemma elem_of_remove {A : Type} (a b : A) l1 l2 : b <> a -> (b ∈ l1 ++ a :: l2 <-> b ∈ l1 ++ l2).
Proof. intros H. rewrite !elem_of_app, elem_of_cons. tauto. Qed.

Lemma elem_of_add {A : Type} (a b : A) l : b <> a -> (b ∈ l <-> b ∈ l ++ [a]).
Proof. intros H. rewrite elem_of_app, list_elem_of_singleton. tauto. Qed.

Lemma lru_Ref_ok P s L U hs a e : body P s L U hs -> a ∈ L ++ U -> heap_ s !! a = Some e -> zlen hs + 2 < 2 ^ 32 ->
  exists s' L' U', lru_Ref s a = Ret s' /\ body P s' L' U' ((a, h_value e) :: hs) /\ to_used a L U L' U' /\ quiet s s' /\
    heap_ s' = <[a := set_refs e true (refs e + 1)]> (heap_ s).
Proof.
  intros Hb Ha He Hl. pose proof (bo_entries _ _ _ _ _ Hb a e He) as Heo. destruct Heo as [Ha1 Ha2 Ha3 Ha4 Ha5 Ha6 Ha7 Ha8]. pose proof (proj2 Ha4 Ha) as Hc. rewrite Hc in Ha2.
  pose proof (held_nonneg hs a). destruct (not_lru a) as [Hlru Hiu]; [lia|]. unfold lru_Ref. unfold load at 1. rewrite He. cbn [rbind]. rewrite Hc, andb_true_r.
  assert (u32 (refs e + 1) = refs e + 1) as -> by (apply wrap_small; lia).
  assert (forall c v, c <> a -> (c, v) ∈ (a, h_value e) :: hs -> (c, v) ∈ hs) as Hv by (intros c v Hca [[= -> _]|Hin]%elem_of_cons; done).
  assert (forall v, (a, v) ∈ (a, h_value e) :: hs -> v = h_value e) as Hva.
  { intros v [[= ->]|Hin]%elem_of_cons; [done|]. destruct (bo_handles _ _ _ _ _ Hb a v Hin) as (e' & Ee & <-). congruence. }
  apply elem_of_app in Ha as [Ha|Ha].
  - pose proof (bo_unused _ _ _ _ _ Hb a Ha) as H0. destruct (Z.eqb_spec (refs e) 1); [|lia]. apply list_elem_of_split in Ha as (l1 & l2 & ->).
    assert (all_allocated s (lru_ :: l1 ++ a :: l2)) as Hal1.
    { apply (body_allocated P s s _ _ _ _ _ Hb); [done|by left|]. intros b Hin. rewrite elem_of_app. by left. }
    destruct (rings_unlink s lru_ l1 a l2 in_use_ U Hal1 (bo_rings _ _ _ _ _ Hb)) as (nx1 & pv1 & -> & Hr1 & Hs1). cbn [rbind].
    assert (all_allocated (set_links s nx1 pv1) (in_use_ :: U ++ [a])) as Hal2.
    { apply (body_allocated P s _ _ _ _ _ _ Hb); [done|by right|]. intros b. rewrite !elem_of_app, list_elem_of_singleton, elem_of_cons. tauto. }
    assert (a ∉ (in_use_ :: U) ++ lru_ :: l1 ++ l2) as Hout.
    { destruct (body_nodup _ _ _ _ _ Hb) as [Hn _]. rewrite <- (Permutation_middle l1 l2 a) in Hn. apply NoDup_cons in Hn as [Hn _]. rewrite !elem_of_app in Hn. rewrite elem_of_app, !elem_of_cons, elem_of_app. tauto. }
    destruct (rings_link (set_links s nx1 pv1) in_use_ U a lru_ (l1 ++ l2) Hal2 (rings_swap _ _ _ _ _ _ Hr1) Hout) as (nx2 & pv2 & -> & Hr2 & Hs2). cbn [rbind set_links].
    rewrite (store_refs_ok _ a e) by done. eexists _, (l1 ++ l2), (U ++ [a]). split; [done|]. split; [|split; [right; by exists l1, l2|split; [|done]]].
    + eapply (body_update P s _ _ _ _ _ hs _ a e true (refs e + 1)); try done.
      * intros b Hba. rewrite (elem_of_remove a b l1 l2), <- (elem_of_add a b U), held_other by done. done.
      * cbn. rewrite (bo_usage _ _ _ _ _ Hb). f_equal. rewrite !total_app. cbn [total_charge]. lia.
      * by apply rings_swap.
      * cbn. intros c Hc2 Hself. destruct (not_lru c Hc2). apply Hs2; [done|]. right. by apply Hs1.
      * split; [|done]. intros _. rewrite !elem_of_app. right. right. by left.
      * rewrite held_self. lia.
      * lia.
      * rewrite held_self. intros Hin. destruct Hout. apply elem_of_app. right. by right.
      * rewrite held_self. lia.
    + split; [done|done|done|done|]. unfold accounts. cbn. by rewrite live_refs.
  - pose proof (bo_used _ _ _ _ _ Hb a Ha) as H0. destruct (Z.eqb_spec (refs e) 1); [lia|]. cbn [rbind]. rewrite (store_refs_ok _ a e) by done.
    eexists _, L, U. split; [done|]. split; [|split; [by left|split; [|done]]].
    + eapply (body_update P s _ _ _ _ _ hs _ a e true (refs e + 1)); try done.
      * intros b Hba. by rewrite held_other.
      * apply Hb.
      * apply Hb.
      * split; [|done]. intros _. apply elem_of_app. by right.
      * rewrite held_self. lia.
      * lia.
      * intros Hin. destruct (body_nodup _ _ _ _ _ Hb) as [Hn _]. apply NoDup_app in Hn as (_ & Hn & _). by destruct (Hn a Hin).
      * rewrite held_self. lia.
    + split; [done|done|done|done|]. unfold accounts. cbn. by rewrite live_refs.
Qed.

(** The lists after a handle was released: unused entries become the newest of [L]. *)
Definition released s (hs : list (N * V)) (a : N) (L U L' U' : list N) : Prop :=
  (L' = L /\ U' = U /\ (a ∉ U \/ 0 < held hs a)) \/ (held hs a = 0 /\ exists l1 l2, U = l1 ++ a :: l2 /\ U' = l1 ++ l2 /\ L' = L ++ [a]).

Lemma held_middle hs1 a v hs2 b : held (hs1 ++ (a, v) :: hs2) b = (if decide (a = b) then 1 else 0) + held (hs1 ++ hs2) b.
Proof. rewrite !held_app, held_cons. cbn. lia. Qed.

Lemma elem_of_less {A : Type} (x y : A) l1 l2 : x ∈ l1 ++ l2 -> x ∈ l1 ++ y :: l2.
Proof. rewrite !elem_of_app, elem_of_cons. tauto. Qed.

Lemma lru_Release_ok P s L U hs1 a v hs2 : body P s L U (hs1 ++ (a, v) :: hs2) -> zlen (hs1 ++ hs2) + 2 < 2 ^ 32 ->
  exists s' L' U', lru_Release s a = Ret s' /\ body P s' L' U' (hs1 ++ hs2) /\ released s (hs1 ++ hs2) a L U L' U' /\ quiet s s' /\ usage_ s' = usage_ s /\
    (forall b, b ∈ L ++ U -> heap_ s' !! b = heap_ s !! b \/ exists e n, heap_ s !! b = Some e /\ heap_ s' !! b = Some (set_refs e true n)).
Proof.
  intros Hb Hl. destruct (bo_handles _ _ _ _ _ Hb a v) as (e & He & Ev); [rewrite elem_of_app; right; by left|].
  pose proof (bo_entries _ _ _ _ _ Hb a e He) as [Ha1 Ha2 Ha3 Ha4 Ha5 Ha6 Ha7 Ha8]. rewrite held_middle, decide_True in Ha2 by done. set (hs := hs1 ++ hs2) in *.
  pose proof (held_nonneg hs a). destruct (not_lru a) as [Hlru Hiu]; [lia|]. unfold lru_Release, lru_Unref. unfold load at 1. rewrite He. cbn [rbind].
  unfold assert_. destruct (Z.gtb_spec (refs e) 0); [|lia]. cbn [rbind].
  assert (u32 (refs e - 1) = refs e - 1) as -> by (apply wrap_small; destruct (in_cache e); lia). rewrite (store_refs_ok _ a e) by done. cbn [rbind].
  assert (forall c w, c <> a -> (c, w) ∈ hs -> (c, w) ∈ hs1 ++ (a, v) :: hs2) as Hv by (intros c w _ Hin; by apply elem_of_less).
  assert (forall w, (a, w) ∈ hs -> w = h_value e) as Hva.
  { intros w Hin. destruct (bo_handles _ _ _ _ _ Hb a w) as (e' & Ee & <-); [by apply elem_of_less|]. congruence. }
  assert (forall b, b <> a -> held hs b = held (hs1 ++ (a, v) :: hs2) b) as Hho by (intros b Hba; by rewrite held_middle, decide_False).
  destruct (in_cache e) eqn:Ec; cycle 1.
  - assert (a ∉ L ++ U) as Hout by (intros Hin; apply Ha4 in Hin; congruence). destruct (Z.eqb_spec (refs e - 1) 0) as [E0|Hne].
    + cbn [negb rbind]. unfold entry_key. destruct Ha6 as (n & En & Hn). unfold load. cbn [set_heap next_ heap_]. rewrite En. cbn [rbind]. destruct (N.eqb_spec n a); [done|].
      cbn [negb assert_ rbind]. rewrite lookup_insert_eq. cbn [rbind]. eexists _, L, U. split; [done|]. split; [|split; [left; split_and!; [done|done|left; by apply not_elem_of_app in Hout as [_ ?]]|split; [|split; [done|]]]].
      * eapply (body_delete P s _ L U L U _ _ a e); try done; [intros b Hba; by rewrite Hho|cbn; by rewrite delete_insert_eq|apply Hb| | |lia].
        -- apply rings_free; [|apply Hb]. apply out_of_rings; [lia|done].
        -- intros c _ Hca. by apply no_self_free.
      * split; [done| |done|done|].
        -- cbn. intros b. rewrite delete_insert_eq. intros [x [Hba _]%lookup_delete_Some]. by apply lookup_delete_ne.
        -- unfold accounts. cbn. rewrite delete_insert_eq, (live_delete (heap_ s) a e He). by rewrite <- app_assoc.
      * intros b Hin. left. cbn. rewrite delete_insert_eq, lookup_delete_ne; [done|]. by intros ->.
    + cbn [andb]. eexists _, L, U. split; [done|]. split; [|split; [left; split_and!; [done|done|left; by apply not_elem_of_app in Hout as [_ ?]]|split; [|split; [done|]]]].
      * eapply (body_update P s _ L U L U _ _ a e false (refs e - 1)); try done; [intros b Hba; by rewrite Hho|apply Hb|apply Hb|lia|lia|intros Hin; destruct Hout; apply elem_of_app; by left|intros Hin; destruct Hout; apply elem_of_app; by right].
      * split; [done|done|done|done|]. unfold accounts. cbn. by rewrite live_refs.
      * intros b Hin. left. cbn. rewrite lookup_insert_ne; [done|]. by intros ->.
  - assert (a ∈ U) as Hin.
    { pose proof (proj1 Ha4 eq_refl) as Hin. apply elem_of_app in Hin as [Hin|Hin]; [|done]. pose proof (bo_unused _ _ _ _ _ Hb a Hin) as Hz. rewrite held_middle, decide_True in Hz by done. fold hs in Hz. lia. }
    destruct (Z.eqb_spec (refs e - 1) 0) as [E0|_]; [lia|]. cbn [andb]. assert (forall n b, b ∈ L ++ U -> <[a := set_refs e true n]> (heap_ s) !! b = heap_ s !! b \/
      exists e' n', heap_ s !! b = Some e' /\ <[a := set_refs e true n]> (heap_ s) !! b = Some (set_refs e' true n')) as Hframe.
    { intros n b _. destruct (decide (b = a)) as [->|Hba]; [right; exists e, n; by rewrite lookup_insert_eq|left; by rewrite lookup_insert_ne]. }
    destruct (Z.eqb_spec (refs e - 1) 1) as [E1|Hne].
    + apply list_elem_of_split in Hin as (l1 & l2 & ->). set (s1 := set_heap _ _).
      assert (forall b, is_Some (heap_ s !! b) -> is_Some (heap_ s1 !! b)) as Hkeep by (intros b; apply heap_insert_some).
      assert (all_allocated s1 (in_use_ :: l1 ++ a :: l2)) as Hal1.
      { apply (body_allocated P s s1 _ _ _ _ _ Hb); [done|by right|]. intros b Hin. rewrite elem_of_app. by right. }
      destruct (rings_unlink s1 in_use_ l1 a l2 lru_ L Hal1 (rings_swap _ _ _ _ _ _ (bo_rings _ _ _ _ _ Hb))) as (nx1 & pv1 & -> & Hr1 & Hs1). cbn [rbind].
      assert (a ∉ (lru_ :: L) ++ in_use_ :: l1 ++ l2) as Hout.
      { destruct (body_nodup _ _ _ _ _ Hb) as [Hn _]. rewrite app_assoc in Hn. rewrite <- (Permutation_middle (L ++ l1) l2 a) in Hn. apply NoDup_cons in Hn as [Hn _]. rewrite !elem_of_app in Hn. rewrite elem_of_app, !elem_of_cons, elem_of_app. tauto. }
      assert (all_allocated (set_links s1 nx1 pv1) (lru_ :: L ++ [a])) as Hal2.
      { apply (body_allocated P s _ _ _ _ _ _ Hb); [done|by left|]. intros b. rewrite !elem_of_app, list_elem_of_singleton, elem_of_cons. tauto. }
      destruct (rings_link (set_links s1 nx1 pv1) lru_ L a in_use_ (l1 ++ l2) Hal2 (rings_swap _ _ _ _ _ _ Hr1) Hout) as (nx2 & pv2 & -> & Hr2 & Hs2).
      eexists _, (L ++ [a]), (l1 ++ l2). split; [done|]. split; [|split; [right; split; [lia|by exists l1, l2]|split; [|split; [done|exact (Hframe _)]]]].
      * eapply (body_update P s _ _ _ _ _ _ _ a e true (refs e - 1)); try done.
        -- intros b Hba. rewrite (elem_of_remove a b l1 l2), <- (elem_of_add a b L), Hho by done. done.
        -- cbn. rewrite (bo_usage _ _ _ _ _ Hb). f_equal. rewrite !total_app. cbn [total_charge]. lia.
        -- cbn. intros c Hc2 Hself. destruct (not_lru c Hc2). apply Hs2; [done|]. right. by apply Hs1.
        -- split; [|done]. intros _. rewrite !elem_of_app. left. right. by left.
        -- lia.
        -- lia.
        -- lia.
        -- intros Hin. destruct Hout. apply elem_of_app. right. by right.
      * split; [done|done|done|done|]. unfold accounts. cbn. by rewrite live_refs.
    + eexists _, L, U. split; [done|]. split; [|split; [left; split_and!; [done|done|right; lia]|split; [|split; [done|exact (Hframe _)]]]].
      * eapply (body_update P s _ L U L U _ _ a e true (refs e - 1)); try done; [intros b Hba; by rewrite Hho|apply Hb|apply Hb|lia|lia| |lia].
        intros HL. destruct (body_nodup _ _ _ _ _ Hb) as [Hn _]. apply NoDup_app in Hn as (_ & Hn & _). by destruct (Hn a HL).
      * split; [done|done|done|done|]. unfold accounts. cbn. by rewrite live_refs.
Qed.

(** *** Leaving the cache *)

Definition dropped (a : N) (L U L' U' : list N) : Prop :=
  (exists l1 l2, L = l1 ++ a :: l2 /\ L' = l1 ++ l2 /\ U' = U) \/ (exists l1 l2, U = l1 ++ a :: l2 /\ U' = l1 ++ l2 /\ L' = L).

Lemma dropped_perm a L U L' U' : dropped a L U L' U' -> L ++ U ≡ₚ a :: L' ++ U'.
Proof.
  intros [(l1 & l2 & -> & -> & ->)|(l1 & l2 & -> & -> & ->)].
  - by rewrite <- (Permutation_middle l1 l2 a).
  - by rewrite <- (Permutation_middle l1 l2 a), <- Permutation_middle.
Qed.

Lemma dropped_others a L U L' U' hs : dropped a L U L' U' -> same_others a L U L' U' hs hs.
Proof. intros [(l1 & l2 & -> & -> & ->)|(l1 & l2 & -> & -> & ->)] b Hb; by rewrite (elem_of_remove a b l1 l2). Qed.

(** The entry leaves its list. *)
Lemma rings_drop P s L U hs a : body P s L U hs -> a ∈ L ++ U -> exists nx pv L' U', LRU_Remove s a = Ret (set_links s nx pv) /\ dropped a L U L' U' /\
  rings nx pv lru_ L' in_use_ U' /\ forall c, (2 < c)%N -> no_self (next_ s) c -> no_self nx c.
Proof.
  intros Hb [(l1 & l2 & ->)%list_elem_of_split|(l1 & l2 & ->)%list_elem_of_split]%elem_of_app.
  - assert (all_allocated s (lru_ :: l1 ++ a :: l2)) as Hal by (apply (body_allocated P s s _ _ _ _ _ Hb); [done|by left|]; intros b Hin; rewrite elem_of_app; by left).
    destruct (rings_unlink s lru_ l1 a l2 in_use_ U Hal (bo_rings _ _ _ _ _ Hb)) as (nx & pv & E & Hr & Hs). exists nx, pv, (l1 ++ l2), U. split_and!; [done|left; by exists l1, l2|done|].
    intros c Hc. apply Hs. by apply not_lru.
  - assert (all_allocated s (in_use_ :: l1 ++ a :: l2)) as Hal by (apply (body_allocated P s s _ _ _ _ _ Hb); [done|by right|]; intros b Hin; rewrite elem_of_app; by right).
    destruct (rings_unlink s in_use_ l1 a l2 lru_ L Hal (rings_swap _ _ _ _ _ _ (bo_rings _ _ _ _ _ Hb))) as (nx & pv & E & Hr & Hs).
    exists nx, pv, L, (l1 ++ l2). split_and!; [done|right; by exists l1, l2|by apply rings_swap|]. intros c Hc. apply Hs. by apply not_lru.
Qed.

Lemma FinishErase_ok P s L U hs a e : body P s L U hs -> a ∈ L ++ U -> heap_ s !! a = Some e -> zlen hs + 2 < 2 ^ 32 ->
  exists s' L' U', FinishErase s a = Ret (true, s') /\ body P s' L' U' hs /\ dropped a L U L' U' /\ quiet s s' /\
    (forall b, b <> a -> heap_ s' !! b = heap_ s !! b) /\ deleted_ s' = deleted_ s ++ (if held hs a =? 0 then [(h_key e, h_value e)] else []).
Proof.
  intros Hb Ha He Hl. pose proof (bo_entries _ _ _ _ _ Hb a e He) as [Ha1 Ha2 Ha3 Ha4 Ha5 Ha6 Ha7 Ha8]. pose proof (proj2 Ha4 Ha) as Hc. rewrite Hc in Ha2. pose proof (held_nonneg hs a).
  unfold FinishErase. destruct (N.eqb_spec a null) as [->|_]; [by apply (body_not_null _ _ _ _ _ Hb) in Ha|]. cbn [negb]. unfold load at 1. rewrite He. cbn [rbind]. rewrite Hc. cbn [assert_ rbind].
  destruct (rings_drop P s L U hs a Hb Ha) as (nx & pv & L' & U' & -> & Hd & Hr & Hs). cbn [rbind]. rewrite (store_refs_ok _ a e) by done. cbn [rbind].
  pose proof (dropped_perm _ _ _ _ _ Hd) as Hperm. pose proof (dropped_others _ _ _ _ _ hs Hd) as Ho.
  assert (a ∉ L' ++ U') as Hout by (destruct (body_nodup _ _ _ _ _ Hb) as [Hn _]; rewrite Hperm in Hn; by apply NoDup_cons in Hn as [Hn _]).
  assert (u64 (usage_ s - h_charge e) = u64 (total_charge s (L' ++ U'))) as Eu.
  { rewrite (bo_usage _ _ _ _ _ Hb). assert (total_charge s (L ++ U) = h_charge e + total_charge s (L' ++ U')) as -> by (rewrite Hperm; cbn; unfold charge_at at 1; by rewrite He).
    unfold u64, wrap. rewrite Zminus_mod_idemp_l. f_equal. lia. }
  unfold lru_Unref, load. cbn [set_usage set_heap set_links heap_]. rewrite lookup_insert_eq. cbn [rbind set_refs refs in_cache]. unfold assert_. destruct (Z.gtb_spec (refs e) 0); [|lia]. cbn [rbind].
  assert (u32 (refs e - 1) = held hs a) as -> by (replace (refs e - 1) with (held hs a) by lia; apply wrap_small; lia).
  unfold store_refs, load. cbn [set_usage set_heap set_links heap_]. rewrite lookup_insert_eq. cbn [rbind set_refs set_heap]. rewrite insert_insert_eq.
  destruct (Z.eqb_spec (held hs a) 0) as [E0|Hne]; cbn [negb rbind andb].
  - unfold entry_key, load. cbn [next_ heap_ set_usage set_heap set_links]. destruct (Hs a) as (n & En & Hn); [lia|done|]. rewrite En. cbn [rbind]. destruct (N.eqb_spec n a); [done|]. cbn [negb assert_ rbind].
    rewrite lookup_insert_eq. cbn [rbind]. eexists _, L', U'. split; [done|]. split; [|split; [done|split; [|split; [|done]]]].
    + eapply (body_delete P s _ L U L' U' hs hs a e); try done; cbn.
      * by rewrite delete_insert_eq.
      * apply rings_free; [|done]. apply out_of_rings; [lia|done].
      * intros c Hc2 Hca Hself. apply no_self_free; [done|]. by apply Hs.
    + split; [done| |done|done|].
      { cbn. intros b. rewrite delete_insert_eq. intros [x [Hba _]%lookup_delete_Some]. by apply lookup_delete_ne. }
      unfold accounts. cbn. rewrite delete_insert_eq, (live_delete (heap_ s) a e He). by rewrite <- app_assoc.
    + intros b Hba. cbn. by rewrite delete_insert_eq, lookup_delete_ne.
  - eexists _, L', U'. split; [done|]. split; [|split; [done|split; [|split; [|cbn; by rewrite app_nil_r]]]].
    + eapply (body_update P s _ L U L' U' hs hs a e false (held hs a)); try done.
      * lia.
      * intros Hin. destruct Hout. apply elem_of_app. by left.
      * lia.
      * intros v Hv. destruct (bo_handles _ _ _ _ _ Hb a v Hv) as (e' & Ee & <-). congruence.
    + split; [done|done|done|done|]. change (deleted_ s ++ live (<[a := set_refs e false (held hs a)]> (heap_ s)) ≡ₚ [] ++ deleted_ s ++ live (heap_ s)). by rewrite live_refs.
    + intros b Hba. cbn. by rewrite lookup_insert_ne.
Qed.

(** *** The table beside the lists *)

Lemma holds_frame s s' T : table_holds s T -> table_ s' = table_ s -> (forall a, a ∈ T -> is_Some (heap_ s' !! a) -> next_hash_ s' !! a = next_hash_ s !! a) ->
  (forall a e, a ∈ T -> heap_ s !! a = Some e -> exists e', heap_ s' !! a = Some e' /\ h_key e' = h_key e /\ h_hash e' = h_hash e) -> table_holds s' T.
Proof.
  intros [(cs & [B1 B2 B3 B4 B5] & Hp) He Hl Hk] Et En Hh. split; [|by rewrite Et|by rewrite Et|].
  - assert (forall a c, c ∈ cs -> a ∈ c -> a ∈ T) as Hin.
    { intros a c Hc Ha. rewrite Hp. apply list_elem_of_In, in_concat. exists c. split; by apply list_elem_of_In. }
    exists cs. split; [|done]. split; rewrite ?Et; try done.
    + eapply chains_frame; [|exact B1]. intros a Ha. apply list_elem_of_In, in_concat in Ha as (c & Hc & Ha). apply list_elem_of_In in Hc, Ha.
      pose proof (Hin a c Hc Ha) as HaT. apply list_elem_of_lookup in Hc as [i Hi]. destruct (B4 i c a Hi Ha) as (e & Ee & _). destruct (Hh a e HaT Ee) as (e' & Ee' & _). apply En; [done|by exists e'].
    + intros i c a Hi Ha. destruct (B4 i c a Hi Ha) as (e & Ee & Hi'). destruct (Hh a e) as (e' & Ee' & _ & Eh); [eapply Hin; [by eapply list_elem_of_lookup_2|done]|done|].
      exists e'. by rewrite Eh.
  - intros a b x y Ha Hb Ex Ey Exy. assert (exists x0, heap_ s !! a = Some x0 /\ exists y0, heap_ s !! b = Some y0) as (x0 & E1 & y0 & E2).
    { assert (forall c, c ∈ T -> is_Some (heap_ s !! c)) as Hsome.
      { intros c Hc. rewrite Hp in Hc. apply list_elem_of_In, in_concat in Hc as (d & Hd & Hc). apply list_elem_of_In in Hd, Hc. apply list_elem_of_lookup in Hd as [i Hi].
        destruct (B4 i d c Hi Hc) as (e & Ee & _). by exists e. }
      destruct (Hsome a Ha) as [x0 ?], (Hsome b Hb) as [y0 ?]. exists x0. split; [done|]. by exists y0. }
    destruct (Hh a x0 Ha E1) as (x' & Ex' & Kx & _), (Hh b y0 Hb E2) as (y' & Ey' & Ky & _). apply (Hk a b x0 y0); [done|done|done|done|congruence].
Qed.

Lemma holds_perm s T T' : T ≡ₚ T' -> table_holds s T -> table_holds s T'.
Proof.
  intros Hp [(cs & Hb & Hc) He Hl Hk]. split; [|by rewrite He; unfold zlen; rewrite Hp|done|].
  - exists cs. split; [done|]. by rewrite <- Hp.
  - intros a b x y Ha Hb'. apply Hk; by rewrite Hp.
Qed.

Lemma body_set_hash P s L U hs nh t : body P s L U hs -> body P (set_hash s nh t) L U hs.
Proof. intros [H1 H2 H3 H4 H5 H6 H7 H8]. split; try done; [intros a e He; destruct (H2 a e He); by split|]. cbn. rewrite H7. f_equal. by apply total_frame. Qed.

Lemma body_selfless P s L U hs T : body P s L U hs -> (forall a, a ∈ T -> a ∈ L ++ U) -> selfless s T.
Proof.
  intros Hb HT a Ha. destruct (bo_present _ _ _ _ _ Hb a (HT a Ha)) as [e He]. exact (eo_self _ _ _ _ _ _ (bo_entries _ _ _ _ _ Hb a e He)).
Qed.

Lemma HashSlice_u32 key : is_u32 (HashSlice key).
Proof. apply Hash_u32. Qed.

Definition absent s (T : list N) (key : list Z) : Prop := forall a e, a ∈ T -> heap_ s !! a = Some e -> h_key e <> key.

Lemma not_keyed_absent P s L U hs key : body P s L U hs -> not_keyed s key (HashSlice key) (L ++ U) -> absent s (L ++ U) key.
Proof.
  intros Hb Hn a e Ha He Ek. apply (Hn a Ha). exists e. split_and!; [done|done|]. rewrite <- Ek. exact (eo_hash _ _ _ _ _ _ (bo_entries _ _ _ _ _ Hb a e He)).
Qed.

(** A shard between operations of its own. *)
Definition linked (P : list Z -> V -> Prop) s (L U : list N) (hs : list (N * V)) : Prop := body P s L U hs /\ table_holds s (L ++ U).

(** [Erase] and the other removals by key. *)
Lemma remove_ok P s L U hs key : linked P s L U hs -> zlen hs + 2 < 2 ^ 32 ->
  exists a s1 b s', table_Remove s key (HashSlice key) = Ret (a, s1) /\ FinishErase s1 a = Ret (b, s') /\ capacity_ s' = capacity_ s /\ accounts s s' [] /\
    ((b = false /\ s' = s /\ absent s (L ++ U) key) \/
     (exists e L' U', b = true /\ a ∈ L ++ U /\ heap_ s !! a = Some e /\ h_key e = key /\ linked P s' L' U' hs /\ dropped a L U L' U' /\
        (forall c, c <> a -> heap_ s' !! c = heap_ s !! c) /\ deleted_ s' = deleted_ s ++ (if held hs a =? 0 then [(h_key e, h_value e)] else []) /\ fresh_ s' = fresh_ s)).
Proof.
  intros [Hb Ht] Hl. destruct (table_Remove_ok s (L ++ U) key (HashSlice key) Ht) as (a & nh & t & -> & H); [eapply body_selfless; [exact Hb|done]|apply HashSlice_u32|].
  destruct H as [(-> & Hno & Es)|(Hna & (e & He & Ek & _) & T' & Hp & Ht')].
  - exists null, (set_hash s nh t), false, s. split; [done|]. split; [by rewrite Es|]. split_and!; [done|apply accounts_refl|]. left. split_and!; [done|done|by eapply not_keyed_absent].
  - assert (a ∈ L ++ U) as Ha by (rewrite Hp; by left). destruct (FinishErase_ok P (set_hash s nh t) L U hs a e (body_set_hash _ _ _ _ _ _ _ Hb) Ha He Hl)
      as (s' & L' & U' & E & Hb' & Hd & [Qt1 Qt2 Qc Qf Qa] & Hf & Hdel).
    exists a, (set_hash s nh t), true, s'. split_and!; [done|done|done|done|]. right. exists e, L', U'. split_and!; try done.
    split; [done|]. apply (holds_perm s' T').
    + apply (Permutation_cons_inv (a := a)). rewrite <- Hp. by apply dropped_perm.
    + eapply holds_frame; [exact Ht'|done|by auto|]. intros c x Hc Ex. exists x. split_and!; [|done|done]. rewrite Hf; [done|]. intros ->.
      destruct (body_nodup _ _ _ _ _ Hb) as [Hn _]. rewrite Hp in Hn. by apply NoDup_cons in Hn as [? _].
Qed.

(** *** Evicting *)

Definition kvs_at s (l : list N) : list (list Z * V) := omap (fun a => (fun e => (h_key e, h_value e)) <$> (heap_ s !! a)) l.

(** The entries [ev] were thrown out, in this order. *)
Record evicted s s' (ev : list N) : Prop := {
  ev_capacity : capacity_ s' = capacity_ s;
  ev_fresh : fresh_ s' = fresh_ s;
  ev_accounts : accounts s s' [];
  ev_deleted : deleted_ s' = deleted_ s ++ kvs_at s ev;
  ev_others c : c ∉ ev -> heap_ s' !! c = heap_ s !! c;
}.

Lemma evicted_refl s : evicted s s [].
Proof. split; [done|done|apply accounts_refl|by rewrite app_nil_r|done]. Qed.

Lemma kvs_at_frame s s' l : (forall a, a ∈ l -> heap_ s' !! a = heap_ s !! a) -> kvs_at s' l = kvs_at s l.
Proof.
  induction l as [|a l IH]; intros H; [done|]. unfold kvs_at. cbn. rewrite H by (by left). fold (kvs_at s l). fold (kvs_at s' l). rewrite IH; [done|]. intros b Hb. apply H. by right.
Qed.

Lemma evicted_cons s s1 s2 a ev : evicted s s1 [a] -> evicted s1 s2 ev -> a ∉ ev -> evicted s s2 (a :: ev).
Proof.
  intros [C1 F1 A1 D1 O1] [C2 F2 A2 D2 O2] Ha. split; [congruence|congruence|exact (accounts_trans _ _ _ _ _ A1 A2)| |].
  - rewrite D2, D1, <- app_assoc. f_equal. rewrite (kvs_at_frame s s1 ev); [|intros b Hb; apply O1; intros ->%list_elem_of_singleton; done]. unfold kvs_at at 1 3. cbn. by destruct (heap_ s !! a).
  - intros c [Hc1 Hc2]%not_elem_of_cons. rewrite O2 by done. apply O1. by intros ->%list_elem_of_singleton.
Qed.

Lemma evict_ok P s a L U hs : linked P s (a :: L) U hs -> zlen hs + 2 < 2 ^ 32 ->
  exists s', evict s = Ret s' /\ linked P s' L U hs /\ evicted s s' [a].
Proof.
  intros Hlk Hl. pose proof Hlk as [Hb Ht]. assert (a ∈ (a :: L) ++ U) as Hain by (by left). destruct (bo_present _ _ _ _ _ Hb a Hain) as [e He].
  pose proof (bo_entries _ _ _ _ _ Hb a e He) as [Ha1 Ha2 Ha3 Ha4 Ha5 Ha6 Ha7 Ha8]. pose proof (bo_unused _ _ _ _ _ Hb a ltac:(by left)) as H0. rewrite (proj2 Ha4 Hain), H0 in Ha2.
  unfold evict. destruct (bo_rings _ _ _ _ _ Hb) as (Hd & _). unfold load at 1. rewrite (dll_first _ _ _ _ Hd). cbn [rbind hd]. unfold load at 1. rewrite He. cbn [rbind]. rewrite Ha2. cbn [Z.add Z.eqb Pos.eqb assert_ rbind].
  rewrite (entry_key_ok s _ a e (body_selfless _ _ _ _ _ ((a :: L) ++ U) Hb (fun b Hb => Hb)) Hain He). cbn [rbind]. rewrite Ha5.
  destruct (remove_ok P s (a :: L) U hs (h_key e) Hlk Hl) as (a' & s1 & b & s' & -> & E & Hcap & Hacc & H). cbn [rbind]. rewrite E. cbn [rbind].
  destruct H as [(-> & -> & Habs)|(e' & L' & U' & -> & Ha' & He' & Ek & Hlk' & Hdrop & Hf & Hdel & Hfr)]; [by destruct (Habs a e Hain He)|].
  assert (a' = a) as -> by (by eapply (th_keys _ _ Ht a' a e' e)). assert (e' = e) as -> by congruence. cbn [assert_ rbind]. exists s'. split; [done|].
  rewrite H0 in Hdel. cbn in Hdel. assert (L' = L /\ U' = U) as [-> ->].
  { destruct (body_nodup _ _ _ _ _ Hb) as [Hn _]. cbn [app] in Hn. apply NoDup_cons in Hn as [Hn _]. rewrite elem_of_app in Hn. destruct Hdrop as [([|x l1] & l2 & El & -> & ->)|(l1 & l2 & El & -> & ->)].
    - by injection El as ->.
    - injection El as -> ->. destruct Hn. left. rewrite elem_of_app. right. by left.
    - destruct Hn. right. rewrite El, elem_of_app. right. by left. }
  split; [done|]. split; [done|done|done|rewrite Hdel; unfold kvs_at; cbn; by rewrite He|]. intros c Hc. apply Hf. intros ->. apply Hc. by left.
Qed.

Lemma linked_nodup P s L U hs : linked P s L U hs -> NoDup (L ++ U).
Proof. intros [Hb _]. by apply (body_nodup _ _ _ _ _ Hb). Qed.

Lemma evicted_total s s' a l : evicted s s' [a] -> a ∉ l -> total_charge s' l = total_charge s l.
Proof. intros He Ha. apply total_frame. intros b Hb. unfold charge_at. rewrite (ev_others _ _ _ He); [done|]. by intros ->%list_elem_of_singleton. Qed.

Lemma usage_total P s L U hs : linked P s L U hs -> zlen (L ++ U) <= 2 ^ 31 -> usage_ s = total_charge s (L ++ U) /\ zlen (L ++ U) <= total_charge s (L ++ U).
Proof. intros [Hb _] Hl. pose proof (body_charges _ _ _ _ _ (L ++ U) Hb (fun a Ha => Ha)). pose proof (zlen_nonneg (L ++ U)). split; [|lia]. rewrite (bo_usage _ _ _ _ _ Hb). apply wrap_small. lia. Qed.

(** The loop that evicts: [ev] are the oldest entries, no more than it takes to get
    down to the capacity. *)
Definition enough s (L U : list N) : Prop := L = [] \/ total_charge s (L ++ U) <= capacity_ s.

Lemma evict_loop P U hs : zlen hs + 2 < 2 ^ 32 -> forall L s fuel, linked P s L U hs -> zlen (L ++ U) <= 2 ^ 31 -> (length L < fuel)%nat ->
  exists ev L' s', L = ev ++ L' /\ loop fuel evict_round s = Ret s' /\ linked P s' L' U hs /\ evicted s s' ev /\ enough s' L' U /\
    forall ev1 a ev2, ev = ev1 ++ a :: ev2 -> capacity_ s < total_charge s (a :: ev2 ++ L' ++ U).
Proof.
  intros Hl. induction L as [|a L IH]; intros s fuel Hlk Hz Hfuel; (destruct fuel as [|fuel]; [cbn in Hfuel; lia|]); rewrite loop_unfold; unfold evict_round, load; pose proof Hlk as [Hb _];
    destruct (bo_rings _ _ _ _ _ Hb) as (Hd & _); rewrite (dll_first _ _ _ _ Hd); cbn [rbind hd].
  - cbn [N.eqb Pos.eqb lru_ negb]. rewrite andb_false_r. cbn [rbind]. exists [], [], s. split_and!; [done|done|done|apply evicted_refl|by left|]. by intros [|? ?] ? ? ?.
  - destruct (usage_total _ _ _ _ _ Hlk Hz) as [-> _]. destruct (Z.gtb_spec (total_charge s ((a :: L) ++ U)) (capacity_ s)) as [Hgt|Hle].
    + assert (a <> lru_) as Hne by (destruct (body_nodup _ _ _ _ _ Hb) as (_ & Hn & _); intros ->; apply Hn; by left). rewrite (proj2 (N.eqb_neq a lru_) Hne). cbn [negb andb].
      destruct (evict_ok P s a L U hs Hlk Hl) as (s1 & -> & Hlk1 & Hev1). cbn [rbind]. pose proof (linked_nodup _ _ _ _ _ Hlk) as Hn. cbn [app] in Hn. apply NoDup_cons in Hn as [Hn Hn'].
      destruct (IH s1 fuel Hlk1) as (ev & L' & s' & -> & E & Hlk' & Hev & Hen & Hmin); [cbn [app] in Hz; rewrite zlen_cons in Hz; lia|cbn in Hfuel; lia|].
      exists (a :: ev), L', s'. rewrite <- app_assoc in Hn. split_and!; [done|done|done| |done|].
      * eapply evicted_cons; [done|done|]. intros Hin. apply Hn. rewrite elem_of_app. by left.
      * intros [|x ev1] b ev2 [= <- ->]; [rewrite app_comm_cons, <- app_assoc in Hgt; exact Hgt|]. rewrite <- (ev_capacity _ _ _ Hev1). rewrite <- (evicted_total s s1 a); [by eapply Hmin|done|].
        intros Hin. apply Hn. rewrite <- app_assoc, elem_of_app. by right.
    + cbn [andb rbind]. exists [], (a :: L), s. split_and!; [done|done|done|apply evicted_refl|right; lia|]. by intros [|? ?] ? ? ?.
Qed.

Lemma fuel_enough P s L U hs : linked P s L U hs -> (length L < chain_fuel s)%nat.
Proof.
  intros Hlk. pose proof (linked_nodup _ _ _ _ _ Hlk) as Hn. destruct Hlk as [Hb _]. unfold chain_fuel. apply NoDup_app in Hn as [Hn _]. apply Nat.lt_succ_r.
  rewrite <- size_dom, <- (size_list_to_set (C := gset N)) by done. apply subseteq_size. intros a Ha. apply elem_of_list_to_set in Ha. apply elem_of_dom. apply (bo_present _ _ _ _ _ Hb). apply elem_of_app. by left.
Qed.

Lemma prune_loop P U hs : zlen hs + 2 < 2 ^ 32 -> forall L s fuel, linked P s L U hs -> (length L < fuel)%nat ->
  exists s', loop fuel prune_round s = Ret s' /\ linked P s' [] U hs /\ evicted s s' L.
Proof.
  intros Hl. induction L as [|a L IH]; intros s fuel Hlk Hfuel; (destruct fuel as [|fuel]; [cbn in Hfuel; lia|]); rewrite loop_unfold; unfold prune_round, load; pose proof Hlk as [Hb _];
    destruct (bo_rings _ _ _ _ _ Hb) as (Hd & _); rewrite (dll_first _ _ _ _ Hd); cbn [rbind hd].
  - exists s. split_and!; [done|done|apply evicted_refl].
  - assert (a <> lru_) as Hne by (destruct (body_nodup _ _ _ _ _ Hb) as (_ & Hn & _); intros ->; apply Hn; by left). rewrite (proj2 (N.eqb_neq a lru_) Hne). cbn [negb].
    destruct (evict_ok P s a L U hs Hlk Hl) as (s1 & -> & Hlk1 & Hev1). cbn [rbind]. destruct (IH s1 fuel Hlk1) as (s' & E & Hlk' & Hev); [cbn in Hfuel; lia|].
    exists s'. split_and!; [done|done|]. eapply evicted_cons; [done|done|]. pose proof (linked_nodup _ _ _ _ _ Hlk) as Hn. cbn [app] in Hn. apply NoDup_cons in Hn as [Hn _].
    intros Hin. apply Hn. apply elem_of_app. by left.
Qed.

(** *** Lookup *)

Lemma to_used_perm a L U L' U' : to_used a L U L' U' -> L ++ U ≡ₚ L' ++ U'.
Proof. intros [(_ & -> & ->)|(l1 & l2 & -> & -> & ->)]; [done|]. rewrite <- (Permutation_middle l1 l2 a), app_assoc, <- Permutation_cons_append. done. Qed.

Lemma linked_Lookup P s L U hs key : linked P s L U hs -> zlen hs + 2 < 2 ^ 32 ->
  exists a s', lru_Lookup s key (HashSlice key) = Ret (a, s') /\ capacity_ s' = capacity_ s /\ fresh_ s' = fresh_ s /\ accounts s s' [] /\
    ((a = null /\ s' = s /\ absent s (L ++ U) key) \/
     (exists e L' U', a <> null /\ a ∈ L ++ U /\ heap_ s !! a = Some e /\ h_key e = key /\ P key (h_value e) /\ to_used a L U L' U' /\ linked P s' L' U' ((a, h_value e) :: hs))).
Proof.
  intros [Hb Ht] Hl. unfold lru_Lookup. destruct (table_Lookup_ok s (L ++ U) key (HashSlice key) Ht) as (a & -> & H); [eapply body_selfless; [exact Hb|done]|apply HashSlice_u32|]. cbn [rbind].
  destruct H as [(-> & Hno)|(Hna & Ha & (e & He & Ek & _))].
  - exists null, s. split_and!; [done|done|done|apply accounts_refl|]. left. split_and!; [done|done|by eapply not_keyed_absent].
  - rewrite (proj2 (N.eqb_neq a null) Hna). cbn [negb]. destruct (lru_Ref_ok P s L U hs a e Hb Ha He Hl) as (s' & L' & U' & -> & Hb' & Hto & [Qt1 Qt2 Qc Qf Qa] & Eh). cbn [rbind].
    exists a, s'. split_and!; [done|done|done|done|]. right. exists e, L', U'. split_and!; try done.
    + rewrite <- Ek. exact (eo_good _ _ _ _ _ _ (bo_entries _ _ _ _ _ Hb a e He)).
    + split; [done|]. apply (holds_perm s' (L ++ U)); [by eapply to_used_perm|]. eapply holds_frame; [exact Ht|done|by auto|]. intros c x Hc Ex. rewrite Eh. destruct (decide (c = a)) as [->|Hca].
      * rewrite lookup_insert_eq. exists (set_refs e true (refs e + 1)). split; [done|]. by assert (x = e) as -> by congruence.
      * rewrite lookup_insert_ne by done. by exists x.
Qed.

(** *** Release *)

Lemma released_perm s hs a L U L' U' : released s hs a L U L' U' -> L ++ U ≡ₚ L' ++ U'.
Proof. intros [(-> & -> & _)|(_ & l1 & l2 & -> & -> & ->)]; [done|]. rewrite <- (Permutation_middle l1 l2 a), <- app_assoc. done. Qed.

Lemma linked_Release P s L U hs1 a v hs2 : linked P s L U (hs1 ++ (a, v) :: hs2) -> zlen (hs1 ++ hs2) + 2 < 2 ^ 32 ->
  exists s' L' U', lru_Release s a = Ret s' /\ linked P s' L' U' (hs1 ++ hs2) /\ released s (hs1 ++ hs2) a L U L' U' /\ quiet s s'.
Proof.
  intros [Hb Ht] Hl. destruct (lru_Release_ok P s L U hs1 a v hs2 Hb Hl) as (s' & L' & U' & E & Hb' & Hr & Hq & Eu & Hf). exists s', L', U'. split_and!; [done| |done|done].
  split; [done|]. destruct Hq as [Qt1 Qt2 Qc Qf Qa]. apply (holds_perm s' (L ++ U)); [by eapply released_perm|]. eapply holds_frame; [exact Ht|done|by auto|].
  intros c x Hc Ex. destruct (Hf c Hc) as [E'|(e & n & Ee & E')]; [exists x; by rewrite E'|]. exists (set_refs e true n). split; [done|]. by assert (x = e) as -> by congruence.
Qed.

(** *** Insertion *)

Lemma held_fresh P s L U hs a : body P s L U hs -> heap_ s !! a = None -> held hs a = 0.
Proof.
  intros Hb Ha. pose proof (held_nonneg hs a). destruct (decide (0 < held hs a)) as [H'|]; [|lia]. apply held_in in H' as [v Hv]. destruct (bo_handles _ _ _ _ _ Hb a v Hv) as (e & He & _). congruence.
Qed.

Lemma fresh_none P s L U hs : body P s L U hs -> heap_ s !! fresh_ s = None.
Proof. intros Hb. destruct (heap_ s !! fresh_ s) as [e|] eqn:He; [|done]. pose proof (eo_address _ _ _ _ _ _ (bo_entries _ _ _ _ _ Hb _ e He)). lia. Qed.

Lemma fresh_out P s L U hs : body P s L U hs -> fresh_ s ∉ L ++ U.
Proof. intros Hb Hin. destruct (bo_present _ _ _ _ _ Hb _ Hin) as [e He]. rewrite (fresh_none _ _ _ _ _ Hb) in He. done. Qed.

(** A new entry with a handle to it; [b] tells whether it joins the entries in use. *)
Lemma body_new P s s' L U hs key v charge (b : bool) : body P s L U hs -> P key v -> 1 <= charge < 2 ^ 32 ->
  heap_ s' = <[fresh_ s := mk_lru v charge key b (if b then 2 else 1) (HashSlice key)]> (heap_ s) -> fresh_ s' = (fresh_ s + 1)%N ->
  rings (next_ s') (prev_ s') lru_ L in_use_ (if b then U ++ [fresh_ s] else U) ->
  (forall c, (2 < c)%N -> c = fresh_ s \/ no_self (next_ s) c -> no_self (next_ s') c) ->
  usage_ s' = u64 (total_charge s (L ++ U) + if b then charge else 0) ->
  body P s' L (if b then U ++ [fresh_ s] else U) ((fresh_ s, v) :: hs).
Proof.
  intros Hb HP Hch Eh Ef Hr Hself Eu. set (a := fresh_ s) in *. set (U' := if b then U ++ [a] else U) in *. pose proof (fresh_none _ _ _ _ _ Hb) as Hnone. pose proof (fresh_out _ _ _ _ _ Hb) as Hout. fold a in Hnone, Hout.
  pose proof (held_fresh _ _ _ _ _ a Hb Hnone) as H0. pose proof (bo_fresh _ _ _ _ _ Hb) as Hf2. fold a in Hf2.
  assert (forall c, c <> a -> (c ∈ U <-> c ∈ U')) as HU by (intros c Hc; subst U'; destruct b; [by apply elem_of_add|done]). apply not_elem_of_app in Hout as [HaL HaU].
  split.
  - done.
  - intros c x. rewrite Eh. destruct (decide (c = a)) as [->|Hca].
    + rewrite lookup_insert_eq. intros [= <-]. split; cbn; try done.
      * rewrite Ef. lia.
      * rewrite held_self, H0. by destruct b.
      * by destruct b.
      * subst U'. rewrite elem_of_app. destruct b; [|split; [done|tauto]]. split; [|done]. intros _. right. rewrite elem_of_app. right. by left.
      * apply Hself; [lia|by left].
    + rewrite lookup_insert_ne by done. intros Ex. destruct (bo_entries _ _ _ _ _ Hb c x Ex) as [H1 H2 H3 H4 H5 H6 H7 H8]. split; try done.
      * rewrite Ef. lia.
      * by rewrite held_other.
      * rewrite H4, !elem_of_app, HU by done. done.
      * apply Hself; [lia|by right].
  - intros c. rewrite Eh. destruct (decide (c = a)) as [->|Hca]; [rewrite lookup_insert_eq; by eexists|]. rewrite lookup_insert_ne by done. rewrite elem_of_app, <- HU, <- elem_of_app by done. apply Hb.
  - intros c Hc. destruct (decide (c = a)) as [->|Hca]; [done|]. rewrite held_other by done. by apply (bo_unused _ _ _ _ _ Hb).
  - intros c Hc. destruct (decide (c = a)) as [->|Hca]; [rewrite held_self; lia|]. rewrite held_other by done. apply (bo_used _ _ _ _ _ Hb). by apply HU.
  - intros c w [[= -> ->]|Hin]%elem_of_cons; rewrite Eh.
    + rewrite lookup_insert_eq. by eexists.
    + destruct (bo_handles _ _ _ _ _ Hb c w Hin) as (e & He & Ev). rewrite lookup_insert_ne; [by exists e|]. intros <-. fold a in He. congruence.
  - rewrite Eu. f_equal. assert (forall l, a ∉ l -> total_charge s' l = total_charge s l) as Htot.
    { intros l Hl. apply total_frame. intros c Hc. unfold charge_at. rewrite Eh, lookup_insert_ne; [done|]. by intros <-. }
    subst U'. destruct b; [|rewrite Htot; [lia|by rewrite not_elem_of_app]]. rewrite app_assoc, (total_app s' (L ++ U)), Htot by (by rewrite not_elem_of_app). cbn. unfold charge_at. rewrite Eh, lookup_insert_eq. cbn. lia.
  - rewrite Ef. lia.
Qed.

(** The new entry and the one of the same key that it replaces. *)
Definition joined s (key : list Z) (a : N) (L U L' U' : list N) : Prop :=
  (absent s (L ++ U) key /\ L' = L /\ U' = U ++ [a]) \/
  (exists old e, old ∈ L ++ U /\ heap_ s !! old = Some e /\ h_key e = key /\ dropped old L (U ++ [a]) L' U').

Definition join (s : LRUCache V) (a : N) (charge : Z) : res (LRUCache V) :=
  let! s := LRU_Append s in_use_ a in
  let s := set_usage s (u64 (usage_ s + charge)) in
  let! (old, s) := table_Insert s a in
  let! (_, s) := FinishErase s old in
  Ret s.

Lemma malloc_accounts P s L U hs key v charge b n : body P s L U hs -> accounts s (snd (lru_malloc s key (HashSlice key) v charge b n)) [(key, v)].
Proof.
  intros Hb. unfold accounts. cbn. rewrite live_insert by (by eapply fresh_none). cbn. by rewrite <- Permutation_middle.
Qed.

Lemma hashed_entries P s L U hs T : body P s L U hs -> (forall a, a ∈ T -> a ∈ L ++ U) -> hashed (heap_ s) T.
Proof.
  intros Hb HT a Ha. destruct (bo_present _ _ _ _ _ Hb a (HT a Ha)) as [e He]. exists e. split; [done|]. rewrite (eo_hash _ _ _ _ _ _ (bo_entries _ _ _ _ _ Hb a e He)). apply HashSlice_u32.
Qed.

Lemma join_ok P s L U hs key v charge : linked P s L U hs -> zlen hs + 3 < 2 ^ 32 -> zlen (L ++ U) + 1 <= 2 ^ 31 -> P key v -> 1 <= charge < 2 ^ 32 ->
  exists s' L' U', join (snd (lru_malloc s key (HashSlice key) v charge true 2)) (fresh_ s) charge = Ret s' /\ linked P s' L' U' ((fresh_ s, v) :: hs) /\
    capacity_ s' = capacity_ s /\ accounts s s' [(key, v)] /\ joined s key (fresh_ s) L U L' U'.
Proof.
  intros [Hb Ht] Hl Hz HP Hch. set (a := fresh_ s). set (s0 := snd (lru_malloc _ _ _ _ _ _ _)). pose proof (fresh_out _ _ _ _ _ Hb) as Hout. pose proof (fresh_none _ _ _ _ _ Hb) as Hnone. fold a in Hout, Hnone.
  pose proof (bo_fresh _ _ _ _ _ Hb) as Hf2. fold a in Hf2. destruct (not_lru a Hf2) as [Hlru Hiu].
  assert (rings (next_ s0) (prev_ s0) in_use_ U lru_ L) as Hr0.
  { apply rings_swap, rings_free; [by apply out_of_rings|apply Hb]. }
  assert (all_allocated s0 (in_use_ :: U ++ [a])) as Hal.
  { intros c. rewrite app_comm_cons, elem_of_app, list_elem_of_singleton. intros [Hc| ->].
    - apply (body_allocated P s s0 L U hs in_use_ U Hb); [intros b; apply heap_insert_some|by right|intros b Hin; rewrite elem_of_app; by right|done].
    - eapply heap_allocated_entry. apply lookup_insert_eq. }
  assert (a ∉ (in_use_ :: U) ++ lru_ :: L) as Hout' by (rewrite !elem_of_app, !elem_of_cons in *; tauto).
  destruct (rings_link s0 in_use_ U a lru_ L Hal Hr0 Hout') as (nx & pv & Ea & Hr & Hself). unfold join. rewrite Ea. cbn [rbind].
  set (s1 := set_usage _ _). assert (body P s1 L (U ++ [a]) ((a, v) :: hs)) as Hb1.
  { apply (body_new P s s1 L U hs key v charge true); try done.
    - by apply rings_swap.
    - intros c Hc Hs. apply Hself; [by apply not_lru|]. destruct Hs as [->|Hs]; [by left|]. destruct (decide (c = a)) as [->|Hca]; [by left|]. right. by apply no_self_free.
    - cbn. rewrite (bo_usage _ _ _ _ _ Hb). apply Zplus_mod_idemp_l. }
  assert (forall c, c ∈ L ++ U -> c <> a) as Hca by (by intros c Hc ->).
  assert (table_holds s1 (L ++ U)) as Ht1.
  { eapply holds_frame; [exact Ht|done| |].
    - intros c Hc _. apply lookup_delete_ne. apply not_eq_sym. by apply Hca.
    - intros c x Hc Ex. exists x. split; [|done]. cbn. rewrite lookup_insert_ne; [done|]. intros <-. by destruct (Hca a). }
  assert (heap_ s1 !! a = Some (mk_lru v charge key true 2 (HashSlice key))) as Ea1 by (cbn; apply lookup_insert_eq).
  assert (forall c, c ∈ a :: L ++ U -> c ∈ L ++ U ++ [a]) as Hin by (intros c; rewrite elem_of_cons, !elem_of_app, list_elem_of_singleton; tauto).
  destruct (table_Insert_ok s1 (L ++ U) a (mk_lru v charge key true 2 (HashSlice key)) Ht1) as (old & nh & t & -> & H); [| |unfold null; lia|exact Ea1|apply HashSlice_u32| | |done|].
  { eapply body_selfless; [exact Hb1|exact Hin]. }
  { done. }
  { eapply hashed_entries; [exact Hb1|]. intros c Hc. apply Hin. by right. }
  { intros c x Hc Ex Ek. cbn [h_hash h_key] in *. rewrite <- Ek. exact (eo_hash _ _ _ _ _ _ (bo_entries _ _ _ _ _ Hb1 c x Ex)). }
  cbn [rbind]. set (s2 := set_hash s1 nh t) in *. pose proof (body_set_hash _ _ _ _ _ nh t Hb1 : body P s2 L (U ++ [a]) ((a, v) :: hs)) as Hb2.
  assert (L ++ U ++ [a] ≡ₚ a :: L ++ U) as Hperm by (by rewrite app_assoc, <- Permutation_cons_append).
  assert (accounts s s2 [(key, v)]) as Hacc by exact (malloc_accounts P s L U hs key v charge true 2 Hb).
  destruct H as [(-> & Hno & Ht2)|(Hold & (e & Eo & Ek & _) & T' & Hp & Ht2)].
  - exists s2, L, (U ++ [a]). split; [done|]. split; [split; [done|]; by apply (holds_perm s2 (a :: L ++ U))|]. split_and!; [done|done|]. left. split_and!; [|done|done].
    intros c x Hc Ex Exk. apply (Hno c Hc). exists x. cbn. rewrite lookup_insert_ne by (intros <-; by destruct (Hca a)). split_and!; [done|done|]. rewrite <- Exk. exact (eo_hash _ _ _ _ _ _ (bo_entries _ _ _ _ _ Hb c x Ex)).
  - assert (old ∈ L ++ U) as Ho by (rewrite Hp; by left). assert (old ∈ L ++ U ++ [a]) as Ho' by (apply Hin; by right).
    destruct (FinishErase_ok P s2 L (U ++ [a]) ((a, v) :: hs) old e Hb2 Ho' Eo) as (s' & L' & U' & -> & Hb' & Hd & [Qt1 Qt2 Qc Qf Qa] & Hf & Hdel); [rewrite zlen_cons; lia|]. cbn [rbind].
    exists s', L', U'. split; [done|]. split; [split; [done|]|split_and!; [done|exact (accounts_trans _ _ _ _ _ Hacc Qa)|]].
    + apply (holds_perm s' (a :: T')).
      * apply (Permutation_cons_inv (a := old)). rewrite <- (dropped_perm _ _ _ _ _ Hd), Hperm, Hp. apply perm_swap.
      * eapply holds_frame; [exact Ht2|done|by auto|]. intros c x Hc Ex. exists x. split_and!; [|done|done]. rewrite Hf; [done|]. intros ->.
        assert (NoDup (old :: a :: T')) as Hn by (rewrite perm_swap, <- Hp, <- Hperm; by apply (body_nodup _ _ _ _ _ Hb2)). by apply NoDup_cons in Hn as [? _].
    + right. exists old, e. split_and!; [done| |done|done]. cbn in Eo. rewrite lookup_insert_ne in Eo; [done|]. intros <-. by destruct (Hca a).
Qed.

Lemma joined_length s key a L U L' U' : joined s key a L U L' U' -> zlen (L' ++ U') <= zlen (L ++ U) + 1.
Proof.
  assert (zlen (L ++ U ++ [a]) = zlen (L ++ U) + 1) as E by (rewrite !zlen_app; change (zlen [a]) with 1; lia).
  intros [(_ & -> & ->)|(old & e & _ & _ & _ & Hd)]; [lia|]. apply dropped_perm in Hd. assert (zlen (L ++ U ++ [a]) = zlen (old :: L' ++ U')) as E' by (unfold zlen; by rewrite Hd). rewrite zlen_cons in E'. lia.
Qed.

(** An entry that does not go into the cache. *)
Lemma uncached_ok P s L U hs key v charge : linked P s L U hs -> P key v -> 1 <= charge < 2 ^ 32 ->
  exists s', store_next (snd (lru_malloc s key (HashSlice key) v charge false 1)) (fresh_ s) null = Ret s' /\ linked P s' L U ((fresh_ s, v) :: hs) /\
    capacity_ s' = capacity_ s /\ accounts s s' [(key, v)].
Proof.
  intros [Hb Ht] HP Hch. pose proof (fresh_out _ _ _ _ _ Hb) as Hout. pose proof (bo_fresh _ _ _ _ _ Hb) as Hf2.
  rewrite store_next_ok by (eapply heap_allocated_entry; apply lookup_insert_eq). eexists. split; [done|]. split; [split|split; [done|by eapply malloc_accounts]].
  - apply (body_new P s _ L U hs key v charge false); try done; cbn.
    + rewrite insert_delete_eq. destruct (bo_rings _ _ _ _ _ Hb) as (H1 & H2 & Hn). pose proof (out_of_rings _ _ _ Hf2 Hout) as Ho. apply not_elem_of_app in Ho as [HaL HaU].
      split_and!; [| |done]; (eapply dll_frame; [|eassumption]); intros c Hc; (split; [apply lookup_insert_ne|apply lookup_delete_ne]); by intros <-.
    + intros c Hc Hs. rewrite insert_delete_eq. destruct (decide (c = fresh_ s)) as [->|Hca]; [exists null; rewrite lookup_insert_eq; split; [done|unfold null; lia]|].
      destruct Hs as [?|(n & En & Hn)]; [done|]. exists n. by rewrite lookup_insert_ne.
    + rewrite (bo_usage _ _ _ _ _ Hb). by rewrite Z.add_0_r.
  - eapply holds_frame; [exact Ht|done| |].
    + intros c Hc _. apply lookup_delete_ne. by intros <-.
    + intros c x Hc Ex. exists x. split; [|done]. cbn. rewrite lookup_insert_ne; [done|]. by intros <-.
Qed.

Lemma linked_Insert P s L U hs key v charge : linked P s L U hs -> zlen hs + 3 < 2 ^ 32 -> zlen (L ++ U) + 1 <= 2 ^ 31 -> P key v -> 1 <= charge < 2 ^ 32 ->
  exists s1 L1 U1 ev L' s', lru_Insert s key (HashSlice key) v charge = Ret (fresh_ s, s') /\ linked P s' L' U1 ((fresh_ s, v) :: hs) /\
    (if capacity_ s >? 0 then joined s key (fresh_ s) L U L1 U1 else L1 = L /\ U1 = U) /\ capacity_ s1 = capacity_ s /\
    L1 = ev ++ L' /\ evicted s1 s' ev /\ accounts s s' [(key, v)] /\ enough s' L' U1 /\
    (forall ev1 x ev2, ev = ev1 ++ x :: ev2 -> capacity_ s1 < total_charge s1 (x :: ev2 ++ L' ++ U1)).
Proof.
  intros Hlk Hl Hz HP Hch. assert (zlen ((fresh_ s, v) :: hs) + 2 < 2 ^ 32) as Hl' by (rewrite zlen_cons; lia).
  assert (exists s1 L1 U1, (if capacity_ s >? 0 then join (snd (lru_malloc s key (HashSlice key) v charge true 2)) (fresh_ s) charge
      else store_next (snd (lru_malloc s key (HashSlice key) v charge false 1)) (fresh_ s) null) = Ret s1 /\ linked P s1 L1 U1 ((fresh_ s, v) :: hs) /\
    (if capacity_ s >? 0 then joined s key (fresh_ s) L U L1 U1 else L1 = L /\ U1 = U) /\ capacity_ s1 = capacity_ s /\ accounts s s1 [(key, v)] /\ zlen (L1 ++ U1) <= 2 ^ 31)
    as (s1 & L1 & U1 & E1 & Hlk1 & Hj & Hc & Hacc & Hz1).
  { destruct (capacity_ s >? 0).
    - destruct (join_ok P s L U hs key v charge Hlk Hl Hz HP Hch) as (s1 & L1 & U1 & E & H1 & H2 & H3 & H4). exists s1, L1, U1. split_and!; try done. apply joined_length in H4. lia.
    - destruct (uncached_ok P s L U hs key v charge Hlk HP Hch) as (s1 & E & Hlk1 & Ec & Ha). exists s1, L, U. split_and!; try done. lia. }
  destruct (evict_loop P U1 _ Hl' L1 s1 (chain_fuel s1) Hlk1 Hz1 (fuel_enough _ _ _ _ _ Hlk1)) as (ev & L' & s' & -> & E2 & Hlk' & Hev & Hen & Hmin).
  exists s1, (ev ++ L'), U1, ev, L', s'. split_and!; try done.
  - unfold lru_Insert. destruct (capacity_ s >? 0); cbn [lru_malloc snd] in E1 |- *; [unfold join in E1|]; rewrite E1; cbn [rbind]; by rewrite E2.
  - exact (accounts_trans _ _ _ _ _ Hacc (ev_accounts _ _ _ Hev)).
Qed.

(** ** Every operation keeps the invariant *)

Definition kMaxEntries : Z := 2 ^ 30.

Record shard_ok (P : list Z -> V -> Prop) s (L U : list N) (hs : list (N * V)) : Prop := {
  so_linked : linked P s L U hs;
  so_handles : zlen hs <= kMaxEntries;
  so_capacity : 0 <= capacity_ s <= kMaxEntries;
  so_room : zlen (L ++ U) <= kMaxEntries;
}.

Lemma enough_room P s L U hs : linked P s L U hs -> enough s L U -> 0 <= capacity_ s <= kMaxEntries -> zlen hs <= kMaxEntries -> zlen (L ++ U) <= kMaxEntries.
Proof.
  intros [Hb _] [->|Ht] Hc Hh.
  - assert (forall l : list N, NoDup l -> (forall a, a ∈ l -> 0 < held hs a) -> zlen l <= zlen hs) as H.
    { intros l Hn Hl. unfold zlen. apply inj_le. rewrite <- (length_fmap fst hs). apply submseteq_length, NoDup_submseteq; [done|]. intros a Ha. apply Hl, held_in in Ha as [v Hv].
      apply list_elem_of_fmap. by exists (a, v). }
    etrans; [apply H|exact Hh]; [apply (body_nodup _ _ _ _ _ Hb)|apply (bo_used _ _ _ _ _ Hb)].
  - pose proof (body_charges _ _ _ _ _ (L ++ U) Hb (fun a Ha => Ha)). lia.
Qed.

Lemma zlen_perm {A : Type} (l l' : list A) : l ≡ₚ l' -> zlen l = zlen l'.
Proof. intros H. unfold zlen. by rewrite H. Qed.

Lemma shard_Lookup P s L U hs key : shard_ok P s L U hs -> zlen hs < kMaxEntries ->
  exists a s', lru_Lookup s key (HashSlice key) = Ret (a, s') /\ accounts s s' [] /\
    ((a = null /\ s' = s /\ absent s (L ++ U) key) \/
     (exists e L' U', a <> null /\ heap_ s !! a = Some e /\ h_key e = key /\ P key (h_value e) /\ to_used a L U L' U' /\ shard_ok P s' L' U' ((a, h_value e) :: hs))).
Proof.
  unfold kMaxEntries. intros [Hlk Hh Hc Hr] Hl. destruct (linked_Lookup P s L U hs key Hlk ltac:(lia)) as (a & s' & E & Ec & _ & Hacc & H). exists a, s'. split_and!; [done|done|].
  destruct H as [H|(e & L' & U' & H1 & H2 & H3 & H4 & H5 & H6 & H7)]; [by left|]. right. exists e, L', U'. split_and!; try done. split; [done| |by rewrite Ec|].
  - rewrite zlen_cons. unfold kMaxEntries. lia.
  - by rewrite <- (zlen_perm _ _ (to_used_perm _ _ _ _ _ H6)).
Qed.

Lemma shard_Release P s L U hs1 a v hs2 : shard_ok P s L U (hs1 ++ (a, v) :: hs2) ->
  exists s' L' U', lru_Release s a = Ret s' /\ shard_ok P s' L' U' (hs1 ++ hs2) /\ released s (hs1 ++ hs2) a L U L' U' /\ accounts s s' [].
Proof.
  unfold kMaxEntries. intros [Hlk Hh Hc Hr]. assert (zlen (hs1 ++ hs2) <= kMaxEntries) as Hh' by (rewrite zlen_app, zlen_cons in *; lia). unfold kMaxEntries in *.
  destruct (linked_Release P s L U hs1 a v hs2 Hlk ltac:(lia)) as (s' & L' & U' & E & Hlk' & Hrel & [_ _ Qc _ Qa]). exists s', L', U'. split_and!; try done.
  split; [done|done|by rewrite Qc|]. by rewrite <- (zlen_perm _ _ (released_perm _ _ _ _ _ _ _ Hrel)).
Qed.

Lemma shard_Insert P s L U hs key v charge : shard_ok P s L U hs -> zlen hs < kMaxEntries -> P key v -> 1 <= charge < 2 ^ 32 ->
  exists s1 L1 U1 ev L' s', lru_Insert s key (HashSlice key) v charge = Ret (fresh_ s, s') /\ shard_ok P s' L' U1 ((fresh_ s, v) :: hs) /\
    (if capacity_ s >? 0 then joined s key (fresh_ s) L U L1 U1 else L1 = L /\ U1 = U) /\
    L1 = ev ++ L' /\ evicted s1 s' ev /\ accounts s s' [(key, v)] /\ enough s' L' U1 /\
    (forall ev1 x ev2, ev = ev1 ++ x :: ev2 -> capacity_ s < total_charge s1 (x :: ev2 ++ L' ++ U1)).
Proof.
  unfold kMaxEntries. intros [Hlk Hh Hc Hr] Hl HP Hch. unfold kMaxEntries in *.
  destruct (linked_Insert P s L U hs key v charge Hlk ltac:(lia) ltac:(lia) HP Hch) as (s1 & L1 & U1 & ev & L' & s' & E & Hlk' & Hj & Ec & HL & Hev & Hacc & Hen & Hmin).
  rewrite Ec in Hmin. exists s1, L1, U1, ev, L', s'. assert (capacity_ s' = capacity_ s) as Ec' by (rewrite <- Ec; apply Hev).
  assert (zlen ((fresh_ s, v) :: hs) <= 2 ^ 30) as Hh' by (rewrite zlen_cons; lia).
  split_and!; try done. split; [done|done|by rewrite Ec'|]. eapply enough_room; [done|done|by rewrite Ec'|done].
Qed.

Lemma shard_Erase P s L U hs key : shard_ok P s L U hs ->
  exists s', lru_Erase s key (HashSlice key) = Ret s' /\ accounts s s' [] /\
    ((s' = s /\ absent s (L ++ U) key) \/
     (exists a e L' U', heap_ s !! a = Some e /\ h_key e = key /\ shard_ok P s' L' U' hs /\ dropped a L U L' U' /\
        deleted_ s' = deleted_ s ++ (if held hs a =? 0 then [(key, h_value e)] else []))).
Proof.
  unfold kMaxEntries. intros [Hlk Hh Hc Hr]. unfold kMaxEntries in *. destruct (remove_ok P s L U hs key Hlk ltac:(lia)) as (a & s1 & b & s' & E1 & E2 & Ec & Hacc & H).
  exists s'. split; [unfold lru_Erase; rewrite E1; cbn [rbind]; by rewrite E2|]. split; [done|].
  destruct H as [(_ & H1 & H2)|(e & L' & U' & _ & Ha & He & Ek & Hlk' & Hd & _ & Hdel & _)]; [by left|]. right. exists a, e, L', U'. rewrite Ek in Hdel. split_and!; try done.
  split; [done|done|by rewrite Ec|]. rewrite (zlen_perm _ _ (dropped_perm _ _ _ _ _ Hd)), zlen_cons in Hr. unfold kMaxEntries. lia.
Qed.

Lemma shard_Prune P s L U hs : shard_ok P s L U hs -> exists s', lru_Prune s = Ret s' /\ shard_ok P s' [] U hs /\ evicted s s' L.
Proof.
  unfold kMaxEntries. intros [Hlk Hh Hc Hr]. unfold kMaxEntries in *. destruct (prune_loop P U hs ltac:(lia) L s (chain_fuel s) Hlk (fuel_enough _ _ _ _ _ Hlk)) as (s' & E & Hlk' & Hev).
  exists s'. split_and!; [done| |done]. split; [done|done|by rewrite (ev_capacity _ _ _ Hev)|]. rewrite zlen_app in Hr. pose proof (zlen_nonneg L). cbn [app]. unfold kMaxEntries. lia.
Qed.

(** *** The first and the last state *)

Lemma new_cache_ok P : exists s, new_cache (V := V) = Ret s /\ usage_ s = 0 /\ deleted_ s = [] /\ heap_ s = ∅ /\ forall c, 0 <= c <= kMaxEntries -> shard_ok P (set_capacity s c) [] [] [].
Proof.
  unfold new_cache. set (s0 := mk_cache _ _ _ _ _ _ _ _ _). destruct (Resize_ok s0 []) as (nh & t & cs & -> & Hb & Hp & He & Hl); try done; [by apply Forall2_nil|constructor|apply not_elem_of_nil|intros a Ha; by apply not_elem_of_nil in Ha|].
  exists (set_hash s0 nh t). split_and!; try done. intros c Hc. apply Permutation_nil_r in Hp. split; [|done|done|done]. split.
  - split; try done.
    + cbn. assert (forall m : gmap N N, m = <[in_use_ := in_use_]> {[lru_ := lru_]} -> path m lru_ [lru_] lru_ /\ path m in_use_ [in_use_] in_use_) as H.
      { intros m ->. split; (split; [done|]); [exists lru_|exists in_use_]; done. }
      destruct (H _ eq_refl) as [H1 H2]. split_and!; [by split|by split|]. apply NoDup_cons. split; [|apply NoDup_singleton]. by intros ?%list_elem_of_singleton.
    + intros a Ha. by apply not_elem_of_nil in Ha.
    + intros a Ha. by apply not_elem_of_nil in Ha.
    + intros a v Ha. by apply not_elem_of_nil in Ha.
  - split.
    + exists cs. split; [|by rewrite Hp]. destruct Hb as [B1 B2 B3 B4 B5]. split; try done.
    + cbn. by rewrite He.
    + done.
    + intros a b x y Ha. by apply not_elem_of_nil in Ha.
Qed.

(** The destructor, when no handle is left. *)
Lemma destroy_loop : forall L e s fuel, path (next_ s) e L lru_ -> NoDup L -> lru_ ∉ L ->
  (forall a, a ∈ L <-> is_Some (heap_ s !! a)) -> (forall a x, heap_ s !! a = Some x -> in_cache x = true /\ refs x = 1 /\ no_self (next_ s) a) -> (length L < fuel)%nat ->
  exists s', loop fuel destroy_round (e, s) = Ret s' /\ heap_ s' = ∅ /\ deleted_ s' = deleted_ s ++ kvs_at s L.
Proof.
  induction L as [|a L IH]; intros e s fuel Hp Hn Hlru Hheap Hx Hfuel; (destruct fuel as [|fuel]; [cbn in Hfuel; lia|]); rewrite loop_unfold; unfold destroy_round.
  - cbn in Hp. subst e. cbn [N.eqb Pos.eqb lru_ rbind]. exists s. rewrite app_nil_r. split_and!; [done| |done]. apply map_eq. intros a. rewrite lookup_empty. apply eq_None_not_Some. rewrite <- Hheap. apply not_elem_of_nil.
  - destruct Hp as (-> & n & En & Hp). apply NoDup_cons in Hn as [Ha Hn]. apply not_elem_of_cons in Hlru as [Hne Hlru]. destruct (N.eqb_spec a lru_) as [->|_]; [done|].
    destruct (proj1 (Hheap a)) as [x Ex]; [by left|]. destruct (Hx a x Ex) as (Hc & Hr & m & Em & Hm). unfold load at 1 2. rewrite En, Ex. cbn [rbind]. rewrite Hc, Hr. cbn [assert_ rbind].
    rewrite (store_refs_ok s a x) by done. cbn [rbind Z.eqb Pos.eqb assert_]. unfold lru_Unref, load. cbn [set_heap heap_]. rewrite lookup_insert_eq. cbn [rbind set_refs refs in_cache]. change (1 >? 0) with true. cbn [assert_ rbind].
    change (u32 (1 - 1)) with 0. unfold store_refs, load. cbn [set_heap heap_]. rewrite lookup_insert_eq. cbn [rbind set_refs Z.eqb negb assert_ set_heap]. rewrite insert_insert_eq. unfold entry_key, load. cbn [next_ heap_ set_heap].
    assert (n = m) as -> by congruence. rewrite En. cbn [rbind]. destruct (N.eqb_spec m a); [done|]. cbn [negb assert_ rbind]. rewrite lookup_insert_eq. cbn [rbind h_key h_value set_refs].
    set (s1 := free_entry _ _). assert (heap_ s1 = delete a (heap_ s)) as Eh1 by (cbn; by rewrite delete_insert_eq). destruct (IH m s1 fuel) as (s' & E & Eh & Ed); try done.
    + eapply path_frame; [|exact Hp]. intros b Hb. apply lookup_delete_ne. by intros ->.
    + intros b. rewrite Eh1. destruct (decide (b = a)) as [->|Hb]; [rewrite lookup_delete_eq; split; [done|by intros []]|]. rewrite lookup_delete_ne, <- Hheap, elem_of_cons by done. tauto.
    + intros b y. rewrite Eh1. intros [Hb Ey]%lookup_delete_Some. destruct (Hx b y Ey) as (? & ? & ?). split_and!; [done|done|by apply no_self_free].
    + cbn in Hfuel. lia.
    + exists s'. split_and!; [done|done|]. rewrite Ed. cbn [s1 free_entry set_deleted set_heap deleted_]. rewrite <- app_assoc. f_equal. unfold kvs_at at 2. cbn. rewrite Ex. cbn. f_equal.
      apply kvs_at_frame. intros b Hb. rewrite Eh1. apply lookup_delete_ne. by intros ->.
Qed.

Lemma live_kvs s L : NoDup L -> (forall a, a ∈ L <-> is_Some (heap_ s !! a)) -> kvs_at s L ≡ₚ live (heap_ s).
Proof.
  intros Hn Hh. unfold live. assert (map_to_list (heap_ s) ≡ₚ omap (fun a => (a,.) <$> heap_ s !! a) L) as ->.
  { apply NoDup_Permutation.
    - apply NoDup_map_to_list.
    - clear Hh. induction Hn as [|a L Ha Hn IH]; cbn; [constructor|]. destruct (heap_ s !! a) as [x|]; cbn; [|done]. constructor; [|done]. intros (b & Hb & E)%list_elem_of_omap.
      destruct (heap_ s !! b); [|done]. injection E as -> ->. done.
    - intros [a x]. rewrite elem_of_map_to_list, list_elem_of_omap. split.
      + intros Ex. exists a. rewrite Hh, Ex. split; [by eexists|done].
      + intros (b & _ & E). destruct (heap_ s !! b) eqn:Eb; [|done]. injection E as -> ->. done. }
  unfold kvs_at. clear. induction L as [|a L IH]; cbn; [done|]. destruct (heap_ s !! a); cbn; [by constructor|done].
Qed.

Lemma shard_destroy P s L U : shard_ok P s L U [] -> exists s', lru_destroy s = Ret s' /\ heap_ s' = ∅ /\ deleted_ s' = deleted_ s ++ kvs_at s L /\ accounts s s' [].
Proof.
  intros [Hlk _ _ _]. pose proof (linked_nodup _ _ _ _ _ Hlk) as Hn. pose proof (fuel_enough _ _ _ _ _ Hlk) as Hfuel. destruct Hlk as [Hb _].
  assert (U = []) as -> by (destruct U as [|a U]; [done|]; pose proof (bo_used _ _ _ _ _ Hb a ltac:(by left)) as H; rewrite held_nil in H; lia). rewrite app_nil_r in Hn.
  destruct (bo_rings _ _ _ _ _ Hb) as (H1 & H2 & _). unfold lru_destroy, load. rewrite (dll_first _ _ _ _ H2), (dll_first _ _ _ _ H1). cbn [rbind hd N.eqb Pos.eqb in_use_ assert_].
  assert (forall a x, heap_ s !! a = Some x -> a ∈ L /\ in_cache x = true /\ refs x = 1 /\ no_self (next_ s) a) as Hx.
  { intros a x Ex. destruct (bo_entries _ _ _ _ _ Hb a x Ex) as [_ E2 E3 E4 _ E6 _ _]. rewrite held_nil in E2. destruct (in_cache x) eqn:Ec; [|lia]. rewrite app_nil_r in E4. split_and!; [by apply E4|done|lia|done]. }
  assert (forall a, a ∈ L <-> is_Some (heap_ s !! a)) as Hh.
  { intros a. split; [intros Ha; apply (bo_present _ _ _ _ _ Hb); by rewrite app_nil_r|intros [x Ex]; by apply (Hx a x)]. }
  destruct H1 as [(_ & n & En & Hp) _]. destruct (destroy_loop L (hd lru_ L) s (chain_fuel s)) as (s' & E & Eh & Ed); try done.
  - by rewrite (path_head _ _ _ _ Hp) in Hp.
  - destruct (body_nodup _ _ _ _ _ Hb) as (_ & Hl & _). by rewrite app_nil_r in Hl.
  - intros a x Ex. by apply Hx.
  - exists s'. split_and!; [done|done|done|]. unfold accounts. rewrite Ed, Eh. unfold live at 1. rewrite map_to_list_empty. cbn. by rewrite app_nil_r, (live_kvs s L Hn Hh).
Qed.

(** [Insert] puts the new entry, in use, in the place of the one of the same key,
    and then throws out unused entries, the oldest first and no more of them than it
    takes to get down to the capacity; entries in use stay. *)
Theorem lru_Insert_evicts P (s : LRUCache V) L U hs key v charge : shard_ok P s L U hs -> zlen hs < kMaxEntries -> P key v -> 1 <= charge < 2 ^ 32 ->
  exists s1 L1 U1 ev L' s', lru_Insert s key (HashSlice key) v charge = Ret (fresh_ s, s') /\ shard_ok P s' L' U1 ((fresh_ s, v) :: hs) /\
    (if capacity_ s >? 0 then joined s key (fresh_ s) L U L1 U1 else L1 = L /\ U1 = U) /\
    L1 = ev ++ L' /\ evicted s1 s' ev /\ accounts s s' [(key, v)] /\ enough s' L' U1 /\
    (forall ev1 x ev2, ev = ev1 ++ x :: ev2 -> capacity_ s < total_charge s1 (x :: ev2 ++ L' ++ U1)).
Proof. apply shard_Insert. Qed.

End Spec.
