(* ===== verification/LdbCacheLife.v ===== *)
(** * LevelDB: the sharded cache and the life of a shard

    The shards together keep the contract of caches; in a shard nothing is lost, freed
    early or deleted twice, whatever the clients do. *)
From S2P Require Import Prelude WireSpec LdbCoding LdbBloom LdbTable LdbCache LdbCacheLinks LdbCacheSpec.
From Stdlib Require Import ZArith NArith Lia.
From stdpp Require Import base tactics numbers list gmap.
#[local] Open Scope Z_scope.

Section Sharded.
Context {V : Type}.
Implicit Type c : ShardedLRUCache V.
Implicit Type hs : list ((nat * N) * V).

(** The handles of a shard. *)
Definition of_shard (i : nat) hs : list (N * V) := omap (fun h => if decide (fst (fst h) = i) then Some (snd (fst h), snd h) else None) hs.

Lemma of_shard_app i hs1 hs2 : of_shard i (hs1 ++ hs2) = of_shard i hs1 ++ of_shard i hs2.
Proof. apply omap_app. Qed.

Lemma of_shard_same i a v hs : of_shard i (((i, a), v) :: hs) = (a, v) :: of_shard i hs.
Proof. unfold of_shard. cbn. by rewrite decide_True. Qed.

Lemma of_shard_other i j a v hs : j <> i -> of_shard j (((i, a), v) :: hs) = of_shard j hs.
Proof. intros H. unfold of_shard. cbn. by rewrite decide_False. Qed.

Lemma of_shard_few i hs : zlen (of_shard i hs) <= zlen hs.
Proof. unfold of_shard. induction hs as [|h hs IH]; [done|]. cbn. rewrite (zlen_cons h hs). destruct (decide _); [rewrite zlen_cons|]; lia. Qed.

Lemma of_shard_in i a v hs : ((i, a), v) ∈ hs -> (a, v) ∈ of_shard i hs.
Proof. intros H. apply list_elem_of_omap. eexists. split; [exact H|]. cbn. by rewrite decide_True. Qed.

(** A shard holds the keys of its own. *)
Definition keys_of (P : list Z -> V -> Prop) (i : nat) : list Z -> V -> Prop := fun k v => P k v /\ Shard (HashSlice k) = i.

Record sharded_ok (P : list Z -> V -> Prop) c hs : Prop := {
  sd_length : length (shard_ c) = kNumShards;
  sd_few : zlen hs <= kMaxEntries;
  sd_handles : Forall (fun h => (fst (fst h) < kNumShards)%nat) hs;
  sd_shards i s : shard_ c !! i = Some s -> exists L U, shard_ok (keys_of P i) s L U (of_shard i hs);
}.

Lemma Shard_lt key : (Shard (HashSlice key) < kNumShards)%nat.
Proof.
  unfold Shard, kNumShards, kNumShardBits. pose proof (HashSlice_u32 key) as H. unfold is_u32 in H. rewrite Z.shiftr_div_pow2 by lia.
  assert (HashSlice key / 2 ^ (32 - 4) < 16); [|lia]. apply Z.div_lt_upper_bound; lia.
Qed.

Lemma shard_of P c hs i : sharded_ok P c hs -> (i < kNumShards)%nat -> exists s L U, shard_ c !! i = Some s /\ shard_ok (keys_of P i) s L U (of_shard i hs).
Proof.
  intros H Hi. rewrite <- (sd_length _ _ _ H) in Hi. apply lookup_lt_is_Some in Hi as [s Hs]. destruct (sd_shards _ _ _ H i s Hs) as (L & U & Hok). by exists s, L, U.
Qed.

Lemma shard_update P c hs hs' i s' L U : sharded_ok P c hs -> (i < kNumShards)%nat -> shard_ok (keys_of P i) s' L U (of_shard i hs') ->
  (forall j, j <> i -> of_shard j hs' = of_shard j hs) -> zlen hs' <= kMaxEntries -> Forall (fun h => (fst (fst h) < kNumShards)%nat) hs' ->
  sharded_ok P (mk_sharded (<[i := s']> (shard_ c)) (last_id_ c)) hs'.
Proof.
  intros [H1 H2 H3 H4] Hi Hs Hj Hf Hh. split; cbn; [by rewrite length_insert|done|done|]. intros j s. destruct (decide (j = i)) as [->|Hji].
  - rewrite list_lookup_insert_eq by lia. intros [= <-]. by exists L, U.
  - rewrite list_lookup_insert_ne by done. intros Es. rewrite (Hj j Hji). by apply H4.
Qed.

Lemma on_shard_ok {A : Type} c i s (f : LRUCache V -> res (A * LRUCache V)) x s' : shard_ c !! i = Some s -> f s = Ret (x, s') ->
  on_shard c i f = Ret (x, mk_sharded (<[i := s']> (shard_ c)) (last_id_ c)).
Proof. intros Hs Ef. unfold on_shard. rewrite Hs, Ef. done. Qed.

Lemma sharded_Lookup_ok P c hs key : sharded_ok P c hs -> zlen hs < 2 ^ 30 ->
  exists r c', sharded_Lookup c key = Ret (r, c') /\ match r with None => sharded_ok P c' hs | Some h => exists v, P key v /\ sharded_ok P c' ((h, v) :: hs) end.
Proof.
  intros H Hl. pose proof (Shard_lt key) as Hi. destruct (shard_of P c hs _ H Hi) as (s & L & U & Hs & Hok). pose proof (of_shard_few (Shard (HashSlice key)) hs) as Hf.
  destruct (shard_Lookup _ s L U _ key Hok) as (a & s' & E & _ & Ha); [unfold kMaxEntries; lia|]. unfold sharded_Lookup. rewrite (on_shard_ok c _ s _ a s' Hs E). cbn [rbind].
  destruct Ha as [(-> & -> & _)|(e & L' & U' & Hna & _ & _ & [HP _] & _ & Hok')].
  - eexists None, _. split; [done|]. eapply shard_update; [done|done|exact Hok|done|apply H|apply H].
  - rewrite (proj2 (N.eqb_neq a null) Hna). eexists (Some _), _. split; [done|]. exists (h_value e). split; [done|]. eapply (shard_update P c hs); [done|done|rewrite of_shard_same; exact Hok'| | |].
    + intros j Hj. by apply of_shard_other.
    + rewrite zlen_cons. unfold kMaxEntries. lia.
    + constructor; [done|apply H].
Qed.

Lemma sharded_Insert_ok P c hs key v charge : sharded_ok P c hs -> zlen hs < 2 ^ 30 -> P key v -> 1 <= charge < 2 ^ 32 ->
  exists h c', sharded_Insert c key v charge = Ret (h, c') /\ sharded_ok P c' ((h, v) :: hs).
Proof.
  intros H Hl HP Hch. pose proof (Shard_lt key) as Hi. destruct (shard_of P c hs _ H Hi) as (s & L & U & Hs & Hok). pose proof (of_shard_few (Shard (HashSlice key)) hs) as Hf.
  destruct (shard_Insert _ s L U _ key v charge Hok) as (s1 & L1 & U1 & ev & L' & s' & E & Hok' & _); [unfold kMaxEntries; lia|by split|done|].
  unfold sharded_Insert. rewrite (on_shard_ok c _ s _ _ s' Hs E). cbn [rbind]. eexists _, _. split; [done|]. eapply (shard_update P c hs); [done|done|rewrite of_shard_same; exact Hok'| | |].
  - intros j Hj. by apply of_shard_other.
  - rewrite zlen_cons. unfold kMaxEntries. lia.
  - constructor; [done|apply H].
Qed.

(** The entry of a handle. *)
Lemma handle_entry P c hs i a v : sharded_ok P c hs -> ((i, a), v) ∈ hs ->
  exists s L U e, (i < kNumShards)%nat /\ shard_ c !! i = Some s /\ shard_ok (keys_of P i) s L U (of_shard i hs) /\ heap_ s !! a = Some e /\ h_value e = v /\ Shard (h_hash e) = i.
Proof.
  intros H Hin. assert (i < kNumShards)%nat as Hi by exact (proj1 (Forall_forall _ _) (sd_handles _ _ _ H) _ Hin). destruct (shard_of P c hs i H Hi) as (s & L & U & Hs & Hok).
  destruct (so_linked _ _ _ _ _ Hok) as [Hb _]. destruct (bo_handles _ _ _ _ _ Hb a v) as (e & He & Ev); [by apply of_shard_in|]. pose proof (bo_entries _ _ _ _ _ Hb a e He) as Heo.
  exists s, L, U, e. split_and!; try done. rewrite (eo_hash _ _ _ _ _ _ Heo). by destruct (eo_good _ _ _ _ _ _ Heo).
Qed.

Lemma sharded_Value_ok P c hs h v : sharded_ok P c hs -> (h, v) ∈ hs -> sharded_Value c h = Ret v.
Proof.
  destruct h as [i a]. intros H Hin. destruct (handle_entry P c hs i a v H Hin) as (s & L & U & e & _ & Hs & _ & He & <- & _). unfold sharded_Value, load_handle. cbn [fst snd]. rewrite Hs. unfold load. by rewrite He.
Qed.

Lemma sharded_Release_ok P c hs1 h v hs2 : sharded_ok P c (hs1 ++ (h, v) :: hs2) -> exists c', sharded_Release c h = Ret c' /\ sharded_ok P c' (hs1 ++ hs2).
Proof.
  destruct h as [i a]. intros H. destruct (handle_entry P c _ i a v H) as (s & L & U & e & Hi & Hs & Hok & He & _ & Esh); [rewrite elem_of_app; right; by left|].
  rewrite of_shard_app, of_shard_same in Hok. destruct (shard_Release _ s L U _ a v _ Hok) as (s' & L' & U' & E & Hok' & _).
  unfold sharded_Release, load_handle. cbn [fst snd]. rewrite Hs. unfold load. rewrite He. cbn [rbind]. rewrite bool_decide_eq_true_2, Esh by done.
  rewrite (on_shard_ok c i s _ tt s' Hs) by (unfold without_result; by rewrite E). cbn [rbind]. eexists. split; [done|]. eapply (shard_update P c); [done|done|rewrite of_shard_app; exact Hok'| | |].
  - intros j Hj. rewrite !of_shard_app. f_equal. symmetry. by apply of_shard_other.
  - pose proof (sd_few _ _ _ H) as Hf. rewrite zlen_app, zlen_cons in *. lia.
  - pose proof (sd_handles _ _ _ H) as Hf. rewrite Forall_app, Forall_cons in *. tauto.
Qed.

Lemma sharded_Erase_ok P c hs key : sharded_ok P c hs -> exists c', sharded_Erase c key = Ret c' /\ sharded_ok P c' hs.
Proof.
  intros H. pose proof (Shard_lt key) as Hi. destruct (shard_of P c hs _ H Hi) as (s & L & U & Hs & Hok). destruct (shard_Erase _ s L U _ key Hok) as (s' & E & _ & Hok').
  unfold sharded_Erase. rewrite (on_shard_ok c _ s _ tt s' Hs) by (unfold without_result; by rewrite E). cbn [rbind]. eexists. split; [done|].
  assert (exists L' U', shard_ok (keys_of P (Shard (HashSlice key))) s' L' U' (of_shard (Shard (HashSlice key)) hs)) as (L' & U' & Hok2).
  { destruct Hok' as [(-> & _)|(a & e & L' & U' & _ & _ & Hok' & _)]; [by exists L, U|by exists L', U']. }
  eapply shard_update; [done|done|exact Hok2|done|apply H|apply H].
Qed.

Lemma prune_shards_ok (Q : nat -> LRUCache V -> Prop) : (forall i s, Q i s -> exists s', lru_Prune s = Ret s' /\ Q i s') ->
  forall l n, (forall i s, l !! i = Some s -> Q (n + i)%nat s) -> exists l', prune_shards l = Ret l' /\ length l' = length l /\ forall i s, l' !! i = Some s -> Q (n + i)%nat s.
Proof.
  intros HQ. induction l as [|s l IH]; intros n H; [by exists []|]. cbn [prune_shards]. destruct (HQ (n + 0)%nat s) as (s' & -> & Hs'); [by apply H|]. cbn [rbind].
  destruct (IH (Datatypes.S n)) as (l' & -> & El & Hl'); [intros i x Ex; replace (Datatypes.S n + i)%nat with (n + Datatypes.S i)%nat by lia; by apply H|]. cbn [rbind]. exists (s' :: l'). split_and!; [done|cbn; by rewrite El|].
  intros [|i] x Ex; cbn in Ex; [by injection Ex as <-|]. replace (n + Datatypes.S i)%nat with (Datatypes.S n + i)%nat by lia. by apply Hl'.
Qed.

Lemma sharded_Prune_ok P c hs : sharded_ok P c hs -> exists c', sharded_Prune c = Ret c' /\ sharded_ok P c' hs.
Proof.
  intros H. destruct (prune_shards_ok (fun i s => exists L U, shard_ok (keys_of P i) s L U (of_shard i hs))) with (l := shard_ c) (n := 0%nat) as (l' & E & El & Hl').
  - intros i s (L & U & Hok). destruct (shard_Prune _ s L U _ Hok) as (s' & E & Hok' & _). exists s'. split; [done|]. by eexists _, _.
  - intros i s. apply H.
  - unfold sharded_Prune. rewrite E. cbn [rbind]. eexists. split; [done|]. split; cbn; [by rewrite El; apply H|apply H|apply H|]. intros i s. apply Hl'.
Qed.

#[export] Instance sharded_lawful : LawfulCache V (nat * N) (ShardedLRUCache V) sharded_ok.
Proof.
  split; intros P c hs; cbn.
  - intros key. apply sharded_Lookup_ok.
  - intros key v charge. apply sharded_Insert_ok.
  - intros h v. apply sharded_Value_ok.
  - intros h v hs2. apply sharded_Release_ok.
  - intros key. apply sharded_Erase_ok.
  - apply sharded_Prune_ok.
  - intros [H1 H2 H3 H4]. by split.
Qed.

(** *** The first state *)

Lemma new_shards_ok n per_shard : 0 <= per_shard <= kMaxEntries -> exists l, new_shards (V := V) n per_shard = Ret l /\ length l = n /\
  Forall (fun s => usage_ s = 0 /\ deleted_ s = [] /\ capacity_ s = per_shard /\ forall P, shard_ok P s [] [] []) l.
Proof.
  intros Hp. induction n as [|n (l & E & El & Hl)]; [by exists []|]. cbn [new_shards]. destruct (new_cache_ok (V := V) (fun _ _ => True)) as (s & Es & Eu & Ed & _).
  rewrite Es, E. cbn [rbind]. exists (set_capacity s per_shard :: l). split_and!; [done|cbn; by rewrite El|]. constructor; [|done]. split_and!; [done|done|done|]. intros P.
  destruct (new_cache_ok (V := V) P) as (s' & Es' & _ & _ & _ & H). assert (s' = s) as -> by congruence. by apply H.
Qed.

Lemma NewLRUCache_ok capacity : 0 <= capacity <= 2 ^ 34 -> exists c, NewLRUCache (V := V) capacity = Ret c /\ (forall P, sharded_ok P c []) /\
  Forall (fun s => capacity_ s = (capacity + 15) / 16 /\ deleted_ s = []) (shard_ c) /\ sharded_TotalCharge c = 0.
Proof.
  intros Hc. unfold NewLRUCache. change (Z.of_nat kNumShards) with 16. replace (16 - 1) with 15 by done. rewrite (wrap_small 64 (capacity + 15) : _ -> u64 (capacity + 15) = _) by lia.
  destruct (new_shards_ok kNumShards ((capacity + 15) / 16)) as (l & -> & El & Hl).
  { unfold kMaxEntries. split; [apply Z.div_pos; lia|]. assert ((capacity + 15) / 16 < 2 ^ 30 + 1); [|lia]. apply Z.div_lt_upper_bound; lia. }
  cbn [rbind]. eexists. split; [done|]. split_and!.
  - intros P. split; cbn; [done|done|constructor|]. intros i s Hs. exists [], []. apply list_elem_of_lookup_2 in Hs. by apply (proj1 (Forall_forall _ _) Hl s Hs).
  - eapply Forall_impl; [exact Hl|]. cbn. tauto.
  - unfold sharded_TotalCharge. cbn [shard_]. clear El. induction Hl as [|s l (Eu & _) _ IH]; [done|]. cbn [foldl]. by rewrite Eu.
Qed.

End Sharded.

Section Client.
Context {V : Type}.

(** A release names one of the handles the client has. *)
Inductive request :=
| RInsert (key : list Z) (value : V) (charge : Z)
| RLookup (key : list Z)
| RRelease (i : nat)
| RErase (key : list Z)
| RPrune.

(** The shard, the handles not released with the values they stand for, and
    everything that was inserted. *)
Record session := mk_session { s_cache : LRUCache V; s_handles : list (N * V); s_inserted : list (list Z * V) }.

Definition request_step (x : session) (r : request) : res session :=
  let '(mk_session s hs ins) := x in
  match r with
  | RInsert key v charge => let! (a, s) := lru_Insert s key (HashSlice key) v charge in Ret (mk_session s ((a, v) :: hs) ((key, v) :: ins))
  | RLookup key =>
      let! (a, s) := lru_Lookup s key (HashSlice key) in
      if (a =? null)%N then Ret (mk_session s hs ins)
      else let! e := load (heap_ s) a in Ret (mk_session s ((a, h_value e) :: hs) ins)
  | RRelease i =>
      match hs !! i with
      | Some (a, _) => let! s := lru_Release s a in Ret (mk_session s (delete i hs) ins)
      | None => Ret x
      end
  | RErase key => let! s := lru_Erase s key (HashSlice key) in Ret (mk_session s hs ins)
  | RPrune => let! s := lru_Prune s in Ret (mk_session s hs ins)
  end.

Fixpoint serve_all (x : session) (rs : list request) : res session :=
  match rs with
  | [] => Ret x
  | r :: rs => let! x := request_step x r in serve_all x rs
  end.

Definition charged (r : request) : Prop := match r with RInsert _ _ charge => 1 <= charge < 2 ^ 32 | _ => True end.

Definition session_ok (x : session) (rest : nat) : Prop :=
  (exists L U, shard_ok (fun k v => (k, v) ∈ s_inserted x) (s_cache x) L U (s_handles x)) /\ zlen (s_handles x) + Z.of_nat rest < kMaxEntries /\
  deleted_ (s_cache x) ++ live (heap_ (s_cache x)) ≡ₚ s_inserted x.

Lemma entry_weaken (P Q : list Z -> V -> Prop) s T hs a e : (forall k v, P k v -> Q k v) -> entry_ok P s T hs a e -> entry_ok Q s T hs a e.
Proof. intros H [H1 H2 H3 H4 H5 H6 H7 H8]. split; try done. by apply H. Qed.

Lemma shard_weaken (P Q : list Z -> V -> Prop) s L U hs : (forall k v, P k v -> Q k v) -> shard_ok P s L U hs -> shard_ok Q s L U hs.
Proof.
  intros H [[[H1 H2 H3 H4 H5 H6 H7 H8] Ht] Hh Hc Hr]. split; [split; [split; try done|done]|done|done|done]. intros a e He. eapply entry_weaken; [exact H|by apply H2].
Qed.

Lemma zlen_lookup_delete {A : Type} (l : list A) i x : l !! i = Some x -> exists l1 l2, l = l1 ++ x :: l2 /\ delete i l = l1 ++ l2.
Proof. intros H. apply list_elem_of_split_length in H as (l1 & l2 & -> & ->). exists l1, l2. split; [done|]. by rewrite delete_middle. Qed.

Lemma step_ok x r rest : session_ok x (Datatypes.S rest) -> charged r -> exists x', request_step x r = Ret x' /\ session_ok x' rest.
Proof.
  destruct x as [s hs ins]. intros ((L & U & Hok) & Hl & Hacc) Hch. cbn [s_cache s_handles s_inserted] in *. destruct r as [key v charge|key|i|key|]; cbn [request_step].
  - destruct (shard_Insert (fun k v0 => (k, v0) ∈ (key, v) :: ins) s L U hs key v charge) as (s1 & L1 & U1 & ev & L' & s' & -> & Hok' & _ & _ & _ & Ha & _); [|lia|by left|done|].
    { eapply shard_weaken; [|exact Hok]. intros k w Hin. by right. }
    cbn [rbind]. eexists. split; [done|]. split; [by exists L', U1|]. cbn [s_cache s_handles s_inserted]. split; [rewrite zlen_cons; lia|]. unfold accounts in Ha. by rewrite Ha, <- Hacc.
  - destruct (shard_Lookup _ s L U hs key Hok) as (a & s' & -> & Ha & H); [lia|]. cbn [rbind]. destruct H as [(-> & -> & _)|(e & L' & U' & Hna & He & _ & _ & _ & Hok')].
    + cbn. eexists. split; [done|]. split; [by exists L, U|]. cbn. split; [lia|done].
    + rewrite (proj2 (N.eqb_neq a null) Hna). destruct (so_linked _ _ _ _ _ Hok') as [Hb _]. destruct (bo_handles _ _ _ _ _ Hb a (h_value e)) as (e' & He' & Ev); [by left|]. unfold load. rewrite He'. cbn [rbind].
      eexists. split; [done|]. rewrite Ev. split; [by exists L', U'|]. cbn [s_cache s_handles s_inserted]. split; [rewrite zlen_cons; lia|]. unfold accounts in Ha. by rewrite Ha, <- Hacc.
  - destruct (hs !! i) as [[a v]|] eqn:Hi.
    + destruct (zlen_lookup_delete _ _ _ Hi) as (hs1 & hs2 & -> & Ed). destruct (shard_Release _ s L U hs1 a v hs2 Hok) as (s' & L' & U' & -> & Hok' & _ & Ha). cbn [rbind]. rewrite Ed.
      eexists. split; [done|]. split; [by exists L', U'|]. cbn [s_cache s_handles s_inserted]. rewrite zlen_app, zlen_cons in Hl. split; [rewrite zlen_app; lia|]. unfold accounts in Ha. by rewrite Ha, <- Hacc.
    + eexists. split; [done|]. split; [by exists L, U|]. cbn. split; [lia|done].
  - destruct (shard_Erase _ s L U hs key Hok) as (s' & -> & Ha & H). cbn [rbind]. eexists. split; [done|]. split; [|cbn [s_cache s_handles s_inserted]; split; [lia|]; unfold accounts in Ha; by rewrite Ha, <- Hacc].
    destruct H as [(-> & _)|(a & e & L' & U' & _ & _ & Hok' & _)]; [by exists L, U|by exists L', U'].
  - destruct (shard_Prune _ s L U hs Hok) as (s' & -> & Hok' & Hev). cbn [rbind]. eexists. split; [done|]. split; [by exists [], U|]. cbn [s_cache s_handles s_inserted]. split; [lia|].
    pose proof (ev_accounts _ _ _ Hev) as Ha. unfold accounts in Ha. by rewrite Ha, <- Hacc.
Qed.

Lemma session_serve_ok : forall rs x, session_ok x (length rs) -> Forall charged rs -> exists x', serve_all x rs = Ret x' /\ session_ok x' 0.
Proof.
  induction rs as [|r rs IH]; intros x Hx Hc; [by exists x|]. apply Forall_cons in Hc as [Hr Hc]. destruct (step_ok x r (length rs) Hx Hr) as (x1 & E & H1). cbn [serve_all]. rewrite E. cbn [rbind]. by apply IH.
Qed.

(** C19. Whatever a client asks of a new shard, in any order, every request is served, with
    no field of a freed entry read or written, as long as there are fewer than
    [kMaxEntries] requests and charges are at least 1 and below 2^32; the value of a
    handle is in memory until the handle is released, and everything inserted is in
    memory or has gone to its deleter, once.  When no handle is left the destructor
    gives the rest to their deleters and frees all the entries. *)
Theorem shard_lifecycle capacity rs : 0 <= capacity <= kMaxEntries -> Z.of_nat (length rs) < kMaxEntries -> Forall charged rs ->
  exists s0 x, new_cache = Ret s0 /\ serve_all (mk_session (set_capacity s0 capacity) [] []) rs = Ret x /\
    (forall a v, (a, v) ∈ s_handles x -> exists e, heap_ (s_cache x) !! a = Some e /\ h_value e = v) /\
    deleted_ (s_cache x) ++ live (heap_ (s_cache x)) ≡ₚ s_inserted x /\
    (s_handles x = [] -> exists s, lru_destroy (s_cache x) = Ret s /\ heap_ s = ∅ /\ deleted_ s ≡ₚ s_inserted x).
Proof.
  intros Hc Hl Hch. destruct (new_cache_ok (V := V) (fun k v => (k, v) ∈ @nil (list Z * V))) as (s0 & E0 & _ & Ed & Eh & Hok).
  destruct (session_serve_ok rs (mk_session (set_capacity s0 capacity) [] [])) as (x & E & (L & U & Hx) & _ & Hacc); [|done|].
  { split; [exists [], []; by apply Hok|]. cbn [s_handles s_cache s_inserted]. split; [exact Hl|]. change (deleted_ s0 ++ live (heap_ s0) ≡ₚ []). rewrite Ed, Eh. unfold live. by rewrite map_to_list_empty. }
  exists s0, x. split_and!; [done|done| |done|].
  - intros a v Hin. destruct (so_linked _ _ _ _ _ Hx) as [Hb _]. exact (bo_handles _ _ _ _ _ Hb a v Hin).
  - intros En. rewrite En in Hx. destruct (shard_destroy _ _ _ _ Hx) as (s & Es & Hh & _ & Ha). exists s. split_and!; [done|done|]. unfold accounts in Ha. rewrite Hh in Ha. unfold live at 1 in Ha. rewrite map_to_list_empty in Ha.
    cbn in Ha. rewrite app_nil_r in Ha. by rewrite Ha, <- Hacc.
Qed.

End Client.
Arguments request : clear implicits.
Arguments session : clear implicits.
