(* ===== verification/LdbTableWitnesses.v ===== *)
(** * LevelDB: concrete instances for blocks, tables and the cache

    Small blocks of bytewise keys, merged and written into a table on an in-memory
    file, which is read back through a cache of 16 shards; damaged blocks; a client
    of a shard. *)
From S2P Require Import Prelude LdbCoding LdbCrc32c LdbBloom LdbStatus LdbOrder LdbKeys LdbIterator LdbBlock LdbBlockSpec LdbFormat LdbFilterBlock LdbMerger.
From S2P Require Import LdbTableBuilder LdbTableLayout LdbTableBuilderSpec LdbTable LdbTableSpec LdbTableFile LdbCache LdbCacheLinks LdbCacheSpec LdbCacheLife LdbWitnesses.
From Stdlib Require Import ZArith NArith Lia.
From stdpp Require Import base tactics numbers list sorting gmap strings.
#[local] Open Scope Z_scope.

#[local] Instance bytes_laws : ComparatorLaws BytewiseComparator (Forall is_byte) slice_compare := bytewise_laws.
#[local] Instance crc_0 : Checksum (Value_at 0) (Extend_at 0) := crc32c_checksum (fun _ => 0) at_0.

Abbreviation byte_sorted := (sorted (Forall is_byte) slice_compare).

Lemma sorted_by_evaluation ks : forallb (forallb (fun b => (0 <=? b) && (b <? 256))) ks = true ->
  (forall i, (i < length ks)%nat -> forallb (fun k => slice_compare (nth i ks []) k <? 0) (skipn (Datatypes.S i) ks) = true) -> byte_sorted ks.
Proof.
  intros Hb Hs. split.
  - induction ks as [|k ks IH]; constructor.
    + apply IH; [cbn in Hb; by apply andb_prop in Hb as [_ ?]|]. intros i Hi. exact (Hs (Datatypes.S i) ltac:(cbn; lia)).
    + specialize (Hs 0%nat ltac:(cbn; lia)). cbn in Hs. apply forallb_forall with (x := k) in Hb as _; [|by left]. apply Forall_forall. intros x Hx. unfold less. apply Z.ltb_lt.
      rewrite forallb_forall in Hs. apply Hs. by apply list_elem_of_In.
  - apply Forall_forall. intros k Hk. apply Forall_forall. intros b Hb'. rewrite forallb_forall in Hb. specialize (Hb k ltac:(by apply list_elem_of_In)). rewrite forallb_forall in Hb.
    specialize (Hb b ltac:(by apply list_elem_of_In)). apply andb_prop in Hb as [H1%Z.leb_le H2%Z.ltb_lt]. by split.
Qed.

(** ** Blocks *)

Definition fruits : pairs := [(bytes_of "apple", bytes_of "red"); (bytes_of "apricot", bytes_of "orange"); (bytes_of "banana", bytes_of "yellow")].
Definition roots : pairs := [(bytes_of "ape", bytes_of "no"); (bytes_of "beet", bytes_of "red")].
Definition plants : pairs := [(bytes_of "ape", bytes_of "no"); (bytes_of "apple", bytes_of "red"); (bytes_of "apricot", bytes_of "orange");
  (bytes_of "banana", bytes_of "yellow"); (bytes_of "beet", bytes_of "red")].

Ltac eval_sorted := apply sorted_by_evaluation; [reflexivity|intros i Hi; cbn in Hi; do 6 (destruct i as [|i]; [reflexivity|]); lia].

Lemma fruits_sorted : byte_sorted (map fst fruits).
Proof. eval_sorted. Qed.
Lemma roots_sorted : byte_sorted (map fst roots).
Proof. eval_sorted. Qed.
Lemma plants_sorted : byte_sorted (map fst plants).
Proof. eval_sorted. Qed.

Lemma block_roundtrip_witness :
  exists b0 b blk s at_, new_block_builder 2 = Ret b0 /\ builder_Add_all (comparator := BytewiseComparator) (interval := 2) b0 fruits = Ret b /\
    new_block (fst (builder_Finish b)) = Ret blk /\ block_NewIterator blk = Ret s /\
    LawfulIterator (block_iterator BytewiseComparator) (Forall is_byte) slice_compare fruits at_ /\ at_ s None.
Proof. apply (block_roundtrip (interval := 2) ltac:(lia) fruits fruits_sorted). by vm_compute. Defined.

(** ** The formats *)

Lemma footer_roundtrip_witness :
  exists dst, footer_EncodeTo (mk_footer (mk_handle 300 5) (mk_handle (2 ^ 63) 1000000)) [] = Ret dst /\ zlen dst = kEncodedLength /\
    footer_DecodeFrom (mk_footer new_handle new_handle) (dst ++ [1; 2]) = Ret (status_ok, mk_footer (mk_handle 300 5) (mk_handle (2 ^ 63) 1000000)).
Proof. apply footer_roundtrip. repeat split; (done || by vm_compute). Defined.

(** A file in memory. *)
Definition list_file (contents : list Z) : RandomAccessFile :=
  mk_random_access (fun o n => Ret (status_ok, firstn (Z.to_nat n) (skipn (Z.to_nat o) contents), true)).

#[local] Instance list_file_lawful contents : LawfulRandom (list_file contents) contents.
Proof. split. intros o n _ _ _. by exists true. Qed.

(** The last byte of the data and the type of a block were changed. *)
Definition damaged_block : list Z := [1; 2; 7; 7; 7; 1] ++ skipn 1 (block_trailer (Value_at 0) (Extend_at 0) [1; 2; 3; 4; 5] 0).

Lemma ReadBlock_detects_witness :
  ReadBlock (Value_at 0) (list_file (9 :: damaged_block ++ [8])) (mk_read_options true true) (mk_handle 1 5) =
    Ret (Corruption (bytes_of "block checksum mismatch") [], no_contents).
Proof.
  exact (ReadBlock_detects (Value_at 0) (Extend_at 0) (list_file (9 :: damaged_block ++ [8])) (9 :: damaged_block ++ [8]) (mk_read_options true true)
    [9] [1; 2] [3; 4; 5; 0] [7; 7; 7; 1] [] [8] [1; 2; 3; 4; 5] 0 eq_refl eq_refl eq_refl eq_refl ltac:(done) eq_refl ltac:(by vm_compute)
    ltac:(repeat constructor; lia) ltac:(repeat constructor; lia)).
Defined.

#[local] Instance bloom_10 : FilterLaws (bloom_policy (new_policy 10)) (Forall is_byte).
Proof. apply (filter_laws_weaken _ (fun _ => True)); [done|]. apply bloom_filter_laws. lia. Qed.

(** Three blocks; the last one starts 5000 bytes on, with filters of two kilobytes. *)
Definition key_blocks : list (Z * list (list Z)) := [(0, [bytes_of "ape"; bytes_of "apple"]); (60, [bytes_of "apricot"]); (5000, [bytes_of "beet"])].

Lemma filter_block_matches_witness :
  exists b data b', add_blocks (policy := bloom_policy (new_policy 10)) new_filter_builder key_blocks = Ret b /\
    filter_Finish (bloom_policy (new_policy 10)) b = Ret (data, b') /\
    (zlen data < 2 ^ 32 -> exists r, new_filter_reader data = Ret r /\
      forall o keys key, (o, keys) ∈ key_blocks -> key ∈ keys -> reader_KeyMayMatch (bloom_policy (new_policy 10)) r o key = Ret true).
Proof.
  apply (filter_block_matches (bloom_policy (new_policy 10)) (Forall is_byte) key_blocks).
  - repeat constructor; cbn; lia.
  - cbn. repeat constructor; lia.
  - by vm_compute.
Defined.

(** ** Merging *)

Lemma block_iterator_of kvs : byte_sorted (map fst kvs) -> weight kvs < 2 ^ 32 -> exists s, pairs_at kvs s None.
Proof.
  intros Hs Hw. destruct (new_block_builder_ok (interval := 2) ltac:(lia)) as (b0 & _ & H0).
  destruct (builder_Add_all_ok (comparator := BytewiseComparator) (interval := 2) ltac:(lia) kvs b0 [] [0%nat] H0 Hs Hw) as (b & its & rs & _ & H & <-). cbn [app] in H.
  pose proof H as (_ & _ & _ & _ & _ & _ & Hc & Hr & Hf & Hl). assert (zlen (block_data its rs) < 2 ^ 32) as Hd by lia.
  destruct (NewIterator_ok its rs Hr Hd) as (s & _ & Hs0). exists s. exists (its, rs). by split.
Qed.

Lemma merging_correct_witness :
  exists s1 s2, LawfulIterator (merging_iterator (block_iterator BytewiseComparator) BytewiseComparator) (Forall is_byte) slice_compare plants
      (m_at (cmp := slice_compare) [fruits; roots] plants (cat := fun c => pairs_at (nth c [fruits; roots] []))) /\
    exists m, new_merging (block_iterator BytewiseComparator) [s1; s2] = Ret m /\
      m_at (cmp := slice_compare) [fruits; roots] plants (cat := fun c => pairs_at (nth c [fruits; roots] [])) m None.
Proof.
  destruct (block_iterator_of fruits fruits_sorted ltac:(by vm_compute)) as (s1 & H1). destruct (block_iterator_of roots roots_sorted ltac:(by vm_compute)) as (s2 & H2). exists s1, s2.
  apply merging_correct.
  - intros [|[|c]] kc [= <-]; cbn; apply pairs_at_lawful; [exact fruits_sorted|exact roots_sorted].
  - exact plants_sorted.
  - unfold plants, fruits, roots. cbn [concat app]. apply NoDup_Permutation; [by apply (bool_decide_unpack _); vm_compute|by apply (bool_decide_unpack _); vm_compute|]. intros x. rewrite !elem_of_cons. tauto.
  - constructor; [exact fruits_sorted|]. constructor; [exact roots_sorted|constructor].
  - done.
  - intros [|[|c]] s [= <-]; done.
Defined.

(** ** A table *)

(** A file of less than a megabyte; after a failure everything fails. *)
Record mem_file := mk_mem_file { mf_data : list Z; mf_broken : bool }.

Definition no_space : Status := IOError (bytes_of "no space") [].

#[local] Instance mem_writable : WritableFile mem_file := {
  Append f data :=
    Ret (if mf_broken f then (no_space, f)
         else if zlen (mf_data f ++ data) <? 2 ^ 20 then (status_ok, mk_mem_file (mf_data f ++ data) false) else (no_space, mk_mem_file (mf_data f) true));
  Close f := Ret (status_ok, f);
  Flush f := Ret (if mf_broken f then no_space else status_ok, f);
  Sync f := Ret (if mf_broken f then no_space else status_ok, f);
}.

Definition mem_usable (f : mem_file) : Prop := zlen (mf_data f) < 2 ^ 20.

#[local] Instance mem_fail_stop : FailStop mem_file mem_usable mf_data mf_data mf_broken (fun _ => false).
Proof.
  split.
  - intros [d broken] data Hu. cbn [Append mem_writable mf_data mf_broken] in *. destruct broken; [by exists no_space, (mk_mem_file d true)|].
    destruct (Z.ltb_spec (zlen (d ++ data)) (2 ^ 20)).
    + exists status_ok, (mk_mem_file (d ++ data) false). split_and!; try done. by exists data.
    + exists no_space, (mk_mem_file d true). split_and!; try done. by exists data.
  - intros [d broken] Hu. cbn [Flush mem_writable mf_data mf_broken] in *. destruct broken; [by exists no_space, (mk_mem_file d true)|by exists status_ok, (mk_mem_file d false)].
  - done.
Qed.

#[local] Instance mem_bounded : BoundedFile mem_usable mf_data.
Proof. split. unfold mem_usable. lia. Qed.

(** Blocks of 16 bytes, so that every pair has its own. *)
Definition table_options : Options := mk_options BytewiseComparator true 16 2 kNoCompression (Some (bloom_policy (new_policy 10))).

Lemma table_options_ok : options_ok table_options BytewiseComparator (Forall is_byte).
Proof. split; [done|cbn; lia|by left|]. cbn. split; [exact bloom_10|]. split; [concrete|by vm_compute]. Qed.

Definition plant_table : res (Status * Rep mem_file) := build (Value := Value_at 0) (Extend := Extend_at 0) table_options (mk_mem_file [] false) plants.

(** The cache that [NewLRUCache] makes for 8 megabytes, as leveldb does. *)
Definition block_cache : ShardedLRUCache Block := match NewLRUCache (2 ^ 23) with Ret c => c | _ => mk_sharded [] 0 end.

Lemma block_cache_ok P : sharded_ok P block_cache [].
Proof. unfold block_cache. destruct (NewLRUCache_ok (V := Block) (2 ^ 23)) as (c & -> & H & _); [lia|]. apply H. Qed.

Lemma block_cache_ready : cache_ready (cache_ok := sharded_ok) (Value := Value_at 0) (Extend := Extend_at 0) (valid := Forall is_byte) (cmp := slice_compare) block_cache [].
Proof. intros contents es [policy Ht]. exists (only_ours (Value := Value_at 0) (Extend := Extend_at 0) contents es (fst (cache_NewId block_cache))). split; [by eapply only_ours_ok|apply block_cache_ok]. Qed.

Lemma plants_bytes : Forall (fun kv : list Z * list Z => Forall is_byte (snd kv)) plants.
Proof. concrete. Qed.

Lemma plants_budget : budget plants.
Proof. by vm_compute. Qed.

Lemma table_roundtrip_witness :
  exists s r, plant_table = Ret (s, r) /\ is_ok s = true /\
    exists t env ok, Open (Value_at 0) table_options (list_file (mf_data (rep_file r))) (FileSize r) (Some block_cache) = Ret (status_ok, Some t, env) /\ ok env /\
      reads (Value := Value_at 0) (valid := Forall is_byte) (cmp := slice_compare) t plants ok.
Proof.
  destruct (table_roundtrip (usable := mem_usable) (lawful_cache := sharded_lawful) (cmp := slice_compare) (Value := Value_at 0) (Extend := Extend_at 0) table_options (mk_mem_file [] false) plants
    table_options_ok ltac:(split; [by vm_compute|done]) plants_sorted plants_bytes plants_budget) as (s & r & E & H).
  exists s, r. split; [exact E|]. assert (is_ok s = true) as Hs.
  { assert (match build (Value := Value_at 0) (Extend := Extend_at 0) table_options (mk_mem_file [] false) plants with Ret (s, _) => is_ok s | _ => false end = true) as Hk by (vm_compute; reflexivity). by rewrite E in Hk. }
  split; [exact Hs|]. destruct (H Hs) as (_ & Hsize & Hread). apply (Hread (list_file (mf_data (rep_file r))) (Some block_cache) []).
  - apply list_file_lawful.
  - right. assert (match build (Value := Value_at 0) (Extend := Extend_at 0) table_options (mk_mem_file [] false) plants with Ret (_, r) => FileSize r <? 2 ^ 32 | _ => false end = true) as Hk by (vm_compute; reflexivity).
    rewrite E in Hk. by apply Z.ltb_lt.
  - split; [exact block_cache_ready|done].
Defined.

(** ** A shard *)

(** "a" is replaced while it is held; "b" and "c" are too much for a capacity of 2. *)
Definition requests : list (request Z) :=
  [RInsert [97] 1 1; RInsert [97] 2 1; RLookup [97]; RInsert [98] 3 1; RRelease 0; RInsert [99] 4 1; RErase [98]; RRelease 0; RPrune; RRelease 0; RRelease 0; RRelease 0].

Lemma shard_lifecycle_witness :
  exists s0 x, new_cache = Ret s0 /\ serve_all (mk_session (set_capacity s0 2) [] []) requests = Ret x /\
    (forall a v, (a, v) ∈ s_handles x -> exists e, heap_ (s_cache x) !! a = Some e /\ h_value e = v) /\
    deleted_ (s_cache x) ++ live (heap_ (s_cache x)) ≡ₚ s_inserted x /\
    (s_handles x = [] -> exists s, lru_destroy (s_cache x) = Ret s /\ heap_ s = ∅ /\ deleted_ s ≡ₚ s_inserted x).
Proof. apply (shard_lifecycle 2 requests); [unfold kMaxEntries; lia|by vm_compute|]. repeat constructor; cbn; lia. Defined.

Lemma lru_Insert_evicts_witness :
  exists s, new_cache (V := Z) = Ret s /\
  exists s1 L1 U1 ev L' s', lru_Insert (set_capacity s 1) [97] (HashSlice [97]) 5 1 = Ret (3%N, s') /\ shard_ok (fun _ _ => True) s' L' U1 [(3%N, 5)] /\
    joined (set_capacity s 1) [97] 3%N [] [] L1 U1 /\
    L1 = ev ++ L' /\ evicted s1 s' ev /\ accounts (set_capacity s 1) s' [([97], 5)] /\ enough s' L' U1 /\
    (forall ev1 x ev2, ev = ev1 ++ x :: ev2 -> 1 < total_charge s1 (x :: ev2 ++ L' ++ U1)).
Proof.
  destruct (new_cache_ok (V := Z) (fun _ _ => True)) as (s & E & _ & _ & _ & H). exists s. split; [exact E|]. assert (fresh_ s = 3%N) as Hf by (vm_compute in E; by injection E as <-).
  pose proof (lru_Insert_evicts (fun _ _ => True) (set_capacity s 1) [] [] [] [97] 5 1 (H 1 ltac:(unfold kMaxEntries; lia)) ltac:(done) I ltac:(lia)) as W.
  cbn [fresh_ capacity_ set_capacity] in W. rewrite Hf in W. exact W.
Defined.
