(* ===== verification/LdbDefects.v ===== *)
(** * Where LevelDB's table reader does not do what it means to

    Four ways for a damaged table file to make the reader do what C++ leaves
    undefined, where errors are meant to be reported or ignored:
    - the lengths of a block's entry whose sum wraps ([DecodeEntry], table/block.cc):
      the key is read beyond the end of the block;
    - the size of a handle whose sum with the trailer wraps ([ReadBlock],
      table/format.cc): the type of the block, or its checksum, is read outside of
      what was read from the file;
    - a filter block with a base of 64 or more ([KeyMayMatch],
      table/filter_block.cc): an undefined shift (the comparison of its result with
      the number of filters would keep the reads that follow inside the block);
    - a footer that was not read in full ([Table::Open], table/table.cc): the magic
      number is taken from what the read has not filled, which is uninitialised
      memory when the file reads into the reader's own buffer and lies beyond the
      end of the data when it does not. *)
From S2P Require Import Prelude.
From S2P Require Import LdbCoding LdbStatus LdbKeys LdbIterator LdbBlock LdbBlockSpec LdbFormat LdbFilterBlock LdbTable.
From Stdlib Require Import ZArith Lia.
From stdpp Require Import base tactics numbers list strings.
#[local] Open Scope Z_scope.

(** ** An entry with lengths that wrap *)

(** A block whose first entry says that it shares nothing, that its key has [n] bytes
    and its value [m]; [tail] is what there is behind these numbers. *)
Definition entry_block (n m : Z) (tail : list Z) : list Z := PutVarint32 (PutVarint32 [0] n) m ++ tail ++ EncodeFixed32 0 ++ EncodeFixed32 1.

Section Wrapped.
Context (n m : Z) (tail : list Z) (n_u32 : is_u32 n) (m_u32 : is_u32 m) (size_u32 : zlen (entry_block n m tail) < 2 ^ 32).

(** The offset of the restart array. *)
Definition region : list Z := EncodeVarint32 0 ++ EncodeVarint32 n ++ EncodeVarint32 m ++ tail.

Lemma entry_block_region : entry_block n m tail = region ++ EncodeFixed32 0 ++ EncodeFixed32 1.
Proof. unfold entry_block, region, PutVarint32. by rewrite <- !app_assoc. Qed.

Lemma region_size : 3 <= zlen region /\ zlen (entry_block n m tail) = zlen region + 8.
Proof.
  rewrite entry_block_region. unfold region. rewrite !zlen_app. pose proof (varint_size n n_u32). pose proof (varint_size m m_u32).
  pose proof (zlen_nonneg tail). unfold EncodeFixed32. rewrite !EncodeFixed32_le, !zlen_le_split. change (zlen (EncodeVarint32 0)) with 1. lia.
Qed.

(** The block is accepted, and there is an iterator for it. *)
Definition entry_iter : BlockIter := mk_iter (entry_block n m tail) (zlen region) 1 (zlen region) 1 [] None status_ok.

Lemma entry_restarts : fixed32_at (entry_block n m tail) (zlen region + 4) = Ret 1.
Proof.
  rewrite (fixed32_at_eq _ (region ++ EncodeFixed32 0) 1 []); [done| | |done].
  - by rewrite entry_block_region, app_nil_r, <- app_assoc.
  - rewrite zlen_app. unfold EncodeFixed32. by rewrite EncodeFixed32_le, zlen_le_split.
Qed.

Lemma entry_block_opened : exists blk, new_block (entry_block n m tail) = Ret blk /\ block_NewIterator blk = Ret (inl entry_iter).
Proof.
  destruct region_size as [Hr Es]. exists (mk_block (entry_block n m tail) (zlen (entry_block n m tail)) (zlen region)).
  assert (NumRestarts (entry_block n m tail) (zlen (entry_block n m tail)) = Ret 1) as En.
  { unfold NumRestarts, assert_. destruct (Z.geb_spec (zlen (entry_block n m tail)) 4); [|lia]. cbn [rbind].
    rewrite <- entry_restarts. f_equal. lia. }
  split.
  - unfold new_block. rewrite En. destruct (Z.ltb_spec (zlen (entry_block n m tail)) 4); [lia|]. cbn [rbind].
    destruct (Z.gtb_spec 1 ((zlen (entry_block n m tail) - 4) / 4)) as [Hgt|_].
    { assert (1 <= (zlen (entry_block n m tail) - 4) / 4) by (apply Z.div_le_lower_bound; lia). lia. }
    do 2 f_equal. change (u32 (1 + 1) * 4) with 8. replace (zlen (entry_block n m tail) - 8) with (zlen region) by lia. apply wrap_small. lia.
  - unfold block_NewIterator. cbn [size_ data_ restart_offset_]. rewrite En. destruct (Z.ltb_spec (zlen (entry_block n m tail)) 4); [lia|]. done.
Qed.

Lemma wrapped_entry_undefined : 2 ^ 32 <= n + m -> n + m - 2 ^ 32 <= zlen tail -> zlen tail + 8 < n -> bi_SeekToFirst entry_iter = UB.
Proof.
  intros Hw Hfit Hn. destruct region_size as [Hr Es]. pose proof (zlen_nonneg tail). unfold bi_SeekToFirst, SeekToRestartPoint, GetRestartPoint.
  cbn [entry_iter with_restart_index num_restarts_ it_data it_restarts assert_]. change (0 <? 1) with true. cbn [assert_ rbind].
  rewrite (fixed32_at_eq _ region 0 (EncodeFixed32 1)) by (apply entry_block_region || lia || done). cbn [rbind].
  unfold ParseNextKey, NextEntryOffset. cbn [with_entry with_restart_index entry_iter ivalue_ rbind with_current current_ it_restarts it_data ikey_]. change (u32 (0 + 0)) with 0.
  destruct (Z.geb_spec 0 (zlen region)); [lia|]. unfold DecodeEntry. rewrite Z.sub_0_r. destruct (Z.ltb_spec (zlen region) 3); [lia|].
  rewrite (bytes_at_eq _ [] region (EncodeFixed32 0 ++ EncodeFixed32 1)) by (apply entry_block_region || done). cbn [rbind].
  unfold region at 1. rewrite decode_three by done. unfold is_u32 in *.
  rewrite (wrap_small 32 (zlen tail) : _ -> u32 (zlen tail) = _) by lia. assert (u32 (n + m) = n + m - 2 ^ 32) as ->.
  { unfold u32, wrap. symmetry. apply (Z.mod_unique _ _ 1); lia. }
  destruct (Z.ltb_spec (zlen tail) (n + m - 2 ^ 32)); [lia|]. cbn [rbind]. change (zlen (@nil Z) <? 0) with false. cbn iota.
  unfold bytes_at. rewrite (proj2 (Z.leb_gt (zlen region - zlen tail + n) (zlen (entry_block n m tail)))) by lia. by rewrite andb_false_r.
Qed.

End Wrapped.

(** ** A handle with a size that wraps *)

Lemma wrapped_handle_undefined Value file options o size contents in_buf : 2 ^ 64 - 5 <= size < 2 ^ 64 ->
  file_Read file o (size - (2 ^ 64 - 5)) = Ret (status_ok, contents, in_buf) -> zlen contents = size - (2 ^ 64 - 5) ->
  ReadBlock Value file options (mk_handle o size) = UB.
Proof.
  intros Hs E El. unfold ReadBlock. cbn [hsize_ offset_]. assert (u64 (size + kBlockTrailerSize) = size - (2 ^ 64 - 5)) as ->.
  { unfold kBlockTrailerSize, u64, wrap. symmetry. apply (Z.mod_unique _ _ 1); lia. }
  rewrite E. cbn [rbind is_ok status_ok negb]. rewrite El, Z.eqb_refl. cbn [negb].
  assert (forall o k, size <= o -> 0 <= k -> bytes_at contents o k = UB) as Hout.
  { intros x k Hx Hk. unfold bytes_at. rewrite (proj2 (Z.leb_gt (x + k) (zlen contents))) by lia. by rewrite andb_false_r. }
  destruct (verify_checksums options); cbn [rbind negb]; [unfold fixed32_at|]; by rewrite Hout by lia.
Qed.

(** ** A base that is no shift *)

Lemma large_base_undefined policy c lg r o key : 64 <= lg < 256 -> new_filter_reader (c ++ [lg]) = Ret r -> 4 <= zlen c ->
  reader_KeyMayMatch policy r o key = UB.
Proof.
  intros Hlg Hr Hc. assert (zlen (c ++ [lg]) = zlen c + 1) as El by (by rewrite zlen_app). unfold new_filter_reader in Hr. rewrite El in Hr.
  destruct (Z.ltb_spec (zlen c + 1) 5); [lia|]. assert (byte_at (c ++ [lg]) (Z.to_nat (zlen c + 1 - 1)) = lg) as E.
  { unfold byte_at. replace (Z.to_nat (zlen c + 1 - 1)) with (length c) by (unfold zlen; lia). by rewrite nth_middle. }
  rewrite E in Hr. assert (64 <= u64 (swrap 8 lg)) as Hbase.
  { unfold swrap, u64, wrap. destruct (Z.ltb_spec lg 128).
    - replace (lg + 2 ^ (8 - 1)) with (lg + 128) by done. change (2 ^ 8) with 256. rewrite (Z.mod_small (lg + 128)) by lia. change (2 ^ (8 - 1)) with 128. rewrite Z.mod_small; lia.
    - change (2 ^ (8 - 1)) with 128. change (2 ^ 8) with 256. replace (lg + 128) with (lg - 128 + 1 * 256) by lia. rewrite Z.mod_add, (Z.mod_small (lg - 128)) by lia.
      replace (lg - 128 - 128) with (lg - 256 + 2 ^ 64 + (-1) * 2 ^ 64) by lia. rewrite Z.mod_add, Z.mod_small by lia. lia. }
  destruct (fixed32_at (c ++ [lg]) (zlen c + 1 - 5)) as [last| |]; [|done|done]. cbn [rbind] in Hr.
  assert (base_lg_ r = u64 (swrap 8 lg)) as Eb by (destruct (last >? zlen c + 1 - 5); by injection Hr as <-).
  unfold reader_KeyMayMatch. rewrite Eb. destruct (Z.ltb_spec (u64 (swrap 8 lg)) 64); [lia|done].
Qed.

(** ** A footer that ends early *)

Lemma short_footer f input : zlen input < kEncodedLength -> footer_DecodeFrom f input = UB.
Proof.
  intros Hl. unfold footer_DecodeFrom. assert (fixed32_at input (kEncodedLength - 8 + 4) = UB) as E.
  { unfold fixed32_at, bytes_at. rewrite (proj2 (Z.leb_gt (kEncodedLength - 8 + 4 + 4) (zlen input))) by lia. by rewrite andb_false_r. }
  rewrite E. unfold fixed32_at, bytes_at. by destruct (_ && _).
Qed.

Lemma short_footer_undefined {H C : Type} {cache : Cache Block H C} Value options file size short in_buf env : kEncodedLength <= size ->
  file_Read file (size - kEncodedLength) kEncodedLength = Ret (status_ok, short, in_buf) -> zlen short < kEncodedLength ->
  Open (H := H) (C := C) Value options file size env = UB.
Proof.
  intros Hs E Hl. unfold Open. destruct (Z.ltb_spec size kEncodedLength); [lia|]. rewrite E. cbn [rbind is_ok status_ok negb]. by rewrite short_footer.
Qed.

(** C23. A damaged file makes the behaviour of the table reader undefined: a block is
    accepted whose first entry has lengths with a sum that wraps to no more than what
    is left of the block, and going to that entry reads beyond the block; [ReadBlock]
    at a size that wraps reads outside of what it read from the file; a lookup in a
    filter block with a base of 64 or more makes an undefined shift; opening a table
    uses the bytes of a footer that the read has not filled, when the file is shorter
    than it was said to be. *)
Theorem damaged_table_undefined :
  (forall n m tail, is_u32 n -> is_u32 m -> zlen (entry_block n m tail) < 2 ^ 32 ->
    2 ^ 32 <= n + m -> n + m - 2 ^ 32 <= zlen tail -> zlen tail + 8 < n ->
    exists blk s, new_block (entry_block n m tail) = Ret blk /\ block_NewIterator blk = Ret (inl s) /\ bi_SeekToFirst s = UB) /\
  (forall Value file options o size contents in_buf, 2 ^ 64 - 5 <= size < 2 ^ 64 ->
    file_Read file o (size - (2 ^ 64 - 5)) = Ret (status_ok, contents, in_buf) -> zlen contents = size - (2 ^ 64 - 5) ->
    ReadBlock Value file options (mk_handle o size) = UB) /\
  (forall policy c lg r o key, 64 <= lg < 256 -> new_filter_reader (c ++ [lg]) = Ret r -> 4 <= zlen c -> reader_KeyMayMatch policy r o key = UB) /\
  (forall (H C : Type) (cache : Cache Block H C) Value options file size short in_buf env, kEncodedLength <= size ->
    file_Read file (size - kEncodedLength) kEncodedLength = Ret (status_ok, short, in_buf) -> zlen short < kEncodedLength ->
    Open (H := H) (C := C) Value options file size env = UB).
Proof.
  split_and!.
  - intros n m tail Hn Hm Hz Hw Hf Ho. destruct (entry_block_opened n m tail Hn Hm Hz) as (blk & E1 & E2).
    exists blk, (entry_iter n m tail). split_and!; [done|done|by apply wrapped_entry_undefined].
  - exact wrapped_handle_undefined.
  - exact large_base_undefined.
  - intros H C cache. apply short_footer_undefined.
Qed.

(** A block with one entry, a file of no bytes, a filter block of five bytes with base
    200, and a table that was said to have a hundred bytes, opened with no cache. *)
Definition no_file : RandomAccessFile := mk_random_access (fun _ _ => Ret (status_ok, [], true)).

#[local] Instance no_cache : Cache Block unit unit := {
  cache_Insert := fun c _ _ _ => Ret (tt, c);
  cache_Lookup := fun c _ => Ret (None, c);
  cache_Release := fun c _ => Ret c;
  cache_Value := fun _ _ => UB;
  cache_Erase := fun c _ => Ret c;
  cache_NewId := fun c => (0, c);
  cache_Prune := fun c => Ret c;
  cache_TotalCharge := fun _ => 0;
}.

Lemma damaged_table_undefined_witness :
  (exists blk s, new_block (entry_block (2 ^ 31 + 2) (2 ^ 31) [97; 98; 99]) = Ret blk /\ block_NewIterator blk = Ret (inl s) /\ bi_SeekToFirst s = UB) /\
  ReadBlock (fun _ => 0) no_file (mk_read_options true true) (mk_handle 7 (2 ^ 64 - 5)) = UB /\
  reader_KeyMayMatch (mk_filter_policy [] (fun keys dst => Ret (keys, dst)) (fun _ _ => Ret true)) (mk_filter_reader (Some [0; 0; 0; 0; 200]) 0 0 (2 ^ 64 - 56)) 0 [1] = UB /\
  Open (fun _ => 0) (mk_options BytewiseComparator true 4096 16 kNoCompression None) no_file 100 None = UB.
Proof.
  destruct damaged_table_undefined as (H1 & H2 & H3 & H4). split_and!.
  - apply H1; [by vm_compute|by vm_compute|by vm_compute|lia|vm_compute; congruence|by vm_compute].
  - by apply (H2 _ _ _ 7 (2 ^ 64 - 5) [] true).
  - by apply (H3 _ [0; 0; 0; 0] 200).
  - by apply (H4 unit unit no_cache _ _ _ 100 [] true).
Defined.
