(* ===== verification/LdbDbIter.v ===== *)
(** * LevelDB: the database iterator (db/db_iter.h, db/db_iter.cc)

    [DBIter] goes over an iterator of internal keys and shows what a snapshot sees
    of them: of the entries of a user key the newest one that is not newer than the
    snapshot, unless it is a deletion.  It is shown to be a lawful iterator over
    just these pairs, whatever the sequence of movements and changes of direction.
    [RecordReadSample] of the database is a parameter. *)
From S2P Require Import Prelude.
From S2P Require Import LdbCoding LdbStatus LdbOrder LdbKeys LdbRandom LdbIterator.
From Stdlib Require Import ZArith Lia.
From stdpp Require Import base tactics numbers list strings.
#[local] Open Scope Z_scope.

(** ** Definitions *)

Definition kReadBytesPeriod : Z := 1048576.

Inductive Direction := kForward | kReverse.

Section DBIter.
Context {I D : Type} (it : Iterator I) (user_comparator_ : Comparator).
(** [db_->RecordReadSample], over the state of the database. *)
Context (RecordReadSample : D -> list Z -> D).

(** The capacities of the strings are not kept: [ClearSavedValue] clears. *)
Record DBIter := mk_db_iter {
  db_ : D;
  internal_ : I;
  sequence_ : Z;
  status_ : Status;
  saved_key_ : list Z;
  saved_value_ : list Z;
  direction_ : Direction;
  db_valid_ : bool;
  rnd_ : Z;
  bytes_until_read_sampling_ : Z;
}.

Definition set_internal (d : DBIter) (i : I) : DBIter :=
  mk_db_iter (db_ d) i (sequence_ d) (status_ d) (saved_key_ d) (saved_value_ d) (direction_ d) (db_valid_ d) (rnd_ d) (bytes_until_read_sampling_ d).
Definition set_status (d : DBIter) (s : Status) : DBIter :=
  mk_db_iter (db_ d) (internal_ d) (sequence_ d) s (saved_key_ d) (saved_value_ d) (direction_ d) (db_valid_ d) (rnd_ d) (bytes_until_read_sampling_ d).
Definition set_saved_key (d : DBIter) (k : list Z) : DBIter :=
  mk_db_iter (db_ d) (internal_ d) (sequence_ d) (status_ d) k (saved_value_ d) (direction_ d) (db_valid_ d) (rnd_ d) (bytes_until_read_sampling_ d).
Definition set_saved_value (d : DBIter) (v : list Z) : DBIter :=
  mk_db_iter (db_ d) (internal_ d) (sequence_ d) (status_ d) (saved_key_ d) v (direction_ d) (db_valid_ d) (rnd_ d) (bytes_until_read_sampling_ d).
Definition db_direction (d : DBIter) (x : Direction) : DBIter :=
  mk_db_iter (db_ d) (internal_ d) (sequence_ d) (status_ d) (saved_key_ d) (saved_value_ d) x (db_valid_ d) (rnd_ d) (bytes_until_read_sampling_ d).
Definition set_valid (d : DBIter) (b : bool) : DBIter :=
  mk_db_iter (db_ d) (internal_ d) (sequence_ d) (status_ d) (saved_key_ d) (saved_value_ d) (direction_ d) b (rnd_ d) (bytes_until_read_sampling_ d).
Definition set_sampling (d : DBIter) (db : D) (rnd bytes : Z) : DBIter :=
  mk_db_iter db (internal_ d) (sequence_ d) (status_ d) (saved_key_ d) (saved_value_ d) (direction_ d) (db_valid_ d) rnd bytes.

Definition RandomCompactionPeriod (rnd : Z) : Z * Z := Uniform rnd (2 * kReadBytesPeriod).

Definition new_db_iter (db : D) (iter : I) (s seed : Z) : DBIter :=
  let (bytes, rnd) := RandomCompactionPeriod (new_random seed) in
  mk_db_iter db iter s status_ok [] [] kForward false rnd bytes.

(** *** ParseKey *)

Definition sample_round (k : list Z) (bytes_read : Z) (st : D * Z * Z) : res ((D * Z * Z) + (D * Z * Z)) :=
  let '(db, rnd, bytes) := st in
  if bytes <? bytes_read then
    let (period, rnd) := RandomCompactionPeriod rnd in
    Ret (inl (RecordReadSample db k, rnd, u64 (bytes + period)))
  else Ret (inr st).

(** Of two periods in a row at most one is 0. *)
Definition sample_fuel (bytes_read : Z) : nat := (2 * Z.to_nat bytes_read + 2)%nat.

Definition ParseKey (d : DBIter) : res (bool * ParsedInternalKey * DBIter) :=
  let! k := it_key it (internal_ d) in
  let! v := it_value it (internal_ d) in
  let bytes_read := u64 (zlen k + zlen v) in
  let! (db, rnd, bytes) := loop (sample_fuel bytes_read) (sample_round k bytes_read) (db_ d, rnd_ d, bytes_until_read_sampling_ d) in
  let! _ := assert_ (bytes >=? bytes_read) in
  let d := set_sampling d db rnd (u64 (bytes - bytes_read)) in
  let (ok, ikey) := ParseInternalKey k (mk_parsed [] 0 0) in
  if ok then Ret (true, ikey, d)
  else Ret (false, ikey, set_status d (Corruption (bytes_of "corrupted internal key in DBIter") [])).

(** *** Forwards *)

(** [iter_->Next()] and the test of the loop. *)
Definition next_entry (d : DBIter) (skipping : bool) : res ((DBIter * bool) + DBIter) :=
  let! i := Next it (internal_ d) in
  let d := set_internal d i in
  if Valid it i then Ret (inl (d, skipping)) else Ret (inr (set_valid (set_saved_key d []) false)).

(** [skip] is always [saved_key_]. *)
Definition find_next_round (st : DBIter * bool) : res ((DBIter * bool) + DBIter) :=
  let (d, skipping) := st in
  let! (ok, ikey, d) := ParseKey d in
  if ok && (sequence ikey <=? sequence_ d) then
    if key_type ikey =? kTypeDeletion then next_entry (set_saved_key d (user_key ikey)) true
    else if key_type ikey =? kTypeValue then
      let! hidden := if skipping then let! r := Compare user_comparator_ (user_key ikey) (saved_key_ d) in Ret (r <=? 0) else Ret false in
      if hidden then next_entry d skipping
      else Ret (inr (set_saved_key (set_valid d true) []))
    else next_entry d skipping
  else next_entry d skipping.

Context (fuel : nat).

Definition FindNextUserEntry (d : DBIter) (skipping : bool) : res DBIter :=
  let! _ := assert_ (Valid it (internal_ d)) in
  let! _ := assert_ (match direction_ d with kForward => true | kReverse => false end) in
  loop fuel find_next_round (d, skipping).

Definition db_Next (d : DBIter) : res DBIter :=
  let! _ := assert_ (db_valid_ d) in
  match direction_ d with
  | kReverse =>
      let d := db_direction d kForward in
      let! i := if negb (Valid it (internal_ d)) then SeekToFirst it (internal_ d) else Next it (internal_ d) in
      let d := set_internal d i in
      if negb (Valid it i) then Ret (set_saved_key (set_valid d false) [])
      else FindNextUserEntry d true
  | kForward =>
      let! k := it_key it (internal_ d) in
      let! u := ExtractUserKey k in
      FindNextUserEntry (set_saved_key d u) true
  end.

(** *** Backwards *)

(** The iterator and [value_type]; left at a value of an earlier key. *)
Definition find_prev_round (st : DBIter * Z) : res ((DBIter * Z) + (DBIter * Z)) :=
  let (d, value_type) := st in
  let! (ok, ikey, d) := ParseKey d in
  let! (stop, d, value_type) :=
    if ok && (sequence ikey <=? sequence_ d) then
      let! earlier :=
        if negb (value_type =? kTypeDeletion) then let! r := Compare user_comparator_ (user_key ikey) (saved_key_ d) in Ret (r <? 0) else Ret false in
      if earlier then Ret (true, d, value_type)
      else if key_type ikey =? kTypeDeletion then Ret (false, set_saved_value (set_saved_key d []) [], key_type ikey)
      else
        let! raw_value := it_value it (internal_ d) in
        let! k := it_key it (internal_ d) in
        let! u := ExtractUserKey k in
        Ret (false, set_saved_value (set_saved_key d u) raw_value, key_type ikey)
    else Ret (false, d, value_type) in
  if (stop : bool) then Ret (inr (d, value_type))
  else
    let! i := Prev it (internal_ d) in
    let d := set_internal d i in
    if Valid it i then Ret (inl (d, value_type)) else Ret (inr (d, value_type)).

Definition FindPrevUserEntry (d : DBIter) : res DBIter :=
  let! _ := assert_ (match direction_ d with kForward => false | kReverse => true end) in
  let! (d, value_type) := if Valid it (internal_ d) then loop fuel find_prev_round (d, kTypeDeletion) else Ret (d, kTypeDeletion) in
  if value_type =? kTypeDeletion then Ret (db_direction (set_saved_value (set_saved_key (set_valid d false) []) []) kForward)
  else Ret (set_valid d true).

(** [inr] when there is no entry of an earlier key. *)
Definition switch_round (d : DBIter) : res (DBIter + (DBIter + DBIter)) :=
  let! i := Prev it (internal_ d) in
  let d := set_internal d i in
  if negb (Valid it i) then Ret (inr (inr (set_saved_value (set_saved_key (set_valid d false) []) [])))
  else
    let! k := it_key it i in
    let! u := ExtractUserKey k in
    let! r := Compare user_comparator_ u (saved_key_ d) in
    if r <? 0 then Ret (inr (inl d)) else Ret (inl d).

Definition db_Prev (d : DBIter) : res DBIter :=
  let! _ := assert_ (db_valid_ d) in
  match direction_ d with
  | kForward =>
      let! _ := assert_ (Valid it (internal_ d)) in
      let! k := it_key it (internal_ d) in
      let! u := ExtractUserKey k in
      let! r := loop fuel switch_round (set_saved_key d u) in
      match r with
      | inl d => FindPrevUserEntry (db_direction d kReverse)
      | inr d => Ret d
      end
  | kReverse => FindPrevUserEntry d
  end.

(** *** The other operations *)

Definition db_Valid (d : DBIter) : bool := db_valid_ d.

Definition db_key (d : DBIter) : res (list Z) :=
  let! _ := assert_ (db_valid_ d) in
  match direction_ d with
  | kForward => let! k := it_key it (internal_ d) in ExtractUserKey k
  | kReverse => Ret (saved_key_ d)
  end.

Definition db_value (d : DBIter) : res (list Z) :=
  let! _ := assert_ (db_valid_ d) in
  match direction_ d with
  | kForward => it_value it (internal_ d)
  | kReverse => Ret (saved_value_ d)
  end.

Definition db_status (d : DBIter) : Status := if is_ok (status_ d) then it_status it (internal_ d) else status_ d.

(** After the internal iterator was moved to where the search begins. *)
Definition find_from (d : DBIter) : res DBIter :=
  if Valid it (internal_ d) then FindNextUserEntry d false else Ret (set_valid d false).

Definition db_Seek (d : DBIter) (target : list Z) : res DBIter :=
  let d := set_saved_value (db_direction d kForward) [] in
  let! key := AppendInternalKey [] (mk_parsed target (sequence_ d) kValueTypeForSeek) in
  let d := set_saved_key d key in
  let! i := Seek it (internal_ d) key in
  find_from (set_internal d i).

Definition db_SeekToFirst (d : DBIter) : res DBIter :=
  let d := set_saved_value (db_direction d kForward) [] in
  let! i := SeekToFirst it (internal_ d) in
  find_from (set_internal d i).

Definition db_SeekToLast (d : DBIter) : res DBIter :=
  let d := set_saved_value (db_direction d kReverse) [] in
  let! i := SeekToLast it (internal_ d) in
  FindPrevUserEntry (set_internal d i).

Definition db_iterator : Iterator DBIter := mk_iterator db_Valid db_SeekToFirst db_SeekToLast db_Seek db_Next db_Prev db_key db_value db_status.

End DBIter.
Arguments DBIter : clear implicits.
