(* ===== verification/LdbDbIterSpec.v ===== *)
(** * LevelDB: what the database iterator shows

    The pairs a snapshot sees of a sorted list of entries, and the simulation of a
    position among them by the states of [DBIter]: forwards the internal iterator is
    at the entry shown, backwards it is before the entries of the user key. *)
From S2P Require Import Prelude.
From S2P Require Import LdbCoding LdbStatus LdbOrder LdbKeys LdbRandom LdbIterator LdbMemTable LdbDbIter.
From Stdlib Require Import ZArith Lia.
From stdpp Require Import base tactics numbers list sorting.
#[local] Open Scope Z_scope.

(** ** What a snapshot sees *)

Section View.
Context {valid : list Z -> Prop} {cmp : list Z -> list Z -> Z} {order : KeyOrder valid cmp}.
Context (s : Z).

Definition seen (e : entry) : bool := e_seq e <=? s.
Definition same_user (a b : entry) : bool := cmp (e_user a) (e_user b) =? 0.

(** The newest of the entries of its user key that the snapshot sees. *)
Definition newest_seen (es : list entry) (e : entry) : bool :=
  seen e && forallb (fun e' => negb (seen e' && same_user e' e) || (e_seq e' <=? e_seq e)) es.

Definition user_pair (e : entry) : list Z * list Z := (e_user e, e_value e).

(** The pairs a snapshot sees of the entries: newest entries that are values. *)
Definition snapshot_view (es : list entry) : pairs :=
  map user_pair (List.filter (fun e => newest_seen es e && (e_type e =? kTypeValue)) es).

(** The order of entries, by their parts. *)
Definition earlier (a b : entry) : Prop :=
  cmp (e_user a) (e_user b) < 0 \/ cmp (e_user a) (e_user b) = 0 /\ (e_seq b < e_seq a \/ e_seq a = e_seq b /\ e_type b < e_type a).

Definition entry_fine (e : entry) : Prop := valid (e_user e) /\ is_type (e_type e).

Definition in_order (es : list entry) : Prop := StronglySorted earlier es /\ Forall entry_fine es.

Lemma in_order_app a b : in_order (a ++ b) -> in_order a /\ in_order b.
Proof. intros [Hs Hv]. apply Forall_app in Hv as [Ha Hb]. apply StronglySorted_app in Hs as (_ & Hs1 & Hs2). by split; split. Qed.

Lemma in_order_split pre e post : in_order (pre ++ e :: post) ->
  entry_fine e /\ (forall e', e' ∈ pre -> entry_fine e' /\ earlier e' e) /\ (forall e', e' ∈ post -> entry_fine e' /\ earlier e e').
Proof.
  intros [Hs Hv]. apply Forall_app in Hv as [Hp [He Hq]%Forall_cons]. apply StronglySorted_app in Hs as (Hs & _ & Hs2). apply StronglySorted_inv in Hs2 as [_ Hlt].
  rewrite Forall_forall in Hp, Hq, Hlt. split; [done|]. split; intros e' He'; (split; [auto|]); [|auto]. apply Hs; [done|by left].
Qed.

Lemma earlier_le a b : earlier a b -> cmp (e_user a) (e_user b) <= 0.
Proof. unfold earlier. lia. Qed.

(** *** By the entries before *)

(** [e] is shown when it comes after [pre]. *)
Definition shows (pre : list entry) (e : entry) : bool :=
  seen e && (e_type e =? kTypeValue) && forallb (fun e' => negb (seen e' && same_user e' e)) pre.

Fixpoint scan (pre es : list entry) : pairs :=
  match es with
  | [] => []
  | e :: es => (if shows pre e then [user_pair e] else []) ++ scan (pre ++ [e]) es
  end.

Lemma shows_spec pre e : shows pre e = true <-> seen e = true /\ e_type e = kTypeValue /\ forall e', e' ∈ pre -> seen e' = true -> cmp (e_user e') (e_user e) <> 0.
Proof.
  unfold shows, same_user. rewrite !andb_true_iff, Z.eqb_eq, forallb_forall. split.
  - intros [[H1 H2] H3]. split_and!; [done|done|]. intros e' He' Hs. specialize (H3 e' ltac:(by apply list_elem_of_In)). rewrite Hs in H3. cbn in H3. by apply negb_true_iff, Z.eqb_neq in H3.
  - intros (H1 & H2 & H3). split_and!; [done|done|]. intros e' He'. destruct (seen e') eqn:Hs; [|done]. cbn. apply negb_true_iff, Z.eqb_neq. apply H3; [by apply list_elem_of_In|done].
Qed.

Lemma newest_shows pre e post : in_order (pre ++ e :: post) -> newest_seen (pre ++ e :: post) e && (e_type e =? kTypeValue) = shows pre e.
Proof.
  intros Ho. destruct (in_order_split _ _ _ Ho) as ((Hve & Hte) & Hpre & Hpost). apply eq_true_iff_eq. rewrite shows_spec. unfold newest_seen, same_user.
  rewrite !andb_true_iff, Z.eqb_eq, forallb_forall. split.
  - intros [[H1 H2] H3]. split_and!; [done|done|]. intros e' He' Hs E. specialize (H2 e' ltac:(apply list_elem_of_In, elem_of_app; by left)).
    rewrite Hs, (proj2 (Z.eqb_eq _ _) E) in H2. cbn in H2. apply Z.leb_le in H2. destruct (Hpre e' He') as [[_ Ht'] [Hlt|(_ & Hlt)]]; [lia|].
    assert (forall t, is_type t -> 0 <= t <= 1) as Hr by (intros t [-> | ->]; vm_compute; split; discriminate). pose proof (Hr _ Ht'). change kTypeValue with 1 in H3. lia.
  - intros (H1 & H2 & H3). split_and!; [done| |done]. intros e' He'. apply list_elem_of_In in He'. destruct (seen e') eqn:Hs; [|done]. cbn [andb]. destruct (Z.eqb_spec (cmp (e_user e') (e_user e)) 0) as [E|]; [|done]. cbn [negb orb].
    apply Z.leb_le. apply elem_of_app in He' as [He'|[->|He']%elem_of_cons]; [by destruct (H3 e' He' Hs)|lia|]. destruct (Hpost e' He') as [[Hv' _] [Hlt|(_ & Hlt)]]; [|lia].
    pose proof (order_flip (cmp := cmp) _ _ Hve Hv'). lia.
Qed.

Lemma filter_scan es : forall post pre, in_order es -> es = pre ++ post ->
  map user_pair (List.filter (fun e => newest_seen es e && (e_type e =? kTypeValue)) post) = scan pre post.
Proof.
  induction post as [|e post IH]; intros pre Ho E; [done|]. cbn [List.filter scan]. rewrite <- (IH (pre ++ [e])); [|done|by rewrite E, <- app_assoc].
  assert (newest_seen es e && (e_type e =? kTypeValue) = shows pre e) as -> by (subst es; by apply (newest_shows _ _ post)). by destruct (shows pre e).
Qed.

Lemma view_scan es : in_order es -> snapshot_view es = scan [] es.
Proof. intros Ho. by apply filter_scan. Qed.

Lemma scan_app pre a b : scan pre (a ++ b) = scan pre a ++ scan (pre ++ a) b.
Proof. revert pre; induction a as [|e a IH]; intros pre; cbn [app scan]; [by rewrite app_nil_r|]. by rewrite IH, <- !app_assoc. Qed.

Lemma scan_in pre post kv : kv ∈ scan pre post -> exists q e r, post = q ++ e :: r /\ shows (pre ++ q) e = true /\ kv = user_pair e.
Proof.
  revert pre; induction post as [|e post IH]; intros pre; cbn [scan]; [by intros ?%not_elem_of_nil|]. intros [H|H]%elem_of_app.
  - destruct (shows pre e) eqn:Es; [|by apply not_elem_of_nil in H]. apply list_elem_of_singleton in H as ->. exists [], e, post. by rewrite app_nil_r.
  - destruct (IH _ H) as (q & e' & r & -> & Hs & ->). exists (e :: q), e', r. split_and!; [done|by rewrite <- app_assoc in Hs|done].
Qed.

Lemma scan_unseen pre post : Forall (fun e => seen e = false) post -> scan pre post = [].
Proof. intros H. revert pre; induction H as [|e post He _ IH]; intros pre; [done|]. cbn [scan]. rewrite IH. unfold shows. by rewrite He. Qed.

(** After an entry that is seen only later keys are shown. *)
Lemma scan_after pre e post kv : in_order (pre ++ e :: post) -> seen e = true -> kv ∈ scan (pre ++ [e]) post -> valid (fst kv) /\ cmp (e_user e) (fst kv) < 0.
Proof.
  intros Ho Hs Hin. destruct (scan_in _ _ _ Hin) as (q & e' & r & -> & Hsh & ->). apply shows_spec in Hsh as (_ & _ & H). destruct (in_order_split _ _ _ Ho) as (_ & _ & Hpost).
  destruct (Hpost e') as [[Hv _] He]; [rewrite elem_of_app; right; by left|]. split; [done|]. specialize (H e ltac:(rewrite !elem_of_app; left; right; by left) Hs). apply earlier_le in He. cbn. lia.
Qed.

Lemma scan_sorted pre post : in_order (pre ++ post) -> sorted valid cmp (map fst (scan pre post)).
Proof.
  revert pre; induction post as [|e post IH]; intros pre Ho; [apply sorted_nil|]. cbn [scan]. assert (in_order ((pre ++ [e]) ++ post)) as Ho' by (by rewrite <- app_assoc). specialize (IH _ Ho').
  destruct (shows pre e) eqn:Es; [|done]. cbn [app map fst user_pair]. destruct (in_order_split _ _ _ Ho) as ((Hv & _) & _). apply shows_spec in Es as (Hs & _ & _). apply sorted_cons. split_and!; [done| |done].
  apply Forall_map, Forall_forall. intros kv Hin. by destruct (scan_after pre e post kv Ho Hs Hin).
Qed.

End View.

(** ** Sampling *)

Definition period_bound : Z := 2 * kReadBytesPeriod.

Lemma period_ok rnd : is_seed rnd -> exists period rnd', RandomCompactionPeriod rnd = (period, rnd') /\ is_seed rnd' /\ 0 <= period < period_bound.
Proof.
  intros Hr. exists (LdbRandom.Next rnd mod u32 period_bound), (LdbRandom.Next rnd). split; [done|]. split; [by apply Next_mod|]. apply Z.mod_pos_bound. done.
Qed.

(** Of two periods in a row at most one is 0. *)
Lemma period_zero rnd : is_seed rnd -> fst (RandomCompactionPeriod rnd) = 0 -> fst (RandomCompactionPeriod (snd (RandomCompactionPeriod rnd))) <> 0.
Proof.
  intros Hr H. cbn [RandomCompactionPeriod Uniform fst snd] in *. change (u32 (2 * kReadBytesPeriod)) with 2097152 in *. destruct (Next_mod rnd Hr) as [_ Hs].
  set (x := LdbRandom.Next rnd) in *. unfold is_seed, random_M in Hs. pose proof (Z.div_mod x 2097152 ltac:(lia)) as E. rewrite H, Z.add_0_r in E. set (k := x / 2097152) in *.
  assert (1 <= k < 1024) as Hk by lia. rewrite E. clearbody k. clear - Hk.
  assert (forallb (fun i => negb (LdbRandom.Next (2097152 * Z.of_nat (Datatypes.S i)) mod 2097152 =? 0)) (seq 0 1023) = true) as Hall by (vm_compute; reflexivity).
  rewrite forallb_forall in Hall. specialize (Hall (Z.to_nat (k - 1)) ltac:(apply in_seq; lia)). replace (Z.of_nat (Datatypes.S (Z.to_nat (k - 1)))) with k in Hall by lia. by apply negb_true_iff, Z.eqb_neq in Hall.
Qed.

Lemma sample_ok {D : Type} (RecordReadSample : D -> list Z -> D) k n : 0 <= n < 2 ^ 40 -> forall fuel db rnd bytes, is_seed rnd -> 0 <= bytes < n + period_bound ->
  2 * Z.max 0 (n - bytes) + (if fst (RandomCompactionPeriod rnd) =? 0 then 1 else 0) < Z.of_nat fuel ->
  exists db' rnd' bytes', loop fuel (sample_round RecordReadSample k n) (db, rnd, bytes) = Ret (db', rnd', bytes') /\ is_seed rnd' /\ n <= bytes' < n + period_bound.
Proof.
  intros Hn. unfold period_bound, kReadBytesPeriod. induction fuel as [|fuel IH]; intros db rnd bytes Hr Hb Hf; [destruct (_ =? 0); lia|]. rewrite loop_unfold. unfold sample_round.
  destruct (Z.ltb_spec bytes n) as [Hlt|Hge]; cbn [rbind]; [|exists db, rnd, bytes; split; [done|]; split; [done|lia]].
  destruct (period_ok rnd Hr) as (p & rnd' & E & Hr' & Hp). pose proof (period_zero rnd Hr) as Hz. rewrite E in *. cbn [rbind fst snd] in *. unfold period_bound, kReadBytesPeriod in Hp.
  rewrite (wrap_small 64 (bytes + p) : _ -> u64 (bytes + p) = _) by lia. apply IH; [done|lia|].
  destruct (Z.eqb_spec p 0) as [->|]; [|destruct (_ =? 0); lia]. destruct (Z.eqb_spec (fst (RandomCompactionPeriod rnd')) 0); [by destruct Hz|lia].
Qed.

(** ** The states of the iterator *)

Section Spec.
Context {I D : Type} {it : Iterator I} {user : Comparator} {valid : list Z -> Prop} {cmp : list Z -> list Z -> Z} {laws : ComparatorLaws user valid cmp}.
Context {RecordReadSample : D -> list Z -> D} {fuel : nat}.
Context (es : list entry) (es_ok : Forall (entry_ok (valid := valid)) es) (es_order : in_order (valid := valid) (cmp := cmp) es).
Context (s : Z) (s_ok : is_sequence s) (fuel_ok : (length es < fuel)%nat).

Definition entry_pair (e : entry) : list Z * list Z := (internal_of e, e_value e).
Abbreviation ikvs := (map entry_pair es).
(** The keys the internal iterator can be asked for, and the targets that give such keys. *)
Context {key_ok target_ok : list Z -> Prop} (targets : forall u, target_ok u -> valid u /\ key_ok (PutFixed64 u (packed s kValueTypeForSeek))).
Context {iat : I -> option nat -> Prop} {lawful : LawfulIterator it key_ok (internal_order cmp) ikvs iat}.

Abbreviation shows := (shows (cmp := cmp) s).
Abbreviation scan := (scan (cmp := cmp) s).
Abbreviation view := (snapshot_view (cmp := cmp) s es).

(** The internal iterator is at [p], and nothing has gone wrong. *)
Record base (d : DBIter I D) (p : option nat) : Prop := {
  bs_at : iat (internal_ d) p;
  bs_sequence : sequence_ d = s;
  bs_status : is_ok (status_ d) = true;
  bs_seed : is_seed (rnd_ d);
  bs_bytes : 0 <= bytes_until_read_sampling_ d < period_bound;
}.

Definition before_user (u : list Z) (e : entry) : Prop := cmp (e_user e) u < 0.

Definition db_at (d : DBIter I D) (p : option nat) : Prop :=
  match p with
  | None => db_valid_ d = false /\ exists q, base d q
  | Some n => db_valid_ d = true /\
      match direction_ d with
      | kForward => exists pre e post, es = pre ++ e :: post /\ shows pre e = true /\ n = length (scan [] pre) /\ base d (Some (length pre))
      | kReverse => exists a b rest, es = a ++ b /\ scan a b = (saved_key_ d, saved_value_ d) :: rest /\ n = length (scan [] a) /\
          Forall (before_user (saved_key_ d)) a /\ Forall (fun e => before_user (saved_key_ d) e -> seen s e = false) b /\ base d (before_position (length a))
      end
  end.

Lemma es_split pre e post : es = pre ++ e :: post -> entry_ok (valid := valid) e /\ ikvs !! length pre = Some (entry_pair e) /\ (length pre < length ikvs)%nat.
Proof.
  intros E. split; [|split].
  - rewrite E in es_ok. by apply Forall_app in es_ok as [_ [? _]%Forall_cons].
  - rewrite E, map_app, lookup_app_r by (by rewrite length_map). by rewrite length_map, Nat.sub_diag.
  - rewrite length_map, E, length_app. cbn. lia.
Qed.

Lemma view_split pre post : es = pre ++ post -> view = scan [] pre ++ scan pre post.
Proof. intros E. rewrite (view_scan s es es_order), E. apply (scan_app s []). Qed.

(** The key and the value of the entry the internal iterator is at. *)
Lemma internal_entry pre e post i : es = pre ++ e :: post -> iat i (Some (length pre)) ->
  it_key it i = Ret (internal_of e) /\ it_value it i = Ret (e_value e) /\ Valid it i = true /\ ExtractUserKey (internal_of e) = Ret (e_user e).
Proof.
  intros E Hi. destruct (es_split _ _ _ E) as (He & Ee & _). destruct (iter_pair i _ Hi) as (k & v & E' & Ek & Ev). rewrite Ee in E'. injection E' as <- <-. split_and!; [done|done| |].
  - rewrite (iter_valid i _ Hi). done.
  - rewrite ExtractUserKey_ret; [by unfold internal_of; rewrite user_part_put|]. unfold internal_of. rewrite zlen_put64. pose proof (zlen_nonneg (e_user e)). lia.
Qed.

Definition sampled (d d' : DBIter I D) : Prop := exists db rnd bytes, d' = set_sampling d db rnd bytes /\ is_seed rnd /\ 0 <= bytes < period_bound.

Lemma sampled_base d d' p : sampled d d' -> base d p -> base d' p.
Proof. intros (db & rnd & bytes & -> & Hr & Hb) []. by split. Qed.

Lemma ParseKey_ok pre e post d : es = pre ++ e :: post -> base d (Some (length pre)) ->
  exists d', ParseKey it RecordReadSample d = Ret (true, mk_parsed (e_user e) (e_seq e) (e_type e), d') /\ sampled d d'.
Proof.
  intros E [Hi Hs Hst Hr Hb]. destruct (internal_entry _ _ _ _ E Hi) as (Ek & Ev & _ & _). destruct (es_split _ _ _ E) as ((_ & Hseq & Ht & Hu & [_ Hv]) & _).
  unfold ParseKey. rewrite Ek, Ev. cbn [rbind]. assert (zlen (internal_of e) = zlen (e_user e) + 8) as El by (unfold internal_of; by rewrite zlen_put64).
  pose proof (zlen_nonneg (e_user e)). pose proof (zlen_nonneg (e_value e)). rewrite (wrap_small 64 (zlen (internal_of e) + zlen (e_value e)) : _ -> u64 _ = _) by lia.
  set (n := zlen (internal_of e) + zlen (e_value e)). assert (0 <= n < 2 ^ 40) as Hn by lia.
  destruct (sample_ok RecordReadSample (internal_of e) n Hn (sample_fuel n) (db_ d) (rnd_ d) (bytes_until_read_sampling_ d) Hr) as (db & rnd & bytes & -> & Hr' & Hb'); [lia|unfold sample_fuel; destruct (_ =? 0); lia|].
  cbn [rbind]. unfold assert_. destruct (Z.geb_spec bytes n); [|lia]. cbn [rbind]. unfold internal_of at 1. rewrite ParseInternalKey_put by done. eexists. split; [done|].
  exists db, rnd, (bytes - n). unfold period_bound, kReadBytesPeriod in *. split_and!; [|done|lia|lia]. f_equal. apply wrap_small. lia.
Qed.

(** *** Going on to the next entry *)

Lemma next_entry_ok pre e post d skipping : es = pre ++ e :: post -> base d (Some (length pre)) ->
  exists d', base d' (position ikvs (length (pre ++ [e]))) /\ direction_ d' = direction_ d /\
    match post with
    | [] => next_entry it d skipping = Ret (inr d') /\ db_valid_ d' = false
    | _ => next_entry it d skipping = Ret (inl (d', skipping)) /\ saved_key_ d' = saved_key_ d
    end.
Proof.
  intros E [Hi Hs Hst Hr Hb]. unfold next_entry. destruct (iter_next _ _ Hi) as (i & -> & Hi'). cbn [rbind]. rewrite length_app. cbn [length]. rewrite Nat.add_1_r.
  rewrite (iter_valid i _ Hi'). destruct post as [|e' post].
  - rewrite (position_ge ikvs) in * by (rewrite length_map, E, length_app; cbn; lia). rewrite bool_decide_false by (by intros [? ?]). exists (set_valid (set_saved_key (set_internal d i) []) false). split; [by split|by split_and!].
  - rewrite (position_lt ikvs) in * by (rewrite length_map, E, length_app; cbn; lia). rewrite bool_decide_true by (by eexists). exists (set_internal d i). split; [by split|by split_and!].
Qed.

(** *** Forwards *)

(** A key that is skipped. *)
Definition hid (skipping : bool) (k u : list Z) : Prop := skipping = true /\ cmp u k <= 0.

(** The entries of [pre] were passed: what is not hidden has not been seen among
    them, and what is seen is not before the key to skip. *)
Record passing (pre post : list entry) (skipping : bool) (k : list Z) : Prop := {
  ps_key : skipping = true -> valid k /\ forall e, e ∈ post -> seen s e = true -> cmp k (e_user e) <= 0;
  ps_hidden e e' : e ∈ post -> e' ∈ pre -> seen s e = true -> seen s e' = true -> cmp (e_user e') (e_user e) = 0 -> hid skipping k (e_user e);
}.

(** The first entry shown that is not hidden. *)
Definition found (pre post : list entry) (skipping : bool) (k : list Z) (d : DBIter I D) : Prop :=
  (exists q e r, post = q ++ e :: r /\ shows (pre ++ q) e = true /\ ~ hid skipping k (e_user e) /\ Forall (fun kv => hid skipping k (fst kv)) (scan pre q) /\
     base d (Some (length (pre ++ q))) /\ db_valid_ d = true) \/
  (Forall (fun kv => hid skipping k (fst kv)) (scan pre post) /\ db_valid_ d = false /\ exists q, base d q).

Lemma found_cons pre e post skipping k skipping' k' d : found (pre ++ [e]) post skipping' k' d ->
  (forall kv, kv ∈ scan (pre ++ [e]) post -> hid skipping' k' (fst kv) -> hid skipping k (fst kv)) -> (shows pre e = true -> hid skipping k (e_user e)) ->
  (forall e', e' ∈ post -> hid skipping k (e_user e') -> hid skipping' k' (e_user e')) -> found pre (e :: post) skipping k d.
Proof.
  intros H Hkv He Hp. assert (forall q r, post = q ++ r -> Forall (fun kv => hid skipping' k' (fst kv)) (scan (pre ++ [e]) q) -> Forall (fun kv => hid skipping k (fst kv)) (scan pre (e :: q))) as Hall.
  { intros q r -> Hq. cbn [LdbDbIterSpec.scan]. apply Forall_app. split; [destruct (shows pre e) eqn:Es; [constructor; [by apply He|constructor]|constructor]|].
    apply Forall_forall. intros kv Hin. eapply Forall_forall in Hq; [|exact Hin]. apply Hkv; [|done]. rewrite scan_app. apply elem_of_app. by left. }
  destruct H as [(q & e' & r & -> & Hs & Hn & Hq & Hb & Hv)|(Hq & Hv & Hb)].
  - left. exists (e :: q), e', r. rewrite <- app_assoc in Hs, Hb. split_and!; [done|done| |by apply (Hall q (e' :: r))|done|done]. intros Hh. apply Hn, Hp; [rewrite elem_of_app; right; by left|done].
  - right. split_and!; [|done|done]. apply (Hall post []); [by rewrite app_nil_r|done].
Qed.

Lemma es_in_order pre post : es = pre ++ post -> in_order (valid := valid) (cmp := cmp) (pre ++ post).
Proof. by intros <-. Qed.

Lemma es_parts pre e post : es = pre ++ e :: post -> valid (e_user e) /\ is_type (e_type e) /\
  (forall e', e' ∈ pre -> valid (e_user e') /\ cmp (e_user e') (e_user e) <= 0) /\ (forall e', e' ∈ post -> valid (e_user e') /\ cmp (e_user e) (e_user e') <= 0).
Proof.
  intros E. destruct (in_order_split _ _ _ (es_in_order _ _ E)) as ([Hv Ht] & H1 & H2). split_and!; [done|done| |].
  - intros e' He'. destruct (H1 e' He') as [[? _] ?]. split; [done|by apply earlier_le].
  - intros e' He'. destruct (H2 e' He') as [[? _] ?]. split; [done|by apply earlier_le].
Qed.

(** Passing one entry. *)
Lemma passing_unseen pre e post skipping k : passing pre (e :: post) skipping k -> seen s e = false -> passing (pre ++ [e]) post skipping k.
Proof.
  intros [H1 H2] He. split.
  - intros Hs. destruct (H1 Hs) as [Hk Ha]. split; [done|]. intros e' He'. apply Ha. by right.
  - intros a b Ha [Hb|Hb]%elem_of_app; [apply H2; [by right|done]|]. apply list_elem_of_singleton in Hb as ->. congruence.
Qed.

Lemma passing_seen pre e post skipping k : es = pre ++ e :: post -> passing pre (e :: post) skipping k -> passing (pre ++ [e]) post true (e_user e).
Proof.
  intros E [H1 H2]. destruct (es_parts _ _ _ E) as (Hv & _ & Hpre & Hpost). split.
  - intros _. split; [done|]. intros e' He' _. by apply Hpost.
  - intros a b Ha Hb Hsa Hsb Eab. split; [done|]. destruct (Hpost a Ha) as [Hva Hle]. pose proof (order_flip (cmp := cmp) _ _ Hv Hva).
    apply elem_of_app in Hb as [Hb|Hb]; [|apply list_elem_of_singleton in Hb as ->; lia]. destruct (Hpre b Hb) as [Hvb Hbe]. pose proof (order_eq_l (cmp := cmp) _ _ (e_user e) Hvb Hva Hv Eab). lia.
Qed.

Lemma passing_hidden pre e post skipping k : es = pre ++ e :: post -> passing pre (e :: post) skipping k -> hid skipping k (e_user e) -> passing (pre ++ [e]) post skipping k.
Proof.
  intros E Hp [-> Hle]. pose proof Hp as [H1 H2]. destruct (H1 eq_refl) as [Hk Ha]. destruct (es_parts _ _ _ E) as (Hv & _ & _ & Hpost). split.
  - intros _. split; [done|]. intros e' He'. apply Ha. by right.
  - intros a b Hin Hb Hsa Hsb Eab. apply elem_of_app in Hb as [Hb|Hb]; [apply (H2 a b); [by right|done..]|]. apply list_elem_of_singleton in Hb as ->. split; [done|].
    destruct (Hpost a Hin) as [Hva _]. pose proof (order_flip (cmp := cmp) _ _ Hv Hva). apply (order_trans (cmp := cmp) _ (e_user e)); [done..|lia|done].
Qed.

Lemma find_next_ok : forall post pre d skipping n, es = pre ++ post -> post <> [] -> base d (Some (length pre)) -> (length post <= n)%nat -> passing pre post skipping (saved_key_ d) ->
  exists d', loop n (find_next_round it user RecordReadSample) (d, skipping) = Ret d' /\ direction_ d' = direction_ d /\ found pre post skipping (saved_key_ d) d'.
Proof.
  induction post as [|e post IH]; intros pre d skipping n E Hne Hb Hn Hp; [done|]. destruct n as [|n]; [cbn in Hn; lia|]. rewrite loop_unfold. cbn [find_next_round].
  destruct (ParseKey_ok pre e post d E Hb) as (d1 & -> & Hd1). cbn [rbind sequence key_type user_key andb]. pose proof (sampled_base _ _ _ Hd1 Hb) as Hb1. rewrite (bs_sequence _ _ Hb1).
  destruct (es_parts _ _ _ E) as (Hv & Ht & Hpre & Hpost). destruct Hd1 as (db & rnd & bytes & -> & _).
  assert (es = (pre ++ [e]) ++ post) as E' by (by rewrite <- app_assoc).
  (* the rest of the search *)
  assert (forall d1 skipping', base d1 (Some (length pre)) -> direction_ d1 = direction_ d -> passing (pre ++ [e]) post skipping' (saved_key_ d1) ->
    exists d' r, next_entry it d1 skipping' = Ret r /\ match r with inl x => loop n (find_next_round it user RecordReadSample) x | inr y => Ret y end = Ret d' /\
      direction_ d' = direction_ d /\ found (pre ++ [e]) post skipping' (saved_key_ d1) d') as Hrest.
  { clear db rnd bytes Hb1. intros d1 skipping' Hb1 Hdir Hp'. destruct (next_entry_ok pre e post d1 skipping' E Hb1) as (d2 & Hb2 & Hdir2 & H). destruct post as [|e2 post].
    - destruct H as [E2 Hv2]. exists d2, (inr d2). split_and!; [done|done|congruence|]. right. split_and!; [constructor|done|]. by eexists.
    - destruct H as [E2 Hk2]. rewrite position_lt in Hb2 by (rewrite length_map, E', !length_app; cbn; lia). rewrite <- Hk2 in Hp'.
      destruct (IH (pre ++ [e]) d2 skipping' n E' ltac:(done) Hb2 ltac:(cbn in *; lia) Hp') as (d' & El & Hd' & Hf). exists d', (inl (d2, skipping')). rewrite <- Hk2. split_and!; [done|done|congruence|done]. }
  destruct (e_seq e <=? s) eqn:Hs; fold (seen s e) in Hs.
  - destruct (Z.eqb_spec (e_type e) kTypeDeletion) as [Et|Et].
    + destruct (Hrest (set_saved_key (set_sampling d db rnd bytes) (e_user e)) true) as (d' & r & -> & El & Hdir & Hf); [by destruct Hb1; split|done|by apply (passing_seen pre e post skipping (saved_key_ d))|].
      cbn [rbind]. exists d'. split_and!; [by destruct r|done|]. cbn [saved_key_ set_saved_key] in Hf. eapply found_cons; [exact Hf| | |].
      * intros kv Hin [_ Hh]. destruct (scan_after s pre e post kv (es_in_order _ _ E) Hs Hin) as [Hvk Hlt]. pose proof (order_flip (cmp := cmp) _ _ Hv Hvk). lia.
      * intros Hsh. apply shows_spec in Hsh as (_ & Hval & _). rewrite Et in Hval. done.
      * intros e' He' [Hsk Hle]. split; [done|]. destruct (ps_key _ _ _ _ Hp Hsk) as [Hk Hka]. specialize (Hka e ltac:(by left) Hs). destruct (Hpost e' He') as [Hv' _]. by apply (order_trans (cmp := cmp) _ (saved_key_ d)).
    + destruct Ht as [?|Ht]; [done|]. rewrite Ht. cbn [Z.eqb Pos.eqb kTypeValue]. cbn [saved_key_ set_sampling].
      assert (exists b, (if skipping then let! r := Compare user (e_user e) (saved_key_ d) in Ret (r <=? 0) else Ret false) = Ret b /\ (b = true <-> hid skipping (saved_key_ d) (e_user e))) as (b & -> & Hbh).
      { destruct skipping eqn:Esk; [|exists false; split; [done|]; split; [done|by intros [? _]]]. destruct (ps_key _ _ _ _ Hp eq_refl) as [Hk _]. rewrite laws_compare by done. cbn [rbind]. eexists. split; [done|].
        unfold hid. rewrite Z.leb_le. tauto. }
      cbn [rbind]. destruct b.
      * assert (hid skipping (saved_key_ d) (e_user e)) as Hh by (by apply Hbh). destruct (Hrest (set_sampling d db rnd bytes) skipping Hb1 eq_refl) as (d' & r & -> & El & Hdir & Hf); [by apply passing_hidden|].
        cbn [rbind]. exists d'. split_and!; [by destruct r|done|]. cbn [saved_key_ set_sampling] in Hf. by eapply found_cons.
      * cbn [rbind]. eexists. split_and!; [done|done|]. left. exists [], e, post. rewrite app_nil_r. split_and!; [done| |by intros Hh; apply Hbh in Hh|constructor|by destruct Hb1; split|done].
        apply shows_spec. split_and!; [done|done|]. intros e' He' Hse' Eq. assert (hid skipping (saved_key_ d) (e_user e)) as Hh by (by apply (ps_hidden _ _ _ _ Hp e e'); [left|..]). by apply Hbh in Hh.
  - destruct (Hrest (set_sampling d db rnd bytes) skipping Hb1 eq_refl) as (d' & r & -> & El & Hdir & Hf); [by apply passing_unseen|]. cbn [rbind]. exists d'. split_and!; [by destruct r|done|].
    cbn [saved_key_ set_sampling] in Hf. eapply found_cons; [exact Hf|done| |done]. intros Hsh. apply shows_spec in Hsh as (Hs' & _). congruence.
Qed.

(** The position found: the hidden pairs are those at the front. *)
Lemma front_unique {A : Type} (P : A -> Prop) (a hs : list A) x b rest :
  a ++ x :: b = hs ++ rest -> Forall P a -> ~ P x -> Forall P hs -> Forall (fun y => ~ P y) rest -> a = hs.
Proof.
  revert hs; induction a as [|y a IH]; intros [|h hs] E Ha Hx Hhs Hr; [done| | |].
  - injection E as -> _. by apply Forall_cons in Hhs as [? _].
  - cbn in E. subst rest. apply Forall_cons in Hr as [Hn _]. by apply Forall_cons in Ha as [? _].
  - injection E as -> E. f_equal. apply Forall_cons in Ha as [_ Ha], Hhs as [_ Hhs]. by apply IH.
Qed.

Lemma found_at pre post skipping k hs rest d : es = pre ++ post -> scan pre post = hs ++ rest -> Forall (fun kv => hid skipping k (fst kv)) hs ->
  Forall (fun kv => ~ hid skipping k (fst kv)) rest -> direction_ d = kForward -> found pre post skipping k d -> db_at d (position view (length (scan [] pre ++ hs))).
Proof.
  intros E Es Hhs Hr Hd [(q & e & r & -> & Hsh & Hn & Hq & Hb & Hv)|(Hall & Hv & Hb)].
  - rewrite scan_app in Es. cbn [LdbDbIterSpec.scan] in Es. rewrite Hsh in Es. cbn [app] in Es.
    assert (scan pre q = hs) as <- by (by apply (front_unique _ _ _ _ _ _ Es Hq Hn Hhs Hr)). rewrite app_assoc in E.
    rewrite position_lt.
    + cbn [db_at]. rewrite Hd. split; [done|]. exists (pre ++ q), e, r. rewrite <- (scan_app s [] pre q). by split_and!.
    + rewrite (view_split _ _ E), <- (scan_app s [] pre q), length_app. cbn [LdbDbIterSpec.scan]. rewrite Hsh. cbn. lia.
  - assert (rest = []) as ->.
    { rewrite Es in Hall. apply Forall_app in Hall as [_ Hall]. destruct rest as [|x rest]; [done|]. apply Forall_cons in Hall as [Hx _]. by apply Forall_cons in Hr as [? _]. }
    rewrite position_ge; [by split|]. rewrite (view_split _ _ E), Es, app_nil_r. done.
Qed.

Lemma FindNext_ok pre post d skipping hs rest : es = pre ++ post -> post <> [] -> base d (Some (length pre)) -> direction_ d = kForward -> passing pre post skipping (saved_key_ d) ->
  scan pre post = hs ++ rest -> Forall (fun kv => hid skipping (saved_key_ d) (fst kv)) hs -> Forall (fun kv => ~ hid skipping (saved_key_ d) (fst kv)) rest ->
  exists d', FindNextUserEntry it user RecordReadSample fuel d skipping = Ret d' /\ db_at d' (position view (length (scan [] pre ++ hs))).
Proof.
  intros E Hne Hb Hd Hp Es Hhs Hr. unfold FindNextUserEntry. rewrite (iter_valid _ _ (bs_at _ _ Hb)), Hd. cbn [rbind assert_].
  destruct (find_next_ok post pre d skipping fuel E Hne Hb) as (d' & -> & Hd' & Hf); [|done|].
  - assert (length es = length (pre ++ post)) as El by (by f_equal). rewrite length_app in El. lia.
  - exists d'. split; [done|]. eapply found_at; [done|exact Es|done|done|congruence|done].
Qed.

Lemma find_from_ok pre post d : es = pre ++ post -> base d (position ikvs (length pre)) -> direction_ d = kForward ->
  (forall e e', e ∈ post -> e' ∈ pre -> seen s e = true -> seen s e' = true -> cmp (e_user e') (e_user e) <> 0) ->
  exists d', find_from it user RecordReadSample fuel d = Ret d' /\ db_at d' (position view (length (scan [] pre))).
Proof.
  intros E Hb Hd Hs. unfold find_from. rewrite (iter_valid _ _ (bs_at _ _ Hb)). destruct post as [|e post].
  - rewrite app_nil_r in E. rewrite position_ge by (rewrite length_map, E; done). rewrite bool_decide_false by (by intros [? ?]). eexists. split; [done|].
    rewrite position_ge by (rewrite (view_split pre []) by (by rewrite app_nil_r); rewrite app_nil_r; done). split; [done|]. rewrite position_ge in Hb by (by rewrite length_map, E). exists None. by destruct Hb; split.
  - rewrite position_lt in Hb |- * by (rewrite length_map, E, length_app; cbn; lia). rewrite bool_decide_true by (by eexists).
    rewrite <- (app_nil_r (scan [] pre)). eapply FindNext_ok; [done|done|done|done| |by apply (eq_refl ([] ++ _))|constructor|].
    + split; [done|]. intros a b Ha Hb' Hsa Hsb Eab. by destruct (Hs a b).
    + apply Forall_forall. by intros kv _ [? _].
Qed.

Lemma passing_from pre e post : es = pre ++ e :: post -> passing pre (e :: post) true (e_user e).
Proof.
  intros E. destruct (es_parts _ _ _ E) as (Hv & _ & Hpre & Hpost). assert (forall e', e' ∈ e :: post -> valid (e_user e') /\ cmp (e_user e) (e_user e') <= 0) as Hpost'.
  { intros e' [->|He']%elem_of_cons; [|by apply Hpost]. split; [done|]. rewrite (order_refl (cmp := cmp)); done. }
  split; [split; [done|]; intros e' He' _; by apply Hpost'|]. intros a b Ha Hb _ _ Eab. split; [done|]. destruct (Hpost' a Ha) as [Hva _], (Hpre b Hb) as [Hvb Hle].
  pose proof (order_eq_l (cmp := cmp) _ _ (e_user e) Hvb Hva Hv Eab). lia.
Qed.

Lemma Next_forward d n : db_at d (Some n) -> direction_ d = kForward -> exists d', db_Next it user RecordReadSample fuel d = Ret d' /\ db_at d' (position view (Datatypes.S n)).
Proof.
  intros [Hv H] Hd. rewrite Hd in H. destruct H as (pre & e & post & E & Hsh & -> & Hb). unfold db_Next. rewrite Hv, Hd. cbn [rbind assert_].
  destruct (internal_entry _ _ _ _ E (bs_at _ _ Hb)) as (-> & _ & _ & Hu). cbn [rbind]. rewrite Hu. cbn [rbind].
  replace (Datatypes.S (length (scan [] pre))) with (length (scan [] pre ++ [user_pair e])) by (rewrite length_app; cbn; lia). destruct (es_parts _ _ _ E) as (Hve & _ & _ & _).
  apply shows_spec in Hsh as Hsh'. eapply (FindNext_ok pre (e :: post)); [done|done|by destruct Hb; split|done|by apply passing_from| | |].
  - cbn [LdbDbIterSpec.scan]. by rewrite Hsh.
  - constructor; [|constructor]. split; [done|]. cbn. rewrite (order_refl (cmp := cmp)); done.
  - apply Forall_forall. intros kv Hin [_ Hle]. destruct (scan_after s pre e post kv (es_in_order _ _ E) (proj1 Hsh') Hin) as [Hvk Hlt].
    pose proof (order_flip (cmp := cmp) _ _ Hve Hvk). cbn in Hle. lia.
Qed.

(** Once turned forwards, the iterator is at the first entry not before the key. *)
Lemma turn_forward a b d : es = a ++ b -> b <> [] -> base d (before_position (length a)) ->
  exists i, (if negb (Valid it (internal_ d)) then SeekToFirst it (internal_ d) else Next it (internal_ d)) = Ret i /\ iat i (Some (length a)) /\ Valid it i = true.
Proof.
  intros E Hne Hb. pose proof (bs_at _ _ Hb) as Hi. rewrite (iter_valid _ _ Hi). assert (position ikvs (length a) = Some (length a)) as Ep.
  { apply position_lt. rewrite length_map, E, length_app. destruct b; [done|cbn; lia]. }
  assert (exists i, (if negb (bool_decide (is_Some (before_position (length a)))) then SeekToFirst it (internal_ d) else Next it (internal_ d)) = Ret i /\ iat i (Some (length a))) as (i & -> & Hi').
  { destruct a as [|x a]; cbn [length before_position] in *.
    - rewrite bool_decide_false by (by intros [? ?]). destruct (iter_first _ _ Hi) as (i & Ei & Hi'). exists i. by rewrite Ep in Hi'.
    - rewrite bool_decide_true by (by eexists). destruct (iter_next _ _ Hi) as (i & Ei & Hi'). exists i. by rewrite Ep in Hi'. }
  exists i. split_and!; [done|done|]. rewrite (iter_valid _ _ Hi'). by apply bool_decide_true.
Qed.

Lemma Next_reverse d n : db_at d (Some n) -> direction_ d = kReverse -> exists d', db_Next it user RecordReadSample fuel d = Ret d' /\ db_at d' (position view (Datatypes.S n)).
Proof.
  intros [Hv H] Hd. rewrite Hd in H. destruct H as (a & b & rest & E & Es & -> & Ha & Hbb & Hb). unfold db_Next. rewrite Hv, Hd. cbn [rbind assert_ db_direction internal_].
  assert (b <> []) as Hne by (by intros ->). destruct (turn_forward a b d E Hne Hb) as (i & -> & Hi & Hvi). cbn [rbind]. rewrite Hvi. cbn [negb].
  assert (in_order (valid := valid) (cmp := cmp) (a ++ b)) as Ho by (by rewrite <- E). pose proof (scan_sorted s a b Ho) as Hsort. rewrite Es in Hsort. cbn [map fst] in Hsort. apply sorted_cons in Hsort as (Hvk & Hgt & _).
  assert (forall e, e ∈ a ++ b -> valid (e_user e)) as Hve by (intros e He; destruct Ho as [_ Ho]; eapply Forall_forall in Ho; [apply Ho|done]).
  replace (Datatypes.S (length (scan [] a))) with (length (scan [] a ++ [(saved_key_ d, saved_value_ d)])) by (rewrite length_app; cbn; lia).
  eapply (FindNext_ok a b); [done|done|by destruct Hb; split|done| |exact Es| |].
  - cbn [saved_key_ set_internal db_direction]. rewrite Forall_forall in Ha, Hbb. split.
    + intros _. split; [done|]. intros e He Hse. pose proof (order_flip (cmp := cmp) _ _ Hvk (Hve e ltac:(rewrite elem_of_app; by right))). destruct (Z.ltb_spec (cmp (e_user e) (saved_key_ d)) 0) as [Hlt|]; [|lia].
      rewrite (Hbb e He Hlt) in Hse. done.
    + intros x y Hx Hy Hsx _ Exy. destruct (order_eq_l (cmp := cmp) _ _ (saved_key_ d) (Hve y ltac:(rewrite elem_of_app; by left)) (Hve x ltac:(rewrite elem_of_app; by right)) Hvk Exy) as [H1 _].
      rewrite (Hbb x Hx) in Hsx; [done|]. apply H1. by apply Ha.
  - constructor; [|constructor]. split; [done|]. cbn. rewrite (order_refl (cmp := cmp)); done.
  - apply Forall_forall. intros kv Hin [_ Hle]. cbn [saved_key_ set_internal db_direction] in Hle. eapply Forall_forall in Hgt; [|apply list_elem_of_fmap_2; exact Hin].
    assert (valid (fst kv)) as Hvkv.
    { destruct (scan_in (cmp := cmp) s a b kv) as (q & e & r & -> & _ & ->); [rewrite Es; by right|]. apply Hve. rewrite !elem_of_app. right; right. by left. }
    pose proof (order_flip (cmp := cmp) _ _ Hvk Hvkv). unfold less in Hgt. cbn in Hle. lia.
Qed.

(** *** Backwards *)

(** What is saved of the entries [m] that were gone over, before which are [a]. *)
Definition saved (a m : list entry) (value_type : Z) (d : DBIter I D) : Prop :=
  (value_type = kTypeDeletion /\ scan a m = []) \/
  (value_type = kTypeValue /\ exists m1 f m2, m = m1 ++ f :: m2 /\ Forall (fun e => seen s e = false) m1 /\ seen s f = true /\ e_type f = kTypeValue /\
     saved_key_ d = e_user f /\ saved_value_ d = e_value f /\ scan (a ++ m1 ++ [f]) m2 = []).

Lemma same_hidden pre e post : In e pre -> seen s e = true -> forall f, cmp (e_user e) (e_user f) = 0 -> scan pre (f :: post) = scan (pre ++ [f]) post.
Proof.
  intros He Hs f Ef. cbn [LdbDbIterSpec.scan]. destruct (shows pre f) eqn:Esh; [|done]. apply shows_spec in Esh as (_ & _ & H). destruct (H e); [by apply list_elem_of_In|done..].
Qed.

(** Nothing of [m] is shown when the entry before is seen and not of an earlier key. *)
Lemma saved_covered a e m vt d : saved (a ++ [e]) m vt d -> seen s e = true -> (vt = kTypeValue -> cmp (e_user e) (saved_key_ d) = 0) -> scan (a ++ [e]) m = [].
Proof.
  intros [[_ H]|(Hvt & m1 & f & m2 & -> & Hm1 & _ & _ & Ek & _ & Em2)] He Heq; [done|]. rewrite scan_app, (scan_unseen s _ m1 Hm1). cbn [app].
  rewrite (same_hidden _ e); [by rewrite <- !app_assoc in *| |done|by rewrite <- Ek; apply Heq]. rewrite !in_app_iff. left; right. by left.
Qed.

Lemma prev_round_ok a e b m d vt : es = a ++ e :: b -> (exists c, b = m ++ c) -> base d (Some (length a)) -> direction_ d = kReverse -> saved (a ++ [e]) m vt d ->
  exists d' vt', direction_ d' = kReverse /\ db_valid_ d' = db_valid_ d /\
    ((find_prev_round it user RecordReadSample (d, vt) = Ret (inr (d', vt')) /\ vt' = kTypeValue /\ saved (a ++ [e]) m vt' d' /\ before_user (saved_key_ d') e /\ base d' (Some (length a))) \/
     (find_prev_round it user RecordReadSample (d, vt) = Ret (match a with [] => inr (d', vt') | _ => inl (d', vt') end) /\ saved a (e :: m) vt' d' /\ base d' (before_position (length a)))).
Proof.
  intros E (c & ->) Hb Hd Hsv. destruct (internal_entry _ _ _ _ E (bs_at _ _ Hb)) as (Ek & Ev & _ & Eu). destruct (es_parts _ _ _ E) as (Hv & Ht & Hpre & Hpost).
  unfold find_prev_round. destruct (ParseKey_ok a e (m ++ c) d E Hb) as (d1 & -> & Hd1). cbn [rbind sequence key_type user_key andb]. pose proof (sampled_base _ _ _ Hd1 Hb) as Hb1. destruct Hd1 as (db & rnd & bytes & -> & _).
  set (d1 := set_sampling d db rnd bytes) in *. rewrite (bs_sequence _ _ Hb1).
  (* going on *)
  assert (forall d2 vt', internal_ d2 = internal_ d1 -> base d2 (Some (length a)) -> direction_ d2 = kReverse -> db_valid_ d2 = db_valid_ d -> saved a (e :: m) vt' d2 ->
    exists d', direction_ d' = kReverse /\ db_valid_ d' = db_valid_ d /\
      (let! i := Prev it (internal_ d2) in let d := set_internal d2 i in if Valid it i then Ret (inl (d, vt')) else Ret (inr (d, vt'))) = Ret (match a with [] => inr (d', vt') | _ => inl (d', vt') end) /\
      saved a (e :: m) vt' d' /\ base d' (before_position (length a))) as Hgo.
  { intros d2 vt' _ Hb2 Hdir Hval Hs2. destruct (iter_prev _ _ (bs_at _ _ Hb2)) as (i & -> & Hi). cbn [rbind]. exists (set_internal d2 i). split_and!; [done|done| |done|by destruct Hb2; split].
    rewrite (iter_valid _ _ Hi). destruct a; cbn [length before_position]; [by rewrite bool_decide_false by (by intros [? ?])|by rewrite bool_decide_true by (by eexists)]. }
  destruct (e_seq e <=? s) eqn:Hs; fold (seen s e) in Hs.
  - (* whether the key is an earlier one *)
    assert (exists b, (if negb (vt =? kTypeDeletion) then let! r := Compare user (e_user e) (saved_key_ d1) in Ret (r <? 0) else Ret false) = Ret b /\
      (b = true -> vt = kTypeValue /\ before_user (saved_key_ d1) e) /\ (b = false -> vt = kTypeValue -> cmp (e_user e) (saved_key_ d1) = 0)) as (stop & -> & Hst & Hns).
    { destruct Hsv as [[-> _]|(-> & m1 & f & m2 & -> & _ & _ & _ & Ekf & _)]; [exists false; by split_and!|]. cbn [negb Z.eqb Pos.eqb kTypeValue kTypeDeletion].
      destruct (Hpost f) as [Hvf Hle]; [rewrite !elem_of_app; left; right; by left|]. cbn [saved_key_ d1 set_sampling]. rewrite Ekf, laws_compare by done. cbn [rbind]. eexists. split; [done|]. rewrite Z.ltb_lt, Z.ltb_ge. unfold before_user. split; [done|]. intros ? _. lia. }
    cbn [rbind]. destruct stop.
    + destruct (Hst eq_refl) as [-> Hbu]. exists d1, kTypeValue. split; [done|]. split; [done|]. left. by split_and!.
    + assert (scan (a ++ [e]) m = []) as Hm by (by apply (saved_covered a e m vt d); [..|apply Hns]). destruct (Z.eqb_spec (e_type e) kTypeDeletion) as [Et|Et].
      * destruct (Hgo (set_saved_value (set_saved_key d1 []) []) kTypeDeletion) as (d' & Hdir & Hval & El & Hsv' & Hb'); [done|by destruct Hb1; split|done|done| |].
        -- left. split; [done|]. cbn [LdbDbIterSpec.scan]. rewrite Hm, app_nil_r. destruct (shows a e) eqn:Esh; [|done]. apply shows_spec in Esh as (_ & Ht' & _). by rewrite Et in Ht'.
        -- rewrite Et. exists d', kTypeDeletion. split; [done|]. split; [done|]. right. by split_and!.
      * destruct Ht as [|Ht]; [done|]. cbn [internal_ d1 set_sampling]. rewrite Ev, Ek. cbn [rbind]. rewrite Eu. cbn [rbind]. rewrite Ht.
        destruct (Hgo (set_saved_value (set_saved_key d1 (e_user e)) (e_value e)) kTypeValue) as (d' & Hdir & Hval & El & Hsv' & Hb'); [done|by destruct Hb1; split|done|done| |].
        -- right. split; [done|]. exists [], e, m. by split_and!.
        -- exists d', kTypeValue. split; [done|]. split; [done|]. right. by split_and!.
  - cbn [rbind]. destruct (Hgo d1 vt) as (d' & Hdir & Hval & El & Hsv' & Hb'); [done..| |].
    + destruct Hsv as [[-> Hm]|(-> & m1 & f & m2 & -> & Hm1 & Hsf & Htf & Ekf & Evf & Em2)]; [left|right]; (split; [done|]).
      * cbn [LdbDbIterSpec.scan]. rewrite Hm, app_nil_r. destruct (shows a e) eqn:Esh; [|done]. apply shows_spec in Esh as (Hs' & _). congruence.
      * exists (e :: m1), f, m2. split_and!; [done|by constructor|done..|]. by rewrite <- app_assoc in Em2.
    + exists d', vt. split; [done|]. split; [done|]. right. by split_and!.
Qed.

Lemma find_prev_ok b : forall a m d vt n, es = (a ++ m) ++ b -> a <> [] -> base d (before_position (length a)) -> direction_ d = kReverse -> saved a m vt d -> (length a <= n)%nat ->
  exists d' vt' a' m', loop n (find_prev_round it user RecordReadSample) (d, vt) = Ret (d', vt') /\ a' ++ m' = a ++ m /\ saved a' m' vt' d' /\ base d' (before_position (length a')) /\
    direction_ d' = kReverse /\ db_valid_ d' = db_valid_ d /\ (a' = [] \/ vt' = kTypeValue /\ Forall (before_user (saved_key_ d')) a').
Proof.
  induction a as [|e a IH] using rev_ind; intros m d vt n E Hne Hb Hd Hs Hn; [done|]. rewrite length_app, Nat.add_1_r in Hn, Hb. cbn [length before_position] in Hn, Hb. destruct n as [|n]; [lia|]. rewrite loop_unfold.
  assert (es = a ++ e :: (m ++ b)) as E' by (rewrite E, <- !app_assoc; done).
  destruct (prev_round_ok a e (m ++ b) m d vt E' ltac:(by eexists) Hb Hd Hs) as (d' & vt' & Hd' & Hv' & [(-> & Hvt & Hs' & Hbu & Hb')|(-> & Hs' & Hb')]); cbn [rbind].
  - exists d', vt', (a ++ [e]), m. split_and!; [done|done|done|by rewrite length_app, Nat.add_1_r|done|done|]. right. split; [done|]. destruct (es_parts _ _ _ E') as (Hve & _ & Hpre & _).
    apply Forall_app. split; [|by constructor]. apply Forall_forall. intros x Hx. destruct (Hpre x Hx) as [Hvx Hle]. unfold before_user in *.
    destruct Hs' as [[Hvt' _]|(_ & m1 & f & m2 & Em & _ & _ & _ & Ekf & _)]; [by rewrite Hvt in Hvt'|]. assert (valid (saved_key_ d')) as Hvk.
    { rewrite Ekf. destruct (es_parts ((a ++ [e]) ++ m1) f (m2 ++ b)) as [? _]; [|done]. by rewrite E, Em, <- !app_assoc. }
    by apply (order_le_lt (cmp := cmp) _ (e_user e)).
  - destruct a as [|x a]; [exists d', vt', [], (e :: m); split_and!; [done..|by left]|]. assert ((x :: a) ++ [e] ++ m = ((x :: a) ++ [e]) ++ m) as Ea by by rewrite app_assoc.
    destruct (IH (e :: m) d' vt' n) as (d2 & vt2 & a2 & m2 & El & Em2 & H1 & H2 & H3 & H4 & H5); [by rewrite E, <- Ea|done|done|done|done|lia|]. exists d2, vt2, a2, m2. split_and!; [done|by rewrite Em2, <- Ea|done|done|done|congruence|done].
Qed.

(** The entries of [a] with those after it of which nothing is shown before. *)
Lemma saved_shown a m b d : es = (a ++ m) ++ b -> saved a m kTypeValue d -> Forall (before_user (saved_key_ d)) a ->
  scan a m = [(saved_key_ d, saved_value_ d)] /\ Forall (fun e => before_user (saved_key_ d) e -> seen s e = false) (m ++ b).
Proof.
  intros E [[? _]|(_ & m1 & f & m2 & -> & Hm1 & Hsf & Htf & Ekf & Evf & Em2)] Ha; [done|]. rewrite Ekf, Evf in *. split.
  - rewrite scan_app, (scan_unseen s _ m1 Hm1). cbn [app LdbDbIterSpec.scan]. assert (shows (a ++ m1) f = true) as ->.
    { apply shows_spec. split_and!; [done|done|]. intros e' [He'|He']%elem_of_app Hs'; [|rewrite Forall_forall in Hm1; rewrite (Hm1 _ He') in Hs'; done].
      rewrite Forall_forall in Ha. specialize (Ha e' He'). unfold before_user in Ha. lia. }
    cbn [app]. rewrite <- app_assoc, Em2. done.
  - rewrite <- app_assoc. apply Forall_app. split; [by eapply Forall_impl; [exact Hm1|]; intros e He _|]. destruct (es_parts (a ++ m1) f (m2 ++ b)) as (Hvf & _ & _ & Hpost); [by rewrite E, <- !app_assoc|].
    cbn [app]. constructor; [|apply Forall_forall; intros e He]; unfold before_user; intros Hlt.
    + rewrite (order_refl (cmp := cmp)) in Hlt by done. lia.
    + destruct (Hpost e He) as [Hve Hle]. pose proof (order_flip (cmp := cmp) _ _ Hvf Hve). lia.
Qed.

Lemma FindPrev_ok a b d : es = a ++ b -> base d (before_position (length a)) -> direction_ d = kReverse ->
  exists d', FindPrevUserEntry it user RecordReadSample fuel d = Ret d' /\ db_at d' (before_position (length (scan [] a))).
Proof.
  intros E Hb Hd. unfold FindPrevUserEntry. rewrite Hd. cbn [rbind assert_]. rewrite (iter_valid _ _ (bs_at _ _ Hb)).
  assert (exists d' vt' a' m', (if bool_decide (is_Some (before_position (length a))) then loop fuel (find_prev_round it user RecordReadSample) (d, kTypeDeletion) else Ret (d, kTypeDeletion)) = Ret (d', vt') /\
    a' ++ m' = a /\ saved a' m' vt' d' /\ base d' (before_position (length a')) /\ direction_ d' = kReverse /\ (a' = [] \/ vt' = kTypeValue /\ Forall (before_user (saved_key_ d')) a')) as (d' & vt & a' & m & -> & Ea & Hs & Hb' & Hd' & Hend).
  { destruct a as [|x a0] eqn:Ea.
    - rewrite bool_decide_false by (by intros [? ?]). exists d, kTypeDeletion, [], []. split_and!; [done..|by left|done|done|by left].
    - rewrite bool_decide_true by (by eexists). rewrite <- Ea in *. destruct (find_prev_ok b a [] d kTypeDeletion fuel) as (d' & vt' & a' & m' & El & Em & H1 & H2 & H3 & _ & H5); [by rewrite app_nil_r|by rewrite Ea|done|done|by left| |].
      + assert (length es = length (a ++ b)) as El by (by f_equal). rewrite length_app in El. lia.
      + exists d', vt', a', m'. rewrite app_nil_r in Em. by split_and!. }
  cbn [rbind]. subst a. destruct Hs as [[-> Hm]|[-> Hs]].
  - destruct Hend as [->|[? _]]; [|done]. cbn [app] in *. rewrite Hm. cbn [Z.eqb Pos.eqb kTypeDeletion length before_position]. eexists. split; [done|]. split; [done|]. eexists. by destruct Hb'; split.
  - assert (saved a' m kTypeValue d') as Hs' by (by right). cbn [Z.eqb Pos.eqb kTypeDeletion kTypeValue]. eexists. split; [done|]. assert (Forall (before_user (saved_key_ d')) a') as Ha by (destruct Hend as [->|[_ ?]]; [constructor|done]).
    destruct (saved_shown a' m b d' E Hs' Ha) as [Em Hbu]. rewrite scan_app. cbn [app]. rewrite Em, length_app. cbn [length]. rewrite Nat.add_1_r. cbn [before_position db_at db_valid_ set_valid direction_]. rewrite Hd'. split; [done|].
    exists a', (m ++ b), (scan (a' ++ m) b). rewrite scan_app, Em. split_and!; [by rewrite E, app_assoc|done|done|done|done|by destruct Hb'; split].
Qed.

(** *** Turning backwards *)

Lemma switch_ok u : valid u -> forall a b d n, es = a ++ b -> base d (Some (length a)) -> saved_key_ d = u -> (length a < n)%nat ->
  exists r, loop n (switch_round it user) d = Ret r /\
    match r with
    | inl d' => exists a' c, a = a' ++ c /\ Forall (fun e => ~ before_user u e) c /\ base d' (before_position (length a'))
    | inr d' => Forall (fun e => ~ before_user u e) a /\ db_valid_ d' = false /\ base d' None
    end.
Proof.
  intros Hu. induction a as [|e a IH] using rev_ind; intros b d n E Hb Hk Hn; (destruct n as [|n]; [lia|]); rewrite loop_unfold; unfold switch_round at 1; destruct (iter_prev _ _ (bs_at _ _ Hb)) as (i & -> & Hi); cbn [rbind].
  - rewrite (iter_valid _ _ Hi), bool_decide_false by (by intros [? ?]). eexists. split; [done|]. split_and!; [constructor|done|]. by destruct Hb; split.
  - rewrite length_app, Nat.add_1_r in Hi, Hn. cbn [length before_position] in Hi, Hn. rewrite <- app_assoc in E. cbn [app] in E. destruct (internal_entry _ _ _ _ E Hi) as (Ek & _ & -> & Eu). destruct (es_parts _ _ _ E) as (Hv & _ & _ & _).
    cbn [negb]. rewrite Ek. cbn [rbind]. rewrite Eu. cbn [rbind saved_key_ set_internal]. rewrite Hk, laws_compare by done. cbn [rbind]. destruct (Z.ltb_spec (cmp (e_user e) u) 0) as [Hlt|Hge]; cbn [rbind].
    + eexists. split; [done|]. exists (a ++ [e]), []. rewrite app_nil_r, length_app, Nat.add_1_r. split_and!; [done|constructor|by destruct Hb; split].
    + assert (~ before_user u e) as Hn' by (unfold before_user; lia). destruct (IH (e :: b) (set_internal d i) n E ltac:(by destruct Hb; split) Hk ltac:(lia)) as (r & El & Hr). exists r. split; [done|]. destruct r as [d'|d'].
      * destruct Hr as (a' & c & -> & Hc & Hb'). exists a', (c ++ [e]). rewrite app_assoc. split_and!; [done|apply Forall_app; by split; [|constructor]|done].
      * destruct Hr as (Ha & Hv' & Hb'). split_and!; [apply Forall_app; by split; [|constructor]|done|done].
Qed.

(** Before an entry that is shown no entry of its user key is seen. *)
Lemma none_shown a c e post : es = (a ++ c) ++ e :: post -> shows (a ++ c) e = true -> Forall (fun x => ~ before_user (e_user e) x) c -> scan a c = [].
Proof.
  intros E Hsh Hc. apply scan_unseen. apply shows_spec in Hsh as (_ & _ & H). destruct (es_parts _ _ _ E) as (_ & _ & Hpre & _). rewrite Forall_forall in Hc |- *. intros x Hx.
  destruct (Hpre x ltac:(rewrite elem_of_app; by right)) as [_ Hle]. specialize (Hc x Hx). unfold before_user in Hc. destruct (seen s x) eqn:Esx; [|done]. destruct (H x ltac:(rewrite elem_of_app; by right) Esx). lia.
Qed.

Lemma db_Prev_ok d n : db_at d (Some n) -> exists d', db_Prev it user RecordReadSample fuel d = Ret d' /\ db_at d' (before_position n).
Proof.
  intros [Hv H]. unfold db_Prev. rewrite Hv. cbn [rbind assert_]. destruct (direction_ d) eqn:Hd.
  - destruct H as (pre & e & post & E & Hsh & -> & Hb). destruct (internal_entry _ _ _ _ E (bs_at _ _ Hb)) as (-> & _ & -> & Hu). cbn [rbind assert_]. rewrite Hu. cbn [rbind]. destruct (es_parts _ _ _ E) as (Hve & _ & _ & _).
    destruct (switch_ok (e_user e) Hve pre (e :: post) (set_saved_key d (e_user e)) fuel E) as (r & -> & Hr); [by destruct Hb; split|done|rewrite E, length_app in fuel_ok; cbn in fuel_ok; lia|]. cbn [rbind]. destruct r as [d'|d'].
    + destruct Hr as (a & c & -> & Hc & Hb'). assert (scan a c = []) as Ec by (by apply (none_shown a c e post)). rewrite scan_app. cbn [app]. rewrite Ec, app_nil_r.
      apply (FindPrev_ok a (c ++ e :: post)); [by rewrite E, app_assoc|by destruct Hb'; split|done].
    + destruct Hr as (Ha & Hv' & Hb'). exists d'. split; [done|]. rewrite (none_shown [] pre e post); [|done..]. split; [done|]. by eexists.
  - destruct H as (a & b & rest & E & _ & -> & _ & _ & Hb). by apply (FindPrev_ok a b).
Qed.

(** *** The other operations *)

Lemma seek_split l target : in_order (valid := valid) (cmp := cmp) l -> valid target -> exists pre post, l = pre ++ post /\
  Forall (fun e => cmp (e_user e) target < 0 \/ cmp (e_user e) target = 0 /\ s < e_seq e) pre /\
  Forall (fun e => 0 < cmp (e_user e) target \/ cmp (e_user e) target = 0 /\ e_seq e <= s) post.
Proof.
  induction l as [|e l IH]; intros Ho Ht; [by exists [], []|]. destruct (in_order_split [] e l Ho) as ([Hv _] & _ & Hpost).
  assert ((cmp (e_user e) target < 0 \/ cmp (e_user e) target = 0 /\ s < e_seq e) \/ (0 < cmp (e_user e) target \/ cmp (e_user e) target = 0 /\ e_seq e <= s)) as [H|H] by lia.
  - destruct IH as (pre & post & -> & Hpre & Hp); [by apply (in_order_app [e])|done|]. exists (e :: pre), post. split_and!; [done|by constructor|done].
  - exists [], (e :: l). split_and!; [done|constructor|]. constructor; [done|]. apply Forall_forall. intros x Hx. destruct (Hpost x Hx) as [[Hvx _] Hlt].
    pose proof (order_flip (cmp := cmp) _ _ Hv Hvx). pose proof (order_flip (cmp := cmp) _ _ Hv Ht). pose proof (order_flip (cmp := cmp) _ _ Hvx Ht).
    pose proof (order_lt_le (cmp := cmp) (e_user e) (e_user x) target Hv Hvx Ht). pose proof (order_le_lt (cmp := cmp) (e_user e) (e_user x) target Hv Hvx Ht).
    pose proof (order_eq_l (cmp := cmp) (e_user e) (e_user x) target Hv Hvx Ht). unfold earlier in Hlt. lia.
Qed.

Lemma db_Seek_ok d p target : base d p -> target_ok target ->
  exists d', db_Seek it user RecordReadSample fuel d target = Ret d' /\ db_at d' (position view (lower_bound cmp target view)).
Proof.
  intros Hb Ht. destruct (targets target Ht) as [Hv Hk]. unfold db_Seek. cbn [sequence_ set_saved_value db_direction]. rewrite (bs_sequence _ _ Hb), AppendInternalKey_ret by (done || by right). cbn [rbind sequence key_type user_key app]. cbn [internal_ set_saved_key set_saved_value db_direction].
  destruct (iter_seek _ _ _ (bs_at _ _ Hb) Hk) as (i & -> & Hi). cbn [rbind]. destruct (seek_split es target es_order Hv) as (pre & post & E & Hpre & Hpost).
  assert (forall e, e ∈ es -> let r := internal_order cmp (internal_of e) (PutFixed64 target (packed s kValueTypeForSeek)) in r < 0 <-> cmp (e_user e) target < 0 \/ cmp (e_user e) target = 0 /\ s < e_seq e) as Hio.
  { intros e He. eapply Forall_forall in es_ok; [|exact He]. destruct es_ok as (_ & Hs & Hty & _). unfold internal_of. destruct (internal_order_parts (cmp := cmp) (e_user e) (e_seq e) (e_type e) target s kValueTypeForSeek Hs s_ok Hty ltac:(by right)) as [Hlt _].
    cbn zeta. rewrite Hlt. assert (e_type e <= kValueTypeForSeek) by (by destruct Hty as [-> | ->]). lia. }
  rewrite Forall_forall in Hpre, Hpost. assert (lower_bound (internal_order cmp) (PutFixed64 target (packed s kValueTypeForSeek)) ikvs = length pre) as En.
  { rewrite E, map_app, lower_bound_split; [by rewrite length_map| |]; apply Forall_map, Forall_forall; intros e He; pose proof (Hio e ltac:(rewrite E, elem_of_app; auto)) as Hx; cbn [fst entry_pair] in *; cbn zeta in Hx.
    - apply Hx. by apply Hpre.
    - specialize (Hpost e He). lia. }
  rewrite En in Hi. assert (lower_bound cmp target view = length (scan [] pre)) as ->.
  { rewrite (view_split _ _ E). apply lower_bound_split; apply Forall_forall; intros kv Hin; destruct (scan_in (cmp := cmp) s _ _ _ Hin) as (q & e & r & Eq & Hsh & ->); cbn [fst user_pair]; apply shows_spec in Hsh as (Hse & _); unfold seen in Hse; apply Z.leb_le in Hse.
    - destruct (Hpre e) as [|[_ ?]]; [rewrite Eq, elem_of_app; right; by left|done|lia].
    - destruct (Hpost e) as [|[? _]]; [rewrite Eq, elem_of_app; right; by left|lia|lia]. }
  apply (find_from_ok pre post); [done|by destruct Hb; split|done|]. intros e e' He He' Hse Hse' Eq. unfold seen in *. apply Z.leb_le in Hse, Hse'.
  assert (valid (e_user e) /\ valid (e_user e')) as [Hve Hve'] by (destruct es_order as [_ Hall]; rewrite E in Hall; split; eapply Forall_forall in Hall; try apply Hall; rewrite elem_of_app; auto).
  pose proof (order_eq_l (cmp := cmp) _ _ target Hve' Hve Hv Eq). destruct (Hpre e' He'), (Hpost e He); lia.
Qed.

Lemma db_at_base d p : db_at d p -> exists q, base d q.
Proof. destruct p as [n|]; cbn [db_at]; [|by intros [_ ?]]. intros [_ H]. destruct (direction_ d); [destruct H as (pre & e & post & _ & _ & _ & ?)|destruct H as (a & b & rest & _ & _ & _ & _ & _ & ?)]; by eexists. Qed.

Lemma db_pair d n : db_at d (Some n) -> exists k v, view !! n = Some (k, v) /\ db_key it d = Ret k /\ db_value it d = Ret v.
Proof.
  intros [Hv H]. unfold db_key, db_value. rewrite Hv. cbn [rbind assert_]. destruct (direction_ d).
  - destruct H as (pre & e & post & E & Hsh & -> & Hb). destruct (internal_entry _ _ _ _ E (bs_at _ _ Hb)) as (-> & -> & _ & Hu). cbn [rbind]. rewrite Hu. exists (e_user e), (e_value e). split_and!; [|done|done].
    rewrite (view_split _ _ E), lookup_app_r, Nat.sub_diag by done. cbn [LdbDbIterSpec.scan]. by rewrite Hsh.
  - destruct H as (a & b & rest & E & Es & -> & _). exists (saved_key_ d), (saved_value_ d). split_and!; [|done|done]. by rewrite (view_split _ _ E), lookup_app_r, Nat.sub_diag, Es by done.
Qed.

#[export] Instance db_iterator_lawful : LawfulIterator (db_iterator it user RecordReadSample fuel) target_ok cmp view db_at.
Proof.
  split; cbn [db_iterator Valid it_key it_value it_status SeekToFirst SeekToLast Seek Next Prev].
  - intros d p H. unfold db_Valid. destruct p as [n|]; destruct H as [-> _]; [by rewrite bool_decide_true by (by eexists)|by rewrite bool_decide_false by (by intros [? ?])].
  - apply db_pair.
  - intros d p H. destruct (db_at_base d p H) as [q Hb]. unfold db_status. rewrite (bs_status _ _ Hb). by eapply iter_status, bs_at.
  - intros d p H. destruct (db_at_base d p H) as [q Hb]. unfold db_SeekToFirst. cbn [internal_ set_saved_value db_direction]. destruct (iter_first _ _ (bs_at _ _ Hb)) as (i & -> & Hi). cbn [rbind].
    apply (find_from_ok [] es); [done|by destruct Hb; split|done|]. by intros e e' _ ?%not_elem_of_nil.
  - intros d p H. destruct (db_at_base d p H) as [q Hb]. unfold db_SeekToLast. cbn [internal_ set_saved_value db_direction]. destruct (iter_last _ _ (bs_at _ _ Hb)) as (i & -> & Hi). cbn [rbind].
    assert (forall kvs, last_position kvs = before_position (length kvs)) as Hlp by (intros [|x l]; [done|]; unfold last_position; cbn; f_equal; lia). rewrite Hlp, length_map in Hi. rewrite Hlp, (view_scan s es es_order).
    apply (FindPrev_ok es []); [by rewrite app_nil_r|by destruct Hb; split|done].
  - intros d p target H Ht. destruct (db_at_base d p H) as [q Hb]. by eapply db_Seek_ok.
  - intros d n H. destruct (direction_ d) eqn:Hd; [by apply Next_forward|by apply Next_reverse].
  - apply db_Prev_ok.
Qed.

(** *** The view *)

Lemma newest_seen_spec e : e ∈ es -> newest_seen (cmp := cmp) s es e = true <-> newest (cmp := cmp) (e_user e) s es (Some e).
Proof.
  intros He. unfold newest_seen, newest, visible, same_user, seen. assert (valid (e_user e)) as Hv by (destruct es_order as [_ H]; eapply Forall_forall in H; [apply H|done]).
  rewrite (order_refl (cmp := cmp)) by done. rewrite !andb_true_iff, forallb_forall. cbn [Z.eqb]. split.
  - intros [Hs H]. split_and!; [done..|]. intros e' He' Hv'. specialize (H e' ltac:(by apply list_elem_of_In)). apply andb_prop in Hv' as [H1 H2]. rewrite H1, H2 in H. by apply Z.leb_le.
  - intros (_ & Hs & H). split; [apply Hs|]. intros e' He'%list_elem_of_In. destruct (e_seq e' <=? s) eqn:E1; [|done]. destruct (cmp (e_user e') (e_user e) =? 0) eqn:E2; [|done]. cbn. apply Z.leb_le, H; [done|]. by rewrite E1, E2.
Qed.

Lemma view_spec kv : kv ∈ view <-> exists e, newest (cmp := cmp) (e_user e) s es (Some e) /\ e_type e = kTypeValue /\ kv = (e_user e, e_value e).
Proof.
  unfold snapshot_view. rewrite list_elem_of_In, in_map_iff. split.
  - intros (e & <- & H%filter_In). destruct H as [He%list_elem_of_In H]. apply andb_prop in H as [H1 H2]. exists e. split; [by apply newest_seen_spec|]. split; [by apply Z.eqb_eq|done].
  - intros (e & Hn & Ht & ->). exists e. split; [done|]. apply filter_In. pose proof (proj1 Hn) as He. split; [by apply list_elem_of_In|]. apply newest_seen_spec in Hn; [|done]. by rewrite Hn, Ht.
Qed.

Lemma view_sorted : sorted valid cmp (map fst view).
Proof. rewrite (view_scan s es es_order). by apply (scan_sorted s []). Qed.

Lemma new_db_iter_ok i p db seed : iat i p -> db_at (new_db_iter db i s seed) None.
Proof.
  intros Hi. unfold new_db_iter. destruct (period_ok (new_random seed) (new_random_seed seed)) as (n & rnd & -> & Hr & Hn). split; [done|]. by exists p; split.
Qed.

End Spec.

(** ** Theorem *)

Section Theorem_.
Context {I D : Type} {it : Iterator I} {user : Comparator} {valid : list Z -> Prop} {cmp : list Z -> list Z -> Z} {laws : ComparatorLaws user valid cmp}.

Lemma sorted_in_order (V : list Z -> Prop) es : Forall (entry_ok (valid := valid)) es -> sorted V (internal_order cmp) (map internal_of es) -> in_order (valid := valid) (cmp := cmp) es.
Proof.
  intros Hok [Hs _]. split; [|eapply Forall_impl; [exact Hok|]; intros e (Hv & _ & Ht & _); by split]. revert Hs. induction Hok as [|e es He Hok IH]; cbn [map]; intros Hs; [constructor|].
  apply StronglySorted_inv in Hs as [Hs Hlt]. constructor; [by apply IH|]. rewrite Forall_map in Hlt. apply Forall_forall. intros x Hx. rewrite Forall_forall in Hlt, Hok. specialize (Hlt x Hx).
  by apply (entry_order_parts e x He (Hok x Hx)) in Hlt.
Qed.

(** C10. The database iterator over the internal iterator of a sorted list of entries is a
    lawful iterator over what its snapshot sees, whatever the sequence of movements
    and changes of direction: in the order of the user keys, exactly the newest
    entries not newer than the snapshot that are values.  Its loops end, no
    assertion fails and no error is reported. *)
Theorem db_iterator_correct (RecordReadSample : D -> list Z -> D) fuel es s key_ok target_ok iat (db : D) i p seed :
  Forall (entry_ok (valid := valid)) es -> sorted (internal_valid valid) (internal_order cmp) (map internal_of es) -> is_sequence s -> (length es < fuel)%nat ->
  (forall u, target_ok u -> valid u /\ key_ok (PutFixed64 u (packed s kValueTypeForSeek))) -> LawfulIterator it key_ok (internal_order cmp) (map entry_pair es) iat -> iat i p ->
  LawfulIterator (db_iterator it user RecordReadSample fuel) target_ok cmp (snapshot_view (cmp := cmp) s es) (db_at (cmp := cmp) es s (iat := iat)) /\
  db_at (cmp := cmp) es s (iat := iat) (new_db_iter db i s seed) None /\
  sorted valid cmp (map fst (snapshot_view (cmp := cmp) s es)) /\
  forall kv, kv ∈ snapshot_view (cmp := cmp) s es <-> exists e, newest (cmp := cmp) (e_user e) s es (Some e) /\ e_type e = kTypeValue /\ kv = (e_user e, e_value e).
Proof.
  intros Hok Hs Hseq Hf Ht Hl Hi. pose proof (sorted_in_order _ es Hok Hs) as Ho. split_and!.
  - by eapply db_iterator_lawful.
  - by eapply new_db_iter_ok.
  - by apply view_sorted.
  - by apply view_spec.
Qed.

End Theorem_.
