(* ===== verification/LdbNewIterator.v ===== *)
(** * LevelDB: the iterators of the database (db/memtable.cc, db/db_impl.cc)

    [MemTableIterator] as an [Iterator], the iterator of all the internal keys of a
    database and the iterator a client gets: [DBIter] over the merge of the
    memtables and the tables.  An iterator has the memtables as they are when it is
    made: what is added while it lives is not seen through it.  The iterators that
    the current version adds are an argument, as is what [RecordReadSample] does. *)
From S2P Require Import Prelude.
From S2P Require Import LdbCoding LdbStatus LdbOrder LdbKeys LdbArena LdbSkipList LdbSkipListSpec LdbRandom LdbEnvPosix LdbLogWriter LdbIterator LdbMerger LdbMemTable LdbWriteBatch LdbDbWrite LdbDbIter LdbDbIterSpec.
From Stdlib Require Import ZArith Lia.
From stdpp Require Import base tactics numbers list sorting.
#[local] Open Scope Z_scope.

(** ** Definitions *)

Section NewIterator.
Context (user_comparator : Comparator).

(** The table and [iter_]. *)
Definition MemTableIterator : Type := MemTable * Z.

Definition mem_iterator : Iterator MemTableIterator :=
  let moved (m : MemTable) (r : res Z) : res MemTableIterator := let! it := r in Ret (m, it) in
  mk_iterator (fun s => mem_Valid (snd s)) (fun s => moved (fst s) (mem_SeekToFirst (fst s))) (fun s => moved (fst s) (mem_SeekToLast (fst s)))
    (fun s k => moved (fst s) (mem_Seek user_comparator (fst s) k)) (fun s => moved (fst s) (mem_Next (fst s) (snd s)))
    (fun s => moved (fst s) (mem_Prev user_comparator (fst s) (snd s))) (fun s => mem_key (fst s) (snd s)) (fun s => mem_value (fst s) (snd s)) (fun _ => status_ok).

(** [MemTable::NewIterator]; the iterator of the list is at no node. *)
Definition mem_NewIterator (m : MemTable) : MemTableIterator := (m, nullptr).

Context {F V D : Type} {W : WritableFile F} (version_iterator : Iterator V).

Definition child_iterator : Iterator (MemTableIterator + V) := either_iterator mem_iterator version_iterator.
Definition internal_iterator : Iterator (Status + ((MemTableIterator + V) + MergingIterator (MemTableIterator + V))) :=
  any_merging child_iterator (InternalKeyComparator user_comparator).

Definition with_refs (db : DBImpl (F := F)) (mem : MemTable) (imm : option MemTable) : DBImpl (F := F) :=
  mk_db (log_ db) mem imm (tmp_batch_ db) (last_sequence db) (bg_error_ db).

(** [vs] are the iterators of [versions_->current()->AddIterators]. *)
Definition NewInternalIterator (db : DBImpl (F := F)) (seed_ : Z) (vs : list V) :
    res ((Status + ((MemTableIterator + V) + MergingIterator (MemTableIterator + V))) * Z * Z * DBImpl (F := F)) :=
  let list := inl (mem_NewIterator (mem_ db)) :: match imm_ db with Some imm => [inl (mem_NewIterator imm)] | None => [] end ++ map inr vs in
  let mem := Ref (mem_ db) in
  let imm := option_map Ref (imm_ db) in
  let! internal_iter := NewMergingIterator child_iterator list in
  let seed := u32 (seed_ + 1) in
  Ret (internal_iter, last_sequence db, seed, with_refs db mem imm).

(** What is left of the memtables. *)
Definition CleanupIteratorState (mem : MemTable) (imm : option MemTable) : res (option MemTable * option MemTable) :=
  let! mem := Unref mem in
  let! imm := match imm with Some imm => Unref imm | None => Ret None end in
  Ret (mem, imm).

(** [d] is the database as [RecordReadSample] changes it. *)
Definition NewIterator (db : DBImpl (F := F)) (d : D) (snapshot : option Z) (seed_ : Z) (vs : list V) :=
  let! (iter, latest_snapshot, seed, db) := NewInternalIterator db seed_ vs in
  Ret (new_db_iter d iter (default latest_snapshot snapshot) seed, seed, db).

End NewIterator.

(** ** One of two iterators *)

Section Either.
Context {A B : Type} {a : Iterator A} {b : Iterator B} {valid : list Z -> Prop} {cmp : list Z -> list Z -> Z} {kvs : pairs}.

Definition at_left (aat : A -> option nat -> Prop) (s : A + B) (p : option nat) : Prop := match s with inl s => aat s p | inr _ => False end.
Definition at_right (bat : B -> option nat -> Prop) (s : A + B) (p : option nat) : Prop := match s with inl _ => False | inr s => bat s p end.

Lemma left_lawful aat : LawfulIterator a valid cmp kvs aat -> LawfulIterator (either_iterator a b) valid cmp kvs (at_left aat).
Proof.
  intros L. split; intros [s|s]; try by intros; cbn in *.
  - intros p H. exact (iter_valid s p H).
  - intros i H. exact (iter_pair s i H).
  - intros p H. exact (iter_status s p H).
  - intros p H. cbn in *. destruct (iter_first s p H) as (s' & -> & H'). by exists (inl s').
  - intros p H. cbn in *. destruct (iter_last s p H) as (s' & -> & H'). by exists (inl s').
  - intros p t H Ht. cbn in *. destruct (iter_seek s p t H Ht) as (s' & -> & H'). by exists (inl s').
  - intros i H. cbn in *. destruct (iter_next s i H) as (s' & -> & H'). by exists (inl s').
  - intros i H. cbn in *. destruct (iter_prev s i H) as (s' & -> & H'). by exists (inl s').
Qed.

Lemma right_lawful bat : LawfulIterator b valid cmp kvs bat -> LawfulIterator (either_iterator a b) valid cmp kvs (at_right bat).
Proof.
  intros L. split; intros [s|s]; try by intros; cbn in *.
  - intros p H. exact (iter_valid s p H).
  - intros i H. exact (iter_pair s i H).
  - intros p H. exact (iter_status s p H).
  - intros p H. cbn in *. destruct (iter_first s p H) as (s' & -> & H'). by exists (inr s').
  - intros p H. cbn in *. destruct (iter_last s p H) as (s' & -> & H'). by exists (inr s').
  - intros p t H Ht. cbn in *. destruct (iter_seek s p t H Ht) as (s' & -> & H'). by exists (inr s').
  - intros i H. cbn in *. destruct (iter_next s i H) as (s' & -> & H'). by exists (inr s').
  - intros i H. cbn in *. destruct (iter_prev s i H) as (s' & -> & H'). by exists (inr s').
Qed.

End Either.

(** A comparator on some of its keys. *)
Lemma laws_restrict c valid cmp (P : list Z -> Prop) : ComparatorLaws c valid cmp -> (forall a b, valid b -> zlen b <= zlen a -> P a -> P b) ->
  ComparatorLaws c (fun k => valid k /\ P k) cmp.
Proof.
  intros L HP. split.
  - split; [intros x y [Hx _] [Hy _]; by apply order_sym|intros x y z [Hx _] [Hy _] [Hz _]; by apply order_trans].
  - intros x [Hx _]. by apply laws_bytes.
  - intros x y [Hx _] [Hy _]. by apply laws_compare.
  - intros x y [Hx Px] [Hy _] Hlt. destruct (laws_separator x y Hx Hy Hlt) as (k & E & Hk & H1 & H2 & H3). exists k. split_and!; [done|done|by apply (HP x)|done..].
  - intros x y [Hx _] [Hy _]. by apply laws_no_separator.
  - intros x [Hx Px]. destruct (laws_successor x Hx) as (k & E & Hk & H1 & H2). exists k. split_and!; [done|done|by apply (HP x)|done..].
Qed.

(** ** The iterator of a memtable *)

Section Spec.
Context {user : Comparator} {valid : list Z -> Prop} {cmp : list Z -> list Z -> Z} {laws : ComparatorLaws user valid cmp}.

(** The internal keys a memtable can be asked for. *)
Definition key_fits (k : list Z) : Prop := internal_valid valid k /\ is_slice k.

#[export] Instance fits_laws : ComparatorLaws (InternalKeyComparator user) key_fits (internal_order cmp).
Proof. apply laws_restrict; [apply internal_laws|]. intros a b Hb Hl [_ Ha]. split; [by apply Hb|lia]. Qed.

Definition user_fits (u : list Z) : Prop := valid u /\ zlen u + 8 < 2 ^ 32.

Lemma user_fits_key s u : user_fits u -> valid u /\ key_fits (PutFixed64 u (packed s kValueTypeForSeek)).
Proof.
  intros [Hu Hl]. pose proof (laws_bytes _ Hu). assert (internal_valid valid (PutFixed64 u (packed s kValueTypeForSeek))) as Hi by (by apply internal_valid_put).
  split; [done|]. split; [done|]. split; [apply Hi|by rewrite zlen_put64].
Qed.

Definition mem_iterator_at (m : MemTable) (es : list entry) (s : MemTableIterator) (p : option nat) : Prop :=
  fst s = m /\
  match p with
  | None => mem_Valid (snd s) = false
  | Some n => exists before e after, es = before ++ e :: after /\ n = length before /\ mem_at (valid := valid) (cmp := cmp) m (snd s) before (e :: after)
  end.

Lemma mem_at_position m es it before after : es = before ++ after -> mem_at (valid := valid) (cmp := cmp) m it before after ->
  mem_iterator_at m es (m, it) (position (map entry_pair es) (length before)).
Proof.
  intros -> H. split; [done|]. destruct after as [|e after].
  - rewrite position_ge by (rewrite length_map, app_nil_r; done). destruct H as [H _]. by destruct (iter_key_ok _ _ _ _ H).
  - rewrite position_lt by (rewrite length_map, length_app; cbn; lia). by exists before, e, after.
Qed.

#[export] Instance mem_lawful m es : table_ok (valid := valid) (cmp := cmp) m es ->
  LawfulIterator (mem_iterator user) key_fits (internal_order cmp) (map entry_pair es) (mem_iterator_at m es).
Proof.
  intros Hm. split; intros [m' it]; cbn [mem_iterator Valid it_key it_value it_status SeekToFirst SeekToLast Seek Next Prev fst snd].
  - intros [n|] [E H]; cbn in *; subst m'; [|done]. destruct H as (b & e & a & _ & _ & H). by destruct (mem_entry _ _ _ _ _ H) as (-> & _).
  - intros n [E H]; cbn in *; subst m'. destruct H as (b & e & a & -> & -> & H). destruct (mem_entry _ _ _ _ _ H) as (_ & -> & ->). exists (internal_of e), (e_value e). split_and!; [|done|done].
    rewrite map_app, lookup_app_r by (by rewrite length_map). by rewrite length_map, Nat.sub_diag.
  - done.
  - intros p [E _]; cbn in E; subst m'. destruct (mem_SeekToFirst_ok m es Hm) as (it' & -> & H). cbn [rbind]. exists (m, it'). split; [done|]. by apply (mem_at_position m es it' [] es).
  - intros p [E _]; cbn in E; subst m'. destruct (mem_SeekToLast_ok m es Hm) as (it' & -> & [[-> H]|(b & e & -> & H)]); cbn [rbind]; exists (m, it'); (split; [done|]); [done|].
    split; [done|]. rewrite map_app. cbn [map]. rewrite last_position_snoc, length_map. by exists b, e, [].
  - intros p k [E _] [Hv Hs]; cbn in E; subst m'. destruct (mem_Seek_ok m es k Hm Hs Hv) as (it' & b & a & -> & -> & H & Hb & Ha). cbn [rbind]. exists (m, it'). split; [done|].
    rewrite map_app at 2. rewrite lower_bound_split by (by apply Forall_map). rewrite length_map. by apply (mem_at_position m (b ++ a) it' b a).
  - intros n [E H]; cbn in *; subst m'. destruct H as (b & e & a & -> & -> & H). destruct (mem_Next_ok _ _ _ _ _ H) as (it' & -> & H'). cbn [rbind]. exists (m, it'). split; [done|].
    rewrite <- (Nat.add_1_r (length b)). change 1%nat with (length [e]). rewrite <- length_app. apply (mem_at_position m _ it' (b ++ [e]) a); [by rewrite <- app_assoc|done].
  - intros n [E H]; cbn in *; subst m'. destruct H as (b & e & a & -> & -> & H). destruct (mem_Prev_ok _ _ _ _ _ H) as (it' & -> & H'). cbn [rbind]. exists (m, it'). split; [done|]. split; [done|]. destruct H' as [[-> Hv]|(b' & e' & -> & H')]; [done|].
    rewrite length_app, Nat.add_1_r. exists b', e', (e :: a). rewrite <- app_assoc. by split_and!.
Qed.

End Spec.

(** ** One iterator for several *)

Section AnyMerging.
Context {C : Type} {it : Iterator C} {comparator : Comparator} {valid : list Z -> Prop} {cmp : list Z -> list Z -> Z} {laws : ComparatorLaws comparator valid cmp}.

Lemma sorted_pairs (l : pairs) : StronglySorted (less cmp) (map fst l) -> StronglySorted (fun x y => cmp (fst x) (fst y) < 0) l.
Proof. induction l as [|x l IH]; cbn [map]; [constructor|]. intros [Hs Hl]%StronglySorted_inv. constructor; [by apply IH|]. by rewrite Forall_map in Hl. Qed.

Lemma sorted_pairs_unique (l1 l2 : pairs) : sorted valid cmp (map fst l1) -> sorted valid cmp (map fst l2) -> l1 ≡ₚ l2 -> l1 = l2.
Proof.
  intros [H1 V1] [H2 V2] Hp. apply sorted_pairs in H1, H2. rewrite Forall_map in V1, V2. eapply (StronglySorted_unique_strong _ l1 l2); [|exact H1|exact H2|done].
  intros x y Hx Hy Hxy Hyx. cbn in Hxy, Hyx. rewrite Forall_forall in V1, V2. pose proof (order_flip (cmp := cmp) (fst x) (fst y) (V1 x Hx) (V2 y Hy)). lia.
Qed.

Lemma any_merging_ok ks kvs cat children : (forall c kc, ks !! c = Some kc -> LawfulIterator it valid cmp kc (cat c)) -> sorted valid cmp (map fst kvs) -> kvs ≡ₚ concat ks ->
  Forall (fun kc => sorted valid cmp (map fst kc)) ks -> length children = length ks -> (forall c s, children !! c = Some s -> cat c s None) ->
  exists s at_, NewMergingIterator it children = Ret s /\ LawfulIterator (any_merging it comparator) valid cmp kvs at_ /\ at_ s None.
Proof.
  intros Hl Hs Hp Hks Hlen Hc. destruct children as [|c1 [|c2 children]].
  - destruct ks; [|done]. apply Permutation_nil_r in Hp as ->. eexists _, (at_left _). split_and!; [done|by apply left_lawful, empty_lawful|done].
  - destruct ks as [|k1 [|]]; try done. cbn [concat] in Hp. rewrite app_nil_r in Hp. apply Forall_cons in Hks as [Hk1 _]. rewrite (sorted_pairs_unique kvs k1 Hs Hk1 Hp).
    eexists _, (at_right (at_left (cat 0%nat))). split_and!; [done|by apply right_lawful, left_lawful, Hl|by apply (Hc 0%nat)].
  - destruct (new_merging_ok (it := it) ks kvs (lawful := Hl) (c1 :: c2 :: children) Hlen Hc) as (m & E & Hm).
    eexists _, (at_right (at_right _)). split_and!; [unfold NewMergingIterator; by rewrite E|by apply right_lawful, right_lawful, (merging_lawful (laws := laws) ks kvs (lawful := Hl))|exact Hm].
Qed.

End AnyMerging.

(** ** The iterator of a database *)

Section DbIterator.
Context {F V D : Type} {W : WritableFile F} {version_iterator : Iterator V}.
Context {user : Comparator} {valid : list Z -> Prop} {cmp : list Z -> list Z -> Z} {laws : ComparatorLaws user valid cmp}.

Abbreviation in_entries := (sorted (internal_valid valid) (internal_order cmp)).
Abbreviation key_fits := (key_fits (valid := valid)).
Abbreviation keys_sorted := (sorted key_fits (internal_order cmp)).

Lemma entry_keys es : map fst (map entry_pair es) = map internal_of es.
Proof. rewrite map_map. done. Qed.

Lemma internal_of_fits e : entry_ok (valid := valid) e -> key_fits (internal_of e).
Proof. intros He. pose proof (internal_of_slice e He) as Hs. destruct He as (Hv & _). split; [|done]. apply internal_valid_put; [done|by eapply laws_bytes]. Qed.

Lemma fits_sorted (P : list Z -> Prop) es : Forall (entry_ok (valid := valid)) es -> sorted P (internal_order cmp) (map internal_of es) -> keys_sorted (map internal_of es).
Proof. intros He [Hs _]. split; [done|]. apply Forall_map. eapply Forall_impl; [exact He|]. apply internal_of_fits. Qed.

Lemma table_keys m es : table_ok (valid := valid) (cmp := cmp) m es -> keys_sorted (map internal_of es).
Proof.
  intros Hm. pose proof (table_sorted m es Hm) as [Hs _]. destruct Hm as [_ He]. apply (fits_sorted (fun _ => True)); [done|]. split; [|by apply Forall_true].
  induction He as [|e es He Hes IH]; cbn [map] in *; [constructor|]. apply StronglySorted_inv in Hs as [Hs Hlt]. constructor; [by apply IH|]. rewrite Forall_map in Hlt |- *.
  apply Forall_forall. intros x Hx. rewrite Forall_forall in Hlt, Hes. specialize (Hlt x Hx). unfold less in *. by rewrite key_order_entries in Hlt by auto.
Qed.

(** An iterator over the entries of a table or of the tables of a level. *)
Record version_child := mk_child { vc_iter : V; vc_entries : list entry; vc_at : V -> option nat -> Prop }.

Definition child_ok (c : version_child) : Prop :=
  LawfulIterator version_iterator key_fits (internal_order cmp) (map entry_pair (vc_entries c)) (vc_at c) /\ vc_at c (vc_iter c) None /\ keys_sorted (map internal_of (vc_entries c)).

(** What the children of the merging iterator go through, and how. *)
Definition child_lists (db : DBImpl (F := F)) (imm_es es : list entry) (vs : list version_child) : list (list entry) :=
  es :: match imm_ db with Some _ => [imm_es] | None => [] end ++ map vc_entries vs.

Definition child_ats (db : DBImpl (F := F)) (imm_es es : list entry) (vs : list version_child) : list (MemTableIterator + V -> option nat -> Prop) :=
  at_left (mem_iterator_at (valid := valid) (cmp := cmp) (LdbDbWrite.mem_ db) es) ::
  match imm_ db with Some imm => [at_left (mem_iterator_at (valid := valid) (cmp := cmp) imm imm_es)] | None => [] end ++ map (fun c => at_right (vc_at c)) vs.

Definition child_fine (kc : list entry) (at_ : MemTableIterator + V -> option nat -> Prop) (s : MemTableIterator + V) : Prop :=
  LawfulIterator (child_iterator user version_iterator) key_fits (internal_order cmp) (map entry_pair kc) at_ /\ at_ s None /\ keys_sorted (map internal_of kc).

Lemma children_fine (db : DBImpl (F := F)) imm_es es q vs : memtables (valid := valid) (cmp := cmp) db imm_es es q -> Forall child_ok vs ->
  let list := inl (mem_NewIterator (LdbDbWrite.mem_ db)) :: match imm_ db with Some imm => [inl (mem_NewIterator imm)] | None => [] end ++ map inr (map vc_iter vs) in
  length list = length (child_lists db imm_es es vs) /\ length (child_ats db imm_es es vs) = length (child_lists db imm_es es vs) /\
  forall c kc at_ s, child_lists db imm_es es vs !! c = Some kc -> child_ats db imm_es es vs !! c = Some at_ -> list !! c = Some s -> child_fine kc at_ s.
Proof.
  intros ((Hm & _) & _ & _ & Himm) Hvs list. subst list. unfold child_lists, child_ats. split; [|split].
  - destruct (imm_ db); cbn; by rewrite !length_map.
  - destruct (imm_ db); cbn; by rewrite !length_map.
  - assert (forall m e, table_ok (valid := valid) (cmp := cmp) m e -> child_fine e (at_left (mem_iterator_at (valid := valid) (cmp := cmp) m e)) (inl (mem_NewIterator m))) as Hmem.
    { intros m e H. split; [by apply left_lawful, mem_lawful|]. split; [done|by eapply table_keys]. }
    assert (forall c kc at_ s, map vc_entries vs !! c = Some kc -> map (fun c => at_right (vc_at c)) vs !! c = Some at_ -> map inr (map vc_iter vs) !! c = Some s -> child_fine kc at_ s) as Hv.
    { intros c kc at_ s. rewrite map_map, !list_lookup_fmap. destruct (vs !! c) as [v|] eqn:E; [|done]. cbn. intros [= <-] [= <-] [= <-]. eapply Forall_lookup in Hvs as (H1 & H2 & H3); [|exact E]. split; [by apply right_lawful|by split]. }
    intros [|c] kc at_ s; cbn [lookup list_lookup]; [intros [= <-] [= <-] [= <-]; by apply Hmem|]. destruct (imm_ db) as [imm|]; [|apply Hv]. destruct Himm as ((Hi & _) & _).
    destruct c as [|c]; cbn; [intros [= <-] [= <-] [= <-]; by apply Hmem|apply Hv].
Qed.

Lemma Cleanup_ok (db : DBImpl (F := F)) imm_es es q : memtables (valid := valid) (cmp := cmp) db imm_es es q ->
  exists r, CleanupIteratorState (Ref (LdbDbWrite.mem_ db)) (option_map Ref (imm_ db)) = Ret r.
Proof.
  intros (_ & _ & Hr & Hi). unfold CleanupIteratorState. destruct (Unref_Ref _ Hr) as [r ->]. cbn [rbind]. destruct (imm_ db) as [imm|]; cbn [option_map]; [|by eexists].
  destruct Hi as [_ Hi]. destruct (Unref_Ref imm Hi) as [ri ->]. by eexists.
Qed.

(** The iterator of a database goes through what a snapshot sees of the entries of its
    memtables and of its tables: by default the snapshot of the last sequence number. *)
Lemma db_NewIterator_ok (RecordReadSample : D -> list Z -> D) fuel (db : DBImpl (F := F)) imm_es es q (vs : list version_child) all (d : D) snapshot seed_ :
  memtables (valid := valid) (cmp := cmp) db imm_es es q -> Forall child_ok vs -> Forall (entry_ok (valid := valid)) all -> in_entries (map internal_of all) ->
  all ≡ₚ concat (child_lists db imm_es es vs) -> is_sequence (default (last_sequence db) snapshot) -> (length all < fuel)%nat ->
  exists it seed db' at_, NewIterator user version_iterator db d snapshot seed_ (map vc_iter vs) = Ret (it, seed, db') /\
    LawfulIterator (db_iterator (internal_iterator user version_iterator) user RecordReadSample fuel) (user_fits (valid := valid)) cmp
      (snapshot_view (cmp := cmp) (default (last_sequence db) snapshot) all) at_ /\ at_ it None /\
    db' = with_refs db (Ref (LdbDbWrite.mem_ db)) (option_map Ref (imm_ db)) /\ exists r, CleanupIteratorState (LdbDbWrite.mem_ db') (imm_ db') = Ret r.
Proof.
  intros Hdb Hvs Hok Hs Hp Hseq Hf. destruct (children_fine db imm_es es q vs Hdb Hvs) as (Hlen & Hlen2 & Hc). set (list := inl _ :: _) in *. set (ks := child_lists db imm_es es vs) in *. set (ats := child_ats db imm_es es vs) in *.
  assert (forall c kc, ks !! c = Some kc -> exists at_ s, ats !! c = Some at_ /\ list !! c = Some s) as Hall.
  { intros c kc E. apply lookup_lt_Some in E. destruct (lookup_lt_is_Some_2 ats c) as [at_ Ea]; [lia|]. destruct (lookup_lt_is_Some_2 list c) as [s Es]; [lia|]. by exists at_, s. }
  destruct (any_merging_ok (it := child_iterator user version_iterator) (comparator := InternalKeyComparator user) (valid := key_fits) (cmp := internal_order cmp)
    (map (map entry_pair) ks) (map entry_pair all) (fun c => default (fun _ _ => False) (ats !! c)) list) as (s & at_ & E & Hl & Hat).
  - intros c kc Ec. apply list_lookup_fmap_Some in Ec as (k & -> & Ek). destruct (Hall c k Ek) as (a & s & Ea & Es). rewrite Ea. by destruct (Hc c k a s Ek Ea Es).
  - rewrite entry_keys. by eapply fits_sorted.
  - rewrite Hp, concat_map. done.
  - apply Forall_map, Forall_forall. intros kc (c & Ek)%list_elem_of_lookup. rewrite entry_keys. destruct (Hall c kc Ek) as (a & s & Ea & Es). by destruct (Hc c kc a s Ek Ea Es) as (_ & _ & ?).
  - by rewrite length_map.
  - intros c s Es. pose proof (lookup_lt_Some _ _ _ Es) as Hlt. destruct (lookup_lt_is_Some_2 ks c) as [kc Ek]; [lia|]. destruct (lookup_lt_is_Some_2 ats c) as [a Ea]; [lia|]. rewrite Ea. cbn. by destruct (Hc c kc a s Ek Ea Es) as (_ & ? & _).
  - pose proof (sorted_in_order _ all Hok Hs) as Ho. unfold NewIterator, NewInternalIterator. fold list. rewrite E. cbn [rbind]. do 3 eexists.
    exists (db_at (cmp := cmp) all (default (last_sequence db) snapshot) (iat := at_)). split; [done|]. split; [|split; [by eapply new_db_iter_ok|split; [done|by eapply Cleanup_ok]]].
    eapply (db_iterator_lawful all Hok Ho _ Hseq Hf (key_ok := key_fits)).
    + intros u Hu. by apply user_fits_key.
    + exact Hl.
Qed.

(** *** Agreement with [Get] *)

Lemma newest_perm u s l l' f : l ≡ₚ l' -> newest (cmp := cmp) u s l f -> newest (cmp := cmp) u s l' f.
Proof. intros Hp. destruct f as [e|]; cbn [newest]; [|by rewrite Hp]. intros (H1 & H2 & H3). rewrite <- Hp. split_and!; [done..|]. intros e'. rewrite <- Hp. apply H3. Qed.

(** The newest entry of a key is that of any equal key. *)
Lemma newest_same u u' s l f : valid u -> valid u' -> Forall (entry_ok (valid := valid)) l -> cmp u' u = 0 -> newest (cmp := cmp) u s l f -> newest (cmp := cmp) u' s l f.
Proof.
  intros Hu Hu' Hl Eu. assert (forall e, e ∈ l -> visible (cmp := cmp) u' s e = visible (cmp := cmp) u s e) as Hv.
  { intros e He. eapply Forall_forall in Hl; [|exact He]. destruct Hl as (Hve & _). unfold visible. f_equal. apply eq_true_iff_eq. rewrite !Z.eqb_eq.
    pose proof (order_eq_l (cmp := cmp) u' u (e_user e) Hu' Hu Hve Eu). pose proof (order_flip (cmp := cmp) u (e_user e) Hu Hve). pose proof (order_flip (cmp := cmp) u' (e_user e) Hu' Hve). lia. }
  destruct f as [e|]; cbn [newest].
  - intros (H1 & H2 & H3). split_and!; [done|by rewrite Hv|]. intros e' He'. rewrite Hv by done. by apply H3.
  - rewrite !Forall_forall. intros H e He. rewrite Hv by done. by apply H.
Qed.

(** There is one newest entry when the numbers differ. *)
Lemma newest_one u s l e e' : NoDup (map e_seq l) -> newest (cmp := cmp) u s l (Some e) -> newest (cmp := cmp) u s l (Some e') -> e = e'.
Proof.
  intros Hnd (H1 & H2 & H3) (H1' & H2' & H3'). specialize (H3 e' H1' H2'). specialize (H3' e H1 H2). assert (e_seq e = e_seq e') as E by lia. clear - Hnd H1 H1' E.
  induction l as [|x l IH]; [by apply not_elem_of_nil in H1|]. cbn [map] in Hnd. apply NoDup_cons in Hnd as [Hx Hnd]. assert (forall y, y ∈ l -> e_seq y = e_seq x -> False) as Hno.
  { intros y Hy Ey. apply Hx. rewrite <- Ey. by apply list_elem_of_fmap_2. }
  apply elem_of_cons in H1 as [->|H1], H1' as [->|H1']; [done|by destruct (Hno e' H1')|by destruct (Hno e H1)|by apply IH].
Qed.

(** A key is in the view with its value when its newest entry is a value. *)
Lemma view_newest s all u f : in_order (valid := valid) (cmp := cmp) all -> Forall (entry_ok (valid := valid)) all -> NoDup (map e_seq all) -> valid u -> newest (cmp := cmp) u s all f ->
  forall v, (exists u', cmp u' u = 0 /\ (u', v) ∈ snapshot_view (cmp := cmp) s all) <-> exists e, f = Some e /\ e_type e = kTypeValue /\ e_value e = v.
Proof.
  intros Ho Hok Hnd Hu Hf v. assert (forall e, e ∈ all -> valid (e_user e)) as Hve by (intros e He; eapply Forall_forall in Hok; [apply Hok|done]). split.
  - intros (u' & Eu & (e & Hn & Ht & [= -> ->])%(view_spec all Ho s)). pose proof (Hve e (proj1 Hn)) as He. assert (cmp u (e_user e) = 0) as Eu' by (pose proof (order_flip (cmp := cmp) _ _ He Hu); lia).
    apply (newest_same _ u) in Hn; [|done..]. destruct f as [e'|].
    + exists e. by rewrite (newest_one u s all e' e Hnd Hf Hn).
    + destruct Hn as (Hin & Hvis & _). cbn in Hf. eapply Forall_forall in Hf; [|exact Hin]. cbn in Hf. congruence.
  - intros (e & -> & Ht & <-). pose proof Hf as (Hin & Hvis & _). pose proof (Hve e Hin) as He. unfold visible in Hvis. apply andb_prop in Hvis as [Eu%Z.eqb_eq _].
    exists (e_user e). split; [done|]. apply (view_spec all Ho s). exists e. split; [|done]. by apply (newest_same u).
Qed.

Lemma memtable_numbers (db : DBImpl (F := F)) imm_es es q : memtables (valid := valid) (cmp := cmp) db imm_es es q -> Forall (entry_ok (valid := valid)) (es ++ imm_es) /\ NoDup (map e_seq (es ++ imm_es)).
Proof.
  intros (([_ Hok] & Hnd & _) & Hge & _ & Himm). assert (Forall (entry_ok (valid := valid)) imm_es /\ NoDup (map e_seq imm_es) /\ Forall (fun e => e_seq e < q) imm_es) as (Hoki & Hndi & Hlt).
  { destruct (imm_ db); [by destruct Himm as (([_ ?] & ? & ?) & _)|]. subst. split_and!; constructor. }
  split; [by apply Forall_app|]. rewrite map_app. apply NoDup_app. split_and!; [done| |done]. intros n (e & -> & He)%list_elem_of_fmap (e' & E & He')%list_elem_of_fmap.
  rewrite Forall_forall in Hge, Hlt. specialize (Hge e He). specialize (Hlt e' He'). lia.
Qed.

(** ** Theorems *)

(** C11. A database iterator goes through what a snapshot sees of the entries of the
    memtables and of the tables of the database: by default the snapshot of the last
    sequence number.  The memtables get a reference, which is given back. *)
Theorem new_iterator_correct (RecordReadSample : D -> list Z -> D) fuel (db : DBImpl (F := F)) imm_es es q (vs : list version_child) all (d : D) snapshot seed_ :
  memtables (valid := valid) (cmp := cmp) db imm_es es q -> Forall child_ok vs -> Forall (entry_ok (valid := valid)) all -> in_entries (map internal_of all) ->
  all ≡ₚ concat (child_lists db imm_es es vs) -> is_sequence (default (last_sequence db) snapshot) -> (length all < fuel)%nat ->
  exists it seed db' at_, NewIterator user version_iterator db d snapshot seed_ (map vc_iter vs) = Ret (it, seed, db') /\
    LawfulIterator (db_iterator (internal_iterator user version_iterator) user RecordReadSample fuel) (user_fits (valid := valid)) cmp
      (snapshot_view (cmp := cmp) (default (last_sequence db) snapshot) all) at_ /\ at_ it None /\
    db' = with_refs db (Ref (LdbDbWrite.mem_ db)) (option_map Ref (imm_ db)) /\ exists r, CleanupIteratorState (LdbDbWrite.mem_ db') (imm_ db') = Ret r.
Proof. apply db_NewIterator_ok. Qed.

(** When no table was written yet, [Get] finds what the iterator of the same snapshot
    shows: it answers with a value when there is a pair with the key and this value,
    and otherwise that there is none. *)
Theorem get_agrees_with_iterator (db : DBImpl (F := F)) imm_es es q all snapshot u k current :
  memtables (valid := valid) (cmp := cmp) db imm_es es q -> in_entries (map internal_of all) -> all ≡ₚ concat (child_lists db imm_es es []) ->
  valid u -> zlen u + 13 < 2 ^ 32 -> is_sequence (default (last_sequence db) snapshot) -> new_lookup_key u (default (last_sequence db) snapshot) = Ret k ->
  current k [] status_ok = Ret (NotFound [] [], []) ->
  exists st value, DbGet user db snapshot current u [] = Ret (st, value) /\
    if is_ok st then exists u', cmp u' u = 0 /\ (u', value) ∈ snapshot_view (cmp := cmp) (default (last_sequence db) snapshot) all
    else forall u' v, (u', v) ∈ snapshot_view (cmp := cmp) (default (last_sequence db) snapshot) all -> cmp u' u <> 0.
Proof.
  intros Hdb Hs Hp Hu Hl Hseq Hk Hcur. destruct (DbGet_ok db imm_es es q snapshot u current k [] Hdb Hu Hl Hseq Hk) as (f & Hn & ->).
  assert (all ≡ₚ es ++ imm_es) as Hp'. { rewrite Hp. unfold child_lists. destruct Hdb as (_ & _ & _ & Himm). destruct (imm_ db); cbn; rewrite ?app_nil_r; [done|]. subst. by rewrite app_nil_r. }
  destruct (memtable_numbers db imm_es es q Hdb) as [Hok Hnd]. rewrite <- Hp' in Hok, Hnd. pose proof (sorted_in_order _ all Hok Hs) as Ho.
  apply (newest_perm _ _ _ all) in Hn; [|by rewrite Hp', Permutation_app_comm]. pose proof (view_newest _ all u f Ho Hok Hnd Hu Hn) as Hview.
  assert ((forall e, f = Some e -> e_type e <> kTypeValue) -> forall u' v, (u', v) ∈ snapshot_view (cmp := cmp) (default (last_sequence db) snapshot) all -> cmp u' u <> 0) as Hnone.
  { intros H u' v Hin Eu. destruct (proj1 (Hview v)) as (e & Ef & Ht & _); [by exists u'|]. by apply (H e). }
  destruct f as [e|]; cbn [answer].
  - destruct (Z.eqb_spec (e_type e) kTypeValue) as [Et|Et].
    + do 2 eexists. split; [done|]. cbn [is_ok status_ok]. apply Hview. by exists e.
    + do 2 eexists. split; [done|]. cbn. apply Hnone. by intros e' [= <-].
  - rewrite Hcur. do 2 eexists. split; [done|]. cbn. by apply Hnone.
Qed.

End DbIterator.
