(* ===== verification/LdbDbWitnesses.v ===== *)
(** * LevelDB: concrete instances for writes, recovery and the iterators of a database

    A database on an in-memory disk, with a log file and an empty memtable, that
    writes one batch and crashes; tables are the lists of their entries.  Iterators over
    lists and memtables. *)
From S2P Require Import Prelude LdbCoding LdbCrc32c LdbStatus LdbEnvPosix LdbLogWriter LdbLogReader LdbLog LdbOrder LdbKeys LdbArena LdbSkipList.
From S2P Require Import LdbSkipListSpec LdbMemTable LdbWriteBatch LdbWitnesses LdbMemWitnesses LdbDbWrite LdbRecovery LdbIterator LdbMerger LdbDbIter LdbDbIterSpec.
From S2P Require Import LdbNewIterator.
From Stdlib Require Import ZArith Lia.
From stdpp Require Import base tactics numbers list strings.
#[local] Open Scope Z_scope.

(** ** Tables as lists *)

(** The entries a memtable iterator goes through, at most [fuel] of them. *)
Fixpoint scan (fuel : nat) (m : MemTable) (it : Z) : option (list entry) :=
  match fuel with
  | O => None
  | S fuel =>
      if mem_Valid it then
        match mem_key m it, mem_value m it, mem_Next m it with
        | Ret k, Ret v, Ret it' =>
            let (_, p) := ParseInternalKey k (mk_parsed [] 0 0) in
            option_map (cons (mk_entry (user_key p) (sequence p) (key_type p) v)) (scan fuel m it')
        | _, _, _ => None
        end
      else Some []
  end.

(** A table of at most 99 entries. *)
Definition copy_table (m : MemTable) (tables : list (list entry)) : res (Status * list (list entry)) :=
  match mem_SeekToFirst m with
  | Ret it =>
      match scan 100 m it with
      | Some es => Ret (status_ok, tables ++ [es])
      | None => Ret (IOError (bytes_of "table") [], tables)
      end
  | _ => Ret (IOError (bytes_of "table") [], tables)
  end.

Lemma scan_ok fuel m : forall it before after es,
  mem_at (valid := Forall is_byte) (cmp := slice_compare) m it before after -> scan fuel m it = Some es -> es = after.
Proof.
  induction fuel as [|fuel IH]; intros it before after es Hit; [done|]. cbn [scan].
  destruct after as [|e after].
  - destruct Hit as [Hit _]. destruct (iter_key_ok _ _ _ _ Hit) as [Hv _]. unfold mem_Valid. rewrite Hv. by intros [= <-].
  - destruct (mem_entry _ _ _ _ _ Hit) as (-> & -> & ->). destruct (mem_Next_ok _ _ _ _ _ Hit) as (it' & -> & Hit').
    assert (entry_ok (valid := Forall is_byte) e) as (_ & Hs & Ht & _).
    { destruct Hit as [_ Hok]. apply Forall_app in Hok as [_ [? _]%Forall_cons]. done. }
    unfold internal_of. rewrite ParseInternalKey_put by done. cbn [user_key sequence key_type].
    destruct (scan fuel m it') as [es'|] eqn:E; [|done]. cbn [option_map]. intros [= <-].
    rewrite (IH _ _ _ _ Hit' E). by destruct e.
Qed.

#[local] Instance copy_level0 : Level0 copy_table (fun tables => tables) (Forall is_byte) slice_compare.
Proof.
  split. intros m es tables Hm. unfold copy_table. destruct (mem_SeekToFirst_ok m es Hm) as (it & -> & Hit).
  destruct (scan 100 m it) as [es'|] eqn:E; [|by do 2 eexists]. rewrite (scan_ok 100 m it [] es es' Hit E).
  do 2 eexists. split; [done|]. intros _. by left.
Qed.

(** ** The database *)

#[local] Instance crc_0 : Checksum (Value_at 0) (Extend_at 0) := crc32c_checksum (fun _ => 0) at_0.
#[local] Instance disk_fail_stop :
  FailStop (mem_os * PosixWritableFile) (posix_usable (fd := 3)) (posix_written (contents := disk) (broken := full))
    (posix_delivered (contents := disk)) (posix_failed (broken := full)) posix_dirty :=
  posix_fail_stop (AO := mem_append_only 3).
#[local] Instance disk_sync :
  HarmlessSync (mem_os * PosixWritableFile) (posix_usable (fd := 3)) (posix_written (contents := disk) (broken := full))
    (posix_delivered (contents := disk)) (posix_failed (broken := full)) := posix_harmless_sync.

Definition log_disk : mem_os := mk_os [] 1000 false [] 0.
Definition log_file : mem_os * PosixWritableFile := (log_disk, new_writable (bytes_of "/db/000003.log") 3).

Definition db0 : DBImpl (F := mem_os * PosixWritableFile) :=
  mk_db (new_writer (Value_at 0) log_file) (Ref mem0) None Clear 0 status_ok.

Abbreviation db_healthy := (healthy (Value := Value_at 0) (usable := posix_usable (fd := 3))
  (written := posix_written (contents := disk) (broken := full)) (delivered := posix_delivered (contents := disk))
  (failed := posix_failed (broken := full)) (valid := Forall is_byte) (cmp := slice_compare)).
Abbreviation db_left := (log_left (Value := Value_at 0) (delivered := posix_delivered (contents := disk))).
Abbreviation db_numbered := (numbered (valid := Forall is_byte) (cmp := slice_compare)).

Lemma ref_ok m es : mem_ok m es -> mem_ok (Ref m) es.
Proof. done. Qed.

Lemma db0_healthy : db_healthy db0 1 [].
Proof.
  split.
  - split; [split; [cbn; unfold kBlockSize; lia|done]|]. split; [vm_compute; repeat split; discriminate|]. split; [done|].
    assert (posix_written (contents := disk) (broken := full) log_file = []) as Ew by (vm_compute; reflexivity).
    split; [cbn [log_ db0 new_writer dest_]; by rewrite Ew|]. exists []. split; [constructor|].
    cbn [log_ db0 new_writer dest_ block_offset_]. rewrite Ew. constructor.
  - split; [split; [exact (ref_ok _ _ mem0_ok)|split; constructor]|]. split; [done|]. split; [lia|reflexivity].
Qed.

(** Two writers: the first wants two operations, the second none; a third wants a sync. *)
Definition queue : list Waiter := [mk_waiter None false; mk_waiter (Some two_batch) true].
Definition first_waiter : Waiter := mk_waiter (Some two_batch) false.

Lemma queue_wants : Forall2 wants queue [[]; two_ops].
Proof. constructor; [done|]. constructor; [|constructor]. split; [exists 7; exact two_holds|by vm_compute]. Qed.

Lemma two_fits : Forall (op_fits (valid := Forall is_byte)) (two_ops ++ concat [[]; two_ops]).
Proof. concrete. Qed.

Lemma two_small : last_sequence db0 + zlen (two_ops ++ concat [[]; two_ops]) <= kMaxSequenceNumber.
Proof. by vm_compute. Qed.

Lemma two_length : zlen two_batch < 2 ^ 62.
Proof. by vm_compute. Qed.

Lemma write_group_witness :
  exists status m b' db', Write (Extend_at 0) BytewiseComparator next_block 16 db0 status_ok (first_waiter :: queue) = Ret (status, S m, b', db') /\
    (m <= 2)%nat /\ Forall (fun w' => sync w' = true -> false = true) (firstn m queue) /\
    let ops := group_ops two_ops [[]; two_ops] m in
    match status with
    | None => db_left (log_ db') 1 [ops] 1
    | Some s =>
        last_sequence db' = 0 + zlen ops /\ imm_ db' = None /\
        if is_ok s then db_healthy db' 1 [ops] /\ bg_error_ db' = status_ok
        else
          LdbDbWrite.mem_ db' = Ref mem0 /\ db_left (log_ db') 1 [ops] 0 /\
          (posix_failed (broken := full) (dest_ (log_ db')) = true /\ bg_error_ db' = status_ok \/
           false = true /\ bg_error_ db' = if is_ok status_ok then s else status_ok)
    end.
Proof.
  exact (write_group (HS := disk_sync) (new_array := next_block) (sizeof_Node := 16) ltac:(lia) db0 1 [] first_waiter queue two_batch 7 two_ops
    [[]; two_ops] db0_healthy eq_refl two_holds two_length queue_wants two_small two_fits).
Defined.

(** A database that read "a" from its memtable. *)
Definition db1 : DBImpl (F := mem_os * PosixWritableFile) :=
  mk_db (new_writer (Value_at 0) log_file) (Ref mem1) None Clear 6 status_ok.

Lemma db1_memtables : memtables (valid := Forall is_byte) (cmp := slice_compare) db1 [] [entry1] 1.
Proof.
  split; [split; [exact (ref_ok _ _ mem1_ok)|apply mem1_numbered]|]. split; [by repeat constructor|].
  split; [|reflexivity]. apply Z.leb_le. vm_compute. reflexivity.
Qed.

Definition no_tables (k : LookupKey) (value : list Z) (s : Status) : res (Status * list Z) := Ret (NotFound [] [], value).

Lemma get_memtables_witness :
  let k := mk_lookup (9 :: 97 :: EncodeFixed64 (5 * 256 + 1)) 1 in
  exists found, newest (cmp := slice_compare) [97] 5 ([] ++ [entry1]) found /\
    DbGet BytewiseComparator db1 (Some 5) no_tables [97] [] =
    match found with
    | Some _ => let '(_, value, st) := answer found [] status_ok in Ret (st, value)
    | None => no_tables k [] status_ok
    end.
Proof.
  apply (get_memtables db1 [] [entry1] 1 (Some 5) [97] no_tables (mk_lookup (9 :: 97 :: EncodeFixed64 (5 * 256 + 1)) 1) [] db1_memtables).
  - concrete.
  - by vm_compute.
  - vm_compute. by split.
  - exact key_a.
Defined.

(** ** The crash *)

(** What the log file holds after the write, and its reader. *)
Definition crashed_disk : list Z :=
  match Write (Extend_at 0) BytewiseComparator next_block 16 db0 status_ok (first_waiter :: queue) with
  | Ret (_, _, _, db) => disk (fst (dest_ (log_ db)))
  | _ => []
  end.

Definition crashed_os : mem_os := mk_os [] 0 false crashed_disk 1.
Definition crashed_file : PosixSequentialFile := mk_sequential 4 (bytes_of "/db/000003.log").

#[local] Instance crashed_reader : LawfulSequential mem_os (S := posix_sequential_file crashed_file) input :=
  posix_lawful_sequential crashed_file (RO := mem_read_only 4).

Definition plain_options : Options := mk_options false 1000000 false.

Lemma durability_witness :
  exists status m b' db' r,
    Write (Extend_at 0) BytewiseComparator next_block 16 db0 status_ok (first_waiter :: queue) = Ret (status, S m, b', db') /\
    RecoverLogFile (SF := posix_sequential_file crashed_file) (F := mem_os * PosixWritableFile)
      (Value_at 0) BytewiseComparator next_block 16 copy_table plain_options 2 (S (length crashed_disk)) (inr crashed_os) None true false [] 0 = Ret r /\
    match r with
    | Some r => is_ok (recovered_status r) = true ->
        exists k tabs es, let kept := firstn k ([] ++ [group_ops two_ops [[]; two_ops] m]) in
          (0 <= k)%nat /\ (default false (option_map is_ok status) = true -> kept = [] ++ [group_ops two_ops [[]; two_ops] m]) /\
          recovered_edit r = [] ++ tabs /\
          match reused r with
          | Some (log, m) => db_numbered m es (1 + zlen (concat kept)) /\
              exists f size, None = Some (f, size) /\ log = reopen_writer (Value_at 0) f size
          | None => es = []
          end /\
          concat tabs ++ es ≡ₚ entries_of 1 (concat kept) /\ reads_as (cmp := slice_compare) (concat tabs ++ es) 1 (concat kept)
    | None => True
    end.
Proof.
  refine (durability (HS := disk_sync) (LS := crashed_reader) (new_array := next_block) (sizeof_Node := 16) ltac:(lia)
    (L0 := copy_level0) plain_options db0 1 [] first_waiter queue two_batch 7 two_ops
    [[]; two_ops] crashed_os 2 (S (length crashed_disk)) None true false [] 0
    db0_healthy eq_refl two_holds two_length queue_wants two_small two_fits _ ltac:(cbn; lia)).
  intros status m b' db' E. assert (crashed_disk = disk (fst (dest_ (log_ db')))) as Ed by (unfold crashed_disk; by rewrite E).
  split; [exact Ed|]. exact (Nat.lt_succ_diag_r (length crashed_disk)).
Defined.

(** What this recovery gives: the group in one table. *)
Example recovered_group :
  match RecoverLogFile (SF := posix_sequential_file crashed_file) (F := mem_os * PosixWritableFile)
      (Value_at 0) BytewiseComparator next_block 16 copy_table plain_options 2 (S (length crashed_disk)) (inr crashed_os) None true false [] 0 with
  | Ret (Some r) => recovered_edit r = [[entry_of 1 (OpPut [97] [121]); entry_of 2 (OpDelete [98])]] /\ recovered_max_sequence r = 2
  | _ => False
  end.
Proof. vm_compute. by split. Qed.

Definition entry_b : entry := mk_entry [98] 2 kTypeValue [121].
Definition entry_gone : entry := mk_entry [97] 3 kTypeDeletion [].

Definition mem_b : MemTable :=
  match LdbMemTable.Add BytewiseComparator next_block 16 mem0 2 kTypeValue [98] [121] with Ret (_, m) => m | _ => mem0 end.
Definition mem_two : MemTable :=
  match LdbMemTable.Add BytewiseComparator next_block 16 mem_b 3 kTypeDeletion [97] [] with Ret (_, m) => m | _ => mem0 end.

Lemma mem_b_ok : mem_ok mem_b [entry_b].
Proof.
  destruct (Add_ok (new_array := next_block) (sizeof_Node := 16) ltac:(lia) mem0 [] entry_b mem0_ok) as (b & m & E & H & _); [concrete|constructor|].
  assert (LdbMemTable.Add BytewiseComparator next_block 16 mem0 2 kTypeValue [98] [121] = Ret (true, mem_b)) as E1 by (vm_compute; reflexivity).
  cbn [entry_b e_seq e_type e_user e_value] in E. rewrite E in E1. assert (b = true /\ m = mem_b) as [-> ->] by (split; congruence). exact H.
Qed.

Lemma mem_two_ok : mem_ok mem_two [entry_gone; entry_b].
Proof.
  destruct (Add_ok (new_array := next_block) (sizeof_Node := 16) ltac:(lia) mem_b [entry_b] entry_gone mem_b_ok) as (b & m & E & H & _); [concrete| |].
  { constructor; [|constructor]. vm_compute. intros (? & ? & ?). discriminate. }
  assert (LdbMemTable.Add BytewiseComparator next_block 16 mem_b 3 kTypeDeletion [97] [] = Ret (true, mem_two)) as E1 by (vm_compute; reflexivity).
  cbn [entry_gone e_seq e_type e_user e_value] in E. rewrite E in E1. assert (b = true /\ m = mem_two) as [-> ->] by (split; congruence).
  assert (insert_sorted (entry_order (cmp := slice_compare)) entry_gone [entry_b] = [entry_gone; entry_b]) as <- by (vm_compute; reflexivity). exact H.
Qed.

Lemma mem_two_entries : Forall (entry_ok (valid := Forall is_byte)) [entry_gone; entry_b].
Proof. exact (proj2 mem_two_ok). Qed.

Lemma mem_two_sorted : sorted (internal_valid (Forall is_byte)) (internal_order slice_compare) (map internal_of [entry_gone; entry_b]).
Proof.
  destruct (table_keys mem_two _ mem_two_ok) as [Hs Hv]. split; [done|]. eapply Forall_impl; [exact Hv|]. by intros k [? _].
Qed.

Lemma sequence_2 : is_sequence 2.
Proof. split; vm_compute; congruence. Qed.

Definition no_sampling (db : unit) (k : list Z) : unit := db.

Abbreviation two_view := (snapshot_view (cmp := slice_compare) 2 [entry_gone; entry_b]).

Lemma db_iterator_correct_witness :
  exists at_ : DBIter MemTableIterator unit -> option nat -> Prop,
    LawfulIterator (db_iterator (mem_iterator BytewiseComparator) BytewiseComparator no_sampling 3) (user_fits (valid := Forall is_byte)) slice_compare two_view at_ /\
    at_ (new_db_iter tt (mem_NewIterator mem_two) 2 5) None /\ two_view = [([98], [121])].
Proof.
  destruct (db_iterator_correct (it := mem_iterator BytewiseComparator) no_sampling 3 [entry_gone; entry_b] 2 _ (user_fits (valid := Forall is_byte))
    _ tt (mem_NewIterator mem_two) None 5 mem_two_entries mem_two_sorted sequence_2 ltac:(cbn; lia) (user_fits_key 2) (mem_lawful mem_two [entry_gone; entry_b] mem_two_ok) ltac:(by split)) as (H1 & H2 & _).
  exists (db_at (cmp := slice_compare) [entry_gone; entry_b] 2 (iat := mem_iterator_at (valid := Forall is_byte) (cmp := slice_compare) mem_two [entry_gone; entry_b])).
  split; [exact H1|]. split; [exact H2|]. vm_compute. reflexivity.
Defined.

(** ** The database *)

Definition db2 : DBImpl (F := mem_os * PosixWritableFile) :=
  mk_db (new_writer (Value_at 0) log_file) (Ref mem_two) (Some (Ref mem1)) Clear 3 status_ok.

Lemma db2_memtables : memtables (valid := Forall is_byte) (cmp := slice_compare) db2 [entry1] [entry_gone; entry_b] 2.
Proof.
  split; [split; [exact (ref_ok _ _ mem_two_ok)|split; [|by repeat constructor]]|].
  { apply NoDup_cons. split; [|apply NoDup_singleton]. by intros ?%list_elem_of_singleton. }
  split; [by repeat constructor|]. split; [apply Z.leb_le; vm_compute; reflexivity|]. split; [|apply Z.leb_le; vm_compute; reflexivity].
  split; [exact (ref_ok _ _ mem1_ok)|]. split; [apply NoDup_singleton|by repeat constructor].
Qed.

Definition all_entries : list entry := [entry_gone; entry1; entry_b].

Lemma all_entries_ok : Forall (entry_ok (valid := Forall is_byte)) all_entries.
Proof. pose proof (proj2 mem_two_ok) as H. apply Forall_cons in H as [H1 H2]. constructor; [done|]. constructor; [exact entry1_ok|done]. Qed.

Lemma all_entries_sorted : sorted (internal_valid (Forall is_byte)) (internal_order slice_compare) (map internal_of all_entries).
Proof.
  split; [|apply Forall_map; eapply Forall_impl; [exact all_entries_ok|]; intros e He; by apply internal_of_fits].
  unfold all_entries. cbn [map]. repeat constructor; vm_compute; reflexivity.
Qed.

Lemma all_entries_perm : all_entries ≡ₚ concat (child_lists (V := Status) db2 [entry1] [entry_gone; entry_b] []).
Proof. apply perm_skip, perm_swap. Qed.

(** At number 3 "a" is deleted, at number 1 only "a" is there. *)
Lemma new_iterator_correct_witness :
  exists it seed db' at_, NewIterator BytewiseComparator EmptyIterator db2 tt (Some 1) 7 [] = Ret (it, seed, db') /\
    LawfulIterator (db_iterator (internal_iterator BytewiseComparator EmptyIterator) BytewiseComparator no_sampling 4) (user_fits (valid := Forall is_byte)) slice_compare
      (snapshot_view (cmp := slice_compare) 1 all_entries) at_ /\ at_ it None /\
    db' = with_refs db2 (Ref (Ref mem_two)) (Some (Ref (Ref mem1))) /\ exists r, CleanupIteratorState (LdbDbWrite.mem_ db') (imm_ db') = Ret r.
Proof.
  exact (new_iterator_correct (version_iterator := EmptyIterator) no_sampling 4 db2 [entry1] [entry_gone; entry_b] 2 [] all_entries tt (Some 1) 7 db2_memtables (Forall_nil_2 _) all_entries_ok all_entries_sorted
    all_entries_perm ltac:(split; vm_compute; congruence) ltac:(cbn; lia)).
Defined.

Example db2_views : snapshot_view (cmp := slice_compare) 1 all_entries = [([97], [120])] /\ snapshot_view (cmp := slice_compare) 2 all_entries = [([97], [120]); ([98], [121])] /\
  snapshot_view (cmp := slice_compare) 3 all_entries = [([98], [121])].
Proof. vm_compute. by split_and!. Qed.

Lemma get_agrees_with_iterator_witness :
  exists st value, DbGet BytewiseComparator db2 (Some 2) no_tables [97] [] = Ret (st, value) /\
    if is_ok st then exists u', slice_compare u' [97] = 0 /\ (u', value) ∈ snapshot_view (cmp := slice_compare) 2 all_entries
    else forall u' v, (u', v) ∈ snapshot_view (cmp := slice_compare) 2 all_entries -> slice_compare u' [97] <> 0.
Proof.
  apply (get_agrees_with_iterator (V := Status) db2 [entry1] [entry_gone; entry_b] 2 all_entries (Some 2) [97] (mk_lookup (9 :: 97 :: EncodeFixed64 (2 * 256 + 1)) 1) no_tables db2_memtables all_entries_sorted all_entries_perm).
  - concrete.
  - by vm_compute.
  - split; vm_compute; congruence.
  - vm_compute. reflexivity.
  - reflexivity.
Defined.
