(* ===== verification/LdbVersionEdit.v ===== *)
(** * LevelDB: version edits (db/version_edit.h, db/version_edit.cc)

    The records of a manifest: which files were added to and removed from a
    version, and the numbers and compaction pointers that go with them.  Encoding an
    edit and decoding it gives the edit back; decoding ends on any input. *)
From S2P Require Import Prelude.
From S2P Require Import WireSpec LdbCoding LdbStatus LdbOrder LdbKeys.
From Stdlib Require Import ZArith Lia.
From stdpp Require Import base tactics numbers list strings sorting.
#[local] Open Scope Z_scope.

(** ** Definitions *)

Definition kNumLevels : Z := 7.

Definition kComparator : Z := 1.
Definition kLogNumber : Z := 2.
Definition kNextFileNumber : Z := 3.
Definition kLastSequence : Z := 4.
Definition kCompactPointer : Z := 5.
Definition kDeletedFile : Z := 6.
Definition kNewFile : Z := 7.
Definition kPrevLogNumber : Z := 9.

Record FileMetaData := mk_file {
  refs : Z;
  allowed_seeks : Z;
  number : Z;
  file_size : Z;
  smallest : InternalKey;
  largest : InternalKey;
}.

(** [refs(0), allowed_seeks(1 << 30)] *)
Definition new_file (number file_size : Z) (smallest largest : InternalKey) : FileMetaData :=
  mk_file 0 (Z.shiftl 1 30) number file_size smallest largest.

(** [std::set<std::pair<int, uint64_t>>]: its elements in order. *)
Definition DeletedFileSet : Type := list (Z * Z).

Definition pair_less (a b : Z * Z) : bool := (fst a <? fst b) || ((fst a =? fst b) && (snd a <? snd b)).

Fixpoint set_insert (x : Z * Z) (l : DeletedFileSet) : DeletedFileSet :=
  match l with
  | [] => [x]
  | y :: l' => if pair_less x y then x :: l else if pair_less y x then y :: set_insert x l' else l
  end.

Record VersionEdit := mk_edit {
  comparator_ : list Z;
  log_number_ : Z;
  prev_log_number_ : Z;
  next_file_number_ : Z;
  last_sequence_ : Z;
  has_comparator_ : bool;
  has_log_number_ : bool;
  has_prev_log_number_ : bool;
  has_next_file_number_ : bool;
  has_last_sequence_ : bool;
  compact_pointers_ : list (Z * InternalKey);
  deleted_files_ : DeletedFileSet;
  new_files_ : list (Z * FileMetaData);
}.

(** [compact_pointers_] is left as it is. *)
Definition edit_Clear (e : VersionEdit) : VersionEdit :=
  mk_edit [] 0 0 0 0 false false false false false (compact_pointers_ e) [] [].

(** The members that [Clear] sets are set by it. *)
Definition new_edit : VersionEdit := mk_edit [] 0 0 0 0 false false false false false [] [] [].

Definition SetComparatorName (e : VersionEdit) (name : list Z) : VersionEdit :=
  mk_edit name (log_number_ e) (prev_log_number_ e) (next_file_number_ e) (last_sequence_ e)
    true (has_log_number_ e) (has_prev_log_number_ e) (has_next_file_number_ e) (has_last_sequence_ e) (compact_pointers_ e) (deleted_files_ e) (new_files_ e).
Definition SetLogNumber (e : VersionEdit) (num : Z) : VersionEdit :=
  mk_edit (comparator_ e) num (prev_log_number_ e) (next_file_number_ e) (last_sequence_ e)
    (has_comparator_ e) true (has_prev_log_number_ e) (has_next_file_number_ e) (has_last_sequence_ e) (compact_pointers_ e) (deleted_files_ e) (new_files_ e).
Definition SetPrevLogNumber (e : VersionEdit) (num : Z) : VersionEdit :=
  mk_edit (comparator_ e) (log_number_ e) num (next_file_number_ e) (last_sequence_ e)
    (has_comparator_ e) (has_log_number_ e) true (has_next_file_number_ e) (has_last_sequence_ e) (compact_pointers_ e) (deleted_files_ e) (new_files_ e).
Definition SetNextFile (e : VersionEdit) (num : Z) : VersionEdit :=
  mk_edit (comparator_ e) (log_number_ e) (prev_log_number_ e) num (last_sequence_ e)
    (has_comparator_ e) (has_log_number_ e) (has_prev_log_number_ e) true (has_last_sequence_ e) (compact_pointers_ e) (deleted_files_ e) (new_files_ e).
Definition SetLastSequence (e : VersionEdit) (seq : Z) : VersionEdit :=
  mk_edit (comparator_ e) (log_number_ e) (prev_log_number_ e) (next_file_number_ e) seq
    (has_comparator_ e) (has_log_number_ e) (has_prev_log_number_ e) (has_next_file_number_ e) true (compact_pointers_ e) (deleted_files_ e) (new_files_ e).

Definition with_lists (e : VersionEdit) (cps : list (Z * InternalKey)) (dels : DeletedFileSet) (news : list (Z * FileMetaData)) : VersionEdit :=
  mk_edit (comparator_ e) (log_number_ e) (prev_log_number_ e) (next_file_number_ e) (last_sequence_ e)
    (has_comparator_ e) (has_log_number_ e) (has_prev_log_number_ e) (has_next_file_number_ e) (has_last_sequence_ e) cps dels news.
Definition SetCompactPointer (e : VersionEdit) (level : Z) (key : InternalKey) : VersionEdit :=
  with_lists e (compact_pointers_ e ++ [(level, key)]) (deleted_files_ e) (new_files_ e).
Definition AddFile (e : VersionEdit) (level file file_size : Z) (smallest largest : InternalKey) : VersionEdit :=
  with_lists e (compact_pointers_ e) (deleted_files_ e) (new_files_ e ++ [(level, new_file file file_size smallest largest)]).
Definition DeleteFile (e : VersionEdit) (level file : Z) : VersionEdit :=
  with_lists e (compact_pointers_ e) (set_insert (level, file) (deleted_files_ e)) (new_files_ e).

(** *** EncodeTo *)

Definition put_number (has : bool) (tag num : Z) (dst : list Z) : list Z :=
  if has then PutVarint64 (PutVarint32 dst tag) num else dst.

Fixpoint put_pointers (l : list (Z * InternalKey)) (dst : list Z) : res (list Z) :=
  match l with
  | [] => Ret dst
  | (level, key) :: l =>
      let! k := Encode key in
      put_pointers l (PutLengthPrefixedSlice (PutVarint32 (PutVarint32 dst kCompactPointer) (u32 level)) k)
  end.

Fixpoint put_deleted (l : DeletedFileSet) (dst : list Z) : list Z :=
  match l with
  | [] => dst
  | (level, number) :: l => put_deleted l (PutVarint64 (PutVarint32 (PutVarint32 dst kDeletedFile) (u32 level)) number)
  end.

Fixpoint put_files (l : list (Z * FileMetaData)) (dst : list Z) : res (list Z) :=
  match l with
  | [] => Ret dst
  | (level, f) :: l =>
      let dst := PutVarint64 (PutVarint64 (PutVarint32 (PutVarint32 dst kNewFile) (u32 level)) (number f)) (file_size f) in
      let! s := Encode (smallest f) in
      let! g := Encode (largest f) in
      put_files l (PutLengthPrefixedSlice (PutLengthPrefixedSlice dst s) g)
  end.

Definition edit_EncodeTo (e : VersionEdit) (dst : list Z) : res (list Z) :=
  let dst := if has_comparator_ e then PutLengthPrefixedSlice (PutVarint32 dst kComparator) (comparator_ e) else dst in
  let dst := put_number (has_log_number_ e) kLogNumber (log_number_ e) dst in
  let dst := put_number (has_prev_log_number_ e) kPrevLogNumber (prev_log_number_ e) dst in
  let dst := put_number (has_next_file_number_ e) kNextFileNumber (next_file_number_ e) dst in
  let dst := put_number (has_last_sequence_ e) kLastSequence (last_sequence_ e) dst in
  let! dst := put_pointers (compact_pointers_ e) dst in
  let dst := put_deleted (deleted_files_ e) dst in
  put_files (new_files_ e) dst.

(** *** DecodeFrom *)

Definition GetInternalKey (input : list Z) : option (InternalKey * list Z) :=
  match GetLengthPrefixedSlice input with Some (str, input) => Some (DecodeFrom str, input) | None => None end.

Definition GetLevel (input : list Z) : option (Z * list Z) :=
  match GetVarint32 input with Some (v, input) => if v <? kNumLevels then Some (v, input) else None | None => None end.

(** A field behind its tag, or the message; what is left of the input then is not
    looked at. *)
Definition decode_number (set : Z -> VersionEdit) (msg : list Z) (input : list Z) : (VersionEdit * list Z) + list Z :=
  match GetVarint64 input with Some (n, input) => inl (set n, input) | None => inr msg end.

Definition edit_field (e : VersionEdit) (tag : Z) (input : list Z) : (VersionEdit * list Z) + list Z :=
  if tag =? kComparator then
    match GetLengthPrefixedSlice input with Some (str, input) => inl (SetComparatorName e str, input) | None => inr (bytes_of "comparator name") end
  else if tag =? kLogNumber then decode_number (SetLogNumber e) (bytes_of "log number") input
  else if tag =? kPrevLogNumber then decode_number (SetPrevLogNumber e) (bytes_of "previous log number") input
  else if tag =? kNextFileNumber then decode_number (SetNextFile e) (bytes_of "next file number") input
  else if tag =? kLastSequence then decode_number (SetLastSequence e) (bytes_of "last sequence number") input
  else if tag =? kCompactPointer then
    match (r ← GetLevel input; let '(level, input) := r in r ← GetInternalKey input; let '(key, input) := r in Some (SetCompactPointer e level key, input)) with
    | Some r => inl r
    | None => inr (bytes_of "compaction pointer")
    end
  else if tag =? kDeletedFile then
    match (r ← GetLevel input; let '(level, input) := r in r ← GetVarint64 input; let '(number, input) := r in Some (DeleteFile e level number, input)) with
    | Some r => inl r
    | None => inr (bytes_of "deleted file")
    end
  else if tag =? kNewFile then
    match (r ← GetLevel input; let '(level, input) := r in r ← GetVarint64 input; let '(number, input) := r in r ← GetVarint64 input; let '(size, input) := r in
           r ← GetInternalKey input; let '(s, input) := r in r ← GetInternalKey input; let '(g, input) := r in Some (AddFile e level number size s g, input)) with
    | Some r => inl r
    | None => inr (bytes_of "new-file entry")
    end
  else inr (bytes_of "unknown tag").

(** [inr]: the edit, and the message or what is left of the input. *)
Definition decode_round (st : VersionEdit * list Z) : res ((VersionEdit * list Z) + (VersionEdit * (list Z + list Z))) :=
  let (e, input) := st in
  match GetVarint32 input with
  | None => Ret (inr (e, inr input))
  | Some (tag, input) =>
      match edit_field e tag input with
      | inl st => Ret (inl st)
      | inr msg => Ret (inr (e, inl msg))
      end
  end.

(** Each round takes at least the byte of a tag. *)
Definition edit_DecodeFrom (e : VersionEdit) (src : list Z) : res (Status * VersionEdit) :=
  let! (e, r) := loop (Datatypes.S (length src)) decode_round (edit_Clear e, src) in
  let msg := match r with inl msg => Some msg | inr [] => None | inr _ => Some (bytes_of "invalid tag") end in
  Ret (match msg with Some msg => Corruption (bytes_of "VersionEdit") msg | None => status_ok end, e).

(** ** What can be encoded *)

Definition level_ok (level : Z) : Prop := 0 <= level < kNumLevels.
Definition key_ok (k : InternalKey) : Prop := is_slice k /\ k <> [].
Definition number_ok (has : bool) (n : Z) : Prop := if has then is_u64 n else n = 0.

Definition pointer_ok (p : Z * InternalKey) : Prop := level_ok (fst p) /\ key_ok (snd p).
Definition deleted_ok (p : Z * Z) : Prop := level_ok (fst p) /\ is_u64 (snd p).
Definition file_ok (p : Z * FileMetaData) : Prop :=
  level_ok (fst p) /\ is_u64 (number (snd p)) /\ is_u64 (file_size (snd p)) /\ key_ok (smallest (snd p)) /\ key_ok (largest (snd p)) /\
  snd p = new_file (number (snd p)) (file_size (snd p)) (smallest (snd p)) (largest (snd p)).

Record edit_ok (e : VersionEdit) : Prop := {
  ok_comparator : if has_comparator_ e then is_slice (comparator_ e) else comparator_ e = [];
  ok_log : number_ok (has_log_number_ e) (log_number_ e);
  ok_prev : number_ok (has_prev_log_number_ e) (prev_log_number_ e);
  ok_next : number_ok (has_next_file_number_ e) (next_file_number_ e);
  ok_last : number_ok (has_last_sequence_ e) (last_sequence_ e);
  ok_pointers : Forall pointer_ok (compact_pointers_ e);
  ok_deleted : StronglySorted (fun a b => pair_less a b = true) (deleted_files_ e) /\ Forall deleted_ok (deleted_files_ e);
  ok_files : Forall file_ok (new_files_ e);
}.

(** ** Sets *)

Lemma pair_less_spec a b : pair_less a b = true <-> fst a < fst b \/ fst a = fst b /\ snd a < snd b.
Proof. unfold pair_less. lia. Qed.

Lemma set_insert_last x l : StronglySorted (fun a b => pair_less a b = true) (l ++ [x]) -> set_insert x l = l ++ [x].
Proof.
  induction l as [|y l IH]; [done|]. cbn [app]. intros [Hs Hl]%StronglySorted_inv. apply Forall_app in Hl as [_ Hx]. apply Forall_cons in Hx as [Hx _]. cbn [set_insert].
  destruct (pair_less x y) eqn:E; [apply pair_less_spec in E, Hx; lia|]. by rewrite Hx, IH.
Qed.

Lemma set_insert_in x y l : y ∈ set_insert x l <-> y = x \/ y ∈ l.
Proof.
  induction l as [|z l IH]; cbn [set_insert]; [rewrite list_elem_of_singleton, elem_of_nil; tauto|]. destruct (pair_less x z) eqn:E1; [rewrite !elem_of_cons; tauto|].
  destruct (pair_less z x) eqn:E2; [rewrite !elem_of_cons, IH; tauto|].
  assert (x = z) as ->. { apply not_true_iff_false in E1, E2. rewrite pair_less_spec in E1, E2. destruct x, z; cbn in *. f_equal; lia. }
  rewrite !elem_of_cons. tauto.
Qed.

Lemma set_insert_sorted x l : StronglySorted (fun a b => pair_less a b = true) l -> StronglySorted (fun a b => pair_less a b = true) (set_insert x l).
Proof.
  induction 1 as [|z l Hs IH Hl]; cbn [set_insert]; [by repeat constructor|]. destruct (pair_less x z) eqn:E1.
  - constructor; [by constructor|]. constructor; [done|]. eapply Forall_impl; [exact Hl|]. intros y Hy. apply pair_less_spec. apply pair_less_spec in Hy, E1. lia.
  - destruct (pair_less z x) eqn:E2; [|by constructor]. constructor; [done|]. rewrite Forall_forall in Hl |- *. intros y [->|Hy]%set_insert_in; auto.
Qed.

(** ** Decoding what was encoded *)

(** The loop goes from one edit to another over some bytes. *)
Definition runs (e : VersionEdit) (bytes : list Z) (e' : VersionEdit) : Prop := forall rest n, (length (bytes ++ rest) < n)%nat ->
  exists n', (length rest < n')%nat /\ loop n decode_round (e, bytes ++ rest) = loop n' decode_round (e', rest).

Lemma runs_nil e : runs e [] e.
Proof. intros rest n Hn. by exists n. Qed.

Lemma runs_app e1 b1 e2 b2 e3 : runs e1 b1 e2 -> runs e2 b2 e3 -> runs e1 (b1 ++ b2) e3.
Proof.
  intros H1 H2 rest n Hn. rewrite <- app_assoc in *. destruct (H1 _ n Hn) as (n1 & Hn1 & ->). by apply H2.
Qed.

(** One field. *)
Lemma runs_field e tag body e' : is_u32 tag -> (forall rest, edit_field e tag (body ++ rest) = inl (e', rest)) -> runs e (PutVarint32 [] tag ++ body) e'.
Proof.
  intros Ht Hf rest n Hn. destruct n as [|n]; [lia|]. exists n. unfold PutVarint32 in *. cbn [app] in *. pose proof (put_nonempty (put := EncodeVarint32) tag Ht) as Hne. split.
  - rewrite !length_app in Hn. destruct (EncodeVarint32 tag); [done|]. cbn in Hn. lia.
  - rewrite loop_unfold. unfold decode_round at 1. rewrite <- app_assoc, get_varint32 by done. by rewrite Hf.
Qed.

Ltac tag_ok := vm_compute; split; congruence.

Lemma runs_number has tag n (set : VersionEdit -> Z -> VersionEdit) msg e : is_u32 tag -> (forall input, edit_field e tag input = decode_number (set e) msg input) ->
  (has = true -> is_u64 n) -> runs e (put_number has tag n []) (if has then set e n else e).
Proof.
  intros Ht Hd Hn. unfold put_number. destruct has; [|apply runs_nil]. unfold PutVarint64. apply runs_field; [done|]. intros rest. rewrite Hd. unfold decode_number. by rewrite get_varint64 by auto.
Qed.

Lemma put_number_app has tag n dst : put_number has tag n dst = dst ++ put_number has tag n [].
Proof. unfold put_number, PutVarint64, PutVarint32. destruct has; [by rewrite <- !app_assoc|by rewrite app_nil_r]. Qed.

Lemma get_level level rest : level_ok level -> GetLevel (EncodeVarint32 (u32 level) ++ rest) = Some (level, rest).
Proof.
  unfold level_ok, kNumLevels. intros Hl. unfold GetLevel. rewrite (wrap_small 32 level : _ -> u32 level = _) by lia. rewrite get_varint32 by (unfold is_u32; lia).
  unfold kNumLevels. by destruct (Z.ltb_spec level 7); [|lia].
Qed.

(** Any string is taken for an internal key. *)
Lemma get_any_key k rest : is_slice k -> GetInternalKey (PutLengthPrefixedSlice [] k ++ rest) = Some (k, rest).
Proof. intros Hk. unfold GetInternalKey. by rewrite get_slice. Qed.

Lemma get_internal_key k rest : key_ok k -> GetInternalKey (PutLengthPrefixedSlice [] k ++ rest) = Some (k, rest).
Proof. intros [Hk _]. by apply get_any_key. Qed.

Lemma encode_key k : key_ok k -> Encode k = Ret k.
Proof.
  intros [_ Hk]. unfold Encode, assert_. destruct (Z.eqb_spec (zlen k) 0) as [E|]; [|done]. destruct k; [done|]. unfold zlen in E. cbn in E. lia.
Qed.

Lemma put_pointers_ok l dst : Forall pointer_ok l -> exists bytes, put_pointers l dst = Ret (dst ++ bytes) /\
  forall e, runs e bytes (with_lists e (compact_pointers_ e ++ l) (deleted_files_ e) (new_files_ e)).
Proof.
  revert dst; induction l as [|[level key] l IH]; intros dst H; cbn [put_pointers].
  - exists []. rewrite app_nil_r. split; [done|]. intros e. rewrite app_nil_r. destruct e. apply runs_nil.
  - apply Forall_cons in H as [[Hl Hk] H]. cbn [fst snd] in *. rewrite encode_key by done. cbn [rbind]. destruct (IH (PutLengthPrefixedSlice (PutVarint32 (PutVarint32 dst kCompactPointer) (u32 level)) key) H) as (bytes & -> & Hr).
    exists ((PutVarint32 [] kCompactPointer ++ EncodeVarint32 (u32 level) ++ PutLengthPrefixedSlice [] key) ++ bytes). split.
    + rewrite (PutLengthPrefixedSlice_app (PutVarint32 _ _)). unfold PutVarint32. cbn [app]. by rewrite <- !app_assoc.
    + intros e. eapply runs_app.
      * apply (runs_field _ _ _ (SetCompactPointer e level key)); [tag_ok|]. intros rest. rewrite <- !app_assoc. unfold edit_field. cbn [Z.eqb Pos.eqb kCompactPointer kComparator kLogNumber kPrevLogNumber kNextFileNumber kLastSequence].
        rewrite get_level by done. cbn [mbind option_bind]. by rewrite get_internal_key.
      * specialize (Hr (SetCompactPointer e level key)). unfold SetCompactPointer, with_lists in Hr |- *. cbn in Hr. rewrite <- app_assoc in Hr. exact Hr.
Qed.

Lemma put_deleted_ok l dst : Forall deleted_ok l -> exists bytes, put_deleted l dst = dst ++ bytes /\
  forall e, StronglySorted (fun a b => pair_less a b = true) (deleted_files_ e ++ l) -> runs e bytes (with_lists e (compact_pointers_ e) (deleted_files_ e ++ l) (new_files_ e)).
Proof.
  revert dst; induction l as [|[level num] l IH]; intros dst H; cbn [put_deleted].
  - exists []. rewrite app_nil_r. split; [done|]. intros e _. rewrite app_nil_r. destruct e. apply runs_nil.
  - apply Forall_cons in H as [[Hl Hn] H]. cbn [fst snd] in *. destruct (IH (PutVarint64 (PutVarint32 (PutVarint32 dst kDeletedFile) (u32 level)) num) H) as (bytes & -> & Hr).
    exists ((PutVarint32 [] kDeletedFile ++ EncodeVarint32 (u32 level) ++ EncodeVarint64 num) ++ bytes). split.
    + unfold PutVarint32, PutVarint64. cbn [app]. by rewrite <- !app_assoc.
    + intros e Hs. eapply runs_app.
      * apply (runs_field _ _ _ (DeleteFile e level num)); [tag_ok|]. intros rest. rewrite <- !app_assoc. unfold edit_field. cbn [Z.eqb Pos.eqb kDeletedFile kCompactPointer kComparator kLogNumber kPrevLogNumber kNextFileNumber kLastSequence].
        rewrite get_level by done. cbn [mbind option_bind]. by rewrite get_varint64.
      * specialize (Hr (DeleteFile e level num)). unfold DeleteFile, with_lists in Hr |- *. cbn [deleted_files_ compact_pointers_ new_files_ comparator_ log_number_ prev_log_number_ next_file_number_ last_sequence_ has_comparator_ has_log_number_ has_prev_log_number_ has_next_file_number_ has_last_sequence_] in Hr.
        assert (deleted_files_ e ++ (level, num) :: l = (deleted_files_ e ++ [(level, num)]) ++ l) as El by (by rewrite <- app_assoc). rewrite El in Hs |- *.
        rewrite set_insert_last in Hr |- * by (by apply StronglySorted_app in Hs as (_ & ? & _)). by apply Hr.
Qed.

(** What is written for a new file, behind [dst]. *)
Definition file_entry (dst : list Z) (level num size : Z) (s g : InternalKey) : list Z :=
  PutLengthPrefixedSlice (PutLengthPrefixedSlice (PutVarint64 (PutVarint64 (PutVarint32 (PutVarint32 dst kNewFile) (u32 level)) num) size) s) g.

Lemma file_entry_app dst level num size s g : file_entry dst level num size s g =
  dst ++ PutVarint32 [] kNewFile ++ EncodeVarint32 (u32 level) ++ EncodeVarint64 num ++ EncodeVarint64 size ++ PutLengthPrefixedSlice [] s ++ PutLengthPrefixedSlice [] g.
Proof.
  unfold file_entry. rewrite (PutLengthPrefixedSlice_app (PutLengthPrefixedSlice _ _)), (PutLengthPrefixedSlice_app (PutVarint64 _ _)). unfold PutVarint32, PutVarint64. cbn [app]. by rewrite <- !app_assoc.
Qed.

Lemma file_entry_behind dst level num size s g : file_entry dst level num size s g = dst ++ file_entry [] level num size s g.
Proof. by rewrite (file_entry_app dst), (file_entry_app []). Qed.

Lemma runs_new_file e level num size s g : level_ok level -> is_u64 num -> is_u64 size -> is_slice s -> is_slice g ->
  runs e (file_entry [] level num size s g) (AddFile e level num size s g).
Proof.
  intros Hl Hn Hz Hs Hg. rewrite file_entry_app. cbn [app]. apply runs_field; [tag_ok|]. intros rest. rewrite <- !app_assoc. unfold edit_field.
  cbn [Z.eqb Pos.eqb kNewFile kDeletedFile kCompactPointer kComparator kLogNumber kPrevLogNumber kNextFileNumber kLastSequence].
  rewrite get_level by done. cbn [mbind option_bind]. rewrite get_varint64 by done. cbn [mbind option_bind]. rewrite get_varint64 by done. cbn [mbind option_bind].
  rewrite get_any_key by done. cbn [mbind option_bind]. by rewrite get_any_key.
Qed.

Lemma put_files_ok l dst : Forall file_ok l -> exists bytes, put_files l dst = Ret (dst ++ bytes) /\
  forall e, runs e bytes (with_lists e (compact_pointers_ e) (deleted_files_ e) (new_files_ e ++ l)).
Proof.
  revert dst; induction l as [|[level f] l IH]; intros dst H; cbn [put_files].
  - exists []. rewrite app_nil_r. split; [done|]. intros e. rewrite app_nil_r. destruct e. apply runs_nil.
  - apply Forall_cons in H as [(Hl & Hn & Hz & Hs & Hg & Ef) H]. cbn [fst snd] in *. rewrite !encode_key by done. cbn [rbind].
    destruct (IH (PutLengthPrefixedSlice (PutLengthPrefixedSlice (PutVarint64 (PutVarint64 (PutVarint32 (PutVarint32 dst kNewFile) (u32 level)) (number f)) (file_size f)) (smallest f)) (largest f)) H) as (bytes & -> & Hr).
    exists (file_entry [] level (number f) (file_size f) (smallest f) (largest f) ++ bytes). split.
    + fold (file_entry dst level (number f) (file_size f) (smallest f) (largest f)). by rewrite file_entry_behind, <- app_assoc.
    + intros e. eapply runs_app.
      * apply runs_new_file; [done|done|done|apply Hs|apply Hg].
      * specialize (Hr (AddFile e level (number f) (file_size f) (smallest f) (largest f))). unfold AddFile, with_lists in Hr |- *. rewrite <- Ef in Hr |- *. cbn in Hr. rewrite <- app_assoc in Hr. exact Hr.
Qed.

(** The edit, with the pointers the receiver had in front. *)
Definition onto (e0 e : VersionEdit) : VersionEdit := with_lists e (compact_pointers_ e0 ++ compact_pointers_ e) (deleted_files_ e) (new_files_ e).

Lemma Encode_empty : Encode [] = UB.
Proof. done. Qed.

(** A file with an empty key behind others. *)
Lemma put_files_empty_key l level f dst : Forall file_ok l -> smallest f = [] \/ largest f = [] -> put_files (l ++ [(level, f)]) dst = UB.
Proof.
  intros Hl Hf. revert dst; induction Hl as [|[lv x] l (_ & _ & _ & Hs & Hg & _) _ IH]; intros dst; cbn [app put_files].
  - destruct Hf as [E|E]; rewrite E, Encode_empty; [done|]. unfold Encode at 1, assert_. by destruct (negb _).
  - cbn [snd] in Hs, Hg. rewrite !encode_key by done. cbn [rbind]. apply IH.
Qed.

Lemma encode_empty_key e level num size s g dst : edit_ok e -> s = [] \/ g = [] -> edit_EncodeTo (AddFile e level num size s g) dst = UB.
Proof.
  intros [_ _ _ _ _ Hp _ Hf] Hsg. unfold edit_EncodeTo. cbn [AddFile with_lists compact_pointers_ deleted_files_ new_files_].
  match goal with |- context [put_pointers _ ?d] => destruct (put_pointers_ok (compact_pointers_ e) d Hp) as (b & -> & _) end.
  cbn [rbind]. by apply put_files_empty_key.
Qed.

Lemma encode_runs e0 e : edit_ok e -> exists bytes, edit_EncodeTo e [] = Ret bytes /\ runs (edit_Clear e0) bytes (onto e0 e).
Proof.
  intros [Hc Hlog Hprev Hnext Hlast Hp [Hds Hd] Hf]. unfold edit_EncodeTo.
  rewrite (put_number_app (has_last_sequence_ e)), (put_number_app (has_next_file_number_ e)), (put_number_app (has_prev_log_number_ e)), (put_number_app (has_log_number_ e)).
  set (c := if has_comparator_ e then _ else _). set (b1 := put_number _ kLogNumber _ _). set (b2 := put_number _ kPrevLogNumber _ _). set (b3 := put_number _ kNextFileNumber _ _). set (b4 := put_number _ kLastSequence _ _).
  destruct (put_pointers_ok (compact_pointers_ e) ((((c ++ b1) ++ b2) ++ b3) ++ b4) Hp) as (b5 & -> & H5). cbn [rbind].
  destruct (put_deleted_ok (deleted_files_ e) (((((c ++ b1) ++ b2) ++ b3) ++ b4) ++ b5) Hd) as (b6 & -> & H6). destruct (put_files_ok (new_files_ e) ((((((c ++ b1) ++ b2) ++ b3) ++ b4) ++ b5) ++ b6) Hf) as (b7 & -> & H7).
  eexists. split; [done|]. set (z := edit_Clear e0).
  set (e1 := if has_comparator_ e then SetComparatorName z (comparator_ e) else z). set (e2 := if has_log_number_ e then SetLogNumber e1 (log_number_ e) else e1).
  set (e3 := if has_prev_log_number_ e then SetPrevLogNumber e2 (prev_log_number_ e) else e2). set (e4 := if has_next_file_number_ e then SetNextFile e3 (next_file_number_ e) else e3).
  set (e5 := if has_last_sequence_ e then SetLastSequence e4 (last_sequence_ e) else e4).
  assert (forall has n, number_ok has n -> has = true -> is_u64 n) as Hu by (by intros has n H ->).
  assert (runs z c e1) as H1.
  { subst c e1. destruct (has_comparator_ e); [|apply runs_nil]. rewrite PutLengthPrefixedSlice_app. apply runs_field; [tag_ok|]. intros rest. unfold edit_field. cbn [Z.eqb Pos.eqb kComparator]. by rewrite get_slice. }
  assert (runs z ((((((c ++ b1) ++ b2) ++ b3) ++ b4) ++ b5) ++ b6) (with_lists e5 (compact_pointers_ e5 ++ compact_pointers_ e) (deleted_files_ e5 ++ deleted_files_ e) (new_files_ e5))) as H6'.
  { eapply runs_app; [eapply runs_app; [|apply H5]|].
    - eapply runs_app; [eapply runs_app; [eapply runs_app; [eapply runs_app; [exact H1|]|]|]|].
      + exact (runs_number (has_log_number_ e) kLogNumber (log_number_ e) SetLogNumber (bytes_of "log number") e1 ltac:(tag_ok) (fun _ => eq_refl) (Hu _ _ Hlog)).
      + exact (runs_number (has_prev_log_number_ e) kPrevLogNumber (prev_log_number_ e) SetPrevLogNumber (bytes_of "previous log number") e2 ltac:(tag_ok) (fun _ => eq_refl) (Hu _ _ Hprev)).
      + exact (runs_number (has_next_file_number_ e) kNextFileNumber (next_file_number_ e) SetNextFile (bytes_of "next file number") e3 ltac:(tag_ok) (fun _ => eq_refl) (Hu _ _ Hnext)).
      + exact (runs_number (has_last_sequence_ e) kLastSequence (last_sequence_ e) SetLastSequence (bytes_of "last sequence number") e4 ltac:(tag_ok) (fun _ => eq_refl) (Hu _ _ Hlast)).
    - specialize (H6 (with_lists e5 (compact_pointers_ e5 ++ compact_pointers_ e) (deleted_files_ e5) (new_files_ e5))). apply H6.
      replace (deleted_files_ (with_lists e5 (compact_pointers_ e5 ++ compact_pointers_ e) (deleted_files_ e5) (new_files_ e5))) with (@nil (Z * Z)); [done|].
      cbn. subst e5 e4 e3 e2 e1 z. by destruct (has_last_sequence_ e), (has_next_file_number_ e), (has_prev_log_number_ e), (has_log_number_ e), (has_comparator_ e). }
  eapply runs_app; [exact H6'|]. specialize (H7 (with_lists e5 (compact_pointers_ e5 ++ compact_pointers_ e) (deleted_files_ e5 ++ deleted_files_ e) (new_files_ e5))).
  match type of H7 with runs _ _ ?x => replace (onto e0 e) with x; [exact H7|] end. clear - Hc Hlog Hprev Hnext Hlast. unfold onto, with_lists. subst e5 e4 e3 e2 e1 z. unfold number_ok in *.
  destruct (has_last_sequence_ e), (has_next_file_number_ e), (has_prev_log_number_ e), (has_log_number_ e), (has_comparator_ e); cbn; congruence.
Qed.

(** *** Decoding ends *)

(** What is left is the end of the input. *)
Lemma get_varint64_rest p v q : GetVarint64 p = Some (v, q) -> q `suffix_of` p.
Proof. intros H. destruct (GetVarintPtr_loop_suffix _ _ _ _ _ _ _ H) as (pre & -> & _). by exists pre. Qed.

Lemma get_slice_rest p s q : GetLengthPrefixedSlice p = Some (s, q) -> q `suffix_of` p.
Proof. intros H. destruct (GetLengthPrefixedSlice_suffix _ _ _ H) as (pre & -> & _). exists (pre ++ s). by rewrite <- app_assoc. Qed.

Lemma get_key_rest p k q : GetInternalKey p = Some (k, q) -> q `suffix_of` p.
Proof. unfold GetInternalKey. destruct (GetLengthPrefixedSlice p) as [[x p']|] eqn:E; [|done]. intros [= <- <-]. by eapply get_slice_rest. Qed.

Lemma get_level_rest p l q : Forall is_byte p -> GetLevel p = Some (l, q) -> level_ok l /\ q `suffix_of` p.
Proof.
  unfold GetLevel. intros Hb. destruct (GetVarint32 p) as [[v p']|] eqn:E; [|done]. destruct (Z.ltb_spec v kNumLevels); [|done]. intros [= <- <-]. split.
  - split; [|done]. rewrite GetVarint32_dec in E by done. destruct (varint_dec 5 p) as [[w r]|]; [|done]. injection E as <- _. apply Z.mod_pos_bound. lia.
  - destruct (GetVarint32_suffix _ _ _ E) as (pre & -> & _). by exists pre.
Qed.

Lemma suffix_bytes p q : q `suffix_of` p -> Forall is_byte p -> Forall is_byte q.
Proof. intros [pre ->] H. by apply Forall_app in H as [_ ?]. Qed.

(** The levels of an edit can be used as indices, and its sets are sets. *)
Definition in_levels (e : VersionEdit) : Prop :=
  Forall (fun p => level_ok (fst p)) (compact_pointers_ e) /\ Forall (fun p => level_ok (fst p)) (deleted_files_ e) /\ Forall (fun p => level_ok (fst p)) (new_files_ e) /\
  StronglySorted (fun a b => pair_less a b = true) (deleted_files_ e).

Lemma DeleteFile_levels e level num : level_ok level -> in_levels e -> in_levels (DeleteFile e level num).
Proof.
  intros Hl (H1 & H2 & H3 & H4). unfold DeleteFile. split_and!; cbn; [done| |done|by apply set_insert_sorted]. rewrite Forall_forall in H2 |- *. intros p [->|Hp]%set_insert_in; [done|auto].
Qed.

Lemma edit_field_ok e tag input e' input' : Forall is_byte input -> in_levels e -> edit_field e tag input = inl (e', input') -> in_levels e' /\ input' `suffix_of` input.
Proof.
  intros Hb (H1 & H2 & H3 & H4). unfold edit_field, decode_number.
  assert (forall l, level_ok l -> forall x : InternalKey, in_levels (SetCompactPointer e l x)) as Hp by (intros l Hl x; split_and!; cbn; try done; apply Forall_app; by split; [|constructor]).
  assert (forall l, level_ok l -> forall n z a b, in_levels (AddFile e l n z a b)) as Hf by (intros l Hl n z a b; split_and!; cbn; try done; apply Forall_app; by split; [|constructor]).
  destruct (tag =? kComparator). { destruct (GetLengthPrefixedSlice input) as [[str r]|] eqn:E; [|done]. intros [= <- <-]. split; [done|]. by eapply get_slice_rest. }
  do 4 (destruct (tag =? _); [destruct (GetVarint64 input) as [[n r]|] eqn:E; [|done]; intros [= <- <-]; (split; [done|]); by eapply get_varint64_rest|]).
  destruct (tag =? kCompactPointer).
  { destruct (GetLevel input) as [[l r]|] eqn:E; [|done]. cbn [mbind option_bind]. destruct (GetInternalKey r) as [[k r2]|] eqn:E2; [|done]. cbn [mbind option_bind]. intros [= <- <-].
    apply get_level_rest in E as [Hl Hr]; [|done]. split; [by apply Hp|]. apply get_key_rest in E2. by trans r. }
  destruct (tag =? kDeletedFile).
  { destruct (GetLevel input) as [[l r]|] eqn:E; [|done]. cbn [mbind option_bind]. destruct (GetVarint64 r) as [[n r2]|] eqn:E2; [|done]. cbn [mbind option_bind]. intros [= <- <-].
    apply get_level_rest in E as [Hl Hr]; [|done]. split; [by apply DeleteFile_levels|]. apply get_varint64_rest in E2. by trans r. }
  destruct (tag =? kNewFile); [|done]. destruct (GetLevel input) as [[l r]|] eqn:E; [|done]. cbn [mbind option_bind]. destruct (GetVarint64 r) as [[n r2]|] eqn:E2; [|done]. cbn [mbind option_bind].
  destruct (GetVarint64 r2) as [[z r3]|] eqn:E3; [|done]. cbn [mbind option_bind]. destruct (GetInternalKey r3) as [[a r4]|] eqn:E4; [|done]. cbn [mbind option_bind]. destruct (GetInternalKey r4) as [[b r5]|] eqn:E5; [|done].
  cbn [mbind option_bind]. intros [= <- <-]. apply get_level_rest in E as [Hl Hr]; [|done]. split; [by apply Hf|]. apply get_varint64_rest in E2, E3. apply get_key_rest in E4, E5. trans r4; [done|]. trans r3; [done|]. trans r2; [done|]. by trans r.
Qed.

Lemma DecodeFrom_ok e src : Forall is_byte src -> Forall (fun p => level_ok (fst p)) (compact_pointers_ e) ->
  exists s e', edit_DecodeFrom e src = Ret (s, e') /\ in_levels e' /\ (is_ok s = true \/ IsCorruption s = true).
Proof.
  intros Hb Hp. unfold edit_DecodeFrom.
  destruct (loop_total (fun st => in_levels (fst st) /\ Forall is_byte (snd st)) (fun st => length (snd st)) (fun r => in_levels (fst r)) decode_round (Datatypes.S (length src)) (edit_Clear e, src)) as ([e' r] & -> & Hr).
  - intros [e1 input] [He Hi]. cbn [fst snd] in *. unfold decode_round. destruct (GetVarint32 input) as [[tag r]|] eqn:E; [|by eexists]. destruct (GetVarint32_suffix _ _ _ E) as (pre & -> & Hne). apply Forall_app in Hi as [_ Hi].
    destruct (edit_field e1 tag r) as [[e2 r2]|msg] eqn:E2; [|by eexists]. destruct (edit_field_ok _ _ _ _ _ Hi He E2) as [He2 Hs]. eexists. split; [done|]. cbn [fst snd].
    split; [split; [done|by eapply suffix_bytes]|]. destruct Hs as [k ->]. rewrite !length_app. destruct pre; [done|cbn; lia].
  - split; [|done]. split_and!; [done|constructor..].
  - cbn. lia.
  - cbn [rbind]. destruct r as [msg|[|x l]]; (do 2 eexists; split; [done|]; split; [done|]); [by right|by left|by right].
Qed.

Lemma runs_decoded e0 bytes e : runs (edit_Clear e0) bytes e -> edit_DecodeFrom e0 bytes = Ret (status_ok, e).
Proof.
  intros Hr. unfold edit_DecodeFrom. destruct (Hr [] (Datatypes.S (length bytes))) as (n & Hn & El); [rewrite app_nil_r; lia|].
  rewrite app_nil_r in El. rewrite El. destruct n as [|n]; [cbn in Hn; lia|]. done.
Qed.

Lemma edit_decoded e : edit_ok e -> exists bytes, edit_EncodeTo e [] = Ret bytes /\ forall e0, edit_DecodeFrom e0 bytes = Ret (status_ok, onto e0 e).
Proof.
  intros He. destruct (encode_runs new_edit e He) as (bytes & E & _). exists bytes. split; [done|]. intros e0.
  destruct (encode_runs e0 e He) as (bytes' & E' & Hr). rewrite E in E'. injection E' as <-. by apply runs_decoded.
Qed.

Lemma short_user_key k : zlen k < 8 -> internal_user_key k = UB.
Proof. intros H. unfold internal_user_key, ExtractUserKey. by destruct (Z.geb_spec (zlen k) 8); [lia|]. Qed.

(** ** Theorems *)

(** C14. Encoding an edit and decoding it gives the edit, behind whatever compaction
    pointers the receiver had: [Clear] leaves these. *)
Theorem edit_roundtrip e : edit_ok e ->
  exists bytes, edit_EncodeTo e [] = Ret bytes /\ (forall e0, edit_DecodeFrom e0 bytes = Ret (status_ok, onto e0 e)) /\ onto new_edit e = e /\
    forall e0, compact_pointers_ e0 <> [] -> onto e0 e <> e.
Proof.
  intros He. destruct (edit_decoded e He) as (bytes & E & Hd). exists bytes. split_and!; [done|done|by destruct e|].
  intros e0 Hne Eq. apply (f_equal compact_pointers_) in Eq. cbn in Eq. apply (f_equal length) in Eq. rewrite length_app in Eq. destruct (compact_pointers_ e0); [done|]. cbn in Eq. lia.
Qed.

(** Decoding ends on every input, with success or a corruption; the levels of the
    edit are levels there are. *)
Theorem edit_decoding_total src : Forall is_byte src ->
  exists s e, edit_DecodeFrom new_edit src = Ret (s, e) /\ in_levels e /\ (is_ok s = true \/ IsCorruption s = true).
Proof. intros Hb. apply DecodeFrom_ok; [done|constructor]. Qed.

(** C17. [DecodeFrom] takes any two strings for the keys of a new file, whatever the edit in
    front of it says: with keys that are empty it reports success, and encoding the
    edit it gives again fails an assertion; with keys shorter than the eight bytes
    behind every user key, taking the user key does. *)
Theorem empty_key_accepted e bytes level num size s g : edit_ok e -> edit_EncodeTo e [] = Ret bytes ->
  level_ok level -> is_u64 num -> is_u64 size -> is_slice s -> is_slice g ->
  edit_DecodeFrom new_edit (file_entry bytes level num size s g) = Ret (status_ok, AddFile e level num size s g) /\
  (s = [] \/ g = [] -> forall dst, edit_EncodeTo (AddFile e level num size s g) dst = UB) /\
  (zlen s < 8 -> internal_user_key s = UB) /\ (zlen g < 8 -> internal_user_key g = UB).
Proof.
  intros He E Hl Hn Hz Hs Hg. split_and!.
  - apply runs_decoded. destruct (encode_runs new_edit e He) as (bytes' & E' & Hr). rewrite E in E'. injection E' as <-.
    rewrite file_entry_behind. eapply runs_app; [exact Hr|]. replace (onto new_edit e) with e by (by destruct e). by apply runs_new_file.
  - intros H dst. by apply encode_empty_key.
  - apply short_user_key.
  - apply short_user_key.
Qed.
