(* ===== verification/LdbVersion.v ===== *)
(** * LevelDB: searching the files of a version (db/version_set.cc)

    The files of a level by their ranges of keys: binary search, overlap with a range,
    the files that overlap a range (in level 0 with everything they in turn overlap),
    and the level a memtable is written to. *)
From S2P Require Import Prelude.
From S2P Require Import LdbCoding LdbStatus LdbOrder LdbKeys LdbVersionEdit.
From Stdlib Require Import ZArith Lia.
From stdpp Require Import base tactics numbers list sorting.
#[local] Open Scope Z_scope.

(** ** Definitions *)

Definition kMaxMemCompactLevel : Z := 2.

Definition i64 (z : Z) : Z := swrap 64 z.

(** [max_file_size] of the options. *)
Definition TargetFileSize (max_file_size : Z) : Z := max_file_size.
Definition MaxGrandParentOverlapBytes (max_file_size : Z) : Z := i64 (u64 (10 * TargetFileSize max_file_size)).
Definition ExpandedCompactionByteSizeLimit (max_file_size : Z) : Z := i64 (u64 (25 * TargetFileSize max_file_size)).
Definition MaxFileSizeForLevel (max_file_size level : Z) : Z := TargetFileSize max_file_size.

(** The sum is computed without a sign. *)
Fixpoint total_from (sum : Z) (files : list FileMetaData) : Z :=
  match files with
  | [] => sum
  | f :: files => total_from (i64 (u64 (u64 sum + file_size f))) files
  end.
Definition TotalFileSize (files : list FileMetaData) : Z := total_from 0 files.

Section Version.
Context (user : Comparator).

(** [files[i]] *)
Definition file_at (files : list FileMetaData) (i : Z) : res FileMetaData :=
  match files !! Z.to_nat i with Some f => Ret f | None => UB end.

Definition find_file_round (files : list FileMetaData) (key : list Z) (st : Z * Z) : res ((Z * Z) + Z) :=
  let (left, right) := st in
  if left <? right then
    let mid := u32 (left + right) / 2 in
    let! f := file_at files mid in
    let! g := Encode (largest f) in
    let! r := internal_compare user g key in
    if r <? 0 then Ret (inl (u32 (mid + 1), right)) else Ret (inl (left, mid))
  else Ret (inr right).

(** Each round shortens the interval. *)
Definition FindFile (files : list FileMetaData) (key : list Z) : res Z :=
  loop (Datatypes.S (length files)) (find_file_round files key) (0, u32 (zlen files)).

(** A user key, or [None] for the null pointer. *)
Definition AfterFile (user_key : option (list Z)) (f : FileMetaData) : res bool :=
  match user_key with
  | None => Ret false
  | Some k => let! g := internal_user_key (largest f) in let! r := Compare user k g in Ret (r >? 0)
  end.

Definition BeforeFile (user_key : option (list Z)) (f : FileMetaData) : res bool :=
  match user_key with
  | None => Ret false
  | Some k => let! s := internal_user_key (smallest f) in let! r := Compare user k s in Ret (r <? 0)
  end.

Fixpoint some_file_overlaps (files : list FileMetaData) (smallest_user_key largest_user_key : option (list Z)) : res bool :=
  match files with
  | [] => Ret false
  | f :: files =>
      let! after := AfterFile smallest_user_key f in
      let! apart := if after then Ret true else BeforeFile largest_user_key f in
      if apart then some_file_overlaps files smallest_user_key largest_user_key else Ret true
  end.

Definition SomeFileOverlapsRange (disjoint_sorted_files : bool) (files : list FileMetaData) (smallest_user_key largest_user_key : option (list Z)) : res bool :=
  if negb disjoint_sorted_files then some_file_overlaps files smallest_user_key largest_user_key
  else
    let! index :=
      match smallest_user_key with
      | Some k =>
          let! small_key := new_internal_key k kMaxSequenceNumber kValueTypeForSeek in
          let! small_key := Encode small_key in
          FindFile files small_key
      | None => Ret 0
      end in
    if index >=? zlen files then Ret false
    else
      let! f := file_at files index in
      let! before := BeforeFile largest_user_key f in
      Ret (negb before).

(** *** A version *)

Context (files_ : list (list FileMetaData)).

Definition level_files (level : Z) : res (list FileMetaData) :=
  match files_ !! Z.to_nat level with Some files => Ret files | None => UB end.

Definition OverlapInLevel (level : Z) (smallest_user_key largest_user_key : option (list Z)) : res bool :=
  let! files := level_files level in
  SomeFileOverlapsRange (0 <? level) files smallest_user_key largest_user_key.

(** The variables of the loop of [GetOverlappingInputs]. *)
Record Overlapping := mk_overlapping { ov_i : nat; user_begin : option (list Z); user_end : option (list Z); inputs_ : list FileMetaData }.

(** [key != nullptr && user_cmp->Compare(a, key) < 0], or with the sign changed. *)
Definition compare_to (key : option (list Z)) (a : list Z) (sign : Z) : res bool :=
  match key with
  | None => Ret false
  | Some k => let! r := Compare user a k in Ret (sign * r <? 0)
  end.

Definition overlapping_round (level : Z) (files : list FileMetaData) (st : Overlapping) : res (Overlapping + list FileMetaData) :=
  match files !! ov_i st with
  | None => Ret (inr (inputs_ st))
  | Some f =>
      let i := Datatypes.S (ov_i st) in
      let! file_start := internal_user_key (smallest f) in
      let! file_limit := internal_user_key (largest f) in
      let! before := compare_to (user_begin st) file_limit 1 in
      if before then Ret (inl (mk_overlapping i (user_begin st) (user_end st) (inputs_ st)))
      else
        let! after := compare_to (user_end st) file_start (-1) in
        if after then Ret (inl (mk_overlapping i (user_begin st) (user_end st) (inputs_ st)))
        else
          let inputs := inputs_ st ++ [f] in
          if level =? 0 then
            let! expands := compare_to (user_begin st) file_start 1 in
            if expands then Ret (inl (mk_overlapping 0 (Some file_start) (user_end st) []))
            else
              let! expands := compare_to (user_end st) file_limit (-1) in
              if expands then Ret (inl (mk_overlapping 0 (user_begin st) (Some file_limit) []))
              else Ret (inl (mk_overlapping i (user_begin st) (user_end st) inputs))
          else Ret (inl (mk_overlapping i (user_begin st) (user_end st) inputs))
  end.

(** Every restart widens the range to an end of a file: at most two for each. *)
Definition overlapping_fuel (n : nat) : nat := Datatypes.S ((2 * n + 1) * (n + 1)).

Definition user_key_of (k : option InternalKey) : res (option (list Z)) :=
  match k with Some k => let! u := internal_user_key k in Ret (Some u) | None => Ret None end.

Definition GetOverlappingInputs (level : Z) (begin_ end_ : option InternalKey) : res (list FileMetaData) :=
  let! _ := assert_ (level >=? 0) in
  let! _ := assert_ (level <? kNumLevels) in
  let! b := user_key_of begin_ in
  let! e := user_key_of end_ in
  let! files := level_files level in
  loop (overlapping_fuel (length files)) (overlapping_round level files) (mk_overlapping 0 b e []).

(** [options_->max_file_size] *)
Context (max_file_size : Z).

Definition pick_round (smallest_user_key largest_user_key : list Z) (start limit : InternalKey) (level : Z) : res (Z + Z) :=
  if level <? kMaxMemCompactLevel then
    let! o := OverlapInLevel (level + 1) (Some smallest_user_key) (Some largest_user_key) in
    if o then Ret (inr level)
    else
      let! too_many :=
        if level + 2 <? kNumLevels then
          let! overlaps := GetOverlappingInputs (level + 2) (Some start) (Some limit) in
          Ret (TotalFileSize overlaps >? MaxGrandParentOverlapBytes max_file_size)
        else Ret false in
      if too_many then Ret (inr level) else Ret (inl (level + 1))
  else Ret (inr level).

Definition PickLevelForMemTableOutput (smallest_user_key largest_user_key : list Z) : res Z :=
  let! o := OverlapInLevel 0 (Some smallest_user_key) (Some largest_user_key) in
  if o then Ret 0
  else
    let! start := new_internal_key smallest_user_key kMaxSequenceNumber kValueTypeForSeek in
    let! limit := new_internal_key largest_user_key 0 kTypeDeletion in
    loop 3 (pick_round smallest_user_key largest_user_key start limit) 0.

End Version.

(** ** Searching *)

Section Spec.
Context {user : Comparator} {valid : list Z -> Prop} {cmp : list Z -> list Z -> Z} {laws : ComparatorLaws user valid cmp}.

Abbreviation order := (internal_order cmp).

(** A key that is not before every number of its user key. *)
Definition key_fine (k : InternalKey) : Prop := internal_valid valid k /\ tail_num k <= earliest.

Definition file_fine (f : FileMetaData) : Prop := key_fine (smallest f) /\ key_fine (largest f) /\ order (smallest f) (largest f) <= 0.

(** Files of a level that follow one another. *)
Definition level_sorted (files : list FileMetaData) : Prop := StronglySorted (fun f g => order (largest f) (smallest g) < 0) files.

Lemma encode_internal k : internal_valid valid k -> Encode k = Ret k.
Proof. intros (H & _). unfold Encode, assert_. destruct (Z.eqb_spec (zlen k) 0); [lia|done]. Qed.

Lemma user_key_ret k : internal_valid valid k -> internal_user_key k = Ret (user_part k).
Proof. intros (H & _). by apply ExtractUserKey_ret. Qed.

Lemma file_at_ok (a : list FileMetaData) f b i : i = zlen a -> file_at (a ++ f :: b) i = Ret f.
Proof. intros ->. unfold file_at, zlen. by rewrite Nat2Z.id, lookup_app_r, Nat.sub_diag. Qed.

Lemma FindFile_ok a b key : internal_valid valid key -> Forall (fun f => internal_valid valid (largest f)) (a ++ b) -> zlen (a ++ b) < 2 ^ 31 ->
  Forall (fun f => order (largest f) key < 0) a -> Forall (fun f => 0 <= order (largest f) key) b -> FindFile user (a ++ b) key = Ret (zlen a).
Proof.
  intros Hk Hv Hl Ha Hb. unfold FindFile. rewrite (wrap_small 32 (zlen (a ++ b)) : _ -> u32 _ = _) by (pose proof (zlen_nonneg (a ++ b)); lia).
  destruct (loop_total (fun st => 0 <= fst st <= zlen a /\ zlen a <= snd st <= zlen (a ++ b)) (fun st => Z.to_nat (snd st - fst st)) (fun r => r = zlen a)
    (find_file_round user (a ++ b) key) (Datatypes.S (length (a ++ b))) (0, zlen (a ++ b))) as (r & -> & ->); [| | |done].
  - intros [left right] [H1 H2]. cbn [fst snd] in *. unfold find_file_round. destruct (Z.ltb_spec left right); [|eexists; split; [done|cbn; lia]].
    rewrite (wrap_small 32 (left + right) : _ -> u32 _ = _) by lia. set (mid := (left + right) / 2). assert (left <= mid < right) as Hm by (subst mid; split; [apply Z.div_le_lower_bound|apply Z.div_lt_upper_bound]; lia).
    assert (exists f, (a ++ b) !! Z.to_nat mid = Some f) as [f Ef]. { apply lookup_lt_is_Some_2. unfold zlen in *. lia. }
    unfold file_at. rewrite Ef. cbn [rbind]. assert (internal_valid valid (largest f)) as Hf by (eapply Forall_lookup in Hv; [exact Hv|exact Ef]). rewrite encode_internal by done. cbn [rbind].
    rewrite internal_compare_ret by done. cbn [rbind]. destruct (Z.ltb_spec (order (largest f) key) 0) as [Hlt|Hge]; (eexists; split; [done|]); cbn [fst snd].
    + rewrite (wrap_small 32 (mid + 1) : _ -> u32 _ = _) by lia. assert (mid < zlen a); [|lia]. destruct (Z.lt_ge_cases mid (zlen a)) as [|Hx]; [done|]. unfold zlen in Hx.
      rewrite lookup_app_r in Ef by lia. eapply Forall_lookup in Hb; [|exact Ef]. cbn in Hb. lia.
    + assert (zlen a <= mid); [|lia]. destruct (Z.lt_ge_cases mid (zlen a)) as [Hx|]; [|done]. unfold zlen in Hx.
      rewrite lookup_app_l in Ef by lia. eapply Forall_lookup in Ha; [|exact Ef]. cbn in Ha. lia.
  - cbn. rewrite zlen_app. pose proof (zlen_nonneg a). pose proof (zlen_nonneg b). lia.
  - cbn. unfold zlen. lia.
Qed.

(** *** Overlap *)

Definition after_file (k : option (list Z)) (f : FileMetaData) : bool := match k with Some k => 0 <? cmp k (user_part (largest f)) | None => false end.
Definition before_file (k : option (list Z)) (f : FileMetaData) : bool := match k with Some k => cmp k (user_part (smallest f)) <? 0 | None => false end.

(** A key of the range may be in the file. *)
Definition overlaps (b e : option (list Z)) (f : FileMetaData) : bool := negb (after_file b f || before_file e f).

Definition bound_ok (k : option (list Z)) : Prop := match k with Some k => valid k | None => True end.

Lemma AfterFile_ret k f : bound_ok k -> internal_valid valid (largest f) -> AfterFile user k f = Ret (after_file k f).
Proof.
  intros Hk Hf. destruct k as [k|]; [|done]. cbn [AfterFile after_file]. rewrite user_key_ret by done. cbn [rbind]. pose proof (proj2 (proj2 Hf)). rewrite laws_compare by done. cbn [rbind]. by rewrite Z.gtb_ltb.
Qed.

Lemma BeforeFile_ret k f : bound_ok k -> internal_valid valid (smallest f) -> BeforeFile user k f = Ret (before_file k f).
Proof.
  intros Hk Hf. destruct k as [k|]; [|done]. cbn [BeforeFile before_file]. rewrite user_key_ret by done. cbn [rbind]. pose proof (proj2 (proj2 Hf)). by rewrite laws_compare by done.
Qed.

Lemma some_file_overlaps_ret b e files : bound_ok b -> bound_ok e -> Forall file_fine files -> some_file_overlaps user files b e = Ret (existsb (overlaps b e) files).
Proof.
  intros Hb He. induction 1 as [|f files ((Hs & _) & (Hl & _) & _) _ IH]; [done|]. cbn [some_file_overlaps existsb]. rewrite AfterFile_ret by done. cbn [rbind]. unfold overlaps at 1.
  destruct (after_file b f); cbn [rbind orb negb]; [done|]. rewrite BeforeFile_ret by done. cbn [rbind]. by destruct (before_file e f).
Qed.

Lemma order_user_le a b : internal_valid valid a -> internal_valid valid b -> order a b <= 0 -> cmp (user_part a) (user_part b) <= 0.
Proof. unfold internal_order. destruct (Z.eqb_spec (cmp (user_part a) (user_part b)) 0); lia. Qed.

Lemma earliest_spec k g : valid k -> key_fine g -> order g (PutFixed64 k earliest) < 0 <-> 0 < cmp k (user_part g).
Proof.
  intros Hk [(_ & _ & Hg) Ht]. unfold internal_order. rewrite user_part_put, tail_num_put by (vm_compute; split; congruence). pose proof (order_flip (cmp := cmp) _ _ Hk Hg).
  destruct (Z.eqb_spec (cmp (user_part g) k) 0); [|lia]. rewrite Z.gtb_ltb. destruct (Z.ltb_spec earliest (tail_num g)); [lia|]. destruct (Z.ltb_spec (tail_num g) earliest); lia.
Qed.

Lemma sorted_after b f g : bound_ok b -> file_fine f -> file_fine g -> order (largest f) (smallest g) < 0 -> after_file b g = true -> after_file b f = true.
Proof.
  intros Hb (_ & [Hf _] & _) ([Hg1 _] & [Hg2 _] & Hg) Hlt. destruct b as [k|]; [|done]. cbn [after_file bound_ok] in *. rewrite !Z.ltb_lt. intros Hk.
  assert (order (largest f) (largest g) <= 0) as Hle by (apply (order_trans (cmp := order) (valid := internal_valid valid) _ (smallest g)); [done..|lia|done]). apply order_user_le in Hle; [|done..].
  destruct Hf as (_ & _ & Hf), Hg2 as (_ & _ & Hg2). pose proof (order_flip (cmp := cmp) _ _ Hb Hf). pose proof (order_flip (cmp := cmp) _ _ Hb Hg2). pose proof (order_le_lt (cmp := cmp) _ _ _ Hf Hg2 Hb). lia.
Qed.

Lemma sorted_before e f g : bound_ok e -> file_fine f -> file_fine g -> order (largest f) (smallest g) < 0 -> before_file e f = true -> before_file e g = true.
Proof.
  intros He ([Hf1 _] & [Hf2 _] & Hf) ([Hg _] & _) Hlt. destruct e as [k|]; [|done]. cbn [before_file bound_ok] in *. rewrite !Z.ltb_lt. intros Hk.
  assert (order (smallest f) (smallest g) <= 0) as Hle by (apply (order_trans (cmp := order) (valid := internal_valid valid) _ (largest f)); [done..|lia]). apply order_user_le in Hle; [|done..].
  destruct Hf1 as (_ & _ & Hf1), Hg as (_ & _ & Hg). by apply (order_lt_le (cmp := cmp) _ (user_part (smallest f))).
Qed.

Lemma split_after b files : bound_ok b -> Forall file_fine files -> level_sorted files ->
  exists x y, files = x ++ y /\ Forall (fun f => after_file b f = true) x /\ Forall (fun f => after_file b f = false) y.
Proof.
  intros Hb. induction 1 as [|f files Hf Hfs IH]; intros Hs; [by exists [], []|]. apply StronglySorted_inv in Hs as [Hs Hlt]. destruct (after_file b f) eqn:E.
  - destruct (IH Hs) as (x & y & -> & Hx & Hy). exists (f :: x), y. split_and!; [done|by constructor|done].
  - exists [], (f :: files). split_and!; [done|constructor|]. constructor; [done|]. rewrite Forall_forall in Hlt, Hfs |- *. intros g Hg. destruct (after_file b g) eqn:Eg; [|done].
    by rewrite (sorted_after b f g Hb Hf (Hfs g Hg) (Hlt g Hg) Eg) in E.
Qed.

Lemma existsb_none {A} (p : A -> bool) l : Forall (fun x => p x = false) l -> existsb p l = false.
Proof. induction 1 as [|x l Hx _ IH]; [done|]. cbn. by rewrite Hx. Qed.

Lemma overlaps_split b e x y : bound_ok e -> Forall file_fine y -> level_sorted y -> Forall (fun f => after_file b f = true) x -> Forall (fun f => after_file b f = false) y ->
  existsb (overlaps b e) (x ++ y) = match y with [] => false | f :: _ => negb (before_file e f) end.
Proof.
  intros He Hfine Hs Hx Hy. rewrite existsb_app, (existsb_none _ x); [|eapply Forall_impl; [exact Hx|]; intros f Hf; cbn in Hf; unfold overlaps; by rewrite Hf]. cbn [orb].
  destruct y as [|f y]; [done|]. cbn [existsb]. apply Forall_cons in Hy as [Hf Hy]. apply Forall_cons in Hfine as [Hff Hfine]. apply StronglySorted_inv in Hs as [_ Hlt]. unfold overlaps at 1. rewrite Hf. cbn [orb].
  destruct (before_file e f) eqn:E; [|done]. cbn [negb orb]. apply existsb_none. rewrite Forall_forall in Hfine, Hlt |- *. intros g Hg. unfold overlaps.
  rewrite (sorted_before e f g He Hff (Hfine g Hg) (Hlt g Hg) E). by rewrite orb_true_r.
Qed.

Lemma SomeFileOverlapsRange_ret disjoint files b e : (disjoint = true -> level_sorted files) -> zlen files < 2 ^ 31 -> bound_ok b -> bound_ok e -> Forall file_fine files ->
  SomeFileOverlapsRange user disjoint files b e = Ret (existsb (overlaps b e) files).
Proof.
  intros Hd Hl Hb He Hf. unfold SomeFileOverlapsRange. destruct disjoint; cbn [negb]; [|by apply some_file_overlaps_ret]. specialize (Hd eq_refl). destruct (split_after b files Hb Hf Hd) as (x & y & -> & Hx & Hy).
  assert (Forall file_fine y /\ level_sorted y) as [Hfy Hsy] by (split; [by apply Forall_app in Hf as [_ ?]|by apply StronglySorted_app in Hd as (_ & _ & ?)]).
  assert (match b with Some k => let! small_key := new_internal_key k kMaxSequenceNumber kValueTypeForSeek in let! small_key := Encode small_key in FindFile user (x ++ y) small_key | None => Ret 0 end = Ret (zlen x)) as ->.
  { destruct b as [k|]; [|destruct x as [|f x]; [done|by apply Forall_cons in Hx as [? _]]]. assert (new_internal_key k kMaxSequenceNumber kValueTypeForSeek = Ret (PutFixed64 k earliest)) as -> by done. cbn [rbind].
    pose proof (put_earliest_valid k Hb) as Hk. rewrite encode_internal by done. cbn [rbind]. apply FindFile_ok; [done| |done| |].
    - eapply Forall_impl; [exact Hf|]. by intros f (_ & [? _] & _).
    - apply Forall_app in Hf as [Hf _]. rewrite Forall_forall in Hx, Hf |- *. intros f Hin. destruct (Hf f Hin) as (_ & Hg & _). apply earliest_spec; [done|done|]. specialize (Hx f Hin). cbn in Hx. lia.
    - rewrite Forall_forall in Hy, Hfy |- *. intros f Hin. destruct (Hfy f Hin) as (_ & Hg & _). specialize (Hy f Hin). cbn in Hy. pose proof (earliest_spec k (largest f) Hb Hg). lia. }
  cbn [rbind]. rewrite (overlaps_split b e x y) by done. rewrite zlen_app. destruct y as [|f y].
  - change (zlen []) with 0. by destruct (Z.geb_spec (zlen x) (zlen x + 0)); [|lia].
  - rewrite zlen_cons. pose proof (zlen_nonneg y). destruct (Z.geb_spec (zlen x) (zlen x + (zlen y + 1))) as [Hge|_]; [lia|]. destruct (Z.geb_spec (zlen x) (zlen x + (1 + zlen y))); [lia|].
    rewrite file_at_ok by done. cbn [rbind]. apply Forall_cons in Hfy as [([Hfs _] & _) _]. by rewrite BeforeFile_ret.
Qed.

(** *** The files that overlap a range *)

Lemma compare_to_ret key a sign : bound_ok key -> valid a -> compare_to user key a sign = Ret (match key with Some k => sign * cmp a k <? 0 | None => false end).
Proof. intros Hk Ha. destruct key as [k|]; [|done]. cbn [compare_to]. by rewrite laws_compare by done. Qed.

(** The range is between [b] and [e], and [B] and [E] are further out. *)
Definition wider (b e B E : option (list Z)) : Prop :=
  match b, B with Some b, Some B => cmp B b <= 0 | None, None => True | _, _ => False end /\
  match e, E with Some e, Some E => cmp e E <= 0 | None, None => True | _, _ => False end.

(** No key of the file is outside the range. *)
Definition inside (b e : option (list Z)) (f : FileMetaData) : Prop :=
  match b with Some b => cmp b (user_part (smallest f)) <= 0 | None => True end /\
  match e with Some e => cmp (user_part (largest f)) e <= 0 | None => True end.

Definition closed (files : list FileMetaData) (b e : option (list Z)) : Prop := forall f, f ∈ files -> overlaps b e f = true -> inside b e f.

Definition file_valid (f : FileMetaData) : Prop := internal_valid valid (smallest f) /\ internal_valid valid (largest f).

Lemma overlaps_wider b e B E f : file_valid f -> bound_ok b -> bound_ok e -> bound_ok B -> bound_ok E -> wider b e B E -> overlaps b e f = true -> overlaps B E f = true.
Proof.
  intros [(_ & _ & Hs) (_ & _ & Hg)] Hb He HB HE [H1 H2]. unfold overlaps. rewrite !negb_true_iff, !orb_false_iff. intros [H3 H4].
  assert (after_file B f = false). { destruct b as [b|], B as [B|]; try done. cbn [after_file bound_ok] in *. pose proof (order_trans (cmp := cmp) B b _ HB Hb Hg H1). lia. }
  split; [done|]. destruct e as [e|], E as [E|]; try done. cbn [before_file bound_ok] in *. apply Z.ltb_ge in H4. apply Z.ltb_ge.
  pose proof (order_flip (cmp := cmp) _ _ He Hs). pose proof (order_flip (cmp := cmp) _ _ HE Hs). pose proof (order_lt_le (cmp := cmp) E (user_part (smallest f)) E HE Hs HE). pose proof (order_le_lt (cmp := cmp) e E (user_part (smallest f)) He HE Hs H2). lia.
Qed.

Lemma filter_shorter {A} (p q : A -> bool) l x : (forall y, y ∈ l -> p y = true -> q y = true) -> x ∈ l -> q x = true -> p x = false ->
  (length (List.filter p l) < length (List.filter q l))%nat.
Proof.
  intros Hpq Hx Hq Hp. assert (forall l, (forall y, y ∈ l -> p y = true -> q y = true) -> (length (List.filter p l) <= length (List.filter q l))%nat) as Hle.
  { clear. induction l as [|y l IH]; intros H; [done|]. cbn [List.filter]. specialize (IH (fun z Hz => H z (proj2 (elem_of_cons _ _ _) (or_intror Hz)))). pose proof (H y ltac:(by left)).
    destruct (p y); [rewrite H0 by done; cbn; lia|]. destruct (q y); cbn; lia. }
  induction l as [|y l IH]; [by apply not_elem_of_nil in Hx|]. cbn [List.filter]. apply elem_of_cons in Hx as [->|Hx].
  - rewrite Hp, Hq. cbn. specialize (Hle l (fun z Hz => Hpq z (proj2 (elem_of_cons _ _ _) (or_intror Hz)))). lia.
  - specialize (IH (fun z Hz => Hpq z (proj2 (elem_of_cons _ _ _) (or_intror Hz))) Hx). pose proof (Hpq y ltac:(by left)). destruct (p y); [rewrite H by done; cbn; lia|]. destruct (q y); cbn; lia.
Qed.

(** Files that begin before the range, and that end behind it. *)
Definition starts_before (b : option (list Z)) (f : FileMetaData) : bool := match b with Some b => cmp (user_part (smallest f)) b <? 0 | None => false end.
Definition ends_behind (e : option (list Z)) (f : FileMetaData) : bool := match e with Some e => 0 <? cmp (user_part (largest f)) e | None => false end.

Definition widenings (files : list FileMetaData) (b e : option (list Z)) : nat :=
  (length (List.filter (starts_before b) files) + length (List.filter (ends_behind e) files))%nat.

Lemma widenings_le files b e : (widenings files b e <= 2 * length files)%nat.
Proof. unfold widenings. pose proof (filter_length_le (starts_before b) files). pose proof (filter_length_le (ends_behind e) files). lia. Qed.

(** What the loop has found, over the first [ov_i] files. *)
Record overlapping_ok (level : Z) (files : list FileMetaData) (b0 e0 : option (list Z)) (st : Overlapping) : Prop := {
  oo_begin : bound_ok (user_begin st);
  oo_end : bound_ok (user_end st);
  oo_inputs : inputs_ st = List.filter (overlaps (user_begin st) (user_end st)) (take (ov_i st) files);
  oo_wider : wider b0 e0 (user_begin st) (user_end st);
  oo_range : if level =? 0 then Forall (inside (user_begin st) (user_end st)) (inputs_ st) /\
      forall B E, bound_ok B -> bound_ok E -> closed files B E -> wider b0 e0 B E -> wider (user_begin st) (user_end st) B E
    else user_begin st = b0 /\ user_end st = e0;
}.

Lemma wider_refl b e : bound_ok b -> bound_ok e -> wider b e b e.
Proof. intros Hb He. split; [destruct b|destruct e]; [|done|..|done]; cbn in *; rewrite (order_refl (cmp := cmp)); done. Qed.

Lemma wider_trans b e b1 e1 b2 e2 : bound_ok b -> bound_ok e -> bound_ok b1 -> bound_ok e1 -> bound_ok b2 -> bound_ok e2 -> wider b e b1 e1 -> wider b1 e1 b2 e2 -> wider b e b2 e2.
Proof.
  intros Hb He Hb1 He1 Hb2 He2 [H1 H2] [H3 H4]. split.
  - destruct b as [b|], b1 as [b1|], b2 as [b2|]; try done. cbn in *. by apply (order_trans (cmp := cmp) _ b1).
  - destruct e as [e|], e1 as [e1|], e2 as [e2|]; try done. cbn in *. by apply (order_trans (cmp := cmp) _ e1).
Qed.

Definition overlapping_measure (files : list FileMetaData) (st : Overlapping) : nat :=
  (widenings files (user_begin st) (user_end st) * (length files + 1) + (length files - ov_i st))%nat.

(** A restart: the range is widened to an end of the file. *)
Lemma restart_ok files b0 e0 st b e f : Forall file_valid files -> bound_ok b0 -> bound_ok e0 -> overlapping_ok 0 files b0 e0 st -> f ∈ files -> overlaps (user_begin st) (user_end st) f = true ->
  (b = user_begin st /\ e = Some (user_part (largest f)) /\ ends_behind (user_end st) f = true) \/ (b = Some (user_part (smallest f)) /\ e = user_end st /\ starts_before (user_begin st) f = true) ->
  overlapping_ok 0 files b0 e0 (mk_overlapping 0 b e []) /\ (overlapping_measure files (mk_overlapping 0 b e []) < overlapping_measure files st)%nat.
Proof.
  intros Hfiles Hb0 He0 [Hb He Hin Hw [_ Hleast]] Hf Hov Hbe. pose proof Hfiles as Hfiles'. rewrite Forall_forall in Hfiles. destruct (Hfiles f Hf) as [(_ & _ & Hs) (_ & _ & Hg)].
  assert (bound_ok b /\ bound_ok e) as [Hb' He'] by (by destruct Hbe as [(-> & -> & _)|(-> & -> & _)]).
  assert (wider (user_begin st) (user_end st) b e) as Hwe.
  { destruct (wider_refl _ _ Hb He) as [H1 H2]. destruct Hbe as [(-> & -> & Hx)|(-> & -> & Hx)]; (split; [|done]) || (split; [done|]).
    - destruct (user_end st) as [k|]; [|done]. cbn in *. apply Z.ltb_lt in Hx. pose proof (order_flip (cmp := cmp) _ _ He Hg). lia.
    - destruct (user_begin st) as [k|]; [|done]. cbn in *. apply Z.ltb_lt in Hx. lia. }
  split.
  - split; cbn [user_begin user_end inputs_ ov_i]; [done|done|done|by apply (wider_trans _ _ (user_begin st) (user_end st))|]. cbn [Z.eqb]. split; [constructor|]. intros B E HB HE Hc Hw0.
    pose proof (Hleast B E HB HE Hc Hw0) as [H1 H2]. assert (overlaps B E f = true) as Hov' by (by apply (overlaps_wider (user_begin st) (user_end st) B E f); [apply Hfiles|..]).
    destruct (Hc f Hf Hov') as [Hi1 Hi2]. destruct Hbe as [(-> & -> & Hx)|(-> & -> & Hx)]; (split; [|done]) || (split; [done|]).
    + destruct (user_end st) as [k|]; [|done]. by destruct E as [E|].
    + destruct (user_begin st) as [k|]; [|done]. by destruct B as [B|].
  - unfold overlapping_measure. cbn [user_begin user_end ov_i]. enough (widenings files b e < widenings files (user_begin st) (user_end st))%nat by nia. unfold widenings. destruct Hbe as [(-> & -> & Hx)|(-> & -> & Hx)].
    + enough (length (List.filter (ends_behind (Some (user_part (largest f)))) files) < length (List.filter (ends_behind (user_end st)) files))%nat by lia.
      apply (filter_shorter _ _ _ f); [|done|done|cbn; rewrite (order_refl (cmp := cmp)); done]. intros g Hgin. destruct (user_end st) as [k|]; [|done]. cbn in *. rewrite !Z.ltb_lt in *. intros Hgf.
      destruct (Hfiles g Hgin) as [_ (_ & _ & Hgv)]. pose proof (order_flip (cmp := cmp) _ _ He Hg). pose proof (order_flip (cmp := cmp) _ _ He Hgv). pose proof (order_flip (cmp := cmp) _ _ Hg Hgv).
      pose proof (order_lt_trans (cmp := cmp) k (user_part (largest f)) (user_part (largest g)) He Hg Hgv). lia.
    + enough (length (List.filter (starts_before (Some (user_part (smallest f)))) files) < length (List.filter (starts_before (user_begin st)) files))%nat by lia.
      apply (filter_shorter _ _ _ f); [|done|done|cbn; rewrite (order_refl (cmp := cmp)); done]. intros g Hgin. destruct (user_begin st) as [k|]; [|done]. cbn in *. rewrite !Z.ltb_lt in *. intros Hgf.
      destruct (Hfiles g Hgin) as [(_ & _ & Hgv) _]. by apply (order_lt_trans (cmp := cmp) _ (user_part (smallest f))).
Qed.

(** Going on to the next file. *)
Lemma go_on_ok level files b0 e0 st f inputs : overlapping_ok level files b0 e0 st -> files !! ov_i st = Some f ->
  inputs = inputs_ st ++ (if overlaps (user_begin st) (user_end st) f then [f] else []) -> (level = 0 -> overlaps (user_begin st) (user_end st) f = true -> inside (user_begin st) (user_end st) f) ->
  overlapping_ok level files b0 e0 (mk_overlapping (Datatypes.S (ov_i st)) (user_begin st) (user_end st) inputs) /\
  (overlapping_measure files (mk_overlapping (Datatypes.S (ov_i st)) (user_begin st) (user_end st) inputs) < overlapping_measure files st)%nat.
Proof.
  intros [Hb He Hin Hw Hr] Ef -> Hi. pose proof (lookup_lt_Some _ _ _ Ef). split; [|unfold overlapping_measure; cbn [user_begin user_end ov_i]; lia].
  split; cbn [user_begin user_end inputs_ ov_i]; [done|done| |done|].
  - rewrite (take_S_r _ _ _ Ef), List.filter_app, <- Hin. done.
  - destruct (Z.eqb_spec level 0) as [->|]; [|done]. destruct Hr as [H1 H2]. split; [|done]. apply Forall_app. split; [done|]. destruct (overlaps _ _ f) eqn:E; [|constructor]. constructor; [by apply Hi|constructor].
Qed.

Lemma overlapping_round_ok level files b0 e0 st : Forall file_valid files -> bound_ok b0 -> bound_ok e0 -> overlapping_ok level files b0 e0 st ->
  exists x, overlapping_round user level files st = Ret x /\
    match x with
    | inl st' => overlapping_ok level files b0 e0 st' /\ (overlapping_measure files st' < overlapping_measure files st)%nat
    | inr inputs => exists b e, overlapping_ok level files b0 e0 (mk_overlapping (length files) b e inputs)
    end.
Proof.
  intros Hfiles Hb0 He0 Hok. pose proof Hok as [Hb He Hin Hw Hr]. unfold overlapping_round. destruct (files !! ov_i st) as [f|] eqn:Ef.
  2: { eexists. split; [done|]. apply lookup_ge_None in Ef. exists (user_begin st), (user_end st). split; cbn [user_begin user_end inputs_ ov_i]; [done|done| |done|done]. rewrite take_ge in Hin by lia. by rewrite take_ge by lia. }
  assert (f ∈ files) as Hf by (by eapply list_elem_of_lookup_2). rewrite Forall_forall in Hfiles. destruct (Hfiles f Hf) as [Hs Hg]. rewrite !user_key_ret by done. cbn [rbind]. pose proof (proj2 (proj2 Hs)) as Hsv. pose proof (proj2 (proj2 Hg)) as Hgv.
  rewrite compare_to_ret by done. cbn [rbind].
  assert ((match user_begin st with Some k => 1 * cmp (user_part (largest f)) k <? 0 | None => false end) = after_file (user_begin st) f) as ->.
  { destruct (user_begin st) as [k|]; [|done]. cbn in *. pose proof (order_flip (cmp := cmp) _ _ Hb Hgv). lia. }
  destruct (after_file (user_begin st) f) eqn:Ea.
  { eexists. split; [done|]. apply (go_on_ok level files b0 e0 st f); [done|done| |]; unfold overlaps; rewrite Ea; [by rewrite app_nil_r|done]. }
  rewrite compare_to_ret by done. cbn [rbind].
  assert ((match user_end st with Some k => -1 * cmp (user_part (smallest f)) k <? 0 | None => false end) = before_file (user_end st) f) as ->.
  { destruct (user_end st) as [k|]; [|done]. cbn in *. pose proof (order_flip (cmp := cmp) _ _ He Hsv). lia. }
  destruct (before_file (user_end st) f) eqn:Eb.
  { eexists. split; [done|]. apply (go_on_ok level files b0 e0 st f); [done|done| |]; unfold overlaps; rewrite Ea, Eb; [by rewrite app_nil_r|done]. }
  assert (overlaps (user_begin st) (user_end st) f = true) as Hov by (unfold overlaps; by rewrite Ea, Eb). destruct (Z.eqb_spec level 0) as [->|Hl].
  - rewrite compare_to_ret by done. cbn [rbind]. assert ((match user_begin st with Some k => 1 * cmp (user_part (smallest f)) k <? 0 | None => false end) = starts_before (user_begin st) f) as -> by (destruct (user_begin st); [cbn; lia|done]).
    destruct (starts_before (user_begin st) f) eqn:Es.
    { eexists. split; [done|]. apply (restart_ok files b0 e0 st _ _ f); [by apply Forall_forall|done..|by right]. }
    rewrite compare_to_ret by done. cbn [rbind]. assert ((match user_end st with Some k => -1 * cmp (user_part (largest f)) k <? 0 | None => false end) = ends_behind (user_end st) f) as -> by (destruct (user_end st); [cbn; lia|done]).
    destruct (ends_behind (user_end st) f) eqn:Ee.
    { eexists. split; [done|]. apply (restart_ok files b0 e0 st _ _ f); [by apply Forall_forall|done..|by left]. }
    eexists. split; [done|]. apply (go_on_ok 0 files b0 e0 st f); [done|done|by rewrite Hov|]. intros _ _. split.
    + destruct (user_begin st) as [k|]; [|done]. cbn in *. apply Z.ltb_ge in Es. pose proof (order_flip (cmp := cmp) _ _ Hb Hsv). lia.
    + destruct (user_end st) as [k|]; [|done]. cbn in *. by apply Z.ltb_ge in Ee.
  - eexists. split; [done|]. by apply (go_on_ok level files b0 e0 st f); [..|rewrite Hov|].
Qed.

(** *** The levels of a version *)

Definition levels_fine (files_ : list (list FileMetaData)) : Prop :=
  zlen files_ = kNumLevels /\ forall level files, files_ !! level = Some files -> Forall file_fine files /\ zlen files < 2 ^ 31 /\ (level <> O -> level_sorted files).

Lemma fine_valid f : file_fine f -> file_valid f.
Proof. by intros ([? _] & [? _] & _). Qed.

Lemma level_files_ok files_ level : zlen files_ = kNumLevels -> 0 <= level < kNumLevels -> exists files, files_ !! Z.to_nat level = Some files /\ level_files files_ level = Ret files.
Proof.
  intros Hl Hr. destruct (lookup_lt_is_Some_2 files_ (Z.to_nat level)) as [files E]; [unfold zlen in Hl; lia|]. exists files. split; [done|]. unfold level_files. by rewrite E.
Qed.

Definition key_bound (k : option InternalKey) : Prop := match k with Some k => internal_valid valid k | None => True end.

Lemma user_key_of_ret k : key_bound k -> user_key_of k = Ret (option_map user_part k) /\ bound_ok (option_map user_part k).
Proof. intros Hk. destruct k as [k|]; [|done]. cbn [user_key_of option_map key_bound bound_ok] in *. rewrite user_key_ret by done. split; [done|apply Hk]. Qed.

Lemma overlapping_inputs_ok files_ level files begin_ end_ : zlen files_ = kNumLevels -> 0 <= level < kNumLevels -> files_ !! Z.to_nat level = Some files ->
  Forall file_valid files -> key_bound begin_ -> key_bound end_ ->
  exists inputs b e, GetOverlappingInputs user files_ level begin_ end_ = Ret inputs /\
    overlapping_ok level files (option_map user_part begin_) (option_map user_part end_) (mk_overlapping (length files) b e inputs).
Proof.
  intros Hl Hr Ef Hfiles Hb He. destruct (user_key_of_ret begin_ Hb) as [Eb Hb'], (user_key_of_ret end_ He) as [Ee He']. unfold GetOverlappingInputs. unfold assert_.
  destruct (Z.geb_spec level 0); [|lia]. destruct (Z.ltb_spec level kNumLevels); [|lia]. cbn [rbind]. rewrite Eb, Ee. cbn [rbind]. unfold level_files. rewrite Ef. cbn [rbind].
  destruct (loop_total (overlapping_ok level files (option_map user_part begin_) (option_map user_part end_)) (overlapping_measure files)
    (fun inputs => exists b e, overlapping_ok level files (option_map user_part begin_) (option_map user_part end_) (mk_overlapping (length files) b e inputs))
    (overlapping_round user level files) (overlapping_fuel (length files)) (mk_overlapping 0 (option_map user_part begin_) (option_map user_part end_) [])) as (inputs & E & b & e & H1).
  - intros st Hst. by apply overlapping_round_ok.
  - split; cbn [user_begin user_end inputs_ ov_i]; [done|done|done|by apply wider_refl|]. destruct (level =? 0); [|done]. split; [constructor|done].
  - unfold overlapping_measure, overlapping_fuel. cbn [user_begin user_end ov_i]. pose proof (widenings_le files (option_map user_part begin_) (option_map user_part end_)). nia.
  - by exists inputs, b, e.
Qed.

Lemma OverlapInLevel_ok files_ level files b e : levels_fine files_ -> 0 <= level < kNumLevels -> files_ !! Z.to_nat level = Some files -> bound_ok b -> bound_ok e ->
  OverlapInLevel user files_ level b e = Ret (existsb (overlaps b e) files).
Proof.
  intros [Hl H] Hr Ef Hb He. destruct (H _ _ Ef) as (H1 & H2 & H3). unfold OverlapInLevel, level_files. rewrite Ef. cbn [rbind]. apply SomeFileOverlapsRange_ret; [|done..].
  intros Hpos%Z.ltb_lt. apply H3. lia.
Qed.

(** No file of the level may have a key of the range. *)
Definition level_clear (files_ : list (list FileMetaData)) (b e : list Z) (level : Z) : Prop :=
  forall files, files_ !! Z.to_nat level = Some files -> existsb (overlaps (Some b) (Some e)) files = false.

Lemma PickLevel_ok files_ max_file_size b e : levels_fine files_ -> valid b -> valid e -> exists level,
  PickLevelForMemTableOutput user files_ max_file_size b e = Ret level /\ 0 <= level <= kMaxMemCompactLevel /\ (0 < level -> forall l, 0 <= l <= level -> level_clear files_ b e l).
Proof.
  intros Hfine Hb He. pose proof Hfine as [Hl Hall]. unfold PickLevelForMemTableOutput, kMaxMemCompactLevel. destruct (level_files_ok files_ 0 Hl ltac:(unfold kNumLevels; lia)) as (f0 & E0 & _).
  rewrite (OverlapInLevel_ok files_ 0 f0) by (done || (unfold kNumLevels; lia)). cbn [rbind]. destruct (existsb _ f0) eqn:Ex0; [exists 0; split; [done|split; lia]|].
  assert (level_clear files_ b e 0) as Hc0 by (intros f Ef; rewrite E0 in Ef; by injection Ef as <-). assert (exists start, new_internal_key b kMaxSequenceNumber kValueTypeForSeek = Ret start /\ internal_valid valid start) as (start & -> & Hs).
  { eexists. split; [done|]. by apply put_earliest_valid. }
  assert (exists limit, new_internal_key e 0 kTypeDeletion = Ret limit /\ internal_valid valid limit) as (limit & -> & Hlim).
  { eexists. split; [done|]. apply internal_valid_put; [done|by eapply laws_bytes]. }
  cbn [rbind]. destruct (loop_total (fun l => 0 <= l <= 2 /\ forall l', 0 <= l' <= l -> level_clear files_ b e l') (fun l => Z.to_nat (2 - l)) (fun l => 0 <= l <= 2 /\ forall l', 0 <= l' <= l -> level_clear files_ b e l')
    (pick_round user files_ max_file_size b e start limit) 3 0) as (level & El & Hlev & Hcl).
  - intros l [Hr Hc]. unfold pick_round, kMaxMemCompactLevel. destruct (Z.ltb_spec l 2); [|by eexists]. destruct (level_files_ok files_ (l + 1) Hl ltac:(unfold kNumLevels; lia)) as (f1 & E1 & _).
    rewrite (OverlapInLevel_ok files_ (l + 1) f1) by (done || (unfold kNumLevels; lia)). cbn [rbind]. destruct (existsb _ f1) eqn:Ex1; [by eexists|]. unfold kNumLevels. destruct (Z.ltb_spec (l + 2) 7); [|lia].
    destruct (level_files_ok files_ (l + 2) Hl ltac:(unfold kNumLevels; lia)) as (f2 & E2 & _). destruct (Hall _ _ E2) as (Hf2 & _).
    destruct (overlapping_inputs_ok files_ (l + 2) f2 (Some start) (Some limit) Hl ltac:(unfold kNumLevels; lia) E2) as (inputs & b' & e' & -> & _); [by eapply Forall_impl; [exact Hf2|apply fine_valid]|done|done|].
    cbn [rbind]. destruct (_ >? _); [by eexists|]. eexists. split; [done|]. split; [|lia]. split; [lia|]. intros l' Hl'. destruct (Z.eq_dec l' (l + 1)) as [->|]; [|apply Hc; lia]. intros f Ef. rewrite E1 in Ef. by injection Ef as <-.
  - split; [lia|]. intros l' Hl'. by replace l' with 0 by lia.
  - cbn. lia.
  - exists level. split; [done|]. split; [lia|]. intros _. exact Hcl.
Qed.

(** ** Theorems *)

(** Whether a range overlaps the files is the same by binary search, for files that
    follow one another, as by looking at each. *)
Theorem overlap_search disjoint files b e : (disjoint = true -> level_sorted files) -> zlen files < 2 ^ 31 -> bound_ok b -> bound_ok e -> Forall file_fine files ->
  SomeFileOverlapsRange user disjoint files b e = Ret (existsb (overlaps b e) files).
Proof. apply SomeFileOverlapsRange_ret. Qed.

(** C13. The search for the files that overlap a range ends, with the files of the level
    that overlap it, in their order; in level 0 of the least range around it that
    no file it overlaps sticks out of. *)
Theorem overlapping_inputs files_ level files begin_ end_ : zlen files_ = kNumLevels -> 0 <= level < kNumLevels -> files_ !! Z.to_nat level = Some files ->
  Forall file_valid files -> key_bound begin_ -> key_bound end_ ->
  exists inputs b e, GetOverlappingInputs user files_ level begin_ end_ = Ret inputs /\ inputs = List.filter (overlaps b e) files /\
    wider (option_map user_part begin_) (option_map user_part end_) b e /\
    if level =? 0 then closed files b e /\
      forall B E, bound_ok B -> bound_ok E -> closed files B E -> wider (option_map user_part begin_) (option_map user_part end_) B E -> wider b e B E
    else b = option_map user_part begin_ /\ e = option_map user_part end_.
Proof.
  intros Hl Hr Ef Hfiles Hb He. destruct (overlapping_inputs_ok files_ level files begin_ end_ Hl Hr Ef Hfiles Hb He) as (inputs & b & e & E & [_ _ Hin Hw Hrange]). cbn [user_begin user_end inputs_ ov_i] in *.
  rewrite firstn_all in Hin. exists inputs, b, e. split_and!; [done|done|done|]. destruct (level =? 0); [|done]. destruct Hrange as [H1 H2]. split; [|done]. intros f Hf Ho. rewrite Forall_forall in H1. apply H1. rewrite Hin.
  apply list_elem_of_In, filter_In. split; [by apply list_elem_of_In|done].
Qed.

(** C16. A memtable is written to a level below which, and in which, no file may have a key
    of its range; at most to level 2. *)
Theorem memtable_level files_ max_file_size b e : levels_fine files_ -> valid b -> valid e -> exists level,
  PickLevelForMemTableOutput user files_ max_file_size b e = Ret level /\ 0 <= level <= kMaxMemCompactLevel /\ (0 < level -> forall l, 0 <= l <= level -> level_clear files_ b e l).
Proof. apply PickLevel_ok. Qed.

End Spec.
