(* ===== verification/LdbVersionGet.v ===== *)
(** * LevelDB: looking a key up in the tables of a version (db/version_set.cc)

    [Version::Get] over a cache of tables that is an interface, composed with the
    memtables of a database; and [RecordReadSample], which charges a read to the first
    of the files a lookup would search. *)
From S2P Require Import Prelude LdbCoding LdbStatus LdbLogWriter LdbOrder LdbKeys LdbMemTable LdbWriteBatch LdbDbWrite LdbIterator LdbDbIterSpec LdbNewIterator.
From S2P Require Import LdbVersionEdit LdbVersion.
From Stdlib Require Import ZArith Lia.
From stdpp Require Import base tactics numbers list strings sorting.
#[local] Open Scope Z_scope.

(** ** The cache of tables *)

(** [TableCache::Get] with the options of the reads, over the state [T] of the cache: the
    status, and with what entry [handle_result] was called. *)
Class TableCache (T : Type) : Type := tc_Get : Z -> Z -> list Z -> T -> res (Status * option (list Z * list Z) * T).

(** ** Definitions *)

Section Get.
Context {T : Type} {tc : TableCache T} (user : Comparator).

Inductive SaverState := kNotFound | kFound | kDeleted | kCorrupt.

(** [s->user_key] is [user_key]; a state and a value are what it leaves. *)
Definition SaveValue (user_key value : list Z) (ikey v : list Z) : res (SaverState * list Z) :=
  let (ok, parsed_key) := ParseInternalKey ikey (mk_parsed [] 0 0) in
  if negb ok then Ret (kCorrupt, value)
  else
    let! r := Compare user (LdbKeys.user_key parsed_key) user_key in
    if r =? 0 then if key_type parsed_key =? kTypeValue then Ret (kFound, v) else Ret (kDeleted, value)
    else Ret (kNotFound, value).

Record GetStats := mk_stats { seek_file : option FileMetaData; seek_file_level : Z }.

(** [std::sort(..., NewestFirst)]; no two files have the same number. *)
Fixpoint insert_newest (f : FileMetaData) (l : list FileMetaData) : list FileMetaData :=
  match l with
  | [] => [f]
  | g :: l' => if number f >? number g then f :: l else g :: insert_newest f l'
  end.
Definition sort_newest (l : list FileMetaData) : list FileMetaData := foldr insert_newest [] l.

(** The files of level 0 that overlap the user key. *)
Fixpoint files_with (user_key : list Z) (files : list FileMetaData) : res (list FileMetaData) :=
  match files with
  | [] => Ret []
  | f :: files =>
      let! s := internal_user_key (smallest f) in
      let! r := Compare user user_key s in
      let! found :=
        if r >=? 0 then
          let! g := internal_user_key (largest f) in
          let! r := Compare user user_key g in
          Ret (r <=? 0)
        else Ret false in
      let! tmp := files_with user_key files in
      Ret (if found then f :: tmp else tmp)
  end.

(** The files to search in a level. *)
Definition files_to_search (level : Z) (files : list FileMetaData) (ikey user_key : list Z) : res (list FileMetaData) :=
  if level =? 0 then
    let! tmp := files_with user_key files in
    Ret (sort_newest tmp)
  else
    let! index := FindFile user files ikey in
    if index >=? zlen files then Ret []
    else
      let! tmp2 := file_at files index in
      let! s := internal_user_key (smallest tmp2) in
      let! r := Compare user user_key s in
      Ret (if r <? 0 then [] else [tmp2]).

(** The variables of [Get] that the search changes; the file read last has its level. *)
Record Getting := mk_getting { tables : T; value_ : list Z; stats_ : GetStats; last_file_read : option (FileMetaData * Z) }.

(** [inr] when [Get] returns. *)
Definition search_file (level : Z) (ikey user_key : list Z) (f : FileMetaData) (st : Getting) : res (Getting + (Status * Getting)) :=
  let stats := match last_file_read st, seek_file (stats_ st) with Some (last, l), None => mk_stats (Some last) l | _, _ => stats_ st end in
  let! (s, found, t) := tc_Get (number f) (file_size f) ikey (tables st) in
  let! (state, value) := match found with Some (k, v) => SaveValue user_key (value_ st) k v | None => Ret (kNotFound, value_ st) end in
  let st := mk_getting t value stats (Some (f, level)) in
  if negb (is_ok s) then Ret (inr (s, st))
  else
    match state with
    | kNotFound => Ret (inl st)
    | kFound => Ret (inr (s, st))
    | kDeleted => Ret (inr (NotFound [] [], st))
    | kCorrupt => Ret (inr (Corruption (bytes_of "corrupted key for ") user_key, st))
    end.

Fixpoint search_files (level : Z) (ikey user_key : list Z) (files : list FileMetaData) (st : Getting) : res (Getting + (Status * Getting)) :=
  match files with
  | [] => Ret (inl st)
  | f :: files =>
      let! r := search_file level ikey user_key f st in
      match r with inl st => search_files level ikey user_key files st | inr r => Ret (inr r) end
  end.

(** From level [level] on. *)
Fixpoint search_levels (level : Z) (ikey user_key : list Z) (levels : list (list FileMetaData)) (st : Getting) : res (Getting + (Status * Getting)) :=
  match levels with
  | [] => Ret (inl st)
  | files :: levels =>
      let! r :=
        match files with
        | [] => Ret (inl st)
        | _ => let! fs := files_to_search level files ikey user_key in search_files level ikey user_key fs st
        end in
      match r with inl st => search_levels (level + 1) ikey user_key levels st | inr r => Ret (inr r) end
  end.

(** The status, [*value], [*stats] and the tables. *)
Definition Version_Get (files_ : list (list FileMetaData)) (k : LookupKey) (value : list Z) (t : T) : res (Status * list Z * GetStats * T) :=
  let! r := search_levels 0 (internal_key k) (lookup_user_key k) files_ (mk_getting t value (mk_stats None (-1)) None) in
  let (s, st) := match r with inr r => r | inl st => (NotFound [] [], st) end in
  Ret (s, value_ st, stats_ st, tables st).

End Get.

(** ** What the cache promises *)

(** [holds n z es]: the file number [n] of size [z] has a table of the entries [es];
    [ok t]: the cache in the state [t] works.  A read may fail. *)
Class LawfulTables {T : Type} {tc : TableCache T} (user_ok : list Z -> Prop) (cmp : list Z -> list Z -> Z) (holds : Z -> Z -> list entry -> Prop) (ok : T -> Prop) : Prop :=
  tables_get n z es u s t : holds n z es -> ok t -> user_ok u -> is_sequence s ->
    let first := es !! lower_bound (internal_order cmp) (PutFixed64 u (packed s kValueTypeForSeek)) (map entry_pair es) in
    exists st r t', tc_Get n z (PutFixed64 u (packed s kValueTypeForSeek)) t = Ret (st, r, t') /\ ok t' /\
      (r = None \/ r = option_map entry_pair first) /\ (is_ok st = true -> forall e, first = Some e -> cmp (e_user e) u = 0 -> r = Some (entry_pair e)).

(** ** The entries of a version *)

Section Spec.
Context {user : Comparator} {valid : list Z -> Prop} {cmp : list Z -> list Z -> Z} {laws : ComparatorLaws user valid cmp}.

Abbreviation in_order := (in_order (valid := valid) (cmp := cmp)).
Abbreviation entry_ok := (entry_ok (valid := valid)).
Abbreviation newest := (newest (cmp := cmp)).

(** A file and the entries of its table, the first and the last of which it names. *)
Record file_entries (f : FileMetaData) (es : list entry) : Prop := {
  fe_order : in_order es;
  fe_ok : Forall entry_ok es;
  fe_first : exists e, head es = Some e /\ smallest f = internal_of e;
  fe_last : exists e, last es = Some e /\ largest f = internal_of e;
}.

(** Of the same user key, the entries of [old] are not newer than those of [new]. *)
Definition older (old new : list entry) : Prop := forall e e', e ∈ old -> e' ∈ new -> cmp (e_user e) (e_user e') = 0 -> e_seq e <= e_seq e'.

Lemma internal_of_valid e : entry_ok e -> internal_valid valid (internal_of e).
Proof. intros (Hv & _). apply internal_valid_put; [done|by eapply laws_bytes]. Qed.

Lemma internal_of_fine e : entry_ok e -> key_fine (valid := valid) (internal_of e).
Proof.
  intros He. split; [by apply internal_of_valid|]. destruct He as (_ & Hs & Ht & _). destruct (PackSequenceAndType_ret _ _ Hs Ht) as [_ Hp]. unfold internal_of. rewrite tail_num_put by done.
  unfold packed, is_sequence in *. change kMaxSequenceNumber with (2 ^ 56 - 1) in Hs. change earliest with ((2 ^ 56 - 1) * 256 + 1). assert (e_type e <= 1) by (by destruct Ht as [-> | ->]). lia.
Qed.

(** *** The first entry from a key on *)

Definition first_from (u : list Z) (s : Z) (es : list entry) : option entry :=
  es !! lower_bound (internal_order cmp) (PutFixed64 u (packed s kValueTypeForSeek)) (map entry_pair es).

(** The entries before a key, and those from it on. *)
Definition sought_after (u : list Z) (s : Z) (e : entry) : Prop := cmp (e_user e) u < 0 \/ cmp (e_user e) u = 0 /\ s < e_seq e.

Lemma sought_after_spec u s e : valid u -> is_sequence s -> entry_ok e -> internal_order cmp (internal_of e) (PutFixed64 u (packed s kValueTypeForSeek)) < 0 <-> sought_after u s e.
Proof.
  intros Hu Hs (_ & He & Ht & _). unfold internal_of, sought_after. destruct (internal_order_parts (cmp := cmp) (e_user e) (e_seq e) (e_type e) u s kValueTypeForSeek He Hs Ht ltac:(by right)) as [-> _].
  assert (e_type e <= kValueTypeForSeek) by (by destruct Ht as [-> | ->]). lia.
Qed.

Lemma first_from_split u s pre post : valid u -> is_sequence s -> Forall entry_ok (pre ++ post) -> Forall (sought_after u s) pre -> Forall (fun e => ~ sought_after u s e) post ->
  first_from u s (pre ++ post) = head post.
Proof.
  intros Hu Hs Hok Hpre Hpost. unfold first_from. apply Forall_app in Hok as [Ho1 Ho2]. rewrite Forall_forall in Hpre, Hpost, Ho1, Ho2. rewrite map_app, lower_bound_split.
  - rewrite length_map, lookup_app_r, Nat.sub_diag by done. by destruct post.
  - apply Forall_map, Forall_forall. intros e He. cbn. apply sought_after_spec; auto.
  - apply Forall_map, Forall_forall. intros e He. cbn. pose proof (sought_after_spec u s e Hu Hs (Ho2 e He)). specialize (Hpost e He). destruct (Z.lt_ge_cases (internal_order cmp (internal_of e) (PutFixed64 u (packed s kValueTypeForSeek))) 0); [tauto|done].
Qed.

(** The first entry from a key on, among more entries before and behind. *)
Lemma first_from_middle u s a pre post b : valid u -> is_sequence s -> Forall entry_ok (a ++ (pre ++ post) ++ b) -> in_order (a ++ (pre ++ post) ++ b) ->
  Forall (sought_after u s) a -> Forall (sought_after u s) pre -> Forall (fun e => ~ sought_after u s e) post -> post <> [] -> first_from u s (a ++ (pre ++ post) ++ b) = head post.
Proof.
  intros Hu Hs Hall Ho Ha Hpre Hpost Hne. destruct post as [|x post]; [done|]. assert (a ++ (pre ++ x :: post) ++ b = (a ++ pre) ++ x :: post ++ b) as E by (by rewrite <- !app_assoc). rewrite E in *.
  rewrite first_from_split; [done|done|done|done|by apply Forall_app|]. destruct (in_order_split _ _ _ Ho) as ([Hvx _] & _ & Hlater). apply Forall_cons in Hpost as [Hx Hpost].
  rewrite app_comm_cons. apply Forall_app. split; [by constructor|]. apply Forall_forall. intros e He. destruct (Hlater e ltac:(rewrite elem_of_app; by right)) as [[Hve _] Hxe]. unfold sought_after, earlier in *.
  pose proof (order_flip (cmp := cmp) _ _ Hvx Hve). pose proof (order_flip (cmp := cmp) _ _ Hve Hu). pose proof (order_flip (cmp := cmp) _ _ Hvx Hu). 
  intros Hb. apply Hx. destruct Hxe as [Hxe|[Hxe Hq]], Hb as [Hb|[Hb Hb']].
  - left. by apply (order_lt_trans (cmp := cmp) _ (e_user e)).
  - left. apply (order_lt_le (cmp := cmp) _ (e_user e)); [done..|lia].
  - left. apply (order_le_lt (cmp := cmp) _ (e_user e)); [done..|lia|done].
  - right. split; [|lia]. pose proof (order_trans (cmp := cmp) (e_user x) (e_user e) u Hvx Hve Hu). pose proof (order_trans (cmp := cmp) u (e_user e) (e_user x) Hu Hve Hvx). pose proof (order_flip (cmp := cmp) _ _ Hve Hvx). lia.
Qed.

Lemma order_split es u s : in_order es -> valid u -> exists pre post, es = pre ++ post /\ Forall (sought_after u s) pre /\ Forall (fun e => ~ sought_after u s e) post.
Proof.
  intros Ho Hu. destruct (seek_split (valid := valid) (cmp := cmp) (fuel := 1) [] s ltac:(cbn; lia) es u Ho Hu) as (pre & post & -> & H1 & H2). exists pre, post. split_and!; [done|done|].
  eapply Forall_impl; [exact H2|]. intros e He. cbn in He. unfold sought_after. lia.
Qed.

Lemma unseen_before u s e : sought_after u s e -> visible (cmp := cmp) u s e = false.
Proof. unfold sought_after, visible. intros H. destruct (Z.eqb_spec (cmp (e_user e) u) 0); [|done]. cbn. lia. Qed.

(** It is the newest that is seen, when it has the user key. *)
Lemma first_newest u s es : in_order es -> Forall entry_ok es -> valid u -> is_sequence s ->
  newest u s es (match first_from u s es with Some e => if cmp (e_user e) u =? 0 then Some e else None | None => None end).
Proof.
  intros Ho Hok Hu Hs. destruct (order_split es u s Ho Hu) as (pre & post & -> & Hpre & Hpost). rewrite first_from_split by done.
  assert (Forall (fun e => visible (cmp := cmp) u s e = false) pre) as Hno by (eapply Forall_impl; [exact Hpre|]; by apply unseen_before). destruct post as [|e post]; cbn [head].
  - rewrite app_nil_r. exact Hno.
  - destruct (in_order_split _ _ _ Ho) as ([Hve _] & _ & Hlater). apply Forall_cons in Hpost as [He Hpost]. destruct (Z.eqb_spec (cmp (e_user e) u) 0) as [E|E]; cbn [LdbMemTable.newest].
    + split; [rewrite elem_of_app; right; by left|]. split; [unfold visible, sought_after in *; rewrite E; cbn; lia|]. intros e' [He'|[->|He']%elem_of_cons]%elem_of_app Hvis; [|done|].
      * rewrite Forall_forall in Hno. by rewrite (Hno e' He') in Hvis.
      * destruct (Hlater e' He') as [[Hv' _] [Hlt|(_ & Hlt)]]; [|lia]. unfold visible in Hvis. apply andb_prop in Hvis as [E'%Z.eqb_eq _].
        pose proof (order_eq_l (cmp := cmp) _ _ (e_user e') Hve Hu Hv' E). pose proof (order_flip (cmp := cmp) _ _ Hu Hv'). lia.
    + apply Forall_app. split; [done|]. assert (0 < cmp (e_user e) u) as Hgt by (unfold sought_after in He; lia). constructor; [unfold visible; by rewrite (proj2 (Z.eqb_neq _ _) E)|].
      apply Forall_forall. intros e' He'. destruct (Hlater e' He') as [[Hv' _] Hle]. apply earlier_le in Hle. unfold visible. destruct (Z.eqb_spec (cmp (e_user e') u) 0) as [E'|]; [|done].
      pose proof (order_eq_l (cmp := cmp) _ _ (e_user e) Hv' Hu Hve E'). pose proof (order_flip (cmp := cmp) _ _ Hve Hv'). pose proof (order_flip (cmp := cmp) _ _ Hve Hu). lia.
Qed.

(** *** The newest entry of several lists *)

Lemma newest_front u s new old e : valid u -> Forall entry_ok (new ++ old) -> older old new -> newest u s new (Some e) -> newest u s (new ++ old) (Some e).
Proof.
  intros Hu Hok Hold (H1 & H2 & H3). split; [rewrite elem_of_app; by left|]. split; [done|]. intros e' [He'|He']%elem_of_app Hv; [by apply H3|]. apply Hold; [done|done|].
  rewrite Forall_forall in Hok. destruct (Hok e ltac:(rewrite elem_of_app; by left)) as (Hve & _), (Hok e' ltac:(rewrite elem_of_app; by right)) as (Hve' & _). unfold visible in *.
  apply andb_prop in H2 as [H2%Z.eqb_eq _], Hv as [Hv%Z.eqb_eq _]. pose proof (order_eq_l (cmp := cmp) (e_user e') u (e_user e) Hve' Hu Hve Hv). pose proof (order_flip (cmp := cmp) _ _ Hu Hve). lia.
Qed.

Lemma newest_back u s new old f : newest u s new None -> newest u s old f -> newest u s (new ++ old) f.
Proof.
  intros Hn Ho. destruct f as [e|]; cbn [LdbMemTable.newest] in *; [|by apply Forall_app]. destruct Ho as (H1 & H2 & H3). split; [rewrite elem_of_app; by right|]. split; [done|].
  intros e' [He'|He']%elem_of_app Hv; [|by apply H3]. rewrite Forall_forall in Hn. by rewrite (Hn e' He') in Hv.
Qed.

(** *** The range of a file *)

Lemma file_bounds f es e : file_entries f es -> e ∈ es -> internal_order cmp (smallest f) (internal_of e) <= 0 /\ internal_order cmp (internal_of e) (largest f) <= 0.
Proof.
  intros [Ho Hok (a & Ha & ->) (b & Hb & ->)] He. assert (forall x, x ∈ es -> entry_ok x) as Hx by (by apply Forall_forall).
  assert (forall x y, x ∈ es -> y ∈ es -> earlier (cmp := cmp) x y -> internal_order cmp (internal_of x) (internal_of y) <= 0) as Hlt.
  { intros x y Hxi Hyi Hxy. destruct (entry_order_parts (cmp := cmp) x y (Hx x Hxi) (Hx y Hyi)) as [H1 _]. apply H1 in Hxy. unfold entry_order in Hxy. lia. }
  assert (internal_order cmp (internal_of e) (internal_of e) = 0) as Hr by (apply (order_refl (cmp := internal_order cmp) (valid := internal_valid valid)), internal_of_valid; auto).
  split.
  - destruct es as [|a' es]; [done|]. injection Ha as ->. apply elem_of_cons in He as [->|He']; [lia|]. destruct (in_order_split [] a es Ho) as (_ & _ & H). apply Hlt; [by left|by right|by apply H].
  - destruct es as [|b' es _] using rev_ind; [done|]. rewrite last_snoc in Hb. injection Hb as ->. apply elem_of_app in He as [He'|He']; [|apply list_elem_of_singleton in He' as ->; lia].
    destruct (in_order_split es b [] Ho) as (_ & H & _). apply Hlt; [rewrite elem_of_app; by left|rewrite elem_of_app; right; by left|by apply H].
Qed.

Lemma file_ends f es : file_entries f es -> file_fine (valid := valid) (cmp := cmp) f.
Proof.
  intros H. pose proof H as [Ho Hok (a & Ha & Ea) (b & Hb & Eb)]. assert (a ∈ es) as Hia by (destruct es; [done|]; injection Ha as ->; by left). assert (b ∈ es) as Hib by (apply last_Some in Hb as [l ->]; rewrite elem_of_app; right; by left).
  rewrite Forall_forall in Hok. split; [rewrite Ea; by apply internal_of_fine, Hok|]. split; [rewrite Eb; by apply internal_of_fine, Hok|]. rewrite Ea. by apply (file_bounds f es a).
Qed.

Lemma file_users f es e : file_entries f es -> e ∈ es -> cmp (user_part (smallest f)) (e_user e) <= 0 /\ cmp (e_user e) (user_part (largest f)) <= 0.
Proof.
  intros H He. destruct (file_bounds f es e H He) as [H1 H2]. destruct (file_ends f es H) as ([Hs _] & [Hl _] & _). pose proof (fe_ok _ _ H) as Hok. rewrite Forall_forall in Hok. pose proof (internal_of_valid e (Hok e He)) as Hv.
  apply (order_user_le (valid := valid)) in H1, H2; [|done..]. unfold internal_of in H1, H2. by rewrite user_part_put in H1, H2.
Qed.

(** A file that does not overlap the user key has no entry of it. *)
Lemma file_without u s f es : valid u -> file_entries f es -> overlaps (cmp := cmp) (Some u) (Some u) f = false -> newest u s es None.
Proof.
  intros Hu H Hno. apply Forall_forall. intros e He. destruct (file_users f es e H He) as [H1 H2]. pose proof (fe_ok _ _ H) as Hok. rewrite Forall_forall in Hok. destruct (Hok e He) as (Hv & _). unfold visible.
  destruct (Z.eqb_spec (cmp (e_user e) u) 0) as [E|]; [|done]. exfalso. destruct (file_ends f es H) as ([(_ & _ & Hs) _] & [(_ & _ & Hl) _] & _). unfold overlaps in Hno. cbn [after_file before_file] in Hno.
  pose proof (order_eq_l (cmp := cmp) _ _ (user_part (largest f)) Hv Hu Hl E). pose proof (order_eq_l (cmp := cmp) _ _ (user_part (smallest f)) Hv Hu Hs E).
  pose proof (order_flip (cmp := cmp) _ _ Hv Hs). pose proof (order_flip (cmp := cmp) _ _ Hu Hs). pose proof (order_flip (cmp := cmp) _ _ Hu Hl).
  apply negb_false_iff, orb_true_iff in Hno as [Hno|Hno]; apply Z.ltb_lt in Hno; lia.
Qed.

(** ** Searching *)

Section Search.
Context {T : Type} {tc : TableCache T} {user_ok : list Z -> Prop} {holds : Z -> Z -> list entry -> Prop} {ok : T -> Prop} {tables_ok : LawfulTables user_ok cmp holds ok}.
Context (u : list Z) (s : Z) (u_ok : user_ok u) (u_valid : valid u) (s_ok : is_sequence s).

Abbreviation ikey := (PutFixed64 u (packed s kValueTypeForSeek)).
Abbreviation Getting := (Getting (T := T)).

(** A table could not be read. *)
Definition read_failed (st : Status) : Prop := exists n z t r t', tc_Get n z ikey t = Ret (st, r, t') /\ is_ok st = false.

Definition answered (e : entry) (value : list Z) (st : Status) (value' : list Z) : Prop :=
  if e_type e =? kTypeValue then is_ok st = true /\ value' = e_value e else st = NotFound [] [] /\ value' = value.

(** What a search over the entries [es] ends with. *)
Definition outcome (es : list entry) (value : list Z) (r : Getting + (Status * Getting)) : Prop :=
  match r with
  | inl g => newest u s es None /\ ok (tables g) /\ value_ g = value
  | inr (st, g) => ok (tables g) /\ (read_failed st \/ exists e, newest u s es (Some e) /\ answered e value st (value_ g))
  end.

Lemma SaveValue_ret value e : entry_ok e -> SaveValue user u value (internal_of e) (e_value e) =
  Ret (if cmp (e_user e) u =? 0 then if e_type e =? kTypeValue then (kFound, e_value e) else (kDeleted, value) else (kNotFound, value)).
Proof.
  intros (Hv & Hs & Ht & _). unfold SaveValue, internal_of. rewrite ParseInternalKey_put by done. cbn [negb LdbKeys.user_key key_type]. rewrite laws_compare by done. cbn [rbind].
  destruct (_ =? 0); [|done]. by destruct (e_type e =? kTypeValue).
Qed.

Lemma search_file_ok level f es L g : file_entries f es -> holds (number f) (file_size f) es -> ok (tables g) -> in_order L -> Forall entry_ok L -> first_from u s L = first_from u s es ->
  exists r, search_file user level ikey u f g = Ret r /\ outcome L (value_ g) r.
Proof.
  intros Hf Hh Hok Ho HokL Hfirst. pose proof (first_newest u s L Ho HokL u_valid s_ok) as Hn. rewrite Hfirst in Hn. unfold search_file.
  destruct (tables_get (number f) (file_size f) es u s (tables g) Hh Hok u_ok s_ok) as (st & r & t' & Eg & Hok' & Hr). fold (first_from u s es) in Hr. rewrite Eg. cbn [rbind].
  assert (forall e, first_from u s es = Some e -> entry_ok e) as Hfe.
  { intros e Ee. unfold first_from in Ee. pose proof (fe_ok _ _ Hf) as Hall. eapply Forall_lookup in Hall; [exact Hall|exact Ee]. }
  destruct Hr as [Hr Hfound]. set (said := match first_from u s es with Some e => if cmp (e_user e) u =? 0 then if e_type e =? kTypeValue then (kFound, e_value e) else (kDeleted, value_ g) else (kNotFound, value_ g) | None => (kNotFound, value_ g) end).
  assert (exists state value, (match r with Some (k, v) => SaveValue user u (value_ g) k v | None => Ret (kNotFound, value_ g) end) = Ret (state, value) /\ (is_ok st = true -> (state, value) = said)) as (state & value & -> & Hst).
  { destruct (first_from u s es) as [e|] eqn:Ef; cbn [option_map] in Hr; subst said; [|by destruct Hr as [-> | ->]; exists kNotFound, (value_ g)]. pose proof (SaveValue_ret (value_ g) e (Hfe e eq_refl)) as Esv.
    destruct Hr as [-> | ->]; [|cbn [entry_pair]; rewrite Esv; destruct (cmp (e_user e) u =? 0); [destruct (e_type e =? kTypeValue)|]; by do 2 eexists].
    exists kNotFound, (value_ g). split; [done|]. intros Hs. destruct (Z.eqb_spec (cmp (e_user e) u) 0) as [E|]; [|done]. by specialize (Hfound Hs e eq_refl E). }
  cbn [rbind]. destruct (is_ok st) eqn:Est; cbn [negb]; [|eexists; split; [done|]; cbn; split; [done|]; left; by do 5 eexists]. specialize (Hst eq_refl). subst said.
  destruct (first_from u s es) as [e|]; [|injection Hst as -> ->; eexists; split; [done|]; by split_and!]. destruct (cmp (e_user e) u =? 0); [|injection Hst as -> ->; eexists; split; [done|]; by split_and!].
  destruct (e_type e =? kTypeValue) eqn:Et; injection Hst as -> ->; (eexists; split; [done|]); cbn; (split; [done|]); right; exists e; (split; [done|]); unfold answered; by rewrite Et.
Qed.

(** *** Level 0 *)

Definition level_entries (l : list (FileMetaData * list entry)) : list entry := concat (map snd l).

Definition level_fine (l : list (FileMetaData * list entry)) : Prop := Forall (fun p => file_entries (fst p) (snd p) /\ holds (number (fst p)) (file_size (fst p)) (snd p)) l.

Lemma level_entries_ok l : level_fine l -> Forall entry_ok (level_entries l).
Proof. intros H. unfold level_entries. apply Forall_concat, Forall_map. eapply Forall_impl; [exact H|]. intros p [Hp _]. apply Hp. Qed.

Lemma in_level_entries l e : e ∈ level_entries l <-> exists p, p ∈ l /\ e ∈ snd p.
Proof.
  unfold level_entries. split.
  - intros H. apply list_elem_of_In, in_concat in H as (xs & Hxs%list_elem_of_In & Hx%list_elem_of_In). apply list_elem_of_fmap in Hxs as (p & -> & Hp). by exists p.
  - intros (p & Hp & He). apply list_elem_of_In, in_concat. exists (snd p). split; [apply list_elem_of_In; by apply list_elem_of_fmap_2|by apply list_elem_of_In].
Qed.

(** What is found in [new], or else in [old]. *)
Lemma outcome_front new old value r : Forall entry_ok (new ++ old) -> older old new -> outcome new value (inr r) -> outcome (new ++ old) value (inr r).
Proof.
  intros Hall Hold. destruct r as [st g]. cbn [outcome]. intros [Hk [Hf|(e & He & Ha)]]; (split; [done|]); [by left|]. right. exists e. split; [by apply newest_front|done].
Qed.

Lemma outcome_back new old value g r : outcome new value (inl g) -> outcome old (value_ g) r -> outcome (new ++ old) value r.
Proof.
  intros (Hn & _ & ->). destruct r as [g'|[st g']]; cbn [outcome].
  - intros (Hn' & ?). split; [|done]. exact (newest_back u s new old None Hn Hn').
  - intros [Hk [Hf|(e & He & Ha)]]; (split; [done|]); [by left|]. right. exists e. split; [by apply newest_back|done].
Qed.

(** Files from the newest to the oldest. *)
Lemma search_files_ok level l : forall g, level_fine l -> StronglySorted (fun p q => older (snd q) (snd p)) l -> ok (tables g) ->
  exists r, search_files user level ikey u (map fst l) g = Ret r /\ outcome (level_entries l) (value_ g) r.
Proof.
  induction l as [|[f es] l IH]; intros g Hl Hs Hok; cbn [map search_files fst].
  - eexists. split; [done|]. by split_and!; [constructor|..].
  - apply StronglySorted_inv in Hs as [Hs Hold]. pose proof (level_entries_ok _ Hl) as Hall. apply Forall_cons in Hl as [[Hf Hh] Hl]. cbn [fst snd] in *.
    destruct (search_file_ok level f es es g Hf Hh Hok (fe_order _ _ Hf) (fe_ok _ _ Hf) eq_refl) as (r & -> & Hr). cbn [rbind]. change (level_entries ((f, es) :: l)) with (es ++ level_entries l) in *.
    destruct r as [g'|r].
    + pose proof Hr as (_ & Hok' & _). destruct (IH g' Hl Hs Hok') as (r & -> & Hr'). exists r. split; [done|]. by eapply outcome_back.
    + eexists. split; [done|]. apply outcome_front; [done| |done].
      intros x y (p & Hp & Hx)%in_level_entries Hy. rewrite Forall_forall in Hold. by apply (Hold p Hp).
Qed.

(** The files with their entries, sorted as [NewestFirst] sorts the files. *)
Fixpoint insert_pair (p : FileMetaData * list entry) (l : list (FileMetaData * list entry)) : list (FileMetaData * list entry) :=
  match l with
  | [] => [p]
  | q :: l' => if number (fst p) >? number (fst q) then p :: l else q :: insert_pair p l'
  end.
Definition sort_pairs (l : list (FileMetaData * list entry)) : list (FileMetaData * list entry) := foldr insert_pair [] l.

Lemma insert_pair_fst p l : map fst (insert_pair p l) = insert_newest (fst p) (map fst l).
Proof. induction l as [|q l IH]; [done|]. cbn [insert_pair map insert_newest]. destruct (_ >? _); cbn [map]; [done|by rewrite IH]. Qed.

Lemma sort_pairs_fst l : map fst (sort_pairs l) = sort_newest (map fst l).
Proof. induction l as [|p l IH]; [done|]. cbn [sort_pairs foldr map sort_newest]. rewrite insert_pair_fst. by f_equal. Qed.

Lemma insert_pair_perm p l : insert_pair p l ≡ₚ p :: l.
Proof. induction l as [|q l IH]; [done|]. cbn [insert_pair]. destruct (_ >? _); [done|]. rewrite IH. apply perm_swap. Qed.

Lemma sort_pairs_perm l : sort_pairs l ≡ₚ l.
Proof. induction l as [|p l IH]; [done|]. cbn [sort_pairs foldr]. rewrite insert_pair_perm. by constructor. Qed.

Definition newer_file (p q : FileMetaData * list entry) : Prop := number (fst q) < number (fst p).

Lemma insert_pair_sorted p l : StronglySorted newer_file l -> (forall q, q ∈ l -> number (fst q) <> number (fst p)) -> StronglySorted newer_file (insert_pair p l).
Proof.
  induction 1 as [|q l Hs IH Hl]; intros Hne; cbn [insert_pair]; [by repeat constructor|]. pose proof (Hne q ltac:(by left)) as Hq. rewrite Z.gtb_ltb. destruct (Z.ltb_spec (number (fst q)) (number (fst p))) as [Hlt|Hge].
  - constructor; [by constructor|]. constructor; [done|]. eapply Forall_impl; [exact Hl|]. intros x Hx. unfold newer_file in *. lia.
  - constructor; [apply IH; intros x Hx; apply Hne; by right|]. apply Forall_forall. intros x Hx. rewrite (insert_pair_perm p l) in Hx. apply elem_of_cons in Hx as [->|Hx]; [unfold newer_file; lia|]. rewrite Forall_forall in Hl. by apply Hl.
Qed.

Lemma sort_pairs_sorted l : NoDup (map (fun p => number (fst p)) l) -> StronglySorted newer_file (sort_pairs l).
Proof.
  induction l as [|p l IH]; cbn [map]; intros H; [constructor|]. apply NoDup_cons in H as [Hp H]. cbn [sort_pairs foldr]. apply insert_pair_sorted; [by apply IH|]. intros q Hq E. fold (sort_pairs l) in Hq.
  rewrite sort_pairs_perm in Hq. apply Hp. rewrite <- E. by apply (list_elem_of_fmap_2 (fun p => number (fst p))).
Qed.

Definition has_user (p : FileMetaData * list entry) : bool := overlaps (cmp := cmp) (Some u) (Some u) (fst p).

Lemma files_with_ret l : level_fine l -> files_with user u (map fst l) = Ret (map fst (List.filter has_user l)).
Proof.
  induction 1 as [|[f es] l [Hf _] _ IH]; [done|]. cbn [map files_with List.filter fst snd] in *. destruct (file_ends f es Hf) as ([Hs _] & [Hl _] & _). pose proof Hs as (_ & _ & Hsv). pose proof Hl as (_ & _ & Hlv).
  rewrite (user_key_ret (valid := valid)) by done. cbn [rbind]. rewrite laws_compare by done. cbn [rbind].
  assert ((if cmp u (user_part (smallest f)) >=? 0 then let! g := internal_user_key (largest f) in let! r := Compare user u g in Ret (r <=? 0) else Ret false) = Ret (has_user (f, es))) as ->.
  { unfold has_user, overlaps. cbn [after_file before_file fst]. rewrite (user_key_ret (valid := valid)) by done. cbn [rbind]. rewrite laws_compare by done. cbn [rbind]. rewrite Z.geb_leb.
    destruct (Z.leb_spec 0 (cmp u (user_part (smallest f)))), (Z.ltb_spec (cmp u (user_part (smallest f))) 0), (Z.ltb_spec 0 (cmp u (user_part (largest f)))); try lia; rewrite ?orb_true_r; cbn [orb negb]; try done; f_equal; lia. }
  cbn [rbind]. rewrite IH. cbn [rbind]. by destruct (has_user (f, es)).
Qed.

Lemma partition_perm {A} (p : A -> bool) l : l ≡ₚ List.filter p l ++ List.filter (fun x => negb (p x)) l.
Proof. induction l as [|x l IH]; [done|]. cbn [List.filter]. destruct (p x); cbn [negb app]; [by constructor|]. rewrite <- Permutation_middle. by constructor. Qed.

Lemma level_entries_perm l l' : l ≡ₚ l' -> level_entries l ≡ₚ level_entries l'.
Proof. intros H. unfold level_entries. by rewrite H. Qed.

Lemma outcome_perm es es' value r : es ≡ₚ es' -> outcome es value r -> outcome es' value r.
Proof.
  intros Hp. destruct r as [g|[st g]]; cbn [outcome].
  - intros (Hn & H). split; [by eapply newest_perm|done].
  - intros [Hk [Hf|(e & He & Ha)]]; (split; [done|]); [by left|]. right. exists e. split; [by eapply newest_perm|done].
Qed.

(** More entries of which none is seen. *)
Lemma outcome_more es more value r : Forall entry_ok (es ++ more) -> newest u s more None -> outcome es value r -> outcome (es ++ more) value r.
Proof.
  intros Hall Hn. destruct r as [g|[st g]]; cbn [outcome].
  - intros (Hn' & H). split; [|done]. by apply Forall_app.
  - intros [Hk [Hf|(e & He & Ha)]]; (split; [done|]); [by left|]. right. exists e. split; [|done]. apply (newest_perm _ _ (more ++ es)); [apply Permutation_app_comm|]. by apply newest_back.
Qed.

Definition level0_ok (l : list (FileMetaData * list entry)) : Prop :=
  NoDup (map (fun p => number (fst p)) l) /\ forall p q, p ∈ l -> q ∈ l -> number (fst p) < number (fst q) -> older (snd p) (snd q).

Lemma filter_nodup {A B} (f : A -> B) (p : A -> bool) l : NoDup (map f l) -> NoDup (map f (List.filter p l)).
Proof.
  induction l as [|x l IH]; [done|]. cbn [map List.filter]. intros [Hx H]%NoDup_cons. destruct (p x); [|by apply IH]. cbn [map]. apply NoDup_cons. split; [|by apply IH]. intros (y & E & Hy)%list_elem_of_fmap.
  apply list_elem_of_In, filter_In in Hy as [Hy _]. apply Hx. rewrite E. apply list_elem_of_fmap_2. by apply list_elem_of_In.
Qed.

Lemma search_level0_ok l g : level_fine l -> level0_ok l -> ok (tables g) ->
  exists r, (let! fs := files_to_search user 0 (map fst l) ikey u in search_files user 0 ikey u fs g) = Ret r /\ outcome (level_entries l) (value_ g) r.
Proof.
  intros Hl [Hnd Hold] Hok. unfold files_to_search. cbn [Z.eqb]. rewrite files_with_ret by done. cbn [rbind]. rewrite <- sort_pairs_fst. set (sel := List.filter has_user l).
  assert (forall p, p ∈ sel -> p ∈ l /\ has_user p = true) as Hsel by (intros p Hp; apply list_elem_of_In, filter_In in Hp as [? ?]; split; [by apply list_elem_of_In|done]).
  unfold level_fine in Hl. rewrite Forall_forall in Hl. assert (level_fine (sort_pairs sel)) as Hfine by (apply Forall_forall; intros p Hp; rewrite sort_pairs_perm in Hp; apply Hl, Hsel, Hp).
  destruct (search_files_ok 0 (sort_pairs sel) g Hfine) as (r & Er & Hr); [|done|].
  - assert (StronglySorted newer_file (sort_pairs sel)) as Hs by (by apply sort_pairs_sorted, filter_nodup). assert (forall p, p ∈ sort_pairs sel -> p ∈ l) as Hin by (intros p Hp; rewrite sort_pairs_perm in Hp; by apply Hsel).
    clear - Hs Hin Hold. induction Hs as [|p k Hs IH Hk]; [constructor|]. constructor; [apply IH; intros q Hq; apply Hin; by right|]. rewrite Forall_forall in Hk |- *. intros q Hq. apply Hold; [apply Hin; by right|apply Hin; by left|by apply Hk].
  - exists r. split; [exact Er|]. set (rest := List.filter (fun p => negb (has_user p)) l). apply (outcome_perm (level_entries (sort_pairs sel) ++ level_entries rest)).
    { unfold level_entries. rewrite <- concat_app, <- map_app. apply level_entries_perm. rewrite sort_pairs_perm. symmetry. apply partition_perm. }
    apply outcome_more; [|..|done].
    + apply Forall_app. split; apply level_entries_ok; [done|]. apply Forall_forall. intros p Hp. apply list_elem_of_In, filter_In in Hp as [Hp _]. apply Hl. by apply list_elem_of_In.
    + cbn [LdbMemTable.newest]. unfold level_entries. apply Forall_concat, Forall_map, Forall_forall. intros [f es] Hp. apply list_elem_of_In, filter_In in Hp as [Hp%list_elem_of_In Hno]. destruct (Hl _ Hp) as [Hf _].
      apply (file_without u s f es u_valid Hf). unfold has_user in Hno. cbn [fst] in Hno. by apply negb_true_iff.
Qed.

(** *** The other levels *)

Lemma earlier_internal a b : entry_ok a -> entry_ok b -> internal_order cmp (internal_of a) (internal_of b) < 0 -> earlier (cmp := cmp) a b.
Proof. intros Ha Hb H. by apply (entry_order_parts (cmp := cmp) a b Ha Hb). Qed.

(** The entries of a file come before those of a later one. *)
Lemma files_apart f es g es' e e' : file_entries f es -> file_entries g es' -> internal_order cmp (largest f) (smallest g) < 0 -> e ∈ es -> e' ∈ es' ->
  internal_order cmp (internal_of e) (internal_of e') < 0.
Proof.
  intros Hf Hg Hlt He He'. destruct (file_bounds f es e Hf He) as [_ H1], (file_bounds g es' e' Hg He') as [H2 _]. destruct (file_ends f es Hf) as (_ & [Hl _] & _), (file_ends g es' Hg) as ([Hs _] & _ & _).
  pose proof (fe_ok _ _ Hf) as Ho. pose proof (fe_ok _ _ Hg) as Ho'. rewrite Forall_forall in Ho, Ho'. pose proof (internal_of_valid e (Ho e He)) as Hv. pose proof (internal_of_valid e' (Ho' e' He')) as Hv'.
  apply (order_le_lt (cmp := internal_order cmp) (valid := internal_valid valid) _ (largest f)); [done..|]. by apply (order_lt_le (cmp := internal_order cmp) (valid := internal_valid valid) _ (smallest g)).
Qed.

Lemma level_in_order l : level_fine l -> level_sorted (cmp := cmp) (map fst l) -> in_order (level_entries l).
Proof.
  induction l as [|[f es] l IH]; intros Hl Hs; [split; constructor|]. apply Forall_cons in Hl as [[Hf _] Hl]. cbn [map fst snd] in *. apply StronglySorted_inv in Hs as [Hs Hlt]. change (level_entries ((f, es) :: l)) with (es ++ level_entries l).
  destruct (IH Hl Hs) as [Hs2 Hv2]. destruct (fe_order _ _ Hf) as [Hs1 Hv1]. split; [|by apply Forall_app]. apply StronglySorted_app. split; [|done]. intros e e' He (p & Hp & He')%in_level_entries.
  unfold level_fine in Hl. rewrite Forall_forall in Hl. rewrite Forall_map, Forall_forall in Hlt. destruct (Hl p Hp) as [Hg _]. pose proof (fe_ok _ _ Hf) as Ho. pose proof (fe_ok _ _ Hg) as Ho'. rewrite Forall_forall in Ho, Ho'.
  apply earlier_internal; [by apply Ho|by apply Ho'|]. apply (files_apart f es (fst p) (snd p)); [done|done| |done|done]. by apply Hlt.
Qed.

(** The files that end before the key, and the others. *)
Lemma split_level l : level_fine l -> level_sorted (cmp := cmp) (map fst l) -> exists a b, l = a ++ b /\
  Forall (fun p => internal_order cmp (largest (fst p)) ikey < 0) a /\ Forall (fun p => 0 <= internal_order cmp (largest (fst p)) ikey) b.
Proof.
  induction l as [|[f es] l IH]; intros Hl Hs; [by exists [], []|]. apply Forall_cons in Hl as [[Hf Hh] Hl]. cbn [map fst snd] in *. apply StronglySorted_inv in Hs as [Hs Hlt].
  destruct (Z.lt_ge_cases (internal_order cmp (largest f) ikey) 0) as [Hk|Hk].
  - destruct (IH Hl Hs) as (a & b & -> & Ha & Hb). exists ((f, es) :: a), b. split_and!; [done|by constructor|done].
  - exists [], ((f, es) :: l). split_and!; [done|constructor|]. constructor; [done|]. unfold level_fine in Hl. rewrite Forall_forall in Hl |- *. rewrite Forall_map, Forall_forall in Hlt. intros p Hp. destruct (Hl p Hp) as [Hg _].
    destruct (file_ends f es Hf) as (_ & [H1 _] & _), (file_ends _ _ Hg) as ([H2 _] & [H3 _] & H4). specialize (Hlt p Hp). cbn in Hlt.
    destruct (Z.lt_ge_cases (internal_order cmp (largest (fst p)) ikey) 0) as [Hx|]; [|done]. exfalso. assert (internal_valid valid ikey) as Hkv by (apply internal_valid_put; [done|by eapply laws_bytes]).
    pose proof (order_lt_le (cmp := internal_order cmp) (valid := internal_valid valid) _ _ _ H1 H2 H3 Hlt H4). pose proof (order_lt_trans (cmp := internal_order cmp) (valid := internal_valid valid) _ _ _ H1 H3 Hkv). lia.
Qed.

Lemma search_level_ok level l g : level_fine l -> level_sorted (cmp := cmp) (map fst l) -> zlen l < 2 ^ 31 -> level <> 0 -> ok (tables g) ->
  exists r, (let! fs := files_to_search user level (map fst l) ikey u in search_files user level ikey u fs g) = Ret r /\ outcome (level_entries l) (value_ g) r.
Proof.
  intros Hl Hs Hlen Hne Hok. pose proof (level_in_order l Hl Hs) as Ho. pose proof (level_entries_ok l Hl) as Hall. unfold files_to_search. destruct (Z.eqb_spec level 0); [done|].
  assert (internal_valid valid ikey) as Hk by (apply internal_valid_put; [done|by eapply laws_bytes]). destruct (split_level l Hl Hs) as (a & b & -> & Ha & Hb).
  assert (forall p, p ∈ a ++ b -> file_entries (fst p) (snd p) /\ holds (number (fst p)) (file_size (fst p)) (snd p)) as Hin by (by apply Forall_forall).
  rewrite map_app. rewrite (FindFile_ok (valid := valid) (cmp := cmp) (map fst a) (map fst b)); [|done| | |by apply Forall_map|by apply Forall_map].
  2: { rewrite <- map_app. apply Forall_map, Forall_forall. intros p Hp. destruct (Hin p Hp) as [Hf _]. by destruct (file_ends _ _ Hf) as (_ & [? _] & _). }
  2: { unfold zlen in *. rewrite <- map_app, length_map. done. }
  cbn [rbind]. assert (zlen (map fst a) = zlen a) as -> by (unfold zlen; by rewrite length_map). assert (zlen (map fst a ++ map fst b) = zlen a + zlen b) as -> by (unfold zlen; rewrite length_app, !length_map; lia).
  assert (Forall (sought_after u s) (level_entries a)) as Hbefore.
  { apply Forall_forall. intros e (p & Hp & He)%in_level_entries. destruct (Hin p ltac:(rewrite elem_of_app; by left)) as [Hf _]. destruct (file_bounds _ _ e Hf He) as [_ Hle]. pose proof (fe_ok _ _ Hf) as Hoe. rewrite Forall_forall in Hoe.
    apply sought_after_spec; [done|done|by apply Hoe|]. rewrite Forall_forall in Ha. destruct (file_ends _ _ Hf) as (_ & [Hlv _] & _).
    apply (order_le_lt (cmp := internal_order cmp) (valid := internal_valid valid) _ (largest (fst p))); [by apply internal_of_valid, Hoe|done|done|done|by apply Ha]. }
  assert (level_entries (a ++ b) = level_entries a ++ level_entries b) as El by (unfold level_entries; by rewrite map_app, concat_app). rewrite El in *.
  destruct b as [|[f es] b].
  - change (zlen []) with 0. destruct (Z.geb_spec (zlen a) (zlen a + 0)); [|lia]. cbn [rbind search_files]. eexists. split; [done|]. cbn [outcome LdbMemTable.newest]. split; [|done]. apply Forall_app. split; [|constructor].
    eapply Forall_impl; [exact Hbefore|]. by apply unseen_before.
  - rewrite zlen_cons. pose proof (zlen_nonneg b). match goal with |- context [zlen a >=? ?x] => destruct (Z.geb_spec (zlen a) x); [lia|] end. cbn [map fst]. rewrite file_at_ok by (unfold zlen; by rewrite length_map). cbn [rbind].
    destruct (Hin (f, es) ltac:(rewrite elem_of_app; right; by left)) as [Hf Hh]. cbn [fst snd] in *. destruct (file_ends f es Hf) as ([Hsv _] & [Hlv _] & _). rewrite (user_key_ret (valid := valid)) by done. cbn [rbind]. pose proof (proj2 (proj2 Hsv)). rewrite laws_compare by done. cbn [rbind].
    (* the first entry from the key on is in this file *)
    destruct (order_split es u s (fe_order _ _ Hf) u_valid) as (pre & post & Ees & Hpre & Hpost). destruct (fe_last _ _ Hf) as (z & Hz & Ez). pose proof (fe_ok _ _ Hf) as Hoe.
    assert (z ∈ es) as Hzin by (apply last_Some in Hz as [k ->]; rewrite elem_of_app; right; by left). assert (~ sought_after u s z) as Hzb.
    { rewrite Forall_forall in Hoe. rewrite <- sought_after_spec by auto. apply Forall_cons in Hb as [Hb _]. cbn in Hb. rewrite Ez in Hb. lia. }
    assert (post <> []) as Hpne. { intros ->. rewrite app_nil_r in Ees. subst pre. rewrite Forall_forall in Hpre. by apply Hzb, Hpre. }
    assert (first_from u s (level_entries a ++ level_entries ((f, es) :: b)) = first_from u s es) as Hfirst.
    { change (level_entries ((f, es) :: b)) with (es ++ level_entries b) in Ho, Hall |- *. rewrite Ees in Ho, Hall |- *. pose proof Hall as [_ [Hall2 _]%Forall_app]%Forall_app. rewrite (first_from_split u s pre post) by done.
      by apply first_from_middle. }
    destruct (Z.ltb_spec (cmp u (user_part (smallest f))) 0) as [Hlt|Hge].
    + cbn [rbind search_files]. eexists. split; [done|]. cbn [outcome]. split; [|done]. pose proof (first_newest u s _ Ho Hall u_valid s_ok) as Hn. rewrite Hfirst in Hn. destruct (first_from u s es) as [e|] eqn:Ee; [|done].
      assert (e ∈ es) as He by (unfold first_from in Ee; by eapply list_elem_of_lookup_2). destruct (file_users f es e Hf He) as [Hu1 _]. rewrite Forall_forall in Hoe. destruct (Hoe e He) as (Hve & _).
      destruct (Z.eqb_spec (cmp (e_user e) u) 0) as [E|]; [|done]. pose proof (order_lt_le (cmp := cmp) u _ _ u_valid (proj2 (proj2 Hsv)) Hve Hlt Hu1). pose proof (order_flip (cmp := cmp) _ _ Hve u_valid). lia.
    + cbn [rbind search_files]. destruct (search_file_ok level f es (level_entries a ++ level_entries ((f, es) :: b)) g Hf Hh Hok Ho Hall Hfirst) as (r & -> & Hr). cbn [rbind]. exists r. split; [by destruct r|done].
Qed.

(** *** All levels *)

Lemma older_concat (l : list (list (FileMetaData * list entry))) new : Forall (fun old => older (level_entries old) new) l -> older (concat (map level_entries l)) new.
Proof.
  intros Hl e e' He He'. apply list_elem_of_In, in_concat in He as (xs & Hxs%list_elem_of_In & Hx%list_elem_of_In). apply list_elem_of_fmap in Hxs as (p & -> & Hp). rewrite Forall_forall in Hl. by apply (Hl p Hp).
Qed.

(** The files of the levels with their entries, from level [level] on. *)
Fixpoint levels_hold (level : Z) (lv : list (list (FileMetaData * list entry))) : Prop :=
  match lv with
  | [] => True
  | l :: lv =>
      level_fine l /\ (if level =? 0 then level0_ok l else level_sorted (cmp := cmp) (map fst l) /\ zlen l < 2 ^ 31) /\
      Forall (fun old => older (level_entries old) (level_entries l)) lv /\ levels_hold (level + 1) lv
  end.

Definition version_entries (lv : list (list (FileMetaData * list entry))) : list entry := concat (map level_entries lv).

Lemma version_entries_ok level lv : levels_hold level lv -> Forall entry_ok (version_entries lv).
Proof.
  revert level. induction lv as [|l lv IH]; intros level; [constructor|]. intros (Hl & _ & _ & H). change (version_entries (l :: lv)) with (level_entries l ++ version_entries lv). apply Forall_app. split; [by apply level_entries_ok|by eapply IH].
Qed.

Lemma search_levels_ok lv : forall level g, 0 <= level -> levels_hold level lv -> ok (tables g) ->
  exists r, search_levels user level ikey u (map (map fst) lv) g = Ret r /\ outcome (version_entries lv) (value_ g) r.
Proof.
  induction lv as [|l lv IH]; intros level g Hlev Hlv Hok; [eexists; split; [done|]; by split_and!; [constructor|..]|]. pose proof (version_entries_ok _ _ Hlv) as Hall. destruct Hlv as (Hl & Hk & Hold & Hlv).
  cbn [map search_levels]. change (version_entries (l :: lv)) with (level_entries l ++ version_entries lv) in *.
  assert (exists r, match map fst l with [] => Ret (inl g) | _ => let! fs := files_to_search user level (map fst l) ikey u in search_files user level ikey u fs g end = Ret r /\ outcome (level_entries l) (value_ g) r) as (r & -> & Hr).
  { destruct l as [|p l]; [eexists; split; [done|]; by split_and!; [constructor|..]|]. cbn [map]. destruct (Z.eqb_spec level 0) as [->|]; [by apply (search_level0_ok (p :: l))|]. destruct Hk. by apply (search_level_ok level (p :: l)). }
  cbn [rbind]. destruct r as [g'|r].
  - pose proof Hr as (_ & Hok' & _). destruct (IH (level + 1) g' ltac:(lia) Hlv Hok') as (r & -> & Hr'). exists r. split; [done|]. by eapply outcome_back.
  - eexists. split; [done|]. apply outcome_front; [done|by apply older_concat|done].
Qed.

(** *** A lookup *)

(** What a lookup finds: a table could not be read, or the newest entry that the
    snapshot sees, or none. *)
Definition looked_up (es : list entry) (value : list Z) (st : Status) (value' : list Z) : Prop :=
  read_failed st \/ exists found, newest u s es found /\ match found with Some e => answered e value st value' | None => st = NotFound [] [] /\ value' = value end.

Lemma Version_Get_ok lv k value t : levels_hold 0 lv -> ok t -> internal_key k = ikey -> lookup_user_key k = u ->
  exists st value' stats t', Version_Get user (map (map fst) lv) k value t = Ret (st, value', stats, t') /\ ok t' /\ looked_up (version_entries lv) value st value'.
Proof.
  intros Hlv Hok Ek Eu. unfold Version_Get. rewrite Ek, Eu. destruct (search_levels_ok lv 0 (mk_getting t value (mk_stats None (-1)) None) ltac:(lia) Hlv Hok) as (r & -> & Hr). cbn [rbind]. destruct r as [g|[st g]]; cbn [outcome value_ LdbVersionGet.value_] in Hr.
  - destruct Hr as (Hn & Hk & Hv). do 4 eexists. split; [done|]. split; [done|]. right. by exists None.
  - destruct Hr as [Hk Hr]. do 4 eexists. split; [done|]. split; [done|]. destruct Hr as [Hf|(e & He & Ha)]; [by left|]. right. by exists (Some e).
Qed.

End Search.

(** ** Theorems *)

Section Theorems.
Context {T : Type} {tc : TableCache T} {user_ok : list Z -> Prop} {holds : Z -> Z -> list entry -> Prop} {ok : T -> Prop} {tables_ok : LawfulTables user_ok cmp holds ok}.

(** [Version::Get] finds the newest entry of the user key that the snapshot sees among
    those of all files, its value or that it was deleted, or that there is none; or
    it fails because a table could not be read. *)
Theorem version_get lv u s k value t :
  levels_hold (holds := holds) 0 lv -> ok t -> user_ok u -> valid u -> is_sequence s -> zlen u + 13 < 2 ^ 32 -> new_lookup_key u s = Ret k ->
  exists st value' stats t', Version_Get user (map (map fst) lv) k value t = Ret (st, value', stats, t') /\ ok t' /\ looked_up u s (version_entries lv) value st value'.
Proof.
  intros Hlv Hok Hu Hv Hs Hl Ek. destruct (new_lookup_key_ret u s Hs Hl) as (k' & Ek' & E1 & _ & E2). rewrite Ek in Ek'. injection Ek' as <-. by eapply Version_Get_ok.
Qed.

(** [DBImpl::Get] searches the memtables and then the files of the version. *)
Definition from_version (files_ : list (list FileMetaData)) (t : T) (k : LookupKey) (value : list Z) (s : Status) : res (Status * list Z) :=
  let! (s, value, _, _) := Version_Get user files_ k value t in Ret (s, value).

(** C12. [Get] of a database answers with the newest entry that the snapshot sees among those
    of the memtables and of all files, when those in the files are the older ones. *)
Theorem get_database {F : Type} {W : WritableFile F} (db : DBImpl (F := F)) imm_es es q lv snapshot u k value t :
  memtables (valid := valid) (cmp := cmp) db imm_es es q -> levels_hold (holds := holds) 0 lv -> older (version_entries lv) (imm_es ++ es) ->
  ok t -> user_ok u -> valid u -> zlen u + 13 < 2 ^ 32 ->
  is_sequence (default (last_sequence db) snapshot) -> new_lookup_key u (default (last_sequence db) snapshot) = Ret k ->
  exists st value', DbGet user db snapshot (from_version (map (map fst) lv) t) u value = Ret (st, value') /\
    looked_up u (default (last_sequence db) snapshot) ((imm_es ++ es) ++ version_entries lv) value st value'.
Proof.
  intros Hdb Hlv Hold Hok Hu Hv Hl Hs Ek. set (s := default _ _) in *. destruct (DbGet_ok db imm_es es q snapshot u (from_version (map (map fst) lv) t) k value Hdb Hv Hl Hs Ek) as (f & Hn & ->). fold s in Hn.
  destruct (memtable_numbers db imm_es es q Hdb) as [Hmok _]. assert (Forall entry_ok ((imm_es ++ es) ++ version_entries lv)) as Hall.
  { apply Forall_app. split; [by rewrite (Permutation_app_comm imm_es es)|by eapply version_entries_ok]. }
  destruct f as [e|].
  - assert (newest u s ((imm_es ++ es) ++ version_entries lv) (Some e)) as Hn' by (by apply newest_front). cbn [answer]. destruct (e_type e =? kTypeValue) eqn:Et; (eexists _, _; split; [done|]); right; exists (Some e); (split; [done|]); unfold answered; by rewrite Et.
  - destruct (new_lookup_key_ret u s Hs Hl) as (k' & Ek' & E1 & _ & E2). rewrite Ek in Ek'. injection Ek' as <-.
    destruct (Version_Get_ok u s Hu Hv Hs lv k value t Hlv Hok E1 E2) as (st & value' & stats & t' & Eg & _ & Hlook). exists st, value'. unfold from_version. rewrite Eg. cbn [rbind]. split; [done|].
    destruct Hlook as [Hf|(f & Hf & Ha)]; [by left|]. right. exists f. split; [by apply newest_back|done].
Qed.

End Theorems.

End Spec.

(** ** Definitions *)

Section Sample.
Context (user : Comparator).

(** *** ForEachOverlapping *)

Section Visit.
Context {A : Type} (func : A -> Z -> FileMetaData -> bool * A).

(** Whether to go on, and what [arg] points to. *)
Fixpoint visit (level : Z) (files : list FileMetaData) (arg : A) : bool * A :=
  match files with
  | [] => (true, arg)
  | f :: files => let (go, arg) := func arg level f in if go then visit level files arg else (false, arg)
  end.

Definition visit_level (level : Z) (user_key internal_key : list Z) (files : list FileMetaData) (arg : A) : res (bool * A) :=
  let! index := FindFile user files internal_key in
  if index <? zlen files then
    let! f := file_at files index in
    let! s := internal_user_key (smallest f) in
    let! r := Compare user user_key s in
    if r <? 0 then Ret (true, arg) else Ret (func arg level f)
  else Ret (true, arg).

Fixpoint visit_levels (level : Z) (user_key internal_key : list Z) (levels : list (list FileMetaData)) (arg : A) : res A :=
  match levels with
  | [] => Ret arg
  | files :: levels =>
      let! (go, arg) := match files with [] => Ret (true, arg) | _ => visit_level level user_key internal_key files arg end in
      if go then visit_levels (level + 1) user_key internal_key levels arg else Ret arg
  end.

Definition ForEachOverlapping (files_ : list (list FileMetaData)) (user_key internal_key : list Z) (arg : A) : res A :=
  let! files := level_files files_ 0 in
  let! tmp := files_with user user_key files in
  let (go, arg) := match tmp with [] => (true, arg) | _ => visit 0 (sort_newest tmp) arg end in
  if go then visit_levels 1 user_key internal_key (skipn 1 files_) arg else Ret arg.

End Visit.

(** *** RecordReadSample *)

Record Seeks := mk_seeks { file_to_compact_ : option FileMetaData; file_to_compact_level_ : Z }.

Definition set_allowed_seeks (f : FileMetaData) (n : Z) : FileMetaData := mk_file (refs f) n (number f) (file_size f) (smallest f) (largest f).

(** Whether there is a file to compact now, the file with its new count, and the
    members; the file to compact is the one that is counted. *)
Definition UpdateStats (v : Seeks) (stats : GetStats) : res (bool * option FileMetaData * Seeks) :=
  match seek_file stats with
  | Some f =>
      let! n := int_add (allowed_seeks f) (-1) in
      let f := set_allowed_seeks f n in
      match file_to_compact_ v with
      | None => if n <=? 0 then Ret (true, Some f, mk_seeks (Some f) (seek_file_level stats)) else Ret (false, Some f, v)
      | Some _ => Ret (false, Some f, v)
      end
  | None => Ret (false, None, v)
  end.

(** [State]: the first match, and their number. *)
Definition Match (state : GetStats * Z) (level : Z) (f : FileMetaData) : bool * (GetStats * Z) :=
  let (stats, matches) := state in
  let matches := matches + 1 in
  let stats := if matches =? 1 then mk_stats (Some f) level else stats in
  (matches <? 2, (stats, matches)).

Definition RecordReadSample (files_ : list (list FileMetaData)) (v : Seeks) (internal_key : list Z) : res (bool * option FileMetaData * Seeks) :=
  let (ok, ikey) := ParseInternalKey internal_key (mk_parsed [] 0 0) in
  if negb ok then Ret (false, None, v)
  else
    let! (stats, matches) := ForEachOverlapping Match files_ (LdbKeys.user_key ikey) internal_key (mk_stats None (-1), 0) in
    if matches >=? 2 then UpdateStats v stats else Ret (false, None, v).

(** ** What is visited *)

(** The files [Get] may search, with their levels. *)
Fixpoint files_searched (level : Z) (ikey user_key : list Z) (levels : list (list FileMetaData)) : res (list (Z * FileMetaData)) :=
  match levels with
  | [] => Ret []
  | files :: levels =>
      let! fs := match files with [] => Ret [] | _ => files_to_search user level files ikey user_key end in
      let! rest := files_searched (level + 1) ikey user_key levels in
      Ret (map (pair level) fs ++ rest)
  end.

Fixpoint visit_all {A : Type} (func : A -> Z -> FileMetaData -> bool * A) (fs : list (Z * FileMetaData)) (arg : A) : bool * A :=
  match fs with
  | [] => (true, arg)
  | (level, f) :: fs => let (go, arg) := func arg level f in if go then visit_all func fs arg else (false, arg)
  end.

Section Visited.
Context {A : Type} (func : A -> Z -> FileMetaData -> bool * A).

Lemma visit_all_app fs fs' arg : visit_all func (fs ++ fs') arg = let (go, arg) := visit_all func fs arg in if go then visit_all func fs' arg else (false, arg).
Proof. revert arg. induction fs as [|[l f] fs IH]; intros arg; [done|]. cbn [app visit_all]. destruct (func arg l f) as [[] arg']; [apply IH|done]. Qed.

Lemma visit_eq level fs arg : visit func level fs arg = visit_all func (map (pair level) fs) arg.
Proof. revert arg. induction fs as [|f fs IH]; intros arg; [done|]. cbn [visit map visit_all]. destruct (func arg level f) as [[] arg']; [apply IH|done]. Qed.

(** One level above the first. *)
Lemma visit_level_ok level ikey u files fs arg : level <> 0 -> files_to_search user level files ikey u = Ret fs ->
  visit_level func level u ikey files arg = Ret (visit_all func (map (pair level) fs) arg).
Proof.
  intros Hl. unfold files_to_search, visit_level. destruct (Z.eqb_spec level 0); [done|]. destruct (FindFile user files ikey) as [index| |]; cbn [rbind]; [|done..].
  rewrite Z.geb_leb. destruct (Z.ltb_spec index (zlen files)), (Z.leb_spec (zlen files) index); try lia; [|by intros [= <-]].
  destruct (file_at files index) as [f| |]; cbn [rbind]; [|done..]. destruct (internal_user_key (smallest f)) as [s| |]; cbn [rbind]; [|done..].
  destruct (Compare user u s) as [r| |]; cbn [rbind]; [|done..]. destruct (r <? 0); intros [= <-]; [done|]. cbn. by destruct (func arg level f) as [[] ?].
Qed.

Lemma visit_levels_ok levels ikey u : forall level fs arg, 0 < level -> files_searched level ikey u levels = Ret fs ->
  visit_levels func level u ikey levels arg = Ret (snd (visit_all func fs arg)).
Proof.
  induction levels as [|files levels IH]; intros level fs arg Hl; cbn [files_searched visit_levels]; [by intros [= <-]|].
  destruct (match files with [] => Ret [] | _ => files_to_search user level files ikey u end) as [here| |] eqn:Eh; cbn [rbind]; [|done..].
  destruct (files_searched (level + 1) ikey u levels) as [rest| |] eqn:Er; cbn [rbind]; [|done..]. intros [= <-].
  assert (match files with [] => Ret (true, arg) | _ => visit_level func level u ikey files arg end = Ret (visit_all func (map (pair level) here) arg)) as ->.
  { destruct files; [by injection Eh as <-|]. apply visit_level_ok; [lia|done]. }
  cbn [rbind]. rewrite visit_all_app. destruct (visit_all func (map (pair level) here) arg) as [[] arg']; [|done]. apply IH; [lia|done].
Qed.

Lemma ForEachOverlapping_ok files_ ikey u fs arg : files_ <> [] -> files_searched 0 ikey u files_ = Ret fs -> ForEachOverlapping func files_ u ikey arg = Ret (snd (visit_all func fs arg)).
Proof.
  destruct files_ as [|files levels]; [done|]. intros _. cbn [files_searched]. unfold ForEachOverlapping, files_to_search. change (level_files (files :: levels) 0) with (Ret files). cbn [rbind Z.eqb skipn].
  destruct (files_with user u files) as [tmp| |] eqn:Et; cbn [rbind]; [|destruct files; [done|by rewrite ?Et]..].
  destruct (match files with [] => Ret [] | _ => Ret (sort_newest tmp) end) as [here| |] eqn:Eh; cbn [rbind]; [|done..].
  destruct (files_searched (0 + 1) ikey u levels) as [rest| |] eqn:Er; cbn [rbind]; [|done..]. intros [= <-].
  assert ((match tmp with [] => (true, arg) | _ => visit func 0 (sort_newest tmp) arg end) = visit_all func (map (pair 0) here) arg) as ->.
  { destruct files; [injection Et as <-; by injection Eh as <-|]. injection Eh as <-. destruct tmp; [done|]. apply visit_eq. }
  rewrite visit_all_app. destruct (visit_all func (map (pair 0) here) arg) as [[] arg']; [|done]. by apply visit_levels_ok.
Qed.

End Visited.

(** ** Theorems *)

(** C18. A sampled read is charged to the first file that a lookup of its key would search,
    when it might search two; otherwise nothing is charged. *)
Theorem read_sample files_ v internal_key parsed fs : files_ <> [] -> ParseInternalKey internal_key (mk_parsed [] 0 0) = (true, parsed) ->
  files_searched 0 internal_key (LdbKeys.user_key parsed) files_ = Ret fs ->
  RecordReadSample files_ v internal_key =
  match fs with
  | (level, f) :: _ :: _ => UpdateStats v (mk_stats (Some f) level)
  | _ => Ret (false, None, v)
  end.
Proof.
  intros Hne Hp Hs. unfold RecordReadSample. rewrite Hp. cbn [negb]. rewrite (ForEachOverlapping_ok Match _ _ _ fs) by done. cbn [rbind]. by destruct fs as [|[l1 f1] [|[l2 f2] fs]].
Qed.

End Sample.
