(* ===== verification/LdbVersionWitnesses.v ===== *)
(** * LevelDB: concrete instances for version edits and versions

    A version with two files in level 0 and one in level 1, and tables that are lists. *)
From S2P Require Import Prelude LdbCoding LdbStatus LdbEnvPosix LdbLogWriter LdbLog LdbOrder LdbKeys LdbIterator LdbMemTable LdbDbWrite LdbDbIterSpec LdbNewIterator LdbWitnesses LdbMemWitnesses LdbDbWitnesses LdbVersionEdit LdbVersion LdbVersionGet.
From Stdlib Require Import ZArith Lia.
From stdpp Require Import base tactics numbers list strings sorting.
#[local] Open Scope Z_scope.

(** ** Edits *)

Definition ikey_of (u : Z) (s : Z) : InternalKey := PutFixed64 [u] (packed s kTypeValue).

Definition edit1 : VersionEdit :=
  AddFile (DeleteFile (SetCompactPointer (SetLogNumber (SetComparatorName new_edit [108; 100]) 7) 2 (ikey_of 97 1)) 3 300) 1 12 4096 (ikey_of 97 9) (ikey_of 99 4).

Ltac bytes := repeat (constructor; [split; vm_compute; congruence|]); constructor.
Ltac short_key := split; [split; [bytes|apply Z.ltb_lt; vm_compute; reflexivity]|discriminate].

Lemma edit1_ok : edit_ok edit1.
Proof.
  split; try done; cbn [edit1 AddFile DeleteFile SetCompactPointer with_lists compact_pointers_ deleted_files_ new_files_ app set_insert SetLogNumber SetComparatorName new_edit
    has_comparator_ comparator_ has_log_number_ log_number_ number_ok].
  - split; [bytes|vm_compute; reflexivity].
  - constructor; [|constructor]. split; [done|short_key].
  - split; [by repeat constructor|]. by constructor; [|constructor].
  - constructor; [|constructor]. split; [done|]. split; [done|]. split; [done|]. split; [short_key|]. by split; [short_key|].
Qed.

Lemma edit_roundtrip_witness : exists bytes, edit_EncodeTo edit1 [] = Ret bytes /\ edit_DecodeFrom new_edit bytes = Ret (status_ok, edit1).
Proof.
  destruct (edit_roundtrip edit1 edit1_ok) as (bytes & H1 & H2 & H3 & _). exists bytes. split; [exact H1|]. rewrite H2, H3. reflexivity.
Defined.

Lemma empty_key_accepted_witness : exists bytes, edit_EncodeTo edit1 [] = Ret bytes /\
  edit_DecodeFrom new_edit (file_entry bytes 2 13 512 [] []) = Ret (status_ok, AddFile edit1 2 13 512 [] []) /\
  edit_EncodeTo (AddFile edit1 2 13 512 [] []) [] = UB /\ internal_user_key [] = UB.
Proof.
  eexists. split; [vm_compute; reflexivity|]. edestruct (empty_key_accepted edit1) as (H1 & H2 & H3 & _); [exact edit1_ok|vm_compute; reflexivity| | | | | |].
  6: { split; [exact H1|]. split; [apply H2; by left|]. by apply H3. }
  all: repeat split; done || by constructor.
Defined.

Lemma edit_decoding_total_witness : exists s e, edit_DecodeFrom new_edit [2; 200; 1; 99] = Ret (s, e) /\ in_levels e /\ (is_ok s = true \/ IsCorruption s = true).
Proof. apply (edit_decoding_total [2; 200; 1; 99]). repeat (constructor; [split; vm_compute; congruence|]). constructor. Defined.

(** ** A version *)

Definition entry_c3 : entry := mk_entry [99] 3 kTypeDeletion [].
Definition entry_c2 : entry := mk_entry [99] 2 kTypeValue [121].
Definition entry_a0 : entry := mk_entry [97] 0 kTypeValue [119].
Definition entry_d1 : entry := mk_entry [100] 1 kTypeValue [122].

Definition file_of (number : Z) (s g : entry) : FileMetaData := new_file number 100 (internal_of s) (internal_of g).

Definition version1 : list (list (FileMetaData * list entry)) :=
  [[(file_of 11 entry_c2 entry_c2, [entry_c2]); (file_of 12 entry_c3 entry_c3, [entry_c3])];
   [(file_of 8 entry_a0 entry_d1, [entry_a0; entry_d1])]; []; []; []; []; []].

Definition files1 : list (list FileMetaData) := map (map fst) version1.

(** Tables that are lists, by the number of the file. *)
Definition table_of (n : Z) : list entry :=
  if n =? 11 then [entry_c2] else if n =? 12 then [entry_c3] else if n =? 8 then [entry_a0; entry_d1] else [].

#[local] Instance list_tables : TableCache unit := fun n _ k t =>
  Ret (status_ok, option_map entry_pair (table_of n !! lower_bound (internal_order slice_compare) k (map entry_pair (table_of n))), t).

Definition list_holds (n z : Z) (es : list entry) : Prop := es = table_of n.

#[local] Instance list_tables_lawful : LawfulTables (fun _ => True) slice_compare list_holds (fun _ => True).
Proof.
  intros n z es u s t -> _ _ _ first. exists status_ok, (option_map entry_pair first), t. split; [done|]. split; [done|]. split; [by right|]. by intros _ e ->.
Qed.

#[local] Instance version_laws : ComparatorLaws BytewiseComparator (Forall is_byte) slice_compare := bytewise_laws.

Lemma entries_ok : Forall (entry_ok (valid := Forall is_byte)) [entry_c3; entry_c2; entry_a0; entry_d1].
Proof. repeat (constructor; [concrete|]). constructor. Qed.

Lemma one_entry n e : entry_ok (valid := Forall is_byte) e -> file_entries (valid := Forall is_byte) (cmp := slice_compare) (file_of n e e) [e].
Proof.
  intros He. pose proof He as (Hv & _ & Ht & _). split; [|by constructor|by exists e|by exists e]. split; [by repeat constructor|by constructor].
Qed.

Lemma file8_entries : file_entries (valid := Forall is_byte) (cmp := slice_compare) (file_of 8 entry_a0 entry_d1) [entry_a0; entry_d1].
Proof.
  pose proof entries_ok as H. rewrite !Forall_cons in H. destruct H as (_ & _ & Ha & Hd & _). split; [|by repeat constructor|by exists entry_a0|by exists entry_d1].
  split; [|constructor; [split; [apply Ha|apply Ha]|constructor; [split; [apply Hd|apply Hd]|constructor]]]. constructor; [by repeat constructor|]. constructor; [left; vm_compute; reflexivity|constructor].
Qed.

Lemma version1_holds : levels_hold (valid := Forall is_byte) (cmp := slice_compare) (holds := list_holds) 0 version1.
Proof.
  pose proof entries_ok as H. rewrite !Forall_cons in H. destruct H as (Hc3 & Hc2 & _ & _ & _). pose proof (one_entry 11 _ Hc2). pose proof (one_entry 12 _ Hc3). pose proof file8_entries.
  assert (forall l, older (cmp := slice_compare) [] l) as Hnil by (intros l e e' He; by apply elem_of_nil in He).
  split; [by repeat (constructor; [by split|])|]. split; [|split; [|split; [by repeat (constructor; [by split|])|split; [split; [by constructor; constructor|done]|split; [by repeat (constructor; [by apply Hnil|])|]]]]].
  - split; [apply NoDup_cons; split; [|apply NoDup_singleton]; by intros ?%list_elem_of_singleton|]. intros p q Hp Hq. 
    rewrite !elem_of_cons, elem_of_nil in Hp, Hq. destruct Hp as [->|[->|[]]], Hq as [->|[->|[]]]; cbn; intros Hlt e e' ->%list_elem_of_singleton ->%list_elem_of_singleton _; cbn; lia.
  - constructor; [|by repeat (constructor; [by apply Hnil|])]. intros e e' He He'. cbn in He, He'. rewrite !elem_of_cons, elem_of_nil in He, He'. destruct He as [->|[->|[]]], He' as [->|[->|[]]]; done.
  - by repeat (split; [by constructor|split; [split; [by constructor|done]|split; [by repeat (constructor; [by apply Hnil|])|]]]).
Qed.

Lemma sequence_small s : 0 <= s < 100 -> is_sequence s.
Proof. assert (100 <= kMaxSequenceNumber) by (vm_compute; congruence). unfold is_sequence. lia. Qed.

Lemma version_get_witness : exists k st value stats t, new_lookup_key [99] 2 = Ret k /\ Version_Get BytewiseComparator files1 k [] tt = Ret (st, value, stats, t) /\
  looked_up (cmp := slice_compare) [99] 2 (version_entries version1) [] st value /\ st = status_ok /\ value = [121].
Proof.
  destruct (new_lookup_key_ret [99] 2 (sequence_small 2 ltac:(lia)) ltac:(vm_compute; reflexivity)) as (k & Ek & _).
  destruct (version_get version1 [99] 2 k [] tt version1_holds I I ltac:(concrete) (sequence_small 2 ltac:(lia)) ltac:(vm_compute; reflexivity) Ek) as (st & value & stats & t & E & _ & H).
  exists k, st, value, stats, t. split; [exact Ek|]. split; [exact E|]. split; [exact H|].
  vm_compute in Ek. injection Ek as <-. vm_compute in E. injection E as <- <- _ _. by split.
Defined.

Lemma get_database_witness : exists st value, DbGet BytewiseComparator db2 None (from_version (user := BytewiseComparator) files1 tt) [100] [] = Ret (st, value) /\
  looked_up (cmp := slice_compare) [100] 3 (([entry1] ++ [entry_gone; entry_b]) ++ version_entries version1) [] st value /\ st = status_ok /\ value = [122].
Proof.
  destruct (new_lookup_key_ret [100] 3 (sequence_small 3 ltac:(lia)) ltac:(vm_compute; reflexivity)) as (k & Ek & _).
  assert (older (cmp := slice_compare) (version_entries version1) ([entry1] ++ [entry_gone; entry_b])) as Hold.
  { intros e e' He He'. change (version_entries version1) with [entry_c2; entry_c3; entry_a0; entry_d1] in He. cbn [app] in He'. rewrite !elem_of_cons in He, He'. destruct He as [-> | [-> | [-> | He]]], He' as [-> | [-> | [-> | He']]]; try apply list_elem_of_singleton in He as ->; cbn; first [done|by apply elem_of_nil in He'|lia]. }
  destruct (get_database (valid := Forall is_byte) (cmp := slice_compare) (user := BytewiseComparator) (user_ok := fun _ => True) (holds := list_holds) (ok := fun _ => True) db2 [entry1] [entry_gone; entry_b] 2 version1 None [100] k [] tt db2_memtables version1_holds Hold I I ltac:(by constructor) ltac:(vm_compute; reflexivity) (sequence_small 3 ltac:(lia)) Ek) as (st & value & E & H).
  exists st, value. split; [exact E|]. split; [exact H|]. clear - E. vm_compute in E. injection E as <- <-. by split.
Defined.

(** ** Searching the files *)

Lemma file8_fine : file_fine (valid := Forall is_byte) (cmp := slice_compare) (file_of 8 entry_a0 entry_d1).
Proof. exact (file_ends _ _ file8_entries). Qed.

Lemma level0_fine : Forall (file_fine (valid := Forall is_byte) (cmp := slice_compare)) [file_of 11 entry_c2 entry_c2; file_of 12 entry_c3 entry_c3].
Proof.
  pose proof entries_ok as H. rewrite !Forall_cons in H. destruct H as (Hc3 & Hc2 & _).
  constructor; [exact (file_ends _ _ (one_entry 11 _ Hc2))|]. constructor; [exact (file_ends _ _ (one_entry 12 _ Hc3))|constructor].
Qed.

Lemma overlap_search_witness : SomeFileOverlapsRange BytewiseComparator true [file_of 8 entry_a0 entry_d1] (Some [98]) None = Ret true.
Proof.
  rewrite (overlap_search (valid := Forall is_byte) (cmp := slice_compare) true [file_of 8 entry_a0 entry_d1] (Some [98]) None); [vm_compute; reflexivity|by repeat constructor|done|cbn; concrete|done|].
  constructor; [exact file8_fine|constructor].
Defined.

(** Two files of level 0, of which the second overlaps the range only with the first. *)
Definition entry_b1 : entry := mk_entry [98] 1 kTypeValue [].
Definition chained : list FileMetaData := [file_of 21 entry_a0 entry_b1; file_of 22 entry_b1 entry_d1].

Lemma overlapping_inputs_witness : exists inputs, GetOverlappingInputs BytewiseComparator [chained; []; []; []; []; []; []] 0 (Some (ikey_of 97 5)) (Some (ikey_of 97 5)) = Ret inputs /\ inputs = chained.
Proof.
  assert (forall c t, Forall is_byte [c] -> is_sequence t -> internal_valid (Forall is_byte) (PutFixed64 [c] (packed t kTypeValue))) as Hk by (intros c t Hc Ht; apply internal_valid_put; [done|done]).
  destruct (overlapping_inputs (valid := Forall is_byte) (cmp := slice_compare) (user := BytewiseComparator) [chained; []; []; []; []; []; []] 0 chained (Some (ikey_of 97 5)) (Some (ikey_of 97 5)))
    as (inputs & b & e & E & _).
  - reflexivity.
  - split; vm_compute; congruence.
  - reflexivity.
  - assert (entry_ok (valid := Forall is_byte) entry_b1) as Hb by concrete. pose proof entries_ok as H. rewrite !Forall_cons in H. destruct H as (_ & _ & Ha & Hd & _).
    constructor; [split; by apply internal_of_valid|]. constructor; [split; by apply internal_of_valid|constructor].
  - apply Hk; [concrete|apply sequence_small; lia].
  - apply Hk; [concrete|apply sequence_small; lia].
  - exists inputs. split; [exact E|]. vm_compute in E. injection E as <-. reflexivity.
Defined.

Lemma memtable_level_witness : exists level, PickLevelForMemTableOutput BytewiseComparator files1 2097152 [101] [102] = Ret level /\ level_clear (cmp := slice_compare) files1 [101] [102] level /\ level = 2.
Proof.
  destruct (memtable_level (valid := Forall is_byte) (cmp := slice_compare) (user := BytewiseComparator) files1 2097152 [101] [102]) as (level & E & H1 & H2).
  - split; [reflexivity|]. intros level files E. destruct level as [|[|level]].
    + injection E as <-. split; [exact level0_fine|]. by split.
    + injection E as <-. split; [constructor; [exact file8_fine|constructor]|]. split; [done|]. by repeat constructor.
    + assert (files = []) as ->; [|split; [constructor|by split; [|constructor]]]. assert (Forall (fun f => f = []) (drop 2 files1)) as H by (by repeat constructor).
      change (drop 2 files1 !! level = Some files) in E. by eapply Forall_lookup in H.
  - concrete.
  - concrete.
  - exists level. split; [exact E|]. assert (level = 2) as -> by (vm_compute in E; by injection E). split; [|reflexivity]. apply H2; lia.
Defined.

Lemma read_sample_witness : RecordReadSample BytewiseComparator [chained; []; []; []; []; []; []] (mk_seeks None 0) (ikey_of 98 9) =
  Ret (false, Some (set_allowed_seeks (file_of 22 entry_b1 entry_d1) (2 ^ 30 - 1)), mk_seeks None 0).
Proof.
  rewrite (read_sample BytewiseComparator [chained; []; []; []; []; []; []] (mk_seeks None 0) (ikey_of 98 9) (mk_parsed [98] 9 kTypeValue)
    [(0, file_of 22 entry_b1 entry_d1); (0, file_of 21 entry_a0 entry_b1)]); [vm_compute; reflexivity|discriminate|vm_compute; reflexivity|vm_compute; reflexivity].
Defined.
