(* ===== verification/LdbFilename.v ===== *)
(** * LevelDB: names of files and CURRENT (db/filename.cc, util/logging.cc, util/env.cc)

    Numbers as text, the names of the files of a database, and reading both back.
    Writing a string to a file and reading it back over the methods of [Env], an
    abstract class, and [SetCurrentFile] on top: it replaces the name in CURRENT, or
    leaves CURRENT as it was. *)
From S2P Require Import Prelude LdbStatus LdbEnvPosix.
From Stdlib Require Import ZArith Lia.
From stdpp Require Import base tactics numbers list strings.
#[local] Open Scope Z_scope.

(** ** Definitions *)

(** *** Numbers and text *)

(** The digits that [%llu] prints, in front of [acc]; a number has at most twenty. *)
Fixpoint decimal_loop (n : nat) (num : Z) (acc : list Z) : list Z :=
  match n with
  | O => acc
  | S n =>
      let acc := (48 + num mod 10) :: acc in
      if num <? 10 then acc else decimal_loop n (num / 10) acc
  end.
Definition decimal (num : Z) : list Z := decimal_loop 20 num [].

Definition AppendNumberTo (str : list Z) (num : Z) : list Z := str ++ decimal num.
Definition NumberToString (num : Z) : list Z := AppendNumberTo [] num.

(** [%02x] of a byte. *)
Definition hex_digit (d : Z) : Z := if d <? 10 then 48 + d else 87 + d.

Definition AppendEscapedStringTo (str value : list Z) : list Z :=
  str ++ concat (map (fun c => if (32 <=? c) && (c <=? 126) then [c] else bytes_of "\x" ++ [hex_digit (c / 16); hex_digit (c mod 16)]) value).
Definition EscapeString (value : list Z) : list Z := AppendEscapedStringTo [] value.

Definition kMaxUint64 : Z := 2 ^ 64 - 1.
Definition kLastDigitOfMaxUint64 : Z := 48 + kMaxUint64 mod 10.

Definition is_digit (ch : Z) : bool := negb ((ch <? 48) || (ch >? 57)).

(** The loop; [None] when the number does not fit. *)
Fixpoint consume_digits (value : Z) (current : list Z) : option (Z * list Z) :=
  match current with
  | [] => Some (value, [])
  | ch :: rest =>
      if (ch <? 48) || (ch >? 57) then Some (value, current)
      else if (value >? kMaxUint64 / 10) || ((value =? kMaxUint64 / 10) && (ch >? kLastDigitOfMaxUint64)) then None
      else consume_digits (u64 (u64 (value * 10) + (ch - 48))) rest
  end.

(** The result, [*val] when it is set, and [*in]. *)
Definition ConsumeDecimalNumber (input : list Z) : bool * option Z * list Z :=
  match consume_digits 0 input with
  | None => (false, None, input)
  | Some (value, rest) => (negb (zlen input - zlen rest =? 0), Some value, rest)
  end.

(** *** Names *)

Inductive FileType := kLogFile | kDBLockFile | kTableFile | kDescriptorFile | kCurrentFile | kTempFile | kInfoLogFile.

(** [%06llu]; the buffer has room for every number and suffix. *)
Definition padded (number : Z) : list Z := repeat 48 (6 - length (decimal number)) ++ decimal number.

Definition MakeFileName (dbname : list Z) (number : Z) (suffix : string) : list Z :=
  dbname ++ bytes_of "/" ++ padded number ++ bytes_of "." ++ bytes_of suffix.

Definition LogFileName (dbname : list Z) (number : Z) : res (list Z) := let! _ := assert_ (number >? 0) in Ret (MakeFileName dbname number "log").
Definition TableFileName (dbname : list Z) (number : Z) : res (list Z) := let! _ := assert_ (number >? 0) in Ret (MakeFileName dbname number "ldb").
Definition SSTTableFileName (dbname : list Z) (number : Z) : res (list Z) := let! _ := assert_ (number >? 0) in Ret (MakeFileName dbname number "sst").
Definition DescriptorFileName (dbname : list Z) (number : Z) : res (list Z) :=
  let! _ := assert_ (number >? 0) in Ret (dbname ++ bytes_of "/MANIFEST-" ++ padded number).
Definition CurrentFileName (dbname : list Z) : list Z := dbname ++ bytes_of "/CURRENT".
Definition LockFileName (dbname : list Z) : list Z := dbname ++ bytes_of "/LOCK".
Definition TempFileName (dbname : list Z) (number : Z) : res (list Z) := let! _ := assert_ (number >? 0) in Ret (MakeFileName dbname number "dbtmp").
Definition InfoLogFileName (dbname : list Z) : list Z := dbname ++ bytes_of "/LOG".
Definition OldInfoLogFileName (dbname : list Z) : list Z := dbname ++ bytes_of "/LOG.old".

Definition equals (s : list Z) (x : string) : bool := bool_decide (s = bytes_of x).

(** [*number] and [*type], or false. *)
Definition ParseFileName (filename : list Z) : option (Z * FileType) :=
  if equals filename "CURRENT" then Some (0, kCurrentFile)
  else if equals filename "LOCK" then Some (0, kDBLockFile)
  else if equals filename "LOG" || equals filename "LOG.old" then Some (0, kInfoLogFile)
  else if starts_with filename (bytes_of "MANIFEST-") then
    match ConsumeDecimalNumber (skipn 9 filename) with
    | (true, Some num, []) => Some (num, kDescriptorFile)
    | _ => None
    end
  else
    match ConsumeDecimalNumber filename with
    | (true, Some num, suffix) =>
        if equals suffix ".log" then Some (num, kLogFile)
        else if equals suffix ".sst" || equals suffix ".ldb" then Some (num, kTableFile)
        else if equals suffix ".dbtmp" then Some (num, kTempFile)
        else None
    | _ => None
    end.

(** ** Numbers *)

Definition digits (ds : list Z) : Prop := Forall (fun c => 48 <= c <= 57) ds.

Definition value_from (v : Z) (ds : list Z) : Z := foldl (fun v c => v * 10 + (c - 48)) v ds.

Lemma value_snoc v ds c : value_from v (ds ++ [c]) = value_from v ds * 10 + (c - 48).
Proof. unfold value_from. by rewrite foldl_app. Qed.

Lemma value_ge ds : digits ds -> forall v, 0 <= v -> v <= value_from v ds.
Proof.
  induction 1 as [|c ds Hc Hds IH]; intros v Hv; cbn; [lia|]. specialize (IH (v * 10 + (c - 48)) ltac:(lia)). unfold value_from in IH. lia.
Qed.

Lemma decimal_loop_ok n : forall num acc, 0 <= num < 10 ^ Z.of_nat n -> (0 < n)%nat ->
  exists ds, decimal_loop n num acc = ds ++ acc /\ digits ds /\ ds <> [] /\ value_from 0 ds = num.
Proof.
  induction n as [|n IH]; intros num acc Hn Hpos; [lia|]. cbn [decimal_loop]. pose proof (Z.mod_pos_bound num 10 ltac:(lia)). destruct (Z.ltb_spec num 10).
  - exists [48 + num mod 10]. rewrite Z.mod_small by lia. split; [done|]. split; [by constructor; [lia|]|]. split; [done|]. cbn. lia.
  - rewrite Nat2Z.inj_succ, Z.pow_succ_r in Hn by lia. destruct n as [|n]; [cbn in Hn; lia|].
    destruct (IH (num / 10) (48 + num mod 10 :: acc)) as (ds & -> & Hds & Hne & Hv); [split; [apply Z.div_pos; lia|apply Z.div_lt_upper_bound; lia]|lia|].
    exists (ds ++ [48 + num mod 10]). rewrite <- app_assoc. split; [done|]. split; [apply Forall_app; split; [done|by constructor; [lia|]]|]. split; [by destruct ds|].
    rewrite value_snoc, Hv. pose proof (Z.div_mod num 10 ltac:(lia)). lia.
Qed.

Lemma decimal_ok num : 0 <= num < 2 ^ 64 -> digits (decimal num) /\ decimal num <> [] /\ value_from 0 (decimal num) = num.
Proof.
  intros Hn. unfold decimal. destruct (decimal_loop_ok 20 num [] ltac:(lia) ltac:(lia)) as (ds & -> & H). by rewrite app_nil_r.
Qed.

Lemma value_zeros k ds : value_from 0 (repeat 48 k ++ ds) = value_from 0 ds.
Proof. induction k as [|k IH]; [done|exact IH]. Qed.

Lemma padded_ok num : 0 <= num < 2 ^ 64 -> digits (padded num) /\ padded num <> [] /\ value_from 0 (padded num) = num.
Proof.
  intros Hn. destruct (decimal_ok num Hn) as (Hd & Hne & Hv). unfold padded. rewrite value_zeros. split; [|split; [|done]].
  - apply Forall_app. split; [|done]. apply Forall_forall. intros c Hc%list_elem_of_In%repeat_spec. lia.
  - intros [_ E]%app_nil. done.
Qed.

Definition no_digit (rest : list Z) : Prop := match rest with [] => True | c :: _ => is_digit c = false end.

(** The loop reads just the digits, and fails just when the number does not fit. *)
Lemma consume_digits_ok ds rest : digits ds -> no_digit rest -> forall v, 0 <= v <= kMaxUint64 ->
  consume_digits v (ds ++ rest) = if value_from v ds <=? kMaxUint64 then Some (value_from v ds, rest) else None.
Proof.
  intros Hds Hr. induction Hds as [|c ds Hc Hds IH]; intros v Hv.
  - cbn [app value_from foldl]. destruct (Z.leb_spec v kMaxUint64); [|lia]. destruct rest as [|c rest]; [done|]. cbn [consume_digits no_digit] in *. unfold is_digit in Hr. apply negb_false_iff in Hr. by rewrite Hr.
  - cbn [app consume_digits value_from foldl]. fold (value_from (v * 10 + (c - 48)) ds). destruct (Z.ltb_spec c 48); [lia|]. rewrite Z.gtb_ltb. destruct (Z.ltb_spec 57 c); [lia|]. cbn [orb].
    unfold kLastDigitOfMaxUint64. change (48 + kMaxUint64 mod 10) with 53. unfold kMaxUint64 in *. change ((2 ^ 64 - 1) / 10) with 1844674407370955161 in *. rewrite !Z.gtb_ltb.
    pose proof (value_ge ds Hds (v * 10 + (c - 48)) ltac:(lia)) as Hge. 
    destruct (Z.ltb_spec 1844674407370955161 v), (Z.eqb_spec v 1844674407370955161), (Z.ltb_spec 53 c); cbn [orb andb]; try lia;
      try (destruct (Z.leb_spec (value_from (v * 10 + (c - 48)) ds) (2 ^ 64 - 1)); [lia|done]).
    all: rewrite (wrap_small 64 (v * 10) : _ -> u64 _ = _), (wrap_small 64 (v * 10 + (c - 48)) : _ -> u64 _ = _) by lia; apply IH; lia.
Qed.

Lemma ConsumeDecimalNumber_ok ds rest : digits ds -> no_digit rest ->
  ConsumeDecimalNumber (ds ++ rest) = if value_from 0 ds <=? kMaxUint64 then (negb (bool_decide (ds = [])), Some (value_from 0 ds), rest) else (false, None, ds ++ rest).
Proof.
  intros Hd Hr. unfold ConsumeDecimalNumber. rewrite consume_digits_ok; [|done|done|unfold kMaxUint64; lia]. destruct (_ <=? _); [|done]. f_equal. f_equal. f_equal.
  rewrite zlen_app. replace (zlen ds + zlen rest - zlen rest) with (zlen ds) by lia. destruct ds as [|c ds]; [done|]. rewrite bool_decide_false by done. rewrite zlen_cons. pose proof (zlen_nonneg ds). by destruct (Z.eqb_spec (1 + zlen ds) 0); [lia|].
Qed.

(** Every text is its digits and the rest. *)
Lemma split_digits s : exists ds rest, s = ds ++ rest /\ digits ds /\ no_digit rest.
Proof.
  induction s as [|c s (ds & rest & -> & Hd & Hr)]; [exists [], []; by split; [|split; [constructor|]]|]. destruct (is_digit c) eqn:E; [|exists [], (c :: ds ++ rest); by split; [|split; [constructor|]]].
  exists (c :: ds), rest. split; [done|]. split; [|done]. constructor; [|done]. unfold is_digit in E. lia.
Qed.

(** ** Names *)

Lemma digits_first ds x : digits ds -> ds <> [] -> (forall c, head (bytes_of x) = Some c -> is_digit c = false) -> bytes_of x <> [] -> forall rest, equals (ds ++ rest) x = false /\ starts_with (ds ++ rest) (bytes_of x) = false.
Proof.
  intros Hd Hne Hx Hnx rest. destruct ds as [|c ds]; [done|]. apply Forall_cons in Hd as [Hc _]. destruct (bytes_of x) as [|y ys] eqn:Ex; [done|]. specialize (Hx y eq_refl).
  assert (y <> c) as Hyc by (intros ->; unfold is_digit in Hx; lia). unfold equals, starts_with. rewrite Ex. split; apply bool_decide_false; [by intros [= <- _]|]. intros [k [= Ek _]]. done.
Qed.

Lemma ParseFileName_digits ds suffix : digits ds -> ds <> [] -> no_digit suffix -> value_from 0 ds <= kMaxUint64 ->
  ParseFileName (ds ++ suffix) =
  if equals suffix ".log" then Some (value_from 0 ds, kLogFile)
  else if equals suffix ".sst" || equals suffix ".ldb" then Some (value_from 0 ds, kTableFile)
  else if equals suffix ".dbtmp" then Some (value_from 0 ds, kTempFile)
  else None.
Proof.
  intros Hd Hne Hs Hv. unfold ParseFileName. pose proof (digits_first ds) as H.
  assert (forall x c ys, bytes_of x = c :: ys -> is_digit c = false -> equals (ds ++ suffix) x = false /\ starts_with (ds ++ suffix) (bytes_of x) = false) as Hx.
  { intros x c ys Ex Hc. apply H; [done|done| |by rewrite Ex]. rewrite Ex. by intros ? [= <-]. }
  rewrite (proj1 (Hx "CURRENT"%string _ _ eq_refl eq_refl)), (proj1 (Hx "LOCK"%string _ _ eq_refl eq_refl)), (proj1 (Hx "LOG"%string _ _ eq_refl eq_refl)), (proj1 (Hx "LOG.old"%string _ _ eq_refl eq_refl)).
  cbn [orb]. rewrite (proj2 (Hx "MANIFEST-"%string _ _ eq_refl eq_refl)), ConsumeDecimalNumber_ok by done. destruct (Z.leb_spec (value_from 0 ds) kMaxUint64); [|lia]. by rewrite bool_decide_false.
Qed.

Lemma starts_with_app a b : starts_with (a ++ b) a = true.
Proof. apply bool_decide_true. by exists b. Qed.

Lemma ParseFileName_manifest rest : ParseFileName (bytes_of "MANIFEST-" ++ rest) =
  match ConsumeDecimalNumber rest with (true, Some num, []) => Some (num, kDescriptorFile) | _ => None end.
Proof.
  unfold ParseFileName. assert (forall x : string, head (bytes_of x) <> Some 77 -> equals (bytes_of "MANIFEST-" ++ rest) x = false) as Hx.
  { intros x Hx. apply bool_decide_false. intros E. apply Hx. by rewrite <- E. }
  rewrite !Hx by (by vm_compute). cbn [orb]. by rewrite starts_with_app.
Qed.

(** The suffixes are no digits and differ. *)
Lemma numbered_name number suffix t : 0 < number < 2 ^ 64 -> no_digit suffix ->
  (if equals suffix ".log" then Some kLogFile else if equals suffix ".sst" || equals suffix ".ldb" then Some kTableFile else if equals suffix ".dbtmp" then Some kTempFile else None) = Some t ->
  ParseFileName (padded number ++ suffix) = Some (number, t).
Proof.
  intros Hn Hs Ht. destruct (padded_ok number ltac:(lia)) as (Hd & Hne & Hv). rewrite ParseFileName_digits by (done || (rewrite Hv; unfold kMaxUint64; lia)). rewrite Hv.
  destruct (equals suffix ".log"); [by injection Ht as <-|]. destruct (_ || _); [by injection Ht as <-|]. destruct (equals suffix ".dbtmp"); [by injection Ht as <-|done].
Qed.

(** The names of a manifest and of a temporary file in the directory. *)
Definition manifest_base (number : Z) : list Z := bytes_of "MANIFEST-" ++ padded number.
Definition temp_base (number : Z) : list Z := padded number ++ bytes_of ".dbtmp".

Lemma assert_number {A} number (k : res A) : 0 < number -> (let! _ := assert_ (number >? 0) in k) = k.
Proof. intros Hn. unfold assert_. by destruct (Z.gtb_spec number 0); [|lia]. Qed.

Lemma descriptor_file_name dbname number : 0 < number -> DescriptorFileName dbname number = Ret (dbname ++ bytes_of "/" ++ manifest_base number).
Proof. intros Hn. unfold DescriptorFileName. by rewrite assert_number. Qed.

Lemma temp_file_name dbname number : 0 < number -> TempFileName dbname number = Ret (dbname ++ bytes_of "/" ++ temp_base number).
Proof. intros Hn. unfold TempFileName. by rewrite assert_number. Qed.

Lemma parse_manifest_base number : 0 < number < 2 ^ 64 -> ParseFileName (manifest_base number) = Some (number, kDescriptorFile).
Proof.
  intros Hn. unfold manifest_base. rewrite ParseFileName_manifest. destruct (padded_ok number ltac:(lia)) as (Hd & Hne & Hv). rewrite <- (app_nil_r (padded number)), ConsumeDecimalNumber_ok by done. rewrite Hv.
  destruct (Z.leb_spec number kMaxUint64); [|unfold kMaxUint64 in *; lia]. by rewrite bool_decide_false.
Qed.

(** ** Theorems *)

(** Of any text the number is what its leading digits say, and what is left is behind
    them; it is refused when there are none, or when they do not fit into 64 bits. *)
Theorem consume_decimal s : exists ds rest, s = ds ++ rest /\ digits ds /\ no_digit rest /\
  ConsumeDecimalNumber s = (if value_from 0 ds <=? kMaxUint64 then (negb (bool_decide (ds = [])), Some (value_from 0 ds), rest) else (false, None, s)) /\
  forall num, 0 <= num < 2 ^ 64 -> ConsumeDecimalNumber (NumberToString num ++ rest) = (true, Some num, rest).
Proof.
  destruct (split_digits s) as (ds & rest & -> & Hd & Hr). exists ds, rest. split; [done|]. split; [done|]. split; [done|]. split; [by apply ConsumeDecimalNumber_ok|].
  intros num Hn. destruct (decimal_ok num Hn) as (Hd' & Hne & Hv). unfold NumberToString, AppendNumberTo. cbn [app]. rewrite ConsumeDecimalNumber_ok by done. rewrite Hv.
  destruct (Z.leb_spec num kMaxUint64); [|unfold kMaxUint64 in *; lia]. by rewrite bool_decide_false.
Qed.

(** C15. Every name that is made for a database is, behind its directory, read back with its
    type and number. *)
Theorem filename_roundtrip dbname number : 0 < number < 2 ^ 64 ->
  Forall (fun p : (list Z -> Z -> res (list Z)) * FileType => exists base, fst p dbname number = Ret (dbname ++ bytes_of "/" ++ base) /\ ParseFileName base = Some (number, snd p))
    [(LogFileName, kLogFile); (TableFileName, kTableFile); (SSTTableFileName, kTableFile); (DescriptorFileName, kDescriptorFile); (TempFileName, kTempFile)] /\
  Forall (fun p : (list Z -> list Z) * FileType => exists base, fst p dbname = dbname ++ bytes_of "/" ++ base /\ ParseFileName base = Some (0, snd p))
    [(CurrentFileName, kCurrentFile); (LockFileName, kDBLockFile); (InfoLogFileName, kInfoLogFile); (OldInfoLogFileName, kInfoLogFile)].
Proof.
  intros Hn. split; repeat constructor; cbn [fst snd]; try by eexists.
  1,2,3,5: unfold LogFileName, TableFileName, SSTTableFileName, TempFileName; rewrite assert_number by lia; eexists; split; [done|by apply numbered_name].
  exists (manifest_base number). split; [apply descriptor_file_name; lia|by apply parse_manifest_base].
Qed.

(** Only names of the documented forms are accepted, and temporary ones. *)
Theorem filename_forms name number t : ParseFileName name = Some (number, t) ->
  (number = 0 /\ (name, t) ∈ [(bytes_of "CURRENT", kCurrentFile); (bytes_of "LOCK", kDBLockFile); (bytes_of "LOG", kInfoLogFile); (bytes_of "LOG.old", kInfoLogFile)]) \/
  exists ds, digits ds /\ ds <> [] /\ value_from 0 ds = number /\ number < 2 ^ 64 /\
    (name = bytes_of "MANIFEST-" ++ ds /\ t = kDescriptorFile \/
     exists suffix, name = ds ++ bytes_of suffix /\ (suffix, t) ∈ [(".log"%string, kLogFile); (".sst"%string, kTableFile); (".ldb"%string, kTableFile); (".dbtmp"%string, kTempFile)]).
Proof.
  assert (forall x, equals name x = true -> name = bytes_of x) as He by (by intros x ?%bool_decide_eq_true).
  assert (forall s num rest, ConsumeDecimalNumber s = (true, Some num, rest) -> exists ds, s = ds ++ rest /\ digits ds /\ ds <> [] /\ value_from 0 ds = num /\ num < 2 ^ 64) as Hc.
  { intros s num rest E. destruct (split_digits s) as (ds & rest' & -> & Hd & Hr). rewrite ConsumeDecimalNumber_ok in E by done. destruct (Z.leb_spec (value_from 0 ds) kMaxUint64); [|done]. injection E as E <- <-.
    exists ds. split; [done|]. split; [done|]. split; [|split; [done|unfold kMaxUint64 in *; lia]]. by intros ->. }
  unfold ParseFileName. destruct (equals name "CURRENT") eqn:E1; [intros [= <- <-]; left; apply He in E1 as ->; split; [done|by left]|].
  destruct (equals name "LOCK") eqn:E2; [intros [= <- <-]; left; apply He in E2 as ->; split; [done|right; by left]|].
  destruct (equals name "LOG" || equals name "LOG.old") eqn:E3.
  { intros [= <- <-]. left. split; [done|]. apply orb_prop in E3 as [E3|E3]; apply He in E3 as ->; [do 2 right; by left|do 3 right; by left]. }
  destruct (starts_with name (bytes_of "MANIFEST-")) eqn:E4.
  - apply bool_decide_eq_true in E4 as [rest ->]. change (skipn 9 (bytes_of "MANIFEST-" ++ rest)) with rest. destruct (ConsumeDecimalNumber rest) as [[[] [num|]] [|c l]] eqn:E; try done.
    intros [= <- <-]. destruct (Hc _ _ _ E) as (ds & Eds & Hd & Hne & Hv & Hlt). rewrite app_nil_r in Eds. subst rest. right. exists ds. split; [done|]. split; [done|]. split; [done|]. split; [done|]. by left.
  - destruct (ConsumeDecimalNumber name) as [[[] [num|]] suffix] eqn:E; try done. destruct (Hc _ _ _ E) as (ds & -> & Hd & Hne & Hv & Hlt). clear He.
    assert (forall x, equals suffix x = true -> suffix = bytes_of x) as He by (by intros x ?%bool_decide_eq_true).
    destruct (equals suffix ".log") eqn:S1; [|destruct (equals suffix ".sst" || equals suffix ".ldb") eqn:S2; [|destruct (equals suffix ".dbtmp") eqn:S3; [|done]]];
      intros [= <- <-]; right; exists ds; (split; [done|]); (split; [done|]); (split; [done|]); (split; [done|]); right.
    + apply He in S1 as ->. exists ".log"%string. split; [done|by left].
    + apply orb_prop in S2 as [S2|S2]; apply He in S2 as ->; [exists ".sst"%string; split; [done|right; by left]|exists ".ldb"%string; split; [done|do 2 right; by left]].
    + apply He in S3 as ->. exists ".dbtmp"%string. split; [done|do 3 right; by left].
Qed.

(** ** Definitions *)

(** [Env] over the state [O] of the file system.  An open writable file [F] has the
    state in it; [delete_writable] gives it back.  A file [R] that is read has not. *)
Class Env (O F R : Type) : Type := {
  NewWritableFile : list Z -> O -> Status * (O + F);
  delete_writable : F -> O;
  NewSequentialFile : list Z -> O -> Status * option R;
  env_DeleteFile : list Z -> O -> Status * O;
  RenameFile : list Z -> list Z -> O -> Status * O;
}.

Section Files.
Context {O F R : Type} {W : WritableFile F} {S : SequentialFile R} {env : Env O F R}.

Definition DoWriteStringToFile (data fname : list Z) (should_sync : bool) (e : O) : res (Status * O) :=
  match NewWritableFile fname e with
  | (s, inl e) => Ret (s, e)
  | (s, inr file) =>
      let! (s, file) := Append file data in
      let! (s, file) := if is_ok s && should_sync then Sync file else Ret (s, file) in
      let! (s, file) := if is_ok s then Close file else Ret (s, file) in
      let e := delete_writable file in
      Ret (s, if is_ok s then e else snd (env_DeleteFile fname e))
  end.

Definition WriteStringToFile (data fname : list Z) (e : O) : res (Status * O) := DoWriteStringToFile data fname false e.
Definition WriteStringToFileSync (data fname : list Z) (e : O) : res (Status * O) := DoWriteStringToFile data fname true e.

Definition kBufferSize : Z := 8192.

(** The file and [*data]. *)
Definition read_string_round (st : R * list Z) : res ((R * list Z) + (Status * list Z)) :=
  let (file, data) := st in
  let! (s, fragment, file) := Read file kBufferSize [] in
  if negb (is_ok s) then Ret (inr (s, data))
  else
    let data := data ++ fragment in
    if zlen fragment =? 0 then Ret (inr (s, data)) else Ret (inl (file, data)).

Definition ReadFileToString (fuel : nat) (fname : list Z) (e : O) : res (Status * list Z) :=
  match NewSequentialFile fname e with
  | (s, None) => Ret (s, [])
  | (s, Some file) => loop fuel read_string_round (file, [])
  end.

Definition SetCurrentFile (dbname : list Z) (descriptor_number : Z) (e : O) : res (Status * O) :=
  let! manifest := DescriptorFileName dbname descriptor_number in
  let! _ := assert_ (starts_with manifest (dbname ++ bytes_of "/")) in
  let contents := skipn (Z.to_nat (zlen dbname + 1)) manifest in
  let! tmp := TempFileName dbname descriptor_number in
  let! (s, e) := WriteStringToFileSync (contents ++ [10]) tmp e in
  let (s, e) := if is_ok s then RenameFile tmp (CurrentFileName dbname) e else (s, e) in
  Ret (s, if is_ok s then e else snd (env_DeleteFile tmp e)).

End Files.

(** ** What a file system promises *)

(** [contents e n]: the bytes of the file [n].  Of an open file, [named f] is its name,
    [written f] what was written without an error, and [around f] the other files.  A
    rename is atomic; what fails may have damaged the file it was about, and no other. *)
Class LawfulEnv (O F R : Type) {W : WritableFile F} {S : SequentialFile R} {env : Env O F R} (unread : R -> list Z)
    (contents : O -> list Z -> option (list Z)) (named written : F -> list Z) (around : F -> list Z -> option (list Z)) : Prop := {
  new_writable_file n e : match NewWritableFile n e with
    | (s, inl e') => is_ok s = false /\ forall m, m <> n -> contents e' m = contents e m
    | (s, inr f) => is_ok s = true /\ named f = n /\ written f = [] /\ forall m, m <> n -> around f m = contents e m
    end;
  append_file f data : exists s f', Append f data = Ret (s, f') /\ named f' = named f /\ around f' = around f /\ (is_ok s = true -> written f' = written f ++ data);
  sync_file f : exists s f', Sync f = Ret (s, f') /\ named f' = named f /\ around f' = around f /\ (is_ok s = true -> written f' = written f);
  close_file f : exists s f', Close f = Ret (s, f') /\ named f' = named f /\ around f' = around f /\ (is_ok s = true -> contents (delete_writable f') (named f') = Some (written f));
  delete_file f m : m <> named f -> contents (delete_writable f) m = around f m;
  remove_file n e m : m <> n -> contents (snd (env_DeleteFile n e)) m = contents e m;
  rename_file a b e : let (s, e') := RenameFile a b e in
    if is_ok s then contents e' b = contents e a /\ forall m, m <> a -> m <> b -> contents e' m = contents e m
    else forall m, contents e' m = contents e m;
  new_sequential n e : match NewSequentialFile n e with
    | (s, None) => is_ok s = false
    | (s, Some r) => is_ok s = true /\ contents e n = Some (unread r)
    end;
  sequential_lawful : LawfulSequential R unread;
}.

Section Spec.
Context {O F R : Type} {W : WritableFile F} {S : SequentialFile R} {env : Env O F R} {unread : R -> list Z}.
Context {contents : O -> list Z -> option (list Z)} {named written : F -> list Z} {around : F -> list Z -> option (list Z)}.
Context {laws : LawfulEnv O F R unread contents named written around}.

Lemma DoWriteStringToFile_ok data fname sync e : exists s e', DoWriteStringToFile data fname sync e = Ret (s, e') /\
  (forall m, m <> fname -> contents e' m = contents e m) /\ (is_ok s = true -> contents e' fname = Some data).
Proof.
  unfold DoWriteStringToFile. pose proof (new_writable_file fname e) as Hnew. destruct (NewWritableFile fname e) as [s [e'|f]].
  - destruct Hnew as [Hs He]. exists s, e'. split; [done|]. split; [done|]. by rewrite Hs.
  - destruct Hnew as (_ & Hn & Hw & Ha). destruct (append_file f data) as (s1 & f1 & -> & Hn1 & Ha1 & Hw1). cbn [rbind].
    assert (exists s2 f2, (if is_ok s1 && sync then Sync f1 else Ret (s1, f1)) = Ret (s2, f2) /\ named f2 = fname /\ around f2 = around f /\ (is_ok s2 = true -> written f2 = data)) as (s2 & f2 & -> & Hn2 & Ha2 & Hw2).
    { destruct (is_ok s1) eqn:E1; cbn [andb]; [destruct sync|].
      - destruct (sync_file f1) as (s2 & f2 & -> & Hn2 & Ha2 & Hw2). exists s2, f2. split; [done|]. split; [congruence|]. split; [congruence|]. intros E. rewrite (Hw2 E), (Hw1 eq_refl), Hw. done.
      - exists s1, f1. split; [done|]. split; [congruence|]. split; [done|]. intros _. by rewrite (Hw1 eq_refl), Hw.
      - exists s1, f1. split; [done|]. split; [congruence|]. split; [done|]. congruence. }
    cbn [rbind]. assert (exists s3 f3, (if is_ok s2 then Close f2 else Ret (s2, f2)) = Ret (s3, f3) /\ named f3 = fname /\ around f3 = around f /\ (is_ok s3 = true -> contents (delete_writable f3) fname = Some data)) as (s3 & f3 & -> & Hn3 & Ha3 & Hc3).
    { destruct (is_ok s2) eqn:E2.
      - destruct (close_file f2) as (s3 & f3 & -> & Hn3 & Ha3 & Hc3). exists s3, f3. split; [done|]. split; [congruence|]. split; [congruence|]. intros E. rewrite (Hw2 eq_refl) in Hc3. rewrite <- Hn2, <- Hn3. by apply Hc3.
      - exists s2, f2. split; [done|]. split; [congruence|]. split; [done|]. congruence. }
    cbn [rbind]. assert (forall m, m <> fname -> contents (delete_writable f3) m = contents e m) as Hd by (intros m Hm; rewrite delete_file by congruence; rewrite Ha3; by apply Ha).
    eexists s3, _. split; [done|]. destruct (is_ok s3); [split; [done|by intros _; apply Hc3]|]. split; [|done]. intros m Hm. rewrite remove_file by done. by apply Hd.
Qed.

(** A file that can be opened is read. *)
Lemma ReadFileToString_read fname e bytes fuel : contents e fname = Some bytes -> (length bytes + 1 < fuel)%nat ->
  ReadFileToString fuel fname e = Ret (if is_ok (fst (NewSequentialFile fname e)) then (status_ok, bytes) else (fst (NewSequentialFile fname e), [])).
Proof.
  intros Hc Hf. unfold ReadFileToString. pose proof (new_sequential fname e) as Hnew. destruct (NewSequentialFile fname e) as [s [r|]]; cbn [fst]; [|by rewrite Hnew].
  destruct Hnew as [-> Hr]. rewrite Hc in Hr. injection Hr as Hr. pose proof sequential_lawful as L.
  destruct (loop_total (fun st => snd st ++ unread (fst st) = bytes) (fun st => length (unread (fst st))) (fun x => x = (status_ok, bytes)) read_string_round fuel (r, [])) as (x & -> & ->); [|done|cbn; rewrite <- Hr; lia|done].
  intros [f d] Hd. cbn [fst snd] in *. unfold read_string_round. destruct (read_unread f kBufferSize [] ltac:(unfold kBufferSize; lia)) as (f' & -> & Hf'). cbn [rbind is_ok status_ok negb].
  change (Z.to_nat kBufferSize) with (Z.to_nat 8192) in *. destruct (Z.eqb_spec (zlen (firstn (Z.to_nat 8192) (unread f))) 0) as [E|E].
  - eexists. split; [done|]. f_equal. assert (unread f = []) as Eu by (destruct (unread f); [done|]; destruct (Z.to_nat 8192) eqn:En; [lia|]; unfold zlen in E; cbn in E; lia).
    rewrite Eu in Hd |- *. by rewrite firstn_nil.
  - eexists. split; [done|]. cbn [fst snd]. rewrite Hf'. split; [by rewrite <- app_assoc, firstn_skipn|]. rewrite length_skipn. destruct (unread f); [by rewrite firstn_nil in E|cbn; lia].
Qed.

Lemma ReadFileToString_ok fname e bytes fuel : contents e fname = Some bytes -> (length bytes + 1 < fuel)%nat ->
  exists s data, ReadFileToString fuel fname e = Ret (s, data) /\ (is_ok s = true -> data = bytes).
Proof.
  intros Hc Hf. rewrite (ReadFileToString_read _ _ bytes) by done. destruct (is_ok (fst (NewSequentialFile fname e))) eqn:E; do 2 eexists; (split; [done|]); congruence.
Qed.

Lemma temp_not_current dbname number : 0 < number < 2 ^ 64 -> dbname ++ bytes_of "/" ++ temp_base number <> CurrentFileName dbname.
Proof.
  intros Hn. unfold temp_base, CurrentFileName. intros E. apply app_inv_head in E.
  destruct (padded_ok number ltac:(lia)) as (Hd & Hne & _). destruct (padded number) as [|c l]; [done|]. apply Forall_cons in Hd as [Hc _]. injection E as E _. lia.
Qed.

Lemma SetCurrentFile_ok dbname number e : 0 < number < 2 ^ 64 -> exists s e', SetCurrentFile dbname number e = Ret (s, e') /\
  (forall m, m <> dbname ++ bytes_of "/" ++ temp_base number -> m <> CurrentFileName dbname -> contents e' m = contents e m) /\
  contents e' (CurrentFileName dbname) = if is_ok s then Some (manifest_base number ++ [10]) else contents e (CurrentFileName dbname).
Proof.
  intros Hn. unfold SetCurrentFile. rewrite descriptor_file_name, temp_file_name by lia. cbn [rbind]. set (name := manifest_base number). rewrite app_assoc. rewrite starts_with_app.
  cbn [assert_ rbind]. assert (skipn (Z.to_nat (zlen dbname + 1)) ((dbname ++ bytes_of "/") ++ name) = name) as ->.
  { apply drop_app_length'. rewrite length_app. unfold zlen. change (length (bytes_of "/")) with 1%nat. lia. }
  set (tmp := dbname ++ bytes_of "/" ++ temp_base number) in *. assert (tmp <> CurrentFileName dbname) as Hne by (by apply temp_not_current).
  unfold WriteStringToFileSync. destruct (DoWriteStringToFile_ok (name ++ [10]) tmp true e) as (s & e1 & -> & Ho & Hw). cbn [rbind].
  assert (forall x m, m <> tmp -> contents (snd (env_DeleteFile tmp x)) m = contents x m) as Hrm by (intros; by apply remove_file).
  destruct (is_ok s) eqn:Es; cbn [snd].
  - pose proof (rename_file tmp (CurrentFileName dbname) e1) as Hren. destruct (RenameFile tmp (CurrentFileName dbname) e1) as [s2 e2]. destruct (is_ok s2) eqn:E2.
    + destruct Hren as [H1 H2]. exists s2, e2. split; [done|]. rewrite E2. split; [intros m Hm1 Hm2; rewrite H2 by done; by apply Ho|]. by rewrite H1, Hw.
    + eexists s2, _. rewrite E2. split; [done|]. split; [intros m Hm1 Hm2; rewrite Hrm by done; rewrite Hren; by apply Ho|]. rewrite Hrm by done. rewrite Hren. by apply Ho.
  - eexists s, _. rewrite Es. split; [done|]. split; [intros m Hm1 Hm2; rewrite Hrm by done; by apply Ho|]. rewrite Hrm by done. by apply Ho.
Qed.

(** ** Theorems *)

(** [SetCurrentFile] replaces what CURRENT holds by the name of the manifest, or, when a
    call fails, leaves it as it was; but for its temporary file it touches no other. *)
Theorem set_current dbname number e fuel : 0 < number < 2 ^ 64 -> exists s e' tmp, SetCurrentFile dbname number e = Ret (s, e') /\ TempFileName dbname number = Ret tmp /\
  (forall m, m <> tmp -> m <> CurrentFileName dbname -> contents e' m = contents e m) /\
  if is_ok s then exists name, ParseFileName name = Some (number, kDescriptorFile) /\ contents e' (CurrentFileName dbname) = Some (name ++ [10]) /\
    ((length name + 2 < fuel)%nat -> exists s' data, ReadFileToString fuel (CurrentFileName dbname) e' = Ret (s', data) /\ (is_ok s' = true -> data = name ++ [10]))
  else contents e' (CurrentFileName dbname) = contents e (CurrentFileName dbname).
Proof.
  intros Hn. destruct (SetCurrentFile_ok dbname number e Hn) as (s & e' & -> & Ho & Hc). eexists s, e', _. split; [done|]. split; [apply temp_file_name; lia|]. split; [done|].
  destruct (is_ok s); [|done]. exists (manifest_base number). split; [by apply parse_manifest_base|]. split; [done|]. intros Hf. apply ReadFileToString_ok; [done|rewrite length_app; change (length [10]) with 1%nat; lia].
Qed.

End Spec.
