(* ===== verification/LdbVersionBuilder.v ===== *)
(** * LevelDB: applying edits to a version (VersionSet::Builder in db/version_set.cc)

    [VersionSet::Builder] collects a sequence of edits and then makes one version of
    it.  The version has, level by level and in order, the files that are left when
    the edits are applied one after the other. *)
From S2P Require Import Prelude.
From S2P Require Import LdbCoding LdbStatus LdbOrder LdbKeys LdbVersionEdit LdbVersion.
From Stdlib Require Import ZArith Lia.
From stdpp Require Import base tactics numbers list sorting gmap.
#[local] Open Scope Z_scope.

(** ** Definitions *)

Section Builder.
Context (user : Comparator).

Definition BySmallestKey (f1 f2 : FileMetaData) : res bool :=
  let! r := compare_internal_keys user (smallest f1) (smallest f2) in
  if negb (r =? 0) then Ret (r <? 0) else Ret (number f1 <? number f2).

(** [FileSet]: the files in order; one that is neither before nor behind another is
    not inserted. *)
Fixpoint file_insert (f : FileMetaData) (added : list FileMetaData) : res (list FileMetaData) :=
  match added with
  | [] => Ret [f]
  | g :: added' =>
      let! b := BySmallestKey f g in
      if b then Ret (f :: added)
      else
        let! b := BySmallestKey g f in
        if b then let! added' := file_insert f added' in Ret (g :: added') else Ret added
  end.

Record LevelState := mk_level { deleted_files : gset Z; added_files : list FileMetaData }.

(** [levels_] of a new builder; [base_] is passed to [SaveTo]. *)
Definition new_builder : list LevelState := repeat (mk_level ∅ []) (Z.to_nat kNumLevels).

(** [levels[level]] is replaced. *)
Definition at_level {A : Type} (levels : list A) (level : Z) (f : A -> res A) : res (list A) :=
  if level <? 0 then UB
  else match levels !! Z.to_nat level with Some x => let! x := f x in Ret (<[Z.to_nat level := x]> levels) | None => UB end.

(** *** Apply *)

Fixpoint apply_pointers (l : list (Z * InternalKey)) (compact_pointer_ : list (list Z)) : res (list (list Z)) :=
  match l with
  | [] => Ret compact_pointer_
  | (level, key) :: l =>
      let! compact_pointer_ := at_level compact_pointer_ level (fun _ => Encode key) in
      apply_pointers l compact_pointer_
  end.

Fixpoint apply_deleted (del : DeletedFileSet) (levels : list LevelState) : res (list LevelState) :=
  match del with
  | [] => Ret levels
  | (level, n) :: del =>
      let! levels := at_level levels level (fun l => Ret (mk_level ({[n]} ∪ deleted_files l) (added_files l))) in
      apply_deleted del levels
  end.

(** The file that is allocated, with the seeks it is allowed. *)
Definition allocate_file (f : FileMetaData) : FileMetaData :=
  let seeks := swrap 32 (file_size f / 16384) in
  mk_file 1 (if seeks <? 100 then 100 else seeks) (number f) (file_size f) (smallest f) (largest f).

Fixpoint apply_new (l : list (Z * FileMetaData)) (levels : list LevelState) : res (list LevelState) :=
  match l with
  | [] => Ret levels
  | (level, f) :: l =>
      let f := allocate_file f in
      let! levels := at_level levels level (fun s =>
        let! added := file_insert f (added_files s) in Ret (mk_level (deleted_files s ∖ {[number f]}) added)) in
      apply_new l levels
  end.

Definition Apply (edit : VersionEdit) (compact_pointer_ : list (list Z)) (levels : list LevelState) : res (list (list Z) * list LevelState) :=
  let! compact_pointer_ := apply_pointers (compact_pointers_ edit) compact_pointer_ in
  let! levels := apply_deleted (deleted_files_ edit) levels in
  let! levels := apply_new (new_files_ edit) levels in
  Ret (compact_pointer_, levels).

(** *** SaveTo *)

(** [f->refs++] *)
Definition add_ref (f : FileMetaData) : FileMetaData := mk_file (refs f + 1) (allowed_seeks f) (number f) (file_size f) (smallest f) (largest f).

(** [files] is [v->files_[level]]. *)
Definition MaybeAddFile (l : LevelState) (level : Z) (f : FileMetaData) (files : list FileMetaData) : res (list FileMetaData) :=
  if bool_decide (number f ∈ deleted_files l) then Ret files
  else
    let! _ :=
      match last files with
      | Some g => if level >? 0 then let! r := compare_internal_keys user (largest g) (smallest f) in assert_ (r <? 0) else Ret tt
      | None => Ret tt
      end in
    Ret (files ++ [add_ref f]).

Fixpoint add_base (l : LevelState) (level : Z) (base files : list FileMetaData) : res (list FileMetaData) :=
  match base with
  | [] => Ret files
  | f :: base => let! files := MaybeAddFile l level f files in add_base l level base files
  end.

(** [std::upper_bound]: the files before the first that is greater, and the others. *)
Fixpoint upper_bound (f : FileMetaData) (base : list FileMetaData) : res (list FileMetaData * list FileMetaData) :=
  match base with
  | [] => Ret ([], [])
  | g :: base' =>
      let! b := BySmallestKey f g in
      if b then Ret ([], base) else let! (before, rest) := upper_bound f base' in Ret (g :: before, rest)
  end.

Fixpoint merge_files (l : LevelState) (level : Z) (added base files : list FileMetaData) : res (list FileMetaData) :=
  match added with
  | [] => add_base l level base files
  | f :: added =>
      let! (before, base) := upper_bound f base in
      let! files := add_base l level before files in
      let! files := MaybeAddFile l level f files in
      merge_files l level added base files
  end.

(** The check of debug builds, which ends the program. *)
Fixpoint check_overlap (files : list FileMetaData) : res unit :=
  match files with
  | f :: ((g :: _) as files') =>
      let! r := compare_internal_keys user (largest f) (smallest g) in
      let! _ := assert_ (negb (r >=? 0)) in
      check_overlap files'
  | _ => Ret tt
  end.

Definition save_level (l : LevelState) (level : Z) (base : list FileMetaData) : res (list FileMetaData) :=
  let! files := merge_files l level (added_files l) base [] in
  let! _ := if level >? 0 then check_overlap files else Ret tt in
  Ret files.

(** From level [level] on; the version is new, its levels are empty. *)
Fixpoint save_levels (level : Z) (levels : list LevelState) (base : list (list FileMetaData)) : res (list (list FileMetaData)) :=
  match levels, base with
  | l :: levels, files :: base =>
      let! v := save_level l level files in
      let! vs := save_levels (level + 1) levels base in
      Ret (v :: vs)
  | [], _ => Ret []
  | _ :: _, [] => UB
  end.

Definition SaveTo (levels : list LevelState) (base : list (list FileMetaData)) : res (list (list FileMetaData)) := save_levels 0 levels base.

End Builder.

(** ** One change after the other *)

(** What an edit does to the files. *)
Inductive Change := Remove (level number : Z) | Insert (level : Z) (f : FileMetaData).

Definition changes (e : VersionEdit) : list Change :=
  map (fun p => Remove (fst p) (snd p)) (deleted_files_ e) ++ map (fun p => Insert (fst p) (snd p)) (new_files_ e).

Definition change_level (c : Change) : Z := match c with Remove l _ => l | Insert l _ => l end.

(** The files of a level behind a change. *)
Definition changed_files (level : Z) (files : list FileMetaData) (c : Change) : list FileMetaData :=
  if change_level c =? level then
    match c with
    | Remove _ n => List.filter (fun f => negb (number f =? n)) files
    | Insert _ f => files ++ [allocate_file f]
    end
  else files.

(** The numbers that were used in a level. *)
Definition used (level : Z) (ever : list Z) (c : Change) : list Z :=
  if change_level c =? level then match c with Remove _ n => n :: ever | Insert _ f => number f :: ever end else ever.

Section Spec.
Context {user : Comparator} {valid : list Z -> Prop} {cmp : list Z -> list Z -> Z} {laws : ComparatorLaws user valid cmp}.

(** By the smallest key, then by the number. *)
Definition file_order (f g : FileMetaData) : Z :=
  let r := internal_order cmp (smallest f) (smallest g) in if r =? 0 then number f - number g else r.

Definition file_keys (f : FileMetaData) : Prop := internal_valid valid (smallest f) /\ internal_valid valid (largest f).

#[export] Instance file_key_order : KeyOrder file_keys file_order.
Proof.
  split.
  - intros a b [Ha _] [Hb _]. unfold file_order. pose proof (order_flip (cmp := internal_order cmp) (valid := internal_valid valid) _ _ Ha Hb).
    destruct (Z.eqb_spec (internal_order cmp (smallest a) (smallest b)) 0), (Z.eqb_spec (internal_order cmp (smallest b) (smallest a)) 0); lia.
  - intros a b c [Ha _] [Hb _] [Hc _]. unfold file_order.
    pose proof (order_trans (cmp := internal_order cmp) (valid := internal_valid valid) _ _ _ Ha Hb Hc) as H1. pose proof (order_lt_le (cmp := internal_order cmp) (valid := internal_valid valid) _ _ _ Ha Hb Hc) as H2.
    pose proof (order_le_lt (cmp := internal_order cmp) (valid := internal_valid valid) _ _ _ Ha Hb Hc) as H3.
    destruct (Z.eqb_spec (internal_order cmp (smallest a) (smallest b)) 0), (Z.eqb_spec (internal_order cmp (smallest b) (smallest c)) 0), (Z.eqb_spec (internal_order cmp (smallest a) (smallest c)) 0); lia.
Qed.

Abbreviation sorted_files := (sorted file_keys file_order).

Lemma compare_ret a b : internal_valid valid a -> internal_valid valid b -> compare_internal_keys user a b = Ret (internal_order cmp a b).
Proof.
  intros Ha Hb. unfold compare_internal_keys. rewrite !(encode_internal (valid := valid)) by done. cbn [rbind]. by apply internal_compare_ret.
Qed.

Lemma BySmallestKey_ret f g : file_keys f -> file_keys g -> BySmallestKey user f g = Ret (file_order f g <? 0).
Proof.
  intros [Hf _] [Hg _]. unfold BySmallestKey, file_order. rewrite compare_ret by done. cbn [rbind]. destruct (Z.eqb_spec (internal_order cmp (smallest f) (smallest g)) 0); cbn [negb]; [|done]. f_equal. lia.
Qed.

(** Files with different numbers are different in the order. *)
Lemma order_number f g : file_order f g = 0 -> number f = number g.
Proof. unfold file_order. destruct (Z.eqb_spec (internal_order cmp (smallest f) (smallest g)) 0); lia. Qed.

Lemma file_insert_ret f l : file_keys f -> Forall file_keys l -> Forall (fun g => number g <> number f) l -> file_insert user f l = Ret (insert_sorted file_order f l).
Proof.
  intros Hf. induction 1 as [|g l Hg Hl IH]; intros Hne; [done|]. apply Forall_cons in Hne as [Hn Hne]. cbn [file_insert insert_sorted]. rewrite !BySmallestKey_ret by done. cbn [rbind].
  pose proof (order_flip (cmp := file_order) f g Hf Hg). assert (file_order f g <> 0) by (intros E; apply order_number in E; congruence).
  destruct (Z.ltb_spec (file_order f g) 0), (Z.ltb_spec (file_order g f) 0); try lia; [done|]. by rewrite IH.
Qed.

(** *** What the builder has collected *)

Definition kept (l : LevelState) (f : FileMetaData) : bool := negb (bool_decide (number f ∈ deleted_files l)).

(** The base, what is left of it and what was added, and the numbers that were used. *)
Record collected (l : LevelState) (base left_ : list FileMetaData) (ever : list Z) : Prop := {
  co_added : sorted_files (added_files l);
  co_left : List.filter (kept l) (base ++ added_files l) ≡ₚ left_;
  co_numbers : NoDup (map number (base ++ added_files l));
  co_files : Forall (fun f => number f ∈ ever) (base ++ added_files l);
  co_deleted : forall n, n ∈ deleted_files l -> n ∈ ever;
}.

Lemma filter_filter {A} (p q : A -> bool) l : List.filter p (List.filter q l) = List.filter (fun x => p x && q x) l.
Proof. induction l as [|x l IH]; [done|]. cbn. destruct (q x); cbn; destruct (p x); cbn; by rewrite IH. Qed.

Lemma filter_same {A} (p q : A -> bool) l : Forall (fun x => p x = q x) l -> List.filter p l = List.filter q l.
Proof. induction 1 as [|x l E _ IH]; [done|]. cbn. by rewrite E, IH. Qed.

Lemma filter_perm {A} (p : A -> bool) l l' : l ≡ₚ l' -> List.filter p l ≡ₚ List.filter p l'.
Proof. induction 1 as [|x l l' _ IH|x y l|l1 l2 l3 _ IH1 _ IH2]; [done| | |by trans (List.filter p l2)]; cbn; repeat destruct (p _); try constructor; done. Qed.

Lemma collected_remove l base left_ ever n : collected l base left_ ever ->
  collected (mk_level ({[n]} ∪ deleted_files l) (added_files l)) base (List.filter (fun f => negb (number f =? n)) left_) (n :: ever).
Proof.
  intros [H1 H2 H3 H4 H5]. split; cbn [added_files deleted_files]; [done| |done| |].
  - rewrite <- (filter_perm _ _ _ H2), filter_filter. apply Permutation_refl', filter_same, Forall_forall. intros f _. unfold kept. cbn [deleted_files].
    destruct (Z.eqb_spec (number f) n) as [->|Hne]; cbn [negb andb]; [by rewrite bool_decide_true by set_solver|]. f_equal. apply bool_decide_ext. set_solver.
  - eapply Forall_impl; [exact H4|]. intros f Hf. cbn in *. by right.
  - intros m [->%elem_of_singleton|Hm]%elem_of_union; [by left|right; by apply H5].
Qed.

Lemma collected_insert l base left_ ever f : collected l base left_ ever -> file_keys f -> number f ∉ ever ->
  exists added, file_insert user f (added_files l) = Ret added /\ collected (mk_level (deleted_files l ∖ {[number f]}) added) base (left_ ++ [f]) (number f :: ever).
Proof.
  intros [H1 H2 H3 H4 H5] Hf Hne. assert (Forall (fun g => number g <> number f) (base ++ added_files l)) as Hdiff by (eapply Forall_impl; [exact H4|]; intros g Hg E; cbn in Hg; by rewrite E in Hg).
  pose proof Hdiff as [_ Hda]%Forall_app. exists (insert_sorted file_order f (added_files l)). split; [apply file_insert_ret; [done|apply H1|done]|].
  assert (base ++ insert_sorted file_order f (added_files l) ≡ₚ f :: base ++ added_files l) as Hp by (rewrite insert_sorted_perm; by rewrite <- Permutation_middle).
  split; cbn [added_files deleted_files].
  - apply insert_sorted_sorted; [done|done|]. eapply Forall_impl; [exact Hda|]. intros g Hg E. by apply Hg, order_number.
  - rewrite (filter_perm _ _ _ Hp). cbn [List.filter]. unfold kept at 1. cbn [deleted_files]. rewrite bool_decide_false by set_solver. cbn [negb]. rewrite <- Permutation_cons_append. constructor. rewrite <- H2.
    apply Permutation_refl', filter_same. eapply Forall_impl; [exact Hdiff|]. intros g Hg. cbn in Hg. unfold kept. cbn [deleted_files]. f_equal. apply bool_decide_ext. set_solver.
  - rewrite Hp. cbn [map]. apply NoDup_cons. split; [|done]. intros (g & E & Hg)%list_elem_of_fmap. rewrite Forall_forall in Hdiff. by apply (Hdiff g Hg).
  - rewrite Hp. constructor; [by left|]. eapply Forall_impl; [exact H4|]. intros g Hg. by right.
  - intros n Hn. right. apply H5. set_solver.
Qed.

(** *** Apply *)

Definition change_ok (c : Change) : Prop :=
  0 <= change_level c < kNumLevels /\ match c with Remove _ _ => True | Insert _ f => file_keys f end.

(** No number is inserted into a level where it was used. *)
Fixpoint numbers_fresh (ever : Z -> list Z) (cs : list Change) : Prop :=
  match cs with
  | [] => True
  | c :: cs => match c with Remove _ _ => True | Insert l f => number f ∉ ever l end /\ numbers_fresh (fun l => used l (ever l) c) cs
  end.

(** The levels of the builder. *)
Definition builder_ok (levels : list LevelState) (base left_ : Z -> list FileMetaData) (ever : Z -> list Z) : Prop :=
  length levels = Z.to_nat kNumLevels /\ forall i l, levels !! i = Some l -> collected l (base (Z.of_nat i)) (left_ (Z.of_nat i)) (ever (Z.of_nat i)).

Lemma at_level_ok {A} (levels : list A) level x f y : levels !! Z.to_nat level = Some x -> 0 <= level -> f x = Ret y -> at_level levels level f = Ret (<[Z.to_nat level := y]> levels).
Proof. intros Hx Hl Hf. unfold at_level. destruct (Z.ltb_spec level 0); [lia|]. by rewrite Hx, Hf. Qed.

(** One level is changed. *)
Lemma builder_change levels base left_ ever c l l' : builder_ok levels base left_ ever -> 0 <= change_level c < kNumLevels -> levels !! Z.to_nat (change_level c) = Some l ->
  collected l' (base (change_level c)) (changed_files (change_level c) (left_ (change_level c)) c) (used (change_level c) (ever (change_level c)) c) ->
  builder_ok (<[Z.to_nat (change_level c) := l']> levels) base (fun l => changed_files l (left_ l) c) (fun l => used l (ever l) c).
Proof.
  intros [Hlen H] Hr Hl Hc. split; [by rewrite length_insert|]. intros i x Hx. destruct (decide (i = Z.to_nat (change_level c))) as [->|Hne].
  - rewrite list_lookup_insert_eq in Hx by (by eapply lookup_lt_Some). injection Hx as <-. by rewrite Z2Nat.id by lia.
  - rewrite list_lookup_insert_ne in Hx by done. unfold changed_files, used. destruct (Z.eqb_spec (change_level c) (Z.of_nat i)) as [E|]; [rewrite E, Nat2Z.id in Hne; done|]. by apply H.
Qed.

Lemma builder_level levels base left_ ever level : builder_ok levels base left_ ever -> 0 <= level < kNumLevels ->
  exists l, levels !! Z.to_nat level = Some l /\ collected l (base level) (left_ level) (ever level).
Proof.
  intros [Hlen H] Hr. destruct (lookup_lt_is_Some_2 levels (Z.to_nat level)) as [l Hl]; [rewrite Hlen; apply Z2Nat.inj_lt; lia|]. exists l. split; [done|]. pose proof (H _ _ Hl) as Hc. by rewrite Z2Nat.id in Hc by lia.
Qed.

Definition changed_all (level : Z) (files : list FileMetaData) (cs : list Change) : list FileMetaData := foldl (changed_files level) files cs.
Definition used_all (level : Z) (ever : list Z) (cs : list Change) : list Z := foldl (used level) ever cs.

Lemma apply_deleted_ok base del : forall levels left_ ever, builder_ok levels base left_ ever -> Forall (fun p => 0 <= fst p < kNumLevels) del ->
  let cs := map (fun p => Remove (fst p) (snd p)) del in
  exists levels', apply_deleted del levels = Ret levels' /\ builder_ok levels' base (fun l => changed_all l (left_ l) cs) (fun l => used_all l (ever l) cs).
Proof.
  induction del as [|[level n] del IH]; intros levels left_ ever Hb Hr cs; [by exists levels|]. apply Forall_cons in Hr as [Hl Hr]. cbn [fst] in Hl.
  destruct (builder_level _ _ _ _ level Hb Hl) as (l & El & Hc). cbn [apply_deleted]. erewrite at_level_ok; [|exact El|lia|reflexivity]. cbn [rbind].
  destruct (IH (<[Z.to_nat level := mk_level ({[n]} ∪ deleted_files l) (added_files l)]> levels) (fun l => changed_files l (left_ l) (Remove level n)) (fun l => used l (ever l) (Remove level n))) as (levels' & E & Hb'); [|done|by exists levels'].
  apply (builder_change levels base left_ ever (Remove level n) l); [done|done|done|]. unfold changed_files, used. cbn [change_level]. rewrite Z.eqb_refl. by apply collected_remove.
Qed.

Lemma apply_new_ok base new : forall levels left_ ever, builder_ok levels base left_ ever -> Forall (fun p => 0 <= fst p < kNumLevels /\ file_keys (snd p)) new ->
  let cs := map (fun p => Insert (fst p) (snd p)) new in numbers_fresh ever cs ->
  exists levels', apply_new user new levels = Ret levels' /\ builder_ok levels' base (fun l => changed_all l (left_ l) cs) (fun l => used_all l (ever l) cs).
Proof.
  induction new as [|[level f] new IH]; intros levels left_ ever Hb Hr cs Hf; [by exists levels|]. apply Forall_cons in Hr as [[Hl Hk] Hr]. cbn [fst snd] in Hl, Hk. destruct Hf as [Hn Hf].
  destruct (builder_level _ _ _ _ level Hb Hl) as (l & El & Hc). cbn [apply_new]. destruct (collected_insert l (base level) (left_ level) (ever level) (allocate_file f) Hc Hk Hn) as (added & Ea & Hc').
  erewrite at_level_ok; [|exact El|lia|by rewrite Ea]. cbn [rbind].
  destruct (IH (<[Z.to_nat level := mk_level (deleted_files l ∖ {[number (allocate_file f)]}) added]> levels) (fun l => changed_files l (left_ l) (Insert level f)) (fun l => used l (ever l) (Insert level f))) as (levels' & E & Hb'); [|done|done|by exists levels'].
  apply (builder_change levels base left_ ever (Insert level f) l); [done|done|done|]. unfold changed_files, used. cbn [change_level]. by rewrite Z.eqb_refl.
Qed.

Lemma apply_pointers_ok l : forall ptrs, length ptrs = Z.to_nat kNumLevels -> Forall (fun p => 0 <= fst p < kNumLevels /\ internal_valid valid (snd p)) l ->
  apply_pointers l ptrs = Ret (foldl (fun ptrs p => <[Z.to_nat (fst p) := snd p]> ptrs) ptrs l).
Proof.
  induction l as [|[level k] l IH]; intros ptrs Hlen Hl; [done|]. apply Forall_cons in Hl as [[Hr Hk] Hl]. cbn [fst snd apply_pointers foldl] in *.
  destruct (lookup_lt_is_Some_2 ptrs (Z.to_nat level)) as [x Hx]; [rewrite Hlen; apply Z2Nat.inj_lt; lia|]. erewrite at_level_ok; [|exact Hx|lia|by apply (encode_internal (valid := valid))].
  cbn [rbind]. rewrite IH; [done|by rewrite length_insert|done].
Qed.

(** An edit that [Apply] can take. *)
Definition edit_fine (e : VersionEdit) : Prop :=
  Forall change_ok (changes e) /\ Forall (fun p => 0 <= fst p < kNumLevels /\ internal_valid valid (snd p)) (compact_pointers_ e).

Lemma fresh_app ever a b : numbers_fresh ever (a ++ b) -> numbers_fresh ever a /\ numbers_fresh (fun l => used_all l (ever l) a) b.
Proof.
  revert ever. induction a as [|c a IH]; intros ever; cbn [app numbers_fresh]; [done|]. intros [Hc H]. destruct (IH _ H) as [H1 H2]. done.
Qed.

Lemma fresh_join a : forall ever b, numbers_fresh ever a -> numbers_fresh (fun l => used_all l (ever l) a) b -> numbers_fresh ever (a ++ b).
Proof. induction a as [|c a IH]; intros ever b Ha Hb; [done|]. destruct Ha as [Hc Ha]. split; [done|]. by apply IH. Qed.

Lemma Apply_ok levels base left_ ever ptrs e : builder_ok levels base left_ ever -> length ptrs = Z.to_nat kNumLevels -> edit_fine e -> numbers_fresh ever (changes e) ->
  exists ptrs' levels', Apply user e ptrs levels = Ret (ptrs', levels') /\ length ptrs' = Z.to_nat kNumLevels /\
    ptrs' = foldl (fun ptrs p => <[Z.to_nat (fst p) := snd p]> ptrs) ptrs (compact_pointers_ e) /\
    builder_ok levels' base (fun l => changed_all l (left_ l) (changes e)) (fun l => used_all l (ever l) (changes e)).
Proof.
  intros Hb Hlen [Hc Hp] Hf. unfold Apply. rewrite apply_pointers_ok by done. cbn [rbind]. unfold changes in *. apply Forall_app in Hc as [Hc1 Hc2]. destruct (fresh_app _ _ _ Hf) as [_ Hf2]. rewrite Forall_map in Hc1, Hc2.
  destruct (apply_deleted_ok base (deleted_files_ e) levels left_ ever Hb) as (l1 & -> & Hb1); [eapply Forall_impl; [exact Hc1|]; by intros p [? _]|]. cbn [rbind].
  destruct (apply_new_ok base (new_files_ e) l1 _ _ Hb1) as (l2 & -> & Hb2); [eapply Forall_impl; [exact Hc2|]; by intros p [? ?]|done|]. cbn [rbind]. eexists _, l2. split; [done|]. split; [|split; [done|]].
  - clear - Hlen. revert ptrs Hlen. induction (compact_pointers_ e) as [|p l IH]; intros ptrs Hlen; [done|]. cbn [foldl]. apply IH. by rewrite length_insert.
  - unfold changed_all, used_all in *. destruct Hb2 as [Hlen2 H2]. split; [done|]. intros i l Hl. rewrite !foldl_app. by apply H2.
Qed.

(** *** SaveTo *)

Lemma add_ref_order f g : file_order (add_ref f) (add_ref g) = file_order f g.
Proof. done. Qed.

Lemma level_sorted_refs l : level_sorted (cmp := cmp) (map add_ref l) <-> level_sorted (cmp := cmp) l.
Proof.
  unfold level_sorted. induction l as [|f l IH]; [done|]. cbn [map]. split; intros [H1 H2]%StronglySorted_inv; constructor; [by apply IH| |by apply IH|]; [by rewrite Forall_map in H2|by rewrite Forall_map].
Qed.

(** The files to keep are appended, when they do not overlap above level 0. *)
Definition files_apart (level : Z) (files : list FileMetaData) : Prop := level > 0 -> level_sorted (cmp := cmp) files.

Lemma apart_app level a b : files_apart level (a ++ b) -> files_apart level a.
Proof. intros H Hl. specialize (H Hl). by apply StronglySorted_app in H as (_ & ? & _). Qed.

Lemma MaybeAddFile_ok l level f files : file_keys f -> Forall file_keys files -> files_apart level (files ++ if kept l f then [f] else []) ->
  MaybeAddFile user l level f (map add_ref files) = Ret (map add_ref (files ++ if kept l f then [f] else [])).
Proof.
  intros Hf Hfs Hap. unfold MaybeAddFile, kept in *. destruct (bool_decide (number f ∈ deleted_files l)); cbn [negb] in *; [by rewrite app_nil_r|]. rewrite map_app. cbn [map].
  destruct files as [|g files _] using rev_ind; [done|]. rewrite (map_app add_ref files). cbn [map]. rewrite last_snoc. apply Forall_app in Hfs as [_ Hg]. apply Forall_cons in Hg as [[_ Hg] _]. destruct (Z.gtb_spec level 0) as [Hl|]; [|done].
  rewrite compare_ret by (done || apply Hf). cbn [rbind]. specialize (Hap ltac:(lia)). apply StronglySorted_app in Hap as (Hap & _ & _). specialize (Hap g f ltac:(rewrite elem_of_app; right; by left) ltac:(by left)).
  cbn [add_ref largest]. by destruct (Z.ltb_spec (internal_order cmp (largest g) (smallest f)) 0); [|lia].
Qed.

Lemma add_base_ok l level base : forall files, Forall file_keys base -> Forall file_keys files -> files_apart level (files ++ List.filter (kept l) base) ->
  add_base user l level base (map add_ref files) = Ret (map add_ref (files ++ List.filter (kept l) base)).
Proof.
  induction base as [|f base IH]; intros files Hb Hf Hap; cbn [add_base]; [by rewrite app_nil_r|]. apply Forall_cons in Hb as [Hfk Hb].
  assert (List.filter (kept l) (f :: base) = (if kept l f then [f] else []) ++ List.filter (kept l) base) as E by (cbn; by destruct (kept l f)). rewrite E, app_assoc in Hap |- *.
  rewrite MaybeAddFile_ok by (done || by eapply apart_app). cbn [rbind]. apply IH; [done| |done]. apply Forall_app. split; [done|]. destruct (kept l f); [by constructor|constructor].
Qed.

Lemma upper_bound_ok f base : file_keys f -> sorted_files base -> Forall (fun g => number g <> number f) base ->
  exists before rest, base = before ++ rest /\ upper_bound user f base = Ret (before, rest) /\ Forall (fun g => file_order g f < 0) before /\ Forall (fun g => file_order f g < 0) rest.
Proof.
  intros Hf. induction base as [|g base IH]; intros Hs Hne; [by exists [], []; repeat constructor|]. apply Forall_cons in Hne as [Hng Hne]. apply sorted_cons in Hs as (Hg & Hlt & Hs). cbn [upper_bound].
  rewrite BySmallestKey_ret by done. cbn [rbind]. pose proof (order_flip (cmp := file_order) f g Hf Hg). assert (file_order f g <> 0) by (intros E; apply order_number in E; congruence).
  destruct (Z.ltb_spec (file_order f g) 0).
  - exists [], (g :: base). split; [done|]. split; [done|]. split; [constructor|]. constructor; [done|]. destruct Hs as [_ Hv]. rewrite Forall_forall in Hlt, Hv |- *. intros x Hx. specialize (Hlt x Hx). unfold less in Hlt.
    apply (order_lt_trans (cmp := file_order) f g); [done|done|by apply Hv|done|done].
  - destruct (IH Hs Hne) as (before & rest & -> & -> & Hb1 & Hb2). cbn [rbind]. exists (g :: before), rest. split; [done|]. split; [done|]. split; [|done]. constructor; [lia|done].
Qed.

Lemma merge_files_ok l level added : forall base, sorted_files added -> sorted_files base -> NoDup (map number (base ++ added)) ->
  exists merged, merged ≡ₚ base ++ added /\ sorted_files merged /\
    forall files, Forall file_keys files -> files_apart level (files ++ List.filter (kept l) merged) ->
      merge_files user l level added base (map add_ref files) = Ret (map add_ref (files ++ List.filter (kept l) merged)).
Proof.
  induction added as [|f added IH]; intros base Ha Hb Hnd; cbn [merge_files].
  - exists base. split; [by rewrite app_nil_r|]. split; [done|]. intros files Hf Hap. by apply add_base_ok; [apply Hb|..].
  - apply sorted_cons in Ha as (Hf & Hlt & Ha). rewrite <- Permutation_middle in Hnd. cbn [map] in Hnd. apply NoDup_cons in Hnd as [Hnf Hnd].
    assert (Forall (fun g => number g <> number f) (base ++ added)) as Hdiff by (apply Forall_forall; intros g Hg E; apply Hnf; rewrite <- E; by apply list_elem_of_fmap_2). pose proof Hdiff as [Hdb _]%Forall_app.
    destruct (upper_bound_ok f base Hf Hb Hdb) as (before & rest & -> & -> & Hbef & Hrest). apply sorted_app in Hb as (Hs1 & Hs2 & Hbr). rewrite <- app_assoc, map_app in Hnd. apply NoDup_app in Hnd as (_ & _ & Hnd).
    destruct (IH rest Ha Hs2 Hnd) as (merged & Hp & Hsm & Hrun). exists (before ++ f :: merged). split; [|split].
    + rewrite Hp. rewrite <- app_assoc. apply Permutation_app_head, Permutation_middle.
    + assert (forall x, x ∈ merged -> file_order f x < 0) as Hfx.
      { intros x Hx. rewrite Hp in Hx. apply elem_of_app in Hx as [Hx|Hx]; [rewrite Forall_forall in Hrest; by apply Hrest|rewrite Forall_forall in Hlt; by apply Hlt]. }
      rewrite Forall_forall in Hbef. apply sorted_app. split; [done|]. split; [apply sorted_cons; split; [done|split; [by apply Forall_forall|done]]|]. intros a b Hxa [->|Hxb]%elem_of_cons; [by apply Hbef|]. 
      destruct Hs1 as [_ Hv1], Hsm as [_ Hvm]. rewrite Forall_forall in Hv1, Hvm. apply (order_lt_trans (cmp := file_order) a f b); [by apply Hv1|done|by apply Hvm|by apply Hbef|by apply Hfx].
    + intros files Hfk Hap. cbn [rbind]. assert (List.filter (kept l) (before ++ f :: merged) = (List.filter (kept l) before ++ (if kept l f then [f] else [])) ++ List.filter (kept l) merged) as E.
      { rewrite List.filter_app. cbn [List.filter]. destruct (kept l f); [by rewrite <- app_assoc|by rewrite app_nil_r]. }
      rewrite E, !app_assoc in Hap |- *. assert (Forall file_keys (List.filter (kept l) before)) as Hbk by (apply Forall_forall; intros x Hx%list_elem_of_In; apply filter_In in Hx as [Hx _]; destruct Hs1 as [_ Hv]; rewrite Forall_forall in Hv; apply Hv; by apply list_elem_of_In).
      rewrite add_base_ok; [|apply Hs1|done|by do 2 eapply apart_app]. cbn [rbind]. rewrite MaybeAddFile_ok; [|done|by apply Forall_app|by eapply apart_app]. cbn [rbind].
      apply Hrun; [|done]. apply Forall_app. split; [by apply Forall_app|]. destruct (kept l f); [by constructor|constructor].
Qed.

Lemma check_overlap_ok files : Forall file_keys files -> level_sorted (cmp := cmp) files -> check_overlap user files = Ret tt.
Proof.
  induction files as [|f [|g files] IH]; intros Hf Hs; [done|done|]. apply Forall_cons in Hf as [[_ Hf] Hfs]. apply StronglySorted_inv in Hs as [Hs Hlt]. apply Forall_cons in Hlt as [Hlt _]. cbn [check_overlap].
  pose proof Hfs as [[Hg _] _]%Forall_cons. rewrite compare_ret by done. cbn [rbind]. rewrite Z.geb_leb. destruct (Z.leb_spec 0 (internal_order cmp (largest f) (smallest g))); [lia|]. cbn [negb assert_ rbind]. by apply IH.
Qed.

(** The level that is saved is what is left, in order. *)
Lemma save_level_ok l level base left_ ever files : collected l base left_ ever -> sorted_files base -> sorted_files files -> files ≡ₚ left_ -> files_apart level files ->
  save_level user l level base = Ret (map add_ref files).
Proof.
  intros [Ha Hl Hnd _ _] Hb Hf Hp Hap. unfold save_level. destruct (merge_files_ok l level (added_files l) base Ha Hb Hnd) as (merged & Hpm & Hsm & Hrun).
  assert (List.filter (kept l) merged = files) as E.
  { apply (sorted_unique (valid := file_keys) (cmp := file_order)); [|done|by rewrite Hp, <- Hl, (filter_perm _ _ _ Hpm)]. clear - Hsm.
    induction merged as [|f merged IH]; [done|]. apply sorted_cons in Hsm as (Hf & Hlt & Hs). cbn [List.filter]. destruct (kept l f); [|by apply IH]. apply sorted_cons. split; [done|]. split; [|by apply IH].
    rewrite Forall_forall in Hlt |- *. intros x Hx%list_elem_of_In. apply filter_In in Hx as [Hx _]. apply Hlt. by apply list_elem_of_In. }
  specialize (Hrun [] ltac:(constructor) ltac:(by rewrite E)). cbn [map app] in Hrun. rewrite Hrun, E. cbn [rbind]. destruct (Z.gtb_spec level 0); [|done]. rewrite check_overlap_ok; [done| |].
  - apply Forall_map. eapply Forall_impl; [apply Hf|]. done.
  - apply level_sorted_refs, Hap. lia.
Qed.

(** *** All levels *)

Definition level_of (files_ : list (list FileMetaData)) (level : Z) : list FileMetaData := default [] (files_ !! Z.to_nat level).

Definition levels_of (n : nat) (f : Z -> Prop) : Prop := forall i, (i < n)%nat -> f (Z.of_nat i).

Lemma save_levels_ok : forall levels level base files_, length levels = length base -> length files_ = length base ->
  (forall i l b, levels !! i = Some l -> base !! i = Some b -> exists f, files_ !! i = Some f /\ save_level user l (level + Z.of_nat i) b = Ret f) -> save_levels user level levels base = Ret files_.
Proof.
  induction levels as [|l levels IH]; intros level [|b base] [|f files_] H1 H2 H; try done. cbn [save_levels]. destruct (H 0%nat l b eq_refl eq_refl) as (f' & [= <-] & E). rewrite Z.add_0_r in E. rewrite E. cbn [rbind].
  rewrite (IH (level + 1) base files_); [done|cbn in *; lia|cbn in *; lia|]. intros i x y Hx Hy. destruct (H (Datatypes.S i) x y Hx Hy) as (f' & Hf' & E'). exists f'. split; [done|]. rewrite <- E'. f_equal. lia.
Qed.

Fixpoint Apply_all (es : list VersionEdit) (ptrs : list (list Z)) (levels : list LevelState) : res (list (list Z) * list LevelState) :=
  match es with
  | [] => Ret (ptrs, levels)
  | e :: es => let! (ptrs, levels) := Apply user e ptrs levels in Apply_all es ptrs levels
  end.

(** A builder over [base] that applies the edits and saves the version. *)
Definition build_version (ptrs : list (list Z)) (base : list (list FileMetaData)) (es : list VersionEdit) : res (list (list Z) * list (list FileMetaData)) :=
  let! (ptrs, levels) := Apply_all es ptrs new_builder in
  let! v := SaveTo user levels base in
  Ret (ptrs, v).

Definition all_changes (es : list VersionEdit) : list Change := concat (map changes es).

(** A version whose levels are in order, with a number at most once in a level. *)
Definition version_fine (base : list (list FileMetaData)) : Prop :=
  length base = Z.to_nat kNumLevels /\ Forall (fun files => sorted_files files /\ NoDup (map number files)) base.

(** [files_] is what the edits leave of [base], in order. *)
Definition leaves (base : list (list FileMetaData)) (es : list VersionEdit) (files_ : list (list FileMetaData)) : Prop :=
  length files_ = Z.to_nat kNumLevels /\ forall level, 0 <= level < kNumLevels ->
    sorted_files (level_of files_ level) /\ level_of files_ level ≡ₚ changed_all level (level_of base level) (all_changes es) /\ files_apart level (level_of files_ level).

Definition edits_fine (base : list (list FileMetaData)) (es : list VersionEdit) : Prop :=
  Forall edit_fine es /\ numbers_fresh (fun level => map number (level_of base level)) (all_changes es).

Definition pointers_after (ptrs : list (list Z)) (es : list VersionEdit) : list (list Z) :=
  foldl (fun ptrs e => foldl (fun ptrs p => <[Z.to_nat (fst p) := snd p]> ptrs) ptrs (compact_pointers_ e)) ptrs es.

Lemma Apply_all_ok base es : forall levels left_ ever ptrs, builder_ok levels base left_ ever -> length ptrs = Z.to_nat kNumLevels -> Forall edit_fine es -> numbers_fresh ever (all_changes es) ->
  exists levels', Apply_all es ptrs levels = Ret (pointers_after ptrs es, levels') /\ length (pointers_after ptrs es) = Z.to_nat kNumLevels /\
    builder_ok levels' base (fun l => changed_all l (left_ l) (all_changes es)) (fun l => used_all l (ever l) (all_changes es)).
Proof.
  induction es as [|e es IH]; intros levels left_ ever ptrs Hb Hlen He Hf; [by exists levels|]. apply Forall_cons in He as [He Hes]. unfold all_changes in Hf. cbn [map concat] in Hf. destruct (fresh_app _ _ _ Hf) as [Hf1 Hf2].
  destruct (Apply_ok levels base left_ ever ptrs e Hb Hlen He Hf1) as (ptrs' & l1 & E & Hlen' & Ep & Hb1). cbn [Apply_all]. rewrite E. cbn [rbind].
  destruct (IH l1 _ _ ptrs' Hb1 Hlen' Hes Hf2) as (l2 & -> & Hlen2 & Hb2). exists l2. unfold pointers_after in *. cbn [foldl]. rewrite <- Ep. split; [done|]. split; [done|]. destruct Hb2 as [Hl Hb2]. split; [done|].
  intros i l Hi. specialize (Hb2 i l Hi). unfold all_changes, changed_all, used_all in *. cbn [map concat]. by rewrite !foldl_app.
Qed.

Lemma level_of_at base i files : base !! i = Some files -> level_of base (Z.of_nat i) = files.
Proof. intros H. unfold level_of. by rewrite Nat2Z.id, H. Qed.

Lemma new_builder_ok base : version_fine base -> builder_ok new_builder (level_of base) (level_of base) (fun level => map number (level_of base level)).
Proof.
  intros [Hlen Hb]. split; [apply repeat_length|]. intros i l Hl. assert (l = mk_level ∅ []) as ->.
  { apply (repeat_spec (Z.to_nat kNumLevels)). apply list_elem_of_In. by eapply list_elem_of_lookup_2. }
  assert (exists files, base !! i = Some files) as [files Hi].
  { apply lookup_lt_is_Some_2. apply lookup_lt_Some in Hl. unfold new_builder in Hl. rewrite repeat_length in Hl. lia. }
  rewrite (level_of_at _ _ _ Hi). eapply Forall_lookup in Hb; [|exact Hi]. destruct Hb as [Hs Hnd]. split; cbn [added_files deleted_files]; rewrite ?app_nil_r; [apply sorted_nil| |done| |].
  - apply Permutation_refl'. clear. induction files as [|f files IH]; [done|]. cbn. unfold kept at 1. cbn [deleted_files]. rewrite bool_decide_false by (by apply not_elem_of_empty). cbn. by f_equal.
  - apply Forall_forall. intros f Hf. by apply (list_elem_of_fmap_2 number).
  - intros n Hn. by apply not_elem_of_empty in Hn.
Qed.

Lemma build_ok ptrs base es files_ : version_fine base -> length ptrs = Z.to_nat kNumLevels -> edits_fine base es -> leaves base es files_ ->
  build_version ptrs base es = Ret (pointers_after ptrs es, map (map add_ref) files_).
Proof.
  intros Hb Hp [He Hf] [Hlen Hfiles]. unfold build_version. destruct (Apply_all_ok (level_of base) es _ _ _ ptrs (new_builder_ok base Hb) Hp He Hf) as (levels & -> & _ & [Hl Hbo]). cbn [rbind]. destruct Hb as [Hblen Hb].
  unfold SaveTo. rewrite (save_levels_ok levels 0 base (map (map add_ref) files_)); [done|congruence|rewrite length_map; congruence|]. intros i l b Hi Hbi.
  assert (exists files, files_ !! i = Some files) as [files Hfi] by (apply lookup_lt_is_Some_2; apply lookup_lt_Some in Hbi; congruence). exists (map add_ref files). split; [by rewrite list_lookup_fmap, Hfi|].
  assert (0 <= Z.of_nat i < kNumLevels) as Hr by (apply lookup_lt_Some in Hbi; rewrite Hblen in Hbi; unfold kNumLevels in *; lia). destruct (Hfiles _ Hr) as (Hs & Hperm & Hap). rewrite (level_of_at _ _ _ Hfi) in Hs, Hperm, Hap.
  specialize (Hbo i l Hi). rewrite (level_of_at _ _ _ Hbi) in Hbo, Hperm. eapply Forall_lookup in Hb; [|exact Hbi]. destruct Hb as [Hbs _]. by eapply save_level_ok.
Qed.

(** *** Files but for their counters *)

Definition facts (f : FileMetaData) : FileMetaData := mk_file 0 0 (number f) (file_size f) (smallest f) (largest f).

Lemma changed_facts level c a b : map facts a ≡ₚ map facts b -> map facts (changed_files level a c) ≡ₚ map facts (changed_files level b c).
Proof.
  intros H. unfold changed_files. destruct (change_level c =? level); [|done]. destruct c as [l n|l f]; [|rewrite !map_app; by apply Permutation_app_tail].
  assert (forall x, map facts (List.filter (fun f => negb (number f =? n)) x) = List.filter (fun f => negb (number f =? n)) (map facts x)) as E.
  { intros x. induction x as [|f x IH]; [done|]. cbn. destruct (number f =? n); cbn; [done|by f_equal]. }
  rewrite !E. by apply filter_perm.
Qed.

Lemma changed_all_facts level cs : forall a b, map facts a ≡ₚ map facts b -> map facts (changed_all level a cs) ≡ₚ map facts (changed_all level b cs).
Proof. induction cs as [|c cs IH]; intros a b H; [done|]. apply IH. by apply changed_facts. Qed.

Lemma facts_sorted l : sorted_files (map facts l) <-> sorted_files l.
Proof.
  induction l as [|f l IH]; [done|]. cbn [map]. rewrite !sorted_cons, IH, Forall_map. done.
Qed.

Lemma facts_apart level a b : map facts a = map facts b -> files_apart level a -> files_apart level b.
Proof.
  intros E H Hl. specialize (H Hl). unfold level_sorted in *. clear Hl. revert b E. induction H as [|f a Hs IH Hf]; intros [|g b] E; try done; [constructor|]. injection E as E1 E2 E3 E4 Et.
  constructor; [by apply IH|]. apply (Forall_map facts (fun g' => internal_order cmp (largest g) (smallest g') < 0)). rewrite <- Et. rewrite Forall_map. eapply Forall_impl; [exact Hf|]. intros x. cbn. by rewrite E4.
Qed.

(** Files with different numbers can be put in order. *)
Lemma sort_files l : Forall file_keys l -> NoDup (map number l) -> exists s, sorted_files s /\ s ≡ₚ l.
Proof.
  induction 1 as [|f l Hf Hl IH]; cbn [map]; intros Hnd; [by exists []; split; [apply sorted_nil|]|]. apply NoDup_cons in Hnd as [Hn Hnd]. destruct (IH Hnd) as (s & Hs & Hp). exists (insert_sorted file_order f s).
  split; [|by rewrite insert_sorted_perm, Hp]. apply insert_sorted_sorted; [done|done|]. rewrite Hp. apply Forall_forall. intros g Hg E. apply order_number in E. apply Hn. rewrite <- E. by apply list_elem_of_fmap_2.
Qed.

Lemma used_all_in level cs : forall ever n, n ∈ ever -> n ∈ used_all level ever cs.
Proof. induction cs as [|c cs IH]; intros ever n Hn; [done|]. apply IH. unfold used. destruct (_ =? _); [|done]. destruct c; by right. Qed.

(** What is left has different numbers, all of them used. *)
Lemma changed_numbers level cs : forall ever files, numbers_fresh ever cs -> NoDup (map number files) -> Forall (fun f => number f ∈ ever level) files -> Forall file_keys files -> Forall change_ok cs ->
  let files' := changed_all level files cs in NoDup (map number files') /\ Forall (fun f => number f ∈ used_all level (ever level) cs) files' /\ Forall file_keys files'.
Proof.
  induction cs as [|c cs IH]; intros ever files Hf Hnd Hin Hk Hc files'; [done|]. destruct Hf as [Hn Hf]. apply Forall_cons in Hc as [[Hr Hck] Hc]. apply (IH (fun l => used l (ever l) c) (changed_files level files c) Hf); [| | |done].
  - unfold changed_files. destruct (Z.eqb_spec (change_level c) level) as [E|]; [|done]. destruct c as [l n|l f]; cbn [change_level] in *.
    + clear - Hnd. induction files as [|g files IH]; [done|]. cbn in *. apply NoDup_cons in Hnd as [Hg Hnd]. destruct (number g =? n); cbn; [by apply IH|]. apply NoDup_cons. split; [|by apply IH]. intros (x & E & Hx)%list_elem_of_fmap.
      apply list_elem_of_In, filter_In in Hx as [Hx _]. apply Hg. rewrite E. apply list_elem_of_fmap_2. by apply list_elem_of_In.
    + rewrite map_app. apply NoDup_app. split; [done|]. split; [|apply NoDup_singleton]. intros x (g & -> & Hg)%list_elem_of_fmap Hx. cbn [map] in Hx. apply list_elem_of_singleton in Hx. rewrite Forall_forall in Hin. specialize (Hin g Hg). subst level.
      change (number (allocate_file f)) with (number f) in Hx. by rewrite Hx in Hin.
  - unfold changed_files, used. destruct (Z.eqb_spec (change_level c) level) as [E|]; [|done]. rewrite Forall_forall in Hin. destruct c as [l n|l f].
    + apply Forall_forall. intros g Hg%list_elem_of_In. apply filter_In in Hg as [Hg _]. right. apply Hin. by apply list_elem_of_In.
    + apply Forall_app. split; [apply Forall_forall; intros g Hg; right; by apply Hin|]. constructor; [by left|constructor].
  - unfold changed_files. destruct (_ =? _); [|done]. destruct c as [l n|l f].
    + apply Forall_forall. intros g Hg%list_elem_of_In. apply filter_In in Hg as [Hg _]. rewrite Forall_forall in Hk. apply Hk. by apply list_elem_of_In.
    + apply Forall_app. split; [done|]. by constructor; [|constructor].
Qed.

Lemma fresh_fewer cs : Forall change_ok cs -> forall ever ever', (forall l n, 0 <= l < kNumLevels -> n ∈ ever' l -> n ∈ ever l) -> numbers_fresh ever cs -> numbers_fresh ever' cs.
Proof.
  induction 1 as [|c cs [Hr _] _ IH]; intros ever ever' Hsub; [done|]. intros [Hc Hf]. split.
  - destruct c as [|l f]; [done|]. intros H. by apply Hc, Hsub.
  - eapply IH; [|exact Hf]. intros l n Hl. cbn. unfold used. destruct (_ =? _); [|by apply Hsub]. destruct c; intros [->|Hn]%elem_of_cons; try (by left); right; by apply Hsub.
Qed.

Lemma choose_list {A} (P : nat -> A -> Prop) n : (forall i, (i < n)%nat -> exists x, P i x) -> exists l, length l = n /\ forall i x, l !! i = Some x -> P i x.
Proof.
  induction n as [|n IH]; intros H; [exists []; split; [done|by intros i x]|]. destruct IH as (l & Hl & Hp); [intros i Hi; apply H; lia|]. destruct (H n ltac:(lia)) as (x & Hx).
  exists (l ++ [x]). split; [rewrite length_app; cbn; lia|]. intros i y Hy. apply lookup_app_Some in Hy as [Hy|[Hge Hy]]; [by apply Hp|]. destruct (i - length l)%nat as [|k] eqn:E; [|done]. injection Hy as <-. by replace i with n by lia.
Qed.

(** A version made from a version. *)
Lemma leaves_fine base es files_ : version_fine base -> edits_fine base es -> leaves base es files_ -> version_fine (map (map add_ref) files_) /\
  forall level, 0 <= level < kNumLevels -> forall n, n ∈ map number (level_of (map (map add_ref) files_) level) -> n ∈ used_all level (map number (level_of base level)) (all_changes es).
Proof.
  intros [Hblen Hb] [He Hf] [Hlen Hfiles].
  assert (forall i files, files_ !! i = Some files -> sorted_files files /\ NoDup (map number files) /\ Forall (fun f => number f ∈ used_all (Z.of_nat i) (map number (level_of base (Z.of_nat i))) (all_changes es)) files) as Hall.
  { intros i files Hi. assert (0 <= Z.of_nat i < kNumLevels) as Hr by (apply lookup_lt_Some in Hi; rewrite Hlen in Hi; unfold kNumLevels in *; lia). destruct (Hfiles _ Hr) as (Hs & Hp & _). rewrite (level_of_at _ _ _ Hi) in Hs, Hp.
    destruct (lookup_lt_is_Some_2 base i) as [b Hbi]; [apply lookup_lt_Some in Hi; congruence|]. pose proof Hb as Hb'. eapply Forall_lookup in Hb'; [|exact Hbi]. destruct Hb' as [[_ Hbk] Hbn]. rewrite (level_of_at _ _ _ Hbi) in *.
    assert (Forall change_ok (all_changes es)) as Hco by (unfold all_changes; apply Forall_concat, Forall_map; eapply Forall_impl; [exact He|]; by intros e [? _]).
    destruct (changed_numbers (Z.of_nat i) (all_changes es) (fun level => map number (level_of base level)) b Hf) as (H1 & H2 & _); [done| |done|done|].
    - apply Forall_forall. intros f Hfb. rewrite (level_of_at _ _ _ Hbi). by apply list_elem_of_fmap_2.
    - rewrite (level_of_at _ _ _ Hbi) in H2. split; [done|]. by rewrite Hp. }
  split.
  - split; [by rewrite length_map|]. apply Forall_map, Forall_forall. intros files [i Hi]%list_elem_of_lookup. destruct (Hall i files Hi) as (Hs & Hn & _). split; [|by rewrite map_map].
    apply (facts_sorted (map add_ref files)). rewrite map_map. by apply facts_sorted in Hs.
  - intros level Hr n. unfold level_of at 1. rewrite list_lookup_fmap. destruct (files_ !! Z.to_nat level) as [files|] eqn:Hi; cbn; [|by intros ?%elem_of_nil]. intros (g & -> & (f & -> & Hfi)%list_elem_of_fmap)%list_elem_of_fmap.
    destruct (Hall _ _ Hi) as (_ & _ & H). rewrite Z2Nat.id in H by lia. rewrite Forall_forall in H. exact (H f Hfi).
Qed.

(** One more edit, on the version made so far. *)
Lemma leaves_one_more base es e files1 files2 : version_fine base -> edits_fine base (es ++ [e]) -> leaves base es files1 -> leaves base (es ++ [e]) files2 ->
  let v := map (map add_ref) files1 in edits_fine v [e] /\ exists files, leaves v [e] files /\ map (map facts) files = map (map facts) files2.
Proof.
  intros Hb [He Hf] Hl1 Hl2 v. apply Forall_app in He as [He1 He2]. assert (all_changes (es ++ [e]) = all_changes es ++ all_changes [e]) as Eall by (unfold all_changes; by rewrite map_app, concat_app).
  rewrite Eall in Hf. destruct (fresh_app _ _ _ Hf) as [Hf1 Hf2]. destruct (leaves_fine base es files1 Hb (conj He1 Hf1) Hl1) as [Hv Hused]. fold v in Hv, Hused.
  assert (Forall change_ok (all_changes [e])) as Hco by (unfold all_changes; cbn; rewrite app_nil_r; by apply Forall_cons in He2 as [[? _] _]).
  assert (numbers_fresh (fun level => map number (level_of v level)) (all_changes [e])) as Hfe by (eapply fresh_fewer; [done| |exact Hf2]; intros level n Hr; by apply Hused).
  split; [done|]. destruct Hl1 as [Hlen1 Hl1], Hl2 as [Hlen2 Hl2]. pose proof Hv as [Hvlen Hvs].
  destruct (choose_list (fun i s => let level := Z.of_nat i in sorted_files s /\ s ≡ₚ changed_all level (level_of v level) (all_changes [e]) /\ map facts s = map facts (level_of files2 level)) (Z.to_nat kNumLevels)) as (files & Hlen & Hfiles).
  { intros i Hi. cbn. set (level := Z.of_nat i). assert (0 <= level < kNumLevels) as Hr by (unfold kNumLevels in *; lia). destruct (Hl1 level Hr) as (Hs1 & Hp1 & _), (Hl2 level Hr) as (Hs2 & Hp2 & _).
    destruct (lookup_lt_is_Some_2 v i) as [fs Hvi]; [lia|]. pose proof Hvs as Hvs'. eapply Forall_lookup in Hvs'; [|exact Hvi]. destruct Hvs' as [[_ Hvk] Hvn].
    assert (level_of v level = fs) as Efs by (by apply level_of_at). destruct (changed_numbers level (all_changes [e]) (fun level => map number (level_of v level)) fs Hfe) as (Hn & _ & Hk); [done| |done|done|].
    { apply Forall_forall. intros f Hf'. rewrite Efs. by apply list_elem_of_fmap_2. }
    destruct (sort_files _ Hk Hn) as (s & Hs & Hp). exists s. split; [done|]. rewrite Efs. split; [done|].
    assert (fs = map add_ref (level_of files1 level)) as Ev. { rewrite <- Efs. unfold level_of, v. rewrite list_lookup_fmap. by destruct (files1 !! Z.to_nat level). }
    apply (sorted_unique (valid := file_keys) (cmp := file_order)); [by apply facts_sorted|by apply facts_sorted|]. rewrite Hp, Hp2, Eall. unfold changed_all. rewrite foldl_app. apply changed_all_facts.
    rewrite Ev, map_map. change (map (fun f => facts (add_ref f)) (level_of files1 level)) with (map facts (level_of files1 level)). by rewrite Hp1. }
  exists files. split.
  - split; [done|]. intros level Hr. destruct (lookup_lt_is_Some_2 files (Z.to_nat level)) as [s Hs]; [rewrite Hlen; unfold kNumLevels in *; lia|]. destruct (Hfiles _ _ Hs) as (H1 & H2 & H3). cbn in *. rewrite Z2Nat.id in * by lia.
    assert (level_of files level = s) as -> by (unfold level_of; by rewrite Hs). split; [done|]. split; [done|]. eapply facts_apart; [symmetry; exact H3|]. by apply Hl2.
  - apply list_eq. intros i. rewrite !list_lookup_fmap. destruct (files !! i) as [s|] eqn:Hs.
    + destruct (Hfiles _ _ Hs) as (_ & _ & H3). destruct (lookup_lt_is_Some_2 files2 i) as [s2 Hs2]; [apply lookup_lt_Some in Hs; congruence|]. rewrite (level_of_at _ _ _ Hs2) in H3. rewrite Hs2. cbn. by rewrite H3.
    + apply lookup_ge_None in Hs. by rewrite (proj2 (lookup_ge_None files2 i)) by congruence.
Qed.

(** A version that is as another but for counters. *)
Definition same_version (v w : list (list FileMetaData)) : Prop := map (map facts) v = map (map facts) w.

Lemma same_level v w level : same_version v w -> map facts (level_of v level) = map facts (level_of w level).
Proof.
  intros E. apply (f_equal (fun l => l !! Z.to_nat level)) in E. rewrite !list_lookup_fmap in E. unfold level_of. destruct (v !! _), (w !! _); cbn in E; try done. by injection E.
Qed.

Lemma same_length v w : same_version v w -> length v = length w.
Proof. intros E. apply (f_equal length) in E. by rewrite !length_map in E. Qed.

Lemma facts_numbers l : map number (map facts l) = map number l.
Proof. by rewrite map_map. Qed.

Lemma same_fine v w : same_version v w -> version_fine w -> version_fine v.
Proof.
  intros E [Hl Hw]. split; [by rewrite (same_length v w)|]. apply Forall_forall. intros files [i Hi]%list_elem_of_lookup. pose proof (same_level v w (Z.of_nat i) E) as El. rewrite (level_of_at _ _ _ Hi) in El.
  destruct (lookup_lt_is_Some_2 w i) as [fs Hwi]; [rewrite <- (same_length v w) by done; by eapply lookup_lt_Some|]. rewrite (level_of_at _ _ _ Hwi) in El. eapply Forall_lookup in Hw; [|exact Hwi]. destruct Hw as [Hs Hn].
  split; [apply facts_sorted; rewrite El; by apply facts_sorted|]. by rewrite <- facts_numbers, El, facts_numbers.
Qed.

(** The same edit on a version that is the same. *)
Lemma leaves_step base es v e files1 files : version_fine base -> edits_fine base es -> leaves base es files1 -> same_version v files1 ->
  edit_fine e -> numbers_fresh (fun level => used_all level (map number (level_of base level)) (all_changes es)) (changes e) -> leaves v [e] files ->
  edits_fine base (es ++ [e]) /\ exists files2, leaves base (es ++ [e]) files2 /\ same_version files2 files.
Proof.
  intros Hb He Hl1 Hsame Hfine Hfresh Hl. assert (all_changes (es ++ [e]) = all_changes es ++ changes e) as Eall by (unfold all_changes; rewrite map_app, concat_app; cbn; by rewrite app_nil_r).
  assert (all_changes [e] = changes e) as E1 by (unfold all_changes; cbn; by rewrite app_nil_r). pose proof He as [Hes Hf]. assert (numbers_fresh (fun level => map number (level_of base level)) (all_changes (es ++ [e]))) as Hf2.
  { rewrite Eall. by apply fresh_join. }
  split; [split; [apply Forall_app; split; [done|by constructor]|done]|]. destruct Hl as [Hlen Hlev]. pose proof Hb as [Hblen Hbs]. pose proof Hl1 as [_ Hlev1].
  assert (Forall change_ok (all_changes (es ++ [e]))) as Hco.
  { unfold all_changes. apply Forall_concat, Forall_map, Forall_app. split; [eapply Forall_impl; [exact Hes|]; by intros x [? _]|constructor; [apply Hfine|constructor]]. }
  destruct (choose_list (fun i s => let level := Z.of_nat i in sorted_files s /\ s ≡ₚ changed_all level (level_of base level) (all_changes (es ++ [e])) /\ map facts s = map facts (level_of files level)) (Z.to_nat kNumLevels)) as (files2 & Hlen2 & Hfiles2).
  { intros i Hi. cbn. set (level := Z.of_nat i). assert (0 <= level < kNumLevels) as Hr by (unfold kNumLevels in *; lia). destruct (Hlev1 level Hr) as (_ & Hp1 & _), (Hlev level Hr) as (Hs & Hp & _).
    destruct (lookup_lt_is_Some_2 base i) as [b Hbi]; [lia|]. pose proof Hbs as Hbs'. eapply Forall_lookup in Hbs'; [|exact Hbi]. destruct Hbs' as [[_ Hbk] Hbn]. pose proof (level_of_at _ _ _ Hbi) as Eb. fold level in Eb.
    destruct (changed_numbers level (all_changes (es ++ [e])) (fun level => map number (level_of base level)) b Hf2) as (Hn & _ & Hk); [done| |done|done|].
    { apply Forall_forall. intros f Hfb. rewrite Eb. by apply list_elem_of_fmap_2. }
    destruct (sort_files _ Hk Hn) as (s & Hss & Hsp). exists s. split; [done|]. rewrite Eb. split; [done|]. apply (sorted_unique (valid := file_keys) (cmp := file_order)); [by apply facts_sorted|by apply facts_sorted|].
    rewrite Hsp, Hp, Eall, E1. unfold changed_all. rewrite foldl_app. apply changed_all_facts. rewrite (same_level v files1) by done. rewrite Hp1, Eb. done. }
  exists files2. split.
  - split; [done|]. intros level Hr. destruct (lookup_lt_is_Some_2 files2 (Z.to_nat level)) as [s Hs]; [rewrite Hlen2; unfold kNumLevels in *; lia|]. destruct (Hfiles2 _ _ Hs) as (H1 & H2 & H3). cbn in *. rewrite Z2Nat.id in * by lia.
    assert (level_of files2 level = s) as -> by (unfold level_of; by rewrite Hs). split; [done|]. split; [done|]. eapply facts_apart; [symmetry; exact H3|]. by apply Hlev.
  - apply list_eq. intros i. rewrite !list_lookup_fmap. destruct (files2 !! i) as [s|] eqn:Hs.
    + destruct (Hfiles2 _ _ Hs) as (_ & _ & H3). destruct (lookup_lt_is_Some_2 files i) as [s2 Hs2]; [apply lookup_lt_Some in Hs; congruence|]. rewrite (level_of_at _ _ _ Hs2) in H3. rewrite Hs2. cbn. by rewrite H3.
    + apply lookup_ge_None in Hs. by rewrite (proj2 (lookup_ge_None files i)) by congruence.
Qed.

(** ** Theorems *)

(** C6. A builder makes of a version and a sequence of edits just the files that are left
    when each edit in turn removes and adds its files, level by level in the order of
    their keys, and keeps the last compaction pointers; nothing in it fails as long as
    the files of a level above 0 do not overlap. *)
Theorem builder_correct ptrs base es files_ : version_fine base -> length ptrs = Z.to_nat kNumLevels -> edits_fine base es -> leaves base es files_ ->
  build_version ptrs base es = Ret (pointers_after ptrs es, map (map add_ref) files_).
Proof. apply build_ok. Qed.

(** Applying several edits at once gives the version that making one after each gives. *)
Theorem builder_batches ptrs base es e files1 files2 : version_fine base -> length ptrs = Z.to_nat kNumLevels -> edits_fine base (es ++ [e]) ->
  leaves base es files1 -> leaves base (es ++ [e]) files2 ->
  exists ptrs1 v1 ptrs2 v2 v2', build_version ptrs base es = Ret (ptrs1, v1) /\ build_version ptrs1 v1 [e] = Ret (ptrs2, v2) /\ build_version ptrs base (es ++ [e]) = Ret (ptrs2, v2') /\
    map (map facts) v2 = map (map facts) v2'.
Proof.
  intros Hb Hp He Hl1 Hl2. assert (edits_fine base es) as He1.
  { destruct He as [He Hf]. split; [by apply Forall_app in He as [? _]|]. unfold all_changes in *. rewrite map_app, concat_app in Hf. by apply fresh_app in Hf as [? _]. }
  destruct (leaves_fine base es files1 Hb He1 Hl1) as [Hv _]. destruct (leaves_one_more base es e files1 files2 Hb He Hl1 Hl2) as [He2 (files & Hl & Eq)].
  assert (length (pointers_after ptrs es) = Z.to_nat kNumLevels) as Hp1.
  { destruct (Apply_all_ok (level_of base) es _ _ _ ptrs (new_builder_ok base Hb) Hp) as (? & _ & ? & _); [apply He1|apply He1|done]. }
  do 5 eexists. split; [by apply build_ok|]. split; [by apply build_ok|]. split; [rewrite (build_ok ptrs base (es ++ [e]) files2) by done; do 2 f_equal; unfold pointers_after; by rewrite foldl_app|].
  rewrite !map_map. erewrite (map_ext (fun l => map facts (map add_ref l))) by (intros l; by rewrite map_map). symmetry. erewrite (map_ext (fun l => map facts (map add_ref l))) by (intros l; by rewrite map_map). by symmetry.
Qed.

End Spec.
