(* ===== verification/LdbVersionSet.v ===== *)
(** * LevelDB: the set of versions and its manifest (VersionSet in db/version_set.cc)

    [LogAndApply] makes the next version and logs its edit to the manifest, which it
    starts with a snapshot; [Recover] reads a manifest back.  The scores of
    [Finalize], which only choose compactions, are left out. *)
From S2P Require Import Prelude.
From S2P Require Import LdbCoding LdbStatus LdbEnvPosix LdbLogWriter LdbLogReader LdbKeys LdbVersionEdit LdbVersion LdbVersionBuilder LdbFilename.
From Stdlib Require Import ZArith Lia.
From stdpp Require Import base tactics numbers list strings.
#[local] Open Scope Z_scope.

(** ** Definitions *)

(** The members but for the options; [current_] is the files of the current version. *)
Record VersionSet (F : Type) := mk_vset {
  vs_next_file_number : Z;
  vs_manifest_file_number : Z;
  vs_last_sequence : Z;
  vs_log_number : Z;
  vs_prev_log_number : Z;
  descriptor_log_ : option (Writer F);
  current_ : list (list FileMetaData);
  compact_pointer_ : list (list Z);
}.
Arguments mk_vset {F} _ _ _ _ _ _ _ _.
Arguments vs_next_file_number {F} _.
Arguments vs_manifest_file_number {F} _.
Arguments vs_last_sequence {F} _.
Arguments vs_log_number {F} _.
Arguments vs_prev_log_number {F} _.
Arguments descriptor_log_ {F} _.
Arguments current_ {F} _.
Arguments compact_pointer_ {F} _.

Definition new_version_set {F : Type} : VersionSet F :=
  mk_vset 2 0 0 0 0 None (repeat [] (Z.to_nat kNumLevels)) (repeat [] (Z.to_nat kNumLevels)).

Section Members.
Context {F : Type}.
Implicit Types vs : VersionSet F.

Definition with_next_file_number vs (n : Z) : VersionSet F :=
  mk_vset n (vs_manifest_file_number vs) (vs_last_sequence vs) (vs_log_number vs) (vs_prev_log_number vs) (descriptor_log_ vs) (current_ vs) (compact_pointer_ vs).
Definition with_descriptor vs (log : option (Writer F)) : VersionSet F :=
  mk_vset (vs_next_file_number vs) (vs_manifest_file_number vs) (vs_last_sequence vs) (vs_log_number vs) (vs_prev_log_number vs) log (current_ vs) (compact_pointer_ vs).
Definition with_pointers vs (ptrs : list (list Z)) : VersionSet F :=
  mk_vset (vs_next_file_number vs) (vs_manifest_file_number vs) (vs_last_sequence vs) (vs_log_number vs) (vs_prev_log_number vs) (descriptor_log_ vs) (current_ vs) ptrs.

Definition NewFileNumber vs : Z * VersionSet F := (vs_next_file_number vs, with_next_file_number vs (u64 (vs_next_file_number vs + 1))).

Definition ReuseFileNumber vs (file_number : Z) : VersionSet F :=
  if vs_next_file_number vs =? u64 (file_number + 1) then with_next_file_number vs file_number else vs.

Definition SetLastSequence_ vs (s : Z) : res (VersionSet F) :=
  let! _ := assert_ (s >=? vs_last_sequence vs) in
  Ret (mk_vset (vs_next_file_number vs) (vs_manifest_file_number vs) s (vs_log_number vs) (vs_prev_log_number vs) (descriptor_log_ vs) (current_ vs) (compact_pointer_ vs)).

Definition MarkFileNumberUsed vs (number : Z) : VersionSet F :=
  if vs_next_file_number vs <=? number then with_next_file_number vs (u64 (number + 1)) else vs.

Definition NumLevelFiles vs (level : Z) : res Z :=
  let! _ := assert_ (level >=? 0) in
  let! _ := assert_ (level <? kNumLevels) in
  let! files := level_files (current_ vs) level in
  Ret (zlen files).

Definition NumLevelBytes vs (level : Z) : res Z :=
  let! _ := assert_ (level >=? 0) in
  let! _ := assert_ (level <? kNumLevels) in
  let! files := level_files (current_ vs) level in
  Ret (TotalFileSize files).

End Members.

Section VersionSet.
(** The descriptor file [F] apart from the rest [O] of the file system, on which the
    other methods of [Env] work with files [F0] and [R]; deleting the open file gives
    back what it holds, under its name. *)
Context {O F F0 R : Type} {W : WritableFile F} {W0 : WritableFile F0} {SR : SequentialFile R} {env : Env O F0 R}.
Context (detach : F0 -> F * O) (delete_descriptor : list Z -> F -> O -> O).
Context (NewAppendableFile : list Z -> O -> Status * option F * O) (GetFileSize : list Z -> O -> Status * Z).
Context (Value : list Z -> Z) (Extend : Z -> list Z -> Z) (user : Comparator) (comparator_name dbname : list Z) (max_file_size : Z) (reuse_logs : bool).

(** *** WriteSnapshot *)

Fixpoint snapshot_pointers (level : Z) (ptrs : list (list Z)) (edit : VersionEdit) : VersionEdit :=
  match ptrs with
  | [] => edit
  | p :: ptrs => snapshot_pointers (level + 1) ptrs (match p with [] => edit | _ => SetCompactPointer edit level (DecodeFrom p) end)
  end.

Fixpoint snapshot_level (level : Z) (files : list FileMetaData) (edit : VersionEdit) : VersionEdit :=
  match files with
  | [] => edit
  | f :: files => snapshot_level level files (AddFile edit level (number f) (file_size f) (smallest f) (largest f))
  end.

Fixpoint snapshot_files (level : Z) (files_ : list (list FileMetaData)) (edit : VersionEdit) : VersionEdit :=
  match files_ with
  | [] => edit
  | files :: files_ => snapshot_files (level + 1) files_ (snapshot_level level files edit)
  end.

Definition snapshot_edit (vs : VersionSet F) : VersionEdit :=
  snapshot_files 0 (current_ vs) (snapshot_pointers 0 (compact_pointer_ vs) (SetComparatorName new_edit comparator_name)).

Definition WriteSnapshot (vs : VersionSet F) (log : Writer F) : res (Status * Writer F) :=
  let! record := edit_EncodeTo (snapshot_edit vs) [] in
  AddRecord Extend log record.

(** *** LogAndApply *)

(** The edit with the numbers of the set. *)
Definition numbered_edit (vs : VersionSet F) (edit : VersionEdit) : res VersionEdit :=
  let! edit :=
    if has_log_number_ edit then
      let! _ := assert_ (log_number_ edit >=? vs_log_number vs) in
      let! _ := assert_ (log_number_ edit <? vs_next_file_number vs) in
      Ret edit
    else Ret (SetLogNumber edit (vs_log_number vs)) in
  let edit := if negb (has_prev_log_number_ edit) then SetPrevLogNumber edit (vs_prev_log_number vs) else edit in
  Ret (SetLastSequence (SetNextFile edit (vs_next_file_number vs)) (vs_last_sequence vs)).

(** A new descriptor file with a snapshot, and its name. *)
Definition create_manifest (vs : VersionSet F) (e : O) : res (Status * list Z * VersionSet F * O) :=
  let! name := DescriptorFileName dbname (vs_manifest_file_number vs) in
  match NewWritableFile name e with
  | (s, inl e) => Ret (s, name, vs, e)
  | (s, inr f) =>
      let (file, e) := detach f in
      let! (s, log) := WriteSnapshot vs (new_writer Value file) in
      Ret (s, name, with_descriptor vs (Some log), e)
  end.

(** The record of the edit, synced. *)
Definition log_edit (edit : VersionEdit) (vs : VersionSet F) : res (Status * VersionSet F) :=
  let! record := edit_EncodeTo edit [] in
  match descriptor_log_ vs with
  | None => UB
  | Some log =>
      let! (s, log) := AddRecord Extend log record in
      let! (s, file) := if is_ok s then Sync (dest_ log) else Ret (s, dest_ log) in
      Ret (s, with_descriptor vs (Some (mk_writer file (block_offset_ log) (type_crc_ log))))
  end.

Definition LogAndApply (vs : VersionSet F) (edit : VersionEdit) (e : O) : res (Status * VersionSet F * O) :=
  let! edit := numbered_edit vs edit in
  let! (ptrs, levels) := Apply user edit (compact_pointer_ vs) new_builder in
  let! v := SaveTo user levels (current_ vs) in
  let vs := with_pointers vs ptrs in
  let! (s, new_manifest_file, vs, e) :=
    match descriptor_log_ vs with
    | None => let! (s, name, vs, e) := create_manifest vs e in Ret (s, Some name, vs, e)
    | Some _ => Ret (status_ok, None, vs, e)
    end in
  let! (s, vs) := if is_ok s then log_edit edit vs else Ret (s, vs) in
  let! (s, e) :=
    match new_manifest_file with
    | Some _ => if is_ok s then SetCurrentFile dbname (vs_manifest_file_number vs) e else Ret (s, e)
    | None => Ret (s, e)
    end in
  if is_ok s then
    Ret (s, mk_vset (vs_next_file_number vs) (vs_manifest_file_number vs) (vs_last_sequence vs) (log_number_ edit) (prev_log_number_ edit) (descriptor_log_ vs) v (compact_pointer_ vs), e)
  else
    match new_manifest_file with
    | Some name =>
        let e := match descriptor_log_ vs with Some log => delete_descriptor name (dest_ log) e | None => e end in
        Ret (s, with_descriptor vs None, snd (env_DeleteFile name e))
    | None => Ret (s, vs, e)
    end.

(** *** Recover *)

Definition ReuseManifest (vs : VersionSet F) (dscname dscbase : list Z) (e : O) : bool * VersionSet F * O :=
  if negb reuse_logs then (false, vs, e)
  else
    match ParseFileName dscbase with
    | Some (manifest_number, kDescriptorFile) =>
        let (s, manifest_size) := GetFileSize dscname e in
        if negb (is_ok s) || (manifest_size >=? TargetFileSize max_file_size) then (false, vs, e)
        else
          match NewAppendableFile dscname e with
          | (r, Some file, e) =>
              if is_ok r then
                (true, mk_vset (vs_next_file_number vs) manifest_number (vs_last_sequence vs) (vs_log_number vs) (vs_prev_log_number vs)
                         (Some (reopen_writer Value file manifest_size)) (current_ vs) (compact_pointer_ vs), e)
              else (false, vs, e)
          | (r, None, e) => (false, vs, e)
          end
    | _ => (false, vs, e)
    end.

(** The variables of the loop: the numbers that a record had, the builder with the
    compaction pointers, the status and the reader with the calls of its reporter. *)
Record Replaying := mk_replaying {
  rp_log_number : option Z;
  rp_prev_log_number : option Z;
  rp_next_file : option Z;
  rp_last_sequence : option Z;
  rp_pointers : list (list Z);
  rp_levels : list LevelState;
  rp_status : Status;
  rp_reader : Reader R;
}.

Definition the_reports (r : Reader R) : list (Z * Status) := default [] (reporter_ r).

(** [LogReporter::Corruption] *)
Definition log_report (status : Status) (call : Z * Status) : Status := if is_ok status then snd call else status.

Definition latest (has : bool) (n : Z) (old : option Z) : option Z := if has then Some n else old.

Definition replay_record (st : Replaying) (record : list Z) : res Replaying :=
  let! (s, edit) := edit_DecodeFrom new_edit record in
  let s :=
    if is_ok s then
      if has_comparator_ edit && negb (bool_decide (comparator_ edit = comparator_name)) then
        InvalidArgument (comparator_ edit ++ bytes_of " does not match existing comparator ") comparator_name
      else s
    else s in
  let! (ptrs, levels) := if is_ok s then Apply user edit (rp_pointers st) (rp_levels st) else Ret (rp_pointers st, rp_levels st) in
  Ret (mk_replaying (latest (has_log_number_ edit) (log_number_ edit) (rp_log_number st)) (latest (has_prev_log_number_ edit) (prev_log_number_ edit) (rp_prev_log_number st))
         (latest (has_next_file_number_ edit) (next_file_number_ edit) (rp_next_file st)) (latest (has_last_sequence_ edit) (last_sequence_ edit) (rp_last_sequence st))
         ptrs levels s (rp_reader st)).

Definition replay_round (fuel : nat) (st : Replaying) : res (Replaying + Replaying) :=
  let! (found, record, _, reader) := ReadRecord Value fuel (rp_reader st) [] [] in
  let s := foldl log_report (rp_status st) (skipn (length (the_reports (rp_reader st))) (the_reports reader)) in
  let st := mk_replaying (rp_log_number st) (rp_prev_log_number st) (rp_next_file st) (rp_last_sequence st) (rp_pointers st) (rp_levels st) s reader in
  if found && is_ok s then let! st := replay_record st record in Ret (inl st) else Ret (inr st).

(** What is made of the records. *)
Definition install_replayed (vs : VersionSet F) (st : Replaying) (dscname dscbase : list Z) (e : O) : res (Status * bool * VersionSet F * O) :=
  let s :=
    match rp_next_file st, rp_log_number st, rp_last_sequence st with
    | None, _, _ => Corruption (bytes_of "no meta-nextfile entry in descriptor") []
    | _, None, _ => Corruption (bytes_of "no meta-lognumber entry in descriptor") []
    | _, _, None => Corruption (bytes_of "no last-sequence-number entry in descriptor") []
    | _, _, _ => rp_status st
    end in
  let log_number := default 0 (rp_log_number st) in
  let prev_log_number := default 0 (rp_prev_log_number st) in
  let vs := MarkFileNumberUsed (MarkFileNumberUsed vs prev_log_number) log_number in
  if negb (is_ok s) then Ret (s, false, vs, e)
  else
    let! v := SaveTo user (rp_levels st) (current_ vs) in
    let next_file := default 0 (rp_next_file st) in
    let vs := mk_vset (u64 (next_file + 1)) next_file (default 0 (rp_last_sequence st)) log_number prev_log_number (descriptor_log_ vs) v (compact_pointer_ vs) in
    let '(reused, vs, e) := ReuseManifest vs dscname dscbase e in
    Ret (s, negb reused, vs, e).

(** The status, [*save_manifest], which is false at first, and the set.  [n] bounds the
    records, and [fuel] the bytes of each file. *)
Definition Recover (n fuel : nat) (vs : VersionSet F) (e : O) : res (Status * bool * VersionSet F * O) :=
  let! (s, current) := ReadFileToString fuel (CurrentFileName dbname) e in
  if negb (is_ok s) then Ret (s, false, vs, e)
  else
    match last current with
    | Some 10 =>
        let current := removelast current in
        let dscname := dbname ++ bytes_of "/" ++ current in
        match NewSequentialFile dscname e with
        | (s, Some file) =>
            if negb (is_ok s) then Ret (s, false, vs, e)
            else
              let! st := loop n (replay_round fuel) (mk_replaying None None None None (compact_pointer_ vs) new_builder s (new_reader file (Some []) true 0)) in
              let vs := with_pointers vs (rp_pointers st) in
              if is_ok (rp_status st) then install_replayed vs st dscname current e else Ret (rp_status st, false, vs, e)
        | (s, None) =>
            Ret (if IsNotFound s then Corruption (bytes_of "CURRENT points to a non-existent file") (default [] (ToString s)) else s, false, vs, e)
        end
    | _ => Ret (Corruption (bytes_of "CURRENT file does not end with newline") [], false, vs, e)
    end.

End VersionSet.
