(* ===== verification/LdbManifest.v ===== *)
(** * LevelDB: recovering the set of versions from its manifest (db/version_set.cc)

    The edits that were logged, read back and applied, give the version that was
    current; of a manifest that a crash cut off, that of the edits which are complete. *)
From S2P Require Import Prelude WireSpec.
From S2P Require Import LdbCoding LdbCrc32c LdbStatus LdbEnvPosix LdbLogWriter LdbLogReader LdbOrder LdbKeys LdbRecovery LdbVersionEdit LdbVersion LdbVersionBuilder LdbFilename LdbVersionSet.
From Stdlib Require Import ZArith Lia.
From stdpp Require Import base tactics numbers list strings sorting.
#[local] Open Scope Z_scope.

(** ** Edits as records *)

Lemma put32_bytes dst v : is_u32 v -> Forall is_byte dst -> Forall is_byte (PutVarint32 dst v).
Proof. intros Hv Hd. apply Forall_app. split; [done|]. by apply (put_bytes (put := EncodeVarint32)). Qed.

Lemma put64_bytes dst v : is_u64 v -> Forall is_byte dst -> Forall is_byte (PutVarint64 dst v).
Proof. intros Hv Hd. apply Forall_app. split; [done|]. by apply (put_bytes (put := EncodeVarint64)). Qed.

Lemma put_slice_bytes dst s : is_slice s -> Forall is_byte dst -> Forall is_byte (PutLengthPrefixedSlice dst s).
Proof. intros Hs Hd. rewrite PutLengthPrefixedSlice_app. apply Forall_app. split; [done|]. by apply (put_bytes (put := PutLengthPrefixedSlice [])). Qed.

Lemma level_u32 level : level_ok level -> is_u32 (u32 level).
Proof. intros _. apply Z.mod_pos_bound. lia. Qed.

Lemma encoded_bytes e bytes : edit_ok e -> edit_EncodeTo e [] = Ret bytes -> Forall is_byte bytes.
Proof.
  intros [Hc Hlog Hprev Hnext Hlast Hp [_ Hd] Hf]. unfold edit_EncodeTo.
  assert (forall has tag n dst, is_u32 tag -> number_ok has n -> Forall is_byte dst -> Forall is_byte (put_number has tag n dst)) as Hnum.
  { intros has tag n dst Ht Hn Hdst. unfold put_number. destruct has; [|done]. by apply put64_bytes, put32_bytes. }
  set (c := if has_comparator_ e then _ else _). assert (Forall is_byte c) as Hcb by (subst c; destruct (has_comparator_ e); [by apply put_slice_bytes; [|apply put32_bytes]|constructor]).
  set (b := put_number (has_last_sequence_ e) _ _ _). assert (Forall is_byte b) as Hb by (subst b; repeat (apply Hnum; [done|done|]); done). clearbody b. clear c Hcb Hc Hlog Hprev Hnext Hlast Hnum.
  assert (exists b', put_pointers (compact_pointers_ e) b = Ret b' /\ Forall is_byte b') as (b' & -> & Hb').
  { revert b Hb. induction Hp as [|[level key] l [Hl Hk] _ IH]; intros b Hb; [by exists b|]. cbn [put_pointers fst snd] in *. rewrite encode_key by done. cbn [rbind]. apply IH. apply put_slice_bytes; [apply Hk|]. by apply put32_bytes, put32_bytes; [apply level_u32| |]. }
  cbn [rbind]. assert (Forall is_byte (put_deleted (deleted_files_ e) b')) as Hb2.
  { clear - Hd Hb'. revert b' Hb'. induction Hd as [|[level n] l [Hl Hn] _ IH]; intros b Hb; [done|]. cbn [put_deleted fst snd] in *. apply IH. apply put64_bytes; [done|]. by apply put32_bytes, put32_bytes; [apply level_u32| |]. }
  revert Hb2. generalize (put_deleted (deleted_files_ e) b'). induction Hf as [|[level f] l (Hl & Hn & Hz & Hs & Hg & _) _ IH]; intros b2 Hb2; [by intros [= <-]|]. cbn [put_files fst snd] in *. rewrite !encode_key by done. cbn [rbind].
  apply IH. apply put_slice_bytes; [apply Hg|]. apply put_slice_bytes; [apply Hs|]. apply put64_bytes; [done|]. apply put64_bytes; [done|]. by apply put32_bytes, put32_bytes; [apply level_u32| |].
Qed.

(** A record that holds an edit. *)
Definition encoded (e : VersionEdit) (record : list Z) : Prop := edit_ok e /\ edit_EncodeTo e [] = Ret record.

Lemma encode_edit e : edit_ok e -> exists record, edit_EncodeTo e [] = Ret record /\ encoded e record /\ Forall is_byte record.
Proof. intros He. destruct (edit_decoded e He) as (r & E & _). exists r. split; [done|]. split; [done|]. by eapply encoded_bytes. Qed.

Lemma decode_encoded e record : encoded e record -> edit_DecodeFrom new_edit record = Ret (status_ok, e).
Proof.
  intros [He E]. destruct (edit_decoded e He) as (r & E' & Hd). rewrite E in E'. injection E' as <-. rewrite Hd. by destruct e.
Qed.

Lemma edits_bytes es rs : Forall2 encoded es rs -> Forall (Forall is_byte) rs.
Proof. induction 1 as [|e r es rs [He E] _ IH]; constructor; [by eapply encoded_bytes|done]. Qed.

(** ** Replaying *)

Definition empty_version : list (list FileMetaData) := repeat [] (Z.to_nat kNumLevels).
Definition empty_pointers : list (list Z) := repeat [] (Z.to_nat kNumLevels).

(** A number of the last edit that has it. *)
Definition last_of (has : VersionEdit -> bool) (num : VersionEdit -> Z) (es : list VersionEdit) : option Z :=
  foldl (fun old e => latest (has e) (num e) old) None es.

Lemma last_of_snoc has num es e : last_of has num (es ++ [e]) = latest (has e) (num e) (last_of has num es).
Proof. unfold last_of. by rewrite foldl_app. Qed.

Section Replay.
Context {R : Type} {SR : SequentialFile R} {Value : list Z -> Z}.
Context {user : Comparator} {valid : list Z -> Prop} {cmp : list Z -> list Z -> Z} {laws : ComparatorLaws user valid cmp}.
Context (comparator_name : list Z).
Abbreviation edits_fine := (edits_fine (valid := valid)).
Abbreviation leaves := (leaves (valid := valid) (cmp := cmp)).
Abbreviation version_fine := (version_fine (valid := valid) (cmp := cmp)).
Abbreviation round := (replay_round Value user comparator_name).

(** The edit names the comparator of the database, or none. *)
Definition named_so (e : VersionEdit) : Prop := has_comparator_ e = true -> comparator_ e = comparator_name.

Lemma empty_fine : version_fine empty_version.
Proof. split; [done|]. repeat constructor. Qed.

Lemma Apply_all_snoc es e : forall ptrs levels, Apply_all (user := user) (es ++ [e]) ptrs levels = let! (ptrs, levels) := Apply_all (user := user) es ptrs levels in Apply user e ptrs levels.
Proof.
  induction es as [|x es IH]; intros ptrs levels; cbn [app Apply_all rbind]; [by destruct (Apply user e ptrs levels) as [[? ?]| |]|]. destruct (Apply user x ptrs levels) as [[p l]| |]; cbn [rbind]; [apply IH|done..].
Qed.

Lemma edits_fine_app base a b : edits_fine base (a ++ b) -> edits_fine base a.
Proof.
  intros [He Hf]. split; [by apply Forall_app in He as [? _]|]. unfold all_changes in *. rewrite map_app, concat_app in Hf. by apply fresh_app in Hf as [? _].
Qed.

Lemma Apply_all_ret base es : version_fine base -> edits_fine base es -> exists levels, Apply_all (user := user) es empty_pointers new_builder = Ret (pointers_after empty_pointers es, levels).
Proof.
  intros Hb [He Hf]. destruct (Apply_all_ok (level_of base) es _ _ _ empty_pointers (new_builder_ok base Hb) eq_refl He Hf) as (levels & E & _). by exists levels.
Qed.

(** What the loop has when some edits were read. *)
Definition replayed (es : list VersionEdit) (st : Replaying (R := R)) : Prop :=
  Apply_all (user := user) es empty_pointers new_builder = Ret (rp_pointers st, rp_levels st) /\
  rp_log_number st = last_of has_log_number_ log_number_ es /\ rp_prev_log_number st = last_of has_prev_log_number_ prev_log_number_ es /\
  rp_next_file st = last_of has_next_file_number_ next_file_number_ es /\ rp_last_sequence st = last_of has_last_sequence_ last_sequence_ es /\
  rp_status st = status_ok /\ reporter_ (rp_reader st) = Some [].

Lemma replay_record_ok base done_ st e record : version_fine base -> replayed done_ st -> encoded e record -> named_so e -> edits_fine base (done_ ++ [e]) ->
  exists st', replay_record user comparator_name st record = Ret st' /\ replayed (done_ ++ [e]) st' /\ rp_reader st' = rp_reader st.
Proof.
  intros Hb (Ha & H1 & H2 & H3 & H4 & H5 & H6) He Hn Hf. unfold replay_record. rewrite (decode_encoded e) by done. cbn [rbind is_ok status_ok].
  assert (has_comparator_ e && negb (bool_decide (comparator_ e = comparator_name)) = false) as ->.
  { destruct (has_comparator_ e) eqn:E; [|done]. rewrite bool_decide_true by auto. done. }
  destruct (Apply_all_ret base (done_ ++ [e]) Hb Hf) as (levels & Eall). pose proof Eall as E2. rewrite Apply_all_snoc, Ha in E2. cbn [rbind] in E2. cbn [is_ok]. rewrite E2. cbn [rbind].
  eexists. split; [done|]. split; [|done]. unfold replayed. cbn [rp_pointers rp_levels rp_log_number rp_prev_log_number rp_next_file rp_last_sequence rp_status rp_reader]. rewrite !last_of_snoc, H1, H2, H3, H4. by split_and!.
Qed.

Lemma replay_loop base fuel todo rs : version_fine base -> Forall2 encoded todo rs -> Forall named_so todo -> forall done_ st n,
  replayed done_ st -> returns Value fuel (rp_reader st) rs -> edits_fine base (done_ ++ todo) -> (length rs < n)%nat ->
  exists st', loop n (round fuel) st = Ret st' /\ replayed (done_ ++ todo) st'.
Proof.
  intros Hb. induction 1 as [|e r todo rs He _ IH]; intros Hn done_ st n Hst Hret Hf Hfuel; (destruct n as [|n]; [cbn in Hfuel; lia|]); rewrite loop_unfold.
  - inversion Hret as [? record sc r' E Hrep|]; subst. unfold replay_round at 1. rewrite E. cbn [rbind andb]. eexists. split; [done|]. rewrite app_nil_r.
    destruct Hst as (Ha & H1 & H2 & H3 & H4 & H5 & H6). unfold replayed. cbn [rp_pointers rp_levels rp_log_number rp_prev_log_number rp_next_file rp_last_sequence rp_status rp_reader]. unfold the_reports. rewrite H6, Hrep, H5. cbn. by split_and!.
  - inversion Hret as [|? ? sc r' ? E Hrep Hret' E1 E2]; subst. apply Forall_cons in Hn as [Hne Hn]. unfold replay_round at 1. rewrite E. cbn [rbind].
    destruct Hst as (Ha & H1 & H2 & H3 & H4 & H5 & H6). unfold the_reports. rewrite H6, Hrep, H5. cbn [default from_option id length skipn foldl is_ok status_ok andb].
    assert (done_ ++ e :: todo = (done_ ++ [e]) ++ todo) as El by (by rewrite <- app_assoc). rewrite El in Hf |- *.
    destruct (replay_record_ok base done_ (mk_replaying (rp_log_number st) (rp_prev_log_number st) (rp_next_file st) (rp_last_sequence st) (rp_pointers st) (rp_levels st) status_ok r') e r) as (st' & -> & Hst' & Er); [done|by split_and!|done|done|by eapply edits_fine_app|].
    cbn [rbind]. cbn [rp_reader] in Er. apply IH; [done|done|by rewrite Er|done|cbn in Hfuel; lia].
Qed.

End Replay.

(** ** Recovering *)

(** The edit has the numbers that a manifest must have. *)
Definition has_numbers (e : VersionEdit) : bool := has_log_number_ e && has_next_file_number_ e && has_last_sequence_ e.

Lemma last_of_exists has num es : Exists (fun e => has e = true) es -> exists n, last_of has num es = Some n.
Proof.
  intros H%Exists_exists. destruct H as (e & (a & b & ->)%list_elem_of_split & He). induction b as [|x b IH] using rev_ind.
  - rewrite last_of_snoc. unfold latest. rewrite He. by eexists.
  - rewrite app_comm_cons, app_assoc, last_of_snoc. destruct IH as [n ->]. unfold latest. destruct (has x); by eexists.
Qed.

Lemma last_of_numbers es : Exists (fun e => has_numbers e = true) es ->
  exists a b c, last_of has_log_number_ log_number_ es = Some a /\ last_of has_next_file_number_ next_file_number_ es = Some b /\ last_of has_last_sequence_ last_sequence_ es = Some c.
Proof.
  intros H. assert (forall has : VersionEdit -> bool, (forall e, has_numbers e = true -> has e = true) -> Exists (fun e => has e = true) es) as Hh by (intros has Hi; eapply Exists_impl; [exact H|]; auto).
  destruct (last_of_exists has_log_number_ log_number_ es) as [a ->]; [apply Hh; unfold has_numbers; intros e; by destruct (has_log_number_ e)|].
  destruct (last_of_exists has_next_file_number_ next_file_number_ es) as [b ->]; [apply Hh; unfold has_numbers; intros e; destruct (has_log_number_ e); by destruct (has_next_file_number_ e)|].
  destruct (last_of_exists has_last_sequence_ last_sequence_ es) as [c ->]; [apply Hh; unfold has_numbers; intros e; destruct (has_log_number_ e); [|done]; by destruct (has_next_file_number_ e)|]. by exists a, b, c.
Qed.

Section Recovery.
Context {O F F0 R : Type} {W0 : WritableFile F0} {SR : SequentialFile R} {env : Env O F0 R} {unread : R -> list Z}.
Context {contents : O -> list Z -> option (list Z)} {named written0 : F0 -> list Z} {around : F0 -> list Z -> option (list Z)}.
Context {lawful : LawfulEnv O F0 R unread contents named written0 around}.
Context {Value : list Z -> Z} {Extend : Z -> list Z -> Z} {C : Checksum Value Extend}.
Context {user : Comparator} {valid : list Z -> Prop} {cmp : list Z -> list Z -> Z} {laws : ComparatorLaws user valid cmp}.
Context (NewAppendableFile : list Z -> O -> Status * option F * O) (GetFileSize : list Z -> O -> Status * Z).
Context (comparator_name dbname : list Z) (max_file_size : Z) (reuse_logs : bool).
Abbreviation leaves := (leaves (valid := valid) (cmp := cmp)).
Abbreviation Recover := (Recover NewAppendableFile GetFileSize Value user comparator_name dbname max_file_size reuse_logs).

(** The set holds what the edits leave. *)
Definition holds_edits (es : list VersionEdit) (vs : VersionSet F) : Prop :=
  (exists files, leaves empty_version es files /\ current_ vs = map (map add_ref) files) /\
  compact_pointer_ vs = pointers_after empty_pointers es /\
  last_of has_log_number_ log_number_ es = Some (vs_log_number vs) /\
  vs_prev_log_number vs = default 0 (last_of has_prev_log_number_ prev_log_number_ es) /\
  last_of has_last_sequence_ last_sequence_ es = Some (vs_last_sequence vs) /\
  exists n, last_of has_next_file_number_ next_file_number_ es = Some n /\ vs_next_file_number vs = u64 (n + 1).

Lemma ReuseManifest_keeps vs dsc base e es b vs' e' : ReuseManifest NewAppendableFile GetFileSize Value max_file_size reuse_logs vs dsc base e = (b, vs', e') -> holds_edits es vs -> holds_edits es vs'.
Proof.
  unfold ReuseManifest. destruct (negb reuse_logs); [by intros [= _ <- _]|]. destruct (ParseFileName base) as [[num []]|]; try (by intros [= _ <- _]).
  destruct (GetFileSize dsc e) as [s z]. destruct (_ || _); [by intros [= _ <- _]|]. destruct (NewAppendableFile dsc e) as [[r [file|]] e2]; [|by intros [= _ <- _]]. destruct (is_ok r); by intros [= _ <- _].
Qed.

Lemma install_ok vs (st : Replaying (R := R)) es e dsc base files : replayed (user := user) es st -> current_ vs = empty_version -> compact_pointer_ vs = rp_pointers st ->
  edits_fine (valid := valid) empty_version es -> Exists (fun e => has_numbers e = true) es -> leaves empty_version es files ->
  exists save vs' e', install_replayed NewAppendableFile GetFileSize Value user max_file_size reuse_logs vs st dsc base e = Ret (status_ok, save, vs', e') /\ holds_edits es vs'.
Proof.
  intros (Ha & H1 & H2 & H3 & H4 & H5 & H6) Hcur Hptr Hf Hex Hl. unfold install_replayed. destruct (last_of_numbers es Hex) as (a & b & c & Ea & Eb & Ec). rewrite H1, H3, H4, Ea, Eb, Ec, H5. cbn [is_ok status_ok negb].
  pose proof (build_ok empty_pointers empty_version es files empty_fine eq_refl Hf Hl) as Hbuild. unfold build_version in Hbuild. rewrite Ha in Hbuild. cbn [rbind] in Hbuild.
  set (vs1 := MarkFileNumberUsed _ _). assert (current_ vs1 = empty_version /\ compact_pointer_ vs1 = rp_pointers st) as [Hc1 Hp1].
  { subst vs1. unfold MarkFileNumberUsed. by repeat (match goal with |- context [if ?b then _ else _] => destruct b end). }
  rewrite Hc1. destruct (SaveTo user (rp_levels st) empty_version) as [v| |] eqn:Es; cbn [rbind] in Hbuild |- *; try done. injection Hbuild as Ep ->.
  destruct (ReuseManifest _ _ _ _ _ _ _ _ _) as [[re vs2] e2] eqn:Er. eexists _, vs2, e2. split; [done|]. eapply ReuseManifest_keeps; [exact Er|].
  split; [exists files; by split|]. cbn [compact_pointer_ vs_log_number vs_prev_log_number vs_last_sequence vs_next_file_number default from_option id]. rewrite Hp1, Ep, Ea, Eb, Ec, H2. split_and!; try done. by exists b.
Qed.

(** What a manifest may be when the process has crashed: the edits, of which the first
    [acked] are complete. *)
Definition manifest_left (bytes : list Z) (es : list VersionEdit) (acked : nat) : Prop :=
  exists rs, Forall2 encoded es rs /\ records_left (Value := Value) bytes rs acked.

Lemma Recover_edits e name bytes es acked n fuel vs : contents e (CurrentFileName dbname) = Some (name ++ [10]) -> contents e (dbname ++ bytes_of "/" ++ name) = Some bytes ->
  manifest_left bytes es acked -> Forall (named_so comparator_name) es -> edits_fine (valid := valid) empty_version es ->
  Exists (fun e => has_numbers e = true) (firstn acked es) -> (forall k, (acked <= k <= length es)%nat -> exists files, leaves empty_version (firstn k es) files) ->
  current_ vs = empty_version -> compact_pointer_ vs = empty_pointers ->
  (acked <= length es < n)%nat -> (length bytes < fuel)%nat -> (length name + 2 < fuel)%nat ->
  exists k s save vs' e', (acked <= k <= length es)%nat /\ Recover n fuel vs e = Ret (s, save, vs', e') /\
    is_ok s = is_ok (fst (NewSequentialFile (CurrentFileName dbname) e)) && is_ok (fst (NewSequentialFile (dbname ++ bytes_of "/" ++ name) e)) /\
    (is_ok s = true -> holds_edits (firstn k es) vs').
Proof.
  intros Hcur Hman (rs & Henc & all & off & rest & bytes1 & off1 & Hlog & Eall & Hlog1 & Hpre) Hn Hf Hex Hleaves Hvc Hvp Hlen Hfb Hfn. unfold LdbVersionSet.Recover.
  rewrite (ReadFileToString_read _ _ (name ++ [10])) by (done || rewrite length_app; cbn; lia). cbn [rbind].
  destruct (is_ok (fst (NewSequentialFile (CurrentFileName dbname) e))) eqn:E1; cbn [is_ok status_ok negb andb].
  2: { do 5 eexists. split; [split; [apply Hlen|done]|]. rewrite E1. cbn [negb]. split; [done|]. split; [done|]. congruence. }
  rewrite last_snoc. rewrite removelast_last. pose proof (new_sequential (dbname ++ bytes_of "/" ++ name) e) as Hnew. destruct (NewSequentialFile (dbname ++ bytes_of "/" ++ name) e) as [s1 [file|]]; cbn [fst].
  2: { do 5 eexists. split; [split; [apply Hlen|done]|]. split; [done|]. split; [destruct (IsNotFound s1); [by rewrite Hnew|done]|]. destruct (IsNotFound s1); [done|congruence]. }
  destruct Hnew as [Hs1 Hu]. assert (s1 = status_ok) as -> by (by destruct s1). rewrite Hman in Hu. injection Hu as Hu. cbn [is_ok status_ok negb]. pose proof (Forall2_length _ _ _ Henc) as Elen.
  pose proof sequential_lawful as LS. destruct (log_prefix_read file rs all off bytes rest (Some []) true n fuel Hlog (edits_bytes _ _ Henc) Eall (eq_sym Hu)) as (k & r' & Eread & Hrep & [_ Hnext] & _); [lia|done|].
  pose proof (read_records_returns Value n fuel (new_reader file (Some []) true 0) _ r' eq_refl Hrep Eread) as Hret. set (k' := min k (length es)).
  assert (firstn k rs = firstn k' rs) as Ek. { subst k'. destruct (decide (k <= length es)%nat); [by rewrite Nat.min_l by lia|]. rewrite Nat.min_r by lia. rewrite !firstn_all2 by lia. done. }
  assert (acked <= k)%nat as Hk.
  { destruct (decide (acked <= k)%nat); [done|exfalso]. destruct (LdbDbWrite.logged_firstn (S k) _ _ _ _ Hlog1) as (b2 & o2 & H2 & Hp2).
    rewrite firstn_firstn, Nat.min_l in H2 by lia. specialize (Hnext ltac:(lia) _ _ H2). apply prefix_length in Hpre, Hp2. lia. }
  rewrite Ek in Hret. assert (firstn k' es ++ skipn k' es = es) as Esplit by apply firstn_skipn.
  assert (edits_fine (valid := valid) empty_version (firstn k' es)) as Hf1 by (apply (edits_fine_app _ _ (skipn k' es)); by rewrite Esplit).
  assert (Forall (named_so comparator_name) (firstn k' es)) as Hn1 by (by apply Forall_take).
  destruct (replay_loop (Value := Value) comparator_name empty_version fuel (firstn k' es) (firstn k' rs) empty_fine (Forall2_take _ _ _ k' Henc) Hn1 []
    (mk_replaying None None None None (compact_pointer_ vs) new_builder status_ok (new_reader file (Some []) true 0)) n) as (st & -> & Hst); [|exact Hret|done|rewrite length_take; lia|].
  { rewrite Hvp. by split_and!. }
  cbn [rbind app] in *. pose proof Hst as (Ha & _ & _ & _ & _ & -> & _). cbn [is_ok status_ok]. destruct (Hleaves k') as (files & Hfiles); [subst k'; lia|].
  destruct (install_ok (with_pointers vs (rp_pointers st)) st (firstn k' es) e (dbname ++ bytes_of "/" ++ name) name files) as (save & vs' & e' & -> & Hh); [done|done|done|done| |done|].
  { rewrite <- (firstn_skipn acked (firstn k' es)), firstn_firstn, Nat.min_l by (subst k'; lia). apply Exists_app. by left. }
  exists k', status_ok, save, vs', e'. split; [subst k'; lia|]. by split_and!.
Qed.

End Recovery.

(** ** Logging an edit *)

Section Logging.
Context {F : Type} {W : WritableFile F} {usable : F -> Prop}.
Context {written delivered : F -> list Z} {failed dirty : F -> bool}.
Context {FS : FailStop F usable written delivered failed dirty} {HS : HarmlessSync F usable written delivered failed}.
Context {O F0 R : Type} {W0 : WritableFile F0} {SR : SequentialFile R} {env : Env O F0 R} {unread : R -> list Z}.
Context {contents : O -> list Z -> option (list Z)} {named written0 : F0 -> list Z} {around : F0 -> list Z -> option (list Z)}.
Context {lawful : LawfulEnv O F0 R unread contents named written0 around}.
Context {Value : list Z -> Z} {Extend : Z -> list Z -> Z} {C : Checksum Value Extend}.
Context {user : Comparator} {valid : list Z -> Prop} {cmp : list Z -> list Z -> Z} {laws : ComparatorLaws user valid cmp}.
Context (detach : F0 -> F * O) (delete_descriptor : list Z -> F -> O -> O) (comparator_name dbname : list Z).
Abbreviation leaves := (leaves (valid := valid) (cmp := cmp)).
Abbreviation version_fine := (version_fine (valid := valid) (cmp := cmp)).
Abbreviation edits_fine := (edits_fine (valid := valid)).
Abbreviation edit_fine := (edit_fine (valid := valid)).
Abbreviation LogAndApply := (LogAndApply detach delete_descriptor Value Extend user comparator_name dbname).

(** A manifest that has never failed, with all of the edits. *)
Definition manifest_log (log : Writer F) (es : list VersionEdit) : Prop :=
  exists rs, Forall2 encoded es rs /\ holds_records (Value := Value) (usable := usable) (written := written) (delivered := delivered) (failed := failed) log rs.

Abbreviation manifest_left := (manifest_left (Value := Value)).

Lemma manifest_left_fewer bytes es k k' : (k' <= k)%nat -> manifest_left bytes es k -> manifest_left bytes es k'.
Proof.
  intros Hle (rs & He & all & off & rest & b1 & o1 & Hl & E & Hl1 & Hp). exists rs. split; [done|]. destruct (LdbDbWrite.logged_firstn k' _ _ _ _ Hl1) as (b2 & o2 & Hl2 & Hp2).
  rewrite firstn_firstn, Nat.min_l in Hl2 by done. exists all, off, rest, b2, o2. split_and!; try done. by trans b1.
Qed.

Lemma manifest_log_left log es : manifest_log log es -> manifest_left (delivered (dest_ log)) es (length es).
Proof. intros (rs & He & Hl). exists rs. split; [done|]. rewrite (Forall2_length _ _ _ He). by apply (holds_records_left (usable := usable) (written := written) (failed := failed)). Qed.

Lemma log_edit_ok vs log es e : descriptor_log_ vs = Some log -> manifest_log log es -> edit_ok e ->
  exists s log', log_edit Extend e vs = Ret (s, with_descriptor vs (Some log')) /\
    manifest_left (delivered (dest_ log')) (es ++ [e]) (length es) /\ (is_ok s = true -> manifest_log log' (es ++ [e])).
Proof.
  intros Hlog (rs & Henc & Hr) He. unfold log_edit. destruct (encode_edit e He) as (r & -> & Hre & Hb). cbn [rbind]. rewrite Hlog.
  destruct (AddRecord_records (Value := Value) log rs r Hr Hb) as (s & log' & -> & H). cbn [rbind]. assert (Forall2 encoded (es ++ [e]) (rs ++ [r])) as Henc' by (apply Forall2_app; [done|by constructor]).
  destruct (is_ok s) eqn:Es.
  - destruct (Sync_records (Value := Value) log' _ H) as (s2 & f & -> & H2). cbn [rbind]. eexists s2, _. split; [done|]. assert (manifest_log (mk_writer f (block_offset_ log') (type_crc_ log')) (es ++ [e])) as Hm by (by exists (rs ++ [r])).
    split; [|done]. apply (manifest_left_fewer _ _ (length (es ++ [e]))); [rewrite length_app; lia|]. exact (manifest_log_left _ _ Hm).
  - eexists s, _. split; [done|]. split; [|congruence]. exists (rs ++ [r]). split; [done|]. cbn [dest_]. rewrite (Forall2_length _ _ _ Henc). apply H.
Qed.

(** The numbers of the set fit their types. *)
Definition counters_fit (vs : VersionSet F) : Prop :=
  is_u64 (vs_next_file_number vs) /\ is_u64 (vs_last_sequence vs) /\ is_u64 (vs_log_number vs) /\ is_u64 (vs_prev_log_number vs).

(** The assertions on the number of the log. *)
Definition log_number_fits (vs : VersionSet F) (e : VersionEdit) : Prop :=
  has_log_number_ e = true -> vs_log_number vs <= log_number_ e < vs_next_file_number vs.

(** The edit that is logged for [e]. *)
Record numbered_as (vs : VersionSet F) (e e' : VersionEdit) : Prop := {
  nu_ok : edit_ok e';
  nu_comparator : has_comparator_ e' = has_comparator_ e /\ comparator_ e' = comparator_ e;
  nu_lists : compact_pointers_ e' = compact_pointers_ e /\ deleted_files_ e' = deleted_files_ e /\ new_files_ e' = new_files_ e;
  nu_has : has_numbers e' = true /\ has_prev_log_number_ e' = true;
  nu_log : log_number_ e' = if has_log_number_ e then log_number_ e else vs_log_number vs;
  nu_next : next_file_number_ e' = vs_next_file_number vs /\ last_sequence_ e' = vs_last_sequence vs;
}.

Lemma numbered_edit_ok vs e : edit_ok e -> counters_fit vs -> log_number_fits vs e -> exists e', numbered_edit vs e = Ret e' /\ numbered_as vs e e'.
Proof.
  intros [Hc Hlog Hprev Hnext Hlast Hp Hd Hf] (Hn & Hs & Hl & Hpl) Hfit. unfold numbered_edit. unfold log_number_fits in Hfit.
  destruct (has_log_number_ e) eqn:El.
  - specialize (Hfit eq_refl). rewrite Z.geb_leb. destruct (Z.leb_spec (vs_log_number vs) (log_number_ e)); [|lia]. destruct (Z.ltb_spec (log_number_ e) (vs_next_file_number vs)); [|lia]. cbn [assert_ rbind].
    destruct (has_prev_log_number_ e) eqn:Ep; cbn [negb]; (eexists; split; [done|]); split; cbn; rewrite ?El, ?Ep; try done; split; cbn; rewrite ?El, ?Ep; try done; unfold has_numbers; cbn; by rewrite El.
  - cbn [rbind]. change (has_prev_log_number_ (SetLogNumber e (vs_log_number vs))) with (has_prev_log_number_ e).
    destruct (has_prev_log_number_ e) eqn:Ep; cbn [negb]; (eexists; split; [done|]); split; cbn; rewrite ?El, ?Ep; try done; split; cbn; rewrite ?El, ?Ep; try done; unfold has_numbers; cbn; by rewrite El.
Qed.

Lemma numbered_same vs e e' : numbered_as vs e e' -> changes e' = changes e /\ (edit_fine e -> edit_fine e') /\ (forall v files, leaves v [e] files -> leaves v [e'] files) /\ (named_so comparator_name e -> named_so comparator_name e').
Proof.
  intros [_ [Hc1 Hc2] (Hp & Hd & Hf) _ _ _]. assert (changes e' = changes e) as Ec by (unfold changes; by rewrite Hd, Hf). split; [done|]. unfold LdbVersionBuilder.edit_fine, named_so. rewrite Ec, Hp, Hc1, Hc2. split; [done|]. split; [|done].
  unfold LdbVersionBuilder.leaves, all_changes. cbn. by rewrite Ec.
Qed.

(** *** The version that an edit makes *)

(** The files that are left when the edits are applied to nothing, but for counters. *)
Definition version_of (es : list VersionEdit) (v : list (list FileMetaData)) : Prop := exists files, leaves empty_version es files /\ same_version v files.

(** The numbers that the edits have used in a level. *)
Definition used_by (es : list VersionEdit) (level : Z) : list Z := used_all level [] (all_changes es).

Lemma empty_level level : level_of empty_version level = [].
Proof. unfold level_of. destruct (empty_version !! Z.to_nat level) as [l|] eqn:E; [|done]. cbn. apply list_elem_of_lookup_2, list_elem_of_In, repeat_spec in E. done. Qed.

Lemma same_refs v : same_version (map (map add_ref) v) v.
Proof. unfold same_version. rewrite map_map. apply map_ext. intros l. by rewrite map_map. Qed.

Lemma version_of_fine es v : edits_fine empty_version es -> version_of es v ->
  version_fine v /\ forall level n, 0 <= level < kNumLevels -> n ∈ map number (level_of v level) -> n ∈ used_by es level.
Proof.
  intros Hf (files & Hl & Hs). destruct (leaves_fine empty_version es files empty_fine Hf Hl) as [Hfine Hused]. assert (same_version v (map (map add_ref) files)) as Hs' by (unfold same_version in *; by rewrite Hs, same_refs).
  split; [by eapply same_fine|]. intros level n Hr Hn. unfold used_by. specialize (Hused level Hr n). rewrite empty_level in Hused. apply Hused. by rewrite <- facts_numbers, <- (same_level _ _ level Hs'), facts_numbers.
Qed.

Lemma apply_ok v ptrs e files : version_fine v -> length ptrs = Z.to_nat kNumLevels -> edit_fine e -> numbers_fresh (fun level => map number (level_of v level)) (changes e) -> leaves v [e] files ->
  exists levels, Apply user e ptrs new_builder = Ret (pointers_after ptrs [e], levels) /\ SaveTo user levels v = Ret (map (map add_ref) files).
Proof.
  intros Hv Hp He Hf Hl. assert (edits_fine v [e]) as Hef by (split; [by constructor|]; unfold all_changes; cbn; by rewrite app_nil_r).
  pose proof (build_ok ptrs v [e] files Hv Hp Hef Hl) as Hb. unfold build_version in Hb. cbn [Apply_all] in Hb. destruct (Apply user e ptrs new_builder) as [[p l]| |]; cbn [rbind] in Hb; [|done..]. destruct (SaveTo user l v) as [w| |] eqn:Es; cbn [rbind] in Hb; try done.
  injection Hb as -> ->. by exists l.
Qed.

(** A set whose version is that of some edits. *)
Record at_edits (es : list VersionEdit) (vs : VersionSet F) : Prop := {
  ae_files : version_of es (current_ vs);
  ae_pointers : compact_pointer_ vs = pointers_after empty_pointers es;
  ae_fine : edits_fine empty_version es;
  ae_named : Forall (named_so comparator_name) es;
  ae_numbers : Exists (fun e => has_numbers e = true) es;
  ae_log : last_of has_log_number_ log_number_ es = Some (vs_log_number vs);
  ae_prev : vs_prev_log_number vs = default 0 (last_of has_prev_log_number_ prev_log_number_ es);
}.

(** An edit that can be applied, and the files it leaves; no number is used twice in a
    level, and above level 0 files do not overlap. *)
Record applicable (vs : VersionSet F) (ever : Z -> list Z) (e : VersionEdit) (files : list (list FileMetaData)) : Prop := {
  ap_ok : edit_ok e;
  ap_fine : edit_fine e;
  ap_named : named_so comparator_name e;
  ap_log : log_number_fits vs e;
  ap_fresh : numbers_fresh ever (changes e);
  ap_leaves : leaves (current_ vs) [e] files;
}.

Lemma pointers_length es : length (pointers_after empty_pointers es) = Z.to_nat kNumLevels.
Proof.
  unfold pointers_after. assert (forall ptrs, length ptrs = Z.to_nat kNumLevels -> length (foldl (fun ptrs e => foldl (fun ptrs p => <[Z.to_nat (fst p) := snd p]> ptrs) ptrs (compact_pointers_ e)) ptrs es) = Z.to_nat kNumLevels) as H; [|by apply H].
  induction es as [|e es IH]; intros ptrs Hl; [done|]. cbn [foldl]. apply IH. clear IH. revert ptrs Hl. induction (compact_pointers_ e) as [|p l IH]; intros ptrs Hl; [done|]. cbn [foldl]. apply IH. by rewrite length_insert.
Qed.

Lemma LogAndApply_logged vs es log e files o : at_edits es vs -> counters_fit vs -> descriptor_log_ vs = Some log -> manifest_log log es -> applicable vs (used_by es) e files ->
  exists s vs' e' log', LogAndApply vs e o = Ret (s, vs', o) /\ descriptor_log_ vs' = Some log' /\ numbered_as vs e e' /\ manifest_left (delivered (dest_ log')) (es ++ [e']) (length es) /\
    (exists files2, leaves empty_version (es ++ [e']) files2 /\ same_version files2 files) /\ edits_fine empty_version (es ++ [e']) /\
    if is_ok s then at_edits (es ++ [e']) vs' /\ manifest_log log' (es ++ [e']) /\ current_ vs' = map (map add_ref) files /\ counters_fit vs' else current_ vs' = current_ vs.
Proof.
  intros [(files1 & Hl1 & Hs1) Hptr Hf Hnm Hnum Hlog Hprev] Hfit Hdesc Hm [He Hfe Hne Hle Hfresh Hleaves]. unfold LdbVersionSet.LogAndApply.
  destruct (numbered_edit_ok vs e He Hfit Hle) as (e' & -> & Hnu). cbn [rbind]. destruct (numbered_same vs e e' Hnu) as (Ec & Hfe' & Hl' & Hne'). specialize (Hfe' Hfe). specialize (Hl' _ _ Hleaves). specialize (Hne' Hne). rewrite <- Ec in Hfresh.
  destruct (version_of_fine es (current_ vs) Hf) as [Hv Hused]; [by exists files1|]. assert (numbers_fresh (fun level => map number (level_of (current_ vs) level)) (changes e')) as Hfr by (eapply fresh_fewer; [apply Hfe'| |exact Hfresh]; intros level n Hr; by apply Hused).
  destruct (apply_ok (current_ vs) (compact_pointer_ vs) e' files Hv) as (levels & -> & Hsave); [by rewrite Hptr, pointers_length|done..|]. cbn [rbind]. rewrite Hsave. cbn [rbind]. rewrite Hptr.
  change (descriptor_log_ (with_pointers vs (pointers_after (pointers_after empty_pointers es) [e']))) with (descriptor_log_ vs). rewrite Hdesc. cbn [rbind is_ok status_ok].
  set (vs1 := with_pointers vs _). destruct (log_edit_ok vs1 log es e' Hdesc Hm (nu_ok _ _ _ Hnu)) as (s & log' & -> & Hleft & Hm'). cbn [rbind].
  destruct (leaves_step empty_version es (current_ vs) e' files1 files empty_fine Hf Hl1 Hs1 Hfe') as (Hf2 & Hl2); [|done|].
  { eapply fresh_fewer; [apply Hfe'| |exact Hfresh]. intros level n Hr. by rewrite empty_level. }
  destruct (is_ok s) eqn:Es; (eexists s, _, e', log'; split; [done|]; split; [done|]; split; [done|]; split; [done|]; split; [done|]; split; [done|]); rewrite Es; [|done].
  destruct (nu_has _ _ _ Hnu) as [Hh1 Hh2]. split; [split; cbn [current_ compact_pointer_ vs_log_number vs_prev_log_number]|].
  - destruct Hl2 as (files2 & Hl2 & Hs2). exists files2. split; [done|]. unfold same_version in *. by rewrite same_refs, Hs2.
  - unfold vs1, pointers_after. by rewrite foldl_app.
  - done.
  - apply Forall_app. by split; [|constructor].
  - apply Exists_app. by left.
  - rewrite last_of_snoc. unfold latest. unfold has_numbers in Hh1. by destruct (has_log_number_ e').
  - rewrite last_of_snoc. unfold latest. by rewrite Hh2.
  - split; [by apply Hm'|]. split; [done|]. destruct Hfit as (H1 & H2 & H3 & H4). pose proof (nu_ok _ _ _ Hnu) as [_ Hokl Hokp _ _ _ _ _]. unfold number_ok in *. split_and!; cbn; [done|done| |].
    + unfold has_numbers in Hh1. by destruct (has_log_number_ e').
    + by rewrite Hh2 in Hokp.
Qed.

End Logging.

(** ** Recovering what was logged *)

Section Composition.
Context {F : Type} {W : WritableFile F} {usable : F -> Prop}.
Context {written delivered : F -> list Z} {failed dirty : F -> bool}.
Context {FS : FailStop F usable written delivered failed dirty} {HS : HarmlessSync F usable written delivered failed}.
Context {O F0 R : Type} {W0 : WritableFile F0} {SR : SequentialFile R} {env : Env O F0 R} {unread : R -> list Z}.
Context {contents : O -> list Z -> option (list Z)} {named written0 : F0 -> list Z} {around : F0 -> list Z -> option (list Z)}.
Context {lawful : LawfulEnv O F0 R unread contents named written0 around}.
Context {Value : list Z -> Z} {Extend : Z -> list Z -> Z} {C : Checksum Value Extend}.
Context {user : Comparator} {valid : list Z -> Prop} {cmp : list Z -> list Z -> Z} {laws : ComparatorLaws user valid cmp}.
Context (detach : F0 -> F * O) (delete_descriptor : list Z -> F -> O -> O).
Context (NewAppendableFile : list Z -> O -> Status * option F * O) (GetFileSize : list Z -> O -> Status * Z).
Context (comparator_name dbname : list Z) (max_file_size : Z) (reuse_logs : bool).
Abbreviation leaves := (leaves (valid := valid) (cmp := cmp)).
Abbreviation at_edits := (at_edits (valid := valid) (cmp := cmp) comparator_name).
Abbreviation applicable := (applicable (valid := valid) (cmp := cmp) comparator_name).
Abbreviation manifest_log := (manifest_log (usable := usable) (written := written) (delivered := delivered) (failed := failed) (Value := Value)).
Abbreviation LogAndApply := (LogAndApply detach delete_descriptor Value Extend user comparator_name dbname).
Abbreviation Recover := (Recover NewAppendableFile GetFileSize Value user comparator_name dbname max_file_size reuse_logs).

Lemma leaves_unique base es files1 files2 : leaves base es files1 -> leaves base es files2 -> files1 = files2.
Proof.
  intros [Hlen1 H1] [Hlen2 H2]. apply list_eq. intros i. destruct (files1 !! i) as [l1|] eqn:E1.
  - assert (i < Z.to_nat kNumLevels)%nat as Hi by (rewrite <- Hlen1; by eapply lookup_lt_Some). destruct (lookup_lt_is_Some_2 files2 i) as [l2 E2]; [lia|]. rewrite E2. f_equal.
    assert (0 <= Z.of_nat i < kNumLevels) as Hr by (unfold kNumLevels in *; lia). destruct (H1 _ Hr) as (Hs1 & Hp1 & _), (H2 _ Hr) as (Hs2 & Hp2 & _). rewrite (level_of_at _ _ _ E1) in Hs1, Hp1. rewrite (level_of_at _ _ _ E2) in Hs2, Hp2.
    apply (sorted_unique (valid := file_keys (valid := valid)) (cmp := file_order (cmp := cmp))); [done|done|]. by rewrite Hp1, Hp2.
  - apply lookup_ge_None in E1. symmetry. apply lookup_ge_None. lia.
Qed.

Lemma same_version_trans (v w x : list (list FileMetaData)) : same_version v w -> same_version w x -> same_version v x.
Proof. unfold same_version. by intros -> ->. Qed.

(** A manifest with whole edits, or one that may lack its last edit. *)
Lemma Recover_left o name bytes es acked n fuel : contents o (CurrentFileName dbname) = Some (name ++ [10]) -> contents o (dbname ++ bytes_of "/" ++ name) = Some bytes ->
  manifest_left (Value := Value) bytes es acked -> Forall (named_so comparator_name) es -> edits_fine (valid := valid) empty_version es ->
  Exists (fun e => has_numbers e = true) (firstn acked es) -> (forall k, (acked <= k <= length es)%nat -> exists files, leaves empty_version (firstn k es) files) ->
  (acked <= length es < n)%nat -> (length bytes < fuel)%nat -> (length name + 2 < fuel)%nat ->
  exists k s save (vs' : VersionSet F) o', (acked <= k <= length es)%nat /\ Recover n fuel new_version_set o = Ret (s, save, vs', o') /\
    is_ok s = is_ok (fst (NewSequentialFile (CurrentFileName dbname) o)) && is_ok (fst (NewSequentialFile (dbname ++ bytes_of "/" ++ name) o)) /\
    (is_ok s = true -> holds_edits (valid := valid) (cmp := cmp) (firstn k es) vs').
Proof. intros. by eapply Recover_edits. Qed.

Lemma edits_of_set es (vs vs2 : VersionSet F) : at_edits es vs -> holds_edits (valid := valid) (cmp := cmp) es vs2 ->
  same_version (current_ vs2) (current_ vs) /\ compact_pointer_ vs2 = compact_pointer_ vs /\ vs_log_number vs2 = vs_log_number vs /\ vs_prev_log_number vs2 = vs_prev_log_number vs.
Proof.
  intros [(f1 & Hl1 & Hs1) Hp _ _ _ Hlog Hprev] ((f2 & Hl2 & Hc2) & Hp2 & Hlog2 & Hprev2 & _). rewrite (leaves_unique _ _ _ _ Hl2 Hl1) in Hc2. rewrite Hc2. split_and!; [| |congruence|congruence].
  - apply (same_version_trans _ f1); [apply same_refs|]. by unfold same_version in *.
  - by rewrite Hp2, Hp.
Qed.

Lemma recovery_ok (vs : VersionSet F) es log e files (o : O) : at_edits es vs -> counters_fit vs -> descriptor_log_ vs = Some log -> manifest_log log es -> applicable vs (used_by es) e files ->
  exists s vs' log', LogAndApply vs e o = Ret (s, vs', o) /\ descriptor_log_ vs' = Some log' /\ (if is_ok s then current_ vs' = map (map add_ref) files else current_ vs' = current_ vs) /\
    forall o2 name n fuel, contents o2 (CurrentFileName dbname) = Some (name ++ [10]) -> contents o2 (dbname ++ bytes_of "/" ++ name) = Some (delivered (dest_ log')) ->
      (length es + 1 < n)%nat -> (length (delivered (dest_ log')) < fuel)%nat -> (length name + 2 < fuel)%nat ->
      exists s2 save (vs2 : VersionSet F) o3, Recover n fuel new_version_set o2 = Ret (s2, save, vs2, o3) /\
        is_ok s2 = is_ok (fst (NewSequentialFile (CurrentFileName dbname) o2)) && is_ok (fst (NewSequentialFile (dbname ++ bytes_of "/" ++ name) o2)) /\
        (is_ok s2 = true -> (same_version (current_ vs2) (current_ vs) \/ same_version (current_ vs2) files) /\
          (is_ok s = true -> same_version (current_ vs2) (current_ vs') /\ compact_pointer_ vs2 = compact_pointer_ vs' /\ vs_log_number vs2 = vs_log_number vs' /\
            vs_prev_log_number vs2 = vs_prev_log_number vs' /\ vs_last_sequence vs2 = vs_last_sequence vs /\ vs_next_file_number vs2 = u64 (vs_next_file_number vs + 1))).
Proof.
  intros Hat Hfit Hdesc Hm Hap.
  destruct (LogAndApply_logged (env := env) detach delete_descriptor comparator_name dbname vs es log e files o Hat Hfit Hdesc Hm Hap) as (s & vs' & e' & log' & E & Hdesc' & Hnu & Hleft & (files2 & Hl2 & Hs2) & Hf2 & Hend).
  pose proof Hat as [(files1 & Hl1 & Hs1) Hptr Hf Hnm Hnum Hlog Hprev].
  exists s, vs', log'. split; [done|]. split; [done|]. split; [destruct (is_ok s); [apply Hend|done]|]. intros o2 name n fuel Hcur Hman Hn Hfb Hfn.
  set (acked := if is_ok s then S (length es) else length es).
  assert (firstn (S (length es)) (es ++ [e']) = es ++ [e']) as Eall by (apply firstn_all2; rewrite length_app; cbn; lia).
  assert (firstn (length es) (es ++ [e']) = es) as Ees by (rewrite firstn_app, firstn_all, Nat.sub_diag; by rewrite app_nil_r).
  assert (length (es ++ [e']) = S (length es)) as Elen by (rewrite length_app; cbn; lia).
  destruct (Recover_left o2 name (delivered (dest_ log')) (es ++ [e']) acked n fuel Hcur Hman) as (k & s2 & save & vs2 & o3 & Hk & Er & Hs & Hh).
  - unfold acked. destruct (is_ok s); [|done]. destruct Hend as (_ & Hm' & _). rewrite <- Elen. exact (manifest_log_left _ _ Hm').
  - apply Forall_app. split; [done|]. constructor; [|constructor]. destruct (numbered_same (valid := valid) (cmp := cmp) comparator_name vs e e' Hnu) as (_ & _ & _ & H). by apply H, Hap.
  - done.
  - unfold acked. destruct (is_ok s); [rewrite Eall; apply Exists_app; by left|by rewrite Ees].
  - intros k Hk. assert (k = length es \/ k = S (length es)) as [-> | ->] by (unfold acked in Hk; destruct (is_ok s); lia); [rewrite Ees; by exists files1|rewrite Eall; by exists files2].
  - unfold acked. destruct (is_ok s); lia.
  - done.
  - done.
  - exists s2, save, vs2, o3. split; [done|]. split; [done|]. intros Hok. specialize (Hh Hok). assert (k = length es \/ k = S (length es)) as Hk2 by (unfold acked in Hk; destruct (is_ok s); lia).
    pose proof Hh as ((f & Hlf & Hcf) & _). split.
    + destruct Hk2 as [-> | ->]; [left|right].
      * rewrite Ees in Hlf. rewrite Hcf, (leaves_unique _ _ _ _ Hlf Hl1). apply (same_version_trans _ files1); [apply same_refs|]. by unfold same_version in *.
      * rewrite Eall in Hlf. rewrite Hcf, (leaves_unique _ _ _ _ Hlf Hl2). apply (same_version_trans _ files2); [apply same_refs|done].
    + intros Es. unfold acked in Hk. rewrite Es in Hk, Hend. replace k with (S (length es)) in Hh by lia. rewrite Eall in Hh. destruct Hend as (Hat' & _). destruct (edits_of_set _ _ _ Hat' Hh) as (H1 & H2 & H3 & H4).
      destruct Hh as (_ & _ & _ & _ & Hlast & m & Hnext & Hm2). rewrite last_of_snoc in Hlast, Hnext. destruct (nu_next _ _ _ Hnu) as [En El], (nu_has _ _ _ Hnu) as [Hh1 _]. unfold has_numbers in Hh1. apply andb_prop in Hh1 as [Hh1 Hh3]. apply andb_prop in Hh1 as [_ Hh1].
      unfold latest in Hlast, Hnext. rewrite Hh3 in Hlast. rewrite Hh1 in Hnext. split_and!; [done..|congruence|]. rewrite Hm2. congruence.
Qed.

(** A manifest that is whole gives the set back. *)
Lemma Recover_logged (vs : VersionSet F) es log o name n fuel : at_edits es vs -> manifest_log log es ->
  contents o (CurrentFileName dbname) = Some (name ++ [10]) -> contents o (dbname ++ bytes_of "/" ++ name) = Some (delivered (dest_ log)) ->
  (length es < n)%nat -> (length (delivered (dest_ log)) < fuel)%nat -> (length name + 2 < fuel)%nat ->
  exists s save (vs2 : VersionSet F) o2, Recover n fuel new_version_set o = Ret (s, save, vs2, o2) /\
    is_ok s = is_ok (fst (NewSequentialFile (CurrentFileName dbname) o)) && is_ok (fst (NewSequentialFile (dbname ++ bytes_of "/" ++ name) o)) /\
    (is_ok s = true -> holds_edits (valid := valid) (cmp := cmp) es vs2 /\ same_version (current_ vs2) (current_ vs) /\ compact_pointer_ vs2 = compact_pointer_ vs /\ vs_log_number vs2 = vs_log_number vs /\ vs_prev_log_number vs2 = vs_prev_log_number vs).
Proof.
  intros Hat Hm Hcur Hman Hn Hfb Hfn. pose proof Hat as [(files & Hl & Hs) Hptr Hf Hnm Hnum Hlog Hprev].
  destruct (Recover_left o name (delivered (dest_ log)) es (length es) n fuel Hcur Hman (manifest_log_left _ _ Hm) Hnm Hf) as (k & s & save & vs2 & o2 & Hk & E & Hs2 & Hh); [by rewrite firstn_all| |lia|done|done|].
  { intros k Hk. replace k with (length es) by lia. rewrite firstn_all. by exists files. }
  exists s, save, vs2, o2. split; [done|]. split; [done|]. intros Hok. specialize (Hh Hok). replace k with (length es) in Hh by lia. rewrite firstn_all in Hh. split; [done|]. by apply (edits_of_set es).
Qed.

(** ** Theorem *)

(** C4. An edit is logged to a manifest and the process crashes.  Recovering what the
    manifest has delivered gives the version before the edit or the one with it, and the
    latter, with its pointers and numbers, when [LogAndApply] succeeded; it fails just
    when CURRENT or the manifest cannot be opened, as reads of a file that was opened
    are taken to be without errors ([LawfulSequential]). *)
Theorem manifest_recovery (vs : VersionSet F) es log e files (o : O) : at_edits es vs -> counters_fit vs -> descriptor_log_ vs = Some log -> manifest_log log es -> applicable vs (used_by es) e files ->
  exists s vs' log', LogAndApply vs e o = Ret (s, vs', o) /\ descriptor_log_ vs' = Some log' /\ (if is_ok s then current_ vs' = map (map add_ref) files else current_ vs' = current_ vs) /\
    forall o2 name n fuel, contents o2 (CurrentFileName dbname) = Some (name ++ [10]) -> contents o2 (dbname ++ bytes_of "/" ++ name) = Some (delivered (dest_ log')) ->
      (length es + 1 < n)%nat -> (length (delivered (dest_ log')) < fuel)%nat -> (length name + 2 < fuel)%nat ->
      exists s2 save (vs2 : VersionSet F) o3, Recover n fuel new_version_set o2 = Ret (s2, save, vs2, o3) /\
        is_ok s2 = is_ok (fst (NewSequentialFile (CurrentFileName dbname) o2)) && is_ok (fst (NewSequentialFile (dbname ++ bytes_of "/" ++ name) o2)) /\
        (is_ok s2 = true -> (same_version (current_ vs2) (current_ vs) \/ same_version (current_ vs2) files) /\
          (is_ok s = true -> same_version (current_ vs2) (current_ vs') /\ compact_pointer_ vs2 = compact_pointer_ vs' /\ vs_log_number vs2 = vs_log_number vs' /\
            vs_prev_log_number vs2 = vs_prev_log_number vs' /\ vs_last_sequence vs2 = vs_last_sequence vs /\ vs_next_file_number vs2 = u64 (vs_next_file_number vs + 1))).
Proof. apply recovery_ok. Qed.

End Composition.
