(* ===== verification/LdbSnapshot.v ===== *)
(** * LevelDB: starting a manifest with a snapshot (WriteSnapshot in db/version_set.cc)

    Applying the snapshot of a set to nothing gives its version.  A new manifest with a
    snapshot and an edit takes the place of the old one when CURRENT is set, or the old
    one stays. *)
From S2P Require Import Prelude WireSpec.
From S2P Require Import LdbCoding LdbCrc32c LdbStatus LdbEnvPosix LdbLogWriter LdbLogReader LdbOrder LdbKeys LdbRecovery LdbVersionEdit LdbVersion LdbVersionBuilder LdbFilename LdbVersionSet LdbManifest.
From Stdlib Require Import ZArith Lia.
From stdpp Require Import base tactics numbers list strings sorting.
#[local] Open Scope Z_scope.

(** ** The snapshot *)

Definition listed_file (level : Z) (f : FileMetaData) : Z * FileMetaData := (level, new_file (number f) (file_size f) (smallest f) (largest f)).

(** The files of the levels from [level] on. *)
Fixpoint listed_files (level : Z) (files_ : list (list FileMetaData)) : list (Z * FileMetaData) :=
  match files_ with [] => [] | files :: files_ => map (listed_file level) files ++ listed_files (level + 1) files_ end.

Fixpoint pointed (level : Z) (ptrs : list (list Z)) : list (Z * InternalKey) :=
  match ptrs with [] => [] | p :: ptrs => (match p with [] => [] | _ => [(level, p)] end) ++ pointed (level + 1) ptrs end.

Lemma snapshot_level_eq level files : forall edit, snapshot_level level files edit = with_lists edit (compact_pointers_ edit) (deleted_files_ edit) (new_files_ edit ++ map (listed_file level) files).
Proof. induction files as [|f files IH]; intros edit; cbn [snapshot_level map]; [rewrite app_nil_r; by destruct edit|]. rewrite IH. unfold AddFile, with_lists. cbn. by rewrite <- app_assoc. Qed.

Lemma snapshot_files_eq files_ : forall level edit, snapshot_files level files_ edit = with_lists edit (compact_pointers_ edit) (deleted_files_ edit) (new_files_ edit ++ listed_files level files_).
Proof. induction files_ as [|files files_ IH]; intros level edit; cbn [snapshot_files listed_files]; [rewrite app_nil_r; by destruct edit|]. rewrite IH, snapshot_level_eq. unfold with_lists. cbn. by rewrite <- app_assoc. Qed.

Lemma snapshot_pointers_eq ptrs : forall level edit, snapshot_pointers level ptrs edit = with_lists edit (compact_pointers_ edit ++ pointed level ptrs) (deleted_files_ edit) (new_files_ edit).
Proof.
  induction ptrs as [|p ptrs IH]; intros level edit; cbn [snapshot_pointers pointed]; [rewrite app_nil_r; by destruct edit|]. rewrite IH. destruct p as [|c p]; [done|]. unfold SetCompactPointer, with_lists. cbn. by rewrite <- app_assoc.
Qed.

Lemma snapshot_edit_eq {F} name (vs : VersionSet F) :
  snapshot_edit name vs = mk_edit name 0 0 0 0 true false false false false (pointed 0 (compact_pointer_ vs)) [] (listed_files 0 (current_ vs)).
Proof. unfold snapshot_edit. by rewrite snapshot_files_eq, snapshot_pointers_eq. Qed.

(** ** What applying it gives *)

(** The file as it is after a recovery. *)
Definition refile (f : FileMetaData) : FileMetaData := allocate_file (snd (listed_file 0 f)).

Definition insertions (l : list (Z * FileMetaData)) : list Change := map (fun p => LdbVersionBuilder.Insert (fst p) (snd p)) l.

(** The files of level [level] when the first of [files_] are those of level [l0]. *)
Definition level_from (l0 : Z) (files_ : list (list FileMetaData)) (level : Z) : list FileMetaData :=
  if level <? l0 then [] else default [] (files_ !! Z.to_nat (level - l0)).

Lemma level_from_cons l0 files files_ level : level_from l0 (files :: files_) level = if level =? l0 then files else level_from (l0 + 1) files_ level.
Proof.
  unfold level_from. destruct (Z.eqb_spec level l0) as [->|Hne].
  - destruct (Z.ltb_spec l0 l0); [lia|]. by rewrite Z.sub_diag.
  - destruct (Z.ltb_spec level l0), (Z.ltb_spec level (l0 + 1)); try lia; [done|]. replace (Z.to_nat (level - l0)) with (S (Z.to_nat (level - (l0 + 1)))) by lia. done.
Qed.

Lemma changed_level level l files : forall fs, changed_all level fs (insertions (map (listed_file l) files)) = fs ++ if level =? l then map refile files else [].
Proof.
  induction files as [|f files IH]; intros fs; cbn [map insertions changed_all foldl]; [destruct (_ =? _); by rewrite app_nil_r|]. unfold changed_all, insertions in IH. rewrite IH. unfold changed_files. cbn [change_level fst snd listed_file].
  destruct (Z.eqb_spec l level) as [->|Hne]; [rewrite Z.eqb_refl; cbn; by rewrite <- app_assoc|]. by destruct (Z.eqb_spec level l); [lia|].
Qed.

Lemma inserted_app a b : insertions (a ++ b) = insertions a ++ insertions b.
Proof. apply map_app. Qed.

Lemma changed_listed level files_ : forall l0 fs, changed_all level fs (insertions (listed_files l0 files_)) = fs ++ map refile (level_from l0 files_ level).
Proof.
  induction files_ as [|files files_ IH]; intros l0 fs; cbn [listed_files]; [unfold level_from; rewrite lookup_nil; destruct (_ <? _); by rewrite app_nil_r|].
  rewrite inserted_app. unfold changed_all. rewrite foldl_app. fold (changed_all level fs (insertions (map (listed_file l0) files))). rewrite changed_level. change (changed_all level (fs ++ if level =? l0 then map refile files else []) (insertions (listed_files (l0 + 1) files_)) = fs ++ map refile (level_from l0 (files :: files_) level)).
  rewrite IH, level_from_cons, <- app_assoc. f_equal. destruct (Z.eqb_spec level l0) as [->|Hne]; [|done]. unfold level_from. destruct (Z.ltb_spec l0 (l0 + 1)); [|lia]. by rewrite app_nil_r.
Qed.

(** The numbers used are those of the files. *)
Lemma used_level level l files : forall ever n, n ∈ used_all level ever (insertions (map (listed_file l) files)) <-> n ∈ ever \/ level = l /\ n ∈ map number files.
Proof.
  induction files as [|f files IH]; intros ever n; cbn [map insertions used_all foldl]; [rewrite elem_of_nil; tauto|]. unfold used_all, insertions in IH. rewrite IH. unfold used. cbn [change_level fst snd listed_file].
  rewrite !elem_of_cons. destruct (Z.eqb_spec l level) as [->|Hne]; [rewrite elem_of_cons; cbn; tauto|]. split; [tauto|]. intros [H|[-> _]]; [by left|done].
Qed.

Lemma used_listed level files_ : forall l0 ever n, n ∈ used_all level ever (insertions (listed_files l0 files_)) <-> n ∈ ever \/ n ∈ map number (level_from l0 files_ level).
Proof.
  induction files_ as [|files files_ IH]; intros l0 ever n; cbn [listed_files].
  - unfold level_from. rewrite lookup_nil. destruct (_ <? _); cbn; rewrite elem_of_nil; tauto.
  - rewrite inserted_app. unfold used_all. rewrite foldl_app. fold (used_all level ever (insertions (map (listed_file l0) files))). fold (used_all level (used_all level ever (insertions (map (listed_file l0) files))) (insertions (listed_files (l0 + 1) files_))).
    rewrite IH, used_level, level_from_cons. destruct (Z.eqb_spec level l0) as [->|Hne]; [|tauto]. unfold level_from. destruct (Z.ltb_spec l0 (l0 + 1)); [|lia]. cbn. rewrite elem_of_nil. tauto.
Qed.

Lemma fresh_level l files : forall ever, NoDup (map number files) -> (forall n, n ∈ map number files -> n ∉ ever l) -> numbers_fresh ever (insertions (map (listed_file l) files)).
Proof.
  induction files as [|f files IH]; intros ever Hnd He; [done|]. apply NoDup_cons in Hnd as [Hn Hnd]. split; [apply He; by left|]. apply IH; [done|]. intros n Hin. unfold used. cbn [change_level fst snd listed_file]. rewrite Z.eqb_refl.
  rewrite not_elem_of_cons. split; [|apply He; by right]. cbn. by intros ->.
Qed.

Lemma fresh_listed files_ : forall l0 ever, Forall (fun files => NoDup (map number files)) files_ -> (forall l, l0 <= l -> ever l = []) -> numbers_fresh ever (insertions (listed_files l0 files_)).
Proof.
  induction files_ as [|files files_ IH]; intros l0 ever Hnd He; [done|]. apply Forall_cons in Hnd as [Hn Hnd]. cbn [listed_files]. rewrite inserted_app. apply fresh_join.
  - apply fresh_level; [done|]. intros n _. rewrite He by lia. by apply not_elem_of_nil.
  - apply IH; [done|]. intros l Hl. apply elem_of_nil_inv. intros n. rewrite used_level, He by lia. rewrite elem_of_nil. intros [[]|[-> _]]. lia.
Qed.

(** The pointers are put back. *)
Lemma pointed_after ptrs : forall pre, foldl (fun ptrs p => <[Z.to_nat (fst p) := snd p]> ptrs) (pre ++ repeat [] (length ptrs)) (pointed (zlen pre) ptrs) = pre ++ ptrs.
Proof.
  induction ptrs as [|p ptrs IH]; intros pre; [done|]. cbn [pointed length repeat]. rewrite foldl_app. assert (pre ++ p :: ptrs = (pre ++ [p]) ++ ptrs) as -> by (by rewrite <- app_assoc). rewrite <- IH.
  replace (zlen (pre ++ [p])) with (zlen pre + 1) by (rewrite zlen_app; done). f_equal. destruct p as [|c p]; cbn [foldl fst snd]; [by rewrite <- app_assoc|]. unfold zlen. rewrite Nat2Z.id.
  rewrite insert_app_r_alt by (apply Nat.le_refl). rewrite Nat.sub_diag. cbn. by rewrite <- app_assoc.
Qed.

(** ** Starting a manifest *)

(** An open file taken apart from the file system, and deleted. *)
Class Detached {O F F0 : Type} {W : WritableFile F} (usable : F -> Prop) (written delivered : F -> list Z) (failed : F -> bool)
    (contents : O -> list Z -> option (list Z)) (named written0 : F0 -> list Z) (around : F0 -> list Z -> option (list Z))
    (detach : F0 -> F * O) (delete_descriptor : list Z -> F -> O -> O) : Prop := {
  detach_new f : written0 f = [] -> exists d o, detach f = (d, o) /\ usable d /\ failed d = false /\ written d = [] /\ delivered d = [] /\
    forall m, m <> named f -> contents o m = around f m;
  delete_detached n d o m : m <> n -> contents (delete_descriptor n d o) m = contents o m;
  close_detached d : usable d -> exists s d', Close d = Ret (s, d') /\
    (is_ok s = true -> failed d = false -> delivered d = written d -> forall n o, contents (delete_descriptor n d' o) n = Some (written d));
}.

Section Snapshot.
Context {F : Type} {W : WritableFile F} {usable : F -> Prop}.
Context {written delivered : F -> list Z} {failed dirty : F -> bool}.
Context {FS : FailStop F usable written delivered failed dirty} {HS : HarmlessSync F usable written delivered failed}.
Context {O F0 R : Type} {W0 : WritableFile F0} {SR : SequentialFile R} {env : Env O F0 R} {unread : R -> list Z}.
Context {contents : O -> list Z -> option (list Z)} {named written0 : F0 -> list Z} {around : F0 -> list Z -> option (list Z)}.
Context {lawful : LawfulEnv O F0 R unread contents named written0 around}.
Context {Value : list Z -> Z} {Extend : Z -> list Z -> Z} {C : Checksum Value Extend}.
Context {user : Comparator} {valid : list Z -> Prop} {cmp : list Z -> list Z -> Z} {laws : ComparatorLaws user valid cmp}.
Context {detach : F0 -> F * O} {delete_descriptor : list Z -> F -> O -> O} {DT : Detached usable written delivered failed contents named written0 around detach delete_descriptor}.
Context (comparator_name dbname : list Z).
Abbreviation leaves := (leaves (valid := valid) (cmp := cmp)).
Abbreviation version_fine := (version_fine (valid := valid) (cmp := cmp)).
Abbreviation at_edits := (at_edits (valid := valid) (cmp := cmp) comparator_name).
Abbreviation applicable := (applicable (valid := valid) (cmp := cmp) comparator_name).
Abbreviation manifest_log := (manifest_log (usable := usable) (written := written) (delivered := delivered) (failed := failed) (Value := Value)).
Abbreviation LogAndApply := (LogAndApply detach delete_descriptor Value Extend user comparator_name dbname).
Abbreviation create_manifest := (create_manifest detach Value Extend comparator_name dbname).

(** A file that a record can hold. *)
Definition file_stored (f : FileMetaData) : Prop := is_u64 (number f) /\ is_u64 (file_size f) /\ key_ok (smallest f) /\ key_ok (largest f).

(** A version and pointers that a snapshot can hold. *)
Record storable (v : list (list FileMetaData)) (ptrs : list (list Z)) : Prop := {
  st_fine : version_fine v;
  st_apart : forall level, 0 <= level < kNumLevels -> files_apart (cmp := cmp) level (level_of v level);
  st_files : Forall (Forall file_stored) v;
  st_length : length ptrs = Z.to_nat kNumLevels;
  st_ptrs : Forall (fun p => p = [] \/ key_ok p /\ internal_valid valid p) ptrs;
}.

Lemma listed_ok v : forall l0, 0 <= l0 -> l0 + zlen v <= kNumLevels -> Forall (Forall file_stored) v -> Forall file_ok (listed_files l0 v).
Proof.
  induction v as [|files v IH]; intros l0 H0 Hl Hv; [constructor|]. apply Forall_cons in Hv as [Hf Hv]. rewrite zlen_cons in Hl. pose proof (zlen_nonneg v). cbn [listed_files]. apply Forall_app. split; [|apply IH; [lia|lia|done]].
  apply Forall_map. eapply Forall_impl; [exact Hf|]. intros f (H1 & H2 & H3 & H4). unfold file_ok, level_ok. cbn. split_and!; (done || lia).
Qed.

Lemma listed_fine v : forall l0, 0 <= l0 -> l0 + zlen v <= kNumLevels -> Forall (Forall (file_keys (valid := valid))) v -> Forall (change_ok (valid := valid)) (insertions (listed_files l0 v)).
Proof.
  induction v as [|files v IH]; intros l0 H0 Hl Hv; [constructor|]. apply Forall_cons in Hv as [Hf Hv]. rewrite zlen_cons in Hl. pose proof (zlen_nonneg v). cbn [listed_files]. rewrite inserted_app. apply Forall_app. split; [|apply IH; [lia|lia|done]].
  unfold insertions. rewrite map_map. apply Forall_map. eapply Forall_impl; [exact Hf|]. intros f [H1 H2]. split; [cbn; lia|by split].
Qed.

Lemma pointed_ok ptrs : forall l0, 0 <= l0 -> l0 + zlen ptrs <= kNumLevels -> Forall (fun p => p = [] \/ key_ok p /\ internal_valid valid p) ptrs ->
  Forall (fun p => pointer_ok p /\ internal_valid valid (snd p)) (pointed l0 ptrs).
Proof.
  induction ptrs as [|p ptrs IH]; intros l0 H0 Hl Hp; [constructor|]. apply Forall_cons in Hp as [Hk Hp]. rewrite zlen_cons in Hl. pose proof (zlen_nonneg ptrs). cbn [pointed]. apply Forall_app. split; [|apply IH; [lia|lia|done]].
  destruct p as [|c p]; [constructor|]. destruct Hk as [|[Hk Hv]]; [done|]. constructor; [|constructor]. split; [split; [unfold level_ok; cbn; lia|done]|done].
Qed.

(** The snapshot of a set, as an edit. *)
Lemma snapshot_ok (vs : VersionSet F) : storable (current_ vs) (compact_pointer_ vs) -> is_slice comparator_name ->
  let snap := snapshot_edit comparator_name vs in
  edit_ok snap /\ edits_fine (valid := valid) empty_version [snap] /\ named_so comparator_name snap /\
  (exists files, leaves empty_version [snap] files /\ same_version (current_ vs) files) /\
  compact_pointer_ vs = pointers_after empty_pointers [snap] /\
  forall level n, 0 <= level < kNumLevels -> n ∈ used_by [snap] level -> n ∈ map number (level_of (current_ vs) level).
Proof.
  intros [[Hlen Hv] Hap Hfs Hpl Hps] Hname snap. unfold snap. rewrite snapshot_edit_eq. set (v := current_ vs) in *. set (ptrs := compact_pointer_ vs) in *.
  assert (zlen v = kNumLevels) as Hz by (unfold zlen; rewrite Hlen; done). assert (zlen ptrs = kNumLevels) as Hzp by (unfold zlen; rewrite Hpl; done).
  pose proof (pointed_ok ptrs 0 ltac:(lia) ltac:(lia) Hps) as Hpo. set (e := mk_edit _ _ _ _ _ _ _ _ _ _ _ _ _).
  assert (all_changes [e] = insertions (listed_files 0 v)) as Ec by (unfold all_changes; cbn; by rewrite app_nil_r).
  assert (forall level, 0 <= level -> level_from 0 v level = level_of v level) as Hfrom by (intros level Hl; unfold level_from; destruct (Z.ltb_spec level 0); [lia|]; by rewrite Z.sub_0_r).
  assert (Forall (Forall (file_keys (valid := valid))) v) as Hkeys by (eapply Forall_impl; [exact Hv|]; by intros l [[_ ?] _]).
  split_and!.
  - split; try done; [eapply Forall_impl; [exact Hpo|]; by intros p [? _]|by split; constructor|apply listed_ok; [lia|lia|done]].
  - split.
    + constructor; [|constructor]. split; [change (changes e) with ([] ++ insertions (listed_files 0 v)); apply listed_fine; [lia|lia|done]|]. eapply Forall_impl; [exact Hpo|]. by intros p [[? _] ?].
    + rewrite Ec. apply fresh_listed; [eapply Forall_impl; [exact Hv|]; by intros l [_ ?]|]. intros l _. by rewrite empty_level.
  - done.
  - exists (map (map refile) v). split.
    + split; [by rewrite length_map|]. intros level Hr. assert (level_of (map (map refile) v) level = map refile (level_of v level)) as -> by (unfold level_of; rewrite list_lookup_fmap; by destruct (v !! _)).
      assert (map facts (map refile (level_of v level)) = map facts (level_of v level)) as Ef by (by rewrite map_map). split; [|split].
      * apply facts_sorted. rewrite Ef. apply facts_sorted. unfold level_of. destruct (v !! Z.to_nat level) as [l|] eqn:El; [|apply sorted_nil]. cbn. eapply Forall_lookup in Hv; [|exact El]. apply Hv.
      * rewrite Ec, changed_listed, empty_level, Hfrom by lia. done.
      * eapply facts_apart; [symmetry; exact Ef|]. by apply Hap.
    + unfold same_version. rewrite map_map. apply map_ext. intros l. by rewrite map_map.
  - unfold pointers_after. cbn [foldl]. change (compact_pointers_ e) with (pointed 0 ptrs). pose proof (pointed_after ptrs []) as H. cbn [app] in H. rewrite Hpl in H. symmetry. exact H.
  - intros level n Hr. unfold used_by. rewrite Ec, used_listed, Hfrom by lia. rewrite elem_of_nil. tauto.
Qed.

Abbreviation set_pointers := (foldl (fun (ptrs : list (list Z)) (p : Z * InternalKey) => <[Z.to_nat (fst p) := snd p]> ptrs)).

Lemma set_pointers_length l : forall ptrs, length (set_pointers ptrs l) = length ptrs.
Proof. induction l as [|p l IH]; intros ptrs; [done|]. cbn [foldl]. by rewrite IH, length_insert. Qed.

(** Only the levels that are set are looked at. *)
Lemma set_pointers_same l : forall a b, length a = length b -> (forall i, i ∉ map (fun p => Z.to_nat (fst p)) l -> a !! i = b !! i) -> set_pointers a l = set_pointers b l.
Proof.
  induction l as [|p l IH]; intros a b Hlen H; cbn [foldl]; [apply list_eq; intros i; apply H, not_elem_of_nil|]. apply IH; [by rewrite !length_insert|]. intros i Hi. destruct (decide (i = Z.to_nat (fst p))) as [->|Hne].
  - destruct (decide (Z.to_nat (fst p) < length a)%nat); [by rewrite !list_lookup_insert_eq by congruence|]. 
    assert (forall x : list (list Z), length x = length a -> <[Z.to_nat (fst p) := snd p]> x !! Z.to_nat (fst p) = None) as Hn by (intros x Hx; apply lookup_ge_None; rewrite length_insert; lia). by rewrite !Hn.
  - rewrite !list_lookup_insert_ne by done. apply H. cbn [map]. by rewrite not_elem_of_cons.
Qed.

Lemma set_pointers_others l : forall a i, i ∉ map (fun p => Z.to_nat (fst p)) l -> set_pointers a l !! i = a !! i.
Proof. induction l as [|p l IH]; intros a i Hi; [done|]. cbn [map foldl] in *. apply not_elem_of_cons in Hi as [Hne Hi]. by rewrite IH, list_lookup_insert_ne. Qed.

Lemma set_pointers_twice l a : set_pointers (set_pointers a l) l = set_pointers a l.
Proof. apply set_pointers_same; [apply set_pointers_length|]. intros i. apply set_pointers_others. Qed.

Lemma stored_pointers v ptrs e : storable v ptrs -> edit_ok e -> edit_fine (valid := valid) e -> storable v (pointers_after ptrs [e]).
Proof.
  intros [H1 H2 H3 H4 H5] He [_ Hf]. unfold pointers_after. cbn [foldl]. split; [done..|by rewrite set_pointers_length|]. pose proof (ok_pointers _ He) as Ho.
  clear - H5 Ho Hf. revert ptrs H5. induction (compact_pointers_ e) as [|p l IH]; intros ptrs Hp; [done|]. cbn [foldl]. apply Forall_cons in Ho as [[_ Hk] Ho]. apply Forall_cons in Hf as [[_ Hv] Hf]. apply IH; [done|done|]. apply Forall_insert; [done|]. by right.
Qed.

Lemma base_names number : 0 < number < 2 ^ 64 -> dbname ++ bytes_of "/" ++ manifest_base number <> CurrentFileName dbname.
Proof. intros _ E. apply app_inv_head in E. done. Qed.

(** A new manifest with the snapshot, or none. *)
Lemma create_manifest_ok vs o : storable (current_ vs) (compact_pointer_ vs) -> is_slice comparator_name -> descriptor_log_ vs = None -> 0 < vs_manifest_file_number vs ->
  let name := dbname ++ bytes_of "/" ++ manifest_base (vs_manifest_file_number vs) in
  exists s vs' o', create_manifest vs o = Ret (s, name, vs', o') /\ (forall m, m <> name -> contents o' m = contents o m) /\
    exists d, vs' = with_descriptor vs d /\ if is_ok s then exists log, d = Some log /\ manifest_log log [snapshot_edit comparator_name vs] else True.
Proof.
  intros Hst Hname Hd Hm name. unfold LdbVersionSet.create_manifest. rewrite descriptor_file_name by done. cbn [rbind]. fold name.
  pose proof (new_writable_file name o) as Hnew. destruct (NewWritableFile name o) as [s [o1|f]].
  - destruct Hnew as [Hs Ho]. exists s, vs, o1. split; [done|]. split; [done|]. exists None. split; [rewrite <- Hd; by destruct vs|]. by rewrite Hs.
  - destruct Hnew as (_ & Hn & Hw & Ha). destruct (detach_new (Detached := DT) f Hw) as (d & o1 & -> & Hu & Hf & Hwd & Hdd & Ho). unfold WriteSnapshot.
    destruct (snapshot_ok vs Hst Hname) as (Hok & _). destruct (encode_edit _ Hok) as (r & -> & Hre & Hb). cbn [rbind].
    destruct (AddRecord_records (Value := Value) (Extend := Extend) (new_writer Value d) [] r) as (s1 & log & -> & H); [|done|].
    { split_and!; cbn; [split; [by split|done]|done|done|by rewrite Hwd|]. rewrite Hwd. constructor. }
    cbn [rbind]. eexists s1, _, o1. split; [done|]. split; [intros m Hne; rewrite Ho, Ha by congruence; done|]. exists (Some log). split; [done|]. destruct (is_ok s1); [|done]. exists log. split; [done|]. exists [r]. split; [by constructor|done].
Qed.

Lemma LogAndApply_new vs e files o : storable (current_ vs) (compact_pointer_ vs) -> is_slice comparator_name -> counters_fit vs -> descriptor_log_ vs = None ->
  0 < vs_manifest_file_number vs < 2 ^ 64 -> applicable vs (fun level => map number (level_of (current_ vs) level)) e files ->
  let name := manifest_base (vs_manifest_file_number vs) in
  exists s vs' o', LogAndApply vs e o = Ret (s, vs', o') /\
    (forall m, m <> dbname ++ bytes_of "/" ++ name -> m <> dbname ++ bytes_of "/" ++ temp_base (vs_manifest_file_number vs) -> m <> CurrentFileName dbname -> contents o' m = contents o m) /\
    if is_ok s then contents o' (CurrentFileName dbname) = Some (name ++ [10]) /\ current_ vs' = map (map add_ref) files /\ counters_fit vs' /\
      exists log es, descriptor_log_ vs' = Some log /\ length es = 2%nat /\ at_edits es vs' /\ manifest_log log es
    else contents o' (CurrentFileName dbname) = contents o (CurrentFileName dbname) /\ current_ vs' = current_ vs /\ descriptor_log_ vs' = None.
Proof.
  intros Hst Hname Hfit Hdesc Hnum [He Hfe Hne Hle Hfresh Hleaves] name. unfold LdbVersionSet.LogAndApply.
  destruct (numbered_edit_ok vs e He Hfit Hle) as (e' & -> & Hnu). cbn [rbind]. destruct (numbered_same (valid := valid) (cmp := cmp) comparator_name vs e e' Hnu) as (Ec & Hfe' & Hl' & Hne'). specialize (Hfe' Hfe). specialize (Hl' _ _ Hleaves). specialize (Hne' Hne). rewrite <- Ec in Hfresh.
  destruct (apply_ok (current_ vs) (compact_pointer_ vs) e' files (st_fine _ _ Hst) (st_length _ _ Hst) Hfe' Hfresh Hl') as (levels & -> & Hsave). cbn [rbind]. rewrite Hsave. cbn [rbind].
  set (vs1 := with_pointers vs (pointers_after (compact_pointer_ vs) [e'])). change (descriptor_log_ vs1) with (descriptor_log_ vs). rewrite Hdesc.
  assert (storable (current_ vs1) (compact_pointer_ vs1)) as Hst1 by (apply stored_pointers; [done|apply (nu_ok _ _ _ Hnu)|done]). destruct (snapshot_ok vs1 Hst1 Hname) as (Hsok & Hsf & Hsn & (f1 & Hsl & Hss) & Hsp & Hsu).
  destruct (create_manifest_ok vs1 o Hst1 Hname Hdesc ltac:(apply Hnum)) as (s1 & vs2 & o1 & -> & Ho1 & d & -> & Hd). cbn [rbind].
  change (vs_manifest_file_number vs1) with (vs_manifest_file_number vs) in *. fold name in Ho1 |- *. set (path := dbname ++ bytes_of "/" ++ name) in *. set (tmp := dbname ++ bytes_of "/" ++ temp_base (vs_manifest_file_number vs)).
  assert (path <> CurrentFileName dbname) as Hpc by (by apply base_names). assert (forall x m, m <> path -> contents (snd (env_DeleteFile path x)) m = contents x m) as Hrm by (intros; by apply remove_file).
  set (snap := snapshot_edit comparator_name vs1) in *.
  assert (exists s2 d2, (if is_ok s1 then log_edit Extend e' (with_descriptor vs1 d) else Ret (s1, with_descriptor vs1 d)) = Ret (s2, with_descriptor vs1 d2) /\
    (is_ok s2 = true -> exists log, d2 = Some log /\ manifest_log log [snap; e'])) as (s2 & d2 & -> & H2).
  { destruct (is_ok s1) eqn:E1; [|exists s1, d; by rewrite E1]. destruct Hd as (log & -> & Hlog). destruct (log_edit_ok (Value := Value) (with_descriptor vs1 (Some log)) log [snap] e' eq_refl Hlog (nu_ok _ _ _ Hnu)) as (s2 & log2 & -> & _ & Hm).
    exists s2, (Some log2). split; [done|]. intros Es. exists log2. split; [done|]. by apply Hm. }
  cbn [rbind].
  assert (exists s3 o3, (if is_ok s2 then SetCurrentFile dbname (vs_manifest_file_number (with_descriptor vs1 d2)) o1 else Ret (s2, o1)) = Ret (s3, o3) /\
    (forall m, m <> tmp -> m <> CurrentFileName dbname -> contents o3 m = contents o1 m) /\ (is_ok s3 = true -> is_ok s2 = true) /\
    contents o3 (CurrentFileName dbname) = if is_ok s3 then Some (name ++ [10]) else contents o1 (CurrentFileName dbname)) as (s3 & o3 & -> & Ho3 & H3 & Hc3).
  { destruct (is_ok s2) eqn:E2; [|exists s2, o1; by rewrite E2]. destruct (SetCurrentFile_ok dbname (vs_manifest_file_number vs) o1 Hnum) as (s3 & o3 & E & Ho & Hc). exists s3, o3. by split_and!. }
  cbn [rbind]. destruct (is_ok s3) eqn:E3.
  - destruct (H2 (H3 eq_refl)) as (log & -> & Hlog). eexists s3, _, o3. split; [done|]. split; [intros m Hm1 Hm2 Hm3; rewrite Ho3, Ho1 by done; done|]. rewrite E3. split; [done|]. split; [done|].
    pose proof (nu_ok _ _ _ Hnu) as [_ Hokl Hokp _ _ _ _ _]. destruct (nu_has _ _ _ Hnu) as [Hh1 Hh2]. pose proof Hh1 as Hh. unfold has_numbers in Hh. unfold number_ok in *.
    destruct (leaves_step empty_version [snap] (current_ vs) e' f1 files empty_fine Hsf Hsl Hss Hfe') as (Hf2 & f2 & Hl2 & Hs2); [|done|].
    { eapply fresh_fewer; [apply Hfe'| |exact Hfresh]. intros level n Hr. rewrite empty_level. by apply Hsu. }
    split; [destruct Hfit as (? & ? & _); split_and!; cbn; [done|done|by destruct (has_log_number_ e')|by rewrite Hh2 in Hokp]|]. exists log, [snap; e']. split; [done|]. split; [done|]. split; [|done].
    split; cbn [current_ compact_pointer_ vs_log_number vs_prev_log_number].
    + exists f2. split; [done|]. unfold same_version in *. by rewrite same_refs, Hs2.
    + change (pointers_after empty_pointers [snap; e']) with (pointers_after (pointers_after empty_pointers [snap]) [e']). rewrite <- Hsp. unfold vs1, pointers_after. cbn [foldl compact_pointer_ with_pointers with_descriptor]. symmetry. apply set_pointers_twice.
    + done.
    + by repeat constructor.
    + right. by left.
    + cbn. unfold latest. by destruct (has_log_number_ e').
    + cbn. unfold latest. by rewrite Hh2.
  - eexists s3, _, _. split; [done|]. rewrite E3. assert (forall m, m <> path -> contents (match descriptor_log_ (with_descriptor vs1 d2) with Some log => delete_descriptor path (dest_ log) o3 | None => o3 end) m = contents o3 m) as Hdel.
    { intros m Hm. cbn [descriptor_log_ with_descriptor]. destruct d2 as [log|]; [|reflexivity]. by apply (delete_detached (Detached := DT)). }
    split; [intros m Hm1 Hm2 Hm3; rewrite Hrm, Hdel, Ho3, Ho1 by done; done|]. split; [|by split]. rewrite Hrm, Hdel, Hc3, Ho1 by done. done.
Qed.

(** *** A set that was recovered can be stored *)

Lemma changed_stored level cs : forall files, Forall file_stored files -> Forall (fun c => match c with Remove _ _ => True | LdbVersionBuilder.Insert _ f => file_stored f end) cs -> Forall file_stored (changed_all level files cs).
Proof.
  induction cs as [|c cs IH]; intros files Hf Hc; [done|]. apply Forall_cons in Hc as [Hx Hc]. apply IH; [|done]. unfold changed_files. destruct (_ =? _); [|done]. destruct c as [l n|l f].
  - apply Forall_forall. intros g Hg%list_elem_of_In. apply filter_In in Hg as [Hg _]. rewrite Forall_forall in Hf. apply Hf. by apply list_elem_of_In.
  - apply Forall_app. by split; [|constructor].
Qed.

Lemma edits_stored es vs : holds_edits (F := F) (valid := valid) (cmp := cmp) es vs -> edits_fine (valid := valid) empty_version es -> Forall edit_ok es -> storable (current_ vs) (compact_pointer_ vs).
Proof.
  intros ((files & Hl & Hc) & Hp & _) Hf He. pose proof Hf as [Hef _]. destruct (leaves_fine empty_version es files empty_fine Hf Hl) as [Hfine _]. rewrite <- Hc in Hfine. pose proof Hl as [Hlen Hlev]. split; [done| | | |].
  - intros level Hr. destruct (Hlev level Hr) as (_ & _ & Hap). eapply facts_apart; [|exact Hap]. rewrite Hc. symmetry. apply (same_level _ _ level), same_refs.
  - rewrite Hc. apply Forall_map, Forall_forall. intros l [i Hi]%list_elem_of_lookup. apply Forall_map. assert (0 <= Z.of_nat i < kNumLevels) as Hr by (apply lookup_lt_Some in Hi; rewrite Hlen in Hi; unfold kNumLevels in *; lia).
    destruct (Hlev _ Hr) as (_ & Hperm & _). rewrite (level_of_at _ _ _ Hi), empty_level in Hperm. rewrite Hperm. apply (changed_stored (Z.of_nat i)); [constructor|].
    unfold all_changes. apply Forall_concat, Forall_map. eapply Forall_impl; [exact He|]. intros e Hok. unfold changes. apply Forall_app. split; apply Forall_map; [by apply Forall_forall|].
    eapply Forall_impl; [exact (ok_files _ Hok)|]. intros p (_ & H1 & H2 & H3 & H4 & _). by split_and!.
  - rewrite Hp. apply pointers_length.
  - rewrite Hp. assert (Forall (fun p => p = [] \/ key_ok p /\ internal_valid valid p) empty_pointers) as H0 by (apply Forall_forall; intros p Hin; left; apply list_elem_of_In, repeat_spec in Hin; done).
    revert H0. generalize empty_pointers. clear - He Hef. unfold pointers_after. induction es as [|e es IH]; intros ptrs Hptr; [done|]. apply Forall_cons in He as [Ho He]. apply Forall_cons in Hef as [Hf Hef]. cbn [foldl]. apply IH; [done|done|].
    assert (Forall (fun p => pointer_ok p /\ internal_valid valid (snd p)) (compact_pointers_ e)) as Hc. { pose proof (ok_pointers _ Ho) as H1. destruct Hf as [_ H2]. rewrite Forall_forall in *. intros p Hin. split; [by apply H1|by apply H2]. }
    revert ptrs Hptr. clear - Hc. induction Hc as [|p l [[_ Hk] Hv] _ IH]; intros ptrs Hptr; [done|]. cbn [foldl]. apply IH, Forall_insert; [done|]. by right.
Qed.

(** ** Theorem *)

(** C5. The first edit that a set logs goes to a new manifest, behind a snapshot.  When
    [LogAndApply] succeeds, CURRENT names the new manifest and recovering from it gives
    the new version, and a set of which the same holds; when it fails, CURRENT and the version are as before.  But for the
    new manifest, a temporary file and CURRENT no file is touched.  Reads of files are
    taken to be without errors ([LawfulSequential]). *)
Theorem new_manifest (NewAppendableFile : list Z -> O -> Status * option F * O) (GetFileSize : list Z -> O -> Status * Z) (max_file_size : Z) (reuse_logs : bool) vs e files o :
  storable (current_ vs) (compact_pointer_ vs) -> is_slice comparator_name -> counters_fit vs -> descriptor_log_ vs = None ->
  0 < vs_manifest_file_number vs < 2 ^ 64 -> applicable vs (fun level => map number (level_of (current_ vs) level)) e files ->
  let name := manifest_base (vs_manifest_file_number vs) in
  exists s vs' o', LogAndApply vs e o = Ret (s, vs', o') /\
    (forall m, m <> dbname ++ bytes_of "/" ++ name -> m <> dbname ++ bytes_of "/" ++ temp_base (vs_manifest_file_number vs) -> m <> CurrentFileName dbname -> contents o' m = contents o m) /\
    if is_ok s then contents o' (CurrentFileName dbname) = Some (name ++ [10]) /\ current_ vs' = map (map add_ref) files /\
      exists log, descriptor_log_ vs' = Some log /\ forall o2 n fuel, contents o2 (CurrentFileName dbname) = contents o' (CurrentFileName dbname) ->
        contents o2 (dbname ++ bytes_of "/" ++ name) = Some (delivered (dest_ log)) -> (2 < n)%nat -> (length (delivered (dest_ log)) < fuel)%nat -> (length name + 2 < fuel)%nat ->
        exists s2 save (vs2 : VersionSet F) o3, Recover NewAppendableFile GetFileSize Value user comparator_name dbname max_file_size reuse_logs n fuel new_version_set o2 = Ret (s2, save, vs2, o3) /\
          is_ok s2 = is_ok (fst (NewSequentialFile (CurrentFileName dbname) o2)) && is_ok (fst (NewSequentialFile (dbname ++ bytes_of "/" ++ name) o2)) /\
          (is_ok s2 = true -> same_version (current_ vs2) (current_ vs') /\ compact_pointer_ vs2 = compact_pointer_ vs' /\ vs_log_number vs2 = vs_log_number vs' /\ storable (current_ vs2) (compact_pointer_ vs2))
    else contents o' (CurrentFileName dbname) = contents o (CurrentFileName dbname) /\ current_ vs' = current_ vs /\ descriptor_log_ vs' = None.
Proof.
  intros Hst Hname Hfit Hdesc Hnum Hap name. destruct (LogAndApply_new vs e files o Hst Hname Hfit Hdesc Hnum Hap) as (s & vs' & o' & E & Ho & H). exists s, vs', o'. split; [done|]. split; [done|].
  destruct (is_ok s); [|done]. destruct H as (Hcur & Hver & _ & log & es & Hd & Hlen & Hat & Hm). split; [done|]. split; [done|]. exists log. split; [done|]. intros o2 n fuel Hc2 Hm2 Hn Hfb Hfn. rewrite Hcur in Hc2.
  destruct (Recover_logged NewAppendableFile GetFileSize comparator_name dbname max_file_size reuse_logs vs' es log o2 name n fuel Hat Hm Hc2 Hm2) as (s2 & save & vs2 & o3 & E2 & Hs2 & H2); [by rewrite Hlen|done|done|].
  exists s2, save, vs2, o3. split; [done|]. split; [done|]. intros Hok. destruct (H2 Hok) as (Hh & ? & ? & ? & _). split_and!; [done..|]. apply (edits_stored es); [done|apply Hat|]. destruct Hm as (rs & Henc & _). clear - Henc. induction Henc as [|x r l rs [Hx _] _ IH]; by constructor.
Qed.

End Snapshot.
