(* ===== verification/LdbDbFiles.v ===== *)
(** * LevelDB: the files of a database (NewDB and DeleteObsoleteFiles in db/db_impl.cc)

    A new database has a manifest with one edit.  Files that nothing needs any more are
    deleted, and no others. *)
From S2P Require Import Prelude WireSpec.
From S2P Require Import LdbCoding LdbCrc32c LdbStatus LdbEnvPosix LdbLogWriter LdbLogReader LdbOrder LdbKeys LdbRecovery LdbVersionEdit LdbVersion LdbVersionBuilder LdbFilename LdbVersionSet LdbManifest LdbSnapshot.
From Stdlib Require Import ZArith Lia.
From stdpp Require Import base tactics numbers list strings sorting gmap.
#[local] Open Scope Z_scope.

(** ** Definitions *)

Section DBImpl.
Context {O F F0 R T : Type} {W : WritableFile F} {W0 : WritableFile F0} {SR : SequentialFile R} {env : Env O F0 R}.
Context (detach : F0 -> F * O) (delete_descriptor : list Z -> F -> O -> O) (Value : list Z -> Z) (Extend : Z -> list Z -> Z).
Context (GetChildren : list Z -> O -> list (list Z)) (Evict : Z -> T -> T) (comparator_name dbname : list Z).

Definition new_db : VersionEdit := SetLastSequence (SetNextFile (SetLogNumber (SetComparatorName new_edit comparator_name) 0) 2) 0.

Definition NewDB (e : O) : res (Status * O) :=
  let! manifest := DescriptorFileName dbname 1 in
  match NewWritableFile manifest e with
  | (s, inl e) => Ret (s, e)
  | (s, inr file) =>
      let (file, e) := detach file in
      let! record := edit_EncodeTo new_db [] in
      let! (s, log) := AddRecord Extend (new_writer Value file) record in
      let! (s, file) := if is_ok s then Close (dest_ log) else Ret (s, dest_ log) in
      let e := delete_descriptor manifest file e in
      if is_ok s then SetCurrentFile dbname 1 e else Ret (s, snd (env_DeleteFile manifest e))
  end.

(** The versions that are in use, with their files. *)
Definition AddLiveFiles (versions : list (list (list FileMetaData))) (live : gset Z) : gset Z :=
  foldl (fun live v => foldl (fun live files => foldl (fun live f => {[number f]} ∪ live) live files) live v) live versions.

Definition keep_file (vs : VersionSet F) (live : gset Z) (number : Z) (type : FileType) : bool :=
  match type with
  | kLogFile => (number >=? vs_log_number vs) || (number =? vs_prev_log_number vs)
  | kDescriptorFile => number >=? vs_manifest_file_number vs
  | kTableFile | kTempFile => bool_decide (number ∈ live)
  | kCurrentFile | kDBLockFile | kInfoLogFile => true
  end.

(** The table cache and the file system. *)
Fixpoint delete_obsolete (vs : VersionSet F) (live : gset Z) (filenames : list (list Z)) (st : T * O) : T * O :=
  match filenames with
  | [] => st
  | name :: filenames =>
      let st :=
        match ParseFileName name with
        | Some (number, type) =>
            if negb (keep_file vs live number type) then
              let (t, e) := st in
              (match type with kTableFile => Evict number t | _ => t end, snd (env_DeleteFile (dbname ++ bytes_of "/" ++ name) e))
            else st
        | None => st
        end in
      delete_obsolete vs live filenames st
  end.

(** [pending_outputs_] is a set of numbers. *)
Definition DeleteObsoleteFiles (bg_error_ : Status) (pending_outputs_ : gset Z) (versions : list (list (list FileMetaData))) (vs : VersionSet F) (st : T * O) : T * O :=
  if negb (is_ok bg_error_) then st
  else delete_obsolete vs (AddLiveFiles versions pending_outputs_) (GetChildren dbname (snd st)) st.

End DBImpl.

(** ** A new database *)

Section NewDB.
Context {F : Type} {W : WritableFile F} {usable : F -> Prop}.
Context {written delivered : F -> list Z} {failed dirty : F -> bool}.
Context {FS : FailStop F usable written delivered failed dirty} {HS : HarmlessSync F usable written delivered failed}.
Context {O F0 R : Type} {W0 : WritableFile F0} {SR : SequentialFile R} {env : Env O F0 R} {unread : R -> list Z}.
Context {contents : O -> list Z -> option (list Z)} {named written0 : F0 -> list Z} {around : F0 -> list Z -> option (list Z)}.
Context {lawful : LawfulEnv O F0 R unread contents named written0 around}.
Context {Value : list Z -> Z} {Extend : Z -> list Z -> Z} {C : Checksum Value Extend}.
Context {user : Comparator} {valid : list Z -> Prop} {cmp : list Z -> list Z -> Z} {laws : ComparatorLaws user valid cmp}.
Context {detach : F0 -> F * O} {delete_descriptor : list Z -> F -> O -> O} {DT : Detached usable written delivered failed contents named written0 around detach delete_descriptor}.
Context (NewAppendableFile : list Z -> O -> Status * option F * O) (GetFileSize : list Z -> O -> Status * Z) (max_file_size : Z) (reuse_logs : bool).
Context (comparator_name dbname : list Z).
Abbreviation NewDB := (NewDB detach delete_descriptor Value Extend comparator_name dbname).
Abbreviation Recover := (Recover NewAppendableFile GetFileSize Value user comparator_name dbname max_file_size reuse_logs).

Lemma new_db_ok : is_slice comparator_name -> edit_ok (new_db comparator_name) /\ has_numbers (new_db comparator_name) = true.
Proof. intros Hn. split; [|done]. split; try done. by split; constructor. Qed.

Lemma empty_leaves : leaves (valid := valid) (cmp := cmp) empty_version [new_db comparator_name] empty_version.
Proof. split; [done|]. intros level Hr. rewrite empty_level. split; [apply sorted_nil|]. split; [done|]. intros _. constructor. Qed.

Lemma NewDB_ok o : is_slice comparator_name -> let name := manifest_base 1 in
  exists s o', NewDB o = Ret (s, o') /\
    (forall m, m <> dbname ++ bytes_of "/" ++ name -> m <> dbname ++ bytes_of "/" ++ temp_base 1 -> m <> CurrentFileName dbname -> contents o' m = contents o m) /\
    if is_ok s then contents o' (CurrentFileName dbname) = Some (name ++ [10]) /\
      exists bytes, contents o' (dbname ++ bytes_of "/" ++ name) = Some bytes /\ manifest_left (Value := Value) bytes [new_db comparator_name] 1
    else contents o' (CurrentFileName dbname) = contents o (CurrentFileName dbname).
Proof.
  intros Hname name. unfold LdbDbFiles.NewDB. rewrite descriptor_file_name by done. cbn [rbind]. fold name. set (path := dbname ++ bytes_of "/" ++ name).
  assert (path <> CurrentFileName dbname) as Hpc by (by apply base_names). pose proof (new_writable_file path o) as Hnew. destruct (NewWritableFile path o) as [s [o1|f]].
  - destruct Hnew as [Hs Ho]. exists s, o1. split; [done|]. split; [intros m Hm _ _; by apply Ho|]. rewrite Hs. by apply Ho.
  - destruct Hnew as (_ & Hn & Hw & Ha). destruct (detach_new (Detached := DT) f Hw) as (d & o1 & -> & Hu & Hf & Hwd & Hdd & Ho).
    assert (forall m, m <> path -> contents o1 m = contents o m) as Ho1 by (intros m Hm; rewrite Ho, Ha by congruence; done).
    destruct (new_db_ok Hname) as [Hok _]. destruct (encode_edit _ Hok) as (r & -> & Hre & Hb). cbn [rbind].
    destruct (AddRecord_records (Value := Value) (Extend := Extend) (new_writer Value d) [] r) as (s1 & log & -> & H); [|done|].
    { split_and!; cbn; [split; [by split|done]|done|done|by rewrite Hwd|]. rewrite Hwd. constructor. }
    cbn [rbind]. assert (exists s2 d2, (if is_ok s1 then Close (dest_ log) else Ret (s1, dest_ log)) = Ret (s2, d2) /\
      (is_ok s2 = true -> exists bytes, (forall n o, contents (delete_descriptor n d2 o) n = Some bytes) /\ manifest_left (Value := Value) bytes [new_db comparator_name] 1)) as (s2 & d2 & -> & H2).
    { destruct (is_ok s1) eqn:E1; [|exists s1, (dest_ log); split; [done|congruence]]. pose proof H as (_ & Hu2 & Hf2 & Hd2 & _). destruct (close_detached (Detached := DT) (dest_ log) Hu2) as (s2 & d2 & -> & Hc).
      exists s2, d2. split; [done|]. intros E2. exists (written (dest_ log)). split; [by apply Hc|]. rewrite <- Hd2. exists [r]. split; [by constructor|]. exact (holds_records_left (usable := usable) (written := written) (failed := failed) log [r] H). }
    cbn [rbind]. assert (forall m, m <> path -> contents (delete_descriptor path d2 o1) m = contents o m) as Hdel by (intros m Hm; rewrite (delete_detached (Detached := DT)) by done; by apply Ho1).
    destruct (is_ok s2) eqn:E2.
    + destruct (H2 eq_refl) as (bytes & Hbytes & Hleft). destruct (SetCurrentFile_ok dbname 1 (delete_descriptor path d2 o1) ltac:(lia)) as (s3 & o3 & -> & Ho3 & Hc3). exists s3, o3. split; [done|]. split; [intros m Hm1 Hm2 Hm3; rewrite Ho3 by done; by apply Hdel|].
      rewrite Hc3. destruct (is_ok s3); [|by apply Hdel]. split; [done|]. exists bytes. split; [|done]. rewrite Ho3; [apply Hbytes| |done]. intros E. apply app_inv_head in E. unfold name, manifest_base, temp_base in E.
      destruct (padded_ok 1 ltac:(lia)) as (Hd & Hne & _). destruct (padded 1) as [|c l]; [done|]. apply Forall_cons in Hd as [Hc _]. injection E as E _. lia.
    + exists s2. eexists. split; [done|]. rewrite E2. assert (forall x m, m <> path -> contents (snd (env_DeleteFile path x)) m = contents x m) as Hrm by (intros; by apply remove_file).
      split; [intros m Hm1 Hm2 Hm3|]; rewrite Hrm by done; by apply Hdel.
Qed.

(** ** Theorems *)

(** C8. A new database: when [NewDB] succeeds, CURRENT names its manifest, which can be
    recovered and gives no files; otherwise CURRENT is as before.  No other file is
    touched.  Reads of files are taken to be without errors ([LawfulSequential]). *)
Theorem new_database o : is_slice comparator_name -> let name := manifest_base 1 in
  exists s o', NewDB o = Ret (s, o') /\
    (forall m, m <> dbname ++ bytes_of "/" ++ name -> m <> dbname ++ bytes_of "/" ++ temp_base 1 -> m <> CurrentFileName dbname -> contents o' m = contents o m) /\
    if is_ok s then exists bytes, contents o' (dbname ++ bytes_of "/" ++ name) = Some bytes /\ forall n fuel, (1 < n)%nat -> (length bytes < fuel)%nat -> (length name + 2 < fuel)%nat ->
      exists s2 save (vs : VersionSet F) o2, Recover n fuel new_version_set o' = Ret (s2, save, vs, o2) /\
        is_ok s2 = is_ok (fst (NewSequentialFile (CurrentFileName dbname) o')) && is_ok (fst (NewSequentialFile (dbname ++ bytes_of "/" ++ name) o')) /\
        (is_ok s2 = true -> current_ vs = empty_version /\ vs_last_sequence vs = 0 /\ vs_log_number vs = 0 /\ vs_next_file_number vs = 3)
    else contents o' (CurrentFileName dbname) = contents o (CurrentFileName dbname).
Proof.
  intros Hname name. destruct (NewDB_ok o Hname) as (s & o' & E & Ho & H). exists s, o'. split; [done|]. split; [done|]. destruct (is_ok s); [|done]. destruct H as (Hcur & bytes & Hman & Hleft). exists bytes. split; [done|]. intros n fuel Hn Hfb Hfn.
  destruct (new_db_ok Hname) as [_ Hnum].
  destruct (Recover_left NewAppendableFile GetFileSize comparator_name dbname max_file_size reuse_logs o' name bytes [new_db comparator_name] 1 n fuel Hcur Hman Hleft) as (k & s2 & save & vs & o2 & Hk & E2 & Hs2 & Hh).
  - by constructor; [|constructor].
  - split; [by constructor; [split; constructor|constructor]|done].
  - by left.
  - intros k Hk. cbn in Hk. replace k with 1%nat by lia. exists empty_version. apply empty_leaves.
  - cbn. lia.
  - done.
  - done.
  - exists s2, save, vs, o2. split; [done|]. split; [done|]. intros Hok. specialize (Hh Hok). cbn in Hk. replace k with 1%nat in Hh by lia. destruct Hh as ((files & Hl & Hc) & _ & Hlog & _ & Hlast & m & Hnext & Hm).
    rewrite (leaves_unique _ _ _ _ Hl empty_leaves) in Hc. cbn in Hlog, Hlast, Hnext. injection Hlog as <-. injection Hlast as <-. injection Hnext as <-. by rewrite Hc.
Qed.

End NewDB.

Section Obsolete.
Context {F O F0 R T : Type} {W0 : WritableFile F0} {SR : SequentialFile R} {env : Env O F0 R} {unread : R -> list Z}.
Context {contents : O -> list Z -> option (list Z)} {named written0 : F0 -> list Z} {around : F0 -> list Z -> option (list Z)}.
Context {lawful : LawfulEnv O F0 R unread contents named written0 around}.
Context (GetChildren : list Z -> O -> list (list Z)) (Evict : Z -> T -> T) (dbname : list Z).

(** ** Obsolete files *)

Lemma live_in versions : forall live : gset Z, (forall n : Z, n ∈ live -> n ∈ AddLiveFiles versions live) /\ (forall v files f, v ∈ versions -> files ∈ v -> f ∈ files -> number f ∈ AddLiveFiles versions live) /\
  (forall n : Z, n ∈ AddLiveFiles versions live -> n ∈ live \/ exists v files f, v ∈ versions /\ files ∈ v /\ f ∈ files /\ number f = n).
Proof.
  unfold AddLiveFiles.
  assert (forall (files : list FileMetaData) (live : gset Z) (n : Z), n ∈ foldl (fun live f => {[number f]} ∪ live) live files <-> n ∈ live \/ exists f, f ∈ files /\ number f = n) as H1.
  { induction files as [|f files IH]; intros live n; cbn [foldl]; [split; [by left|intros [|(f & Hf & _)]; [done|by apply elem_of_nil in Hf]]|]. rewrite IH, elem_of_union, elem_of_singleton. setoid_rewrite elem_of_cons. naive_solver. }
  assert (forall (v : list (list FileMetaData)) (live : gset Z) (n : Z), n ∈ foldl (fun live files => foldl (fun live f => {[number f]} ∪ live) live files) live v <-> n ∈ live \/ exists files f, files ∈ v /\ f ∈ files /\ number f = n) as H2.
  { induction v as [|files v IH]; intros live n; cbn [foldl]; [split; [by left|intros [|(fs & f & Hf & _)]; [done|by apply elem_of_nil in Hf]]|]. rewrite IH, H1. setoid_rewrite elem_of_cons. naive_solver. }
  assert (forall (live : gset Z) (n : Z), n ∈ foldl (fun live v => foldl (fun live files => foldl (fun live f => {[number f]} ∪ live) live files) live v) live versions <-> n ∈ live \/ exists v files f, v ∈ versions /\ files ∈ v /\ f ∈ files /\ number f = n) as H3.
  { clear H1. induction versions as [|v versions IH]; intros live n; cbn [foldl]; [split; [by left|intros [|(v & fs & f & Hf & _)]; [done|by apply elem_of_nil in Hf]]|]. rewrite IH, H2. setoid_rewrite elem_of_cons. naive_solver. }
  intros live. setoid_rewrite H3. split_and!; [by left|intros v files f Hv Hf Hin; right; by exists v, files, f|done].
Qed.

Lemma delete_obsolete_keeps (vs : VersionSet F) live names x : forall st,
  (forall name number type, x = dbname ++ bytes_of "/" ++ name -> ParseFileName name = Some (number, type) -> keep_file (F := F) vs live number type = true) ->
  contents (snd (delete_obsolete Evict dbname vs live names st)) x = contents (snd st) x.
Proof.
  induction names as [|name names IH]; intros st Hx; [done|]. cbn [delete_obsolete]. rewrite IH by done. destruct (ParseFileName name) as [[num type]|] eqn:Ep; [|done]. destruct (keep_file vs live num type) eqn:Ek; [done|]. cbn [negb]. destruct st as [t e]. cbn [snd].
  apply remove_file. intros ->. by rewrite (Hx name num type) in Ek.
Qed.

Lemma delete_obsolete_tables (vs : VersionSet F) live names : forall st, exists ns, fst (delete_obsolete Evict dbname vs live names st) = foldl (fun t n => Evict n t) (fst st) ns /\ Forall (fun n => n ∉ live) ns.
Proof.
  induction names as [|name names IH]; intros st; [by exists []|]. cbn [delete_obsolete]. destruct (ParseFileName name) as [[num type]|] eqn:Ep; [|apply IH]. destruct (keep_file vs live num type) eqn:Ek; [apply IH|]. cbn [negb]. destruct st as [t e].
  destruct (IH (match type with kTableFile => Evict num t | _ => t end, snd (env_DeleteFile (dbname ++ bytes_of "/" ++ name) e))) as (ns & -> & Hns). cbn [fst].
  destruct type; try (by exists ns). exists (num :: ns). split; [done|]. constructor; [|done]. cbn [keep_file] in Ek. by apply bool_decide_eq_false in Ek.
Qed.

(** Whether a file of this number and type may still be read. *)
Definition needed (pending : gset Z) (versions : list (list (list FileMetaData))) (vs : VersionSet F) (n : Z) (type : FileType) : Prop :=
  match type with
  | kLogFile => vs_log_number vs <= n \/ n = vs_prev_log_number vs
  | kDescriptorFile => vs_manifest_file_number vs <= n
  | kTableFile | kTempFile => n ∈ pending \/ exists v files f, v ∈ versions /\ files ∈ v /\ f ∈ files /\ number f = n
  | kCurrentFile | kDBLockFile | kInfoLogFile => True
  end.

Lemma keep_needed pending versions vs n type : needed pending versions vs n type <-> keep_file vs (AddLiveFiles versions pending) n type = true.
Proof.
  destruct (live_in versions pending) as (H1 & H2 & H3).
  assert ((n ∈ pending \/ exists v files f, v ∈ versions /\ files ∈ v /\ f ∈ files /\ number f = n) <-> bool_decide (n ∈ AddLiveFiles versions pending) = true) as Hlive.
  { rewrite bool_decide_eq_true. split; [intros [Hn|(v & fs & f & Hv & Hf & Hin & <-)]; [by apply H1|by eapply H2]|apply H3]. }
  destruct type; cbn [needed keep_file]; try done; lia.
Qed.

(** C7. [DeleteObsoleteFiles] leaves every file that may still be read: the tables of the
    versions in use and those being written, the logs not yet in tables, the manifest
    and what it does not know; nor does it drop a table in use from the cache.  After a
    background error it does nothing. *)
Theorem obsolete_files bg_error_ pending versions (vs : VersionSet F) t e :
  let (t', e') := DeleteObsoleteFiles GetChildren Evict dbname bg_error_ pending versions vs (t, e) in
  (forall x, (forall name n type, x = dbname ++ bytes_of "/" ++ name -> ParseFileName name = Some (n, type) -> needed pending versions vs n type) -> contents e' x = contents e x) /\
  (exists ns, t' = foldl (fun t n => Evict n t) t ns /\ Forall (fun n => ~ needed pending versions vs n kTableFile) ns) /\
  (is_ok bg_error_ = false -> t' = t /\ e' = e).
Proof.
  unfold DeleteObsoleteFiles. destruct (is_ok bg_error_); cbn [negb snd]; [|split; [done|]; split; [by exists []|done]].
  pose proof (delete_obsolete_keeps vs (AddLiveFiles versions pending) (GetChildren dbname e)) as H1. destruct (delete_obsolete_tables vs (AddLiveFiles versions pending) (GetChildren dbname e) (t, e)) as (ns & H2 & Hns).
  destruct (delete_obsolete Evict dbname vs (AddLiveFiles versions pending) (GetChildren dbname e) (t, e)) as [t' e'] eqn:E. split; [|split; [|done]].
  - intros x Hx. specialize (H1 x (t, e)). rewrite E in H1. apply H1. intros name n type Ex Ep. apply keep_needed. by eapply Hx.
  - exists ns. split; [done|]. eapply Forall_impl; [exact Hns|]. intros n Hn Hneed. apply Hn. apply keep_needed in Hneed. by apply bool_decide_eq_true in Hneed.
Qed.

End Obsolete.
