(* ===== verification/LdbManifestWitnesses.v ===== *)
(** * LevelDB: concrete instances for names, CURRENT, builders and manifests

    A file system that is a function from names to bytes, and a manifest that is a list
    of bytes apart from it. *)
From S2P Require Import Prelude LdbCoding LdbCrc32c LdbStatus LdbEnvPosix LdbLogWriter LdbLogReader LdbLog LdbOrder LdbKeys LdbMemTable LdbWitnesses.
From S2P Require Import LdbMemWitnesses LdbVersionEdit LdbVersion LdbVersionWitnesses LdbFilename LdbVersionBuilder LdbVersionSet LdbManifest LdbSnapshot LdbDbFiles.
From Stdlib Require Import ZArith Lia.
From stdpp Require Import base tactics numbers list strings sorting gmap.
#[local] Open Scope Z_scope.

Lemma filename_roundtrip_witness : exists name, TableFileName (bytes_of "db") 12 = Ret (bytes_of "db" ++ bytes_of "/" ++ name) /\
  ParseFileName name = Some (12, kTableFile) /\ name = bytes_of "000012.ldb".
Proof.
  destruct (filename_roundtrip (bytes_of "db") 12 ltac:(lia)) as [H _]. rewrite !Forall_cons in H. destruct H as (_ & (name & E & Hp) & _). exists name. split; [exact E|]. split; [exact Hp|].
  cbn [fst] in E. vm_compute in E. injection E as <-. reflexivity.
Defined.

Lemma filename_forms_witness : exists ds suffix, bytes_of "7.sst" = ds ++ bytes_of suffix /\ digits ds /\ value_from 0 ds = 7.
Proof.
  destruct (filename_forms (bytes_of "7.sst") 7 kTableFile ltac:(vm_compute; reflexivity)) as [[H _]|(ds & Hd & _ & Hv & _ & [[_ H]|(suffix & E & _)])]; [discriminate|discriminate|].
  exists ds, suffix. split; [exact E|]. split; [exact Hd|exact Hv].
Defined.

(** ** A file system *)

Definition files : Type := list Z -> option (list Z).
Definition set_file (fs : files) (n : list Z) (c : option (list Z)) : files := fun m => if bool_decide (m = n) then c else fs m.

(** An open file: the others, its name, and what it holds. *)
Definition open_file : Type := files * list Z * list Z.

#[export] Instance open_writable : WritableFile open_file := {|
  Append := fun '(fs, n, c) data => Ret (status_ok, (fs, n, c ++ data));
  Close := fun f => Ret (status_ok, f);
  Flush := fun f => Ret (status_ok, f);
  Sync := fun f => Ret (status_ok, f);
|}.

#[export] Instance files_env : Env files open_file (list Z) := {|
  NewWritableFile := fun n fs => (status_ok, inr (fs, n, []));
  delete_writable := fun '(fs, n, c) => set_file fs n (Some c);
  NewSequentialFile := fun n fs => match fs n with Some c => (status_ok, Some c) | None => (NotFound n [], None) end;
  env_DeleteFile := fun n fs => (status_ok, set_file fs n None);
  RenameFile := fun a b fs => (status_ok, set_file (set_file fs a None) b (fs a));
|}.

#[export] Instance files_lawful : LawfulEnv files open_file (list Z) (fun r => r) (fun fs => fs) (fun f => snd (fst f)) (fun f => snd f) (fun f => fst (fst f)).
Proof.
  split.
  - intros n e. by split_and!.
  - intros [[fs n] c] data. do 2 eexists. by split_and!.
  - intros f. do 2 eexists. by split_and!.
  - intros [[fs n] c]. do 2 eexists. split; [done|]. cbn. unfold set_file. split_and!; [done..|]. by rewrite bool_decide_true.
  - intros [[fs n] c] m Hm. cbn in *. unfold set_file. by rewrite bool_decide_false.
  - intros n e m Hm. cbn. unfold set_file. by rewrite bool_decide_false.
  - intros a b e. cbn. unfold set_file. rewrite bool_decide_true by done. split; [done|]. intros m Ha Hb. by rewrite !bool_decide_false.
  - intros n e. cbn. by destruct (e n).
  - apply bytes_lawful.
Qed.

Lemma set_current_witness : exists s e, SetCurrentFile (bytes_of "db") 5 ((fun _ => None) : files) = Ret (s, e) /\ e (bytes_of "db/CURRENT") = Some (bytes_of "MANIFEST-000005" ++ [10]).
Proof.
  destruct (set_current (contents := fun fs => fs) (bytes_of "db") 5 ((fun _ => None) : files) 0 ltac:(lia)) as (s & e & tmp & E & _ & _ & H). exists s, e. split; [exact E|].
  assert (is_ok s = true) as Es by (vm_compute in E; injection E as <- _; reflexivity). rewrite Es in H. vm_compute in E. injection E as <- <-. vm_compute. reflexivity.
Defined.

#[local] Instance crc_files : Checksum (Value_at 0) (Extend_at 0) := crc32c_checksum (fun _ => 0) at_0.
#[local] Instance bytes_user : ComparatorLaws BytewiseComparator (Forall is_byte) slice_compare := bytewise_laws.

(** ** The descriptor file *)

Definition descriptor : Type := list Z.

#[local] Instance descriptor_writable : WritableFile descriptor := {|
  Append := fun f data => Ret (status_ok, f ++ data);
  Close := fun f => Ret (status_ok, f);
  Flush := fun f => Ret (status_ok, f);
  Sync := fun f => Ret (status_ok, f);
|}.

#[local] Instance descriptor_fail_stop : FailStop descriptor (fun _ => True) (fun f => f) (fun f => f) (fun _ => false) (fun _ => false).
Proof.
  split.
  - intros f data _. do 2 eexists. split; [done|]. split; [done|]. split; [by exists data|]. by split.
  - intros f _. do 2 eexists. split; [done|]. split; [done|]. split; [done|]. by split.
  - done.
Qed.

#[local] Instance descriptor_sync : HarmlessSync descriptor (fun _ => True) (fun f => f) (fun f => f) (fun _ => false).
Proof. split. intros f _ _ _. do 2 eexists. by split_and!. Qed.

Definition detach_file (f : open_file) : descriptor * files := let '(fs, n, c) := f in (c, fs).
Definition delete_file_of (n : list Z) (d : descriptor) (fs : files) : files := set_file fs n (Some d).

#[local] Instance files_detached : Detached (fun _ : descriptor => True) (fun f => f) (fun f => f) (fun _ => false) (fun fs : files => fs) (fun f => snd (fst f)) (fun f => snd f) (fun f => fst (fst f)) detach_file delete_file_of.
Proof.
  split.
  - intros [[fs n] c] Hc. cbn in Hc. subst c. do 2 eexists. split; [done|]. by split_and!.
  - intros n d o m Hm. unfold delete_file_of, set_file. by rewrite bool_decide_false.
  - intros d _. do 2 eexists. split; [done|]. intros _ _ _ n o. unfold delete_file_of, set_file. by rewrite bool_decide_true.
Qed.

(** ** A builder *)

(** A file in every edit; the second edit moves the first one's to level 2. *)
Definition move1 : VersionEdit := AddFile new_edit 1 5 100 (ikey_of 97 2) (ikey_of 98 1).
Definition move2 : VersionEdit := AddFile (DeleteFile (AddFile new_edit 2 5 100 (ikey_of 97 2) (ikey_of 98 1)) 1 5) 1 6 40 (ikey_of 99 4) (ikey_of 99 3).
Definition file5 : FileMetaData := allocate_file (new_file 5 100 (ikey_of 97 2) (ikey_of 98 1)).
Definition file6 : FileMetaData := allocate_file (new_file 6 40 (ikey_of 99 4) (ikey_of 99 3)).

Lemma ikey_valid u s : Forall is_byte [u] -> is_sequence s -> internal_valid (Forall is_byte) (ikey_of u s).
Proof. intros Hu Hs. by apply internal_valid_put. Qed.

Ltac ikey := apply ikey_valid; [concrete|apply sequence_small; lia].

Lemma move1_fine : edit_fine (valid := Forall is_byte) move1.
Proof. split; [|constructor]. constructor; [|constructor]. split; [done|]. split; ikey. Qed.

Lemma move2_fine : edit_fine (valid := Forall is_byte) move2.
Proof. split; [|constructor]. constructor; [by split|]. constructor; [split; [done|]; split; ikey|]. constructor; [split; [done|]; split; ikey|]. constructor. Qed.

(** The levels of a version, one by one. *)
Ltac each_level :=
  let level := fresh "level" in let Hr := fresh in
  intros level Hr; assert (level = 0 \/ level = 1 \/ level = 2 \/ level = 3 \/ level = 4 \/ level = 5 \/ level = 6) as [-> |[-> |[-> |[-> |[-> |[-> | ->]]]]]] by (unfold kNumLevels in Hr; lia).

Abbreviation sorted_level := (sorted (file_keys (valid := Forall is_byte)) (file_order (cmp := slice_compare))).

Lemma one_sorted f : file_keys (valid := Forall is_byte) f -> sorted_level [f].
Proof. intros Hf. apply sorted_cons. split; [done|]. split; [constructor|apply sorted_nil]. Qed.

Lemma file5_keys : file_keys (valid := Forall is_byte) file5.
Proof. split; ikey. Qed.
Lemma file6_keys : file_keys (valid := Forall is_byte) file6.
Proof. split; ikey. Qed.

Lemma moved1 : leaves (valid := Forall is_byte) (cmp := slice_compare) empty_version [move1] [[]; [file5]; []; []; []; []; []].
Proof.
  split; [done|]. each_level; (split; [first [apply sorted_nil|apply one_sorted, file5_keys]|]; split; [apply Permutation_refl'; reflexivity|]; unfold files_apart; intros _; repeat constructor).
Qed.

Lemma moved2 : leaves (valid := Forall is_byte) (cmp := slice_compare) empty_version [move1; move2] [[]; [file6]; [file5]; []; []; []; []].
Proof.
  split; [done|]. each_level; (split; [first [apply sorted_nil|apply one_sorted, file5_keys|apply one_sorted, file6_keys]|]; split; [apply Permutation_refl'; reflexivity|]; unfold files_apart; intros _; repeat constructor).
Qed.

Lemma moves_fine : edits_fine (valid := Forall is_byte) empty_version [move1; move2].
Proof.
  split; [constructor; [exact move1_fine|]; constructor; [exact move2_fine|constructor]|]. repeat split; apply (bool_decide_unpack _); vm_compute; exact I.
Qed.

Lemma builder_correct_witness : exists ptrs v, build_version (user := BytewiseComparator) empty_pointers empty_version [move1; move2] = Ret (ptrs, v) /\ map (map number) v = [[]; [6]; [5]; []; []; []; []].
Proof.
  eexists _, _. split; [exact (builder_correct (valid := Forall is_byte) (cmp := slice_compare) empty_pointers empty_version [move1; move2] _ empty_fine eq_refl moves_fine moved2)|reflexivity].
Defined.

Lemma builder_batches_witness : exists p1 v1 p2 v2 v2', build_version (user := BytewiseComparator) empty_pointers empty_version [move1] = Ret (p1, v1) /\ build_version (user := BytewiseComparator) p1 v1 [move2] = Ret (p2, v2) /\
  build_version (user := BytewiseComparator) empty_pointers empty_version [move1; move2] = Ret (p2, v2') /\ map (map facts) v2 = map (map facts) v2'.
Proof.
  exact (builder_batches (valid := Forall is_byte) (cmp := slice_compare) empty_pointers empty_version [move1] move2 _ _ empty_fine eq_refl moves_fine moved1 moved2).
Defined.

(** ** Manifests *)

Definition bytewise_name : list Z := bytes_of "leveldb.BytewiseComparator".
Definition appendable : list Z -> files -> Status * option descriptor * files := fun n fs => (NotFound n [], None, fs).
Definition size_of_file (n : list Z) (fs : files) : Status * Z := match fs n with Some c => (status_ok, zlen c) | None => (NotFound n [], 0) end.
Definition no_files : files := fun _ => None.

Abbreviation db := (bytes_of "db").
Abbreviation recover_db := (Recover appendable size_of_file (Value_at 0) BytewiseComparator bytewise_name db 2097152 false).
Abbreviation log_and_apply_db := (LogAndApply detach_file delete_file_of (Value_at 0) (Extend_at 0) BytewiseComparator bytewise_name db).

Lemma name_slice : is_slice bytewise_name.
Proof. split; [bytes|vm_compute; reflexivity]. Qed.

(** The numbers of a set that was recovered from a new database. *)
Definition set2 (log : option (Writer descriptor)) : VersionSet descriptor := mk_vset 9 2 4 0 0 log empty_version empty_pointers.

Lemma set2_fits log : counters_fit (set2 log).
Proof. repeat split; vm_compute; congruence. Qed.

Lemma set2_stored log : storable (valid := Forall is_byte) (cmp := slice_compare) (current_ (set2 log)) (compact_pointer_ (set2 log)).
Proof.
  split; [apply empty_fine| |by repeat constructor|done|by repeat (constructor; [by left|])]. intros level Hr Hl. change (current_ (set2 log)) with empty_version. rewrite empty_level. constructor.
Qed.

Lemma move1_ok : edit_ok move1.
Proof. split; try done; cbn; [by split; constructor|]. constructor; [|constructor]. split; [done|]. split; [done|]. split; [done|]. split; [short_key|]. by split; [short_key|]. Qed.

Lemma move1_applicable log ever : ever 1 = [] -> applicable (valid := Forall is_byte) (cmp := slice_compare) bytewise_name (set2 log) ever move1 [[]; [file5]; []; []; []; []; []].
Proof.
  intros He. split; [exact move1_ok|exact move1_fine|done|done| |exact moved1]. split; [cbn; rewrite He; apply not_elem_of_nil|done].
Qed.

Lemma new_database_witness : exists s o' bytes s2 save (vs : VersionSet descriptor) o2, NewDB detach_file delete_file_of (Value_at 0) (Extend_at 0) bytewise_name db no_files = Ret (s, o') /\
  o' (bytes_of "db/MANIFEST-000001") = Some bytes /\ recover_db 2 200 new_version_set o' = Ret (s2, save, vs, o2) /\ s2 = status_ok /\ current_ vs = empty_version /\ vs_next_file_number vs = 3.
Proof.
  destruct (new_database (contents := fun fs : files => fs) (valid := Forall is_byte) (cmp := slice_compare) (user := BytewiseComparator) (DT := files_detached) appendable size_of_file 2097152 false bytewise_name db no_files name_slice) as (s & o' & E & _ & H).
  assert (is_ok s = true) as Es by (vm_compute in E; injection E as <- _; reflexivity). rewrite Es in H. destruct H as (bytes & Hb & H).
  assert (length bytes < 200)%nat as Hl by (clear H; vm_compute in E; injection E as _ <-; vm_compute in Hb; injection Hb as <-; vm_compute; lia).
  destruct (H 2%nat 200%nat ltac:(lia) Hl ltac:(vm_compute; lia)) as (s2 & save & vs & o2 & E2 & Hs2 & Hok).
  assert (is_ok s2 = true) as Es2 by (clear H Hok; rewrite Hs2; vm_compute in E; injection E as _ <-; reflexivity). destruct (Hok Es2) as (H1 & _ & _ & H2).
  exists s, o', bytes, s2, save, vs, o2. split; [exact E|]. split; [exact Hb|]. split; [exact E2|]. split; [by destruct s2|]. split; [exact H1|exact H2].
Defined.

Lemma new_manifest_witness : exists s vs o' log s2 save (vs2 : VersionSet descriptor) o3, log_and_apply_db (set2 None) move1 no_files = Ret (s, vs, o') /\ o' (bytes_of "db/CURRENT") = Some (bytes_of "MANIFEST-000002" ++ [10]) /\
  descriptor_log_ vs = Some log /\ recover_db 3 500 new_version_set (set_file o' (bytes_of "db/MANIFEST-000002") (Some (dest_ log))) = Ret (s2, save, vs2, o3) /\ map (map number) (current_ vs2) = [[]; [5]; []; []; []; []; []].
Proof.
  destruct (new_manifest (contents := fun fs : files => fs) (valid := Forall is_byte) (cmp := slice_compare) (user := BytewiseComparator) (DT := files_detached) bytewise_name db appendable size_of_file 2097152 false (set2 None) move1 _ no_files
    (set2_stored None) name_slice (set2_fits None) eq_refl ltac:(cbn; lia) (move1_applicable None _ eq_refl)) as (s & vs & o' & E & _ & H).
  assert (is_ok s = true) as Es by (vm_compute in E; injection E as <- _ _; reflexivity). rewrite Es in H. destruct H as (Hc & Hv & log & Hd & H).
  assert (length (dest_ log) < 500)%nat as Hl by (clear H; vm_compute in E; injection E as _ <- _; cbn in Hd; injection Hd as <-; vm_compute; lia).
  destruct (H (set_file o' (bytes_of "db/MANIFEST-000002") (Some (dest_ log))) 3%nat 500%nat) as (s2 & save & vs2 & o3 & E2 & Hs2 & Hok); [reflexivity|vm_compute; reflexivity|lia|exact Hl|vm_compute; lia|].
  exists s, vs, o', log, s2, save, vs2, o3. split; [exact E|]. split; [exact Hc|]. split; [exact Hd|]. split; [exact E2|].
  assert (is_ok s2 = true) as Es2 by (clear H Hok; rewrite Hs2; vm_compute in E; injection E as _ _ <-; reflexivity). destruct (Hok Es2) as (H1 & _). rewrite Hv in H1.
  apply (f_equal (map (map number))) in H1. rewrite !map_map in H1. erewrite (map_ext (fun l => map number (map facts l))) in H1 by (intros l; apply facts_numbers). etransitivity; [exact H1|reflexivity].
Defined.

(** The manifest of a new database. *)
Definition manifest1 : Writer descriptor :=
  match (let! r := edit_EncodeTo (new_db bytewise_name) [] in AddRecord (Extend_at 0) (new_writer (Value_at 0) ([] : descriptor)) r) with Ret (_, w) => w | _ => new_writer (Value_at 0) [] end.

Abbreviation descriptor_log := (manifest_log (Value := Value_at 0) (usable := fun _ : descriptor => True) (written := fun f => f) (delivered := fun f => f) (failed := fun _ => false)).

Lemma manifest1_log : descriptor_log manifest1 [new_db bytewise_name].
Proof.
  destruct (new_db_ok bytewise_name name_slice) as [Hok _]. destruct (encode_edit _ Hok) as (r & Er & Hre & Hb). unfold manifest1. rewrite Er. cbn [rbind].
  destruct (AddRecord_records (usable := fun _ : descriptor => True) (written := fun f => f) (delivered := fun f => f) (failed := fun _ => false) (Value := Value_at 0) (Extend := Extend_at 0) (new_writer (Value_at 0) ([] : descriptor)) [] r) as (s & w & -> & H); [|done|].
  { split_and!; try done. constructor. }
  destruct (is_ok s); [|by destruct H]. exists [r]. split; [by constructor|done].
Qed.

Lemma set2_at : at_edits (valid := Forall is_byte) (cmp := slice_compare) bytewise_name [new_db bytewise_name] (set2 (Some manifest1)).
Proof.
  split; try done.
  - exists empty_version. split; [apply empty_leaves|done].
  - split; [|done]. constructor; [|constructor]. by split; constructor.
  - by constructor; [|constructor].
  - by left.
Qed.

Lemma manifest_recovery_witness : exists s vs log s2 save (vs2 : VersionSet descriptor) o3, log_and_apply_db (set2 (Some manifest1)) move1 no_files = Ret (s, vs, no_files) /\ descriptor_log_ vs = Some log /\
  let o2 := set_file (set_file no_files (bytes_of "db/CURRENT") (Some (bytes_of "MANIFEST-000001" ++ [10]))) (bytes_of "db/MANIFEST-000001") (Some (dest_ log)) in
  recover_db 3 500 new_version_set o2 = Ret (s2, save, vs2, o3) /\ s2 = status_ok /\ vs_next_file_number vs2 = 10 /\ same_version (current_ vs2) (current_ vs).
Proof.
  destruct (manifest_recovery (contents := fun fs : files => fs) (valid := Forall is_byte) (cmp := slice_compare) (user := BytewiseComparator) detach_file delete_file_of appendable size_of_file bytewise_name db 2097152 false
    (set2 (Some manifest1)) [new_db bytewise_name] manifest1 move1 _ no_files set2_at (set2_fits _) eq_refl manifest1_log (move1_applicable _ _ eq_refl)) as (s & vs & log & E & Hd & _ & H).
  assert (is_ok s = true) as Es by (clear H; vm_compute in E; injection E as <- _; reflexivity).
  assert (length (dest_ log) < 500)%nat as Hl by (clear H; vm_compute in E; injection E as _ <-; cbn in Hd; injection Hd as <-; vm_compute; lia).
  set (o2 := set_file (set_file no_files (bytes_of "db/CURRENT") (Some (bytes_of "MANIFEST-000001" ++ [10]))) (bytes_of "db/MANIFEST-000001") (Some (dest_ log))).
  destruct (H o2 (bytes_of "MANIFEST-000001") 3%nat 500%nat) as (s2 & save & vs2 & o3 & E2 & Hs2 & Hok); [reflexivity|reflexivity|cbn; lia|exact Hl|vm_compute; lia|].
  exists s, vs, log, s2, save, vs2, o3. split; [exact E|]. split; [exact Hd|]. cbv zeta. split; [exact E2|]. assert (is_ok s2 = true) as Es2 by (rewrite Hs2; reflexivity). split; [by destruct s2|].
  destruct (Hok Es2) as [_ Hall]. destruct (Hall Es) as (H1 & _ & _ & _ & _ & H6). split; [rewrite H6; reflexivity|exact H1].
Defined.

(** ** Obsolete files *)

Definition some_files : files := fun n => if bool_decide (n ∈ [bytes_of "db/000005.ldb"; bytes_of "db/000009.ldb"; bytes_of "db/notes"]) then Some [] else None.
Definition names_in (n : list Z) (fs : files) : list (list Z) := [bytes_of "000005.ldb"; bytes_of "000009.ldb"; bytes_of "notes"].

Lemma obsolete_files_witness : exists t e, DeleteObsoleteFiles names_in (fun n (t : list Z) => t ++ [n]) db status_ok ∅ [[[]; [file5]; []; []; []; []; []]] (set2 None) ([], some_files) = (t, e) /\
  e (bytes_of "db/000005.ldb") = Some [] /\ e (bytes_of "db/000009.ldb") = None /\ t = [9].
Proof.
  pose proof (obsolete_files (contents := fun fs : files => fs) names_in (fun n (t : list Z) => t ++ [n]) db status_ok ∅ [[[]; [file5]; []; []; []; []; []]] (set2 None) [] some_files) as H.
  destruct (DeleteObsoleteFiles _ _ _ _ _ _ _ _) as [t e] eqn:E. destruct H as (H1 & _). exists t, e. split; [reflexivity|]. split; [|vm_compute in E; injection E as <- <-; by split].
  rewrite H1; [reflexivity|]. intros name n type En Ep. apply (app_inv_head (db ++ bytes_of "/") (bytes_of "000005.ldb") name) in En. subst name. vm_compute in Ep. injection Ep as <- <-.
  right. exists [[]; [file5]; []; []; []; []; []], [file5], file5. split; [by left|]. split; [right; by left|]. split; [by left|reflexivity].
Defined.
